(* ===== verification/_CoqProject ===== *)
-Q . S2P
Prelude.v
RustStr.v
RustNum.v
Backoff.v
GraphTypes.v
Context.v
Outcome.v
Core.v
Executor.v
ExecutorLogic.v
ExecutorFacts.v
ExecutorRun.v
ExecutorProps.v
Condition.v
CondFacts.v
Failure.v
Routing.v
RoutingFacts.v
Retry.v
Workflow.v
WorkflowProps.v
CircuitBreaker.v
Stylesheet.v
Dot.v
Lint.v
LintGraph.v
LintNode.v
Validate.v
ValidateFacts.v
Navigation.v
DecText.v
Settings.v
StageIds.v
RunStatus.v
EventKeys.v
Blobs.v
Interp.v
Artifact.v
ArtifactFacts.v
Preamble.v
Fidelity.v
Hooks.v
EventScan.v
Timing.v
Billing.v
Todos.v
Events.v
Projection.v
Reducer.v
StageFacts.v
ReducerFacts.v
RunFacts.v
ReducerProps.v
RunStore.v
RunStoreProps.v
Watch.v
StageExec.v
EventLife.v
Lifecycle.v
Resume.v
ResumeProps.v
LifecycleProps.v
Interviews.v
Human.v
Stall.v
Control.v
Parallel.v
ParallelRuns.v
Patch.v
PatchFacts.v
Steering.v
SteeringFacts.v
Tools.v
LlmErrors.v
OutputSchema.v
LlmStages.v
Handlers.v
Rollup.v
ProjectionCache.v
Database.v
