(* ===== verification/Prelude.v ===== *)
(** * Fabro: a verification of the workflow engine

    Fabro runs workflows: directed graphs of stages (language-model prompts, agents,
    commands, human gates, parallel sections) written in a dialect of DOT.  A run walks
    the graph from its start node, executes the handler of each node with retries,
    records the outcome, chooses the next edge, and ends at a terminal node, at a dead
    end or with an error.  This development models the code that decides what a run
    does, as executable definitions translated from the Rust sources under src/lib, and
    proves what that code promises.

    ** The parts and how they interact

    - A workflow file is parsed: comments are stripped, the grammar yields a syntax tree,
      and a semantic pass folds it into a graph of nodes, edges and typed attributes.
    - A model stylesheet, if any, fills in missing model attributes by specificity.
    - The graph is validated by a list of lint rules; an error stops the run before it
      starts.
    - The core executor walks the graph.  It is generic: it sees the graph, the node
      handler and the lifecycle only through traits.  The workflow crate instantiates
      them with the graph above, edge routing, retry policies and the handler envelope,
      and with one lifecycle composed of six: events, hooks, fidelity, circuit breaker,
      git and artifacts.  Their shared state is the stage tracker, the breaker's tables,
      the remembered edge, the git result and the log of events.
    - Large values of the context are moved to a content-addressed blob store and come
      back as values, files or previews where a stage or a prompt needs them.
    - Hooks (commands, requests, prompts, agents) are asked at the events of a run and of
      its tool calls, and can block, skip or redirect.  Settings are interpolated strings,
      resolved in stages between the server and the worker.
    - A node is executed by the handler its type or shape names: a prompt or an agent asks a
      language model, with fallback models, repairs of answers that do not fit a schema, and
      retries of failed calls; a command runs in the sandbox; a human gate asks a person; a
      parallel node runs branches as tasks, and a fan-in joins them; a child workflow runs
      an engine of its own.
    - Questions to people, of gates and of agents, block the run while they are open; a
      watchdog that cancels a silent run and the time budgets of stages do not count that
      time.  Messages from people reach running agents through a hub; agents change files
      by patches, and the output of their tools is cut to budgets.
    - After each node a checkpoint is recorded as an event; a run that stopped is resumed
      from the projection of its events.
    - Edge routing evaluates the conditions written on edges against the outcome of the
      stage and the shared run context.
    - What happens in a run is recorded as events.  The run store appends each event to
      the log of its run, after reducing it into the projection of the run, which is
      what everybody else reads; the status machine and the stage records decide which
      events are acceptable.  Readers page through the log or watch it.
    - The store of all runs keeps the logs in one database with a catalog of the runs,
      and their projections in a cache that answers listings, summaries and bills.

    ** Where each part is modelled

    Shared ground.
    - Prelude: the [Result] type, list and option helpers, the tactics and the hint
      database [fabro].
    - RustStr: [str] and [String] methods on byte strings (an [ascii] is one byte of the
      UTF-8 text; an operation that works on characters says where that differs).
    - RustNum: 64-bit and 32-bit integers with their wrap-around, [f64] as the
      Standard Library's executable IEEE 754 binary64, [Duration].

    Engine core (lib/foundation).
    - Backoff: [BackoffPolicy] (fabro-util/src/backoff.rs).
    - GraphTypes: attribute values, nodes, edges, graphs and their typed accessors
      (fabro-types/src/graph.rs).  A HashMap is a [gmap]; the order in which Rust
      iterates it is the parameter [HashOrder], known only to be a permutation.
    - Context: JSON values and the run context (fabro-core/src/context.rs and the
      context helpers of fabro-workflow/src/context.rs).
    - Outcome: stage outcomes, failure details, node results (fabro-types/src/outcome.rs,
      fabro-core/src/outcome.rs, fabro-workflow/src/outcome.rs).
    - Core: errors, the traits as type classes, [ExecutionState] and its operations, the
      lifecycle record with its no-op and composite instances (fabro-core/src).
    - Executor: [Executor::run] and everything it calls (fabro-core/src/executor.rs) in
      a monad of state and errors.  The machine [Mach] holds the run state, the world
      (everything outside: clock, random generator, cancellation, the handlers' own
      state) and a trace of events, which the code does not have and no definition
      reads.  A Rust panic is the result [Panicked], apart from errors.
    - ExecutorLogic, ExecutorFacts, ExecutorRun: a weakest-precondition logic for that
      monad, the lemma of each operation, and the lemma of one loop iteration.
    - ExecutorProps: the theorems on whole runs, and their witnesses on a toy graph.

    - DecText, Settings, StageIds, RunStatus: decimal text, the duration and size
      settings (fabro-types/src/settings/duration.rs and size.rs), stage and branch
      identifiers (stage_id.rs) and the run-status machine (status.rs).

    Workflow engine (lib/components).
    - Condition, CondFacts: tokenizer, parser and evaluator of edge conditions
      (fabro-graphviz/src/condition.rs, fabro-workflow/src/condition.rs).
    - Failure: failure classification and signatures (fabro-workflow/src/error.rs).
    - Routing, RoutingFacts: edge selection, goal gates, retry targets
      (fabro-workflow/src/graph/routing.rs).
    - Retry: retry policies of nodes (fabro-workflow/src/retry.rs).
    - Workflow, WorkflowProps: the trait instances and one handler attempt with its
      artifact, timeout and panic envelope (fabro-workflow/src/graph.rs,
      node_handler.rs, pipeline/execute.rs).
    - CircuitBreaker: the lifecycle that stops repeating failures
      (fabro-workflow/src/lifecycle/circuit_breaker.rs).
    - Blobs: references to blobs and the blob store (fabro-types/src/blob_ref.rs,
      fabro-store/src/blob_store.rs).
    - Artifact, ArtifactFacts: offloading, resolving, materializing and
      demoting large values (fabro-workflow/src/artifact.rs).
    - Preamble: the preambles of prompts (fabro-workflow/src/handler/llm/preamble.rs).
    - Fidelity: fidelity and thread resolution and its lifecycle (lifecycle/fidelity.rs).
    - Interp: interpolated strings (fabro-types/src/settings/interp.rs).
    - Hooks: definitions, matching, executors, decisions, the bridge to tool calls and the
      lifecycle (fabro-hooks/src, fabro-workflow/src/lifecycle/hook.rs).
    - StageExec: the identities of stage executions (fabro-workflow/src/stage_execution.rs).
    - EventLife: the events of the engine, their stored form, the emitter and the event
      lifecycle (fabro-workflow/src/event, lifecycle/event.rs), and [LifeState], the state
      the parts of the lifecycle share.
    - Lifecycle, LifecycleProps: the artifact and git lifecycles, pauses, and the
      composition (fabro-workflow/src/lifecycle).
    - Resume, ResumeProps: resuming from a checkpoint (pipeline/execute.rs,
      operations/resume.rs, pipeline/types.rs), and whole runs of the engine with the
      composed lifecycle.
    - Stylesheet: the stylesheet language and its cascade
      (fabro-graphviz/src/stylesheet.rs, fabro-workflow/src/transforms).
    - Dot: comments, syntax tree and semantic pass
      (fabro-graphviz/src/parser).
    - Lint, LintGraph, LintNode, Validate: diagnostics, every built-in and
      catalog rule, and the validation passes (fabro-validate/src).
    - ValidateFacts: what the rules detect and what a validated graph satisfies.
    - Navigation: an invariant logic for the position of a run, and its
      use on validated graphs.

    Stages, people and agents (lib/components).
    - Interviews: questions, answers, the count of open interviews and the questions of
      agents (fabro-interview/src/lib.rs, fabro-workflow/src/interview_runtime.rs,
      fabro-agent/src/question_tools.rs).
    - Control: the interviewer fed from outside the run, as interleavings of its locked
      sections and one-shot channels, and the other interviewers (fabro-interview/src).
    - Human: human gates (fabro-workflow/src/handler/human.rs).
    - Stall: the watchdog and the budgets that stop while a person is asked
      (fabro-workflow/src/pipeline/execute.rs, event/emitter.rs, node_handler.rs).
    - Parallel, ParallelRuns: the plan of branches and their tasks as interleavings
      (handler/parallel.rs).
    - Patch, PatchFacts: the patch language of agents (fabro-agent/src/apply_patch.rs).
    - Steering, SteeringFacts: the hub of messages to agents, pairs and leases
      (steering_hub.rs, handler/llm/activation_lease.rs, the control state of session.rs).
    - Tools: built-in tools, permissions and output limits (fabro-agent/src).
    - LlmErrors: the errors of model calls, their retries, and the error of the engine
      (fabro-llm/src/error.rs, retry.rs, fabro-workflow/src/error.rs).
    - OutputSchema: structured answers (handler/structured_output.rs).
    - LlmStages: fallback plans, single calls, prompt and agent handlers
      (handler/llm/api.rs, routing.rs, model_fallback.rs, handler/prompt.rs, agent.rs).
    - Handlers: the registry, commands with their recorded output, fan-in, pauses and child
      workflows (handler/mod.rs, command.rs, command_log.rs, fan_in.rs, wait.rs,
      manager_loop.rs and others).

    Run store (lib/foundation/fabro-types, lib/components/fabro-store).
    - Timing, Billing, Todos: stage and run timings with saturating arithmetic
      (timing.rs), token counts and billed usage, prices and the bills of calls under each
      billing policy with the conversion of prices from floats (fabro-model/src/billing.rs),
      todo lists (todo.rs).
    - Events: the events of a run and the payload fields the reducer reads
      (fabro-types/src/run_event).
    - Projection: the projection of a run and of its stages and their operations
      (run_projection.rs, run_title.rs, run_sandbox.rs, pull_request.rs and others).
    - Reducer: [apply_event] and [apply_events] (fabro-store/src/run_state.rs) in a monad
      of the projection, with a rejected event and a Rust panic as two kinds of
      [Stop].
    - StageFacts, ReducerFacts, RunFacts: what each operation does to a stage, a
      specification logic for the reducer's monad with the lemma of each arm that
      concerns stages, and the run-level arms.
    - ReducerProps: the theorems on events and logs.
    - EventKeys, EventScan: the keys of events (keys.rs), the cursor over them, and the
      search for the latest one (slate/run_store.rs).
    - RunStore: the store of one run (slate/run_store.rs, types.rs).
    - RunStoreProps: the abstract store, which is a log with a sequence counter, the
      simulation relation [refines], and the refinement.
    - Watch: the watcher of a run against concurrent appends.
    - Rollup: the bill of a run by stage and by model
      (fabro-workflow/src/billing_rollup.rs) and its summary (run_state.rs,
      run_summary.rs).
    - ProjectionCache: the cache of all runs with its index of children
      (slate/projection_cache.rs), and the same cache without the index.
    - Database: the catalog and the store of all runs (slate/mod.rs,
      run_catalog_index.rs, record), the map of logs that specifies it, and the
      refinement, which composes those of the run store and of the cache.

    ** What the theorems show

    - Runs of the executor, for every graph, handler, lifecycle and world
      ([run_follows_lifecycle_protocol] and the other [run_] theorems of
      ExecutorProps, [failure_takes_explicit_edge_or_retry_target],
      [succeed_policy_spec]): the order of lifecycle calls (runs refine the automaton
      [phase_step]), the visit and attempt bounds, the consistency of the run state,
      termination under visit limits, absence of panics, the justification of the
      returned outcome, and the treatment of failures under the failure policies.
    - The lifecycle ([attempts_share_stage], [edge_selection_effects],
      [fidelity_before_node_context], [stage_ordinals_fresh], [metadata_snapshot_reported]):
      what each callback adds to the log and leaves in the shared state; all attempts at a
      node are one stage, and no stage identifier is used twice, resumes included.
    - Resuming ([checkpoint_resumes]; [failed_commit_loses_checkpoint],
      [failed_run_resumes_past_failure], [loop_restart_is_not_resumed] show where it does
      not do what is documented): the events of a checkpoint, reduced into the projection
      and read back, give the state the run went on with along an edge or a jump, but not
      after a loop restart.
    - Large values ([offload_resolves], [idle_attempt_keeps_context],
      [prompt_values_bounded], [truncated_blob_served]): moving a value out and back loses
      nothing, an attempt that does nothing changes nothing, and prompts stay small.
    - Prompts ([preamble_hides_internal_context]): no bookkeeping of the engine reaches a
      prompt through the context.
    - Interviews ([interviews_block_run], [agent_questions_settle], [control_answers],
      [human_gate_fails_closed], [human_choice_taken]): a run is blocked exactly while a
      question is open, however questions end; what a call returns was submitted for its
      question, or is an interruption; a gate lets a run pass only on an answer, its default
      choice, or what the workflow set for its failure.
    - Timeouts ([stall_cancel_sound], [budget_counts_unblocked_time]): nothing is cancelled
      for time spent waiting for people.
    - Parallel nodes ([parallel_branches_paired], [parallel_slots_bounded],
      [fan_in_joins_branches]): in every interleaving each branch that starts is completed
      once, slots and attempts are bounded, and a fan-in joins what was collected.
    - Agents ([patch_tool_refines], [hunks_spliced], [parse_print_patch], [steers_accounted],
      [preview_fits]; [failed_write_empties], [anchored_hunk_overlaps], [blank_last_line_lost]
      and [anonymous_message_lost] are the corners): patches do what their operations mean, no
      message of an author to an agent is lost without a report, and what is shown of an
      output is within its budget.
    - Model calls ([one_shot_follows_plan], [prompt_stage_settles], [llm_retry_bounded],
      [llm_errors_agree], [status_retried], [stage_error_reported], [closest_effort],
      [json_objects_cut], [json_object_found], [answer_taken_over], [model_error_settled],
      [agent_routing_first_found]): calls end, fall over in the order of the plan and are
      retried within bounds, or panic on a [Retry-After] that is no length of time; answers under a schema satisfy it; JSON objects are found where
      they are.
    - Handlers ([builtin_handler_chosen], [command_settles], [command_output_kept],
      [child_workflow_settles], [child_results_merged]): every node gets its handler, the
      answers and the log of commands, their output, and what a child hands back.
    - Hooks ([hooks_decide], [unresolved_hook_blocks], [hook_settings_merged]) and settings
      ([interp_source_roundtrip], [staged_resolution]): the order of decisions, failing
      closed, merging; settings survive their text, and resolving in stages is resolving
      at once.
    - The run store ([store_refines_log], [restart_recovers], [latest_seq_search],
      [event_keys_ordered], [watch_events_exact]): a client cannot tell the store, with
      its caches, from the log of its events; nothing committed is lost and every
      restart replays; keys order as sequence numbers; a watcher sees each event once
      and in order.
    - The store of all runs ([database_refines_logs], [cache_refines_entries]): through
      appends to several runs, deletions and restarts, all that is listed, summarised or
      read is what a replay of the logs gives; a deletion that breaks off in the middle
      concerns its run only and can be repeated; the index of the cache is invisible.
    - Bills ([bill_accurate], [rollup_exact]): a bill is the exact cost to within a
      micro-dollar per charge, and the views of the bill of a run agree, prices apart.
    - Events and projections ([event_verdict], [replayed_projection_ok],
      [projection_status_refines], [replay_is_live], [failed_run_settles],
      [stage_event_isolated], [live_timing_bounded]): which events are refused and why,
      the invariant of every projection a log leads to, that projections follow the
      status machine, that replay agrees with live application, that a failed run has
      nothing left in progress, that the events of a stage stay within it, and the
      bounds of the times shown while it runs.
    - Conditions ([parse_print_condition], [parse_expression_normal],
      [evaluate_condition_correct]): the printer and parser are inverse on normal
      forms, the parser only yields normal forms, and the evaluator agrees with a
      declarative satisfaction relation.
    - Routing ([select_edge_spec], [check_goal_gates_spec], [get_retry_target_spec]) and
      retries ([build_retry_policy_attempts], [delay_for_attempt_bounds],
      [default_backoff_schedule]): the priority order of edge selection, goal gates,
      retry targets; attempt counts and delays at machine width, and the exact point
      where the default schedule panics.
    - The assembled engine (WorkflowProps): the executor theorems instantiated at the
      workflow graph and handler, and the write-back of one attempt.
    - Circuit breaker, stylesheets, graph files: when the breaker stops a run, the
      cascade of a stylesheet, the graph of a syntax tree.
    - Validation (ValidateFacts): the breadth-first reachability pass equals
      reachability, endpoint reports, the structure of validated graphs, totality of
      routing on them.  Validated runs (Navigation): a run on a validated graph
      starts and never leaves the declared nodes, given handlers that jump along edges
      ([parallel_jumps_along_edge]) and a lifecycle that redirects to declared nodes; and a validated graph may still lack
      a node that the engine treats as terminal.
    - Texts and statuses: durations, sizes and stage identifiers are read back from
      their texts, with the overflow behaviour of each; the histories of the
      run-status machine, by induction over its transitions.

    ** Bounds and fuel

    - [run] takes fuel for its main loop and returns [None] when it is exhausted.
      [run_terminates] and [workflow_run_terminates] prove that [2 * L * nodes + 2] iterations are enough when every
      non-terminal node has a visit limit of at most [L]; other theorems on runs hold
      for every fuel, of every run that returned.
    - The retry loop runs on the policy's [max_attempts] as fuel; running out is the
      [unreachable!] of the source, and [run_never_panics] proves that it does not happen.
    - The tokenizer, the condition parser and the stylesheet parser take the length of
      their input (or token list) as fuel; the round-trip theorems show that
      this is enough for every printed input, and the lemma [tokenize_go_enough] that
      the tokenizer's result does not depend on it.
    - The breadth-first search of the reachability rule takes one more step than the
      graph has edges; [reachability_rule_exact] proves it exact.
    - The search for the latest event has fuel for 20 probes, as the sequence numbers
      are below 2^20; [latest_seq_search] proves that this is enough.

    - Retries of model calls have fuel for one call more than [max_retries], failing over for
      one more than the routes left, repairs for [output_retries]; [llm_retry_bounded] and
      [one_shot_follows_plan] prove that these are enough.  The search for JSON objects has
      the length of the text, the parser of patches the number of lines, the preview of an
      output one more than its budget; [json_objects_cut], [patch_tool_refines] and
      [preview_fits] are of the whole result.  The loop over a child workflow has exactly the
      cycles of its node.  The monitor of the watchdog has fuel for its rounds within one poll.
    - Interleavings (Watch, Control, ParallelRuns, SteeringFacts) are lists of steps of any
      length; the theorems hold for all of them.

    ** Parameters

    Code outside the repository enters as a class: [Regex] and [RegexReplace] (the
    regex crate), [JsonDisplay] (serde_json's printer), [Dice] (the random generator),
    [Runtime] (clock, sleeping, cancellation and stall tokens), [DotGrammar] (the nom
    grammar), [AcpSdk] (the ACP SDK and shell splitter), [Catalog] (the model catalog's
    answers).  [Services] is what the handler envelope is built over: the artifact store, the
    registered handlers and the interview-aware timeout; [artifact_services] is its
    instance with the artifacts of Artifact.v.  [ErrorText] is Rust's
    [Debug] notation of strings and the messages of the regex crate.  No law is assumed
    of any of them, except the permutation law of [HashOrder] and, where a theorem says
    so, hypotheses that its witness discharges.

    The run store is built over [SlateDb], an ordered map from keys to bytes whose scans
    are in key order, and [Codec], which reads back an event as it was written; both
    have the laws the store relies on, and an instance.  [RunIds] is the ulid crate (the
    time and the text of a run id) and [SessionCodec] the JSON of a session's entry.  The clock and the success of
    each write are arguments of the operations.

    The lifecycle is built over [BlobHashes] (SHA-256 and its text, without an assumption
    on collisions), [BlobTable] (the SQLite table of blobs: an insert adds or leaves),
    [JsonCodec] (serde_json on bytes), [ArtifactHost] (the files of the machine and of the
    sandbox), [HookHost] and [HookCodec] (processes, requests, model calls and the JSON of
    hooks), [LifeHost] (activation, pausing, collection and upload of artifacts, git
    commands, the metadata writer) and [EventClock].  Their laws, where they have any, are
    fields of the class and hold of the hosts in ArtifactFacts, Hooks and ResumeProps.

    The stages are built over [Asking] (people), [ReviewParsers] and [UnicodeLetters] (the
    url crate and the Unicode tables), [AnsiStrip], [JsonPretty], [JsonText] and
    [JsonSchemas] (serde_json and the schema validator), [PatchFiles] (the files of a
    sandbox, with the laws [PatchFilesLaws]), [ActiveOrder] (the order of a table of sessions), [ModelCatalog],
    [LlmHost] (model calls, the loop of an agent) and [HandlerHost] (running commands, their
    log, child engines; [LogLaws] is what [command_output_kept] needs of it, and holds of a
    machine in that file).

    ** What is not modelled

    The grammar combinators of the DOT parser (nom); the loop that drives an agent through
    the stream of a provider or an ACP process, the wire formats of providers, and what
    sandboxes, containers and MCP servers do; run setup, persistence and
    finalization; the git work behind checkpoints and the metadata branch; the SQLite copy
    of the summaries (only its success or failure) and the sessions themselves; the model
    catalog and the layers of settings; imports and templates of graph files; the server, the
    command line, the integrations and the web application.  These are I/O, third-party
    formats, or data.  The theorems
    on the executor quantify over every handler and lifecycle, so they cover runs that
    use those parts.  Appends to one run are serialized by its lock, so an operation of
    the store is one step; only the watcher runs beside them.  A handle is used through
    the table of open runs: a handle kept after its run was deleted is not modelled.
    Non-blocking hooks and the demotion of values run one after another in the model as in
    the source.  Where a stall ends an execution ([execute_or_stall]) the attempts it had
    made are not in the trace.  The watchdog is polled first when it is spawned; a runtime
    that polls it later only starts its first timeout later.  Tokio's limit on the permits of
    a semaphore (2^61 - 1, above which [Semaphore::new] panics) is not in
    [max_parallel_slots].  White space is that of ASCII ([is_whitespace]), except in patches,
    and non-ASCII characters count as letters in the names of MCP tools.  The handlers of stages are modelled on the worlds their code needs, and are
    not assembled into one handler of the engine. *)

From stdpp Require Export base gmap strings list numbers fin_maps sorting.
From Stdlib Require Export ZArith Lia Ascii.

#[export] Set Default Goal Selector "!".

(** ** The [Result] type of the Rust standard library *)

Inductive result (A E : Type) : Type :=
| Ok (a : A)
| Err (e : E).
Arguments Ok {A E} a.
Arguments Err {A E} e.

Definition result_bind {A B E} (m : result A E) (k : A -> result B E) : result B E :=
  match m with
  | Ok a => k a
  | Err e => Err e
  end.

Definition result_map_err {A E F} (f : E -> F) (m : result A E) : result A F :=
  match m with
  | Ok a => Ok a
  | Err e => Err (f e)
  end.

Definition result_ok {A E} (m : result A E) : option A :=
  match m with
  | Ok a => Some a
  | Err _ => None
  end.

Definition is_ok {A E} (m : result A E) : bool :=
  match m with
  | Ok _ => true
  | Err _ => false
  end.

Declare Scope fabro_scope.
Delimit Scope fabro_scope with fabro.

(** The [?] operator. *)
Notation "'try' x := m 'in' k" := (result_bind m (fun x => k))
  (at level 10, x binder, m at level 100, k at level 200) : fabro_scope.

#[export] Instance result_eq_dec {A E} `{EqDecision A, EqDecision E} :
  EqDecision (result A E).
Proof. solve_decision. Defined.

(** ** Shared automation *)

Create HintDb fabro.

(** Split every conjunction and existential of the context. *)
Ltac split_hyps :=
  repeat match goal with
  | H : _ /\ _ |- _ => destruct H
  | H : exists _, _ |- _ => destruct H
  end.

(** Case analysis on every [match] and [if] of the goal, closing the easy
    branches. *)
Ltac crush_match :=
  repeat (case_match; simplify_eq/=; try done).

(** Turn boolean tests of the hypotheses and the goal into propositions. *)
Ltac bool_prop :=
  repeat match goal with
  | H : _ && _ = true |- _ => apply andb_true_iff in H; destruct H
  | H : _ || _ = false |- _ => apply orb_false_iff in H; destruct H
  | H : negb _ = true |- _ => apply negb_true_iff in H
  | H : negb _ = false |- _ => apply negb_false_iff in H
  | H : bool_decide _ = true |- _ => apply bool_decide_eq_true in H
  | H : bool_decide _ = false |- _ => apply bool_decide_eq_false in H
  | H : Z.leb _ _ = true |- _ => apply Z.leb_le in H
  | H : Z.leb _ _ = false |- _ => apply Z.leb_gt in H
  | H : Z.ltb _ _ = true |- _ => apply Z.ltb_lt in H
  | H : Z.ltb _ _ = false |- _ => apply Z.ltb_ge in H
  | H : Z.eqb _ _ = true |- _ => apply Z.eqb_eq in H
  | H : Z.eqb _ _ = false |- _ => apply Z.eqb_neq in H
  | H : String.eqb _ _ = true |- _ => apply String.eqb_eq in H
  | H : String.eqb _ _ = false |- _ => apply String.eqb_neq in H
  end.

(** ** Options, as the Rust standard library uses them *)

Definition is_some_and {A} (f : A -> bool) (o : option A) : bool :=
  match o with
  | Some a => f a
  | None => false
  end.

Definition is_none_or {A} (f : A -> bool) (o : option A) : bool :=
  match o with
  | Some a => f a
  | None => true
  end.

Definition is_some {A} (o : option A) : bool :=
  match o with
  | Some _ => true
  | None => false
  end.

Definition or_else {A} (o : option A) (k : option A) : option A :=
  match o with
  | Some a => Some a
  | None => k
  end.

Definition opt_filter {A} (f : A -> bool) (o : option A) : option A :=
  match o with
  | Some a => if f a then Some a else None
  | None => None
  end.

Lemma is_some_and_true {A} (f : A -> bool) o :
  is_some_and f o = true <-> exists a, o = Some a /\ f a = true.
Proof.
  destruct o as [a|]; simpl; split.
  - eauto.
  - intros (a' & [= <-] & Hf). done.
  - done.
  - by intros (a' & ? & _).
Qed.

Lemma opt_filter_Some {A} (f : A -> bool) o a :
  opt_filter f o = Some a <-> o = Some a /\ f a = true.
Proof.
  destruct o as [b|]; simpl; [|by split; [|intros [? _]]].
  destruct (f b) eqn:E; split.
  - intros [= ->]. done.
  - by intros [[= ->] _].
  - done.
  - intros [[= ->] H]. congruence.
Qed.

Lemma is_some_true {A} (o : option A) : is_some o = true <-> is_Some o.
Proof. destruct o; split; [by eauto|done|done|by intros [? ?]]. Qed.

(** ** Lists *)

(** [Iterator::find]. *)
Fixpoint find_first {A} (f : A -> bool) (l : list A) : option A :=
  match l with
  | [] => None
  | x :: l => if f x then Some x else find_first f l
  end.

(** [Iterator::find_map]. *)
Fixpoint find_map {A B} (f : A -> option B) (l : list A) : option B :=
  match l with
  | [] => None
  | x :: l => match f x with
              | Some y => Some y
              | None => find_map f l
              end
  end.

(** [Iterator::filter] with a boolean closure. *)
Definition filterb {A} (f : A -> bool) (l : list A) : list A := List.filter f l.

Lemma find_first_Some {A} (f : A -> bool) l x :
  find_first f l = Some x ->
  exists l1 l2, l = l1 ++ x :: l2 /\ f x = true /\ Forall (fun y => f y = false) l1.
Proof.
  induction l as [|y l IH]; simpl; [done|].
  destruct (f y) eqn:E.
  - intros [= ->]. exists [], l. eauto.
  - intros H. destruct (IH H) as (l1 & l2 & -> & Hx & Hl).
    exists (y :: l1), l2. split; [done|]. split; [done|]. by constructor.
Qed.

Lemma find_first_Some_elem {A} (f : A -> bool) l x :
  find_first f l = Some x -> x ∈ l /\ f x = true.
Proof.
  intros (l1 & l2 & -> & Hx & _)%find_first_Some. set_solver.
Qed.

Lemma find_first_None {A} (f : A -> bool) l :
  find_first f l = None <-> forall x, x ∈ l -> f x = false.
Proof.
  induction l as [|y l IH]; simpl.
  - split; [intros _ x Hx; by apply not_elem_of_nil in Hx|done].
  - destruct (f y) eqn:E; split.
    + done.
    + intros H. rewrite H in E; [done|left].
    + intros H x [->|Hx]%elem_of_cons; [done|]. by apply IH.
    + intros H. apply IH. intros x Hx. apply H. by right.
Qed.

Lemma filterb_cons {A} (f : A -> bool) x l : filterb f (x :: l) = if f x then x :: filterb f l else filterb f l.
Proof. done. Qed.

Lemma filterb_elem {A} (f : A -> bool) l x :
  x ∈ filterb f l <-> x ∈ l /\ f x = true.
Proof. unfold filterb. rewrite !list_elem_of_In. apply filter_In. Qed.

Lemma filterb_app {A} (f : A -> bool) l1 l2 : filterb f (l1 ++ l2) = (filterb f l1 ++ filterb f l2).
Proof. unfold filterb. by rewrite List.filter_app. Qed.

Lemma filterb_all {A} (f : A -> bool) l : (forall x, x ∈ l -> f x = true) -> filterb f l = l.
Proof.
  induction l as [|x l IH]; intros Hf; [done|]. cbn. rewrite Hf by left. f_equal. apply IH.
  intros y Hy. apply Hf. by right.
Qed.

Lemma filterb_none {A} (f : A -> bool) l : (forall a, a ∈ l -> f a = false) -> filterb f l = [].
Proof.
  intros Hf. induction l as [|a l IH]; [done|]. cbn. rewrite Hf by set_solver. apply IH. set_solver.
Qed.

Lemma filterb_ext {A} (f g : A -> bool) l : (forall a, a ∈ l -> f a = g a) -> filterb f l = filterb g l.
Proof.
  intros Hf. induction l as [|a l IH]; [done|]. cbn. rewrite Hf by set_solver.
  destruct (g a); [f_equal|]; apply IH; set_solver.
Qed.

Lemma filterb_fmap {A B} (f : B -> bool) (g : A -> B) l : filterb f (g <$> l) = g <$> filterb (fun a => f (g a)) l.
Proof. unfold filterb. induction l as [|a l IH]; [done|]. cbn [fmap list_fmap List.filter]. rewrite IH. by destruct (f (g a)). Qed.

Lemma filterb_nil {A} (f : A -> bool) l :
  filterb f l = [] <-> forall x, x ∈ l -> f x = false.
Proof.
  induction l as [|y l IH]; simpl.
  - split; [intros _ x Hx; by apply not_elem_of_nil in Hx|done].
  - destruct (f y) eqn:E; split.
    + done.
    + intros H. rewrite H in E; [done|left].
    + intros H x [->|Hx]%elem_of_cons; [done|]. by apply IH.
    + intros H. apply IH. intros x Hx. apply H. by right.
Qed.

#[export] Hint Resolve find_first_Some_elem : fabro.
