(* ===== verification/RustStr.v ===== *)
(** * Rust strings

    A Rust [str] is modelled by the [string] of its UTF-8 bytes.  Every function
    that looks only at ASCII characters is then exact on all text, because no
    byte of a multi-byte UTF-8 sequence is below 128.  The two families whose
    Unicode tables are not reproduced are white space ([trim], [is_whitespace])
    and case mapping ([to_lowercase]): they act on the ASCII characters and leave
    every other byte alone, so a statement about them speaks of text whose white
    space and upper-case letters are ASCII. *)

From S2P Require Import Prelude.
From Stdlib Require Import DecimalString.
Local Open Scope string_scope.

(** ** Characters *)

Definition code (c : ascii) : N := N_of_ascii c.

Definition in_range (lo hi : N) (c : ascii) : bool :=
  (N.leb lo (code c) && N.leb (code c) hi)%bool.

Definition is_ascii_digit (c : ascii) : bool := in_range 48 57 c.
Definition is_ascii_lowercase (c : ascii) : bool := in_range 97 122 c.
Definition is_ascii_uppercase (c : ascii) : bool := in_range 65 90 c.
Definition is_ascii_alphabetic (c : ascii) : bool :=
  (is_ascii_lowercase c || is_ascii_uppercase c)%bool.
Definition is_ascii_alphanumeric (c : ascii) : bool :=
  (is_ascii_alphabetic c || is_ascii_digit c)%bool.

(** [char::is_whitespace] on the ASCII range. *)
Definition is_whitespace (c : ascii) : bool :=
  (in_range 9 13 c || N.eqb (code c) 32)%bool.

Definition to_ascii_lowercase (c : ascii) : ascii :=
  if is_ascii_uppercase c then ascii_of_N (code c + 32) else c.

(** The characters that Rocq's string literals cannot spell directly. *)
Definition ch_quote : ascii := "034".
Definition ch_newline : ascii := "010".
Definition ch_tab : ascii := "009".
Definition ch_backslash : ascii := "\".
Definition dq : string := String ch_quote "".
Definition nl : string := String ch_newline "".

(** A UTF-8 continuation byte: an index in front of one is not a character
    boundary, and slicing there panics. *)
Definition is_continuation (c : ascii) : bool := in_range 128 191 c.

(** ** Predicates and maps over strings *)

Fixpoint str_forall (f : ascii -> bool) (s : string) : bool :=
  match s with
  | "" => true
  | String c s => (f c && str_forall f s)%bool
  end.

Fixpoint str_exists (f : ascii -> bool) (s : string) : bool :=
  match s with
  | "" => false
  | String c s => (f c || str_exists f s)%bool
  end.

Fixpoint str_map (f : ascii -> ascii) (s : string) : string :=
  match s with
  | "" => ""
  | String c s => String (f c) (str_map f s)
  end.

Fixpoint str_filter (f : ascii -> bool) (s : string) : string :=
  match s with
  | "" => ""
  | String c s => if f c then String c (str_filter f s) else str_filter f s
  end.

(** The longest prefix whose characters satisfy [f], and the rest:
    [s.split_at(s.find(|c| !f(c)).unwrap_or(s.len()))]. *)
Fixpoint str_span (f : ascii -> bool) (s : string) : string * string :=
  match s with
  | "" => ("", "")
  | String c s' =>
      if f c then let '(a, b) := str_span f s' in (String c a, b) else ("", s)
  end.

Definition str_is_empty (s : string) : bool := String.eqb s "".

(** ** Trimming and case *)

Fixpoint trim_start (s : string) : string :=
  match s with
  | "" => ""
  | String c s' => if is_whitespace c then trim_start s' else s
  end.

Fixpoint trim_end (s : string) : string :=
  match s with
  | "" => ""
  | String c s' =>
      match trim_end s' with
      | "" => if is_whitespace c then "" else String c ""
      | t => String c t
      end
  end.

Definition trim (s : string) : string := trim_end (trim_start s).

Definition to_lowercase (s : string) : string := str_map to_ascii_lowercase s.

(** ** Prefixes, suffixes, search *)

Fixpoint strip_prefix (p s : string) : option string :=
  match p, s with
  | "", _ => Some s
  | String a p, String b s => if Ascii.eqb a b then strip_prefix p s else None
  | String _ _, "" => None
  end.

Definition starts_with (p s : string) : bool := is_some (strip_prefix p s).

Fixpoint strip_suffix (p s : string) : option string :=
  if String.eqb p s then Some ""
  else match s with
       | "" => None
       | String c s => String c <$> strip_suffix p s
       end.

Definition ends_with (p s : string) : bool := is_some (strip_suffix p s).

(** [s.find(pat)], as the text before the first occurrence and the text after
    it. *)
Fixpoint split_once (pat s : string) : option (string * string) :=
  match strip_prefix pat s with
  | Some rest => Some ("", rest)
  | None =>
      match s with
      | "" => None
      | String c s => (fun ab => (String c ab.1, ab.2)) <$> split_once pat s
      end
  end.

Definition str_contains (pat s : string) : bool := is_some (split_once pat s).

Definition str_contains_char (c : ascii) (s : string) : bool :=
  str_exists (Ascii.eqb c) s.

(** [s.split(c)] for a single character. *)
Fixpoint split_char (c : ascii) (s : string) : list string :=
  match s with
  | "" => [""]
  | String d s =>
      match split_char c s with
      | [] => [""]
      | w :: ws => if Ascii.eqb c d then "" :: w :: ws else String d w :: ws
      end
  end.

(** [s.split_whitespace()]: the non-empty pieces between white space. *)
Fixpoint split_space_go (s : string) : string * list string :=
  match s with
  | "" => ("", [])
  | String c s =>
      let '(w, ws) := split_space_go s in
      if is_whitespace c
      then ("", if str_is_empty w then ws else w :: ws)
      else (String c w, ws)
  end.

Definition split_whitespace (s : string) : list string :=
  let '(w, ws) := split_space_go s in
  if str_is_empty w then ws else w :: ws.

(** [s.split(pat)] for a two-character pattern such as [&&]. *)
Fixpoint split_pat (fuel : nat) (pat s : string) : list string :=
  match fuel with
  | O => [s]
  | S fuel =>
      match split_once pat s with
      | Some (a, b) => a :: split_pat fuel pat b
      | None => [s]
      end
  end.

(** [parts.join(sep)]. *)
Fixpoint str_join (sep : string) (l : list string) : string :=
  match l with
  | [] => ""
  | [x] => x
  | x :: l => x ++ sep ++ str_join sep l
  end.

(** [s.replace(pat, by)] for a non-empty pattern; every step consumes at least
    one character, so the length of the text is enough fuel. *)
Fixpoint str_replace_go (fuel : nat) (pat by_ s : string) : string :=
  match fuel with
  | O => s
  | S fuel =>
      match split_once pat s with
      | Some (a, b) => a ++ by_ ++ str_replace_go fuel pat by_ b
      | None => s
      end
  end.

Definition str_replace (pat by_ s : string) : string :=
  str_replace_go (String.length s) pat by_ s.

(** ** Slicing at a byte index: [None] is the panic of [&s[..n]] *)

Fixpoint slice_to (n : nat) (s : string) : option string :=
  match n, s with
  | O, "" => Some ""
  | O, String c _ => if is_continuation c then None else Some ""
  | S n, String c s => String c <$> slice_to n s
  | S _, "" => None
  end.

(** [input.chars().take(n)]: a character ends where the next one starts. *)
Fixpoint take_chars (n : nat) (s : string) : string :=
  match s with
  | "" => ""
  | String c s' =>
      if is_continuation c then String c (take_chars n s')
      else match n with
           | O => ""
           | S n => String c (take_chars n s')
           end
  end.

(** [input.chars().count()]: one character per byte that is not a continuation. *)
Fixpoint count_chars (s : string) : nat :=
  match s with
  | "" => 0
  | String c s => (if is_continuation c then 0 else 1) + count_chars s
  end.

(** ** Integers and their text *)

Definition Z_to_string (z : Z) : string := NilZero.string_of_int (Z.to_int z).

Definition nat_to_string (n : nat) : string := Z_to_string (Z.of_nat n).

Fixpoint digits_value (acc : Z) (s : string) : option Z :=
  match s with
  | "" => Some acc
  | String c s =>
      if is_ascii_digit c
      then digits_value (10 * acc + (Z.of_N (code c) - 48))%Z s
      else None
  end.

Definition parse_digits (s : string) : option Z :=
  if str_is_empty s then None else digits_value 0 s.

Definition u32_max : Z := 4294967295.
Definition i32_max : Z := 2147483647.
Definition u64_max : Z := 18446744073709551615.
Definition usize_max : Z := u64_max.
Definition i64_max : Z := 9223372036854775807.
Definition i64_min : Z := -9223372036854775808.

Definition in_bounds (lo hi z : Z) : option Z :=
  if (Z.leb lo z && Z.leb z hi)%bool then Some z else None.

(** [str::parse::<u64>]: an optional [+], then decimal digits, in range. *)
Definition parse_u64 (s : string) : option Z :=
  let digits := match s with
                | String "+" r => r
                | _ => s
                end in
  z ← parse_digits digits; in_bounds 0 u64_max z.

(** [str::parse::<i64>]. *)
Definition parse_i64 (s : string) : option Z :=
  match s with
  | String "-" r => z ← parse_digits r; in_bounds i64_min i64_max (- z)
  | String "+" r => z ← parse_digits r; in_bounds i64_min i64_max z
  | _ => z ← parse_digits s; in_bounds i64_min i64_max z
  end.

(** The order of [str]: byte by byte. *)
Definition str_ltb (a b : string) : bool := String.ltb a b.

(** ** Text lemmas *)

Lemma append_cons c a b : String c a +:+ b = String c (a +:+ b).
Proof. done. Qed.

Lemma append_nil_l b : "" +:+ b = b.
Proof. done. Qed.

Lemma append_nil_r s : s +:+ "" = s.
Proof. induction s as [|c s IH]; [done|]. by rewrite append_cons, IH. Qed.

Lemma append_assoc a b c : (a +:+ b) +:+ c = a +:+ (b +:+ c).
Proof. induction a as [|x a IH]; [done|]. by rewrite !append_cons, IH. Qed.

Lemma length_append a b : String.length (a +:+ b) = (String.length a + String.length b)%nat.
Proof. induction a as [|x a IH]; [done|]. rewrite append_cons. cbn. by rewrite IH. Qed.

Lemma strip_prefix_length p s r :
  strip_prefix p s = Some r -> String.length s = (String.length p + String.length r)%nat.
Proof.
  revert s. induction p as [|a p IH]; intros s; cbn; [by intros [= ->]|].
  destruct s as [|b s]; [done|]. destruct (Ascii.eqb a b); [|done]. intros Hs%IH. cbn. lia.
Qed.

Lemma split_once_length pat s a b :
  split_once pat s = Some (a, b) ->
  String.length s = (String.length a + String.length pat + String.length b)%nat.
Proof.
  revert a b. induction s as [|c s IH]; intros a b; cbn [split_once].
  - destruct (strip_prefix pat "") eqn:Hp; [|done]. intros [= <- <-].
    apply strip_prefix_length in Hp. done.
  - destruct (strip_prefix pat (String c s)) eqn:Hp.
    + intros [= <- <-]. apply strip_prefix_length in Hp. done.
    + destruct (split_once pat s) as [[a' b']|] eqn:Hs; cbn; [|done].
      intros [= <- <-]. specialize (IH _ _ eq_refl). cbn. lia.
Qed.

(** [str::replace] from left to right. *)
Lemma str_replace_go_enough pat by_ s f1 f2 :
  pat <> "" -> (String.length s <= f1)%nat -> (String.length s <= f2)%nat ->
  str_replace_go f1 pat by_ s = str_replace_go f2 pat by_ s.
Proof.
  intros Hpat. assert (1 <= String.length pat)%nat as Hlen by (destruct pat; [done|cbn; lia]).
  revert s f2. induction f1 as [|f1 IH]; intros s f2 H1 H2.
  - destruct s; [|cbn in H1; lia]. destruct f2; [done|]. cbn. destruct pat; done.
  - destruct f2 as [|f2].
    + destruct s; [|cbn in H2; lia]. cbn. destruct pat; done.
    + cbn. destruct (split_once pat s) as [[a b]|] eqn:Hs; [|done].
      apply split_once_length in Hs. rewrite (IH b f2); [done|lia..].
Qed.

Lemma str_replace_hit pat by_ s r :
  pat <> "" -> strip_prefix pat s = Some r ->
  str_replace pat by_ s = by_ +:+ str_replace pat by_ r.
Proof.
  intros Hpat Hs. pose proof (strip_prefix_length _ _ _ Hs) as Hl.
  assert (1 <= String.length pat)%nat by (destruct pat; [done|cbn; lia]).
  unfold str_replace. destruct s as [|c s]; [cbn in Hl; lia|].
  cbn [String.length str_replace_go split_once]. rewrite Hs. cbn -[String.append]. rewrite append_nil_l. f_equal.
  apply str_replace_go_enough; [done|cbn in Hl; lia..].
Qed.

Lemma str_replace_miss pat by_ c s :
  pat <> "" -> strip_prefix pat (String c s) = None ->
  str_replace pat by_ (String c s) = String c (str_replace pat by_ s).
Proof.
  intros Hpat Hs. unfold str_replace. cbn [String.length str_replace_go split_once]. rewrite Hs.
  assert (1 <= String.length pat)%nat by (destruct pat; [done|cbn; lia]).
  destruct (split_once pat s) as [[a b]|] eqn:Ho.
  - destruct s as [|d s]; [cbn in Ho; by destruct pat|].
    cbn [String.length str_replace_go]. rewrite Ho. cbn -[String.append str_replace_go]. rewrite append_cons. do 3 f_equal.
    apply split_once_length in Ho. cbn in Ho.
    change (str_replace_go (S (String.length s)) pat by_ b = str_replace_go (String.length s) pat by_ b).
    apply str_replace_go_enough; [done|lia..].
  - destruct (String.length s) eqn:Hl; cbn; [done|]. by rewrite Ho.
Qed.

Lemma str_span_forall f w rest :
  str_forall f w = true -> (rest = "" \/ exists c r, rest = String c r /\ f c = false) ->
  str_span f (w +:+ rest) = (w, rest).
Proof.
  intros Hw Hr. induction w as [|c w IH].
  - rewrite append_nil_l. destruct Hr as [->|(c & r & -> & Hc)]; cbn; [done|]. by rewrite Hc.
  - cbn in Hw. apply andb_true_iff in Hw as [Hc Hw]. rewrite append_cons. cbn [str_span].
    rewrite Hc, IH by done. done.
Qed.

Lemma str_forall_impl (f g : ascii -> bool) s :
  (forall c, f c = true -> g c = true) -> str_forall f s = true -> str_forall g s = true.
Proof.
  intros Hfg. induction s as [|c s IH]; cbn; [done|].
  intros [Hc Hs]%andb_true_iff. apply andb_true_iff. auto.
Qed.

Lemma trim_end_append a b : trim_end b <> "" -> trim_end (a +:+ b) = a +:+ trim_end b.
Proof.
  intros Hb. induction a as [|c a IH]; [done|]. rewrite !append_cons. cbn [trim_end]. rewrite IH.
  destruct (a +:+ trim_end b) eqn:He; [|done].
  destruct a; [rewrite append_nil_l in He|]; done.
Qed.

Lemma trim_end_nonspace s : str_forall (fun c => negb (is_whitespace c)) s = true -> trim_end s = s.
Proof.
  induction s as [|c s IH]; [done|]. cbn. intros [Hc Hs]%andb_true_iff. rewrite IH by done.
  apply negb_true_iff in Hc. destruct s; [by rewrite Hc|done].
Qed.

(** A text that is its own trimming. *)
Definition trimmed (s : string) : Prop := trim s = s.

Lemma trim_solid c s : is_whitespace c = false -> trim_end (String c s) = String c s -> trimmed (String c s).
Proof. intros Hc Hs. unfold trimmed, trim. cbn [trim_start]. by rewrite Hc. Qed.

Lemma trimmed_head c s : trimmed (String c s) -> is_whitespace c = false.
Proof.
  unfold trimmed, trim. cbn [trim_start]. destruct (is_whitespace c) eqn:Hc; [|done].
  intros He. exfalso. apply (f_equal String.length) in He. revert He.
  assert (forall t, (String.length (trim_end t) <= String.length t)%nat) as Hend.
  { induction t as [|d t IH]; cbn; [lia|]. destruct (trim_end t); [destruct (is_whitespace d)|]; cbn in *; lia. }
  assert (forall t, (String.length (trim_start t) <= String.length t)%nat) as Hstart.
  { induction t as [|d t IH]; cbn; [lia|]. destruct (is_whitespace d); cbn in *; lia. }
  specialize (Hend (trim_start s)). specialize (Hstart s). cbn. lia.
Qed.
