(* ===== verification/RustNum.v ===== *)
(** * Rust numbers

    Binary64 arithmetic on the executable IEEE-754 specification of the standard
    library ([SpecFloat] at precision 53), the decimal grammar of
    [str::parse::<f64>] with correct rounding, and [Duration] with its panicking
    conversions.  A [Duration] is the integer number of its nanoseconds. *)

From S2P Require Import Prelude RustStr.
From Stdlib Require Export SpecFloat.
Local Open Scope Z_scope.

(** ** [f64] *)

Abbreviation f64 := spec_float.

Definition f64_mul (x y : f64) : f64 := SFmul 53 1024 x y.
Definition f64_add (x y : f64) : f64 := SFadd 53 1024 x y.
Definition f64_sub (x y : f64) : f64 := SFsub 53 1024 x y.
Definition f64_div (x y : f64) : f64 := SFdiv 53 1024 x y.

(** [z as f64]. *)
Definition f64_of_Z (z : Z) : f64 := binary_normalize 53 1024 z 0 false.

Definition f64_zero : f64 := S754_zero false.

Definition f64_lt (x y : f64) : bool := SFltb x y.
Definition f64_le (x y : f64) : bool := SFleb x y.

#[export] Instance f64_eq_dec : EqDecision f64.
Proof. solve_decision. Defined.

(** The correctly rounded value of [(-1)^sign * m * 10^e]. *)
Definition f64_of_decimal (sign : bool) (m e : Z) : f64 :=
  match m with
  | Zpos p =>
      if 0 <=? e then binary_normalize 53 1024 (cond_Zopp sign (m * 10 ^ e)) 0 sign
      else let '(mz, ez, lz) := SFdiv_core_binary 53 1024 m 0 (10 ^ (- e)) 0 in
           binary_round_aux 53 1024 sign mz ez lz
  | _ => S754_zero sign
  end.

(** The exponent part of a float literal: [e] or [E], an optional sign, digits. *)
Definition parse_exponent (s : string) : option Z :=
  match s with
  | "" => Some 0
  | String c r =>
      if (Ascii.eqb c "e" || Ascii.eqb c "E")%bool
      then match r with
           | String "-" r => Z.opp <$> parse_digits r
           | String "+" r => parse_digits r
           | _ => parse_digits r
           end
      else None
  end.

Definition parse_decimal (sign : bool) (s : string) : option f64 :=
  let '(ip, r) := str_span is_ascii_digit s in
  let '(fp, r) := match r with
                  | String "." r => str_span is_ascii_digit r
                  | _ => ("", r)
                  end in
  if str_is_empty (ip +:+ fp) then None
  else m ← parse_digits (ip +:+ fp);
       e ← parse_exponent r;
       Some (f64_of_decimal sign m (e - Z.of_nat (String.length fp))).

Definition parse_unsigned_f64 (sign : bool) (s : string) : option f64 :=
  let l := to_lowercase s in
  if (String.eqb l "inf" || String.eqb l "infinity")%bool then Some (S754_infinity sign)
  else if String.eqb l "nan" then Some S754_nan
  else parse_decimal sign s.

(** [str::parse::<f64>]. *)
Definition parse_f64 (s : string) : option f64 :=
  match s with
  | String "-" r => parse_unsigned_f64 true r
  | String "+" r => parse_unsigned_f64 false r
  | _ => parse_unsigned_f64 false s
  end.

Example parse_f64_tenth : parse_f64 "0.1" = Some (S754_finite false 7205759403792794 (-56)).
Proof. vm_compute. reflexivity. Qed.

Example parse_f64_int : parse_f64 "-5" = Some (f64_of_Z (-5)).
Proof. vm_compute. reflexivity. Qed.

Example parse_f64_garbage : parse_f64 "." = None /\ parse_f64 "1e" = None.
Proof. vm_compute. done. Qed.

(** ** [Duration] *)

Definition Duration := Z.

Definition nanos_per_sec : Z := 1000000000.

(** [Duration::MAX] in nanoseconds. *)
Definition duration_max : Duration := u64_max * nanos_per_sec + 999999999.

Definition from_millis (n : Z) : Duration := n * 1000000.
Definition from_secs (n : Z) : Duration := n * nanos_per_sec.
Definition from_mins (n : Z) : Duration := n * 60 * nanos_per_sec.

Definition as_millis (d : Duration) : Z := d / 1000000.

(** [Duration::as_secs_f64]. *)
Definition as_secs_f64 (d : Duration) : f64 :=
  f64_add (f64_of_Z (d / nanos_per_sec))
          (f64_div (f64_of_Z (d mod nanos_per_sec)) (f64_of_Z nanos_per_sec)).

(** [m * 2^e] rounded to the nearest integer, ties to even. *)
Definition round_half_even (m e : Z) : Z :=
  if 0 <=? e then m * 2 ^ e
  else let q := m / 2 ^ (- e) in
       let r := m mod 2 ^ (- e) in
       if 2 * r <? 2 ^ (- e) then q
       else if 2 ^ (- e) <? 2 * r then q + 1
       else if Z.even q then q else q + 1.

(** [Duration::from_secs_f64]: [None] is its panic on a negative, NaN or
    overflowing argument. *)
Definition from_secs_f64 (x : f64) : option Duration :=
  match x with
  | S754_nan => None
  | S754_zero _ => Some 0
  | S754_infinity _ => None
  | S754_finite true _ _ => None
  | S754_finite false m e =>
      let n := round_half_even (Zpos m * nanos_per_sec) e in
      if n <=? duration_max then Some n else None
  end.

(** [Duration::mul_f64]. *)
Definition mul_f64 (d : Duration) (x : f64) : option Duration :=
  from_secs_f64 (f64_mul x (as_secs_f64 d)).

Lemma from_secs_f64_range x d : from_secs_f64 x = Some d -> 0 <= d <= duration_max.
Proof.
  unfold from_secs_f64, duration_max, nanos_per_sec, u64_max.
  destruct x as [| |  |[|] m e]; intros H; simplify_eq; [lia|].
  destruct (Z.leb_spec (round_half_even (Zpos m * 1000000000) e)
             (18446744073709551615 * 1000000000 + 999999999)) as [Hle|]; simplify_eq/=.
  split; [|lia]. unfold round_half_even.
  assert (0 < 2 ^ (- e) \/ e > 0) as Hp by (destruct (Z.le_gt_cases e 0); [left; apply Z.pow_pos_nonneg; lia|lia]).
  destruct (Z.leb_spec 0 e); [apply Z.mul_nonneg_nonneg; [lia|apply Z.pow_nonneg; lia]|].
  assert (0 <= Zpos m * 1000000000 / 2 ^ (- e)) by (apply Z.div_pos; lia).
  repeat case_match; lia.
Qed.

Lemma mul_f64_range d x r : mul_f64 d x = Some r -> 0 <= r <= duration_max.
Proof. unfold mul_f64. apply from_secs_f64_range. Qed.
