(* ===== verification/Backoff.v ===== *)
(** * Exponential backoff (fabro-util/src/backoff.rs)

    The delay before the next attempt: [initial_delay * factor^(attempt - 1)],
    capped, with an optional random factor.  [Duration::mul_f64] panics when the
    product does not fit a [Duration]; the product is formed before the cap. *)

From S2P Require Import Prelude RustStr RustNum.
Local Open Scope Z_scope.

Record BackoffPolicy := mkBackoff {
  initial_delay : Duration;
  factor : f64;
  max_delay : Duration;
  jitter : bool
}.

Definition BackoffPolicy_default : BackoffPolicy :=
  mkBackoff (from_secs 1) (f64_of_Z 2) (from_mins 1) false.

(** [f64::powi] at an exponent [0 <= b <= i32::MAX]: square and multiply, as the
    compiler runtime does it.  31 rounds consume any such exponent. *)
Fixpoint powi_loop (fuel : nat) (r a : f64) (b : Z) : f64 :=
  match fuel with
  | O => r
  | S fuel =>
      let r := if Z.odd b then f64_mul r a else r in
      if b / 2 =? 0 then r else powi_loop fuel r (f64_mul a a) (b / 2)
  end.

Definition powi (x : f64) (b : Z) : f64 := powi_loop 31 (f64_of_Z 1) x b.

(** [i32::try_from(attempt.saturating_sub(1)).unwrap_or(i32::MAX)]. *)
Definition backoff_exponent (attempt : Z) : Z := Z.min (Z.max 0 (attempt - 1)) i32_max.

Definition capped_delay (b : BackoffPolicy) (attempt : Z) : option Duration :=
  base ← mul_f64 (initial_delay b) (powi (factor b) (backoff_exponent attempt));
  Some (if max_delay b <? base then max_delay b else base).

(** [draw] is [rand::rng().random_range(0.5..1.5)], taken only under [jitter];
    [None] is the panic of [mul_f64]. *)
Definition delay_for_attempt {W} (draw : W -> f64 * W) (b : BackoffPolicy) (attempt : Z) (w : W)
    : option Duration * W :=
  match capped_delay b attempt with
  | None => (None, w)
  | Some capped =>
      if jitter b
      then let '(x, w) := draw w in (mul_f64 capped x, w)
      else (Some capped, w)
  end.
