(* ===== verification/GraphTypes.v ===== *)
(** * The workflow graph (fabro-types/src/graph.rs)

    Attribute values, nodes, edges and graphs with their typed accessors, the
    failure policy and the handler vocabulary.  Attribute tables and the node
    table are [HashMap]s: they are [gmap]s here, and the one thing a [gmap]
    hides, the order in which a [HashMap] is iterated, is a parameter of the
    model ([HashOrder]) constrained only to enumerate the entries. *)

From S2P Require Import Prelude RustStr RustNum.
Local Open Scope Z_scope.

(** ** Iteration order of a [HashMap] *)

Class HashOrder := {
  hash_iter : forall {A}, gmap string A -> list (string * A);
  hash_iter_perm : forall {A} (m : gmap string A), hash_iter m ≡ₚ map_to_list m
}.

Definition hash_values `{HashOrder} {A} (m : gmap string A) : list A := snd <$> hash_iter m.
Definition hash_keys `{HashOrder} {A} (m : gmap string A) : list string := fst <$> hash_iter m.

Section hash_order.
Context `{HashOrder} {A : Type}.
Implicit Types (m : gmap string A).

Lemma hash_iter_elem m k v : (k, v) ∈ hash_iter m <-> m !! k = Some v.
Proof. rewrite hash_iter_perm. apply elem_of_map_to_list. Qed.

Lemma hash_values_elem m v : v ∈ hash_values m <-> exists k, m !! k = Some v.
Proof.
  unfold hash_values. rewrite list_elem_of_fmap. split.
  - intros ([k v'] & -> & Hin%hash_iter_elem). eauto.
  - intros (k & Hk%hash_iter_elem). by exists (k, v).
Qed.

Lemma hash_keys_elem m k : k ∈ hash_keys m <-> is_Some (m !! k).
Proof.
  unfold hash_keys. rewrite list_elem_of_fmap. split.
  - intros ([k' v] & -> & Hin%hash_iter_elem). eauto.
  - intros (v & Hk%hash_iter_elem). by exists (k, v).
Qed.

Lemma hash_keys_NoDup m : NoDup (hash_keys m).
Proof. unfold hash_keys. rewrite hash_iter_perm. apply NoDup_fst_map_to_list. Qed.

Lemma hash_iter_NoDup m : NoDup (hash_iter m).
Proof. rewrite hash_iter_perm. apply NoDup_map_to_list. Qed.
End hash_order.

(** ** Failure policy *)

Inductive OnFailure := Route | Exit | Succeed.

#[export] Instance OnFailure_eq_dec : EqDecision OnFailure.
Proof. solve_decision. Defined.

Definition OnFailure_default : OnFailure := Route.

(** [strum::Display] and [strum::EnumString] with [serialize_all = snake_case]. *)
Definition OnFailure_to_string (p : OnFailure) : string :=
  match p with
  | Route => "route"
  | Exit => "exit"
  | Succeed => "succeed"
  end.

Definition OnFailure_from_str (s : string) : option OnFailure :=
  if String.eqb s "route" then Some Route
  else if String.eqb s "exit" then Some Exit
  else if String.eqb s "succeed" then Some Succeed
  else None.

Definition OnFailure_expected_values : string :=
  str_join ", " ["route"; "exit"; "succeed"].

Inductive AttributeScope := ScopeGraph | ScopeNode | ScopeEdge.

Definition AttributeScope_to_string (s : AttributeScope) : string :=
  match s with
  | ScopeGraph => "graph"
  | ScopeNode => "node"
  | ScopeEdge => "edge"
  end.

Record ResolvedOnFailure := {
  rof_policy : OnFailure;
  rof_scope : AttributeScope
}.

Definition resolved_node (p : OnFailure) : ResolvedOnFailure :=
  {| rof_policy := p; rof_scope := ScopeNode |}.
Definition resolved_graph (p : OnFailure) : ResolvedOnFailure :=
  {| rof_policy := p; rof_scope := ScopeGraph |}.

(** ** Attribute values *)

Inductive AttrValue :=
| AString (s : string)
| AInteger (n : Z)
| AFloat (f : f64)
| ABoolean (b : bool)
| ADuration (d : Duration).

#[export] Instance AttrValue_eq_dec : EqDecision AttrValue.
Proof. unfold Duration. solve_decision. Defined.

Definition as_str (v : AttrValue) : option string :=
  match v with AString s => Some s | _ => None end.
Definition as_i64 (v : AttrValue) : option Z :=
  match v with AInteger n => Some n | _ => None end.
Definition as_f64 (v : AttrValue) : option f64 :=
  match v with AFloat f => Some f | _ => None end.
Definition as_bool (v : AttrValue) : option bool :=
  match v with ABoolean b => Some b | _ => None end.
Definition as_duration (v : AttrValue) : option Duration :=
  match v with ADuration d => Some d | _ => None end.

Abbreviation Attrs := (gmap string AttrValue).

Definition attr_str (attrs : Attrs) (key : string) : option string :=
  v ← attrs !! key; as_str v.
Definition attr_bool (attrs : Attrs) (key : string) : option bool :=
  v ← attrs !! key; as_bool v.
Definition attr_int (attrs : Attrs) (key : string) : option Z :=
  v ← attrs !! key; as_i64 v.
Definition attr_duration (attrs : Attrs) (key : string) : option Duration :=
  v ← attrs !! key; as_duration v.

Definition contains_key {A} (m : gmap string A) (k : string) : bool := is_some (m !! k).

(** ** Handler vocabulary *)

Definition is_llm_handler_type (handler_type : option string) : bool :=
  is_some_and (fun t => String.eqb t "agent" || String.eqb t "prompt")%bool handler_type.

Definition KNOWN_HANDLER_TYPES : list string :=
  ["start"; "exit"; "agent"; "prompt"; "human"; "conditional"; "parallel";
   "parallel.fan_in"; "command"; "tool"; "stack.manager_loop"; "wait"].

Definition str_mem (s : string) (l : list string) : bool := existsb (String.eqb s) l.

Definition is_known_handler_type (handler_type : string) : bool :=
  str_mem handler_type KNOWN_HANDLER_TYPES.

Definition shape_to_handler_type (shape : string) : option string :=
  if String.eqb shape "Mdiamond" then Some "start"
  else if String.eqb shape "Msquare" then Some "exit"
  else if String.eqb shape "box" then Some "agent"
  else if String.eqb shape "tab" then Some "prompt"
  else if String.eqb shape "hexagon" then Some "human"
  else if String.eqb shape "diamond" then Some "conditional"
  else if String.eqb shape "component" then Some "parallel"
  else if String.eqb shape "tripleoctagon" then Some "parallel.fan_in"
  else if String.eqb shape "parallelogram" then Some "command"
  else if String.eqb shape "house" then Some "stack.manager_loop"
  else if String.eqb shape "insulator" then Some "wait"
  else None.

Inductive ContextKeyAttr := KeyAbsent | KeyInvalid | KeyPresent (k : string).

(** ** Nodes *)

Record Node := mkNode {
  node_id : string;
  node_attrs : Attrs;
  node_classes : list string
}.

#[export] Instance Node_eq_dec : EqDecision Node.
Proof. solve_decision. Defined.

Definition node_new (id : string) : Node := mkNode id ∅ [].

Definition node_set_attr (k : string) (v : AttrValue) (n : Node) : Node :=
  mkNode (node_id n) (<[k := v]> (node_attrs n)) (node_classes n).

Definition add_class (class : string) (n : Node) : Node :=
  let class := trim class in
  if (negb (str_is_empty class) && negb (str_mem class (node_classes n)))%bool
  then mkNode (node_id n) (node_attrs n) (node_classes n ++ [class])
  else n.

Definition node_str_attr (n : Node) (key : string) : option string := attr_str (node_attrs n) key.
Definition node_bool_attr (n : Node) (key : string) : option bool := attr_bool (node_attrs n) key.
Definition node_int_attr (n : Node) (key : string) : option Z := attr_int (node_attrs n) key.

Definition node_label (n : Node) : string := default (node_id n) (node_str_attr n "label").
Definition node_type (n : Node) : option string := node_str_attr n "type".

Definition node_shape (n : Node) : string :=
  match node_str_attr n "shape" with
  | Some shape => shape
  | None =>
      if (negb (is_some (node_type n)) && contains_key (node_attrs n) "script")%bool
      then "parallelogram" else "box"
  end.

Definition node_prompt (n : Node) : option string := node_str_attr n "prompt".
Definition node_script (n : Node) : option string := node_str_attr n "script".

Definition prompt_or_label (n : Node) : string :=
  default (node_label n) (opt_filter (fun p => negb (str_is_empty p)) (node_prompt n)).

Definition node_for_each (n : Node) : option string := node_str_attr n "for_each".

Definition context_key_attr (n : Node) (name : string) : ContextKeyAttr :=
  match node_attrs n !! name with
  | None => KeyAbsent
  | Some value =>
      match as_str value with
      | Some source => if negb (str_is_empty (trim source)) then KeyPresent source else KeyInvalid
      | None => KeyInvalid
      end
  end.

Definition output_schema (n : Node) : option string := node_str_attr n "output_schema".
Definition output_retries (n : Node) : Z := Z.max (default 2 (node_int_attr n "output_retries")) 0.
Definition node_max_retries (n : Node) : option Z := node_int_attr n "max_retries".
Definition node_max_visits (n : Node) : option Z := node_int_attr n "max_visits".
Definition goal_gate (n : Node) : bool := default false (node_bool_attr n "goal_gate").
Definition review_target (n : Node) : bool := default false (node_bool_attr n "review_target").
Definition node_retry_target (n : Node) : option string := node_str_attr n "retry_target".
Definition node_fallback_retry_target (n : Node) : option string :=
  node_str_attr n "fallback_retry_target".
Definition auto_status (n : Node) : bool := default false (node_bool_attr n "auto_status").

Definition node_on_failure (n : Node) : option OnFailure :=
  match node_attrs n !! "on_failure" with
  | Some value => s ← as_str value; OnFailure_from_str s
  | None => if auto_status n then Some Succeed else None
  end.

Definition node_fidelity (n : Node) : option string := node_str_attr n "fidelity".
Definition node_thread_id (n : Node) : option string := node_str_attr n "thread_id".
Definition node_timeout (n : Node) : option Duration := attr_duration (node_attrs n) "timeout".
Definition node_model (n : Node) : option string := node_str_attr n "model".
Definition node_provider (n : Node) : option string := node_str_attr n "provider".
Definition max_tokens (n : Node) : option Z :=
  opt_filter (fun v => 0 <? v) (node_int_attr n "max_tokens").
Definition node_speed (n : Node) : option string := node_str_attr n "speed".
Definition allow_partial (n : Node) : bool := default false (node_bool_attr n "allow_partial").
Definition project_memory (n : Node) : bool := default true (node_bool_attr n "project_memory").
Definition node_retry_policy (n : Node) : option string := node_str_attr n "retry_policy".
Definition node_backend (n : Node) : option string := node_str_attr n "backend".
Definition legacy_acp_command_attr (n : Node) : option string := node_str_attr n "acp_command".
Definition acp_command_attr (n : Node) : option string := node_str_attr n "acp.command".
Definition acp_config_attr (n : Node) : option string := node_str_attr n "acp.config".
Definition node_selection (n : Node) : string := default "deterministic" (node_str_attr n "selection").

Definition handler_type (n : Node) : option string :=
  match node_type n with
  | Some t => if String.eqb t "tool" then Some "command" else Some t
  | None => shape_to_handler_type (node_shape n)
  end.

(** ** Edges *)

Record Edge := mkEdge {
  edge_from : string;
  edge_to : string;
  edge_attrs : Attrs
}.

#[export] Instance Edge_eq_dec : EqDecision Edge.
Proof. solve_decision. Defined.

Definition edge_new (from to : string) : Edge := mkEdge from to ∅.

Definition edge_str_attr (e : Edge) (key : string) : option string := attr_str (edge_attrs e) key.
Definition edge_bool_attr (e : Edge) (key : string) : option bool := attr_bool (edge_attrs e) key.
Definition edge_int_attr (e : Edge) (key : string) : option Z := attr_int (edge_attrs e) key.

Definition edge_label (e : Edge) : option string := edge_str_attr e "label".
Definition edge_condition (e : Edge) : option string := edge_str_attr e "condition".
Definition edge_weight (e : Edge) : Z := default 0 (edge_int_attr e "weight").
Definition edge_fidelity (e : Edge) : option string := edge_str_attr e "fidelity".
Definition edge_thread_id (e : Edge) : option string := edge_str_attr e "thread_id".
Definition loop_restart (e : Edge) : bool := default false (edge_bool_attr e "loop_restart").
Definition freeform (e : Edge) : bool := default false (edge_bool_attr e "freeform").

(** ** Graphs *)

Record Graph := mkGraph {
  graph_name : string;
  graph_nodes : gmap string Node;
  graph_edges : list Edge;
  graph_attrs : Attrs
}.

Definition graph_new (name : string) : Graph := mkGraph name ∅ [] ∅.

Definition outgoing_edges (g : Graph) (id : string) : list Edge :=
  filterb (fun e => String.eqb (edge_from e) id) (graph_edges g).
Definition incoming_edges (g : Graph) (id : string) : list Edge :=
  filterb (fun e => String.eqb (edge_to e) id) (graph_edges g).

Definition find_start_node `{HashOrder} (g : Graph) : option Node :=
  match find_first (fun n => String.eqb (node_shape n) "Mdiamond") (hash_values (graph_nodes g)) with
  | Some n => Some n
  | None => or_else (graph_nodes g !! "start") (graph_nodes g !! "Start")
  end.

Definition find_exit_node `{HashOrder} (g : Graph) : option Node :=
  match find_first (fun n => String.eqb (node_shape n) "Msquare") (hash_values (graph_nodes g)) with
  | Some n => Some n
  | None => or_else (graph_nodes g !! "exit")
             (or_else (graph_nodes g !! "Exit")
               (or_else (graph_nodes g !! "end") (graph_nodes g !! "End")))
  end.

Definition graph_goal (g : Graph) : string := default "" (attr_str (graph_attrs g) "goal").
Definition model_stylesheet (g : Graph) : string :=
  default "" (attr_str (graph_attrs g) "model_stylesheet").
Definition default_max_retries (g : Graph) : Z :=
  default 0 (attr_int (graph_attrs g) "default_max_retries").
Definition graph_retry_target (g : Graph) : option string := attr_str (graph_attrs g) "retry_target".
Definition graph_fallback_retry_target (g : Graph) : option string :=
  attr_str (graph_attrs g) "fallback_retry_target".

Definition graph_on_failure (g : Graph) : OnFailure :=
  default OnFailure_default (s ← attr_str (graph_attrs g) "on_failure"; OnFailure_from_str s).

Definition resolve_on_failure (g : Graph) (n : Node) : ResolvedOnFailure :=
  match node_on_failure n with
  | Some policy => resolved_node policy
  | None => resolved_graph (graph_on_failure g)
  end.

Definition default_fidelity (g : Graph) : option string := attr_str (graph_attrs g) "default_fidelity".
Definition default_thread (g : Graph) : option string := attr_str (graph_attrs g) "default_thread".

Definition loop_restart_signature_limit (g : Graph) : Z :=
  default 3 (opt_filter (fun v => 1 <=? v) (attr_int (graph_attrs g) "loop_restart_signature_limit")).

Definition stall_timeout (g : Graph) : option Duration :=
  match attr_duration (graph_attrs g) "stall_timeout" with
  | Some d => if d =? 0 then None else Some d
  | None => Some (from_mins 30)
  end.

Definition max_node_visits (g : Graph) : Z :=
  default 0 (n ← attr_int (graph_attrs g) "max_node_visits"; in_bounds 0 u64_max n).

(** ** Static file references *)

Inductive GraphReferenceKind := RefFileInline | RefImport | RefChildWorkflow | RefGraphGoalFile.

Definition scope_is_node (s : AttributeScope) : bool :=
  match s with ScopeNode => true | _ => false end.
Definition scope_is_graph (s : AttributeScope) : bool :=
  match s with ScopeGraph => true | _ => false end.

Definition reference_kind_for_attribute (scope : AttributeScope) (key value : string)
    : option GraphReferenceKind :=
  if (String.eqb key "import" && scope_is_node scope)%bool then Some RefImport
  else if (String.eqb key "stack.child_workflow" && scope_is_node scope)%bool
  then Some RefChildWorkflow
  else if (String.eqb key "goal" && (scope_is_graph scope && starts_with "@" value))%bool
  then Some RefGraphGoalFile
  else if ((String.eqb key "prompt" || String.eqb key "output_schema")
           && (scope_is_node scope && starts_with "@" value))%bool
  then Some RefFileInline
  else None.

(** ** Well-formed graphs

    The node table is keyed by node id: the parser, the stylesheet and every
    graph builder keep it so, and the engine relies on it when it looks a node
    up by id and then counts visits under [node.id()]. *)

Definition keyed_by_id (g : Graph) : Prop :=
  forall k n, graph_nodes g !! k = Some n -> node_id n = k.

Lemma contains_key_true {A} (m : gmap string A) k : contains_key m k = true <-> is_Some (m !! k).
Proof. apply is_some_true. Qed.

Lemma str_mem_true s l : str_mem s l = true <-> s ∈ l.
Proof.
  unfold str_mem. rewrite existsb_exists, list_elem_of_In. split.
  - intros (x & Hx & ->%String.eqb_eq). done.
  - intros Hin. exists s. split; [done|]. apply String.eqb_refl.
Qed.

Lemma outgoing_edges_elem g id e :
  e ∈ outgoing_edges g id <-> e ∈ graph_edges g /\ edge_from e = id.
Proof. unfold outgoing_edges. rewrite filterb_elem, String.eqb_eq. done. Qed.

Lemma incoming_edges_elem g id e :
  e ∈ incoming_edges g id <-> e ∈ graph_edges g /\ edge_to e = id.
Proof. unfold incoming_edges. rewrite filterb_elem, String.eqb_eq. done. Qed.

Lemma find_start_node_in `{HashOrder} g n :
  find_start_node g = Some n -> exists k, graph_nodes g !! k = Some n.
Proof.
  unfold find_start_node. destruct (find_first _ _) as [m|] eqn:E.
  - intros [= <-]. apply find_first_Some_elem in E as [Hin _]. by apply hash_values_elem in Hin.
  - unfold or_else. case_match; intros; simplify_eq; eauto.
Qed.

#[export] Hint Resolve find_start_node_in : fabro.
