(* ===== verification/Context.v ===== *)
(** * JSON values and the run context

    The values a workflow context holds (serde_json's [Value]) and the context
    itself (fabro-core/src/context.rs), with the keys and helpers the workflow
    engine adds (fabro-workflow/src/context.rs).

    In the source a context is an [Arc<RwLock<HashMap>>]: [clone] shares the
    table and [fork] copies it.  The model passes the table explicitly: an
    operation that mutates a context returns the new table, and the executor
    threads the table of [state.context] through every callback that can reach
    it.  [serde_json] is not part of the repository: the type of its values is
    reproduced, and its [Display] is the parameter [JsonDisplay]. *)

From S2P Require Import Prelude RustStr RustNum.
Local Open Scope Z_scope.

(** ** Values *)

Inductive JNumber :=
| PosInt (z : Z)
| NegInt (z : Z)
| FloatNum (f : f64).

Inductive Value :=
| JNull
| JBool (b : bool)
| JNum (n : JNumber)
| JString (s : string)
| JArray (l : list Value)
| JObject (l : list (string * Value)).

Definition jnumber_eqb (a b : JNumber) : bool :=
  match a, b with
  | PosInt x, PosInt y => x =? y
  | NegInt x, NegInt y => x =? y
  | FloatNum x, FloatNum y => SFeqb x y
  | _, _ => false
  end.

Fixpoint assoc {A} (k : string) (l : list (string * A)) : option A :=
  match l with
  | [] => None
  | (k', v) :: l => if String.eqb k k' then Some v else assoc k l
  end.

(** [PartialEq]: arrays pointwise, objects as maps. *)
Fixpoint value_eqb (a b : Value) {struct a} : bool :=
  match a, b with
  | JNull, JNull => true
  | JBool x, JBool y => Bool.eqb x y
  | JNum x, JNum y => jnumber_eqb x y
  | JString x, JString y => String.eqb x y
  | JArray xs, JArray ys =>
      (fix go xs ys := match xs, ys with
                       | [], [] => true
                       | x :: xs, y :: ys => (value_eqb x y && go xs ys)%bool
                       | _, _ => false
                       end) xs ys
  | JObject xs, JObject ys =>
      (Nat.eqb (length xs) (length ys) &&
       (fix go xs := match xs with
                     | [] => true
                     | (k, x) :: xs =>
                         (match assoc k ys with
                          | Some y => value_eqb x y
                          | None => false
                          end && go xs)%bool
                     end) xs)%bool
  | _, _ => false
  end.

Definition value_as_str (v : Value) : option string :=
  match v with JString s => Some s | _ => None end.

Definition value_as_u64 (v : Value) : option Z :=
  match v with JNum (PosInt z) => Some z | _ => None end.

(** [serde_json]'s text of a number or of a compound value. *)
Class JsonDisplay := {
  number_to_string : JNumber -> string;
  compound_to_string : Value -> string
}.

(** ** The context (fabro-core) *)

Abbreviation Context := (gmap string Value).

Definition context_new : Context := ∅.
Definition context_from_values (values : gmap string Value) : Context := values.
Definition ctx_set (key : string) (value : Value) (c : Context) : Context := <[key := value]> c.
Definition ctx_get (c : Context) (key : string) : option Value := c !! key.

Definition get_string (c : Context) (key dflt : string) : string :=
  default dflt (v ← ctx_get c key; value_as_str v).

(** Every update overwrites the entry of its key; the updates come from a
    [HashMap], so their keys are distinct and their order is immaterial. *)
Definition apply_updates (updates : gmap string Value) (c : Context) : Context := updates ∪ c.

Definition context_snapshot (c : Context) : gmap string Value := c.
Definition context_fork (c : Context) : Context := context_snapshot c.

Definition current_node_id (c : Context) : string := get_string c "current_node" "".

Definition node_visit_count (c : Context) : Z :=
  default 0 (v ← ctx_get c "internal.node_visit_count"; value_as_u64 v).

(** ** Context keys (fabro-workflow) *)

Definition CURRENT_NODE : string := "current_node".
Definition KEY_OUTCOME : string := "outcome".
Definition FAILURE_CLASS : string := "failure_class".
Definition FAILURE_SIGNATURE : string := "failure_signature".
Definition PREFERRED_LABEL : string := "preferred_label".
Definition LAST_STAGE : string := "last_stage".
Definition LAST_RESPONSE : string := "last_response".
Definition INTERNAL_FIDELITY : string := "internal.fidelity".
Definition INTERNAL_THREAD_ID : string := "internal.thread_id".
Definition INTERNAL_NODE_VISIT_COUNT : string := "internal.node_visit_count".
Definition INTERNAL_PREFIX : string := "internal.".
Definition GRAPH_PREFIX : string := "graph.".
Definition THREAD_PREFIX : string := "thread.".
Definition CURRENT_PREFIX : string := "current".
Definition RESPONSE_PREFIX : string := "response.".
Definition INTERNAL_RETRY_COUNT_PREFIX : string := "internal.retry_count.".

Definition response_key (id : string) : string := RESPONSE_PREFIX +:+ id.
Definition thread_current_node_key (tid : string) : string := THREAD_PREFIX +:+ tid +:+ ".current_node".
Definition graph_attr_key (attr : string) : string := GRAPH_PREFIX +:+ attr.
Definition retry_count_key (id : string) : string := INTERNAL_RETRY_COUNT_PREFIX +:+ id.

Definition is_engine_internal_key (key : string) : bool :=
  (starts_with INTERNAL_PREFIX key || starts_with GRAPH_PREFIX key
   || starts_with THREAD_PREFIX key || starts_with CURRENT_PREFIX key)%bool.

Definition is_preamble_hidden_key (key : string) : bool :=
  (is_engine_internal_key key || starts_with RESPONSE_PREFIX key
   || String.eqb key KEY_OUTCOME || String.eqb key LAST_STAGE
   || String.eqb key LAST_RESPONSE || String.eqb key PREFERRED_LABEL)%bool.

(** The entries of [after] whose value differs from [before]'s. *)
Definition context_diff (before after : gmap string Value) : gmap string Value :=
  filter (fun kv => negb (match before !! kv.1 with
                          | Some v => value_eqb v kv.2
                          | None => false
                          end) = true) after.

Definition context_diff_public (before after : gmap string Value) : gmap string Value :=
  filter (fun kv => negb (is_engine_internal_key kv.1) = true) (context_diff before after).

Definition lookup_flat (c : Context) (key : string) : option Value :=
  match strip_prefix "context." key with
  | Some bare => or_else (ctx_get c key) (ctx_get c bare)
  | None => ctx_get c key
  end.
