(* ===== verification/Outcome.v ===== *)
(** * Stage outcomes (fabro-types/src/outcome.rs, fabro-workflow/src/outcome.rs)

    The result of executing one node: its status, routing hints, context
    updates and failure details, and the operations the engine applies to it. *)

From S2P Require Import Prelude RustStr RustNum GraphTypes Context.
Local Open Scope Z_scope.

(** ** Status *)

Inductive StageOutcome :=
| Succeeded
| PartiallySucceeded
| Failed (retry_requested : bool)
| Skipped.

#[export] Instance StageOutcome_eq_dec : EqDecision StageOutcome.
Proof. solve_decision. Defined.

Definition is_successful (s : StageOutcome) : bool :=
  match s with Succeeded | PartiallySucceeded => true | _ => false end.
Definition is_failure (s : StageOutcome) : bool :=
  match s with Failed _ => true | _ => false end.
Definition retry_requested (s : StageOutcome) : bool :=
  match s with Failed true => true | _ => false end.

Definition StageOutcome_to_string (s : StageOutcome) : string :=
  match s with
  | Succeeded => "succeeded"
  | PartiallySucceeded => "partially_succeeded"
  | Failed _ => "failed"
  | Skipped => "skipped"
  end.

Definition StageOutcome_from_str (s : string) : result StageOutcome string :=
  if String.eqb s "succeeded" then Ok Succeeded
  else if String.eqb s "partially_succeeded" then Ok PartiallySucceeded
  else if String.eqb s "failed" then Ok (Failed false)
  else if String.eqb s "skipped" then Ok Skipped
  else Err ("unknown stage outcome: " +:+ s).

Inductive StageState :=
| SPending | SRunning | SRetrying | SSucceeded | SPartiallySucceeded
| SFailed | SSkipped | SCancelled.

Definition StageState_is_terminal (s : StageState) : bool :=
  match s with
  | SSucceeded | SPartiallySucceeded | SFailed | SSkipped | SCancelled => true
  | _ => false
  end.

Definition StageState_from (o : StageOutcome) : StageState :=
  match o with
  | Succeeded => SSucceeded
  | PartiallySucceeded => SPartiallySucceeded
  | Failed true => SRetrying
  | Failed false => SFailed
  | Skipped => SSkipped
  end.

(** ** Failures *)

Inductive FailureCategory :=
| TransientInfra | Deterministic | BudgetExhausted | CompilationLoop | Canceled | Structural.

#[export] Instance FailureCategory_eq_dec : EqDecision FailureCategory.
Proof. solve_decision. Defined.

Definition FailureCategory_to_string (c : FailureCategory) : string :=
  match c with
  | TransientInfra => "transient_infra"
  | Deterministic => "deterministic"
  | BudgetExhausted => "budget_exhausted"
  | CompilationLoop => "compilation_loop"
  | Canceled => "canceled"
  | Structural => "structural"
  end.

Definition FailureCategory_from_str (s : string) : FailureCategory :=
  let normalized := to_lowercase (trim s) in
  if str_mem normalized
       ["transient_infra"; "transient"; "transient-infra"; "infra_transient"; "transient infra";
        "infrastructure_transient"; "retryable"; "toolchain_workspace_io";
        "toolchain-workspace-io"; "toolchain_or_dependency_registry_unavailable";
        "toolchain-dependency-registry-unavailable"] then TransientInfra
  else if str_mem normalized
       ["budget_exhausted"; "budget-exhausted"; "budget exhausted"; "budget"] then BudgetExhausted
  else if str_mem normalized
       ["compilation_loop"; "compilation-loop"; "compilation loop"; "compile_loop"; "compile-loop"]
  then CompilationLoop
  else if str_mem normalized ["canceled"; "cancelled"] then Canceled
  else if str_mem normalized
       ["structural"; "structure"; "scope_violation"; "write_scope_violation"] then Structural
  else Deterministic.

Definition is_signature_tracked (c : FailureCategory) : bool :=
  match c with Deterministic | Structural => true | _ => false end.

Inductive SystemActorKind := ActorEngine | ActorWatchdog | ActorTimeout.

#[export] Instance SystemActorKind_eq_dec : EqDecision SystemActorKind.
Proof. solve_decision. Defined.

Record ExecOutputTail := {
  tail_stdout : option string;
  tail_stderr : option string;
  stdout_truncated : bool;
  stderr_truncated : bool
}.

#[export] Instance ExecOutputTail_eq_dec : EqDecision ExecOutputTail.
Proof. solve_decision. Defined.

Record FailureDetail := mkFailure {
  message : string;
  causes : list string;
  category : FailureCategory;
  system_actor : option SystemActorKind;
  signature : option string;
  exec_output_tail : option ExecOutputTail
}.

#[export] Instance FailureDetail_eq_dec : EqDecision FailureDetail.
Proof. solve_decision. Defined.

Definition FailureDetail_new (msg : string) (cat : FailureCategory) : FailureDetail :=
  mkFailure msg [] cat None None None.

(** ** Timing *)

Record StageTiming := {
  wall_time_ms : Z;
  inference_time_ms : Z;
  tool_time_ms : Z;
  active_time_ms : Z
}.

Definition saturating_add_u64 (a b : Z) : Z := Z.min (a + b) u64_max.
Definition saturating_sub (a b : Z) : Z := Z.max 0 (a - b).

Definition StageTiming_new (wall inference tool : Z) : StageTiming :=
  {| wall_time_ms := wall; inference_time_ms := inference; tool_time_ms := tool;
     active_time_ms := saturating_add_u64 inference tool |}.

(** ** Outcomes *)

(** The metadata an outcome carries ([OutcomeMeta]); only its default is used. *)
Class OutcomeMeta (M : Type) := meta_default : M.

Record Outcome (M : Type) := mkOutcome {
  status : StageOutcome;
  preferred_label : option string;
  suggested_next_ids : list string;
  context_updates : gmap string Value;
  jump_to_node : option string;
  notes : option string;
  failure : option FailureDetail;
  usage : M;
  files_touched : list string;
  timing : option StageTiming
}.
Arguments mkOutcome {M}.
Arguments status {M}.
Arguments preferred_label {M}.
Arguments suggested_next_ids {M}.
Arguments context_updates {M}.
Arguments jump_to_node {M}.
Arguments notes {M}.
Arguments failure {M}.
Arguments usage {M}.
Arguments files_touched {M}.
Arguments timing {M}.

Section outcome.
Context {M : Type} `{OutcomeMeta M}.

Definition outcome_default : Outcome M :=
  mkOutcome Succeeded None [] ∅ None None None meta_default [] None.

Definition outcome_success : Outcome M := outcome_default.

(** Struct update syntax: the fields of [o] with another status. *)
Definition with_status (s : StageOutcome) (o : Outcome M) : Outcome M :=
  mkOutcome s (preferred_label o) (suggested_next_ids o) (context_updates o) (jump_to_node o)
    (notes o) (failure o) (usage o) (files_touched o) (timing o).

Definition with_notes (n : option string) (o : Outcome M) : Outcome M :=
  mkOutcome (status o) (preferred_label o) (suggested_next_ids o) (context_updates o)
    (jump_to_node o) n (failure o) (usage o) (files_touched o) (timing o).

Definition with_failure (s : StageOutcome) (f : FailureDetail) : Outcome M :=
  mkOutcome s None [] ∅ None None (Some f) meta_default [] None.

Definition outcome_fail (msg : string) : Outcome M :=
  with_failure (Failed false) (mkFailure msg [] Deterministic None None None).

Definition outcome_skipped (reason : string) : Outcome M :=
  mkOutcome Skipped None [] ∅ None (Some reason) None meta_default [] None.

(** The new outcome and whether the policy promoted it. *)
Definition apply_on_failure (p : ResolvedOnFailure) (o : Outcome M) : Outcome M * bool :=
  if (negb (bool_decide (rof_policy p = Succeed)) || negb (is_failure (status o)))%bool
  then (o, false)
  else
    let note := AttributeScope_to_string (rof_scope p)
                +:+ " on_failure=succeed promoted a failed outcome to succeeded" in
    let notes' := match notes o with
                  | Some existing => existing +:+ nl +:+ note
                  | None => note
                  end in
    (with_notes (Some notes') (with_status Succeeded o), true).

Definition failure_reason (o : Outcome M) : option string := message <$> failure o.
Definition failure_category (o : Outcome M) : option FailureCategory := category <$> failure o.

Definition classified_failure_category (o : Outcome M) : option FailureCategory :=
  match status o with
  | Succeeded | PartiallySucceeded | Skipped => None
  | Failed _ => or_else (failure_category o) (Some Deterministic)
  end.

Definition fail_deterministic (reason : string) : Outcome M :=
  with_failure (Failed false) (FailureDetail_new reason Deterministic).

(** ** Node results *)

Record NodeResult := mkResult {
  outcome : Outcome M;
  wall_time : Duration;
  inference_time : Duration;
  tool_time : Duration;
  attempts : Z;
  max_attempts : Z
}.

Definition from_skip (o : Outcome M) : NodeResult := mkResult o 0 0 0 0 0.

Definition set_outcome (o : Outcome M) (r : NodeResult) : NodeResult :=
  mkResult o (wall_time r) (inference_time r) (tool_time r) (attempts r) (max_attempts r).
End outcome.
Arguments NodeResult : clear implicits.

(** The text of a status parses back to it, up to the retry request that the
    text does not carry. *)
Lemma StageOutcome_roundtrip s :
  StageOutcome_from_str (StageOutcome_to_string s) =
  Ok (match s with Failed _ => Failed false | s => s end).
Proof. by destruct s as [| |[]|]. Qed.

Lemma apply_on_failure_status {M} `{OutcomeMeta M} p (o : Outcome M) :
  (rof_policy p = Succeed /\ is_failure (status o) = true ->
   status (apply_on_failure p o).1 = Succeeded /\ (apply_on_failure p o).2 = true) /\
  (~ (rof_policy p = Succeed /\ is_failure (status o) = true) ->
   apply_on_failure p o = (o, false)).
Proof.
  unfold apply_on_failure. split.
  - intros [Hp Hs]. rewrite bool_decide_eq_true_2 by done. rewrite Hs. done.
  - intros Hn. case_bool_decide as Hp; simpl; [|done].
    destruct (is_failure (status o)) eqn:E; [|done]. by destruct Hn.
Qed.
