(* ===== verification/Core.v ===== *)
(** * The engine core: errors, traits and run state

    fabro-core/src/{error,graph,handler,lifecycle,retry,state,outcome}.rs.

    The traits of the core ([Graph], [NodeHandler], [RunLifecycle]) are type
    classes.  A trait method that can have side effects takes and returns the
    world [W], and, when it can reach [state.context], the table of that context:
    in the source a callback mutates it through the shared [Arc]. *)

From S2P Require Import Prelude RustStr RustNum Backoff GraphTypes Context Outcome.
Local Open Scope Z_scope.

(** ** Errors (error.rs) *)

Inductive VisitLimitSource := LimitNode | LimitGraph.

Definition VisitLimitSource_to_string (s : VisitLimitSource) : string :=
  match s with LimitNode => "node" | LimitGraph => "graph" end.

Record HandlerErrorDetail := {
  retryable : bool;
  detail_failure : FailureDetail
}.

Inductive CoreError :=
| NodeNotFound (id : string)
| NoStartNode
| Cancelled
| Blocked (msg : string)
| VisitLimitExceeded (id : string) (visits limit : Z) (source : VisitLimitSource)
| StallTimeout (id : string)
| HandlerError (detail : HandlerErrorDetail)
| ContextError (msg source : string)
| OtherError (msg : string).

Definition CoreError_to_string (e : CoreError) : string :=
  match e with
  | NodeNotFound id => "node not found: " +:+ id
  | NoStartNode => "no start node found in graph"
  | Cancelled => "run cancelled"
  | Blocked msg => "blocked: " +:+ msg
  | VisitLimitExceeded id visits limit source =>
      "node " +:+ dq +:+ id +:+ dq +:+ " visited " +:+ Z_to_string visits +:+ " times ("
      +:+ VisitLimitSource_to_string source +:+ " limit " +:+ Z_to_string limit
      +:+ "); run is stuck in a cycle"
  | StallTimeout id => "stall timeout on node " +:+ dq +:+ id +:+ dq
  | HandlerError d => message (detail_failure d)
  | ContextError msg _ => msg
  | OtherError msg => msg
  end.

Definition is_retryable (e : CoreError) : bool :=
  match e with HandlerError d => retryable d | _ => false end.

Definition to_fail_outcome {M} `{OutcomeMeta M} (e : CoreError) : Outcome M :=
  match e with
  | HandlerError d => with_failure (Failed false) (detail_failure d)
  | other => outcome_fail (CoreError_to_string other)
  end.

(** [NodeResultExt::from_error] (outcome.rs). *)
Definition from_error {M} `{OutcomeMeta M} (e : CoreError) (wall : Duration) (att max : Z)
    : NodeResult M :=
  mkResult (to_fail_outcome e) wall 0 0 att max.

(** ** Retry policies (retry.rs) *)

Record RetryPolicy := {
  policy_max_attempts : Z;
  backoff : BackoffPolicy
}.

Definition RetryPolicy_none : RetryPolicy :=
  {| policy_max_attempts := 1; backoff := BackoffPolicy_default |}.

Definition with_max_attempts (n : Z) : RetryPolicy :=
  {| policy_max_attempts := n; backoff := BackoffPolicy_default |}.

(** ** Edge selection (graph.rs) *)

Inductive EdgeSelectionReason :=
| RCondition | RPreferredLabel | RSuggestedNext | RUnconditional.

#[export] Instance EdgeSelectionReason_eq_dec : EqDecision EdgeSelectionReason.
Proof. solve_decision. Defined.

Definition reason_to_string (r : EdgeSelectionReason) : string :=
  match r with
  | RCondition => "condition"
  | RPreferredLabel => "preferred_label"
  | RSuggestedNext => "suggested_next"
  | RUnconditional => "unconditional"
  end.

Definition is_explicit (r : EdgeSelectionReason) : bool :=
  match r with RUnconditional => false | _ => true end.

Record EdgeSelection (E : Type) := mkSelection {
  sel_edge : E;
  sel_reason : EdgeSelectionReason
}.
Arguments mkSelection {E}.
Arguments sel_edge {E}.
Arguments sel_reason {E}.

(** ** The traits of the core (graph.rs, handler.rs) *)

Class NodeSpec (N : Type) := {
  spec_id : N -> string;
  spec_is_terminal : N -> bool;
  spec_max_visits : N -> option Z
}.

Class EdgeSpec (E : Type) := {
  spec_target : E -> string;
  spec_label : E -> option string;
  spec_is_loop_restart : E -> bool
}.

(** Edge selection may draw from the thread's random generator, which is part of
    the world. *)
Class CoreGraph (G N E M W : Type) `{NodeSpec N, EdgeSpec E} := {
  get_node : G -> string -> option N;
  core_find_start_node : G -> result N CoreError;
  core_outgoing_edges : G -> string -> list E;
  core_select_edge : G -> N -> Outcome M -> Context -> W -> option (EdgeSelection E) * W;
  project_result_context : G -> N -> NodeResult M -> Context -> Context;
  core_check_goal_gates : G -> gmap string (Outcome M) -> result unit string;
  core_get_retry_target : G -> string -> option string;
  core_resolve_on_failure : G -> N -> ResolvedOnFailure
}.

Class NodeHandler (G N M W : Type) := {
  execute : N -> Context -> G -> W -> result (Outcome M) CoreError * Context * W;
  context_for_edge_selection : Context -> G -> W -> result Context CoreError * W;
  handler_retry_policy : N -> G -> RetryPolicy;
  on_retries_exhausted : N -> Outcome M -> Outcome M
}.

(** ** Run state (state.rs) *)

Record ExecutionState (M : Type) := mkState {
  st_context : Context;
  st_current : string;
  completed_nodes : list string;
  node_outcomes : gmap string (Outcome M);
  node_retries : gmap string Z;
  node_visits : gmap string Z;
  stage_index : Z;
  previous_node_id : option string;
  st_cancelled : bool
}.
Arguments mkState {M}.
Arguments st_context {M}.
Arguments st_current {M}.
Arguments completed_nodes {M}.
Arguments node_outcomes {M}.
Arguments node_retries {M}.
Arguments node_visits {M}.
Arguments stage_index {M}.
Arguments previous_node_id {M}.
Arguments st_cancelled {M}.

Section state.
Context {M : Type}.
Implicit Types (s : ExecutionState M).

Definition state_at (start_id : string) : ExecutionState M :=
  mkState context_new start_id [] ∅ ∅ ∅ 0 None false.

Definition state_new {G N E W} `{CoreGraph G N E M W} (g : G) : result (ExecutionState M) CoreError :=
  result_bind (core_find_start_node (M := M) (W := W) g) (fun start => Ok (state_at (spec_id start))).

Definition set_context (c : Context) s : ExecutionState M :=
  mkState c (st_current s) (completed_nodes s) (node_outcomes s) (node_retries s)
    (node_visits s) (stage_index s) (previous_node_id s) (st_cancelled s).

Definition set_cancelled s : ExecutionState M :=
  mkState (st_context s) (st_current s) (completed_nodes s) (node_outcomes s) (node_retries s)
    (node_visits s) (stage_index s) (previous_node_id s) true.

Definition record_result (id : string) (r : NodeResult M) s : ExecutionState M :=
  mkState (apply_updates (context_updates (outcome r)) (st_context s))
    (st_current s)
    (completed_nodes s ++ [id])
    (<[id := outcome r]> (node_outcomes s))
    (if 1 <? attempts r then <[id := attempts r - 1]> (node_retries s) else node_retries s)
    (node_visits s)
    (stage_index s + 1)
    (previous_node_id s)
    (st_cancelled s).

Definition advance (next : string) s : ExecutionState M :=
  mkState (st_context s) next (completed_nodes s) (node_outcomes s) (node_retries s)
    (node_visits s) (stage_index s) (Some (st_current s)) (st_cancelled s).

(** [node_visits] is not cleared: visit limits count across restarts. *)
Definition restart (start_id : string) (new_context : option Context) s : ExecutionState M :=
  mkState (default (st_context s) new_context) start_id [] ∅ ∅ (node_visits s) 0 None
    (st_cancelled s).

Definition visits s (id : string) : Z := default 0 (node_visits s !! id).

Definition increment_visits (id : string) s : ExecutionState M :=
  mkState (st_context s) (st_current s) (completed_nodes s) (node_outcomes s) (node_retries s)
    (<[id := visits s id + 1]> (node_visits s)) (stage_index s) (previous_node_id s)
    (st_cancelled s).

Definition current_node {G N E W} `{CoreGraph G N E M W} (g : G) s : option N :=
  get_node (M := M) (W := W) g (st_current s).
End state.

(** ** Lifecycle decisions and the lifecycle trait (lifecycle.rs) *)

Inductive NodeDecision (M : Type) :=
| NContinue
| NSkip (o : Outcome M)
| NBlock (msg : string).
Arguments NContinue {M}.
Arguments NSkip {M}.
Arguments NBlock {M}.

Inductive EdgeDecision :=
| EContinue
| EOverride (target : string)
| EBlock (msg : string).

Record AttemptContext (N : Type) := {
  ac_node : N;
  ac_attempt : Z;
  ac_max_attempts : Z
}.
Arguments ac_node {N}.
Arguments ac_attempt {N}.
Arguments ac_max_attempts {N}.

Record AttemptResultContext (N M : Type) := {
  arc_node : N;
  arc_result : NodeResult M;
  arc_attempt : Z;
  arc_will_retry : bool;
  arc_backoff_delay : option Duration
}.
Arguments arc_node {N M}.
Arguments arc_result {N M}.
Arguments arc_attempt {N M}.
Arguments arc_will_retry {N M}.
Arguments arc_backoff_delay {N M}.

Record EdgeContext (E M : Type) := {
  ec_from : string;
  ec_to : string;
  ec_edge : option E;
  ec_is_jump : bool;
  ec_outcome : Outcome M;
  ec_reason : string
}.
Arguments ec_from {E M}.
Arguments ec_to {E M}.
Arguments ec_edge {E M}.
Arguments ec_is_jump {E M}.
Arguments ec_outcome {E M}.
Arguments ec_reason {E M}.

(** A callback's answer, the context table it leaves and the world it leaves. *)
Definition callback (M W A : Type) : Type :=
  ExecutionState M -> W -> result A CoreError * Context * W.

(** A callback that cannot fail. *)
Definition notification (M W : Type) : Type := ExecutionState M -> W -> Context * W.

Record RunLifecycle (G N E M W : Type) := mkLifecycle {
  on_run_start : G -> callback M W unit;
  on_terminal_reached : N -> bool -> notification M W;
  before_node : N -> callback M W (NodeDecision M);
  before_attempt : AttemptContext N -> callback M W (NodeDecision M);
  after_attempt : AttemptResultContext N M -> callback M W unit;
  after_node : N -> NodeResult M -> callback M W (NodeResult M);
  after_record : N -> NodeResult M -> callback M W unit;
  on_edge_selected : EdgeContext E M -> callback M W EdgeDecision;
  on_checkpoint : N -> NodeResult M -> option string -> callback M W unit;
  on_run_end : Outcome M -> notification M W
}.
Arguments mkLifecycle {G N E M W}.
Arguments on_run_start {G N E M W}.
Arguments on_terminal_reached {G N E M W}.
Arguments before_node {G N E M W}.
Arguments before_attempt {G N E M W}.
Arguments after_attempt {G N E M W}.
Arguments after_node {G N E M W}.
Arguments after_record {G N E M W}.
Arguments on_edge_selected {G N E M W}.
Arguments on_checkpoint {G N E M W}.
Arguments on_run_end {G N E M W}.

Section lifecycles.
Context {G N E M W : Type}.
Implicit Types (s : ExecutionState M) (w : W).

(** The default bodies of the trait: answer at once, touch nothing. *)
Definition pass {A} (a : A) : callback M W A := fun s w => (Ok a, st_context s, w).
Definition pass_quiet : notification M W := fun s w => (st_context s, w).

Definition NoopLifecycle : RunLifecycle G N E M W := {|
  on_run_start := fun _ => pass tt;
  on_terminal_reached := fun _ _ => pass_quiet;
  before_node := fun _ => pass NContinue;
  before_attempt := fun _ => pass NContinue;
  after_attempt := fun _ => pass tt;
  after_node := fun _ r => pass r;
  after_record := fun _ _ => pass tt;
  on_edge_selected := fun _ => pass EContinue;
  on_checkpoint := fun _ _ _ => pass tt;
  on_run_end := fun _ => pass_quiet
|}.

(** [CompositeLifecycle]: the children in order; every callback sees the context
    the previous one left, and an error or a decision other than [Continue] stops
    the chain. *)
Fixpoint each_child (f : RunLifecycle G N E M W -> callback M W unit)
    (children : list (RunLifecycle G N E M W)) : callback M W unit :=
  fun s w =>
    match children with
    | [] => (Ok tt, st_context s, w)
    | child :: rest =>
        let '(r, c, w) := f child s w in
        match r with
        | Ok _ => each_child f rest (set_context c s) w
        | Err e => (Err e, c, w)
        end
    end.

Fixpoint notify_children (f : RunLifecycle G N E M W -> notification M W)
    (children : list (RunLifecycle G N E M W)) : notification M W :=
  fun s w =>
    match children with
    | [] => (st_context s, w)
    | child :: rest =>
        let '(c, w) := f child s w in notify_children f rest (set_context c s) w
    end.

Fixpoint first_decision {D} (is_continue : D -> bool) (cont : D)
    (f : RunLifecycle G N E M W -> callback M W D)
    (children : list (RunLifecycle G N E M W)) : callback M W D :=
  fun s w =>
    match children with
    | [] => (Ok cont, st_context s, w)
    | child :: rest =>
        let '(r, c, w) := f child s w in
        match r with
        | Ok d => if is_continue d then first_decision is_continue cont f rest (set_context c s) w
                  else (Ok d, c, w)
        | Err e => (Err e, c, w)
        end
    end.

Fixpoint thread_result (n : N) (r : NodeResult M) (children : list (RunLifecycle G N E M W))
    : callback M W (NodeResult M) :=
  fun s w =>
    match children with
    | [] => (Ok r, st_context s, w)
    | child :: rest =>
        let '(a, c, w) := after_node child n r s w in
        match a with
        | Ok r => thread_result n r rest (set_context c s) w
        | Err e => (Err e, c, w)
        end
    end.

Definition node_continue (d : NodeDecision M) : bool :=
  match d with NContinue => true | _ => false end.
Definition edge_continue (d : EdgeDecision) : bool :=
  match d with EContinue => true | _ => false end.

Definition CompositeLifecycle (children : list (RunLifecycle G N E M W)) : RunLifecycle G N E M W := {|
  on_run_start := fun g => each_child (fun c => on_run_start c g) children;
  on_terminal_reached := fun n b => notify_children (fun c => on_terminal_reached c n b) children;
  before_node := fun n => first_decision node_continue NContinue (fun c => before_node c n) children;
  before_attempt := fun a =>
    first_decision node_continue NContinue (fun c => before_attempt c a) children;
  after_attempt := fun a => each_child (fun c => after_attempt c a) children;
  after_node := fun n r => thread_result n r children;
  after_record := fun n r => each_child (fun c => after_record c n r) children;
  on_edge_selected := fun x =>
    first_decision edge_continue EContinue (fun c => on_edge_selected c x) children;
  on_checkpoint := fun n r next => each_child (fun c => on_checkpoint c n r next) children;
  on_run_end := fun o => notify_children (fun c => on_run_end c o) children
|}.
End lifecycles.
