(* ===== verification/Executor.v ===== *)
(** * The executor (fabro-core/src/executor.rs)

    [Executor::run] drives a graph node by node: it checks cancellation, goal
    gates and visit limits, runs the node under its retry policy, applies the
    failure policy, records the result, selects the next step, checkpoints and
    advances.

    A computation of the executor transforms a machine: the run state, the world
    and a ghost trace of what the executor did, most recent event first.  It ends
    in a value, an error ([Throw]) or a panic ([Panicked]); the places where
    the source would panic are [Duration::mul_f64] in the backoff computation, the
    [unreachable!] after the retry loop and the index
    [state.node_outcomes[node.id()]]. *)

From S2P Require Import Prelude RustStr RustNum Backoff GraphTypes Context Outcome Core.
Local Open Scope Z_scope.

(** ** Options, steps and the routing fingerprint *)

(** Whether a cancel and a stall token are configured, and the graph-wide visit
    limit. *)
Record ExecutorOptions := {
  cancel_token : bool;
  stall_token : bool;
  opt_max_node_visits : option Z
}.

Definition ExecutorOptions_default : ExecutorOptions :=
  {| cancel_token := false; stall_token := false; opt_max_node_visits := None |}.

Inductive NextStep :=
| StepEdge (target : string)
| StepJump (target : string)
| StepLoopRestart (target : string)
| StepEnd.

Record RoutingFingerprint := mkFingerprint {
  fp_status : StageOutcome;
  fp_preferred_label : option string;
  fp_suggested_next_ids : list string;
  fp_context_updates : gmap string Value;
  fp_jump_to_node : option string;
  fp_failure : option FailureDetail
}.

Definition fingerprint_from {M} (o : Outcome M) : RoutingFingerprint :=
  mkFingerprint (status o) (preferred_label o) (suggested_next_ids o) (context_updates o)
    (jump_to_node o) (failure o).

(** Equality of [HashMap]s: as many entries, and every entry of the first equal
    to the second's. *)
Definition updates_eqb (a b : gmap string Value) : bool :=
  (Nat.eqb (size a) (size b) &&
   forallb (fun kv => match b !! kv.1 with
                      | Some v => value_eqb kv.2 v
                      | None => false
                      end) (map_to_list a))%bool.

Definition fingerprint_eqb (a b : RoutingFingerprint) : bool :=
  (bool_decide (fp_status a = fp_status b)
   && bool_decide (fp_preferred_label a = fp_preferred_label b)
   && bool_decide (fp_suggested_next_ids a = fp_suggested_next_ids b)
   && updates_eqb (fp_context_updates a) (fp_context_updates b)
   && bool_decide (fp_jump_to_node a = fp_jump_to_node b)
   && bool_decide (fp_failure a = fp_failure b))%bool.

Record PreparedEdgeSelection (E : Type) := {
  prep_fingerprint : RoutingFingerprint;
  prep_selection : option (EdgeSelection E)
}.
Arguments prep_fingerprint {E}.
Arguments prep_selection {E}.

(** ** The runtime: clock, timers, tokens

    [tokio] is not part of the repository.  [elapsed] reads the stopwatch of the
    current attempt, [sleep] waits, [is_cancelled] reads the cancel token, and
    [stall_race] resolves the [select!] between a node's execution and the stall
    token: when the stall token wins, it gives the context and the world that the
    abandoned execution leaves behind.  [draw_jitter] is
    [rand::rng().random_range(0.5..1.5)]. *)
Class Runtime (W : Type) := {
  elapsed : W -> Duration;
  sleep : Duration -> W -> W;
  is_cancelled : W -> bool;
  stall_race : string -> Context -> W -> option (Context * W);
  draw_jitter : W -> f64 * W
}.

(** ** The trace *)

Inductive Event :=
| EvRunStart
| EvTerminal (id : string) (passed : bool)
| EvBeforeNode (id : string)
| EvBeforeAttempt (id : string) (attempt : Z)
| EvExecute (id : string) (attempt : Z)
| EvAfterAttempt (id : string) (attempt : Z) (will_retry : bool)
| EvAfterNode (id : string)
| EvRecord (id : string)
| EvAfterRecord (id : string)
| EvEdgeSelected (from to : string)
| EvCheckpoint (id : string) (next : option string)
| EvRunEnd (s : StageOutcome).

#[export] Instance Event_eq_dec : EqDecision Event.
Proof. solve_decision. Defined.

(** ** The computation type *)

Inductive ctl (A : Type) :=
| Val (a : A)
| Throw (e : CoreError)
| Panicked.
Arguments Val {A}.
Arguments Throw {A}.
Arguments Panicked {A}.

Record Mach (M W : Type) := mkMach {
  m_state : ExecutionState M;
  m_world : W;
  m_trace : list Event
}.
Arguments mkMach {M W}.
Arguments m_state {M W}.
Arguments m_world {M W}.
Arguments m_trace {M W}.

Definition exec (M W A : Type) : Type := Mach M W -> ctl A * Mach M W.

Section monad.
Context {M W : Type}.

Definition ret {A} (a : A) : exec M W A := fun m => (Val a, m).
Definition throw {A} (e : CoreError) : exec M W A := fun m => (Throw e, m).
Definition panic {A} : exec M W A := fun m => (Panicked, m).

Definition bind {A B} (c : exec M W A) (k : A -> exec M W B) : exec M W B :=
  fun m => match c m with
           | (Val a, m) => k a m
           | (Throw e, m) => (Throw e, m)
           | (Panicked, m) => (Panicked, m)
           end.

Definition get : exec M W (ExecutionState M) := fun m => (Val (m_state m), m).

Definition modify (f : ExecutionState M -> ExecutionState M) : exec M W unit :=
  fun m => (Val tt, mkMach (f (m_state m)) (m_world m) (m_trace m)).

Definition emit (e : Event) : exec M W unit :=
  fun m => (Val tt, mkMach (m_state m) (m_world m) (e :: m_trace m)).

Definition ask_world {A} (f : W -> A) : exec M W A := fun m => (Val (f (m_world m)), m).

Definition step_world {A} (f : W -> A * W) : exec M W A :=
  fun m => let '(a, w) := f (m_world m) in (Val a, mkMach (m_state m) w (m_trace m)).

Definition lift_result {A} (r : result A CoreError) : exec M W A :=
  match r with Ok a => ret a | Err e => throw e end.

(** Run a callback: it sees the state, and leaves a context and a world. *)
Definition call {A} (f : callback M W A) : exec M W A :=
  fun m => let '(r, c, w) := f (m_state m) (m_world m) in
           let m := mkMach (set_context c (m_state m)) w (m_trace m) in
           match r with Ok a => (Val a, m) | Err e => (Throw e, m) end.

Definition notify (f : notification M W) : exec M W unit :=
  fun m => let '(c, w) := f (m_state m) (m_world m) in
           (Val tt, mkMach (set_context c (m_state m)) w (m_trace m)).
End monad.

Notation "'let!' x := c 'in' k" := (bind c (fun x => k))
  (at level 10, x binder, c at level 100, k at level 200) : fabro_scope.
Notation "c ;! k" := (bind c (fun _ => k)) (at level 100, right associativity) : fabro_scope.
Local Open Scope fabro_scope.

(** [node_result_from_outcome]. *)
Definition node_result_from_outcome {M} (o : Outcome M) (wall : Duration) (att max : Z)
    : NodeResult M :=
  let inference := default 0 ((fun t => from_millis (inference_time_ms t)) <$> timing o) in
  let tool := default 0 ((fun t => from_millis (tool_time_ms t)) <$> timing o) in
  mkResult o wall inference tool att max.

Section executor.
Context {G N E M W : Type}.
Context `{OutcomeMeta M}.
Context `{NodeSpec N} `{EdgeSpec E} `{!CoreGraph G N E M W}.
Context `{NodeHandler G N M W} `{Runtime W}.
Variable (lc : RunLifecycle G N E M W) (opts : ExecutorOptions) (g : G).

Abbreviation ex A := (exec M W A).

(** ** One attempt and the retry loop *)

Definition report_attempt (n : N) (r : NodeResult M) (att : Z) (will_retry : bool)
    (delay : option Duration) : ex unit :=
  emit (EvAfterAttempt (spec_id n) att will_retry) ;!
  call (after_attempt lc {| arc_node := n; arc_result := r; arc_attempt := att;
                            arc_will_retry := will_retry; arc_backoff_delay := delay |}).

Definition wait_and_retry (n : N) (r : NodeResult M) (policy : RetryPolicy) (att : Z) (delay : Duration)
    : ex (option (NodeResult M)) :=
  report_attempt n r att true (Some delay) ;!
  step_world (fun w => (tt, sleep delay w)) ;!
  ret None.

Definition finish_attempt (n : N) (r : NodeResult M) (att : Z) : ex (option (NodeResult M)) :=
  report_attempt n r att false None ;! ret (Some r).

Definition backoff_delay (policy : RetryPolicy) (att : Z) : ex Duration :=
  let! d := step_world (delay_for_attempt draw_jitter (backoff policy) att) in
  match d with Some d => ret d | None => panic end.

(** The dispatch on the handler's answer: [None] goes on to the next attempt. *)
Definition attempt_outcome (n : N) (policy : RetryPolicy) (att : Z)
    (answer : result (Outcome M) CoreError) : ex (option (NodeResult M)) :=
  let max := policy_max_attempts policy in
  let can_retry := att <? max in
  match answer with
  | Ok o =>
      if (retry_requested (status o) && can_retry)%bool then
        let! delay := backoff_delay policy att in
        let! wall := ask_world elapsed in
        wait_and_retry n (node_result_from_outcome o wall att max) policy att delay
      else if retry_requested (status o) then
        let final := on_retries_exhausted (G := G) (W := W) n o in
        let! wall := ask_world elapsed in
        finish_attempt n (node_result_from_outcome final wall att max) att
      else
        let! wall := ask_world elapsed in
        finish_attempt n (node_result_from_outcome o wall att max) att
  | Err e =>
      if (can_retry && is_retryable e)%bool then
        let! delay := backoff_delay policy att in
        let! wall := ask_world elapsed in
        wait_and_retry n (from_error e wall att max) policy att delay
      else match e with
           | HandlerError _ =>
               let! wall := ask_world elapsed in
               finish_attempt n (node_result_from_outcome (to_fail_outcome e) wall att max) att
           | _ => throw e
           end
  end.

Definition run_handler (n : N) : callback M W (Outcome M) :=
  fun s w => execute n (st_context s) g w.

(** The handler's [Result] is a value the loop inspects, not an early return. *)
Definition catch {A} (c : ex A) : ex (result A CoreError) :=
  fun m => match c m with
           | (Val a, m) => (Val (Ok a), m)
           | (Throw e, m) => (Val (Err e), m)
           | (Panicked, m) => (Panicked, m)
           end.

Definition attempt_once (n : N) (policy : RetryPolicy) (att : Z) : ex (option (NodeResult M)) :=
  emit (EvBeforeAttempt (spec_id n) att) ;!
  let! d := call (before_attempt lc {| ac_node := n; ac_attempt := att;
                                       ac_max_attempts := policy_max_attempts policy |}) in
  match d with
  | NSkip o => ret (Some (from_skip o))
  | NBlock msg => throw (Blocked msg)
  | NContinue =>
      emit (EvExecute (spec_id n) att) ;!
      let! answer := catch (call (run_handler n)) in
      attempt_outcome n policy att answer
  end.

(** [for attempt in 1..=max_attempts], then [unreachable!]. *)
Fixpoint attempt_loop (fuel : nat) (n : N) (policy : RetryPolicy) (att : Z) : ex (NodeResult M) :=
  match fuel with
  | O => panic
  | S fuel =>
      let! r := attempt_once n policy att in
      match r with
      | Some r => ret r
      | None => attempt_loop fuel n policy (att + 1)
      end
  end.

Definition execute_with_retry (n : N) : ex (NodeResult M) :=
  let policy := handler_retry_policy (M := M) (W := W) n g in
  attempt_loop (Z.to_nat (policy_max_attempts policy)) n policy 1.

(** ** Failure policy and routing *)

Definition select (n : N) (o : Outcome M) (c : Context) : ex (option (EdgeSelection E)) :=
  step_world (core_select_edge g n o c).

Definition routing_context (c : Context) : ex Context :=
  let! r := step_world (context_for_edge_selection (N := N) (M := M) c g) in lift_result r.

Definition apply_succeed_policy (n : N) (r : NodeResult M)
    : ex (NodeResult M * option (PreparedEdgeSelection E)) :=
  let o := outcome r in
  if (negb (is_failure (status o)) || is_some (jump_to_node o))%bool then ret (r, None)
  else
    let resolved := core_resolve_on_failure (M := M) (W := W) g n in
    if negb (bool_decide (rof_policy resolved = Succeed)) then ret (r, None)
    else
      let! s := get in
      let projected := project_result_context (W := W) g n r
                         (apply_updates (context_updates o) (context_fork (st_context s))) in
      let! rctx := routing_context projected in
      let! sel := select n o rctx in
      match opt_filter (fun x => is_explicit (sel_reason x)) sel with
      | Some sel => ret (r, Some {| prep_fingerprint := fingerprint_from o;
                                    prep_selection := Some sel |})
      | None =>
          let '(o', _) := apply_on_failure resolved o in
          let r' := set_outcome o' r in
          let rctx := project_result_context (W := W) g n r' rctx in
          let! sel := select n o' rctx in
          ret (r', Some {| prep_fingerprint := fingerprint_from o'; prep_selection := sel |})
      end.

Definition edge_decision (x : EdgeContext E M) : ex EdgeDecision :=
  emit (EvEdgeSelected (ec_from x) (ec_to x)) ;! call (on_edge_selected lc x).

Definition jump_step (n : N) (o : Outcome M) (target : string) : ex NextStep :=
  let! d := edge_decision {| ec_from := spec_id n; ec_to := target; ec_edge := None;
                             ec_is_jump := true; ec_outcome := o; ec_reason := "jump" |} in
  match d with
  | EContinue => ret (StepJump target)
  | EOverride t => ret (StepEdge t)
  | EBlock msg => throw (Blocked msg)
  end.

Definition edge_step (n : N) (o : Outcome M) (sel : EdgeSelection E) : ex NextStep :=
  let target := spec_target (sel_edge sel) in
  let! d := edge_decision {| ec_from := spec_id n; ec_to := target; ec_edge := Some (sel_edge sel);
                             ec_is_jump := false; ec_outcome := o;
                             ec_reason := reason_to_string (sel_reason sel) |} in
  match d with
  | EContinue => ret (if spec_is_loop_restart (sel_edge sel)
                      then StepLoopRestart target else StepEdge target)
  | EOverride t => ret (StepEdge t)
  | EBlock msg => throw (Blocked msg)
  end.

(** The failure policy's filter on a selection: a failed outcome takes an
    unconditional edge only under [route]. *)
Definition selection_allowed (n : N) (o : Outcome M) (sel : EdgeSelection E) : bool :=
  (negb (is_failure (status o)) || is_explicit (sel_reason sel)
   || bool_decide (rof_policy (core_resolve_on_failure (M := M) (W := W) g n) = Route))%bool.

Definition chosen_edge (n : N) (o : Outcome M) (prepared : option (PreparedEdgeSelection E))
    : ex (option (EdgeSelection E)) :=
  match prepared with
  | Some p => ret (prep_selection p)
  | None =>
      let! s := get in
      let! rctx := routing_context (st_context s) in
      select n o rctx
  end.

Definition resolve_next_step (n : N) (o : Outcome M) (prepared : option (PreparedEdgeSelection E))
    : ex NextStep :=
  match jump_to_node o with
  | Some target => jump_step n o target
  | None =>
      let! sel := chosen_edge n o prepared in
      match opt_filter (selection_allowed n o) sel with
      | Some sel => edge_step n o sel
      | None =>
          if is_failure (status o) then
            match core_get_retry_target (M := M) (W := W) g (spec_id n) with
            | Some t => ret (StepEdge t)
            | None => ret StepEnd
            end
          else ret StepEnd
      end
  end.

(** ** One iteration of the main loop *)

Definition run_end (o : Outcome M) : ex unit :=
  emit (EvRunEnd (status o)) ;! notify (on_run_end lc o).

(** Set the flag, report the end of the run, and leave with [Cancelled]. *)
Definition cancel_run {A} : ex A :=
  modify set_cancelled ;! run_end (outcome_fail "run cancelled") ;! throw Cancelled.

Definition goal_gate_failure (failed : string) : Outcome M :=
  outcome_fail ("goal gate unsatisfied for node " +:+ failed +:+ " and no retry target").

(** A terminal node: [Some o] ends the run with [o], [None] goes on. *)
Definition terminal_step (n : N) : ex (option (Outcome M)) :=
  let! s := get in
  match core_check_goal_gates (W := W) g (node_outcomes s) with
  | Ok _ =>
      emit (EvTerminal (spec_id n) true) ;!
      notify (on_terminal_reached lc n true) ;!
      run_end outcome_success ;!
      ret (Some outcome_success)
  | Err failed =>
      emit (EvTerminal (spec_id n) false) ;!
      notify (on_terminal_reached lc n false) ;!
      let end_run := run_end (goal_gate_failure failed) ;! ret (Some (goal_gate_failure failed)) in
      match core_get_retry_target (M := M) (W := W) g failed with
      | Some target =>
          if is_some_and (fun t => negb (spec_is_terminal t)) (get_node (M := M) (W := W) g target)
          then modify (advance target) ;! ret None
          else end_run
      | None => end_run
      end
  end.

Definition limit_reached (v : Z) (limit : option Z) : option Z :=
  match limit with
  | Some max => if max <=? v then Some max else None
  | None => None
  end.

Definition check_visits (n : N) : ex unit :=
  let! s := get in
  let v := visits s (spec_id n) in
  match limit_reached v (spec_max_visits n) with
  | Some max => throw (VisitLimitExceeded (spec_id n) v max LimitNode)
  | None =>
      match limit_reached v (opt_max_node_visits opts) with
      | Some max => throw (VisitLimitExceeded (spec_id n) v max LimitGraph)
      | None => modify (increment_visits (spec_id n))
      end
  end.

(** The race of a node's execution against the stall token. *)
Definition execute_or_stall (n : N) : ex (result (NodeResult M) CoreError) :=
  fun m =>
    match (if stall_token opts then stall_race (spec_id n) (st_context (m_state m)) (m_world m)
           else None) with
    | Some (c, w) =>
        (Throw (StallTimeout (spec_id n)), mkMach (set_context c (m_state m)) w (m_trace m))
    | None => catch (execute_with_retry n) m
    end.

Definition after_node_call (n : N) (r : NodeResult M) : ex (NodeResult M) :=
  emit (EvAfterNode (spec_id n)) ;! call (after_node lc n r).

Definition run_continue (n : N) : ex (NodeResult M * option (PreparedEdgeSelection E)) :=
  let! answer := execute_or_stall n in
  match answer with
  | Ok r =>
      let! rp := apply_succeed_policy n r in
      let! r' := after_node_call n rp.1 in
      ret (r', opt_filter (fun p => fingerprint_eqb (prep_fingerprint p)
                                      (fingerprint_from (outcome r'))) rp.2)
  | Err Cancelled => cancel_run
  | Err e => throw e
  end.

Definition run_node (n : N) : ex (NodeResult M * option (PreparedEdgeSelection E)) :=
  emit (EvBeforeNode (spec_id n)) ;!
  let! d := call (before_node lc n) in
  match d with
  | NSkip o => let! r := after_node_call n (from_skip o) in ret (r, None)
  | NBlock msg => throw (Blocked msg)
  | NContinue => run_continue n
  end.

Definition next_node_id (next : NextStep) : option string :=
  match next with
  | StepEdge t | StepJump t | StepLoopRestart t => Some t
  | StepEnd => None
  end.

(** The outcome of a run that ends at [n] because no step follows. *)
Definition end_outcome (n : N) (o : Outcome M) : Outcome M :=
  if is_failure (status o) then
    let resolved := core_resolve_on_failure (M := M) (W := W) g n in
    outcome_fail
      (match rof_policy resolved with
       | Route | Succeed => "stage " +:+ spec_id n +:+ " failed with no outgoing fail edge"
       | Exit => "stage " +:+ spec_id n +:+ " failed and "
                 +:+ AttributeScope_to_string (rof_scope resolved)
                 +:+ " on_failure=exit stopped routing"
       end)
  else o.

Definition take_step (n : N) (o : Outcome M) (next : NextStep) : ex (option (Outcome M)) :=
  match next with
  | StepEdge t | StepJump t => modify (advance t) ;! ret None
  | StepLoopRestart start =>
      modify (restart start (Some context_new)) ;!
      emit EvRunStart ;!
      call (on_run_start lc g) ;! ret None
  | StepEnd =>
      let o' := end_outcome n o in
      run_end o' ;! ret (Some o')
  end.

Definition finish_node (n : N) (rp : NodeResult M * option (PreparedEdgeSelection E))
    : ex (option (Outcome M)) :=
  let '(r, prepared) := rp in
  emit (EvRecord (spec_id n)) ;!
  modify (record_result (spec_id n) r) ;!
  emit (EvAfterRecord (spec_id n)) ;!
  call (after_record lc n r) ;!
  let! s := get in
  match node_outcomes s !! spec_id n with
  | None => panic
  | Some last =>
      let! next := resolve_next_step n last prepared in
      emit (EvCheckpoint (spec_id n) (next_node_id next)) ;!
      call (on_checkpoint lc n r (next_node_id next)) ;!
      take_step n last next
  end.

Definition visit_node (n : N) : ex (option (Outcome M)) :=
  check_visits n ;!
  let! rp := run_node n in
  finish_node n rp.

(** The loop body of [run]. *)
Definition loop_body : ex (option (Outcome M)) :=
  let! cancelled := ask_world (fun w => (cancel_token opts && is_cancelled w)%bool) in
  if cancelled then cancel_run
  else
    let! s := get in
    match current_node (W := W) g s with
    | None => throw (NodeNotFound (st_current s))
    | Some n => if spec_is_terminal n then terminal_step n else visit_node n
    end.

(** ** The run *)

(** [None] is out of fuel. *)
Fixpoint run_loop (fuel : nat) (m : Mach M W) : option (ctl (Outcome M) * Mach M W) :=
  match fuel with
  | O => None
  | S fuel =>
      match loop_body m with
      | (Val None, m) => run_loop fuel m
      | (Val (Some o), m) => Some (Val o, m)
      | (Throw e, m) => Some (Throw e, m)
      | (Panicked, m) => Some (Panicked, m)
      end
  end.

Definition run (fuel : nat) (m : Mach M W) : option (ctl (Outcome M) * Mach M W) :=
  match (emit EvRunStart ;! call (on_run_start lc g)) m with
  | (Val _, m) => run_loop fuel m
  | (Throw e, m) => Some (Throw e, m)
  | (Panicked, m) => Some (Panicked, m)
  end.
End executor.
