(* ===== verification/ExecutorLogic.v ===== *)
(** * A program logic for the executor

    Weakest preconditions for the computations of [Executor], the frame of a
    callback (it leaves the trace and everything of the run state but the context
    table), and the protocol in which the executor calls the lifecycle, as an
    automaton over the trace. *)

From S2P Require Import Prelude RustStr RustNum Backoff GraphTypes Context Outcome Core Executor.
Local Open Scope Z_scope.

(** ** Weakest preconditions *)

Section wp.
Context {M W : Type}.
Implicit Types (m : Mach M W).

Definition wp {A} (c : exec M W A) (Q : ctl A -> Mach M W -> Prop) m : Prop :=
  Q (c m).1 (c m).2.

(** Postconditions that only constrain normal termination, and the others. *)
Definition on_val {A B} (Q : ctl B -> Mach M W -> Prop) (k : A -> Mach M W -> Prop)
    (r : ctl A) m : Prop :=
  match r with
  | Val a => k a m
  | Throw e => Q (Throw e) m
  | Panicked => Q Panicked m
  end.

Lemma wp_mono {A} (c : exec M W A) (P Q : ctl A -> Mach M W -> Prop) m :
  wp c P m -> (forall r m', P r m' -> Q r m') -> wp c Q m.
Proof. unfold wp. eauto. Qed.

Lemma wp_bind {A B} (c : exec M W A) (k : A -> exec M W B) Q m :
  wp c (on_val Q (fun a => wp (k a) Q)) m -> wp (bind c k) Q m.
Proof. unfold wp, bind, on_val. destruct (c m) as [[a|e|] m']; done. Qed.

Lemma wp_ret {A} (a : A) Q m : Q (Val a) m -> wp (ret a) Q m.
Proof. done. Qed.

Lemma wp_throw {A} e (Q : ctl A -> Mach M W -> Prop) m : Q (Throw e) m -> wp (throw e) Q m.
Proof. done. Qed.

Lemma wp_get Q m : Q (Val (m_state m)) m -> wp get Q m.
Proof. done. Qed.

Lemma wp_ask {A} (f : W -> A) Q m : Q (Val (f (m_world m))) m -> wp (ask_world f) Q m.
Proof. done. Qed.

Lemma wp_emit e Q m : Q (Val tt) (mkMach (m_state m) (m_world m) (e :: m_trace m)) -> wp (emit e) Q m.
Proof. done. Qed.

Lemma wp_modify f Q m :
  Q (Val tt) (mkMach (f (m_state m)) (m_world m) (m_trace m)) -> wp (modify f) Q m.
Proof. done. Qed.

Lemma wp_notify (f : notification M W) Q m :
  (forall c w, Q (Val tt) (mkMach (set_context c (m_state m)) w (m_trace m))) ->
  wp (notify f) Q m.
Proof. intros HQ. unfold wp, notify. destruct (f _ _) as [c w]. apply HQ. Qed.

Lemma wp_catch {A} (c : exec M W A) Q m :
  wp c (fun r m' => match r with
                    | Val a => Q (Val (Ok a)) m'
                    | Throw e => Q (Val (Err e)) m'
                    | Panicked => Q Panicked m'
                    end) m -> wp (catch c) Q m.
Proof. unfold wp, catch. destruct (c m) as [[a|e|] m']; done. Qed.

(** ** Frames *)

(** The machine after a computation that touched the context and the world only. *)
Definition same m m' : Prop :=
  (exists c, m_state m' = set_context c (m_state m)) /\ m_trace m' = m_trace m.

Definition quiet {A} (c : exec M W A) : Prop := forall m, same m (c m).2.

Definition total {A} (c : exec M W A) : Prop := forall m, (c m).1 <> Panicked.

Lemma set_context_id (s : ExecutionState M) : set_context (st_context s) s = s.
Proof. by destruct s. Qed.

Lemma set_context_twice c c' (s : ExecutionState M) :
  set_context c (set_context c' s) = set_context c s.
Proof. done. Qed.

Lemma same_refl m : same m m.
Proof. split; [exists (st_context (m_state m)); by rewrite set_context_id|done]. Qed.

Lemma same_trans m1 m2 m3 : same m1 m2 -> same m2 m3 -> same m1 m3.
Proof.
  intros [[c Hs] Ht] [[c' Hs'] Ht']. split; [|congruence].
  exists c'. by rewrite Hs', Hs.
Qed.

Lemma wp_quiet {A} (c : exec M W A) Q m :
  quiet c -> (forall r m', same m m' -> Q r m') -> wp c Q m.
Proof. intros Hc HQ. apply HQ, Hc. Qed.

Lemma wp_quiet_total {A} (c : exec M W A) Q m :
  quiet c -> total c -> (forall r m', same m m' -> r <> Panicked -> Q r m') -> wp c Q m.
Proof. intros Hc Ht HQ. apply HQ; [apply Hc|apply Ht]. Qed.

Lemma wp_total {A} (c : exec M W A) Q m :
  total c -> wp c Q m -> wp c (fun r m' => Q r m' /\ r <> Panicked) m.
Proof. intros Ht HQ. split; [exact HQ|apply Ht]. Qed.

Lemma quiet_ret {A} (a : A) : quiet (ret a).
Proof. intros m. apply same_refl. Qed.

Lemma quiet_throw {A} e : quiet (@throw M W A e).
Proof. intros m. apply same_refl. Qed.

Lemma quiet_panic {A} : quiet (@panic M W A).
Proof. intros m. apply same_refl. Qed.

Lemma quiet_get : quiet (@get M W).
Proof. intros m. apply same_refl. Qed.

Lemma quiet_ask {A} (f : W -> A) : quiet (ask_world (M := M) f).
Proof. intros m. apply same_refl. Qed.

Lemma quiet_step_world {A} (f : W -> A * W) : quiet (step_world (M := M) f).
Proof.
  intros m. unfold step_world. destruct (f (m_world m)); simpl.
  apply (same_refl m).
Qed.

Lemma quiet_call {A} (f : callback M W A) : quiet (call f).
Proof.
  intros m. unfold call. destruct (f _ _) as [[[a|e] c] w]; (split; [by exists c|done]).
Qed.

Lemma quiet_notify (f : notification M W) : quiet (notify f).
Proof. intros m. unfold notify. destruct (f _ _) as [c w]; split; [by exists c|done]. Qed.

Lemma quiet_lift_result {A} (r : result A CoreError) : quiet (@lift_result M W A r).
Proof. destruct r; [apply quiet_ret|apply quiet_throw]. Qed.

Lemma quiet_bind {A B} (c : exec M W A) (k : A -> exec M W B) :
  quiet c -> (forall a, quiet (k a)) -> quiet (bind c k).
Proof.
  intros Hc Hk m. unfold bind. specialize (Hc m).
  destruct (c m) as [[a|e|] m'] eqn:E; simpl in *; [|done|done].
  exact (same_trans _ _ _ Hc (Hk a m')).
Qed.

Lemma quiet_catch {A} (c : exec M W A) : quiet c -> quiet (catch c).
Proof.
  intros Hc m. specialize (Hc m). unfold catch.
  by destruct (c m) as [[a|e|] m'].
Qed.

Lemma total_bind {A B} (c : exec M W A) (k : A -> exec M W B) :
  total c -> (forall a, total (k a)) -> total (bind c k).
Proof.
  intros Hc Hk m. unfold bind. specialize (Hc m).
  destruct (c m) as [[a|e|] m'] eqn:E; simpl in *; [apply Hk|done|done].
Qed.

Lemma total_ret {A} (a : A) : total (@ret M W A a).
Proof. done. Qed.

Lemma total_throw {A} e : total (@throw M W A e).
Proof. done. Qed.

Lemma total_get : total (@get M W).
Proof. done. Qed.

Lemma total_ask {A} (f : W -> A) : total (ask_world (M := M) f).
Proof. done. Qed.

Lemma total_emit e : total (@emit M W e).
Proof. done. Qed.

Lemma total_modify f : total (@modify M W f).
Proof. done. Qed.

Lemma total_step_world {A} (f : W -> A * W) : total (step_world (M := M) f).
Proof. intros m. unfold step_world. by destruct (f (m_world m)). Qed.

Lemma total_call {A} (f : callback M W A) : total (call f).
Proof. intros m. unfold call. by destruct (f _ _) as [[[a|e] c] w]. Qed.

Lemma total_lift_result {A} (r : result A CoreError) : total (@lift_result M W A r).
Proof. by destruct r. Qed.

Lemma total_notify (f : notification M W) : total (notify f).
Proof. intros m. unfold notify. by destruct (f _ _) as [c w]. Qed.

Lemma total_catch {A} (c : exec M W A) : total c -> total (catch c).
Proof.
  intros Hc m. specialize (Hc m). unfold catch.
  by destruct (c m) as [[a|e|] m'].
Qed.
End wp.

#[export] Hint Resolve quiet_ret quiet_throw quiet_panic quiet_get quiet_ask quiet_step_world
  quiet_call quiet_lift_result quiet_notify quiet_bind quiet_catch same_refl : fabro.
#[export] Hint Resolve total_ret total_throw total_get total_ask total_emit total_modify
  total_step_world total_lift_result total_call total_notify total_bind total_catch : fabro.

(** Decide [quiet] and [total] goals structurally. *)
Ltac structural :=
  repeat first
    [ progress intros
    | apply quiet_bind | apply total_bind | apply quiet_catch | apply total_catch
    | solve [eauto with fabro]
    | case_match ].

(** ** The lifecycle protocol *)

Inductive Phase :=
| PInit
| PReady (next : option string)
| PNode (id : string)
| PAttempt (id : string) (k : Z)
| PRunning (id : string) (k : Z)
| PBackoff (id : string) (k : Z)
| PAttempted (id : string)
| PFinished (id : string)
| PRecorded (id : string)
| PStored (id : string)
| PRouted (id : string)
| PClosing
| PPassed
| PEnded.

Definition expects (next : option string) (id : string) : bool :=
  is_none_or (String.eqb id) next.

Definition guard_phase (b : bool) (p : Phase) : option Phase := if b then Some p else None.

(** The protocol: which event may follow in which phase. *)
Definition phase_step (p : Phase) (e : Event) : option Phase :=
  match p, e with
  | PInit, EvRunStart => Some (PReady None)
  | PReady (Some t), EvRunStart => Some (PReady (Some t))
  | PReady nx, EvTerminal id true => guard_phase (expects nx id) PPassed
  | PReady nx, EvTerminal id false => guard_phase (expects nx id) (PReady None)
  | PReady nx, EvBeforeNode id => guard_phase (expects nx id) (PNode id)
  | PNode id, EvBeforeAttempt id' k =>
      guard_phase (String.eqb id id' && (k =? 1)) (PAttempt id k)
  | PBackoff id j, EvBeforeAttempt id' k =>
      guard_phase (String.eqb id id' && (k =? j + 1)) (PAttempt id k)
  | PAttempt id k, EvExecute id' k' =>
      guard_phase (String.eqb id id' && (k =? k')) (PRunning id k)
  | PRunning id k, EvAfterAttempt id' k' again =>
      guard_phase (String.eqb id id' && (k =? k')) (if again then PBackoff id k else PAttempted id)
  | (PNode id | PAttempt id _ | PAttempted id), EvAfterNode id' =>
      guard_phase (String.eqb id id') (PFinished id)
  | PFinished id, EvRecord id' => guard_phase (String.eqb id id') (PRecorded id)
  | PRecorded id, EvAfterRecord id' => guard_phase (String.eqb id id') (PStored id)
  | PStored id, EvEdgeSelected from _ => guard_phase (String.eqb id from) (PRouted id)
  | PStored id, EvCheckpoint id' None => guard_phase (String.eqb id id') PClosing
  | (PStored id | PRouted id), EvCheckpoint id' (Some t) =>
      guard_phase (String.eqb id id') (PReady (Some t))
  | PClosing, EvRunEnd _ => Some PEnded
  | PPassed, EvRunEnd s => guard_phase (bool_decide (s = Succeeded)) PEnded
  | (PReady _ | PAttempt _ _ | PRunning _ _ | PBackoff _ _ | PAttempted _), EvRunEnd s =>
      guard_phase (is_failure s) PEnded
  | _, _ => None
  end.

(** The phase a trace (newest event first) ends in; [None] when it breaks the
    protocol. *)
Definition phase_of (t : list Event) : option Phase :=
  foldr (fun e p => p ≫= fun p => phase_step p e) (Some PInit) t.

Lemma phase_of_cons t e p q :
  phase_of t = Some p -> phase_step p e = Some q -> phase_of (e :: t) = Some q.
Proof. intros Ht Hs. unfold phase_of in *. simpl. by rewrite Ht. Qed.

(** What may happen between nodes. *)
Lemma phase_enter nx id :
  expects nx id = true -> phase_step (PReady nx) (EvBeforeNode id) = Some (PNode id).
Proof. intros Hx. by destruct nx; cbn in *; rewrite ?Hx. Qed.

Lemma phase_terminal nx id b :
  expects nx id = true ->
  phase_step (PReady nx) (EvTerminal id b) = Some (if b then PPassed else PReady None).
Proof. intros Hx. by destruct nx, b; cbn in *; rewrite ?Hx. Qed.

Lemma phase_ready_end nx r : phase_step (PReady nx) (EvRunEnd (Failed r)) = Some PEnded.
Proof. by destruct nx. Qed.

(** ** Counting what happened to a node *)

Fixpoint entries (id : string) (t : list Event) : Z :=
  match t with
  | [] => 0
  | EvBeforeNode i :: t => (if String.eqb id i then 1 else 0) + entries id t
  | _ :: t => entries id t
  end.

Fixpoint executions (id : string) (t : list Event) : Z :=
  match t with
  | [] => 0
  | EvExecute i _ :: t => (if String.eqb id i then 1 else 0) + executions id t
  | _ :: t => executions id t
  end.
