(* ===== verification/ExecutorFacts.v ===== *)
(** * The executor is correct

    Every run, whatever the graph, the handler, the lifecycle and the runtime do:
    follows the lifecycle protocol, respects the visit limits, keeps the run state
    consistent, ends when every node has a visit limit, and panics only through
    the backoff arithmetic or a retry policy of zero attempts. *)

From S2P Require Import Prelude RustStr RustNum Backoff GraphTypes Context Outcome Core Executor.
From S2P Require Import ExecutorLogic.
Local Open Scope Z_scope.

(** Decompose a machine left by a quiet computation. *)
Ltac open_same H :=
  let c := fresh "c" in
  let Ht := fresh "Ht" in
  let Hs := fresh "Hs" in
  destruct H as [[c Hs] Ht];
  match type of Hs with m_state ?m = _ =>
    let s := fresh "s" in let w := fresh "w" in let t := fresh "t" in
    destruct m as [s w t]; cbn [m_state m_trace] in Hs, Ht |- *; rewrite ?set_context_twice in Hs; subst s t
  end.

(** Split a disjunction of possible lists of events. *)
Ltac open_events H :=
  repeat match type of H with
         | _ \/ _ => destruct H as [H|H]
         | exists _, _ => destruct H as [?b H]
         end.

(** One step of a computation. *)
Ltac wp_step :=
  match goal with
  | |- wp (bind _ _) _ _ => apply wp_bind
  | |- wp (ret _) _ _ => apply wp_ret
  | |- wp (throw _) _ _ => apply wp_throw
  | |- wp get _ _ => apply wp_get
  | |- wp (emit _) _ _ => apply wp_emit
  | |- wp (modify _) _ _ => apply wp_modify
  | |- wp (catch _) _ _ => apply wp_catch
  | |- wp (call _) _ _ =>
      apply wp_quiet_total; [apply quiet_call|apply total_call|];
      let m' := fresh "m'" in let H := fresh "Hsame" in
      intros [?a|?e|] m' H ?Hnp; [..|done]; open_same H
  | |- wp (notify _) _ _ => apply wp_notify; intros ?c ?w
  | |- wp (step_world _) _ _ =>
      apply wp_quiet_total; [apply quiet_step_world|apply total_step_world|];
      let m' := fresh "m'" in let H := fresh "Hsame" in
      intros [?a|?e|] m' H ?Hnp; [..|done]; open_same H
  | |- wp (ask_world _) _ _ => apply wp_ask
  end; cbn [on_val m_state m_trace m_world].

Section attempts.
Context {G N E M W : Type}.
Context {HM : OutcomeMeta M} {HN : NodeSpec N} {HE : EdgeSpec E}.
Context {HG : CoreGraph G N E M W} {HH : NodeHandler G N M W} {HR : Runtime W}.
Variable (lc : RunLifecycle G N E M W) (g : G).
Implicit Types (m : Mach M W) (n : N).

(** ** The retry loop *)

(** What the attempts at a node leave: the state but for its context, at most [k]
    executions of that node's handler, no entry. *)
Definition during (id : string) (k : Z) m m' : Prop :=
  (exists c, m_state m' = set_context c (m_state m)) /\
  (forall i, entries i (m_trace m') = entries i (m_trace m)) /\
  (forall i, executions i (m_trace m) <= executions i (m_trace m')
             <= executions i (m_trace m) + (if String.eqb i id then k else 0)).

Lemma during_trans id j k m1 m2 m3 :
  during id j m1 m2 -> during id k m2 m3 -> during id (j + k) m1 m3.
Proof.
  intros ((c & Hs) & He & Hx) ((c' & Hs') & He' & Hx'). split; [|split].
  - exists c'. by rewrite Hs', Hs.
  - intros i. by rewrite He', He.
  - intros i. specialize (Hx i). specialize (Hx' i). case_match; lia.
Qed.

Lemma during_weaken id j k m m' : j <= k -> during id j m m' -> during id k m m'.
Proof.
  intros Hjk (Hs & He & Hx). split; [done|split; [done|]].
  intros i. specialize (Hx i). case_match; lia.
Qed.

Lemma same_during id m m' : same m m' -> during id 0 m m'.
Proof.
  intros [Hs Ht]. split; [done|]. rewrite Ht. split; [done|]. intros i. case_match; lia.
Qed.

(** The phases between the first attempt and the end of the node. *)
Definition in_attempts (id : string) (p : Phase) : Prop :=
  match p with
  | PAttempt i _ | PRunning i _ | PBackoff i _ | PAttempted i => i = id
  | _ => False
  end.

Definition before_attempt_phase (id : string) (k : Z) (p : Phase) : Prop :=
  (p = PNode id /\ k = 1) \/ p = PBackoff id (k - 1).

Definition attempt_post (id : string) (att : Z) m (r : ctl (option (NodeResult M))) m' : Prop :=
  during id 1 m m' /\
  (forall p, phase_of (m_trace m) = Some p -> before_attempt_phase id att p ->
   exists q, phase_of (m_trace m') = Some q /\ in_attempts id q /\
             match r with
             | Val None => q = PBackoff id att
             | Val (Some _) => forall k, q <> PBackoff id k /\ q <> PRunning id k
             | _ => True
             end).

(** The post-condition of an attempt depends on its events only. *)
Lemma attempt_post_events id att m r m' evs :
  (exists c, m_state m' = set_context c (m_state m)) ->
  m_trace m' = evs ++ m_trace m ->
  match r with
  | Val None => evs = [EvAfterAttempt id att true; EvExecute id att; EvBeforeAttempt id att]
  | Val (Some _) => evs = [EvBeforeAttempt id att]
      \/ evs = [EvAfterAttempt id att false; EvExecute id att; EvBeforeAttempt id att]
  | _ => evs = [EvBeforeAttempt id att] \/ evs = [EvExecute id att; EvBeforeAttempt id att]
      \/ exists b, evs = [EvAfterAttempt id att b; EvExecute id att; EvBeforeAttempt id att]
  end ->
  attempt_post id att m r m'.
Proof.
  intros Hs Ht Hev. split.
  - split; [done|]. rewrite Ht.
    split; intros i; destruct r as [[]| |]; open_events Hev; subst evs; cbn; try done; case_match; lia.
  - intros p Hp Hb. rewrite Ht.
    assert (phase_of (EvBeforeAttempt id att :: m_trace m) = Some (PAttempt id att)) as H1.
    { apply (phase_of_cons _ _ p); [done|].
      destruct Hb as [[-> ->]| ->]; cbn; rewrite String.eqb_refl; [done|].
      by replace (att =? att - 1 + 1) with true by lia. }
    assert (phase_of (EvExecute id att :: EvBeforeAttempt id att :: m_trace m)
            = Some (PRunning id att)) as H2.
    { apply (phase_of_cons _ _ _ _ H1); cbn. by rewrite String.eqb_refl, Z.eqb_refl. }
    assert (forall b, phase_of (EvAfterAttempt id att b :: EvExecute id att :: EvBeforeAttempt id att
              :: m_trace m) = Some (if b then PBackoff id att else PAttempted id)) as H3.
    { intros b. apply (phase_of_cons _ _ _ _ H2); cbn. by rewrite String.eqb_refl, Z.eqb_refl. }
    destruct r as [[]| |]; open_events Hev; subst evs;
      cbn [app]; eexists; (split; [first [apply H1|apply H2|apply H3]|]); cbn; try done;
      by destruct b.
Qed.

Lemma quiet_backoff_delay policy att : quiet (M := M) (backoff_delay policy att).
Proof. unfold backoff_delay. structural. Qed.

Lemma attempt_outcome_wp n policy att answer m0 m :
  same m0 m ->
  wp (attempt_outcome lc n policy att answer)
     (fun r m' => (exists c, m_state m' = set_context c (m_state m0)) /\
        match r with
        | Val None => m_trace m' = EvAfterAttempt (spec_id n) att true :: m_trace m0
        | Val (Some _) => m_trace m' = EvAfterAttempt (spec_id n) att false :: m_trace m0
        | _ => m_trace m' = m_trace m0 \/
               exists b, m_trace m' = EvAfterAttempt (spec_id n) att b :: m_trace m0
        end) m.
Proof.
  intros Hsame. open_same Hsame. unfold attempt_outcome, wait_and_retry, finish_attempt, report_attempt.
  repeat case_match; repeat first
    [ wp_step
    | match goal with |- wp (backoff_delay _ _) _ _ =>
        apply wp_quiet; [apply quiet_backoff_delay|];
        intros [?a|?e|] ?m' Hsame; open_same Hsame; cbn [on_val] end
    | (split; [eexists; reflexivity|]; eauto; done) ].
Qed.

Lemma attempt_outcome_post n policy att answer m0 m :
  (exists c, m_state m = set_context c (m_state m0)) ->
  m_trace m = [EvExecute (spec_id n) att; EvBeforeAttempt (spec_id n) att] ++ m_trace m0 ->
  wp (attempt_outcome lc n policy att answer) (attempt_post (spec_id n) att m0) m.
Proof.
  intros [c Hs0] Ht0.
  apply (wp_mono _ _ _ _ (attempt_outcome_wp n policy att answer m m (same_refl m))).
  intros r m' [[c' Hs] Ht].
  assert (exists c, m_state m' = set_context c (m_state m0)) by (exists c'; by rewrite Hs, Hs0).
  destruct r as [[]| |]; open_events Ht; rewrite Ht0 in Ht;
    first [ apply (attempt_post_events _ _ _ _ _ [_; _; _] ltac:(done) Ht)
          | apply (attempt_post_events _ _ _ _ _ [_; _] ltac:(done) Ht) ]; eauto.
Qed.

Lemma attempt_once_wp n policy att m :
  wp (attempt_once lc g n policy att) (attempt_post (spec_id n) att m) m.
Proof.
  unfold attempt_once. do 3 wp_step. wp_step; cbn.
  2: { eapply (attempt_post_events _ _ _ _ _ [_]); cbn; eauto. }
  destruct a; repeat wp_step; try (apply attempt_outcome_post; [by eexists|done]);
    eapply (attempt_post_events _ _ _ _ _ [_]); cbn; eauto.
Qed.

Lemma attempt_loop_wp fuel n policy att m :
  wp (attempt_loop lc g fuel n policy att)
     (fun r m' =>
        during (spec_id n) (Z.of_nat fuel) m m' /\ (r <> Panicked -> forall p, phase_of (m_trace m) = Some p ->
         before_attempt_phase (spec_id n) att p ->
         exists q, phase_of (m_trace m') = Some q /\ in_attempts (spec_id n) q /\
           forall a, r = Val a -> forall k, q <> PBackoff (spec_id n) k /\ q <> PRunning (spec_id n) k)) m.
Proof.
  revert att m. induction fuel as [|fuel IH]; intros att m; cbn [attempt_loop].
  { split; [apply same_during, same_refl|done]. }
  apply wp_bind. apply (wp_mono _ _ _ _ (attempt_once_wp n policy att m)).
  intros [[r|]|e|] m1 [Hd Hp]; cbn [on_val].
  - apply wp_ret. split; [by eapply during_weaken; [|done]; lia|].
    intros _ p Hp1 Hb. destruct (Hp p Hp1 Hb) as (q & ? & ? & Hq). eauto.
  - apply (wp_mono _ _ _ _ (IH (att + 1) m1)). intros r m2 [Hd2 Hp2]. split.
    + replace (Z.of_nat (S fuel)) with (1 + Z.of_nat fuel) by lia. by eapply during_trans.
    + intros Hr p Hp1 Hb. destruct (Hp p Hp1 Hb) as (q & Hq & _ & ->).
      apply (Hp2 Hr _ Hq). right. f_equal. lia.
  - split; [by eapply during_weaken; [|done]; lia|].
    intros _ p Hp1 Hb. destruct (Hp p Hp1 Hb) as (q & ? & ? & _). eauto.
  - split; [by eapply during_weaken; [|done]; lia|done].
Qed.
End attempts.

(** ** The loop invariant *)

(** What the executor relies on of a graph: a node carries the id it is looked up
    by. *)
Class CoreGraphLaws {G N E M W} `{HG : CoreGraph G N E M W} (g : G) : Prop := {
  get_node_id : forall id n, get_node (M := M) (W := W) g id = Some n -> spec_id n = id
}.

(** The run state is consistent: the stage index counts the completed nodes, an
    outcome is recorded for exactly those, and a retry count only for those that
    needed one. *)
Definition wf_state {M} (s : ExecutionState M) : Prop :=
  stage_index s = Z.of_nat (length (completed_nodes s)) /\
  dom (node_outcomes s) = list_to_set (completed_nodes s) /\
  (forall id k, node_retries s !! id = Some k -> id ∈ completed_nodes s /\ 1 <= k).

Lemma wf_state_at {M} start : wf_state (M := M) (state_at start).
Proof.
  split; [done|]. split; [by cbn; rewrite dom_empty_L|]. intros id k.
  cbn. by rewrite lookup_empty.
Qed.

Lemma wf_record_result {M} id (r : NodeResult M) s :
  wf_state s -> wf_state (record_result id r s).
Proof.
  intros (Hi & Hd & Hr). unfold wf_state, record_result; cbn. split; [|split].
  - rewrite Hi, length_app. cbn. lia.
  - rewrite dom_insert_L, Hd, list_to_set_app_L. set_solver.
  - intros i k. case_match eqn:Ea; bool_prop.
    + intros [[<- <-]|[_ Hk]]%lookup_insert_Some; [split; [set_solver|lia]|].
      apply Hr in Hk as [? ?]. set_solver.
    + intros Hk%Hr. set_solver.
Qed.

Section body.
Context {G N E M W : Type}.
Context {HM : OutcomeMeta M} {HN : NodeSpec N} {HE : EdgeSpec E}.
Context {HG : CoreGraph G N E M W} {HH : NodeHandler G N M W} {HR : Runtime W}.
Variable (lc : RunLifecycle G N E M W) (opts : ExecutorOptions) (g : G).
Context {HL : CoreGraphLaws g}.
Variable (v0 : string -> Z).
Implicit Types (m : Mach M W) (n : N) (s : ExecutionState M) (t : list Event) (e : string -> Z).

Definition node_of (id : string) : option N := get_node (M := M) (W := W) g id.

Definition attempt_budget n : Z :=
  Z.max 0 (policy_max_attempts (handler_retry_policy (M := M) (W := W) n g)).

(** [e] counts the entries of each node so far; [pending] is a node that has been
    entered and has not been attempted yet. *)
Record core e (pending : option string) s t : Prop := mkCore {
  core_entries : forall id, entries id t = e id;
  core_visits : forall id, visits s id = v0 id + e id;
  core_node_limit : forall id n k, node_of id = Some n -> spec_max_visits n = Some k ->
    e id <= Z.max 0 (k - v0 id);
  core_graph_limit : forall id k, opt_max_node_visits opts = Some k ->
    e id <= Z.max 0 (k - v0 id);
  core_execs : forall id n, node_of id = Some n ->
    executions id t <= attempt_budget n * (e id - if bool_decide (pending = Some id) then 1 else 0);
  core_wf : wf_state s
}.

Definition silent (ev : Event) : bool :=
  match ev with EvBeforeNode _ | EvExecute _ _ => false | _ => true end.

Lemma core_event e p s t ev : silent ev = true -> core e p s t -> core e p s (ev :: t).
Proof. intros Hev []. by split; destruct ev. Qed.

Lemma core_ctx e p s t c : core e p s t -> core e p (set_context c s) t.
Proof. by intros []. Qed.

Lemma core_cancelled e p s t : core e p s t -> core e p (set_cancelled s) t.
Proof. by intros []. Qed.

Lemma core_advance e p s t id : core e p s t -> core e p (advance id s) t.
Proof. by intros []. Qed.

Lemma core_record e p s t id r : core e p s t -> core e p (record_result id r s) t.
Proof. intros []. split; try done. by apply wf_record_result. Qed.

Lemma core_restart e p s t id c : core e p s t -> core e p (restart id c s) t.
Proof. intros []. by split. Qed.

Definition bump (id : string) e : string -> Z :=
  fun i => e i + if String.eqb i id then 1 else 0.

Lemma core_weaken e p s t : core e p s t -> core e None s t.
Proof.
  intros []. split; try done. intros id n Hn. specialize (core_execs0 id n Hn).
  unfold attempt_budget in *. rewrite bool_decide_eq_false_2 by done.
  case_bool_decide; nia.
Qed.

(** Admission: both limits leave room for one more entry. *)
Lemma core_enter e n s t :
  node_of (spec_id n) = Some n ->
  core e None s t ->
  limit_reached (visits s (spec_id n)) (spec_max_visits n) = None ->
  limit_reached (visits s (spec_id n)) (opt_max_node_visits opts) = None ->
  core (bump (spec_id n) e) (Some (spec_id n)) (increment_visits (spec_id n) s)
    (EvBeforeNode (spec_id n) :: t).
Proof.
  intros Hn [He Hv Hl Hg Hx Hw] Hln Hlg. unfold bump. split.
  - intros id. cbn. rewrite He. lia.
  - intros id. unfold visits, increment_visits; cbn. destruct (String.eqb_spec id (spec_id n)) as [->|Hne].
    + rewrite lookup_insert_eq. cbn. rewrite Hv. lia.
    + rewrite lookup_insert_ne by done. fold (visits s id). rewrite Hv. lia.
  - intros id n' k Hn' Hk. specialize (Hl id n' k Hn' Hk).
    destruct (String.eqb_spec id (spec_id n)) as [->|Hne]; [|lia].
    rewrite Hn' in Hn. injection Hn as ->. rewrite Hk, Hv in Hln. cbn in Hln.
    case_match; bool_prop; [done|lia].
  - intros id k Hk. specialize (Hg id k Hk).
    destruct (String.eqb_spec id (spec_id n)) as [->|Hne]; [|lia].
    rewrite Hk, Hv in Hlg. cbn in Hlg. case_match; bool_prop; [done|lia].
  - intros id n' Hn'. specialize (Hx id n' Hn'). cbn.
    rewrite bool_decide_eq_false_2 in Hx by done.
    destruct (String.eqb_spec id (spec_id n)) as [->|Hne].
    + rewrite bool_decide_eq_true_2 by done. by replace (e (spec_id n) + 1 - 1) with (e (spec_id n) - 0) by lia.
    + rewrite bool_decide_eq_false_2 by congruence. by replace (e id + 0 - 0) with (e id - 0) by lia.
  - done.
Qed.

(** Attempting the pending node spends its budget. *)
Lemma core_during e n m m' :
  node_of (spec_id n) = Some n ->
  core e (Some (spec_id n)) (m_state m) (m_trace m) ->
  during (spec_id n) (attempt_budget n) m m' ->
  core e None (m_state m') (m_trace m').
Proof.
  intros Hn [He Hv Hl Hg Hx Hw] ((c & Hs) & Hent & Hexe). rewrite Hs. split; try done.
  - intros id. by rewrite Hent.
  - intros id n' Hn'. specialize (Hx id n' Hn'). specialize (Hexe id).
    rewrite (bool_decide_eq_false_2 (None = _)) by done.
    destruct (String.eqb_spec id (spec_id n)) as [->|Hne].
    + rewrite bool_decide_eq_true_2 in Hx by done. rewrite Hn in Hn'. injection Hn' as <-. nia.
    + rewrite bool_decide_eq_false_2 in Hx by congruence. lia.
Qed.
End body.

#[export] Hint Resolve core_ctx core_cancelled core_advance core_record core_restart core_weaken : fabro.
#[export] Hint Extern 1 (core _ _ _ _ _ _ (_ :: _)) => (apply core_event; [reflexivity|]) : fabro.
