(* ===== verification/ExecutorRun.v ===== *)
(** * Runs of the executor

    The specification of one iteration of the main loop and, by induction on the
    iterations, of whole runs. *)

From S2P Require Import Prelude RustStr RustNum Backoff GraphTypes Context Outcome Core Executor.
From S2P Require Import ExecutorLogic ExecutorFacts.
Local Open Scope Z_scope.

(** Compute the phase after the newest event. *)
Ltac next_phase :=
  eapply phase_of_cons; [eassumption|cbn; rewrite ?String.eqb_refl; reflexivity].

(** The invariant after operations that keep it. *)
Ltac core_solve := cbn [m_state m_trace m_world]; solve [eauto 12 with fabro].

Section iteration.
Context {G N E M W : Type}.
Context {HM : OutcomeMeta M} {HN : NodeSpec N} {HE : EdgeSpec E}.
Context {HG : CoreGraph G N E M W} {HH : NodeHandler G N M W} {HR : Runtime W}.
Variable (lc : RunLifecycle G N E M W) (opts : ExecutorOptions) (g : G).
Context {HL : CoreGraphLaws g}.
Variable (v0 : string -> Z).
Implicit Types (m : Mach M W) (n : N) (s : ExecutionState M) (t : list Event) (e : string -> Z).

Abbreviation core := (core opts g v0).
Abbreviation node_of := (node_of (M := M) (W := W) g).

Definition legal t : Prop := is_Some (phase_of t).

Lemma legal_phase t p : phase_of t = Some p -> legal t.
Proof. unfold legal. intros ->. by eexists. Qed.

(** The computations of routing leave the trace and the state alone. *)
Lemma quiet_routing_context c : quiet (routing_context (N := N) (M := M) (W := W) g c).
Proof. unfold routing_context. structural. Qed.

Lemma quiet_select n o c : quiet (select (E := E) (W := W) g n o c).
Proof. apply quiet_step_world. Qed.
#[local] Hint Resolve quiet_routing_context quiet_select : fabro.

Lemma quiet_chosen_edge n o prepared : quiet (chosen_edge (W := W) g n o prepared).
Proof.
  unfold chosen_edge. structural.
Qed.

Lemma quiet_apply_succeed_policy n r : quiet (apply_succeed_policy (E := E) (W := W) g n r).
Proof.
  unfold apply_succeed_policy. structural.
Qed.

Lemma total_chosen_edge n o prepared : total (chosen_edge (W := W) g n o prepared).
Proof. unfold chosen_edge, routing_context, select. structural. Qed.

Lemma total_resolve_next_step n o prepared : total (resolve_next_step lc g n o prepared).
Proof.
  unfold resolve_next_step, jump_step, edge_step, edge_decision.
  case_match; [structural|]. apply total_bind; [apply total_chosen_edge|]. structural.
Qed.

(** Routing asks about at most one edge, and then there is a next node. *)
Lemma resolve_next_step_wp n o prepared m :
  wp (resolve_next_step lc g n o prepared)
     (fun r m' => (exists c, m_state m' = set_context c (m_state m)) /\
        (m_trace m' = m_trace m \/
         exists to, m_trace m' = EvEdgeSelected (spec_id n) to :: m_trace m /\
           match r with Val next => is_Some (next_node_id next) | _ => True end)) m.
Proof.
  assert (exists c, m_state m = set_context c (m_state m)) as Hid
    by (exists (st_context (m_state m)); by rewrite set_context_id).
  unfold resolve_next_step, jump_step, edge_step, edge_decision.
  case_match.
  { repeat wp_step; [|by eauto 8]. case_match; repeat wp_step; cbn; eauto 10. }
  wp_step. apply wp_quiet; [apply quiet_chosen_edge|].
  intros [sel|err|] m1 Hsame; open_same Hsame; cbn [on_val]; [|by eauto|by eauto].
  repeat case_match; repeat wp_step; cbn; eauto 8; repeat case_match; repeat wp_step; cbn; eauto 10.
Qed.

Lemma run_end_wp o Q m :
  (forall c w, Q (Val tt) (mkMach (set_context c (m_state m)) w (EvRunEnd (status o) :: m_trace m))) ->
  wp (run_end lc o) Q m.
Proof. intros HQ. unfold run_end. repeat wp_step. apply HQ. Qed.

Lemma cancel_run_wp {A} (Q : ctl A -> Mach M W -> Prop) m :
  (forall c w, Q (Throw Cancelled) (mkMach (set_context c (set_cancelled (m_state m))) w
                              (EvRunEnd (Failed false) :: m_trace m))) ->
  wp (cancel_run lc) Q m.
Proof.
  intros HQ. unfold cancel_run. do 3 wp_step. apply run_end_wp. intros c w. apply HQ.
Qed.

(** ** One node *)

(** After a computation that may leave the loop: the invariant holds and the
    trace obeys the protocol, unless the process panicked. *)
Definition left_legal e (p : option string) {A} (r : ctl A) m : Prop :=
  core e p (m_state m) (m_trace m) /\ (r <> Panicked -> legal (m_trace m)).

Lemma left_legal_intro {A} e p (r : ctl A) s w t q :
  core e p s t -> phase_of t = Some q -> left_legal e p r (mkMach s w t).
Proof. intros Hc Hq. split; [done|]. intros _. by eapply legal_phase. Qed.

Lemma execute_or_stall_wp e n m :
  node_of (spec_id n) = Some n ->
  core e (Some (spec_id n)) (m_state m) (m_trace m) ->
  phase_of (m_trace m) = Some (PNode (spec_id n)) ->
  wp (execute_or_stall lc opts g n)
     (fun r m' => core e None (m_state m') (m_trace m') /\
        (r <> Panicked -> exists q, phase_of (m_trace m') = Some q /\
           (forall a, r = Val a -> in_attempts (spec_id n) q) /\
           (forall a, r = Val (Ok a) ->
              phase_step q (EvAfterNode (spec_id n)) = Some (PFinished (spec_id n))))) m.
Proof.
  intros Hn Hc Hp. unfold execute_or_stall, wp.
  case_match eqn:Hst.
  { destruct p as [c w]. cbn. split; [core_solve|].
    intros _. by exists (PNode (spec_id n)). }
  apply (wp_catch (execute_with_retry lc g n)). unfold execute_with_retry.
  eapply wp_mono; [apply attempt_loop_wp|]. intros r m' [Hd Hph].
  assert (core e None (m_state m') (m_trace m')) as Hc'.
  { eapply core_during; [done..|]. unfold attempt_budget.
    match goal with |- during _ (Z.max 0 ?x) _ _ =>
      by replace (Z.max 0 x) with (Z.of_nat (Z.to_nat x)) by lia end. }
  destruct r as [a|err|]; (split; [done|]); [..|done]; intros _;
    (edestruct Hph as (q & Hq & Hin & Hend); [done|exact Hp|by left|]);
    exists q; (split; [done|]); (split; [done|]); [|done].
  intros a' [= <-]. specialize (Hend a eq_refl).
  destruct q; cbn in Hin |- *; subst; try done; rewrite ?String.eqb_refl; try done;
    by destruct (Hend k) as [? ?].
Qed.

Lemma after_node_call_wp e n r q m :
  core e None (m_state m) (m_trace m) ->
  phase_of (m_trace m) = Some q ->
  phase_step q (EvAfterNode (spec_id n)) = Some (PFinished (spec_id n)) ->
  wp (after_node_call lc n r)
     (fun a m' => core e None (m_state m') (m_trace m') /\
                  phase_of (m_trace m') = Some (PFinished (spec_id n))) m.
Proof.
  intros Hc Hq Hs. pose proof (phase_of_cons _ _ _ _ Hq Hs) as Hp.
  unfold after_node_call. repeat wp_step; (split; [core_solve|done]).
Qed.

Lemma run_continue_wp e n m :
  node_of (spec_id n) = Some n ->
  core e (Some (spec_id n)) (m_state m) (m_trace m) ->
  phase_of (m_trace m) = Some (PNode (spec_id n)) ->
  wp (run_continue lc opts g n)
     (fun r m' => left_legal e None r m' /\
        (forall rp, r = Val rp -> phase_of (m_trace m') = Some (PFinished (spec_id n)))) m.
Proof.
  intros Hn Hc Hp. unfold run_continue. wp_step.
  apply (wp_mono _ _ _ _ (execute_or_stall_wp e n m Hn Hc Hp)).
  intros [[r|err]|err|] m1 [Hc1 Hph]; cbn [on_val].
  - destruct Hph as (q & Hq & Hin & Hfin); [done|]. specialize (Hfin r eq_refl).
    wp_step. apply wp_quiet; [apply quiet_apply_succeed_policy|].
    intros [rp|err|] m2 Hsame; open_same Hsame; cbn [on_val];
      try (split; [eapply left_legal_intro; [core_solve|done]|done]).
    wp_step. eapply wp_mono.
    + eapply (after_node_call_wp e); [apply core_ctx, Hc1|exact Hq|exact Hfin].
    + intros [r'|err|] m3 [Hc3 Hp3]; cbn [on_val]; repeat wp_step;
        (split; [split; [done|intros _; by eapply legal_phase]|done]).
  - destruct Hph as (q & Hq & Hin & _); [done|]. specialize (Hin _ eq_refl).
    assert (phase_of (EvRunEnd (Failed false) :: m_trace m1) = Some PEnded) as He.
    { apply (phase_of_cons _ _ _ _ Hq). by destruct q. }
    case_match; try (wp_step; split; [split; [done|intros _; by eapply legal_phase]|done]).
    apply cancel_run_wp. intros c w.
    split; [eapply left_legal_intro; [core_solve|exact He]|done].
  - destruct Hph as (q & Hq & _); [done|].
    split; [split; [done|intros _; by eapply legal_phase]|done].
  - by split.
Qed.

Lemma run_node_wp e n nx m :
  node_of (spec_id n) = Some n ->
  core e (Some (spec_id n)) (m_state m) (EvBeforeNode (spec_id n) :: m_trace m) ->
  phase_of (m_trace m) = Some (PReady nx) -> expects nx (spec_id n) = true ->
  wp (run_node lc opts g n)
     (fun r m' => left_legal e None r m' /\
        (forall rp, r = Val rp -> phase_of (m_trace m') = Some (PFinished (spec_id n)))) m.
Proof.
  intros Hn Hc Hp Hx.
  assert (phase_of (EvBeforeNode (spec_id n) :: m_trace m) = Some (PNode (spec_id n))) as Hp1.
  { by apply (phase_of_cons _ _ _ _ Hp), phase_enter. }
  unfold run_node. do 3 wp_step. wp_step.
  2: { split; [eapply left_legal_intro; [eapply core_weaken, core_ctx, Hc|exact Hp1]|done]. }
  destruct a; cbn [on_val].
  - apply run_continue_wp; [done|core_solve|done].
  - wp_step. eapply wp_mono.
    + eapply (after_node_call_wp e); [eapply core_weaken, core_ctx, Hc|exact Hp1|].
      cbn. by rewrite String.eqb_refl.
    + intros [r'|err|] m3 [Hc3 Hp3]; cbn [on_val]; repeat wp_step;
        (split; [split; [done|intros _; by eapply legal_phase]|done]).
  - wp_step. split; [eapply left_legal_intro; [eapply core_weaken, core_ctx, Hc|exact Hp1]|done].
Qed.

(** The machine is between two nodes, and the node the protocol expects next is
    the current one. *)
Definition ready s t : Prop :=
  exists nx, phase_of t = Some (PReady nx) /\ expects nx (st_current s) = true.

Definition body_post e (r : ctl (option (Outcome M))) m : Prop :=
  core e None (m_state m) (m_trace m) /\
  match r with
  | Val None => ready (m_state m) (m_trace m)
  | Val (Some o) => phase_of (m_trace m) = Some PEnded /\
      exists t, m_trace m = EvRunEnd (status o) :: t
  | Throw _ => legal (m_trace m)
  | Panicked => True
  end.

Lemma body_post_throw e err s w t q :
  core e None s t -> phase_of t = Some q -> body_post e (Throw err) (mkMach s w t).
Proof. intros Hc Hq. split; [done|]. by eapply legal_phase. Qed.

Lemma take_step_wp e n o next m :
  core e None (m_state m) (m_trace m) ->
  phase_of (m_trace m) =
    Some match next_node_id next with Some t => PReady (Some t) | None => PClosing end ->
  wp (take_step lc g n o next) (fun r m' => body_post e r m' /\ r <> Panicked) m.
Proof.
  intros Hc Hp. unfold take_step. destruct next as [to|to|to|]; cbn in Hp; repeat wp_step.
  - split; [|done]. split; [core_solve|]. exists (Some to). cbn.
    by rewrite String.eqb_refl.
  - split; [|done]. split; [core_solve|]. exists (Some to). cbn.
    by rewrite String.eqb_refl.
  - split; [|done]. split; [ core_solve|]. exists (Some to). cbn.
    rewrite String.eqb_refl. split; [|done]. next_phase.
  - split; [|done]. eapply body_post_throw; [core_solve|]. next_phase.
  - apply run_end_wp. intros c w. cbn [on_val]. wp_step. split; [|done].
    split; [core_solve|]. split; [next_phase|by eexists].
Qed.

Lemma finish_node_wp e n rp m :
  core e None (m_state m) (m_trace m) ->
  phase_of (m_trace m) = Some (PFinished (spec_id n)) ->
  wp (finish_node lc g n rp) (fun r m' => body_post e r m' /\ r <> Panicked) m.
Proof.
  intros Hc Hp. destruct rp as [r prepared]. unfold finish_node.
  assert (phase_of (EvAfterRecord (spec_id n) :: EvRecord (spec_id n) :: m_trace m)
          = Some (PStored (spec_id n))) as Hp2.
  { eapply phase_of_cons; [next_phase|]. cbn. by rewrite String.eqb_refl. }
  do 7 wp_step. wp_step; cbn [on_val].
  2: { split; [|done]. eapply body_post_throw; [core_solve|exact Hp2]. }
  do 2 wp_step. cbn. rewrite lookup_insert_eq. wp_step.
  apply (wp_mono _ _ _ _ (wp_total _ _ _ (total_resolve_next_step _ _ _) (resolve_next_step_wp _ _ _ _))).
  intros next m1 [[[c1 Hs1] Ht1] Hnop]. cbn [m_state m_trace] in Hs1, Ht1.
  assert (exists q, phase_of (m_trace m1) = Some q /\
    (next <> Panicked -> forall nx, next = Val nx ->
     phase_step q (EvCheckpoint (spec_id n) (next_node_id nx)) =
     Some match next_node_id nx with Some t => PReady (Some t) | None => PClosing end)) as (q & Hq & Hstep).
  { destruct Ht1 as [->|(to & -> & Hnx)].
    - eexists; split; [exact Hp2|]. intros _ nx ->. cbn.
      destruct (next_node_id nx); cbn; by rewrite String.eqb_refl.
    - exists (PRouted (spec_id n)). split; [next_phase|].
      intros _ nx ->. destruct Hnx as [t Ht]. rewrite Ht. cbn. by rewrite String.eqb_refl. }
  assert (core e None (m_state m1) (m_trace m1)) as Hc1.
  { rewrite Hs1. destruct Ht1 as [->|(to & -> & _)]; core_solve. }
  destruct m1 as [s1 w1 t1]; cbn [m_state m_trace] in *.
  destruct next as [nx|err|]; cbn [on_val].
  - pose proof (phase_of_cons _ _ _ _ Hq (Hstep ltac:(done) nx eq_refl)) as Hcp.
    do 3 wp_step. wp_step; cbn [on_val].
    + apply take_step_wp; [core_solve|exact Hcp].
    + split; [|done]. eapply body_post_throw; [core_solve|exact Hcp].
  - split; [|done]. eapply body_post_throw; eauto.
  - done.
Qed.

(** ** One iteration *)

(** How an iteration that goes on makes progress: it entered one more node, or it
    left a terminal node for one that is not. *)
Definition progress s e (r : ctl (option (Outcome M))) m : Prop :=
  match r with
  | Val None =>
      (exists n, node_of (st_current s) = Some n /\ spec_is_terminal n = false /\
                 body_post (bump (st_current s) e) r m) \/
      (exists n n', node_of (st_current s) = Some n /\ spec_is_terminal n = true /\
                 node_of (st_current (m_state m)) = Some n' /\ spec_is_terminal n' = false /\
                 body_post e r m)
  | _ => exists e', body_post e' r m
  end.

Lemma terminal_step_wp e n m :
  node_of (st_current (m_state m)) = Some n -> spec_is_terminal n = true ->
  core e None (m_state m) (m_trace m) -> ready (m_state m) (m_trace m) ->
  wp (terminal_step lc g n) (fun r m' => progress (m_state m) e r m' /\ r <> Panicked) m.
Proof.
  intros Hn Hterm Hc (nx & Hp & Hx). unfold terminal_step.
  rewrite <- (get_node_id _ _ Hn) in Hx.
  pose proof (fun b => phase_of_cons _ _ _ _ Hp (phase_terminal _ _ b Hx)) as Hpt.
  do 2 wp_step. case_match.
  { repeat wp_step. apply run_end_wp. intros ? ?. cbn [on_val]. wp_step. split; [|done].
    exists e. split; [core_solve|]. split; [|by eexists].
    apply (phase_of_cons _ _ _ _ (Hpt true)). done. }
  assert (forall c w, wp (bind (run_end lc (goal_gate_failure e0)) (fun _ => ret (Some (goal_gate_failure e0))))
     (fun r m' => progress (m_state m) e r m' /\ r <> Panicked)
     (mkMach (set_context c (m_state m)) w (EvTerminal (spec_id n) false :: m_trace m))) as Hend.
  { intros c w. wp_step. apply run_end_wp. intros c' w'. cbn [on_val]. wp_step. split; [|done].
    exists e. split; [core_solve|]. split; [|by eexists].
    apply (phase_of_cons _ _ _ _ (Hpt false)), phase_ready_end. }
  repeat wp_step. case_match; [|apply Hend].
  case_match eqn:Ht; [|apply Hend].
  apply is_some_and_true in Ht as (n' & Hn' & Hnt). repeat wp_step. split; [|done].
  right. exists n, n'. apply negb_true_iff in Hnt. repeat (split; [done|]).
  split; [core_solve|]. by exists None; split; [apply (Hpt false)|].
Qed.

Lemma visit_node_wp e n m :
  node_of (st_current (m_state m)) = Some n -> spec_is_terminal n = false ->
  core e None (m_state m) (m_trace m) -> ready (m_state m) (m_trace m) ->
  wp (visit_node lc opts g n) (progress (m_state m) e) m.
Proof.
  intros Hn Hterm Hc (nx & Hp & Hx). pose proof (get_node_id _ _ Hn) as Hid.
  unfold visit_node, check_visits. repeat wp_step.
  case_match eqn:Hl1.
  { wp_step. exists e. split; [done|by eapply legal_phase]. }
  case_match eqn:Hl2.
  { wp_step. exists e. split; [done|by eapply legal_phase]. }
  rewrite <- Hid in Hn, Hx. pose proof (core_enter _ _ _ _ _ _ _ Hn Hc Hl1 Hl2) as Hc1.
  do 2 wp_step. eapply wp_mono; [eapply run_node_wp; [done|exact Hc1|exact Hp|done]|].
  intros [rp|err|] m1 [[Hc2 Hlg] Hfin]; cbn [on_val].
  - apply (wp_mono _ _ _ _ (finish_node_wp _ n rp _ Hc2 (Hfin rp eq_refl))).
    intros r m2 [Hb _]. unfold progress. rewrite <- Hid.
    destruct r as [[o|]|err|]; [by eexists| |by eexists..].
    left. by exists n.
  - eexists. split; [exact Hc2|by apply Hlg].
  - eexists. by split.
Qed.

Lemma loop_body_wp e m :
  core e None (m_state m) (m_trace m) -> ready (m_state m) (m_trace m) ->
  wp (loop_body lc opts g) (progress (m_state m) e) m.
Proof.
  intros Hc Hr. unfold loop_body. repeat wp_step. case_match.
  { apply cancel_run_wp. intros c w. exists e. destruct Hr as (nx & Hp & _).
    eapply body_post_throw; [core_solve|]. apply (phase_of_cons _ _ _ _ Hp), phase_ready_end. }
  repeat wp_step. unfold current_node. case_match eqn:Hn.
  - case_match eqn:Ht.
    + eapply wp_mono; [by apply terminal_step_wp|]. by intros r m' [? _].
    + by apply visit_node_wp.
  - wp_step. exists e. destruct Hr as (nx & Hp & _). split; [done|by eapply legal_phase].
Qed.
End iteration.
