(* ===== verification/ExecutorProps.v ===== *)
(** * The properties of the executor *)

From S2P Require Import Prelude RustStr RustNum Backoff GraphTypes Context Outcome Core Executor.
From S2P Require Import ExecutorLogic ExecutorFacts ExecutorRun.
Local Open Scope Z_scope.

(** ** A concrete engine, for the witnesses

    Three nodes [start], [work] and [exit]; [work] fails at its first execution
    with a retryable error, and [exit] is terminal.  The world counts the
    executions. *)
Module Toy.
#[export] Instance toy_meta : OutcomeMeta unit := tt.

#[export] Instance toy_node : NodeSpec string := {|
  spec_id := fun n => n;
  spec_is_terminal := fun n => String.eqb n "exit";
  spec_max_visits := fun n => if String.eqb n "work" then Some 2 else Some 5
|}.

#[export] Instance toy_edge : EdgeSpec string := {|
  spec_target := fun e => e;
  spec_label := fun _ => None;
  spec_is_loop_restart := fun _ => false
|}.

Definition toy_next (n : string) : option string :=
  if String.eqb n "start" then Some "work"
  else if String.eqb n "work" then Some "exit" else None.

#[export] Instance toy_graph : CoreGraph unit string string unit nat := {|
  get_node := fun _ id => if bool_decide (id ∈ ["start"; "work"; "exit"]) then Some id else None;
  core_find_start_node := fun _ => Ok "start";
  core_outgoing_edges := fun _ n => option_list (toy_next n);
  core_select_edge := fun _ n _ _ w => ((fun e => mkSelection e RUnconditional) <$> toy_next n, w);
  project_result_context := fun _ _ _ c => c;
  core_check_goal_gates := fun _ _ => Ok tt;
  core_get_retry_target := fun _ _ => None;
  core_resolve_on_failure := fun _ n =>
    if String.eqb n "work" then {| rof_policy := Exit; rof_scope := ScopeNode |}
    else {| rof_policy := Succeed; rof_scope := ScopeNode |}
|}.

Definition toy_error : CoreError :=
  HandlerError {| retryable := true; detail_failure := FailureDetail_new "boom" TransientInfra |}.

#[export] Instance toy_handler : NodeHandler unit string unit nat := {|
  execute := fun n c _ w =>
    ((if (String.eqb n "work" && Nat.leb w 1)%bool then Err toy_error else Ok outcome_success), c, S w);
  context_for_edge_selection := fun c _ w => (Ok c, w);
  handler_retry_policy := fun _ _ => with_max_attempts 3;
  on_retries_exhausted := fun _ o => o
|}.

#[export] Instance toy_runtime : Runtime nat := {|
  elapsed := fun _ => 0;
  sleep := fun _ w => w;
  is_cancelled := fun _ => false;
  stall_race := fun _ _ _ => None;
  draw_jitter := fun w => (f64_of_Z 1, w)
|}.

#[export] Instance toy_laws : CoreGraphLaws (HG := toy_graph) tt.
Proof. split. intros id n. cbn. case_bool_decide; [by intros [= ->]|done]. Qed.

Definition toy_lifecycle : RunLifecycle unit string string unit nat := NoopLifecycle.
Definition toy_start : Mach unit nat := mkMach (state_at "start") 0%nat [].
Definition toy_run := run toy_lifecycle ExecutorOptions_default tt 10 toy_start.
End Toy.

Section runs.
Context {G N E M W : Type}.
Context {HM : OutcomeMeta M} {HN : NodeSpec N} {HE : EdgeSpec E}.
Context {HG : CoreGraph G N E M W} {HH : NodeHandler G N M W} {HR : Runtime W}.
Variable (lc : RunLifecycle G N E M W) (opts : ExecutorOptions) (g : G).
Context {HL : CoreGraphLaws g}.
Implicit Types (m : Mach M W) (n : N) (e : string -> Z).

(** A machine at the start of a run: nothing traced yet, a consistent state (fresh,
    or restored from a checkpoint). *)
Definition fresh m : Prop := m_trace m = [] /\ wf_state (m_state m).

(** The state of affairs when a run is over. *)
Definition run_post (v0 : string -> Z) (r : ctl (Outcome M)) m : Prop :=
  exists e, core opts g v0 e None (m_state m) (m_trace m) /\
  match r with
  | Val o => phase_of (m_trace m) = Some PEnded /\ exists t, m_trace m = EvRunEnd (status o) :: t
  | Throw _ => legal (m_trace m)
  | Panicked => True
  end.

Lemma run_loop_post v0 fuel e m r m' :
  core opts g v0 e None (m_state m) (m_trace m) -> ready (m_state m) (m_trace m) ->
  run_loop lc opts g fuel m = Some (r, m') -> run_post v0 r m'.
Proof.
  revert e m. induction fuel as [|fuel IH]; intros e m Hc Hr; cbn [run_loop]; [done|].
  pose proof (loop_body_wp lc opts g v0 e m Hc Hr) as Hwp. unfold wp in Hwp.
  destruct (loop_body lc opts g m) as [[[o|]|err|] m1]; cbn in Hwp.
  - intros [= <- <-]. destruct Hwp as (e' & Hc' & Hp). by exists e'.
  - destruct Hwp as [(n & _ & _ & Hc' & Hr')|(n & n' & _ & _ & _ & _ & Hc' & Hr')]; by eapply IH.
  - intros [= <- <-]. destruct Hwp as (e' & Hc' & Hp). by exists e'.
  - intros [= <- <-]. destruct Hwp as (e' & Hc' & Hp). by exists e'.
Qed.

Lemma core_start m c :
  fresh m ->
  core opts g (visits (m_state m)) (fun _ => 0) None (set_context c (m_state m)) (EvRunStart :: m_trace m).
Proof.
  intros [Ht Hw]. apply core_event; [done|]. apply core_ctx. rewrite Ht.
  split; cbn; try done; intros; rewrite ?bool_decide_eq_false_2 by done; lia.
Qed.

Lemma run_start_wp m :
  fresh m ->
  wp (bind (emit EvRunStart) (fun _ => call (on_run_start lc g)))
    (fun (a : ctl unit) m1 =>
       core opts g (visits (m_state m)) (fun _ => 0) None (m_state m1) (m_trace m1)
       /\ ready (m_state m1) (m_trace m1)) m.
Proof.
  intros Hf. pose proof (fun c => core_start m c Hf) as Hc. destruct Hf as [Ht _].
  repeat wp_step; (split; [apply Hc|]); exists None; cbn; by rewrite Ht.
Qed.

Lemma run_wp fuel m r m' :
  fresh m -> run lc opts g fuel m = Some (r, m') -> run_post (visits (m_state m)) r m'.
Proof.
  intros Hf. unfold run. pose proof (run_start_wp m Hf) as Hwp. unfold wp in Hwp.
  destruct (bind _ _ m) as [[[]|err|] m1]; cbn in Hwp; destruct Hwp as [Hc Hr].
  - by apply run_loop_post with (e := fun _ => 0).
  - intros [= <- <-]. eexists. split; [exact Hc|]. destruct Hr as (nx & Hp & _).
    by eapply legal_phase.
  - intros [= <- <-]. by eexists.
Qed.

(** C1: whatever the handler and the lifecycle callbacks do, a run that does not
    panic calls the lifecycle in the order the protocol [phase_step] allows: run
    start first, each node's before-node / attempts / after-node / record /
    after-record / edge / checkpoint in sequence with consecutively numbered
    attempts, the node a checkpoint names entered next, nothing after the run end.
    A run that returns an outcome has ended: its last event reports the end of the
    run with that outcome's status. *)
Theorem run_follows_lifecycle_protocol fuel m r m' :
  fresh m -> run lc opts g fuel m = Some (r, m') -> r <> Panicked ->
  exists p, phase_of (m_trace m') = Some p /\
    forall o, r = Val o -> p = PEnded /\ head (m_trace m') = Some (EvRunEnd (status o)).
Proof.
  intros Hf Hrun Hnp. destruct (run_wp _ _ _ _ Hf Hrun) as (e & _ & Hpost).
  destruct r as [o|err|]; [| |done].
  - destruct Hpost as (Hp & t & Ht). exists PEnded. split; [done|]. intros o' [= <-]. by rewrite Ht.
  - destruct Hpost as [p Hp]. exists p. split; [done|]. by intros o.
Qed.



(** ** Termination *)

(** The smaller of a node's two limits, when it has one. *)
Definition effective_limit (n : N) : option Z :=
  match spec_max_visits n, opt_max_node_visits opts with
  | Some a, Some b => Some (Z.min a b)
  | Some a, None => Some a
  | None, b => b
  end.

Definition total_entries (ids : list string) e : Z := foldr (fun id acc => e id + acc) 0 ids.

Lemma total_entries_cons id ids e : total_entries (id :: ids) e = e id + total_entries ids e.
Proof. done. Qed.

Lemma total_entries_bound ids e L :
  (forall id, 0 <= e id <= L) -> 0 <= total_entries ids e <= L * Z.of_nat (length ids).
Proof.
  intros He. induction ids as [|id ids IH]; [cbn; lia|].
  rewrite total_entries_cons. specialize (He id). cbn [length]. rewrite Nat2Z.inj_succ, Z.mul_succ_r. lia.
Qed.

Lemma total_entries_bump ids id e :
  id ∈ ids -> total_entries ids e + 1 <= total_entries ids (bump id e).
Proof.
  intros Hin. assert (forall x, e x <= bump id e x) as Hb by (intros x; unfold bump; case_match; lia).
  assert (forall l, total_entries l e <= total_entries l (bump id e)) as Hmono.
  { induction l as [|x l IH]; rewrite ?total_entries_cons; [done|]. specialize (Hb x). lia. }
  induction Hin as [x l|x y l Hin IH]; rewrite !total_entries_cons.
  - specialize (Hmono l). assert (bump x e x = e x + 1) by (unfold bump; by rewrite String.eqb_refl).
    lia.
  - specialize (IH Hb Hmono). specialize (Hb y). lia.
Qed.

Section termination.
Variables (ids : list string) (L : Z).
Hypothesis finite_nodes : forall id n, get_node (M := M) (W := W) g id = Some n -> id ∈ ids.
Hypothesis all_limited : forall id n, get_node (M := M) (W := W) g id = Some n ->
  spec_is_terminal n = false -> exists k, effective_limit n = Some k /\ k <= L.
Hypothesis L_nonneg : 0 <= L.

(** Twice the entries that are left, plus one at a terminal node: a terminal node
    is only left for one that is not. *)
Definition fuel_left e m : Z :=
  2 * (L * Z.of_nat (length ids) - total_entries ids e)
  + (if is_some_and spec_is_terminal (get_node (M := M) (W := W) g (st_current (m_state m)))
     then 2 else 1).

Lemma bump_bounded v0 id n e s t :
  (forall i, 0 <= v0 i) ->
  get_node (M := M) (W := W) g id = Some n -> spec_is_terminal n = false ->
  (forall i, 0 <= e i <= L) ->
  core opts g v0 (bump id e) None s t -> forall i, 0 <= bump id e i <= L.
Proof.
  intros Hv Hn Ht He [_ _ Hl Hg _ _] i. specialize (Hv i).
  destruct (all_limited _ _ Hn Ht) as (k & Hk & HkL). unfold effective_limit in Hk.
  unfold bump in *. specialize (He i). specialize (fun k => Hg i k). specialize (fun n k => Hl i n k).
  destruct (String.eqb_spec i id) as [->|Hne]; [|lia].
  destruct (spec_max_visits n) as [a|] eqn:Ha; [specialize (Hl n a Hn Ha)|];
    (destruct (opt_max_node_visits opts) as [b|]; [specialize (Hg b eq_refl)|]); simplify_eq; lia.
Qed.

Lemma run_loop_terminates v0 fuel e m :
  (forall i, 0 <= v0 i) -> (forall i, 0 <= e i <= L) ->
  core opts g v0 e None (m_state m) (m_trace m) -> ready (m_state m) (m_trace m) ->
  fuel_left e m <= Z.of_nat fuel ->
  is_Some (run_loop lc opts g fuel m).
Proof.
  intros Hv. revert e m. induction fuel as [|fuel IH]; intros e m He Hc Hr Hfuel.
  { exfalso. pose proof (total_entries_bound ids e L He). unfold fuel_left in Hfuel. case_match; lia. }
  cbn [run_loop]. pose proof (loop_body_wp lc opts g v0 e m Hc Hr) as Hwp. unfold wp in Hwp.
  destruct (loop_body lc opts g m) as [[[o|]|err|] m1]; [by eexists| |by eexists..].
  destruct Hwp as [(n & Hn & Ht & Hc' & Hr')|(n & n' & Hn & Ht & Hn' & Ht' & Hc' & Hr')].
  - pose proof (bump_bounded _ _ _ _ _ _ Hv Hn Ht He Hc') as He'.
    apply (IH (bump (st_current (m_state m)) e)); [done..|].
    pose proof (total_entries_bump ids _ e (finite_nodes _ _ Hn)).
    pose proof (total_entries_bound ids _ L He').
    unfold fuel_left, node_of in *. rewrite Hn in Hfuel. cbn [is_some_and] in Hfuel.
    rewrite Ht in Hfuel. destruct (is_some_and _ _); lia.
  - apply (IH e); [done..|]. unfold fuel_left, node_of in *. cbn [snd] in Hn'.
    rewrite Hn in Hfuel. rewrite Hn'. cbn [is_some_and] in *. rewrite Ht in Hfuel. rewrite Ht'. lia.
Qed.

Lemma run_ends m :
  fresh m -> (forall id, 0 <= visits (m_state m) id) ->
  exists res, run lc opts g (2 * Z.to_nat L * length ids + 2) m = Some res.
Proof.
  intros Hf Hv. unfold run. pose proof (run_start_wp m Hf) as Hwp.
  unfold wp in Hwp. destruct (bind _ _ m) as [[[]|err|] m1]; [|by eexists..].
  destruct Hwp as [Hc Hr]. eapply (run_loop_terminates _ _ _ _ Hv); [|exact Hc|exact Hr|].
  - intros i. lia.
  - unfold fuel_left. pose proof (total_entries_bound ids (fun _ => 0) L ltac:(intros; lia)).
    rewrite Nat2Z.inj_add, !Nat2Z.inj_mul, Z2Nat.id by done. case_match; lia.
Qed.

(** C8: when the graph has finitely many nodes and every node but the terminal ones
    has a visit limit (its own or the graph's) of at most [L], every run ends: it
    returns an outcome, an error or panics within [2 * L * nodes + 2] iterations,
    whatever the handler and the lifecycle do. *)
Theorem run_terminates m :
  fresh m -> (forall id, 0 <= visits (m_state m) id) ->
  exists res, run lc opts g (2 * Z.to_nat L * length ids + 2) m = Some res.
Proof.
  apply run_ends.
Qed.
End termination.

(** ** Panics *)

(** The retry policies a handler gives: at least one attempt, and a backoff whose
    delays fit a [Duration]. *)
Definition sane_policy n : Prop :=
  let policy := handler_retry_policy (M := M) (W := W) n g in
    1 <= policy_max_attempts policy /\
    forall att w, 1 <= att < policy_max_attempts policy ->
      (delay_for_attempt draw_jitter (backoff policy) att w).1 <> None.

Definition sane_policies : Prop :=
  forall id n, get_node (M := M) (W := W) g id = Some n -> sane_policy n.

Lemma total_backoff_delay policy att :
  (forall w, (delay_for_attempt draw_jitter (backoff policy) att w).1 <> None) ->
  total (M := M) (backoff_delay policy att).
Proof.
  intros Hd m. unfold backoff_delay, bind, step_world. specialize (Hd (m_world m)).
  by destruct (delay_for_attempt _ _ _ _) as [[d|] w].
Qed.

Lemma total_attempt_outcome n policy att answer :
  1 <= att ->
  (forall w, 1 <= att < policy_max_attempts policy ->
     (delay_for_attempt draw_jitter (backoff policy) att w).1 <> None) ->
  total (attempt_outcome lc n policy att answer).
Proof.
  intros Ha Hd. unfold attempt_outcome, wait_and_retry, finish_attempt, report_attempt.
  repeat case_match; bool_prop; repeat first
    [ apply total_backoff_delay; intros w; apply Hd; lia
    | progress intros | solve [eauto with fabro] | apply total_bind ].
Qed.

(** Only an attempt that is not the last one asks for another. *)
Lemma attempt_once_again n policy att m m' :
  attempt_once lc g n policy att m = (Val None, m') -> att < policy_max_attempts policy.
Proof.
  assert (wp (attempt_once lc g n policy att)
    (fun r _ => r = Val None -> att < policy_max_attempts policy) m) as Hwp; [|by intros Hr; unfold wp in Hwp; rewrite Hr in Hwp; auto].
  unfold attempt_once. do 3 wp_step. wp_step; cbn; [|done].
  assert (forall answer m, wp (attempt_outcome lc n policy att answer)
    (fun r _ => r = Val None -> att < policy_max_attempts policy) m) as Hout.
  { intros answer m1. unfold attempt_outcome, wait_and_retry, finish_attempt, report_attempt.
    repeat case_match; bool_prop; repeat first
      [ wp_step | done
      | match goal with |- wp (backoff_delay _ _) _ _ =>
          apply wp_quiet; [apply quiet_backoff_delay|]; intros [?a|?e|] ?m' _; cbn [on_val] end ]. }
  destruct a; repeat wp_step; try done; apply Hout.
Qed.

Lemma total_attempt_loop fuel n policy att :
  1 <= att -> policy_max_attempts policy - att < Z.of_nat fuel -> att <= policy_max_attempts policy ->
  (forall att w, 1 <= att < policy_max_attempts policy ->
     (delay_for_attempt draw_jitter (backoff policy) att w).1 <> None) ->
  total (attempt_loop lc g fuel n policy att).
Proof.
  intros Ha Hf Hle Hd m. revert att m Ha Hf Hle. induction fuel as [|fuel IH]; intros att m Ha Hf Hle; [lia|].
  cbn [attempt_loop]. unfold bind.
  assert (total (attempt_once lc g n policy att)) as Ht.
  { unfold attempt_once. structural. apply total_attempt_outcome; auto. }
  specialize (Ht m). destruct (attempt_once lc g n policy att m) as [[[r|]|err|] m1] eqn:Hr; try done.
  apply attempt_once_again in Hr. apply IH; lia.
Qed.

Lemma total_run_end o : total (run_end lc o).
Proof. unfold run_end. structural. Qed.

Lemma total_cancel_run {A} : total (cancel_run (A := A) lc).
Proof. unfold cancel_run. repeat first [apply total_run_end | apply total_bind | solve [eauto with fabro] | intro]. Qed.

Lemma total_take_step n o next : total (take_step lc g n o next).
Proof.
  unfold take_step. destruct next; repeat first [apply total_run_end | apply total_bind | solve [eauto with fabro] | intro].
Qed.

Lemma total_finish_node n rp : total (finish_node lc g n rp).
Proof.
  intros m. destruct rp as [r prepared].
  assert (wp (finish_node lc g n (r, prepared)) (fun a _ => a <> Panicked) m) as Hwp; [|exact Hwp].
  unfold finish_node. do 7 wp_step. wp_step; [|done]. do 2 wp_step. cbn. rewrite lookup_insert_eq.
  match goal with |- wp ?c _ _ => assert (total c) as Ht end; [|apply Ht].
  repeat first [apply total_resolve_next_step | apply total_take_step | apply total_bind
               | solve [eauto with fabro] | progress intros].
Qed.

Lemma total_terminal_step n : total (terminal_step lc g n).
Proof.
  unfold terminal_step.
  repeat first [apply total_run_end | apply total_bind | solve [eauto with fabro] | progress intros | case_match].
Qed.

Lemma total_apply_succeed_policy n r : total (apply_succeed_policy (E := E) (W := W) g n r).
Proof. unfold apply_succeed_policy, routing_context, select. structural. Qed.

Lemma total_visit_node n : sane_policy n -> total (visit_node lc opts g n).
Proof.
  intros Hs.
  assert (total (execute_or_stall lc opts g n)) as Hex.
  { intros m. unfold execute_or_stall. case_match; [by destruct p|].
    apply total_catch. unfold execute_with_retry. destruct Hs as [H1 H2].
    apply total_attempt_loop; [lia..|done]. }
  unfold visit_node, check_visits, run_node, run_continue, after_node_call.
  repeat first [apply total_cancel_run | apply total_finish_node | exact Hex
               | apply total_apply_succeed_policy | apply total_bind
               | solve [eauto with fabro] | progress intros | case_match].
Qed.

Lemma run_total fuel m r m' :
  sane_policies -> run lc opts g fuel m = Some (r, m') -> r <> Panicked.
Proof.
  intros Hs.
  assert (total (loop_body lc opts g)) as Hb.
  { unfold loop_body. repeat first [apply total_cancel_run | apply total_terminal_step
      | by eapply total_visit_node, Hs | apply total_bind | solve [eauto with fabro] | progress intros | case_match]. }
  assert (forall m, run_loop lc opts g fuel m = Some (r, m') -> r <> Panicked) as Hloop.
  { induction fuel as [|fuel IH]; intros m0; cbn [run_loop]; [done|]. specialize (Hb m0).
    destruct (loop_body lc opts g m0) as [[[o|]|err|] m1]; [|by apply IH|..]; by intros [= <- <-]. }
  unfold run. assert (total (bind (emit EvRunStart) (fun _ => call (on_run_start lc g)))) as Ht by structural.
  specialize (Ht m). destruct (bind _ _ m) as [[[]|err|] m1]; [by apply Hloop|..]; by intros [= <- <-].
Qed.

(** C34: a run does not panic, whatever the graph, the handler and the lifecycle
    do, when the retry policy of every node of the graph allows at least one attempt and its backoff delays
    are representable: the [unreachable!] after the retry loop is not reached and
    the outcome of the node just recorded is always found. *)
Theorem run_never_panics fuel m r m' :
  sane_policies -> run lc opts g fuel m = Some (r, m') -> r <> Panicked.
Proof.
  apply run_total.
Qed.

(** ** What a returned outcome means *)

Definition justified (o : Outcome M) m : Prop :=
  exists n, get_node (M := M) (W := W) g (st_current (m_state m)) = Some n /\
  let gates := core_check_goal_gates (W := W) g (node_outcomes (m_state m)) in
  if spec_is_terminal n then
    (gates = Ok tt /\ o = outcome_success) \/
    (exists failed, gates = Err failed /\ o = goal_gate_failure failed /\
       forall t, core_get_retry_target (M := M) (W := W) g failed = Some t ->
         forall n', get_node (M := M) (W := W) g t = Some n' -> spec_is_terminal n' = true)
  else exists last, node_outcomes (m_state m) !! spec_id n = Some last /\ o = end_outcome (W := W) g n last.

Lemma terminal_step_justified n m :
  get_node (M := M) (W := W) g (st_current (m_state m)) = Some n -> spec_is_terminal n = true ->
  wp (terminal_step lc g n) (fun r m' => forall o, r = Val (Some o) -> justified o m') m.
Proof.
  intros Hn Ht. unfold terminal_step. do 2 wp_step. case_match eqn:Hg.
  { repeat wp_step. apply run_end_wp. intros ? ?. cbn [on_val]. wp_step. intros o [= <-].
    exists n. split; [done|]. rewrite Ht. left. destruct a. cbn. by rewrite Hg. }
  repeat wp_step.
  case_match eqn:Hr; [case_match eqn:Hu|];
    [repeat wp_step; done|..];
    (wp_step; apply run_end_wp; intros ? ?; cbn [on_val]; wp_step; intros o [= <-];
     exists n; (split; [done|]); rewrite Ht; right; exists e; cbn; rewrite Hg;
     (split; [done|]); (split; [done|]); rewrite Hr).
  - intros t [= <-] n' Hn'. rewrite Hn' in Hu. cbn in Hu. by apply negb_false_iff in Hu.
  - done.
Qed.

Lemma finish_node_justified n rp m :
  get_node (M := M) (W := W) g (st_current (m_state m)) = Some n -> spec_is_terminal n = false ->
  wp (finish_node lc g n rp) (fun r m' => forall o, r = Val (Some o) -> justified o m') m.
Proof.
  intros Hn Ht. destruct rp as [r prepared]. unfold finish_node. do 7 wp_step. wp_step; [|done].
  do 2 wp_step. cbn [node_outcomes set_context record_result]. rewrite lookup_insert_eq. wp_step.
  apply (wp_mono _ _ _ _ (resolve_next_step_wp lc g _ _ _ _)).
  intros next m1 [[c1 Hs1] _]. destruct m1 as [s1 w1 t1]. cbn [m_state] in Hs1. subst s1.
  destruct next as [nx|err|]; cbn [on_val]; [|done..].
  do 3 wp_step. wp_step; [|done]. unfold take_step. destruct nx; repeat wp_step; try done.
  apply run_end_wp. intros ? ?. cbn [on_val]. wp_step. intros o [= <-].
  exists n. split; [done|]. rewrite Ht. eexists. split; [|done].
  cbn. by rewrite lookup_insert_eq.
Qed.

Lemma execute_or_stall_state n m :
  wp (execute_or_stall lc opts g n) (fun _ m' => exists c, m_state m' = set_context c (m_state m)) m.
Proof.
  unfold execute_or_stall, wp. case_match; [destruct p; by eexists|].
  apply (wp_catch (execute_with_retry lc g n)
           (fun _ m' => exists c, m_state m' = set_context c (m_state m))). unfold execute_with_retry.
  eapply wp_mono; [apply attempt_loop_wp|]. intros r m1 [(Hs1 & _) _]. by destruct r.
Qed.

Lemma wp_run_node_state n m :
  wp (run_node lc opts g n)
     (fun r m' => forall rp, r = Val rp -> exists c, m_state m' = set_context c (m_state m)) m.
Proof.
  unfold run_node, run_continue, after_node_call. do 3 wp_step. wp_step; [|done].
  case_match; repeat wp_step; try done; try (intros rp _; by eexists).
  apply (wp_mono _ _ _ _ (execute_or_stall_state n _)). intros r m1 [c1 Hs1].
  destruct m1 as [s1 w1 t1]. cbn [m_state] in Hs1. subst s1.
  destruct r as [[r|err]|err|]; cbn [on_val];
    [|case_match; repeat wp_step; try done; by apply cancel_run_wp|done..].
  wp_step. apply wp_quiet; [apply quiet_apply_succeed_policy|].
  intros [rp|err|] m2 Hsame; open_same Hsame; cbn [on_val]; [|done..].
  repeat wp_step; [|done]. intros rp' _. by eexists.
Qed.

Lemma run_justified fuel m o m' :
  run lc opts g fuel m = Some (Val o, m') -> justified o m'.
Proof.
  assert (forall m, wp (loop_body lc opts g) (fun r m' => forall o, r = Val (Some o) -> justified o m') m) as Hb.
  { intros m0. unfold loop_body. repeat wp_step. case_match; [by apply cancel_run_wp|].
    repeat wp_step. unfold current_node. case_match eqn:Hn; [|by wp_step].
    case_match eqn:Ht; [by apply terminal_step_justified|].
    unfold visit_node, check_visits. repeat wp_step.
    case_match; [by wp_step|]. case_match; [by wp_step|]. do 2 wp_step.
    eapply wp_mono; [apply wp_run_node_state|]. intros [rp|err|] m1 Hs; cbn [on_val]; [|done..].
    destruct (Hs rp eq_refl) as [c Hc]. apply finish_node_justified; [|done]. by rewrite Hc. }
  assert (forall m, run_loop lc opts g fuel m = Some (Val o, m') -> justified o m') as Hloop.
  { induction fuel as [|fuel IH]; intros m0; cbn [run_loop]; [done|]. specialize (Hb m0). unfold wp in Hb.
    destruct (loop_body lc opts g m0) as [[[o1|]|err|] m1]; [|by apply IH|done..].
    intros [= -> ->]. by apply Hb. }
  unfold run. destruct (bind _ _ m) as [[[]|err|] m1]; [by apply Hloop|done..].
Qed.

(** A run that returns an outcome is entitled to it.  At a terminal node it
    reports success exactly when the goal gates pass on the recorded outcomes, and
    otherwise the failure of the named gate, which has no retry target to go back
    to.  At any other node it reports the recorded outcome of that node, or the
    failure message of its failure policy. *)
Theorem run_outcome_justified fuel m o m' :
  run lc opts g fuel m = Some (Val o, m') -> justified o m'.
Proof.
  apply run_justified.
Qed.

(** ** The failure policies *)

(** A failed outcome that requests no jump, at a node whose failure policy is
    not [route], only takes an edge that was selected explicitly (by a condition,
    a label or a suggestion).  When none was, no edge is announced to the lifecycle
    and the run goes to the node's retry target or ends. *)
Theorem failure_takes_explicit_edge_or_retry_target n o prepared m step m' :
  is_failure (status o) = true -> jump_to_node o = None ->
  rof_policy (core_resolve_on_failure (M := M) (W := W) g n) <> Route ->
  resolve_next_step lc g n o prepared m = (Val step, m') ->
  (exists sel m1, chosen_edge g n o prepared m = (Val (Some sel), m1) /\
                  is_explicit (sel_reason sel) = true) \/
  (m_trace m' = m_trace m /\
   step = match core_get_retry_target (M := M) (W := W) g (spec_id n) with
          | Some t => StepEdge t
          | None => StepEnd
          end).
Proof.
  intros Hf Hj Hp. unfold resolve_next_step. rewrite Hj. unfold bind at 1.
  pose proof (quiet_chosen_edge (E := E) (W := W) g n o prepared m) as [_ Hq].
  destruct (chosen_edge g n o prepared m) as [[sel|err|] m1] eqn:Hc; [|done..].
  cbn in Hq. rewrite Hf.
  destruct (opt_filter _ sel) as [s|] eqn:Hs.
  - intros _. left. apply opt_filter_Some in Hs as [-> Ha]. exists s, m1. split; [done|].
    unfold selection_allowed in Ha. rewrite Hf in Ha. cbn in Ha.
    by rewrite bool_decide_eq_false_2, orb_false_r in Ha by done.
  - intros Hr. right. destruct (core_get_retry_target g (spec_id n)); cbn in Hr;
      injection Hr as <- <-; done.
Qed.

(** Under [on_failure=succeed] a failed outcome that requests no jump is either
    left as it is, with an explicit edge prepared for it, or, when edge selection
    finds no explicit edge for the failure, promoted to [succeeded] with the
    selection made again for the promoted outcome.  In every other case the result
    is untouched and nothing is prepared. *)
Theorem succeed_policy_spec n r m r' prepared m' :
  apply_succeed_policy g n r m = (Val (r', prepared), m') ->
  let o := outcome r in
  if (is_failure (status o) && negb (is_some (jump_to_node o)) &&
      bool_decide (rof_policy (core_resolve_on_failure (M := M) (W := W) g n) = Succeed))%bool
  then exists p rctx w, prepared = Some p /\ prep_fingerprint p = fingerprint_from (outcome r') /\
    ((r' = r /\ is_some_and (fun x => is_explicit (sel_reason x)) (prep_selection p) = true) \/
     (status (outcome r') = Succeeded /\
      is_some_and (fun x => is_explicit (sel_reason x)) (core_select_edge (M := M) (E := E) g n o rctx w).1 = false /\
      exists rctx' w', prep_selection p = (core_select_edge g n (outcome r') rctx' w').1))
  else r' = r /\ prepared = None.
Proof.
  unfold apply_succeed_policy. cbn zeta.
  destruct (is_failure (status (outcome r))) eqn:Hf, (jump_to_node (outcome r)) eqn:Hj; cbn;
    try (by intros [= <- <- <-]).
  case_bool_decide as Hp; cbn; [|by intros [= <- <- <-]].
  unfold bind at 1 2, get. destruct (routing_context _ _ _) as [[rctx|err|] m1]; [|done..].
  unfold bind at 1. unfold select at 1, step_world at 1.
  destruct (core_select_edge g n (outcome r) rctx (m_world m1)) as [sel w1] eqn:Hsel.
  destruct (opt_filter _ sel) as [s|] eqn:Hs.
  - intros [= <- <- <-]. apply opt_filter_Some in Hs as [-> Hx].
    exists {| prep_fingerprint := fingerprint_from (outcome r); prep_selection := Some s |}, rctx, (m_world m1).
    split; [done|]. split; [done|]. by left.
  - destruct (apply_on_failure _ _) as [o' b] eqn:Ho.
    destruct (proj1 (apply_on_failure_status _ _) (conj Hp Hf)) as [Hst _]. rewrite Ho in Hst. cbn in Hst.
    unfold bind, select, step_world. cbn.
    destruct (core_select_edge g n o' _ w1) as [sel' w2] eqn:Hsel'.
    intros [= <- <- <-]. eexists _, rctx, (m_world m1). split; [done|]. split; [done|]. right.
    split; [done|]. rewrite Hsel. split.
    + destruct sel as [x|]; [|done]. cbn in Hs |- *. by destruct (is_explicit (sel_reason x)).
    + eexists _, w1. cbn. by rewrite Hsel'.
Qed.
End runs.

(** ** Witnesses, on the concrete engine *)

Module ToyWitnesses.
Import Toy.

Definition toy_final : Mach unit nat :=
  match toy_run with Some (_, m) => m | None => toy_start end.

Lemma toy_run_eq :
  run toy_lifecycle ExecutorOptions_default tt 10 toy_start = Some (Val outcome_success, toy_final).
Proof. vm_compute. reflexivity. Qed.

Lemma toy_fresh : fresh toy_start.
Proof. split; [done|apply wf_state_at]. Qed.

Lemma toy_sane : sane_policies (HH := toy_handler) tt.
Proof.
  intros id n _. unfold sane_policy. cbn. split; [done|]. intros att w Hatt.
  assert (att = 1 \/ att = 2) as [-> | ->] by lia; vm_compute; done.
Qed.

Lemma run_follows_lifecycle_protocol_witness :
  run toy_lifecycle ExecutorOptions_default tt 10 toy_start = Some (Val outcome_success, toy_final) /\
  exists p, phase_of (m_trace toy_final) = Some p /\ p = PEnded.
Proof.
  split; [exact toy_run_eq|].
  destruct (run_follows_lifecycle_protocol toy_lifecycle ExecutorOptions_default tt 10 toy_start _ _
              toy_fresh toy_run_eq ltac:(discriminate)) as (p & Hp & Hend).
  exists p. split; [exact Hp|]. exact (proj1 (Hend _ eq_refl)).
Defined.



Lemma run_terminates_witness :
  exists res, run toy_lifecycle ExecutorOptions_default tt (2 * Z.to_nat 5 * 3 + 2) toy_start = Some res.
Proof.
  apply (run_terminates toy_lifecycle ExecutorOptions_default tt ["start"; "work"; "exit"] 5).
  - intros id n. cbn. case_bool_decide as Hin; [|done]. by intros [= <-].
  - intros id n. cbn. case_bool_decide as Hin; [|done]. intros [= <-] _.
    unfold effective_limit. cbn. destruct (String.eqb id "work"); eexists; (split; [reflexivity|lia]).
  - lia.
  - apply toy_fresh.
  - intros id. vm_compute. discriminate.
Defined.

Lemma run_never_panics_witness : (Val outcome_success : ctl (Outcome unit)) <> Panicked.
Proof.
  exact (run_never_panics toy_lifecycle ExecutorOptions_default tt 10 toy_start (Val outcome_success) toy_final
           toy_sane toy_run_eq).
Defined.

Lemma run_outcome_justified_witness : justified (W := nat) (E := string) tt outcome_success toy_final.
Proof.
  exact (run_outcome_justified toy_lifecycle ExecutorOptions_default tt 10 toy_start _ _ toy_run_eq).
Defined.

Definition toy_failed : Outcome unit := outcome_fail "boom".

Lemma failure_takes_explicit_edge_or_retry_target_witness :
  exists step m', resolve_next_step toy_lifecycle tt "work" toy_failed None toy_start = (Val step, m') /\
    step = StepEnd.
Proof.
  exists StepEnd, toy_start. split; [vm_compute; reflexivity|].
  destruct (failure_takes_explicit_edge_or_retry_target toy_lifecycle tt "work" toy_failed None toy_start
              StepEnd toy_start eq_refl eq_refl) as [(sel & m1 & Hc & Hx)|[_ Hs]].
  - vm_compute. discriminate.
  - vm_compute. reflexivity.
  - vm_compute in Hc. injection Hc as <- <-. vm_compute in Hx. discriminate.
  - exact Hs.
Defined.

Definition toy_failed_result : NodeResult unit := mkResult toy_failed 0 0 0 1 1.

Lemma succeed_policy_spec_witness :
  exists r' prepared m', apply_succeed_policy (E := string) tt "start" toy_failed_result toy_start
    = (Val (r', prepared), m') /\ is_some prepared = true.
Proof.
  eexists _, _, _.
  match goal with |- ?lhs = ?rhs /\ _ =>
    assert (lhs = rhs) as Happ by (vm_compute; reflexivity) end.
  split; [exact Happ|].
  destruct (succeed_policy_spec tt "start" toy_failed_result toy_start _ _ _ Happ)
    as (p & rctx & w & Hp & _).
  rewrite Hp. reflexivity.
Defined.
End ToyWitnesses.
