(* ===== verification/Condition.v ===== *)
(** * Condition expressions (fabro-graphviz/src/condition.rs)

    The tokenizer and the recursive-descent parser of edge guards.  Both loops
    consume the text or the token list, whose length is their fuel.  Parse errors
    carry what their message names, not the text of the message.  The regular
    expression engine is a parameter. *)

From S2P Require Import Prelude RustStr.
Local Open Scope string_scope.

(** [regex::Regex::new] ([None]: the pattern is rejected) and [is_match]. *)
Class Regex := {
  re_valid : string -> bool;
  re_is_match : string -> string -> bool
}.

(** ** Syntax *)

Inductive Op :=
| OpEqual | OpNotEqual | OpGreater | OpLess | OpGreaterEq | OpLessEq
| OpContains | OpMatches | OpTruthy.

#[export] Instance Op_eq_dec : EqDecision Op.
Proof. solve_decision. Defined.

Record Clause := mkClause {
  cl_key : string;
  cl_op : Op;
  cl_value : string
}.

#[export] Instance Clause_eq_dec : EqDecision Clause.
Proof. solve_decision. Defined.

Inductive ConditionExpr :=
| CClause (c : Clause)
| CNot (e : ConditionExpr)
| CAnd (l : list ConditionExpr)
| COr (l : list ConditionExpr).

Inductive Token :=
| TWord (w : string)
| TEq | TNotEq | TGt | TLt | TGte | TLte
| TAnd | TOr | TNot | TContains | TMatches.

#[export] Instance Token_eq_dec : EqDecision Token.
Proof. solve_decision. Defined.

Inductive CondError :=
| UnexpectedChar (c : ascii)
| ExpectedKey (t : Token)
| UnexpectedEnd
| ExpectedValue (t : option Token)
| InvalidRegex (pattern : string)
| UnexpectedToken (t : Token).

#[export] Instance CondError_eq_dec : EqDecision CondError.
Proof. solve_decision. Defined.

(** ** The tokenizer *)

Definition is_op_char (c : ascii) : bool :=
  (Ascii.eqb c "=" || Ascii.eqb c "!" || Ascii.eqb c ">" || Ascii.eqb c "<" ||
   Ascii.eqb c "&" || Ascii.eqb c "|")%bool.

(** Two-character operators. *)
Definition two_char_op (a b : ascii) : option Token :=
  if (Ascii.eqb a "&" && Ascii.eqb b "&")%bool then Some TAnd
  else if (Ascii.eqb a "|" && Ascii.eqb b "|")%bool then Some TOr
  else if (Ascii.eqb a "!" && Ascii.eqb b "=")%bool then Some TNotEq
  else if (Ascii.eqb a ">" && Ascii.eqb b "=")%bool then Some TGte
  else if (Ascii.eqb a "<" && Ascii.eqb b "=")%bool then Some TLte
  else None.

Definition one_char_op (a : ascii) : option Token :=
  if Ascii.eqb a "=" then Some TEq
  else if Ascii.eqb a ">" then Some TGt
  else if Ascii.eqb a "<" then Some TLt
  else if Ascii.eqb a "!" then Some TNot
  else None.

(** The rest of a quoted word, after its opening quote: up to and including the
    closing quote, a backslash protecting the next character. *)
Fixpoint scan_quoted (s : string) : string * string :=
  match s with
  | "" => ("", "")
  | String c s' =>
      if Ascii.eqb c ch_quote then (dq, s')
      else if Ascii.eqb c ch_backslash then
        match s' with
        | "" => (String c "", "")
        | String d s'' => let '(w, r) := scan_quoted s'' in (String c (String d w), r)
        end
      else let '(w, r) := scan_quoted s' in (String c w, r)
  end.

Definition is_word_char (c : ascii) : bool :=
  (negb (is_whitespace c) && negb (is_op_char c) && negb (Ascii.eqb c ch_quote))%bool.

(** [contains] and [matches] are operators when the last token is a word. *)
Definition is_word_operator_context (tokens : list Token) : bool :=
  match last tokens with Some (TWord _) => true | _ => false end.

Definition word_token (tokens : list Token) (w : string) : Token :=
  if (String.eqb w "contains" && is_word_operator_context tokens)%bool then TContains
  else if (String.eqb w "matches" && is_word_operator_context tokens)%bool then TMatches
  else TWord w.

(** One round of the loop on a text that does not start with whitespace: the next
    token and the text after it. *)
Definition next_token (tokens : list Token) (c : ascii) (s : string)
    : result (Token * string) CondError :=
  let two := match s with String d s' => (fun t => (t, s')) <$> two_char_op c d | "" => None end in
  match two with
  | Some ts => Ok ts
  | None =>
      match one_char_op c with
      | Some t => Ok (t, s)
      | None =>
          if Ascii.eqb c ch_quote then
            let '(w, r) := scan_quoted s in Ok (TWord (String c w), r)
          else if is_word_char c then
            let '(w, r) := str_span is_word_char s in Ok (word_token tokens (String c w), r)
          else Err (UnexpectedChar c)
      end
  end.

(** The loop pushes tokens at the end of [tokens]. *)
Fixpoint tokenize_go (fuel : nat) (tokens : list Token) (s : string) : result (list Token) CondError :=
  match fuel with
  | O => Ok tokens
  | S fuel =>
      match s with
      | "" => Ok tokens
      | String c s' =>
          if is_whitespace c then tokenize_go fuel tokens s'
          else match next_token tokens c s' with
               | Ok (t, rest) => tokenize_go fuel (tokens ++ [t]) rest
               | Err e => Err e
               end
      end
  end.

Definition tokenize (input : string) : result (list Token) CondError :=
  let input := trim input in tokenize_go (String.length input) [] input.

(** ** The parser *)

(** [parse_literal]: strip the quotes and undo the escapes. *)
Definition quoted_inner (s : string) : option string :=
  match s with
  | String c r => if Ascii.eqb c ch_quote then strip_suffix dq r else None
  | "" => None
  end.

Definition unescape (s : string) : string :=
  str_replace (String ch_backslash (String ch_backslash "")) (String ch_backslash "")
    (str_replace (String ch_backslash dq) dq s).

Definition parse_literal (raw : string) : string :=
  let trimmed := trim raw in
  match quoted_inner trimmed with
  | Some inner => unescape inner
  | None => trimmed
  end.

Definition token_op (t : Token) : option Op :=
  match t with
  | TEq => Some OpEqual
  | TNotEq => Some OpNotEqual
  | TGt => Some OpGreater
  | TLt => Some OpLess
  | TGte => Some OpGreaterEq
  | TLte => Some OpLessEq
  | TContains => Some OpContains
  | TMatches => Some OpMatches
  | _ => None
  end.

Section parser.
Context `{Regex}.

Definition presult (A : Type) : Type := result (A * list Token) CondError.

(** The operand: a word, or nothing after [=] and [!=]. *)
Definition parse_value (op : Op) (ts : list Token) : presult string :=
  match ts with
  | TWord w :: rest => Ok (parse_literal w, rest)
  | t :: _ => Err (ExpectedValue (Some t))
  | [] => match op with
          | OpEqual | OpNotEqual => Ok ("", [])
          | _ => Err (ExpectedValue None)
          end
  end.

Definition check_regex (op : Op) (value : string) : result unit CondError :=
  match op with
  | OpMatches => if re_valid value then Ok tt else Err (InvalidRegex value)
  | _ => Ok tt
  end.

Definition parse_clause (ts : list Token) : presult ConditionExpr :=
  match ts with
  | [] => Err UnexpectedEnd
  | TWord key :: rest =>
      match (t ← head rest; token_op t) with
      | None => Ok (CClause (mkClause key OpTruthy ""), rest)
      | Some op =>
          result_bind (parse_value op (tail rest)) (fun '(value, rest) =>
          result_bind (check_regex op value) (fun _ =>
          Ok (CClause (mkClause key op value), rest)))
      end
  | t :: _ => Err (ExpectedKey t)
  end.

Fixpoint parse_unary (ts : list Token) : presult ConditionExpr :=
  match ts with
  | TNot :: rest => result_bind (parse_unary rest) (fun '(e, rest) => Ok (CNot e, rest))
  | _ => parse_clause ts
  end.

(** [while self.peek() == Some(sep)] over a sub-parser, pushing the children. *)
Fixpoint parse_more (fuel : nat) (sep : Token) (sub : list Token -> presult ConditionExpr)
    (children : list ConditionExpr) (ts : list Token) : presult (list ConditionExpr) :=
  match fuel with
  | O => Ok (children, ts)
  | S fuel =>
      match ts with
      | t :: rest =>
          if bool_decide (t = sep)
          then result_bind (sub rest) (fun '(e, rest) => parse_more fuel sep sub (children ++ [e]) rest)
          else Ok (children, ts)
      | [] => Ok (children, ts)
      end
  end.

Definition collapse (mk : list ConditionExpr -> ConditionExpr) (children : list ConditionExpr)
    : ConditionExpr :=
  match children with [e] => e | l => mk l end.

Definition parse_list (sep : Token) (mk : list ConditionExpr -> ConditionExpr)
    (sub : list Token -> presult ConditionExpr) (ts : list Token) : presult ConditionExpr :=
  result_bind (sub ts) (fun '(e, rest) =>
  result_bind (parse_more (length rest) sep sub [e] rest) (fun '(children, rest) =>
  Ok (collapse mk children, rest))).

Definition parse_and (ts : list Token) : presult ConditionExpr := parse_list TAnd CAnd parse_unary ts.
Definition parse_or (ts : list Token) : presult ConditionExpr := parse_list TOr COr parse_and ts.

Definition parse_tokens (ts : list Token) : result ConditionExpr CondError :=
  match ts with
  | [] => Ok (CAnd [])
  | _ =>
      result_bind (parse_or ts) (fun '(e, rest) =>
      match rest with
      | [] => Ok e
      | t :: _ => Err (UnexpectedToken t)
      end)
  end.

Definition parse_expression (expr : string) : result ConditionExpr CondError :=
  result_bind (tokenize expr) parse_tokens.

Definition parse_condition (expr : string) : result unit CondError :=
  result_bind (parse_expression expr) (fun _ => Ok tt).
End parser.
