(* ===== verification/CondFacts.v ===== *)
(** * Condition expressions: round trip and shape

    A printer for condition expressions, and the proof that tokenizing and parsing
    its output gives the expression back; the shape of every parsed expression. *)

From S2P Require Import Prelude RustStr RustNum GraphTypes Context Outcome Condition.
Local Open Scope string_scope.

(** ** Escaping *)

Fixpoint escape (v : string) : string :=
  match v with
  | "" => ""
  | String c v =>
      if (Ascii.eqb c ch_quote || Ascii.eqb c ch_backslash)%bool
      then String ch_backslash (String c (escape v)) else String c (escape v)
  end.

Fixpoint escape_backslashes (v : string) : string :=
  match v with
  | "" => ""
  | String c v =>
      if Ascii.eqb c ch_backslash
      then String ch_backslash (String c (escape_backslashes v)) else String c (escape_backslashes v)
  end.

Lemma strip_quote_escape v :
  strip_prefix dq (escape v) = None.
Proof.
  destruct v as [|c v]; cbn [escape]; [done|].
  destruct (Ascii.eqb c ch_quote) eqn:Hq; [done|]. cbn [orb].
  destruct (Ascii.eqb c ch_backslash) eqn:Hb; [done|].
  unfold dq. cbn [strip_prefix]. by rewrite Ascii.eqb_sym, Hq.
Qed.

Lemma unescape_quotes v :
  str_replace (String ch_backslash dq) dq (escape v) = escape_backslashes v.
Proof.
  induction v as [|c v IH]; [done|]. cbn [escape escape_backslashes].
  destruct (Ascii.eqb_spec c ch_quote) as [->|Hq]; cbn [orb].
  - rewrite (str_replace_hit _ _ _ (escape v)) by done. by rewrite IH.
  - destruct (Ascii.eqb_spec c ch_backslash) as [->|Hb].
    + rewrite str_replace_miss by done. rewrite str_replace_miss; [by rewrite IH|done|].
      pose proof (strip_quote_escape v) as Hn. unfold dq in *. cbn in *. exact Hn.
    + rewrite str_replace_miss; [by rewrite IH|done|]. cbn [strip_prefix].
      destruct (Ascii.eqb_spec ch_backslash c); congruence.
Qed.

Lemma unescape_escape v : unescape (escape v) = v.
Proof.
  unfold unescape. rewrite unescape_quotes.
  induction v as [|c v IH]; [done|]. cbn [escape_backslashes].
  destruct (Ascii.eqb_spec c ch_backslash) as [->|Hb].
  - rewrite (str_replace_hit _ _ _ (escape_backslashes v)) by done. by rewrite IH.
  - rewrite str_replace_miss; [by rewrite IH|done|]. cbn [strip_prefix].
    destruct (Ascii.eqb_spec ch_backslash c); congruence.
Qed.

Definition quote (v : string) : string := dq +:+ escape v +:+ dq.

Lemma scan_quoted_escape v rest :
  scan_quoted (escape v +:+ dq +:+ rest) = (escape v +:+ dq, rest).
Proof.
  induction v as [|c v IH]; [done|]. cbn [escape].
  destruct (Ascii.eqb c ch_quote) eqn:Hq; cbn [orb].
  - rewrite !append_cons. cbn [scan_quoted]. cbn. by rewrite IH.
  - destruct (Ascii.eqb c ch_backslash) eqn:Hb.
    + rewrite !append_cons. cbn [scan_quoted]. cbn. by rewrite IH.
    + rewrite append_cons. cbn [scan_quoted]. by rewrite Hq, Hb, IH.
Qed.

(** ** Tokens and their text *)

Definition op_text (t : Token) : string :=
  match t with
  | TWord w => w
  | TEq => "="
  | TNotEq => "!="
  | TGt => ">"
  | TLt => "<"
  | TGte => ">="
  | TLte => "<="
  | TAnd => "&&"
  | TOr => "||"
  | TNot => "!"
  | TContains => "contains"
  | TMatches => "matches"
  end.

(** A word that needs no quotes. *)
Definition plain_word (w : string) : Prop := w <> "" /\ str_forall is_word_char w = true.

(** A token that the tokenizer gives back after the tokens [acc]: a plain word that
    is not read as an operator there, a quoted word, a word operator after a word,
    or any other operator. *)
Definition printable (acc : list Token) (t : Token) : Prop :=
  match t with
  | TWord w => (plain_word w /\ word_token acc w = TWord w) \/ exists v, w = quote v
  | TContains | TMatches => is_word_operator_context acc = true
  | _ => True
  end.

Fixpoint all_printable (acc : list Token) (ts : list Token) : Prop :=
  match ts with
  | [] => True
  | t :: ts => printable acc t /\ all_printable (acc ++ [t]) ts
  end.

Definition print_tokens (ts : list Token) : string := str_join " " (op_text <$> ts).

Lemma word_char_props c :
  is_word_char c = true ->
  is_whitespace c = false /\ one_char_op c = None /\ Ascii.eqb c ch_quote = false /\
  forall d, two_char_op c d = None.
Proof.
  unfold is_word_char, is_op_char, one_char_op, two_char_op. intros Hc.
  destruct (Ascii.eqb c "="), (Ascii.eqb c "!"), (Ascii.eqb c ">"), (Ascii.eqb c "<"),
    (Ascii.eqb c "&"), (Ascii.eqb c "|"), (is_whitespace c), (Ascii.eqb c ch_quote); done.
Qed.

(** The text that may follow a token: nothing, or a space. *)
Definition separated (rest : string) : Prop := rest = "" \/ exists r, rest = String " " r.

Lemma separated_no_op c rest :
  separated rest ->
  match rest with String d s' => (fun t => (t, s')) <$> two_char_op c d | "" => None end = None.
Proof.
  intros [->|[r ->]]; [done|]. unfold two_char_op. cbn.
  destruct (Ascii.eqb c "&"), (Ascii.eqb c "|"), (Ascii.eqb c "!"), (Ascii.eqb c ">"), (Ascii.eqb c "<"); done.
Qed.

Lemma next_token_word acc c w rest :
  is_word_char c = true -> str_forall is_word_char w = true -> separated rest ->
  next_token acc c (w +:+ rest) = Ok (word_token acc (String c w), rest).
Proof.
  intros Hc Hw Hr. destruct (word_char_props c Hc) as (_ & H1 & H2 & H3). unfold next_token.
  assert (match w +:+ rest with String d s' => (fun t => (t, s')) <$> two_char_op c d | "" => None end
          = None) as ->.
  { destruct (w +:+ rest); [done|]. by rewrite H3. }
  rewrite H1, H2, Hc. rewrite str_span_forall; [done|done|].
  destruct Hr as [->|[r ->]]; [by left|right; by exists " "%char, r].
Qed.

Lemma next_token_printable acc t rest :
  printable acc t -> separated rest ->
  exists c s, op_text t = String c s /\ is_whitespace c = false /\
    next_token acc c (s +:+ rest) = Ok (t, rest).
Proof.
  intros Hp Hr.
  assert (forall c w t', is_word_char c = true -> str_forall is_word_char w = true ->
    word_token acc (String c w) = t' ->
    exists c0 s, String c w = String c0 s /\ is_whitespace c0 = false /\
      next_token acc c0 (s +:+ rest) = Ok (t', rest)) as Hword.
  { intros c w t' Hc Hw Ht. exists c, w. destruct (word_char_props c Hc) as (Hs & _).
    split; [done|]. split; [done|]. rewrite next_token_word by done. by rewrite Ht. }
  destruct t; cbn in Hp |- *;
    try (eexists _, _; split; [reflexivity|split; [reflexivity|]];
         first [reflexivity | unfold next_token; rewrite append_nil_l, separated_no_op by done; done]).
  - destruct Hp as [[[Hne Hall] Hw]|[v ->]].
    + destruct w as [|c w]; [done|]. cbn in Hall. apply andb_true_iff in Hall as [Hc Hall]. by apply Hword.
    + exists ch_quote, (escape v +:+ dq). split; [done|]. split; [done|].
      unfold next_token. rewrite append_assoc, scan_quoted_escape.
      destruct (escape v +:+ dq +:+ rest); done.
  - apply Hword; [done..|]. unfold word_token. by rewrite Hp.
  - apply Hword; [done..|]. unfold word_token. by rewrite Hp.
Qed.

(** ** The tokenizer consumes its text *)

Lemma scan_quoted_length s : (String.length (scan_quoted s).2 <= String.length s)%nat.
Proof.
  assert (forall n s, (String.length s <= n)%nat ->
    (String.length (scan_quoted s).2 <= String.length s)%nat) as Hn; [|by apply (Hn (String.length s))].
  clear s. induction n as [|n IH]; intros s Hs; (destruct s as [|c s]; [cbn; lia|]); [cbn in Hs; lia|].
  cbn in Hs |- *. destruct (Ascii.eqb c ch_quote); [cbn; lia|].
  destruct (Ascii.eqb c ch_backslash).
  - destruct s as [|d s]; [cbn; lia|]. cbn in Hs. specialize (IH s ltac:(lia)).
    destruct (scan_quoted s). cbn in *. lia.
  - specialize (IH s ltac:(lia)). destruct (scan_quoted s). cbn in *. lia.
Qed.

Lemma str_span_length f s : (String.length (str_span f s).2 <= String.length s)%nat.
Proof.
  induction s as [|c s IH]; cbn; [lia|]. destruct (f c); [|cbn; lia].
  destruct (str_span f s). cbn in *. lia.
Qed.

Lemma next_token_length acc c s t rest :
  next_token acc c s = Ok (t, rest) -> (String.length rest <= String.length s)%nat.
Proof.
  unfold next_token. pose proof (scan_quoted_length s) as Hq. pose proof (str_span_length is_word_char s) as Hw.
  destruct (scan_quoted s) as [w1 r1], (str_span is_word_char s) as [w2 r2]. cbn [snd] in Hq, Hw.
  assert (forall o : option (Token * string), (forall tr, o = Some tr -> (String.length tr.2 <= String.length s)%nat) ->
    match o with Some ts => Ok ts | None => match one_char_op c with Some t => Ok (t, s)
      | None => if Ascii.eqb c ch_quote then Ok (TWord (String c w1), r1)
                else if is_word_char c then Ok (word_token acc (String c w2), r2) else Err (UnexpectedChar c)
      end end = Ok (t, rest) -> (String.length rest <= String.length s)%nat) as Hgen.
  { intros [tr|] Htr; [intros [= ->]; exact (Htr _ eq_refl)|].
    repeat case_match; intros; simplify_eq; lia. }
  apply Hgen. intros [t' s'] Ho. destruct s as [|d s]; [done|].
  destruct (two_char_op c d); [|done]. injection Ho as <- <-. cbn. lia.
Qed.

Lemma tokenize_go_enough acc s f1 f2 :
  (String.length s <= f1)%nat -> (String.length s <= f2)%nat ->
  tokenize_go f1 acc s = tokenize_go f2 acc s.
Proof.
  revert acc s f2. induction f1 as [|f1 IH]; intros acc s f2 H1 H2.
  - destruct s; [|cbn in H1; lia]. by destruct f2.
  - destruct f2 as [|f2]; [destruct s; [done|cbn in H2; lia]|].
    cbn. destruct s as [|c s]; [done|]. cbn in H1, H2. destruct (is_whitespace c); [apply IH; lia|].
    destruct (next_token acc c s) as [[t rest]|] eqn:Hn; [|done].
    apply next_token_length in Hn. apply IH; lia.
Qed.

(** The tokenizer without fuel. *)
Definition tokens_of (acc : list Token) (s : string) : result (list Token) CondError :=
  tokenize_go (String.length s) acc s.

Lemma tokens_of_space acc s : tokens_of acc (String " " s) = tokens_of acc s.
Proof. done. Qed.

Lemma tokens_of_token acc c s t rest :
  is_whitespace c = false -> next_token acc c s = Ok (t, rest) ->
  tokens_of acc (String c s) = tokens_of (acc ++ [t]) rest.
Proof.
  intros Hc Hn. unfold tokens_of. cbn [String.length tokenize_go]. rewrite Hc, Hn.
  apply next_token_length in Hn. apply tokenize_go_enough; lia.
Qed.

Lemma tokens_of_printed acc ts :
  all_printable acc ts -> tokens_of acc (print_tokens ts) = Ok (acc ++ ts)%list.
Proof.
  revert acc. induction ts as [|t ts IH]; intros acc; [by rewrite app_nil_r|].
  intros [Hp Hts]. unfold print_tokens in *. cbn [fmap list_fmap].
  destruct ts as [|t' ts'].
  - cbn [fmap list_fmap str_join]. destruct (next_token_printable acc t "" Hp) as (c & s & Ht & Hc & Hn); [by left|].
    rewrite Ht. rewrite append_nil_r in Hn. by rewrite (tokens_of_token _ _ _ _ _ Hc Hn).
  - assert (forall a b l, str_join " " (a :: b :: l) = a +:+ String " " (str_join " " (b :: l))) as Hj by done.
    cbn [fmap list_fmap]. rewrite Hj.
    destruct (next_token_printable acc t (String " " (str_join " " (op_text <$> t' :: ts'))) Hp)
      as (c & s & Ht & Hc & Hn); [by right; eexists|].
    rewrite Ht, append_cons. etrans; [apply (tokens_of_token _ _ _ _ _ Hc Hn)|].
    rewrite tokens_of_space, IH by done. by rewrite <- app_assoc.
Qed.

(** ** Trimming *)

Lemma trim_end_op_text acc t : printable acc t -> trim_end (op_text t) = op_text t /\ op_text t <> "".
Proof.
  intros Hp. destruct t; try done. destruct Hp as [[[Hne Hw] _]|[v ->]]; cbn.
  - split; [|done]. apply trim_end_nonspace. revert Hw. apply str_forall_impl.
    intros c Hc. destruct (word_char_props c Hc) as (-> & _). done.
  - split; [|done]. unfold quote. rewrite <- append_assoc. by rewrite trim_end_append.
Qed.

Lemma trim_end_printed acc ts :
  all_printable acc ts -> trim_end (print_tokens ts) = print_tokens ts.
Proof.
  revert acc. induction ts as [|t ts IH]; intros acc; [done|]. intros [Hp Hts].
  pose proof (trim_end_op_text acc t Hp) as [Ht Hne]. destruct ts as [|t' ts]; [done|].
  specialize (IH _ Hts). unfold print_tokens in *. cbn [fmap list_fmap] in *.
  assert (forall a b l, str_join " " (a :: b :: l) = (a +:+ " ") +:+ str_join " " (b :: l)) as Hj
    by (intros; by rewrite append_assoc).
  rewrite Hj, trim_end_append; [by rewrite IH|]. rewrite IH.
  destruct Hts as [Hp' _]. pose proof (trim_end_op_text _ t' Hp') as [_ Hne'].
  destruct (op_text t') eqn:E; [done|]. by destruct ts.
Qed.

Lemma trim_printed ts : all_printable [] ts -> trim (print_tokens ts) = print_tokens ts.
Proof.
  intros Hts. unfold trim. enough (trim_start (print_tokens ts) = print_tokens ts) as ->
    by (by eapply trim_end_printed).
  destruct ts as [|t ts]; [done|]. destruct Hts as [Hp _].
  destruct (next_token_printable [] t "" Hp) as (c & s & Ht & Hc & _); [by left|].
  unfold print_tokens. cbn [fmap list_fmap]. rewrite Ht. 
  destruct (op_text <$> ts); cbn [str_join]; rewrite ?append_cons; cbn [trim_start]; by rewrite Hc.
Qed.

Lemma tokenize_printed ts : all_printable [] ts -> tokenize (print_tokens ts) = Ok ts.
Proof. intros Hts. unfold tokenize. rewrite trim_printed by done. by apply tokens_of_printed. Qed.

Local Open Scope list_scope.

(** ** Expressions and their tokens *)

Definition token_of_op (op : Op) : option Token :=
  match op with
  | OpEqual => Some TEq
  | OpNotEqual => Some TNotEq
  | OpGreater => Some TGt
  | OpLess => Some TLt
  | OpGreaterEq => Some TGte
  | OpLessEq => Some TLte
  | OpContains => Some TContains
  | OpMatches => Some TMatches
  | OpTruthy => None
  end.

Definition clause_tokens (c : Clause) : list Token :=
  match token_of_op (cl_op c) with
  | Some t => [TWord (cl_key c); t; TWord (quote (cl_value c))]
  | None => [TWord (cl_key c)]
  end.

Definition join_tokens (sep : Token) (ls : list (list Token)) : list Token :=
  match ls with
  | [] => []
  | l :: ls => l ++ concat ((cons sep) <$> ls)
  end.

Fixpoint expr_tokens (e : ConditionExpr) : list Token :=
  match e with
  | CClause c => clause_tokens c
  | CNot e => TNot :: expr_tokens e
  | CAnd l => join_tokens TAnd (List.map expr_tokens l)
  | COr l => join_tokens TOr (List.map expr_tokens l)
  end.

Definition print_condition (e : ConditionExpr) : string := print_tokens (expr_tokens e).

Section normal.
Context `{Regex}.

(** The clauses a parser can return, and the ones the printer covers. *)
Definition checked_clause (c : Clause) : Prop :=
  (cl_op c = OpTruthy -> cl_value c = "") /\ (cl_op c = OpMatches -> re_valid (cl_value c) = true).

Definition printable_clause (c : Clause) : Prop := checked_clause c /\ plain_word (cl_key c).

(** Normal forms, level by level. *)
Inductive nf_unary (P : Clause -> Prop) : ConditionExpr -> Prop :=
| nf_clause c : P c -> nf_unary P (CClause c)
| nf_not e : nf_unary P e -> nf_unary P (CNot e).

Inductive nf_list (mk : list ConditionExpr -> ConditionExpr) (Q : ConditionExpr -> Prop)
    : ConditionExpr -> Prop :=
| nf_one e : Q e -> nf_list mk Q e
| nf_many l : (2 <= length l)%nat -> Forall Q l -> nf_list mk Q (mk l).

Definition nf_and P : ConditionExpr -> Prop := nf_list CAnd (nf_unary P).
Definition nf_or P : ConditionExpr -> Prop := nf_list COr (nf_and P).

(** *** The parser reads the tokens of a normal form back *)

Lemma trim_quote v : trim (quote v) = quote v.
Proof.
  unfold trim. assert (trim_start (quote v) = quote v) as -> by done.
  unfold quote. rewrite <- append_assoc. by rewrite trim_end_append.
Qed.

Lemma strip_suffix_quote s : strip_suffix dq (s +:+ dq) = Some s.
Proof.
  induction s as [|c s IH]; [done|]. rewrite append_cons. cbn [strip_suffix].
  destruct (String.eqb_spec dq (String c (s +:+ dq))) as [He|]; [|by rewrite IH].
  exfalso. apply (f_equal String.length) in He. cbn in He. rewrite length_append in He. cbn in He. lia.
Qed.

Lemma parse_literal_quote v : parse_literal (quote v) = v.
Proof.
  unfold parse_literal. rewrite trim_quote. unfold quote, dq. rewrite append_cons, append_nil_l.
  cbn [quoted_inner]. cbn. rewrite strip_suffix_quote. apply unescape_escape.
Qed.

(** The parser stops at these. *)
Definition closed (ts : list Token) : Prop :=
  match ts with [] | TAnd :: _ | TOr :: _ => True | _ => False end.

Lemma parse_clause_tokens c rest :
  printable_clause c -> closed rest ->
  parse_clause (clause_tokens c ++ rest) = Ok (CClause c, rest).
Proof.
  intros [[Ht Hm] Hk] Hc. destruct c as [key op value]. cbn in *. unfold clause_tokens. cbn.
  destruct op; cbn; rewrite ?parse_literal_quote; try done; cbn.
  - rewrite Hm by done. done.
  - rewrite Ht by done. destruct rest as [|[] ?]; done.
Qed.

Lemma parse_unary_tokens e rest :
  nf_unary printable_clause e -> closed rest ->
  parse_unary (expr_tokens e ++ rest) = Ok (e, rest).
Proof.
  intros He Hc. induction He as [c Hp|e He IH]; cbn.
  - rewrite <- (parse_clause_tokens c rest) by done. unfold clause_tokens. by destruct (token_of_op _).
  - by rewrite IH.
Qed.

Lemma parse_more_tokens sep sub (Q : ConditionExpr -> Prop) (stop : list Token -> Prop) l acc rest fuel :
  (forall e rest, Q e -> stop rest -> sub (expr_tokens e ++ rest) = Ok (e, rest)) ->
  (forall ts, stop (sep :: ts)) -> stop rest -> head rest <> Some sep ->
  Forall Q l -> (length l <= fuel)%nat ->
  parse_more fuel sep sub acc (concat ((fun e => sep :: expr_tokens e) <$> l) ++ rest)
  = Ok ((acc ++ l)%list, rest).
Proof.
  intros Hsub Hsep Hstop Hne Hl. revert acc fuel.
  induction Hl as [|e l He Hl IH]; intros acc fuel Hf.
  - cbn. rewrite app_nil_r. destruct fuel; [done|]. cbn. destruct rest as [|t rest]; [done|].
    rewrite bool_decide_eq_false_2; [done|]. cbn in Hne. congruence.
  - destruct fuel as [|fuel]; cbn in Hf; [lia|]. cbn [fmap list_fmap concat].
    rewrite <- app_assoc. cbn [app parse_more]. rewrite bool_decide_eq_true_2 by done.
    rewrite Hsub; [|done|].
    + cbn [result_bind]. rewrite IH by lia. by rewrite <- app_assoc.
    + destruct l; [done|apply Hsep].
Qed.

Lemma parse_list_tokens sep mk sub (Q : ConditionExpr -> Prop) (stop : list Token -> Prop) e rest :
  (forall e rest, Q e -> stop rest -> sub (expr_tokens e ++ rest) = Ok (e, rest)) ->
  (forall ts, stop (sep :: ts)) -> stop rest -> head rest <> Some sep ->
  (forall l, expr_tokens (mk l) = join_tokens sep (List.map expr_tokens l)) ->
  nf_list mk Q e ->
  parse_list sep mk sub (expr_tokens e ++ rest) = Ok (e, rest).
Proof.
  intros Hsub Hsep Hstop Hne Hmk Hnf. unfold parse_list. destruct Hnf as [e He|l Hlen Hl].
  - rewrite Hsub by done. cbn. destruct rest as [|t rest]; [done|]. cbn.
    rewrite bool_decide_eq_false_2; [done|]. cbn in Hne. congruence.
  - destruct Hl as [|e l He Hl]; [cbn in Hlen; lia|]. rewrite Hmk. cbn [List.map join_tokens].
    assert (cons sep <$> List.map expr_tokens l = (fun e => sep :: expr_tokens e) <$> l) as ->
      by (clear; induction l; cbn; by f_equal).
    rewrite <- app_assoc. rewrite Hsub; [|done|destruct l; [done|apply Hsep]]. cbn [result_bind].
    rewrite (parse_more_tokens _ _ Q stop); try done.
    + cbn. destruct l; [cbn in Hlen; lia|done].
    + rewrite length_app. enough (length l <= length (concat ((fun e => sep :: expr_tokens e) <$> l)))%nat by lia.
      clear. induction l as [|x l IH]; cbn; [lia|]. rewrite length_app. lia.
Qed.

Lemma parse_tokens_printed e :
  nf_or printable_clause e -> parse_tokens (expr_tokens e) = Ok e.
Proof.
  intros He.
  assert (parse_or (expr_tokens e ++ []) = Ok (e, [])) as Hp.
  { apply (parse_list_tokens TOr COr parse_and (nf_and printable_clause)
             (fun ts => match ts with [] | TOr :: _ => True | _ => False end)); try done.
    intros e' rest He' Hr.
    apply (parse_list_tokens TAnd CAnd parse_unary (nf_unary printable_clause) closed); try done.
    - intros; by apply parse_unary_tokens.
    - by destruct rest as [|[] ?].
    - by destruct rest as [|[] ?]. }
  rewrite app_nil_r in Hp. unfold parse_tokens. rewrite Hp.
  destruct (expr_tokens e) as [|t ts] eqn:Het; [|done]. by cbn in Hp.
Qed.

(** *** The tokens of a normal form are printable *)

Lemma all_printable_app acc a b :
  all_printable acc (a ++ b) <-> all_printable acc a /\ all_printable (acc ++ a) b.
Proof.
  revert acc. induction a as [|t a IH]; intros acc; cbn.
  - rewrite app_nil_r. tauto.
  - rewrite IH, <- app_assoc. tauto.
Qed.

Definition no_word (acc : list Token) : Prop := is_word_operator_context acc = false.

Lemma context_snoc acc t :
  is_word_operator_context (acc ++ [t]) = match t with TWord _ => true | _ => false end.
Proof. unfold is_word_operator_context. by rewrite last_snoc. Qed.

Lemma printable_clause_tokens acc c :
  printable_clause c -> no_word acc -> all_printable acc (clause_tokens c).
Proof.
  intros [_ Hk] Hacc.
  assert (printable acc (TWord (cl_key c))) as Hkey.
  { left. split; [done|]. unfold word_token. rewrite Hacc, !andb_false_r. done. }
  unfold clause_tokens. destruct (cl_op c); cbn; rewrite ?context_snoc; eauto 8.
Qed.

Lemma printable_unary acc e :
  nf_unary printable_clause e -> no_word acc -> all_printable acc (expr_tokens e).
Proof.
  intros He. revert acc. induction He as [c Hc|e He IH]; intros acc Hacc; cbn.
  - by apply printable_clause_tokens.
  - split; [done|]. apply IH. unfold no_word. by rewrite context_snoc.
Qed.

Lemma printable_list sep mk (Q : ConditionExpr -> Prop) acc e :
  (forall acc e, Q e -> no_word acc -> all_printable acc (expr_tokens e)) ->
  (sep = TAnd \/ sep = TOr) ->
  (forall l, expr_tokens (mk l) = join_tokens sep (List.map expr_tokens l)) ->
  nf_list mk Q e -> no_word acc -> all_printable acc (expr_tokens e).
Proof.
  intros HQ Hsep Hmk Hnf Hacc. destruct Hnf as [e He|l _ Hl]; [by apply HQ|].
  rewrite Hmk. destruct Hl as [|e l He Hl]; cbn [List.map join_tokens]; [done|].
  apply all_printable_app. split; [by apply HQ|].
  generalize (acc ++ expr_tokens e). induction Hl as [|e' l He' Hl IH]; intros acc'; cbn; [done|].
  assert (no_word (acc' ++ [sep])) by (unfold no_word; rewrite context_snoc; by destruct Hsep as [-> | ->]).
  split; [by destruct Hsep as [-> | ->]|]. apply all_printable_app. auto.
Qed.

Lemma printable_or acc e :
  nf_or printable_clause e -> no_word acc -> all_printable acc (expr_tokens e).
Proof.
  apply (printable_list TOr COr (nf_and printable_clause)); [|by right|done].
  intros acc' e' He' Hacc'. apply (printable_list TAnd CAnd (nf_unary printable_clause)); try done; [|by left].
  apply printable_unary.
Qed.

(** *** What the parser returns *)

Lemma parse_clause_sound ts e rest :
  parse_clause ts = Ok (e, rest) -> nf_unary checked_clause e /\ (length rest < length ts)%nat.
Proof.
  destruct ts as [|[key| | | | | | | | | | |] ts]; cbn; try done.
  destruct (head ts ≫= token_op) as [op|] eqn:Ho.
  - destruct (parse_value op (tail ts)) as [[value rest']|] eqn:Hv; [|done]. cbn.
    destruct (check_regex op value) eqn:Hr; [|done]. cbn. intros [= <- <-]. split.
    + constructor. split; cbn; intros ->.
      * destruct ts as [|[] ts]; done.
      * cbn in Hr. by destruct (re_valid value).
    + destruct ts as [|t ts]; [done|]. cbn in Hv |- *.
      destruct ts as [|[] ts]; cbn in Hv; simplify_eq; cbn; try lia.
      destruct op; simplify_eq; cbn; lia.
  - intros [= <- <-]. split; [by repeat constructor|lia].
Qed.

Lemma parse_unary_sound ts e rest :
  parse_unary ts = Ok (e, rest) -> nf_unary checked_clause e /\ (length rest < length ts)%nat.
Proof.
  revert e. induction ts as [|t ts IH]; intros e; [done|].
  destruct t; try apply parse_clause_sound.
  cbn. destruct (parse_unary ts) as [[e' rest']|]; [|done]. cbn. intros [= <- ->].
  destruct (IH e' eq_refl). split; [by constructor|lia].
Qed.

Lemma parse_more_sound sep sub (Q : ConditionExpr -> Prop) fuel acc ts children rest :
  (forall ts e rest, sub ts = Ok (e, rest) -> Q e /\ (length rest < length ts)%nat) ->
  (length ts <= fuel)%nat -> Forall Q acc ->
  parse_more fuel sep sub acc ts = Ok (children, rest) ->
  Forall Q children /\ (length acc <= length children)%nat /\ (length rest <= length ts)%nat /\
  head rest <> Some sep.
Proof.
  intros Hsub. revert acc ts. induction fuel as [|fuel IH]; intros acc ts Hf Hacc; cbn.
  - destruct ts; [|cbn in Hf; lia]. intros [= <- <-]. auto.
  - destruct ts as [|t ts]; [by intros [= <- <-]|]. case_bool_decide as Ht.
    + destruct (sub ts) as [[e rest']|] eqn:Hs; [|done]. cbn in *.
      destruct (Hsub _ _ _ Hs) as [HQ Hlen]. intros Hm.
      apply IH in Hm as (H1 & H2 & H3 & H4); [|lia|by apply Forall_app; auto].
      rewrite length_app in H2. cbn in H2. split; [done|]. split; [lia|]. split; [lia|done].
    + intros [= <- <-]. split; [done|]. split; [lia|]. split; [cbn; lia|]. cbn. congruence.
Qed.

Lemma parse_list_sound sep mk sub (Q : ConditionExpr -> Prop) ts e rest :
  (forall ts e rest, sub ts = Ok (e, rest) -> Q e /\ (length rest < length ts)%nat) ->
  parse_list sep mk sub ts = Ok (e, rest) ->
  nf_list mk Q e /\ (length rest < length ts)%nat.
Proof.
  intros Hsub. unfold parse_list. destruct (sub ts) as [[e0 rest0]|] eqn:Hs; [|done]. cbn.
  destruct (Hsub _ _ _ Hs) as [HQ Hlen].
  destruct (parse_more _ _ _ _ _) as [[children rest']|] eqn:Hm; [|done]. cbn. intros [= <- <-].
  apply (parse_more_sound _ _ Q) in Hm as (Hc & Hl & Hr & _); [|done|lia|by constructor].
  split; [|lia]. destruct children as [|a [|b l]]; cbn in Hl |- *; [lia| |].
  - apply nf_one. by apply Forall_cons in Hc as [? _].
  - apply nf_many; [cbn; lia|done].
Qed.

(** C39: printing a condition expression in normal form and parsing the text gives
    the expression back: every operator, every nesting of [!], [&&] and [||], and
    every operand, with the characters of the operand that need it escaped. *)
Theorem parse_print_condition e :
  nf_or printable_clause e -> parse_expression (print_condition e) = Ok e.
Proof.
  intros He. unfold parse_expression, print_condition.
  rewrite tokenize_printed by (by apply printable_or). cbn. by apply parse_tokens_printed.
Qed.

(** C40: every expression the parser accepts is in normal form: a disjunction of at
    least two conjunctions, a conjunction of at least two negated or plain clauses,
    or one of those alone; bare keys have no operand and every regular expression
    was accepted by the engine.  Only blank text gives the empty conjunction. *)
Theorem parse_expression_normal s e :
  parse_expression s = Ok e ->
  (e = CAnd [] /\ tokenize s = Ok []) \/ nf_or checked_clause e.
Proof.
  unfold parse_expression. destruct (tokenize s) as [ts|]; [|done]. cbn. unfold parse_tokens.
  destruct ts as [|t ts]; [intros [= <-]; auto|].
  destruct (parse_or (t :: ts)) as [[e' rest]|] eqn:Hp; [|done]. cbn.
  destruct rest; [|done]. intros [= <-]. right.
  apply (parse_list_sound _ _ _ (nf_and checked_clause)) in Hp as [? _]; [done|].
  intros ts' e'' rest'. apply parse_list_sound. apply parse_unary_sound.
Qed.
End normal.

(** ** Evaluation of conditions (fabro-workflow/src/condition.rs) *)

Section eval.
Context {M : Type} `{JsonDisplay} `{Regex}.
Implicit Types (o : Outcome M) (c : Context).

Definition bool_to_string (b : bool) : string := if b then "true" else "false".

Definition json_value_to_string (v : Value) : string :=
  match v with
  | JString s => s
  | JBool b => bool_to_string b
  | JNum n => number_to_string n
  | JNull => ""
  | other => compound_to_string other
  end.

Definition resolve_key (key : string) o c : string :=
  if String.eqb key KEY_OUTCOME then StageOutcome_to_string (status o)
  else if String.eqb key PREFERRED_LABEL then default "" (preferred_label o)
  else default "" (json_value_to_string <$> lookup_flat c key).

Definition resolve_key_value (key : string) o c : Value :=
  if String.eqb key KEY_OUTCOME then JString (StageOutcome_to_string (status o))
  else if String.eqb key PREFERRED_LABEL then default JNull (JString <$> preferred_label o)
  else default JNull (lookup_flat c key).

Definition is_truthy (s : string) : bool :=
  (negb (str_is_empty s) && negb (String.eqb s "false") && negb (String.eqb s "0"))%bool.

(** Numeric comparison: false when either side is not a number. *)
Definition compare_numbers (cmp : f64 -> f64 -> bool) (lhs rhs : string) : bool :=
  match parse_f64 lhs, parse_f64 rhs with
  | Some x, Some y => cmp x y
  | _, _ => false
  end.

Definition eval_contains (v : Value) (needle : string) : bool :=
  match v with
  | JArray l => existsb (fun x => String.eqb (json_value_to_string x) needle) l
  | other => str_contains needle (json_value_to_string other)
  end.

Definition eval_clause (cl : Clause) o c : bool :=
  let resolved := resolve_key (cl_key cl) o c in
  let value := cl_value cl in
  match cl_op cl with
  | OpTruthy => is_truthy resolved
  | OpEqual => String.eqb resolved value
  | OpNotEqual => negb (String.eqb resolved value)
  | OpGreater => compare_numbers (fun x y => f64_lt y x) resolved value
  | OpLess => compare_numbers f64_lt resolved value
  | OpGreaterEq => compare_numbers (fun x y => f64_le y x) resolved value
  | OpLessEq => compare_numbers f64_le resolved value
  | OpContains => eval_contains (resolve_key_value (cl_key cl) o c) value
  | OpMatches => (re_valid value && re_is_match value resolved)%bool
  end.

Fixpoint eval_expr (e : ConditionExpr) o c : bool :=
  match e with
  | CAnd l => forallb (fun e => eval_expr e o c) l
  | COr l => existsb (fun e => eval_expr e o c) l
  | CNot e => negb (eval_expr e o c)
  | CClause cl => eval_clause cl o c
  end.

(** A text that does not parse is false. *)
Definition evaluate_condition (expr : string) o c : bool :=
  match parse_expression expr with
  | Ok e => eval_expr e o c
  | Err _ => false
  end.

(** ** Meaning *)

(** What an expression means, as a proposition. *)
Fixpoint sat (e : ConditionExpr) o c : Prop :=
  match e with
  | CAnd l => (fix all l := match l with [] => True | e :: l => sat e o c /\ all l end) l
  | COr l => (fix any l := match l with [] => False | e :: l => sat e o c \/ any l end) l
  | CNot e => ~ sat e o c
  | CClause cl => eval_clause cl o c = true
  end.

(** Induction over expressions, through the lists of children. *)
Lemma ConditionExpr_rect' (P : ConditionExpr -> Prop) :
  (forall cl, P (CClause cl)) -> (forall e, P e -> P (CNot e)) ->
  (forall l, Forall P l -> P (CAnd l)) -> (forall l, Forall P l -> P (COr l)) -> forall e, P e.
Proof.
  intros Hc Hn Ha Ho. fix IH 1. intros [cl|e|l|l]; [apply Hc|apply Hn, IH|apply Ha|apply Ho];
    (induction l as [|x l IHl]; constructor; [apply IH|exact IHl]).
Qed.

Lemma eval_expr_sat e o c : eval_expr e o c = true <-> sat e o c.
Proof.
  induction e as [cl|e IH|l IH|l IH] using ConditionExpr_rect'; cbn.
  - done.
  - rewrite negb_true_iff, <- IH. by destruct (eval_expr e o c).
  - induction IH as [|x l Hx _ IHl]; cbn; [done|]. by rewrite andb_true_iff, Hx, IHl.
  - induction IH as [|x l Hx _ IHl]; cbn; [done|]. by rewrite orb_true_iff, Hx, IHl.
Qed.

(** A guard written from an expression in normal form holds exactly when the
    expression does: conjunctions when every child does, disjunctions when some
    child does, negations when the child does not, clauses by the comparison of the
    resolved key with the operand.  A guard that does not parse never holds, and a
    blank one always does. *)
Theorem evaluate_condition_correct o c :
  (forall e, nf_or printable_clause e -> evaluate_condition (print_condition e) o c = true <-> sat e o c) /\
  (forall s err, parse_expression s = Err err -> evaluate_condition s o c = false) /\
  (forall s, tokenize s = Ok [] -> evaluate_condition s o c = true).
Proof.
  split; [|split].
  - intros e He. unfold evaluate_condition, print_condition, parse_expression.
    rewrite tokenize_printed by (by apply printable_or). cbn [result_bind].
    rewrite parse_tokens_printed by done. apply eval_expr_sat.
  - intros s err Hs. unfold evaluate_condition. by rewrite Hs.
  - intros s Hs. unfold evaluate_condition, parse_expression. by rewrite Hs.
Qed.
End eval.

(** ** Witnesses *)

Module CondWitness.
#[export] Instance any_regex : Regex := {| re_valid := fun _ => true; re_is_match := fun p s => str_contains p s |}.
#[export] Instance plain_json : JsonDisplay :=
  {| number_to_string := fun n => match n with PosInt z | NegInt z => Z_to_string z | FloatNum _ => "" end;
     compound_to_string := fun _ => "" |}.

(** A guard with every connective and an operand with a quote and a backslash. *)
Definition sample : ConditionExpr :=
  COr [CAnd [CClause (mkClause "outcome" OpEqual "succeeded"); CNot (CClause (mkClause "skip" OpTruthy ""))];
       CClause (mkClause "context.note" OpContains ("a" +:+ dq +:+ "b\"))].

Lemma sample_normal : nf_or printable_clause sample.
Proof.
  apply nf_many; [cbn; lia|]. constructor; [|constructor; [|constructor]].
  - apply nf_many; [cbn; lia|].
    constructor; [apply nf_clause|constructor; [apply nf_not, nf_clause|constructor]]; repeat split; done.
  - apply nf_one, nf_clause. repeat split; done.
Qed.

Lemma parse_print_condition_witness :
  nf_or printable_clause sample /\ parse_expression (print_condition sample) = Ok sample.
Proof. split; [exact sample_normal|]. exact (parse_print_condition sample sample_normal). Defined.

Lemma parse_expression_normal_witness :
  exists e, parse_expression "a=1 && b" = Ok e /\ nf_or checked_clause e.
Proof.
  eexists. split; [vm_compute; reflexivity|].
  destruct (parse_expression_normal "a=1 && b" _ eq_refl) as [[He _]|He]; [discriminate|exact He].
Defined.

Lemma evaluate_condition_correct_witness :
  evaluate_condition (M := unit) (print_condition sample) (outcome_success (H := tt)) ∅ = true.
Proof.
  apply (proj1 (evaluate_condition_correct (outcome_success (H := tt)) ∅) sample sample_normal).
  vm_compute. left. repeat split. discriminate.
Defined.
End CondWitness.
