(* ===== verification/Failure.v ===== *)
(** * Failure classification and signatures

    fabro-workflow/src/error.rs ([classify_failure_reason],
    [normalize_failure_reason], [FailureSignature::new]), the classifying
    constructors of fabro-workflow/src/outcome.rs and the context values a recorded
    outcome leaves (fabro-workflow/src/context.rs). *)

From S2P Require Import Prelude RustStr RustNum GraphTypes Context Outcome.
Local Open Scope Z_scope.

(** [Regex::replace_all] of the [regex] crate: pattern, text, replacement. *)
Class RegexReplace := re_replace_all : string -> string -> string -> string.

Definition TRANSIENT_INFRA_HINTS : list string :=
  ["timeout"; "timed out"; "rate limit"; "rate limited"; "connection refused";
   "connection reset"; "500"; "502"; "503"; "504"; "context deadline exceeded";
   "could not resolve host"; "could not resolve hostname"; "temporary failure";
   "network is unreachable"; "broken pipe"; "tls handshake timeout"; "i/o timeout";
   "no route to host"; "temporarily unavailable"; "try again"; "too many requests";
   "service unavailable"; "gateway timeout"; "econnrefused"; "econnreset"; "dial tcp";
   "transport is closing"; "stream disconnected"; "stream closed before";
   "index.crates.io"; "download of config.json failed";
   "toolchain_or_dependency_registry_unavailable";
   "toolchain dependency resolution blocked by network"; "toolchain_workspace_io";
   "cross-device link"; "invalid cross-device link"; "os error 18";
   "state change in progress"; "sandbox stop still in progress"].

Definition BUDGET_EXHAUSTED_HINTS : list string :=
  ["turn limit"; "token limit"; "context length"; "budget"; "quota exceeded"; "max_tokens";
   "max tokens"; "context window exceeded"; "budget exhausted"; "token limit exceeded"].

Definition STRUCTURAL_HINTS : list string :=
  ["write_scope_violation"; "write scope violation"; "scope violation"].

Definition HEX_RE : string := "\b[0-9a-f]{7,64}\b".
Definition DIGITS_RE : string := "\b\d+\b".
Definition COMMA_SPACE_RE : string := ",\s+".
Definition WHITESPACE_RE : string := "\s+".

Section failure.
Context `{RegexReplace}.

Definition hinted (lower : string) (hints : list string) : bool :=
  existsb (fun hint => str_contains hint lower) hints.

Definition classify_failure_reason (reason : string) : FailureCategory :=
  let lower := re_replace_all HEX_RE (to_lowercase reason) "<hex>" in
  if (str_contains "interrupt" lower ||
      (str_contains "cancel" lower
       && negb (str_contains "cancelling due to test failure" lower)
       && negb (str_contains "canceling due to test failure" lower)))%bool then Canceled
  else if hinted lower TRANSIENT_INFRA_HINTS then TransientInfra
  else if hinted lower BUDGET_EXHAUSTED_HINTS then BudgetExhausted
  else if hinted lower STRUCTURAL_HINTS then Structural
  else Deterministic.

(** [&s[..s.floor_char_boundary(n)]]. *)
Fixpoint floor_slice (n : nat) (s : string) : string :=
  match slice_to n s with
  | Some t => t
  | None => match n with O => "" | S n => floor_slice n s end
  end.

Definition normalize_failure_reason (reason : string) : string :=
  let s := to_lowercase (trim reason) in
  if str_is_empty s then ""
  else
    let s := re_replace_all HEX_RE s "<hex>" in
    let s := re_replace_all DIGITS_RE s "<n>" in
    let s := re_replace_all COMMA_SPACE_RE s "," in
    let s := re_replace_all WHITESPACE_RE s " " in
    let s := trim s in
    if Nat.ltb 240 (String.length s) then floor_slice 240 s else s.

Definition nonempty (s : string) : bool := negb (str_is_empty s).

Definition FailureSignature_new (id : string) (cat : FailureCategory)
    (signature_hint failure_reason : option string) : string :=
  let reason :=
    default "unknown"
      (opt_filter nonempty
         (or_else (opt_filter nonempty (normalize_failure_reason <$> signature_hint))
                  (normalize_failure_reason <$> failure_reason))) in
  trim id +:+ "|" +:+ FailureCategory_to_string cat +:+ "|" +:+ reason.

Definition fail_classify {M} `{OutcomeMeta M} (reason : string) : Outcome M :=
  with_failure (Failed false) (FailureDetail_new reason (classify_failure_reason reason)).

Definition retry_classify {M} `{OutcomeMeta M} (reason : string) : Outcome M :=
  with_failure (Failed true) (FailureDetail_new reason (classify_failure_reason reason)).

Definition simulated {M} `{OutcomeMeta M} (id : string) : Outcome M :=
  with_notes (Some ("[Simulated] " +:+ id)) outcome_success.

Definition apply_recorded_outcome_context {M} (id : string) (o : Outcome M) (retry_count : Z)
    (c : Context) : Context :=
  let failure_class := classified_failure_category o in
  let sig := default ""
    ((fun cat => FailureSignature_new id cat (failure o ≫= signature) (failure_reason o))
       <$> failure_class) in
  let c := ctx_set (retry_count_key id) (JNum (PosInt retry_count)) c in
  let c := ctx_set KEY_OUTCOME (JString (StageOutcome_to_string (status o))) c in
  let c := ctx_set FAILURE_CLASS
             (JString (default "" (FailureCategory_to_string <$> failure_class))) c in
  let c := ctx_set FAILURE_SIGNATURE (JString sig) c in
  match preferred_label o with
  | Some l => ctx_set PREFERRED_LABEL (JString l) c
  | None => c
  end.
End failure.

Lemma slice_to_length n s t : slice_to n s = Some t -> String.length t = n.
Proof.
  revert s t. induction n as [|n IH]; intros s t; destruct s as [|c s]; cbn.
  - by intros [= <-].
  - case_match; [done|by intros [= <-]].
  - done.
  - destruct (slice_to n s) as [t'|] eqn:Hs; cbn; [|done]. intros [= <-]. cbn. by rewrite (IH _ _ Hs).
Qed.

Lemma floor_slice_length n s : (String.length (floor_slice n s) <= n)%nat.
Proof.
  induction n as [|n IH]; cbn [floor_slice];
    (destruct (slice_to _ s) as [t|] eqn:Hs; [apply slice_to_length in Hs; lia|]); cbn; lia.
Qed.

(** The reason part of a signature is at most 240 bytes long. *)
Lemma normalize_failure_reason_length `{RegexReplace} reason :
  (String.length (normalize_failure_reason reason) <= 240)%nat.
Proof.
  unfold normalize_failure_reason. case_match; [cbn; lia|].
  case_match eqn:Hl; [apply floor_slice_length|]. apply Nat.ltb_ge in Hl. done.
Qed.
