(* ===== verification/Routing.v ===== *)
(** * Edge routing (fabro-workflow/src/graph/routing.rs)

    Which edge a finished node takes, whether the goal gates are satisfied, and
    where a failed node goes back to. *)

From S2P Require Import Prelude RustStr RustNum GraphTypes Context Outcome Core Condition.
From S2P Require Import CondFacts.
Local Open Scope Z_scope.

Definition is_terminal (n : Node) : bool :=
  (String.eqb (node_shape n) "Msquare" || bool_decide (handler_type n = Some "exit"))%bool.

(** ** Labels *)

(** The text after the first [c], if any. *)
Fixpoint after_char (c : ascii) (s : string) : option string :=
  match s with
  | EmptyString => None
  | String d s => if Ascii.eqb d c then Some s else after_char c s
  end.

(** [s.get(1..)]: the text from its second byte, when that is a character
    boundary. *)
Definition get_from_1 (s : string) : option string :=
  match s with
  | EmptyString => None
  | String _ EmptyString => Some ""
  | String _ (String d s) => if is_continuation d then None else Some (String d s)
  end.

(** Accelerator prefixes: a bracketed key, a key and a parenthesis, a key and a
    dash. *)
Definition bracket_accelerator (s : string) : option string :=
  r ← strip_prefix "[" s; trim_start <$> after_char "]" r.

Definition paren_accelerator (s : string) : option string :=
  match s with
  | String _ (String d r) => if Ascii.eqb d ")" then Some (trim_start r) else None
  | _ => None
  end.

Definition dash_accelerator (s : string) : option string :=
  if Nat.leb 3 (String.length s) then r ← get_from_1 s; strip_prefix " - " r else None.

Definition normalize_label (label : string) : string :=
  let s := to_lowercase (trim label) in
  default s (or_else (bracket_accelerator s) (or_else (paren_accelerator s) (dash_accelerator s))).

(** ** Picking one of several edges *)

Definition better (e best : Edge) : bool :=
  ((edge_weight best <? edge_weight e)
   || ((edge_weight e =? edge_weight best) && str_ltb (edge_to e) (edge_to best)))%bool.

Definition best_by_weight_then_lexical (edges : list Edge) : option Edge :=
  match edges with
  | [] => None
  | e :: rest => Some (fold_left (fun best e => if better e best then e else best) rest e)
  end.

Definition random_weight (e : Edge) : f64 :=
  let w := edge_weight e in if w <=? 0 then f64_of_Z 1 else f64_of_Z w.

(** [Iterator::sum] of [f64] starts from -0.0. *)
Definition sum_f64 (l : list f64) : f64 := fold_left f64_add l (S754_zero true).

Fixpoint spin (roll : f64) (edges : list Edge) : option Edge :=
  match edges with
  | [] => None
  | e :: rest =>
      let roll := f64_sub roll (random_weight e) in
      if f64_lt roll f64_zero then Some e else spin roll rest
  end.

Section routing.
Context {M W : Type} `{JsonDisplay} `{Regex}.

(** [rand::rng().random_range(0.0..total)]. *)
Class Dice (W : Type) := random_range : f64 -> W -> f64 * W.
Context `{Dice W}.

Definition weighted_random (edges : list Edge) (w : W) : option Edge * W :=
  match edges with
  | [] => (None, w)
  | [e] => (Some e, w)
  | _ =>
      let '(roll, w) := random_range (sum_f64 (random_weight <$> edges)) w in
      (or_else (spin roll edges) (last edges), w)
  end.

Definition pick_edge (edges : list Edge) (selection : string) (w : W) : option Edge * W :=
  if String.eqb selection "random" then weighted_random edges w
  else (best_by_weight_then_lexical edges, w).

(** ** Edge selection *)

Definition unconditional (e : Edge) : bool := is_none_or str_is_empty (edge_condition e).

Definition condition_matches (o : Outcome M) (c : Context) (e : Edge) : bool :=
  is_some_and (fun cond => (negb (str_is_empty cond) && evaluate_condition cond o c)%bool)
    (edge_condition e).

Definition label_matches (pref : string) (e : Edge) : bool :=
  (unconditional e && is_some_and (fun l => String.eqb (normalize_label l) (normalize_label pref))
                        (edge_label e))%bool.

Definition target_matches (id : string) (e : Edge) : bool :=
  (unconditional e && String.eqb (edge_to e) id)%bool.

Definition blocks_unconditional_failure_fallthrough (n : Node) (o : Outcome M) : bool :=
  (bool_decide (handler_type n = Some "human") && is_failure (status o)
   && negb (is_some (preferred_label o)) && match suggested_next_ids o with [] => true | _ => false end)%bool.

Definition with_reason (r : EdgeSelectionReason) (ew : option Edge * W) : option (EdgeSelection Edge) * W :=
  ((fun e => mkSelection e r) <$> ew.1, ew.2).

Definition preferred_edge (o : Outcome M) (edges : list Edge) : option Edge :=
  pref ← preferred_label o; find_first (label_matches pref) edges.

Definition suggested_edge (o : Outcome M) (edges : list Edge) : option Edge :=
  find_map (fun id => find_first (target_matches id) edges) (suggested_next_ids o).

Definition select_edge (n : Node) (o : Outcome M) (c : Context) (g : Graph) (selection : string) (w : W)
    : option (EdgeSelection Edge) * W :=
  let edges := outgoing_edges g (node_id n) in
  match edges with
  | [] => (None, w)
  | _ =>
      match filterb (condition_matches o c) edges with
      | (_ :: _) as matched => with_reason RCondition (pick_edge matched selection w)
      | [] =>
          match preferred_edge o edges with
          | Some e => (Some (mkSelection e RPreferredLabel), w)
          | None =>
              match suggested_edge o edges with
              | Some e => (Some (mkSelection e RSuggestedNext), w)
              | None =>
                  if blocks_unconditional_failure_fallthrough n o then (None, w)
                  else match filterb unconditional edges with
                       | (_ :: _) as open => with_reason RUnconditional (pick_edge open selection w)
                       | [] => (None, w)
                       end
              end
          end
      end
  end.
End routing.

(** ** Goal gates and retry targets *)

Definition gate_ids (g : Graph) : list string :=
  merge_sort String.le (elements (dom (filter (fun kn => goal_gate kn.2 = true) (graph_nodes g)))).

Definition gate_passed {M} (outcomes : gmap string (Outcome M)) (id : string) : bool :=
  is_some_and (fun o => is_successful (status o)) (outcomes !! id).

Definition check_goal_gates {M} (g : Graph) (outcomes : gmap string (Outcome M)) : result unit string :=
  match find_first (fun id => negb (gate_passed outcomes id)) (gate_ids g) with
  | Some id => Err id
  | None => Ok tt
  end.

Definition existing (g : Graph) (t : option string) : option string :=
  opt_filter (contains_key (graph_nodes g)) t.

Definition get_retry_target (failed : string) (g : Graph) : option string :=
  let of_node := n ← graph_nodes g !! failed;
                 or_else (existing g (node_retry_target n)) (existing g (node_fallback_retry_target n)) in
  or_else of_node (or_else (existing g (graph_retry_target g)) (existing g (graph_fallback_retry_target g))).
