(* ===== verification/RoutingFacts.v ===== *)
(** * Edge routing is correct *)

From S2P Require Import Prelude RustStr RustNum GraphTypes Context Outcome Core Condition.
From S2P Require Import CondFacts Routing.
Local Open Scope Z_scope.

(** ** Picking an edge *)

Lemma str_ltb_leb a b : str_ltb b a = false <-> String.le a b.
Proof.
  unfold str_ltb, String.ltb, String.le, String.leb. rewrite (String.compare_antisym a b).
  by destruct (String.compare b a).
Qed.

(** The order of preference between edges: weight first, then target id. *)
Definition at_least (best e : Edge) : Prop :=
  edge_weight e < edge_weight best \/
  (edge_weight e = edge_weight best /\ String.le (edge_to best) (edge_to e)).

Lemma better_false best e : better e best = false <-> at_least best e.
Proof.
  unfold better, at_least. rewrite orb_false_iff, andb_false_iff, Z.ltb_ge, Z.eqb_neq, str_ltb_leb. split.
  - intros [Hle [Hne|Hl]]; [left; lia|]. destruct (Z.eq_dec (edge_weight e) (edge_weight best)); [by right|left; lia].
  - intros [Hlt|[Heq Hl]]; (split; [lia|]); [left; lia|by right].
Qed.

Lemma better_true best e : better e best = true -> at_least e best.
Proof.
  unfold better, at_least. rewrite orb_true_iff, andb_true_iff, Z.ltb_lt, Z.eqb_eq.
  intros [?|[? Hl]]; [by left|right]. split; [done|]. apply str_ltb_leb.
  destruct (str_ltb (edge_to best) (edge_to e)) eqn:E; [|done].
  unfold str_ltb, String.ltb in *. rewrite (String.compare_antisym (edge_to best)) in E.
  by destruct (String.compare (edge_to e) (edge_to best)).
Qed.

Lemma at_least_trans a b c : at_least a b -> at_least b c -> at_least a c.
Proof.
  intros [?|[? Hab]] [?|[? Hbc]]; unfold at_least; [lia..|]. right. split; [lia|by etrans].
Qed.

Lemma at_least_refl a : at_least a a.
Proof. right. split; [done|reflexivity]. Qed.

Lemma best_spec edges e :
  best_by_weight_then_lexical edges = Some e -> e ∈ edges /\ forall e', e' ∈ edges -> at_least e e'.
Proof.
  destruct edges as [|e0 edges]; cbn; [done|]. intros [= <-].
  revert e0. induction edges as [|e1 edges IH]; intros e0; cbn.
  - split; [left|]. intros e' [->|?%not_elem_of_nil]%elem_of_cons; [apply at_least_refl|done].
  - destruct (better e1 e0) eqn:Hb.
    + destruct (IH e1) as [Hin Hbest]. split; [by right|].
      intros e' [->|He']%elem_of_cons; [|by apply Hbest].
      eapply at_least_trans; [apply Hbest; left|by apply better_true].
    + destruct (IH e0) as [Hin Hbest]. split; [set_solver|].
      intros e' [->|[->|He']%elem_of_cons]%elem_of_cons.
      * apply Hbest. left.
      * eapply at_least_trans; [apply Hbest; left|by apply better_false].
      * apply Hbest. by right.
Qed.

Lemma spin_elem roll edges e : spin roll edges = Some e -> e ∈ edges.
Proof.
  revert roll. induction edges as [|e0 edges IH]; intros roll; cbn; [done|].
  case_match; [intros [= ->]; left|]. intros He%IH. by right.
Qed.

Section facts.
Context {M W : Type} `{JsonDisplay} `{Regex} `{Dice W}.
Implicit Types (o : Outcome M) (w : W) (n : Node) (g : Graph).

Lemma weighted_random_spec edges w :
  edges <> [] -> exists e w', weighted_random edges w = (Some e, w') /\ e ∈ edges.
Proof.
  destruct edges as [|e0 [|e1 edges]]; [done| |].
  - intros _. exists e0, w. split; [done|left].
  - intros _. unfold weighted_random. destruct (random_range _ w) as [roll w'].
    destruct (spin roll (e0 :: e1 :: edges)) as [e|] eqn:Hs.
    + exists e, w'. split; [done|]. by eapply spin_elem.
    + destruct (last (e0 :: e1 :: edges)) as [e|] eqn:Hl.
      * exists e, w'. split; [done|]. by apply last_Some_elem_of.
      * by apply last_None in Hl.
Qed.

Lemma pick_edge_spec edges selection w :
  edges <> [] -> exists e w', pick_edge edges selection w = (Some e, w') /\ e ∈ edges /\
    (selection <> "random" -> w' = w /\ forall e', e' ∈ edges -> at_least e e').
Proof.
  intros Hne. unfold pick_edge. destruct (String.eqb_spec selection "random") as [->|Hr].
  - destruct (weighted_random_spec edges w Hne) as (e & w' & -> & Hin). by exists e, w'.
  - destruct (best_by_weight_then_lexical edges) as [e|] eqn:Hb; [|by destruct edges].
    apply best_spec in Hb as [Hin Hbest]. by exists e, w.
Qed.

(** The four ways an edge is selected, in their order of priority. *)
Definition matched_edges n o c g : list Edge := filterb (condition_matches o c) (outgoing_edges g (node_id n)).
Definition open_edges n g : list Edge := filterb unconditional (outgoing_edges g (node_id n)).

Definition candidates n o c g (r : EdgeSelectionReason) : list Edge :=
  let edges := outgoing_edges g (node_id n) in
  match r with
  | RCondition => matched_edges n o c g
  | RPreferredLabel => option_list (preferred_edge o edges)
  | RSuggestedNext => option_list (suggested_edge o edges)
  | RUnconditional => if blocks_unconditional_failure_fallthrough n o then [] else open_edges n g
  end.

(** [r] comes before [r'] in the order of priority. *)
Definition priority (r : EdgeSelectionReason) : Z :=
  match r with RCondition => 1 | RPreferredLabel => 2 | RSuggestedNext => 3 | RUnconditional => 4 end.

Lemma find_map_Some {A B} (f : A -> option B) l y :
  find_map f l = Some y -> exists x, x ∈ l /\ f x = Some y.
Proof.
  induction l as [|x l IH]; cbn; [done|]. destruct (f x) eqn:E.
  - intros [= <-]. exists x. split; [left|done].
  - intros (x' & ? & ?)%IH. exists x'. split; [by right|done].
Qed.

Lemma candidates_outgoing n o c g r e :
  e ∈ candidates n o c g r -> e ∈ outgoing_edges g (node_id n).
Proof.
  destruct r; cbn.
  - unfold matched_edges. by intros [? _]%filterb_elem.
  - destruct (preferred_edge o _) eqn:E; [|by intros ?%not_elem_of_nil].
    intros ->%list_elem_of_singleton. unfold preferred_edge in E.
    destruct (preferred_label o); [|done]. by apply find_first_Some_elem in E as [? _].
  - destruct (suggested_edge o _) eqn:E; [|by intros ?%not_elem_of_nil].
    intros ->%list_elem_of_singleton. apply find_map_Some in E as (id & _ & E).
    by apply find_first_Some_elem in E as [? _].
  - case_match; [by intros ?%not_elem_of_nil|]. unfold open_edges. by intros [? _]%filterb_elem.
Qed.

Lemma select_edge_cases n o c g selection w :
  (exists s w', select_edge n o c g selection w = (Some s, w') /\
     sel_edge s ∈ candidates n o c g (sel_reason s) /\
     (forall r, priority r < priority (sel_reason s) -> candidates n o c g r = []) /\
     (selection <> "random" -> w' = w /\
        forall e', e' ∈ candidates n o c g (sel_reason s) -> at_least (sel_edge s) e')) \/
  (select_edge n o c g selection w = (None, w) /\ forall r, candidates n o c g r = []).
Proof.
  unfold select_edge.
  destruct (outgoing_edges g (node_id n)) as [|e0 es] eqn:Hout.
  { right. split; [done|]. intros r. apply elem_of_nil_inv. intros e He.
    apply candidates_outgoing in He. rewrite Hout in He. by apply not_elem_of_nil in He. }
  rewrite <- Hout. fold (matched_edges n o c g).
  destruct (matched_edges n o c g) as [|m0 ms] eqn:Hm.
  - destruct (preferred_edge o (outgoing_edges g (node_id n))) as [e|] eqn:Hp.
    { left. eexists _, w. split; [done|]. cbn. rewrite Hp. cbn. split; [left|]. split.
      - intros [] Hr; cbn in *; try lia. done.
      - intros _. split; [done|]. intros e' ->%list_elem_of_singleton. apply at_least_refl. }
    destruct (suggested_edge o (outgoing_edges g (node_id n))) as [e|] eqn:Hs.
    { left. eexists _, w. split; [done|]. cbn. rewrite Hs. cbn. split; [left|]. split.
      - intros [] Hr; cbn in *; try lia; [done|]. by rewrite Hp.
      - intros _. split; [done|]. intros e' ->%list_elem_of_singleton. apply at_least_refl. }
    assert (forall r, priority r < 4 -> candidates n o c g r = []) as Hnone.
    { intros [] Hr; cbn in *; try lia; [done| |]; by rewrite ?Hp, ?Hs. }
    destruct (blocks_unconditional_failure_fallthrough n o) eqn:Hb.
    { right. split; [done|]. intros r. destruct (decide (r = RUnconditional)) as [->|Hr]; [cbn; by rewrite Hb|].
      apply Hnone. destruct r; cbn; [lia..|done]. }
    fold (open_edges n g). destruct (open_edges n g) as [|u0 us] eqn:Hu.
    { right. split; [done|]. intros r. destruct (decide (r = RUnconditional)) as [->|Hr]; [cbn; by rewrite Hb|].
      apply Hnone. destruct r; cbn; [lia..|done]. }
    left. destruct (pick_edge_spec (u0 :: us) selection w) as (e & w' & Hpick & Hin & Hbest); [done|].
    exists (mkSelection e RUnconditional), w'. unfold with_reason. rewrite Hpick. cbn [sel_edge sel_reason fst snd].
    split; [done|]. cbn [candidates]. rewrite Hb, Hu. auto.
  - left. destruct (pick_edge_spec (m0 :: ms) selection w) as (e & w' & Hpick & Hin & Hbest); [done|].
    exists (mkSelection e RCondition), w'. unfold with_reason. rewrite Hpick. cbn [sel_edge sel_reason fst snd].
    split; [done|]. cbn [candidates]. rewrite Hm. split; [done|]. split; [|done].
    intros [] Hr; cbn in Hr; lia.
Qed.


(** ** Goal gates *)

Lemma gate_ids_elem g id :
  id ∈ gate_ids g <-> exists n, graph_nodes g !! id = Some n /\ goal_gate n = true.
Proof.
  unfold gate_ids. rewrite merge_sort_Permutation, elem_of_elements, elem_of_dom. split.
  - intros [n [Hn Hg]%map_lookup_filter_Some]. eauto.
  - intros (n & Hn & Hg). exists n. by apply map_lookup_filter_Some.
Qed.

Lemma check_goal_gates_cases g (outcomes : gmap string (Outcome M)) :
  let unsatisfied id := (exists n, graph_nodes g !! id = Some n /\ goal_gate n = true) /\
                        gate_passed outcomes id = false in
  match check_goal_gates g outcomes with
  | Ok _ => forall id, ~ unsatisfied id
  | Err id => unsatisfied id /\ forall id', unsatisfied id' -> String.le id id'
  end.
Proof.
  intros unsatisfied. unfold check_goal_gates. destruct (find_first _ (gate_ids g)) as [id|] eqn:Hf.
  - pose proof (find_first_Some _ _ _ Hf) as (l1 & l2 & Hl & Hid & Hl1).
    apply negb_true_iff in Hid. split.
    + split; [|done]. apply gate_ids_elem. rewrite Hl. set_solver.
    + intros id' [Hg' Hp']. apply gate_ids_elem in Hg'. rewrite Hl in Hg'.
      assert (StronglySorted String.le (gate_ids g)) as Hsort by (apply StronglySorted_merge_sort; apply _).
      rewrite Hl in Hsort. apply elem_of_app in Hg' as [Hg'|[->|Hg']%elem_of_cons].
      * rewrite Forall_forall in Hl1. specialize (Hl1 _ Hg'). by rewrite Hp' in Hl1.
      * reflexivity.
      * apply StronglySorted_app_1_r in Hsort. apply StronglySorted_inv in Hsort as [_ Hs].
        rewrite Forall_forall in Hs. by apply Hs.
  - intros id [Hg Hp]. rewrite find_first_None in Hf. specialize (Hf id (proj2 (gate_ids_elem g id) Hg)).
    by rewrite Hp in Hf.
Qed.

(** The goal gates pass exactly when every node marked as a gate has a recorded
    successful (or partially successful) outcome; otherwise the check names a gate
    that has none, the least one in the order of ids. *)
Theorem check_goal_gates_spec g (outcomes : gmap string (Outcome M)) :
  let unsatisfied id := (exists n, graph_nodes g !! id = Some n /\ goal_gate n = true) /\
                        gate_passed outcomes id = false in
  match check_goal_gates g outcomes with
  | Ok _ => forall id, ~ unsatisfied id
  | Err id => unsatisfied id /\ forall id', unsatisfied id' -> String.le id id'
  end.
Proof. apply check_goal_gates_cases. Qed.
End facts.

(** ** Retry targets *)

(** The targets in the order in which they are tried. *)
Definition retry_candidates (failed : string) (g : Graph) : list string :=
  match graph_nodes g !! failed with
  | Some n => option_list (node_retry_target n) ++ option_list (node_fallback_retry_target n)
  | None => []
  end ++ option_list (graph_retry_target g) ++ option_list (graph_fallback_retry_target g).

Lemma find_first_app {A} (f : A -> bool) l1 l2 :
  find_first f (l1 ++ l2) = or_else (find_first f l1) (find_first f l2).
Proof. induction l1 as [|x l1 IH]; cbn; [done|]. by destruct (f x). Qed.

Lemma existing_find g t : existing g t = find_first (contains_key (graph_nodes g)) (option_list t).
Proof. by destruct t. Qed.

(** The retry target is the first of the node's target, the node's fallback,
    the graph's target and the graph's fallback that names a node of the graph; so
    a retry target always exists in the graph. *)
Theorem get_retry_target_spec failed g :
  get_retry_target failed g = find_first (contains_key (graph_nodes g)) (retry_candidates failed g) /\
  forall t, get_retry_target failed g = Some t -> is_Some (graph_nodes g !! t).
Proof.
  assert (get_retry_target failed g = find_first (contains_key (graph_nodes g)) (retry_candidates failed g)) as Heq.
  { unfold get_retry_target, retry_candidates. rewrite find_first_app, find_first_app, <- !existing_find.
    destruct (graph_nodes g !! failed) as [n|]; [|done]. by rewrite find_first_app, <- !existing_find. }
  split; [done|]. intros t Ht. rewrite Heq in Ht.
  apply find_first_Some_elem in Ht as [_ Hc]. by apply contains_key_true.
Qed.
