(* ===== verification/Retry.v ===== *)
(** * Retry policies of nodes (fabro-workflow/src/retry.rs)

    Integer arithmetic is at its width: [max_retries + 1] is an [i64] addition,
    which wraps in a release build. *)

From S2P Require Import Prelude RustStr RustNum Backoff GraphTypes Context Outcome Core.
Local Open Scope Z_scope.

(** The value of an [i64] addition that overflowed. *)
Definition wrap_i64 (z : Z) : Z := (z + 2 ^ 63) mod 2 ^ 64 - 2 ^ 63.

Definition DEFAULT_BACKOFF : BackoffPolicy := mkBackoff (from_secs 5) (f64_of_Z 2) (from_mins 1) true.

Definition with_initial (d : Duration) (b : BackoffPolicy) : BackoffPolicy :=
  mkBackoff d (factor b) (max_delay b) (jitter b).
Definition with_factor (f : f64) (b : BackoffPolicy) : BackoffPolicy :=
  mkBackoff (initial_delay b) f (max_delay b) (jitter b).

Definition preset_retry_policy (preset : string) : option RetryPolicy :=
  if String.eqb preset "none" then
    Some {| policy_max_attempts := 1; backoff := DEFAULT_BACKOFF |}
  else if String.eqb preset "standard" then
    Some {| policy_max_attempts := 5; backoff := DEFAULT_BACKOFF |}
  else if String.eqb preset "aggressive" then
    Some {| policy_max_attempts := 5; backoff := with_initial (from_millis 500) DEFAULT_BACKOFF |}
  else if String.eqb preset "linear" then
    Some {| policy_max_attempts := 3;
            backoff := with_factor (f64_of_Z 1) (with_initial (from_millis 500) DEFAULT_BACKOFF) |}
  else if String.eqb preset "patient" then
    Some {| policy_max_attempts := 3;
            backoff := with_factor (f64_of_Z 3) (with_initial (from_secs 2) DEFAULT_BACKOFF) |}
  else None.

(** [u32::try_from(max_retries + 1).unwrap_or(1).max(1)]. *)
Definition attempts_of_retries (max_retries : Z) : Z :=
  Z.max (default 1 (in_bounds 0 u32_max (wrap_i64 (max_retries + 1)))) 1.

Definition build_retry_policy (n : Node) (g : Graph) : RetryPolicy :=
  match p ← node_retry_policy n; preset_retry_policy p with
  | Some policy => policy
  | None =>
      let max_retries := default (default_max_retries g) (node_max_retries n) in
      {| policy_max_attempts := attempts_of_retries max_retries; backoff := DEFAULT_BACKOFF |}
  end.

(** ** Facts *)

Lemma preset_attempts preset policy :
  preset_retry_policy preset = Some policy -> 1 <= policy_max_attempts policy <= 5.
Proof. unfold preset_retry_policy. repeat case_match; intros; simplify_eq/=; lia. Qed.

Lemma attempts_of_retries_range r : 1 <= attempts_of_retries r <= u32_max.
Proof. unfold attempts_of_retries, in_bounds, u32_max. repeat case_match; cbn; bool_prop; lia. Qed.

Lemma build_retry_policy_range n g : 1 <= policy_max_attempts (build_retry_policy n g) <= u32_max.
Proof.
  unfold build_retry_policy. destruct (node_retry_policy n ≫= preset_retry_policy) as [policy|] eqn:Hp.
  - destruct (node_retry_policy n) as [p|]; [|done]. apply preset_attempts in Hp. unfold u32_max. lia.
  - apply attempts_of_retries_range.
Qed.

(** Every node gets between one attempt and [u32::MAX] attempts; a node without
    a preset that asks for [r] retries gets [r + 1] attempts when that is
    representable, and a single attempt when the count is negative or too large. *)
Theorem build_retry_policy_attempts n g :
  1 <= policy_max_attempts (build_retry_policy n g) <= u32_max /\
  ((p ← node_retry_policy n; preset_retry_policy p) = None ->
   let r := default (default_max_retries g) (node_max_retries n) in
   i64_min <= r < i64_max ->
   policy_max_attempts (build_retry_policy n g)
   = if (0 <=? r) && (r <? u32_max) then r + 1 else 1).
Proof.
  split; [apply build_retry_policy_range|]. intros Hp. unfold build_retry_policy. rewrite Hp.
  cbn [policy_max_attempts]. set (r := default _ _). unfold attempts_of_retries, i64_min, i64_max. intros Hr.
  assert (wrap_i64 (r + 1) = r + 1) as ->.
  { unfold wrap_i64. rewrite Z.mod_small by lia. lia. }
  unfold in_bounds, u32_max.
  destruct (Z.leb_spec 0 r), (Z.ltb_spec r 4294967295), (Z.leb_spec 0 (r + 1)),
    (Z.leb_spec (r + 1) 4294967295); cbn; lia.
Qed.

(** ** Backoff delays *)

Lemma capped_delay_bounds b att d :
  0 <= max_delay b -> capped_delay b att = Some d -> 0 <= d <= max_delay b.
Proof.
  intros Hmax. unfold capped_delay. set (x := mul_f64 _ _).
  assert (forall base, x = Some base -> 0 <= base) as Hx
    by (intros base Hb; exact (proj1 (mul_f64_range _ _ _ Hb))).
  clearbody x. destruct x as [base|]; [|discriminate]. specialize (Hx base eq_refl).
  cbn. intros [= <-]. destruct (Z.ltb_spec (max_delay b) base); lia.
Qed.

(** A delay without jitter lies between zero and the policy's cap; with jitter
    it is the capped delay times the factor drawn.  In both cases a delay that
    exists fits a [Duration]. *)
Theorem delay_for_attempt_bounds {W} (draw : W -> f64 * W) b att w d w' :
  0 <= max_delay b <= duration_max ->
  delay_for_attempt draw b att w = (Some d, w') ->
  0 <= d <= duration_max /\
  (jitter b = false -> d <= max_delay b /\ w' = w) /\
  (jitter b = true -> exists c, capped_delay b att = Some c /\ mul_f64 c (draw w).1 = Some d).
Proof.
  intros Hmax. unfold delay_for_attempt. destruct (capped_delay b att) as [c|] eqn:Hc; [|done].
  apply capped_delay_bounds in Hc as Hb; [|lia]. destruct (jitter b).
  - destruct (draw w) as [x w1] eqn:Hd. intros [= Hm <-]. split; [by eapply mul_f64_range|].
    split; [done|]. intros _. by exists c.
  - intros [= <- <-]. split; [lia|]. split; [|done]. intros _. split; [lia|done].
Qed.

(** The attempts of a workflow whose backoff is the engine's default, in order. *)
Definition default_schedule : list Z := seqZ 1 62.

(** The engine's default backoff doubles from five seconds up to the cap of one
    minute for the first 62 attempts of a node, and panics at attempt 63: the
    product [5s * 2^62] exceeds the largest [Duration] before the cap applies. *)
Theorem default_backoff_schedule :
  (forall att, 1 <= att <= 62 ->
     capped_delay DEFAULT_BACKOFF att = Some (Z.min (from_secs (5 * 2 ^ (att - 1))) (from_mins 1))) /\
  capped_delay DEFAULT_BACKOFF 63 = None.
Proof.
  split; [|by vm_compute].
  assert (forallb (fun att => bool_decide (capped_delay DEFAULT_BACKOFF att
    = Some (Z.min (from_secs (5 * 2 ^ (att - 1))) (from_mins 1)))) default_schedule = true) as Hall
    by (vm_compute; reflexivity).
  intros att Hatt. rewrite forallb_forall in Hall.
  apply (bool_decide_eq_true_1 _), Hall, list_elem_of_In, elem_of_seqZ. lia.
Qed.

Lemma delay_for_attempt_bounds_witness :
  0 <= from_secs 4 <= duration_max.
Proof.
  refine (proj1 (delay_for_attempt_bounds (fun w : nat => (f64_of_Z 1, S w)) BackoffPolicy_default 3 0%nat
                   (from_secs 4) 0%nat _ _)).
  - split; vm_compute; discriminate.
  - vm_compute. reflexivity.
Defined.
