(* ===== verification/Workflow.v ===== *)
(** * The workflow engine as an instance of the core

    The graph adapter (fabro-workflow/src/graph.rs), the node handler
    (fabro-workflow/src/node_handler.rs) and the executor options of a run
    (fabro-workflow/src/pipeline/execute.rs), and what the theorems on the core
    give for workflows. *)

From S2P Require Import Prelude RustStr RustNum Backoff GraphTypes Context Outcome Core Executor.
From S2P Require Import ExecutorLogic ExecutorFacts ExecutorRun ExecutorProps Condition CondFacts.
From S2P Require Import Failure Routing RoutingFacts Retry.
Local Open Scope Z_scope.

(** ** The graph adapter *)

#[export] Instance WorkflowNode_spec : NodeSpec Node := {|
  spec_id := node_id;
  spec_is_terminal := is_terminal;
  spec_max_visits := fun n => (fun v => Z.max v 0) <$> node_max_visits n
|}.

#[export] Instance WorkflowEdge_spec : EdgeSpec Edge := {|
  spec_target := edge_to;
  spec_label := edge_label;
  spec_is_loop_restart := loop_restart
|}.

Section graph.
Context {M W : Type} `{HashOrder} `{JsonDisplay} `{Regex} `{RegexReplace} `{!Dice W}.

#[export] Instance WorkflowGraph : CoreGraph Graph Node Edge M W := {|
  get_node := fun g id => graph_nodes g !! id;
  core_find_start_node := fun g =>
    match find_start_node g with Some n => Ok n | None => Err NoStartNode end;
  core_outgoing_edges := outgoing_edges;
  core_select_edge := fun g n o c w => select_edge n o c g (node_selection n) w;
  project_result_context := fun _ n r c =>
    apply_recorded_outcome_context (node_id n) (outcome r) (saturating_sub (attempts r) 1) c;
  core_check_goal_gates := check_goal_gates;
  core_get_retry_target := fun g failed => get_retry_target failed g;
  core_resolve_on_failure := resolve_on_failure
|}.

(** A graph whose table is keyed by node id meets what the executor relies on. *)
#[export] Instance workflow_laws (g : Graph) (Hg : keyed_by_id g) : CoreGraphLaws (HG := WorkflowGraph) g.
Proof. split. intros id n Hn. by apply Hg. Qed.
End graph.

(** ** The node handler *)

(** An error of the workflow engine, as far as the handler looks at it. *)
Inductive WorkflowError :=
| WfCancelled
| WfError (detail : FailureDetail) (should_retry : bool).

(** How the dispatched handler ended. *)
Inductive Dispatched (M : Type) :=
| Finished (r : result (Outcome M) WorkflowError)
| HandlerPanicked (msg : string).
Arguments Finished {M}.
Arguments HandlerPanicked {M}.

(** The services a handler runs on: the artifact store ([artifact.rs]) and the
    registered handlers.  A dispatched handler works on its own copy of the context
    and leaves it changed.  [manages_timeout] is the handler's
    [node_timeout_policy]; [times_out] is the race of the handler against a time
    budget that does not count waiting for a human. *)
Class Services (M W : Type) := {
  handler_context : Context -> W -> result Context FailureDetail * W;
  edge_context : Context -> W -> result Context FailureDetail * W;
  durable_form : gmap string Value -> gmap string Value;
  manages_timeout : Node -> bool;
  times_out : Duration -> Node -> Context -> W -> option W;
  dispatch_handler : Node -> Context -> Graph -> W -> Dispatched M * Context * W
}.

Section handler.
Context {M W : Type} `{OutcomeMeta M} `{Services M W}.

Definition retryable_error (f : FailureDetail) : CoreError :=
  HandlerError {| retryable := true; detail_failure := f |}.

Definition timeout_failure (after : Duration) : FailureDetail :=
  mkFailure ("handler timed out after " +:+ Z_to_string (as_millis after) +:+ "ms") [] TransientInfra
    (Some ActorTimeout) None None.

(** The answer of an attempt that was not timed out. *)
Definition attempt_answer (d : Dispatched M) : result (Outcome M) CoreError :=
  match d with
  | Finished (Ok o) => Ok o
  | Finished (Err WfCancelled) => Err Cancelled
  | Finished (Err (WfError detail again)) =>
      Err (HandlerError {| retryable := again; detail_failure := detail |})
  | HandlerPanicked msg =>
      Err (HandlerError {| retryable := false; detail_failure := FailureDetail_new msg Deterministic |})
  end.

(** The time budget of a node, when the executor enforces it. *)
Definition node_deadline (n : Node) : option Duration :=
  if manages_timeout (M := M) (W := W) n then None else node_timeout n.

(** The values that the handler changed, in their durable form, go back to the
    shared context; a timed-out handler's do not. *)
Definition execute_single_attempt (n : Node) (c : Context) (g : Graph) (w : W)
    : result (Outcome M) CoreError * Context * W :=
  match handler_context c w with
  | (Err f, w) => (Err (retryable_error f), c, w)
  | (Ok snapshot, w) =>
      match d ← node_deadline n; (d,.) <$> times_out (M := M) d n snapshot w with
      | Some (d, w) => (Err (retryable_error (timeout_failure d)), c, w)
      | None =>
          let '(d, after, w) := dispatch_handler n snapshot g w in
          (attempt_answer d,
           apply_updates (context_diff snapshot (durable_form after)) c, w)
      end
  end.

Definition finalize_retries_exhausted (n : Node) (last : Outcome M) : Outcome M :=
  if allow_partial n then with_status PartiallySucceeded last
  else with_status (Failed false) last.

#[export] Instance WorkflowNodeHandler (graph : Graph) : NodeHandler Graph Node M W := {|
  execute := fun n c _ w => execute_single_attempt n c graph w;
  context_for_edge_selection := fun c _ w =>
    match edge_context c w with
    | (Ok c, w) => (Ok c, w)
    | (Err f, w) => (Err (retryable_error f), w)
    end;
  handler_retry_policy := fun n _ => build_retry_policy n graph;
  on_retries_exhausted := finalize_retries_exhausted
|}.
End handler.

(** ** The options of a run *)

Definition run_max_node_visits (g : Graph) (dry_run : bool) : option Z :=
  if 0 <? max_node_visits g then Some (max_node_visits g)
  else if dry_run then Some 10 else None.

Definition run_executor_options (g : Graph) (dry_run : bool) : ExecutorOptions :=
  {| cancel_token := true; stall_token := is_some (stall_timeout g);
     opt_max_node_visits := run_max_node_visits g dry_run |}.
