(* ===== verification/WorkflowProps.v ===== *)
(** * Properties of workflow runs

    The theorems on the core, at the workflow engine's own graph, routing, retry
    policies and executor options. *)

From S2P Require Import Prelude RustStr RustNum Backoff GraphTypes Context Outcome Core Executor.
From S2P Require Import ExecutorLogic ExecutorFacts ExecutorRun ExecutorProps Condition CondFacts.
From S2P Require Import Failure Routing RoutingFacts Retry Workflow.
Local Open Scope Z_scope.

Section workflow.
Context {M W : Type} `{HM : OutcomeMeta M} `{HashOrder} `{JsonDisplay} `{Regex} `{RegexReplace}.
Context `{!Dice W} `{HS : Services M W} `{HR : Runtime W}.
Implicit Types (g : Graph).

(** A run of the engine on a workflow graph. *)
Definition workflow_run (lc : RunLifecycle Graph Node Edge M W) g (dry_run : bool) (fuel : nat)
    (m : Mach M W) : option (ctl (Outcome M) * Mach M W) :=
  let _ := WorkflowNodeHandler (M := M) (W := W) g in
  run lc (run_executor_options g dry_run) g fuel m.

Definition graph_ids g : list string := elements (dom (graph_nodes g)).

(** A workflow whose graph sets [max_node_visits], or a dry run, always ends,
    whatever its handlers, its human gates, its stall timer and its cancellation do:
    within twice the limit times the number of nodes, plus two, iterations. *)
Theorem workflow_run_terminates lc g dry_run limit (m : Mach M W) :
  keyed_by_id g -> run_max_node_visits g dry_run = Some limit ->
  fresh m -> (forall id, 0 <= visits (m_state m) id) ->
  exists res, workflow_run lc g dry_run (2 * Z.to_nat limit * length (graph_ids g) + 2) m = Some res.
Proof.
  intros Hg Hlim Hf Hv. pose proof (workflow_laws (M := M) (W := W) g Hg) as HL.
  unfold workflow_run. cbn zeta.
  apply (run_ends lc (run_executor_options g dry_run) g (graph_ids g) limit); [..|done|done].
  - intros id n Hn. unfold graph_ids. rewrite elem_of_elements, elem_of_dom. by exists n.
  - intros id n _ _. unfold effective_limit. cbn [opt_max_node_visits run_executor_options].
    rewrite Hlim. destruct (spec_max_visits n); eexists; (split; [done|lia]).
  - unfold run_max_node_visits in Hlim. destruct (Z.ltb_spec 0 (max_node_visits g)).
    + injection Hlim as <-. lia.
    + destruct dry_run; [injection Hlim as <-; lia|done].
Qed.

(** ** Panics *)

Definition engine_backoffs : list BackoffPolicy :=
  [DEFAULT_BACKOFF; with_initial (from_millis 500) DEFAULT_BACKOFF;
   with_factor (f64_of_Z 1) (with_initial (from_millis 500) DEFAULT_BACKOFF);
   with_factor (f64_of_Z 3) (with_initial (from_secs 2) DEFAULT_BACKOFF)].

(** The factor drawn for the jitter keeps the delays of the engine's policies
    representable; [random_range(0.5..1.5)] does, since they are at most one minute. *)
Definition jitter_fits : Prop :=
  forall b att d w, b ∈ engine_backoffs -> 1 <= att <= 62 -> capped_delay b att = Some d ->
    mul_f64 d (draw_jitter (W := W) w).1 <> None.

(** Presets and how often they retry. *)
Lemma preset_backoff preset policy :
  preset_retry_policy preset = Some policy ->
  policy_max_attempts policy <= 5 /\ backoff policy ∈ engine_backoffs.
Proof.
  unfold preset_retry_policy, engine_backoffs.
  repeat case_match; intros; simplify_eq/=; (split; [lia|]); repeat first [left; done | right | apply list_elem_of_here].
Qed.

Lemma patient_needs_few :
  forallb (fun b => forallb (fun att => is_some (capped_delay b att)) (seqZ 1 4)) engine_backoffs = true.
Proof. vm_compute. reflexivity. Qed.

Lemma default_fits :
  forallb (fun att => is_some (capped_delay DEFAULT_BACKOFF att)) (seqZ 1 62) = true.
Proof. vm_compute. reflexivity. Qed.

Lemma build_retry_policy_fits n g att :
  policy_max_attempts (build_retry_policy n g) <= 63 ->
  1 <= att < policy_max_attempts (build_retry_policy n g) ->
  backoff (build_retry_policy n g) ∈ engine_backoffs /\ att <= 62 /\
  is_Some (capped_delay (backoff (build_retry_policy n g)) att).
Proof.
  intros Hmax Hatt. pose proof patient_needs_few as Hp. pose proof default_fits as Hd.
  rewrite forallb_forall in Hp, Hd. unfold build_retry_policy in *.
  destruct (node_retry_policy n ≫= preset_retry_policy) as [policy|] eqn:E.
  - destruct (node_retry_policy n) as [p|]; [|done]. apply preset_backoff in E as [H5 Hin].
    split; [done|]. split; [lia|]. apply list_elem_of_In in Hin. specialize (Hp _ Hin).
    rewrite forallb_forall in Hp. apply is_some_true, Hp, list_elem_of_In, elem_of_seqZ. lia.
  - cbn in *. split; [left|]. split; [lia|]. apply is_some_true, Hd, list_elem_of_In, elem_of_seqZ. lia.
Qed.

(** A workflow none of whose nodes asks for more than 63 attempts never panics
    in the engine's own code: neither the retry loop, nor the routing, nor the
    backoff arithmetic. *)
Theorem workflow_run_never_panics lc g dry_run fuel (m m' : Mach M W) r :
  jitter_fits ->
  (forall id n, graph_nodes g !! id = Some n -> policy_max_attempts (build_retry_policy n g) <= 63) ->
  workflow_run lc g dry_run fuel m = Some (r, m') -> r <> Panicked.
Proof.
  intros Hj Hmax. apply run_total. intros id n Hn.
  unfold sane_policy. cbn [handler_retry_policy WorkflowNodeHandler]. split; [apply build_retry_policy_range|].
  intros att w Hatt. destruct (build_retry_policy_fits n g att (Hmax id n Hn) Hatt) as (Hin & H62 & [d Hd]).
  unfold delay_for_attempt. rewrite Hd. destruct (jitter _); [|done].
  pose proof (Hj _ att d w Hin ltac:(lia) Hd) as Hm. destruct (draw_jitter w) as [x w1]. exact Hm.
Qed.

(** ** Goal gates *)


(** ** Attempts and the shared context *)

(** An attempt changes the run's context only at keys whose durable value the
    handler changed, and there to that value; a handler that ran out of its node's
    time budget, or whose context could not be resolved, changes nothing and its
    error is retryable. *)
Theorem attempt_writes_back_changes n (c : Context) g (w : W) answer c' w' :
  execute_single_attempt n c g w = (answer, c', w') ->
  (exists f, handler_context (M := M) c w = (Err f, w') /\
     answer = Err (retryable_error f) /\ c' = c) \/
  (exists snapshot w1, handler_context (M := M) c w = (Ok snapshot, w1) /\
    ((exists d, node_deadline (M := M) (W := W) n = Some d /\ times_out (M := M) d n snapshot w1 = Some w' /\
        answer = Err (retryable_error (timeout_failure d)) /\ c' = c) \/
     (exists d after, dispatch_handler n snapshot g w1 = (d, after, w') /\ answer = attempt_answer d /\
        forall k, c' !! k = match durable_form (M := M) (W := W) after !! k with
                            | Some v => if is_some_and (fun old => value_eqb old v) (snapshot !! k)
                                        then c !! k else Some v
                            | None => c !! k
                            end))).
Proof.
  unfold execute_single_attempt.
  destruct (handler_context c w) as [[snapshot|f] w1] eqn:Hr.
  2: { intros [= <- <- <-]. left. eauto. }
  destruct (d ← node_deadline n; (d,.) <$> times_out d n snapshot w1) as [[d w2]|] eqn:Hto.
  { intros [= <- <- <-]. right. exists snapshot, w1. split; [done|]. left. exists d.
    destruct (node_deadline n) as [d'|]; [|done]. cbn in Hto.
    destruct (times_out d' n snapshot w1) eqn:Ht; cbn in Hto; [|done]. by injection Hto as -> ->. }
  destruct (dispatch_handler n snapshot g w1) as [[d after] w2] eqn:Hd. intros [= <- <- <-].
  right. exists snapshot, w1. split; [done|]. right. exists d, after. do 2 (split; [done|]).
  intros k. unfold apply_updates, context_diff. rewrite lookup_union, map_lookup_filter. cbn.
  destruct (durable_form after !! k) as [v|]; cbn; [|by destruct (c !! k)].
  destruct (snapshot !! k) as [old|]; cbn; [destruct (value_eqb old v)|]; cbn;
    repeat case_guard; try done; by destruct (c !! k).
Qed.
End workflow.

(** ** A concrete workflow, for the witnesses

    [start -> work -> exit] where [work] is a goal gate; the graph limits visits to
    three per node. *)
Module SampleWorkflow.
#[export] Instance table_order : HashOrder.
Proof. refine {| hash_iter := fun A m => map_to_list m |}. done. Defined.
#[export] Instance sample_json : JsonDisplay :=
  {| number_to_string := fun _ => ""; compound_to_string := fun _ => "" |}.
#[export] Instance sample_regex : Regex := {| re_valid := fun _ => true; re_is_match := fun p s => str_contains p s |}.
#[export] Instance sample_replace : RegexReplace := fun _ s _ => s.
#[export] Instance sample_dice : Dice nat := fun _ w => (f64_zero, w).
#[export] Instance sample_meta : OutcomeMeta unit := tt.
#[export] Instance sample_services : Services unit nat := {|
  handler_context := fun c w => (Ok c, w);
  edge_context := fun c w => (Ok c, w);
  durable_form := fun u => u;
  manages_timeout := fun _ => false;
  times_out := fun _ _ _ _ => None;
  dispatch_handler := fun n c _ w =>
    (Finished (Ok outcome_success), ctx_set (response_key (node_id n)) (JString "done") c, S w)
|}.
#[export] Instance sample_runtime : Runtime nat := {|
  elapsed := fun _ => 0;
  sleep := fun _ w => w;
  is_cancelled := fun _ => false;
  stall_race := fun _ _ _ => None;
  draw_jitter := fun w => (f64_of_Z 1, w)
|}.

Definition sample_node (id shape : string) (gate : bool) : Node :=
  mkNode id (<["shape" := AString shape]> {[ "goal_gate" := ABoolean gate ]}) [].

Definition sample_graph : Graph :=
  mkGraph "sample"
    (<["start" := sample_node "start" "Mdiamond" false]>
       (<["work" := sample_node "work" "box" true]> {[ "exit" := sample_node "exit" "Msquare" false ]}))
    [edge_new "start" "work"; edge_new "work" "exit"]
    {[ "max_node_visits" := AInteger 3 ]}.

Lemma sample_keyed : keyed_by_id sample_graph.
Proof.
  intros k n. cbn. intros Hk. repeat (apply lookup_insert_Some in Hk as [[<- <-]|[_ Hk]]; [done|]).
  by apply lookup_singleton_Some in Hk as [<- <-].
Qed.

Definition sample_start : Mach unit nat := mkMach (state_at "start") 0%nat [].

Lemma sample_fresh : fresh sample_start.
Proof. split; [done|apply wf_state_at]. Qed.

Definition sample_final : Mach unit nat :=
  match workflow_run NoopLifecycle sample_graph false 10 sample_start with
  | Some (_, m) => m
  | None => sample_start
  end.

Lemma sample_run : workflow_run NoopLifecycle sample_graph false 10 sample_start
  = Some (Val outcome_success, sample_final).
Proof. vm_compute. reflexivity. Qed.

Lemma workflow_run_terminates_witness :
  exists res, workflow_run NoopLifecycle sample_graph false
    (2 * Z.to_nat 3 * length (graph_ids sample_graph) + 2) sample_start = Some res.
Proof.
  apply (workflow_run_terminates NoopLifecycle sample_graph false 3 sample_start sample_keyed).
  - vm_compute. reflexivity.
  - exact sample_fresh.
  - intros id. vm_compute. discriminate.
Defined.

Lemma sample_jitter : jitter_fits (W := nat).
Proof.
  assert (forallb (fun b => forallb (fun att => match capped_delay b att with
      | Some d => is_some (mul_f64 d (f64_of_Z 1)) | None => true end) (seqZ 1 62)) engine_backoffs = true) as Hall
    by (vm_compute; reflexivity).
  intros b att d w Hb Hatt Hd. rewrite forallb_forall in Hall. apply list_elem_of_In in Hb.
  specialize (Hall b Hb). rewrite forallb_forall in Hall.
  assert (att ∈ seqZ 1 62) as Hin%list_elem_of_In by (apply elem_of_seqZ; lia). specialize (Hall att Hin).
  rewrite Hd in Hall. cbn [draw_jitter sample_runtime fst]. by destruct (mul_f64 d (f64_of_Z 1)).
Qed.

Lemma workflow_run_never_panics_witness : (Val outcome_success : ctl (Outcome unit)) <> Panicked.
Proof.
  refine (workflow_run_never_panics NoopLifecycle sample_graph false 10 sample_start sample_final _
           sample_jitter _ sample_run).
  intros id n Hn. cbn in Hn.
  repeat (apply lookup_insert_Some in Hn as [[_ <-]|[_ Hn]]; [vm_compute; discriminate|]).
  apply lookup_singleton_Some in Hn as [_ <-]. vm_compute. discriminate.
Defined.


Lemma triple_eta {A B C} (x : A * B * C) : x = (x.1.1, x.1.2, x.2).
Proof. by destruct x as [[? ?] ?]. Qed.

Definition sample_attempt : result (Outcome unit) CoreError * Context * nat :=
  execute_single_attempt (sample_node "work" "box" true) ∅ sample_graph 0%nat.

Lemma attempt_writes_back_changes_witness :
  sample_attempt.1.2 !! "response.work" = Some (JString "done").
Proof.
  destruct (attempt_writes_back_changes (M := unit) (sample_node "work" "box" true) ∅ sample_graph 0%nat _ _ _
              (triple_eta sample_attempt)) as [(f & Hf & _)|(snapshot & w1 & Hr & [(d & Hd & _)|(d & after & Hd & _ & Hk)])].
  - discriminate Hf.
  - discriminate Hd.
  - injection Hr as <- <-. injection Hd as <- <-. exact (Hk "response.work").
Defined.
End SampleWorkflow.
