(* ===== verification/CircuitBreaker.v ===== *)
(** * The circuit breaker (fabro-workflow/src/lifecycle/circuit_breaker.rs)

    A sub-lifecycle that counts failure signatures: a run whose node fails the same
    deterministic way [limit] times is stopped, and only transient failures may take
    a [loop_restart] edge.  Its two tables sit behind mutexes; they are the state
    [Breaker], which the callbacks thread through the world. *)

From S2P Require Import Prelude RustStr RustNum GraphTypes Context Outcome Core Failure Workflow.
Local Open Scope Z_scope.

Record Breaker := mkBreaker {
  loop_failure_signatures : gmap string Z;
  restart_failure_signatures : gmap string Z
}.

Definition breaker_new : Breaker := mkBreaker ∅ ∅.

(** [restore] and [snapshot]: checkpoints carry both tables. *)
Definition breaker_restore (loop_sigs restart_sigs : gmap string Z) : Breaker := mkBreaker loop_sigs restart_sigs.
Definition breaker_snapshot (b : Breaker) : gmap string Z * gmap string Z :=
  (loop_failure_signatures b, restart_failure_signatures b).

(** [*sigs.entry(sig).or_insert(0) += 1], and the new count. *)
Definition count_signature (sig : string) (sigs : gmap string Z) : Z * gmap string Z :=
  let count := default 0 (sigs !! sig) + 1 in (count, <[sig := count]> sigs).

Section breaker.
Context {M : Type} `{RegexReplace} (limit : Z).
Implicit Types (o : Outcome M) (b : Breaker).

Definition cycle_error (sig : string) (count : Z) : CoreError :=
  OtherError ("deterministic failure cycle detected: signature " +:+ sig +:+ " repeated "
              +:+ Z_to_string count +:+ " times (limit " +:+ Z_to_string limit +:+ ")").

(** The signature an outcome of node [id] is counted under, when it is counted. *)
Definition tracked_signature (id : string) o : option string :=
  fc ← (if is_failure (status o) then classified_failure_category o else None);
  if is_signature_tracked fc
  then Some (FailureSignature_new id fc (failure o ≫= signature) (failure_reason o))
  else None.

Definition breaker_after_node (n : Node) o b : result unit CoreError * Breaker :=
  match tracked_signature (node_id n) o with
  | None => (Ok tt, b)
  | Some sig =>
      let '(count, sigs) := count_signature sig (loop_failure_signatures b) in
      let b := mkBreaker sigs (restart_failure_signatures b) in
      if limit <=? count then (Err (cycle_error sig count), b) else (Ok tt, b)
  end.

Definition restart_blocked (fc : FailureCategory) o : string :=
  "loop_restart blocked: failure_class=" +:+ FailureCategory_to_string fc
  +:+ " (requires transient_infra), failure_reason=" +:+ default "none" (failure_reason o).

Definition restart_tripped (sig : string) (count : Z) : string :=
  "loop_restart circuit breaker: signature " +:+ sig +:+ " repeated " +:+ Z_to_string count
  +:+ " times (limit " +:+ Z_to_string limit +:+ ")".

Definition breaker_count_restart (from : string) o b : EdgeDecision * Breaker :=
  match failure o with
  | None => (EContinue, b)
  | Some f =>
      if is_signature_tracked (category f) then
        let sig := FailureSignature_new from (category f) (signature f) (Some (message f)) in
        let '(count, sigs) := count_signature sig (restart_failure_signatures b) in
        let b := mkBreaker (loop_failure_signatures b) sigs in
        if limit <=? count then (EBlock (restart_tripped sig count), b) else (EContinue, b)
      else (EContinue, b)
  end.

Definition breaker_on_edge_selected (x : EdgeContext Edge M) b : EdgeDecision * Breaker :=
  match ec_edge x with
  | None => (EContinue, b)
  | Some e =>
      if negb (loop_restart e) then (EContinue, b)
      else match classified_failure_category (ec_outcome x) with
           | Some fc =>
               if negb (bool_decide (fc = TransientInfra))
               then (EBlock (restart_blocked fc (ec_outcome x)), b)
               else breaker_count_restart (ec_from x) (ec_outcome x) b
           | None => breaker_count_restart (ec_from x) (ec_outcome x) b
           end
  end.

(** The lifecycle, in a world that holds the breaker. *)
Definition CircuitBreakerLifecycle {W} (get_breaker : W -> Breaker) (put : Breaker -> W -> W)
    : RunLifecycle Graph Node Edge M W :=
  let base : RunLifecycle Graph Node Edge M W := NoopLifecycle in
  mkLifecycle (on_run_start base) (on_terminal_reached base) (before_node base) (before_attempt base)
    (after_attempt base)
    (fun n r s w => let '(a, b) := breaker_after_node n (outcome r) (get_breaker w) in
                    (match a with Ok _ => Ok r | Err e => Err e end, st_context s, put b w))
    (after_record base)
    (fun x s w => let '(d, b) := breaker_on_edge_selected x (get_breaker w) in
                  (Ok d, st_context s, put b w))
    (on_checkpoint base) (on_run_end base).

(** ** Tripping *)

(** A sequence of finished nodes, until the breaker trips. *)
Fixpoint breaker_feed (l : list (Node * Outcome M)) b : result unit CoreError * Breaker :=
  match l with
  | [] => (Ok tt, b)
  | (n, o) :: l =>
      match breaker_after_node n o b with
      | (Ok _, b) => breaker_feed l b
      | (Err e, b) => (Err e, b)
      end
  end.

Fixpoint occurrences (sig : string) (l : list (Node * Outcome M)) : Z :=
  match l with
  | [] => 0
  | (n, o) :: l =>
      (if bool_decide (tracked_signature (node_id n) o = Some sig) then 1 else 0) + occurrences sig l
  end.

Lemma occurrences_nonneg sig l : 0 <= occurrences sig l.
Proof. induction l as [|[n o] l IH]; cbn; [lia|]. case_match; lia. Qed.

Definition seen b (sig : string) : Z := default 0 (loop_failure_signatures b !! sig).

Lemma breaker_after_node_spec n o b :
  match tracked_signature (node_id n) o with
  | None => breaker_after_node n o b = (Ok tt, b)
  | Some sig =>
      exists b', (breaker_after_node n o b).2 = b' /\
        is_ok (breaker_after_node n o b).1 = (seen b sig + 1 <? limit) /\
        restart_failure_signatures b' = restart_failure_signatures b /\
        (forall s, seen b' s = seen b s + if bool_decide (s = sig) then 1 else 0)
  end.
Proof.
  unfold breaker_after_node. destruct (tracked_signature (node_id n) o) as [sig|]; [|done].
  unfold count_signature. fold (seen b sig). eexists. split; [reflexivity|].
  assert (forall s, seen (mkBreaker (<[sig:=seen b sig + 1]> (loop_failure_signatures b))
      (restart_failure_signatures b)) s = seen b s + (if bool_decide (s = sig) then 1 else 0)) as Hs.
  { intros s. unfold seen at 1. cbn. case_bool_decide as E.
    - subst. by rewrite lookup_insert_eq.
    - rewrite lookup_insert_ne by done. fold (seen b s). lia. }
  destruct (Z.leb_spec limit (seen b sig + 1)); cbn; (split; [symmetry; rewrite ?Z.ltb_ge, ?Z.ltb_lt; lia|]);
    by split.
Qed.

Lemma breaker_feed_spec l b :
  (forall sig, seen b sig < limit) ->
  if is_ok (breaker_feed l b).1
  then forall sig, seen (breaker_feed l b).2 sig = seen b sig + occurrences sig l /\
                   seen b sig + occurrences sig l < limit
  else exists sig, limit <= seen b sig + occurrences sig l.
Proof.
  revert b. induction l as [|[n o] l IH]; intros b Hb; cbn [breaker_feed occurrences].
  { cbn. intros sig. specialize (Hb sig). lia. }
  pose proof (breaker_after_node_spec n o b) as Hspec.
  destruct (tracked_signature (node_id n) o) as [s0|] eqn:Ht.
  - destruct Hspec as (b' & Hb' & Hok & _ & Hseen).
    destruct (breaker_after_node n o b) as [[[]|e] b1]; cbn in Hb', Hok; subst b1.
    + symmetry in Hok. apply Z.ltb_lt in Hok.
      assert (forall sig, seen b' sig < limit) as Hb''.
      { intros sig. rewrite Hseen. specialize (Hb sig). case_bool_decide; [subst|]; lia. }
      specialize (IH b' Hb''). destruct (is_ok (breaker_feed l b').1).
      * intros sig. specialize (IH sig). rewrite Hseen in IH.
        rewrite (bool_decide_ext (Some s0 = Some sig) (sig = s0)) by naive_solver. lia.
      * destruct IH as [sig Hsig]. exists sig. rewrite Hseen in Hsig.
        rewrite (bool_decide_ext (Some s0 = Some sig) (sig = s0)) by naive_solver. lia.
    + cbn. symmetry in Hok. apply Z.ltb_ge in Hok. exists s0.
      rewrite bool_decide_eq_true_2 by done. pose proof (occurrences_nonneg s0 l). lia.
  - rewrite Hspec. specialize (IH b Hb). destruct (is_ok (breaker_feed l b).1).
    + intros sig. rewrite bool_decide_eq_false_2 by done. specialize (IH sig). lia.
    + destruct IH as [sig Hsig]. exists sig. rewrite bool_decide_eq_false_2 by done. lia.
Qed.

(** Fed the outcomes of the nodes of a run, the breaker stops it exactly when
    some tracked failure signature has occurred [limit] times; until then its table
    holds the number of occurrences of every signature. *)
Theorem breaker_trips_at_limit l :
  1 <= limit ->
  (is_ok (breaker_feed l breaker_new).1 = true <-> forall sig, occurrences sig l < limit) /\
  (is_ok (breaker_feed l breaker_new).1 = true ->
   forall sig, seen (breaker_feed l breaker_new).2 sig = occurrences sig l).
Proof.
  intros Hlim. assert (forall sig, seen breaker_new sig = 0) as H0
    by (intros sig; unfold seen; cbn; by rewrite lookup_empty).
  pose proof (breaker_feed_spec l breaker_new ltac:(intros sig; rewrite H0; lia)) as Hs.
  destruct (is_ok (breaker_feed l breaker_new).1).
  - split; [|intros _ sig; specialize (Hs sig); rewrite H0 in Hs; lia].
    split; [|done]. intros _ sig. specialize (Hs sig). rewrite H0 in Hs. lia.
  - split; [|done]. split; [done|]. intros Hall. destruct Hs as [sig Hsig]. specialize (Hall sig).
    rewrite H0 in Hsig. lia.
Qed.

(** A failed outcome may take a [loop_restart] edge only when its failure is
    transient, and the breaker never counts it: for failed outcomes the restart
    table is left as it is, so only outcomes that kept a failure without being
    failed (promoted or partial ones) can trip the restart breaker. *)
Theorem loop_restart_needs_transient_failure x b d b' :
  is_failure (status (ec_outcome x)) = true -> is_some_and loop_restart (ec_edge x) = true ->
  breaker_on_edge_selected x b = (d, b') ->
  b' = b /\ (d = EContinue <-> classified_failure_category (ec_outcome x) = Some TransientInfra).
Proof.
  intros Hf He. unfold breaker_on_edge_selected. apply is_some_and_true in He as (e & -> & ->). cbn [negb].
  unfold classified_failure_category. destruct (status (ec_outcome x)) eqn:Hs; cbn in Hf; try done.
  unfold failure_category. destruct (failure (ec_outcome x)) as [f|] eqn:Hfail; cbn.
  - case_bool_decide as Hc; cbn.
    + unfold breaker_count_restart. rewrite Hfail, Hc. cbn. by intros [= <- <-].
    + intros [= <- <-]. split; [done|]. split; [done|]. congruence.
  - intros [= <- <-]. split; [done|]. split; [done|]. congruence.
Qed.
End breaker.

(** ** Witnesses *)

Module BreakerWitness.
#[export] Instance keep_text : RegexReplace := fun _ s _ => s.
#[export] Instance unit_meta : OutcomeMeta unit := tt.

Definition failing : Node * Outcome unit := (node_new "work", outcome_fail "boom").

Lemma breaker_trips_at_limit_witness :
  ~ (forall sig, occurrences sig [failing; failing] < 2) /\ is_ok (breaker_feed 2 [failing; failing] breaker_new).1 = false.
Proof.
  destruct (breaker_trips_at_limit 2 [failing; failing] ltac:(lia)) as [Htrip _].
  assert (is_ok (breaker_feed 2 [failing; failing] breaker_new).1 = false) as Hf by (vm_compute; reflexivity).
  split; [|exact Hf]. intros Hall. apply Htrip in Hall. rewrite Hf in Hall. discriminate.
Defined.

Definition restart_edge : Edge := mkEdge "work" "start" {[ "loop_restart" := ABoolean true ]}.

Definition restart_context : EdgeContext Edge unit :=
  {| ec_from := "work"; ec_to := "start"; ec_edge := Some restart_edge; ec_is_jump := false;
     ec_outcome := outcome_fail "boom"; ec_reason := "condition" |}.

Lemma loop_restart_needs_transient_failure_witness :
  (breaker_on_edge_selected 3 restart_context breaker_new).1 <> EContinue.
Proof.
  destruct (breaker_on_edge_selected 3 restart_context breaker_new) as [d b'] eqn:He.
  destruct (loop_restart_needs_transient_failure 3 restart_context breaker_new d b' eq_refl eq_refl He) as [_ Hd].
  cbn. intros Hc. apply Hd in Hc. discriminate.
Defined.
End BreakerWitness.
