(* ===== verification/Stylesheet.v ===== *)
(** * Model stylesheets

    The parser (fabro-graphviz/src/stylesheet.rs) and the cascade
    (fabro-workflow/src/transforms/stylesheet.rs and stylesheet_application.rs).
    Errors carry what their message names. *)

From S2P Require Import Prelude RustStr RustNum GraphTypes.
Local Open Scope string_scope.

(** ** Syntax *)

Inductive Selector :=
| Universal
| SelShape (s : string)
| SelClass (s : string)
| SelId (s : string).

Definition specificity (s : Selector) : Z :=
  match s with
  | Universal => 0
  | SelShape _ => 1
  | SelClass _ => 2
  | SelId _ => 3
  end.

Record Declaration := mkDecl {
  decl_property : string;
  decl_value : string
}.

Record Rule := mkRule {
  rule_selector : Selector;
  rule_declarations : list Declaration
}.

Abbreviation Stylesheet := (list Rule).

Inductive StyleError :=
| UnterminatedComment (at_ : string)
| ExpectedBrace (at_ : string)
| ExpectedIdentifier
| ExpectedClassName
| ExpectedSelector (at_ : string)
| StyleUnexpectedEnd
| ExpectedColon (property : string)
| EmptyValue (property : string).

#[export] Instance Selector_eq_dec : EqDecision Selector.
Proof. solve_decision. Defined.
#[export] Instance Declaration_eq_dec : EqDecision Declaration.
Proof. solve_decision. Defined.
#[export] Instance Rule_eq_dec : EqDecision Rule.
Proof. solve_decision. Defined.
#[export] Instance StyleError_eq_dec : EqDecision StyleError.
Proof. solve_decision. Defined.

(** ** Comments *)

Definition excerpt (s : string) : string := take_chars 20 s.

(** Each comment becomes one space; every round consumes at least the four
    characters of the comment's brackets. *)
Fixpoint strip_css_comments_go (fuel : nat) (output remaining : string) : result string StyleError :=
  match fuel with
  | O => Ok (output ++ remaining)
  | S fuel =>
      match split_once "/*" remaining with
      | None => Ok (output ++ remaining)
      | Some (before, body) =>
          match split_once "*/" body with
          | None => Err (UnterminatedComment (excerpt ("/*" ++ body)))
          | Some (_, rest) => strip_css_comments_go fuel (output ++ before ++ " ") rest
          end
      end
  end.

Definition strip_css_comments (input : string) : result string StyleError :=
  strip_css_comments_go (String.length input) "" input.

(** ** Selectors and declarations *)

Definition is_name_char (c : ascii) : bool :=
  (is_ascii_alphanumeric c || Ascii.eqb c "_" || Ascii.eqb c "-")%bool.

Definition is_class_char (c : ascii) : bool :=
  (is_ascii_lowercase c || is_ascii_digit c || Ascii.eqb c "-")%bool.

(** A name, at least one character long. *)
Definition parse_name (f : ascii -> bool) (err : StyleError) (s : string) : result (string * string) StyleError :=
  let '(name, rest) := str_span f s in
  if str_is_empty name then Err err else Ok (name, trim rest).

Definition parse_selector (s : string) : result (Selector * string) StyleError :=
  let named (mk : string -> Selector) r := result_bind r (fun '(name, rest) => Ok (mk name, rest)) in
  match s with
  | String "*" r => Ok (Universal, trim r)
  | String "#" r => named SelId (parse_name is_name_char ExpectedIdentifier (trim r))
  | String "." r => named SelClass (parse_name is_class_char ExpectedClassName (trim r))
  | _ => named SelShape (parse_name is_name_char (ExpectedSelector (excerpt s)) s)
  end.

Definition is_property_char (c : ascii) : bool := negb (Ascii.eqb c ":" || is_whitespace c).
Definition is_value_char (c : ascii) : bool := negb (Ascii.eqb c ";" || Ascii.eqb c "}").

(** One declaration of a text that starts neither with [}] nor with [;]. *)
Definition parse_declaration (s : string) : result (Declaration * string) StyleError :=
  let '(property, r) := str_span is_property_char s in
  match trim r with
  | String ":" r =>
      let '(value, r) := str_span is_value_char (trim r) in
      let value := trim value in
      let r := trim r in
      if str_is_empty value then Err (EmptyValue property)
      else Ok (mkDecl property value, match r with String ";" r => trim r | _ => r end)
  | _ => Err (ExpectedColon property)
  end.

(** The text left by a successful call starts with the closing brace. *)
Fixpoint parse_declarations (fuel : nat) (acc : list Declaration) (s : string)
    : result (list Declaration * string) StyleError :=
  match fuel with
  | O => Err StyleUnexpectedEnd
  | S fuel =>
      match s with
      | String "}" _ => Ok (acc, s)
      | "" => Err StyleUnexpectedEnd
      | String ";" r => parse_declarations fuel acc (trim r)
      | _ => result_bind (parse_declaration s) (fun '(d, r) => parse_declarations fuel (acc ++ [d])%list r)
      end
  end.

Definition parse_rule (s : string) : result (Rule * string) StyleError :=
  result_bind (parse_selector s) (fun '(sel, r) =>
  match r with
  | String "{" r =>
      let r := trim r in
      result_bind (parse_declarations (S (String.length r)) [] r) (fun '(ds, r) =>
      Ok (mkRule sel ds, match r with String _ r => trim r | "" => "" end))
  | _ => Err (ExpectedBrace (excerpt r))
  end).

Fixpoint parse_rules (fuel : nat) (acc : Stylesheet) (s : string) : result Stylesheet StyleError :=
  match fuel with
  | O => Ok acc
  | S fuel =>
      let s := trim s in
      if str_is_empty s then Ok acc
      else result_bind (parse_rule s) (fun '(rule, r) => parse_rules fuel (acc ++ [rule])%list r)
  end.

Definition parse_stylesheet (input : string) : result Stylesheet StyleError :=
  result_bind (strip_css_comments input) (fun text =>
  let text := trim text in
  if str_is_empty text then Ok [] else parse_rules (S (String.length text)) [] text).

(** ** The cascade *)

Definition STYLESHEET_PROPERTIES : list string :=
  ["model"; "provider"; "reasoning_effort"; "speed"; "backend"].

(** [sort_by_key] is stable and the keys are 0 to 3. *)
Definition sort_by_specificity (rules : Stylesheet) : Stylesheet :=
  let at_ k := filterb (fun r => Z.eqb (specificity (rule_selector r)) k) rules in
  (at_ 0%Z ++ at_ 1%Z ++ at_ 2%Z ++ at_ 3%Z)%list.

Definition selector_matches (id : string) (n : Node) (s : Selector) : bool :=
  match s with
  | Universal => true
  | SelShape shape => String.eqb (node_shape n) shape
  | SelClass cls => str_mem cls (node_classes n)
  | SelId i => String.eqb id i
  end.

Abbreviation Applied := (gmap string (string * Z)).

Definition apply_decl (spec : Z) (applied : Applied) (d : Declaration) : Applied :=
  if str_mem (decl_property d) STYLESHEET_PROPERTIES then
    match applied !! decl_property d with
    | Some (_, existing) =>
        if Z.ltb spec existing then applied else <[decl_property d := (decl_value d, spec)]> applied
    | None => <[decl_property d := (decl_value d, spec)]> applied
    end
  else applied.

Definition apply_rule (id : string) (n : Node) (applied : Applied) (r : Rule) : Applied :=
  if selector_matches id n (rule_selector r)
  then fold_left (apply_decl (specificity (rule_selector r))) (rule_declarations r) applied
  else applied.

Definition applied_properties (ss : Stylesheet) (id : string) (n : Node) : Applied :=
  fold_left (apply_rule id n) (sort_by_specificity ss) ∅.

(** Only absent attributes are inserted. *)
Definition style_node (ss : Stylesheet) (id : string) (n : Node) : Node :=
  mkNode (node_id n) (node_attrs n ∪ ((fun vs => AString vs.1) <$> applied_properties ss id n)) (node_classes n).

Definition apply_stylesheet `{HashOrder} (ss : Stylesheet) (g : Graph) : Graph :=
  let nodes := fold_left (fun nodes id =>
                 match nodes !! id with
                 | Some n => <[id := style_node ss id n]> nodes
                 | None => nodes
                 end) (hash_keys (graph_nodes g)) (graph_nodes g) in
  mkGraph (graph_name g) nodes (graph_edges g) (graph_attrs g).

(** [StylesheetApplicationTransform::apply]: a text that does not parse changes
    nothing. *)
Definition stylesheet_transform `{HashOrder} (g : Graph) : Graph :=
  if str_is_empty (model_stylesheet g) then g
  else match parse_stylesheet (model_stylesheet g) with
       | Ok ss => apply_stylesheet ss g
       | Err _ => g
       end.

(** ** Stylesheets: round trip and cascade *)


(** ** Printing *)

Definition print_selector (s : Selector) : string :=
  match s with
  | Universal => "*"
  | SelShape n => n
  | SelClass n => "." +:+ n
  | SelId n => "#" +:+ n
  end.

Definition print_declaration (d : Declaration) : string :=
  decl_property d +:+ ":" +:+ decl_value d +:+ ";".

Definition concat_str (l : list string) : string := foldr String.append "" l.

Definition print_rule (r : Rule) : string :=
  print_selector (rule_selector r) +:+ "{" +:+ concat_str (print_declaration <$> rule_declarations r) +:+ "}".

Definition print_stylesheet (ss : Stylesheet) : string := concat_str (print_rule <$> ss).

(** The stylesheets the printer covers. *)
Definition printable_selector (s : Selector) : Prop :=
  match s with
  | Universal => True
  | SelShape n | SelId n => n <> "" /\ str_forall is_name_char n = true
  | SelClass n => n <> "" /\ str_forall is_class_char n = true
  end.

Definition printable_declaration (d : Declaration) : Prop :=
  decl_property d <> "" /\ str_forall is_property_char (decl_property d) = true /\
  starts_with ";" (decl_property d) = false /\ starts_with "}" (decl_property d) = false /\
  decl_value d <> "" /\ str_forall is_value_char (decl_value d) = true /\ trimmed (decl_value d).

Definition printable_rule (r : Rule) : Prop :=
  printable_selector (rule_selector r) /\ Forall printable_declaration (rule_declarations r).

(** ** Reading the printed text back *)

(** Texts that end with a closing brace and start with something solid. *)
Definition solid (s : string) : Prop := exists c a, s = String c a /\ is_whitespace c = false /\
  exists b, s = b +:+ "}".

Lemma solid_trimmed s : solid s -> trim s = s.
Proof.
  intros (c & a & -> & Hc & b & Hb). apply trim_solid; [done|]. rewrite Hb. by rewrite trim_end_append.
Qed.

Lemma solid_prefix c a s : is_whitespace c = false -> (exists b, s = b +:+ "}") -> solid (String c a +:+ s).
Proof.
  intros Hc [b ->]. exists c, (a +:+ b +:+ "}"). split; [done|]. split; [done|].
  exists (String c a +:+ b). by rewrite append_assoc.
Qed.

Lemma ends_brace_app a s : (exists b, s = b +:+ "}") -> exists b, a +:+ s = b +:+ "}".
Proof. intros [b ->]. exists (a +:+ b). by rewrite append_assoc. Qed.

Lemma name_char_props c : is_name_char c = true ->
  is_whitespace c = false /\ (Ascii.eqb c "*" || Ascii.eqb c "#" || Ascii.eqb c "." || Ascii.eqb c "{")%bool = false.
Proof.
  destruct c as [[] [] [] [] [] [] [] []]; vm_compute; intros; try discriminate; done.
Qed.

Lemma class_char_name c : is_class_char c = true -> is_name_char c = true.
Proof.
  destruct c as [[] [] [] [] [] [] [] []]; vm_compute; intros; try discriminate; done.
Qed.

Lemma parse_name_spec f err name rest :
  name <> "" -> str_forall f name = true -> f "{"%char = false -> solid (String "{" rest) ->
  parse_name f err (name +:+ String "{" rest) = Ok (name, String "{" rest).
Proof.
  intros Hne Hall Hf Hs. unfold parse_name. rewrite str_span_forall; [|done|].
  - destruct name; [done|]. cbn [str_is_empty String.eqb]. by rewrite solid_trimmed.
  - right. by exists "{"%char, rest.
Qed.

Lemma parse_selector_spec s rest :
  printable_selector s -> solid (String "{" rest) ->
  parse_selector (print_selector s +:+ String "{" rest) = Ok (s, String "{" rest).
Proof.
  intros Hp Hs. pose proof Hs as Hs0. destruct Hs0 as (_ & _ & _ & _ & Hb).
  assert (forall n, n <> "" -> str_forall is_name_char n = true ->
    trim (n +:+ String "{" rest) = n +:+ String "{" rest) as Htrim.
  { intros [|c n] Hne Hall; [done|]. cbn in Hall. apply andb_true_iff in Hall as [Hc _].
    apply solid_trimmed, solid_prefix; [|done]. by apply name_char_props. }
  destruct s as [|n|n|n]; cbn [print_selector printable_selector] in *.
  - change (parse_selector ("*" +:+ String "{" rest)) with (@Ok _ StyleError (Universal, trim (String "{" rest))).
    by rewrite solid_trimmed.
  - destruct Hp as [Hne Hall]. destruct n as [|c n]; [done|].
    assert (parse_selector (String c n +:+ String "{" rest) = result_bind
      (parse_name is_name_char (ExpectedSelector (excerpt (String c n +:+ String "{" rest)))
         (String c n +:+ String "{" rest)) (fun '(name, r) => Ok (SelShape name, r))) as ->.
    { cbn in Hall. apply andb_true_iff in Hall as [Hc _]. apply name_char_props in Hc as [_ Hc].
      rewrite append_cons. unfold parse_selector.
      destruct c as [[] [] [] [] [] [] [] []]; first [reflexivity | discriminate Hc]. }
    by rewrite parse_name_spec.
  - destruct Hp as [Hne Hall]. rewrite append_assoc.
    change (parse_selector ("." +:+ n +:+ String "{" rest)) with (result_bind
      (parse_name is_class_char ExpectedClassName (trim (n +:+ String "{" rest)))
      (fun '(name, r) => Ok (SelClass name, r))).
    rewrite Htrim.
    + by rewrite parse_name_spec.
    + done.
    + revert Hall. apply str_forall_impl, class_char_name.
  - destruct Hp as [Hne Hall]. rewrite append_assoc.
    change (parse_selector ("#" +:+ n +:+ String "{" rest)) with (result_bind
      (parse_name is_name_char ExpectedIdentifier (trim (n +:+ String "{" rest)))
      (fun '(name, r) => Ok (SelId name, r))).
    rewrite Htrim by done. by rewrite parse_name_spec.
Qed.

Lemma value_char_trim v rest :
  v <> "" -> trimmed v -> (exists b, rest = b +:+ "}") -> trim (v +:+ rest) = v +:+ rest.
Proof.
  intros Hne Ht Hr. destruct v as [|c v]; [done|]. apply solid_trimmed, solid_prefix; [|done].
  by eapply trimmed_head.
Qed.

Lemma parse_declaration_spec d rest :
  printable_declaration d -> solid rest -> starts_with ";" rest = false ->
  parse_declaration (print_declaration d +:+ rest) = Ok (d, rest).
Proof.
  intros (Hp0 & Hp & _ & _ & Hv0 & Hv & Ht) Hr Hsemi. destruct d as [p v]. cbn in *.
  pose proof Hr as (_ & _ & _ & _ & Hb).
  unfold print_declaration, parse_declaration. cbn. rewrite !append_assoc.
  rewrite str_span_forall; [|done|right; by exists ":"%char, (v +:+ ";" +:+ rest)].
  assert (exists b, ";" +:+ rest = b +:+ "}") as Hb1 by (by apply ends_brace_app).
  assert (trim (":" +:+ v +:+ ";" +:+ rest) = ":" +:+ v +:+ ";" +:+ rest) as ->.
  { apply solid_trimmed, (solid_prefix ":" ""); [done|]. by apply ends_brace_app. }
  change (":" +:+ v +:+ ";" +:+ rest) with (String ":" (v +:+ ";" +:+ rest)). cbn [Ascii.eqb].
  rewrite (value_char_trim v) by done.
  rewrite str_span_forall; [|done|right; by exists ";"%char, rest].
  rewrite Ht. destruct v as [|c v]; [done|]. cbn [str_is_empty String.eqb].
  assert (trim (";" +:+ rest) = String ";" rest) as ->.
  { apply (solid_trimmed (";" +:+ rest)), (solid_prefix ";" ""); done. }
  by rewrite solid_trimmed.
Qed.

Definition print_declarations (ds : list Declaration) : string := concat_str (print_declaration <$> ds).

Lemma print_declarations_cons d ds :
  print_declarations (d :: ds) = print_declaration d +:+ print_declarations ds.
Proof. done. Qed.

(** The text of a declaration list and what closes it. *)
Lemma declarations_solid ds rest :
  Forall printable_declaration ds -> (rest = "" \/ exists b, rest = b +:+ "}") ->
  solid (print_declarations ds +:+ String "}" rest) /\
  starts_with ";" (print_declarations ds +:+ String "}" rest) = false.
Proof.
  intros Hds Hr.
  assert (exists b, String "}" rest = b +:+ "}") as Hend.
  { destruct Hr as [->|[b ->]]; [by exists ""|]. by exists ("}" +:+ b). }
  destruct Hds as [|d ds (Hp0 & Hp & Hsemi & _) Hds].
  - split; [|done]. exists "}"%char, rest. done.
  - rewrite print_declarations_cons. destruct d as [p v]; cbn in *. destruct p as [|c p]; [done|].
    unfold print_declaration. cbn. rewrite !append_assoc. split.
    + apply solid_prefix; [|by repeat apply ends_brace_app].
      cbn in Hp. apply andb_true_iff in Hp as [Hc _]. unfold is_property_char in Hc.
      by destruct (is_whitespace c); [rewrite orb_true_r in Hc|].
    + rewrite append_cons. unfold starts_with in *. cbn [strip_prefix] in *.
      destruct (Ascii.eqb ";" c); [done|done].
Qed.

Lemma parse_declarations_spec ds acc rest fuel :
  Forall printable_declaration ds -> (rest = "" \/ exists b, rest = b +:+ "}") ->
  (length ds < fuel)%nat ->
  parse_declarations fuel acc (print_declarations ds +:+ String "}" rest)
  = Ok ((acc ++ ds)%list, String "}" rest).
Proof.
  intros Hds Hr. revert acc fuel. induction Hds as [|d ds Hd Hds IH]; intros acc fuel Hf.
  - destruct fuel as [|fuel]; [cbn in Hf; lia|]. cbn. by rewrite app_nil_r.
  - destruct fuel as [|fuel]; cbn in Hf; [lia|]. rewrite print_declarations_cons, append_assoc.
    destruct (declarations_solid ds rest Hds Hr) as [Hsol Hsemi].
    pose proof (parse_declaration_spec d _ Hd Hsol Hsemi) as Hone.
    destruct Hd as (Hp0 & Hp & Hs1 & Hs2 & _). destruct d as [p v]; cbn in Hp0, Hp, Hs1, Hs2.
    destruct p as [|c p]; [done|].
    assert (forall s, parse_declarations (S fuel) acc (String c s) = result_bind (parse_declaration (String c s))
       (fun '(d, r) => parse_declarations fuel (acc ++ [d])%list r)) as Hstep.
    { intros s. unfold starts_with in Hs1, Hs2. cbn [strip_prefix] in Hs1, Hs2. cbn [parse_declarations].
      destruct c as [[] [] [] [] [] [] [] []]; first [reflexivity | discriminate Hs1 | discriminate Hs2]. }
    change (print_declaration (mkDecl (String c p) v) +:+ (print_declarations ds +:+ String "}" rest))
      with (String c ((p +:+ ":" +:+ v +:+ ";") +:+ (print_declarations ds +:+ String "}" rest))) in *.
    rewrite Hstep, Hone. cbn [result_bind]. rewrite IH by lia. by rewrite <- app_assoc.
Qed.

Lemma print_declarations_length ds :
  (length ds <= String.length (print_declarations ds))%nat.
Proof.
  induction ds as [|d ds IH]; [cbn; lia|]. rewrite print_declarations_cons, length_append.
  unfold print_declaration. rewrite !length_append. cbn [length String.length]. lia.
Qed.

Lemma print_rule_eq r :
  print_rule r = print_selector (rule_selector r) +:+ String "{" (print_declarations (rule_declarations r) +:+ "}").
Proof. done. Qed.

Lemma parse_rule_spec r rest :
  printable_rule r -> trim rest = rest -> (rest = "" \/ exists b, rest = b +:+ "}") ->
  parse_rule (print_rule r +:+ rest) = Ok (r, rest).
Proof.
  intros [Hsel Hds] Ht Hr. destruct r as [sel ds]; cbn [rule_selector rule_declarations] in *.
  rewrite print_rule_eq. cbn [rule_selector rule_declarations].
  rewrite append_assoc, append_cons, append_assoc. change ("}" +:+ rest) with (String "}" rest).
  destruct (declarations_solid ds rest Hds Hr) as [Hsol _].
  unfold parse_rule. rewrite parse_selector_spec; [|done|].
  - cbn [result_bind]. rewrite (solid_trimmed _ Hsol). rewrite parse_declarations_spec; [|done|done|].
    + cbn [result_bind app]. by rewrite Ht.
    + pose proof (print_declarations_length ds). rewrite length_append. lia.
  - apply (solid_prefix "{" ""); [done|]. destruct Hsol as (_ & _ & _ & _ & Hb). done.
Qed.

Lemma rules_solid ss :
  Forall printable_rule ss -> print_stylesheet ss = "" /\ ss = [] \/ solid (print_stylesheet ss).
Proof.
  intros Hss. induction Hss as [|r ss [Hsel Hds] Hss IH]; [by left|]. right.
  unfold print_stylesheet. cbn [fmap list_fmap concat_str foldr]. fold (concat_str (print_rule <$> ss)).
  fold (print_stylesheet ss).
  assert (exists b, print_rule r +:+ print_stylesheet ss = b +:+ "}") as [b Hb].
  { destruct IH as [[-> _]|(_ & _ & _ & _ & b & ->)].
    - rewrite append_nil_r, print_rule_eq. apply ends_brace_app, (ends_brace_app "{"). by eexists.
    - rewrite <- append_assoc. by eexists. }
  assert (exists c a, print_rule r = String c a /\ is_whitespace c = false) as (c & a & Hr & Hc).
  { rewrite print_rule_eq. destruct (rule_selector r) as [|n|n|n]; cbn [print_selector printable_selector] in *.
    - by eexists _, _.
    - destruct Hsel as [Hne Hall]. destruct n as [|c n]; [done|]. eexists _, _. split; [done|].
      cbn in Hall. apply andb_true_iff in Hall as [Hc _]. by apply name_char_props.
    - by eexists _, _.
    - by eexists _, _. }
  exists c, (a +:+ print_stylesheet ss). rewrite Hr in *. split; [done|]. split; [done|]. by exists b.
Qed.

Lemma rules_trimmed ss : Forall printable_rule ss ->
  trim (print_stylesheet ss) = print_stylesheet ss /\
  (print_stylesheet ss = "" \/ exists b, print_stylesheet ss = b +:+ "}").
Proof.
  intros Hss. destruct (rules_solid ss Hss) as [[-> _]|Hs]; [by split; [|left]|].
  split; [by apply solid_trimmed|]. right. by destruct Hs as (_ & _ & _ & _ & ?).
Qed.

Lemma parse_rules_spec ss acc fuel :
  Forall printable_rule ss -> (length ss < fuel)%nat ->
  parse_rules fuel acc (print_stylesheet ss) = Ok (acc ++ ss)%list.
Proof.
  intros Hss. revert acc fuel. induction Hss as [|r ss Hr Hss IH]; intros acc fuel Hf.
  - destruct fuel; [cbn in Hf; lia|]. cbn. by rewrite app_nil_r.
  - destruct fuel as [|fuel]; [cbn in Hf; lia|]. cbn [parse_rules].
    destruct (rules_trimmed (r :: ss)) as [Htrim _]; [by constructor|]. rewrite Htrim.
    destruct (rules_solid (r :: ss)) as [[_ ?]|(c & a & Hca & _)]; [by constructor|done|].
    rewrite Hca. cbn [str_is_empty String.eqb]. rewrite <- Hca.
    destruct (rules_trimmed ss Hss) as [Ht He].
    change (print_stylesheet (r :: ss)) with (print_rule r +:+ print_stylesheet ss).
    rewrite parse_rule_spec by done. cbn [result_bind]. rewrite IH by (cbn in Hf; lia).
    by rewrite <- app_assoc.
Qed.

Lemma print_stylesheet_length ss : (length ss <= String.length (print_stylesheet ss))%nat.
Proof.
  induction ss as [|r ss IH]; [cbn; lia|].
  change (print_stylesheet (r :: ss)) with (print_rule r +:+ print_stylesheet ss).
  rewrite length_append, print_rule_eq, length_append. cbn [length String.length]. lia.
Qed.

Lemma split_once_contains pat s : str_contains pat s = false -> split_once pat s = None.
Proof. unfold str_contains. by destruct (split_once pat s). Qed.

Lemma strip_css_comments_none s : str_contains "/*" s = false -> strip_css_comments s = Ok s.
Proof.
  intros Hc. apply split_once_contains in Hc. unfold strip_css_comments.
  destruct (String.length s); cbn [strip_css_comments_go]; by rewrite ?Hc.
Qed.

(** Printing a stylesheet and parsing the text gives its rules back, in order,
    with every selector and declaration, whenever the text holds no comment
    bracket. *)
Theorem parse_print_stylesheet ss :
  Forall printable_rule ss -> str_contains "/*" (print_stylesheet ss) = false ->
  parse_stylesheet (print_stylesheet ss) = Ok ss.
Proof.
  intros Hss Hc. unfold parse_stylesheet. rewrite strip_css_comments_none by done. cbn [result_bind].
  destruct (rules_trimmed ss Hss) as [-> _].
  destruct (rules_solid ss Hss) as [[-> ->]|(c & a & Hca & _)]; [done|].
  rewrite Hca at 1. cbn [str_is_empty String.eqb].
  apply (parse_rules_spec ss []); [done|]. pose proof (print_stylesheet_length ss). lia.
Qed.

(** ** The cascade *)

Section cascade.
Variable (p : string).
Hypothesis p_known : str_mem p STYLESHEET_PROPERTIES = true.

(** The values that the matching rules give to [p], in order, with the specificity
    of their rule. *)
Definition rule_values (id : string) (n : Node) (r : Rule) : list (string * Z) :=
  if selector_matches id n (rule_selector r)
  then (fun d => (decl_value d, specificity (rule_selector r))) <$>
         filterb (fun d => String.eqb (decl_property d) p) (rule_declarations r)
  else [].

Definition values_for (id : string) (n : Node) (ss : Stylesheet) : list (string * Z) :=
  concat (rule_values id n <$> ss).

(** The last of the most specific. *)
Definition wins (l : list (string * Z)) (vs : string * Z) : Prop :=
  last (filterb (fun x => Z.eqb x.2 vs.2) l) = Some vs /\ forall x, x ∈ l -> (x.2 <= vs.2)%Z.

Definition best_step (best : option (string * Z)) (vs : string * Z) : option (string * Z) :=
  match best with
  | Some (v, s) => if Z.ltb vs.2 s then Some (v, s) else Some vs
  | None => Some vs
  end.

Definition best_of (l : list (string * Z)) (best : option (string * Z)) : option (string * Z) :=
  fold_left best_step l best.

Lemma best_of_wins l : match best_of l None with
                       | Some vs => wins l vs
                       | None => l = []
                       end.
Proof.
  induction l as [|x l IH] using rev_ind; [done|]. unfold best_of in *. rewrite fold_left_app. cbn.
  assert (forall y, y ∈ (l ++ [x])%list <-> y ∈ l \/ y = x) as Hin.
  { intros y. rewrite elem_of_app. by rewrite list_elem_of_singleton. }
  assert (wins [x] x) as Hx.
  { unfold wins. cbn. rewrite Z.eqb_refl. split; [done|]. intros y ->%list_elem_of_singleton. lia. }
  destruct (fold_left best_step l None) as [[v s]|]; cbn.
  - destruct IH as [Hlast Hle]. cbn in Hlast, Hle. destruct (Z.ltb_spec x.2 s) as [Hlt|Hge].
    + split; cbn.
      * rewrite filterb_app. cbn. rewrite (proj2 (Z.eqb_neq _ _)) by lia. by rewrite app_nil_r.
      * intros y [Hy| ->]%Hin; [by apply Hle|lia].
    + split.
      * rewrite filterb_app. cbn. rewrite Z.eqb_refl. apply last_snoc.
      * intros y [Hy| ->]%Hin; [|lia]. specialize (Hle y Hy). lia.
  - subst l. exact Hx.
Qed.

Lemma apply_decls_lookup spec ds applied :
  fold_left (apply_decl spec) ds applied !! p
  = best_of ((fun d => (decl_value d, spec)) <$> filterb (fun d => String.eqb (decl_property d) p) ds) (applied !! p).
Proof.
  revert applied. induction ds as [|d ds IH]; intros applied; [done|].
  cbn [fold_left]. rewrite IH. cbn [filterb List.filter]. unfold apply_decl.
  destruct (String.eqb_spec (decl_property d) p) as [->|Hne].
  - rewrite p_known. cbn. destruct (applied !! p) as [[v s]|] eqn:Ha; cbn.
    + destruct (Z.ltb spec s); [by rewrite Ha|]. by rewrite lookup_insert_eq.
    + by rewrite lookup_insert_eq.
  - destruct (str_mem (decl_property d) STYLESHEET_PROPERTIES); [|done].
    destruct (applied !! decl_property d) as [[v s]|]; [destruct (Z.ltb spec s); [done|]|];
      by rewrite lookup_insert_ne.
Qed.

Lemma best_of_app l1 l2 best : best_of (l1 ++ l2)%list best = best_of l2 (best_of l1 best).
Proof. apply fold_left_app. Qed.

Lemma apply_rules_lookup id n ss applied :
  fold_left (apply_rule id n) ss applied !! p = best_of (values_for id n ss) (applied !! p).
Proof.
  revert applied. induction ss as [|r ss IH]; intros applied; [done|].
  cbn [fold_left]. rewrite IH. unfold values_for. cbn [fmap list_fmap concat].
  fold (values_for id n ss). rewrite best_of_app. f_equal. unfold apply_rule, rule_values.
  destruct (selector_matches id n (rule_selector r)); [|done]. apply apply_decls_lookup.
Qed.

Lemma values_for_app id n a b : values_for id n (a ++ b)%list = (values_for id n a ++ values_for id n b)%list.
Proof. unfold values_for. by rewrite fmap_app, concat_app. Qed.

Lemma rule_values_spec id n r x : x ∈ rule_values id n r -> x.2 = specificity (rule_selector r).
Proof.
  unfold rule_values. destruct (selector_matches _ _ _); [|by intros ?%not_elem_of_nil].
  by intros (d & -> & _)%list_elem_of_fmap.
Qed.

(** Values of specificity [k] come from the rules of specificity [k]. *)
Lemma values_filter id n ss k :
  filterb (fun x => Z.eqb x.2 k) (values_for id n ss)
  = values_for id n (filterb (fun r => Z.eqb (specificity (rule_selector r)) k) ss).
Proof.
  induction ss as [|r ss IH]; [done|].
  change (r :: ss) with ([r] ++ ss)%list. rewrite values_for_app, !filterb_app, IH, values_for_app. f_equal.
  unfold values_for. cbn. rewrite app_nil_r.
  destruct (Z.eqb_spec (specificity (rule_selector r)) k) as [Hk|Hk]; cbn; rewrite ?app_nil_r.
  - apply filterb_all. intros x Hx%rule_values_spec. by apply Z.eqb_eq; rewrite Hx.
  - apply filterb_nil. intros x Hx%rule_values_spec. apply Z.eqb_neq. congruence.
Qed.

Lemma filterb_twice {A} (f : A -> Z) j k l :
  filterb (fun x => Z.eqb (f x) k) (filterb (fun x => Z.eqb (f x) j) l)
  = if Z.eqb j k then filterb (fun x => Z.eqb (f x) k) l else [].
Proof.
  destruct (Z.eqb_spec j k) as [->|Hne].
  - apply filterb_all. by intros x [_ ?]%filterb_elem.
  - apply filterb_nil. intros x [_ Hx]%filterb_elem. apply Z.eqb_eq in Hx. apply Z.eqb_neq. congruence.
Qed.

Lemma sort_filter ss k : (0 <= k <= 3)%Z ->
  filterb (fun r => Z.eqb (specificity (rule_selector r)) k) (sort_by_specificity ss)
  = filterb (fun r => Z.eqb (specificity (rule_selector r)) k) ss.
Proof.
  intros Hk. unfold sort_by_specificity. rewrite !filterb_app.
  rewrite !(filterb_twice (fun r => specificity (rule_selector r))).
  assert (k = 0 \/ k = 1 \/ k = 2 \/ k = 3)%Z as [->|[->|[->| ->]]] by lia; cbn; by rewrite ?app_nil_r.
Qed.

Lemma specificity_range s : (0 <= specificity s <= 3)%Z.
Proof. destruct s; cbn; lia. Qed.

Lemma values_for_elem id n ss x :
  x ∈ values_for id n ss <-> exists r, r ∈ ss /\ x ∈ rule_values id n r.
Proof.
  unfold values_for. rewrite list_elem_of_In, in_concat. split.
  - intros (l & Hl & Hx). apply list_elem_of_In, list_elem_of_fmap in Hl as (r & -> & Hr).
    exists r. split; [done|by apply list_elem_of_In].
  - intros (r & Hr & Hx). exists (rule_values id n r). split; [|by apply list_elem_of_In].
    apply list_elem_of_In, list_elem_of_fmap. eauto.
Qed.

Lemma sort_elem ss r : r ∈ sort_by_specificity ss <-> r ∈ ss.
Proof.
  unfold sort_by_specificity. rewrite !elem_of_app, !filterb_elem, !Z.eqb_eq.
  pose proof (specificity_range (rule_selector r)). split; [tauto|]. intros Hr.
  assert (specificity (rule_selector r) = 0 \/ specificity (rule_selector r) = 1 \/
          specificity (rule_selector r) = 2 \/ specificity (rule_selector r) = 3)%Z by lia. tauto.
Qed.

Lemma wins_sort id n ss vs :
  wins (values_for id n (sort_by_specificity ss)) vs -> wins (values_for id n ss) vs.
Proof.
  intros [Hlast Hle].
  assert (forall x, x ∈ values_for id n ss -> (x.2 <= vs.2)%Z) as Hle'.
  { intros x (r & Hr & Hx)%values_for_elem. apply Hle, values_for_elem. exists r. by rewrite sort_elem. }
  split; [|done]. rewrite values_filter in *. rewrite sort_filter in Hlast; [done|].
  assert (vs ∈ values_for id n (filterb (fun r => Z.eqb (specificity (rule_selector r)) vs.2) (sort_by_specificity ss)))
    as (r & _ & Hvs)%values_for_elem by (by apply last_Some_elem_of).
  apply rule_values_spec in Hvs. rewrite Hvs. apply specificity_range.
Qed.

Lemma applied_wins id n ss :
  match applied_properties ss id n !! p with
  | Some vs => wins (values_for id n ss) vs
  | None => values_for id n ss = []
  end.
Proof.
  unfold applied_properties. rewrite apply_rules_lookup, lookup_empty.
  pose proof (best_of_wins (values_for id n (sort_by_specificity ss))) as Hb.
  destruct (best_of _ None) as [vs|]; [by apply wins_sort|].
  apply elem_of_nil_inv. intros x (r & Hr & Hx)%values_for_elem.
  apply (not_elem_of_nil x). rewrite <- Hb. apply values_for_elem. exists r. by rewrite sort_elem.
Qed.
End cascade.

(** ** Applying a stylesheet to a graph *)

Lemma fold_nodes_lookup `{HashOrder} ss keys (nodes : gmap string Node) id :
  NoDup keys ->
  fold_left (fun nodes id => match nodes !! id with
                             | Some n => <[id := style_node ss id n]> nodes
                             | None => nodes end) keys nodes !! id
  = if bool_decide (id ∈ keys) then style_node ss id <$> nodes !! id else nodes !! id.
Proof.
  intros Hnd. revert nodes. induction Hnd as [|k keys Hk Hnd IH]; intros nodes; [done|].
  cbn [fold_left]. rewrite IH. destruct (decide (id = k)) as [->|Hne].
  - rewrite (bool_decide_eq_true_2 (k ∈ k :: keys)) by left.
    rewrite bool_decide_eq_false_2 by done. destruct (nodes !! k) as [n|] eqn:Hn; cbn.
    + by rewrite lookup_insert_eq.
    + done.
  - rewrite (bool_decide_ext (id ∈ k :: keys) (id ∈ keys)) by set_solver.
    destruct (nodes !! k) as [n|]; [by rewrite lookup_insert_ne|done].
Qed.

(** Applying a stylesheet changes nodes independently of each other and of the
    order in which the node table is iterated, and keeps their ids and classes.  A
    node keeps every attribute it has; a recognized property it lacks gets the value
    of the last declaration among the matching rules of highest specificity, and
    stays absent when no rule matches; no other attribute appears. *)
Theorem apply_stylesheet_cascade `{HashOrder} ss g id :
  match graph_nodes g !! id with
  | None => graph_nodes (apply_stylesheet ss g) !! id = None
  | Some n => exists n', graph_nodes (apply_stylesheet ss g) !! id = Some n' /\
      node_id n' = node_id n /\ node_classes n' = node_classes n /\
      forall p, match node_attrs n !! p with
                | Some v => node_attrs n' !! p = Some v
                | None =>
                    if str_mem p STYLESHEET_PROPERTIES then
                      match node_attrs n' !! p with
                      | Some (AString v) => exists s, wins (values_for p id n ss) (v, s)
                      | Some _ => False
                      | None => values_for p id n ss = []
                      end
                    else node_attrs n' !! p = None
                end
  end.
Proof.
  assert (graph_nodes (apply_stylesheet ss g) !! id = style_node ss id <$> graph_nodes g !! id) as Hl.
  { unfold apply_stylesheet. cbn. rewrite fold_nodes_lookup by apply hash_keys_NoDup.
    case_bool_decide as Hin; [done|]. rewrite hash_keys_elem in Hin.
    destruct (graph_nodes g !! id); [by destruct Hin|done]. }
  rewrite Hl. destruct (graph_nodes g !! id) as [n|]; [|done]. exists (style_node ss id n).
  split; [done|]. split; [done|]. split; [done|]. intros p. cbn [style_node node_attrs].
  destruct (node_attrs n !! p) as [v|] eqn:Hv; [by apply lookup_union_Some_l|].
  rewrite lookup_union_r, lookup_fmap by done. destruct (str_mem p STYLESHEET_PROPERTIES) eqn:Hp.
  - pose proof (applied_wins p Hp id n ss) as Hw. destruct (applied_properties ss id n !! p) as [[v s]|]; cbn; [by exists s|exact Hw].
  - assert (applied_properties ss id n !! p = None) as ->; [|done].
    unfold applied_properties. generalize (sort_by_specificity ss) as rules.
    assert (forall rules applied, applied !! p = None -> fold_left (apply_rule id n) rules applied !! p = None) as Hf;
      [|intros rules; apply Hf, lookup_empty].
    induction rules as [|r rules IH]; intros applied Ha; [done|]. cbn. apply IH. unfold apply_rule.
    destruct (selector_matches _ _ _); [|done]. generalize dependent applied.
    induction (rule_declarations r) as [|d ds IHd]; intros applied Ha; [done|]. cbn. apply IHd.
    unfold apply_decl. destruct (str_mem (decl_property d) STYLESHEET_PROPERTIES) eqn:Hd; [|done].
    assert (decl_property d <> p) by congruence.
    destruct (applied !! decl_property d) as [[v s]|]; [destruct (Z.ltb _ s); [done|]|];
      by rewrite lookup_insert_ne.
Qed.

Definition sample_stylesheet : Stylesheet :=
  [mkRule Universal [mkDecl "model" "m1"];
   mkRule (SelClass "fast") [mkDecl "model" "m 2"; mkDecl "speed" "high"];
   mkRule (SelId "plan-1") []].

Lemma parse_print_stylesheet_witness : parse_stylesheet (print_stylesheet sample_stylesheet) = Ok sample_stylesheet.
Proof.
  apply (parse_print_stylesheet sample_stylesheet); [|vm_compute; reflexivity].
  assert (forall p v, p <> "" -> str_forall is_property_char p = true -> starts_with ";" p = false ->
    starts_with "}" p = false -> v <> "" -> str_forall is_value_char v = true -> trim v = v ->
    printable_declaration (mkDecl p v)) as Hd by (unfold printable_declaration, trimmed; auto 10).
  apply Forall_cons; split; [|apply Forall_cons; split; [|apply Forall_cons; split; [|apply Forall_nil; exact I]]];
    (split; [cbn; done|cbn [rule_declarations]]).
  - apply Forall_cons. split; [by apply Hd|apply Forall_nil; exact I].
  - apply Forall_cons. split; [by apply Hd|]. apply Forall_cons. split; [by apply Hd|apply Forall_nil; exact I].
  - apply Forall_nil. exact I.
Defined.
