(* ===== verification/Dot.v ===== *)
(** * DOT source to graph (fabro-graphviz/src/parser)

    Comment stripping (lexer.rs), the syntax tree (ast.rs), the semantic pass
    (semantic.rs) and their composition (mod.rs).  The grammar (grammar.rs) is
    written with the [nom] parser combinators, which are not part of the
    repository: it is the parameter [DotGrammar]. *)

From S2P Require Import Prelude RustStr RustNum GraphTypes.
Local Open Scope string_scope.

(** ** Comments *)

Inductive LexMode := LexNormal | LexLine | LexBlock | LexQuoted.

Fixpoint strip_go (mode : LexMode) (s : string) : string :=
  match s with
  | "" => ""
  | String c s' =>
      match mode with
      | LexNormal =>
          match c, s' with
          | "/"%char, String "/" r => strip_go LexLine r
          | "/"%char, String "*" r => strip_go LexBlock r
          | _, _ => if Ascii.eqb c ch_quote then String c (strip_go LexQuoted s')
                    else String c (strip_go LexNormal s')
          end
      | LexLine => if Ascii.eqb c ch_newline then String c (strip_go LexNormal s') else strip_go LexLine s'
      | LexBlock =>
          if str_forall is_continuation s' then String c s' (* the last character of the source *)
          else match s' with
          | "" => String c ""
          | String d r =>
              if (Ascii.eqb c "*" && Ascii.eqb d "/")%bool then strip_go LexNormal r
              else if Ascii.eqb c ch_newline then String c (strip_go LexBlock s')
              else strip_go LexBlock s'
          end
      | LexQuoted =>
          if Ascii.eqb c ch_quote then String c (strip_go LexNormal s')
          else if Ascii.eqb c ch_backslash then
            match s' with
            | "" => String c ""
            | String d r => String c (String d (strip_go LexQuoted r))
            end
          else String c (strip_go LexQuoted s')
      end
  end.

Definition strip_comments (input : string) : string := strip_go LexNormal input.

(** ** The syntax tree *)

Inductive AstValue :=
| AstStr (s : string)
| AstInt (n : Z)
| AstFloat (f : f64)
| AstBool (b : bool)
| AstIdent (s : string).

Abbreviation AttrBlock := (list (string * AstValue)).

Record NodeStmt := mkNodeStmt {
  ns_id : string;
  ns_attrs : option AttrBlock
}.

Record EdgeStmt := mkEdgeStmt {
  es_nodes : list string;
  es_attrs : option AttrBlock
}.

Inductive Statement :=
| SGraphAttr (attrs : AttrBlock)
| SNodeDefaults (attrs : AttrBlock)
| SEdgeDefaults (attrs : AttrBlock)
| SSubgraph (name : option string) (stmts : list Statement)
| SNode (n : NodeStmt)
| SEdge (e : EdgeStmt)
| SGraphAttrDecl (key : string) (value : AstValue).

Record DotGraph := mkDot {
  dot_name : string;
  dot_statements : list Statement
}.

(** ** Values *)

(** A [u64] product that overflowed wraps in a release build. *)
Definition wrap_u64 (z : Z) : Z := (z mod 2 ^ 64)%Z.

Definition duration_unit (s : string) : option (string * Z) :=
  match strip_suffix "s" s with
  | Some n => Some (n, 1000%Z)
  | None =>
      match strip_suffix "m" s with
      | Some n => Some (n, 60000%Z)
      | None =>
          match strip_suffix "h" s with
          | Some n => Some (n, 3600000%Z)
          | None => (fun n => (n, 86400000%Z)) <$> strip_suffix "d" s
          end
      end
  end.

Definition parse_duration_str (s : string) : option Duration :=
  match strip_suffix "ms" s with
  | Some n => from_millis <$> parse_u64 n
  | None => nm ← duration_unit s;
            num ← parse_u64 nm.1;
            Some (from_millis (wrap_u64 (num * nm.2)))
  end.

Definition convert_value (v : AstValue) : AttrValue :=
  match v with
  | AstStr s | AstIdent s =>
      match parse_duration_str s with Some d => ADuration d | None => AString s end
  | AstInt n => AInteger n
  | AstFloat f => AFloat f
  | AstBool b => ABoolean b
  end.

(** A later entry of a block overwrites an earlier one. *)
Definition insert_attrs (block : AttrBlock) (attrs : Attrs) : Attrs :=
  fold_left (fun m kv => <[kv.1 := convert_value kv.2]> m) block attrs.

Definition convert_attrs (block : AttrBlock) : Attrs := insert_attrs block ∅.

Definition split_class_attr (s : string) : list string := concat (split_whitespace <$> split_char "," s).

Definition derive_class_from_label (label : string) : string :=
  str_filter (fun c => (is_ascii_alphanumeric c || Ascii.eqb c "-")%bool)
    (str_map (fun c => if Ascii.eqb c " " then "-"%char else c) (to_lowercase label)).

(** ** The semantic pass *)

Fixpoint declared_ids (s : Statement) : list string :=
  match s with
  | SNode n => [ns_id n]
  | SSubgraph _ stmts => (fix go l := match l with [] => [] | s :: l => (declared_ids s ++ go l)%list end) stmts
  | _ => []
  end.

Definition collect_declared_node_ids (stmts : list Statement) : gset string :=
  list_to_set (concat (declared_ids <$> stmts)).

Record SemanticState := mkSem {
  sem_graph : Graph;
  sem_declared : gset string;
  sem_node_defaults : Attrs;
  sem_edge_defaults : Attrs
}.

Definition sem_new (name : string) (declared : gset string) : SemanticState :=
  mkSem (graph_new name) declared ∅ ∅.

Definition with_nodes (nodes : gmap string Node) (g : Graph) : Graph :=
  mkGraph (graph_name g) nodes (graph_edges g) (graph_attrs g).
Definition with_edges (edges : list Edge) (g : Graph) : Graph :=
  mkGraph (graph_name g) (graph_nodes g) edges (graph_attrs g).
Definition with_attrs (attrs : Attrs) (g : Graph) : Graph :=
  mkGraph (graph_name g) (graph_nodes g) (graph_edges g) attrs.

Definition set_graph (g : Graph) (st : SemanticState) : SemanticState :=
  mkSem g (sem_declared st) (sem_node_defaults st) (sem_edge_defaults st).
Definition set_defaults (nd ed : Attrs) (st : SemanticState) : SemanticState :=
  mkSem (sem_graph st) (sem_declared st) nd ed.

(** [ensure_node] and a change of the node it gives. *)
Definition update_node (f : Node -> Node) (id : string) (st : SemanticState) : SemanticState :=
  let n := default (mkNode id (sem_node_defaults st) []) (graph_nodes (sem_graph st) !! id) in
  set_graph (with_nodes (<[id := f n]> (graph_nodes (sem_graph st))) (sem_graph st)) st.

Definition opt_add_class (cls : option string) (n : Node) : Node :=
  match cls with Some c => add_class c n | None => n end.

Definition add_attr_classes (n : Node) : Node :=
  match attr_str (node_attrs n) "class" with
  | Some s => fold_left (fun n c => add_class c n) (split_class_attr s) n
  | None => n
  end.

Definition process_node (stmt : NodeStmt) (cls : option string) : SemanticState -> SemanticState :=
  update_node (fun n =>
    add_attr_classes (opt_add_class cls
      (mkNode (node_id n) (insert_attrs (default [] (ns_attrs stmt)) (node_attrs n)) (node_classes n))))
    (ns_id stmt).

(** [nodes.windows(2)]. *)
Fixpoint windows (l : list string) : list (string * string) :=
  match l with
  | a :: ((b :: _) as rest) => (a, b) :: windows rest
  | _ => []
  end.

Definition touch_node (cls : option string) (st : SemanticState) (id : string) : SemanticState :=
  if bool_decide (id ∈ sem_declared st) then update_node (opt_add_class cls) id st else st.

Definition process_edge (stmt : EdgeStmt) (cls : option string) (st : SemanticState) : SemanticState :=
  let st := fold_left (touch_node cls) (es_nodes stmt) st in
  let attrs := convert_attrs (default [] (es_attrs stmt)) ∪ sem_edge_defaults st in
  let edges := (fun ab => mkEdge ab.1 ab.2 attrs) <$> windows (es_nodes stmt) in
  set_graph (with_edges (graph_edges (sem_graph st) ++ edges)%list (sem_graph st)) st.

(** The class a subgraph's label gives its nodes. *)
Definition label_text (v : AstValue) : option string :=
  match v with AstStr s | AstIdent s => Some (derive_class_from_label s) | _ => None end.

Definition label_class (s : Statement) : option string :=
  match s with
  | SGraphAttrDecl k v => if String.eqb k "label" then label_text v else None
  | SGraphAttr attrs => find_map (fun kv => if String.eqb kv.1 "label" then label_text kv.2 else None) attrs
  | _ => None
  end.

Definition scoped_node_defaults (stmts : list Statement) : Attrs :=
  fold_left (fun m s => match s with SNodeDefaults a => convert_attrs a ∪ m | _ => m end) stmts ∅.
Definition scoped_edge_defaults (stmts : list Statement) : Attrs :=
  fold_left (fun m s => match s with SEdgeDefaults a => convert_attrs a ∪ m | _ => m end) stmts ∅.

(** [process_statements] extends the defaults for its scope and restores them. *)
Definition in_scope (nd ed : Attrs) (body : SemanticState -> SemanticState) (st : SemanticState) : SemanticState :=
  let inner := body (set_defaults (nd ∪ sem_node_defaults st) (ed ∪ sem_edge_defaults st) st) in
  set_defaults (sem_node_defaults st) (sem_edge_defaults st) inner.

Definition set_graph_attrs (f : Attrs -> Attrs) (st : SemanticState) : SemanticState :=
  set_graph (with_attrs (f (graph_attrs (sem_graph st))) (sem_graph st)) st.

Fixpoint process_statement (cls : option string) (s : Statement) (st : SemanticState) {struct s} : SemanticState :=
  match s with
  | SGraphAttr attrs => set_graph_attrs (insert_attrs attrs) st
  | SNodeDefaults attrs => set_defaults (convert_attrs attrs ∪ sem_node_defaults st) (sem_edge_defaults st) st
  | SEdgeDefaults attrs => set_defaults (sem_node_defaults st) (convert_attrs attrs ∪ sem_edge_defaults st) st
  | SGraphAttrDecl k v => set_graph_attrs <[k := convert_value v]> st
  | SNode n => process_node n cls st
  | SEdge e => process_edge e cls st
  | SSubgraph _ stmts =>
      in_scope (scoped_node_defaults stmts) (scoped_edge_defaults stmts)
        (fun st => (fix go l st := match l with
                                   | [] => st
                                   | s :: l => go l (process_statement (find_map label_class stmts) s st)
                                   end) stmts st) st
  end.

Definition process_statements (cls : option string) (nd ed : Attrs) (stmts : list Statement)
    : SemanticState -> SemanticState :=
  in_scope nd ed (fun st => fold_left (fun st s => process_statement cls s st) stmts st).

Definition ast_to_graph (dot : DotGraph) : Graph :=
  sem_graph (process_statements None ∅ ∅ (dot_statements dot)
               (sem_new (dot_name dot) (collect_declared_node_ids (dot_statements dot)))).

(** ** Parsing *)

(** [grammar::parse_dot_graph]: the graph and the text after it, or an error. *)
Class DotGrammar := parse_dot_graph : string -> result (DotGraph * string) string.

Inductive ParseOutcome (A : Type) :=
| Parsed (a : A)
| ParseError (msg : string)
| ParsePanic.
Arguments Parsed {A}.
Arguments ParseError {A}.
Arguments ParsePanic {A}.

(** The error message quotes [&remaining[..remaining.len().min(50)]], which panics
    when byte 50 is inside a character. *)
Definition parse_ast `{DotGrammar} (input : string) : ParseOutcome DotGraph :=
  match parse_dot_graph (strip_comments input) with
  | Err e => ParseError ("grammar error: " ++ e)
  | Ok (dot, rest) =>
      let remaining := trim rest in
      if str_is_empty remaining then Parsed dot
      else match slice_to (Nat.min (String.length remaining) 50) remaining with
           | Some shown => ParseError ("unexpected trailing content: " ++ shown)
           | None => ParsePanic
           end
  end.

Definition parse_dot `{DotGrammar} (input : string) : ParseOutcome Graph :=
  match parse_ast input with
  | Parsed dot => Parsed (ast_to_graph dot)
  | ParseError e => ParseError e
  | ParsePanic => ParsePanic
  end.

(** ** From DOT to a graph: what the semantic pass guarantees *)

Local Open Scope list_scope.

(** ** Comments *)

Definition is_newline (c : ascii) : bool := Ascii.eqb c ch_newline.

Fixpoint count_newlines (s : string) : nat :=
  match s with
  | EmptyString => 0
  | String c s => (if is_newline c then 1 else 0) + count_newlines s
  end.

Lemma strip_go_newlines n mode s :
  (String.length s <= n)%nat -> count_newlines (strip_go mode s) = count_newlines s.
Proof.
  revert mode s. induction n as [|n IH]; intros mode s Hs; (destruct s as [|c s]; [done|]); [cbn in Hs; lia|].
  cbn in Hs. destruct mode; cbn [strip_go].
  - assert (count_newlines (if Ascii.eqb c ch_quote then String c (strip_go LexQuoted s)
      else String c (strip_go LexNormal s)) = count_newlines (String c s)) as Hplain.
    { destruct (Ascii.eqb c ch_quote); cbn; by rewrite IH by lia. }
    destruct s as [|d r]; [destruct c as [[] [] [] [] [] [] [] []]; exact Hplain|].
    assert (count_newlines (strip_go LexLine r) = count_newlines r) as Hl by (apply IH; cbn in Hs; lia).
    assert (count_newlines (strip_go LexBlock r) = count_newlines r) as Hb by (apply IH; cbn in Hs; lia).
    destruct (decide (c = "/"%char)) as [->|Hc].
    + destruct (decide (d = "/"%char)) as [->|Hd]; [exact Hl|].
      destruct (decide (d = "*"%char)) as [->|Hd']; [exact Hb|].
      destruct d as [[] [] [] [] [] [] [] []]; first [exact Hplain | by destruct Hd | by destruct Hd'].
    + destruct c as [[] [] [] [] [] [] [] []]; first [exact Hplain | by destruct Hc].
  - cbn. unfold is_newline. destruct (Ascii.eqb c ch_newline) eqn:Hc; cbn; unfold is_newline; rewrite ?Hc, IH by lia; done.
  - destruct (str_forall is_continuation s); [done|]. destruct s as [|d r]; [done|]. cbn in Hs.
    destruct (Ascii.eqb c "*" && Ascii.eqb d "/")%bool eqn:He.
    + apply andb_true_iff in He as [->%Ascii.eqb_eq ->%Ascii.eqb_eq]. rewrite IH by lia. done.
    + cbn [count_newlines]. unfold is_newline. destruct (Ascii.eqb c ch_newline) eqn:Hc.
      * cbn [count_newlines]. unfold is_newline. rewrite Hc, IH by (cbn; lia). done.
      * rewrite IH by (cbn; lia). done.
  - destruct (Ascii.eqb c ch_quote); [cbn; by rewrite IH by lia|].
    destruct (Ascii.eqb c ch_backslash).
    + destruct s as [|d r]; [done|]. cbn in Hs |- *. by rewrite IH by lia.
    + cbn. by rewrite IH by lia.
Qed.

(** Stripping comments keeps every line break, whether inside code, a string, a
    line comment or a (possibly unterminated) block comment, so positions in the
    stripped text are on the lines of the source. *)
Theorem strip_comments_keeps_lines s : count_newlines (strip_comments s) = count_newlines s.
Proof. apply (strip_go_newlines (String.length s)). lia. Qed.

(** ** The semantic pass *)

(** Induction over statements, through subgraphs. *)
Lemma Statement_rect' (P : Statement -> Prop) :
  (forall a, P (SGraphAttr a)) -> (forall a, P (SNodeDefaults a)) -> (forall a, P (SEdgeDefaults a)) ->
  (forall name l, Forall P l -> P (SSubgraph name l)) -> (forall n, P (SNode n)) -> (forall e, P (SEdge e)) ->
  (forall k v, P (SGraphAttrDecl k v)) -> forall s, P s.
Proof.
  intros H1 H2 H3 H4 H5 H6 H7. fix IH 1. intros [a|a|a|name l|n|e|k v];
    [apply H1|apply H2|apply H3| |apply H5|apply H6|apply H7].
  apply H4. induction l as [|s l IHl]; constructor; [apply IH|exact IHl].
Qed.

(** The edges a statement writes, as pairs of ids. *)
Fixpoint edge_pairs (s : Statement) : list (string * string) :=
  match s with
  | SEdge e => windows (es_nodes e)
  | SSubgraph _ stmts => (fix go l := match l with [] => [] | s :: l => edge_pairs s ++ go l end) stmts
  | _ => []
  end.

Definition ends (e : Edge) : string * string := (edge_from e, edge_to e).

(** What processing a statement that declares [ids] and writes [pairs] does. *)
Record processed (ids : list string) (pairs : list (string * string)) (st st' : SemanticState) : Prop := {
  proc_declared : sem_declared st' = sem_declared st;
  proc_keyed : keyed_by_id (sem_graph st) -> keyed_by_id (sem_graph st');
  proc_grow : dom (graph_nodes (sem_graph st)) ⊆ dom (graph_nodes (sem_graph st'));
  proc_bound : dom (graph_nodes (sem_graph st')) ⊆
    dom (graph_nodes (sem_graph st)) ∪ sem_declared st ∪ list_to_set ids;
  proc_nodes : list_to_set ids ⊆ dom (graph_nodes (sem_graph st'));
  proc_edges : ends <$> graph_edges (sem_graph st') = (ends <$> graph_edges (sem_graph st)) ++ pairs;
  proc_name : graph_name (sem_graph st') = graph_name (sem_graph st)
}.

Lemma processed_trans ids1 ids2 p1 p2 st1 st2 st3 :
  processed ids1 p1 st1 st2 -> processed ids2 p2 st2 st3 -> processed (ids1 ++ ids2) (p1 ++ p2) st1 st3.
Proof.
  intros [D1 K1 G1 B1 N1 E1 M1] [D2 K2 G2 B2 N2 E2 M2]. split.
  - congruence.
  - auto.
  - set_solver.
  - rewrite list_to_set_app_L. rewrite D1 in B2. set_solver.
  - rewrite list_to_set_app_L. set_solver.
  - by rewrite E2, E1, app_assoc.
  - congruence.
Qed.

Lemma processed_defaults ids p st st' nd ed nd' ed' :
  processed ids p (set_defaults nd ed st) st' -> processed ids p st (set_defaults nd' ed' st').
Proof. by intros []. Qed.

Lemma processed_skip st st' :
  sem_declared st' = sem_declared st -> graph_nodes (sem_graph st') = graph_nodes (sem_graph st) ->
  graph_edges (sem_graph st') = graph_edges (sem_graph st) ->
  graph_name (sem_graph st') = graph_name (sem_graph st) -> processed [] [] st st'.
Proof.
  intros Hd Hn He Hm. split; rewrite ?Hd, ?Hn, ?He, ?Hm, ?app_nil_r; try done; [|set_solver].
  unfold keyed_by_id. by rewrite Hn.
Qed.

Lemma add_class_id c n : node_id (add_class c n) = node_id n.
Proof. unfold add_class. by case_match. Qed.

Lemma opt_add_class_id cls n : node_id (opt_add_class cls n) = node_id n.
Proof. destruct cls; [apply add_class_id|done]. Qed.

Lemma add_attr_classes_id n : node_id (add_attr_classes n) = node_id n.
Proof.
  unfold add_attr_classes. destruct (attr_str _ _) as [s|]; [|done].
  revert n. induction (split_class_attr s) as [|c l IH]; intros n; cbn; [done|]. by rewrite IH, add_class_id.
Qed.

Lemma processed_update f id ids st :
  (forall n, node_id (f n) = node_id n) -> (ids = [id] \/ (ids = [] /\ id ∈ sem_declared st)) ->
  processed ids [] st (update_node f id st).
Proof.
  intros Hf Hids. unfold update_node. split; cbn; try done.
  - intros Hk k n. cbn. intros [[<- <-]|[_ Hn]]%lookup_insert_Some; [|by apply Hk].
    rewrite Hf. destruct (graph_nodes (sem_graph st) !! id) eqn:E; [|done]. cbn. by apply Hk.
  - rewrite dom_insert_L. set_solver.
  - rewrite dom_insert_L. destruct Hids as [->|[-> ?]]; set_solver.
  - rewrite dom_insert_L. destruct Hids as [->|[-> ?]]; set_solver.
  - by rewrite app_nil_r.
Qed.

Lemma processed_touch cls l st : processed [] [] st (fold_left (touch_node cls) l st).
Proof.
  revert st. induction l as [|id l IH]; intros st; cbn; [by apply processed_skip|].
  apply (processed_trans [] [] [] [] _ (touch_node cls st id)); [|apply IH].
  unfold touch_node. case_bool_decide; [|by apply processed_skip].
  apply processed_update; [apply opt_add_class_id|by right].
Qed.

Lemma processed_edge e cls st : processed [] (windows (es_nodes e)) st (process_edge e cls st).
Proof.
  destruct (processed_touch cls (es_nodes e) st) as [D K G B N E M]. unfold process_edge.
  split; cbn; try done. rewrite fmap_app, E, app_nil_r. f_equal.
  rewrite <- list_fmap_compose. clear. induction (windows (es_nodes e)) as [|[a b] l IH]; [done|].
  cbn. by f_equal.
Qed.

Lemma processed_list (f : Statement -> SemanticState -> SemanticState) stmts st :
  Forall (fun s => forall st, processed (declared_ids s) (edge_pairs s) st (f s st)) stmts ->
  processed (concat (declared_ids <$> stmts)) (concat (edge_pairs <$> stmts)) st
    (fold_left (fun st s => f s st) stmts st).
Proof.
  intros Hall. revert st. induction Hall as [|s l Hs Hl IH]; intros st; cbn; [by apply processed_skip|].
  eapply processed_trans; [apply Hs|apply IH].
Qed.

Lemma processed_statement s cls st : processed (declared_ids s) (edge_pairs s) st (process_statement cls s st).
Proof.
  revert cls st. induction s as [a|a|a|name l IH|n|e|k v] using Statement_rect'; intros cls st;
    try (by apply processed_skip).
  - cbn [process_statement declared_ids edge_pairs]. unfold in_scope.
    generalize (find_map label_class l) as sub. intros sub.
    assert ((fix go l := match l with [] => [] | s :: l => declared_ids s ++ go l end) l
            = concat (declared_ids <$> l)) as -> by (clear; by induction l as [|? ? IHl]; [|cbn; rewrite IHl]).
    assert ((fix go l := match l with [] => [] | s :: l => edge_pairs s ++ go l end) l
            = concat (edge_pairs <$> l)) as -> by (clear; by induction l as [|? ? IHl]; [|cbn; rewrite IHl]).
    assert (forall st, (fix go l st := match l with [] => st | s :: l => go l (process_statement sub s st) end) l st
            = fold_left (fun st s => process_statement sub s st) l st) as Hgo.
    { clear. induction l as [|s l IHl]; intros st; [done|]. cbn. apply IHl. }
    rewrite Hgo. eapply processed_defaults, processed_list.
    eapply Forall_impl; [exact IH|]. intros s Hs st'. apply Hs.
  - cbn [process_statement declared_ids edge_pairs]. unfold process_node.
    apply (processed_update _ (ns_id n) [ns_id n]); [|by left].
    intros n'. by rewrite add_attr_classes_id, opt_add_class_id.
  - apply processed_edge.
Qed.

(** The graph of a DOT source has exactly the nodes that the source declares with
    a node statement, in subgraphs too, each stored under its own id: an edge never
    creates a node.  Its edges are the consecutive pairs of the edge statements, in
    the order of the source. *)
Theorem ast_to_graph_spec dot :
  keyed_by_id (ast_to_graph dot) /\
  dom (graph_nodes (ast_to_graph dot)) = collect_declared_node_ids (dot_statements dot) /\
  ends <$> graph_edges (ast_to_graph dot) = concat (edge_pairs <$> dot_statements dot) /\
  graph_name (ast_to_graph dot) = dot_name dot.
Proof.
  unfold ast_to_graph, process_statements, in_scope.
  set (st0 := sem_new (dot_name dot) (collect_declared_node_ids (dot_statements dot))).
  assert (processed (concat (declared_ids <$> dot_statements dot)) (concat (edge_pairs <$> dot_statements dot))
    (set_defaults (∅ ∪ sem_node_defaults st0) (∅ ∪ sem_edge_defaults st0) st0)
    (fold_left (fun st s => process_statement None s st) (dot_statements dot)
       (set_defaults (∅ ∪ sem_node_defaults st0) (∅ ∪ sem_edge_defaults st0) st0))) as [D K G B N E M].
  { apply processed_list, Forall_forall. intros s _ st. apply processed_statement. }
  cbn [set_defaults sem_graph] in *. split; [|split; [|split]].
  - apply K. intros k n. cbn. by rewrite lookup_empty.
  - apply (anti_symm (⊆)); [|exact N]. etrans; [exact B|]. cbn. unfold collect_declared_node_ids. set_solver.
  - exact E.
  - exact M.
Qed.

(** The defaults of a scope end with it. *)
Lemma subgraph_restores_defaults name l cls st :
  sem_node_defaults (process_statement cls (SSubgraph name l) st) = sem_node_defaults st /\
  sem_edge_defaults (process_statement cls (SSubgraph name l) st) = sem_edge_defaults st.
Proof. done. Qed.
