(* ===== verification/Lint.v ===== *)
(** * Lint rules: the framework (fabro-validate/src/lib.rs)

    Diagnostics, the [LintRule] trait as a record of its two methods, and the
    vocabulary the rules share: fidelity modes (fabro-graphviz/src/fidelity.rs),
    agent backends (fabro-types/src/llm_backend.rs), stage handlers
    (fabro-types/src/stage_handler.rs) and the parallel-branch view of a graph
    (fabro-validate/src/rules/parallel_branch.rs). *)

From S2P Require Import Prelude RustStr RustNum GraphTypes Condition Stylesheet.
Local Open Scope string_scope.
Local Open Scope list_scope.

(** ** Diagnostics *)

Inductive Severity := SevError | SevWarning | SevInfo.

#[export] Instance Severity_eq_dec : EqDecision Severity.
Proof. solve_decision. Defined.

Record RelatedDiagnostic := {
  rel_message : string;
  rel_source_path : option string;
  rel_line : option Z;
  rel_column : option Z
}.

Record Diagnostic := mkDiagnostic {
  diag_rule : string;
  diag_severity : Severity;
  diag_message : string;
  diag_node_id : option string;
  diag_edge : option (string * string);
  diag_fix : option string;
  diag_source_path : option string;
  diag_line : option Z;
  diag_column : option Z;
  diag_span_start : option Z;
  diag_span_len : option Z;
  diag_related : list RelatedDiagnostic
}.

(** A diagnostic whose remaining fields are those of [Diagnostic::default()]. *)
Definition diagnostic (rule : string) (sev : Severity) (msg : string) (id : option string)
    (e : option (string * string)) (fix_ : string) : Diagnostic :=
  mkDiagnostic rule sev msg id e (Some fix_) None None None None None [].

Definition graph_diag (rule : string) (sev : Severity) (msg fix_ : string) : Diagnostic :=
  diagnostic rule sev msg None None fix_.
Definition node_diag (rule : string) (sev : Severity) (n : Node) (msg fix_ : string) : Diagnostic :=
  diagnostic rule sev msg (Some (node_id n)) None fix_.
Definition edge_diag (rule : string) (sev : Severity) (e : Edge) (msg fix_ : string) : Diagnostic :=
  diagnostic rule sev msg None (Some (edge_from e, edge_to e)) fix_.

Definition is_error (d : Diagnostic) : bool := bool_decide (diag_severity d = SevError).

(** ** Rules *)

Record LintRule := mkLint {
  lint_name : string;
  lint_apply : Graph -> list Diagnostic
}.

(** [for node in graph.nodes.values()] and [for edge in &graph.edges]. *)
Definition each_node `{HashOrder} (f : Node -> list Diagnostic) (g : Graph) : list Diagnostic :=
  concat (f <$> hash_values (graph_nodes g)).
Definition each_edge (f : Edge -> list Diagnostic) (g : Graph) : list Diagnostic :=
  concat (f <$> graph_edges g).

Definition report (b : bool) (d : Diagnostic) : list Diagnostic := if b then [d] else [].

Definition report_opt {A} (o : option A) (bad : A -> bool) (d : A -> Diagnostic) : list Diagnostic :=
  match o with
  | Some a => report (bad a) (d a)
  | None => []
  end.

(** ** The texts of parse errors

    [debug_str] is Rust's [Debug] notation of a string, whose escapes depend on the
    Unicode tables; [regex_error] is the message of the regex crate for a pattern it
    rejects. *)
Class ErrorText := {
  debug_str : string -> string;
  regex_error : string -> string
}.

Section error_text.
Context {ET : ErrorText}.

(** [{:?}] of a token. *)
Definition Token_debug (t : Token) : string :=
  match t with
  | TWord w => "Word(" +:+ debug_str w +:+ ")"
  | TEq => "OpEq" | TNotEq => "OpNotEq" | TGt => "OpGt" | TLt => "OpLt"
  | TGte => "OpGte" | TLte => "OpLte" | TAnd => "And" | TOr => "Or" | TNot => "Not"
  | TContains => "Contains" | TMatches => "Matches"
  end.

Definition cond_error_text (e : CondError) : string :=
  "Parse error: " +:+
  match e with
  | UnexpectedChar c => "unexpected character '" +:+ String c "' in condition expression"
  | ExpectedKey t => "expected key, got " +:+ Token_debug t +:+ " in condition expression"
  | UnexpectedEnd => "unexpected end of condition expression"
  | ExpectedValue (Some t) => "expected value after operator, got " +:+ Token_debug t
  | ExpectedValue None => "expected value after operator"
  | InvalidRegex p => "invalid regex pattern '" +:+ p +:+ "': " +:+ regex_error p
  | UnexpectedToken t => "unexpected token " +:+ Token_debug t +:+ " in condition expression"
  end.

Definition style_error_text (e : StyleError) : string :=
  "Stylesheet error: " +:+
  match e with
  | UnterminatedComment at_ => "unterminated CSS comment: " +:+ debug_str at_
  | ExpectedBrace at_ => "expected '{' after selector, got: " +:+ debug_str at_
  | ExpectedIdentifier => "expected identifier after '#'"
  | ExpectedClassName => "expected class name after '.'"
  | ExpectedSelector at_ =>
      "expected selector ('*', '#id', '.class', or shape name), got: " +:+ debug_str at_
  | StyleUnexpectedEnd => "unexpected end of stylesheet, expected '}'"
  | ExpectedColon p => "expected ':' after property name '" +:+ p +:+ "'"
  | EmptyValue p => "empty value for property '" +:+ p +:+ "'"
  end.
End error_text.

Definition raise_on_errors (ds : list Diagnostic) : result unit string :=
  match filterb is_error ds with
  | [] => Ok tt
  | errors => Err (str_join "; " (diag_message <$> errors))
  end.

(** ** Fidelity modes *)

Inductive Fidelity := FFull | FTruncate | FCompact | FSummaryLow | FSummaryMedium | FSummaryHigh.

#[export] Instance Fidelity_eq_dec : EqDecision Fidelity.
Proof. solve_decision. Defined.

Definition Fidelity_default : Fidelity := FCompact.

Definition Fidelity_variants : list Fidelity :=
  [FFull; FTruncate; FCompact; FSummaryLow; FSummaryMedium; FSummaryHigh].

Definition Fidelity_to_string (f : Fidelity) : string :=
  match f with
  | FFull => "full"
  | FTruncate => "truncate"
  | FCompact => "compact"
  | FSummaryLow => "summary:low"
  | FSummaryMedium => "summary:medium"
  | FSummaryHigh => "summary:high"
  end.

Definition Fidelity_from_str (s : string) : option Fidelity :=
  find_first (fun f => String.eqb (Fidelity_to_string f) s) Fidelity_variants.

Definition degraded (f : Fidelity) : Fidelity :=
  match f with
  | FFull => FSummaryHigh
  | other => other
  end.

(** ** Agent backends *)

Inductive AgentBackend := BackendApi | BackendAcp.

Definition AgentBackend_from_str (s : string) : option AgentBackend :=
  if String.eqb s "api" then Some BackendApi
  else if String.eqb s "acp" then Some BackendAcp
  else None.

Definition AgentBackend_expected_values : string := str_join ", " ["api"; "acp"].

(** [Node::agent_backend]; the inner [None] is strum's parse error. *)
Definition agent_backend (n : Node) : option (option AgentBackend) :=
  AgentBackend_from_str <$> node_backend n.

(** ** Stage handlers *)

Inductive StageHandler :=
| SHStart | SHExit | SHAgent | SHPrompt | SHCommand | SHHuman | SHConditional
| SHParallel | SHParallelFanIn | SHStackManagerLoop | SHWait.

#[export] Instance StageHandler_eq_dec : EqDecision StageHandler.
Proof. solve_decision. Defined.

Definition StageHandler_to_string (h : StageHandler) : string :=
  match h with
  | SHStart => "start"
  | SHExit => "exit"
  | SHAgent => "agent"
  | SHPrompt => "prompt"
  | SHCommand => "command"
  | SHHuman => "human"
  | SHConditional => "conditional"
  | SHParallel => "parallel"
  | SHParallelFanIn => "parallel.fan_in"
  | SHStackManagerLoop => "stack.manager_loop"
  | SHWait => "wait"
  end.

Definition from_handler_type (raw : option string) : StageHandler :=
  let s := default "agent" raw in
  if String.eqb s "start" then SHStart
  else if String.eqb s "exit" then SHExit
  else if String.eqb s "prompt" then SHPrompt
  else if (String.eqb s "command" || String.eqb s "tool")%bool then SHCommand
  else if String.eqb s "human" then SHHuman
  else if String.eqb s "conditional" then SHConditional
  else if String.eqb s "parallel" then SHParallel
  else if String.eqb s "parallel.fan_in" then SHParallelFanIn
  else if String.eqb s "stack.manager_loop" then SHStackManagerLoop
  else if String.eqb s "wait" then SHWait
  else SHAgent.

(** ** Parallel branches *)

Definition opt_is (s : string) (o : option string) : bool := is_some_and (String.eqb s) o.

(** [BTreeSet<&str>] iterates in ascending order. *)
Definition sorted_ids (X : gset string) : list string := merge_sort String.le (elements X).

Definition fork_ids `{HashOrder} (g : Graph) : gset string :=
  list_to_set (node_id <$> filterb (fun n => opt_is "parallel" (handler_type n)) (hash_values (graph_nodes g))).

Definition is_fork_edge `{HashOrder} (g : Graph) (e : Edge) : bool := bool_decide (edge_from e ∈ fork_ids g).

Definition branch_targets `{HashOrder} (g : Graph) : gset string :=
  list_to_set (edge_to <$> filterb (is_fork_edge g) (graph_edges g)).

Definition is_branch_only_node `{HashOrder} (g : Graph) (id : string) : bool :=
  let incoming := incoming_edges g id in
  (negb (bool_decide (length incoming = 0)) && forallb (is_fork_edge g) incoming)%bool.

Definition branch_only_parents `{HashOrder} (g : Graph) (id : string) : option (list string) :=
  if is_branch_only_node g id
  then Some (sorted_ids (list_to_set (edge_from <$> incoming_edges g id)))
  else None.
