(* ===== verification/LintGraph.v ===== *)
(** * Lint rules on the shape of the graph (fabro-validate/src/rules/)

    Start and terminal nodes, edges, reachability, conditions, routing
    fallbacks, retry targets and the fan-out contract. *)

From S2P Require Import Prelude RustStr RustNum GraphTypes Condition Stylesheet Lint.
Local Open Scope string_scope.
Local Open Scope list_scope.

Section graph_rules.
Context {HO : HashOrder} {RX : Regex} {ET : ErrorText}.

(** ** Start and terminal nodes *)

Definition is_start_entry (kn : string * Node) : bool :=
  (String.eqb (node_shape kn.2) "Mdiamond" || String.eqb kn.1 "start" || String.eqb kn.1 "Start")%bool.

Definition start_count (g : Graph) : nat := length (filterb is_start_entry (hash_iter (graph_nodes g))).

Definition start_node_rule : LintRule := mkLint "start_node" (fun g =>
  match start_count g with
  | 0 => [graph_diag "start_node" SevError
            "Pipeline must have exactly one start node (shape=Mdiamond or id start/Start)"
            "Add a node with shape=Mdiamond or id 'start'"]
  | 1 => []
  | n => [graph_diag "start_node" SevError
            ("Pipeline has " +:+ nat_to_string n +:+ " start nodes but must have exactly one")
            "Remove extra start nodes"]
  end).

Definition is_terminal_entry (kn : string * Node) : bool :=
  (String.eqb (node_shape kn.2) "Msquare" || String.eqb kn.1 "exit" || String.eqb kn.1 "Exit"
   || String.eqb kn.1 "end" || String.eqb kn.1 "End")%bool.

Definition terminal_count (g : Graph) : nat := length (filterb is_terminal_entry (hash_iter (graph_nodes g))).

Definition terminal_node_rule : LintRule := mkLint "terminal_node" (fun g =>
  match terminal_count g with
  | 0 => [graph_diag "terminal_node" SevError
            "Pipeline must have exactly one terminal node (shape=Msquare or id exit/end)"
            "Add a node with shape=Msquare or id 'exit'/'end'"]
  | 1 => []
  | n => [graph_diag "terminal_node" SevError
            ("Pipeline must have exactly one terminal node, found " +:+ nat_to_string n)
            "Remove extra terminal nodes so exactly one remains"]
  end).

Definition start_no_incoming_rule : LintRule := mkLint "start_no_incoming" (fun g =>
  match find_start_node g with
  | None => []
  | Some start =>
      let incoming := incoming_edges g (node_id start) in
      match incoming with
      | [] => []
      | _ => [node_diag "start_no_incoming" SevError start
                ("Start node '" +:+ node_id start +:+ "' has " +:+ nat_to_string (length incoming)
                 +:+ " incoming edge(s) but must have none")
                "Remove incoming edges to the start node"]
      end
  end).

Definition exit_no_outgoing_rule : LintRule := mkLint "exit_no_outgoing" (fun g =>
  concat ((fun kn =>
    if is_terminal_entry kn then
      let outgoing := outgoing_edges g (node_id kn.2) in
      match outgoing with
      | [] => []
      | _ => [node_diag "exit_no_outgoing" SevError kn.2
                ("Exit node '" +:+ node_id kn.2 +:+ "' has " +:+ nat_to_string (length outgoing)
                 +:+ " outgoing edge(s) but must have none")
                "Remove outgoing edges from the exit node"]
      end
    else []) <$> hash_iter (graph_nodes g))).

(** ** Edges *)

Definition edge_target_diag (id : string) (e : Edge) : Diagnostic :=
  diagnostic "edge_target_exists" SevError
    ("Node '" +:+ id +:+ "' is referenced by edge '" +:+ edge_from e +:+ " -> " +:+ edge_to e
     +:+ "' but has no node declaration")
    (Some id) (Some (edge_from e, edge_to e))
    ("Declare node '" +:+ id +:+ "' or correct the edge endpoint").

(** One endpoint: reported unless declared or already reported. *)
Definition check_endpoint (g : Graph) (acc : list Diagnostic * gset string) (ie : string * Edge)
    : list Diagnostic * gset string :=
  let '(ds, reported) := acc in
  let '(id, e) := ie in
  if (negb (contains_key (graph_nodes g) id) && negb (bool_decide (id ∈ reported)))%bool
  then (ds ++ [edge_target_diag id e], {[id]} ∪ reported)
  else acc.

(** Both endpoints of every edge, target first. *)
Definition endpoints (edges : list Edge) : list (string * Edge) :=
  concat ((fun e => [(edge_to e, e); (edge_from e, e)]) <$> edges).

Definition edge_target_exists_rule : LintRule := mkLint "edge_target_exists" (fun g =>
  (fold_left (check_endpoint g) (endpoints (graph_edges g)) ([], ∅)).1).

Definition condition_syntax_rule : LintRule := mkLint "condition_syntax" (fun g =>
  each_edge (fun e =>
    match opt_filter (fun c => negb (str_is_empty c)) (edge_condition e) with
    | None => []
    | Some c =>
        match parse_condition c with
        | Ok _ => []
        | Err err =>
            [edge_diag "condition_syntax" SevError e
               ("Condition '" +:+ c +:+ "' on edge " +:+ edge_from e +:+ " -> " +:+ edge_to e
                +:+ " failed parse: " +:+ cond_error_text err)
               "Use key=value, key!=value, key>value, key contains value, key matches pattern, or bare key syntax"]
        end
    end) g).

Definition is_conditional (e : Edge) : bool :=
  is_some_and (fun c => negb (str_is_empty c)) (edge_condition e).
Definition is_fallback (e : Edge) : bool := is_none_or str_is_empty (edge_condition e).

Definition all_conditional_edges_rule : LintRule := mkLint "all_conditional_edges" (fun g =>
  each_node (fun n =>
    let outgoing := outgoing_edges g (node_id n) in
    report (negb (bool_decide (length outgoing = 0)) && forallb is_conditional outgoing)%bool
      (node_diag "all_conditional_edges" SevError n
         ("Node '" +:+ node_id n +:+ "' has all conditional outgoing edges with no unconditional fallback")
         "Add at least one unconditional edge as a fallback")) g).

(** An [outcome=...] clause of a conjunction. *)
Definition has_outcome_clause (c : string) : bool :=
  existsb (fun clause => starts_with "outcome=" (trim clause)) (split_pat (String.length c) "&&" c).

Definition orphan_custom_outcome_rule : LintRule := mkLint "orphan_custom_outcome" (fun g =>
  each_node (fun n =>
    let outgoing := outgoing_edges g (node_id n) in
    report (existsb (fun e => is_some_and has_outcome_clause (edge_condition e)) outgoing
            && negb (existsb is_fallback outgoing))%bool
      (node_diag "orphan_custom_outcome" SevWarning n
         ("Node '" +:+ node_id n +:+ "' uses outcome-based routing but has no unconditional fallback edge")
         "Add an unconditional edge as a safety net for unmatched outcomes")) g).

Definition random_selection_no_conditions_rule : LintRule := mkLint "random_selection_no_conditions" (fun g =>
  each_node (fun n =>
    report (String.eqb (node_selection n) "random" && existsb is_conditional (outgoing_edges g (node_id n)))%bool
      (node_diag "random_selection_no_conditions" SevError n
         ("Node '" +:+ node_id n +:+ "' has selection=" +:+ dq +:+ "random" +:+ dq
          +:+ " but also has conditional edges; random selection and conditions cannot be combined")
         ("Remove the condition attributes from outgoing edges, or remove selection=" +:+ dq
          +:+ "random" +:+ dq +:+ " from the node"))) g).

Definition freeform_edge_count_rule : LintRule := mkLint "freeform_edge_count" (fun g =>
  each_node (fun n =>
    let count := length (filterb freeform (outgoing_edges g (node_id n))) in
    report (opt_is "human" (handler_type n) && bool_decide (1 < count))%bool
      (node_diag "freeform_edge_count" SevError n
         ("wait.human node '" +:+ node_id n +:+ "' has " +:+ nat_to_string count
          +:+ " freeform edges but at most one is allowed")
         "Remove extra freeform=true edges so at most one remains")) g).

(** ** Reachability *)

Definition visit_edge (acc : gset string * list string) (e : Edge) : gset string * list string :=
  let '(visited, queue) := acc in
  if bool_decide (edge_to e ∈ visited) then acc
  else ({[edge_to e]} ∪ visited, queue ++ [edge_to e]).

(** The breadth-first loop; [None] is out of fuel. *)
Fixpoint bfs (g : Graph) (fuel : nat) (visited : gset string) (queue : list string) : option (gset string) :=
  match queue with
  | [] => Some visited
  | id :: queue =>
      match fuel with
      | 0 => None
      | S fuel =>
          let '(visited, queue) := fold_left visit_edge (outgoing_edges g id) (visited, queue) in
          bfs g fuel visited queue
      end
  end.

(** Every node enters the queue once, the start node and then targets of edges. *)
Definition bfs_fuel (g : Graph) : nat := S (length (graph_edges g)).

Definition unreachable_diag (id : string) : Diagnostic :=
  diagnostic "reachability" SevWarning
    ("Node '" +:+ id +:+ "' is not reachable from the start node") (Some id) None
    ("Add an edge path from the start node to '" +:+ id +:+ "'").

Definition reachability_rule : LintRule := mkLint "reachability" (fun g =>
  match find_start_node g with
  | None => []
  | Some start =>
      match bfs g (bfs_fuel g) {[node_id start]} [node_id start] with
      | None => []
      | Some visited =>
          unreachable_diag <$> merge_sort String.le
            (filterb (fun id => negb (bool_decide (id ∈ visited))) (hash_keys (graph_nodes g)))
      end
  end).

(** ** Retry targets *)

Definition missing (g : Graph) (target : string) : bool := negb (contains_key (graph_nodes g) target).

Definition retry_target_exists_rule : LintRule := mkLint "retry_target_exists" (fun g =>
  each_node (fun n =>
    report_opt (node_retry_target n) (missing g) (fun t =>
      node_diag "retry_target_exists" SevWarning n
        ("Node '" +:+ node_id n +:+ "' has retry_target '" +:+ t +:+ "' that does not exist")
        ("Define node '" +:+ t +:+ "' or fix retry_target"))
    ++ report_opt (node_fallback_retry_target n) (missing g) (fun t =>
      node_diag "retry_target_exists" SevWarning n
        ("Node '" +:+ node_id n +:+ "' has fallback_retry_target '" +:+ t +:+ "' that does not exist")
        ("Define node '" +:+ t +:+ "' or fix fallback_retry_target"))) g
  ++ report_opt (graph_retry_target g) (missing g) (fun t =>
      graph_diag "retry_target_exists" SevWarning
        ("Graph has retry_target '" +:+ t +:+ "' that does not exist")
        ("Define node '" +:+ t +:+ "' or fix graph retry_target"))
  ++ report_opt (graph_fallback_retry_target g) (missing g) (fun t =>
      graph_diag "retry_target_exists" SevWarning
        ("Graph has fallback_retry_target '" +:+ t +:+ "' that does not exist")
        ("Define node '" +:+ t +:+ "' or fix graph fallback_retry_target"))).

Definition goal_gate_has_retry_rule : LintRule := mkLint "goal_gate_has_retry" (fun g =>
  each_node (fun n =>
    let has_node_retry := (is_some (node_retry_target n) || is_some (node_fallback_retry_target n))%bool in
    let has_graph_retry := (is_some (graph_retry_target g) || is_some (graph_fallback_retry_target g))%bool in
    report (goal_gate n && (negb has_node_retry && negb has_graph_retry))%bool
      (node_diag "goal_gate_has_retry" SevWarning n
         ("Node '" +:+ node_id n +:+ "' has goal_gate=true but no retry_target or fallback_retry_target")
         "Add retry_target or fallback_retry_target attribute")) g).

(** ** The fan-out contract *)

Definition for_each_target (g : Graph) (n : Node) (target : Node) : list Diagnostic :=
  report (contains_key (node_attrs target) "for_each")
    (node_diag "for_each_contract" SevError n
       ("Parallel node '" +:+ node_id n +:+ "' targets '" +:+ node_id target
        +:+ "', which also sets 'for_each'; nested for_each is not supported")
       "Remove the nested 'for_each' and use a single runtime fan-out")
  ++ report (negb (is_llm_handler_type (handler_type target)))
    (node_diag "for_each_contract" SevError n
       ("Parallel node '" +:+ node_id n +:+ "' sets 'for_each', but template target '"
        +:+ node_id target +:+ "' is not an agent or prompt node")
       "Target one agent or prompt node from the for_each parallel node").

Definition for_each_node (g : Graph) (n : Node) : list Diagnostic :=
  if negb (contains_key (node_attrs n) "for_each") then []
  else if negb (opt_is "parallel" (handler_type n)) then
    [node_diag "for_each_contract" SevError n
       ("Node '" +:+ node_id n +:+ "' sets 'for_each', but only parallel nodes can fan out over runtime items")
       ("Remove 'for_each' or change the node to type=" +:+ dq +:+ "parallel" +:+ dq)]
  else
    report (is_none_or (fun s => str_is_empty (trim s)) (node_for_each n))
      (node_diag "for_each_contract" SevError n
         ("Node '" +:+ node_id n +:+ "' has an empty or non-string 'for_each' source")
         ("Set 'for_each' to a context key such as " +:+ dq +:+ "context.candidates" +:+ dq))
    ++ (match outgoing_edges g (node_id n) with
        | [e] => match graph_nodes g !! edge_to e with
                 | Some target => for_each_target g n target
                 | None => []
                 end
        | outgoing =>
            [node_diag "for_each_contract" SevError n
               ("Parallel node '" +:+ node_id n
                +:+ "' sets 'for_each' and must have exactly one outgoing template edge, but has "
                +:+ nat_to_string (length outgoing))
               "Keep one outgoing edge whose target is the agent or prompt to run for each item"]
        end).

Definition for_each_contract_rule : LintRule :=
  mkLint "for_each_contract" (fun g => each_node (for_each_node g) g).
End graph_rules.
