(* ===== verification/LintNode.v ===== *)
(** * Lint rules on attributes (fabro-validate/src/rules/)

    Handler types, backends, fidelity modes, prompts and scripts, failure
    policies, deprecated and inert attributes, imports and, given a model
    catalog, model and provider names. *)

From S2P Require Import Prelude RustStr RustNum GraphTypes Condition Stylesheet Lint.
Local Open Scope string_scope.
Local Open Scope list_scope.

Definition sort_on {A} (key : A -> string) : list A -> list A :=
  merge_sort (fun a b => String.le (key a) (key b)).

Definition quote (s : string) : string := dq +:+ s +:+ dq.

(** ** ACP process attributes (fabro-acp/src/command.rs) *)

Inductive AcpCommandError :=
| LegacyCommandAttribute | EmptyOverride | MissingOverride | UnsupportedTransport
| InvalidCommandString | InvalidConfigJson | InvalidConfigShape (what : string).

Definition AcpCommandError_to_string (e : AcpCommandError) : string :=
  match e with
  | LegacyCommandAttribute => "acp_command is no longer supported; use acp.command or acp.config"
  | EmptyOverride => "ACP process attribute must not be empty"
  | MissingOverride => "backend=" +:+ quote "acp" +:+ " requires exactly one of acp.command or acp.config"
  | UnsupportedTransport => "only stdio ACP commands are supported"
  | InvalidCommandString => "failed to parse acp.command as a shell command"
  | InvalidConfigJson => "failed to parse acp.config as JSON"
  | InvalidConfigShape what => "invalid acp.config shape: " +:+ what
  end.

(** What the shell splitter and the ACP SDK reject in a non-empty command or
    configuration text. *)
Class AcpSdk := {
  acp_command_error : string -> option AcpCommandError;
  acp_config_error : string -> option AcpCommandError
}.

Section acp.
Context {SDK : AcpSdk}.

Definition acp_attr_error (parse : string -> option AcpCommandError) (raw : string)
    : option AcpCommandError :=
  let trimmed := trim raw in
  if str_is_empty trimmed then Some EmptyOverride else parse trimmed.

(** The error of [AcpProcessSpec::from_attrs]. *)
Definition acp_from_attrs (legacy command config : option string) : option AcpCommandError :=
  if is_some legacy then Some LegacyCommandAttribute
  else match command, config with
       | Some c, None => acp_attr_error acp_command_error c
       | None, Some c => acp_attr_error acp_config_error c
       | None, None | Some _, Some _ => Some MissingOverride
       end.
End acp.

Section node_rules.
Context {HO : HashOrder} {ET : ErrorText} {SDK : AcpSdk}.

(** ** Backends *)

Definition unsupported_backend_diagnostic (n : Node) (backend : string) : Diagnostic :=
  if String.eqb backend "cli" then
    node_diag "backend_valid" SevError n
      ("backend=" +:+ quote "cli" +:+ " is no longer supported; external agents must be launched through backend="
       +:+ quote "acp" +:+ " with acp.command or acp.config")
      ("Use backend=" +:+ quote "api" +:+ " for Fabro-owned provider execution, or backend=" +:+ quote "acp"
       +:+ " with acp.command/acp.config for a user-supplied ACP process")
  else
    node_diag "backend_valid" SevError n
      ("unsupported agent backend " +:+ quote backend +:+ "; expected one of: " +:+ AgentBackend_expected_values)
      ("Use one of: " +:+ AgentBackend_expected_values).

Definition acp_process_diagnostic (n : Node) (e : AcpCommandError) : Diagnostic :=
  match e with
  | LegacyCommandAttribute =>
      node_diag "backend_valid" SevError n
        "acp_command is no longer supported; use acp.command for shell commands or acp.config for JSON stdio ACP configs"
        "Rename acp_command to acp.command"
  | EmptyOverride | MissingOverride | InvalidCommandString =>
      node_diag "backend_valid" SevError n (AcpCommandError_to_string e)
        "Set acp.command to a shell command, or acp.config to a JSON stdio ACP config"
  | InvalidConfigJson | InvalidConfigShape _ | UnsupportedTransport =>
      node_diag "backend_valid" SevError n
        ("acp.config must be a JSON stdio ACP config: " +:+ AcpCommandError_to_string e)
        ("Provide a JSON config with type=" +:+ quote "stdio" +:+ ", command, and optional args")
  end.

Definition API_ONLY_ATTRS : list string := ["model"; "provider"; "reasoning_effort"; "max_tokens"; "speed"].

Definition api_only_attrs_present (n : Node) : list string :=
  filterb (contains_key (node_attrs n)) API_ONLY_ATTRS.

Definition validate_acp_node (n : Node) : list Diagnostic :=
  report (negb (opt_is "agent" (handler_type n)))
    (node_diag "backend_valid" SevError n
       ("backend=" +:+ quote "acp" +:+ " is only valid on agent nodes; prompt nodes are API-only")
       ("Use backend=" +:+ quote "api" +:+ " on prompt nodes"))
  ++ (match acp_from_attrs (legacy_acp_command_attr n) (acp_command_attr n) (acp_config_attr n) with
      | Some e => [acp_process_diagnostic n e]
      | None => []
      end)
  ++ (match api_only_attrs_present n with
      | [] => []
      | attrs =>
          [node_diag "backend_valid" SevError n
             ("backend=" +:+ quote "acp" +:+ " does not support API-only attributes: " +:+ str_join ", " attrs)
             "Remove API model/provider/control attributes from ACP nodes"]
      end).

Definition backend_valid_rule : LintRule := mkLint "backend_valid" (fun g =>
  each_node (fun n =>
    match node_backend n with
    | None => []
    | Some backend =>
        match agent_backend n with
        | Some None => [unsupported_backend_diagnostic n backend]
        | Some (Some BackendAcp) => validate_acp_node n
        | Some (Some BackendApi) | None => []
        end
    end) g).

(** ** Stylesheet, types and fidelity *)

Definition stylesheet_syntax_rule : LintRule := mkLint "stylesheet_syntax" (fun g =>
  if str_is_empty (model_stylesheet g) then []
  else match parse_stylesheet (model_stylesheet g) with
       | Ok _ => []
       | Err e => [graph_diag "stylesheet_syntax" SevError
                     ("Model stylesheet parse error: " +:+ style_error_text e)
                     "Fix the model_stylesheet syntax"]
       end).

Definition type_known_rule : LintRule := mkLint "type_known" (fun g =>
  each_node (fun n =>
    report_opt (node_type n) (fun t => negb (is_known_handler_type t)) (fun t =>
      node_diag "type_known" SevWarning n
        ("Node '" +:+ node_id n +:+ "' has unrecognized type '" +:+ t +:+ "'")
        ("Use one of: " +:+ str_join ", " KNOWN_HANDLER_TYPES))) g).

Definition fidelity_fix : string := "Use one of: " +:+ str_join ", " (Fidelity_to_string <$> Fidelity_variants).
Definition bad_fidelity (f : string) : bool := negb (is_some (Fidelity_from_str f)).

Definition fidelity_valid_rule : LintRule := mkLint "fidelity_valid" (fun g =>
  each_node (fun n => report_opt (node_fidelity n) bad_fidelity (fun f =>
    node_diag "fidelity_valid" SevWarning n
      ("Node '" +:+ node_id n +:+ "' has invalid fidelity mode '" +:+ f +:+ "'") fidelity_fix)) g
  ++ each_edge (fun e => report_opt (edge_fidelity e) bad_fidelity (fun f =>
    edge_diag "fidelity_valid" SevWarning e
      ("Edge " +:+ edge_from e +:+ " -> " +:+ edge_to e +:+ " has invalid fidelity mode '" +:+ f +:+ "'")
      fidelity_fix)) g
  ++ report_opt (default_fidelity g) bad_fidelity (fun f =>
    graph_diag "fidelity_valid" SevWarning ("Graph has invalid default_fidelity '" +:+ f +:+ "'") fidelity_fix)).

Definition VALID_DIRECTIONS : list string := ["TB"; "LR"; "BT"; "RL"].

Definition direction_valid_rule : LintRule := mkLint "direction_valid" (fun g =>
  report_opt (attr_str (graph_attrs g) "rankdir") (fun d => negb (str_mem d VALID_DIRECTIONS)) (fun d =>
    graph_diag "direction_valid" SevWarning ("Graph has invalid rankdir '" +:+ d +:+ "'")
      ("Use one of: " +:+ str_join ", " VALID_DIRECTIONS))).

Definition VALID_SELECTIONS : list string := ["deterministic"; "random"].

Definition selection_valid_rule : LintRule := mkLint "selection_valid" (fun g =>
  each_node (fun n =>
    report_opt (node_str_attr n "selection") (fun s => negb (str_mem s VALID_SELECTIONS)) (fun s =>
      node_diag "selection_valid" SevWarning n
        ("Node '" +:+ node_id n +:+ "' has invalid selection mode '" +:+ s +:+ "'")
        ("Use one of: " +:+ str_join ", " VALID_SELECTIONS))) g).

Definition DOT_RESERVED_KEYWORDS : list string :=
  ["graph"; "digraph"; "subgraph"; "node"; "edge"; "strict"; "if"].

Definition reserved_keyword_node_id_rule : LintRule := mkLint "reserved_keyword_node_id" (fun g =>
  each_node (fun n =>
    report (str_mem (to_lowercase (node_id n)) DOT_RESERVED_KEYWORDS)
      (node_diag "reserved_keyword_node_id" SevWarning n
         ("Node ID '" +:+ node_id n +:+ "' is a DOT reserved keyword and may cause parsing failures")
         ("Rename '" +:+ node_id n +:+ "' to '" +:+ to_lowercase (node_id n)
          +:+ "_step' or another non-reserved ID"))) g).
End node_rules.

(** ** Lint rules on prompts, scripts, failure policies and inert attributes
    (fabro-validate/src/rules/), and the rules that need a model catalog. *)


Section attr_rules.
Context {HO : HashOrder}.

(** ** Prompts and scripts *)

Definition prompt_on_llm_nodes_rule : LintRule := mkLint "prompt_on_llm_nodes" (fun g =>
  each_node (fun n =>
    let has_prompt := is_some_and (fun p => negb (str_is_empty p)) (node_prompt n) in
    let has_label := is_some_and (fun l => negb (str_is_empty l)) (node_str_attr n "label") in
    report (is_llm_handler_type (handler_type n) && (negb has_prompt && negb has_label))%bool
      (node_diag "prompt_on_llm_nodes" SevWarning n
         ("LLM node '" +:+ node_id n +:+ "' has no prompt or label attribute")
         "Add a prompt or label attribute")) g).

Definition is_key_invalid (k : ContextKeyAttr) : bool :=
  match k with KeyInvalid => true | _ => false end.

Definition stdin_source_valid_rule : LintRule := mkLint "stdin_source_valid" (fun g =>
  each_node (fun n =>
    report (bool_decide (from_handler_type (handler_type n) = SHCommand)
            && is_key_invalid (context_key_attr n "stdin_source"))%bool
      (node_diag "stdin_source_valid" SevError n
         ("Node '" +:+ node_id n +:+ "' has an empty or non-string 'stdin_source'")
         ("Set 'stdin_source' to a context key such as " +:+ quote "context.parallel.results"))) g).

Definition is_ascii_whitespace (c : ascii) : bool :=
  (Ascii.eqb c " " || Ascii.eqb c "009" || Ascii.eqb c "010" || Ascii.eqb c "012" || Ascii.eqb c "013")%bool.

(** ["cd"], whitespace and then a slash, at the start of the text. *)
Definition cd_absolute_here (s : string) : bool :=
  match s with
  | String c (String d (String w rest)) =>
      (Ascii.eqb c "c" && Ascii.eqb d "d" && is_ascii_whitespace w
       && starts_with "/" (str_span is_ascii_whitespace rest).2)%bool
  | _ => false
  end.

Fixpoint contains_cd_absolute (s : string) : bool :=
  match s with
  | EmptyString => false
  | String _ rest => (cd_absolute_here s || contains_cd_absolute rest)%bool
  end.

Definition script_absolute_cd_rule : LintRule := mkLint "script_absolute_cd" (fun g =>
  each_node (fun n =>
    report (opt_is "command" (handler_type n) && contains_cd_absolute (default "" (node_script n)))%bool
      (node_diag "script_absolute_cd" SevWarning n
         ("Script node '" +:+ node_id n +:+ "' contains `cd /…` with an absolute path")
         "Use a relative path; the engine sets the working directory to the worktree automatically")) g).

Definition command_requires_script_rule : LintRule := mkLint "command_requires_script" (fun g =>
  each_node (fun n =>
    report (opt_is "command" (handler_type n)
            && negb (is_some_and (fun s => negb (str_is_empty (trim s))) (node_script n)))%bool
      (node_diag "command_requires_script" SevError n
         ("Command node '" +:+ node_id n +:+ "' has no 'script' to run")
         "Add a 'script' attribute, or remove the command shape or type if this was meant to be an agent node")) g).

Definition file_ref_fix : string :=
  "Check that the path is relative to the workflow file's directory and the file exists".

Definition unresolved_file_ref_rule : LintRule := mkLint "unresolved_file_ref" (fun g =>
  each_node (fun n =>
    report_opt (node_str_attr n "prompt") (starts_with "@") (fun p =>
      node_diag "unresolved_file_ref" SevError n
        ("Node '" +:+ node_id n +:+ "' has unresolved file reference: " +:+ p) file_ref_fix)) g
  ++ report_opt (attr_str (graph_attrs g) "goal") (starts_with "@") (fun p =>
      graph_diag "unresolved_file_ref" SevError
        ("Graph goal has unresolved file reference: " +:+ p) file_ref_fix)).

Definition import_error_rule : LintRule := mkLint "import_error" (fun g =>
  each_node (fun n =>
    report_opt (node_str_attr n "import_error") (fun _ => true) (fun msg =>
      node_diag "import_error" SevError n msg "Fix the imported workflow or import path")
    ++ report (contains_key (node_attrs n) "import")
      (node_diag "import_error" SevError n "unresolved import (no base directory available)"
         "Load the workflow from a file so imports can resolve relative to it")) g).

Definition join_policy_removed_rule : LintRule := mkLint "join_policy_removed" (fun g =>
  each_node (fun n =>
    report (contains_key (node_attrs n) "join_policy")
      (node_diag "join_policy_removed" SevError n
         ("Node '" +:+ node_id n +:+ "' sets the removed 'join_policy' attribute. Remove 'join_policy'; parallel nodes always wait for every branch to finish")
         "Remove 'join_policy' from this node")) g).

(** ** Failure policies *)

Definition invalid_value_diagnostic (id : option string) (value : AttrValue) : option Diagnostic :=
  let diag msg := Some (diagnostic "on_failure_valid" SevError msg id None
                          ("Use one of: " +:+ OnFailure_expected_values)) in
  match value with
  | AString v =>
      if is_some (OnFailure_from_str v) then None
      else diag (match id with
                 | Some id => "Node '" +:+ id +:+ "' has invalid on_failure value '" +:+ v +:+ "'"
                 | None => "Graph has invalid on_failure value '" +:+ v +:+ "'"
                 end)
  | _ => diag (match id with
               | Some id => "Node '" +:+ id +:+ "' attribute 'on_failure' must be a string"
               | None => "Graph attribute 'on_failure' must be a string"
               end)
  end.

Definition on_failure_values (g : Graph) : list (string * AttrValue) :=
  sort_on fst (omap (fun kn => (fun v => (kn.1, v)) <$> node_attrs kn.2 !! "on_failure")
                 (hash_iter (graph_nodes g))).

Definition on_failure_valid_rule : LintRule := mkLint "on_failure_valid" (fun g =>
  option_list (v ← graph_attrs g !! "on_failure"; invalid_value_diagnostic None v)
  ++ omap (fun kv => invalid_value_diagnostic (Some kv.1) kv.2) (on_failure_values g)
  ++ each_edge (fun e =>
       report (contains_key (edge_attrs e) "on_failure")
         (edge_diag "on_failure_valid" SevWarning e
            ("Edge '" +:+ edge_from e +:+ " -> " +:+ edge_to e
             +:+ "' sets 'on_failure', which has no effect on edges")
            "Set 'on_failure' on the graph or the source node")) g).

Definition auto_status_diag (n : Node) : Diagnostic :=
  if contains_key (node_attrs n) "on_failure" then
    node_diag "auto_status_deprecated" SevWarning n
      ("Node '" +:+ node_id n +:+ "' sets deprecated 'auto_status', which is ignored because 'on_failure' is set")
      "Remove 'auto_status'"
  else if auto_status n then
    node_diag "auto_status_deprecated" SevWarning n
      ("Node '" +:+ node_id n +:+ "' sets deprecated 'auto_status=true'")
      ("Use on_failure=" +:+ quote "succeed" +:+ " instead")
  else
    node_diag "auto_status_deprecated" SevWarning n
      ("Node '" +:+ node_id n +:+ "' sets deprecated 'auto_status', which has no effect unless it is true")
      "Remove 'auto_status'".

Definition auto_status_deprecated_rule : LintRule := mkLint "auto_status_deprecated" (fun g =>
  auto_status_diag <$> sort_on node_id
    (filterb (fun n => contains_key (node_attrs n) "auto_status") (hash_values (graph_nodes g)))).
End attr_rules.
