(* ===== verification/Validate.v ===== *)
(** * Validation of a graph (fabro-validate/src/lib.rs and src/rules/mod.rs)

    The rules on threads, parallel branches and handler-specific attributes,
    the catalog rules, the list of built-in rules and the validation passes. *)

From S2P Require Import Prelude RustStr RustNum GraphTypes Condition Stylesheet Lint LintGraph.
From S2P Require Import LintNode.
Local Open Scope string_scope.
Local Open Scope list_scope.

Section session_rules.
Context {HO : HashOrder}.

(** ** Threads and fidelity *)

Definition THREAD_FIX : string := "Add fidelity=" +:+ quote "full" +:+ " to enable session reuse, or remove thread_id".

Definition thread_id_requires_fidelity_full_rule : LintRule := mkLint "thread_id_requires_fidelity_full" (fun g =>
  let graph_default_full := opt_is "full" (default_fidelity g) in
  each_node (fun n =>
    report (is_some (node_thread_id n) && negb (is_branch_only_node g (node_id n))
            && negb (opt_is "full" (node_fidelity n)) && negb graph_default_full)%bool
      (node_diag "thread_id_requires_fidelity_full" SevWarning n
         ("Node '" +:+ node_id n +:+ "' has thread_id but fidelity is not 'full'") THREAD_FIX)) g
  ++ each_edge (fun e =>
    let edge_full := opt_is "full" (edge_fidelity e) in
    let target_full := opt_is "full" (n ← graph_nodes g !! edge_to e; node_fidelity n) in
    report (is_some (edge_thread_id e) && negb (is_fork_edge g e)
            && (negb edge_full && negb target_full && negb graph_default_full))%bool
      (edge_diag "thread_id_requires_fidelity_full" SevWarning e
         ("Edge " +:+ edge_from e +:+ " -> " +:+ edge_to e +:+ " has thread_id but fidelity is not 'full'")
         THREAD_FIX)) g
  ++ report (is_some (default_thread g) && negb graph_default_full)%bool
       (graph_diag "thread_id_requires_fidelity_full" SevWarning
          "Graph has default_thread but default_fidelity is not 'full'" THREAD_FIX)).

(** ** Handler-specific attributes *)

Definition HANDLER_SPECIFIC_ATTRS : list (string * list StageHandler) := [
  ("script", [SHCommand]);
  ("language", [SHCommand]);
  ("stdin_source", [SHCommand]);
  ("duration", [SHWait]);
  ("max_parallel", [SHParallel]);
  ("output_retries", [SHAgent; SHPrompt]);
  ("output_schema", [SHAgent; SHPrompt; SHCommand]);
  ("prompt", [SHAgent; SHPrompt; SHParallelFanIn]);
  ("review_target", [SHHuman])
].

Definition script_prompt_conflict (n : Node) : Diagnostic :=
  node_diag "script_prompt_conflict" SevError n
    ("Node '" +:+ node_id n +:+ "' sets both 'script' and 'prompt'. No built-in handler reads both: command handlers consume 'script', while LLM handlers consume 'prompt'")
    "Remove whichever attribute is wrong, or split the node into a command node and an agent node".

Definition inert_diag (n : Node) (raw_type attr : string) (consumers : list StageHandler) : Diagnostic :=
  let names := str_join ", " (StageHandler_to_string <$> consumers) in
  node_diag "inert_attribute" SevWarning n
    ("Node '" +:+ node_id n +:+ "' (type '" +:+ raw_type +:+ "') sets '" +:+ attr
     +:+ "', which is only read by " +:+ names +:+ " nodes and has no effect here")
    ("Remove '" +:+ attr +:+ "' or change the node to a type that reads it (" +:+ names +:+ ")").

Definition inert_attribute_rule : LintRule := mkLint "inert_attribute" (fun g =>
  each_node (fun n =>
    let conflict := (contains_key (node_attrs n) "script" && contains_key (node_attrs n) "prompt")%bool in
    report conflict (script_prompt_conflict n)
    ++ (match opt_filter is_known_handler_type (handler_type n) with
        | None => []
        | Some raw_type =>
            let handler := from_handler_type (Some raw_type) in
            concat ((fun '(attr, consumers) =>
              report (contains_key (node_attrs n) attr
                      && negb (conflict && (String.eqb attr "script" || String.eqb attr "prompt"))
                      && negb (bool_decide (handler ∈ consumers)))%bool
                (inert_diag n raw_type attr consumers)) <$> HANDLER_SPECIFIC_ATTRS)
        end)) g).

(** ** Attributes on parallel branches *)

Definition BRANCH_IGNORED_ATTRS : list string := ["thread_id"].

Definition FULL_FIDELITY_MESSAGE : string :=
  "Parallel branches run at most at summary:high; full is degraded at runtime because branches cannot share a session".
Definition THREAD_ID_FIX : string :=
  "Remove 'thread_id': parallel branches inherit the thread resolved when the parallel node started".

Definition quoted_list (ids : list string) : string := str_join ", " ((fun id => "'" +:+ id +:+ "'") <$> ids).

Definition full_fidelity_fix (parallel_ids : list string) : string :=
  let parent := match parallel_ids with
                | [_] => "parallel node " +:+ quoted_list parallel_ids
                | _ => "parallel nodes " +:+ quoted_list parallel_ids
                end in
  "Use fidelity=" +:+ quote "summary:high" +:+ " or another lower mode on this branch; to reuse a full session before fan-out, set fidelity="
  +:+ quote "full" +:+ " on " +:+ parent +:+ " or its incoming edge".

Definition full_fidelity_diagnostic (id : option string) (e : option (string * string))
    (parallel_ids : list string) : Diagnostic :=
  diagnostic "parallel_branch_inert_attribute" SevWarning FULL_FIDELITY_MESSAGE id e
    (full_fidelity_fix parallel_ids).

Definition branch_edge_diags (g : Graph) (e : Edge) : list Diagnostic :=
  if negb (is_fork_edge g e) then []
  else
    report (opt_is "full" (edge_fidelity e))
      (full_fidelity_diagnostic None (Some (edge_from e, edge_to e)) [edge_from e])
    ++ concat ((fun attr =>
         report (contains_key (edge_attrs e) attr)
           (edge_diag "parallel_branch_inert_attribute" SevWarning e
              ("Edge " +:+ edge_from e +:+ " -> " +:+ edge_to e +:+ " sets '" +:+ attr
               +:+ "', which is ignored on parallel branch edges: branches receive the context snapshot taken when '"
               +:+ edge_from e +:+ "' started") THREAD_ID_FIX)) <$> BRANCH_IGNORED_ATTRS).

Definition branch_node_diags (g : Graph) (target : string) : list Diagnostic :=
  match branch_only_parents g target, graph_nodes g !! target with
  | Some parents, Some n =>
      report (opt_is "full" (node_fidelity n)) (full_fidelity_diagnostic (Some (node_id n)) None parents)
      ++ concat ((fun attr =>
           report (contains_key (node_attrs n) attr)
             (node_diag "parallel_branch_inert_attribute" SevWarning n
                ("Node '" +:+ node_id n +:+ "' sets '" +:+ attr
                 +:+ "', but it only runs as a parallel branch (of " +:+ quoted_list parents
                 +:+ "), where '" +:+ attr
                 +:+ "' is ignored: branches receive the context snapshot taken when the parallel node started")
                THREAD_ID_FIX)) <$> BRANCH_IGNORED_ATTRS)
  | _, _ => []
  end.

Definition parallel_branch_inert_attribute_rule : LintRule := mkLint "parallel_branch_inert_attribute" (fun g =>
  if bool_decide (fork_ids g = ∅) then []
  else each_edge (branch_edge_diags g) g
       ++ concat (branch_node_diags g <$> sorted_ids (branch_targets g))).
End session_rules.

(** ** The model catalog *)

(** What the catalog rules ask of a resolved catalog (fabro-model). *)
Record Catalog := {
  is_model_selector : string -> bool;
  knows_provider : string -> bool;
  catalog_providers : list string
}.

Section catalog_rules.
Context {HO : HashOrder}.
Variable catalog : Catalog.

Definition check_model_known (rule model context : string) (id : option string) : option Diagnostic :=
  if is_model_selector catalog model then None
  else Some (diagnostic rule SevWarning
               ("Unknown model '" +:+ model +:+ "' " +:+ context
                +:+ ". Run `fabro model list` to see available models") id None
               "Use a model ID from `fabro model list`").

Definition check_provider_known (rule provider context : string) (id : option string) : option Diagnostic :=
  if knows_provider catalog provider then None
  else
    let valid := str_join ", " (catalog_providers catalog) in
    Some (diagnostic rule SevWarning
            ("Unknown provider '" +:+ provider +:+ "' " +:+ context +:+ ". Valid providers: " +:+ valid) id None
            ("Use one of: " +:+ valid)).

Definition node_model_known_rule : LintRule := mkLint "node_model_known" (fun g =>
  each_node (fun n =>
    let context := "on node '" +:+ node_id n +:+ "'" in
    option_list (m ← node_model n; check_model_known "node_model_known" m context (Some (node_id n)))
    ++ option_list (p ← node_provider n;
                    check_provider_known "node_model_known" p context (Some (node_id n)))) g).

Definition selector_label (s : Selector) : string :=
  match s with
  | Universal => "*"
  | SelShape s => s
  | SelClass c => "." +:+ c
  | SelId id => "#" +:+ id
  end.

Definition check_declaration (context : string) (d : Declaration) : list Diagnostic :=
  if String.eqb (decl_property d) "model"
  then option_list (check_model_known "stylesheet_model_known" (decl_value d) context None)
  else if String.eqb (decl_property d) "provider"
  then option_list (check_provider_known "stylesheet_model_known" (decl_value d) context None)
  else [].

Definition stylesheet_model_known_rule : LintRule := mkLint "stylesheet_model_known" (fun g =>
  if str_is_empty (model_stylesheet g) then []
  else match parse_stylesheet (model_stylesheet g) with
       | Err _ => []
       | Ok rules =>
           concat ((fun r =>
             concat (check_declaration ("in stylesheet rule '" +:+ selector_label (rule_selector r) +:+ "'")
                     <$> rule_declarations r)) <$> rules)
       end).

Definition catalog_rules : list LintRule := [stylesheet_model_known_rule; node_model_known_rule].
End catalog_rules.

(** ** The validation passes *)

Section validate.
Context {HO : HashOrder} {RX : Regex} {ET : ErrorText} {SDK : AcpSdk}.

Definition built_in_rules : list LintRule := [
  start_node_rule; terminal_node_rule; reachability_rule; edge_target_exists_rule;
  start_no_incoming_rule; exit_no_outgoing_rule; condition_syntax_rule; stylesheet_syntax_rule;
  type_known_rule; backend_valid_rule; fidelity_valid_rule; retry_target_exists_rule;
  goal_gate_has_retry_rule; prompt_on_llm_nodes_rule; freeform_edge_count_rule;
  for_each_contract_rule; stdin_source_valid_rule; direction_valid_rule;
  reserved_keyword_node_id_rule; all_conditional_edges_rule; orphan_custom_outcome_rule;
  on_failure_valid_rule; auto_status_deprecated_rule; script_absolute_cd_rule;
  command_requires_script_rule; import_error_rule; join_policy_removed_rule;
  unresolved_file_ref_rule; thread_id_requires_fidelity_full_rule; selection_valid_rule;
  random_selection_no_conditions_rule; inert_attribute_rule; parallel_branch_inert_attribute_rule
].

Definition apply_rules (rules : list LintRule) (g : Graph) : list Diagnostic :=
  concat ((fun r => lint_apply r g) <$> rules).

Definition validate (g : Graph) (extra_rules : list LintRule) : list Diagnostic :=
  apply_rules built_in_rules g ++ apply_rules extra_rules g.

Definition validate_with_catalog (g : Graph) (catalog : Catalog) (extra_rules : list LintRule)
    : list Diagnostic :=
  validate g [] ++ apply_rules (catalog_rules catalog) g ++ apply_rules extra_rules g.

Definition validate_or_raise (g : Graph) (extra_rules : list LintRule) : result (list Diagnostic) string :=
  let ds := validate g extra_rules in
  result_bind (raise_on_errors ds) (fun _ => Ok ds).

Definition validate_with_catalog_or_raise (g : Graph) (catalog : Catalog) (extra_rules : list LintRule)
    : result (list Diagnostic) string :=
  let ds := validate_with_catalog g catalog extra_rules in
  result_bind (raise_on_errors ds) (fun _ => Ok ds).
End validate.
