(* ===== verification/ValidateFacts.v ===== *)
(** * What a validated graph guarantees

    The reachability pass is exact, undeclared endpoints are reported once each,
    a graph that passes validation has one start node, one terminal node and only
    declared endpoints, and routing on it always finds a declared next node. *)

From stdpp Require Import fin_sets.
From S2P Require Import Prelude RustStr RustNum GraphTypes Context Outcome Core Condition.
From S2P Require Import CondFacts Stylesheet Routing RoutingFacts Lint LintGraph LintNode.
From S2P Require Import LintNode Validate.
Local Open Scope string_scope.
Local Open Scope list_scope.

(** ** Diagnostics *)

Lemma raise_on_errors_Ok ds :
  raise_on_errors ds = Ok tt <-> forall d, d ∈ ds -> is_error d = false.
Proof.
  unfold raise_on_errors. rewrite <- filterb_nil. by destruct (filterb is_error ds).
Qed.

Lemma elem_of_concat_fmap {A B} (f : A -> list B) l y :
  y ∈ concat (f <$> l) <-> exists x, x ∈ l /\ y ∈ f x.
Proof.
  induction l as [|x l IH]; cbn.
  - split; [intros H; by apply not_elem_of_nil in H|intros (? & H & _); by apply not_elem_of_nil in H].
  - rewrite elem_of_app, IH. split.
    + intros [?|(z & ? & ?)]; [exists x|exists z]; set_solver.
    + intros (z & [->|?]%elem_of_cons & ?); eauto.
Qed.

Lemma each_node_elem `{HashOrder} f g d :
  d ∈ each_node f g <-> exists k n, graph_nodes g !! k = Some n /\ d ∈ f n.
Proof.
  unfold each_node. rewrite elem_of_concat_fmap. split.
  - intros (n & (k & Hk)%hash_values_elem & Hd). eauto.
  - intros (k & n & Hk & Hd). exists n. split; [|done]. apply hash_values_elem. eauto.
Qed.

Lemma each_edge_elem f g d :
  d ∈ each_edge f g <-> exists e, e ∈ graph_edges g /\ d ∈ f e.
Proof. apply elem_of_concat_fmap. Qed.

Lemma report_elem b d d' : d' ∈ report b d <-> b = true /\ d' = d.
Proof.
  destruct b; cbn; [rewrite list_elem_of_singleton; naive_solver|].
  split; [intros H; by apply not_elem_of_nil in H|naive_solver].
Qed.

(** ** Reachability *)

Definition edge_rel (g : Graph) (a b : string) : Prop :=
  exists e, e ∈ graph_edges g /\ edge_from e = a /\ edge_to e = b.

Definition reachable (g : Graph) : string -> string -> Prop := rtc (edge_rel g).

Lemma outgoing_edge_rel g id e : e ∈ outgoing_edges g id -> edge_rel g id (edge_to e).
Proof. intros [He <-]%outgoing_edges_elem. by exists e. Qed.

Lemma visit_edges_spec es (v : gset string) q v' q' :
  fold_left visit_edge es (v, q) = (v', q') ->
  v' = v ∪ list_to_set (edge_to <$> es) /\
  (forall x, x ∈ q' <-> x ∈ q \/ (x ∈ v' /\ x ∉ v)) /\
  (forall U : gset string, list_to_set (edge_to <$> es) ⊆ U ->
     size (U ∖ v') + length q' <= size (U ∖ v) + length q).
Proof.
  revert v q. induction es as [|e es IH]; intros v q; cbn [fold_left].
  { intros [= <- <-]. cbn. rewrite union_empty_r_L. split; [done|]. split; [|lia].
    intros x. split; [by left|]. by intros [?|[? ?]]. }
  cbn [visit_edge]. case_bool_decide as Hin; intros (Hv & Hq & Hs)%IH; rewrite ?fmap_cons, ?list_to_set_cons.
  - split; [clear - Hv Hin; set_solver|]. split; [done|]. intros U HU. apply Hs.
    clear - HU. set_solver.
  - split; [clear - Hv; set_solver|]. split.
    + intros x. rewrite Hq, elem_of_app, list_elem_of_singleton, Hv, !elem_of_union, elem_of_singleton.
      clear - Hin. destruct (decide (x = edge_to e)) as [->|]; naive_solver.
    + intros U HU. specialize (Hs U ltac:(clear - HU; set_solver)). rewrite length_app in Hs. cbn in Hs.
      assert (U ∖ v = {[edge_to e]} ∪ U ∖ ({[edge_to e]} ∪ v)) as Heq.
      { apply leibniz_equiv. intros x. clear - HU Hin. destruct (decide (x = edge_to e)); set_solver. }
      assert (size (U ∖ v) = S (size (U ∖ ({[edge_to e]} ∪ v)))) as Hsz; [|lia].
      rewrite Heq at 1. by rewrite size_union, size_singleton by (clear; set_solver).
Qed.

Section bfs.
Variables (g : Graph) (start : string).

(** Everything the search can visit: the start and the targets of edges. *)
Definition bfs_universe : gset string := {[start]} ∪ list_to_set (edge_to <$> graph_edges g).

(** Visited nodes are reachable, queued nodes are visited, and a visited node that
    has left the queue has all its successors visited. *)
Record bfs_inv (v : gset string) (q : list string) : Prop := mkBfs {
  bfs_start : start ∈ v;
  bfs_sound : forall x, x ∈ v -> reachable g start x;
  bfs_queued : forall x, x ∈ q -> x ∈ v;
  bfs_closed : forall x y, x ∈ v -> x ∉ q -> edge_rel g x y -> y ∈ v
}.

Lemma bfs_inv_step v id q v' q' :
  bfs_inv v (id :: q) -> fold_left visit_edge (outgoing_edges g id) (v, q) = (v', q') -> bfs_inv v' q'.
Proof.
  intros [Hst Hso Hq Hc] (Hv' & Hq' & _)%visit_edges_spec.
  assert (forall x, x ∈ v' -> x ∈ v \/ edge_rel g id x) as Hnew.
  { intros x. rewrite Hv', elem_of_union, elem_of_list_to_set, list_elem_of_fmap.
    intros [?|(e & -> & He)]; [by left|right; by apply outgoing_edge_rel]. }
  split.
  - rewrite Hv'. by apply elem_of_union_l.
  - intros x [Hx|Hx]%Hnew; [by apply Hso|]. eapply rtc_r; [apply Hso, Hq; left|done].
  - intros x [Hx|[Hx _]]%Hq'; [|done]. rewrite Hv'. apply elem_of_union_l, Hq. by right.
  - intros x y Hx Hnq Hxy. rewrite Hq' in Hnq.
    destruct (decide (x ∈ v)) as [Hxv|Hxv]; [|naive_solver].
    destruct (decide (x = id)) as [->|Hne].
    + rewrite Hv'. apply elem_of_union_r, elem_of_list_to_set, list_elem_of_fmap.
      destruct Hxy as (e & He & Hf & Ht). exists e. split; [done|]. by apply outgoing_edges_elem.
    + rewrite Hv'. apply elem_of_union_l. apply (Hc x); [done| |done].
      intros [?|?]%elem_of_cons; naive_solver.
Qed.

Lemma bfs_done v : bfs_inv v [] -> forall x, x ∈ v <-> reachable g start x.
Proof.
  intros [Hst Hso _ Hc] x. split; [apply Hso|]. revert x. apply rtc_ind_r; [done|].
  intros y z _ Hyz Hy. by apply (Hc y); [|apply not_elem_of_nil|].
Qed.

Lemma bfs_spec fuel v q :
  bfs_inv v q -> size (bfs_universe ∖ v) + length q <= fuel ->
  exists v', bfs g fuel v q = Some v' /\ forall x, x ∈ v' <-> reachable g start x.
Proof.
  revert v q. induction fuel as [|fuel IH]; intros v q Hinv Hf.
  all: destruct q as [|id q]; cbn [bfs] in *.
  1,3: exists v; split; [done|by apply bfs_done].
  - cbn in Hf. lia.
  - destruct (fold_left visit_edge _ _) as [v' q'] eqn:Hvis.
    apply IH; [by eapply bfs_inv_step|].
    apply visit_edges_spec in Hvis as (_ & _ & Hs).
    cbn in Hf. etrans; [apply Hs|lia].
    unfold bfs_universe. intros x. rewrite !elem_of_list_to_set, !list_elem_of_fmap.
    intros Hx. apply elem_of_union_r. rewrite elem_of_list_to_set, list_elem_of_fmap.
    destruct Hx as (e & -> & [He _]%outgoing_edges_elem). eauto.
Qed.

Lemma bfs_universe_size : size (bfs_universe ∖ {[start]}) <= length (graph_edges g).
Proof.
  etrans; [apply (subseteq_size _ (list_to_set (edge_to <$> graph_edges g))); unfold bfs_universe; clear; set_solver|].
  rewrite <- (length_fmap edge_to). generalize (edge_to <$> graph_edges g). intros l.
  induction l as [|x l IH]; cbn; [by rewrite size_empty|].
  rewrite size_union_alt, size_singleton.
  pose proof (subseteq_size (list_to_set l ∖ {[x]}) (list_to_set (C := gset string) l) ltac:(clear; set_solver)). lia.
Qed.
Lemma bfs_reachable :
  exists v, bfs g (bfs_fuel g) {[start]} [start] = Some v /\ forall x, x ∈ v <-> reachable g start x.
Proof.
  apply bfs_spec.
  - split; [clear; set_solver| |clear; set_solver|].
    + intros x ->%elem_of_singleton. apply rtc_refl.
    + intros x y ->%elem_of_singleton Hn. destruct Hn. left.
  - pose proof bfs_universe_size. unfold bfs_fuel. cbn. lia.
Qed.
End bfs.

(** ** Undeclared endpoints *)

Lemma check_endpoints_spec g l ds R :
  exists new, (fold_left (check_endpoint g) l (ds, R)).1 =
                ds ++ ((fun ie => edge_target_diag ie.1 ie.2) <$> new) /\
    NoDup new.*1 /\
    forall id, id ∈ new.*1 <-> id ∈ l.*1 /\ graph_nodes g !! id = None /\ id ∉ R.
Proof.
  revert ds R. induction l as [|[id e] l IH]; intros ds R; cbn [fold_left].
  { exists []. cbn. rewrite app_nil_r. split; [done|]. split; [constructor|].
    intros i. split; [intros Hi; by apply not_elem_of_nil in Hi|intros [Hi _]; by apply not_elem_of_nil in Hi]. }
  unfold check_endpoint at 2. case_match eqn:Hb.
  - apply andb_true_iff in Hb as [Hd Hr]. apply negb_true_iff in Hd, Hr.
    apply bool_decide_eq_false in Hr.
    assert (graph_nodes g !! id = None) as Hn by (unfold contains_key in Hd; by destruct (graph_nodes g !! id)).
    destruct (IH (ds ++ [edge_target_diag id e]) ({[id]} ∪ R)) as (new & -> & Hnd & Hin).
    exists ((id, e) :: new). cbn. rewrite <- app_assoc. split; [done|]. split.
    + constructor; [|done]. rewrite Hin. clear. set_solver.
    + intros i. rewrite !elem_of_cons, Hin. clear - Hr Hn. destruct (decide (i = id)); set_solver.
  - destruct (IH ds R) as (new & -> & Hnd & Hin). exists new. split; [done|]. split; [done|].
    intros i. cbn. rewrite elem_of_cons, Hin.
    split; [naive_solver|]. intros [[->|Hi] [Hn Hr]]; [|done]. exfalso.
    apply andb_false_iff in Hb as [Hb|Hb]; apply negb_false_iff in Hb.
    + apply contains_key_true in Hb as [? Hb]. congruence.
    + by apply bool_decide_eq_true in Hb.
Qed.

Lemma endpoints_elem edges id :
  id ∈ (endpoints edges).*1 <-> exists e, e ∈ edges /\ (edge_from e = id \/ edge_to e = id).
Proof.
  unfold endpoints. rewrite list_elem_of_fmap. setoid_rewrite elem_of_concat_fmap. split.
  - intros ([i e'] & -> & e & He & Hi). exists e. split; [done|]. clear - Hi. set_solver.
  - intros (e & He & Hi). destruct Hi as [<-|<-]; eexists (_, e); (split; [reflexivity|]);
      exists e; (split; [done|]); clear; set_solver.
Qed.

Section facts.
Context {HO : HashOrder} {RX : Regex} {ET : ErrorText} {SDK : AcpSdk}.

(** The reachability pass is exact.  Its breadth-first search always finishes
    within the fuel of the model, and on a graph with a start node it warns about
    precisely the declared nodes that no path of edges leads to from the start
    node, once each and in ascending order of their ids. *)
Theorem reachability_rule_exact g start :
  find_start_node g = Some start ->
  exists ids,
    lint_apply reachability_rule g = unreachable_diag <$> ids /\
    (forall id, id ∈ ids <-> is_Some (graph_nodes g !! id) /\ ~ reachable g (node_id start) id) /\
    NoDup ids /\ StronglySorted String.le ids.
Proof.
  intros Hs. unfold reachability_rule. cbn [lint_apply]. rewrite Hs. destruct (bfs_reachable g (node_id start)) as (v & -> & Hv).
  eexists. split; [reflexivity|]. split; [|split].
  - intros id. rewrite merge_sort_Permutation, filterb_elem, hash_keys_elem, negb_true_iff.
    by rewrite bool_decide_eq_false, Hv.
  - rewrite merge_sort_Permutation. apply NoDup_ListNoDup, List.NoDup_filter, NoDup_ListNoDup, hash_keys_NoDup.
  - apply StronglySorted_merge_sort; apply _.
Qed.
(** The endpoint check reports every undeclared endpoint of an edge exactly
    once, as an error, and nothing else. *)
Theorem undeclared_endpoints_reported_once g :
  let ds := lint_apply edge_target_exists_rule g in
  (forall id, Some id ∈ (diag_node_id <$> ds) <->
     (exists e, e ∈ graph_edges g /\ (edge_from e = id \/ edge_to e = id)) /\
     graph_nodes g !! id = None) /\
  NoDup (diag_node_id <$> ds) /\ (forall d, d ∈ ds -> is_error d = true /\ is_Some (diag_node_id d)).
Proof.
  cbn. destruct (check_endpoints_spec g (endpoints (graph_edges g)) [] ∅) as (new & -> & Hnd & Hin).
  cbn [app].
  assert (diag_node_id <$> ((fun ie => edge_target_diag ie.1 ie.2) <$> new) = Some <$> new.*1) as ->.
  { clear. induction new as [|x new IH]; cbn; [done|]. by rewrite IH. }
  split; [|split].
  - intros id. rewrite list_elem_of_fmap. transitivity (id ∈ new.*1); [clear; naive_solver|].
    rewrite Hin, endpoints_elem. clear. set_solver.
  - by apply NoDup_fmap_2; [apply _|].
  - intros d ([id e] & -> & _)%list_elem_of_fmap. by split; [|eexists].
Qed.
(** ** Graphs that pass *)

Lemma validate_or_raise_Ok g extra ds :
  validate_or_raise g extra = Ok ds ->
  ds = validate g extra /\ forall d, d ∈ ds -> is_error d = false.
Proof.
  unfold validate_or_raise. destruct (raise_on_errors (validate g extra)) as [[]|] eqn:Hr; [|done].
  intros [= <-]. split; [done|]. by apply raise_on_errors_Ok.
Qed.

Definition passes g : Prop := exists extra ds, validate_or_raise g extra = Ok ds.

Lemma rule_clean g r d :
  passes g -> r ∈ built_in_rules -> d ∈ lint_apply r g -> is_error d = false.
Proof.
  intros (extra & ds & [-> Hds]%validate_or_raise_Ok) Hr Hd. apply Hds.
  unfold validate, apply_rules. apply elem_of_app. left. apply elem_of_concat_fmap. eauto.
Qed.

(** A rule whose diagnostics are all errors reports nothing on such a graph. *)
Lemma rule_silent g r :
  passes g -> r ∈ built_in_rules -> (forall d, d ∈ lint_apply r g -> is_error d = true) ->
  lint_apply r g = [].
Proof.
  intros Hp Hr He. apply elem_of_nil_inv. intros d Hd.
  pose proof (He d Hd) as H. by rewrite (rule_clean g r d Hp Hr Hd) in H.
Qed.
End facts.

(** Find a rule in the list of built-in rules. *)
Ltac rule_in := unfold built_in_rules; repeat first [apply list_elem_of_here | apply list_elem_of_further].

Section passing.
Context {HO : HashOrder} {RX : Regex} {ET : ErrorText} {SDK : AcpSdk}.
Variable (g : Graph).
Hypothesis Hpass : passes g.

Lemma length_one {A} (l : list A) : length l = 1 -> exists x, l = [x].
Proof. destruct l as [|x [|]]; try done. eauto. Qed.

Lemma unique_start :
  exists k n, forall kn, (graph_nodes g !! kn.1 = Some kn.2 /\ is_start_entry kn = true) <-> kn = (k, n).
Proof.
  assert (lint_apply start_node_rule g = []) as Hr.
  { apply rule_silent; [done|rule_in|]. unfold start_node_rule. cbn. intros d Hd.
    repeat case_match; try (by apply not_elem_of_nil in Hd); by apply list_elem_of_singleton in Hd as ->. }
  assert (start_count g = 1) as Hc by (unfold start_node_rule in Hr; cbn in Hr; by repeat case_match).
  apply length_one in Hc as [[k n] Hkn]. exists k, n. intros [k' n'].
  cbn [fst snd]. rewrite <- hash_iter_elem, <- filterb_elem, Hkn. apply list_elem_of_singleton.
Qed.

Lemma unique_terminal :
  exists k n, forall kn, (graph_nodes g !! kn.1 = Some kn.2 /\ is_terminal_entry kn = true) <-> kn = (k, n).
Proof.
  assert (lint_apply terminal_node_rule g = []) as Hr.
  { apply rule_silent; [done|rule_in|]. unfold terminal_node_rule. cbn. intros d Hd.
    repeat case_match; try (by apply not_elem_of_nil in Hd); by apply list_elem_of_singleton in Hd as ->. }
  assert (terminal_count g = 1) as Hc by (unfold terminal_node_rule in Hr; cbn in Hr; by repeat case_match).
  apply length_one in Hc as [[k n] Hkn]. exists k, n. intros [k' n'].
  cbn [fst snd]. rewrite <- hash_iter_elem, <- filterb_elem, Hkn. apply list_elem_of_singleton.
Qed.

Lemma edges_declared e :
  e ∈ graph_edges g -> is_Some (graph_nodes g !! edge_from e) /\ is_Some (graph_nodes g !! edge_to e).
Proof.
  intros He. destruct (check_endpoints_spec g (endpoints (graph_edges g)) [] ∅) as (new & Hnew & _ & Hin).
  assert (lint_apply edge_target_exists_rule g = []) as Hr.
  { apply rule_silent; [done|rule_in|]. unfold edge_target_exists_rule. cbn [lint_apply]. rewrite Hnew.
    by intros d ([id e'] & -> & _)%list_elem_of_fmap. }
  unfold edge_target_exists_rule in Hr. cbn [lint_apply] in Hr. rewrite Hnew in Hr. apply fmap_nil_inv in Hr. subst new.
  assert (forall id, (edge_from e = id \/ edge_to e = id) -> is_Some (graph_nodes g !! id)) as H.
  { intros id Hid. apply not_eq_None_Some. intros Hn. apply (not_elem_of_nil id). apply (Hin id).
    split; [|split; [done|apply not_elem_of_empty]]. apply endpoints_elem. eauto. }
  split; apply H; auto.
Qed.

Lemma conditions_parse e c :
  e ∈ graph_edges g -> edge_condition e = Some c -> c <> "" -> parse_condition c = Ok tt.
Proof.
  intros He Hc Hne.
  assert (lint_apply condition_syntax_rule g = []) as Hr.
  { apply rule_silent; [done|rule_in|]. intros d (e' & _ & Hd)%each_edge_elem. repeat case_match;
      try (by apply not_elem_of_nil in Hd); by apply list_elem_of_singleton in Hd as ->. }
  destruct (parse_condition c) as [[]|err] eqn:Hp; [done|]. exfalso.
  eapply (not_elem_of_nil _). rewrite <- Hr. apply each_edge_elem. exists e. split; [done|].
  rewrite Hc. cbn. assert (str_is_empty c = false) as -> by (by apply String.eqb_neq). cbn.
  rewrite Hp. left.
Qed.

(** Every node with outgoing edges has an unconditional one. *)
Lemma has_fallback k n :
  graph_nodes g !! k = Some n -> outgoing_edges g (node_id n) <> [] ->
  exists e, e ∈ outgoing_edges g (node_id n) /\ is_fallback e = true.
Proof.
  intros Hn Hout.
  assert (lint_apply all_conditional_edges_rule g = []) as Hr.
  { apply rule_silent; [done|rule_in|]. by intros d (k' & n' & _ & [_ ->]%report_elem)%each_node_elem. }
  destruct (find_first is_fallback (outgoing_edges g (node_id n))) as [e|] eqn:Hf.
  { apply find_first_Some_elem in Hf. eauto. }
  exfalso. eapply (not_elem_of_nil _). rewrite <- Hr. apply each_node_elem. exists k, n. split; [done|].
  apply report_elem. split; [|done]. apply andb_true_iff. split.
  - by destruct (outgoing_edges g (node_id n)).
  - apply forallb_forall. intros e He%list_elem_of_In. rewrite find_first_None in Hf. specialize (Hf e He).
    unfold is_fallback, is_conditional in *. destruct (edge_condition e); cbn in *; by rewrite ?Hf.
Qed.

Lemma exit_without_outgoing k n :
  graph_nodes g !! k = Some n -> is_terminal_entry (k, n) = true -> outgoing_edges g (node_id n) = [].
Proof.
  intros Hn Ht.
  assert (lint_apply exit_no_outgoing_rule g = []) as Hr.
  { apply rule_silent; [done|rule_in|]. intros d (kn & _ & Hd)%elem_of_concat_fmap. cbn zeta in Hd. repeat case_match;
      try (by apply not_elem_of_nil in Hd); by apply list_elem_of_singleton in Hd as ->. }
  destruct (outgoing_edges g (node_id n)) as [|e es] eqn:Hout; [done|]. exfalso.
  eapply (not_elem_of_nil _). rewrite <- Hr. apply elem_of_concat_fmap. exists (k, n).
  split; [by apply hash_iter_elem|]. rewrite Ht. cbn [snd]. rewrite Hout. left.
Qed.

Lemma start_without_incoming n : find_start_node g = Some n -> incoming_edges g (node_id n) = [].
Proof.
  intros Hn.
  assert (lint_apply start_no_incoming_rule g = []) as Hr.
  { apply rule_silent; [done|rule_in|]. cbn. rewrite Hn. intros d Hd. case_match;
      [by apply not_elem_of_nil in Hd|by apply list_elem_of_singleton in Hd as ->]. }
  cbn in Hr. rewrite Hn in Hr. by destruct (incoming_edges g (node_id n)).
Qed.

Lemma start_node_found k n :
  (forall kn, (graph_nodes g !! kn.1 = Some kn.2 /\ is_start_entry kn = true) <-> kn = (k, n)) ->
  find_start_node g = Some n.
Proof.
  intros Hu. destruct (proj2 (Hu (k, n)) eq_refl) as [Hn Hs]. cbn in Hn, Hs.
  assert (forall k' n', graph_nodes g !! k' = Some n' -> is_start_entry (k', n') = true -> n' = n) as Huniq.
  { intros k' n' Hk Hst. by injection (proj1 (Hu (k', n')) (conj Hk Hst)). }
  unfold find_start_node. destruct (find_first _ _) as [n'|] eqn:Hf.
  - apply find_first_Some_elem in Hf as [(k' & Hk')%hash_values_elem Hsh]. f_equal.
    eapply Huniq; [done|]. unfold is_start_entry. cbn. by rewrite Hsh.
  - rewrite find_first_None in Hf. specialize (Hf n). rewrite hash_values_elem in Hf.
    specialize (Hf (ex_intro _ k Hn)). unfold is_start_entry in Hs. cbn in Hs. rewrite Hf in Hs. cbn in Hs.
    unfold or_else. destruct (graph_nodes g !! "start") as [n'|] eqn:E.
    { f_equal. apply (Huniq "start" n' E). unfold is_start_entry. cbn. by rewrite orb_true_r. }
    apply orb_true_iff in Hs as [->%String.eqb_eq| ->%String.eqb_eq]; [congruence|done].
Qed.

(** A graph that passes validation is well formed for a run.  It has a start
    node, found by the engine, that no edge enters and that is the only entry the
    start rule recognises; exactly one terminal entry, which no edge leaves; both
    endpoints of every edge are declared; and every condition parses. *)
Theorem validated_graph_structure :
  (exists start, find_start_node g = Some start /\ incoming_edges g (node_id start) = [] /\
     forall k n, graph_nodes g !! k = Some n -> is_start_entry (k, n) = true -> n = start) /\
  (exists k, forall k' n, graph_nodes g !! k' = Some n -> is_terminal_entry (k', n) = true ->
     k' = k /\ outgoing_edges g (node_id n) = []) /\
  (exists k n, graph_nodes g !! k = Some n /\ is_terminal_entry (k, n) = true) /\
  (forall e, e ∈ graph_edges g ->
     is_Some (graph_nodes g !! edge_from e) /\ is_Some (graph_nodes g !! edge_to e)) /\
  (forall e c, e ∈ graph_edges g -> edge_condition e = Some c -> c <> "" -> parse_condition c = Ok tt).
Proof.
  destruct unique_start as (k & n & Hs). destruct unique_terminal as (kt & nt & Ht).
  pose proof (start_node_found k n Hs) as Hfound.
  split; [|split; [|split; [|split]]].
  - exists n. split; [done|]. split; [by apply start_without_incoming|].
    intros k' n' Hk Hst. by injection (proj1 (Hs (k', n')) (conj Hk Hst)).
  - exists kt. intros k' n' Hk Hst. split; [|by eapply exit_without_outgoing].
    by injection (proj1 (Ht (k', n')) (conj Hk Hst)).
  - exists kt, nt. apply (proj2 (Ht (kt, nt)) eq_refl).
  - apply edges_declared.
  - apply conditions_parse.
Qed.

(** C36: routing on a validated graph never dead-ends and never leaves the graph.
    At every node with an outgoing edge, whatever the outcome, the context and the
    dice, edge selection finds an edge (unless a failed human gate blocks the
    fallthrough), the edge leaves that node and its target is declared. *)
Theorem validated_routing_total {M W} `{JsonDisplay} `{!Dice W} k n (o : Outcome M) c selection (w : W) :
  graph_nodes g !! k = Some n -> outgoing_edges g (node_id n) <> [] ->
  blocks_unconditional_failure_fallthrough n o = false ->
  exists sel, (select_edge n o c g selection w).1 = Some sel /\
    sel_edge sel ∈ outgoing_edges g (node_id n) /\
    is_Some (graph_nodes g !! edge_to (sel_edge sel)).
Proof.
  intros Hn Hout Hb.
  destruct (select_edge_cases n o c g selection w) as [(s & w' & Hs & Hin & _)|[_ Hnone]].
  - exists s. rewrite Hs. split; [done|]. apply candidates_outgoing in Hin. split; [done|].
    apply outgoing_edges_elem in Hin as [He _]. by apply edges_declared.
  - destruct (has_fallback k n Hn Hout) as (e & He & Hf). specialize (Hnone RUnconditional). cbn in Hnone.
    rewrite Hb in Hnone. exfalso. apply (not_elem_of_nil e). rewrite <- Hnone.
    apply filterb_elem. by split.
Qed.
End passing.
