(* ===== verification/Navigation.v ===== *)
(** * Runs stay inside the graph

    When edge selection and retry targets lead to declared nodes, handlers only
    jump to declared nodes and the lifecycle neither redirects a run nor rewrites a
    jump to an undeclared one, the current node of a run is always declared: the
    executor's lookup of the current node never fails.  A validated workflow graph
    meets the first condition. *)

From S2P Require Import Prelude RustStr RustNum Backoff GraphTypes Context Outcome Core Executor ExecutorLogic ExecutorFacts ExecutorRun.
From S2P Require Import ExecutorProps Condition CondFacts Failure Routing RoutingFacts Retry Workflow WorkflowProps CircuitBreaker Stylesheet.
From S2P Require Import Lint LintGraph LintNode Validate ValidateFacts.
Local Open Scope Z_scope.

(** ** Computations that stay at the current node *)

Section steady.
Context {M W : Type}.
Variable cur : string.

Definition keeps {A} (P : A -> Prop) (r : ctl A) (m : Mach M W) : Prop :=
  st_current (m_state m) = cur /\ match r with Val a => P a | _ => True end.

Definition steady {A} (P : A -> Prop) (c : exec M W A) : Prop :=
  forall m, st_current (m_state m) = cur -> wp c (keeps P) m.

Lemma steady_bind {A B} (P : A -> Prop) (Q : B -> Prop) c k :
  steady P c -> (forall a, P a -> steady Q (k a)) -> steady Q (bind c k).
Proof.
  intros Hc Hk m Hm. apply wp_bind. apply (wp_mono _ _ _ _ (Hc m Hm)).
  intros [a|e|] m' [Hm' Ha]; cbn; [by apply Hk|by split..].
Qed.

Lemma steady_ret {A} (P : A -> Prop) a : P a -> steady P (ret a).
Proof. by intros Ha m Hm. Qed.

Lemma steady_throw {A} (P : A -> Prop) e : steady P (throw e).
Proof. by intros m Hm. Qed.

Lemma steady_panic {A} (P : A -> Prop) : steady P panic.
Proof. by intros m Hm. Qed.

Lemma steady_get : steady (fun _ => True) get.
Proof. by intros m Hm. Qed.

Lemma steady_emit e : steady (fun _ => True) (emit e).
Proof. by intros m Hm. Qed.

Lemma steady_modify f : (forall s, st_current (f s) = st_current s) -> steady (fun _ => True) (modify f).
Proof. intros Hf m Hm. split; [|done]. cbn. by rewrite Hf. Qed.

Lemma steady_ask {A} (f : W -> A) : steady (fun _ => True) (ask_world f).
Proof. by intros m Hm. Qed.

Lemma steady_step {A} (P : A -> Prop) (f : W -> A * W) :
  (forall w a w', f w = (a, w') -> P a) -> steady P (step_world f).
Proof. intros Hf m Hm. unfold wp, step_world, keeps. destruct (f (m_world m)) eqn:E. cbn. eauto. Qed.

Lemma steady_call {A} (P : A -> Prop) (f : callback M W A) :
  (forall s w a c w', f s w = (Ok a, c, w') -> P a) -> steady P (call f).
Proof.
  intros Hf m Hm. unfold wp, call, keeps. destruct (f _ _) as [[[a|e] c] w] eqn:E; cbn; [|done].
  split; [done|eauto].
Qed.

Lemma steady_notify (f : notification M W) : steady (fun _ => True) (notify f).
Proof. intros m Hm. apply wp_notify. by intros c w. Qed.

Lemma steady_lift {A} (P : A -> Prop) r : (forall a, r = Ok a -> P a) -> steady P (lift_result r).
Proof. intros Hr. destruct r; [by apply steady_ret, Hr|apply steady_throw]. Qed.

Lemma steady_catch {A} (P : A -> Prop) c :
  steady P c -> steady (fun r => forall a, r = Ok a -> P a) (catch c).
Proof.
  intros Hc m Hm. apply wp_catch. apply (wp_mono _ _ _ _ (Hc m Hm)).
  intros [a|e|] m' [Hm' Ha]; (split; [done|]); [by intros ? [= <-]|done|done].
Qed.

Lemma steady_mono {A} (P Q : A -> Prop) c : steady P c -> (forall a, P a -> Q a) -> steady Q c.
Proof.
  intros Hc HPQ m Hm. apply (wp_mono _ _ _ _ (Hc m Hm)). intros [a|e|] m' [? ?]; split; auto.
Qed.

Lemma steady_any {A} (P : A -> Prop) c : steady P c -> steady (fun _ => True) c.
Proof. intros Hc. by eapply steady_mono. Qed.
End steady.

#[export] Hint Resolve steady_ret steady_throw steady_panic steady_get steady_emit steady_ask steady_notify : fabro.

(** Sequence steps whose result does not matter. *)
Ltac steady_skip := eapply (steady_bind _ (fun _ => True)); [solve [eauto with fabro | by apply steady_call | by apply steady_step]|intros ? _].

Section navigation.
Context {G N E M W : Type}.
Context {HM : OutcomeMeta M} {HN : NodeSpec N} {HE : EdgeSpec E}.
Context {HG : CoreGraph G N E M W} {HH : NodeHandler G N M W} {HR : Runtime W}.
Variable (lc : RunLifecycle G N E M W) (opts : ExecutorOptions) (g : G).

Definition declared (id : string) : Prop := is_Some (get_node (M := M) (W := W) g id).

Definition jumps_declared (o : Outcome M) : Prop := forall t, jump_to_node o = Some t -> declared t.

(** What routing needs of the graph, the handler and the lifecycle. *)
Record NavigableGraph : Prop := mkNavGraph {
  nav_edge : forall n o c w sel w',
    core_select_edge g n o c w = (Some sel, w') -> declared (spec_target (sel_edge sel));
  nav_retry : forall id t, core_get_retry_target (M := M) (W := W) g id = Some t -> declared t
}.

Record NavigableHandler : Prop := mkNavHandler {
  nav_execute : forall n c w o c' w', execute n c g w = (Ok o, c', w') -> jumps_declared o;
  nav_exhausted : forall n o, jumps_declared o -> jumps_declared (on_retries_exhausted (G := G) (W := W) n o)
}.

Record NavigableLifecycle : Prop := mkNavLifecycle {
  nav_skip_node : forall n s w o c w', before_node lc n s w = (Ok (NSkip o), c, w') -> jumps_declared o;
  nav_skip_attempt : forall x s w o c w', before_attempt lc x s w = (Ok (NSkip o), c, w') -> jumps_declared o;
  nav_after_node : forall n r s w r' c w',
    after_node lc n r s w = (Ok r', c, w') -> jumps_declared (outcome r) -> jumps_declared (outcome r');
  nav_override : forall x s w t c w', on_edge_selected lc x s w = (Ok (EOverride t), c, w') -> declared t
}.

Hypothesis (NG : NavigableGraph) (NH : NavigableHandler) (NL : NavigableLifecycle).

Definition good_result (r : NodeResult M) : Prop := jumps_declared (outcome r).
Definition good_prepared (p : option (PreparedEdgeSelection E)) : Prop :=
  forall p' sel, p = Some p' -> prep_selection p' = Some sel -> declared (spec_target (sel_edge sel)).

Definition skip_good (d : NodeDecision M) : Prop := forall o, d = NSkip o -> jumps_declared o.

(** *** Attempts *)

Lemma steady_report cur n r att b d : steady cur (fun _ => True) (report_attempt lc n r att b d).
Proof. unfold report_attempt. steady_skip. by apply steady_call. Qed.

Lemma steady_backoff cur policy att : steady cur (fun _ => True) (backoff_delay (M := M) (W := W) policy att).
Proof. unfold backoff_delay. steady_skip. case_match; eauto with fabro. Qed.

Lemma steady_attempt_outcome cur n policy att answer :
  (forall o, answer = Ok o -> jumps_declared o) ->
  steady cur (fun o => forall r, o = Some r -> good_result r) (attempt_outcome lc n policy att answer).
Proof.
  intros Ha. unfold attempt_outcome, wait_and_retry, finish_attempt.
  repeat case_match; simplify_eq;
    repeat (eapply (steady_bind _ (fun _ => True));
      [solve [eauto using steady_report, steady_backoff with fabro | by apply steady_step]|intros ? _]);
    try apply steady_throw; apply steady_ret; intros ? [=]; subst; unfold good_result; cbn; try done; eauto.
  by apply (nav_exhausted NH), Ha.
Qed.

Lemma steady_attempt_once cur n policy att :
  steady cur (fun o => forall r, o = Some r -> good_result r) (attempt_once lc g n policy att).
Proof.
  unfold attempt_once. steady_skip.
  eapply (steady_bind _ skip_good).
  { apply steady_call. intros s w d c w' Hd o ->. by eapply (nav_skip_attempt NL). }
  intros [|o|msg] Hd.
  - steady_skip. eapply steady_bind.
    + apply steady_catch. apply (steady_call _ jumps_declared). unfold run_handler.
      intros s w o c w' Ho. by eapply (nav_execute NH).
    + intros answer Ha. by apply steady_attempt_outcome.
  - apply steady_ret. intros r [= <-]. by apply Hd.
  - apply steady_throw.
Qed.

Lemma steady_attempt_loop cur fuel n policy att : steady cur good_result (attempt_loop lc g fuel n policy att).
Proof.
  revert att. induction fuel as [|fuel IH]; intros att; cbn [attempt_loop]; [apply steady_panic|].
  eapply steady_bind; [apply steady_attempt_once|]. intros [r|] Hr; [by apply steady_ret, Hr|apply IH].
Qed.

Lemma steady_execute_or_stall cur n :
  steady cur (fun a => forall r, a = Ok r -> good_result r) (execute_or_stall lc opts g n).
Proof.
  intros m Hm. unfold execute_or_stall, wp. case_match; [by destruct p|].
  by apply (steady_catch _ _ _ (steady_attempt_loop cur _ _ _ _)).
Qed.

(** *** One node *)

Lemma steady_select cur n o c :
  steady cur (fun x => forall sel, x = Some sel -> declared (spec_target (sel_edge sel))) (select g n o c).
Proof. apply steady_step. intros w a w' Ha sel ->. by eapply (nav_edge NG). Qed.

Lemma steady_routing_context cur c : steady cur (fun _ => True) (routing_context (N := N) (M := M) (W := W) g c).
Proof. unfold routing_context. steady_skip. by apply steady_lift. Qed.

Lemma steady_apply_succeed_policy cur n r :
  good_result r ->
  steady cur (fun rp => good_result rp.1 /\ good_prepared rp.2) (apply_succeed_policy g n r).
Proof.
  intros Hr. unfold apply_succeed_policy.
  case_match; [apply steady_ret; by split|]. case_match; [apply steady_ret; by split|].
  steady_skip. eapply steady_bind; [apply steady_routing_context|intros rctx _].
  eapply steady_bind; [apply steady_select|]. intros sel Hsel.
  case_match eqn:Hx.
  - apply steady_ret. split; [done|]. intros p s' [= <-] [= <-].
    apply opt_filter_Some in Hx as [-> _]. by apply Hsel.
  - destruct (apply_on_failure _ _) as [o' b] eqn:Ho.
    eapply steady_bind; [apply steady_select|]. intros sel' Hsel'. apply steady_ret. split.
    + unfold good_result, jumps_declared, set_outcome in *. cbn. intros t Ht. apply Hr.
      unfold apply_on_failure in Ho. repeat case_match; by simplify_eq/=.
    + intros p s' [= <-] Hs. by apply Hsel'.
Qed.

Lemma steady_after_node cur n r : good_result r -> steady cur good_result (after_node_call lc n r).
Proof.
  intros Hr. unfold after_node_call. steady_skip. apply steady_call.
  intros s w r' c w' H. by eapply (nav_after_node NL).
Qed.

Lemma steady_cancel_run {A} cur (P : A -> Prop) : steady cur P (cancel_run lc).
Proof.
  unfold cancel_run, run_end.
  eapply (steady_bind _ (fun _ => True)); [by apply steady_modify|intros ? _].
  eapply (steady_bind _ (fun _ => True)); [|intros; apply steady_throw]. steady_skip. apply steady_notify.
Qed.

Lemma steady_run_node cur n :
  steady cur (fun rp => good_result rp.1 /\ good_prepared rp.2) (run_node lc opts g n).
Proof.
  unfold run_node. steady_skip. eapply (steady_bind _ skip_good).
  { apply steady_call. intros s w d c w' Hd o ->. by eapply (nav_skip_node NL). }
  intros [|o|msg] Hd.
  - unfold run_continue. eapply steady_bind; [apply steady_execute_or_stall|].
    intros [r|e] Ha; [|case_match; first [apply steady_cancel_run | apply steady_throw]].
    eapply steady_bind; [by apply steady_apply_succeed_policy, Ha|]. intros rp [Hr Hp].
    eapply steady_bind; [by apply steady_after_node|]. intros r' Hr'. apply steady_ret. split; [done|].
    intros p sel [Hp' _]%opt_filter_Some. by apply Hp.
  - eapply steady_bind; [apply steady_after_node, Hd; done|]. intros r Hr. by apply steady_ret.
  - apply steady_throw.
Qed.

Lemma steady_resolve cur n o prepared :
  jumps_declared o -> good_prepared prepared ->
  steady cur (fun next => forall t, next_node_id next = Some t -> declared t)
    (resolve_next_step lc g n o prepared).
Proof.
  intros Ho Hp. unfold resolve_next_step, jump_step, edge_step, edge_decision.
  assert (forall x, steady cur (fun d => forall t, d = EOverride t -> declared t)
    (bind (emit (EvEdgeSelected (ec_from x) (ec_to x))) (fun _ => call (on_edge_selected lc x)))) as Hd.
  { intros x. steady_skip. apply steady_call. intros s w d c w' H t ->. by eapply (nav_override NL). }
  case_match eqn:Hj.
  { eapply steady_bind; [apply Hd|]. intros [|t|msg] Ht; [apply steady_ret|apply steady_ret|apply steady_throw].
    - intros t [= <-]. by apply Ho.
    - intros t' [= <-]. by apply Ht. }
  eapply (steady_bind _ (fun x => forall sel, x = Some sel -> declared (spec_target (sel_edge sel)))).
  { unfold chosen_edge. destruct prepared as [p|].
    - apply steady_ret. intros sel Hs. by eapply Hp.
    - steady_skip. eapply steady_bind; [apply steady_routing_context|intros rctx _]. apply steady_select. }
  intros sel Hsel. case_match eqn:Hx.
  - apply opt_filter_Some in Hx as [-> _]. specialize (Hsel _ eq_refl).
    eapply steady_bind; [apply Hd|]. intros [|t|msg] Ht; [apply steady_ret|apply steady_ret|apply steady_throw].
    + intros t. case_match; intros [= <-]; done.
    + intros t' [= <-]. by apply Ht.
  - repeat case_match; apply steady_ret; intros t; [intros [= <-]; by eapply (nav_retry NG)|done|done].
Qed.

(** *** Iterations and runs *)

Definition inside (m : Mach M W) : Prop := declared (st_current (m_state m)).

Lemma steady_inside {A} (P : A -> Prop) c m :
  steady (st_current (m_state m)) P c -> inside m -> wp c (fun _ => inside) m.
Proof.
  intros Hc Hm. apply (wp_mono _ _ _ _ (Hc m eq_refl)). intros r m' [Hcur _]. unfold inside. by rewrite Hcur.
Qed.

Lemma take_step_inside n o next m :
  (forall t, next_node_id next = Some t -> declared t) -> inside m ->
  wp (take_step lc g n o next) (fun _ => inside) m.
Proof.
  intros Ht Hm. unfold take_step. destruct next; repeat wp_step; try (apply Ht; done).
  apply run_end_wp. intros c w. cbn. by wp_step.
Qed.

Lemma finish_node_inside n rp m :
  good_result rp.1 -> good_prepared rp.2 -> inside m -> wp (finish_node lc g n rp) (fun _ => inside) m.
Proof.
  destruct rp as [r prepared]. cbn. intros Hr Hp Hm. unfold finish_node. do 7 wp_step. wp_step; [|done].
  do 2 wp_step. cbn [node_outcomes set_context record_result]. rewrite lookup_insert_eq. wp_step.
  eapply wp_mono; [apply (steady_resolve (st_current (m_state m)) n (outcome r) prepared Hr Hp); reflexivity|].
  intros next m1 [Hcur Hnext]. assert (inside m1) by (unfold inside; by rewrite Hcur).
  destruct next as [next|e|]; cbn [on_val]; [|done..]. do 3 wp_step. wp_step; [|done].
  by apply take_step_inside.
Qed.

Lemma terminal_step_inside n m : inside m -> wp (terminal_step lc g n) (fun _ => inside) m.
Proof.
  intros Hm. unfold terminal_step. do 2 wp_step. case_match.
  { repeat wp_step. apply run_end_wp. intros c' w'. cbn [on_val]. by wp_step. }
  repeat wp_step. case_match; [case_match eqn:Ht|].
  - apply is_some_and_true in Ht as (n' & Hn' & _). repeat wp_step. by exists n'.
  - wp_step. apply run_end_wp. intros ? ?. cbn [on_val]. by wp_step.
  - wp_step. apply run_end_wp. intros ? ?. cbn [on_val]. by wp_step.
Qed.

Lemma loop_body_inside m : inside m -> wp (loop_body lc opts g) (fun _ => inside) m.
Proof.
  intros Hm. unfold loop_body. repeat wp_step. case_match; [by apply cancel_run_wp|].
  repeat wp_step. case_match; [|by wp_step]. case_match; [by apply terminal_step_inside|].
  unfold visit_node. wp_step.
  assert (steady (st_current (m_state m)) (fun _ => True) (check_visits (M := M) (W := W) opts n)) as Hc.
  { unfold check_visits. steady_skip. repeat case_match; first [apply steady_throw | by apply steady_modify]. }
  apply (wp_mono _ _ _ _ (Hc m eq_refl)). intros [[]|e|] m1 [Hc1 _]; cbn [on_val];
    [|unfold inside; by rewrite Hc1..].
  wp_step. apply (wp_mono _ _ _ _ (steady_run_node _ n m1 Hc1)). intros [rp|e|] m2 [H2 Hrp]; cbn [on_val].
  - destruct Hrp. apply finish_node_inside; [done..|]. unfold inside. by rewrite H2.
  - unfold inside. by rewrite H2.
  - unfold inside. by rewrite H2.
Qed.

Lemma run_inside fuel m r m' : inside m -> run lc opts g fuel m = Some (r, m') -> inside m'.
Proof.
  assert (forall m, inside m -> run_loop lc opts g fuel m = Some (r, m') -> inside m') as Hloop.
  { induction fuel as [|fuel IH]; intros m0 Hm; cbn [run_loop]; [done|].
    pose proof (loop_body_inside m0 Hm) as Hwp. unfold wp in Hwp.
    destruct (loop_body lc opts g m0) as [[[o|]|e|] m1]; [|by apply IH|..]; by intros [= <- <-]. }
  intros Hm. unfold run.
  assert (wp (bind (emit EvRunStart) (fun _ => call (on_run_start lc g))) (fun _ => inside) m) as Hwp
    by (repeat wp_step; done).
  unfold wp in Hwp. destruct (bind _ _ m) as [[[]|e|] m1]; [by apply Hloop|..]; by intros [= <- <-].
Qed.
End navigation.

(** ** Validated graphs, run

    Runs of the engine on a graph that passed validation, under a composite
    lifecycle of well-behaved parts such as the circuit breaker, and witnesses for
    the properties of validation on a concrete workflow. *)


(** ** Well-behaved lifecycles *)

Section lifecycles.
Context {G N E M W : Type} {HN : NodeSpec N} {HE : EdgeSpec E} {HG : CoreGraph G N E M W}.
Variable (g : G).

Lemma noop_navigable : NavigableLifecycle (NoopLifecycle (G := G) (N := N) (E := E) (M := M) (W := W)) g.
Proof. split; try done. by intros n r s w r' c w' [= <- _ _]. Qed.

Lemma first_decision_from {D} (is_continue : D -> bool) cont f
    (children : list (RunLifecycle G N E M W)) s w d c w' :
  first_decision is_continue cont f children s w = (Ok d, c, w') ->
  d = cont \/ exists child s' w0 c', child ∈ children /\ f child s' w0 = (Ok d, c', w').
Proof.
  revert s w. induction children as [|child rest IH]; intros s w; cbn; [by intros [= <- _ _]; left|].
  destruct (f child s w) as [[[d'|e] c1] w1] eqn:Hf; [|done]. case_match.
  - intros [?|(ch & s' & w0 & c' & ? & ?)]%IH; [by left|]. right. exists ch, s', w0, c'.
    split; [by right|done].
  - intros [= -> -> ->]. right. exists child, s, w, c. split; [left|done].
Qed.

(** The parts of a composite lifecycle are enough. *)
Lemma composite_navigable children :
  Forall (fun lc => NavigableLifecycle lc g) children -> NavigableLifecycle (CompositeLifecycle children) g.
Proof.
  rewrite Forall_forall. intros Hall. split.
  - intros n s w o c w' [|(ch & s' & w0 & c' & Hin & Hd)]%first_decision_from; [done|].
    by eapply (nav_skip_node _ _ (Hall _ Hin)).
  - intros n s w o c w' [|(ch & s' & w0 & c' & Hin & Hd)]%first_decision_from; [done|].
    by eapply (nav_skip_attempt _ _ (Hall _ Hin)).
  - intros n r s w r' c w'. cbn. revert r s w.
    induction children as [|ch rest IH]; intros r s w; cbn; [by intros [= <- _ _]|].
    destruct (after_node ch n r s w) as [[[r1|e] c1] w1] eqn:Ha; [|done]. intros Hrest Hr.
    eapply IH; [|done|]; [intros x Hx; apply Hall; by right|].
    eapply (nav_after_node _ _ (Hall ch ltac:(left))); eauto.
  - intros n s w o c w' [|(ch & s' & w0 & c' & Hin & Hd)]%first_decision_from; [done|].
    by eapply (nav_override _ _ (Hall _ Hin)).
Qed.
End lifecycles.

Section validated.
Context {M W : Type} {HM : OutcomeMeta M} {HO : HashOrder} {JD : JsonDisplay} {RX : Regex} {RR : RegexReplace}.
Context {DW : Dice W} {HS : Services M W} {HR : Runtime W} {ET : ErrorText} {SDK : AcpSdk}.

(** The circuit breaker only lets a run go on or blocks it. *)
Lemma breaker_navigable g limit (get_breaker : W -> Breaker) put :
  NavigableLifecycle (CircuitBreakerLifecycle (M := M) limit get_breaker put) g.
Proof.
  split; try done.
  - intros n r s w r' c w'. cbn. destruct (breaker_after_node _ _ _ _) as [[|] b]; [|done].
    by intros [= <- _ _].
  - intros x s w t c w'. cbn. destruct (breaker_on_edge_selected _ _ _) as [d b] eqn:Hd. intros [= -> _ _].
    unfold breaker_on_edge_selected, breaker_count_restart in Hd. by repeat case_match; simplify_eq.
Qed.

Lemma validated_navigable g : passes g -> NavigableGraph (HG := WorkflowGraph (M := M) (W := W)) g.
Proof.
  intros Hg. split.
  - intros n o c w sel w' Hs. cbn in Hs.
    destruct (select_edge_cases n o c g (node_selection n) w) as [(s & w1 & Hsel & Hin & _)|[Hsel _]];
      rewrite Hsel in Hs; [|done].
    injection Hs as -> _. apply candidates_outgoing, outgoing_edges_elem in Hin as [He _].
    by apply (edges_declared g Hg).
  - intros id t Ht. cbn in Ht. unfold get_retry_target in Ht.
    assert (forall o t, existing g o = Some t -> is_Some (graph_nodes g !! t)) as Hex.
    { intros o t'. unfold existing. by intros [_ H%contains_key_true]%opt_filter_Some. }
    assert (forall (a b : option string) t, or_else a b = Some t -> a = Some t \/ b = Some t) as Hor
      by (intros [x|] b t'; cbn; auto).
    apply Hor in Ht as [Ht|[Ht|Ht]%Hor]; [|by eapply Hex..].
    destruct (graph_nodes g !! id); [|done]. apply Hor in Ht as [Ht|Ht]; by eapply Hex.
Qed.

(** The registered handlers jump only to where an edge of the graph leads.  The only one that
    jumps is that of parallel nodes, and it does ([parallel_jumps_along_edge] in ParallelRuns.v). *)
Definition handlers_jump_along g : Prop :=
  forall n c w o c' w', dispatch_handler n c g w = (Finished (Ok o), c', w') ->
    forall t, jump_to_node o = Some t -> exists e, e ∈ graph_edges g /\ edge_to e = t.

Lemma workflow_handler_navigable g :
  passes g -> handlers_jump_along g ->
  NavigableHandler (HG := WorkflowGraph (M := M) (W := W)) (HH := WorkflowNodeHandler g) g.
Proof.
  intros Hg Hj. split.
  - intros n c w o c' w'. cbn. unfold execute_single_attempt.
    destruct (handler_context c w) as [[snapshot|f] w1]; [|done].
    case_match; [by destruct p|]. destruct (dispatch_handler n snapshot g w1) as [[d after] w2] eqn:Hd.
    destruct d as [[o'|[]]|msg]; intros [=]; subst. intros t Ht.
    destruct (Hj n snapshot w1 o after w' Hd t Ht) as (e & He & <-). by apply (edges_declared g Hg).
  - intros n o Ho t. cbn. unfold finalize_retries_exhausted. case_match; cbn; apply Ho.
Qed.

(** C37: a run of the engine on a validated graph can be started and never leaves the graph.
    The graph's table is keyed by node id, as the parser makes it.  Whatever the handlers, the
    circuit breaker and the other parts of a composite lifecycle do, as long as a handler that
    jumps does so to where an edge of the graph leads (as the handler of parallel nodes does,
    the only one that jumps) and no part of the lifecycle redirects the run to an undeclared
    node or makes a handler's outcome jump there, the state a run leaves, in the end or when it
    stops with an error, is at a declared node: the lookup of the current node does not fail. *)
Theorem validated_run_stays_inside g :
  keyed_by_id g -> passes g -> handlers_jump_along g ->
  exists s, state_new (M := M) (W := W) g = Ok s /\
    forall children dry_run fuel (w : W) r m',
      Forall (fun lc => NavigableLifecycle lc g) children ->
      workflow_run (CompositeLifecycle children) g dry_run fuel (mkMach s w []) = Some (r, m') ->
      is_Some (graph_nodes g !! st_current (m_state m')).
Proof.
  intros Hk Hg Hj. destruct (unique_start g Hg) as (k & n & Hs).
  pose proof (start_node_found g k n Hs) as Hfound.
  destruct (proj2 (Hs (k, n)) eq_refl) as [Hn _]. cbn in Hn.
  exists (state_at (node_id n)). split; [unfold state_new; cbn; by rewrite Hfound|].
  intros children dry_run fuel w r m' Hch Hrun.
  eapply (run_inside (HH := WorkflowNodeHandler g) _ _ g (validated_navigable g Hg)
            (workflow_handler_navigable g Hg Hj) (composite_navigable g children Hch)); [|exact Hrun].
  unfold inside, declared. cbn. rewrite (Hk k n Hn). by exists n.
Qed.
End validated.

(** ** Witnesses: the sample workflow passes validation *)
Module ValidateWitness.
Import SampleWorkflow.
#[export] Instance sample_text : ErrorText := {| debug_str := fun s => s; regex_error := fun _ => "" |}.
#[export] Instance sample_sdk : AcpSdk := {| acp_command_error := fun _ => None; acp_config_error := fun _ => None |}.

Lemma sample_passes : passes sample_graph.
Proof. exists [], (validate sample_graph []). vm_compute. reflexivity. Qed.

Lemma sample_jumps : handlers_jump_along (M := unit) (W := nat) sample_graph.
Proof. intros n c w o c' w' [= <- <- <-] t. done. Qed.

(** The start node of the sample, and an isolated node next to it. *)
Definition start_node : Node := sample_node "start" "Mdiamond" false.
Definition lonely_graph : Graph :=
  mkGraph "lonely" (<["lonely" := node_new "lonely"]> (graph_nodes sample_graph)) (graph_edges sample_graph) ∅.

Lemma reachability_rule_exact_witness :
  exists ids, lint_apply reachability_rule lonely_graph = unreachable_diag <$> ids /\
    (forall id, id ∈ ids <-> is_Some (graph_nodes lonely_graph !! id) /\ ~ reachable lonely_graph "start" id).
Proof.
  destruct (reachability_rule_exact lonely_graph start_node) as (ids & Hids & Hin & _).
  - vm_compute. reflexivity.
  - exists ids. split; [exact Hids|exact Hin].
Defined.

Lemma validated_graph_structure_witness :
  exists start, find_start_node sample_graph = Some start /\ incoming_edges sample_graph (node_id start) = [].
Proof.
  destruct (validated_graph_structure sample_graph sample_passes) as ((start & Hs & Hi & _) & _).
  exists start. split; [exact Hs|exact Hi].
Defined.

Lemma validated_routing_total_witness :
  exists sel, (select_edge start_node (outcome_success (M := unit)) ∅ sample_graph "deterministic" 0%nat).1 = Some sel /\
    sel_edge sel ∈ outgoing_edges sample_graph "start" /\ is_Some (graph_nodes sample_graph !! edge_to (sel_edge sel)).
Proof.
  apply (validated_routing_total sample_graph sample_passes "start" start_node).
  - vm_compute. reflexivity.
  - vm_compute. discriminate.
  - vm_compute. reflexivity.
Defined.

Lemma validated_run_stays_inside_witness :
  exists s, state_new (M := unit) (W := nat) sample_graph = Ok s /\
    forall fuel r m', workflow_run (CompositeLifecycle [NoopLifecycle]) sample_graph false fuel (mkMach s 0%nat [])
      = Some (r, m') -> is_Some (graph_nodes sample_graph !! st_current (m_state m')).
Proof.
  destruct (validated_run_stays_inside (M := unit) (W := nat) sample_graph sample_keyed sample_passes sample_jumps)
    as (s & Hs & Hrun).
  exists s. split; [exact Hs|]. intros fuel r m' H. eapply Hrun; [|exact H].
  constructor; [apply noop_navigable|constructor].
Defined.

(** [start -> end], with shapes left to their defaults. *)
Definition named_graph : Graph :=
  mkGraph "named" (<["start" := node_new "start"]> {[ "end" := node_new "end" ]}) [edge_new "start" "end"] ∅.

(** Validation and the engine disagree on what a terminal node is.  The rules
    accept a node named [exit] or [end] as the terminal node, whatever its shape;
    the engine only recognises the shape [Msquare] or the handler type [exit].  So
    there is a graph that passes validation and has no terminal node for the
    engine: its [end] node is executed as an agent stage. *)
Theorem validated_graph_may_lack_terminal :
  exists g, keyed_by_id g /\ passes g /\
    (forall k n, graph_nodes g !! k = Some n -> is_terminal n = false) /\
    is_some_and (fun n => bool_decide (handler_type n = Some "agent")) (find_exit_node g) = true.
Proof.
  exists named_graph. split; [|split; [|split]].
  - intros k n. cbn. intros [[<- <-]|[_ [<- <-]%lookup_singleton_Some]]%lookup_insert_Some; done.
  - exists [], (validate named_graph []). vm_compute. reflexivity.
  - intros k n. cbn. intros [[<- <-]|[_ [<- <-]%lookup_singleton_Some]]%lookup_insert_Some; done.
  - vm_compute. reflexivity.
Qed.
End ValidateWitness.
