(* ===== verification/DecText.v ===== *)
(** * Decimal text

    What the integer printer writes, the integer parsers read back; and how a
    number followed by a unit splits. *)

From S2P Require Import Prelude RustStr.
From Stdlib Require Import DecimalString DecimalZ.
Local Open Scope Z_scope.

(** [str::parse::<u32>]. *)
Definition parse_u32 (s : string) : option Z :=
  let digits := match s with
                | String "+" r => r
                | _ => s
                end in
  z ← parse_digits digits; in_bounds 0 u32_max z.

(** One step of [digits_value] on a concrete digit. *)
Ltac digit_step :=
  cbn [NilEmpty.string_of_uint digits_value];
  match goal with |- context [is_ascii_digit ?c] =>
    change (is_ascii_digit c) with true;
    let v := eval vm_compute in (Z.of_N (code c)) in change (Z.of_N (code c)) with v
  end; cbn iota.

Lemma digits_value_acc d acc :
  digits_value (Zpos acc) (NilEmpty.string_of_uint d) = Some (Zpos (Pos.of_uint_acc d acc)).
Proof.
  revert acc. induction d; intros acc; [done|..]; digit_step; cbn [Pos.of_uint_acc];
    match goal with |- digits_value ?x _ = Some (Zpos (Pos.of_uint_acc _ ?y)) =>
      replace x with (Zpos y) by lia end; apply IHd.
Qed.

Lemma digits_value_uint d :
  digits_value 0 (NilEmpty.string_of_uint d) = Some (Z.of_N (Pos.of_uint d)).
Proof. induction d; [done|digit_step; exact IHd|..]; digit_step; apply digits_value_acc. Qed.

Lemma string_of_uint_digits d : str_forall is_ascii_digit (NilEmpty.string_of_uint d) = true.
Proof. by induction d. Qed.

Lemma Z_to_string_uint z :
  0 <= z -> exists d, Z.of_N (Pos.of_uint d) = z /\ d <> Decimal.Nil /\ Z_to_string z = NilEmpty.string_of_uint d.
Proof.
  intros Hz. pose proof (DecimalZ.of_to z) as Ht. unfold Z_to_string.
  assert (exists d, Z.to_int z = Decimal.Pos d /\ d <> Decimal.Nil) as (d & Hd & Hn).
  { destruct z as [|p|p]; [by eexists|eexists; split; [done|apply DecimalPos.Unsigned.to_uint_nonnil]|lia]. }
  rewrite Hd in *. exists d. split; [done|]. split; [done|]. by destruct d.
Qed.

Lemma Z_to_string_digits z : 0 <= z -> str_forall is_ascii_digit (Z_to_string z) = true.
Proof. intros (d & _ & _ & ->)%Z_to_string_uint. apply string_of_uint_digits. Qed.

Lemma Z_to_string_nonempty z : 0 <= z -> exists c s, Z_to_string z = String c s /\ is_ascii_digit c = true.
Proof. intros (d & _ & Hn & ->)%Z_to_string_uint. destruct d; [done|..]; by eexists _, _. Qed.

Lemma parse_digits_to_string z : 0 <= z -> parse_digits (Z_to_string z) = Some z.
Proof.
  intros Hz. destruct (Z_to_string_nonempty z Hz) as (c & s & Hs & _).
  unfold parse_digits. rewrite Hs. cbn [str_is_empty String.eqb]. rewrite <- Hs.
  destruct (Z_to_string_uint z Hz) as (d & <- & _ & ->). apply digits_value_uint.
Qed.

Lemma unsigned_digits {A} (f : string -> A) s c r :
  s = String c r -> is_ascii_digit c = true ->
  f (match s with String "+" r => r | _ => s end) = f s.
Proof. intros -> Hc. by destruct c as [[] [] [] [] [] [] [] []]. Qed.

Lemma in_bounds_intro lo hi z : lo <= z <= hi -> in_bounds lo hi z = Some z.
Proof. unfold in_bounds. intros H. by rewrite !(proj2 (Z.leb_le _ _)) by lia. Qed.

Lemma in_bounds_None lo hi z : hi < z -> in_bounds lo hi z = None.
Proof. unfold in_bounds. intros H. by rewrite andb_comm, (proj2 (Z.leb_gt z hi)) by lia. Qed.

Lemma number_not_empty z : 0 <= z -> str_is_empty (Z_to_string z) = false.
Proof. intros Hz. by destruct (Z_to_string_nonempty z Hz) as (c & s & -> & _). Qed.

Lemma in_bounds_range lo hi z y : in_bounds lo hi z = Some y -> y = z /\ lo <= z <= hi.
Proof.
  unfold in_bounds. destruct (_ && _)%bool eqn:H; [|done]. intros [= <-].
  apply andb_true_iff in H as [?%Z.leb_le ?%Z.leb_le]. lia.
Qed.

Lemma parse_u64_range s n : parse_u64 s = Some n -> 0 <= n <= u64_max.
Proof.
  unfold parse_u64. destruct (parse_digits _) as [z|]; [|done]. cbn. by intros [-> ?]%in_bounds_range.
Qed.

Lemma parse_u32_range s n : parse_u32 s = Some n -> 0 <= n <= u32_max.
Proof.
  unfold parse_u32. destruct (parse_digits _) as [z|]; [|done]. cbn. by intros [-> ?]%in_bounds_range.
Qed.

Lemma parse_u64_to_string z :
  0 <= z -> parse_u64 (Z_to_string z) = if z <=? u64_max then Some z else None.
Proof.
  intros Hz. destruct (Z_to_string_nonempty z Hz) as (c & s & Hs & Hc). unfold parse_u64.
  rewrite (unsigned_digits (fun t => z ← parse_digits t; in_bounds 0 u64_max z) _ _ _ Hs Hc).
  rewrite parse_digits_to_string by done. cbn.
  destruct (Z.leb_spec z u64_max); [by apply in_bounds_intro|by apply in_bounds_None].
Qed.

Lemma parse_u32_to_string z : 0 <= z <= u32_max -> parse_u32 (Z_to_string z) = Some z.
Proof.
  intros Hz. destruct (Z_to_string_nonempty z) as (c & s & Hs & Hc); [lia|]. unfold parse_u32.
  rewrite (unsigned_digits (fun t => z ← parse_digits t; in_bounds 0 u32_max z) _ _ _ Hs Hc).
  rewrite parse_digits_to_string by lia. by apply in_bounds_intro.
Qed.

(** ** A number with a unit *)

Lemma str_forall_append f a b : str_forall f (a +:+ b) = (str_forall f a && str_forall f b)%bool.
Proof. induction a as [|c a IH]; [done|]. rewrite append_cons. cbn. by rewrite IH, andb_assoc. Qed.

Lemma trim_nonspace s : str_forall (fun c => negb (is_whitespace c)) s = true -> trim s = s.
Proof.
  intros Hs. pose proof (trim_end_nonspace _ Hs) as He. destruct s as [|c s]; [done|].
  cbn in Hs. apply andb_true_iff in Hs as [Hc%negb_true_iff _]. by apply trim_solid.
Qed.

Lemma digit_not_space c : is_ascii_digit c = true -> negb (is_whitespace c) = true.
Proof. by destruct c as [[] [] [] [] [] [] [] []]. Qed.

Lemma trim_number_unit z u :
  0 <= z -> str_forall (fun c => negb (is_whitespace c)) u = true ->
  trim (Z_to_string z +:+ u) = Z_to_string z +:+ u.
Proof.
  intros Hz Hu. apply trim_nonspace. rewrite str_forall_append, Hu, andb_true_r.
  eapply str_forall_impl; [apply digit_not_space|]. by apply Z_to_string_digits.
Qed.

Lemma span_number_unit z c u :
  0 <= z -> is_ascii_digit c = false ->
  str_span is_ascii_digit (Z_to_string z +:+ String c u) = (Z_to_string z, String c u).
Proof. intros Hz Hc. apply str_span_forall; [by apply Z_to_string_digits|]. right. by eexists _, _. Qed.
