(* ===== verification/Settings.v ===== *)
(** * Durations and sizes in settings (fabro-types/src/settings)

    The textual forms of durations (duration.rs) and byte sizes (size.rs) and
    that they are read back as they are written.  A settings duration is a
    [std::time::Duration]; a size is a [u64]. *)

From S2P Require Import Prelude RustStr RustNum DecText.
Local Open Scope string_scope.
Local Open Scope Z_scope.

Definition saturating_mul (a b : Z) : Z := Z.min u64_max (a * b).
Definition checked_mul (a b : Z) : option Z := in_bounds 0 u64_max (a * b).
Definition is_multiple_of (a b : Z) : bool := a mod b =? 0.

(** ** Durations *)

Inductive ParseDurationError :=
| DurationEmpty
| DurationInvalidNumber (input : string)
| DurationMissingUnit (input : string)
| DurationInvalidUnit (input unit_ : string)
| DurationComposed (input : string).

(** Total milliseconds, saturating. *)
Definition duration_as_millis (d : Duration) : Z := default u64_max (in_bounds 0 u64_max (as_millis d)).

Definition split_number_and_suffix (input : string) : option (string * string) :=
  let '(num, suffix) := str_span is_ascii_digit input in
  if (str_is_empty suffix || str_is_empty num)%bool then None else Some (num, suffix).

Definition duration_of_unit (n : Z) (u : string) : option Duration :=
  match u with
  | "ms" => Some (from_millis n)
  | "s" => Some (from_secs n)
  | "m" => Some (from_secs (saturating_mul n 60))
  | "h" => Some (from_secs (saturating_mul n (60 * 60)))
  | "d" => Some (from_secs (saturating_mul n (24 * 60 * 60)))
  | _ => None
  end.

Definition duration_from_str (input : string) : result Duration ParseDurationError :=
  let trimmed := trim input in
  if str_is_empty trimmed then Err DurationEmpty
  else match split_number_and_suffix trimmed with
       | None => Err (DurationMissingUnit input)
       | Some (num, u) =>
           if str_is_empty num then Err (DurationInvalidNumber input)
           else if str_exists is_ascii_digit u then Err (DurationComposed input)
           else match parse_u64 num with
                | None => Err (DurationInvalidNumber input)
                | Some n => match duration_of_unit n u with
                            | Some d => Ok d
                            | None => Err (DurationInvalidUnit input u)
                            end
                end
       end.

Definition MS_PER_S : Z := 1000.
Definition MS_PER_M : Z := 60 * MS_PER_S.
Definition MS_PER_H : Z := 60 * MS_PER_M.
Definition MS_PER_D : Z := 24 * MS_PER_H.

Definition duration_to_string (d : Duration) : string :=
  let total_ms := as_millis d in
  if total_ms =? 0 then "0s"
  else if is_multiple_of total_ms MS_PER_D then Z_to_string (total_ms / MS_PER_D) +:+ "d"
  else if is_multiple_of total_ms MS_PER_H then Z_to_string (total_ms / MS_PER_H) +:+ "h"
  else if is_multiple_of total_ms MS_PER_M then Z_to_string (total_ms / MS_PER_M) +:+ "m"
  else if is_multiple_of total_ms MS_PER_S then Z_to_string (total_ms / MS_PER_S) +:+ "s"
  else Z_to_string total_ms +:+ "ms".

(** ** Sizes *)

Inductive ParseSizeError :=
| SizeEmpty
| SizeInvalidNumber (input : string)
| SizeFractional (input : string)
| SizeInvalidUnit (input unit_ : string)
| SizeOverflow (input : string).

Definition size_from_gigabytes (gb : Z) : Z := saturating_mul gb 1000000000.

Definition size_multiplier (u : string) : option Z :=
  match u with
  | "" | "GB" => Some 1000000000
  | "B" => Some 1
  | "KB" => Some 1000
  | "MB" => Some 1000000
  | "TB" => Some 1000000000000
  | "KiB" => Some 1024
  | "MiB" => Some (1024 * 1024)
  | "GiB" => Some (1024 * 1024 * 1024)
  | "TiB" => Some (1024 * 1024 * 1024 * 1024)
  | _ => None
  end.

Definition size_from_str (input : string) : result Z ParseSizeError :=
  let trimmed := trim input in
  if str_is_empty trimmed then Err SizeEmpty
  else if str_contains_char "." trimmed then Err (SizeFractional input)
  else
    let '(num, suffix) := str_span is_ascii_digit trimmed in
    if str_is_empty num then Err (SizeInvalidNumber input)
    else match parse_u64 num with
         | None => Err (SizeInvalidNumber input)
         | Some n =>
             let u := trim suffix in
             match size_multiplier u with
             | None => Err (SizeInvalidUnit input u)
             | Some k => match checked_mul n k with
                         | None => Err (SizeOverflow input)
                         | Some bytes => Ok bytes
                         end
             end
         end.

Definition size_to_string (b : Z) : string :=
  if b =? 0 then "0B"
  else if is_multiple_of b 1000000000000 then Z_to_string (b / 1000000000000) +:+ "TB"
  else if is_multiple_of b 1000000000 then Z_to_string (b / 1000000000) +:+ "GB"
  else if is_multiple_of b 1000000 then Z_to_string (b / 1000000) +:+ "MB"
  else if is_multiple_of b 1000 then Z_to_string (b / 1000) +:+ "KB"
  else Z_to_string b +:+ "B".

(** ** A number and its unit are read as written *)

Lemma multiple_of_inv a b : 0 < b -> is_multiple_of a b = true -> a = b * (a / b).
Proof. intros Hb H%Z.eqb_eq. rewrite (Z.div_mod a b) at 1 by lia. lia. Qed.

Lemma number_nonempty z u : 0 <= z -> str_is_empty (Z_to_string z +:+ u) = false.
Proof. intros Hz. by destruct (Z_to_string_nonempty z Hz) as (c & s & -> & _). Qed.

Lemma duration_number_unit z c u :
  0 <= z -> is_ascii_digit c = false -> str_forall (fun c => negb (is_whitespace c)) (String c u) = true ->
  str_exists is_ascii_digit u = false ->
  let input := Z_to_string z +:+ String c u in
  duration_from_str input =
    if z <=? u64_max
    then match duration_of_unit z (String c u) with
         | Some d => Ok d
         | None => Err (DurationInvalidUnit input (String c u))
         end
    else Err (DurationInvalidNumber input).
Proof.
  intros Hz Hc Hs Hd input. unfold duration_from_str, split_number_and_suffix, input.
  rewrite trim_number_unit, number_nonempty, span_number_unit, number_not_empty by done.
  cbn [str_is_empty String.eqb orb]. rewrite number_not_empty by done.
  cbn [str_exists]. rewrite Hc, Hd, parse_u64_to_string by done. by destruct (z <=? u64_max).
Qed.

Lemma no_point_in_digits s : str_forall is_ascii_digit s = true -> str_contains_char "." s = false.
Proof.
  unfold str_contains_char. induction s as [|c s IH]; [done|]. cbn. intros [Hc Hs]%andb_true_iff.
  rewrite IH by done. by destruct c as [[] [] [] [] [] [] [] []].
Qed.

(** Every multiplier belongs to a unit without digits, spaces or points. *)
Lemma size_unit_shape u k :
  size_multiplier u = Some k ->
  0 < k /\ str_forall (fun c => negb (is_whitespace c)) u = true /\ str_contains_char "." u = false /\
  (u = "" \/ exists c r, u = String c r /\ is_ascii_digit c = false).
Proof.
  intros H. assert (u ∈ [""; "GB"; "B"; "KB"; "MB"; "TB"; "KiB"; "MiB"; "GiB"; "TiB"]) as Hu.
  { revert H. unfold size_multiplier. repeat case_match; try discriminate; intros _; set_solver. }
  repeat (apply elem_of_cons in Hu as [->|Hu]; [vm_compute in H; simplify_eq; split; [lia|]; split; [done|]; split; [done|];
    first [by left | by right; eexists _, _] |]).
  by apply elem_of_nil in Hu.
Qed.

Lemma str_contains_char_append c a b :
  str_contains_char c (a +:+ b) = (str_contains_char c a || str_contains_char c b)%bool.
Proof.
  unfold str_contains_char. induction a as [|d a IH]; [done|]. rewrite append_cons. cbn. by rewrite IH, orb_assoc.
Qed.

Lemma size_number_unit n u k :
  0 <= n -> size_multiplier u = Some k ->
  let input := Z_to_string n +:+ u in
  size_from_str input =
    if u64_max <? n then Err (SizeInvalidNumber input)
    else if n * k <=? u64_max then Ok (n * k) else Err (SizeOverflow input).
Proof.
  intros Hn Hk input. destruct (size_unit_shape u k Hk) as (Hpos & Hs & Hp & Hu).
  pose proof (Z_to_string_digits n Hn) as Hd. unfold size_from_str, input.
  rewrite trim_number_unit, number_nonempty, str_contains_char_append, no_point_in_digits, Hp by done. cbn [orb].
  rewrite str_span_forall by (try done; naive_solver).
  rewrite number_not_empty, parse_u64_to_string by done. rewrite (trim_nonspace u Hs), Hk. unfold checked_mul.
  destruct (Z.leb_spec n u64_max), (Z.ltb_spec u64_max n); [lia| |done|lia].
  destruct (Z.leb_spec (n * k) u64_max); [rewrite in_bounds_intro by nia | rewrite in_bounds_None by lia]; done.
Qed.

(** ** Round trips *)

(** The whole milliseconds of a duration are what its text can hold, and the
    number in front of [ms] must fit a [u64]. *)
Definition duration_readable (d : Duration) : bool :=
  (is_multiple_of (as_millis d) MS_PER_S || (as_millis d <=? u64_max))%bool.

(** A duration printed in a unit of [k] seconds. *)
Lemma duration_in_secs d k :
  0 <= d <= duration_max -> 0 < k -> is_multiple_of (as_millis d) (k * MS_PER_S) = true ->
  let n := as_millis d / (k * MS_PER_S) in
  0 <= n <= u64_max /\ from_secs (saturating_mul n k) = from_millis (as_millis d) /\ duration_readable d = true.
Proof.
  intros Hd Hk Hm n. assert (as_millis d = k * 1000 * n) as He by (apply multiple_of_inv; [lia|exact Hm]).
  assert (0 <= as_millis d <= u64_max * 1000 + 999) as Ht.
  { unfold as_millis, duration_max, nanos_per_sec in *. split; [apply Z.div_pos; lia|].
    apply Z.lt_succ_r, Z.div_lt_upper_bound; lia. }
  assert (0 <= n) as Hn by (apply Z.div_pos; unfold MS_PER_S; lia). clearbody n.
  assert (0 <= n * k <= u64_max) as Hnk by nia.
  split; [nia|]. split.
  - unfold saturating_mul, from_secs, from_millis, nanos_per_sec. rewrite Z.min_r by lia. rewrite He. lia.
  - unfold duration_readable, is_multiple_of, MS_PER_S. rewrite He.
    replace (k * 1000 * n) with (k * n * 1000) by lia. by rewrite Z.mod_mul.
Qed.

Lemma duration_print_parse d :
  0 <= d <= duration_max ->
  duration_from_str (duration_to_string d) =
    if duration_readable d then Ok (from_millis (as_millis d))
    else Err (DurationInvalidNumber (duration_to_string d)).
Proof.
  intros Hd. unfold duration_to_string. destruct (Z.eqb_spec (as_millis d) 0) as [H0|H0].
  { unfold duration_readable. by rewrite H0. }
  destruct (is_multiple_of _ MS_PER_D) eqn:HD;
    [|destruct (is_multiple_of _ MS_PER_H) eqn:HH;
      [|destruct (is_multiple_of _ MS_PER_M) eqn:HM; [|destruct (is_multiple_of _ MS_PER_S) eqn:HS]]].
  5: {
    assert (0 <= as_millis d) by (apply Z.div_pos; lia). unfold duration_readable. rewrite HS.
    rewrite duration_number_unit by done. by destruct (as_millis d <=? u64_max). }
  - destruct (duration_in_secs d (24 * 60 * 60)) as (Hn & He & Hr); [done..|]. rewrite Hr.
    rewrite duration_number_unit, (proj2 (Z.leb_le _ _)) by (done || apply Hn). cbn. by rewrite <- He.
  - destruct (duration_in_secs d (60 * 60)) as (Hn & He & Hr); [done..|]. rewrite Hr.
    rewrite duration_number_unit, (proj2 (Z.leb_le _ _)) by (done || apply Hn). cbn. by rewrite <- He.
  - destruct (duration_in_secs d 60) as (Hn & He & Hr); [done..|]. rewrite Hr.
    rewrite duration_number_unit, (proj2 (Z.leb_le _ _)) by (done || apply Hn). cbn. by rewrite <- He.
  - destruct (duration_in_secs d 1) as (Hn & He & Hr); [done..|]. rewrite Hr.
    rewrite duration_number_unit, (proj2 (Z.leb_le _ _)) by (done || apply Hn). cbn. rewrite <- He.
    unfold saturating_mul. by rewrite Z.mul_1_r, Z.min_r by apply Hn.
Qed.

Lemma duration_of_unit_spec n u d :
  0 <= n <= u64_max -> duration_of_unit n u = Some d ->
  exists k, 0 <= k <= u64_max /\ (d = from_millis k \/ d = from_secs k).
Proof.
  intros Hn H.
  assert (forall m, 0 <= m -> 0 <= saturating_mul n m <= u64_max) as Hsat.
  { intros m Hm. unfold saturating_mul, u64_max in *. nia. }
  assert (d = from_millis n \/ d = from_secs n \/ exists m, 0 <= m /\ d = from_secs (saturating_mul n m)) as Hd.
  { revert H. unfold duration_of_unit. repeat case_match; intros [= <-]; eauto; do 2 right; eexists; (split; [|done]); lia. }
  destruct Hd as [->|[->|(m & Hm & ->)]]; eauto.
Qed.

(** What the parser accepts is a whole number of milliseconds that its text can hold. *)
Lemma duration_from_str_range s d :
  duration_from_str s = Ok d ->
  0 <= d <= duration_max /\ duration_readable d = true /\ from_millis (as_millis d) = d.
Proof.
  unfold duration_from_str. intros H.
  assert (exists num u n, parse_u64 num = Some n /\ duration_of_unit n u = Some d) as (num & u & n & Hn & Hu).
  { revert H. destruct (str_is_empty _); [done|]. destruct (split_number_and_suffix _) as [[num u]|]; [|done].
    destruct (str_is_empty num); [done|]. destruct (str_exists is_ascii_digit u); [done|]. destruct (parse_u64 num) as [n|] eqn:Hn; [|done].
    destruct (duration_of_unit n u) eqn:Hu; [|done]. intros [= ->]. eauto. }
  apply parse_u64_range in Hn. destruct (duration_of_unit_spec _ _ _ Hn Hu) as (k & Hk & Hd). clear -Hk Hd.
  unfold duration_readable, is_multiple_of, as_millis, duration_max, from_millis, from_secs, nanos_per_sec, MS_PER_S in *.
  destruct Hd as [->| ->].
  - rewrite Z.div_mul by lia. split; [lia|]. split; [|done]. by rewrite orb_comm, (proj2 (Z.leb_le k _)) by lia.
  - replace (k * 1000000000) with (k * 1000 * 1000000) by lia. rewrite Z.div_mul by lia.
    split; [lia|]. split; [|done]. by rewrite Z.mod_mul.
Qed.

(** A duration is read back from its text as its whole milliseconds, in the unit
    the printer chose, unless it is longer than 2^64 milliseconds and not a whole number
    of seconds, in which case its text is rejected; and every duration that was read
    from a text, saturated products included, is read back unchanged. *)
Theorem duration_roundtrip :
  (forall d, 0 <= d <= duration_max ->
     duration_from_str (duration_to_string d) =
       if duration_readable d then Ok (from_millis (as_millis d))
       else Err (DurationInvalidNumber (duration_to_string d))) /\
  (forall s d, duration_from_str s = Ok d -> duration_from_str (duration_to_string d) = Ok d).
Proof.
  split; [exact duration_print_parse|]. intros s d (Hd & Hr & He)%duration_from_str_range.
  by rewrite duration_print_parse, Hr, He.
Qed.

Lemma size_in_unit b u k :
  0 <= b <= u64_max -> size_multiplier u = Some k -> is_multiple_of b k = true ->
  size_from_str (Z_to_string (b / k) +:+ u) = Ok b.
Proof.
  intros Hb Hk Hm. destruct (size_unit_shape u k Hk) as [Hpos _].
  pose proof (multiple_of_inv _ _ Hpos Hm) as He. assert (0 <= b / k) as Hn by (apply Z.div_pos; lia).
  rewrite (size_number_unit _ _ _ Hn Hk), (proj2 (Z.ltb_ge _ _)) by nia.
  by rewrite Z.mul_comm, <- He, (proj2 (Z.leb_le b _)) by lia.
Qed.

(** A number followed by a unit is read as their product, with an error exactly
    when the number or the product does not fit a [u64]; no accepted text gives a value
    outside [u64]; and every size is read back from its text unchanged. *)
Theorem size_roundtrip :
  (forall n u k, 0 <= n -> size_multiplier u = Some k ->
     let input := Z_to_string n +:+ u in
     size_from_str input =
       if u64_max <? n then Err (SizeInvalidNumber input)
       else if n * k <=? u64_max then Ok (n * k) else Err (SizeOverflow input)) /\
  (forall s b, size_from_str s = Ok b -> 0 <= b <= u64_max) /\
  (forall b, 0 <= b <= u64_max -> size_from_str (size_to_string b) = Ok b).
Proof.
  split; [exact size_number_unit|]. split.
  - intros s b. unfold size_from_str, checked_mul. repeat case_match; try done. intros [= <-].
    match goal with H : in_bounds _ _ _ = Some _ |- _ => apply in_bounds_range in H as [-> ?] end. done.
  - intros b Hb. unfold size_to_string. destruct (Z.eqb_spec b 0) as [->|]; [by vm_compute|].
    repeat case_match; try by apply size_in_unit.
    rewrite <- (Z.div_1_r b) at 1. apply size_in_unit; [done..|]. unfold is_multiple_of. by rewrite Z.mod_1_r.
Qed.

(** ** Witnesses *)

Lemma duration_roundtrip_witness :
  duration_to_string (from_secs 5400) = "90m" /\
  duration_from_str (duration_to_string (from_secs 5400)) = Ok (from_secs 5400) /\
  duration_from_str (duration_to_string (from_secs u64_max)) = Ok (from_secs u64_max).
Proof.
  split; [vm_compute; reflexivity|]. split.
  - apply (proj2 duration_roundtrip " 5400s "). vm_compute. reflexivity.
  - apply (proj1 duration_roundtrip (from_secs u64_max)). vm_compute. split; discriminate.
Defined.

Lemma size_roundtrip_witness :
  size_to_string 1536000 = "1536KB" /\ size_from_str (size_to_string 1536000) = Ok 1536000 /\
  size_from_str (Z_to_string 18446744073709 +:+ "TiB") = Err (SizeOverflow "18446744073709TiB").
Proof.
  split; [vm_compute; reflexivity|]. split.
  - apply (proj2 (proj2 size_roundtrip) 1536000). vm_compute. split; discriminate.
  - apply (proj1 size_roundtrip 18446744073709 "TiB" (1024 * 1024 * 1024 * 1024)); [vm_compute; discriminate|reflexivity].
Defined.
