(* ===== verification/StageIds.v ===== *)
(** * Stage and branch identifiers (fabro-types/src/stage_id.rs)

    A stage identifier names one visit of a node ([node@visit]); a branch
    identifier names one branch of a parallel stage ([node@visit:index]).  The
    texts are the keys of the run store and of event envelopes. *)

From S2P Require Import Prelude RustStr DecText.
Local Open Scope string_scope.
Local Open Scope Z_scope.

(** [str::rsplit_once] at a character. *)
Fixpoint rsplit_once (c : ascii) (s : string) : option (string * string) :=
  match s with
  | "" => None
  | String d r =>
      match rsplit_once c r with
      | Some (a, b) => Some (String d a, b)
      | None => if Ascii.eqb d c then Some ("", r) else None
      end
  end.

(** [visit] is a [NonZeroU32]. *)
Record StageId := mkStageId { sid_node : string; sid_visit : Z }.

#[export] Instance StageId_eq_dec : EqDecision StageId.
Proof. solve_decision. Defined.

Inductive ParseStageIdError :=
| StageIdNoAt
| StageIdEmptyNode
| StageIdEmptyVisit
| StageIdInvalidVisit (visit : string)
| StageIdZeroVisit.

Definition try_new_stage_id (node : string) (visit : Z) : option StageId :=
  if visit =? 0 then None else Some (mkStageId node visit).

Definition stage_id_to_string (id : StageId) : string := sid_node id +:+ "@" +:+ Z_to_string (sid_visit id).

Definition stage_id_from_str (s : string) : result StageId ParseStageIdError :=
  match rsplit_once "@" s with
  | None => Err StageIdNoAt
  | Some (node, visit) =>
      if str_is_empty node then Err StageIdEmptyNode
      else if str_is_empty visit then Err StageIdEmptyVisit
      else match parse_u32 visit with
           | None => Err (StageIdInvalidVisit visit)
           | Some v => match try_new_stage_id node v with
                       | Some id => Ok id
                       | None => Err StageIdZeroVisit
                       end
           end
  end.

Record ParallelBranchId := mkBranchId { branch_group : StageId; branch_index : Z }.

Inductive ParseParallelBranchIdError :=
| BranchIdNoColon
| BranchIdInvalidGroup (e : ParseStageIdError)
| BranchIdEmptyIndex
| BranchIdInvalidIndex (index : string).

Definition branch_id_to_string (b : ParallelBranchId) : string :=
  stage_id_to_string (branch_group b) +:+ ":" +:+ Z_to_string (branch_index b).

Definition branch_id_from_str (s : string) : result ParallelBranchId ParseParallelBranchIdError :=
  match rsplit_once ":" s with
  | None => Err BranchIdNoColon
  | Some (group, index) =>
      match stage_id_from_str group with
      | Err e => Err (BranchIdInvalidGroup e)
      | Ok g =>
          if str_is_empty index then Err BranchIdEmptyIndex
          else match parse_u32 index with
               | None => Err (BranchIdInvalidIndex index)
               | Some i => Ok (mkBranchId g i)
               end
      end
  end.

(** ** Round trips *)

(** The identifiers the types admit. *)
Definition stage_id_ok (id : StageId) : Prop := sid_node id <> "" /\ 1 <= sid_visit id <= u32_max.
Definition branch_id_ok (b : ParallelBranchId) : Prop :=
  stage_id_ok (branch_group b) /\ 0 <= branch_index b <= u32_max.

Lemma rsplit_once_absent c s : str_forall (fun d => negb (Ascii.eqb d c)) s = true -> rsplit_once c s = None.
Proof.
  induction s as [|d s IH]; [done|]. cbn. intros [Hd%negb_true_iff Hs]%andb_true_iff. by rewrite IH, Hd.
Qed.

Lemma rsplit_once_last c a b :
  str_forall (fun d => negb (Ascii.eqb d c)) b = true -> rsplit_once c (a +:+ String c b) = Some (a, b).
Proof.
  intros Hb. induction a as [|d a IH].
  - rewrite append_nil_l. cbn. by rewrite rsplit_once_absent, Ascii.eqb_refl.
  - rewrite append_cons. cbn. by rewrite IH.
Qed.

(** A separator is not a digit, so the number after it is the last part. *)
Lemma rsplit_number c a z :
  is_ascii_digit c = false -> 0 <= z -> rsplit_once c (a +:+ String c (Z_to_string z)) = Some (a, Z_to_string z).
Proof.
  intros Hc Hz. apply rsplit_once_last. eapply str_forall_impl; [|by apply Z_to_string_digits].
  intros d Hd. apply negb_true_iff, Ascii.eqb_neq. intros ->. congruence.
Qed.

Lemma stage_id_print_parse id : stage_id_ok id -> stage_id_from_str (stage_id_to_string id) = Ok id.
Proof.
  intros [Hn Hv]. unfold stage_id_from_str, stage_id_to_string. rewrite append_cons, append_nil_l.
  rewrite rsplit_number, number_not_empty, parse_u32_to_string by (done || lia).
  unfold str_is_empty. rewrite (proj2 (String.eqb_neq _ _) Hn).
  unfold try_new_stage_id. rewrite (proj2 (Z.eqb_neq _ _)) by lia. by destruct id.
Qed.

Lemma stage_id_parsed_ok s id : stage_id_from_str s = Ok id -> stage_id_ok id.
Proof.
  unfold stage_id_from_str, try_new_stage_id. destruct (rsplit_once _ s) as [[node visit]|]; [|done].
  destruct (str_is_empty node) eqn:Hn; [done|]. destruct (str_is_empty visit); [done|].
  destruct (parse_u32 visit) as [v|] eqn:Hv; [|done]. apply parse_u32_range in Hv.
  destruct (Z.eqb_spec v 0); intros [= <-]. split; [by apply String.eqb_neq|cbn; lia].
Qed.

(** The text of every stage and branch identifier the types admit is read back as
    that identifier, whatever characters its node id has (separators included), and
    the parsers only yield such identifiers; so identifiers with the same text are the
    same. *)
Theorem stage_ids_roundtrip :
  (forall id, stage_id_ok id -> stage_id_from_str (stage_id_to_string id) = Ok id) /\
  (forall s id, stage_id_from_str s = Ok id -> stage_id_ok id) /\
  (forall b, branch_id_ok b -> branch_id_from_str (branch_id_to_string b) = Ok b) /\
  (forall s b, branch_id_from_str s = Ok b -> branch_id_ok b).
Proof.
  split; [exact stage_id_print_parse|]. split; [exact stage_id_parsed_ok|]. split.
  - intros b [Hg Hi]. unfold branch_id_from_str, branch_id_to_string. rewrite append_cons, append_nil_l.
    rewrite rsplit_number, stage_id_print_parse, number_not_empty, parse_u32_to_string by (done || lia). by destruct b.
  - intros s b. unfold branch_id_from_str. destruct (rsplit_once _ s) as [[group index]|]; [|done].
    destruct (stage_id_from_str group) as [g|] eqn:Hg; [|done]. destruct (str_is_empty index); [done|].
    destruct (parse_u32 index) as [i|] eqn:Hi; [|done]. intros [= <-].
    split; [by eapply stage_id_parsed_ok|by eapply parse_u32_range].
Qed.

Lemma stage_ids_roundtrip_witness :
  stage_id_from_str (stage_id_to_string (mkStageId "a@b:2" 3)) = Ok (mkStageId "a@b:2" 3) /\
  branch_id_from_str (branch_id_to_string (mkBranchId (mkStageId "fork" 1) 0)) = Ok (mkBranchId (mkStageId "fork" 1) 0).
Proof.
  split.
  - apply (proj1 stage_ids_roundtrip). split; [discriminate|]. vm_compute. split; discriminate.
  - apply (proj1 (proj2 (proj2 stage_ids_roundtrip))). split; [split; [discriminate|]|]; vm_compute; split; discriminate.
Defined.
