(* ===== verification/RunStatus.v ===== *)
(** * The status of a run (fabro-types/src/status.rs)

    The state machine of runs as the store and the server see it: submission,
    approval, start, pauses and blocks, the terminal outcomes, deletion. *)

From S2P Require Import Prelude RustStr.
Local Open Scope string_scope.

(** ** Data *)

Inductive PendingReason := ApprovalRequired.
Inductive SuccessReason := ReasonCompleted | ReasonPartialSuccess.
Inductive FailureReason :=
| WorkflowError | PublishFailed | ReasonCancelled | ApprovalDenied | Terminated | ReasonTransientInfra
| ReasonBudgetExhausted | LaunchFailed | BootstrapFailed | SandboxInitFailed.
Inductive BlockedReason := HumanInputRequired.

Inductive RunStatusKind :=
| KSubmitted | KPending | KRunnable | KStarting | KRunning | KBlocked | KPaused | KRemoving
| KSucceeded | KFailed | KDead.

Inductive RunStatus :=
| RsSubmitted
| RsPending (reason : PendingReason)
| RsRunnable
| RsStarting
| RsRunning
| RsBlocked (reason : BlockedReason)
| RsPaused (prior_block : option BlockedReason)
| RsRemoving
| RsSucceeded (reason : SuccessReason)
| RsFailed (reason : FailureReason)
| RsDead.

Inductive TerminalStatus :=
| TsSucceeded (reason : SuccessReason)
| TsFailed (reason : FailureReason)
| TsDead.

#[export] Instance PendingReason_eq_dec : EqDecision PendingReason.
Proof. solve_decision. Defined.
#[export] Instance SuccessReason_eq_dec : EqDecision SuccessReason.
Proof. solve_decision. Defined.
#[export] Instance FailureReason_eq_dec : EqDecision FailureReason.
Proof. solve_decision. Defined.
#[export] Instance BlockedReason_eq_dec : EqDecision BlockedReason.
Proof. solve_decision. Defined.
#[export] Instance RunStatus_eq_dec : EqDecision RunStatus.
Proof. solve_decision. Defined.

(** ** Classification *)

Definition status_kind (s : RunStatus) : RunStatusKind :=
  match s with
  | RsSubmitted => KSubmitted | RsPending _ => KPending | RsRunnable => KRunnable
  | RsStarting => KStarting | RsRunning => KRunning | RsBlocked _ => KBlocked
  | RsPaused _ => KPaused | RsRemoving => KRemoving | RsSucceeded _ => KSucceeded
  | RsFailed _ => KFailed | RsDead => KDead
  end.

Definition board_rank (k : RunStatusKind) : Z :=
  match k with
  | KSubmitted | KPending => 0
  | KRunnable => 1
  | KStarting => 2
  | KRunning | KPaused => 3
  | KBlocked => 4
  | KSucceeded => 5
  | KFailed | KDead => 6
  | KRemoving => 8
  end.

Definition status_is_terminal (s : RunStatus) : bool :=
  match s with RsSucceeded _ | RsFailed _ | RsDead => true | _ => false end.

Definition status_is_immutable (s : RunStatus) : bool :=
  match s with RsSucceeded _ | RsFailed _ | RsDead => true | _ => false end.

Definition status_is_active (s : RunStatus) : bool :=
  match s with
  | RsSubmitted | RsPending _ | RsRunnable | RsStarting | RsRunning | RsBlocked _ | RsPaused _ | RsRemoving => true
  | _ => false
  end.

Definition requires_force_to_delete (s : RunStatus) : bool :=
  (status_is_active s && negb (match s with RsRemoving => true | _ => false end))%bool.

Definition status_blocked_reason (s : RunStatus) : option BlockedReason :=
  match s with
  | RsBlocked r => Some r
  | RsPaused prior => prior
  | _ => None
  end.

Definition terminal_status (s : RunStatus) : option TerminalStatus :=
  match s with
  | RsSucceeded r => Some (TsSucceeded r)
  | RsFailed r => Some (TsFailed r)
  | RsDead => Some TsDead
  | _ => None
  end.

Definition status_of_terminal (t : TerminalStatus) : RunStatus :=
  match t with
  | TsSucceeded r => RsSucceeded r
  | TsFailed r => RsFailed r
  | TsDead => RsDead
  end.

(** ** Transitions *)

(** The transitions between the statuses that are neither the escape hatches
    ([Dead], [Removing], resubmission of a failure) nor out of a frozen status. *)
Definition regular_transition (from to : RunStatus) : bool :=
  match from, to with
  | RsSubmitted, (RsPending _ | RsRunnable) => true
  | (RsPending _ | RsRunnable | RsStarting | RsRunning | RsBlocked _ | RsPaused _ | RsRemoving | RsFailed _),
      RsSubmitted => true
  | RsPending _, RsRunnable => true
  | RsRunnable, RsStarting => true
  | (RsSubmitted | RsPending _ | RsRunnable), RsFailed ReasonCancelled => true
  | RsPending _, RsFailed ApprovalDenied => true
  | (RsStarting | RsPaused _ | RsBlocked _), RsRunning => true
  | (RsStarting | RsRunning | RsBlocked _ | RsPaused _ | RsRemoving), RsFailed _ => true
  | RsRunning, (RsSucceeded _ | RsBlocked _ | RsPaused _ | RsRemoving) => true
  | RsBlocked _, RsPaused _ => true
  | RsPaused _, RsPaused _ => true
  | RsPaused _, RsBlocked _ => true
  | RsPaused _, RsRemoving => true
  | _, _ => false
  end.

Definition can_transition_to (from to : RunStatus) : bool :=
  match to with
  | RsDead => true
  | RsRemoving => negb (match from with RsRemoving => true | _ => false end)
  | _ =>
      match from, to with
      | RsFailed _, RsSubmitted => true
      | _, _ => if status_is_immutable from then false else regular_transition from to
      end
  end.

Record InvalidTransition := mkInvalid { it_from : RunStatus; it_to : RunStatus }.

Definition transition_to (from to : RunStatus) : result RunStatus InvalidTransition :=
  if can_transition_to from to then Ok to else Err (mkInvalid from to).

(** ** Text *)

Definition SuccessReason_to_string (r : SuccessReason) : string :=
  match r with ReasonCompleted => "completed" | ReasonPartialSuccess => "partial_success" end.

Definition FailureReason_to_string (r : FailureReason) : string :=
  match r with
  | WorkflowError => "workflow_error" | PublishFailed => "publish_failed" | ReasonCancelled => "cancelled"
  | ApprovalDenied => "approval_denied" | Terminated => "terminated"
  | ReasonTransientInfra => "transient_infra" | ReasonBudgetExhausted => "budget_exhausted"
  | LaunchFailed => "launch_failed" | BootstrapFailed => "bootstrap_failed"
  | SandboxInitFailed => "sandbox_init_failed"
  end.

Definition BlockedReason_to_string (r : BlockedReason) : string :=
  match r with HumanInputRequired => "human_input_required" end.

Definition PendingReason_to_string (r : PendingReason) : string :=
  match r with ApprovalRequired => "approval_required" end.

Definition RunStatus_to_string (s : RunStatus) : string :=
  match s with
  | RsSubmitted => "submitted"
  | RsPending r => "pending(" +:+ PendingReason_to_string r +:+ ")"
  | RsRunnable => "runnable"
  | RsStarting => "starting"
  | RsRunning => "running"
  | RsBlocked r => "blocked(" +:+ BlockedReason_to_string r +:+ ")"
  | RsPaused (Some r) => "paused(" +:+ BlockedReason_to_string r +:+ ")"
  | RsPaused None => "paused"
  | RsRemoving => "removing"
  | RsSucceeded r => "succeeded(" +:+ SuccessReason_to_string r +:+ ")"
  | RsFailed r => "failed(" +:+ FailureReason_to_string r +:+ ")"
  | RsDead => "dead"
  end.

Definition InvalidTransition_to_string (e : InvalidTransition) : string :=
  "invalid status transition: " +:+ RunStatus_to_string (it_from e) +:+ " -> " +:+ RunStatus_to_string (it_to e).

(** ** Histories *)

(** The statuses a run has had, latest first: it is submitted, and every change is
    accepted by [transition_to]. *)
Inductive history : list RunStatus -> Prop :=
| history_new : history [RsSubmitted]
| history_step h from to :
    history (from :: h) -> transition_to from to = Ok to -> history (to :: from :: h).

(** What happened since the run was last submitted. *)
Fixpoint since_submitted (h : list RunStatus) : list RunStatus :=
  match h with
  | [] => []
  | RsSubmitted :: _ => []
  | s :: h => s :: since_submitted h
  end.

(** The statuses of a run whose work has begun. *)
Definition has_begun (s : RunStatus) : bool :=
  match s with RsStarting | RsRunning | RsBlocked _ | RsPaused _ | RsSucceeded _ => true | _ => false end.

Lemma transition_to_Ok from to s : transition_to from to = Ok s -> s = to /\ can_transition_to from to = true.
Proof. unfold transition_to. destruct (can_transition_to from to); [by intros [= ->]|done]. Qed.

(** A status of begun work is entered from one, or is the start itself. *)
Lemma begun_predecessor from to :
  can_transition_to from to = true -> has_begun to = true -> to = RsStarting \/ has_begun from = true.
Proof. destruct from, to; cbn; auto; done. Qed.

Lemma since_submitted_begun s h : has_begun s = true -> since_submitted (s :: h) = s :: since_submitted h.
Proof. by destruct s. Qed.

Lemma history_begun h s : history (s :: h) -> has_begun s = true -> RsStarting ∈ since_submitted (s :: h).
Proof.
  remember (s :: h) as l eqn:Hl. intros Hh. revert s h Hl.
  induction Hh as [|h from to Hh IH Hs]; intros s h' Hl Hb; simplify_eq.
  apply transition_to_Ok in Hs as [_ Hs]. rewrite since_submitted_begun by done.
  destruct (begun_predecessor _ _ Hs Hb) as [->|Hf]; [by left|]. right. by eapply IH.
Qed.

(** In every history of a run, whatever sequence of status changes is requested:
    a run that is running, blocked, paused or has succeeded was started after its last
    submission; it succeeded only while running; a failure before the start is a
    cancellation or a denied approval, unless the run was being removed; and a terminal
    status is left only for deletion, for [Dead], or to resubmit a failed run. *)
Theorem run_status_history h s :
  history (s :: h) ->
  (has_begun s = true -> RsStarting ∈ since_submitted (s :: h)) /\
  (forall r, s = RsSucceeded r -> head h = Some RsRunning) /\
  (forall r, s = RsFailed r -> RsStarting ∈ since_submitted h \/
     r = ReasonCancelled \/ r = ApprovalDenied \/ head h = Some RsRemoving) /\
  (forall from, head h = Some from -> status_is_terminal from = true ->
     s = RsRemoving \/ s = RsDead \/ (s = RsSubmitted /\ exists r, from = RsFailed r)).
Proof.
  intros Hh. split; [by apply history_begun|]. inversion Hh as [|h' from to Hp Hs]; subst.
  { repeat split; intros; simplify_eq. }
  apply transition_to_Ok in Hs as [_ Hs]. cbn [head]. repeat split.
  - intros r ->. destruct from; done || by destruct r.
  - intros r ->. destruct (has_begun from) eqn:Hb; [left; by apply history_begun|]. right.
    destruct from, r; done || auto.
  - intros f [= <-] Ht. destruct from, s; done || eauto 10.
Qed.

(** ** Witness *)

Definition sample_history : list RunStatus :=
  [RsSucceeded ReasonCompleted; RsRunning; RsBlocked HumanInputRequired; RsRunning; RsStarting; RsRunnable; RsSubmitted].

Lemma run_status_history_witness :
  history sample_history /\ RsStarting ∈ since_submitted sample_history.
Proof.
  assert (history sample_history) as Hh.
  { unfold sample_history. repeat (eapply history_step; [|reflexivity]). apply history_new. }
  split; [exact Hh|]. apply (run_status_history _ _ Hh). reflexivity.
Defined.
