(* ===== verification/EventKeys.v ===== *)
(** * Event keys (fabro-store/src/keys.rs)

    The keys under which the events of a run are stored.  The database orders
    keys by their bytes; sequence numbers are zero-padded so that this order is
    the order of the sequence numbers. *)

From S2P Require Import Prelude RustStr DecText.
From Stdlib Require Import DecimalString DecimalZ DecimalFacts.
Local Open Scope string_scope.
Local Open Scope Z_scope.

Definition MAX_EVENT_SEQ : Z := 999999.

Definition SEP : ascii := "000".

(** [SlateKey::with]: another segment after a separator. *)
Definition key_with (segment key : string) : string := key +:+ String SEP segment.

Fixpoint zeros (n : nat) : string := match n with O => "" | S n => String "0" (zeros n) end.

(** The format [{seq:06}]. *)
Definition pad6 (seq : Z) : string := zeros (6 - String.length (Z_to_string seq)) +:+ Z_to_string seq.

Definition events_key (run_id : string) : string := key_with "events" (key_with run_id "runs").

Definition run_event_key (run_id : string) (seq epoch_ms : Z) : string :=
  key_with (pad6 seq +:+ "-" +:+ Z_to_string epoch_ms) (events_key run_id).

Definition run_event_seq_prefix (run_id : string) (seq : Z) : string := key_with (pad6 seq +:+ "-") (events_key run_id).

Definition run_events_prefix (run_id : string) : string := events_key run_id +:+ String SEP "".

(** The bounds of the scan from [start_seq]: the end is the prefix with its
    separator replaced by the next byte. *)
Definition run_events_range (run_id : string) (start_seq : Z) : string * string :=
  (run_event_seq_prefix run_id start_seq, events_key run_id +:+ String "001" "").

Definition parse_event_seq (key : string) : option Z :=
  match split_char SEP key with
  | _ :: _ :: events :: leaf :: _ =>
      if String.eqb events "events" then parts ← split_once "-" leaf; parse_u32 parts.1 else None
  | _ => None
  end.

(** ** Digit strings of one length are ordered as numbers *)

Lemma digit_range c : is_ascii_digit c = true -> (48 <= code c <= 57)%N.
Proof. unfold is_ascii_digit, in_range. intros [?%N.leb_le ?%N.leb_le]%andb_true_iff. lia. Qed.

Lemma digits_value_bounds s acc v :
  digits_value acc s = Some v ->
  acc * 10 ^ Z.of_nat (String.length s) <= v < (acc + 1) * 10 ^ Z.of_nat (String.length s).
Proof.
  revert acc. induction s as [|c s IH]; intros acc; cbn [digits_value String.length].
  { intros [= ->]. cbn. lia. }
  destruct (is_ascii_digit c) eqn:Hc; [|done]. apply digit_range in Hc. intros Hv%IH.
  rewrite Nat2Z.inj_succ, Z.pow_succ_r by lia. set (p := 10 ^ _) in *.
  assert (0 < p) by (apply Z.pow_pos_nonneg; lia). nia.
Qed.

Lemma compare_digits a b x y acc va vb :
  String.length a = String.length b -> digits_value acc a = Some va -> digits_value acc b = Some vb ->
  String.compare (a +:+ x) (b +:+ y) = match Z.compare va vb with Eq => String.compare x y | c => c end.
Proof.
  revert b acc. induction a as [|c a IH]; intros [|d b] acc; try done.
  { intros _ [= ->] [= ->]. by rewrite Z.compare_refl. }
  intros [= Hl]. rewrite !append_cons. cbn [digits_value String.compare].
  destruct (is_ascii_digit c) eqn:Hc; [|done]. destruct (is_ascii_digit d) eqn:Hd; [|done].
  apply digit_range in Hc. apply digit_range in Hd. intros Ha Hb. unfold Ascii.compare. fold (code c) (code d).
  destruct (N.compare_spec (code c) (code d)) as [He|Hlt|Hgt].
  - rewrite He in Ha. by eapply IH.
  - apply digits_value_bounds in Ha. apply digits_value_bounds in Hb. rewrite Hl in Ha.
    set (p := 10 ^ _) in *. assert (0 < p) by (apply Z.pow_pos_nonneg; lia).
    assert (va < vb) by nia. by rewrite (proj2 (Z.compare_lt_iff va vb)).
  - apply digits_value_bounds in Ha. apply digits_value_bounds in Hb. rewrite Hl in Ha.
    set (p := 10 ^ _) in *. assert (0 < p) by (apply Z.pow_pos_nonneg; lia).
    assert (vb < va) by nia. by rewrite (proj2 (Z.compare_gt_iff va vb)).
Qed.

Lemma compare_prefix p a b : String.compare (p +:+ a) (p +:+ b) = String.compare a b.
Proof.
  induction p as [|c p IH]; [done|]. rewrite !append_cons. cbn [String.compare].
  unfold Ascii.compare. by rewrite N.compare_refl.
Qed.

(** ** Padded numbers *)

Lemma to_int_no_zero d : Decimal.unorm (Decimal.D0 d) = Decimal.D0 d -> d = Decimal.Nil.
Proof.
  unfold Decimal.unorm. destruct (Decimal.nzhead (Decimal.D0 d)) as [|u|u|u|u|u|u|u|u|u|u] eqn:H; try done.
  - by intros [= <-].
  - by apply nzhead_nonzero in H.
Qed.

(** A number has as many digits as it needs. *)
Lemma number_length (k : nat) z : (0 < k)%nat -> 0 <= z < 10 ^ Z.of_nat k -> (String.length (Z_to_string z) <= k)%nat.
Proof.
  intros Hk Hz. destruct (decide (z = 0)) as [->|Hn]; [cbn; lia|].
  assert (exists d, Z.to_int z = Decimal.Pos d /\ Decimal.unorm d = d) as (d & Hd & Hu).
  { destruct z as [|p|p]; [done| |lia]. exists (Pos.to_uint p). split; [done|].
    pose proof (to_of (Z.to_int (Zpos p))) as H. rewrite of_to in H. cbn in H. by injection H. }
  destruct (Z_to_string_uint z) as (d' & Hv & Hnn & Hs); [lia|].
  assert (d' = d) as ->.
  { unfold Z_to_string in Hs. rewrite Hd in Hs. assert (d <> Decimal.Nil) by (intros ->; done).
    change (NilZero.string_of_uint d = NilEmpty.string_of_uint d') in Hs.
    assert (NilEmpty.string_of_uint d = NilEmpty.string_of_uint d') as He by (by destruct d).
    apply (f_equal NilEmpty.uint_of_string) in He. rewrite !NilEmpty.usu in He. by injection He. }
  rewrite Hs. apply Nat.nlt_ge. intros Hl.
  assert (digits_value 0 (NilEmpty.string_of_uint d) = Some z) as Hval by (rewrite <- Hv; apply digits_value_uint).
  assert (exists c s, NilEmpty.string_of_uint d = String c s /\ is_ascii_digit c = true /\ (48 < code c)%N) as (c & s & Hcs & Hc & Hc0).
  { destruct d as [|d|d|d|d|d|d|d|d|d|d]; [done| |by eexists _, _..].
    apply to_int_no_zero in Hu as ->. cbn in Hl. lia. }
  rewrite Hcs in Hval, Hl. cbn [digits_value String.length] in Hval, Hl. rewrite Hc in Hval.
  apply digits_value_bounds in Hval.
  assert (10 ^ Z.of_nat k <= 10 ^ Z.of_nat (String.length s)) by (apply Z.pow_le_mono_r; lia). nia.
Qed.

Lemma Z_to_string_length z : 0 <= z < 10 ^ 6 -> (String.length (Z_to_string z) <= 6)%nat.
Proof. apply (number_length 6). lia. Qed.

Lemma zeros_append n s :
  digits_value 0 (zeros n +:+ s) = digits_value 0 s /\ String.length (zeros n +:+ s) = (n + String.length s)%nat.
Proof.
  induction n as [|n [IH1 IH2]]; [done|]. cbn [zeros]. rewrite append_cons. split.
  - cbn [digits_value]. change (is_ascii_digit "0") with true. cbn iota. exact IH1.
  - cbn [String.length]. by rewrite IH2.
Qed.

Lemma pad6_spec seq :
  0 <= seq <= MAX_EVENT_SEQ -> digits_value 0 (pad6 seq) = Some seq /\ String.length (pad6 seq) = 6%nat.
Proof.
  unfold MAX_EVENT_SEQ. intros Hs. unfold pad6.
  destruct (zeros_append (6 - String.length (Z_to_string seq)) (Z_to_string seq)) as [-> ->].
  pose proof (Z_to_string_length seq ltac:(lia)). split; [|lia].
  destruct (Z_to_string_uint seq) as (d & <- & _ & ->); [lia|]. apply digits_value_uint.
Qed.

(** Keys of one run compare as their sequence numbers. *)
Lemma compare_event_keys run_id a b x y :
  0 <= a <= MAX_EVENT_SEQ -> 0 <= b <= MAX_EVENT_SEQ ->
  String.compare (key_with (pad6 a +:+ x) (events_key run_id)) (key_with (pad6 b +:+ y) (events_key run_id)) =
  match Z.compare a b with Eq => String.compare x y | c => c end.
Proof.
  intros Ha Hb. unfold key_with. rewrite compare_prefix. cbn [String.compare].
  unfold Ascii.compare. rewrite N.compare_refl. destruct (pad6_spec a Ha) as [Va La], (pad6_spec b Hb) as [Vb Lb].
  apply (compare_digits _ _ _ _ 0); [congruence|done|done].
Qed.

Lemma compare_same_run run_id a b s t :
  0 <= a <= MAX_EVENT_SEQ -> 0 <= b <= MAX_EVENT_SEQ -> a <> b ->
  String.compare (run_event_key run_id a s) (run_event_key run_id b t) = Z.compare a b.
Proof.
  intros Ha Hb Hn. unfold run_event_key. rewrite compare_event_keys by done.
  destruct (Z.compare_spec a b); done.
Qed.

(** *** Reading a key back *)

Definition no_char (c : ascii) (s : string) : Prop := str_forall (fun d => negb (Ascii.eqb c d)) s = true.

Lemma split_char_absent c s : no_char c s -> split_char c s = [s].
Proof.
  unfold no_char. induction s as [|d s IH]; [done|]. cbn [str_forall split_char].
  intros [Hd%negb_true_iff Hs]%andb_true_iff. by rewrite (IH Hs), Hd.
Qed.

Lemma split_char_cons c s : exists w ws, split_char c s = w :: ws.
Proof.
  induction s as [|d s (w & ws & IH)]; [by eexists _, _|]. cbn [split_char]. rewrite IH.
  destruct (Ascii.eqb c d); by eexists _, _.
Qed.

Lemma split_char_append c a b : no_char c a -> split_char c (a +:+ String c b) = a :: split_char c b.
Proof.
  unfold no_char. destruct (split_char_cons c b) as (w & ws & Hb). induction a as [|d a IH].
  - intros _. rewrite append_nil_l. cbn [split_char]. by rewrite Hb, Ascii.eqb_refl.
  - cbn [str_forall]. intros [Hd%negb_true_iff Ha]%andb_true_iff. rewrite append_cons. cbn [split_char].
    by rewrite (IH Ha), Hd.
Qed.

Lemma pad6_digits seq : 0 <= seq -> str_forall is_ascii_digit (pad6 seq) = true.
Proof.
  intros Hs. unfold pad6. rewrite str_forall_append, Z_to_string_digits, andb_true_r by done.
  by induction (6 - _)%nat.
Qed.

Lemma split_once_digits a rest :
  str_forall is_ascii_digit a = true -> split_once "-" (a +:+ String "-" rest) = Some (a, rest).
Proof.
  induction a as [|c a IH]; [done|]. cbn [str_forall]. intros [Hc Ha]%andb_true_iff. rewrite append_cons.
  cbn [split_once strip_prefix]. destruct (Ascii.eqb_spec "-" c) as [<-|_]; [done|]. by rewrite (IH Ha).
Qed.

Lemma parse_u32_pad6 seq : 0 <= seq <= MAX_EVENT_SEQ -> parse_u32 (pad6 seq) = Some seq.
Proof.
  intros Hs. destruct (pad6_spec seq Hs) as [Hv Hl]. pose proof (pad6_digits seq ltac:(lia)) as Hd.
  destruct (pad6 seq) as [|c r] eqn:Hp; [done|]. cbn [str_forall] in Hd. apply andb_true_iff in Hd as [Hc _].
  unfold parse_u32. rewrite (unsigned_digits (fun t => z ← parse_digits t; in_bounds 0 u32_max z) _ _ _ eq_refl Hc).
  unfold parse_digits. cbn [str_is_empty String.eqb]. rewrite Hv. cbn [mbind option_bind].
  apply in_bounds_intro. unfold MAX_EVENT_SEQ, u32_max in *. lia.
Qed.

(** A run id has no separator in its text. *)
Definition run_id_ok (run_id : string) : Prop := no_char SEP run_id.

Lemma digits_no_sep s : str_forall is_ascii_digit s = true -> no_char SEP s.
Proof.
  apply str_forall_impl. intros c Hc. apply negb_true_iff, Ascii.eqb_neq. intros <-. by vm_compute in Hc.
Qed.

Lemma Z_to_string_no_sep z : no_char SEP (Z_to_string z).
Proof.
  assert (forall d, no_char SEP (NilZero.string_of_uint d)) as H.
  { intros d. assert (no_char SEP (NilEmpty.string_of_uint d)) by (apply digits_no_sep, string_of_uint_digits).
    by destruct d. }
  unfold Z_to_string. destruct (Z.to_int z) as [d|d]; cbn [NilZero.string_of_int]; [apply H|].
  unfold no_char. cbn [str_forall]. apply H.
Qed.

Lemma no_char_append c a b : no_char c a -> no_char c b -> no_char c (a +:+ b).
Proof. unfold no_char. intros Ha Hb. by rewrite str_forall_append, Ha, Hb. Qed.

Lemma parse_event_key run_id seq ms :
  run_id_ok run_id -> 0 <= seq <= MAX_EVENT_SEQ -> parse_event_seq (run_event_key run_id seq ms) = Some seq.
Proof.
  intros Hr Hs. unfold parse_event_seq, run_event_key, events_key, key_with.
  rewrite !append_assoc, !(append_cons SEP), !split_char_append by done. rewrite split_char_absent.
  - cbn [String.eqb]. change (String.eqb "events" "events") with true. cbn iota.
    rewrite (append_cons "-"), append_nil_l, split_once_digits by (apply pad6_digits; lia). cbn [mbind option_bind fst]. by apply parse_u32_pad6.
  - apply no_char_append; [apply digits_no_sep, pad6_digits; lia|]. unfold no_char. cbn [str_forall].
    apply Z_to_string_no_sep.
Qed.

(** The scan range from [start] holds exactly the keys from that sequence number on. *)
Lemma key_in_range run_id start seq ms :
  0 <= start <= MAX_EVENT_SEQ -> 0 <= seq <= MAX_EVENT_SEQ ->
  (String.leb (run_events_range run_id start).1 (run_event_key run_id seq ms) &&
   String.ltb (run_event_key run_id seq ms) (run_events_range run_id start).2)%bool = (start <=? seq).
Proof.
  intros Ha Hb. unfold run_events_range, run_event_seq_prefix, run_event_key. cbn [fst snd].
  unfold String.leb, String.ltb. rewrite compare_event_keys by done. unfold key_with at 1. rewrite compare_prefix.
  change (String.compare (String SEP _) (String "001" "")) with Lt. rewrite andb_true_r. unfold Z.leb.
  destruct (Z.compare start seq); [|done..]. by destruct (Z_to_string ms).
Qed.

(** Between the prefixes of two numbers are the keys from the first up to the second. *)
Lemma key_between run_id start end_ seq ms :
  0 <= start <= MAX_EVENT_SEQ -> 0 <= end_ <= MAX_EVENT_SEQ -> 0 <= seq <= MAX_EVENT_SEQ ->
  (String.leb (run_event_seq_prefix run_id start) (run_event_key run_id seq ms) &&
   String.ltb (run_event_key run_id seq ms) (run_event_seq_prefix run_id end_))%bool = ((start <=? seq) && (seq <? end_))%bool.
Proof.
  intros Ha He Hb. unfold run_event_seq_prefix, run_event_key, String.leb, String.ltb.
  rewrite !compare_event_keys by done. unfold Z.leb, Z.ltb. f_equal.
  - destruct (Z.compare start seq); [|done..]. by destruct (Z_to_string ms).
  - destruct (Z.compare seq end_); [|done..]. by destruct (Z_to_string ms).
Qed.

Lemma starts_with_same p a b : starts_with (p +:+ a) (p +:+ b) = starts_with a b.
Proof.
  unfold starts_with. induction p as [|c p IH]; [done|]. rewrite !append_cons. cbn [strip_prefix]. by rewrite Ascii.eqb_refl.
Qed.

Lemma starts_with_spec p s : starts_with p s = true <-> exists r, s = p +:+ r.
Proof.
  unfold starts_with. revert s. induction p as [|c p IH]; intros s; cbn [strip_prefix is_some].
  - split; [by exists s|done].
  - destruct s as [|d s]; [split; [done|intros [r [=]]]|]. destruct (Ascii.eqb_spec c d) as [<-|Hn].
    + rewrite IH. split; intros [r Hr]; exists r; [by rewrite Hr, append_cons|by injection Hr].
    + split; [done|]. intros [r [= <-]]. done.
Qed.

(** The keys under the prefix of a number are the keys of that number. *)
Lemma key_of_seq run_id a seq ms :
  0 <= a <= MAX_EVENT_SEQ -> 0 <= seq <= MAX_EVENT_SEQ ->
  starts_with (run_event_seq_prefix run_id a) (run_event_key run_id seq ms) = (a =? seq).
Proof.
  intros Ha Hb. unfold run_event_seq_prefix, run_event_key, key_with. rewrite starts_with_same.
  change (starts_with (pad6 a +:+ "-") (pad6 seq +:+ String "-" (Z_to_string ms)) = (a =? seq)).
  destruct (Z.eqb_spec a seq) as [<-|Hn].
  - apply starts_with_spec. exists (Z_to_string ms). by rewrite append_assoc.
  - apply not_true_iff_false. intros [r Hr]%starts_with_spec. apply Hn.
    rewrite append_assoc in Hr. change ("-" +:+ r) with (String "-" r) in Hr.
    apply (f_equal (split_once "-")) in Hr. rewrite !split_once_digits in Hr by (apply pad6_digits; lia).
    injection Hr as Hr _. apply (f_equal parse_u32) in Hr. rewrite !parse_u32_pad6 in Hr by done. by injection Hr.
Qed.

(** Event keys.  For sequence numbers up to the maximum, the keys of a run order as
    their sequence numbers (whatever time they carry), reading a key gives its
    sequence number back, and the scan range from a sequence number holds exactly the
    keys from that number on. *)
Theorem event_keys_ordered run_id a b s t :
  run_id_ok run_id -> 0 <= a <= MAX_EVENT_SEQ -> 0 <= b <= MAX_EVENT_SEQ ->
  (a <> b -> String.compare (run_event_key run_id a s) (run_event_key run_id b t) = Z.compare a b) /\
  parse_event_seq (run_event_key run_id a s) = Some a /\
  (String.leb (run_events_range run_id a).1 (run_event_key run_id b t) &&
   String.ltb (run_event_key run_id b t) (run_events_range run_id a).2)%bool = (a <=? b).
Proof.
  intros Hr Ha Hb. split; [by apply compare_same_run|]. split; [by apply parse_event_key|by apply key_in_range].
Qed.

(** Past the maximum the order breaks: a seven-digit number sorts before smaller ones. *)
Lemma seven_digits_disorder :
  String.compare (run_event_key "r" 1000000 0) (run_event_key "r" 999999 0) = Lt.
Proof. reflexivity. Qed.

Lemma event_keys_ordered_witness :
  String.compare (run_event_key "r" 99 5) (run_event_key "r" 100 3) = Lt /\ parse_event_seq (run_event_key "r" 99 5) = Some 99.
Proof.
  destruct (event_keys_ordered "r" 99 100 5 3) as (H1 & H2 & _).
  - reflexivity.
  - vm_compute. split; discriminate.
  - vm_compute. split; discriminate.
  - split; [apply H1; discriminate|exact H2].
Defined.
