(* ===== verification/Blobs.v ===== *)
(** * Content-addressed blobs (fabro-store/src/blob_store.rs, fabro-types/src/blob_ref.rs)

    Values too large for the event log are rows of the [blobs] table under the SHA-256 of
    their bytes.  A context holds a reference to one, either in its durable form
    ([blob://sha256/HASH]) or as the file it was written to for an agent to read
    ([file://.../runtime/blobs/HASH.json]).

    The digest and its hexadecimal text are those of the sha2 and hex crates, and the
    table is SQLite's: both are parameters, with what their documentation says of them.
    The bytes of a blob are a byte string. *)

From S2P Require Import Prelude RustStr DecText EventKeys.
Local Open Scope string_scope.
Local Open Scope list_scope.

(** ** Hashes *)

Definition is_lower_hex (c : ascii) : bool := (is_ascii_digit c || in_range 97 102 c)%bool.

Class BlobHashes := {
  Hash : Type;
  #[global] Hash_eq_dec :: EqDecision Hash;
  sha256 : string -> Hash;
  hash_to_string : Hash -> string;
  hash_from_str : string -> option Hash;
  (* the text of a digest: 64 lowercase digits, which are read back *)
  hash_text_parsed : forall h, hash_from_str (hash_to_string h) = Some h;
  hash_text_hex : forall h, str_forall is_lower_hex (hash_to_string h) = true;
  hash_text_length : forall h, String.length (hash_to_string h) = 64%nat
}.

(** ** Paths (std::path, on Unix) *)

Definition slash : ascii := "/".

(** What [components] keeps of the pieces between separators. *)
Definition is_component (piece : string) : bool := negb (str_is_empty piece || String.eqb piece ".").

(** The root, or the leading [.] of a relative path. *)
Definition path_anchor (path : string) : list string :=
  match split_char slash path with
  | "" :: _ :: _ => ["/"]
  | "." :: _ => ["."]
  | _ => []
  end.

Definition path_components (path : string) : list string :=
  path_anchor path ++ filterb is_component (split_char slash path).

(** [file_name]: the last component, unless it is the root or a dot. *)
Definition path_file_name (path : string) : option string :=
  name ← last (path_components path);
  if existsb (String.eqb name) ["/"; "."; ".."] then None else Some name.

(** The components of [parent], if there is one. *)
Definition parent_components (path : string) : list string :=
  match last (path_components path) with
  | None => []
  | Some name => if String.eqb name "/" then [] else removelast (path_components path)
  end.

(** [join] with a relative path. *)
Definition path_join (path rest : string) : string :=
  if (str_is_empty path || ends_with "/" path)%bool then path +:+ rest else path +:+ "/" +:+ rest.

(** ** References *)

Section refs.
Context `{BlobHashes}.

Definition BLOB_REF_PREFIX : string := "blob://sha256/".

Definition format_blob_ref (h : Hash) : string := BLOB_REF_PREFIX +:+ hash_to_string h.

Definition parse_blob_ref (value : string) : option Hash := rest ← strip_prefix BLOB_REF_PREFIX value; hash_from_str rest.

Definition parse_blob_file_name (path : string) : option Hash :=
  file_name ← path_file_name path;
  text ← strip_suffix ".json" file_name;
  hash_from_str text.

Definition list_ends_with (suffix l : list string) : bool :=
  (Nat.leb (length suffix) (length l) && bool_decide (drop (length l - length suffix) l = suffix))%bool.

Definition has_path_suffix (path : string) (suffix : list string) : bool :=
  list_ends_with suffix (parent_components path).

Definition parse_managed_blob_file_ref (value : string) : option Hash :=
  path ← strip_prefix "file://" value;
  blob_hash ← parse_blob_file_name path;
  if (has_path_suffix path ["runtime"; "blobs"] || has_path_suffix path [".fabro"; "blobs"])%bool
  then Some blob_hash else None.

(** *** What the parsers accept *)

Lemma strip_prefix_append p s : strip_prefix p (p +:+ s) = Some s.
Proof. induction p as [|c p IH]; [done|]. rewrite append_cons. cbn. by rewrite Ascii.eqb_refl. Qed.

Lemma strip_suffix_append p s : strip_suffix p (s +:+ p) = Some s.
Proof.
  induction s as [|c s IH].
  - rewrite append_nil_l. destruct p; cbn; [done|]. by rewrite Ascii.eqb_refl, String.eqb_refl.
  - rewrite append_cons. cbn. destruct (String.eqb_spec p (String c (s +:+ p))) as [Hp|_]; [|by rewrite IH].
    apply (f_equal String.length) in Hp. cbn in Hp. rewrite length_append in Hp. lia.
Qed.

Lemma blob_ref_parsed h : parse_blob_ref (format_blob_ref h) = Some h.
Proof. unfold parse_blob_ref, format_blob_ref. rewrite strip_prefix_append. apply hash_text_parsed. Qed.

Lemma split_char_app c a b : split_char c (a +:+ String c b) = split_char c a ++ split_char c b.
Proof.
  induction a as [|d a IH]; cbn.
  - rewrite append_nil_l. cbn. destruct (split_char_cons c b) as (w & ws & ->). by rewrite Ascii.eqb_refl.
  - rewrite append_cons. cbn. rewrite IH. destruct (split_char_cons c a) as (w & ws & ->). cbn. by destruct (Ascii.eqb c d).
Qed.

Lemma path_components_slash a b : a <> "" -> path_components (a +:+ String slash b) = path_components a ++ filterb is_component (split_char slash b).
Proof.
  intros Ha. unfold path_components, path_anchor. rewrite split_char_app, filterb_app, app_assoc. f_equal. f_equal.
  destruct a as [|c a]; [done|]. destruct (split_char_cons slash b) as (w & ws & ->).
  cbn [split_char]. destruct (split_char_cons slash a) as (v & vs & ->). by destruct (Ascii.eqb slash c).
Qed.

(** A name that is a component on its own. *)
Definition normal_name (name : string) : Prop := no_char slash name /\ is_component name = true.

Lemma normal_name_split name : normal_name name -> filterb is_component (split_char slash name) = [name].
Proof. intros [Hs Hc]. rewrite split_char_absent by done. cbn. by rewrite Hc. Qed.

Lemma path_components_name a name : a <> "" -> normal_name name -> path_components (a +:+ "/" +:+ name) = path_components a ++ [name].
Proof. intros Ha Hn. rewrite append_cons, append_nil_l, path_components_slash, normal_name_split; done. Qed.

Lemma ends_with_slash a : ends_with "/" a = true -> exists b, a = b +:+ "/".
Proof.
  unfold ends_with. induction a as [|c a IH]; [done|]. cbn [strip_suffix].
  destruct (String.eqb_spec "/" (String c a)) as [<-|_]; [by exists ""|]. intros H1.
  destruct (strip_suffix "/" a) as [b0|]; [|done]. destruct IH as [b ->]; [done|]. exists (String c b). by rewrite append_cons.
Qed.

Lemma path_components_join a name : normal_name name -> path_components (path_join a name) = path_components a ++ [name].
Proof.
  intros Hn. unfold path_join, str_is_empty. destruct (String.eqb_spec a "") as [->|Ha]; cbn.
  - rewrite append_nil_l. unfold path_components, path_anchor. destruct Hn as [Hs Hc].
    rewrite split_char_absent by done. cbn. rewrite Hc. destruct name as [|c name]; [done|].
    destruct c as [[] [] [] [] [] [] [] []]; try done. destruct name; done.
  - destruct (ends_with "/" a) eqn:He; [|by apply path_components_name].
    apply ends_with_slash in He as [b ->]. rewrite append_assoc.
    destruct b as [|c b].
    + destruct Hn as [Hs Hc]. rewrite append_nil_l, append_cons, append_nil_l.
      unfold path_components, path_anchor. cbn [split_char]. rewrite split_char_absent by done. cbn. by rewrite Hc.
    + rewrite path_components_name by done. f_equal. rewrite append_cons.
      rewrite <- (append_cons c b "/"). rewrite path_components_slash by done. cbn. by rewrite app_nil_r.
Qed.

Definition file_name_of (h : Hash) : string := hash_to_string h +:+ ".json".

Lemma file_name_length h : String.length (file_name_of h) = 69%nat.
Proof. unfold file_name_of. by rewrite length_append, hash_text_length. Qed.

Lemma file_name_not h s : (String.length s < 69)%nat -> String.eqb (file_name_of h) s = false.
Proof. intros Hs. apply String.eqb_neq. intros <-. rewrite file_name_length in Hs. lia. Qed.

Lemma file_name_normal h : normal_name (file_name_of h).
Proof.
  split.
  - unfold no_char, file_name_of. rewrite str_forall_append. apply andb_true_iff. split; [|done].
    eapply str_forall_impl; [|apply hash_text_hex]. intros c Hc. apply negb_true_iff, Ascii.eqb_neq. by intros <-.
  - unfold is_component, str_is_empty. by rewrite !file_name_not by (cbn; lia).
Qed.

Lemma list_ends_with_app pre suffix : list_ends_with suffix (pre ++ suffix) = true.
Proof.
  unfold list_ends_with. apply andb_true_iff. split; [apply Nat.leb_le; rewrite length_app; lia|].
  apply bool_decide_eq_true. rewrite length_app, Nat.add_sub. by rewrite drop_app_length.
Qed.

(** A file of a hash in a directory whose last components are [runtime/blobs] is a
    managed one. *)
Lemma managed_ref_parsed path h dir :
  path_components path = dir ++ ["runtime"; "blobs"; file_name_of h] ->
  parse_managed_blob_file_ref ("file://" +:+ path) = Some h.
Proof.
  intros Hpath. unfold parse_managed_blob_file_ref. rewrite strip_prefix_append. cbn [mbind option_bind].
  assert (Hsplit : dir ++ ["runtime"; "blobs"; file_name_of h] = (dir ++ ["runtime"; "blobs"]) ++ [file_name_of h])
    by by rewrite <- app_assoc.
  assert (Hlast : last (path_components path) = Some (file_name_of h)) by by rewrite Hpath, Hsplit, last_snoc.
  unfold parse_blob_file_name, path_file_name, has_path_suffix, parent_components. rewrite Hlast. cbn [mbind option_bind existsb].
  rewrite !file_name_not by (cbn; lia). cbn [orb mbind option_bind]. unfold file_name_of at 1.
  rewrite strip_suffix_append. cbn [mbind option_bind]. rewrite hash_text_parsed. cbn [mbind option_bind].
  by rewrite Hpath, Hsplit, removelast_last, list_ends_with_app.
Qed.

(** No reference is of both forms. *)
Lemma blob_ref_not_managed h : parse_managed_blob_file_ref (format_blob_ref h) = None.
Proof. done. Qed.
End refs.

(** ** The table *)

(** SQLite, through sqlx: a statement answers or fails, and a failed one may or may not
    have been carried out. *)
Class BlobTable (W : Type) := {
  table : W -> gmap string string;
  (* INSERT INTO blobs (hash, data) VALUES (?, ?) ON CONFLICT(hash) DO NOTHING: rows affected *)
  sql_insert : string -> string -> W -> result Z string * W;
  (* SELECT data FROM blobs WHERE hash = ? *)
  sql_select : string -> W -> result (option string) string * W;
  (* SELECT EXISTS(SELECT 1 FROM blobs WHERE hash = ?) *)
  sql_exists : string -> W -> result bool string * W;
  insert_new : forall k v w n w', sql_insert k v w = (Ok n, w') -> n = 1%Z ->
    table w !! k = None /\ table w' = <[k := v]> (table w);
  insert_conflict : forall k v w n w', sql_insert k v w = (Ok n, w') -> n <> 1%Z ->
    is_Some (table w !! k) /\ table w' = table w;
  insert_failed : forall k v w e w', sql_insert k v w = (Err e, w') ->
    table w' = table w \/ (table w !! k = None /\ table w' = <[k := v]> (table w));
  select_reads : forall k w r w', sql_select k w = (r, w') ->
    table w' = table w /\ match r with Ok o => o = table w !! k | Err _ => True end;
  exists_reads : forall k w r w', sql_exists k w = (r, w') ->
    table w' = table w /\ match r with Ok b => b = is_some (table w !! k) | Err _ => True end
}.

Inductive BlobError (H : Type) :=
| BlobSqlite (e : string)
| BlobHashConflict (h : H)
| BlobIntegrity (h : H)
| BlobReadOnly.
Arguments BlobSqlite {H}.
Arguments BlobHashConflict {H}.
Arguments BlobIntegrity {H}.
Arguments BlobReadOnly {H}.

Section store.
Context `{BlobHashes} {W : Type} `{!BlobTable W}.
Implicit Types (w : W).

(** [fetch_one] fails when there is no row. *)
Definition fetch_one (k : string) w : result string string * W :=
  match sql_select k w with
  | (Ok (Some v), w) => (Ok v, w)
  | (Ok None, w) => (Err "no rows returned by a query that expected to return at least one row", w)
  | (Err e, w) => (Err e, w)
  end.

Definition blob_write (bytes : string) w : result Hash (BlobError Hash) * W :=
  let blob_hash := sha256 bytes in
  match sql_insert (hash_to_string blob_hash) bytes w with
  | (Err e, w) => (Err (BlobSqlite e), w)
  | (Ok rows_affected, w) =>
      if (rows_affected =? 1)%Z then (Ok blob_hash, w)
      else match fetch_one (hash_to_string blob_hash) w with
           | (Err e, w) => (Err (BlobSqlite e), w)
           | (Ok stored, w) =>
               if String.eqb stored bytes then (Ok blob_hash, w) else (Err (BlobHashConflict blob_hash), w)
           end
  end.

Definition blob_read (blob_hash : Hash) w : result (option string) (BlobError Hash) * W :=
  match sql_select (hash_to_string blob_hash) w with
  | (Err e, w) => (Err (BlobSqlite e), w)
  | (Ok None, w) => (Ok None, w)
  | (Ok (Some stored), w) =>
      if bool_decide (sha256 stored = blob_hash) then (Ok (Some stored), w) else (Err (BlobIntegrity blob_hash), w)
  end.

Definition blob_exists (blob_hash : Hash) w : result bool (BlobError Hash) * W :=
  match sql_exists (hash_to_string blob_hash) w with
  | (Err e, w) => (Err (BlobSqlite e), w)
  | (Ok b, w) => (Ok b, w)
  end.

(** The run's view of the store. *)
Definition run_write_blob (read_only : bool) (data : string) w : result Hash (BlobError Hash) * W :=
  if read_only then (Err BlobReadOnly, w) else blob_write data w.
Definition run_read_blob (blob_hash : Hash) w : result (option string) (BlobError Hash) * W := blob_read blob_hash w.

(** *** What the store promises *)

(** The blob that the table holds for a hash. *)
Definition holds w (h : Hash) (bytes : string) : Prop := table w !! hash_to_string h = Some bytes.

(** Rows are only ever added. *)
Definition grows w w' : Prop := table w ⊆ table w'.

#[export] Instance grows_preorder : PreOrder grows.
Proof. unfold grows. split; [intros w; done|intros w1 w2 w3; apply transitivity]. Qed.

Lemma grows_holds w w' h b : grows w w' -> holds w h b -> holds w' h b.
Proof. unfold grows, holds. intros Hg Hh. by eapply lookup_weaken. Qed.

Lemma sql_insert_grows k v w r w' : sql_insert k v w = (r, w') -> grows w w'.
Proof.
  unfold grows. destruct r as [n|e]; intros Hi.
  - destruct (decide (n = 1%Z)) as [Hn|Hn].
    + destruct (insert_new _ _ _ _ _ Hi Hn) as [Hnone ->]. by apply insert_subseteq.
    + by destruct (insert_conflict _ _ _ _ _ Hi Hn) as [_ ->].
  - destruct (insert_failed _ _ _ _ _ Hi) as [->|[Hnone ->]]; [done|by apply insert_subseteq].
Qed.

Lemma fetch_one_spec k w r w' :
  fetch_one k w = (r, w') -> table w' = table w /\ match r with Ok v => table w !! k = Some v | Err _ => True end.
Proof.
  unfold fetch_one. destruct (sql_select k w) as [s w1] eqn:Hs. apply select_reads in Hs as [Ht Hr].
  destruct s as [[v|]|e]; intros [= <- <-]; by rewrite ?Ht, ?Hr.
Qed.

(** A write adds at most the blob; one that succeeds leaves the very bytes it was given
    under their hash. *)
Lemma blob_write_spec bytes w r w' :
  blob_write bytes w = (r, w') ->
  grows w w' /\ match r with Ok h => h = sha256 bytes /\ holds w' h bytes | Err _ => True end.
Proof.
  unfold blob_write, holds. destruct (sql_insert _ bytes w) as [[n|e] w1] eqn:Hi; pose proof (sql_insert_grows _ _ _ _ _ Hi) as Hg.
  2:{ by intros [= <- <-]. }
  destruct (Z.eqb_spec n 1) as [->|Hn].
  - intros [= <- <-]. split; [done|]. split; [done|].
    destruct (insert_new _ _ _ _ _ Hi eq_refl) as [_ ->]. by rewrite lookup_insert_eq.
  - destruct (fetch_one _ w1) as [f w2] eqn:Hf. apply fetch_one_spec in Hf as [Ht Hf].
    assert (grows w w2) as Hg2 by (unfold grows in *; by rewrite Ht).
    destruct f as [stored|e]; [|by intros [= <- <-]].
    destruct (String.eqb_spec stored bytes) as [->|_]; intros [= <- <-]; [|done].
    split; [done|]. by rewrite Ht.
Qed.

(** A read never answers bytes of another hash, and leaves the table alone. *)
Lemma blob_read_spec h w r w' :
  blob_read h w = (r, w') ->
  table w' = table w /\
  match r with
  | Ok None => table w !! hash_to_string h = None
  | Ok (Some b) => holds w h b /\ sha256 b = h
  | Err (BlobIntegrity h') => h' = h /\ exists b, holds w h b /\ sha256 b <> h
  | Err _ => True
  end.
Proof.
  unfold blob_read, holds. destruct (sql_select _ w) as [s w1] eqn:Hs. apply select_reads in Hs as [Ht Hr].
  destruct s as [[v|]|e]; [|by intros [= <- <-]..]. case_bool_decide as Hh; intros [= <- <-]; [done|].
  split; [done|]. split; [done|]. by exists v.
Qed.

Lemma blob_read_held h b w : holds w h b -> sha256 b = h -> is_ok (sql_select (hash_to_string h) w).1 = true ->
  exists w', blob_read h w = (Ok (Some b), w') /\ table w' = table w.
Proof.
  unfold blob_read, holds. intros Hb Hh Hok. destruct (sql_select _ w) as [[o|e] w1] eqn:Hs; [|done].
  apply select_reads in Hs as [Ht ->]. rewrite Hb. rewrite bool_decide_eq_true_2 by done. by exists w1.
Qed.
End store.
