(* ===== verification/Interp.v ===== *)
(** * Interpolated settings (fabro-types/src/settings/interp.rs)

    A setting may hold tokens such as [{{ vars.NAME }}].  It is parsed into literal and
    token segments; which namespaces a place can resolve depends on the place, so variables
    are substituted when a run is created and secrets when they are used.  In between the
    setting travels as its source text.

    The theorems: the source text of a parsed setting parses to it again; substituting some
    namespaces first and resolving the rest later is resolving all of them at once.  The
    two do not compose: once a substituted value has travelled as source text, token syntax
    in it is live.

    A lookup is a closure over a table; it is a function here. *)

From S2P Require Import Prelude RustStr DecText EventKeys Blobs.
Local Open Scope string_scope.
Local Open Scope list_scope.

Inductive Namespace := NsEnv | NsVars | NsSecrets | NsInputs | NsGoal.

#[export] Instance Namespace_eq_dec : EqDecision Namespace.
Proof. solve_decision. Defined.

Inductive Segment :=
| Literal (text : string)
| Token (namespace : Namespace) (name : string).

#[export] Instance Segment_eq_dec : EqDecision Segment.
Proof. solve_decision. Defined.

(** An [InterpString] is its segments. *)
Abbreviation InterpString := (list Segment).

Definition GOAL_TOKEN : string := "goal".

Definition Namespace_to_string (ns : Namespace) : string :=
  match ns with
  | NsEnv => "env" | NsVars => "vars" | NsSecrets => "secrets" | NsInputs => "inputs" | NsGoal => "goal"
  end.

Definition Namespace_from_str (s : string) : option Namespace :=
  find_first (fun ns => String.eqb (Namespace_to_string ns) s) [NsEnv; NsVars; NsSecrets; NsInputs; NsGoal].

Definition noun (ns : Namespace) : string :=
  match ns with
  | NsEnv => "environment variable" | NsVars => "variable" | NsSecrets => "secret" | NsInputs => "input" | NsGoal => "run goal"
  end.

Definition is_bare (ns : Namespace) : bool := match ns with NsGoal => true | _ => false end.

Definition word_char (c : ascii) : bool := (is_ascii_alphanumeric c || Ascii.eqb c "_")%bool.

Definition is_env_style_name (name : string) : bool :=
  match name with
  | "" => false
  | String c rest => ((is_ascii_alphabetic c || Ascii.eqb c "_") && str_forall word_char rest)%bool
  end.

Definition is_valid_name (ns : Namespace) (name : string) : bool :=
  match ns with
  | NsEnv => (negb (str_is_empty name) && str_forall word_char name)%bool
  | NsVars | NsSecrets => is_env_style_name name
  | NsInputs =>
      match name with
      | "" => false
      | String c rest => (word_char c && str_forall (fun c => word_char c || Ascii.eqb c "-")%bool rest)%bool
      end
  | NsGoal => String.eqb name GOAL_TOKEN
  end.

Definition parse_token (token : string) : option (Namespace * string) :=
  let trimmed := trim token in
  if String.eqb trimmed GOAL_TOKEN then Some (NsGoal, GOAL_TOKEN)
  else
    '(prefix, name) ← split_once "." trimmed;
    namespace ← opt_filter (fun ns => negb (is_bare ns)) (Namespace_from_str prefix);
    if is_valid_name namespace name then Some (namespace, name) else None.

(** ** Parsing *)

Definition push_literal (segments : list Segment) (text : string) : list Segment :=
  if str_is_empty text then segments
  else match last segments with
       | Some (Literal existing) => removelast segments ++ [Literal (existing +:+ text)]
       | _ => segments ++ [Literal text]
       end.

(** Each round takes four bytes at least, or ends. *)
Fixpoint parse_go (fuel : nat) (segments : list Segment) (rest : string) : list Segment :=
  match fuel with
  | O => segments
  | S fuel =>
      match split_once "{{" rest with
      | None => if str_is_empty rest then segments else push_literal segments rest
      | Some (before, after_open) =>
          let segments := push_literal segments before in
          match split_once "}}" after_open with
          | Some (token, rest) =>
              match parse_token token with
              | Some (namespace, name) => parse_go fuel (segments ++ [Token namespace name]) rest
              | None => parse_go fuel (push_literal segments ("{{" +:+ token +:+ "}}")) rest
              end
          | None => push_literal segments ("{{" +:+ after_open)
          end
      end
  end.

(** [parse] ends with one empty literal rather than no segment. *)
Definition nonempty_segments (segments : list Segment) : InterpString :=
  match segments with [] => [Literal ""] | _ => segments end.

Definition interp_parse (input : string) : InterpString := nonempty_segments (parse_go (S (String.length input)) [] input).

(** ** Queries *)

Definition is_literal (s : InterpString) : bool := forallb (fun seg => match seg with Literal _ => true | Token _ _ => false end) s.

Definition references (ns : Namespace) (s : InterpString) : bool :=
  existsb (fun seg => match seg with Token ns' _ => bool_decide (ns' = ns) | Literal _ => false end) s.

Definition names (ns : Namespace) (s : InterpString) : list string :=
  omap (fun seg => match seg with Token ns' name => if bool_decide (ns' = ns) then Some name else None | Literal _ => None end) s.

Definition segment_source (seg : Segment) : string :=
  match seg with
  | Literal text => text
  | Token ns name => "{{ " +:+ Namespace_to_string ns +:+ (if is_bare ns then "" else "." +:+ name) +:+ " }}"
  end.

Fixpoint str_concat (l : list string) : string := match l with [] => "" | s :: l => s +:+ str_concat l end.

Definition as_source (s : InterpString) : string := str_concat (segment_source <$> s).

(** ** Resolution *)

Inductive ResolveErrorKind := Missing | Unavailable.
Record ResolveError := mkResolveError { re_namespace : Namespace; re_name : string; re_kind : ResolveErrorKind }.

Definition Lookup := string -> option string.
Record ResolveCtx := mkResolveCtx {
  rc_vars : option Lookup;
  rc_secrets : option Lookup;
  rc_inputs : option Lookup;
  rc_goal : option Lookup
}.

Definition ResolveCtx_new : ResolveCtx := mkResolveCtx None None None None.
Definition with_vars (f : Lookup) (c : ResolveCtx) : ResolveCtx := mkResolveCtx (Some f) (rc_secrets c) (rc_inputs c) (rc_goal c).
Definition with_secrets (f : Lookup) (c : ResolveCtx) : ResolveCtx := mkResolveCtx (rc_vars c) (Some f) (rc_inputs c) (rc_goal c).
Definition with_inputs (f : Lookup) (c : ResolveCtx) : ResolveCtx := mkResolveCtx (rc_vars c) (rc_secrets c) (Some f) (rc_goal c).
Definition with_goal (goal : string) (c : ResolveCtx) : ResolveCtx :=
  mkResolveCtx (rc_vars c) (rc_secrets c) (rc_inputs c) (Some (fun _ => Some goal)).

Definition lookup_for (c : ResolveCtx) (ns : Namespace) : option Lookup :=
  match ns with
  | NsEnv => None
  | NsVars => rc_vars c
  | NsSecrets => rc_secrets c
  | NsInputs => rc_inputs c
  | NsGoal => rc_goal c
  end.

Definition resolve_token (c : ResolveCtx) (ns : Namespace) (name : string) : result string ResolveError :=
  match lookup_for c ns with
  | None => Err (mkResolveError ns name Unavailable)
  | Some lookup =>
      match lookup name with
      | None => Err (mkResolveError ns name Missing)
      | Some resolved => Ok resolved
      end
  end.

Fixpoint resolve_with (c : ResolveCtx) (s : InterpString) : result string ResolveError :=
  match s with
  | [] => Ok ""
  | Literal text :: s => result_bind (resolve_with c s) (fun rest => Ok (text +:+ rest))
  | Token ns name :: s =>
      result_bind (resolve_token c ns name) (fun resolved =>
      result_bind (resolve_with c s) (fun rest => Ok (resolved +:+ rest)))
  end.

(** The loop of [substitute_with], over the segments made so far. *)
Fixpoint substitute_go (c : ResolveCtx) (segments : list Segment) (s : InterpString) : result (list Segment) ResolveError :=
  match s with
  | [] => Ok segments
  | Literal text :: s => substitute_go c (push_literal segments text) s
  | Token ns name :: s =>
      match lookup_for c ns with
      | Some lookup =>
          match lookup name with
          | None => Err (mkResolveError ns name Missing)
          | Some resolved => substitute_go c (push_literal segments resolved) s
          end
      | None => substitute_go c (segments ++ [Token ns name]) s
      end
  end.

Definition substitute_with (c : ResolveCtx) (s : InterpString) : result InterpString ResolveError :=
  result_bind (substitute_go c [] s) (fun segments => Ok (nonempty_segments segments)).

Definition substitute_variables (lookup : Lookup) (s : InterpString) : result InterpString ResolveError :=
  substitute_with (with_vars lookup ResolveCtx_new) s.

Definition substitute_variables_in_str (value : string) (lookup : Lookup) : result string ResolveError :=
  let parsed := interp_parse value in
  if negb (references NsVars parsed) then Ok value
  else result_bind (substitute_variables lookup parsed) (fun s => Ok (as_source s)).

(** [Display] of an error; a token's name has no character that [{:?}] escapes. *)
Definition resolve_error_to_string (e : ResolveError) : string :=
  let name := re_name e in
  let ns := Namespace_to_string (re_namespace e) in
  let token := "{{ " +:+ ns +:+ "." +:+ name +:+ " }}" in
  match re_kind e with
  | Missing => noun (re_namespace e) +:+ " " +:+ dq +:+ name +:+ dq +:+ " referenced by " +:+ token +:+ " is not set"
  | Unavailable =>
      match re_namespace e with
      | NsInputs => "{{ inputs." +:+ name +:+ " }} is only available in prompts, goals, and command node `script` attributes, not in other config fields"
      | NsGoal => "{{ goal }} is only available in prompts and command node `script` attributes, not in other config fields"
      | NsEnv => "{{ env." +:+ name +:+ " }} is not supported: the process environment is not a configuration source. Use {{ vars." +:+ name
                 +:+ " }} for a non-sensitive value (`fabro variable set`) or {{ secrets." +:+ name +:+ " }} for a credential (`fabro secret set`)"
      | _ => noun (re_namespace e) +:+ " " +:+ dq +:+ name +:+ dq +:+ " referenced by " +:+ token
             +:+ " is not supported in this interpolation context"
      end
  end.


(** ** How the parser cuts its input

    A round of [parse] takes a text with no opening brace pair in it or across its end, and
    then a token body up to the first closing pair. *)

Definition clean (before : string) : Prop := split_once "{{" (before +:+ "{") = None.
Definition closes (token : string) : Prop := split_once "}}" (token +:+ "}") = None.

Inductive Pieces : string -> list Segment -> Prop :=
| PiecesEnd rest : split_once "{{" rest = None -> Pieces rest [Literal rest]
| PiecesOpen before after_open :
    clean before -> split_once "}}" after_open = None ->
    Pieces (before +:+ "{{" +:+ after_open) [Literal before; Literal ("{{" +:+ after_open)]
| PiecesToken before token ns name rest l :
    clean before -> closes token -> parse_token token = Some (ns, name) -> Pieces rest l ->
    Pieces (before +:+ "{{" +:+ token +:+ "}}" +:+ rest) (Literal before :: Token ns name :: l)
| PiecesOther before token rest l :
    clean before -> closes token -> parse_token token = None -> Pieces rest l ->
    Pieces (before +:+ "{{" +:+ token +:+ "}}" +:+ rest) (Literal before :: Literal ("{{" +:+ token +:+ "}}") :: l).

Lemma if_id {A} (b : bool) (x : A) : (if b then x else x) = x.
Proof. by destruct b. Qed.

(** A pair [cc] first found after [a] is found there whatever follows it, and [a] neither
    holds the pair nor ends in [c]. *)
Definition pair_of (c : ascii) : string := String c (String c "").

Lemma strip_pair c a s : strip_prefix (pair_of c) (String a s) = (if Ascii.eqb c a then strip_prefix (String c "") s else None).
Proof. done. Qed.

Lemma strip_one c s : strip_prefix (String c "") s = match s with String b s => if Ascii.eqb c b then Some s else None | "" => None end.
Proof. by destruct s. Qed.

Lemma split_pair_cons c a s :
  split_once (pair_of c) (String a s)
  = match strip_prefix (pair_of c) (String a s) with
    | Some rest => Some ("", rest)
    | None => (fun ab => (String a ab.1, ab.2)) <$> split_once (pair_of c) s
    end.
Proof. done. Qed.

Lemma split_pair_cut c s a b : split_once (pair_of c) s = Some (a, b) -> s = a +:+ pair_of c +:+ b /\ split_once (pair_of c) (a +:+ String c "") = None.
Proof.
  revert a b. induction s as [|x s IH]; intros a b; [done|]. rewrite split_pair_cons, strip_pair, strip_one.
  destruct (Ascii.eqb_spec c x) as [<-|Hx].
  - destruct s as [|y s]; [done|]. destruct (Ascii.eqb_spec c y) as [<-|Hy].
    + intros [= <- <-]. split; [done|]. by rewrite append_nil_l, split_pair_cons, strip_pair, strip_one, if_id.
    + destruct (split_once (pair_of c) (String y s)) as [[a' b']|]; [|done]. intros [= <- <-].
      destruct (IH _ _ eq_refl) as [Hs Hn]. split; [by rewrite append_cons, <- Hs|].
      rewrite append_cons, split_pair_cons, strip_pair, strip_one, Ascii.eqb_refl, Hn.
      destruct a' as [|z a']; [by injection Hs as -> _|]. rewrite append_cons in Hs. injection Hs as <- _.
      rewrite append_cons. by destruct (Ascii.eqb_spec c y).
  - destruct (split_once (pair_of c) s) as [[a' b']|]; [|done]. intros [= <- <-].
    destruct (IH _ _ eq_refl) as [Hs Hn]. split; [by rewrite append_cons, <- Hs|].
    rewrite append_cons, split_pair_cons, strip_pair, Hn. by destruct (Ascii.eqb_spec c x).
Qed.

Lemma split_pair_glue c a b : split_once (pair_of c) (a +:+ String c "") = None -> split_once (pair_of c) (a +:+ pair_of c +:+ b) = Some (a, b).
Proof.
  induction a as [|x a IH].
  - intros _. rewrite !append_nil_l. unfold pair_of at 2. rewrite !append_cons, append_nil_l, split_pair_cons, strip_pair, strip_one. by rewrite !Ascii.eqb_refl.
  - rewrite !append_cons, !split_pair_cons, !strip_pair, !strip_one.
    destruct (Ascii.eqb_spec c x) as [<-|Hx].
    + destruct a as [|y a]; [rewrite append_nil_l; by rewrite Ascii.eqb_refl|]. rewrite !append_cons in *.
      destruct (Ascii.eqb_spec c y); [done|].
      destruct (split_once (pair_of c) (String y (a +:+ String c ""))); [done|]. intros _. by rewrite IH.
    + destruct (split_once (pair_of c) (a +:+ String c "")); [done|]. intros _. by rewrite IH.
Qed.

Lemma split_pair_app c a s :
  split_once (pair_of c) (a +:+ String c "") = None -> split_once (pair_of c) s = None -> split_once (pair_of c) (a +:+ s) = None.
Proof.
  induction a as [|x a IH]; [done|]. rewrite !append_cons, !split_pair_cons, !strip_pair, !strip_one.
  destruct (Ascii.eqb_spec c x) as [<-|Hx].
  - destruct a as [|y a]; [rewrite append_nil_l; by rewrite Ascii.eqb_refl|]. rewrite !append_cons in *.
    destruct (Ascii.eqb_spec c y); [done|].
    destruct (split_once (pair_of c) (String y (a +:+ String c ""))); [done|]. intros _ Hs. by rewrite IH.
  - destruct (split_once (pair_of c) (a +:+ String c "")); [done|]. intros _ Hs. by rewrite IH.
Qed.

Definition brace_free (v : string) : Prop := str_forall (fun c => negb (Ascii.eqb "{" c)) v = true.

Lemma absent_pair c v : str_forall (fun x => negb (Ascii.eqb c x)) v = true -> split_once (pair_of c) (v +:+ String c "") = None.
Proof.
  induction v as [|x v IH]; cbn [str_forall].
  - intros _. by rewrite append_nil_l, split_pair_cons, strip_pair, strip_one, if_id.
  - intros [Hx Hv]%andb_prop. rewrite append_cons, split_pair_cons, strip_pair, IH by done. by destruct (Ascii.eqb c x).
Qed.

Lemma clean_app a b : clean a -> clean b -> clean (a +:+ b).
Proof. unfold clean. intros Ha Hb. rewrite append_assoc. by apply (split_pair_app "{"). Qed.

Lemma pieces_prefix a s b l : clean a -> Pieces s (Literal b :: l) -> Pieces (a +:+ s) (Literal (a +:+ b) :: l).
Proof.
  intros Ha. inversion 1; subst; rewrite <- ?(append_assoc a);
    constructor; try done; try by apply clean_app.
  by apply (split_pair_app "{").
Qed.

(** Every input is cut, and [parse] collects the pieces. *)
Lemma pieces_exist s : exists b l, Pieces s (Literal b :: l).
Proof.
  remember (String.length s) as n eqn:Hn. revert s Hn. induction n as [n IH] using lt_wf_ind. intros s ->.
  destruct (split_once "{{" s) as [[before after_open]|] eqn:Ho; [|by eexists _, _; apply PiecesEnd].
  apply (split_pair_cut "{") in Ho as [-> Hb].
  destruct (split_once "}}" after_open) as [[token rest]|] eqn:Hc; [|by eexists _, _; apply PiecesOpen].
  apply (split_pair_cut "}") in Hc as [-> Ht].
  destruct (IH (String.length rest)) with (s := rest) as (b & l & Hl); [rewrite !length_append; cbn; lia|done|].
  destruct (parse_token token) as [[ns name]|] eqn:Hp; eexists _, _.
  - by eapply PiecesToken.
  - by eapply PiecesOther.
Qed.

Definition push_segment (segments : list Segment) (seg : Segment) : list Segment :=
  match seg with Literal text => push_literal segments text | Token ns name => segments ++ [Token ns name] end.

Lemma parse_go_pieces s l fuel acc : Pieces s l -> (String.length s < fuel)%nat -> parse_go fuel acc s = fold_left push_segment l acc.
Proof.
  intros Hl. revert fuel acc. induction Hl as [rest Hr|before after Hb Ha|before token ns name rest l Hb Ht Hp _ IH|before token rest l Hb Ht Hp _ IH];
    intros [|fuel] acc Hf; try lia; cbn [parse_go].
  - rewrite Hr. cbn. unfold push_literal. by destruct (str_is_empty rest).
  - rewrite (split_pair_glue "{") by done. by rewrite Ha.
  - rewrite (split_pair_glue "{") by done. rewrite (split_pair_glue "}") by done. rewrite Hp. cbn. apply IH. rewrite !length_append in Hf. cbn in Hf. lia.
  - rewrite (split_pair_glue "{") by done. rewrite (split_pair_glue "}") by done. rewrite Hp. cbn [fold_left push_segment]. apply IH. rewrite !length_append in Hf. cbn in Hf. lia.
Qed.

Lemma parse_pieces s l : Pieces s l -> interp_parse s = nonempty_segments (fold_left push_segment l []).
Proof. intros Hl. unfold interp_parse. by rewrite (parse_go_pieces s l) by (done || lia). Qed.

(** ** Readings of a setting

    Its source text, its resolution and its partial substitution all read the segments in
    order and keep literal text; such a reading does not see how literals are merged. *)

Fixpoint reading (g : Segment -> result string ResolveError) (s : InterpString) : result string ResolveError :=
  match s with
  | [] => Ok ""
  | seg :: s => result_bind (g seg) (fun a => result_bind (reading g s) (fun b => Ok (a +:+ b)))
  end.

Definition verbatim (g : Segment -> result string ResolveError) : Prop := forall t, g (Literal t) = Ok t.

Lemma reading_app g a b : reading g (a ++ b) = result_bind (reading g a) (fun x => result_bind (reading g b) (fun y => Ok (x +:+ y))).
Proof.
  induction a as [|seg a IH]; cbn.
  - by destruct (reading g b); cbn; rewrite ?append_nil_l.
  - destruct (g seg); cbn; [|done]. rewrite IH. destruct (reading g a); cbn; [|done]. destruct (reading g b); cbn; [|done]. by rewrite append_assoc.
Qed.

Lemma push_literal_cases segments text :
  (text = "" /\ push_literal segments text = segments)
  \/ push_literal segments text = segments ++ [Literal text]
  \/ exists pre e, segments = pre ++ [Literal e] /\ push_literal segments text = pre ++ [Literal (e +:+ text)].
Proof.
  unfold push_literal. destruct text as [|x text]; [by left|]. right. cbn [str_is_empty].
  destruct (last segments) as [[e|ns name]|] eqn:Hl; [|by left..]. right.
  apply last_Some in Hl as [pre ->]. exists pre, e. split; [done|]. by rewrite removelast_last.
Qed.

Lemma reading_push g segments seg : verbatim g -> reading g (push_segment segments seg) = reading g (segments ++ [seg]).
Proof.
  intros Hg. destruct seg as [text|ns name]; [|done]. cbn [push_segment].
  destruct (push_literal_cases segments text) as [[-> ->]|[->|(pre & e & -> & ->)]].
  - rewrite reading_app. cbn. rewrite Hg. destruct (reading g segments); cbn; [|done]. by rewrite append_nil_r.
  - done.
  - rewrite <- app_assoc, !reading_app. cbn [app reading]. rewrite !Hg. destruct (reading g pre); cbn -[String.append]; [|done].
    by rewrite !append_nil_r.
Qed.

Lemma reading_collected g l acc : verbatim g -> reading g (fold_left push_segment l acc) = reading g (acc ++ l).
Proof.
  intros Hg. revert acc. induction l as [|seg l IH]; intros acc; cbn; [by rewrite app_nil_r|].
  rewrite IH, reading_app, reading_push by done. by rewrite <- reading_app, <- app_assoc.
Qed.

Lemma reading_nonempty g s : verbatim g -> reading g (nonempty_segments s) = reading g s.
Proof. intros Hg. destruct s; [|done]. cbn. by rewrite Hg. Qed.

Lemma reading_pieces g s l : verbatim g -> Pieces s l -> reading g (interp_parse s) = reading g l.
Proof. intros Hg Hl. rewrite (parse_pieces s l) by done. by rewrite reading_nonempty, reading_collected. Qed.

Definition source_of (seg : Segment) : result string ResolveError := Ok (segment_source seg).

Lemma as_source_reading s : reading source_of s = Ok (as_source s).
Proof. unfold as_source. induction s as [|seg s IH]; [done|]. cbn [reading source_of result_bind fmap list_fmap str_concat]. by rewrite IH. Qed.

Definition resolve_segment (c : ResolveCtx) (seg : Segment) : result string ResolveError :=
  match seg with Literal text => Ok text | Token ns name => resolve_token c ns name end.

Lemma resolve_with_reading c s : resolve_with c s = reading (resolve_segment c) s.
Proof. induction s as [|[text|ns name] s IH]; [done|..]; cbn; rewrite IH; [done|]. by destruct (resolve_token c ns name). Qed.

(** ** A printed token is read back *)

Definition token_body (ns : Namespace) (name : string) : string :=
  Namespace_to_string ns +:+ (if is_bare ns then "" else "." +:+ name).

Definition body_char (c : ascii) : bool := (word_char c || Ascii.eqb c "-" || Ascii.eqb c ".")%bool.

Lemma segment_source_token ns name : segment_source (Token ns name) = "{{" +:+ (" " +:+ token_body ns name +:+ " ") +:+ "}}".
Proof. unfold segment_source, token_body. by rewrite !append_assoc. Qed.

Lemma token_named token ns name : parse_token token = Some (ns, name) -> is_valid_name ns name = true.
Proof.
  unfold parse_token. destruct (String.eqb _ _); [by intros [= <- <-]|].
  destruct (split_once "." _) as [[prefix rest]|]; [|done]. cbn [mbind option_bind].
  destruct (opt_filter _ _) as [ns'|]; [|done]. cbn [mbind option_bind]. destruct (is_valid_name ns' rest) eqn:Hv; [|done]. by intros [= <- <-].
Qed.

Lemma valid_name_chars ns name : is_valid_name ns name = true -> str_forall body_char name = true.
Proof.
  assert (forall c, word_char c = true -> body_char c = true) as Hw by (intros c Hc; unfold body_char; by rewrite Hc).
  destruct ns; cbn [is_valid_name].
  - intros [_ Hn]%andb_prop. by eapply str_forall_impl.
  - unfold is_env_style_name. destruct name as [|c rest]; [done|]. intros [Hc Hn]%andb_prop. cbn [str_forall].
    rewrite Hw by (unfold word_char, is_ascii_alphanumeric; destruct (is_ascii_alphabetic c), (is_ascii_digit c); done). by eapply str_forall_impl.
  - unfold is_env_style_name. destruct name as [|c rest]; [done|]. intros [Hc Hn]%andb_prop. cbn [str_forall].
    rewrite Hw by (unfold word_char, is_ascii_alphanumeric; destruct (is_ascii_alphabetic c), (is_ascii_digit c); done). by eapply str_forall_impl.
  - destruct name as [|c rest]; [done|]. intros [Hc Hn]%andb_prop. cbn [str_forall]. rewrite Hw by done.
    eapply str_forall_impl; [|done]. intros x Hx. unfold body_char. by rewrite Hx.
  - by intros ->%String.eqb_eq.
Qed.

Lemma token_body_chars ns name : str_forall body_char name = true -> str_forall body_char (token_body ns name) = true.
Proof.
  intros Hn. unfold token_body. rewrite str_forall_append. destruct ns; cbn [is_bare]; rewrite ?append_cons, ?append_nil_l; cbn [str_forall];
    rewrite ?Hn; by vm_compute.
Qed.

Lemma body_char_solid c : body_char c = true -> negb (is_whitespace c) = true /\ negb (Ascii.eqb "}" c) = true /\ negb (Ascii.eqb "{" c) = true.
Proof. by destruct c as [[] [] [] [] [] [] [] []]. Qed.

Lemma spaced_closes body : str_forall body_char body = true -> closes (" " +:+ body +:+ " ").
Proof.
  intros Hb. apply (absent_pair "}"). rewrite !str_forall_append.
  rewrite (str_forall_impl _ _ _ (fun c Hc => proj1 (proj2 (body_char_solid c Hc))) Hb). done.
Qed.

Lemma trim_spaced body : str_forall body_char body = true -> body <> "" -> trim (" " +:+ body +:+ " ") = body.
Proof.
  intros Hb Hne. pose proof (trim_nonspace body (str_forall_impl _ _ _ (fun c Hc => proj1 (body_char_solid c Hc)) Hb)) as Ht.
  unfold trim in *. rewrite append_cons, append_nil_l. cbn [trim_start]. change (is_whitespace " ") with true. cbv iota.
  destruct body as [|c body]; [done|]. rewrite append_cons. cbn [trim_start] in *.
  cbn [str_forall] in Hb. apply andb_prop in Hb as [Hc _]. apply body_char_solid in Hc as [Hc%negb_true_iff _]. rewrite Hc in *.
  rewrite <- append_cons. set (w := String c body) in *. clearbody w. clear -Ht.
  induction w as [|x w IH]; [done|]. rewrite append_cons. cbn [trim_end] in *.
  destruct (trim_end w) as [|y t] eqn:Hw.
  - destruct (is_whitespace x) eqn:Hx; [done|]. by injection Ht as <-.
  - injection Ht as <-. by rewrite IH.
Qed.

Lemma split_dot a b : str_forall (fun c => negb (Ascii.eqb "." c)) a = true -> split_once "." (a +:+ String "." b) = Some (a, b).
Proof.
  induction a as [|x a IH]; [by intros _; rewrite append_nil_l|]. cbn [str_forall]. intros [Hx%negb_true_iff Ha]%andb_prop.
  rewrite append_cons. cbn [split_once strip_prefix]. by rewrite Hx, IH.
Qed.

Lemma namespace_read ns : is_bare ns = false -> opt_filter (fun ns => negb (is_bare ns)) (Namespace_from_str (Namespace_to_string ns)) = Some ns.
Proof. by destruct ns. Qed.

Lemma printed_token_parsed ns name : is_valid_name ns name = true -> parse_token (" " +:+ token_body ns name +:+ " ") = Some (ns, name).
Proof.
  intros Hv. unfold parse_token.
  rewrite trim_spaced; [|by eapply token_body_chars, valid_name_chars|by destruct ns].
  unfold token_body. destruct (is_bare ns) eqn:Hb; [destruct ns; try done; by cbn in Hv; apply String.eqb_eq in Hv as ->|].
  rewrite (append_cons "."), append_nil_l, split_dot by by destruct ns.
  destruct (String.eqb_spec (Namespace_to_string ns +:+ String "." name) GOAL_TOKEN) as [He|_]; [by destruct ns|].
  cbn [mbind option_bind]. rewrite namespace_read by done. cbn [mbind option_bind]. by rewrite Hv.
Qed.

Lemma token_piece ns name rest l before :
  clean before -> is_valid_name ns name = true -> Pieces rest l ->
  Pieces (before +:+ segment_source (Token ns name) +:+ rest) (Literal before :: Token ns name :: l).
Proof.
  intros Hb Hv Hl. rewrite segment_source_token, (append_assoc "{{"), (append_assoc _ "}}").
  apply PiecesToken; [done| |by apply printed_token_parsed|done].
  by eapply spaced_closes, token_body_chars, valid_name_chars.
Qed.

(** The text of the pieces is cut into the same pieces. *)
Lemma pieces_source s l : Pieces s l -> Pieces (as_source l) l.
Proof.
  induction 1 as [rest Hr|before after Hb Ha|before token ns name rest l Hb Ht Hp _ IH|before token rest l Hb Ht Hp _ IH];
    unfold as_source in *; cbn [fmap list_fmap str_concat].
  - cbn [segment_source]. rewrite append_nil_r. by apply PiecesEnd.
  - cbn [segment_source]. rewrite append_nil_r. by apply PiecesOpen.
  - apply token_piece; [done|by eapply token_named|done].
  - cbn [segment_source]. rewrite !append_assoc. by apply PiecesOther.
Qed.

(** A parsed setting survives its source text: writing it out (as the settings of a run
    are between the server that creates the run and the worker that executes it) and parsing
    the text again gives the same segments, whatever the setting holds: other templates,
    unterminated or repeated braces, tokens in any spacing. *)
Theorem interp_source_roundtrip s : interp_parse (as_source (interp_parse s)) = interp_parse s.
Proof.
  destruct (pieces_exist s) as (b & l & Hl).
  assert (as_source (interp_parse s) = as_source (Literal b :: l)) as ->.
  { assert (verbatim source_of) as Hv by done. pose proof (reading_pieces source_of s _ Hv Hl) as Hr. rewrite !as_source_reading in Hr. by injection Hr. }
  rewrite (parse_pieces _ _ (pieces_source _ _ Hl)). by rewrite (parse_pieces _ _ Hl).
Qed.

(** ** Resolution in two places *)

(** The lookups of [c1], and those of [c2] where [c1] has none. *)
Definition ctx_then (c1 c2 : ResolveCtx) : ResolveCtx :=
  mkResolveCtx (rc_vars c1 ∪ rc_vars c2) (rc_secrets c1 ∪ rc_secrets c2) (rc_inputs c1 ∪ rc_inputs c2) (rc_goal c1 ∪ rc_goal c2).

Definition brace_free_values (c : ResolveCtx) : Prop :=
  forall ns lookup name v, lookup_for c ns = Some lookup -> lookup name = Some v -> brace_free v.

Lemma lookup_then c1 c2 ns : lookup_for (ctx_then c1 c2) ns = lookup_for c1 ns ∪ lookup_for c2 ns.
Proof. by destruct ns. Qed.

(** What [substitute_with] makes of one segment. *)
Definition substitute_segment (c : ResolveCtx) (seg : Segment) : result Segment ResolveError :=
  match seg with
  | Literal text => Ok (Literal text)
  | Token ns name =>
      match lookup_for c ns with
      | Some lookup => match lookup name with Some v => Ok (Literal v) | None => Err (mkResolveError ns name Missing) end
      | None => Ok (Token ns name)
      end
  end.

Fixpoint substitute_list (c : ResolveCtx) (s : list Segment) : result (list Segment) ResolveError :=
  match s with
  | [] => Ok []
  | seg :: s => result_bind (substitute_segment c seg) (fun seg => result_bind (substitute_list c s) (fun s => Ok (seg :: s)))
  end.

Lemma substitute_go_list c s acc :
  substitute_go c acc s = result_bind (substitute_list c s) (fun l => Ok (fold_left push_segment l acc)).
Proof.
  revert acc. induction s as [|[text|ns name] s IH]; intros acc; [done|..]; cbn [substitute_go substitute_list substitute_segment].
  - rewrite IH. cbn. by destruct (substitute_list c s).
  - destruct (lookup_for c ns) as [lookup|]; [destruct (lookup name) as [v|]; [|done]|]; rewrite IH; cbn; by destruct (substitute_list c s).
Qed.

(** The source text of the substituted setting, as a reading. *)
Definition substituted_source (c : ResolveCtx) (seg : Segment) : result string ResolveError :=
  result_bind (substitute_segment c seg) source_of.

Lemma substituted_source_list c s :
  reading (substituted_source c) s = result_bind (substitute_list c s) (fun l => Ok (as_source l)).
Proof.
  induction s as [|seg s IH]; [done|]. cbn [reading substitute_list]. unfold substituted_source at 1. rewrite IH.
  destruct (substitute_segment c seg); cbn [result_bind source_of]; [|done]. by destruct (substitute_list c s).
Qed.

Lemma brace_free_clean v : brace_free v -> clean v.
Proof. apply (absent_pair "{"). Qed.

Lemma substituted_pieces c s l l' :
  brace_free_values c -> Pieces s l -> substitute_list c l = Ok l' ->
  exists b rest, Pieces (as_source l') (Literal b :: rest) /\ forall g, verbatim g -> reading g (Literal b :: rest) = reading g l'.
Proof.
  intros Hc Hl. revert l'.
  induction Hl as [rest Hr|before after Hb Ha|before token ns name rest l Hb Ht Hp Hl IH|before token rest l Hb Ht Hp Hl IH]; intros l'; cbn [substitute_list].
  - intros [= <-]. exists rest, []. split; [|done]. by apply (pieces_source rest), PiecesEnd.
  - intros [= <-]. eexists _, _. split; [|done]. by eapply pieces_source, PiecesOpen.
  - cbn [substitute_segment result_bind]. destruct (substitute_list c l) as [l0|] eqn:H0; [|by destruct (lookup_for c ns) as [f|]; [destruct (f name)|]].
    destruct (IH l0 eq_refl) as (b & rest' & Hp' & Hr).
    destruct (lookup_for c ns) as [f|] eqn:Hn; [destruct (f name) as [v|] eqn:Hf; [|done]|]; intros [= <-].
    + exists ((before +:+ v) +:+ b), rest'. split.
      * unfold as_source. cbn [fmap list_fmap str_concat segment_source]. rewrite <- append_assoc.
        apply pieces_prefix; [|done]. apply clean_app; [done|]. eapply brace_free_clean, Hc; eauto.
      * intros g Hg. specialize (Hr g Hg). cbn [reading] in *. rewrite !Hg in *. cbn [result_bind] in *. rewrite <- Hr.
        destruct (reading g rest'); [|done]. cbn [result_bind]. by rewrite !append_assoc.
    + exists before, (Token ns name :: Literal b :: rest'). split; [|intros g Hg; specialize (Hr g Hg); cbn [reading] in *; by rewrite Hr].
      unfold as_source. cbn [fmap list_fmap str_concat]. apply token_piece; [done|by eapply token_named|done].
  - cbn [substitute_segment result_bind]. destruct (substitute_list c l) as [l0|] eqn:H0; [|done].
    destruct (IH l0 eq_refl) as (b & rest' & Hp' & Hr). intros [= <-].
    eexists before, (_ :: Literal b :: rest'). split; [|intros g Hg; specialize (Hr g Hg); cbn [reading] in *; by rewrite Hr].
    unfold as_source. cbn [fmap list_fmap str_concat segment_source]. rewrite !append_assoc. by apply PiecesOther.
Qed.

(** Resolving a substituted list is resolving the list with both contexts; where the
    substitution fails for want of a value, so does that resolution. *)
Lemma resolve_substituted c1 c2 l :
  match substitute_list c1 l with
  | Ok l' => reading (resolve_segment c2) l' = reading (resolve_segment (ctx_then c1 c2)) l
  | Err e => re_kind e = Missing /\ is_ok (reading (resolve_segment (ctx_then c1 c2)) l) = false
  end.
Proof.
  induction l as [|seg l IH]; [done|]. cbn [substitute_list reading].
  assert (match substitute_segment c1 seg with
          | Ok seg' => resolve_segment c2 seg' = resolve_segment (ctx_then c1 c2) seg
          | Err e => re_kind e = Missing /\ is_ok (resolve_segment (ctx_then c1 c2) seg) = false end) as Hseg.
  { destruct seg as [text|ns name]; [done|]. cbn [substitute_segment resolve_segment]. unfold resolve_token.
    rewrite lookup_then. destruct (lookup_for c1 ns) as [f|]; cbn [union option_union union_with option_union_with].
    - destruct (lookup_for c2 ns); cbn; by destruct (f name).
    - unfold resolve_segment, resolve_token. by destruct (lookup_for c2 ns). }
  destruct (substitute_segment c1 seg) as [seg'|e]; cbn [result_bind].
  - rewrite <- Hseg. destruct (substitute_list c1 l) as [l'|e]; cbn [result_bind reading].
    + by rewrite IH.
    + destruct IH as [Hk Hl]. split; [done|]. destruct (resolve_segment c2 seg'); cbn [result_bind]; [|done]. by destruct (reading _ l).
  - destruct Hseg as [Hk Hseg]. split; [done|]. by destruct (resolve_segment (ctx_then c1 c2) seg).
Qed.

Lemma substitute_with_list c s s' :
  substitute_with c s = Ok s' -> exists l, substitute_list c s = Ok l /\ s' = nonempty_segments (fold_left push_segment l []).
Proof.
  unfold substitute_with. rewrite substitute_go_list. destruct (substitute_list c s) as [l|]; [|done]. intros [= <-]. by exists l.
Qed.

(** Resolution in two places is resolution in one.  Variables are substituted where a run
    is created; the setting then travels as its source text, is parsed again and its other
    namespaces are resolved where it is used.  The outcome is that of resolving the original
    setting with all the lookups at once, error included, as long as no substituted value has
    an opening brace; and a substitution that fails reports a missing value, in which case
    the resolution fails as well. *)
Theorem staged_resolution c1 c2 s :
  brace_free_values c1 ->
  match substitute_with c1 (interp_parse s) with
  | Ok s' => resolve_with c2 (interp_parse (as_source s')) = resolve_with (ctx_then c1 c2) (interp_parse s)
  | Err e => re_kind e = Missing /\ is_ok (resolve_with (ctx_then c1 c2) (interp_parse s)) = false
  end.
Proof.
  intros Hc. destruct (pieces_exist s) as (b & l & Hl).
  assert (forall c, verbatim (resolve_segment c)) as Hres by done. assert (verbatim source_of) as Hsrc by done.
  assert (reading (substituted_source c1) (interp_parse s) = reading (substituted_source c1) (Literal b :: l)) as Hg by by apply reading_pieces.
  rewrite !substituted_source_list in Hg. rewrite !resolve_with_reading.
  destruct (substitute_with c1 (interp_parse s)) as [s'|e] eqn:Hs.
  - apply substitute_with_list in Hs as (ls & Hls & ->). rewrite Hls in Hg. cbn [result_bind] in Hg.
    destruct (substitute_list c1 (Literal b :: l)) as [l'|] eqn:Hl'; [|done]. injection Hg as Hg.
    destruct (substituted_pieces c1 s _ l' Hc Hl Hl') as (b' & rest & Hp & Hr).
    assert (as_source (nonempty_segments (fold_left push_segment ls [])) = as_source l') as ->.
    { rewrite <- Hg. assert (Ok (E := ResolveError) (as_source (nonempty_segments (fold_left push_segment ls []))) = Ok (as_source ls)) as Hok; [|by injection Hok].
      by rewrite <- !as_source_reading, reading_nonempty, reading_collected. }
    rewrite resolve_with_reading, (reading_pieces _ _ _ (Hres c2) Hp), (Hr _ (Hres c2)), (reading_pieces _ _ _ (Hres _) Hl).
    pose proof (resolve_substituted c1 c2 (Literal b :: l)) as H. by rewrite Hl' in H.
  - unfold substitute_with in Hs. rewrite substitute_go_list in Hs.
    pose proof (resolve_substituted c1 c2 (interp_parse s)) as H. destruct (substitute_list c1 (interp_parse s)); [done|]. by injection Hs as ->.
Qed.

Lemma staged_resolution_witness :
  let c1 := with_vars (fun name => if String.eqb name "HOST" then Some "db" else None) ResolveCtx_new in
  let c2 := with_secrets (fun name => if String.eqb name "PW" then Some "{x}" else None) ResolveCtx_new in
  let s := "pg://{{vars.HOST}}:{{ secrets.PW }}@{{ jq }}{{" in
  result_bind (substitute_with c1 (interp_parse s)) (fun s' => Ok (as_source s')) = Ok "pg://db:{{ secrets.PW }}@{{ jq }}{{"
  /\ resolve_with c2 (interp_parse "pg://db:{{ secrets.PW }}@{{ jq }}{{") = Ok "pg://db:{x}@{{ jq }}{{".
Proof.
  intros c1 c2 s. split; [vm_compute; reflexivity|].
  assert (brace_free_values c1) as Hc.
  { intros ns lookup name v. destruct ns; cbn; try discriminate. intros H. injection H as <-. destruct (String.eqb name "HOST"); [|discriminate].
    intros H. injection H as <-. reflexivity. }
  pose proof (staged_resolution c1 c2 s Hc) as H. vm_compute in H |- *. exact H.
Defined.

(** A variable's value that looks like a token is one once the setting has travelled as
    text, although the same setting resolved in one place keeps the value verbatim: the
    credential of another name is read.  A value that ends in a brace hides the token
    after it. *)
Theorem substituted_value_is_rescanned :
  let vars v := with_vars (fun _ => Some v) ResolveCtx_new in
  let secrets := with_secrets (fun _ => Some "s3cret") ResolveCtx_new in
  let run v s := result_bind (substitute_variables_in_str s (fun _ => Some v)) (fun src => resolve_with secrets (interp_parse src)) in
  run "{{ secrets.API_KEY }}" "echo {{ vars.PAYLOAD }}" = Ok "echo s3cret"
  /\ resolve_with (ctx_then (vars "{{ secrets.API_KEY }}") secrets) (interp_parse "echo {{ vars.PAYLOAD }}") = Ok "echo {{ secrets.API_KEY }}"
  /\ run "{" "{{ vars.OPEN }}{{ secrets.API_KEY }}" = Ok "{{{ secrets.API_KEY }}"
  /\ resolve_with (ctx_then (vars "{") secrets) (interp_parse "{{ vars.OPEN }}{{ secrets.API_KEY }}") = Ok "{s3cret".
Proof. by vm_compute. Qed.
