(* ===== verification/Artifact.v ===== *)
(** * Large values (fabro-workflow/src/artifact.rs)

    A context value whose JSON is over 100 KB is moved to the blob store and replaced by a
    reference ([offload_large_values]).  Before a handler runs, references are replaced by
    their text or by a file the agent can open ([resolve_execution_value]); what the handler
    leaves is brought back to its durable form ([normalize_durable_value]).  Values that go
    into a prompt are cut to a preview and the path of a file ([demote_value_for_prompt]).

    An argument that the source takes as [&mut] is returned with the result, also when the
    operation fails half-way.  The sandbox, the local file system and [serde_json] are
    parameters. *)

From S2P Require Import Prelude RustStr RustNum GraphTypes Context Outcome DecText EventKeys Blobs.
Local Open Scope string_scope.
Local Open Scope list_scope.
Local Open Scope Z_scope.

(** ** Context keys *)

Definition CURRENT_PREAMBLE : string := "current.preamble".
Definition COMMAND_OUTPUT : string := "command.output".
Definition PARALLEL_RESULTS : string := "parallel.results".
Definition INTERNAL_PARALLEL_BRANCH_PREAMBLES : string := "internal.parallel_branch_preambles".
Definition INTERNAL_STAGE_EXECUTION_ORDINAL : string := "internal.stage_execution_ordinal".
Definition TRANSIENT_CONTEXT_KEYS : list string :=
  [CURRENT_PREAMBLE; INTERNAL_PARALLEL_BRANCH_PREAMBLES; INTERNAL_STAGE_EXECUTION_ORDINAL].

(** ** What the operations run on *)

(** [serde_json::to_vec] and [from_slice].  Values without floating-point numbers and with
    distinct object keys are read back as they were written. *)
Fixpoint json_exact (v : Value) : bool :=
  match v with
  | JNum (FloatNum _) => false
  | JArray l => forallb json_exact l
  | JObject l => (bool_decide (NoDup (fst <$> l)) && forallb (fun kv => json_exact kv.2) l)%bool
  | _ => true
  end.

Class JsonCodec := {
  json_to_vec : Value -> result string string;
  json_from_slice : string -> result Value string;
  json_string_from_slice : string -> result string string;
  json_roundtrip : forall v, json_exact v = true -> exists b, json_to_vec v = Ok b /\ json_from_slice b = Ok v;
  (* a JSON string is read by the one as by the other *)
  json_string_value : forall b s, json_string_from_slice b = Ok s <-> json_from_slice b = Ok (JString s)
}.

(** The sandbox of the run and the file system of the machine the engine runs on. *)
Class ArtifactHost (W : Type) := {
  #[global] host_blobs :: BlobTable W;
  env_runtime_directory : option string;
  env_working_directory : string;
  env_file_exists : string -> W -> result bool string * W;
  env_write_file : string -> string -> W -> result unit string * W;
  fs_exists : string -> W -> bool;
  fs_create_dir_all : string -> W -> result unit string * W;
  fs_open_truncate : string -> W -> result unit string * W;
  fs_write_all : string -> string -> W -> result unit string * W;
  fs_read_to_string : string -> W -> result string string * W
}.

(** [Error] of fabro-workflow, as far as this module makes any. *)
Inductive ArtifactError :=
| EngineError (message : string) (source : option string)
| IoError (message : string).

Definition engine (message : string) : ArtifactError := EngineError message None.
Definition engine_with_source (message source : string) : ArtifactError := EngineError message (Some source).

Definition artifact_error_to_string (e : ArtifactError) : string :=
  match e with
  | EngineError message _ => "Engine error: " +:+ message
  | IoError message => "I/O error: " +:+ message
  end.

(** *** Computations that fail, and mutations *)

Definition io_bind {S A B} (m : S -> result A ArtifactError * S) (k : A -> S -> result B ArtifactError * S) (s : S)
    : result B ArtifactError * S :=
  match m s with (Ok a, s) => k a s | (Err e, s) => (Err e, s) end.
Definition io_ok {S A} (a : A) (s : S) : result A ArtifactError * S := (Ok a, s).
Definition io_err {S A} (e : ArtifactError) (s : S) : result A ArtifactError * S := (Err e, s).

(** [map_err] on an operation of the host. *)
Definition io_map_err {S A} (f : string -> ArtifactError) (m : S -> result A string * S) (s : S) : result A ArtifactError * S :=
  match m s with (Ok a, s) => (Ok a, s) | (Err e, s) => (Err (f e), s) end.

Local Notation "'let!' x := m 'in' k" := (io_bind m (fun x => k)) (at level 200, x name, m at level 100, k at level 200).

(** An operation on a [&mut A]. *)
Definition Mut (S A : Type) : Type := A -> S -> result unit ArtifactError * A * S.

(** [*value = m.await?]. *)
Definition mut_assign {S A} (m : A -> S -> result A ArtifactError * S) : Mut S A := fun a s =>
  match m a s with (Ok a', s) => (Ok tt, a', s) | (Err e, s) => (Err e, a, s) end.

Definition mut_seq {S A B C} (join : A -> B -> C) (x : result unit ArtifactError * A * S)
    (b : B) (k : S -> result unit ArtifactError * B * S) : result unit ArtifactError * C * S :=
  match x with
  | (Ok _, a, s) => let '(r, b, s) := k s in (r, join a b, s)
  | (Err e, a, s) => (Err e, join a b, s)
  end.

(** [for item in items.iter_mut()], and the values of a JSON object. *)
Section loops.
Context {S A : Type} (f : Mut S A).
Fixpoint mut_list (l : list A) (s : S) : result unit ArtifactError * list A * S :=
  match l with
  | [] => (Ok tt, [], s)
  | a :: l => mut_seq cons (f a s) l (mut_list l)
  end.
End loops.

Section field_loops.
Context {S A : Type} (f : string -> Mut S A).
Fixpoint mut_fields (l : list (string * A)) (s : S) : result unit ArtifactError * list (string * A) * S :=
  match l with
  | [] => (Ok tt, [], s)
  | (k, a) :: l => mut_seq (fun a l => (k, a) :: l) (f k a s) l (mut_fields l)
  end.
End field_loops.

(** [for (key, value) in map]: the entries in the order the table is walked. *)
Definition mut_map `{HashOrder} {S A} (f : string -> Mut S A) (m : gmap string A) (s : S)
    : result unit ArtifactError * gmap string A * S :=
  let '(r, l, s) := mut_fields f (hash_iter m) s in (r, list_to_map l, s).

(** [Value::get_mut]: the field of an object, in place. *)
Section field.
Context {S : Type} (key : string) (f : Mut S Value).
Fixpoint mut_field (l : list (string * Value)) (s : S) : result unit ArtifactError * list (string * Value) * S :=
  match l with
  | [] => (Ok tt, [], s)
  | (k, v) :: l =>
      if String.eqb key k then let '(r, v, s) := f v s in (r, (k, v) :: l, s)
      else let '(r, l, s) := mut_field l s in (r, (k, v) :: l, s)
  end.
End field.

(** ** Sizes *)

Definition BLOB_OFFLOAD_THRESHOLD : Z := 100 * 1024.
Definition PROMPT_INLINE_VALUE_MAX : Z := 8 * 1024.
Definition PROMPT_INLINE_ITEM_MAX : Z := 64 * 1024.
Definition LARGE_VALUE_PREVIEW_CHARS : nat := 300.
Definition LARGE_VALUE_MARKER_KEY : string := "fabroLargeValue".
Definition LARGE_VALUE_HINT : string := "too large to inline; read this file for the full value".
Definition ARTIFACT_POINTER_PREFIX : string := "file://".

Definition str_len (s : string) : Z := Z.of_nat (String.length s).

Definition serialized_if_over `{JsonCodec} (value : Value) (threshold : Z) : result (option string) ArtifactError :=
  let serialize :=
    match json_to_vec value with
    | Err e => Err (engine_with_source "artifact serialize failed" e)
    | Ok bytes => Ok (if threshold <? str_len bytes then Some bytes else None)
    end in
  match value with
  | JNull | JBool _ | JNum _ => Ok None
  | JString text => if Z.min (str_len text * 6) usize_max + 2 <=? threshold then Ok None else serialize
  | _ => serialize
  end.

(** ** Markers *)

Record PromptLargeValue := mkLarge { large_bytes : Z; large_path : string; large_preview : string }.

Definition large_value_marker (path : string) (bytes : Z) (preview : string) : Value :=
  JObject [(LARGE_VALUE_MARKER_KEY,
            JObject [("bytes", JNum (PosInt bytes)); ("path", JString path);
                     ("hint", JString LARGE_VALUE_HINT); ("preview", JString preview)])].

Definition value_get (key : string) (v : Value) : option Value :=
  match v with JObject l => assoc key l | _ => None end.

Definition prompt_large_value (value : Value) : option PromptLargeValue :=
  marker ← value_get LARGE_VALUE_MARKER_KEY value;
  _ ← match marker with JObject l => Some l | _ => None end;
  hint ← value_get "hint" marker ≫= value_as_str;
  if negb (String.eqb hint LARGE_VALUE_HINT) then None
  else
    bytes ← value_get "bytes" marker ≫= value_as_u64;
    path ← value_get "path" marker ≫= value_as_str;
    preview ← value_get "preview" marker ≫= value_as_str;
    Some (mkLarge bytes path preview).

(** Rust's [{:.1}] of an [f64]. *)
Class FixedDisplay := f64_fixed1 : f64 -> string.

Definition format_prompt_bytes `{FixedDisplay} (bytes : Z) : string :=
  let KB := 1024 in let MB := 1024 * KB in let GB := 1024 * MB in
  let scaled unit := f64_fixed1 (f64_div (f64_of_Z bytes) (f64_of_Z unit)) in
  if GB <=? bytes then scaled GB +:+ " GB"
  else if MB <=? bytes then scaled MB +:+ " MB"
  else if KB <=? bytes then scaled KB +:+ " KB"
  else Z_to_string bytes +:+ " B".

Definition location_summary `{FixedDisplay} (l : PromptLargeValue) : string :=
  format_prompt_bytes (large_bytes l) +:+ "; full value: `" +:+ large_path l +:+ "`".

Definition artifact_path (value : Value) : option string :=
  s ← value_as_str value; strip_prefix ARTIFACT_POINTER_PREFIX s.
Definition is_artifact_pointer (value : Value) : bool := is_some (artifact_path value).
Definition format_artifact_reference (path : string) : string := "See: " +:+ path.

(** *** UTF-8 (core::str) *)

Definition head_in (lo hi : N) (s : string) : bool := match s with String c _ => in_range lo hi c | "" => false end.
Definition str_tail (s : string) : string := match s with String _ s => s | "" => "" end.

(** The bytes of the next character, or of the longest start of one that goes wrong. *)
Definition utf8_next (s : string) : bool * nat :=
  let r := str_tail s in
  let cont s := head_in 128 191 s in
  let three lo hi := if negb (head_in lo hi r) then (false, 1%nat)
                     else if cont (str_tail r) then (true, 3%nat) else (false, 2%nat) in
  let four lo hi := if negb (head_in lo hi r) then (false, 1%nat)
                    else if negb (cont (str_tail r)) then (false, 2%nat)
                    else if cont (str_tail (str_tail r)) then (true, 4%nat) else (false, 3%nat) in
  if head_in 0 127 s then (true, 1%nat)
  else if head_in 194 223 s then if cont r then (true, 2%nat) else (false, 1%nat)
  else if head_in 224 224 s then three 160%N 191%N
  else if head_in 237 237 s then three 128%N 159%N
  else if head_in 225 239 s then three 128%N 191%N
  else if head_in 240 240 s then four 144%N 191%N
  else if head_in 241 243 s then four 128%N 191%N
  else if head_in 244 244 s then four 128%N 143%N
  else (false, 1%nat).

Fixpoint str_take (n : nat) (s : string) : string :=
  match n, s with S n, String c s => String c (str_take n s) | _, _ => "" end.
Fixpoint str_drop (n : nat) (s : string) : string :=
  match n, s with S n, String _ s => str_drop n s | _, _ => s end.

(** Every step takes a byte at least, so the length is enough fuel. *)
Fixpoint utf8_valid_go (fuel : nat) (s : string) : bool :=
  match fuel, s with
  | _, "" => true
  | O, _ => false
  | S fuel, _ => let '(ok, n) := utf8_next s in (ok && utf8_valid_go fuel (str_drop n s))%bool
  end.
Definition from_utf8 (s : string) : bool := utf8_valid_go (String.length s) s.

Definition replacement_character : string := String "239" (String "191" (String "189" "")).

Fixpoint from_utf8_lossy_go (fuel : nat) (s : string) : string :=
  match fuel, s with
  | _, "" => ""
  | O, _ => ""
  | S fuel, _ =>
      let '(ok, n) := utf8_next s in
      (if ok then str_take n s else replacement_character) +:+ from_utf8_lossy_go fuel (str_drop n s)
  end.
Definition from_utf8_lossy (s : string) : string := from_utf8_lossy_go (String.length s) s.

Definition rendered_head (value : Value) (serialized : string) : string :=
  match value_as_str value with
  | Some text => take_chars LARGE_VALUE_PREVIEW_CHARS text
  | None =>
      let head := str_take (LARGE_VALUE_PREVIEW_CHARS * 4) serialized in
      take_chars LARGE_VALUE_PREVIEW_CHARS (from_utf8_lossy head)
  end.

(** ** Offloading *)

(** A [BTreeMap] is the list of its entries in key order. *)
Record ParallelBranchResult := mkBranchResult {
  br_id : string;
  br_index : option Z;
  br_item_label : option string;
  br_status : StageOutcome;
  br_context_updates : list (string * Value)
}.

Section ops.
Context `{BlobHashes} `{JsonCodec} {W : Type} `{!ArtifactHost W} `{HashOrder}.
Context (read_only : bool) (run_dir : string).
Implicit Types (w : W).

Definition blob_error_to_string (e : BlobError Hash) : string :=
  match e with
  | BlobSqlite e => "SQLite error: " +:+ e
  | BlobHashConflict h => "stored blob " +:+ hash_to_string h +:+ " has bytes that conflict with its hash"
  | BlobIntegrity h => "stored blob data does not match requested hash " +:+ hash_to_string h
  | BlobReadOnly => "run store is read-only"
  end.

Definition write_blob (message : string) (bytes : string) w : result Hash ArtifactError * W :=
  match run_write_blob read_only bytes w with
  | (Ok h, w) => (Ok h, w)
  | (Err e, w) => (Err (engine_with_source message (blob_error_to_string e)), w)
  end.

Definition offload_value : Mut W Value := mut_assign (fun value w =>
  match serialized_if_over value BLOB_OFFLOAD_THRESHOLD with
  | Err e => (Err e, w)
  | Ok None => (Ok value, w)
  | Ok (Some bytes) =>
      (let! blob_hash := write_blob "artifact blob write failed" bytes in
       io_ok (JString (format_blob_ref blob_hash))) w
  end).

(** The values of the [context_updates] of one branch. *)
Definition offload_branch_updates : Mut W Value := fun updates w =>
  match updates with
  | JObject l => let '(r, l, w) := mut_fields (fun _ => offload_value) l w in (r, JObject l, w)
  | v => (Ok tt, v, w)
  end.

Definition offload_branch_result : Mut W Value := fun result w =>
  match result with
  | JObject l => let '(r, l, w) := mut_field "context_updates" offload_branch_updates l w in (r, JObject l, w)
  | v => (Ok tt, v, w)
  end.

Definition offload_parallel_result_updates : Mut W Value := fun value w =>
  match value with
  | JArray results => let '(r, results, w) := mut_list offload_branch_result results w in (r, JArray results, w)
  | v => (Ok tt, v, w)
  end.

Definition offload_entry (key : string) : Mut W Value :=
  if String.eqb key PARALLEL_RESULTS then offload_parallel_result_updates else offload_value.

Definition offload_large_values (updates : gmap string Value) w : result unit ArtifactError * gmap string Value * W :=
  mut_map offload_entry updates w.

Definition offload_parallel_branch_updates : Mut W (list ParallelBranchResult) :=
  mut_list (fun b w =>
    let '(r, l, w) := mut_fields (fun _ => offload_value) (br_context_updates b) w in
    (r, mkBranchResult (br_id b) (br_index b) (br_item_label b) (br_status b) l, w)).

(** ** Reading references back *)

Definition read_required_blob (blob_hash : Hash) w : result string ArtifactError * W :=
  match run_read_blob blob_hash w with
  | (Ok (Some bytes), w) => (Ok bytes, w)
  | (Ok None, w) => (Err (engine ("artifact blob missing: " +:+ hash_to_string blob_hash)), w)
  | (Err e, w) => (Err (engine_with_source "artifact blob read failed" (blob_error_to_string e)), w)
  end.

Definition resolve_text_or_blob_ref_str (current : string) w : result string ArtifactError * W :=
  match parse_blob_ref current with
  | None => (Ok current, w)
  | Some blob_hash =>
      match run_read_blob blob_hash w with
      | (Err e, w) => (Err (engine_with_source "text blob read failed" (blob_error_to_string e)), w)
      | (Ok None, w) => (Err (engine ("text blob missing: " +:+ hash_to_string blob_hash)), w)
      | (Ok (Some bytes), w) =>
          match json_string_from_slice bytes with
          | Ok s => (Ok s, w)
          | Err e => (Err (engine_with_source "text blob was not a JSON string" e), w)
          end
      end
  end.

Definition value_to_string `{JsonDisplay} (v : Value) : string :=
  match v with
  | JNull => "null"
  | JBool b => if b then "true" else "false"
  | JNum n => number_to_string n
  | v => compound_to_string v
  end.

Definition resolve_text_or_blob_ref `{JsonDisplay} (value : Value) w : result string ArtifactError * W :=
  match value_as_str value with
  | Some current => resolve_text_or_blob_ref_str current w
  | None => (Ok (value_to_string value), w)
  end.

(** The loops of [try_join_all]: the items only read, so their order does not show. *)
Section join_all.
Context {A B : Type} (f : A -> W -> option (result B ArtifactError * W)).
Fixpoint try_join_all (l : list A) w : option (result (list B) ArtifactError * W) :=
  match l with
  | [] => Some (Ok [], w)
  | a :: l =>
      match f a w with
      | None => None
      | Some (Err e, w) => Some (Err e, w)
      | Some (Ok b, w) =>
          match try_join_all l w with
          | Some (Ok bs, w) => Some (Ok (b :: bs), w)
          | r => r
          end
      end
  end.
End join_all.

(** The item of a key, with its key. *)
Definition resolve_json_entry (resolve : Value -> W -> option (result Value ArtifactError * W)) (kv : string * Value) w
    : option (result (string * Value) ArtifactError * W) :=
  match resolve kv.2 w with
  | Some (Ok v, w) => Some (Ok (kv.1, v), w)
  | Some (Err e, w) => Some (Err e, w)
  | None => None
  end.

(** References at any depth; a blob may hold a reference again, so the recursion has fuel,
    and [None] is its end. *)
Fixpoint resolve_json_value (fuel : nat) (value : Value) w : option (result Value ArtifactError * W) :=
  match fuel with
  | O => None
  | S fuel =>
      match value with
      | JString reference =>
          match or_else (parse_blob_ref reference) (parse_managed_blob_file_ref reference) with
          | None => Some (Ok (JString reference), w)
          | Some blob_hash =>
              match read_required_blob blob_hash w with
              | (Err e, w) => Some (Err e, w)
              | (Ok bytes, w) =>
                  match json_from_slice bytes with
                  | Err e => Some (Err (engine_with_source "artifact blob was not valid JSON" e), w)
                  | Ok resolved => resolve_json_value fuel resolved w
                  end
              end
          end
      | JArray items =>
          match try_join_all (resolve_json_value fuel) items w with
          | Some (Ok l, w) => Some (Ok (JArray l), w)
          | Some (Err e, w) => Some (Err e, w)
          | None => None
          end
      | JObject items =>
          match try_join_all (resolve_json_entry (resolve_json_value fuel)) items w with
          | Some (Ok l, w) => Some (Ok (JObject l), w)
          | Some (Err e, w) => Some (Err e, w)
          | None => None
          end
      | primitive => Some (Ok primitive, w)
      end
  end.

Definition resolve_flat_context_value (fuel : nat) (c : Context) (key : string) w
    : option (result (option Value) ArtifactError * W) :=
  match lookup_flat c key with
  | None => Some (Ok None, w)
  | Some value =>
      match resolve_json_value fuel value w with
      | Some (Ok v, w) => Some (Ok (Some v), w)
      | Some (Err e, w) => Some (Err e, w)
      | None => None
      end
  end.

(** ** Durable form *)

Fixpoint normalize_durable_value (value : Value) : Value :=
  match value with
  | JString current =>
      match parse_managed_blob_file_ref current with
      | Some blob_hash => JString (format_blob_ref blob_hash)
      | None => JString current
      end
  | JArray items => JArray (normalize_durable_value <$> items)
  | JObject l => JObject ((fun kv => (kv.1, normalize_durable_value kv.2)) <$> l)
  | v => v
  end.

Definition normalize_durable_updates (updates : gmap string Value) : gmap string Value := normalize_durable_value <$> updates.

Definition strip_transient_keys (values : gmap string Value) : gmap string Value :=
  foldl (fun m key => delete key m) values TRANSIENT_CONTEXT_KEYS.

Definition durable_context_snapshot (c : Context) : gmap string Value :=
  normalize_durable_updates (strip_transient_keys (context_snapshot c)).

Definition with_context_updates {M} (f : gmap string Value -> gmap string Value) (o : Outcome M) : Outcome M :=
  mkOutcome (status o) (preferred_label o) (suggested_next_ids o) (f (context_updates o)) (jump_to_node o)
    (notes o) (failure o) (usage o) (files_touched o) (timing o).

Definition normalize_durable_outcomes {M} (node_outcomes : gmap string (Outcome M)) : gmap string (Outcome M) :=
  with_context_updates normalize_durable_updates <$> node_outcomes.
End ops.

(** ** Files for the agent *)

Section host.
Context `{BlobHashes} `{JsonCodec} {W : Type} `{!ArtifactHost W} `{HashOrder}.
Context (read_only : bool) (run_dir : string).
Implicit Types (w : W).

(** [SandboxLocality], with the world of one pass. *)
Notation Pass := (option bool * W)%type.

Definition on_world {A} (m : W -> result A ArtifactError * W) (s : Pass) : result A ArtifactError * Pass :=
  let '(r, w) := m s.2 in (r, (s.1, w)).

Definition is_local (s : Pass) : result bool ArtifactError * Pass :=
  match s.1 with
  | Some local => (Ok local, s)
  | None =>
      match env_file_exists run_dir s.2 with
      | (Err e, w) => (Err (engine_with_source "failed to inspect sandbox locality" e), (None, w))
      | (Ok local, w) => (Ok local, (Some local, w))
      end
  end.

(** [RunScratch::runtime_dir]. *)
Definition runtime_dir : string := path_join run_dir "runtime".

Definition local_materialized_blob_path (blob_hash : Hash) : string :=
  path_join (path_join runtime_dir "blobs") (hash_to_string blob_hash +:+ ".json").

Definition remote_materialized_blob_path (blob_hash : Hash) : result string ArtifactError :=
  match env_runtime_directory with
  | None => Err (engine "sandbox exposes no runtime directory for blob materialization")
  | Some runtime_directory => Ok (runtime_directory +:+ "/blobs/" +:+ hash_to_string blob_hash +:+ ".json")
  end.

(** The parent of the blob files is the directory of [blobs]. *)
Definition write_local_blob_file (blob_hash : Hash) (bytes : string) : W -> result unit ArtifactError * W :=
  let path := local_materialized_blob_path blob_hash in
  let parent := path_join runtime_dir "blobs" in
  let! _ := io_map_err (fun err => IoError ("creating artifact blob directory " +:+ parent +:+ ": " +:+ err)) (fs_create_dir_all parent) in
  let! _ := io_map_err (fun err => IoError ("writing artifact blob " +:+ path +:+ ": " +:+ err)) (fs_open_truncate path) in
  io_map_err (fun err => IoError ("writing artifact blob " +:+ path +:+ ": " +:+ err)) (fs_write_all path bytes).

Definition write_remote_blob_file (path bytes : string) w : result unit ArtifactError * W :=
  if from_utf8 bytes
  then io_map_err (engine_with_source "failed to write artifact blob to sandbox") (env_write_file path bytes) w
  else (Err (engine_with_source "artifact blob was not valid UTF-8 JSON" "invalid utf-8 sequence"), w).

Definition persist_blob (bytes : string) : W -> result unit ArtifactError * W :=
  let! _ := write_blob read_only "artifact blob write failed" bytes in io_ok tt.

(** [if !exists { fill }], locally and in the sandbox. *)
Definition fill_local (blob_hash : Hash) (fill : W -> result unit ArtifactError * W) : W -> result string ArtifactError * W :=
  let path := local_materialized_blob_path blob_hash in
  fun w => (let! _ := if fs_exists path w then io_ok tt else fill in io_ok path) w.

Definition fill_remote (blob_hash : Hash) (fill : string -> W -> result unit ArtifactError * W) w : result string ArtifactError * W :=
  match remote_materialized_blob_path blob_hash with
  | Err e => (Err e, w)
  | Ok remote_path =>
      (let! there := io_map_err (engine_with_source "failed to check blob existence") (env_file_exists remote_path) in
       let! _ := if there : bool then io_ok tt else fill remote_path in
       io_ok remote_path) w
  end.

Definition materialize_value_bytes (bytes : string) : Pass -> result string ArtifactError * Pass :=
  let blob_hash := sha256 bytes in
  let! local := is_local in
  if local : bool
  then on_world (fill_local blob_hash (let! _ := persist_blob bytes in write_local_blob_file blob_hash bytes))
  else on_world (fill_remote blob_hash (fun path => let! _ := persist_blob bytes in write_remote_blob_file path bytes)).

Definition materialize_blob_ref (blob_hash : Hash) : Pass -> result string ArtifactError * Pass :=
  let! local := is_local in
  let! path :=
    (if local : bool
     then on_world (fill_local blob_hash (let! bytes := read_required_blob blob_hash in write_local_blob_file blob_hash bytes))
     else on_world (fill_remote blob_hash (fun path => let! bytes := read_required_blob blob_hash in write_remote_blob_file path bytes))) in
  io_ok (ARTIFACT_POINTER_PREFIX +:+ path).

(** [Path::file_name] of a local artifact. *)
Definition artifact_file_name (local_path : string) : string := default "artifact.json" (path_file_name local_path).

Definition resolve_explicit_file_ref (value : string) w : result string ArtifactError * W :=
  match strip_prefix ARTIFACT_POINTER_PREFIX value with
  | None => (Err (engine ("invalid artifact pointer: " +:+ value)), w)
  | Some local_path =>
      (let! there := io_map_err (engine_with_source "failed to check artifact existence") (env_file_exists local_path) in
       if there : bool then io_ok value
       else
         let! content := io_map_err (engine_with_source ("failed to read local artifact " +:+ local_path)) (fs_read_to_string local_path) in
         let remote_path := env_working_directory +:+ "/.fabro/artifacts/" +:+ artifact_file_name local_path in
         let! there := io_map_err (engine_with_source "failed to check artifact existence") (env_file_exists remote_path) in
         let! _ := if there : bool then io_ok tt
                   else io_map_err (engine_with_source "failed to write artifact to remote env") (env_write_file remote_path content) in
         io_ok (ARTIFACT_POINTER_PREFIX +:+ remote_path)) w
  end.

Definition sync_artifact : Mut W Value := mut_assign (fun value =>
  match artifact_path value with
  | None => io_ok value
  | Some local_path =>
      let! there := io_map_err (engine_with_source "failed to check artifact existence") (env_file_exists local_path) in
      if there : bool then io_ok value
      else
        let! content := io_map_err (engine_with_source ("failed to read local artifact " +:+ local_path)) (fs_read_to_string local_path) in
        let remote_path := env_working_directory +:+ "/.fabro/artifacts/" +:+ artifact_file_name local_path in
        let! _ := io_map_err (engine_with_source "failed to write artifact to remote env") (env_write_file remote_path content) in
        io_ok (JString (ARTIFACT_POINTER_PREFIX +:+ remote_path))
  end).

Definition sync_artifacts_to_env (updates : gmap string Value) w : result unit ArtifactError * gmap string Value * W :=
  mut_map (fun _ => sync_artifact) updates w.

(** ** Values for a handler *)

Definition is_text_context_key (key : string) : bool :=
  (String.eqb key COMMAND_OUTPUT || starts_with RESPONSE_PREFIX key)%bool.

Definition resolve_execution_string (key : option string) : Mut Pass string := mut_assign (fun current =>
  if is_some_and is_text_context_key key then on_world (resolve_text_or_blob_ref_str current)
  else match parse_blob_ref current with
       | Some blob_hash => materialize_blob_ref blob_hash
       | None =>
           if (starts_with ARTIFACT_POINTER_PREFIX current && negb (is_some (parse_managed_blob_file_ref current)))%bool
           then on_world (resolve_explicit_file_ref current) else io_ok current
       end).

Definition child_key (key : option string) (child : string) : option string :=
  if is_some_and is_text_context_key key then key else Some child.

Fixpoint resolve_execution_value (key : option string) (value : Value) (s : Pass) : result unit ArtifactError * Value * Pass :=
  match value with
  | JString current => let '(r, current, s) := resolve_execution_string key current s in (r, JString current, s)
  | JArray items => let '(r, items, s) := mut_list (resolve_execution_value key) items s in (r, JArray items, s)
  | JObject l =>
      let '(r, l, s) := mut_fields (fun child => resolve_execution_value (child_key key child)) l s in (r, JObject l, s)
  | v => (Ok tt, v, s)
  end.

Definition resolve_execution_values : Mut Pass (gmap string Value) :=
  mut_map (fun key => resolve_execution_value (Some key)).

Definition resolved_context_snapshot (c : Context) w : result (gmap string Value) ArtifactError * W :=
  match resolve_execution_values (context_snapshot c) (None, w) with
  | (Ok _, values, (_, w)) => (Ok values, w)
  | (Err e, _, (_, w)) => (Err e, w)
  end.

(** The values are set one by one in a new context. *)
Definition resolve_context_for_execution (c : Context) : W -> result Context ArtifactError * W :=
  let! values := resolved_context_snapshot c in io_ok (context_from_values values).

Definition resolve_context_for_edge_selection (c : Context) w : result Context ArtifactError * W :=
  let values := context_snapshot c in
  match values !! COMMAND_OUTPUT with
  | Some (JString current) =>
      (let! text := resolve_text_or_blob_ref_str current in
       io_ok (context_from_values (<[COMMAND_OUTPUT := JString text]> values))) w
  | _ => (Ok (context_from_values values), w)
  end.

Definition resolve_outcome {M} (o : Outcome M) (s : Pass) : result unit ArtifactError * Outcome M * Pass :=
  let '(r, updates, s) := resolve_execution_values (context_updates o) s in
  (r, with_context_updates (fun _ => updates) o, s).

Definition resolve_outcomes_for_execution {M} (node_outcomes : gmap string (Outcome M)) w
    : result (gmap string (Outcome M)) ArtifactError * W :=
  match mut_map (fun _ => resolve_outcome) node_outcomes (None, w) with
  | (Ok _, resolved, (_, w)) => (Ok resolved, w)
  | (Err e, _, (_, w)) => (Err e, w)
  end.

(** ** Values for a prompt *)

Definition demote_value_for_prompt (max_inline_bytes : Z) (value : Value) : Pass -> result (bool * Value) ArtifactError * Pass :=
  match serialized_if_over value max_inline_bytes with
  | Err e => io_err e
  | Ok None => io_ok (false, value)
  | Ok (Some bytes) =>
      let! path := materialize_value_bytes bytes in
      io_ok (true, large_value_marker path (str_len bytes) (rendered_head value bytes))
  end.

(** A value that cannot be demoted stays, with a warning in the log. *)
Definition demote_or_keep (max_inline_bytes : Z) : Mut Pass Value := fun value s =>
  match demote_value_for_prompt max_inline_bytes value s with
  | (Ok (_, value'), s) => (Ok tt, value', s)
  | (Err _, s) => (Ok tt, value, s)
  end.

Definition demote_context_entry (key : string) : Mut Pass Value := fun value s =>
  if is_preamble_hidden_key key then (Ok tt, value, s) else demote_or_keep PROMPT_INLINE_VALUE_MAX value s.

Definition demote_outcome {M} (o : Outcome M) (s : Pass) : result unit ArtifactError * Outcome M * Pass :=
  let '(r, updates, s) := mut_map (fun _ => demote_or_keep PROMPT_INLINE_VALUE_MAX) (context_updates o) s in
  (r, with_context_updates (fun _ => updates) o, s).

Definition demote_large_values_for_prompt {M} (values : gmap string Value) (node_outcomes : gmap string (Outcome M)) w
    : gmap string Value * gmap string (Outcome M) * W :=
  let '(_, values, s) := mut_map demote_context_entry values (None, w) in
  let '(_, node_outcomes, s) := mut_map (fun _ => demote_outcome) node_outcomes s in
  (values, node_outcomes, s.2).

Definition demote_large_items_for_prompt (items : list Value) w : list Value * W :=
  let '(_, items, s) := mut_list (demote_or_keep PROMPT_INLINE_ITEM_MAX) items (None, w) in (items, s.2).
End host.
