(* ===== verification/ArtifactFacts.v ===== *)
(** * Large values: what survives (fabro-workflow/src/artifact.rs)

    Offloading loses nothing: what it leaves in a context, also when it fails half-way,
    resolves to the values it was given.  Resolving for execution is undone by the durable
    form, so an attempt whose handler leaves its context alone leaves the run's alone. *)

From S2P Require Import Prelude RustStr RustNum Backoff GraphTypes Context Outcome Core Failure Workflow DecText EventKeys Blobs Artifact.
Local Open Scope string_scope.
Local Open Scope list_scope.
Local Open Scope Z_scope.

(** ** Values *)

Section value_induction.
Context (P : Value -> Prop).
Context (Hnull : P JNull) (Hbool : forall b, P (JBool b)) (Hnum : forall n, P (JNum n)) (Hstr : forall s, P (JString s)).
Context (Harr : forall l, Forall P l -> P (JArray l)) (Hobj : forall l, Forall (fun kv => P kv.2) l -> P (JObject l)).

Fixpoint value_nested_ind (v : Value) : P v :=
  match v with
  | JNull => Hnull
  | JBool b => Hbool b
  | JNum n => Hnum n
  | JString s => Hstr s
  | JArray l => Harr l ((fix go l : Forall P l :=
      match l with [] => Forall_nil_2 _ | v :: l => Forall_cons_2 _ _ _ (value_nested_ind v) (go l) end) l)
  | JObject l => Hobj l ((fix go l : Forall (fun kv => P kv.2) l :=
      match l with [] => Forall_nil_2 _ | kv :: l => Forall_cons_2 _ _ _ (value_nested_ind kv.2) (go l) end) l)
  end.
End value_induction.

Fixpoint value_depth (v : Value) : nat :=
  match v with
  | JArray l => S (list_max (value_depth <$> l))
  | JObject l => S (list_max ((fun kv => value_depth kv.2) <$> l))
  | _ => O
  end.

(** ** Loops *)

Section loop_facts.
Context {S : Type} (step : relation S) `{!PreOrder step}.

(** The operation relates what it is given to what it leaves by [Q], which later steps
    keep, and an argument it has not reached is so related to itself. *)
Definition keeps {A} (Q : S -> A -> A -> Prop) (f : Mut S A) (a : A) : Prop :=
  (forall s, Q s a a) /\ forall s r a' s', f a s = (r, a', s') -> step s s' /\ Q s' a a'.

Definition stable {A} (Q : S -> A -> A -> Prop) : Prop := forall s s' a b, step s s' -> Q s a b -> Q s' a b.

Lemma mut_list_keeps {A} (Q : S -> A -> A -> Prop) f l : stable Q -> Forall (keeps Q f) l -> keeps (fun s => Forall2 (Q s)) (mut_list f) l.
Proof using Type*.
  intros HQ Hl. split; [intros s; apply Forall_Forall2_diag; eapply Forall_impl; [exact Hl|]; intros a [Ha _]; apply Ha|].
  induction Hl as [|a l [Hrefl Ha] Hl IH]; intros s r l' s'; cbn.
  - intros [= <- <- <-]. split; [reflexivity|constructor].
  - destruct (f a s) as [[r1 a1] s1] eqn:Hf. apply Ha in Hf as [Hs1 HQ1]. destruct r1 as [[]|e]; cbn.
    + destruct (mut_list f l s1) as [[r2 l2] s2] eqn:Hm. apply IH in Hm as [Hs2 Hall].
      intros [= <- <- <-]. split; [by etransitivity|]. constructor; [by eapply HQ|done].
    + intros [= <- <- <-]. split; [done|]. constructor; [done|]. apply Forall_Forall2_diag.
      eapply Forall_impl; [exact Hl|]. intros b [Hb _]. apply Hb.
Qed.

(** The fields of an object: the keys stay. *)
Definition entrywise {A} (Q : string -> S -> A -> A -> Prop) (s : S) (x y : string * A) : Prop := x.1 = y.1 /\ Q x.1 s x.2 y.2.

Definition mut_entry {A} (f : string -> Mut S A) : Mut S (string * A) := fun kv s =>
  let '(r, a, s) := f kv.1 kv.2 s in (r, (kv.1, a), s).

Lemma mut_fields_list {A} (f : string -> Mut S A) l : forall s, mut_fields f l s = mut_list (mut_entry f) l s.
Proof.
  induction l as [|[k a] l IH]; intros s; cbn; [done|]. unfold mut_entry at 1. cbn.
  destruct (f k a s) as [[[[]|e] a'] s']; cbn; [|done]. by rewrite IH.
Qed.

Lemma mut_fields_keeps {A} (Q : string -> S -> A -> A -> Prop) f l :
  (forall k, stable (Q k)) -> Forall (fun kv => keeps (Q kv.1) (f kv.1) kv.2) l ->
  keeps (fun s => Forall2 (entrywise Q s)) (mut_fields f) l.
Proof using Type*.
  intros HQ Hl. destruct (mut_list_keeps (entrywise Q) (mut_entry f) l) as [Hrefl Hrun].
  - intros s s' x y Hs [Hk Hxy]. split; [done|by eapply HQ].
  - eapply Forall_impl; [exact Hl|]. intros [k a] [Ha Hf]. split; [by split|]. intros s r [k' a'] s'. unfold mut_entry. cbn.
    destruct (f k a s) as [[r1 a1] s1] eqn:E. intros [= <- <- <- <-]. apply Hf in E as [Hs Hq]. by split.
  - split; [done|]. intros s r l' s'. rewrite mut_fields_list. apply Hrun.
Qed.

Lemma entrywise_refl {A} (Q : string -> S -> A -> A -> Prop) s l :
  Forall (fun kv => Q kv.1 s kv.2 kv.2) l -> Forall2 (entrywise Q s) l l.
Proof. intros Hl. apply Forall_Forall2_diag. eapply Forall_impl; [exact Hl|]. by intros [k a]. Qed.

Lemma mut_field_keeps (Q : string -> S -> Value -> Value -> Prop) key f l :
  (forall k, stable (Q k)) -> Forall (fun kv => keeps (Q kv.1) f kv.2) l ->
  keeps (fun s => Forall2 (entrywise Q s)) (mut_field key f) l.
Proof using Type*.
  intros HQ Hl. assert (Hrefl : forall s, Forall (fun kv => Q kv.1 s kv.2 kv.2) l).
  { intros s. eapply Forall_impl; [exact Hl|]. intros kv [Hr _]. apply Hr. }
  split; [intros s; by apply entrywise_refl|].
  induction Hl as [|[k v] l [Hr Hf] Hl IH]; intros s r l' s'; cbn.
  - intros [= <- <- <-]. split; [reflexivity|constructor].
  - assert (Hrest : forall s, Forall (fun kv => Q kv.1 s kv.2 kv.2) l) by (intros s0; specialize (Hrefl s0); by apply Forall_cons in Hrefl as [_ ?]).
    destruct (String.eqb key k).
    + destruct (f v s) as [[r1 v1] s1] eqn:E. apply Hf in E as [Hs Hq]. intros [= <- <- <-].
      split; [done|]. constructor; [by split|]. by apply entrywise_refl.
    + destruct (mut_field key f l s) as [[r1 l1] s1] eqn:E. apply IH in E as [Hs Hq]; [|done]. intros [= <- <- <-].
      split; [done|]. constructor; [split; [done|apply Hr]|done].
Qed.

(** The table: its keys stay. *)
Definition mapwise {A} (Q : string -> S -> A -> A -> Prop) (s : S) (m m' : gmap string A) : Prop :=
  forall k, option_Forall2 (Q k s) (m !! k) (m' !! k).

Lemma entrywise_map {A} (Q : string -> S -> A -> A -> Prop) s l l' :
  Forall2 (entrywise Q s) l l' -> NoDup (fst <$> l) -> mapwise Q s (list_to_map l) (list_to_map l').
Proof.
  induction 1 as [|[k a] [k' a'] l l' [Hk Hq] Hl IH]; cbn in *; intros Hnd.
  - intros k. rewrite lookup_empty. constructor.
  - subst k'. apply NoDup_cons in Hnd as [Hnot Hnd]. intros j. destruct (decide (j = k)) as [->|Hj].
    + rewrite !lookup_insert_eq. by constructor.
    + rewrite !lookup_insert_ne by done. by apply IH.
Qed.

Lemma mut_map_keeps `{HashOrder} {A} (Q : string -> S -> A -> A -> Prop) f (m : gmap string A) :
  (forall k, stable (Q k)) -> map_Forall (fun k a => keeps (Q k) (f k) a) m ->
  keeps (mapwise Q) (mut_map f) m.
Proof using Type*.
  intros HQ Hm. destruct (mut_fields_keeps Q f (hash_iter m)) as [_ Hrun]; [done| |].
  - apply Forall_forall. intros [k a] Hin%hash_iter_elem. by apply Hm.
  - split.
    + intros s k. destruct (m !! k) as [a|] eqn:Ha; constructor. by apply Hm in Ha as [Ha _].
    + intros s r m' s'. unfold mut_map. destruct (mut_fields f (hash_iter m) s) as [[r1 l1] s1] eqn:E.
      apply Hrun in E as [Hs Hall]. intros [= <- <- <-]. split; [done|].
      rewrite <- (list_to_map_to_list m), <- (list_to_map_proper _ _ (hash_keys_NoDup m) (hash_iter_perm m)).
      apply entrywise_map; [done|apply hash_keys_NoDup].
Qed.
End loop_facts.

(** Loops whose body never fails. *)
Section total_loops.
Context {S : Type}.

Definition always {A} (Q : A -> A -> Prop) (f : Mut S A) (a : A) : Prop :=
  forall s, exists a' s', f a s = (Ok tt, a', s') /\ Q a a'.

Lemma mut_list_always {A} (Q : A -> A -> Prop) f l : Forall (always Q f) l -> always (Forall2 Q) (mut_list f) l.
Proof.
  induction 1 as [|a l Ha Hl IH]; intros s; cbn; [by exists [], s|].
  destruct (Ha s) as (a' & s1 & -> & Hq). destruct (IH s1) as (l' & s2 & E & Hall). cbn. rewrite E.
  exists (a' :: l'), s2. split; [done|by constructor].
Qed.

Definition mapwise_always {A} (Q : string -> A -> A -> Prop) (m m' : gmap string A) : Prop :=
  forall k, option_Forall2 (Q k) (m !! k) (m' !! k).

Lemma mut_map_always `{HashOrder} {A} (Q : string -> A -> A -> Prop) f (m : gmap string A) :
  map_Forall (fun k a => always (Q k) (f k) a) m -> always (mapwise_always Q) (mut_map f) m.
Proof.
  intros Hm s. destruct (mut_list_always (fun x y => x.1 = y.1 /\ Q x.1 x.2 y.2) (mut_entry f) (hash_iter m)) with (s := s) as (l' & s' & E & Hall).
  - apply Forall_forall. intros [k a] Hin%hash_iter_elem s0. destruct (Hm k a Hin s0) as (a' & s1 & E & Hq).
    exists (k, a'), s1. unfold mut_entry. cbn. by rewrite E.
  - exists (list_to_map l'), s'. unfold mut_map. rewrite mut_fields_list, E. split; [done|].
    rewrite <- (list_to_map_to_list m), <- (list_to_map_proper _ _ (hash_keys_NoDup m) (hash_iter_perm m)).
    apply (entrywise_map (fun k (_ : unit) => Q k) tt); [done|apply hash_keys_NoDup].
Qed.
End total_loops.

(** ** Offloading loses nothing *)

Section offload.
Context `{BlobHashes} `{JsonCodec} {W : Type} `{!ArtifactHost W} `{HashOrder}.
Implicit Types (w : W).

Definition is_ref (s : string) : bool := is_some (or_else (parse_blob_ref s) (parse_managed_blob_file_ref s)).

(** No text of the value is taken for a reference. *)
Fixpoint ref_free (v : Value) : bool :=
  match v with
  | JString s => negb (is_ref s)
  | JArray l => forallb ref_free l
  | JObject l => forallb (fun kv => ref_free kv.2) l
  | _ => true
  end.

(** [v'] stands for [v]: it is [v] with some of its parts moved to the store. *)
Inductive stands w : Value -> Value -> Prop :=
| stands_plain v : ref_free v = true -> stands w v v
| stands_blob h b v : holds w h b -> sha256 b = h -> json_from_slice b = Ok v -> ref_free v = true ->
    stands w (JString (format_blob_ref h)) v
| stands_array l' l : Forall2 (stands w) l' l -> stands w (JArray l') (JArray l)
| stands_object l' l : Forall2 (fun x y => x.1 = y.1 /\ stands w x.2 y.2) l' l -> stands w (JObject l') (JObject l).

Section stands_induction.
Context w (P : Value -> Value -> Prop).
Context (Hplain : forall v, ref_free v = true -> P v v).
Context (Hblob : forall h b v, holds w h b -> sha256 b = h -> json_from_slice b = Ok v -> ref_free v = true ->
  P (JString (format_blob_ref h)) v).
Context (Harr : forall l' l, Forall2 P l' l -> P (JArray l') (JArray l)).
Context (Hobj : forall l' l, Forall2 (fun x y => x.1 = y.1 /\ P x.2 y.2) l' l -> P (JObject l') (JObject l)).

Fixpoint stands_nested_ind v' v (Hs : stands w v' v) : P v' v :=
  match Hs with
  | stands_plain _ v Hv => Hplain v Hv
  | stands_blob _ h b v Hh Hb Hj Hv => Hblob h b v Hh Hb Hj Hv
  | stands_array _ l' l Hl => Harr l' l
      ((fix go l' l (Hl : Forall2 (stands w) l' l) : Forall2 P l' l :=
          match Hl with
          | @List.Forall2_nil _ _ _ => @List.Forall2_nil _ _ _
          | @List.Forall2_cons _ _ _ x y l' l Hxy Hl => @List.Forall2_cons _ _ _ x y l' l (stands_nested_ind _ _ Hxy) (go _ _ Hl)
          end) l' l Hl)
  | stands_object _ l' l Hl => Hobj l' l
      ((fix go l' l (Hl : Forall2 (fun x y => x.1 = y.1 /\ stands w x.2 y.2) l' l)
            : Forall2 (fun x y => x.1 = y.1 /\ P x.2 y.2) l' l :=
          match Hl with
          | @List.Forall2_nil _ _ _ => @List.Forall2_nil _ _ _
          | @List.Forall2_cons _ _ _ x y l' l (conj Hk Hxy) Hl => @List.Forall2_cons _ _ _ x y l' l (conj Hk (stands_nested_ind _ _ Hxy)) (go _ _ Hl)
          end) l' l Hl)
  end.
End stands_induction.

Lemma stands_grows w w' v' v : grows w w' -> stands w v' v -> stands w' v' v.
Proof.
  intros Hg. induction 1 as [v Hv|h b v Hh Hb Hj Hv|l' l Hl|l' l Hl] using stands_nested_ind.
  - by apply stands_plain.
  - eapply stands_blob; [by eapply grows_holds|done..].
  - by apply stands_array.
  - by apply stands_object.
Qed.

(** *** Reading it back *)

Section read.
Context (reads : forall k w, is_ok (sql_select k w).1 = true).

Lemma read_required_held h b w : holds w h b -> sha256 b = h ->
  exists w', read_required_blob h w = (Ok b, w') /\ table w' = table w.
Proof.
  intros Hh Hb. unfold read_required_blob, run_read_blob.
  destruct (blob_read_held h b w Hh Hb (reads _ _)) as (w' & -> & Ht). by exists w'.
Qed.

Definition resolves (fuel : nat) w v' v : Prop :=
  exists w', resolve_json_value fuel v' w = Some (Ok v, w') /\ table w' = table w.

Lemma try_join_all_ok {A B} (f : A -> W -> option (result B ArtifactError * W)) (l' : list A) (l : list B) w :
  Forall2 (fun a b => forall w0, table w0 = table w -> exists w1, f a w0 = Some (Ok b, w1) /\ table w1 = table w0) l' l ->
  exists w', try_join_all f l' w = Some (Ok l, w') /\ table w' = table w.
Proof.
  intros Hall. assert (Hgen : forall w0, table w0 = table w ->
    exists w', try_join_all f l' w0 = Some (Ok l, w') /\ table w' = table w0).
  { induction Hall as [|a b l' l Hab Hl IH]; intros w0 Hw0; cbn; [by exists w0|].
    destruct (Hab w0 Hw0) as (w1 & -> & Hw1). destruct (IH w1) as (w2 & -> & Hw2); [congruence|].
    exists w2. split; [done|congruence]. }
  by apply Hgen.
Qed.

Lemma stands_table w w' v' v : table w' = table w -> stands w v' v -> stands w' v' v.
Proof. intros Ht. apply stands_grows. unfold grows. by rewrite Ht. Qed.

Lemma list_max_elem {A} (f : A -> nat) (l : list A) x : x ∈ l -> (f x <= list_max (f <$> l))%nat.
Proof.
  induction 1 as [x l|y x l Hx IH]; rewrite fmap_cons; (match goal with |- context [list_max (?a :: ?b)] => change (list_max (a :: b)) with (Nat.max a (list_max b)) end); lia.
Qed.

Lemma forallb_elem {A} (f : A -> bool) l x : forallb f l = true -> x ∈ l -> f x = true.
Proof. rewrite forallb_forall. intros Hl Hx. apply Hl. by apply list_elem_of_In. Qed.

(** The resolution of the items of an array and of an object, one level down. *)
Lemma resolves_array fuel w l' l :
  (forall w0, table w0 = table w -> Forall2 (resolves fuel w0) l' l) -> resolves (S fuel) w (JArray l') (JArray l).
Proof.
  intros Hl. unfold resolves. cbn.
  destruct (try_join_all_ok (resolve_json_value fuel) l' l w) as (w' & -> & Hw'); [|by exists w'].
  specialize (Hl w eq_refl) as Hlen. apply Forall2_same_length_lookup. split; [by eapply Forall2_length|].
  intros i x y Hx Hy w0 Hw0. exact (Forall2_lookup_lr _ _ _ _ _ _ (Hl w0 Hw0) Hx Hy).
Qed.

Lemma resolves_object fuel w l' l :
  (forall w0, table w0 = table w -> Forall2 (fun x y => x.1 = y.1 /\ resolves fuel w0 x.2 y.2) l' l) ->
  resolves (S fuel) w (JObject l') (JObject l).
Proof.
  intros Hl. unfold resolves. cbn.
  destruct (try_join_all_ok (resolve_json_entry (resolve_json_value fuel)) l' l w) as (w' & -> & Hw'); [|by exists w'].
  specialize (Hl w eq_refl) as Hlen. apply Forall2_same_length_lookup. split; [by eapply Forall2_length|].
  intros i [kx x] [ky y] Hx Hy w0 Hw0. destruct (Forall2_lookup_lr _ _ _ _ _ _ (Hl w0 Hw0) Hx Hy) as [Hk (w1 & Hr & Ht)].
  cbn in Hk, Hr. subst ky. exists w1. unfold resolve_json_entry. cbn. by rewrite Hr.
Qed.

Lemma plain_resolves v : forall fuel w, ref_free v = true -> (value_depth v < fuel)%nat -> resolves fuel w v v.
Proof.
  induction v as [| | |s|l IH|l IH] using value_nested_ind; intros fuel w Hv Hf; (destruct fuel as [|fuel]; [lia|]).
  1-3: by exists w.
  - cbn in Hv. unfold is_ref in Hv. unfold resolves. cbn. destruct (or_else _ _); [done|]. by exists w.
  - cbn in Hv, Hf. apply resolves_array. intros w0 _. apply Forall_Forall2_diag, Forall_forall. intros x Hx.
    eapply Forall_forall in IH; [|exact Hx]. apply IH; [by eapply forallb_elem in Hv|].
    pose proof (list_max_elem value_depth l x Hx). lia.
  - cbn in Hv, Hf. apply resolves_object. intros w0 _. apply Forall_Forall2_diag, Forall_forall. intros x Hx.
    eapply Forall_forall in IH; [|exact Hx]. split; [done|]. apply IH; [exact (forallb_elem _ _ _ Hv Hx)|].
    pose proof (list_max_elem (fun kv => value_depth kv.2) l x Hx). lia.
Qed.

(** A value that stands for another resolves to it, one level of fuel more than its depth
    being enough. *)
Lemma stands_resolves w v' v : stands w v' v -> forall fuel, (S (value_depth v) < fuel)%nat -> resolves fuel w v' v.
Proof.
  intros Hst. enough (forall fuel w0, table w0 = table w -> (S (value_depth v) < fuel)%nat -> resolves fuel w0 v' v) by auto.
  induction Hst as [v Hv|h b v Hh Hb Hj Hv|l' l Hl|l' l Hl] using stands_nested_ind; intros fuel w0 Hw0 Hf;
    (destruct fuel as [|fuel]; [lia|]).
  - apply plain_resolves; [done|lia].
  - unfold resolves. cbn [resolve_json_value]. rewrite blob_ref_parsed. cbn [or_else].
    destruct (read_required_held h b w0) as (w1 & -> & Hw1); [unfold holds in *; by rewrite Hw0|done|].
    rewrite Hj. destruct (plain_resolves v fuel w1 Hv) as (w2 & -> & Hw2); [lia|]. exists w2. split; [done|congruence].
  - cbn in Hf. apply resolves_array. intros w1 Hw1. apply Forall2_same_length_lookup.
    split; [by eapply Forall2_length|]. intros i x y Hx Hy.
    apply (Forall2_lookup_lr _ _ _ _ _ _ Hl Hx Hy); [congruence|].
    pose proof (list_max_elem value_depth l y (list_elem_of_lookup_2 _ _ _ Hy)). lia.
  - cbn in Hf. apply resolves_object. intros w1 Hw1. apply Forall2_same_length_lookup.
    split; [by eapply Forall2_length|]. intros i x y Hx Hy.
    destruct (Forall2_lookup_lr _ _ _ _ _ _ Hl Hx Hy) as [Hk IH]. split; [done|]. apply IH; [congruence|].
    pose proof (list_max_elem (fun kv => value_depth kv.2) l y (list_elem_of_lookup_2 _ _ _ Hy)). lia.
Qed.
End read.

(** *** Writing it *)

Context (read_only : bool).

(** What offloading may be given: values that JSON keeps, without references. *)
Definition storable (v : Value) : bool := (json_exact v && ref_free v)%bool.

Notation Stands := (fun w v v' => stands w v' v).

Lemma stands_stable : stable grows Stands.
Proof. intros w w' v v'. apply stands_grows. Qed.

Lemma write_blob_spec msg bytes w r w' :
  write_blob read_only msg bytes w = (r, w') ->
  grows w w' /\ match r with Ok h => h = sha256 bytes /\ holds w' h bytes | Err _ => True end.
Proof.
  unfold write_blob, run_write_blob. destruct read_only; [by intros [= <- <-]|].
  destruct (blob_write bytes w) as [r1 w1] eqn:Hw. apply blob_write_spec in Hw as [Hg Hr].
  destruct r1 as [h|e]; by intros [= <- <-].
Qed.

Lemma serialized_if_over_json v t b : serialized_if_over v t = Ok (Some b) -> json_to_vec v = Ok b /\ t < str_len b.
Proof.
  unfold serialized_if_over. destruct v; [done|done|done| | |]; repeat case_match; try done; intros [= ->]; by split; [|apply Z.ltb_lt].
Qed.

Lemma offload_value_keeps v : storable v = true -> keeps grows Stands (offload_value read_only) v.
Proof.
  intros [Hex Hfree]%andb_true_iff. split; [intros w; by apply stands_plain|].
  intros w r v' w'. unfold offload_value, mut_assign.
  destruct (serialized_if_over v BLOB_OFFLOAD_THRESHOLD) as [[bytes|]|e] eqn:Hs.
  - apply serialized_if_over_json in Hs as [Hj _]. unfold io_bind.
    destruct (write_blob read_only _ bytes w) as [[h|e] w1] eqn:Hw; apply write_blob_spec in Hw as [Hg Hh]; cbn.
    + intros [= <- <- <-]. split; [done|]. destruct Hh as [-> Hh].
      destruct (json_roundtrip v Hex) as (b & Hb & Hback). rewrite Hj in Hb. injection Hb as <-.
      by eapply stands_blob.
    + intros [= <- <- <-]. split; [done|]. by apply stands_plain.
  - intros [= <- <- <-]. split; [reflexivity|]. by apply stands_plain.
  - intros [= <- <- <-]. split; [reflexivity|]. by apply stands_plain.
Qed.
Lemma storable_array l : storable (JArray l) = true -> Forall (fun v => storable v = true) l.
Proof.
  intros [He Hf]%andb_true_iff. apply Forall_forall. intros v Hv. apply andb_true_iff.
  split; [exact (forallb_elem _ _ _ He Hv)|exact (forallb_elem _ _ _ Hf Hv)].
Qed.

Lemma storable_object l : storable (JObject l) = true -> Forall (fun kv => storable kv.2 = true) l.
Proof.
  intros [[_ He]%andb_true_iff Hf]%andb_true_iff. apply Forall_forall. intros v Hv. apply andb_true_iff.
  split; [exact (forallb_elem _ _ _ He Hv)|exact (forallb_elem _ _ _ Hf Hv)].
Qed.

Lemma storable_free v : storable v = true -> ref_free v = true.
Proof. by intros [_ ?]%andb_true_iff. Qed.

(** An operation on the fields of an object, seen from the object. *)
Lemma object_keeps (g : Mut W (list (string * Value))) l :
  storable (JObject l) = true ->
  keeps grows (fun w => Forall2 (entrywise (fun _ => Stands) w)) g l ->
  keeps grows Stands (fun v w => match v with JObject l => let '(r, l, w) := g l w in (r, JObject l, w) | v => (Ok tt, v, w) end) (JObject l).
Proof.
  intros Hst [_ Hg]. split; [intros w; by apply stands_plain, storable_free|].
  intros w r v' w'. destruct (g l w) as [[r1 l1] w1] eqn:E. apply Hg in E as [Hs Hall]. intros [= <- <- <-].
  split; [done|]. apply stands_object, Forall2_flip. eapply Forall2_impl; [exact Hall|].
  intros x y [Hk Hq]. split; [by symmetry|done].
Qed.

Lemma noop_keeps v : storable v = true -> keeps grows Stands (fun v w => (Ok tt, v, w)) v.
Proof.
  intros Hv. split; [intros w; by apply stands_plain, storable_free|].
  intros w r v' w' [= <- <- <-]. split; [reflexivity|]. by apply stands_plain, storable_free.
Qed.

Lemma offload_branch_updates_keeps v : storable v = true -> keeps grows Stands (offload_branch_updates read_only) v.
Proof.
  intros Hv. destruct v; try (by apply noop_keeps). unfold offload_branch_updates. apply object_keeps; [done|].
  apply (mut_fields_keeps grows (fun _ => Stands)); [intros _; apply stands_stable|]. eapply Forall_impl; [by apply storable_object|].
  intros kv. apply offload_value_keeps.
Qed.

Lemma offload_branch_result_keeps v : storable v = true -> keeps grows Stands (offload_branch_result read_only) v.
Proof.
  intros Hv. destruct v; try (by apply noop_keeps). unfold offload_branch_result. apply object_keeps; [done|].
  apply (mut_field_keeps grows (fun _ => Stands)); [intros _; apply stands_stable|]. eapply Forall_impl; [by apply storable_object|].
  intros kv. apply offload_branch_updates_keeps.
Qed.

Lemma offload_entry_keeps k v : storable v = true -> keeps grows Stands (offload_entry read_only k) v.
Proof.
  intros Hv. unfold offload_entry. destruct (String.eqb k PARALLEL_RESULTS); [|by apply offload_value_keeps].
  unfold offload_parallel_result_updates. destruct v as [| | | |l|l]; try (by apply noop_keeps).
  destruct (mut_list_keeps grows Stands (offload_branch_result read_only) l) as [_ Hrun]; [apply stands_stable| |].
  { eapply Forall_impl; [by apply storable_array|]. intros x. apply offload_branch_result_keeps. }
  split; [intros w; by apply stands_plain, storable_free|]. intros w r v' w'.
  destruct (mut_list _ l w) as [[r1 l1] w1] eqn:E. apply Hrun in E as [Hs Hall]. intros [= <- <- <-].
  split; [done|]. apply stands_array. by apply Forall2_flip.
Qed.

(** Offloading large values loses nothing, even when it fails half-way: the context
    keeps its keys, and every value left in it, resolved again (with fuel for its depth and
    one reference), is the value that was there. *)
Theorem offload_resolves updates w r updates' w' :
  (forall k w, is_ok (sql_select k w).1 = true) ->
  map_Forall (fun _ v => storable v = true) updates ->
  offload_large_values read_only updates w = (r, updates', w') ->
  forall k, match updates !! k, updates' !! k with
            | Some v, Some v' => forall fuel, (S (value_depth v) < fuel)%nat ->
                exists w'', resolve_json_value fuel v' w' = Some (Ok v, w'') /\ table w'' = table w'
            | None, None => True
            | _, _ => False
            end.
Proof.
  intros Hread Hst Hoff k.
  destruct (mut_map_keeps grows (fun _ => Stands) (offload_entry read_only) updates) as [_ Hrun].
  - intros _. apply stands_stable.
  - intros j v Hv. by apply offload_entry_keeps, (Hst j).
  - apply Hrun in Hoff as [_ Hall]. specialize (Hall k). destruct Hall as [v v' Hv|]; [|done].
    intros fuel Hf. by apply stands_resolves.
Qed.

(** After a full pass no value outside [parallel.results] is over the threshold. *)
Lemma offload_value_small v w v' w' :
  offload_value read_only v w = (Ok tt, v', w') -> serialized_if_over v' BLOB_OFFLOAD_THRESHOLD = Ok None.
Proof.
  unfold offload_value, mut_assign. destruct (serialized_if_over v BLOB_OFFLOAD_THRESHOLD) as [[bytes|]|e] eqn:Hs; [|congruence|done].
  unfold io_bind. destruct (write_blob read_only _ bytes w) as [[h|e] w1]; [|done]. intros [= <- <-].
  unfold serialized_if_over, format_blob_ref. unfold str_len. rewrite length_append, hash_text_length. done.
Qed.
End offload.

(** ** The durable form undoes what execution resolves *)

(** Host operations do not touch the blob table, and the runtime directory of a sandbox is
    named so (it is [/tmp/fabro/runtime] in the containers). *)
Class HostLaws (W : Type) `{ArtifactHost W} : Prop := {
  exists_table : forall p w, table (env_file_exists p w).2 = table w;
  write_table : forall p c w, table (env_write_file p c w).2 = table w;
  mkdir_table : forall p w, table (fs_create_dir_all p w).2 = table w;
  open_table : forall p w, table (fs_open_truncate p w).2 = table w;
  write_all_table : forall p c w, table (fs_write_all p c w).2 = table w;
  read_table : forall p w, table (fs_read_to_string p w).2 = table w;
  runtime_named : forall d, env_runtime_directory = Some d -> exists dir, path_components d = dir ++ ["runtime"]
}.

Section durable.
Context `{BlobHashes} `{JsonCodec} {W : Type} `{HostLaws W} `{HashOrder}.
Context (run_dir : string).
Implicit Types (w : W).

Notation Pass := (option bool * W)%type.
Definition same_table (s s' : Pass) : Prop := table s'.2 = table s.2.

#[local] Instance same_table_preorder : PreOrder same_table.
Proof. unfold same_table. split; [done|]. intros s1 s2 s3. congruence. Qed.

(** A computation that leaves the table alone. *)
Definition table_kept {A} (m : W -> result A ArtifactError * W) : Prop := forall w, table (m w).2 = table w.

Lemma bind_kept {A B} (m : W -> result A ArtifactError * W) (k : A -> W -> result B ArtifactError * W) :
  table_kept m -> (forall a, table_kept (k a)) -> table_kept (io_bind m k).
Proof. intros Hm Hk w. unfold io_bind. specialize (Hm w). destruct (m w) as [[a|e] w1]; cbn in *; [by rewrite Hk|done]. Qed.

Lemma map_err_kept {A} f (m : W -> result A string * W) : (forall w, table (m w).2 = table w) -> table_kept (io_map_err f m).
Proof. intros Hm w. unfold io_map_err. specialize (Hm w). by destruct (m w) as [[a|e] w1]. Qed.

Lemma ok_kept {A} (a : A) : table_kept (io_ok a).
Proof. by intros w. Qed.

Lemma read_required_kept h : table_kept (read_required_blob h).
Proof.
  intros w. unfold read_required_blob, run_read_blob. destruct (blob_read h w) as [r w1] eqn:Hr.
  apply blob_read_spec in Hr as [Ht _]. by destruct r as [[b|]|e].
Qed.

Lemma resolve_text_kept s : table_kept (resolve_text_or_blob_ref_str s).
Proof.
  intros w. unfold resolve_text_or_blob_ref_str, run_read_blob. destruct (parse_blob_ref s) as [h|]; [|done].
  destruct (blob_read h w) as [r w1] eqn:Hr. apply blob_read_spec in Hr as [Ht _].
  destruct r as [[b|]|e]; [|done..]. by destruct (json_string_from_slice b).
Qed.

Create HintDb kept.
#[local] Hint Resolve bind_kept map_err_kept ok_kept read_required_kept resolve_text_kept : kept.
#[local] Hint Resolve exists_table write_table mkdir_table open_table write_all_table read_table : kept.

Ltac kept := repeat (first [apply bind_kept; [|intros] | apply map_err_kept; intros | apply ok_kept | by auto with kept | case_match]).

Lemma write_local_kept h b : table_kept (write_local_blob_file run_dir h b).
Proof. unfold write_local_blob_file. kept. Qed.

Lemma write_remote_kept p b : table_kept (write_remote_blob_file p b).
Proof. unfold write_remote_blob_file. intros w. case_match; [|done]. apply map_err_kept. auto with kept. Qed.

#[local] Hint Resolve write_local_kept write_remote_kept : kept.

Lemma explicit_ref_kept v : table_kept (resolve_explicit_file_ref v).
Proof. unfold resolve_explicit_file_ref. intros w. case_match; [|done]. revert w. change (fun w => ?f w) with f. kept. Qed.
Lemma fill_local_kept h fill : table_kept fill -> table_kept (fill_local run_dir h fill).
Proof. unfold fill_local. intros Hf w. apply bind_kept; [case_match; auto with kept|intros; apply ok_kept]. Qed.

Lemma fill_remote_kept h fill : (forall p, table_kept (fill p)) -> table_kept (fill_remote h fill).
Proof.
  unfold fill_remote. intros Hf w. case_match; [|done]. revert w. change (fun w => ?f w) with f.
  kept.
Qed.

Lemma fill_local_path h fill w p w' : fill_local run_dir h fill w = (Ok p, w') -> p = local_materialized_blob_path run_dir h.
Proof.
  unfold fill_local, io_bind. destruct (fs_exists _ w); cbn; [by intros [= <- _]|].
  destruct (fill w) as [[[]|e] w1]; by intros [= <- _].
Qed.

Lemma fill_remote_path h fill w p w' : fill_remote h fill w = (Ok p, w') -> remote_materialized_blob_path h = Ok p.
Proof.
  unfold fill_remote. destruct (remote_materialized_blob_path h) as [q|e]; [|done]. unfold io_bind.
  destruct (io_map_err _ _ w) as [[[]|e] w1]; cbn; [by intros [= <- _]| |done].
  destruct (fill q w1) as [[[]|e] w2]; by intros [= <- _].
Qed.

Lemma blobs_name_normal : normal_name "blobs".
Proof. done. Qed.

(** Both kinds of path are recognised as the file of the blob. *)
Lemma local_path_managed h : parse_managed_blob_file_ref ("file://" +:+ local_materialized_blob_path run_dir h) = Some h.
Proof.
  apply (managed_ref_parsed _ h (path_components run_dir)). unfold local_materialized_blob_path, runtime_dir.
  rewrite !path_components_join by (done || apply file_name_normal). by rewrite <- !app_assoc.
Qed.

Lemma remote_path_managed h p : remote_materialized_blob_path h = Ok p -> parse_managed_blob_file_ref ("file://" +:+ p) = Some h.
Proof.
  unfold remote_materialized_blob_path. destruct env_runtime_directory as [d|] eqn:Hd; [|done]. intros [= <-].
  apply runtime_named in Hd as [dir Hd]. apply (managed_ref_parsed _ h dir).
  assert (Hd0 : d <> "") by (intros ->; cbn in Hd; by destruct dir).
  replace (d +:+ "/blobs/" +:+ hash_to_string h +:+ ".json") with ((d +:+ "/" +:+ "blobs") +:+ "/" +:+ file_name_of h).
  - rewrite path_components_name; [|by destruct d|apply file_name_normal].
    rewrite path_components_name by done. by rewrite Hd, <- !app_assoc.
  - rewrite append_assoc. done.
Qed.

Lemma is_local_kept s : same_table s (is_local run_dir s).2.
Proof.
  unfold is_local, same_table. destruct (s.1); [done|]. pose proof (exists_table run_dir s.2) as He.
  by destruct (env_file_exists run_dir s.2) as [[b|e] w1].
Qed.

Lemma on_world_kept {A} (m : W -> result A ArtifactError * W) s : table_kept m -> same_table s (on_world m s).2.
Proof. intros Hm. unfold on_world, same_table. specialize (Hm s.2). by destruct (m s.2). Qed.

Lemma materialize_spec h s r s' :
  materialize_blob_ref run_dir h s = (r, s') ->
  same_table s s' /\ match r with Ok p => parse_managed_blob_file_ref p = Some h | Err _ => True end.
Proof.
  unfold materialize_blob_ref, io_bind. pose proof (is_local_kept s) as Hl.
  destruct (is_local run_dir s) as [[local|e] s1]; cbn in Hl; [|by intros [= <- <-]].
  match goal with |- match ?m with _ => _ end = _ -> _ => set (x := m) end.
  assert (Hx : same_table s1 x.2 /\ match x.1 with Ok p => parse_managed_blob_file_ref ("file://" +:+ p) = Some h | Err _ => True end).
  { subst x. destruct local; (split; [apply on_world_kept; (apply fill_local_kept || apply fill_remote_kept; intros); apply bind_kept; intros; auto with kept|]).
    - unfold on_world. destruct (fill_local run_dir h _ s1.2) as [[p|e] w] eqn:E; cbn; [|done].
      apply fill_local_path in E as ->. apply local_path_managed.
    - unfold on_world. destruct (fill_remote h _ s1.2) as [[p|e] w] eqn:E; cbn; [|done].
      apply fill_remote_path in E. by apply remote_path_managed. }
  destruct x as [[p|e] s2]; cbn in *; intros [= <- <-]; (split; [etransitivity; [exact Hl|apply Hx]|]); [apply Hx|done].
Qed.

(** *** Which values *)

(** A text that is not a reference, or a reference as the store writes it. *)
Definition canonical_ref (s : string) : bool :=
  match parse_blob_ref s with Some h => String.eqb s (format_blob_ref h) | None => true end.

(** No explicit file pointer, and no text key inside an object. *)
Fixpoint unpointed (v : Value) : bool :=
  match v with
  | JString s => (negb (starts_with ARTIFACT_POINTER_PREFIX s) && canonical_ref s)%bool
  | JArray l => forallb unpointed l
  | JObject l => forallb (fun kv => (negb (is_text_context_key kv.1) && unpointed kv.2)%bool) l
  | _ => true
  end.

(** An entry of a durable context: under a text key a text (or its reference), elsewhere
    a value without file pointers. *)
Definition settled (k : string) (v : Value) : bool :=
  if is_text_context_key k then is_some_and (fun s => negb (is_some (parse_managed_blob_file_ref s))) (value_as_str v)
  else unpointed v.

(** No text in the store is itself the name of a blob file. *)
Definition texts_plain w : Prop :=
  forall h b t, holds w h b -> json_string_from_slice b = Ok t -> parse_managed_blob_file_ref t = None.

Lemma not_pointer_unmanaged s : starts_with ARTIFACT_POINTER_PREFIX s = false -> parse_managed_blob_file_ref s = None.
Proof.
  unfold starts_with, parse_managed_blob_file_ref, ARTIFACT_POINTER_PREFIX.
  destruct (strip_prefix "file://" s); [done|done].
Qed.

Lemma fmap_fixed {A} (f : A -> A) l : Forall (fun x => f x = x) l -> f <$> l = l.
Proof. induction 1 as [|x l Hx Hl IH]; [done|]. rewrite fmap_cons. by rewrite Hx, IH. Qed.

Lemma normalize_unpointed v : unpointed v = true -> normalize_durable_value v = v.
Proof.
  induction v as [| | |s|l IH|l IH] using value_nested_ind; try done; cbn [unpointed normalize_durable_value]; intros Hv.
  - apply andb_true_iff in Hv as [Hv%negb_true_iff _]. by rewrite not_pointer_unmanaged.
  - f_equal. apply fmap_fixed, Forall_forall. intros x Hx. eapply Forall_forall in IH; [|exact Hx].
    apply IH. exact (forallb_elem _ _ _ Hv Hx).
  - f_equal. apply fmap_fixed, Forall_forall. intros [k x] Hx. eapply Forall_forall in IH; [|exact Hx].
    pose proof (forallb_elem _ _ _ Hv Hx) as [_ Hu]%andb_true_iff. cbn in *. by rewrite IH.
Qed.

(** What resolution leaves of an unpointed value is turned back into it. *)
Notation Back := (fun (_ : Pass) v v' => normalize_durable_value v' = v).

Lemma back_stable : stable same_table Back.
Proof. by intros s s' v v' _ Hv. Qed.

Lemma resolve_string_back key s :
  is_some_and is_text_context_key key = false -> unpointed (JString s) = true ->
  keeps same_table (fun _ a b => normalize_durable_value (JString b) = JString a) (resolve_execution_string run_dir key) s.
Proof.
  intros Hkey [Hs%negb_true_iff Href]%andb_true_iff.
  assert (Hid : normalize_durable_value (JString s) = JString s) by (cbn [normalize_durable_value]; by rewrite not_pointer_unmanaged).
  split; [by intros _|]. intros st r b st'. unfold resolve_execution_string, mut_assign. rewrite Hkey, Hs. cbn [andb].
  unfold canonical_ref in Href. destruct (parse_blob_ref s) as [h|].
  - apply String.eqb_eq in Href as ->.
    destruct (materialize_blob_ref run_dir h st) as [[p|e] st1] eqn:E; apply materialize_spec in E as [Ht Hp];
      intros [= <- <- <-]; (split; [done|]); [|done]. cbn [normalize_durable_value]. by rewrite Hp.
  - cbn. intros [= <- <- <-]. by split.
Qed.

Lemma resolve_value_back v : forall key, is_some_and is_text_context_key key = false -> unpointed v = true ->
  keeps same_table Back (resolve_execution_value run_dir key) v.
Proof.
  induction v as [| | |s|l IH|l IH] using value_nested_ind; intros key Hkey Hv.
  1-3: split; [done|]; intros st r v' st' [= <- <- <-]; by split.
  all: split; [intros _; by apply normalize_unpointed|]; intros st r v' st'; cbn [resolve_execution_value].
  - destruct (resolve_string_back key s Hkey Hv) as [_ Hrun].
    destruct (resolve_execution_string run_dir key s st) as [[r1 b] st1] eqn:E. apply Hrun in E as [Ht Hb]. by intros [= <- <- <-].
  - destruct (mut_list_keeps same_table Back (resolve_execution_value run_dir key) l back_stable) as [_ Hrun].
    { apply Forall_forall. intros x Hx. eapply Forall_forall in IH; [|exact Hx]. apply IH; [done|exact (forallb_elem _ _ _ Hv Hx)]. }
    destruct (mut_list _ l st) as [[r1 l1] st1] eqn:E. apply Hrun in E as [Ht Hall]. intros [= <- <- <-]. split; [done|].
    cbn [normalize_durable_value]. f_equal. clear -Hall. by induction Hall as [|x y l l1 Hxy _ IH]; [|rewrite fmap_cons, IH, Hxy].
  - destruct (mut_fields_keeps same_table (fun _ => Back) (fun child => resolve_execution_value run_dir (child_key key child)) l) as [_ Hrun];
      [intros _; exact back_stable| |].
    { apply Forall_forall. intros [k x] Hx. eapply Forall_forall in IH; [|exact Hx].
      pose proof (forallb_elem _ _ _ Hv Hx) as [Hk%negb_true_iff Hu]%andb_true_iff.
      apply IH; [|done]. unfold child_key. by rewrite Hkey. }
    destruct (mut_fields _ l st) as [[r1 l1] st1] eqn:E. apply Hrun in E as [Ht Hall]. intros [= <- <- <-]. split; [done|].
    cbn [normalize_durable_value]. f_equal. clear -Hall.
    induction Hall as [|[k x] [k' y] l l1 [Hk Hxy] _ IH]; [done|]. rewrite fmap_cons, IH. cbn in *. by rewrite Hxy, Hk.
Qed.

(** Under a text key, the text itself. *)
Lemma resolve_text_back w0 key s :
  is_text_context_key key = true -> texts_plain w0 -> parse_managed_blob_file_ref s = None ->
  forall st r v' st', table st.2 = table w0 -> resolve_execution_value run_dir (Some key) (JString s) st = (r, v', st') ->
  same_table st st' /\ exists t, v' = JString t /\ normalize_durable_value v' = v'.
Proof.
  intros Hkey Hplain Hs st r v' st' Htab. cbn [resolve_execution_value]. unfold resolve_execution_string, mut_assign.
  cbn [is_some_and]. rewrite Hkey. pose proof (on_world_kept _ st (resolve_text_kept s)) as Hkept.
  unfold on_world in *. destruct (resolve_text_or_blob_ref_str s st.2) as [[t|e] w1] eqn:E; cbn in Hkept; intros [= <- <- <-].
  - split; [done|]. exists t. split; [done|]. cbn [normalize_durable_value].
    enough (parse_managed_blob_file_ref t = None) as -> by done.
    revert E. unfold resolve_text_or_blob_ref_str, run_read_blob. destruct (parse_blob_ref s) as [h|]; [|by intros [= <- _]].
    destruct (blob_read h st.2) as [[[b|]|e] w2] eqn:Hr; [|done..]. apply blob_read_spec in Hr as [_ [Hh _]].
    destruct (json_string_from_slice b) eqn:Hb; [|done]. intros [= <- _].
    eapply Hplain; [|exact Hb]. unfold holds in *. by rewrite <- Htab.
  - split; [done|]. exists s. split; [done|]. cbn [normalize_durable_value]. by rewrite Hs.
Qed.

(** An entry of the resolved context, in terms of the durable one, while the table is that
    of [w0]. *)
Definition entry_back w0 (k : string) (s : Pass) (v v' : Value) : Prop :=
  table s.2 = table w0 ->
  if is_text_context_key k then exists t, v' = JString t /\ normalize_durable_value v' = v'
  else normalize_durable_value v' = v.

Lemma entry_keeps w0 k v : texts_plain w0 -> settled k v = true ->
  keeps same_table (entry_back w0 k) (resolve_execution_value run_dir (Some k)) v.
Proof.
  intros Hplain Hv. unfold settled in Hv. unfold entry_back. destruct (is_text_context_key k) eqn:Hk.
  - apply is_some_and_true in Hv as (s & Hs & Hm%negb_true_iff). destruct v; try done. injection Hs as ->.
    destruct (parse_managed_blob_file_ref s) eqn:Hmn; [done|].
    split; [intros st _; exists s; split; [done|]; cbn [normalize_durable_value]; by rewrite Hmn|].
    intros st r v' st' E. assert (Hsame : same_table st st').
    { revert E. cbn [resolve_execution_value]. unfold resolve_execution_string, mut_assign. cbn [is_some_and]. rewrite Hk.
      pose proof (on_world_kept _ st (resolve_text_kept s)) as Hkept.
      destruct (on_world _ st) as [[t|e] st1]; intros [= <- <- <-]; done. }
    split; [done|]. intros Ht. eapply (resolve_text_back w0 k s); [done|done|done| |exact E]. unfold same_table in Hsame. congruence.
  - destruct (resolve_value_back v (Some k) Hk Hv) as [Hrefl Hrun]. split; [intros st _; by apply (Hrefl st)|].
    intros st r v' st' E. apply Hrun in E as [Ht Hb]. by split.
Qed.

Lemma snapshot_back c w r w' :
  texts_plain w -> map_Forall (fun k v => settled k v = true) c ->
  resolved_context_snapshot run_dir c w = (Ok r, w') -> mapwise (entry_back w) (None, w) c r.
Proof.
  intros Hplain Hc. unfold resolved_context_snapshot, resolve_execution_values, context_snapshot.
  destruct (mut_map_keeps same_table (entry_back w) (fun key => resolve_execution_value run_dir (Some key)) c) as [_ Hrun].
  - intros k s s' v v' Hs Hv Ht. apply Hv. unfold same_table in Hs. congruence.
  - intros k v Hv. apply entry_keeps; [done|by apply (Hc k)].
  - destruct (mut_map _ c (None, w)) as [[[[]|e] m] [loc w1]] eqn:E; [|done]. apply Hrun in E as [Ht Hall].
    intros [= <- <-]. intros k. specialize (Hall k). destruct Hall as [v v' Hv|]; constructor. intros _. by apply Hv.
Qed.

(** *** An attempt *)

Context {M : Type} `{OutcomeMeta M} (to_failure_detail : ArtifactError -> FailureDetail) (timeout_managed : Node -> bool).
Context (handler_times_out : Duration -> Node -> Context -> W -> option W).
Context (handler : Node -> Context -> Graph -> W -> Dispatched M * Context * W).

Definition as_detail {A} (x : result A ArtifactError * W) : result A FailureDetail * W :=
  match x with (Ok a, w) => (Ok a, w) | (Err e, w) => (Err (to_failure_detail e), w) end.

(** The services of a handler on this host. *)
Definition artifact_services : Services M W := {|
  handler_context := fun c w => as_detail (resolve_context_for_execution run_dir c w);
  edge_context := fun c w => as_detail (resolve_context_for_edge_selection c w);
  durable_form := normalize_durable_updates;
  manages_timeout := timeout_managed;
  times_out := handler_times_out;
  dispatch_handler := handler
|}.

(** The values a handler left alone, merged back. *)
Lemma unchanged_merge w c r :
  mapwise (entry_back w) (None, w) c r -> apply_updates (context_diff r (normalize_durable_updates r)) c = c.
Proof.
  intros Hall. apply map_eq. intros k. unfold apply_updates, context_diff, normalize_durable_updates.
  specialize (Hall k). rewrite lookup_union, map_lookup_filter, lookup_fmap.
  destruct (r !! k) as [v'|] eqn:Hr; inversion Hall as [v v'' Hv Hck|Hck]; subst; cbn [fmap option_fmap option_map mbind option_bind fst snd]; [|done]. specialize (Hv eq_refl).
  destruct (is_text_context_key k).
  - destruct Hv as (t & -> & Ht). rewrite Ht. rewrite Hr. rewrite (String.eqb_refl t : value_eqb (JString t) (JString t) = true). done.
  - rewrite Hv. case_guard; done.
Qed.

(** An attempt whose handler leaves its context as it got it leaves the context of the
    run as it was, entry by entry, whatever of it had been moved to the blob store and was
    read or written to files for the handler. *)
Theorem idle_attempt_keeps_context n c g w :
  texts_plain w -> map_Forall (fun k v => settled k v = true) c ->
  (forall snapshot w1, exists d w2, handler n snapshot g w1 = (d, snapshot, w2)) ->
  let '(_, c', _) := execute_single_attempt (H0 := artifact_services) n c g w in c' = c.
Proof.
  intros Hplain Hc Hidle. unfold execute_single_attempt. cbn [handler_context artifact_services durable_form dispatch_handler].
  unfold as_detail, resolve_context_for_execution, io_bind, context_from_values.
  destruct (resolved_context_snapshot run_dir c w) as [[r|e] w1] eqn:E; cbn; [|done].
  apply snapshot_back in E; [|done..].
  match goal with |- context [match ?m with Some _ => _ | None => _ end] => destruct m as [[]|]; [done|] end.
  destruct (Hidle r w1) as (d & w2 & ->). by eapply unchanged_merge.
Qed.
End durable.

(** ** Large values in prompts, and what a broken write leaves (fabro-workflow/src/artifact.rs)

    What a context value may contribute to a prompt is bounded: it is small, or replaced by
    a marker with at most 300 characters of it and the path of its file.  A host with a
    small disk shows that a file a failed write has cut short is served as the whole value. *)


(** ** Prompts *)

Lemma count_take_chars n s : (count_chars (take_chars n s) <= n)%nat.
Proof.
  revert n. induction s as [|c s IH]; intros n; cbn; [lia|].
  destruct (is_continuation c) eqn:Hc; cbn; [rewrite Hc; apply IH|].
  destruct n as [|n]; cbn; [lia|]. rewrite Hc. specialize (IH n). lia.
Qed.

Lemma rendered_head_short v b : (count_chars (rendered_head v b) <= LARGE_VALUE_PREVIEW_CHARS)%nat.
Proof. unfold rendered_head. case_match; apply count_take_chars. Qed.

Section prompt.
Context `{BlobHashes} `{JsonCodec} {W : Type} `{HostLaws W} `{HashOrder}.
Context (read_only : bool) (run_dir : string).
Implicit Types (w : W).

(** Escaping turns a byte of a string into at most six, between two quotes. *)
Context (json_text_bound : forall t b, json_to_vec (JString t) = Ok b -> str_len b <= 6 * str_len t + 2).

Notation Pass := (option bool * W)%type.
Notation demote := (demote_value_for_prompt read_only run_dir).

(** The marker of a value: the file of its blob, the size of its JSON and a head of it. *)
Definition demoted (max : Z) (v v' : Value) : Prop :=
  exists bytes path preview, json_to_vec v = Ok bytes /\ max < str_len bytes /\
    prompt_large_value v' = Some (mkLarge (str_len bytes) path preview) /\
    (count_chars preview <= LARGE_VALUE_PREVIEW_CHARS)%nat /\
    parse_managed_blob_file_ref ("file://" +:+ path) = Some (sha256 bytes).

(** A scalar, or a value whose JSON is within the limit. *)
Definition fits (max : Z) (v : Value) : Prop :=
  match v with
  | JNull | JBool _ | JNum _ => True
  | _ => exists bytes, json_to_vec v = Ok bytes /\ str_len bytes <= max
  end.

Lemma not_over_fits max v : max <= usize_max -> serialized_if_over v max = Ok None -> fits max v.
Proof.
  intros Hmax. unfold serialized_if_over, fits. destruct v as [| | |t|l|l]; try done.
  - destruct (json_roundtrip (JString t) eq_refl) as (b & Hb & _). pose proof (json_text_bound t b Hb) as Hlen. rewrite Hb.
    destruct (Z.leb_spec (Z.min (str_len t * 6) usize_max + 2) max) as [Hs|_].
    + intros _. exists b. split; [done|]. lia.
    + destruct (Z.ltb_spec max (str_len b)); [done|]. intros _. by exists b.
  - destruct (json_to_vec (JArray l)) as [b|]; [|done]. destruct (Z.ltb_spec max (str_len b)); [done|]. intros _. by exists b.
  - destruct (json_to_vec (JObject l)) as [b|]; [|done]. destruct (Z.ltb_spec max (str_len b)); [done|]. intros _. by exists b.
Qed.

(** What a value becomes in a prompt. *)
Definition prompt_form (max : Z) (v v' : Value) : Prop :=
  (v' = v /\ fits max v) \/
  (v' = v /\ exists s e s', demote max v s = (Err e, s')) \/
  demoted max v v'.

Lemma materialize_value_path bytes s p s' :
  materialize_value_bytes read_only run_dir bytes s = (Ok p, s') -> parse_managed_blob_file_ref ("file://" +:+ p) = Some (sha256 bytes).
Proof.
  unfold materialize_value_bytes, io_bind. destruct (is_local run_dir s) as [[[]|e] s1]; [| |done]; unfold on_world.
  - destruct (fill_local run_dir _ _ s1.2) as [[q|e] w] eqn:E; [|done]. intros [= <- _].
    apply fill_local_path in E as ->. apply local_path_managed.
  - destruct (fill_remote _ _ s1.2) as [[q|e] w] eqn:E; [|done]. intros [= <- _].
    apply fill_remote_path in E. by apply remote_path_managed.
Qed.

Lemma demote_form max v s r s' :
  demote max v s = (r, s') ->
  match r with
  | Ok (false, v') => v' = v /\ serialized_if_over v max = Ok None
  | Ok (true, v') => demoted max v v'
  | Err _ => True
  end.
Proof.
  unfold demote_value_for_prompt. destruct (serialized_if_over v max) as [[bytes|]|e] eqn:Hs.
  - apply serialized_if_over_json in Hs as [Hj Hlen]. unfold io_bind.
    destruct (materialize_value_bytes read_only run_dir bytes s) as [[p|e] s1] eqn:E; intros [= <- _]; [|done].
    exists bytes, p, (rendered_head v bytes). apply materialize_value_path in E. pose proof (rendered_head_short v bytes). done.
  - by intros [= <- _].
  - by intros [= <- _].
Qed.

Lemma demote_or_keep_form max v : max <= usize_max -> always (prompt_form max) (demote_or_keep read_only run_dir max) v.
Proof.
  intros Hmax s. unfold demote_or_keep. destruct (demote max v s) as [[[b v1]|e] s1] eqn:E.
  - exists v1, s1. split; [done|]. pose proof (demote_form _ _ _ _ _ E) as Hf. cbn in Hf. destruct b; [by right; right|].
    left. destruct Hf as [-> Hf]. split; [done|]. by apply not_over_fits.
  - exists v, s1. split; [done|]. right. left. split; [done|]. by exists s, e, s1.
Qed.

(** What an entry of the context becomes. *)
Definition prompt_entry (k : string) (v v' : Value) : Prop :=
  if is_preamble_hidden_key k then v' = v else prompt_form PROMPT_INLINE_VALUE_MAX v v'.

Definition prompt_updates : gmap string Value -> gmap string Value -> Prop :=
  mapwise_always (fun _ => prompt_form PROMPT_INLINE_VALUE_MAX).

(** Of the values a prompt is built from, a hidden one is untouched; any other is left
    as it is only when it is a scalar, its JSON is within the limit or its demotion failed, and is otherwise
    the marker of its blob's file, with the size of its JSON and at most 300 characters of
    it.  The same holds of every outcome's updates, and nothing else of the outcomes
    changes. *)
Theorem prompt_values_bounded {M} (values : gmap string Value) (outcomes : gmap string (Outcome M)) w :
  let '(values', outcomes', _) := demote_large_values_for_prompt read_only run_dir values outcomes w in
  mapwise_always prompt_entry values values' /\
  mapwise_always (fun _ o o' => exists updates,
      o' = with_context_updates (fun _ => updates) o /\ prompt_updates (context_updates o) updates) outcomes outcomes'.
Proof.
  unfold demote_large_values_for_prompt.
  destruct (mut_map_always prompt_entry (demote_context_entry read_only run_dir) values) with (s := (None : option bool, w)) as (m & s1 & -> & Hm).
  { intros k v _ s. unfold demote_context_entry, prompt_entry. destruct (is_preamble_hidden_key k); [by exists v, s|by apply demote_or_keep_form]. }
  destruct (mut_map_always (fun _ (o o' : Outcome M) => exists updates,
      o' = with_context_updates (fun _ => updates) o /\ prompt_updates (context_updates o) updates)
      (fun _ => demote_outcome read_only run_dir) outcomes) with (s := s1) as (os & s2 & -> & Hos).
  { intros k o _ s. unfold demote_outcome.
    destruct (mut_map_always (fun _ => prompt_form PROMPT_INLINE_VALUE_MAX) (fun _ => demote_or_keep read_only run_dir PROMPT_INLINE_VALUE_MAX) (context_updates o))
      with (s := s) as (u & s3 & -> & Hu).
    { intros j v _. by apply demote_or_keep_form. }
    eexists _, s3. split; [done|]. by exists u. }
  by split.
Qed.
End prompt.

(** ** A host *)

Module ArtifactHosts.

(** A codec: a string as it is, another value as a tree, the tree as a number, the number as
    its bits. *)
Fixpoint to_tree (v : Value) : gen_tree (option bool + (bool * Z) + string) :=
  match v with
  | JNull => GenLeaf (inl (inl None))
  | JBool b => GenLeaf (inl (inl (Some b)))
  | JNum (PosInt z) => GenLeaf (inl (inr (true, z)))
  | JNum (NegInt z) => GenLeaf (inl (inr (false, z)))
  | JNum (FloatNum _) => GenLeaf (inl (inl None))
  | JString s => GenLeaf (inr s)
  | JArray l => GenNode 0 (to_tree <$> l)
  | JObject l => GenNode 1 ((fun kv => GenNode 2 [GenLeaf (inr kv.1); to_tree kv.2]) <$> l)
  end.

Fixpoint of_tree (t : gen_tree (option bool + (bool * Z) + string)) : option Value :=
  match t with
  | GenLeaf (inl (inl None)) => Some JNull
  | GenLeaf (inl (inl (Some b))) => Some (JBool b)
  | GenLeaf (inl (inr (true, z))) => Some (JNum (PosInt z))
  | GenLeaf (inl (inr (false, z))) => Some (JNum (NegInt z))
  | GenLeaf (inr s) => Some (JString s)
  | GenNode 0 l => JArray <$> mapM of_tree l
  | GenNode 1 l => JObject <$> mapM (fun t => match t with
                                              | GenNode 2 [GenLeaf (inr k); t] => v ← of_tree t; Some (k, v)
                                              | _ => None
                                              end) l
  | GenNode _ _ => None
  end.

Fixpoint bits_of (p : positive) : string :=
  match p with xH => "" | xO p => String "0" (bits_of p) | xI p => String "1" (bits_of p) end.
Fixpoint of_bits (s : string) : positive :=
  match s with "" => xH | String c s => if Ascii.eqb c "0" then xO (of_bits s) else xI (of_bits s) end.

Lemma bits_back p : of_bits (bits_of p) = p.
Proof. induction p as [p IH|p IH|]; cbn; by rewrite ?IH. Qed.

Lemma mapM_back {A B C} (f : A -> B) (g : B -> option C) (h : A -> C) l :
  (forall a, a ∈ l -> g (f a) = Some (h a)) -> mapM g (f <$> l) = Some (h <$> l).
Proof.
  induction l as [|a l IH]; intros Hl; [done|]. cbn. rewrite Hl by set_solver. cbn. rewrite IH by set_solver. done.
Qed.

Lemma tree_back v : json_exact v = true -> of_tree (to_tree v) = Some v.
Proof.
  induction v as [| |n|s|l IH|l IH] using value_nested_ind; try done; intros Hv.
  - by destruct n.
  - cbn [to_tree of_tree]. rewrite (mapM_back to_tree of_tree id); [by rewrite list_fmap_id|].
    intros v Hin. eapply Forall_forall in IH; [|exact Hin]. apply IH. exact (forallb_elem _ _ _ Hv Hin).
  - apply andb_true_iff in Hv as [_ Hv]. cbn [to_tree of_tree].
    rewrite (mapM_back _ _ id); [by rewrite list_fmap_id|]. intros [k v] Hin. eapply Forall_forall in IH; [|exact Hin].
    cbn in *. rewrite IH; [done|]. exact (forallb_elem _ _ _ Hv Hin).
Qed.

Definition bit_text (v : Value) : string :=
  match v with JString t => String "s" t | _ => String "v" (bits_of (encode (to_tree v))) end.
Definition bit_value (s : string) : option Value :=
  match s with
  | String "s" t => Some (JString t)
  | String "v" b => t ← decode (of_bits b); of_tree t
  | _ => None
  end.

#[export] Instance bit_codec : JsonCodec.
Proof.
  refine {| json_to_vec := fun v => Ok (bit_text v);
            json_from_slice := fun b => match bit_value b with Some v => Ok v | None => Err "expected value" end;
            json_string_from_slice := fun b => match bit_value b with Some (JString s) => Ok s | _ => Err "expected a string" end |}.
  - intros v Hv. exists (bit_text v). split; [done|]. unfold bit_value, bit_text.
    destruct v; [..|done| |]; cbn match; rewrite bits_back, decode_encode; cbn [mbind option_bind]; by rewrite tree_back.
  - intros b s. destruct (bit_value b) as [[]|]; naive_solver.
Defined.

(** Two digests, of texts of even and of odd length. *)
Fixpoint repeat_char (n : nat) (c : ascii) : string := match n with O => "" | S n => String c (repeat_char n c) end.

#[export] Instance two_hashes : BlobHashes.
Proof.
  refine {| Hash := bool; sha256 := fun s => Nat.even (String.length s);
            hash_to_string := fun h => repeat_char 64 (if h : bool then "a" else "b");
            hash_from_str := fun s => if String.eqb s (repeat_char 64 "a") then Some true
                                      else if String.eqb s (repeat_char 64 "b") then Some false else None |}.
  - by intros [].
  - by intros [].
  - by intros [].
Defined.

(** The engine's own machine: the sandbox sees its files.  The disk has room for [dk_room]
    bytes in a file; a longer write stops there. *)
Record Disk := mkDisk { dk_blobs : gmap string string; dk_files : gmap string string; dk_room : nat }.

Definition put_file (p c : string) (d : Disk) : Disk := mkDisk (dk_blobs d) (<[p := c]> (dk_files d)) (dk_room d).

Definition disk_write (p c : string) (d : Disk) : result unit string * Disk :=
  if Nat.leb (String.length c) (dk_room d) then (Ok tt, put_file p c d)
  else (Err "No space left on device", put_file p (str_take (dk_room d) c) d).

#[export] Instance disk_table : BlobTable Disk.
Proof.
  refine {| table := dk_blobs;
            sql_insert := fun k v d => match dk_blobs d !! k with
                                       | Some _ => (Ok 0, d)
                                       | None => (Ok 1, mkDisk (<[k := v]> (dk_blobs d)) (dk_files d) (dk_room d))
                                       end;
            sql_select := fun k d => (Ok (dk_blobs d !! k), d);
            sql_exists := fun k d => (Ok (is_some (dk_blobs d !! k)), d) |}.
  - intros k v d n d'. destruct (dk_blobs d !! k) eqn:E; intros [= <- <-]; by intros.
  - intros k v d n d'. destruct (dk_blobs d !! k) eqn:E; intros [= <- <-]; by intros.
  - intros k v d e d'. by destruct (dk_blobs d !! k).
  - by intros k d r d' [= <- <-].
  - by intros k d r d' [= <- <-].
Defined.

#[export] Instance disk_host : ArtifactHost Disk := {|
  env_runtime_directory := None;
  env_working_directory := "/work";
  env_file_exists := fun p d => (Ok (String.eqb p "/run" || is_some (dk_files d !! p))%bool, d);
  env_write_file := disk_write;
  fs_exists := fun p d => is_some (dk_files d !! p);
  fs_create_dir_all := fun _ d => (Ok tt, d);
  fs_open_truncate := fun p d => (Ok tt, put_file p "" d);
  fs_write_all := disk_write;
  fs_read_to_string := fun p d => match dk_files d !! p with Some c => (Ok c, d) | None => (Err "not found", d) end
|}.

#[export] Instance disk_laws : HostLaws Disk.
Proof.
  split; try done; intros; cbn; unfold disk_write; repeat case_match; done.
Qed.

#[export] Instance map_order : HashOrder := {| hash_iter A m := map_to_list m; hash_iter_perm A m := reflexivity _ |}.

(** A table over the threshold, and a small value. *)
Definition sample_big : Value := JArray [JString (repeat_char 7000 "x")].
Definition sample_updates : gmap string Value := <["rows" := sample_big]> (<["note" := JString "hi"]> ∅).
Definition empty_disk : Disk := mkDisk ∅ ∅ 0.
Definition offloaded : result unit ArtifactError * gmap string Value * Disk := offload_large_values false sample_updates empty_disk.

Lemma offload_resolves_witness :
  offloaded.1.2 !! "rows" = Some (JString (format_blob_ref (sha256 (bit_text sample_big)))) /\
  exists w, resolve_json_value 4 (JString (format_blob_ref (sha256 (bit_text sample_big)))) offloaded.2 = Some (Ok sample_big, w).
Proof.
  assert (Hrows : offloaded.1.2 !! "rows" = Some (JString (format_blob_ref (sha256 (bit_text sample_big)))))
    by (vm_compute; reflexivity).
  split; [exact Hrows|].
  destruct offloaded as [[r m] d] eqn:E. unfold offloaded in E.
  pose proof (offload_resolves false sample_updates empty_disk r m d (fun _ _ => eq_refl)) as Hres.
  specialize (Hres ltac:(intros k v; unfold sample_updates; rewrite lookup_insert_Some, lookup_insert_Some;
    intros [[_ <-]|[_ [[_ <-]|[_ Hv]]]]; [vm_compute; reflexivity|reflexivity|by rewrite lookup_empty in Hv])).
  specialize (Hres E "rows"). cbn [fst snd] in Hrows. rewrite Hrows in Hres.
  assert (Hup : sample_updates !! "rows" = Some sample_big) by reflexivity. rewrite Hup in Hres.
  destruct (Hres 4%nat ltac:(cbn; lia)) as (w & Hw & _). exists w. exact Hw.
Defined.

(** A run on that disk, whose handler does nothing. *)
#[export] Instance no_meta : OutcomeMeta unit := tt.
Definition idle_handler (n : Node) (c : Context) (g : Graph) (d : Disk) : Dispatched unit * Context * Disk :=
  (Finished (Ok outcome_success), c, d).
Definition idle_services : Services unit Disk :=
  artifact_services "/run" (fun e => FailureDetail_new (artifact_error_to_string e) TransientInfra) (fun _ => false)
    (fun _ _ _ _ => None) idle_handler.

Definition sample_ref : Value := JString (format_blob_ref (sha256 (bit_text (JString "hello")))).
Definition sample_context : Context :=
  <["response.plan" := sample_ref]> (<["rows" := JArray [sample_ref]]> (<["n" := JNull]> ∅)).
Definition roomy_disk : Disk :=
  mkDisk {[hash_to_string (sha256 (bit_text (JString "hello"))) := bit_text (JString "hello")]} ∅ 1000.

Lemma idle_attempt_keeps_context_witness :
  let '(r, c', d) := execute_single_attempt (H0 := idle_services) (node_new "n") sample_context (graph_new "g") roomy_disk in
  c' = sample_context /\ is_ok r = true /\ size (dk_files d) = 1%nat.
Proof.
  pose proof (idle_attempt_keeps_context "/run" (fun e => FailureDetail_new (artifact_error_to_string e) TransientInfra) (fun _ => false)
    (fun _ _ _ _ => None) idle_handler (node_new "n") sample_context (graph_new "g") roomy_disk) as H.
  assert (Hplain : texts_plain roomy_disk).
  { intros h b t Hh Hb. unfold holds in Hh. cbn in Hh. apply lookup_singleton_Some in Hh as [_ <-].
    vm_compute in Hb. injection Hb as <-. reflexivity. }
  specialize (H Hplain (bool_decide_unpack (map_Forall (fun k v => settled k v = true) sample_context) ltac:(vm_compute; exact I))
                (fun s w1 => ex_intro _ _ (ex_intro _ _ eq_refl))).
  unfold idle_services.
  assert (Hrest : let '(r, _, d) := execute_single_attempt (H0 := idle_services) (node_new "n") sample_context (graph_new "g") roomy_disk in
            is_ok r = true /\ size (dk_files d) = 1%nat) by (vm_compute; split; reflexivity).
  unfold idle_services in Hrest.
  destruct (execute_single_attempt _ _ _ _) as [[r c'] d]. split; [exact H|exact Hrest].
Defined.

(** A small value passes, a large one is shown by its marker. *)
Lemma prompt_values_bounded_witness :
  let '(values', _, _) := demote_large_values_for_prompt (M := unit) false "/run"
    (<["rows" := sample_big]> (<["note" := JString "hi"]> ∅)) ∅ (mkDisk ∅ ∅ 200000) in
  mapwise_always (prompt_entry false "/run") (<["rows" := sample_big]> (<["note" := JString "hi"]> ∅)) values' /\
  values' !! "note" = Some (JString "hi") /\ is_some (v ← values' !! "rows"; prompt_large_value v) = true.
Proof.
  assert (Htext : forall t b, json_to_vec (JString t) = Ok b -> str_len b <= 6 * str_len t + 2).
  { intros t b [= <-]. unfold str_len. cbn [bit_text String.length]. lia. }
  pose proof (prompt_values_bounded false "/run" Htext (M := unit) (<["rows" := sample_big]> (<["note" := JString "hi"]> ∅)) ∅ (mkDisk ∅ ∅ 200000)) as H.
  assert (Hrest : let '(values', _, _) := demote_large_values_for_prompt (M := unit) false "/run"
    (<["rows" := sample_big]> (<["note" := JString "hi"]> ∅)) ∅ (mkDisk ∅ ∅ 200000) in
    values' !! "note" = Some (JString "hi") /\ is_some (v ← values' !! "rows"; prompt_large_value v) = true) by (vm_compute; split; reflexivity).
  destruct (demote_large_values_for_prompt _ _ _ _ _) as [[values' os] d]. split; [exact (proj1 H)|exact Hrest].
Defined.

(** ** A file that was cut short *)

Definition hello_ref : Value := JString (format_blob_ref (sha256 (bit_text (JString "hello")))).
Definition full_disk : Disk := mkDisk (dk_blobs roomy_disk) ∅ 3.

(** On a disk without room the first attempt to write a blob's file fails and leaves
    its first bytes behind; the second finds the file, takes it for the blob, and hands the
    handler a path to truncated data as if it were the value. *)
Theorem truncated_blob_served :
  let '(r1, v1, s1) := resolve_execution_value "/run" (Some "rows") hello_ref (None, full_disk) in
  let '(r2, v2, s2) := resolve_execution_value "/run" (Some "rows") v1 (None, s1.2) in
  is_ok r1 = false /\ v1 = hello_ref /\ r2 = Ok tt /\
  exists path, v2 = JString ("file://" +:+ path) /\
    dk_files s2.2 !! path = Some (str_take 3 (bit_text (JString "hello"))) /\
    str_take 3 (bit_text (JString "hello")) <> bit_text (JString "hello").
Proof.
  vm_compute. repeat split; try reflexivity. eexists. repeat split; try reflexivity. discriminate.
Qed.
End ArtifactHosts.
