(* ===== verification/Preamble.v ===== *)
(** * Prompt preambles (fabro-workflow/src/handler/llm/preamble.rs)

    What a stage that does not share its predecessor's conversation is told of the run so
    far: the goal, the finished stages and the context values, in an amount that depends on
    the fidelity.  The theorem is one of non-interference: of the context, a preamble shows
    the run id, the preamble of the parent workflow and the keys that are not hidden, and
    nothing else. *)

From S2P Require Import Prelude RustStr RustNum GraphTypes Context Outcome Failure Lint DecText EventKeys Blobs Artifact.
Local Open Scope string_scope.
Local Open Scope list_scope.

Definition INTERNAL_RUN_ID : string := "internal.run_id".
Definition INTERNAL_PARENT_PREAMBLE : string := "internal.parent_preamble".

Definition COMPACT_OUTPUT_MAX_LINES : nat := 25.
Definition SUMMARY_HIGH_OUTPUT_MAX_LINES : nat := 50.

Definition context_run_id (c : Context) : string := get_string c INTERNAL_RUN_ID "unknown".

(** [str::lines]: no line after a final newline, and no carriage return before a newline. *)
Definition strip_cr (s : string) : string := default s (strip_suffix (String "013" "") s).

Definition str_lines (s : string) : list string :=
  let pieces := split_char ch_newline s in
  (strip_cr <$> removelast pieces) ++ filterb (fun line => negb (str_is_empty line)) (option_list (last pieces)).

(** The model an outcome's usage was billed to ([usage.model_id()]). *)
Class UsageModel (M : Type) := usage_model_id : M -> option string.

Inductive SummaryDetail := DetailLow | DetailMedium | DetailHigh.

Section preamble.
Context {M : Type} `{HashOrder} `{JsonDisplay} `{FixedDisplay} `{UsageModel M}.
Implicit Types (o : Outcome M) (g : Graph) (c : Context).

Definition is_meta_handler g (node : string) : bool :=
  is_some_and (fun h => (String.eqb h "start" || String.eqb h "exit")%bool) (graph_nodes g !! node ≫= handler_type).

Definition is_blank_value (v : option Value) : bool := is_some_and str_is_empty (v ≫= value_as_str).

Definition ellipsis : string := String "226" (String "128" (String "166" "")).

Definition format_preview (preview continuation_indent : string) : string :=
  str_join (nl +:+ continuation_indent) (str_lines preview) +:+ ellipsis.

Definition format_value (v : Value) : string :=
  match prompt_large_value v with
  | Some large => location_summary large +:+ "; Preview: " +:+ format_preview (large_preview large) ""
  | None => match value_as_str v with Some s => s | None => value_to_string v end
  end.

Definition large_value_lines (label preview_indent : string) (large : PromptLargeValue) : list string :=
  [label +:+ " (" +:+ location_summary large +:+ ")";
   preview_indent +:+ "Preview: " +:+ format_preview (large_preview large) preview_indent].

Definition format_large_value_table_cell (large : PromptLargeValue) : string :=
  let bar := "|" in let escaped := "\|" in
  let summary := str_replace bar escaped (location_summary large) in
  let preview := str_replace bar escaped (str_join " " (split_whitespace (large_preview large))) in
  summary +:+ "; Preview: " +:+ preview +:+ ellipsis.

(** The lines come out one after the other, the first without a newline before it. *)
Definition tail_lines (text : string) (max_lines : nat) (indent : string) : string :=
  let lines := str_lines text in
  let omitted := (length lines - max_lines)%nat in
  let out := if Nat.ltb 0 omitted then indent +:+ "(" +:+ nat_to_string omitted +:+ " lines omitted)" else "" in
  foldl (fun out line => (if str_is_empty out then out else out +:+ nl) +:+ indent +:+ line) out (drop omitted lines).

Definition stage_rendered_keys (node : string) o : gset string :=
  list_to_set (filterb (fun k => is_some (context_updates o !! k)) [COMMAND_OUTPUT; LAST_STAGE; LAST_RESPONSE; response_key node]).

(** The output of a command: a marker, [artifact], empty, or its last lines. *)
Definition output_lines (item indent : string) (max_lines : nat) (artifact : Value -> option (list string)) (v : Value) : list string :=
  match prompt_large_value v with
  | Some large => large_value_lines (item +:+ "Output") indent large
  | None =>
      match artifact v with
      | Some lines => lines
      | None =>
          let output := format_value v in
          if str_is_empty (trim output) then [item +:+ "Output: (empty)"]
          else [item +:+ "Output:"; indent +:+ "```"; tail_lines (trim output) max_lines indent; indent +:+ "```"]
      end
  end.

Definition opt_line {A} (f : A -> string) (x : option A) : list string :=
  match x with Some a => [f a] | None => [] end.

Definition render_compact_stage_details (node : option Node) o : list string :=
  let handler := node ≫= handler_type in
  if opt_is "command" handler then
    opt_line (fun cmd => "  - Script: `" +:+ cmd +:+ "`") (node ≫= node_script)
    ++ match context_updates o !! COMMAND_OUTPUT with
       | Some v => output_lines "  - " "    " COMPACT_OUTPUT_MAX_LINES (fun _ => None) v
       | None => []
       end
  else if is_llm_handler_type handler then
    opt_line (fun m => "  - Model: " +:+ m) (usage_model_id (usage o))
    ++ (if negb (bool_decide (files_touched o = [])) then ["  - Files: " +:+ str_join ", " (files_touched o)] else [])
  else [].

(** The line of a value that is an artifact on disk. *)
Definition artifact_line (label : string) (v : Value) : option (list string) :=
  (fun path => ["- " +:+ label +:+ ": " +:+ format_artifact_reference path]) <$> artifact_path v.

Definition response_lines (v : Value) : list string :=
  match prompt_large_value v with
  | Some large => large_value_lines "- Response" "  " large
  | None =>
      match artifact_line "Response" v with
      | Some lines => lines
      | None =>
          let resp := format_value v in
          if str_is_empty resp then [] else "- Response:" :: ((fun line => "  > " +:+ line) <$> str_lines resp)
      end
  end.

Definition render_summary_high_stage_section (node_id : string) (node : option Node) o : list string :=
  let handler := node ≫= handler_type in
  [nl +:+ "## Stage: " +:+ node_id; "- Status: " +:+ StageOutcome_to_string (status o)]
  ++ opt_line (fun h => "- Handler: " +:+ h) handler
  ++ (if opt_is "command" handler then
        opt_line (fun cmd => "- Script: `" +:+ cmd +:+ "`") (node ≫= node_script)
        ++ match context_updates o !! COMMAND_OUTPUT with
           | Some v => output_lines "- " "  " SUMMARY_HIGH_OUTPUT_MAX_LINES (artifact_line "Output") v
           | None => []
           end
      else if is_llm_handler_type handler then
        opt_line (fun m => "- Model: " +:+ m) (usage_model_id (usage o))
        ++ (if negb (bool_decide (files_touched o = [])) then ["- Files touched: " +:+ str_join ", " (files_touched o)] else [])
        ++ match context_updates o !! response_key node_id with Some v => response_lines v | None => [] end
      else
        opt_line (fun n => "- Notes: " +:+ n) (notes o)
        ++ opt_line (fun r => "- Failure reason: " +:+ r) (failure_reason o)).

(** ** Context *)

Definition context_keys c (rendered_keys : gset string) : list string :=
  merge_sort String.le
    (filterb (fun k => (negb (is_preamble_hidden_key k) && negb (bool_decide (k ∈ rendered_keys)) && negb (is_blank_value (c !! k)))%bool)
       (hash_keys c)).

Definition context_line c (key : string) : list string :=
  match c !! key with
  | None => []
  | Some v =>
      match prompt_large_value v with
      | Some large => large_value_lines ("- " +:+ key) "  " large
      | None => ["- " +:+ key +:+ ": " +:+ format_value v]
      end
  end.

Definition append_filtered_context c (rendered_keys : gset string) : list string :=
  match context_keys c rendered_keys with
  | [] => []
  | keys => (nl +:+ "## Context") :: flat_map (context_line c) keys
  end.

Definition context_row c (key : string) : list string :=
  match c !! key with
  | None => []
  | Some v =>
      let rendered := match prompt_large_value v with Some large => format_large_value_table_cell large | None => format_value v end in
      ["| " +:+ key +:+ " | " +:+ rendered +:+ " |"]
  end.

Definition append_filtered_context_table c (rendered_keys : gset string) : list string :=
  match context_keys c rendered_keys with
  | [] => []
  | keys => (nl +:+ "## Current context") :: "| Key | Value |" :: "|-----|-------|" :: flat_map (context_row c) keys
  end.

(** ** Stages *)

(** The loop over the finished stages: a heading before the first that is shown, the lines
    of each, and the keys they have shown. *)
Section stages.
Context g (outcomes : gmap string (Outcome M)) (header : option string).
Context (shown : string -> option Node -> Outcome M -> list string) (unknown : string -> list string)
        (rendered : string -> Outcome M -> gset string).

Fixpoint stage_lines (header_emitted : bool) (nodes : list string) : list string * gset string :=
  match nodes with
  | [] => ([], ∅)
  | id :: nodes =>
      if is_meta_handler g id then stage_lines header_emitted nodes
      else
        let head := if header_emitted then [] else option_list header in
        let '(rest, keys) := stage_lines true nodes in
        match outcomes !! id with
        | Some o => (head ++ shown id (graph_nodes g !! id) o ++ rest, rendered id o ∪ keys)
        | None => (head ++ unknown id ++ rest, keys)
        end
  end.
End stages.

Definition join_parts (parts : list string) : string := str_join nl (parts ++ [""]).

Definition build_compact_preamble (goal : string) (completed : list string) (outcomes : gmap string (Outcome M)) c g : string :=
  let '(stages, rendered) := stage_lines g outcomes (Some (nl +:+ "## Completed stages"))
    (fun id node o => ("- **" +:+ id +:+ "**: " +:+ StageOutcome_to_string (status o)) :: render_compact_stage_details node o)
    (fun id => ["- **" +:+ id +:+ "**: completed"]) stage_rendered_keys false completed in
  join_parts (("Goal: " +:+ goal) :: stages ++ append_filtered_context c rendered).

(** The line of a stage in the shorter summaries. *)
Definition stage_line (id : string) o : string :=
  "- " +:+ id +:+ ": " +:+ StageOutcome_to_string (status o)
  +:+ match notes o with Some n => " (" +:+ n +:+ ")" | None => "" end
  +:+ match failure_reason o with Some r => " [reason: " +:+ r +:+ "]" | None => "" end.

Definition low_details (node : option Node) o : list string :=
  let handler := node ≫= handler_type in
  opt_line (fun h => "  - Handler: " +:+ h) handler
  ++ (if opt_is "command" handler then opt_line (fun cmd => "  - Script: `" +:+ cmd +:+ "`") (node ≫= node_script)
      else if is_llm_handler_type handler then opt_line (fun m => "  - Model: " +:+ m) (usage_model_id (usage o))
      else []).

(** The last [recent] stages, after a line on how many there were. *)
Definition recent_stages (recent : nat) (completed : list string) : list string * list string :=
  let count := length completed in
  let skipped := (count - recent)%nat in
  (("Completed " +:+ nat_to_string count +:+ " stage(s) so far.")
   :: (if Nat.ltb recent count then [nl +:+ "(" +:+ nat_to_string skipped +:+ " earlier stage(s) omitted)"] else []),
   if Nat.ltb recent count then drop skipped completed else completed).

Definition build_summary_preamble (goal run_id : string) (completed : list string) (outcomes : gmap string (Outcome M)) c g
    (detail : SummaryDetail) : string :=
  let body :=
    match detail with
    | DetailHigh =>
        let total_nodes := length (filterb (fun id => negb (is_meta_handler g id)) (hash_keys (graph_nodes g))) in
        let completed_count := length (filterb (fun id => negb (is_meta_handler g id)) completed) in
        let '(stages, rendered) := stage_lines g outcomes None render_summary_high_stage_section
          (fun id => [nl +:+ "## Stage: " +:+ id; "- Status: completed"]) stage_rendered_keys false completed in
        ("Pipeline progress: " +:+ nat_to_string completed_count +:+ " of " +:+ nat_to_string total_nodes +:+ " stages completed")
        :: stages ++ append_filtered_context_table c rendered
    | DetailMedium =>
        let '(intro, shown) := recent_stages 5 completed in
        let '(stages, rendered) := stage_lines g outcomes (Some (nl +:+ "Recent stages:"))
          (fun id node o => stage_line id o :: render_compact_stage_details node o)
          (fun id => ["- " +:+ id +:+ ": completed"]) stage_rendered_keys false shown in
        intro ++ stages ++ append_filtered_context c rendered
    | DetailLow =>
        let '(intro, shown) := recent_stages 2 completed in
        let '(stages, _) := stage_lines g outcomes (Some (nl +:+ "Recent stages:"))
          (fun id node o => stage_line id o :: low_details node o)
          (fun id => ["- " +:+ id +:+ ": completed"]) (fun _ _ => ∅) false shown in
        intro ++ stages
    end in
  join_parts (("Goal: " +:+ goal) :: ("Run ID: " +:+ run_id) :: body).

Definition build_preamble (fidelity : Fidelity) c g (completed : list string) (outcomes : gmap string (Outcome M)) : string :=
  let goal := graph_goal g in
  let run_id := context_run_id c in
  let preamble :=
    match fidelity with
    | FFull => ""
    | FTruncate => "Goal: " +:+ goal +:+ nl +:+ "Run ID: " +:+ run_id +:+ nl
    | FCompact => build_compact_preamble goal completed outcomes c g
    | FSummaryLow => build_summary_preamble goal run_id completed outcomes c g DetailLow
    | FSummaryMedium => build_summary_preamble goal run_id completed outcomes c g DetailMedium
    | FSummaryHigh => build_summary_preamble goal run_id completed outcomes c g DetailHigh
    end in
  let parent_preamble := get_string c INTERNAL_PARENT_PREAMBLE "" in
  if (negb (str_is_empty parent_preamble) && negb (str_is_empty preamble))%bool
  then "## Parent workflow context" +:+ nl +:+ parent_preamble +:+ nl +:+ nl +:+ "## Current sub-workflow" +:+ nl +:+ preamble
  else preamble.

(** ** What of the context is shown *)

Lemma context_keys_elem c rendered k :
  k ∈ context_keys c rendered <->
  is_preamble_hidden_key k = false /\ k ∉ rendered /\ is_Some (c !! k) /\ is_blank_value (c !! k) = false.
Proof.
  unfold context_keys. rewrite merge_sort_Permutation, filterb_elem, hash_keys_elem, !andb_true_iff, !negb_true_iff, bool_decide_eq_false.
  naive_solver.
Qed.

Lemma NoDup_filterb {A} (f : A -> bool) l : NoDup l -> NoDup (filterb f l).
Proof.
  induction 1 as [|x l Hx Hl IH]; [constructor|]. unfold filterb in *. cbn. destruct (f x); [|done].
  constructor; [|done]. intros [Hin _]%filterb_elem. done.
Qed.

Lemma context_keys_NoDup c rendered : NoDup (context_keys c rendered).
Proof. unfold context_keys. rewrite merge_sort_Permutation. apply NoDup_filterb, hash_keys_NoDup. Qed.

Lemma context_keys_sorted c rendered : Sorted String.le (context_keys c rendered).
Proof. unfold context_keys. apply Sorted_merge_sort, _. Qed.

Definition visibly_equal c1 c2 : Prop := forall k, is_preamble_hidden_key k = false -> c1 !! k = c2 !! k.

Lemma context_keys_visible c1 c2 rendered : visibly_equal c1 c2 -> context_keys c1 rendered = context_keys c2 rendered.
Proof.
  intros Hc. apply (Sorted_unique String.le); [apply context_keys_sorted..|].
  apply NoDup_Permutation; [apply context_keys_NoDup..|]. intros k. rewrite !context_keys_elem.
  destruct (is_preamble_hidden_key k) eqn:Hk; [naive_solver|]. by rewrite (Hc k Hk).
Qed.

Lemma flat_map_visible (f : Context -> string -> list string) c1 c2 rendered :
  (forall k, c1 !! k = c2 !! k -> f c1 k = f c2 k) -> visibly_equal c1 c2 ->
  flat_map (f c1) (context_keys c1 rendered) = flat_map (f c2) (context_keys c2 rendered).
Proof.
  intros Hf Hc. rewrite (context_keys_visible _ _ _ Hc).
  assert (Hl : Forall (fun k => is_preamble_hidden_key k = false) (context_keys c2 rendered)).
  { apply Forall_forall. intros k Hk. by apply context_keys_elem in Hk as [? _]. }
  induction Hl as [|k l Hk Hl IH]; [done|]. cbn. by rewrite IH, (Hf k (Hc k Hk)).
Qed.

Lemma append_context_visible c1 c2 rendered :
  visibly_equal c1 c2 -> append_filtered_context c1 rendered = append_filtered_context c2 rendered.
Proof.
  intros Hc. unfold append_filtered_context.
  pose proof (flat_map_visible context_line c1 c2 rendered ltac:(intros k Hk; unfold context_line; by rewrite Hk) Hc) as Hm.
  rewrite (context_keys_visible _ _ _ Hc) in *. destruct (context_keys c2 rendered); [done|]. by rewrite Hm.
Qed.

Lemma append_table_visible c1 c2 rendered :
  visibly_equal c1 c2 -> append_filtered_context_table c1 rendered = append_filtered_context_table c2 rendered.
Proof.
  intros Hc. unfold append_filtered_context_table.
  pose proof (flat_map_visible context_row c1 c2 rendered ltac:(intros k Hk; unfold context_row; by rewrite Hk) Hc) as Hm.
  rewrite (context_keys_visible _ _ _ Hc) in *. destruct (context_keys c2 rendered); [done|]. by rewrite Hm.
Qed.

(** Whatever the fidelity, the preamble of a stage shows of the context only the run
    id, the preamble of the parent workflow and the keys that are not hidden: contexts that
    agree on these give the same preamble, so no bookkeeping of the engine, no thread
    cursor and no other stage's response reaches a prompt through the context. *)
Theorem preamble_hides_internal_context f c1 c2 g completed (outcomes : gmap string (Outcome M)) :
  visibly_equal c1 c2 -> context_run_id c1 = context_run_id c2 ->
  get_string c1 INTERNAL_PARENT_PREAMBLE "" = get_string c2 INTERNAL_PARENT_PREAMBLE "" ->
  build_preamble f c1 g completed outcomes = build_preamble f c2 g completed outcomes.
Proof.
  intros Hc Hr Hp. unfold build_preamble. rewrite Hr, Hp. destruct f; try done.
  - unfold build_compact_preamble. destruct (stage_lines _ _ _ _ _ _ _ _) as [stages rendered].
    by rewrite (append_context_visible _ _ _ Hc).
  - unfold build_summary_preamble. destruct (recent_stages 5 completed) as [intro shown].
    destruct (stage_lines _ _ _ _ _ _ _ _) as [stages rendered]. by rewrite (append_context_visible _ _ _ Hc).
  - unfold build_summary_preamble. destruct (stage_lines _ _ _ _ _ _ _ _) as [stages rendered].
    by rewrite (append_table_visible _ _ _ Hc).
Qed.
End preamble.

(** ** Witnesses *)

Module PreambleWitness.
#[export] Instance no_display : JsonDisplay := {| number_to_string := fun _ => "0"; compound_to_string := fun _ => "{}" |}.
#[export] Instance no_fixed : FixedDisplay := fun _ => "0.0".
#[export] Instance no_usage : UsageModel unit := fun _ => None.
#[export] Instance listed : HashOrder := {| hash_iter A m := map_to_list m; hash_iter_perm A m := reflexivity _ |}.

Definition seen_context : Context := <["topic" := JString "login"]> (<[INTERNAL_RUN_ID := JString "r1"]> ∅).
Definition busy_context : Context := <["internal.thread_id" := JString "t"]> (<["response.plan" := JString "secret"]> seen_context).

Lemma preamble_hides_internal_context_witness :
  build_preamble FCompact busy_context (graph_new "g") [] (∅ : gmap string (Outcome unit)) =
    build_preamble FCompact seen_context (graph_new "g") [] ∅ /\
  build_preamble FCompact busy_context (graph_new "g") [] (∅ : gmap string (Outcome unit)) =
    "Goal: " +:+ nl +:+ nl +:+ "## Context" +:+ nl +:+ "- topic: login" +:+ nl.
Proof.
  split; [|vm_compute; reflexivity].
  apply (preamble_hides_internal_context FCompact busy_context seen_context); [|reflexivity..].
  intros k Hk. unfold busy_context. rewrite !lookup_insert_ne; [done|intros <-; discriminate Hk..].
Defined.

End PreambleWitness.
