(* ===== verification/Fidelity.v ===== *)
(** * Fidelity and threads (fabro-workflow/src/lifecycle/fidelity.rs)

    A sub-lifecycle that decides, before a node runs, how much of the run it is told and
    which conversation it continues, from the edge it was entered by, its own attributes and
    the graph's, and that puts the answer in the context for the handlers.  The edge is
    remembered when it is selected and used up by the next node; a run resumed in full
    fidelity starts with one node at a summary.

    The two mutexes are the state [FidelityState]; it and the host that the values are read
    from (blob store, sandbox, files) are two parts of the world. *)

From S2P Require Import Prelude RustStr RustNum Backoff GraphTypes Context Outcome Core Executor Condition Failure Routing Workflow.
From S2P Require Import WorkflowProps Lint DecText EventKeys Blobs Artifact ArtifactFacts Preamble.
Local Open Scope string_scope.
Local Open Scope list_scope.
Local Open Scope Z_scope.

(** ** Resolution *)

(** The fidelity an attribute names, if it names one. *)
Definition named_fidelity (attr : option string) : option Fidelity := attr ≫= Fidelity_from_str.

Definition explicit_fidelity (incoming : option Edge) (node : Node) : option Fidelity :=
  or_else (named_fidelity (incoming ≫= edge_fidelity)) (named_fidelity (node_fidelity node)).

Definition resolve_fidelity (incoming : option Edge) (node : Node) (g : Graph) : Fidelity :=
  match explicit_fidelity incoming node with
  | Some f => f
  | None => default Fidelity_default (named_fidelity (default_fidelity g))
  end.

Definition resolve_thread_id (incoming : option Edge) (node : Node) (g : Graph) (previous : option string) : option string :=
  match incoming ≫= edge_thread_id with
  | Some tid => Some tid
  | None =>
      match node_thread_id node with
      | Some tid => Some tid
      | None =>
          match default_thread g with
          | Some tid => Some tid
          | None => match head (node_classes node) with Some class => Some class | None => previous end
          end
      end
  end.

Record ParallelBranchFidelityResolution := mkBranchFidelity {
  pf_requested : option Fidelity;
  pf_effective : option Fidelity
}.

Definition resolve_parallel_branch_fidelity (edge : Edge) (target : Node) (parallel_fidelity : Fidelity) : ParallelBranchFidelityResolution :=
  let requested := explicit_fidelity (Some edge) target in
  mkBranchFidelity requested
    (opt_filter (fun f => negb (bool_decide (f = parallel_fidelity))) (degraded <$> requested)).

(** One entry of the stash, as JSON. *)
Definition ParallelBranchPreamble_value (f : Fidelity) (preamble : string) : Value :=
  JObject [("fidelity", JString (Fidelity_to_string f)); ("preamble", JString preamble)].

Record FidelityState := mkFidelity {
  incoming_edge_data : option Edge;
  degrade_fidelity_on_resume : bool
}.

Definition fidelity_new : FidelityState := mkFidelity None false.
Definition set_degrade_fidelity_on_resume (flag : bool) (f : FidelityState) : FidelityState := mkFidelity (incoming_edge_data f) flag.

Section fidelity.
Context {M W : Type} `{HashOrder} `{JsonDisplay} `{FixedDisplay} `{UsageModel M}.
Context `{BlobHashes} `{JsonCodec} {Host : Type} `{!ArtifactHost Host}.
Context (graph : Graph) (read_only : bool) (run_dir : string).
Context (get_host : W -> Host) (put_host : Host -> W -> W).
Context (get_fidelity : W -> FidelityState) (put_fidelity : FidelityState -> W -> W).
Implicit Types (s : ExecutionState M) (w : W).

(** ** The branches of a parallel node *)

(** The loop over the outgoing edges, with the table of fidelities already rendered. *)
Fixpoint branch_preambles (fork : Fidelity) (entry : Fidelity -> Value) (edges : list Edge)
    (preambles : list Value) (rendered : list (Fidelity * nat)) : list Value :=
  match edges with
  | [] => preambles
  | edge :: edges =>
      match graph_nodes graph !! edge_to edge with
      | None => branch_preambles fork entry edges (preambles ++ [JNull]) rendered
      | Some target =>
          match pf_effective (resolve_parallel_branch_fidelity edge target fork) with
          | None => branch_preambles fork entry edges (preambles ++ [JNull]) rendered
          | Some f =>
              match snd <$> find_first (fun r => bool_decide (r.1 = f)) rendered with
              | Some i => branch_preambles fork entry edges (preambles ++ [default JNull (preambles !! i)]) rendered
              | None => branch_preambles fork entry edges (preambles ++ [entry f]) ((f, length preambles) :: rendered)
              end
          end
      end
  end.

Definition build_parallel_branch_preambles (node : string) (fork : Fidelity) (resolved_context : Context)
    (resolved_outcomes : gmap string (Outcome M)) (completed : list string) : list Value :=
  branch_preambles fork
    (fun f => ParallelBranchPreamble_value f (build_preamble f resolved_context graph completed resolved_outcomes))
    (outgoing_edges graph node) [] [].

(** ** The callbacks *)

Definition fidelity_on_run_start : Graph -> callback M W unit := fun _ s w =>
  (Ok tt, st_context s, put_fidelity (mkFidelity None (degrade_fidelity_on_resume (get_fidelity w))) w).

Definition is_parallel (node : Node) : bool := opt_is "parallel" (handler_type node).

(** Which of the copies for the preamble are cut to size. *)
Definition preamble_renders_values (f : Fidelity) (node : Node) : bool :=
  (match f with FFull | FTruncate => false | _ => true end || is_parallel node)%bool.

(** The copies of the context and of the outcomes that the preambles are built from. *)
Definition preamble_sources (f : Fidelity) (node : Node) (c : Context) (outcomes : gmap string (Outcome M)) (w : Host)
    : result (Context * gmap string (Outcome M)) ArtifactError * Host :=
  match resolved_context_snapshot run_dir c w with
  | (Err e, w) => (Err e, w)
  | (Ok values, w) =>
      match resolve_outcomes_for_execution run_dir outcomes w with
      | (Err e, w) => (Err e, w)
      | (Ok resolved, w) =>
          if preamble_renders_values f node then
            let '(values, resolved, w) := demote_large_values_for_prompt read_only run_dir values resolved w in
            (Ok (context_from_values values, resolved), w)
          else (Ok (context_from_values values, resolved), w)
      end
  end.

Definition set_thread_keys (node : Node) (thread_id : option string) (c : Context) : Context :=
  match thread_id with
  | Some tid => ctx_set INTERNAL_THREAD_ID (JString tid) (ctx_set (thread_current_node_key tid) (JString (node_id node)) c)
  | None => ctx_set INTERNAL_THREAD_ID JNull c
  end.

(** The last keys: thread, node and visit. *)
Definition set_node_keys (node : Node) (tid : option string) (visit : Z) (c : Context) : Context :=
  ctx_set INTERNAL_NODE_VISIT_COUNT (JNum (PosInt visit)) (ctx_set CURRENT_NODE (JString (node_id node)) (set_thread_keys node tid c)).

Definition fidelity_before_node (node : Node) : callback M W (NodeDecision M) := fun s w =>
  let c := ctx_set INTERNAL_PARALLEL_BRANCH_PREAMBLES JNull (st_context s) in
  let incoming := incoming_edge_data (get_fidelity w) in
  let degrade := degrade_fidelity_on_resume (get_fidelity w) in
  let resolved := resolve_fidelity incoming node graph in
  let fidelity := if degrade then degraded resolved else resolved in
  let w := put_fidelity (mkFidelity None false) w in
  let c := ctx_set INTERNAL_FIDELITY (JString (Fidelity_to_string fidelity)) c in
  let '(sources, host) := preamble_sources fidelity node c (node_outcomes s) (get_host w) in
  let w := put_host host w in
  match sources with
  | Err e => (Err (OtherError (artifact_error_to_string e)), c, w)
  | Ok (resolved_context, resolved_outcomes) =>
      let c := ctx_set CURRENT_PREAMBLE
                 (JString (build_preamble fidelity resolved_context graph (completed_nodes s) resolved_outcomes)) c in
      let c := if is_parallel node then
                 ctx_set INTERNAL_PARALLEL_BRANCH_PREAMBLES
                   (JArray (build_parallel_branch_preambles (node_id node) fidelity resolved_context resolved_outcomes (completed_nodes s))) c
               else c in
      let thread_id := resolve_thread_id incoming node graph (previous_node_id s) in
      let visits := default 1 (node_visits s !! node_id node) in
      (Ok NContinue, set_node_keys node thread_id visits c, w)
  end.

Definition fidelity_on_edge_selected (x : EdgeContext Edge M) : callback M W EdgeDecision := fun s w =>
  let w := match ec_edge x with
           | Some edge => put_fidelity (mkFidelity (Some edge) (degrade_fidelity_on_resume (get_fidelity w))) w
           | None => w
           end in
  (Ok EContinue, st_context s, w).

Definition FidelityLifecycle : RunLifecycle Graph Node Edge M W :=
  let base : RunLifecycle Graph Node Edge M W := NoopLifecycle in
  mkLifecycle fidelity_on_run_start (on_terminal_reached base) fidelity_before_node (before_attempt base)
    (after_attempt base) (after_node base) (after_record base) fidelity_on_edge_selected (on_checkpoint base) (on_run_end base).

(** ** Rendering once is rendering each time *)

(** The stash, each branch on its own. *)
Definition branch_entry (fork : Fidelity) (entry : Fidelity -> Value) (edge : Edge) : Value :=
  match graph_nodes graph !! edge_to edge ≫= fun target => pf_effective (resolve_parallel_branch_fidelity edge target fork) with
  | Some f => entry f
  | None => JNull
  end.

Lemma branch_preambles_entries fork entry edges : forall preambles rendered,
  (forall f i, (f, i) ∈ rendered -> preambles !! i = Some (entry f)) ->
  branch_preambles fork entry edges preambles rendered = preambles ++ (branch_entry fork entry <$> edges).
Proof.
  induction edges as [|e edges IH]; intros ps rs Hrs; [cbn; by rewrite app_nil_r|].
  assert (Hmore : forall v f i, (f, i) ∈ rs -> (ps ++ [v]) !! i = Some (entry f)).
  { intros v f i Hi. apply lookup_app_l_Some. by apply Hrs. }
  assert (Hnext : forall v rs', (forall f i, (f, i) ∈ rs' -> (ps ++ [v]) !! i = Some (entry f)) -> branch_entry fork entry e = v ->
    branch_preambles fork entry edges (ps ++ [v]) rs' = ps ++ (branch_entry fork entry <$> e :: edges)).
  { intros v rs' Hrs' <-. rewrite IH by done. by rewrite <- app_assoc. }
  assert (Hentry : branch_entry fork entry e = match graph_nodes graph !! edge_to e with
    | Some t => match pf_effective (resolve_parallel_branch_fidelity e t fork) with Some f => entry f | None => JNull end
    | None => JNull end) by (unfold branch_entry; by destruct (graph_nodes graph !! edge_to e)).
  cbn [branch_preambles]. destruct (graph_nodes graph !! edge_to e) as [t|]; [|by apply Hnext; [apply Hmore|]].
  destruct (pf_effective _) as [f|]; [|by apply Hnext; [apply Hmore|]].
  destruct (find_first _ rs) as [[f' i]|] eqn:Hfind; cbn [fmap option_fmap option_map snd].
  - apply find_first_Some_elem in Hfind as [Hin Heq%bool_decide_eq_true]. cbn in Heq. subst f'. rewrite (Hrs _ _ Hin). by apply Hnext; [apply Hmore|].
  - apply Hnext; [|done]. intros f' i [[= -> ->]|Hin]%elem_of_cons; [|by apply Hmore].
    by rewrite lookup_app_r, Nat.sub_diag by lia.
Qed.

(** ** The callback *)

(** The keys the callback owns. *)
Definition fidelity_keys (thread_id : option string) : list string :=
  [INTERNAL_FIDELITY; CURRENT_PREAMBLE; INTERNAL_PARALLEL_BRANCH_PREAMBLES; INTERNAL_THREAD_ID; CURRENT_NODE;
   INTERNAL_NODE_VISIT_COUNT] ++ (thread_current_node_key <$> option_list thread_id).

(** Reading a context after a chain of sets. *)
Lemma ctx_set_same k v (c : Context) : ctx_set k v c !! k = Some v.
Proof. apply lookup_insert_eq. Qed.
Lemma ctx_set_other k j v (c : Context) : k <> j -> ctx_set k v c !! j = c !! j.
Proof. apply lookup_insert_ne. Qed.

Lemma thread_key_apart tid k : starts_with THREAD_PREFIX k = false -> thread_current_node_key tid <> k.
Proof. unfold thread_current_node_key. intros Hk <-. unfold starts_with in Hk. by rewrite strip_prefix_append in Hk. Qed.

Lemma set_thread_other node tid c k :
  INTERNAL_THREAD_ID <> k -> k ∉ thread_current_node_key <$> option_list tid -> set_thread_keys node tid c !! k = c !! k.
Proof.
  intros Hk Hin. unfold set_thread_keys. destruct tid as [t|]; [|by rewrite ctx_set_other].
  rewrite !ctx_set_other; [done| |done]. intros <-. apply Hin. cbn. set_solver.
Qed.

Lemma set_thread_plain node tid c k :
  INTERNAL_THREAD_ID <> k -> starts_with THREAD_PREFIX k = false -> set_thread_keys node tid c !! k = c !! k.
Proof.
  intros Hk Hp. apply set_thread_other; [done|]. destruct tid as [t|]; cbn; [|by intros ?%elem_of_nil].
  intros ->%list_elem_of_singleton. by eapply thread_key_apart.
Qed.

Ltac ctx_read := repeat first [rewrite ctx_set_same | rewrite ctx_set_other by done | rewrite set_thread_plain by done].

Lemma set_node_keys_spec node tid visit c :
  let c' := set_node_keys node tid visit c in
  c' !! INTERNAL_THREAD_ID = Some (match tid with Some t => JString t | None => JNull end) /\
  (forall t, tid = Some t -> c' !! thread_current_node_key t = Some (JString (node_id node))) /\
  c' !! CURRENT_NODE = Some (JString (node_id node)) /\ c' !! INTERNAL_NODE_VISIT_COUNT = Some (JNum (PosInt visit)).
Proof.
  cbv zeta. unfold set_node_keys. split; [|split; [|by split; ctx_read]].
  - ctx_read. unfold set_thread_keys. by destruct tid; ctx_read.
  - intros t ->. rewrite !(ctx_set_other _ (thread_current_node_key t)) by (apply not_eq_sym; by apply thread_key_apart).
    unfold set_thread_keys. rewrite (ctx_set_other _ (thread_current_node_key t)) by (apply not_eq_sym; by apply thread_key_apart).
    by ctx_read.
Qed.

Lemma set_node_keys_other node tid visit c k :
  k ∉ [INTERNAL_THREAD_ID; CURRENT_NODE; INTERNAL_NODE_VISIT_COUNT] ++ (thread_current_node_key <$> option_list tid) ->
  set_node_keys node tid visit c !! k = c !! k.
Proof.
  intros Hk. unfold set_node_keys. rewrite !ctx_set_other by set_solver. apply set_thread_other; set_solver.
Qed.

(** What [before_node] resolves, from the state it finds. *)
Definition node_fidelity_now (node : Node) w : Fidelity :=
  let f := resolve_fidelity (incoming_edge_data (get_fidelity w)) node graph in
  if degrade_fidelity_on_resume (get_fidelity w) then degraded f else f.
Definition node_thread_now (node : Node) s w : option string :=
  resolve_thread_id (incoming_edge_data (get_fidelity w)) node graph (previous_node_id s).

(** What the handlers of the node find in the context. *)
Definition fidelity_context node s (w0 : W) (sources : Context * gmap string (Outcome M)) (c c' : Context) : Prop :=
  let f := node_fidelity_now node w0 in
  let tid := node_thread_now node s w0 in
  let preamble f := build_preamble f sources.1 graph (completed_nodes s) sources.2 in
  c' !! INTERNAL_FIDELITY = Some (JString (Fidelity_to_string f)) /\
  c' !! CURRENT_PREAMBLE = Some (JString (preamble f)) /\
  c' !! INTERNAL_PARALLEL_BRANCH_PREAMBLES = Some (
    if is_parallel node
    then JArray (branch_entry f (fun f => ParallelBranchPreamble_value f (preamble f)) <$> outgoing_edges graph (node_id node))
    else JNull) /\
  c' !! INTERNAL_THREAD_ID = Some (match tid with Some t => JString t | None => JNull end) /\
  (forall t, tid = Some t -> c' !! thread_current_node_key t = Some (JString (node_id node))) /\
  c' !! CURRENT_NODE = Some (JString (node_id node)) /\
  c' !! INTERNAL_NODE_VISIT_COUNT = Some (JNum (PosInt (default 1 (node_visits s !! node_id node)))) /\
  forall k, k ∉ fidelity_keys tid -> c' !! k = c !! k.

Context (put_get : forall f w, get_fidelity (put_fidelity f w) = f).
Context (host_apart : forall h w, get_fidelity (put_host h w) = get_fidelity w).

(** [before_node] uses up the remembered edge and the degradation, whether it fails or
    not.  When the values it needs can be read, the context the handlers of the node find
    has the fidelity resolved by edge, node, graph and default (at a summary if degraded),
    the preamble of that fidelity, for a parallel node one entry per outgoing edge in their
    order (rendered as if each were rendered alone), the thread resolved by edge, node,
    graph, class and previous node, the node and its visit; every other key is as it was. *)
Theorem fidelity_before_node_context node s w :
  let '(r, c, w') := fidelity_before_node node s w in
  get_fidelity w' = mkFidelity None false /\
  match r with
  | Err _ => True
  | Ok d => d = NContinue /\ exists sources, fidelity_context node s w sources (st_context s) c
  end.
Proof.
  unfold fidelity_before_node. fold (node_fidelity_now node w) (node_thread_now node s w).
  set (f := node_fidelity_now node w). set (tid := node_thread_now node s w).
  set (c1 := ctx_set INTERNAL_FIDELITY _ _). set (w1 := put_fidelity _ w).
  destruct (preamble_sources f node c1 (node_outcomes s) (get_host w1)) as [r h]. subst w1.
  destruct r as [[rc ro]|e]; rewrite host_apart, put_get; [|done]. split; [done|]. split; [done|]. exists (rc, ro).
  unfold fidelity_context. cbn [fst snd]. fold f tid.
  unfold build_parallel_branch_preambles. rewrite branch_preambles_entries by (intros ? ? Hin; by apply elem_of_nil in Hin).
  rewrite app_nil_l. match goal with |- context [set_node_keys node tid ?v ?c] => set (c3 := c) end.
  destruct (set_node_keys_spec node tid (default 1 (node_visits s !! node_id node)) c3) as (Ht1 & Ht2 & Ht3 & Ht4).
  assert (Hold : forall k, k ∉ [INTERNAL_THREAD_ID; CURRENT_NODE; INTERNAL_NODE_VISIT_COUNT] -> starts_with THREAD_PREFIX k = false ->
            set_node_keys node tid (default 1 (node_visits s !! node_id node)) c3 !! k = c3 !! k).
  { intros k Hk Hp. apply set_node_keys_other. apply not_elem_of_app. split; [done|].
    destruct tid; cbn; [|by intros ?%elem_of_nil]. intros ->%list_elem_of_singleton. by eapply thread_key_apart. }
  split; [|split; [|split; [|split; [exact Ht1|split; [exact Ht2|split; [exact Ht3|split; [exact Ht4|]]]]]]].
  1-3: rewrite Hold by (done || set_solver); subst c3 c1; destruct (is_parallel node); by ctx_read.
  intros k Hk. rewrite set_node_keys_other by (unfold fidelity_keys in Hk; set_solver).
  subst c3 c1. unfold fidelity_keys in Hk. destruct (is_parallel node); rewrite !ctx_set_other by set_solver; done.
Qed.
End fidelity.

(** ** A goal gate that sends the run back

    [start -> work -> exit]: a failed [work] leaves by an edge in full fidelity; [work] is a
    goal gate, so the exit sends the run back to it. *)
Module FidelityRuns.
Import PreambleWitness ArtifactHosts.

(** The log has what the handlers found as their fidelity. *)
Record RunWorld := mkRunWorld { rw_fidelity : FidelityState; rw_disk : Disk; rw_log : list (string * option Value) }.
Definition put_rw_fidelity (f : FidelityState) (w : RunWorld) : RunWorld := mkRunWorld f (rw_disk w) (rw_log w).
Definition put_rw_disk (d : Disk) (w : RunWorld) : RunWorld := mkRunWorld (rw_fidelity w) d (rw_log w).

#[export] Instance run_regex : Regex := {| re_valid := fun _ => true; re_is_match := fun p s => str_contains p s |}.
#[export] Instance run_replace : RegexReplace := fun _ s _ => s.
#[export] Instance run_dice : Dice RunWorld := fun _ w => (f64_zero, w).

(** [work] fails the first time. *)
Definition run_dispatch (n : Node) (c : Context) (g : Graph) (w : RunWorld) : Dispatched unit * Context * RunWorld :=
  let w' := mkRunWorld (rw_fidelity w) (rw_disk w) (rw_log w ++ [(node_id n, c !! INTERNAL_FIDELITY)]) in
  let first := negb (str_mem "work" (fst <$> rw_log w)) in
  (Finished (Ok (if (String.eqb (node_id n) "work" && first)%bool then outcome_fail "boom" else outcome_success)), c, w').

#[export] Instance run_services : Services unit RunWorld := {|
  handler_context := fun c w => (Ok c, w);
  edge_context := fun c w => (Ok c, w);
  durable_form := fun u => u;
  manages_timeout := fun _ => false;
  times_out := fun _ _ _ _ => None;
  dispatch_handler := run_dispatch
|}.
#[export] Instance run_runtime : Runtime RunWorld := {|
  elapsed := fun _ => 0; sleep := fun _ w => w; is_cancelled := fun _ => false; stall_race := fun _ _ _ => None;
  draw_jitter := fun w => (f64_of_Z 1, w)
|}.

Definition node_with (id : string) (attrs : list (string * AttrValue)) : Node := mkNode id (list_to_map attrs) [].
Definition edge_with (from to : string) (attrs : list (string * AttrValue)) : Edge :=
  mkEdge from to (list_to_map attrs).

Definition gate_graph : Graph :=
  mkGraph "gate"
    (<["start" := node_with "start" [("shape", AString "Mdiamond")]]>
     (<["work" := node_with "work" [("goal_gate", ABoolean true); ("retry_target", AString "work"); ("on_failure", AString "route"); ("max_retries", AInteger 0)]]>
      {["exit" := node_with "exit" [("shape", AString "Msquare")]]}))
    [edge_with "start" "work" []; edge_with "work" "exit" [("condition", AString "outcome=failed"); ("fidelity", AString "full")];
     edge_with "work" "exit" []]
    {["max_node_visits" := AInteger 3]}.

Definition run_start : Mach unit RunWorld := mkMach (state_at "start") (mkRunWorld fidelity_new empty_disk []) [].
Definition run_lifecycle : RunLifecycle Graph Node Edge unit RunWorld :=
  FidelityLifecycle gate_graph false "/run" rw_disk put_rw_disk rw_fidelity put_rw_fidelity.

(** A run that a goal gate sends back from the exit enters its retry target with the
    fidelity of the edge it had reached the exit by: the exit never runs [before_node], so
    the edge is still remembered.  Here the second execution of [work], which no edge
    leads back to, is told nothing of the run because the edge to the exit is in full
    fidelity. *)
Theorem gate_retry_inherits_exit_edge :
  match workflow_run run_lifecycle gate_graph false 20 run_start with
  | Some (Val o, m) =>
      status o = Succeeded /\
      rw_log (m_world m) = [("start", Some (JString "compact")); ("work", Some (JString "compact")); ("work", Some (JString "full"))]
  | _ => False
  end.
Proof. vm_compute. split; reflexivity. Qed.

Definition full_edge : Edge := edge_with "work" "exit" [("fidelity", AString "full")].
Definition resumed_world : RunWorld := mkRunWorld (mkFidelity (Some full_edge) true) empty_disk [].

Lemma fidelity_before_node_context_witness :
  let '(r, c, w') := fidelity_before_node (M := unit) gate_graph false "/run" rw_disk put_rw_disk rw_fidelity put_rw_fidelity
    (node_with "work" []) (state_at "work") resumed_world in
  rw_fidelity w' = fidelity_new /\ is_ok r = true /\ c !! INTERNAL_FIDELITY = Some (JString "summary:high").
Proof.
  pose proof (fidelity_before_node_context (M := unit) gate_graph false "/run" rw_disk put_rw_disk rw_fidelity put_rw_fidelity
    (fun f w => eq_refl) (fun h w => eq_refl) (node_with "work" []) (state_at "work") resumed_world) as H.
  assert (Hok : is_ok (fidelity_before_node (M := unit) gate_graph false "/run" rw_disk put_rw_disk rw_fidelity put_rw_fidelity
    (node_with "work" []) (state_at "work") resumed_world).1.1 = true) by (vm_compute; reflexivity).
  destruct (fidelity_before_node _ _ _ _ _ _ _ _ _ _) as [[r c] w']. destruct H as [Hf Hr]. split; [exact Hf|].
  split; [exact Hok|]. destruct r as [d|e]; [|discriminate Hok]. destruct Hr as [_ [sources Hc]].
  destruct Hc as [Hfid _]. rewrite Hfid. vm_compute. reflexivity.
Defined.
End FidelityRuns.
