(* ===== verification/Hooks.v ===== *)
(** * Workflow hooks (crates fabro-hooks, and lifecycle/hook.rs of fabro-workflow)

    A hook is a command, a request, a model call or a small agent, run on an event of the
    run; the answer of a blocking hook can stop the run, skip a stage or redirect an edge.
    The file has the definitions of hooks (fabro-types/src/settings/run.rs), how hook lists
    merge (config.rs), decisions and contexts (types.rs), the executor of one hook
    (executor.rs), the runner of all the hooks of an event (runner.rs), the bridge to the
    tools of an agent (bridge.rs) and the callbacks of a run (lifecycle/hook.rs).

    Parameters are what the executor calls: the sandbox, a child process, the HTTP client,
    the model client and the tools of an agent, the clock, [tokio::time::timeout] (class
    [HookHost]); the JSON codec of the types involved (class [HookCodec]); and the regex
    crate (class [RegexEngine]).  Log lines are left out. *)

From S2P Require Import Prelude RustStr DecText Outcome Context GraphTypes Core Failure EventKeys Interp.
Local Open Scope string_scope.
Local Open Scope list_scope.
Local Open Scope Z_scope.

(** ** Definitions (settings/run.rs) *)

Inductive TlsMode := TlsVerify | TlsNoVerify | TlsOff.

(** [{tls:?}]. *)
Definition TlsMode_debug (tls : TlsMode) : string :=
  match tls with TlsVerify => "Verify" | TlsNoVerify => "NoVerify" | TlsOff => "Off" end.

Inductive HookType :=
| HookCommand (command : InterpString)
| HookHttp (url : InterpString) (headers : option (gmap string InterpString)) (tls : TlsMode)
| HookPrompt (prompt : InterpString) (model : option InterpString)
| HookAgent (prompt : InterpString) (model : option InterpString) (max_tool_rounds : option Z).

Inductive HookEvent :=
| EvRunStart | EvRunComplete | EvRunFailed | EvStageStart | EvStageComplete | EvStageFailed | EvStageRetrying
| EvEdgeSelected | EvParallelStart | EvParallelComplete | EvSandboxReady | EvSandboxCleanup | EvCheckpointSaved
| EvPreToolUse | EvPostToolUse | EvPostToolUseFailure.

#[export] Instance HookEvent_eq_dec : EqDecision HookEvent.
Proof. solve_decision. Defined.

Definition HookEvent_to_string (e : HookEvent) : string :=
  match e with
  | EvRunStart => "run_start" | EvRunComplete => "run_complete" | EvRunFailed => "run_failed"
  | EvStageStart => "stage_start" | EvStageComplete => "stage_complete" | EvStageFailed => "stage_failed"
  | EvStageRetrying => "stage_retrying" | EvEdgeSelected => "edge_selected" | EvParallelStart => "parallel_start"
  | EvParallelComplete => "parallel_complete" | EvSandboxReady => "sandbox_ready" | EvSandboxCleanup => "sandbox_cleanup"
  | EvCheckpointSaved => "checkpoint_saved" | EvPreToolUse => "pre_tool_use" | EvPostToolUse => "post_tool_use"
  | EvPostToolUseFailure => "post_tool_use_failure"
  end.

Definition is_blocking_by_default (e : HookEvent) : bool :=
  match e with EvRunStart | EvStageStart | EvEdgeSelected | EvPreToolUse | EvSandboxReady => true | _ => false end.

Record HookDefinition := mkHook {
  hd_name : option string;
  hd_event : HookEvent;
  hd_command : option InterpString;
  hd_type : option HookType;
  hd_matcher : option string;
  hd_blocking : option bool;
  hd_timeout_ms : option Z;
  hd_sandbox : option bool
}.

Definition resolved_hook_type (h : HookDefinition) : option HookType :=
  match hd_type h with Some t => Some t | None => HookCommand <$> hd_command h end.

Definition is_blocking (h : HookDefinition) : bool := default (is_blocking_by_default (hd_event h)) (hd_blocking h).

Definition hook_timeout (h : HookDefinition) : Z :=
  match hd_timeout_ms h with
  | Some ms => ms
  | None => match resolved_hook_type h with Some (HookPrompt _ _) => 30000 | _ => 60000 end
  end.

Definition runs_in_sandbox (h : HookDefinition) : bool := default true (hd_sandbox h).

Definition effective_name (h : HookDefinition) : string :=
  match hd_name h with
  | Some name => name
  | None =>
      let event := HookEvent_to_string (hd_event h) in
      match resolved_hook_type h with
      | Some (HookCommand command) => event +:+ ":" +:+ floor_slice 20 (as_source command)
      | Some (HookHttp url _ _) => event +:+ ":" +:+ as_source url
      | Some (HookPrompt prompt _) | Some (HookAgent prompt _ _) => event +:+ ":" +:+ floor_slice 20 (as_source prompt)
      | None => event
      end
  end.

(** ** Merging two lists of hooks (config.rs) *)

Abbreviation HookSettings := (list HookDefinition).

(** A loop of [merge]: the definitions by name, and the names in order of appearance. *)
Fixpoint merge_hooks (hooks : list HookDefinition) (acc : gmap string HookDefinition * list string) : gmap string HookDefinition * list string :=
  match hooks with
  | [] => acc
  | hook :: hooks =>
      let '(by_name, order) := acc in
      let name := effective_name hook in
      let order := match by_name !! name with Some _ => order | None => order ++ [name] end in
      merge_hooks hooks (<[name := hook]> by_name, order)
  end.

(** [filter_map] of [by_name.remove]. *)
Fixpoint take_named (by_name : gmap string HookDefinition) (order : list string) : list HookDefinition :=
  match order with
  | [] => []
  | name :: order => option_list (by_name !! name) ++ take_named (delete name by_name) order
  end.

Definition HookSettings_merge (self other : HookSettings) : HookSettings :=
  let '(by_name, order) := merge_hooks other (merge_hooks self (∅, [])) in
  take_named by_name order.

(** ** Contexts and decisions (types.rs) *)

Record HookContext := mkHookContext {
  hc_event : HookEvent;
  hc_run_id : string;
  hc_workflow_name : string;
  hc_cwd : option string;
  hc_node_id : option string;
  hc_node_label : option string;
  hc_handler_type : option string;
  hc_status : option string;
  hc_edge_from : option string;
  hc_edge_to : option string;
  hc_edge_label : option string;
  hc_failure_reason : option string;
  hc_attempt : option Z;
  hc_max_attempts : option Z;
  hc_tool_name : option string;
  hc_tool_input : option Value;
  hc_tool_call_id : option string;
  hc_tool_output : option string;
  hc_error_message : option string
}.

Definition HookContext_new (event : HookEvent) (run_id workflow_name : string) : HookContext :=
  mkHookContext event run_id workflow_name None None None None None None None None None None None None None None None None.

Record PromptHookResponse := mkPromptResponse { phr_ok : bool; phr_reason : option string }.

Inductive HookDecision :=
| HProceed
| HSkip (reason : option string)
| HBlock (reason : option string)
| HOverride (edge_to : string).

#[export] Instance HookDecision_eq_dec : EqDecision HookDecision.
Proof. solve_decision. Defined.

Definition hook_merge (self other : HookDecision) : HookDecision :=
  match self, other with
  | HBlock _, _ => self
  | _, HBlock _ => other
  | (HSkip _ | HOverride _), _ => self
  | _, (HSkip _ | HOverride _) => other
  | _, _ => HProceed
  end.

Definition is_block (d : HookDecision) : bool := match d with HBlock _ => true | _ => false end.

Record HookExecutionContext := mkHookExecution { host_source_dir : option string; sandbox_work_dir : option string }.

Definition command_cwd_for (x : HookExecutionContext) (h : HookDefinition) : option string :=
  if runs_in_sandbox h then sandbox_work_dir x else host_source_dir x.

Record HookResult := mkHookResult { hr_name : option string; hr_decision : HookDecision; hr_duration_ms : Z }.

(** ** What the executor calls *)

Record HookToolCall := mkHookToolCall { tc_id : string; tc_name : string; tc_arguments : Value }.
Record LlmResponse := mkLlmResponse { lr_text : string; lr_tool_calls : list HookToolCall }.

Inductive LlmMessage :=
| SystemMessage (text : string)
| UserMessage (text : string)
| AssistantMessage (response : LlmResponse)
| ToolResultMessage (tool_call_id : string) (content : Value) (is_error : bool).

(** The codec of serde: the texts and values it accepts are its own. *)
Class HookCodec := {
  decision_from_str : string -> option HookDecision;
  response_from_str : string -> option PromptHookResponse;
  response_from_value : Value -> option PromptHookResponse;
  context_to_json : HookContext -> string
}.

Class HookHost (W : Type) := {
  (** [Instant] between two moments, and [SystemTime::now] in nanoseconds. *)
  hook_elapsed_ms : W -> W -> Z;
  now_nanos : W -> Z;
  (** The sandbox: an exit code and the standard output. *)
  sandbox_write_file : string -> string -> W -> result unit string * W;
  sandbox_exec : string -> Z -> option string -> gmap string string -> W -> result (option Z * string) string * W;
  (** [sh -c] on the host: spawn, write the input, wait. *)
  host_spawn : string -> option string -> gmap string string -> W -> result unit string * W;
  host_stdin : string -> W -> W;
  host_wait : W -> result (option Z * string) string * W;
  (** A request (invalid certificates accepted?): its status, then its body. *)
  http_post : bool -> string -> list (string * string) -> Z -> HookContext -> W -> result Z string * W;
  http_text : W -> result string string * W;
  (** A model client, a structured answer, a turn of a conversation, a core tool. *)
  llm_connect : W -> bool * W;
  llm_generate_object : string -> string -> string -> Z -> W -> result (option Value) string * W;
  llm_complete : string -> list LlmMessage -> W -> result LlmResponse string * W;
  core_tool : string -> option (HookToolCall -> W -> result string string * W);
  (** [tokio::time::timeout]: the answer, unless time ran out. *)
  tokio_timeout : Z -> (W -> HookDecision * W) -> W -> option HookDecision * W
}.

(** A future that [timeout] lets finish gives its own result and effects. *)
Class TimeoutLaw (W : Type) `{HookHost W} :=
  timeout_finished : forall ms f w d w', tokio_timeout ms f w = (Some d, w') -> f w = (d, w').

(** ** The executor of one hook (executor.rs) *)

Definition HOOK_EVALUATOR_SYSTEM_PROMPT : string :=
  "You are a hook evaluator for a workflow engine. Given context about a workflow event, evaluate the condition.".

(** No namespace is wired. *)
Definition resolve_interp (value : InterpString) : result string ResolveError := resolve_with ResolveCtx_new value.

Definition resolve_prompt_and_model (prompt : InterpString) (model : option InterpString) : result (string * option string) ResolveError :=
  result_bind (resolve_interp prompt) (fun prompt =>
  match model with
  | None => Ok (prompt, None)
  | Some model => result_bind (resolve_interp model) (fun model => Ok (prompt, Some model))
  end).

Definition strip_code_fences (text : string) : string :=
  let trimmed := trim text in
  let inner := default trimmed (or_else (strip_prefix "```json" trimmed) (strip_prefix "```" trimmed)) in
  let inner := default inner (strip_suffix "```" inner) in
  trim inner.

Definition resolve_model (model : option string) : string := default "haiku" model.

Section executor.
Context {W : Type} `{HookCodec, HookHost W, HashOrder}.

Definition parse_decision (exit_code : Z) (stdout : string) : HookDecision :=
  if exit_code =? 0 then default HProceed (decision_from_str (trim stdout))
  else if exit_code =? 2 then default (HBlock (Some "hook exited with code 2")) (decision_from_str (trim stdout))
  else HBlock (Some ("hook exited with code " +:+ Z_to_string exit_code)).

Definition prompt_decision (resp : PromptHookResponse) : HookDecision :=
  if phr_ok resp then HProceed else HBlock (phr_reason resp).

Definition parse_prompt_response (response_text : string) : HookDecision :=
  match response_from_str (strip_code_fences response_text) with
  | Some resp => prompt_decision resp
  | None => HProceed
  end.

Definition build_hook_user_message (prompt : string) (context : HookContext) : string :=
  "Hook prompt: " +:+ prompt +:+ nl +:+ nl +:+ "Event context:" +:+ nl +:+ context_to_json context.

Definition hook_env_vars (context : HookContext) : gmap string string :=
  let env := <["FABRO_WORKFLOW" := hc_workflow_name context]>
             (<["FABRO_RUN_ID" := hc_run_id context]> (<["FABRO_EVENT" := HookEvent_to_string (hc_event context)]> ∅)) in
  match hc_node_id context with Some id => <["FABRO_NODE_ID" := id]> env | None => env end.

(** The command in the sandbox, with the context in a file there. *)
Definition run_in_sandbox (h : HookDefinition) (command : string) (context : HookContext) (x : HookExecutionContext) (w : W) : HookDecision * W :=
  let ctx_path := "/tmp/fabro-hook-context-" +:+ Z_to_string (now_nanos w) +:+ ".json" in
  let '(written, w) := sandbox_write_file ctx_path (context_to_json context) w in
  let env := if is_ok written then <["FABRO_HOOK_CONTEXT" := ctx_path]> (hook_env_vars context) else hook_env_vars context in
  match sandbox_exec command (hook_timeout h) (command_cwd_for x h) env w with
  | (Ok (exit_code, stdout), w) => (parse_decision (default (-1) exit_code) stdout, w)
  | (Err e, w) => (HBlock (Some ("sandbox exec failed: " +:+ e)), w)
  end.

(** The command on the host, with the context on its input. *)
Definition run_on_host (h : HookDefinition) (command : string) (context : HookContext) (x : HookExecutionContext) (w : W) : HookDecision * W :=
  match host_spawn command (command_cwd_for x h) (hook_env_vars context) w with
  | (Ok _, w) =>
      match host_wait (host_stdin (context_to_json context) w) with
      | (Ok (exit_code, stdout), w) => (parse_decision (default 1 exit_code) stdout, w)
      | (Err e, w) => (HBlock (Some ("command wait failed: " +:+ e)), w)
      end
  | (Err e, w) => (HBlock (Some ("command spawn failed: " +:+ e)), w)
  end.

Definition execute_command (h : HookDefinition) (command : InterpString) (context : HookContext) (x : HookExecutionContext) (w : W)
    : HookDecision * W :=
  match resolve_interp command with
  | Err error => (HBlock (Some (resolve_error_to_string error)), w)
  | Ok command => if runs_in_sandbox h then run_in_sandbox h command context x w else run_on_host h command context x w
  end.

(** Fails open when the time is up. *)
Definition execute_llm_with_timeout (ms : Z) (f : W -> HookDecision * W) (w : W) : HookDecision * W :=
  match tokio_timeout ms f w with (Some d, w) => (d, w) | (None, w) => (HProceed, w) end.

Definition prompt_call (model user_msg : string) (w : W) : HookDecision * W :=
  match llm_connect w with
  | (false, w) => (HProceed, w)
  | (true, w) =>
      match llm_generate_object model HOOK_EVALUATOR_SYSTEM_PROMPT user_msg 1024 w with
      | (Ok (Some obj), w) => (match response_from_value obj with Some resp => prompt_decision resp | None => HProceed end, w)
      | (_, w) => (HProceed, w)
      end
  end.

Definition execute_prompt (h : HookDefinition) (prompt : InterpString) (model : option InterpString) (context : HookContext) (w : W)
    : HookDecision * W :=
  match resolve_prompt_and_model prompt model with
  | Err error => (HBlock (Some (resolve_error_to_string error)), w)
  | Ok (prompt, model) =>
      execute_llm_with_timeout (hook_timeout h) (prompt_call (resolve_model model) (build_hook_user_message prompt context)) w
  end.

(** The tool calls of a turn, in order. *)
Fixpoint run_tool_calls (calls : list HookToolCall) (messages : list LlmMessage) (w : W) : list LlmMessage * W :=
  match calls with
  | [] => (messages, w)
  | tc :: calls =>
      let '(message, w) :=
        match core_tool (tc_name tc) with
        | Some tool =>
            match tool tc w with
            | (Ok output, w) => (ToolResultMessage (tc_id tc) (JString output) false, w)
            | (Err err, w) => (ToolResultMessage (tc_id tc) (JString err) true, w)
            end
        | None => (ToolResultMessage (tc_id tc) (JString ("Unknown tool: " +:+ tc_name tc)) true, w)
        end in
      run_tool_calls calls (messages ++ [message]) w
  end.

Fixpoint agent_rounds (rounds : nat) (model : string) (messages : list LlmMessage) (w : W) : HookDecision * W :=
  match rounds with
  | O => (HProceed, w)
  | S rounds =>
      match llm_complete model messages w with
      | (Err _, w) => (HProceed, w)
      | (Ok response, w) =>
          match lr_tool_calls response with
          | [] => (parse_prompt_response (lr_text response), w)
          | calls =>
              let '(messages, w) := run_tool_calls calls (messages ++ [AssistantMessage response]) w in
              agent_rounds rounds model messages w
          end
      end
  end.

Definition agent_call (model user_msg : string) (max_tool_rounds : option Z) (w : W) : HookDecision * W :=
  match llm_connect w with
  | (false, w) => (HProceed, w)
  | (true, w) =>
      agent_rounds (Z.to_nat (default 50 max_tool_rounds)) model [SystemMessage HOOK_EVALUATOR_SYSTEM_PROMPT; UserMessage user_msg] w
  end.

Definition execute_agent (h : HookDefinition) (prompt : InterpString) (model : option InterpString) (max_tool_rounds : option Z)
    (context : HookContext) (w : W) : HookDecision * W :=
  match resolve_prompt_and_model prompt model with
  | Err error => (HBlock (Some (resolve_error_to_string error)), w)
  | Ok (prompt, model) =>
      execute_llm_with_timeout (hook_timeout h)
        (agent_call (resolve_model model) (build_hook_user_message prompt context) max_tool_rounds) w
  end.

(** [build_http_client]: whether the client accepts any certificate. *)
Definition accepts_invalid_certs (tls : TlsMode) : bool := match tls with TlsVerify => false | _ => true end.

(** The headers, resolved in the order of the map. *)
Fixpoint resolve_headers (headers : list (string * InterpString)) : result (list (string * string)) ResolveError :=
  match headers with
  | [] => Ok []
  | (key, value) :: headers =>
      result_bind (resolve_interp value) (fun rendered => result_bind (resolve_headers headers) (fun rest => Ok ((key, rendered) :: rest)))
  end.

Definition http_decision (body : string) : HookDecision :=
  let body := trim body in
  if str_is_empty body then HProceed else default HProceed (decision_from_str body).

Definition execute_http (url : InterpString) (headers : option (gmap string InterpString)) (tls : TlsMode) (context : HookContext)
    (timeout : Z) (w : W) : HookDecision * W :=
  match resolve_interp url with
  | Err error => (HBlock (Some (resolve_error_to_string error)), w)
  | Ok resolved_url =>
      if (match tls with TlsOff => false | _ => negb (starts_with "https://" resolved_url) end) then
        (HBlock (Some ("HTTP hook URL must use https:// (tls mode is " +:+ TlsMode_debug tls +:+ ")")), w)
      else
        match resolve_headers (from_option hash_iter [] headers) with
        | Err error => (HBlock (Some (resolve_error_to_string error)), w)
        | Ok rendered =>
            match http_post (accepts_invalid_certs tls) resolved_url rendered timeout context w with
            | (Err _, w) => (HProceed, w)
            | (Ok status, w) =>
                if negb ((200 <=? status) && (status <? 300))%bool then (HProceed, w)
                else match http_text w with
                     | (Err _, w) => (HProceed, w)
                     | (Ok body, w) => (http_decision body, w)
                     end
            end
        end
  end.

Definition execute_hook (h : HookDefinition) (context : HookContext) (x : HookExecutionContext) (start : W) : HookResult * W :=
  let '(decision, w) :=
    match resolved_hook_type h with
    | Some (HookCommand command) => execute_command h command context x start
    | Some (HookHttp url headers tls) => execute_http url headers tls context (hook_timeout h) start
    | Some (HookPrompt prompt model) => execute_prompt h prompt model context start
    | Some (HookAgent prompt model max_tool_rounds) => execute_agent h prompt model max_tool_rounds context start
    | None => (HBlock (Some "no hook type specified"), start)
    end in
  (mkHookResult (hd_name h) decision (hook_elapsed_ms start w), w).
End executor.

(** ** The runner of an event's hooks (runner.rs) *)

Class HookExecutor (W : Type) := hook_execute : HookDefinition -> HookContext -> HookExecutionContext -> W -> HookResult * W.

Definition HookExecutorImpl {W} `{HookCodec, HookHost W, HashOrder} : HookExecutor W := execute_hook.

Class RegexEngine := regex_new : string -> option (string -> bool).

Record HookRunner := mkHookRunner { hooks : HookSettings; compiled_matchers : gmap string (string -> bool) }.

Fixpoint compile_matchers `{RegexEngine} (config : HookSettings) (map : gmap string (string -> bool)) : gmap string (string -> bool) :=
  match config with
  | [] => map
  | hook :: config =>
      compile_matchers config
        (match hd_matcher hook with
         | Some pattern =>
             match map !! pattern with
             | Some _ => map
             | None => match regex_new pattern with Some re => <[pattern := re]> map | None => map end
             end
         | None => map
         end)
  end.

Definition HookRunner_new `{RegexEngine} (config : HookSettings) : HookRunner := mkHookRunner config (compile_matchers config ∅).

Definition hook_matches (r : HookRunner) (h : HookDefinition) (c : HookContext) : bool :=
  match hd_matcher h with
  | None => true
  | Some pattern =>
      match compiled_matchers r !! pattern with
      | None => false
      | Some re => existsb (fun field => match field with Some v => re v | None => false end)
                     [hc_node_id c; hc_handler_type c; hc_edge_to c; hc_edge_from c; hc_tool_name c]
      end
  end.

Definition filter_hooks (r : HookRunner) (c : HookContext) : list HookDefinition :=
  filterb (fun h => hook_matches r h c) (filterb (fun h => bool_decide (hd_event h = hc_event c)) (hooks r)).

Section runner.
Context {W : Type} `{HookExecutor W}.

Fixpoint run_sequential (c : HookContext) (x : HookExecutionContext) (hooks : list HookDefinition) (merged : HookDecision) (w : W)
    : HookDecision * W :=
  match hooks with
  | [] => (merged, w)
  | hook :: hooks =>
      let '(result, w) := hook_execute hook c x w in
      if is_blocking hook then
        let merged := hook_merge merged (hr_decision result) in
        if is_block merged then (merged, w) else run_sequential c x hooks merged w
      else run_sequential c x hooks merged w
  end.

Fixpoint run_non_blocking (c : HookContext) (x : HookExecutionContext) (hooks : list HookDefinition) (w : W) : HookDecision * W :=
  match hooks with
  | [] => (HProceed, w)
  | hook :: hooks => let '(_, w) := hook_execute hook c x w in run_non_blocking c x hooks w
  end.

Definition run_hooks (r : HookRunner) (c : HookContext) (x : HookExecutionContext) (w : W) : HookDecision * W :=
  let matching := filter_hooks r c in
  match matching with
  | [] => (HProceed, w)
  | _ => if existsb is_blocking matching then run_sequential c x matching HProceed w else run_non_blocking c x matching w
  end.

(** ** Tool hooks of an agent (bridge.rs) *)

Inductive ToolHookDecision := ToolProceed | ToolBlock (reason : string).

Record WorkflowToolHookCallback := mkToolHooks {
  th_runner : HookRunner;
  th_run_id : string;
  th_workflow_name : string;
  th_execution_context : HookExecutionContext;
  th_node_id : string
}.

Definition set_tool (node tool : option string) (input : option Value) (call_id output error : option string) (c : HookContext) : HookContext :=
  mkHookContext (hc_event c) (hc_run_id c) (hc_workflow_name c) (hc_cwd c) node (hc_node_label c) (hc_handler_type c) (hc_status c)
    (hc_edge_from c) (hc_edge_to c) (hc_edge_label c) (hc_failure_reason c) (hc_attempt c) (hc_max_attempts c) tool input call_id output error.

Definition base_context (t : WorkflowToolHookCallback) (event : HookEvent) (tool_name : string)
    (input : option Value) (call_id output error : option string) : HookContext :=
  set_tool (Some (th_node_id t)) (Some tool_name) input call_id output error (HookContext_new event (th_run_id t) (th_workflow_name t)).

Definition tool_run_hook (t : WorkflowToolHookCallback) (c : HookContext) (w : W) : HookDecision * W :=
  run_hooks (th_runner t) c (th_execution_context t) w.

Definition pre_tool_use (t : WorkflowToolHookCallback) (tool_name : string) (tool_input : Value) (w : W) : ToolHookDecision * W :=
  let '(d, w) := tool_run_hook t (base_context t EvPreToolUse tool_name (Some tool_input) None None None) w in
  (match d with HBlock reason => ToolBlock (default "Blocked by hook" reason) | _ => ToolProceed end, w).

Definition post_tool_use (t : WorkflowToolHookCallback) (tool_name tool_call_id tool_output : string) (w : W) : W :=
  (tool_run_hook t (base_context t EvPostToolUse tool_name None (Some tool_call_id) (Some tool_output) None) w).2.

Definition post_tool_use_failure (t : WorkflowToolHookCallback) (tool_name tool_call_id error : string) (w : W) : W :=
  (tool_run_hook t (base_context t EvPostToolUseFailure tool_name None (Some tool_call_id) None (Some error)) w).2.
End runner.

(** ** The callbacks of a run (hook_context.rs, lifecycle/hook.rs) *)

Definition set_hook_node (n : Node) (c : HookContext) : HookContext :=
  mkHookContext (hc_event c) (hc_run_id c) (hc_workflow_name c) (hc_cwd c) (Some (node_id n)) (Some (node_label n)) (handler_type n)
    (hc_status c) (hc_edge_from c) (hc_edge_to c) (hc_edge_label c) (hc_failure_reason c) (hc_attempt c) (hc_max_attempts c)
    (hc_tool_name c) (hc_tool_input c) (hc_tool_call_id c) (hc_tool_output c) (hc_error_message c).

Record HookState := mkHookState {
  hl_runner : option HookRunner;
  hl_execution_context : HookExecutionContext;
  hl_run_id : string;
  hl_graph_name : string
}.

Section lifecycle.
Context {M : Type} `{OutcomeMeta M} {W Host : Type} `{HookExecutor Host}.
Context (hl : HookState) (get_hooks : W -> Host) (put_hooks : Host -> W -> W).

Definition hook_context (event : HookEvent) : HookContext := HookContext_new event (hl_run_id hl) (hl_graph_name hl).

Definition lifecycle_run_hook (c : HookContext) (w : W) : HookDecision * W :=
  match hl_runner hl with
  | None => (HProceed, w)
  | Some runner =>
      let '(d, host) := run_hooks runner c (hl_execution_context hl) (get_hooks w) in
      (d, put_hooks host w)
  end.

Definition hook_on_run_start : Graph -> callback M W unit := fun _ s w =>
  match lifecycle_run_hook (hook_context EvRunStart) w with
  | (HBlock reason, w) => (Err (Blocked (default "blocked by RunStart hook" reason)), st_context s, w)
  | (_, w) => (Ok tt, st_context s, w)
  end.

(** The fields a stage's start sets. *)
Definition stage_start_context (a : AttemptContext Node) : HookContext :=
  let c := set_hook_node (ac_node a) (hook_context EvStageStart) in
  mkHookContext (hc_event c) (hc_run_id c) (hc_workflow_name c) (sandbox_work_dir (hl_execution_context hl)) (hc_node_id c)
    (hc_node_label c) (hc_handler_type c) (hc_status c) (hc_edge_from c) (hc_edge_to c) (hc_edge_label c) (hc_failure_reason c)
    (Some (ac_attempt a)) (Some (ac_max_attempts a)) (hc_tool_name c) (hc_tool_input c) (hc_tool_call_id c) (hc_tool_output c) (hc_error_message c).

Definition hook_before_attempt (a : AttemptContext Node) : callback M W (NodeDecision M) := fun s w =>
  match lifecycle_run_hook (stage_start_context a) w with
  | (HSkip reason, w) => (Ok (NSkip (outcome_skipped (default "skipped by StageStart hook" reason))), st_context s, w)
  | (HBlock reason, w) => (Err (Blocked (default "blocked by StageStart hook" reason)), st_context s, w)
  | (_, w) => (Ok NContinue, st_context s, w)
  end.

Definition set_hook_outcome (status failure_reason : option string) (c : HookContext) : HookContext :=
  mkHookContext (hc_event c) (hc_run_id c) (hc_workflow_name c) (hc_cwd c) (hc_node_id c) (hc_node_label c) (hc_handler_type c) status
    (hc_edge_from c) (hc_edge_to c) (hc_edge_label c) failure_reason (hc_attempt c) (hc_max_attempts c)
    (hc_tool_name c) (hc_tool_input c) (hc_tool_call_id c) (hc_tool_output c) (hc_error_message c).

Definition hook_after_node (n : Node) (r : NodeResult M) : callback M W (NodeResult M) := fun s w =>
  let o := outcome r in
  if bool_decide (status o = Skipped) then (Ok r, st_context s, w)
  else
    let event := if is_failure (status o) then EvStageFailed else EvStageComplete in
    let c := set_hook_outcome (Some (StageOutcome_to_string (status o))) (failure_reason o) (set_hook_node n (hook_context event)) in
    (Ok r, st_context s, (lifecycle_run_hook c w).2).

Definition edge_selected_context (x : EdgeContext Edge M) : HookContext :=
  let c := hook_context EvEdgeSelected in
  mkHookContext (hc_event c) (hc_run_id c) (hc_workflow_name c) (hc_cwd c) (hc_node_id c) (hc_node_label c) (hc_handler_type c)
    (hc_status c) (Some (ec_from x)) (Some (ec_to x)) (ec_edge x ≫= edge_label) (hc_failure_reason c) (hc_attempt c) (hc_max_attempts c)
    (hc_tool_name c) (hc_tool_input c) (hc_tool_call_id c) (hc_tool_output c) (hc_error_message c).

Definition hook_on_edge_selected (x : EdgeContext Edge M) : callback M W EdgeDecision := fun s w =>
  match lifecycle_run_hook (edge_selected_context x) w with
  | (HOverride target, w) => (Ok (EOverride target), st_context s, w)
  | (HBlock reason, w) => (Err (Blocked (default "blocked by EdgeSelected hook" reason)), st_context s, w)
  | (_, w) => (Ok EContinue, st_context s, w)
  end.

Definition hook_on_checkpoint (n : Node) (_ : NodeResult M) (_ : option string) : callback M W unit := fun s w =>
  let c := set_tool (Some (node_id n)) None None None None None (hook_context EvCheckpointSaved) in
  (Ok tt, st_context s, (lifecycle_run_hook c w).2).

Definition hook_on_run_end (o : Outcome M) : notification M W := fun s w =>
  if st_cancelled s then (st_context s, w)
  else
    let c := if bool_decide (status o = Succeeded \/ status o = PartiallySucceeded) then hook_context EvRunComplete
             else set_hook_outcome None (Some (default "run failed" (message <$> failure o))) (hook_context EvRunFailed) in
    (st_context s, (lifecycle_run_hook c w).2).

Definition HookLifecycle : RunLifecycle Graph Node Edge M W :=
  let base : RunLifecycle Graph Node Edge M W := NoopLifecycle in
  mkLifecycle hook_on_run_start (on_terminal_reached base) (before_node base) hook_before_attempt (after_attempt base)
    hook_after_node (after_record base) hook_on_edge_selected hook_on_checkpoint hook_on_run_end.
End lifecycle.

(** ** The decision of an event *)

Section decision.
Context {W : Type} `{HookExecutor W} (c : HookContext) (x : HookExecutionContext).

(** The hooks run one after another, with their answers. *)
Fixpoint execute_all (hooks : list HookDefinition) (w : W) : list (HookDefinition * HookDecision) * W :=
  match hooks with
  | [] => ([], w)
  | hook :: hooks =>
      let '(result, w) := hook_execute hook c x w in
      let '(answers, w) := execute_all hooks w in
      ((hook, hr_decision result) :: answers, w)
  end.

Definition blocking_answers (answers : list (HookDefinition * HookDecision)) : list HookDecision :=
  snd <$> filterb (fun a => is_blocking a.1) answers.

(** The first answer that is not [Proceed]. *)
Definition first_said (answers : list HookDecision) : HookDecision :=
  default HProceed (find_first (fun d => bool_decide (d <> HProceed)) answers).

Lemma first_said_merge d e : is_block d = false -> is_block e = false -> hook_merge d e = first_said [d; e].
Proof. by destruct d, e. Qed.

Lemma first_said_cons d l : first_said (d :: l) = if bool_decide (d = HProceed) then first_said l else d.
Proof. unfold first_said. by destruct d. Qed.

Lemma run_sequential_decides hooks : forall merged w,
  is_block merged = false ->
  exists ran rest answers,
    hooks = ran ++ rest
    /\ execute_all ran w = (answers, (run_sequential c x hooks merged w).2)
    /\ match find_first is_block (blocking_answers answers) with
       | Some b => (run_sequential c x hooks merged w).1 = b /\ exists h, last answers = Some (h, b) /\ is_blocking h = true
       | None => rest = [] /\ (run_sequential c x hooks merged w).1 = first_said (merged :: blocking_answers answers)
       end.
Proof.
  induction hooks as [|hook hooks IH]; intros merged w Hm.
  { exists [], [], []. cbn. repeat split. by destruct merged. }
  cbn [run_sequential]. destruct (hook_execute hook c x w) as [result w1] eqn:Hx.
  assert (Hcons : forall ran answers w2, execute_all ran w1 = (answers, w2) ->
    execute_all (hook :: ran) w = ((hook, hr_decision result) :: answers, w2)) by (intros ? ? ? He; cbn; by rewrite Hx, He).
  assert (Hlast : forall (h : HookDefinition) (b : HookDecision) answers, last answers = Some (h, b) ->
    last ((hook, hr_decision result) :: answers) = Some (h, b)) by (intros h b [|a l] Hl; done).
  destruct (is_blocking hook) eqn:Hb.
  - destruct (is_block (hook_merge merged (hr_decision result))) eqn:Hblk.
    + exists [hook], hooks, [(hook, hr_decision result)]. split; [done|]. split; [by apply (Hcons [] [])|].
      unfold blocking_answers. cbn. rewrite Hb. cbn.
      assert (hook_merge merged (hr_decision result) = hr_decision result /\ is_block (hr_decision result) = true) as [-> ->]
        by (destruct merged, (hr_decision result); done).
      split; [done|]. by exists hook.
    + assert (is_block (hr_decision result) = false) as Hr by (by destruct merged, (hr_decision result)).
      destruct (IH _ w1 Hblk) as (ran & rest & answers & -> & He & Hd). exists (hook :: ran), rest, ((hook, hr_decision result) :: answers).
      split; [done|]. split; [by apply Hcons|]. unfold blocking_answers in *. cbn. rewrite Hb. cbn [fmap list_fmap snd find_first]. rewrite Hr.
      destruct (find_first is_block _) as [b|].
      * destruct Hd as [Hd (h & Hl & Hh)]. split; [done|]. exists h. split; [by apply Hlast|done].
      * destruct Hd as [Hrest Hd]. split; [done|]. rewrite Hd, !first_said_cons. rewrite first_said_merge by done.
        rewrite !first_said_cons. by destruct merged, (hr_decision result).
  - destruct (IH merged w1 Hm) as (ran & rest & answers & -> & He & Hd). exists (hook :: ran), rest, ((hook, hr_decision result) :: answers).
    split; [done|]. split; [by apply Hcons|]. unfold blocking_answers in *. cbn. rewrite Hb.
    destruct (find_first is_block _) as [b|]; [|done].
    destruct Hd as [Hd (h & Hl & Hh)]. split; [done|]. exists h. split; [by apply Hlast|done].
Qed.

Lemma run_non_blocking_decides hooks : forall w,
  existsb is_blocking hooks = false ->
  exists answers, execute_all hooks w = (answers, (run_non_blocking c x hooks w).2) /\ blocking_answers answers = []
                  /\ (run_non_blocking c x hooks w).1 = HProceed.
Proof.
  induction hooks as [|hook hooks IH]; intros w Hb; [by exists []|]. cbn in Hb. apply orb_false_elim in Hb as [Hh Hb].
  cbn. destruct (hook_execute hook c x w) as [result w1]. destruct (IH w1 Hb) as (answers & -> & Ha & Hd).
  eexists. split; [done|]. split; [|done]. unfold blocking_answers in *. cbn. by rewrite Hh.
Qed.
End decision.

(** The decision of an event.  The matching hooks run in their configured order, one
    after another, each on the state its predecessor left.  If a blocking hook answers
    [Block], that answer is the decision and no later hook runs; otherwise every matching
    hook has run and the decision is the first answer of a blocking hook that is not
    [Proceed], or [Proceed].  What a non-blocking hook answers has no influence. *)
Theorem hooks_decide {W} `{HookExecutor W} (r : HookRunner) (c : HookContext) (x : HookExecutionContext) (w : W) :
  exists ran rest answers,
    filter_hooks r c = ran ++ rest
    /\ execute_all c x ran w = (answers, (run_hooks r c x w).2)
    /\ match find_first is_block (blocking_answers answers) with
       | Some b => (run_hooks r c x w).1 = b /\ exists h, last answers = Some (h, b) /\ is_blocking h = true
       | None => rest = [] /\ (run_hooks r c x w).1 = first_said (blocking_answers answers)
       end.
Proof.
  unfold run_hooks. destruct (filter_hooks r c) as [|h hs]; [by exists [], [], []|].
  destruct (existsb is_blocking (h :: hs)) eqn:Hb.
  - destruct (run_sequential_decides c x (h :: hs) HProceed w eq_refl) as (ran & rest & answers & -> & He & Hd).
    exists ran, rest, answers. done.
  - destruct (run_non_blocking_decides c x (h :: hs) w Hb) as (answers & He & Ha & Hd).
    exists (h :: hs), [], answers. rewrite app_nil_r, Ha, Hd. done.
Qed.

(** ** Unresolved tokens fail closed *)

Lemma resolve_interp_literal s : is_ok (resolve_interp s) = is_literal s.
Proof.
  unfold resolve_interp. induction s as [|[text|ns name] s IH]; [done|..]; cbn [resolve_with].
  - change (is_literal (Literal text :: s)) with (is_literal s). rewrite <- IH. by destruct (resolve_with ResolveCtx_new s).
  - by destruct ns.
Qed.

(** The settings a hook resolves when it fires. *)
Definition hook_fields `{HashOrder} (t : HookType) : list InterpString :=
  match t with
  | HookCommand command => [command]
  | HookHttp url headers _ => url :: (snd <$> from_option hash_iter [] headers)
  | HookPrompt prompt model | HookAgent prompt model _ => prompt :: option_list model
  end.

Lemma resolve_headers_literal l : is_ok (resolve_headers l) = forallb is_literal (snd <$> l).
Proof.
  induction l as [|[k v] l IH]; [done|]. cbn [resolve_headers fmap list_fmap snd forallb]. rewrite <- resolve_interp_literal, <- IH.
  destruct (resolve_interp v); [|done]. by destruct (resolve_headers l).
Qed.

Lemma resolve_prompt_literal prompt model :
  is_ok (resolve_prompt_and_model prompt model) = forallb is_literal (prompt :: option_list model).
Proof.
  unfold resolve_prompt_and_model. cbn. rewrite <- resolve_interp_literal. destruct (resolve_interp prompt); [|done].
  destruct model as [m|]; [|done]. cbn. rewrite <- resolve_interp_literal. by destruct (resolve_interp m).
Qed.

(** Hooks fail closed.  A hook with a token left in its command, its URL, one of its
    headers, its prompt or its model answers [Block] with a reason, and nothing has been
    called: no process, request, model or tool sees a half-resolved value. *)
Theorem unresolved_hook_blocks {W} `{HookCodec, HookHost W, HashOrder} h t c x (w : W) :
  resolved_hook_type h = Some t ->
  forallb is_literal (hook_fields t) = false ->
  exists reason, execute_hook h c x w = (mkHookResult (hd_name h) (HBlock (Some reason)) (hook_elapsed_ms w w), w).
Proof.
  intros Ht Hl. unfold execute_hook. rewrite Ht. destruct t as [command|url headers tls|prompt model|prompt model rounds]; cbn [hook_fields] in Hl.
  - cbn in Hl. rewrite andb_true_r, <- resolve_interp_literal in Hl. unfold execute_command. destruct (resolve_interp command); [done|]. by eexists.
  - cbn [forallb] in Hl. rewrite <- resolve_interp_literal, <- resolve_headers_literal in Hl. unfold execute_http.
    destruct (resolve_interp url) as [u|]; [|by eexists].
    destruct (match tls with TlsOff => false | _ => _ end); [by eexists|].
    destruct (resolve_headers _); [done|]. by eexists.
  - rewrite <- resolve_prompt_literal in Hl. unfold execute_prompt. destruct (resolve_prompt_and_model prompt model); [done|]. by eexists.
  - rewrite <- resolve_prompt_literal in Hl. unfold execute_agent. destruct (resolve_prompt_and_model prompt model); [done|]. by eexists.
Qed.

(** A hook on the host runs as long as it likes: its answer does not depend on its time
    limit, and nothing it calls is given one. *)
Theorem host_hook_ignores_timeout {W} `{HookCodec, HookHost W, HashOrder} name event command t matcher blocking ms1 ms2 cmd c x (w : W) :
  execute_command (mkHook name event command t matcher blocking ms1 (Some false)) cmd c x w
  = execute_command (mkHook name event command t matcher blocking ms2 (Some false)) cmd c x w.
Proof. done. Qed.

(** A hook on the start or the end of a run never fires when it has a matcher: the context
    of such an event has none of the fields a matcher is tried on. *)
Theorem matcher_silences_run_hooks `{RegexEngine} config h event run_id name pattern :
  hd_matcher h = Some pattern ->
  hook_matches (HookRunner_new config) h (HookContext_new event run_id name) = false.
Proof. intros Hm. unfold hook_matches. rewrite Hm. by destruct (compiled_matchers _ !! pattern). Qed.

(** ** Merging lists of hooks *)

(** The last definition of a name, and the names in order of first appearance. *)
Definition last_named (name : string) (l : list HookDefinition) : option HookDefinition :=
  find_first (fun h => String.eqb (effective_name h) name) (reverse l).

Fixpoint first_names (seen : list string) (l : list HookDefinition) : list string :=
  match l with
  | [] => []
  | h :: l =>
      let name := effective_name h in
      if bool_decide (name ∈ seen) then first_names seen l else name :: first_names (seen ++ [name]) l
  end.

Definition merged_state (l : list HookDefinition) (acc : gmap string HookDefinition * list string) : Prop :=
  NoDup acc.2 /\ (forall name, is_Some (acc.1 !! name) <-> name ∈ acc.2)
  /\ (forall name, acc.1 !! name = last_named name l).

Lemma last_named_snoc name l h : last_named name (l ++ [h]) = if String.eqb (effective_name h) name then Some h else last_named name l.
Proof. unfold last_named. by rewrite reverse_snoc. Qed.

Lemma merge_hooks_state l done_ acc :
  merged_state done_ acc ->
  merged_state (done_ ++ l) (merge_hooks l acc) /\ (merge_hooks l acc).2 = acc.2 ++ first_names acc.2 l.
Proof.
  revert done_ acc. induction l as [|h l IH]; intros done_ [by_name order] Hs; cbn [merge_hooks first_names].
  { rewrite !app_nil_r. done. }
  set (name := effective_name h). set (order' := match by_name !! name with Some _ => order | None => order ++ [name] end).
  destruct Hs as (Hnd & Hdom & Hlast). cbn in Hnd, Hdom, Hlast.
  assert (Hord : order' = if bool_decide (name ∈ order) then order else order ++ [name]).
  { unfold order'. pose proof (Hdom name) as Hn. destruct (by_name !! name) eqn:He.
    - rewrite bool_decide_true; [done|]. apply Hn. eauto.
    - rewrite bool_decide_false; [done|]. intros [? Hx]%Hn. done. }
  assert (Hs' : merged_state (done_ ++ [h]) (<[name := h]> by_name, order')).
  { unfold merged_state. cbn. rewrite Hord. split_and!.
    - case_bool_decide; [done|]. apply NoDup_app. split_and!; [done|set_solver|apply NoDup_singleton].
    - intros k. rewrite lookup_insert_is_Some'. rewrite Hdom. case_bool_decide; set_solver.
    - intros k. rewrite last_named_snoc. destruct (String.eqb_spec (effective_name h) k) as [<-|Hne]; [by rewrite lookup_insert_eq|].
      by rewrite lookup_insert_ne. }
  destruct (IH _ _ Hs') as [Hst Hnames]. rewrite <- app_assoc in Hst. split; [done|]. rewrite Hnames. cbn. rewrite Hord.
  case_bool_decide; [done|]. by rewrite <- app_assoc.
Qed.

Lemma take_named_spec m order :
  NoDup order -> (forall name, name ∈ order -> exists h, m !! name = Some h /\ effective_name h = name) ->
  effective_name <$> take_named m order = order
  /\ forall name, find_first (fun h => String.eqb (effective_name h) name) (take_named m order) = if bool_decide (name ∈ order) then m !! name else None.
Proof.
  revert m. induction order as [|n order IH]; intros m Hnd Hm; [done|]. apply NoDup_cons in Hnd as [Hn Hnd].
  destruct (Hm n) as (h & Hh & He); [by left|]. cbn [take_named]. rewrite Hh. change (option_list (Some h) ++ take_named (delete n m) order) with (h :: take_named (delete n m) order).
  destruct (IH (delete n m) Hnd) as [Hnames Hfind].
  { intros k Hk. rewrite lookup_delete_ne by set_solver. apply Hm. by right. }
  cbn [find_first]. rewrite fmap_cons, Hnames, He. split; [done|]. intros k. destruct (String.eqb_spec n k) as [<-|Hne].
  - rewrite bool_decide_true by by left. done.
  - rewrite Hfind, lookup_delete_ne by done. rewrite (bool_decide_ext (k ∈ order) (k ∈ n :: order)) by set_solver. done.
Qed.

Lemma last_named_effective name l h : last_named name l = Some h -> effective_name h = name.
Proof. unfold last_named. intros [_ Hn]%find_first_Some_elem. by apply String.eqb_eq. Qed.

(** Merged hook lists.  The merged list has the names of both lists once each, in the
    order in which they first appear, and under each name the definition that comes last,
    one of the second list where it has the name.  Two unnamed hooks of an event whose
    commands start with the same twenty bytes have one name, so the first is dropped. *)
Theorem hook_settings_merged self other :
  let merged := HookSettings_merge self other in
  effective_name <$> merged = first_names [] (self ++ other)
  /\ NoDup (effective_name <$> merged)
  /\ forall name, find_first (fun h => String.eqb (effective_name h) name) merged = last_named name (self ++ other).
Proof.
  assert (Hs0 : merged_state [] (∅, [])).
  { split_and!; [apply NoDup_nil_2|intros name; cbn; rewrite lookup_empty; split; [by intros [? ?]|by intros ?%not_elem_of_nil]|done]. }
  destruct (merge_hooks_state self [] _ Hs0) as [Hs1 Hn1]. destruct (merge_hooks_state other _ _ Hs1) as [Hs2 Hn2].
  cbn [app snd] in Hs1, Hn1, Hs2. unfold HookSettings_merge. cbv zeta. 
  destruct (merge_hooks other (merge_hooks self (∅, []))) as [by_name order] eqn:Hm. cbn in Hs2, Hn2.
  assert (Happ : forall l seen, first_names seen (l ++ other) = first_names seen l ++ first_names (seen ++ first_names seen l) other).
  { clear. induction l as [|h l IH]; intros seen; cbn; [by rewrite app_nil_r|]. case_bool_decide; rewrite IH; [done|]. by rewrite <- app_assoc. }
  destruct Hs2 as (Hnd & Hdom & Hlast). cbn in Hnd, Hdom, Hlast.
  destruct (take_named_spec by_name order Hnd) as [Hnames Hfind].
  { intros name [h Hh]%Hdom. exists h. split; [done|]. rewrite Hlast in Hh. by eapply last_named_effective. }
  rewrite Hnames. split_and!; [|done|].
  - by rewrite Hn2, Hn1, Happ.
  - intros name. rewrite Hfind. case_bool_decide as Hin; [by apply Hlast|]. rewrite <- Hlast. rewrite <- Hdom in Hin. by apply eq_None_not_Some in Hin.
Qed.

(** Two unnamed hooks on one event. *)
Example unnamed_hooks_collide :
  let hook cmd := mkHook None EvStageStart (Some (interp_parse cmd)) None None None None None in
  HookSettings_merge [hook "cd /workspace/project && make lint"] [hook "cd /workspace/project && make test"]
  = [hook "cd /workspace/project && make test"].
Proof. by vm_compute. Qed.

(** ** A host that writes down what is asked of it *)

Module HookRuns.

#[local] Instance map_order : HashOrder := {| hash_iter := fun A m => map_to_list m; hash_iter_perm := fun A m => reflexivity _ |}.

(** Decisions as one word of text; no structured answers. *)
#[local] Instance word_codec : HookCodec := {|
  decision_from_str := fun s => if String.eqb s "skip" then Some (HSkip None) else if String.eqb s "block" then Some (HBlock None) else None;
  response_from_str := fun s => if String.eqb s "no" then Some (mkPromptResponse false (Some "no")) else None;
  response_from_value := fun _ => None;
  context_to_json := fun c => HookEvent_to_string (hc_event c)
|}.

(** A command prints its own text and succeeds. *)
#[local] Instance log_host : HookHost (list string) := {|
  hook_elapsed_ms := fun a b => Z.of_nat (length b - length a);
  now_nanos := fun w => Z.of_nat (length w);
  sandbox_write_file := fun path _ w => (Ok tt, w ++ ["write " +:+ path]);
  sandbox_exec := fun cmd _ _ _ w => (Ok (Some 0, cmd), w ++ ["sandbox " +:+ cmd]);
  host_spawn := fun cmd _ _ w => (Ok tt, w ++ ["host " +:+ cmd]);
  host_stdin := fun _ w => w;
  host_wait := fun w => (Ok (Some 0, ""), w);
  http_post := fun _ url _ _ _ w => (Ok 204, w ++ ["post " +:+ url]);
  http_text := fun w => (Ok "", w);
  llm_connect := fun w => (true, w);
  llm_generate_object := fun _ _ _ _ w => (Ok None, w ++ ["model"]);
  llm_complete := fun _ _ w => (Ok (mkLlmResponse "no" []), w ++ ["model"]);
  core_tool := fun _ => None;
  tokio_timeout := fun _ f w => let '(d, w) := f w in (Some d, w)
|}.

#[local] Existing Instance HookExecutorImpl.

Definition command (name text : string) (blocking : bool) : HookDefinition :=
  mkHook (Some name) EvStageStart (Some (interp_parse text)) None None (Some blocking) None None.

Lemma unresolved_hook_blocks_witness :
  exists reason, execute_hook (command "h" "echo {{ secrets.KEY }}" true) (HookContext_new EvStageStart "run" "wf") (mkHookExecution None None) []
                 = (mkHookResult (Some "h") (HBlock (Some reason)) 0, []).
Proof.
  exact (unresolved_hook_blocks (command "h" "echo {{ secrets.KEY }}" true) (HookCommand (interp_parse "echo {{ secrets.KEY }}"))
           (HookContext_new EvStageStart "run" "wf") (mkHookExecution None None) [] eq_refl eq_refl).
Defined.

Lemma matcher_silences_run_hooks_witness :
  let engine : RegexEngine := fun p => Some (fun s => str_contains p s) in
  let h := mkHook (Some "h") EvRunStart (Some (interp_parse "true")) None (Some "deploy") None None None in
  hook_matches (@HookRunner_new engine [h]) h (HookContext_new EvRunStart "run" "deploy") = false.
Proof. intros engine h. apply (@matcher_silences_run_hooks engine [h] h EvRunStart "run" "deploy" "deploy"). reflexivity. Defined.

(** The third hook is not run; the second's answer is ignored. *)
Example three_hooks :
  run_hooks (mkHookRunner [command "a" "skip" true; command "b" "block" false; command "c" "block" true; command "d" "skip" true] ∅)
    (HookContext_new EvStageStart "run" "wf") (mkHookExecution None None) []
  = (HBlock None, ["write /tmp/fabro-hook-context-0.json"; "sandbox skip"; "write /tmp/fabro-hook-context-2.json"; "sandbox block";
                   "write /tmp/fabro-hook-context-4.json"; "sandbox block"]).
Proof. by vm_compute. Qed.

End HookRuns.
