(* ===== verification/EventScan.v ===== *)
(** * Reading the event log from the database (fabro-store/src/slate/run_store.rs)

    The database is not part of the repository: [SlateDb] states what the store
    relies on, an ordered map from keys to bytes whose scans are in key order.
    On top of it: the cursor over the events of a run, the listing of pages, and
    the two ways of finding the latest sequence number. *)

From S2P Require Import Prelude RustStr DecText EventKeys.
Local Open Scope Z_scope.

(** ** Lists *)

Lemma filterb_sorted {A} (R : relation A) f l : StronglySorted R l -> StronglySorted R (filterb f l).
Proof.
  induction 1 as [|a l Hs IH Ha]; [constructor|]. cbn. destruct (f a); [|done]. constructor; [done|].
  rewrite Forall_forall in Ha |- *. intros b [Hb _]%filterb_elem. auto.
Qed.

Lemma filterb_NoDup {A B} (k : A -> B) f l : NoDup (k <$> l) -> NoDup (k <$> filterb f l).
Proof.
  induction l as [|a l IH]; [done|]. cbn. intros [Hn Hd]%NoDup_cons. destruct (f a); [|auto]. cbn. apply NoDup_cons.
  split; [|auto]. intros (b & Hk & [Hb _]%filterb_elem)%list_elem_of_fmap. apply Hn, list_elem_of_fmap. eauto.
Qed.

Lemma foldl_max_spec acc l : acc <= foldl Z.max acc l /\ (forall q, q ∈ l -> q <= foldl Z.max acc l) /\ (foldl Z.max acc l = acc \/ foldl Z.max acc l ∈ l).
Proof.
  revert acc. induction l as [|q l IH]; intros acc; cbn [foldl]; [set_solver by lia|].
  destruct (IH (Z.max acc q)) as (H1 & H2 & H3). split; [lia|]. split.
  - intros q' [->|Hq']%elem_of_cons; [lia|auto].
  - destruct H3 as [->|H3]; [|set_solver]. destruct (Z.max_dec acc q) as [->| ->]; set_solver.
Qed.

(** Two lists in the order of their sequence numbers with the same entries are equal. *)
Lemma sorted_by_seq_unique {A} (l k : list (Z * A)) :
  StronglySorted (fun a b => a.1 < b.1) l -> StronglySorted (fun a b => a.1 < b.1) k ->
  (forall e, e ∈ l <-> e ∈ k) -> l = k.
Proof.
  revert k. induction l as [|a l IH]; intros k Hl Hk He.
  - destruct k as [|b k]; [done|]. exfalso. apply (not_elem_of_nil b), He. set_solver.
  - destruct k as [|b k]; [exfalso; apply (not_elem_of_nil a), He; set_solver|].
    apply StronglySorted_inv in Hl as [Hl Ha]. apply StronglySorted_inv in Hk as [Hk Hb].
    rewrite Forall_forall in Ha, Hb.
    assert (a = b) as <-.
    { assert (a ∈ b :: k) as [->|Hin]%elem_of_cons by (apply He; set_solver); [done|].
      assert (b ∈ a :: l) as [->|Hin']%elem_of_cons by (apply He; set_solver); [done|].
      specialize (Ha _ Hin'). specialize (Hb _ Hin). lia. }
    f_equal. apply IH; [done|done|]. intros e. split; intros Hin.
    + assert (e ∈ a :: k) as [->|]%elem_of_cons by (apply He; set_solver); [|done]. specialize (Ha _ Hin). lia.
    + assert (e ∈ a :: l) as [->|]%elem_of_cons by (apply He; set_solver); [|done]. specialize (Hb _ Hin). lia.
Qed.

(** ** The database *)

Definition key_le {A} (a b : string * A) : Prop := String.le a.1 b.1.

#[export] Instance key_le_dec {A} : RelDecision (@key_le A).
Proof. intros a b. unfold key_le. apply _. Defined.

Definition sorted_entries {A} (m : gmap string A) : list (string * A) := merge_sort key_le (map_to_list m).

Definition in_key_range (lo hi k : string) : bool := (String.leb lo k && String.ltb k hi)%bool.

Class SlateDb (Bytes : Type) := {
  Db : Type;
  db_contents : Db -> gmap string Bytes;
  db_put : string -> Bytes -> Db -> Db;
  db_get : string -> Db -> option Bytes;
  db_delete : string -> Db -> Db;
  db_scan : string -> string -> Db -> list (string * Bytes);
  db_scan_prefix : string -> Db -> list (string * Bytes);
  db_put_contents k v d : db_contents (db_put k v d) = <[k := v]> (db_contents d);
  db_get_spec k d : db_get k d = db_contents d !! k;
  db_delete_contents k d : db_contents (db_delete k d) = delete k (db_contents d);
  db_scan_spec lo hi d :
    db_scan lo hi d = filterb (fun e => in_key_range lo hi e.1) (sorted_entries (db_contents d));
  db_scan_prefix_spec p d :
    db_scan_prefix p d = filterb (fun e => starts_with p e.1) (sorted_entries (db_contents d))
}.

Arguments Db Bytes {_}.

(** ** Cursors *)

Section scan.
Context {Bytes : Type} `{!SlateDb Bytes}.
Implicit Types (d : Db Bytes).

(** The entries whose key is an event key, with their sequence numbers. *)
Definition event_entries (l : list (string * Bytes)) : list (Z * Bytes) :=
  omap (fun e => (fun seq => (seq, e.2)) <$> parse_event_seq e.1) l.

(** [EventScan::seek]: past the maximum there is nothing to read. *)
Definition scan_from (d : Db Bytes) (run_id : string) (start : Z) : list (Z * Bytes) :=
  if MAX_EVENT_SEQ <? start then []
  else event_entries (db_scan (run_events_range run_id start).1 (run_events_range run_id start).2 d).

(** [EventScan::seek_before]. *)
Definition scan_before (d : Db Bytes) (run_id : string) (start end_ : Z) : list (Z * Bytes) :=
  if MAX_EVENT_SEQ <? end_ then scan_from d run_id start
  else if end_ <=? start then []
  else event_entries (db_scan (run_event_seq_prefix run_id start) (run_event_seq_prefix run_id end_) d).

(** [u32]'s [saturating_add]. *)
Definition saturating_add_u32 (a b : Z) : Z := Z.min (a + b) u32_max.

Definition recover_next_seq (d : Db Bytes) (run_id : string) : Z :=
  let max_seq := foldl Z.max 0 (fst <$> event_entries (db_scan_prefix (run_events_prefix run_id) d)) in
  Z.max (saturating_add_u32 max_seq 1) 1.

Definition first_event_seq_at_or_after (d : Db Bytes) (run_id : string) (seq : Z) : option Z :=
  fst <$> head (scan_from d run_id seq).

(** The search keeps a stored sequence number [lo] and a bound [hi] that no stored
    one reaches; [fuel] bounds the number of probes. *)
Fixpoint search_latest (fuel : nat) (d : Db Bytes) (run_id : string) (lo hi : Z) : option Z :=
  if lo + 1 <? hi then
    match fuel with
    | O => None
    | S fuel =>
        let mid := lo + (hi - lo) / 2 in
        match first_event_seq_at_or_after d run_id mid with
        | Some seq => search_latest fuel d run_id seq hi
        | None => search_latest fuel d run_id lo mid
        end
    end
  else Some lo.

(** The gap is at most [MAX_EVENT_SEQ] and halves with each probe. *)
Definition search_fuel : nat := 20.

Definition recover_latest_seq (d : Db Bytes) (run_id : string) : option Z :=
  match first_event_seq_at_or_after d run_id 1 with
  | None => Some 0
  | Some lo => search_latest search_fuel d run_id lo (MAX_EVENT_SEQ + 1)
  end.

(** ** What is stored for a run *)

(** Every key in the event namespace of the run is the key of a sequence number, one
    key per number. *)
Record keys_ok (d : Db Bytes) (run_id : string) : Prop := {
  keys_form k v : db_contents d !! k = Some v -> starts_with (run_events_prefix run_id) k = true ->
    exists seq ms, k = run_event_key run_id seq ms /\ 1 <= seq <= MAX_EVENT_SEQ;
  keys_unique seq ms ms' : 1 <= seq <= MAX_EVENT_SEQ -> is_Some (db_contents d !! run_event_key run_id seq ms) ->
    is_Some (db_contents d !! run_event_key run_id seq ms') -> run_event_key run_id seq ms = run_event_key run_id seq ms'
}.

Definition stored (d : Db Bytes) (run_id : string) (seq : Z) (v : Bytes) : Prop :=
  1 <= seq <= MAX_EVENT_SEQ /\ exists ms, db_contents d !! run_event_key run_id seq ms = Some v.

(** ** Facts about scans *)

Lemma key_le_trans : Transitive (@key_le Bytes).
Proof. intros a b c. unfold key_le. by intros; etrans. Qed.

Lemma key_le_total : Total (@key_le Bytes).
Proof. intros a b. unfold key_le. apply (total String.le). Qed.

Lemma sorted_entries_spec (m : gmap string Bytes) :
  StronglySorted key_le (sorted_entries m) /\ NoDup (fst <$> sorted_entries m) /\
  forall k v, (k, v) ∈ sorted_entries m <-> m !! k = Some v.
Proof.
  unfold sorted_entries. split; [apply StronglySorted_merge_sort; [exact key_le_trans|exact key_le_total]|].
  pose proof (merge_sort_Permutation key_le (map_to_list m)) as Hp. split.
  - rewrite Hp. apply NoDup_fst_map_to_list.
  - intros k v. rewrite Hp. apply elem_of_map_to_list.
Qed.

Lemma event_entries_elem l seq v :
  (seq, v) ∈ event_entries l <-> exists k, (k, v) ∈ l /\ parse_event_seq k = Some seq.
Proof.
  unfold event_entries. rewrite list_elem_of_omap. split.
  - intros ([k w] & Hk & He). cbn in He. apply fmap_Some in He as (q & Hq & [= -> ->]). eauto.
  - intros (k & Hk & Hq). exists (k, v). split; [done|]. cbn. by rewrite Hq.
Qed.

Context (run_id : string) (Hrun : run_id_ok run_id).

(** The keys of a list are event keys, one per sequence number. *)
Definition event_list (l : list (string * Bytes)) : Prop :=
  (forall e, e ∈ l -> exists seq ms, e.1 = run_event_key run_id seq ms /\ 1 <= seq <= MAX_EVENT_SEQ) /\
  (forall e e' seq ms ms', 1 <= seq <= MAX_EVENT_SEQ -> e ∈ l -> e' ∈ l -> e.1 = run_event_key run_id seq ms ->
     e'.1 = run_event_key run_id seq ms' -> e.1 = e'.1).

Lemma event_key_lt seq seq' ms ms' :
  0 <= seq <= MAX_EVENT_SEQ -> 0 <= seq' <= MAX_EVENT_SEQ -> seq <> seq' ->
  String.le (run_event_key run_id seq ms) (run_event_key run_id seq' ms') -> seq < seq'.
Proof.
  intros H1 H2 Hn Hle. unfold String.le, String.leb in Hle. rewrite compare_same_run in Hle by done.
  destruct (Z.compare_spec seq seq'); done.
Qed.

Lemma event_entries_sorted l :
  StronglySorted key_le l -> NoDup (fst <$> l) -> event_list l ->
  StronglySorted (fun a b => a.1 < b.1) (event_entries l).
Proof.
  induction l as [|[k v] l IH]; [constructor|]. intros [Hs Hk]%StronglySorted_inv [Hn Hd]%NoDup_cons [Hf Hu].
  destruct (Hf (k, v)) as (seq & ms & Hkey & Hq); [set_solver|]. cbn [fst] in Hkey.
  cbn [event_entries omap list_omap fst snd]. rewrite Hkey, parse_event_key by (done || lia). cbn [fmap option_fmap option_map].
  constructor.
  - apply IH; [done..|]. split; [set_solver|]. intros e e' seq0 ms0 ms0' Hr0 He He'. apply Hu; set_solver.
  - rewrite Forall_forall. intros [seq' v'] (k' & Hk' & Hp)%event_entries_elem. cbn [fst].
    destruct (Hf (k', v')) as (q & ms' & Hkey' & Hq'); [set_solver|]. cbn [fst] in Hkey'.
    rewrite Hkey', parse_event_key in Hp by (done || lia). injection Hp as <-.
    rewrite Forall_forall in Hk. specialize (Hk _ Hk'). unfold key_le in Hk. cbn [fst] in Hk. rewrite Hkey, Hkey' in Hk.
    eapply event_key_lt; [lia|lia| |exact Hk]. intros ->. apply Hn.
    apply list_elem_of_fmap. exists (k', v'). split; [|done].
    apply (Hu (k, v) (k', v') q ms ms'); [done|set_solver..].
Qed.

(** *** Keys in the event namespace *)

Lemma starts_with_append p s : starts_with p (p +:+ s) = true.
Proof. apply starts_with_spec. by exists s. Qed.

Lemma event_key_prefix seq ms : starts_with (run_events_prefix run_id) (run_event_key run_id seq ms) = true.
Proof.
  unfold run_events_prefix, run_event_key, key_with. set (leaf := pad6 seq +:+ _).
  replace (events_key run_id +:+ String SEP leaf) with ((events_key run_id +:+ String SEP "") +:+ leaf)
    by (by rewrite append_assoc).
  apply starts_with_append.
Qed.

(** Between the bounds of a scan there are only keys of the namespace. *)
Lemma range_prefix p x k :
  String.leb (p +:+ String SEP x) k = true -> String.ltb k (p +:+ String "001" "") = true ->
  starts_with (p +:+ String SEP "") k = true.
Proof.
  revert k. induction p as [|c p IH]; intros [|d k]; rewrite ?append_cons, ?append_nil_l; try done.
  - unfold String.leb, String.ltb. cbn [String.compare]. unfold Ascii.compare.
    change (N_of_ascii SEP) with 0%N. change (N_of_ascii "001") with 1%N.
    destruct (N.compare_spec 0 (N_of_ascii d)) as [H|H|H]; [|destruct (N.compare_spec (N_of_ascii d) 1); try lia; by destruct k|lia].
    intros _ _. assert (d = SEP) as ->; [|done]. apply (f_equal ascii_of_N) in H. rewrite ascii_N_embedding in H. by symmetry.
  - unfold String.leb, String.ltb, starts_with. cbn [String.compare strip_prefix]. unfold Ascii.compare.
    rewrite (N.compare_antisym (N_of_ascii c) (N_of_ascii d)).
    destruct (N.compare_spec (N_of_ascii c) (N_of_ascii d)) as [H|H|H]; cbn [CompOpp]; [|done..].
    assert (c = d) as <-.
    { apply (f_equal ascii_of_N) in H. by rewrite !ascii_N_embedding in H. }
    rewrite Ascii.eqb_refl. apply IH.
Qed.

Lemma in_range_prefix start k :
  in_key_range (run_events_range run_id start).1 (run_events_range run_id start).2 k = true ->
  starts_with (run_events_prefix run_id) k = true.
Proof. unfold in_key_range. intros [H1 H2]%andb_true_iff. by apply (range_prefix (events_key run_id) (pad6 start +:+ "-")). Qed.

(** *** What a selection of entries holds *)

Lemma selection_spec d (f : string -> bool) (P : Z -> bool) :
  keys_ok d run_id ->
  (forall k, f k = true -> starts_with (run_events_prefix run_id) k = true) ->
  (forall seq ms, 1 <= seq <= MAX_EVENT_SEQ -> f (run_event_key run_id seq ms) = P seq) ->
  let l := event_entries (filterb (fun e => f e.1) (sorted_entries (db_contents d))) in
  StronglySorted (fun a b => a.1 < b.1) l /\ forall seq v, (seq, v) ∈ l <-> stored d run_id seq v /\ P seq = true.
Proof.
  intros Hd Hf HP. cbn zeta. destruct (sorted_entries_spec (db_contents d)) as (Hs & Hn & He).
  assert (forall k v, (k, v) ∈ filterb (fun e => f e.1) (sorted_entries (db_contents d)) <->
            db_contents d !! k = Some v /\ f k = true) as Hl.
  { intros k v. rewrite filterb_elem. cbn [fst]. by rewrite He. }
  split.
  - apply event_entries_sorted; [by apply filterb_sorted|by apply filterb_NoDup|]. split.
    + intros [k v] [Hk Hfk]%Hl. by eapply keys_form; [..|apply Hf].
    + intros [k v] [k' v'] seq ms ms' Hq [Hk _]%Hl [Hk' _]%Hl. cbn [fst]. intros -> ->.
      eapply (keys_unique d run_id Hd); [done|by eexists..].
  - intros seq v. rewrite event_entries_elem. split.
    + intros (k & [Hk Hfk]%Hl & Hp). destruct (keys_form d run_id Hd k v Hk (Hf k Hfk)) as (q & ms & -> & Hq).
      rewrite parse_event_key in Hp by (done || lia). injection Hp as <-. rewrite HP in Hfk by done.
      split; [|done]. split; [done|]. by exists ms.
    + intros [(Hq & ms & Hv) Hp]. exists (run_event_key run_id seq ms). rewrite Hl, HP, parse_event_key by (done || lia). done.
Qed.

Lemma scan_from_spec d start :
  keys_ok d run_id -> 0 <= start ->
  StronglySorted (fun a b => a.1 < b.1) (scan_from d run_id start) /\
  forall seq v, (seq, v) ∈ scan_from d run_id start <-> stored d run_id seq v /\ start <= seq.
Proof.
  intros Hd H0. unfold scan_from. destruct (Z.ltb_spec MAX_EVENT_SEQ start) as [Hm|Hm].
  - split; [constructor|]. intros seq v. split; [intros H; by apply elem_of_nil in H|]. intros [[Hq _] Hle]. lia.
  - rewrite db_scan_spec. destruct (selection_spec d
      (in_key_range (run_events_range run_id start).1 (run_events_range run_id start).2) (Z.leb start) Hd) as [H1 H2].
    + apply in_range_prefix.
    + intros seq ms Hq. apply key_in_range; lia.
    + split; [done|]. intros seq v. rewrite H2. by rewrite Z.leb_le.
Qed.

Lemma str_compare_lt_trans a b c : String.compare a b = Lt -> String.compare b c = Lt -> String.compare a c = Lt.
Proof.
  revert b c. induction a as [|x a IH]; intros [|y b] [|z c]; cbn [String.compare]; try done. unfold Ascii.compare.
  destruct (N.compare_spec (N_of_ascii x) (N_of_ascii y)) as [H1|H1|H1]; [| |done];
    destruct (N.compare_spec (N_of_ascii y) (N_of_ascii z)) as [H2|H2|H2]; try done.
  - rewrite (proj2 (N.compare_eq_iff _ _)) by congruence. apply IH.
  - intros _ _. by rewrite (proj2 (N.compare_lt_iff _ _)) by lia.
  - intros _ _. by rewrite (proj2 (N.compare_lt_iff _ _)) by lia.
  - intros _ _. by rewrite (proj2 (N.compare_lt_iff _ _)) by lia.
Qed.

Lemma seq_prefix_in_namespace seq k :
  starts_with (run_event_seq_prefix run_id seq) k = true -> starts_with (run_events_prefix run_id) k = true.
Proof.
  unfold run_event_seq_prefix, run_events_prefix, key_with. intros [r ->]%starts_with_spec. apply starts_with_spec.
  exists ((pad6 seq +:+ "-") +:+ r). by rewrite !append_assoc, !append_cons, !append_nil_l, !append_assoc.
Qed.

Lemma between_in_namespace start end_ k :
  in_key_range (run_event_seq_prefix run_id start) (run_event_seq_prefix run_id end_) k = true ->
  starts_with (run_events_prefix run_id) k = true.
Proof.
  unfold in_key_range. intros [H1 H2]%andb_true_iff.
  apply (range_prefix (events_key run_id) (pad6 start +:+ "-") k H1).
  unfold String.ltb in H2 |- *. destruct (String.compare k (run_event_seq_prefix run_id end_)) eqn:Hc; [done| |done].
  assert (String.compare (run_event_seq_prefix run_id end_) (events_key run_id +:+ String "001" "") = Lt) as Hlt.
  { unfold run_event_seq_prefix, key_with. by rewrite compare_prefix. }
  by rewrite (str_compare_lt_trans _ _ _ Hc Hlt).
Qed.

Lemma scan_before_spec d start end_ :
  keys_ok d run_id -> 0 <= start -> 0 <= end_ ->
  StronglySorted (fun a b => a.1 < b.1) (scan_before d run_id start end_) /\
  forall seq v, (seq, v) ∈ scan_before d run_id start end_ <-> stored d run_id seq v /\ start <= seq < end_.
Proof.
  intros Hd H0 H1. unfold scan_before. destruct (Z.ltb_spec MAX_EVENT_SEQ end_) as [Hm|Hm].
  { destruct (scan_from_spec d start Hd H0) as [Hs He]. split; [done|]. intros seq v. rewrite He.
    split; [|tauto]. intros [Hq Hle]. pose proof Hq as [Hr _]. split; [done|lia]. }
  destruct (Z.leb_spec end_ start) as [Hle|Hlt].
  { split; [constructor|]. intros seq v. split; [intros H; by apply elem_of_nil in H|lia]. }
  rewrite db_scan_spec. destruct (selection_spec d
    (in_key_range (run_event_seq_prefix run_id start) (run_event_seq_prefix run_id end_))
    (fun seq => (start <=? seq) && (seq <? end_))%bool Hd) as [Hs He].
  - apply between_in_namespace.
  - intros seq ms Hq. apply key_between; lia.
  - split; [done|]. intros seq v. rewrite He, andb_true_iff, Z.leb_le, Z.ltb_lt. tauto.
Qed.

(** What is stored under one number. *)
Lemma seq_prefix_spec d seq :
  keys_ok d run_id -> 0 <= seq <= MAX_EVENT_SEQ ->
  forall q v, (q, v) ∈ event_entries (db_scan_prefix (run_event_seq_prefix run_id seq) d) <-> stored d run_id q v /\ q = seq.
Proof.
  intros Hd Hq q v. rewrite db_scan_prefix_spec.
  destruct (selection_spec d (starts_with (run_event_seq_prefix run_id seq)) (Z.eqb seq) Hd) as [_ He].
  - apply seq_prefix_in_namespace.
  - intros a ms Ha. apply key_of_seq; lia.
  - rewrite He, Z.eqb_eq. naive_solver.
Qed.

Lemma scan_prefix_spec d :
  keys_ok d run_id ->
  forall seq v, (seq, v) ∈ event_entries (db_scan_prefix (run_events_prefix run_id) d) <-> stored d run_id seq v.
Proof.
  intros Hd seq v. rewrite db_scan_prefix_spec.
  destruct (selection_spec d (starts_with (run_events_prefix run_id)) (fun _ => true) Hd) as [_ H2]; [done| |].
  - intros q ms _. apply event_key_prefix.
  - rewrite H2. tauto.
Qed.

(** ** The latest sequence number *)

Lemma first_at_or_after_spec d seq :
  keys_ok d run_id -> 0 <= seq ->
  match first_event_seq_at_or_after d run_id seq with
  | Some q => seq <= q /\ (exists v, stored d run_id q v) /\ forall q' v, stored d run_id q' v -> seq <= q' -> q <= q'
  | None => forall q v, stored d run_id q v -> q < seq
  end.
Proof.
  intros Hd H0. destruct (scan_from_spec d seq Hd H0) as [Hs He]. unfold first_event_seq_at_or_after.
  destruct (scan_from d run_id seq) as [|[q v] l]; cbn [head fmap option_fmap option_map fst].
  - intros q v Hq. destruct (Z.lt_ge_cases q seq) as [|Hle]; [done|]. exfalso.
    by eapply not_elem_of_nil, He.
  - destruct (proj1 (He q v)) as [Hq Hle]; [set_solver|]. split; [done|]. split; [by exists v|].
    intros q' v' Hq' Hle'. assert ((q', v') ∈ (q, v) :: l) as Hin by (by apply He).
    apply elem_of_cons in Hin as [[= -> ->]|Hin]; [lia|].
    apply StronglySorted_inv in Hs as [_ Hf]. rewrite Forall_forall in Hf. specialize (Hf _ Hin). cbn in Hf. lia.
Qed.

(** [m] is the largest stored sequence number, 0 when there is none. *)
Definition latest (d : Db Bytes) (m : Z) : Prop :=
  (m = 0 /\ (forall q v, ~ stored d run_id q v)) \/
  ((exists v, stored d run_id m v) /\ forall q v, stored d run_id q v -> q <= m).

Lemma search_latest_spec fuel d lo hi :
  keys_ok d run_id -> (exists v, stored d run_id lo v) -> (forall q v, stored d run_id q v -> q < hi) ->
  hi - lo <= 2 ^ Z.of_nat fuel ->
  exists m, search_latest fuel d run_id lo hi = Some m /\ latest d m.
Proof.
  intros Hd. revert lo hi. induction fuel as [|fuel IH]; intros lo hi Hlo Hhi Hf; cbn [search_latest];
    destruct (Z.ltb_spec (lo + 1) hi) as [Hlt|Hge].
  - cbn in Hf. lia.
  - exists lo. split; [done|]. right. split; [done|]. intros q v Hq%Hhi. lia.
  - rewrite Nat2Z.inj_succ, Z.pow_succ_r in Hf by lia.
    assert (1 <= lo) as Hl by (destruct Hlo as [v [Hr _]]; lia).
    pose proof (Z.div_mod (hi - lo) 2 ltac:(lia)). pose proof (Z.mod_pos_bound (hi - lo) 2 ltac:(lia)).
    set (mid := lo + (hi - lo) / 2) in *.
    pose proof (first_at_or_after_spec d mid Hd ltac:(lia)) as Hp.
    destruct (first_event_seq_at_or_after d run_id mid) as [q|].
    + destruct Hp as (H1 & H2 & _). apply IH; [done|done|lia].
    + apply IH; [done|done|lia].
  - exists lo. split; [done|]. right. split; [done|]. intros q v Hq%Hhi. lia.
Qed.

Lemma recover_latest_spec d : keys_ok d run_id -> exists m, recover_latest_seq d run_id = Some m /\ latest d m.
Proof.
  intros Hd. unfold recover_latest_seq. pose proof (first_at_or_after_spec d 1 Hd ltac:(lia)) as Hp.
  destruct (first_event_seq_at_or_after d run_id 1) as [lo|].
  - destruct Hp as (H1 & H2 & _). apply search_latest_spec; [done|done| |].
    + intros q v [Hq _]. lia.
    + change (2 ^ Z.of_nat search_fuel) with 1048576. unfold MAX_EVENT_SEQ. lia.
  - exists 0. split; [done|]. left. split; [done|]. intros q v Hq. pose proof Hq as [Hr _]. specialize (Hp q v Hq). lia.
Qed.

Lemma recover_next_spec d : keys_ok d run_id -> exists m, recover_next_seq d run_id = m + 1 /\ latest d m.
Proof.
  intros Hd. unfold recover_next_seq. set (l := fst <$> _). exists (foldl Z.max 0 l).
  destruct (foldl_max_spec 0 l) as (H1 & H2 & H3).
  assert (forall q, q ∈ l <-> exists v, stored d run_id q v) as Hl.
  { intros q. unfold l. rewrite list_elem_of_fmap. split.
    - intros ([q' v] & -> & Hq%scan_prefix_spec); [by exists v|done].
    - intros [v Hv]. exists (q, v). split; [done|]. by apply scan_prefix_spec. }
  split.
  - assert (foldl Z.max 0 l <= MAX_EVENT_SEQ) as Hm.
    { destruct H3 as [->|[v [Hv _]]%Hl]; [by vm_compute|lia]. }
    unfold saturating_add_u32, u32_max, MAX_EVENT_SEQ in *. lia.
  - destruct H3 as [H3|H3%Hl].
    + left. split; [done|]. intros q v Hq. assert (q <= 0) by (rewrite <- H3; apply H2, Hl; by exists v).
      destruct Hq as [Hq _]. lia.
    + right. split; [done|]. intros q v Hq. apply H2, Hl. by exists v.
Qed.

Lemma latest_unique d m m' : latest d m -> latest d m' -> m = m'.
Proof.
  intros [[-> H1]|[[v H1] H2]] [[-> H3]|[[v' H3] H4]]; [done| | |].
  - by apply H1 in H3.
  - by apply H3 in H1.
  - pose proof (H2 _ _ H3). pose proof (H4 _ _ H1). lia.
Qed.

(** ** Appending *)

Lemma stored_put d n ms v :
  1 <= n <= MAX_EVENT_SEQ -> (forall q w, stored d run_id q w -> q <> n) ->
  forall q w, stored (db_put (run_event_key run_id n ms) v d) run_id q w <-> (q = n /\ w = v) \/ stored d run_id q w.
Proof.
  intros Hn Hfree q w. unfold stored. setoid_rewrite db_put_contents. split.
  - intros [Hq [ms' Hl]]. apply lookup_insert_Some in Hl as [[Hk <-]|[_ Hl]]; [|right; eauto].
    left. split; [|done]. apply (f_equal parse_event_seq) in Hk. rewrite !parse_event_key in Hk by (done || lia). congruence.
  - intros [[-> ->]|[Hq [ms' Hl]]].
    + split; [done|]. exists ms. apply lookup_insert_eq.
    + split; [done|]. exists ms'. rewrite lookup_insert_ne; [done|]. intros Hk.
      apply (f_equal parse_event_seq) in Hk. rewrite !parse_event_key in Hk by (done || lia). injection Hk as ->.
      by apply (Hfree q w); [split; [done|exists ms']|].
Qed.

Lemma keys_ok_put d n ms v :
  keys_ok d run_id -> 1 <= n <= MAX_EVENT_SEQ -> (forall q w, stored d run_id q w -> q <> n) ->
  keys_ok (db_put (run_event_key run_id n ms) v d) run_id.
Proof.
  intros Hd Hn Hfree. split.
  - intros k w. rewrite db_put_contents. intros [[<- <-]|[_ Hl]]%lookup_insert_Some Hs; [eauto|].
    by eapply (keys_form d run_id Hd).
  - intros seq m1 m2 Hq. rewrite !db_put_contents. intros H1 H2.
    assert (forall m, is_Some (db_contents d !! run_event_key run_id seq m) -> seq <> n) as Hf.
    { intros m [w Hw]. apply (Hfree seq w). split; [done|by exists m]. }
    assert (forall m, run_event_key run_id n ms = run_event_key run_id seq m -> n = seq) as Hi.
    { intros m Hk. apply (f_equal parse_event_seq) in Hk. rewrite !parse_event_key in Hk by (done || lia). congruence. }
    apply lookup_insert_is_Some in H1 as [H1|[_ H1]]; apply lookup_insert_is_Some in H2 as [H2|[_ H2]].
    + congruence.
    + exfalso. apply (Hf m2 H2). symmetry. by apply (Hi m1).
    + exfalso. apply (Hf m1 H1). symmetry. by apply (Hi m2).
    + by apply (keys_unique d run_id Hd).
Qed.

(** A new number above all stored ones. *)
Lemma put_below d n ms v n' :
  keys_ok d run_id /\ (forall q w, stored d run_id q w -> q < n) -> 1 <= n <= MAX_EVENT_SEQ -> n < n' ->
  keys_ok (db_put (run_event_key run_id n ms) v d) run_id /\
  forall q w, stored (db_put (run_event_key run_id n ms) v d) run_id q w -> q < n'.
Proof.
  intros [Hd Hlt] Hn Hn'. assert (forall q w, stored d run_id q w -> q <> n) as Hfree by (intros q w Hq%Hlt; lia).
  split; [by apply keys_ok_put|]. intros q w [[-> _]|Hq%Hlt]%stored_put; [lia|lia|done|done].
Qed.

Lemma scan_from_put d n ms v start :
  keys_ok d run_id -> 1 <= n <= MAX_EVENT_SEQ -> 0 <= start -> (forall q w, stored d run_id q w -> q < n) ->
  scan_from (db_put (run_event_key run_id n ms) v d) run_id start =
  scan_from d run_id start ++ (if start <=? n then [(n, v)] else []).
Proof.
  intros Hd Hn H0 Hlt. assert (forall q w, stored d run_id q w -> q <> n) as Hfree by (intros q w Hq%Hlt; lia).
  destruct (scan_from_spec d start Hd H0) as [Hs He].
  destruct (scan_from_spec (db_put (run_event_key run_id n ms) v d) start) as [Hs' He']; [by apply keys_ok_put|done|].
  apply sorted_by_seq_unique; [done| |].
  - clear He' Hs'. assert (Forall (fun e => e.1 < n) (scan_from d run_id start)) as Hf.
    { rewrite Forall_forall. intros [q w] Hq. apply He in Hq as [Hq _]. by apply Hlt in Hq. }
    clear He. destruct (start <=? n); [|by rewrite app_nil_r].
    induction Hs as [|e l Hs IH Hl]; cbn [app]; [by repeat constructor|]. apply Forall_cons in Hf as [H1 H2].
    constructor; [by apply IH|]. apply Forall_app. split; [done|]. by repeat constructor.
  - intros [q w]. rewrite He', elem_of_app, He, stored_put by done.
    destruct (Z.leb_spec start n) as [Hle|Hgt].
    + rewrite list_elem_of_singleton. split; [intros [[[-> ->]|Hq] H]; auto|].
      intros [[Hq H]|[= -> ->]]; auto.
    + split; [intros [[[-> ->]|Hq] H]; [lia|auto]|]. intros [[Hq H]|H]; [auto|by apply elem_of_nil in H].
Qed.
End scan.

(** ** The database as a map *)

#[export] Instance map_db (Bytes : Type) : SlateDb Bytes := {|
  Db := gmap string Bytes;
  db_contents d := d;
  db_put k v d := <[k := v]> d;
  db_get k d := d !! k;
  db_delete k d := delete k d;
  db_scan lo hi d := filterb (fun e => in_key_range lo hi e.1) (sorted_entries d);
  db_scan_prefix p d := filterb (fun e => starts_with p e.1) (sorted_entries d);
  db_put_contents k v d := eq_refl;
  db_get_spec k d := eq_refl;
  db_delete_contents k d := eq_refl;
  db_scan_spec lo hi d := eq_refl;
  db_scan_prefix_spec p d := eq_refl
|}.

(** The binary search for the latest event agrees with the full scan.  On any
    database whose keys in the run's namespace are event keys (gaps allowed), the
    search ends within its 20 probes with the largest stored sequence number (0 when
    there is none), which is one less than the next number the full scan recovers. *)
Theorem latest_seq_search {Bytes} `{!SlateDb Bytes} (d : Db Bytes) run_id :
  run_id_ok run_id -> keys_ok d run_id ->
  recover_latest_seq d run_id = Some (recover_next_seq d run_id - 1) /\
  latest run_id d (recover_next_seq d run_id - 1).
Proof.
  intros Hr Hd. destruct (recover_latest_spec run_id Hr d Hd) as (m & -> & Hm).
  destruct (recover_next_spec run_id Hr d Hd) as (m' & -> & Hm').
  rewrite (latest_unique run_id d m m' Hm Hm'). replace (m' + 1 - 1) with m' by lia. done.
Qed.

Definition sample_db : Db nat :=
  db_put (run_event_key "r" 7 30) 3%nat (db_put (run_event_key "r" 2 20) 2%nat
    (db_put (run_event_key "r" 1 10) 1%nat (∅ : gmap string nat))).

Lemma empty_db_below : keys_ok (∅ : Db nat) "r" /\ forall q w, stored (∅ : Db nat) "r" q w -> q < 1.
Proof.
  split; [split|].
  - intros k v H. by apply (lookup_empty_Some k v) in H.
  - intros seq ms ms' _ [v Hv]. by apply (lookup_empty_Some _ v) in Hv.
  - intros q w [_ [ms Hv]]. by apply (lookup_empty_Some _ w) in Hv.
Qed.

Lemma sample_db_ok : keys_ok sample_db "r".
Proof.
  apply (put_below "r" eq_refl _ 7 30 3%nat 8); [|by vm_compute|done].
  apply (put_below "r" eq_refl _ 2 20 2%nat 7); [|by vm_compute|done].
  apply (put_below "r" eq_refl _ 1 10 1%nat 2); [|by vm_compute|done]. exact empty_db_below.
Qed.

Lemma latest_seq_search_witness : recover_latest_seq sample_db "r" = Some 7 /\ recover_next_seq sample_db "r" = 8.
Proof.
  split; [|vm_compute; reflexivity]. rewrite (proj1 (latest_seq_search sample_db "r" eq_refl sample_db_ok)).
  vm_compute. reflexivity.
Defined.
