(* ===== verification/Timing.v ===== *)
(** * Wall and active time (fabro-types/src/timing.rs)

    Instants are chrono's [DateTime<Utc>], modelled as nanoseconds since the
    epoch; the breakdown of a stage or a run is in milliseconds, each field a
    [u64]. *)

From S2P Require Import Prelude RustStr RustNum Outcome.
Local Open Scope Z_scope.

Definition DateTime := Z.

(** [end.signed_duration_since(start).num_milliseconds().max(0)]: chrono
    truncates towards zero. *)
Definition elapsed_ms (start end_ : DateTime) : Z := Z.max (Z.quot (end_ - start) 1000000) 0.

#[export] Instance StageTiming_eq_dec : EqDecision StageTiming.
Proof. solve_decision. Defined.

Definition StageTiming_wall_only (wall : Z) : StageTiming := StageTiming_new wall 0 0.
Definition StageTiming_active_only (inference tool : Z) : StageTiming := StageTiming_new 0 inference tool.

Definition clamped_to_wall (t : StageTiming) : StageTiming :=
  let active := inference_time_ms t + tool_time_ms t in
  if active <=? wall_time_ms t then t
  else
    let inference := inference_time_ms t * wall_time_ms t / active in
    StageTiming_new (wall_time_ms t) inference (saturating_sub (wall_time_ms t) inference).

Definition StageTiming_saturating_add (a b : StageTiming) : StageTiming :=
  StageTiming_new (saturating_add_u64 (wall_time_ms a) (wall_time_ms b))
    (saturating_add_u64 (inference_time_ms a) (inference_time_ms b))
    (saturating_add_u64 (tool_time_ms a) (tool_time_ms b)).

Record RunTiming := mkRunTiming {
  run_wall_ms : Z;
  run_inference_ms : Z;
  run_tool_ms : Z;
  run_active_ms : Z
}.

Definition RunTiming_new (wall inference tool : Z) : RunTiming :=
  mkRunTiming wall inference tool (saturating_add_u64 inference tool).

Definition RunTiming_default : RunTiming := mkRunTiming 0 0 0 0.

Definition RunTiming_saturating_add (a b : RunTiming) : RunTiming :=
  RunTiming_new (saturating_add_u64 (run_wall_ms a) (run_wall_ms b))
    (saturating_add_u64 (run_inference_ms a) (run_inference_ms b))
    (saturating_add_u64 (run_tool_ms a) (run_tool_ms b)).

Definition with_wall_time (wall : Z) (t : RunTiming) : RunTiming :=
  mkRunTiming wall (run_inference_ms t) (run_tool_ms t) (run_active_ms t).

Definition RunTiming_from (t : StageTiming) : RunTiming :=
  mkRunTiming (wall_time_ms t) (inference_time_ms t) (tool_time_ms t) (active_time_ms t).

(** ** Facts *)

(** A field of a timing is a [u64]. *)
Definition is_u64 (z : Z) : Prop := 0 <= z <= u64_max.

Definition timing_ok (t : StageTiming) : Prop :=
  is_u64 (wall_time_ms t) /\ is_u64 (inference_time_ms t) /\ is_u64 (tool_time_ms t) /\
  active_time_ms t = saturating_add_u64 (inference_time_ms t) (tool_time_ms t).

Lemma saturating_add_u64_ok a b : is_u64 a -> is_u64 b -> is_u64 (saturating_add_u64 a b).
Proof. unfold is_u64, saturating_add_u64. lia. Qed.

Lemma StageTiming_new_ok w i t : is_u64 w -> is_u64 i -> is_u64 t -> timing_ok (StageTiming_new w i t).
Proof. unfold timing_ok. cbn. tauto. Qed.

Lemma elapsed_ms_nonneg s e : 0 <= elapsed_ms s e.
Proof. unfold elapsed_ms. lia. Qed.

Lemma elapsed_ms_mono s e e' : e <= e' -> elapsed_ms s e <= elapsed_ms s e'.
Proof.
  intros H. unfold elapsed_ms. pose proof (Z.quot_le_mono (e - s) (e' - s) 1000000). lia.
Qed.

(** The clamp keeps the wall time and bounds the active time by it; what it
    scales still adds up to the whole wall time. *)
Lemma clamped_to_wall_spec t :
  timing_ok t ->
  let c := clamped_to_wall t in
  timing_ok c /\ wall_time_ms c = wall_time_ms t /\ active_time_ms c <= wall_time_ms t /\
  active_time_ms c = inference_time_ms c + tool_time_ms c /\
  (inference_time_ms t + tool_time_ms t <= wall_time_ms t -> c = t) /\
  (wall_time_ms t < inference_time_ms t + tool_time_ms t -> active_time_ms c = wall_time_ms t).
Proof.
  intros (Hw & Hi & Ht & Ha) c. unfold c, clamped_to_wall.
  destruct (Z.leb_spec (inference_time_ms t + tool_time_ms t) (wall_time_ms t)) as [Hle|Hgt].
  - unfold is_u64, saturating_add_u64 in *. split; [by repeat split; try lia|]. repeat split; lia.
  - unfold is_u64 in *. set (s := inference_time_ms t * wall_time_ms t / _).
    assert (0 <= s <= wall_time_ms t) as Hs.
    { split; [apply Z.div_pos; nia|]. apply Z.div_le_upper_bound; nia. }
    clearbody s. cbn. unfold saturating_sub, saturating_add_u64, timing_ok, is_u64. cbn.
    unfold saturating_add_u64. repeat split; lia.
Qed.

Lemma clamped_to_wall_wall t : wall_time_ms (clamped_to_wall t) = wall_time_ms t.
Proof. unfold clamped_to_wall. by destruct (_ <=? _). Qed.
