(* ===== verification/Billing.v ===== *)
(** * Token counts and costs (fabro-model/src/billing.rs)

    Token counts are [i64] and wrap around in a release build; costs are
    [UsdMicros], which saturate. *)

From S2P Require Import Prelude RustStr RustNum Retry.
Local Open Scope Z_scope.

Inductive Speed := SpeedStandard | SpeedFast.

#[export] Instance Speed_eq_dec : EqDecision Speed.
Proof. solve_decision. Defined.

Definition Speed_to_string (s : Speed) : string := match s with SpeedStandard => "standard" | SpeedFast => "fast" end.

Record ModelRef := mkModelRef {
  mr_provider : string;
  mr_model_id : string;
  mr_speed : option Speed
}.

#[export] Instance ModelRef_eq_dec : EqDecision ModelRef.
Proof. solve_decision. Defined.

Record TokenCounts := mkTokens {
  tc_input : Z;
  tc_output : Z;
  tc_reasoning : Z;
  tc_cache_read : Z;
  tc_cache_write : Z
}.

Definition TokenCounts_default : TokenCounts := mkTokens 0 0 0 0 0.

Definition add_i64 (a b : Z) : Z := wrap_i64 (a + b).

Definition billable_output_tokens (t : TokenCounts) : Z := add_i64 (tc_output t) (tc_reasoning t).

Definition total_tokens (t : TokenCounts) : Z :=
  add_i64 (add_i64 (add_i64 (tc_input t) (billable_output_tokens t)) (tc_cache_read t)) (tc_cache_write t).

Definition add_tokens (a b : TokenCounts) : TokenCounts :=
  mkTokens (add_i64 (tc_input a) (tc_input b)) (add_i64 (tc_output a) (tc_output b))
    (add_i64 (tc_reasoning a) (tc_reasoning b)) (add_i64 (tc_cache_read a) (tc_cache_read b))
    (add_i64 (tc_cache_write a) (tc_cache_write b)).

(** What a provider's bill depends on beside the token counts. *)
Record GeminiStorageSegment := mkSegment { seg_cached_tokens : Z; seg_ttl_seconds : Z }.

Inductive ModelBillingFacts :=
| OpenAiFacts
| AnthropicFacts (cache_write_5m_tokens cache_write_1h_tokens : Z)
| GeminiFacts (storage_segments : list GeminiStorageSegment).

(** The model of a call, its tokens, the billing facts, and the cost. *)
Record BilledModelUsage := mkBilledUsage {
  bu_model : ModelRef;
  bu_tokens : TokenCounts;
  bu_facts : ModelBillingFacts;
  bu_total_usd_micros : option Z
}.

Record BilledTokenCounts := mkBilled {
  bt_input : Z;
  bt_output : Z;
  bt_total : Z;
  bt_reasoning : Z;
  bt_cache_read : Z;
  bt_cache_write : Z;
  bt_total_usd_micros : option Z
}.

Definition BilledTokenCounts_default : BilledTokenCounts := mkBilled 0 0 0 0 0 0 None.

Definition saturating_add_i64 (a b : Z) : Z := Z.max i64_min (Z.min (a + b) i64_max).

(** The total stays [None] until a cost is observed. *)
Definition accumulate_optional_usd_micros (total cost : option Z) : option Z :=
  match cost with
  | Some c => Some (saturating_add_i64 (default 0 total) c)
  | None => total
  end.

Definition from_billed_usage (billed : list BilledModelUsage) : BilledTokenCounts :=
  let tokens := foldl (fun acc b => add_tokens acc (bu_tokens b)) TokenCounts_default billed in
  mkBilled (tc_input tokens) (tc_output tokens) (total_tokens tokens) (tc_reasoning tokens)
    (tc_cache_read tokens) (tc_cache_write tokens)
    (foldl (fun acc b => accumulate_optional_usd_micros acc (bu_total_usd_micros b)) None billed).

Definition token_counts (b : BilledTokenCounts) : TokenCounts :=
  mkTokens (bt_input b) (bt_output b) (bt_reasoning b) (bt_cache_read b) (bt_cache_write b).

Definition add_counts (source b : BilledTokenCounts) : BilledTokenCounts :=
  mkBilled (add_i64 (bt_input b) (bt_input source)) (add_i64 (bt_output b) (bt_output source))
    (add_i64 (bt_total b) (bt_total source)) (add_i64 (bt_reasoning b) (bt_reasoning source))
    (add_i64 (bt_cache_read b) (bt_cache_read source)) (add_i64 (bt_cache_write b) (bt_cache_write source))
    (accumulate_optional_usd_micros (bt_total_usd_micros b) (bt_total_usd_micros source)).

Definition add_billed_usage (u : BilledModelUsage) (b : BilledTokenCounts) : BilledTokenCounts :=
  let t := bu_tokens u in
  mkBilled (add_i64 (bt_input b) (tc_input t)) (add_i64 (bt_output b) (tc_output t))
    (add_i64 (bt_total b) (total_tokens t)) (add_i64 (bt_reasoning b) (tc_reasoning t))
    (add_i64 (bt_cache_read b) (tc_cache_read t)) (add_i64 (bt_cache_write b) (tc_cache_write t))
    (accumulate_optional_usd_micros (bt_total_usd_micros b) (bu_total_usd_micros u)).

Definition replace_with_billed_usage (u : BilledModelUsage) : BilledTokenCounts := from_billed_usage [u].

Definition billed_is_zero (b : BilledTokenCounts) : bool :=
  ((bt_input b =? 0) && (bt_output b =? 0) && (bt_total b =? 0) && (bt_reasoning b =? 0) &&
   (bt_cache_read b =? 0) && (bt_cache_write b =? 0) && (default 0 (bt_total_usd_micros b) =? 0))%bool.

(** A cost the provider reports replaces the estimate. *)
Definition usage_with_reported_cost (cost : option Z) (u : BilledModelUsage) : BilledModelUsage :=
  match cost with
  | Some c => mkBilledUsage (bu_model u) (bu_tokens u) (bu_facts u) (Some c)
  | None => u
  end.

Definition counts_with_reported_cost (cost : option Z) (b : BilledTokenCounts) : BilledTokenCounts :=
  match cost with
  | Some c => mkBilled (bt_input b) (bt_output b) (bt_total b) (bt_reasoning b) (bt_cache_read b) (bt_cache_write b) (Some c)
  | None => b
  end.

(** ** Adding up *)

Lemma wrap_i64_wrap a b : wrap_i64 (wrap_i64 a + b) = wrap_i64 (a + b).
Proof.
  unfold wrap_i64. f_equal. replace ((a + 2 ^ 63) mod 2 ^ 64 - 2 ^ 63 + b + 2 ^ 63) with ((a + 2 ^ 63) mod 2 ^ 64 + b) by lia.
  rewrite Zplus_mod_idemp_l. f_equal. lia.
Qed.

Lemma wrap_i64_wrap_r a b : wrap_i64 (a + wrap_i64 b) = wrap_i64 (a + b).
Proof. by rewrite Z.add_comm, wrap_i64_wrap, Z.add_comm. Qed.

Lemma add_i64_assoc a b c : add_i64 (add_i64 a b) c = add_i64 a (add_i64 b c).
Proof. unfold add_i64. rewrite wrap_i64_wrap, wrap_i64_wrap_r. f_equal. lia. Qed.

Lemma add_i64_comm a b : add_i64 a b = add_i64 b a.
Proof. unfold add_i64. f_equal. lia. Qed.

Lemma add_i64_swap a b c d : add_i64 (add_i64 a b) (add_i64 c d) = add_i64 (add_i64 a c) (add_i64 b d).
Proof. rewrite !add_i64_assoc. f_equal. rewrite <- !add_i64_assoc. f_equal. apply add_i64_comm. Qed.

Lemma total_tokens_add a b : total_tokens (add_tokens a b) = add_i64 (total_tokens a) (total_tokens b).
Proof.
  unfold total_tokens, billable_output_tokens, add_tokens. cbn [tc_input tc_output tc_reasoning tc_cache_read tc_cache_write].
  by rewrite (add_i64_swap (tc_output a)), (add_i64_swap (tc_input a)), (add_i64_swap _ _ (tc_cache_read a)),
    (add_i64_swap _ _ (tc_cache_write a)).
Qed.

(** Counting a list at once is counting its entries one by one. *)
Lemma from_billed_usage_snoc l u : from_billed_usage (l ++ [u]) = add_billed_usage u (from_billed_usage l).
Proof.
  unfold from_billed_usage. rewrite !foldl_snoc. set (t := foldl _ TokenCounts_default l).
  unfold add_billed_usage. cbn [bt_input bt_output bt_total bt_reasoning bt_cache_read bt_cache_write bt_total_usd_micros].
  by rewrite total_tokens_add.
Qed.

(** ** Prices of model calls (fabro-model/src/billing.rs)

    Prices are micro-dollars per million tokens.  A charge is an exact product at
    128 bits, divided with truncation; the charges of a call are added with
    saturation.  The theorem compares the bill with the exact cost. *)


(** ** Money *)

Definition TOKENS_PER_MTOK : Z := 1000000.

Definition saturating_i128_to_i64 (z : Z) : Z := Z.max i64_min (Z.min z i64_max).

Definition wrap_i128 (z : Z) : Z := (z + 2 ^ 127) mod 2 ^ 128 - 2 ^ 127.

(** [f64::round] of [m * 2^e], for a positive [m]: ties away from zero. *)
Definition round_half_away (m e : Z) : Z :=
  if 0 <=? e then m * 2 ^ e else (m + 2 ^ (- e - 1)) / 2 ^ (- e).

(** The sign of a NaN is not modelled. *)
Definition saturating_rounded_f64_to_i64 (x : f64) : Z :=
  match x with
  | S754_nan => i64_max
  | S754_zero _ => 0
  | S754_infinity s => if s : bool then i64_min else i64_max
  | S754_finite s m e =>
      let z := cond_Zopp s (round_half_away (Zpos m) e) in
      if z <=? i64_min then i64_min else if 2 ^ 63 <=? z then i64_max else z
  end.

(** [UsdMicros::from_usd] and [PricePerMTok::from_usd]. *)
Definition from_usd (usd : f64) : Z := saturating_rounded_f64_to_i64 (f64_mul usd (f64_of_Z 1000000)).

(** A price is the number of its micro-dollars. *)
Definition PricePerMTok := Z.

Definition saturating_mul_i64 (a b : Z) : Z := Z.max i64_min (Z.min (a * b) i64_max).

Definition multiply_ratio (p : PricePerMTok) (numerator denominator : Z) : PricePerMTok :=
  Z.quot (saturating_mul_i64 p numerator) denominator.

Definition bill (p : PricePerMTok) (tokens : Z) : Z := saturating_i128_to_i64 (Z.quot (tokens * p) TOKENS_PER_MTOK).

(** [total += price.bill(tokens)], where there is a price. *)
Definition add_bill (p : option PricePerMTok) (tokens total : Z) : Z :=
  match p with
  | Some p => saturating_add_i64 total (bill p tokens)
  | None => total
  end.

(** ** Prices *)

Inductive BillingPolicy := PolicyOpenAi | PolicyAnthropic | PolicyGemini | PolicyNone.

Record ModelCosts := mkCosts {
  input_cost_per_mtok : option f64;
  output_cost_per_mtok : option f64;
  cache_input_cost_per_mtok : option f64
}.

Record OpenAiModelPricing := mkOpenAi { oa_input : PricePerMTok; oa_cached_input : option PricePerMTok; oa_output : PricePerMTok }.

Record AnthropicModelPricing := mkAnthropic {
  an_input : PricePerMTok;
  an_cache_read : option PricePerMTok;
  an_cache_write_5m : option PricePerMTok;
  an_cache_write_1h : option PricePerMTok;
  an_output : PricePerMTok
}.

(** [gm_storage] is the price of a million tokens per second. *)
Record GeminiModelPricing := mkGemini {
  gm_input : PricePerMTok;
  gm_output : PricePerMTok;
  gm_cached_input : option PricePerMTok;
  gm_storage : option Z
}.

Inductive ModelPricingPolicy :=
| OpenAiPolicy (p : OpenAiModelPricing)
| AnthropicPolicy (p : AnthropicModelPricing)
| GeminiPolicy (p : GeminiModelPricing).

Record ModelPricing := mkPricing { mp_model : ModelRef; mp_policy : ModelPricingPolicy }.

Definition facts_for_policy (policy : BillingPolicy) (t : TokenCounts) : option ModelBillingFacts :=
  match policy with
  | PolicyOpenAi => Some OpenAiFacts
  | PolicyAnthropic => Some (AnthropicFacts (tc_cache_write t) 0)
  | PolicyGemini => Some (GeminiFacts [])
  | PolicyNone => None
  end.

(** Costs for a speed the model does not offer do not exist. *)
Definition merge_cost_override (base over : ModelCosts) : ModelCosts :=
  mkCosts (or_else (input_cost_per_mtok over) (input_cost_per_mtok base))
    (or_else (output_cost_per_mtok over) (output_cost_per_mtok base))
    (or_else (cache_input_cost_per_mtok over) (cache_input_cost_per_mtok base)).

Definition costs_for_speed (costs : ModelCosts) (speeds : list Speed) (speed_costs : Speed -> option ModelCosts)
    (speed : option Speed) : option ModelCosts :=
  match speed with
  | None | Some SpeedStandard => Some costs
  | Some s =>
      if bool_decide (s ∈ speeds) then
        Some (match speed_costs s with Some over => merge_cost_override costs over | None => costs end)
      else None
  end.

Definition anthropic_pricing_policy (input output : PricePerMTok) (cached : option PricePerMTok) : ModelPricingPolicy :=
  AnthropicPolicy (mkAnthropic input cached (Some (multiply_ratio input 5 4)) (Some (multiply_ratio input 2 1)) output).

Definition pricing_policy_for_billing_policy (policy : BillingPolicy) (input output : PricePerMTok)
    (cached : option PricePerMTok) : option ModelPricingPolicy :=
  match policy with
  | PolicyAnthropic => Some (anthropic_pricing_policy input output cached)
  | PolicyGemini => Some (GeminiPolicy (mkGemini input output cached None))
  | PolicyOpenAi => Some (OpenAiPolicy (mkOpenAi input cached output))
  | PolicyNone => None
  end.

Definition pricing_for_model_costs (model_id provider : string) (policy : BillingPolicy) (speed : option Speed)
    (costs : ModelCosts) : option ModelPricing :=
  input ← from_usd <$> input_cost_per_mtok costs;
  output ← from_usd <$> output_cost_per_mtok costs;
  p ← pricing_policy_for_billing_policy policy input output (from_usd <$> cache_input_cost_per_mtok costs);
  Some (mkPricing (mkModelRef provider model_id speed) p).

(** ** Bills *)

Definition bill_openai_like (p : OpenAiModelPricing) (t : TokenCounts) : Z :=
  add_bill (oa_cached_input p) (tc_cache_read t)
    (add_bill (Some (oa_output p)) (billable_output_tokens t) (bill (oa_input p) (tc_input t))).

Definition bill_anthropic (p : AnthropicModelPricing) (t : TokenCounts) (write_5m write_1h : Z) : Z :=
  add_bill (an_cache_write_1h p) write_1h
    (add_bill (an_cache_write_5m p) write_5m
      (add_bill (an_cache_read p) (tc_cache_read t)
        (add_bill (Some (an_output p)) (billable_output_tokens t) (bill (an_input p) (tc_input t))))).

Definition storage_charge (price : Z) (seg : GeminiStorageSegment) : Z :=
  saturating_i128_to_i64 (Z.quot (wrap_i128 (seg_cached_tokens seg * seg_ttl_seconds seg * price)) TOKENS_PER_MTOK).

Definition bill_gemini (p : GeminiModelPricing) (t : TokenCounts) (segments : list GeminiStorageSegment) : option Z :=
  if ((0 <? tc_cache_read t) && negb (is_some (gm_cached_input p)))%bool then None
  else if (negb (bool_decide (segments = [])) && negb (is_some (gm_storage p)))%bool then None
  else
    let total := add_bill (gm_cached_input p) (tc_cache_read t)
                   (add_bill (Some (gm_output p)) (billable_output_tokens t) (bill (gm_input p) (tc_input t))) in
    Some (match gm_storage p with
          | Some price => saturating_add_i64 total (foldl saturating_add_i64 0 (storage_charge price <$> segments))
          | None => total
          end).

Definition model_bill (p : ModelPricing) (model : ModelRef) (t : TokenCounts) (facts : ModelBillingFacts) : option Z :=
  if decide (model = mp_model p) then
    match mp_policy p, facts with
    | OpenAiPolicy p, OpenAiFacts => Some (bill_openai_like p t)
    | AnthropicPolicy p, AnthropicFacts w5 w1 => Some (bill_anthropic p t w5 w1)
    | GeminiPolicy p, GeminiFacts segments => bill_gemini p t segments
    | _, _ => None
    end
  else None.

Definition bill_usage (p : ModelPricing) (model : ModelRef) (t : TokenCounts) (facts : ModelBillingFacts) : BilledModelUsage :=
  mkBilledUsage model t facts (model_bill p model t facts).

(** ** The exact cost *)

(** The charges of a call: quantities and their prices per million. *)
Definition priced (p : option Z) (quantity : Z) : list (Z * Z) :=
  match p with Some p => [(quantity, p)] | None => [] end.

Definition charges (policy : ModelPricingPolicy) (t : TokenCounts) (facts : ModelBillingFacts) : list (Z * Z) :=
  match policy, facts with
  | OpenAiPolicy p, _ =>
      [(tc_input t, oa_input p); (tc_output t + tc_reasoning t, oa_output p)] ++ priced (oa_cached_input p) (tc_cache_read t)
  | AnthropicPolicy p, AnthropicFacts w5 w1 =>
      [(tc_input t, an_input p); (tc_output t + tc_reasoning t, an_output p)] ++ priced (an_cache_read p) (tc_cache_read t) ++
      priced (an_cache_write_5m p) w5 ++ priced (an_cache_write_1h p) w1
  | GeminiPolicy p, GeminiFacts segments =>
      [(tc_input t, gm_input p); (tc_output t + tc_reasoning t, gm_output p)] ++ priced (gm_cached_input p) (tc_cache_read t) ++
      match gm_storage p with
      | Some price => (fun seg => (seg_cached_tokens seg * seg_ttl_seconds seg, price)) <$> segments
      | None => []
      end
  | _, _ => []
  end.

Definition exact_cost (l : list (Z * Z)) : Z := foldr (fun c acc => c.1 * c.2 + acc) 0 l.
Definition floor_cost (l : list (Z * Z)) : Z := foldr (fun c acc => c.1 * c.2 / TOKENS_PER_MTOK + acc) 0 l.

Definition charge_ok (c : Z * Z) : Prop := 0 <= c.1 /\ 0 <= c.2 /\ c.1 * c.2 < 2 ^ 127.

Lemma floor_cost_bounds l :
  Forall charge_ok l -> 0 <= floor_cost l /\ floor_cost l * TOKENS_PER_MTOK <= exact_cost l /\
  exact_cost l <= floor_cost l * TOKENS_PER_MTOK + Z.of_nat (length l) * (TOKENS_PER_MTOK - 1).
Proof.
  unfold TOKENS_PER_MTOK. induction 1 as [|[q p] l (H1 & H2 & _) _ IH]; cbn [floor_cost exact_cost foldr fst snd length] in *; [lia|].
  fold (floor_cost l) (exact_cost l) in *. unfold TOKENS_PER_MTOK in *.
  pose proof (Z.div_mod (q * p) 1000000 ltac:(lia)). pose proof (Z.mod_pos_bound (q * p) 1000000 ltac:(lia)).
  pose proof (Z.div_pos (q * p) 1000000 ltac:(nia) ltac:(lia)). lia.
Qed.

Definition capped (z : Z) : Z := Z.min i64_max z.

Lemma floor_capped q p : 0 <= q * p -> saturating_i128_to_i64 (Z.quot (q * p) TOKENS_PER_MTOK) = capped (q * p / TOKENS_PER_MTOK).
Proof.
  intros H. rewrite Z.quot_div_nonneg by (unfold TOKENS_PER_MTOK; lia).
  pose proof (Z.div_pos (q * p) TOKENS_PER_MTOK H ltac:(unfold TOKENS_PER_MTOK; lia)).
  unfold saturating_i128_to_i64, capped, i64_min, i64_max. lia.
Qed.

Lemma bill_capped p q : charge_ok (q, p) -> bill p q = capped (floor_cost [(q, p)]).
Proof. intros (H1 & H2 & _). cbn [fst snd] in *. unfold bill. rewrite floor_capped by nia. unfold floor_cost. cbn. by rewrite Z.add_0_r. Qed.

Lemma saturating_capped a b : 0 <= a -> 0 <= b -> saturating_add_i64 (capped a) (capped b) = capped (a + b).
Proof. unfold saturating_add_i64, capped, i64_min, i64_max. lia. Qed.

Lemma floor_cost_app l k : floor_cost (l ++ k) = floor_cost l + floor_cost k.
Proof. unfold floor_cost. induction l as [|c l IH]; cbn [app foldr]; [done|]. rewrite IH. lia. Qed.

(** One more charge. *)
Lemma add_bill_capped l p q total :
  Forall charge_ok (l ++ priced p q) -> total = capped (floor_cost l) ->
  add_bill p q total = capped (floor_cost (l ++ priced p q)).
Proof.
  intros [Hl Hc]%Forall_app ->. destruct p as [p|]; cbn [priced add_bill] in *; [|by rewrite app_nil_r].
  apply Forall_cons in Hc as [Hc Hn]. rewrite bill_capped, floor_cost_app by done. apply saturating_capped.
  - apply floor_cost_bounds, Hl.
  - apply floor_cost_bounds. by constructor.
Qed.

Lemma wrap_i128_small z : 0 <= z < 2 ^ 127 -> wrap_i128 z = z.
Proof. intros H. unfold wrap_i128. rewrite Z.mod_small by lia. lia. Qed.

Lemma storage_capped price segs acc :
  0 <= acc -> Forall charge_ok ((fun seg => (seg_cached_tokens seg * seg_ttl_seconds seg, price)) <$> segs) ->
  foldl saturating_add_i64 (capped acc) (storage_charge price <$> segs) =
  capped (acc + floor_cost ((fun seg => (seg_cached_tokens seg * seg_ttl_seconds seg, price)) <$> segs)).
Proof.
  revert acc. induction segs as [|seg segs IH]; intros acc H0; cbn [fmap list_fmap foldl].
  { intros _. unfold floor_cost. cbn. by rewrite Z.add_0_r. }
  intros [Hc Hr]%Forall_cons. destruct Hc as (H1 & H2 & H3). cbn [fst snd] in *. 
  assert (storage_charge price seg = capped (seg_cached_tokens seg * seg_ttl_seconds seg * price / TOKENS_PER_MTOK)) as ->.
  { unfold storage_charge. rewrite wrap_i128_small by nia. apply floor_capped. nia. }
  pose proof (Z.div_pos (seg_cached_tokens seg * seg_ttl_seconds seg * price) TOKENS_PER_MTOK ltac:(nia) ltac:(unfold TOKENS_PER_MTOK; lia)).
  rewrite saturating_capped, IH by lia || done. f_equal. unfold floor_cost. cbn [foldr fst snd]. lia.
Qed.

(** The call is billed by this policy, with prices for what it used. *)
Definition billable (p : ModelPricing) (model : ModelRef) (t : TokenCounts) (facts : ModelBillingFacts) : bool :=
  (bool_decide (model = mp_model p) &&
   match mp_policy p, facts with
   | OpenAiPolicy _, OpenAiFacts | AnthropicPolicy _, AnthropicFacts _ _ => true
   | GeminiPolicy p, GeminiFacts segments =>
       negb ((0 <? tc_cache_read t) && negb (is_some (gm_cached_input p))) &&
       negb (negb (bool_decide (segments = [])) && negb (is_some (gm_storage p)))
   | _, _ => false
   end)%bool.

Lemma billable_output_exact t :
  0 <= tc_output t -> 0 <= tc_reasoning t -> tc_output t + tc_reasoning t <= i64_max ->
  billable_output_tokens t = tc_output t + tc_reasoning t.
Proof. intros. unfold billable_output_tokens, add_i64, wrap_i64, i64_max in *. rewrite Z.mod_small by lia. lia. Qed.

Lemma base_capped i o q r :
  Forall charge_ok [(q, i); (r, o)] -> add_bill (Some o) r (bill i q) = capped (floor_cost [(q, i); (r, o)]).
Proof.
  intros [H1 H2]%Forall_cons. apply (add_bill_capped [(q, i)] (Some o) r); [by constructor|]. by apply bill_capped.
Qed.

(** Bills are right to the micro-dollar.  A call is billed exactly when the pricing is
    for its model and has the prices it needs; the bill is then the sum of the charges,
    each rounded down to a micro-dollar (saturating at the largest amount): it never
    exceeds the exact cost, and falls short of it by less than one micro-dollar per
    charge. *)
Theorem bill_accurate p model t facts :
  0 <= tc_output t -> 0 <= tc_reasoning t -> tc_output t + tc_reasoning t <= i64_max ->
  Forall charge_ok (charges (mp_policy p) t facts) ->
  let l := charges (mp_policy p) t facts in
  model_bill p model t facts = (if billable p model t facts then Some (Z.min i64_max (floor_cost l)) else None) /\
  floor_cost l * TOKENS_PER_MTOK <= exact_cost l /\
  exact_cost l <= floor_cost l * TOKENS_PER_MTOK + Z.of_nat (length l) * (TOKENS_PER_MTOK - 1).
Proof.
  intros Ho Hr Hs Hc. cbn zeta. split; [|by apply floor_cost_bounds]. unfold model_bill, billable. case_decide as Hm.
  2: { by rewrite bool_decide_false. }
  rewrite bool_decide_true by done. cbn [andb]. destruct p as [m policy]. cbn [mp_policy] in *.
  destruct policy as [p|p|p], facts as [|w5 w1|segs]; try done; cbn [charges] in *; rewrite ?app_assoc in *.
  - f_equal. unfold bill_openai_like. rewrite billable_output_exact by done. apply add_bill_capped; [done|].
    apply base_capped. by apply Forall_app in Hc as [Hc _].
  - f_equal. unfold bill_anthropic. rewrite billable_output_exact by done.
    do 3 (apply add_bill_capped; [done|]; apply Forall_app in Hc as [Hc _]). by apply base_capped.
  - unfold bill_gemini. rewrite billable_output_exact by done. destruct (_ && negb (is_some (gm_cached_input p)))%bool; [done|].
    destruct (_ && negb (is_some (gm_storage p)))%bool; [done|]. cbn [negb andb]. f_equal.
    apply Forall_app in Hc as [Hb Hst].
    rewrite (add_bill_capped [(tc_input t, gm_input p); (tc_output t + tc_reasoning t, gm_output p)]);
      [|done|apply base_capped; by apply Forall_app in Hb as [Hb _]].
    destruct (gm_storage p) as [price|]; [|by rewrite app_nil_r]. change 0 with (capped 0) at 1.
    rewrite storage_capped, Z.add_0_l, (floor_cost_app (_ ++ _)) by (done || lia).
    apply saturating_capped; by apply floor_cost_bounds.
Qed.

(** A thousand input, 300 output and 50 cached tokens at 3, 15 and 0.3 dollars. *)
Definition sample_pricing : ModelPricing :=
  default (mkPricing (mkModelRef "" "" None) (OpenAiPolicy (mkOpenAi 0 None 0)))
    (pricing_for_model_costs "m" "p" PolicyAnthropic None
       (mkCosts (parse_f64 "3") (parse_f64 "15") (parse_f64 "0.3"))).

Definition sample_tokens : TokenCounts := mkTokens 1000 300 0 50 7.

Lemma bill_accurate_witness :
  model_bill sample_pricing (mkModelRef "p" "m" None) sample_tokens (AnthropicFacts 7 0) = Some 7541 /\
  exact_cost (charges (mp_policy sample_pricing) sample_tokens (AnthropicFacts 7 0)) = 7541250000.
Proof.
  split; [|vm_compute; reflexivity].
  destruct (bill_accurate sample_pricing (mkModelRef "p" "m" None) sample_tokens (AnthropicFacts 7 0)) as [H _].
  - vm_compute. discriminate.
  - vm_compute. discriminate.
  - vm_compute. discriminate.
  - assert (charges (mp_policy sample_pricing) sample_tokens (AnthropicFacts 7 0) =
      [(1000, 3000000); (300, 15000000); (50, 300000); (7, 3750000); (0, 6000000)]) as -> by (vm_compute; reflexivity).
    repeat (apply Forall_cons; split; [unfold charge_ok; cbn [fst snd]; lia|]). apply Forall_nil. exact I.
  - rewrite H. vm_compute. reflexivity.
Defined.
