(* ===== verification/Todos.v ===== *)
(** * Projected todo lists (fabro-types/src/todo.rs)

    The todo list of a stage's root agent: items kept in display order, by
    [(order, id)], with one item per id. *)

From S2P Require Import Prelude RustStr RustNum GraphTypes Context.
From coqutil Require Import Datatypes.RecordSetters.
Import OCamlLikeNotations.
Local Open Scope Z_scope.

Inductive TodoStatus := TodoPending | TodoInProgress | TodoCompleted | TodoStatusDeleted.
Inductive TodoListKind := OpenAiPlan | AnthropicTasks | KimiTodos.

#[export] Instance TodoListKind_eq_dec : EqDecision TodoListKind.
Proof. solve_decision. Defined.

Definition TodoListKind_to_string (k : TodoListKind) : string :=
  match k with OpenAiPlan => "openai_plan" | AnthropicTasks => "anthropic_tasks" | KimiTodos => "kimi_todos" end.

Definition todo_list_id (k : TodoListKind) (session : string) : string :=
  TodoListKind_to_string k +:+ ":" +:+ session.

Record TodoProjection := mkTodo {
  todo_id : string;
  todo_status : TodoStatus;
  todo_order : Z;
  todo_subject : string;
  todo_description : string;
  todo_active_form : option string;
  todo_owner : option string;
  todo_blocks : list string;
  todo_blocked_by : list string;
  todo_metadata : gmap string Value
}.

(** [Some None] clears an optional field, [None] leaves it alone. *)
Record TodoPatch := mkPatch {
  tp_status : option TodoStatus;
  tp_order : option Z;
  tp_subject : option string;
  tp_description : option string;
  tp_active_form : option (option string);
  tp_owner : option (option string);
  tp_add_blocks : option (list string);
  tp_add_blocked_by : option (list string);
  tp_metadata_patch : gmap string Value
}.

(** Append what is not there yet. *)
Definition add_missing (ids extra : list string) : list string :=
  foldl (fun acc id => if str_mem id acc then acc else acc ++ [id]) ids extra.

(** Keys with a [null] value are deleted, the others overwritten. *)
Definition patch_metadata (patch metadata : gmap string Value) : gmap string Value :=
  merge (fun p m => match p with
                    | Some JNull => None
                    | Some v => Some v
                    | None => m
                    end) patch metadata.

(** The patched item and whether its [order] changed. *)
Definition apply_todo_patch (p : TodoPatch) (t : TodoProjection) : TodoProjection * bool :=
  ({ t with todo_status := default (todo_status t) (tp_status p);
            todo_order := default (todo_order t) (tp_order p);
            todo_subject := default (todo_subject t) (tp_subject p);
            todo_description := default (todo_description t) (tp_description p);
            todo_active_form := default (todo_active_form t) (tp_active_form p);
            todo_owner := default (todo_owner t) (tp_owner p);
            todo_blocks := add_missing (todo_blocks t) (default [] (tp_add_blocks p));
            todo_blocked_by := add_missing (todo_blocked_by t) (default [] (tp_add_blocked_by p));
            todo_metadata := patch_metadata (tp_metadata_patch p) (todo_metadata t) },
   is_some_and (fun o => negb (o =? todo_order t)) (tp_order p)).

Record TodoListProjection := mkTodoList {
  tl_kind : TodoListKind;
  tl_list_id : string;
  tl_items : list TodoProjection
}.

(** The display order of two items. *)
Definition todo_le (a b : TodoProjection) : Prop :=
  todo_order a < todo_order b \/ (todo_order a = todo_order b /\ String.le (todo_id a) (todo_id b)).

#[export] Instance todo_le_dec : RelDecision todo_le.
Proof. intros a b. unfold todo_le. apply _. Defined.

Definition todo_sort (l : list TodoProjection) : list TodoProjection := merge_sort todo_le l.

Definition todo_list_new (k : TodoListKind) (id : string) : TodoListProjection := mkTodoList k id [].

Definition todo_has_id (id : string) (t : TodoProjection) : bool := String.eqb (todo_id t) id.

(** Update the first item with this id; [None] when there is none. *)
Fixpoint update_todo (id : string) (f : TodoProjection -> TodoProjection) (l : list TodoProjection)
    : option (list TodoProjection) :=
  match l with
  | [] => None
  | t :: l => if todo_has_id id t then Some (f t :: l) else cons t <$> update_todo id f l
  end.

Definition todo_upsert (t : TodoProjection) (l : TodoListProjection) : TodoListProjection :=
  { l with tl_items := todo_sort (default (tl_items l ++ [t]) (update_todo (todo_id t) (fun _ => t) (tl_items l))) }.

Definition todo_apply_patch (id : string) (p : TodoPatch) (l : TodoListProjection) : TodoListProjection :=
  match find_first (todo_has_id id) (tl_items l), update_todo id (fun t => (apply_todo_patch p t).1) (tl_items l) with
  | Some t, Some items =>
      { l with tl_items := if (apply_todo_patch p t).2 then todo_sort items else items }
  | _, _ => l
  end.

Definition todo_remove (id : string) (l : TodoListProjection) : TodoListProjection :=
  { l with tl_items := filterb (fun t => negb (todo_has_id id t)) (tl_items l) }.

(** ** The list stays sorted, with one item per id *)

Definition todo_list_ok (l : TodoListProjection) : Prop :=
  StronglySorted todo_le (tl_items l) /\ NoDup (todo_id <$> tl_items l).

#[export] Instance todo_le_trans : Transitive todo_le.
Proof.
  intros a b c [H1|[H1 H2]] [H3|[H3 H4]]; unfold todo_le; [left; lia..|].
  right. split; [lia|]. by etrans.
Qed.

#[export] Instance todo_le_total : Total todo_le.
Proof.
  intros a b. unfold todo_le. destruct (Z.lt_trichotomy (todo_order a) (todo_order b)) as [|[H|]]; [auto| |auto].
  rewrite H. destruct (total String.le (todo_id a) (todo_id b)); auto.
Qed.

Lemma todo_sort_ok l : NoDup (todo_id <$> l) -> StronglySorted todo_le (todo_sort l) /\ NoDup (todo_id <$> todo_sort l).
Proof.
  intros Hn. split; [apply StronglySorted_merge_sort; apply _|].
  unfold todo_sort. by rewrite merge_sort_Permutation.
Qed.

Lemma update_todo_ids id f l l' :
  (forall t, todo_id t = id -> todo_id (f t) = id) -> update_todo id f l = Some l' -> todo_id <$> l' = todo_id <$> l.
Proof.
  intros Hf. revert l'. induction l as [|t l IH]; intros l'; [done|]. cbn. unfold todo_has_id.
  destruct (String.eqb_spec (todo_id t) id) as [He|].
  - intros [= <-]. cbn. by rewrite Hf, He.
  - destruct (update_todo id f l) as [l0|]; [|done]. cbn. intros [= <-]. cbn. f_equal. by apply IH.
Qed.

Lemma update_todo_None id f l : update_todo id f l = None -> id ∉ todo_id <$> l.
Proof.
  induction l as [|t l IH]; cbn; [set_solver|]. unfold todo_has_id.
  destruct (String.eqb_spec (todo_id t) id); [done|]. destruct (update_todo id f l); [done|]. set_solver.
Qed.

Lemma todo_upsert_ok t l : NoDup (todo_id <$> tl_items l) -> todo_list_ok (todo_upsert t l).
Proof.
  intros Hn. apply todo_sort_ok. destruct (update_todo (todo_id t) (fun _ => t) (tl_items l)) as [l'|] eqn:Hu; cbn.
  - by rewrite (update_todo_ids (todo_id t) (fun _ => t) (tl_items l) l').
  - rewrite fmap_app, NoDup_app. cbn. apply update_todo_None in Hu. split; [done|]. split; [set_solver|].
    apply NoDup_singleton.
Qed.

(** An update in place that keeps the order keeps the list sorted. *)
Lemma update_todo_sorted id f l l' :
  (forall t, todo_id (f t) = todo_id t /\ todo_order (f t) = todo_order t) ->
  update_todo id f l = Some l' -> StronglySorted todo_le l -> StronglySorted todo_le l'.
Proof.
  intros Hf. revert l'. induction l as [|t l IH]; intros l'; [done|]. cbn.
  intros Hu [Hs Ha]%StronglySorted_inv. destruct (todo_has_id id t).
  - injection Hu as <-. constructor; [done|]. eapply Forall_impl; [exact Ha|]. intros u.
    unfold todo_le. destruct (Hf t) as [-> ->]. done.
  - destruct (update_todo id f l) as [l0|] eqn:Hl; [|done]. injection Hu as <-.
    constructor; [by apply IH|]. rewrite Forall_forall in Ha |- *. clear - Ha Hl Hf.
    revert l0 Hl. induction l as [|u l IH]; intros l0; [done|]. cbn. destruct (todo_has_id id u).
    + intros [= <-] x [->|Hx]%elem_of_cons; [|apply Ha; set_solver].
      assert (todo_le t u) as Hu by (apply Ha; set_solver). unfold todo_le in *. by destruct (Hf u) as [-> ->].
    + destruct (update_todo id f l) as [l1|]; [|done]. intros [= <-] x [->|Hx]%elem_of_cons; [apply Ha; set_solver|].
      eapply IH; [|done|done]. intros y Hy. apply Ha. set_solver.
Qed.

(** Only the first item with the id is updated. *)
Lemma update_todo_found id f g l l' t :
  find_first (todo_has_id id) l = Some t -> f t = g t -> update_todo id f l = Some l' -> update_todo id g l = Some l'.
Proof.
  intros Hf Hg. revert l' Hf. induction l as [|u l IH]; intros l' Hf Hu; [done|].
  cbn [find_first update_todo] in *. destruct (todo_has_id id u); [congruence|].
  destruct (update_todo id f l) as [l0|]; [|done]. rewrite (IH l0 Hf eq_refl). done.
Qed.

Lemma todo_apply_patch_ok id p l : todo_list_ok l -> todo_list_ok (todo_apply_patch id p l).
Proof.
  intros [Hs Hn]. unfold todo_apply_patch.
  destruct (find_first (todo_has_id id) (tl_items l)) as [t|] eqn:Hf; [|done].
  destruct (update_todo _ _ _) as [items|] eqn:Hu; [|done].
  assert (todo_id <$> items = todo_id <$> tl_items l) as Hids by (by eapply update_todo_ids; [|exact Hu]).
  destruct (apply_todo_patch p t).2 eqn:Ho; [apply todo_sort_ok; by rewrite Hids|].
  split; [|change (NoDup (todo_id <$> items)); by rewrite Hids].
  set (f u := if decide (todo_order u = todo_order t) then (apply_todo_patch p u).1 else u).
  apply (update_todo_found id _ f) with (t := t) in Hu; [|done|by unfold f; rewrite decide_True].
  eapply update_todo_sorted; [|exact Hu|exact Hs]. intros u. unfold f. case_decide as Hd; [|done]. split; [done|].
  unfold apply_todo_patch in Ho |- *. cbn [fst snd] in *. destruct (tp_order p) as [o|]; [|done].
  apply negb_false_iff, Z.eqb_eq in Ho. change (o = todo_order u). congruence.
Qed.

Lemma todo_remove_ok id l : todo_list_ok l -> todo_list_ok (todo_remove id l).
Proof.
  intros [Hs Hn]. unfold todo_list_ok, todo_remove. cbn. revert Hs Hn.
  induction (tl_items l) as [|t k IH]; cbn; [done|]. intros [Hs Ha]%StronglySorted_inv [Hi Hn]%NoDup_cons.
  destruct (IH Hs Hn) as [IHs IHn]. destruct (negb (todo_has_id id t)); [|done]. cbn. split.
  - constructor; [done|]. rewrite Forall_forall in Ha |- *. intros x [Hx _]%filterb_elem. by apply Ha.
  - apply NoDup_cons. split; [|done]. intros (x & Hx0 & [Hx _]%filterb_elem)%list_elem_of_fmap. apply Hi.
    apply list_elem_of_fmap. eauto.
Qed.

(** ** Emptiness *)

Lemma todo_sort_nil l : todo_sort l = [] -> l = [].
Proof. intros H. apply Permutation_nil. unfold todo_sort in H. rewrite <- H. apply merge_sort_Permutation. Qed.

Lemma todo_upsert_nonempty t l : tl_items (todo_upsert t l) <> [].
Proof.
  intros H%todo_sort_nil. destruct (update_todo (todo_id t) (fun _ => t) (tl_items l)) as [l'|] eqn:Hu; cbn in H; subst.
  - destruct (tl_items l) as [|u k]; cbn in Hu; [done|].
    destruct (todo_has_id (todo_id t) u); [done|]. by destruct (update_todo _ _ k).
  - by destruct (tl_items l).
Qed.

Lemma todo_apply_patch_nonempty id p l : tl_items l <> [] -> tl_items (todo_apply_patch id p l) <> [].
Proof.
  intros Hl. unfold todo_apply_patch. destruct (find_first (todo_has_id id) (tl_items l)) as [t|]; [|done].
  destruct (update_todo _ _ _) as [items|] eqn:Hu; [|done].
  apply update_todo_ids in Hu; [|done]. assert (items <> []) as Hi by (intros ->; by destruct (tl_items l)).
  change ((if (apply_todo_patch p t).2 then todo_sort items else items) <> []).
  destruct (apply_todo_patch p t).2; [|done]. by intros H%todo_sort_nil.
Qed.
