(* ===== verification/Events.v ===== *)
(** * Run events (fabro-types/src/run_event)

    What the event log of a run holds: envelopes with the identity of the stage
    and session they concern, and a body.  A payload record has the fields that
    the reducer reads.  Data that is only copied is kept as its text (ids,
    hashes) or as its JSON value (structured payloads); the bodies the reducer
    ignores are one constructor, [BOther]. *)

From S2P Require Import Prelude RustStr RustNum GraphTypes Context Outcome.
From S2P Require Import StageIds RunStatus Timing Billing Todos.
Local Open Scope Z_scope.

(** ** Shared data *)

Definition RunId := string.
Definition BlobHash := string.

Inductive EnvironmentProvider := EnvLocal | EnvDocker | EnvDaytona | EnvAca.
Inductive SandboxProviderKind := SpLocal | SpDocker | SpDaytona | SpAca.

#[export] Instance EnvironmentProvider_eq_dec : EqDecision EnvironmentProvider.
Proof. solve_decision. Defined.

Definition SandboxProviderKind_from (p : EnvironmentProvider) : SandboxProviderKind :=
  match p with EnvLocal => SpLocal | EnvDocker => SpDocker | EnvDaytona => SpDaytona | EnvAca => SpAca end.

(** Of the settings of a run the reducer reads the environment. *)
Record RunEnvironmentSettings := mkEnvironment {
  env_provider : EnvironmentProvider;
  env_docker_image : option string
}.

Record DiffSummary := mkDiffSummary { ds_files_changed : Z; ds_additions : Z; ds_deletions : Z }.
Record RunDiff := mkRunDiff { rd_patch : option string; rd_summary : option DiffSummary }.

Record RunFailure := mkRunFailure { rf_reason : FailureReason; rf_detail : FailureDetail }.

Inductive RunControlAction := ControlCancel | ControlPause | ControlUnpause.
Inductive CommandTermination := TermExited | TermTimedOut | TermCancelled.
Inductive LlmOutputKind := OutputReasoning | OutputText | OutputToolCall.
Inductive PermissionLevel := PermReadOnly | PermReadWrite | PermFull.
Inductive AgentSkillActivationSource := SkillSlash | SkillTool.
Inductive QuestionType := QYesNo | QMultipleChoice | QMultiSelect | QFreeform | QConfirmation.

#[export] Instance CommandTermination_eq_dec : EqDecision CommandTermination.
Proof. solve_decision. Defined.

Definition CommandTermination_to_string (t : CommandTermination) : string :=
  match t with TermExited => "exited" | TermTimedOut => "timed_out" | TermCancelled => "cancelled" end.

(** [question_type.parse().unwrap_or_default()]. *)
Definition QuestionType_parse (s : string) : QuestionType :=
  if String.eqb s "yes_no" then QYesNo
  else if String.eqb s "multiple_choice" then QMultipleChoice
  else if String.eqb s "multi_select" then QMultiSelect
  else if String.eqb s "confirmation" then QConfirmation
  else QFreeform.

Record PullRequestLink := mkPrLink { pr_owner : string; pr_repo : string; pr_number : Z }.

Record AgentToolSummary := mkToolSummary {
  at_name : string;
  at_description : string;
  at_source : Value;
  at_category : Value;
  at_invoked : bool
}.

Record StageContextWindowProjection := mkContextWindow {
  cw_event_seq : option Z;
  cw_snapshot : Value
}.

Record RunSandboxRuntime := mkSandboxRuntime {
  sr_id : string;
  sr_working_directory : string;
  sr_repo_cloned : option bool;
  sr_clone_origin_url : option string;
  sr_clone_branch : option string;
  sr_workspace_root : option string;
  sr_repos_root : option string;
  sr_primary_repo_path : option string;
  sr_primary_repo_link : option string
}.

Record RunSandboxFailure := mkSandboxFailure {
  sf_provider : string;
  sf_error : string;
  sf_causes : list string;
  sf_duration_ms : Z
}.

(** ** Payloads *)

Record RunCreatedProps := {
  rc_title : option string;
  rc_environment : RunEnvironmentSettings;
  rc_graph : Graph;
  rc_workflow_source : option string;
  rc_labels : gmap string string;
  rc_source_directory : option string;
  rc_workflow_slug : option string;
  rc_manifest_blob : option BlobHash;
  rc_spec_blob : option BlobHash;
  rc_retried_from : option RunId;
  rc_parent_id : option RunId;
  rc_web_url : option string;
  rc_rest : Value (* version, target, automation, provenance, git and fork source *)
}.

Record RunStartedProps := { rst_base_sha : option string; rst_run_branch : option string }.

Record RunCompletedProps := {
  rcp_timing : RunTiming;
  rcp_status : string;
  rcp_reason : SuccessReason;
  rcp_final_git_commit_sha : option string;
  rcp_final_patch : option string;
  rcp_diff_summary : option DiffSummary;
  rcp_billing : option BilledTokenCounts
}.

Record RunFailedProps := {
  rfp_failure : RunFailure;
  rfp_timing : RunTiming;
  rfp_final_git_commit_sha : option string;
  rfp_final_patch : option string;
  rfp_diff_summary : option DiffSummary;
  rfp_billing : option BilledTokenCounts
}.

Abbreviation StageResult := (Outcome (option BilledModelUsage)).

Record CheckpointCompletedProps := {
  cp_current_node : string;
  cp_completed_nodes : list string;
  cp_node_retries : gmap string Z;
  cp_context_values : gmap string Value;
  cp_node_outcomes : gmap string StageResult;
  cp_next_node_id : option string;
  cp_git_commit_sha : option string;
  cp_loop_failure_signatures : gmap string Z;
  cp_restart_failure_signatures : gmap string Z;
  cp_node_visits : gmap string Z;
  cp_diff : option string;
  cp_diff_summary : option DiffSummary;
  cp_graph_visit : option Z;
  cp_resumed_from_stage_id : option StageId
}.

Record SandboxInitializedProps := {
  si_provider : SandboxProviderKind;
  si_image : option string;
  si_snapshot : option string;
  si_runtime : RunSandboxRuntime
}.

Record InterviewStartedProps := {
  is_question_id : string;
  is_question : string;
  is_stage : string;
  is_question_type : string;
  is_options : Value;
  is_allow_freeform : bool;
  is_timeout_seconds : option f64;
  is_context_display : option string;
  is_review_target : option Value
}.

Record StageStartedProps := {
  ss_handler_type : string;
  ss_graph_visit : option Z;
  ss_resumed_from_stage_id : option StageId
}.

Record StagePromptProps := {
  sp_visit : Z;
  sp_text : string;
  sp_mode : option string;
  sp_provider : option string;
  sp_model : option string;
  sp_reasoning_effort : option string;
  sp_speed : option string
}.

Record PromptCompletedProps := { pc_response : string; pc_billing : option BilledModelUsage }.

Record StageCompletedProps := {
  sc_timing : StageTiming;
  sc_status : StageOutcome;
  sc_preferred_label : option string;
  sc_suggested_next_ids : list string;
  sc_billing : option BilledModelUsage;
  sc_failure : option FailureDetail;
  sc_notes : option string;
  sc_files_touched : list string;
  sc_context_updates : option (gmap string Value);
  sc_jump_to_node : option string;
  sc_node_visits : option (gmap string Z);
  sc_response : option string
}.

Record StageFailedProps := {
  sfl_failure : option FailureDetail;
  sfl_will_retry : bool;
  sfl_timing : StageTiming;
  sfl_billing : option BilledModelUsage
}.

Record AgentMessageProps := {
  am_model : ModelRef;
  am_billing : BilledTokenCounts;
  am_visit : Z;
  am_context_window : option StageContextWindowProjection
}.

Record AgentSessionActivatedProps := {
  asa_provider : option string;
  asa_model : option string;
  asa_reasoning_effort : option string;
  asa_speed : option string;
  asa_permission_level : option PermissionLevel;
  asa_visit : Z
}.

Record CommandStartedProps := {
  cs_script : string;
  cs_command : string;
  cs_language : string;
  cs_timeout_ms : option Z
}.

Record CommandCompletedProps := {
  cc_output : string;
  cc_exit_code : option Z;
  cc_duration_ms : Z;
  cc_termination : CommandTermination;
  cc_output_bytes : Z;
  cc_live_streaming : bool
}.

(** A finished ACP process; only a completed one has a stop reason. *)
Record AgentAcpEndedProps := {
  acp_stdout : string;
  acp_stderr : string;
  acp_stop_reason : option string;
  acp_duration_ms : Z
}.

Record ParallelBranchStartedProps := {
  pbs_graph_visit : option Z;
  pbs_resumed_from_stage_id : option StageId
}.

Record TodoCreatedProps := {
  tcr_list_id : string;
  tcr_list_kind : TodoListKind;
  tcr_todo : TodoProjection
}.

Record TodoUpdatedProps := {
  tup_list_id : string;
  tup_list_kind : TodoListKind;
  tup_todo_id : string;
  tup_patch : TodoPatch
}.

(** ** Bodies *)

Inductive EventBody :=
| BRunCreated (p : RunCreatedProps)
| BRunStarted (p : RunStartedProps)
| BRunSubmitted (definition_blob : option BlobHash)
| BRunStartRequested (resume : bool)
| BRunPending (reason : PendingReason)
| BRunApproved
| BRunDenied (reason : option string)
| BRunRunnable
| BRunStarting
| BRunRunning
| BRunBlocked (reason : BlockedReason)
| BRunUnblocked
| BRunRemoving
| BRunCancelRequested
| BRunPauseRequested
| BRunUnpauseRequested
| BRunPaused
| BRunUnpaused
| BRunCompleted (p : RunCompletedProps)
| BRunFailed (p : RunFailedProps)
| BRunSupersededBy (new_run_id : RunId)
| BRunParentLinked (parent_id : RunId)
| BRunParentUnlinked
| BRunArchived
| BRunUnarchived
| BRunTitleUpdated (title : string)
| BCheckpointCompleted (p : CheckpointCompletedProps)
| BSandboxInitializing
| BSandboxFailed (p : RunSandboxFailure)
| BSandboxInitialized (p : SandboxInitializedProps)
| BPullRequestCreationRequested (creation_id : string) (model : string) (force : bool)
| BPullRequestCreated (link : PullRequestLink)
| BPullRequestLinked (link : PullRequestLink)
| BPullRequestUnlinked
| BPullRequestFailed (creation_id : option string) (error : string)
| BInterviewStarted (p : InterviewStartedProps)
| BInterviewCompleted (question_id : string)
| BInterviewTimeout (question_id : string)
| BInterviewInterrupted (question_id : string)
| BStageStarted (p : StageStartedProps)
| BStageRetrying
| BStagePrompt (p : StagePromptProps)
| BPromptCompleted (p : PromptCompletedProps)
| BStageCompleted (p : StageCompletedProps)
| BStageFailed (p : StageFailedProps)
| BAgentMessage (p : AgentMessageProps)
| BAgentLlmStarted (requested_model : ModelRef) (visit : Z)
| BAgentLlmFirstOutput (kind : LlmOutputKind) (visit : Z)
| BAgentLlmRetry (visit : Z)
| BAgentError (visit : Z)
| BAgentSessionEnded
| BAgentSessionActivated (p : AgentSessionActivatedProps)
| BAgentRoundInterrupted (visit : Z)
| BAgentSteeringInjected (visit : Z)
| BAgentSessionDeactivated (visit : Z)
| BAgentToolsAvailable (tools : list AgentToolSummary) (visit : Z)
| BAgentAcpStarted (visit : Z)
| BCommandStarted (p : CommandStartedProps)
| BCommandCompleted (p : CommandCompletedProps)
| BAgentAcpCompleted (p : AgentAcpEndedProps)
| BAgentAcpCancelled (p : AgentAcpEndedProps)
| BAgentAcpTimedOut (p : AgentAcpEndedProps)
| BParallelCompleted (results : Value)
| BParallelBranchStarted (p : ParallelBranchStartedProps)
| BParallelBranchCompleted (duration_ms : Z) (status : StageOutcome)
| BTodoCreated (p : TodoCreatedProps)
| BTodoUpdated (p : TodoUpdatedProps)
| BTodoDeleted (list_id : string) (kind : TodoListKind) (todo : string)
| BAgentSubSpawned (agent_id : string) (depth : Z) (task : string) (visit : Z)
| BAgentSubTurnStarted (agent_id : string) (visit : Z)
| BAgentSubCompleted (agent_id : string) (success : bool) (turns_used : Z) (visit : Z)
| BAgentSubFailed (agent_id : string) (error : Value) (visit : Z)
| BAgentSubClosed (agent_id : string) (visit : Z)
| BAgentSkillsDiscovered (skills : Value) (visit : Z)
| BAgentSkillActivated (name : string) (source : AgentSkillActivationSource) (visit : Z)
| BAgentMcpReady (server_name : string) (tool_count : Z) (tools : Value) (visit : Z)
| BAgentMcpFailed (server_name : string) (error : string) (visit : Z)
| BAgentToolStarted (tool_name tool_call_id : string) (visit : Z)
| BAgentToolCompleted (tool_call_id : string) (visit : Z)
| BOther (name : string).

(** The text of an event body's tag. *)
Definition event_name (b : EventBody) : string :=
  match b with
  | BRunCreated _ => "run.created"
  | BRunStarted _ => "run.started"
  | BRunSubmitted _ => "run.submitted"
  | BRunStartRequested _ => "run.start_requested"
  | BRunPending _ => "run.pending"
  | BRunApproved => "run.approved"
  | BRunDenied _ => "run.denied"
  | BRunRunnable => "run.runnable"
  | BRunStarting => "run.starting"
  | BRunRunning => "run.running"
  | BRunBlocked _ => "run.blocked"
  | BRunUnblocked => "run.unblocked"
  | BRunRemoving => "run.removing"
  | BRunCancelRequested => "run.cancel.requested"
  | BRunPauseRequested => "run.pause.requested"
  | BRunUnpauseRequested => "run.unpause.requested"
  | BRunPaused => "run.paused"
  | BRunUnpaused => "run.unpaused"
  | BRunCompleted _ => "run.completed"
  | BRunFailed _ => "run.failed"
  | BRunSupersededBy _ => "run.superseded_by"
  | BRunParentLinked _ => "run.parent.linked"
  | BRunParentUnlinked => "run.parent.unlinked"
  | BRunArchived => "run.archived"
  | BRunUnarchived => "run.unarchived"
  | BRunTitleUpdated _ => "run.title.updated"
  | BCheckpointCompleted _ => "checkpoint.completed"
  | BSandboxInitializing => "sandbox.initializing"
  | BSandboxFailed _ => "sandbox.failed"
  | BSandboxInitialized _ => "sandbox.initialized"
  | BPullRequestCreationRequested _ _ _ => "pull_request.creation_requested"
  | BPullRequestCreated _ => "pull_request.created"
  | BPullRequestLinked _ => "pull_request.linked"
  | BPullRequestUnlinked => "pull_request.unlinked"
  | BPullRequestFailed _ _ => "pull_request.failed"
  | BInterviewStarted _ => "interview.started"
  | BInterviewCompleted _ => "interview.completed"
  | BInterviewTimeout _ => "interview.timeout"
  | BInterviewInterrupted _ => "interview.interrupted"
  | BStageStarted _ => "stage.started"
  | BStageRetrying => "stage.retrying"
  | BStagePrompt _ => "stage.prompt"
  | BPromptCompleted _ => "prompt.completed"
  | BStageCompleted _ => "stage.completed"
  | BStageFailed _ => "stage.failed"
  | BAgentMessage _ => "agent.message"
  | BAgentLlmStarted _ _ => "agent.llm.started"
  | BAgentLlmFirstOutput _ _ => "agent.llm.first_output"
  | BAgentLlmRetry _ => "agent.llm.retry"
  | BAgentError _ => "agent.error"
  | BAgentSessionEnded => "agent.session.ended"
  | BAgentSessionActivated _ => "agent.session.activated"
  | BAgentRoundInterrupted _ => "agent.round.interrupted"
  | BAgentSteeringInjected _ => "agent.steering.injected"
  | BAgentSessionDeactivated _ => "agent.session.deactivated"
  | BAgentToolsAvailable _ _ => "agent.tools.available"
  | BAgentAcpStarted _ => "agent.acp.started"
  | BCommandStarted _ => "command.started"
  | BCommandCompleted _ => "command.completed"
  | BAgentAcpCompleted _ => "agent.acp.completed"
  | BAgentAcpCancelled _ => "agent.acp.cancelled"
  | BAgentAcpTimedOut _ => "agent.acp.timed_out"
  | BParallelCompleted _ => "parallel.completed"
  | BParallelBranchStarted _ => "parallel.branch.started"
  | BParallelBranchCompleted _ _ => "parallel.branch.completed"
  | BTodoCreated _ => "todo.created"
  | BTodoUpdated _ => "todo.updated"
  | BTodoDeleted _ _ _ => "todo.deleted"
  | BAgentSubSpawned _ _ _ _ => "agent.sub.spawned"
  | BAgentSubTurnStarted _ _ => "agent.sub.turn.started"
  | BAgentSubCompleted _ _ _ _ => "agent.sub.completed"
  | BAgentSubFailed _ _ _ => "agent.sub.failed"
  | BAgentSubClosed _ _ => "agent.sub.closed"
  | BAgentSkillsDiscovered _ _ => "agent.skills.discovered"
  | BAgentSkillActivated _ _ _ => "agent.skill.activated"
  | BAgentMcpReady _ _ _ _ => "agent.mcp.ready"
  | BAgentMcpFailed _ _ _ => "agent.mcp.failed"
  | BAgentToolStarted _ _ _ => "agent.tool.started"
  | BAgentToolCompleted _ _ => "agent.tool.completed"
  | BOther name => name
  end.

Record RunEvent := mkEvent {
  ev_ts : DateTime;
  ev_run_id : RunId;
  ev_node_id : option string;
  ev_stage_id : option StageId;
  ev_parallel_branch_id : option ParallelBranchId;
  ev_session_id : option string;
  ev_parent_session_id : option string;
  ev_body : EventBody
}.

Record EventEnvelope := mkEnvelope { env_seq : Z; env_event : RunEvent }.
