(* ===== verification/Projection.v ===== *)
(** * Projected run state (fabro-types/src/run_projection.rs)

    What a run looks like after its events so far: run-level records and one
    projection per stage execution.  A stage projection carries the brackets of
    work in progress (an inference call, an ACP process, a batch of tool calls)
    from which its live timing is estimated until the terminal event brings the
    authoritative one. *)

From S2P Require Import Prelude RustStr RustNum GraphTypes Context Outcome Lint.
From S2P Require Import StageIds RunStatus Timing Billing Todos Events.
From coqutil Require Import Datatypes.RecordSetters.
Import OCamlLikeNotations.
Local Open Scope Z_scope.

#[export] Instance StageState_eq_dec : EqDecision StageState.
Proof. solve_decision. Defined.

#[export] Instance StageId_countable : Countable StageId.
Proof.
  refine (inj_countable' (fun i => (sid_node i, sid_visit i)) (fun p => mkStageId p.1 p.2) _).
  by intros [].
Defined.

(** ** Titles (run_title.rs) *)

Definition MAX_RUN_TITLE_CHARS : nat := 100.
Definition TRUNCATED_RUN_TITLE_CHARS : nat := MAX_RUN_TITLE_CHARS - 3.

Fixpoint trim_start_char (c : ascii) (s : string) : string :=
  match s with
  | String d r => if Ascii.eqb d c then trim_start_char c r else s
  | "" => ""
  end.

(** [goal.lines().next()]; the carriage return of a line end goes with the
    [trim] that follows. *)
Definition first_line (s : string) : string := default "" (head (split_char ch_newline s)).

Definition strip_goal_decoration (goal : string) : string :=
  let line := trim (trim_start_char "#" (first_line goal)) in
  match strip_prefix "Plan:" line with
  | Some rest => trim rest
  | None => line
  end.

Definition infer_run_title (goal : string) : string :=
  let stripped := trim (strip_goal_decoration goal) in
  if str_is_empty stripped then "Untitled run"
  else if (count_chars stripped <=? MAX_RUN_TITLE_CHARS)%nat then stripped
  else take_chars TRUNCATED_RUN_TITLE_CHARS stripped +:+ "...".

(** ** Stage projections *)

Record StageModelUsage := mkModelUsage {
  mu_mode : string;
  mu_provider : option string;
  mu_model : option string;
  mu_reasoning_effort : option string;
  mu_speed : option string
}.

Definition from_prompt_props (p : StagePromptProps) : option StageModelUsage :=
  if (is_some (sp_provider p) || is_some (sp_model p) || is_some (sp_reasoning_effort p) || is_some (sp_speed p))%bool
  then Some (mkModelUsage (default "prompt" (sp_mode p)) (sp_provider p) (sp_model p) (sp_reasoning_effort p)
               (sp_speed p))
  else None.

Definition from_agent_session_activated (p : AgentSessionActivatedProps) : StageModelUsage :=
  mkModelUsage (if opt_is "acp" (asa_provider p) then "acp" else "agent") (asa_provider p) (asa_model p)
    (asa_reasoning_effort p) (asa_speed p).

Record StageCompletion := mkCompletion {
  cmp_outcome : StageOutcome;
  cmp_notes : option string;
  cmp_failure_reason : option string;
  cmp_timestamp : DateTime
}.

(** One open tool batch: calls dispatched together that have not all reported. *)
Record StageToolBatchProjection := mkToolBatch {
  tb_session_id : string;
  tb_started_at : DateTime;
  tb_open_call_ids : gset string
}.

(** One open inference bracket: a dispatched request that has not produced a
    message, an error or an interrupt. *)
Record StageInferenceProjection := mkInference {
  inf_session_id : string;
  inf_started_at : DateTime;
  inf_requested_model : ModelRef;
  inf_first_output_at : option DateTime;
  inf_first_output_kind : option LlmOutputKind;
  inf_retries : Z
}.

Inductive AgentControlState := ControlRunning | WaitingForSteer.

Inductive SubAgentStatus :=
| SubRunning
| SubCompleted (success : bool) (turns_used : Z)
| SubFailed (error : Value)
| SubClosed.

Record SubAgentProjection := mkSubAgent {
  sub_agent_id : string;
  sub_depth : Z;
  sub_task : string;
  sub_status : SubAgentStatus
}.

Record ActivatedSkill := mkActivatedSkill { sk_name : string; sk_source : AgentSkillActivationSource }.

Inductive McpServerStatus := McpReady (tools : Value) | McpFailed (error : string).

Record McpServerProjection := mkMcpServer {
  mcp_server_name : string;
  mcp_tool_count : Z;
  mcp_status : McpServerStatus;
  mcp_invoked : bool
}.

Record StageProjection := mkStage {
  sg_first_event_seq : Z;
  sg_prompt : option string;
  sg_response : option string;
  sg_completion : option StageCompletion;
  sg_provider_used : option StageModelUsage;
  sg_diff : option string;
  sg_script_invocation : option Value;
  sg_script_timing : option Value;
  sg_parallel_results : option Value;
  sg_parallel_branch_id : option ParallelBranchId;
  sg_output : option string;
  sg_output_bytes : option Z;
  sg_live_streaming : option bool;
  sg_termination : option CommandTermination;
  sg_started_at : option DateTime;
  sg_handler : option StageHandler;
  sg_graph_visit : option Z;
  sg_resumed_from_stage_id : option StageId;
  sg_timing : option StageTiming;
  sg_live_inference_ms : Z;
  sg_live_tool_ms : Z;
  sg_tool_batch : option StageToolBatchProjection;
  sg_usage : BilledTokenCounts;
  sg_model : option ModelRef;
  sg_root_agent_todos : option TodoListProjection;
  sg_subagents : list SubAgentProjection;
  sg_skills_available : Value;
  sg_skills_activated : list ActivatedSkill;
  sg_permission_level : option PermissionLevel;
  sg_agent_tools : list AgentToolSummary;
  sg_mcp_servers : list McpServerProjection;
  sg_context_window : option StageContextWindowProjection;
  sg_inference : option StageInferenceProjection;
  sg_acp_started_at : option DateTime;
  sg_agent_control : AgentControlState;
  sg_state : StageState
}.

Definition StageProjection_new (seq : Z) : StageProjection := {|
  sg_first_event_seq := seq; sg_prompt := None; sg_response := None; sg_completion := None;
  sg_provider_used := None; sg_diff := None; sg_script_invocation := None; sg_script_timing := None;
  sg_parallel_results := None; sg_parallel_branch_id := None; sg_output := None; sg_output_bytes := None;
  sg_live_streaming := None; sg_termination := None; sg_started_at := None; sg_handler := None;
  sg_graph_visit := None; sg_resumed_from_stage_id := None; sg_timing := None; sg_live_inference_ms := 0;
  sg_live_tool_ms := 0; sg_tool_batch := None; sg_usage := BilledTokenCounts_default; sg_model := None;
  sg_root_agent_todos := None; sg_subagents := []; sg_skills_available := JArray []; sg_skills_activated := [];
  sg_permission_level := None; sg_agent_tools := []; sg_mcp_servers := []; sg_context_window := None;
  sg_inference := None; sg_acp_started_at := None; sg_agent_control := ControlRunning; sg_state := SRunning
|}.

(** A provider-reported cost wins; otherwise the catalog prices the tokens. *)
Definition billed_usage (price : option (ModelRef -> TokenCounts -> option Z)) (g : StageProjection)
    : BilledTokenCounts :=
  if (is_some (bt_total_usd_micros (sg_usage g)) || billed_is_zero (sg_usage g))%bool then sg_usage g
  else match price, sg_model g with
       | Some price, Some model =>
           match price model (token_counts (sg_usage g)) with
           | Some total => let u := sg_usage g in { u with bt_total_usd_micros := Some total }
           | None => sg_usage g
           end
       | _, _ => sg_usage g
       end.

(** *** Live timing *)

Definition live_wall_time_ms (g : StageProjection) (now : DateTime) : option Z :=
  match sg_state g with
  | SRunning | SRetrying | SPending => (fun started => elapsed_ms started now) <$> sg_started_at g
  | _ => wall_time_ms <$> sg_timing g
  end.

Definition open_ms (started_at : option DateTime) (now : DateTime) : Z :=
  default 0 ((fun s => elapsed_ms s now) <$> started_at).

(** Active time by handler: only agent stages have brackets, a prompt is one
    inference call, a command is one tool call, anything else is waiting. *)
Definition live_active (g : StageProjection) (wall : Z) (now : DateTime) : Z * Z :=
  match default SHAgent (sg_handler g) with
  | SHAgent =>
      (saturating_add_u64 (sg_live_inference_ms g)
         (open_ms (or_else (inf_started_at <$> sg_inference g) (sg_acp_started_at g)) now),
       saturating_add_u64 (sg_live_tool_ms g) (open_ms (tb_started_at <$> sg_tool_batch g) now))
  | SHPrompt => (wall, 0)
  | SHCommand => (0, wall)
  | SHHuman | SHWait | SHConditional | SHParallel | SHParallelFanIn | SHStackManagerLoop | SHStart | SHExit => (0, 0)
  end.

Definition live_timing (g : StageProjection) (now : DateTime) : StageTiming :=
  match sg_timing g with
  | Some timing => timing
  | None =>
      let wall := default 0 (live_wall_time_ms g now) in
      let '(inference, tool) := live_active g wall now in
      clamped_to_wall (StageTiming_new wall inference tool)
  end.

(** *** Brackets *)

Definition accumulate_inference_ms (ms : Z) (g : StageProjection) : StageProjection :=
  { g with sg_live_inference_ms := saturating_add_u64 (sg_live_inference_ms g) ms }.

(** [close_bracket_on_stage]: take the open bracket and add its span. *)
Definition close_bracket_on_stage (ts : DateTime) (g : StageProjection) : StageProjection :=
  match sg_inference g with
  | None => g
  | Some i => accumulate_inference_ms (elapsed_ms (inf_started_at i) ts) { g with sg_inference := None }
  end.

Definition close_open_acp_inference (now : DateTime) (g : StageProjection) : StageProjection :=
  match sg_acp_started_at g with
  | None => g
  | Some started => accumulate_inference_ms (elapsed_ms started now) { g with sg_acp_started_at := None }
  end.

Definition open_acp_inference (started : DateTime) (g : StageProjection) : StageProjection :=
  let g := close_open_acp_inference started g in
  { g with sg_acp_started_at := Some started }.

Definition close_acp_inference (duration_ms : Z) (g : StageProjection) : StageProjection :=
  { g with sg_acp_started_at := None; sg_live_inference_ms := Z.max (sg_live_inference_ms g) duration_ms }.

Definition close_open_tool_batch (now : DateTime) (g : StageProjection) : StageProjection :=
  match sg_tool_batch g with
  | None => g
  | Some b => { g with sg_tool_batch := None;
                       sg_live_tool_ms := saturating_add_u64 (sg_live_tool_ms g) (elapsed_ms (tb_started_at b) now) }
  end.

Definition batch_of_session (session : string) (g : StageProjection) : bool :=
  is_some_and (fun b => String.eqb (tb_session_id b) session) (sg_tool_batch g).

(** A batch of another session is frozen before the call opens a new one. *)
Definition open_tool_call (session call : string) (started : DateTime) (g : StageProjection) : StageProjection :=
  let g := if is_some_and (fun b => negb (String.eqb (tb_session_id b) session)) (sg_tool_batch g)
           then close_open_tool_batch started g else g in
  let b := default (mkToolBatch session started ∅) (sg_tool_batch g) in
  { g with sg_tool_batch := Some { b with tb_open_call_ids := {[call]} ∪ tb_open_call_ids b } }.

Definition close_tool_call (session call : string) (now : DateTime) (g : StageProjection) : StageProjection :=
  match sg_tool_batch g with
  | None => g
  | Some b =>
      if negb (String.eqb (tb_session_id b) session) then g
      else if negb (bool_decide (call ∈ tb_open_call_ids b)) then g
      else
        let b := { b with tb_open_call_ids := tb_open_call_ids b ∖ {[call]} } in
        let g := { g with sg_tool_batch := Some b } in
        if bool_decide (tb_open_call_ids b = ∅) then close_open_tool_batch now g else g
  end.

Definition close_tool_batch_for_session (session : string) (now : DateTime) (g : StageProjection) : StageProjection :=
  if batch_of_session session g then close_open_tool_batch now g else g.

Definition clear_live_timing (g : StageProjection) : StageProjection :=
  { g with sg_live_inference_ms := 0; sg_live_tool_ms := 0; sg_inference := None; sg_acp_started_at := None;
           sg_tool_batch := None }.

Definition set_authoritative_timing (t : StageTiming) (g : StageProjection) : StageProjection :=
  clear_live_timing { g with sg_timing := Some t }.

(** A new automatic attempt clears everything but the identity of the execution. *)
Definition begin_attempt (started : DateTime) (h : StageHandler) (g : StageProjection) : StageProjection :=
  let n := StageProjection_new (sg_first_event_seq g) in
  { n with sg_started_at := Some started; sg_handler := Some h; sg_graph_visit := sg_graph_visit g;
           sg_resumed_from_stage_id := sg_resumed_from_stage_id g; sg_state := SRunning }.

(** ** Run-level records *)

Record RunSpec := mkSpec {
  spec_run_id : RunId;
  spec_environment : RunEnvironmentSettings;
  spec_graph : Graph;
  spec_graph_source : option string;
  spec_workflow_slug : option string;
  spec_source_directory : option string;
  spec_labels : gmap string string;
  spec_manifest_blob : option BlobHash;
  spec_definition_blob : option BlobHash;
  spec_spec_blob : option BlobHash;
  spec_rest : Value
}.

Record StartRecord := mkStart { start_time : DateTime; start_run_branch : option string; start_base_sha : option string }.

Inductive RunApprovalState := ApprovalPending | ApprovalApproved | ApprovalStateDenied.

Record RunApproval := mkApproval {
  ap_state : RunApprovalState;
  ap_requested_at : DateTime;
  ap_decided_at : option DateTime;
  ap_denial_reason : option string
}.

Record Checkpoint := mkCheckpoint {
  ck_timestamp : DateTime;
  ck_current_node : string;
  ck_completed_nodes : list string;
  ck_node_retries : gmap string Z;
  ck_context_values : gmap string Value;
  ck_node_outcomes : gmap string StageResult;
  ck_next_node_id : option string;
  ck_git_commit_sha : option string;
  ck_loop_failure_signatures : gmap string Z;
  ck_restart_failure_signatures : gmap string Z;
  ck_node_visits : gmap string Z
}.

Record CheckpointRecord := mkCheckpointRecord {
  cr_seq : Z;
  cr_checkpoint : Checkpoint;
  cr_diff : RunDiff
}.

(** [stages] and [total_retries] are always empty and zero in a projection. *)
Record Conclusion := mkConclusion {
  con_timestamp : DateTime;
  con_status : StageOutcome;
  con_timing : RunTiming;
  con_failure : option RunFailure;
  con_final_git_commit_sha : option string;
  con_billing : option BilledTokenCounts;
  con_diff : RunDiff
}.

Inductive RunSandboxKind := SandboxPlanned | SandboxInitializing | SandboxReady | SandboxFailed.

Record RunSandboxPlan := mkPlan {
  plan_provider : SandboxProviderKind;
  plan_image : option string;
  plan_snapshot : option string
}.

Record RunSandboxInstance := mkInstance {
  inst_provider : SandboxProviderKind;
  inst_image : option string;
  inst_snapshot : option string;
  inst_runtime : RunSandboxRuntime
}.

Record RunSandbox := mkSandbox {
  sb_kind : RunSandboxKind;
  sb_plan : RunSandboxPlan;
  sb_instance : option RunSandboxInstance;
  sb_failure : option RunSandboxFailure
}.

Definition RunSandbox_planned (plan : RunSandboxPlan) : RunSandbox := mkSandbox SandboxPlanned plan None None.
Definition RunSandbox_initializing (plan : RunSandboxPlan) : RunSandbox :=
  mkSandbox SandboxInitializing plan None None.
Definition RunSandbox_ready (plan : RunSandboxPlan) (i : RunSandboxInstance) : RunSandbox :=
  mkSandbox SandboxReady plan (Some i) None.
Definition RunSandbox_failed (plan : RunSandboxPlan) (f : RunSandboxFailure) : RunSandbox :=
  mkSandbox SandboxFailed plan None (Some f).

(** Whether serialization accepts the record. *)
Definition RunSandbox_validate (s : RunSandbox) : bool :=
  match sb_kind s with
  | SandboxPlanned | SandboxInitializing => (negb (is_some (sb_instance s)) && negb (is_some (sb_failure s)))%bool
  | SandboxReady => (is_some (sb_instance s) && negb (is_some (sb_failure s)))%bool
  | SandboxFailed => (negb (is_some (sb_instance s)) && is_some (sb_failure s))%bool
  end.

Inductive PullRequestCreationStatus := PrPending | PrSucceeded | PrFailed.

Record PullRequestCreation := mkPrCreation {
  prc_id : string;
  prc_status : PullRequestCreationStatus;
  prc_model : string;
  prc_force : bool;
  prc_requested_at : DateTime;
  prc_updated_at : DateTime;
  prc_pull_request : option PullRequestLink;
  prc_error : option string
}.

Definition prc_is_pending (c : PullRequestCreation) : bool :=
  match prc_status c with PrPending => true | _ => false end.

Definition prc_succeed (link : PullRequestLink) (ts : DateTime) (c : PullRequestCreation) : PullRequestCreation :=
  { c with prc_status := PrSucceeded; prc_updated_at := ts; prc_pull_request := Some link; prc_error := None }.

Definition prc_fail (error : string) (ts : DateTime) (c : PullRequestCreation) : PullRequestCreation :=
  { c with prc_status := PrFailed; prc_updated_at := ts; prc_error := Some error }.

Record InterviewQuestionRecord := mkQuestion {
  iq_id : string;
  iq_text : string;
  iq_stage : string;
  iq_question_type : QuestionType;
  iq_options : Value;
  iq_allow_freeform : bool;
  iq_timeout_seconds : option f64;
  iq_context_display : option string;
  iq_review_target : option Value
}.

Record PendingInterviewRecord := mkPendingInterview {
  pi_question : InterviewQuestionRecord;
  pi_started_at : DateTime
}.

Record RunProjection := mkRun {
  rp_title : string;
  rp_parent_id : option RunId;
  rp_spec : RunSpec;
  rp_web_url : option string;
  rp_start : option StartRecord;
  rp_status : RunStatus;
  rp_approval : option RunApproval;
  rp_archived_at : option DateTime;
  rp_status_updated_at : DateTime;
  rp_last_event_at : DateTime;
  rp_pending_control : option RunControlAction;
  rp_checkpoints : list CheckpointRecord;
  rp_conclusion : option Conclusion;
  rp_sandbox : option RunSandbox;
  rp_pull_request : option PullRequestLink;
  rp_pull_request_creation : option PullRequestCreation;
  rp_superseded_by : option RunId;
  rp_retried_from : option RunId;
  rp_pending_interviews : gmap string PendingInterviewRecord;
  rp_stages : gmap StageId StageProjection
}.

Definition RunProjection_new (title : string) (spec : RunSpec) (created_at : DateTime) : RunProjection := {|
  rp_title := title; rp_parent_id := None; rp_spec := spec; rp_web_url := None; rp_start := None;
  rp_status := RsSubmitted; rp_approval := None; rp_archived_at := None; rp_status_updated_at := created_at;
  rp_last_event_at := created_at; rp_pending_control := None; rp_checkpoints := []; rp_conclusion := None;
  rp_sandbox := None; rp_pull_request := None; rp_pull_request_creation := None; rp_superseded_by := None;
  rp_retried_from := None; rp_pending_interviews := ∅; rp_stages := ∅
|}.

Definition projection_title (s : RunProjection) : string :=
  if str_is_empty (trim (rp_title s)) then infer_run_title (graph_goal (spec_graph (rp_spec s))) else rp_title s.

(** *** Stages *)

(** Stages in the order of their first event, ties broken by identifier. *)
Definition stage_entry_le (a b : StageId * StageProjection) : Prop :=
  sg_first_event_seq a.2 < sg_first_event_seq b.2 \/
  (sg_first_event_seq a.2 = sg_first_event_seq b.2 /\
   ((sid_node a.1 <> sid_node b.1 /\ String.le (sid_node a.1) (sid_node b.1)) \/
    (sid_node a.1 = sid_node b.1 /\ sid_visit a.1 <= sid_visit b.1))).

#[export] Instance stage_entry_le_dec : RelDecision stage_entry_le.
Proof. intros a b. unfold stage_entry_le. apply _. Defined.

Definition iter_stages (s : RunProjection) : list (StageId * StageProjection) :=
  merge_sort stage_entry_le (map_to_list (rp_stages s)).

Definition visits_of (node : string) (s : RunProjection) : list Z :=
  sid_visit <$> filterb (fun id => String.eqb (sid_node id) node) (fst <$> map_to_list (rp_stages s)).

Definition list_node_visits (node : string) (s : RunProjection) : list Z :=
  merge_sort Z.le (remove_dups (visits_of node s)).

Definition current_visit_for (node : string) (s : RunProjection) : option Z :=
  match visits_of node s with
  | [] => None
  | v :: vs => Some (foldl Z.max v vs)
  end.

Definition is_boundary_stage (node : string) (s : RunProjection) : bool :=
  is_some_and (fun n => (opt_is "start" (handler_type n) || opt_is "exit" (handler_type n))%bool)
    (graph_nodes (spec_graph (rp_spec s)) !! node).

Definition run_is_archived (s : RunProjection) : bool := is_some (rp_archived_at s).

Definition current_checkpoint (s : RunProjection) : option Checkpoint :=
  cr_checkpoint <$> last (rp_checkpoints s).

(** Active time is summed over the stages; wall time is the run's own clock. *)
Definition live_run_timing (s : RunProjection) (now : DateTime) : option RunTiming :=
  start ← rp_start s;
  let active := foldl (fun acc g => RunTiming_saturating_add acc (RunTiming_from (live_timing g now)))
                  RunTiming_default (snd <$> map_to_list (rp_stages s)) in
  Some (with_wall_time (elapsed_ms (start_time start) now) active).

Definition try_apply_status (new : RunStatus) (ts : DateTime) (s : RunProjection)
    : result RunProjection InvalidTransition :=
  if decide (rp_status s = new) then Ok s
  else match transition_to (rp_status s) new with
       | Ok status => Ok { s with rp_status := status; rp_status_updated_at := ts }
       | Err e => Err e
       end.
