(* ===== verification/Reducer.v ===== *)
(** * The event reducer (fabro-store/src/run_state.rs)

    How each event of a run's log changes its projection.  [apply_event] works
    in a state and error monad: the state is the projection, mutated in place,
    so what was changed before an error stays changed; an error is a rejected
    event, or a panic of one of the checked constructors.  A [&mut
    StageProjection] is the identifier under which the entry is stored.
    [apply_events] replays a log from its [run.created] event, with the two
    accommodations for histories written before the runnable status. *)

From S2P Require Import Prelude RustStr RustNum GraphTypes Context Outcome Lint.
From S2P Require Import StageIds RunStatus Timing Billing Todos Events Projection.
From coqutil Require Import Datatypes.RecordSetters.
Import OCamlLikeNotations.
Local Open Scope Z_scope.

(** ** Errors and the monad *)

Inductive StoreError :=
| InvalidEvent (msg : string)
| InvalidTransitionError (e : InvalidTransition)
| EventRejected (source : StoreError)
| StoreReadOnly
| EventSequenceExhausted (max_seq : Z)
| StoreOther (msg : string)
| SerdeError
| SlateError
| SqliteError
| RunNotFound (run_id : string)
| InvalidKeySegment (segment : string)
| KeyParse (msg : string).

Inductive Stop := Rejected (e : StoreError) | Crashed (msg : string).

Definition Reduce (A : Type) : Type := RunProjection -> result A Stop * RunProjection.

#[export] Instance Reduce_ret : MRet Reduce := fun A a s => (Ok a, s).

#[export] Instance Reduce_bind : MBind Reduce := fun A B k m s =>
  match m s with
  | (Ok a, s) => k a s
  | (Err e, s) => (Err e, s)
  end.

Definition done_ : Reduce unit := mret ().
Definition get_run : Reduce RunProjection := fun s => (Ok s, s).
Definition modify (f : RunProjection -> RunProjection) : Reduce unit := fun s => (Ok (), f s).
Definition reject {A} (e : StoreError) : Reduce A := fun s => (Err (Rejected e), s).
Definition crash {A} (msg : string) : Reduce A := fun s => (Err (Crashed msg), s).

Fixpoint each {A} (f : A -> Reduce unit) (l : list A) : Reduce unit :=
  match l with
  | [] => done_
  | a :: l => f a;; each f l
  end.

Definition status_change (new : RunStatus) (ts : DateTime) : Reduce unit := fun s =>
  match try_apply_status new ts s with
  | Ok s' => (Ok (), s')
  | Err e => (Err (Rejected (InvalidTransitionError e)), s)
  end.

(** ** Finding the stage of an event *)

(** [first_event_seq(seq)] and [StageId::new] panic at zero. *)
Definition stage_entry (node : string) (visit seq : Z) : Reduce StageId :=
  if seq =? 0 then crash "event sequence numbers are 1-based"
  else match try_new_stage_id node visit with
       | None => crash "stage id visit must be greater than zero"
       | Some id =>
           modify (fun s => if is_some (rp_stages s !! id) then s
                            else { s with rp_stages := <[id := StageProjection_new seq]> (rp_stages s) });;
           mret id
       end.

Definition update_stage (f : StageProjection -> StageProjection) (id : StageId) : Reduce unit :=
  modify (fun s => { s with rp_stages := alter f id (rp_stages s) }).

(** [let Some(stage) = .. else { return Ok(()) }; ..] *)
Definition on_stage (target : Reduce (option StageId)) (f : StageProjection -> StageProjection) : Reduce unit :=
  t ← target; match t with Some id => update_stage f id | None => done_ end.

Definition stage_at_visit (e : RunEvent) (visit seq : Z) : Reduce (option StageId) :=
  if visit =? 0 then mret None
  else match ev_node_id e with
       | None => mret None
       | Some node => id ← stage_entry node visit seq; mret (Some id)
       end.

Definition stage_at_current_visit (e : RunEvent) (seq : Z) : Reduce (option StageId) :=
  match ev_node_id e with
  | None => mret None
  | Some node =>
      s ← get_run;
      id ← stage_entry node (default 1 (current_visit_for node s)) seq; mret (Some id)
  end.

Definition stage_at_stored_stage_id (id : StageId) (seq : Z) : Reduce StageId :=
  stage_entry (sid_node id) (sid_visit id) seq.

Definition stage_at_stored_or_visit (e : RunEvent) (visit seq : Z) : Reduce (option StageId) :=
  match ev_stage_id e with
  | Some id => id ← stage_at_stored_stage_id id seq; mret (Some id)
  | None => stage_at_visit e visit seq
  end.

Definition stage_at_stored_or_current_visit (e : RunEvent) (seq : Z) : Reduce (option StageId) :=
  match ev_stage_id e with
  | Some id => id ← stage_at_stored_stage_id id seq; mret (Some id)
  | None => stage_at_current_visit e seq
  end.

(** [u32::try_from] of a [usize]. *)
Definition try_u32 (z : Z) : option Z := if z <=? u32_max then Some z else None.

Definition stage_visit (node : string) (node_visits : option (gmap string Z)) (s : RunProjection) : option Z :=
  or_else (opt_filter (fun v => 0 <? v) (visits ← node_visits; v ← visits !! node; try_u32 v))
    (current_visit_for node s).

Definition stage_at_completed_visit (e : RunEvent) (node_visits : option (gmap string Z)) (seq : Z)
    : Reduce (option StageId) :=
  match ev_stage_id e with
  | Some id => id ← stage_at_stored_stage_id id seq; mret (Some id)
  | None =>
      match ev_node_id e with
      | None => mret None
      | Some node =>
          s ← get_run;
          id ← stage_entry node (default 1 (stage_visit node node_visits s)) seq; mret (Some id)
      end
  end.

(** ** Inference and tool brackets *)

Definition open_inference_bracket (e : RunEvent) (requested_model : ModelRef) (visit seq : Z) (ts : DateTime)
    : Reduce unit :=
  if is_some (ev_parent_session_id e) then done_
  else match ev_session_id e with
       | None => done_
       | Some session =>
           on_stage (stage_at_stored_or_visit e visit seq) (fun g =>
             { g with sg_inference := Some (mkInference session ts requested_model None None 0) })
       end.

Definition inference_of_session (session : string) (g : StageProjection) : bool :=
  is_some_and (fun i => String.eqb (inf_session_id i) session) (sg_inference g).

(** The stage whose bracket this event may change. *)
Definition matching_inference_stage (e : RunEvent) (visit seq : Z) : Reduce (option StageId) :=
  if is_some (ev_parent_session_id e) then mret None
  else match ev_session_id e with
       | None => mret None
       | Some session =>
           t ← stage_at_stored_or_visit e visit seq;
           s ← get_run;
           mret (opt_filter (fun id => is_some_and (inference_of_session session) (rp_stages s !! id)) t)
       end.

Definition on_matching_bracket (e : RunEvent) (visit seq : Z)
    (f : StageInferenceProjection -> StageInferenceProjection) : Reduce unit :=
  on_stage (matching_inference_stage e visit seq) (fun g => { g with sg_inference := f <$> sg_inference g }).

Definition close_inference_bracket (e : RunEvent) (visit seq : Z) (ts : DateTime) : Reduce unit :=
  on_stage (matching_inference_stage e visit seq) (close_bracket_on_stage ts).

Definition close_session_brackets (session : string) (ts : DateTime) (g : StageProjection) : StageProjection :=
  close_tool_batch_for_session session ts
    (if inference_of_session session g then close_bracket_on_stage ts g else g).

Definition close_active_brackets_for_session (e : RunEvent) (ts : DateTime) : Reduce unit :=
  if is_some (ev_parent_session_id e) then done_
  else match ev_session_id e with
       | None => done_
       | Some session => modify (fun s => { s with rp_stages := close_session_brackets session ts <$> rp_stages s })
       end.

(** ** Records built from payloads *)

(** [fabro_util::error::render_compact_with_causes]. *)
Definition render_compact_with_causes (msg : string) (causes : list string) : string :=
  match causes with
  | [] => msg
  | cause :: _ => if String.eqb cause msg then msg else msg +:+ ": " +:+ cause
  end.

Definition stage_completion_from_outcome (o : StageResult) (ts : DateTime) : StageCompletion :=
  mkCompletion (status o) (notes o)
    ((fun f => render_compact_with_causes (message f) (causes f)) <$> failure o) ts.

Definition stage_outcome_from_props (p : StageCompletedProps) : StageResult := {|
  status := sc_status p; preferred_label := sc_preferred_label p; suggested_next_ids := sc_suggested_next_ids p;
  context_updates := default ∅ (sc_context_updates p); jump_to_node := sc_jump_to_node p; notes := sc_notes p;
  failure := sc_failure p; usage := sc_billing p; files_touched := sc_files_touched p; timing := Some (sc_timing p)
|}.

Definition stage_state_from_failure (will_retry : bool) (c : option FailureCategory)
    (termination : option CommandTermination) : StageState :=
  if will_retry then SRetrying
  else if (bool_decide (c = Some Canceled) && negb (bool_decide (termination = Some TermExited)))%bool then SCancelled
  else SFailed.

Definition checkpoint_from_props (p : CheckpointCompletedProps) (ts : DateTime) : Checkpoint := {|
  ck_timestamp := ts; ck_current_node := cp_current_node p; ck_completed_nodes := cp_completed_nodes p;
  ck_node_retries := cp_node_retries p; ck_context_values := cp_context_values p;
  ck_node_outcomes := cp_node_outcomes p; ck_next_node_id := cp_next_node_id p;
  ck_git_commit_sha := cp_git_commit_sha p; ck_loop_failure_signatures := cp_loop_failure_signatures p;
  ck_restart_failure_signatures := cp_restart_failure_signatures p; ck_node_visits := cp_node_visits p
|}.

Definition diff_from_checkpoint_props (p : CheckpointCompletedProps) : RunDiff :=
  mkRunDiff (cp_diff p) (cp_diff_summary p).

Definition conclusion_from_completed (p : RunCompletedProps) (ts : DateTime) : result Conclusion StoreError :=
  match StageOutcome_from_str (rcp_status p) with
  | Err err => Err (InvalidEvent ("invalid completed stage status: " +:+ err))
  | Ok status => Ok {|
      con_timestamp := ts; con_status := status; con_timing := rcp_timing p; con_failure := None;
      con_final_git_commit_sha := rcp_final_git_commit_sha p; con_billing := rcp_billing p;
      con_diff := mkRunDiff (rcp_final_patch p) (rcp_diff_summary p) |}
  end.

Definition conclusion_from_failed (p : RunFailedProps) (ts : DateTime) : Conclusion := {|
  con_timestamp := ts; con_status := Failed false; con_timing := rfp_timing p; con_failure := Some (rfp_failure p);
  con_final_git_commit_sha := rfp_final_git_commit_sha p; con_billing := rfp_billing p;
  con_diff := mkRunDiff (rfp_final_patch p) (rfp_diff_summary p)
|}.

(** Brackets still open are closed and the live estimate is frozen before the
    stage becomes terminal. *)
Definition finalize_stage (terminal : StageState) (ts : DateTime) (g : StageProjection) : StageProjection :=
  if StageState_is_terminal (sg_state g) then g
  else
    let g := close_open_tool_batch ts (close_open_acp_inference ts (close_bracket_on_stage ts g)) in
    let frozen := live_timing g ts in
    let g := { g with sg_state := terminal } in
    if (negb (is_some (sg_timing g)) && is_some (sg_started_at g))%bool then set_authoritative_timing frozen g
    else clear_live_timing g.

Definition finalize_unfinished_stages_after_run_failed (p : RunFailedProps) (ts : DateTime) (s : RunProjection)
    : RunProjection :=
  let terminal := if decide (rf_reason (rfp_failure p) = ReasonCancelled) then SCancelled else SFailed in
  { s with rp_stages := finalize_stage terminal ts <$> rp_stages s }.

Definition sandbox_plan (e : RunEnvironmentSettings) : RunSandboxPlan :=
  mkPlan (SandboxProviderKind_from (env_provider e))
    (opt_filter (fun image => negb (str_is_empty image))
       (if decide (env_provider e = EnvDocker) then env_docker_image e else None)) None.

Definition sandbox_plan_from_projection_or_settings (s : RunProjection) : RunSandboxPlan :=
  match rp_sandbox s with
  | Some sb => sb_plan sb
  | None => sandbox_plan (spec_environment (rp_spec s))
  end.

(** ** Payloads kept as JSON *)

Definition jtext (k v : string) : string * Value := (k, JString v).
Definition jnat (k : string) (n : Z) : string * Value := (k, JNum (PosInt n)).
Definition jint (n : Z) : JNumber := if n <? 0 then NegInt n else PosInt n.
Definition jopt {A} (k : string) (f : A -> Value) (o : option A) : list (string * Value) :=
  match o with Some a => [(k, f a)] | None => [] end.

Definition command_started_value (p : CommandStartedProps) : Value :=
  JObject ([jtext "script" (cs_script p); jtext "command" (cs_command p); jtext "language" (cs_language p)] ++
           jopt "timeout_ms" (fun n => JNum (PosInt n)) (cs_timeout_ms p)).

Definition command_completed_value (p : CommandCompletedProps) : Value :=
  JObject (jtext "output" (cc_output p) :: jopt "exit_code" (fun n => JNum (jint n)) (cc_exit_code p) ++
           [jnat "duration_ms" (cc_duration_ms p);
            jtext "termination" (CommandTermination_to_string (cc_termination p));
            jnat "output_bytes" (cc_output_bytes p); ("live_streaming", JBool (cc_live_streaming p))]).

Definition acp_ended_value (p : AgentAcpEndedProps) : Value :=
  JObject ([jtext "stdout" (acp_stdout p); jtext "stderr" (acp_stderr p)] ++
           jopt "stop_reason" JString (acp_stop_reason p) ++ [jnat "duration_ms" (acp_duration_ms p)]).

Definition merge_agent_process_output (stdout stderr : string) : string :=
  match str_is_empty stdout, str_is_empty stderr with
  | true, true => ""
  | false, true => stdout
  | true, false => stderr
  | false, false => stdout +:+ nl +:+ stderr
  end.

Definition apply_agent_terminal (script_timing : Value) (output : string) (t : CommandTermination)
    (g : StageProjection) : StageProjection :=
  { g with sg_output := Some output; sg_termination := Some t; sg_script_timing := Some script_timing;
           sg_agent_control := ControlRunning }.

(** ** Todos, subagents, MCP servers *)

Definition should_project_root_agent_todo_event (e : RunEvent) (k : TodoListKind) : bool :=
  match k with
  | OpenAiPlan | KimiTodos => negb (is_some (ev_parent_session_id e))
  | AnthropicTasks => true
  end.

Definition apply_todo_created (p : TodoCreatedProps) (g : StageProjection) : StageProjection :=
  let fresh := todo_list_new (tcr_list_kind p) (tcr_list_id p) in
  let list := match sg_root_agent_todos g with
              | Some l => if (negb (String.eqb (tl_list_id l) (tcr_list_id p)) ||
                              negb (bool_decide (tl_kind l = tcr_list_kind p)))%bool then fresh else l
              | None => fresh
              end in
  { g with sg_root_agent_todos := Some (todo_upsert (tcr_todo p) list) }.

Definition apply_todo_updated (p : TodoUpdatedProps) (g : StageProjection) : StageProjection :=
  match opt_filter (fun l => String.eqb (tl_list_id l) (tup_list_id p)) (sg_root_agent_todos g) with
  | Some l => { g with sg_root_agent_todos := Some (todo_apply_patch (tup_todo_id p) (tup_patch p) l) }
  | None => g
  end.

Definition apply_todo_deleted (list_id todo : string) (g : StageProjection) : StageProjection :=
  match opt_filter (fun l => String.eqb (tl_list_id l) list_id) (sg_root_agent_todos g) with
  | None => g
  | Some l =>
      let l := todo_remove todo l in
      { g with sg_root_agent_todos := match tl_items l with [] => None | _ => Some l end }
  end.

(** [iter_mut().find(p)] and a change of what it finds. *)
Fixpoint update_first {A} (p : A -> bool) (f : A -> A) (l : list A) : list A :=
  match l with
  | [] => []
  | a :: l => if p a then f a :: l else a :: update_first p f l
  end.

Definition set_subagent_status (e : RunEvent) (visit seq : Z) (agent : string) (st : SubAgentStatus) : Reduce unit :=
  on_stage (stage_at_stored_or_visit e visit seq) (fun g =>
    { g with sg_subagents := update_first (fun a => String.eqb (sub_agent_id a) agent)
                               (fun a => { a with sub_status := st }) (sg_subagents g) }).

(** The [invoked] flag survives a change of status. *)
Definition upsert_mcp_server (server : McpServerProjection) (g : StageProjection) : StageProjection :=
  let same m := String.eqb (mcp_server_name m) (mcp_server_name server) in
  { g with sg_mcp_servers :=
      if existsb same (sg_mcp_servers g)
      then update_first same (fun m => { server with mcp_invoked := (mcp_invoked server || mcp_invoked m)%bool })
             (sg_mcp_servers g)
      else sg_mcp_servers g ++ [server] }.

Definition mcp_server_from_tool_name (tool : string) : option string :=
  rest ← strip_prefix "mcp__" tool;
  parts ← split_once "__" rest;
  if str_is_empty parts.1 then None else Some parts.1.

(** Non-ASCII characters are taken to be letters. *)
Definition mcp_name_eq (projection_name parsed : string) : bool :=
  let keep c := (is_ascii_alphanumeric c || Ascii.eqb c "_" || in_range 128 255 c)%bool in
  String.eqb (str_map (fun c => if keep c then c else "_"%char) projection_name) parsed.

Definition mark_tool_invoked (tool : string) (g : StageProjection) : StageProjection :=
  { g with sg_agent_tools := update_first (fun t => String.eqb (at_name t) tool)
                               (fun t => { t with at_invoked := true }) (sg_agent_tools g);
           sg_mcp_servers := match mcp_server_from_tool_name tool with
                             | Some server => update_first (fun m => mcp_name_eq (mcp_server_name m) server)
                                                (fun m => { m with mcp_invoked := true }) (sg_mcp_servers g)
                             | None => sg_mcp_servers g
                             end }.

(** ** The arms of [apply_event] *)

Definition update_approval (state : RunApprovalState) (ts : DateTime) (reason : option string) : Reduce unit :=
  modify (fun s => { s with rp_approval := (fun a => { a with ap_state := state; ap_decided_at := Some ts;
                                                             ap_denial_reason := reason }) <$> rp_approval s }).

Definition apply_run_pending (reason : PendingReason) (ts : DateTime) : Reduce unit :=
  status_change (RsPending reason) ts;;
  if decide (reason = ApprovalRequired)
  then modify (fun s => { s with rp_approval := Some (mkApproval ApprovalPending ts None None) })
  else done_.

Definition apply_run_blocked (reason : BlockedReason) (ts : DateTime) : Reduce unit :=
  s ← get_run;
  status_change (match rp_status s with
                 | RsPaused _ => RsPaused (Some reason)
                 | _ => RsBlocked reason
                 end) ts.

Definition apply_run_unblocked (ts : DateTime) : Reduce unit :=
  s ← get_run;
  status_change (match rp_status s with
                 | RsPaused _ => RsPaused None
                 | _ => RsRunning
                 end) ts.

Definition apply_run_paused (ts : DateTime) : Reduce unit :=
  s ← get_run;
  status_change (RsPaused (status_blocked_reason (rp_status s))) ts;;
  modify (fun s => { s with rp_pending_control := None }).

Definition apply_run_unpaused (ts : DateTime) : Reduce unit :=
  s ← get_run;
  status_change (match rp_status s with
                 | RsPaused (Some reason) => RsBlocked reason
                 | _ => RsRunning
                 end) ts;;
  modify (fun s => { s with rp_pending_control := None }).

Definition apply_run_completed (p : RunCompletedProps) (ts : DateTime) : Reduce unit :=
  status_change (RsSucceeded (rcp_reason p)) ts;;
  modify (fun s => { s with rp_pending_control := None });;
  match conclusion_from_completed p ts with
  | Err e => reject e
  | Ok c => modify (fun s => { s with rp_conclusion := Some c; rp_pending_interviews := ∅ })
  end.

Definition apply_run_failed (p : RunFailedProps) (ts : DateTime) : Reduce unit :=
  status_change (RsFailed (rf_reason (rfp_failure p))) ts;;
  modify (fun s => finalize_unfinished_stages_after_run_failed p ts
                     { s with rp_pending_control := None; rp_conclusion := Some (conclusion_from_failed p ts);
                              rp_pending_interviews := ∅ }).

Definition apply_run_archived (ts : DateTime) : Reduce unit :=
  s ← get_run;
  if is_some (rp_archived_at s) then done_
  else if negb (status_is_terminal (rp_status s))
       then reject (InvalidTransitionError (mkInvalid (rp_status s) (rp_status s)))
  else modify (fun s => { s with rp_archived_at := Some ts }).

(** The checkpoint of an event that names its stage. *)
Definition apply_checkpoint_to_stage (id : StageId) (p : CheckpointCompletedProps) (ck : Checkpoint) (seq : Z)
    (ts : DateTime) : Reduce unit :=
  let skipped := (fun o => stage_completion_from_outcome o ts) <$>
                 opt_filter (fun o => bool_decide (status o = Skipped)) (ck_node_outcomes ck !! sid_node id) in
  if (negb (is_some (cp_diff p)) && negb (is_some skipped))%bool then done_
  else
    s ← get_run;
    let is_new := negb (is_some (rp_stages s !! id)) in
    id ← stage_at_stored_stage_id id seq;
    update_stage (fun g =>
      let g := if is_new then { g with sg_graph_visit := cp_graph_visit p;
                                       sg_resumed_from_stage_id := cp_resumed_from_stage_id p } else g in
      let g := match cp_diff p with Some d => { g with sg_diff := Some d } | None => g end in
      match skipped with
      | Some c => if StageState_is_terminal (sg_state g) then g
                  else { g with sg_completion := Some c; sg_state := SSkipped }
      | None => g
      end) id.

(** The visit a checkpoint without a stage id records for a node. *)
Definition checkpoint_visit (ck : Checkpoint) (node : string) : Z :=
  default 1 (v ← ck_node_visits ck !! node; try_u32 v).

Definition apply_legacy_diff (node : option string) (p : CheckpointCompletedProps) (ck : Checkpoint) (seq : Z)
    : Reduce unit :=
  match node, cp_diff p with
  | Some node, Some d =>
      id ← stage_entry node (checkpoint_visit ck node) seq;
      update_stage (fun g => { g with sg_diff := Some d }) id
  | _, _ => done_
  end.

(** [StageId::new] panics before the entry is looked up. *)
Definition apply_legacy_skip (ck : Checkpoint) (seq : Z) (ts : DateTime) (node : string) (o : StageResult)
    : Reduce unit :=
  if decide (status o = Skipped) then
    match try_new_stage_id node (checkpoint_visit ck node) with
    | None => crash "stage id visit must be greater than zero"
    | Some id =>
        s ← get_run;
        if is_some (rp_stages s !! id) then done_
        else id ← stage_entry node (checkpoint_visit ck node) seq;
             update_stage (fun g => { g with sg_completion := Some (stage_completion_from_outcome o ts);
                                             sg_state := SSkipped }) id
    end
  else done_.

(** The outcomes are a [HashMap]; its entries concern different stages. *)
Definition apply_legacy_checkpoint (node : option string) (p : CheckpointCompletedProps) (ck : Checkpoint) (seq : Z)
    (ts : DateTime) : Reduce unit :=
  apply_legacy_diff node p ck seq;;
  each (fun entry => apply_legacy_skip ck seq ts entry.1 entry.2) (map_to_list (ck_node_outcomes ck)).

Definition apply_checkpoint_completed (e : RunEvent) (p : CheckpointCompletedProps) (seq : Z) (ts : DateTime)
    : Reduce unit :=
  let ck := checkpoint_from_props p ts in
  (match ev_stage_id e with
   | Some id => apply_checkpoint_to_stage id p ck seq ts
   | None => apply_legacy_checkpoint (ev_node_id e) p ck seq ts
   end);;
  modify (fun s => { s with rp_checkpoints :=
    rp_checkpoints s ++ [mkCheckpointRecord seq ck (diff_from_checkpoint_props p)] }).

Definition set_sandbox (f : RunSandboxPlan -> RunSandbox) : Reduce unit :=
  modify (fun s => { s with rp_sandbox := Some (f (sandbox_plan_from_projection_or_settings s)) }).

Definition on_pending_creation (p : PullRequestCreation -> bool) (f : PullRequestCreation -> PullRequestCreation)
    : Reduce unit :=
  modify (fun s => { s with rp_pull_request_creation :=
    (fun c => if (p c && prc_is_pending c)%bool then f c else c) <$> rp_pull_request_creation s }).

Definition apply_pull_request_link (link : PullRequestLink) (ts : DateTime) : Reduce unit :=
  modify (fun s => { s with rp_pull_request := Some link });;
  on_pending_creation (fun _ => true) (prc_succeed link ts).

Definition pending_interview (p : InterviewStartedProps) (ts : DateTime) : PendingInterviewRecord := {|
  pi_question := {| iq_id := is_question_id p; iq_text := is_question p; iq_stage := is_stage p;
    iq_question_type := QuestionType_parse (is_question_type p); iq_options := is_options p;
    iq_allow_freeform := is_allow_freeform p; iq_timeout_seconds := is_timeout_seconds p;
    iq_context_display := is_context_display p; iq_review_target := is_review_target p |};
  pi_started_at := ts
|}.

Definition apply_interview_started (p : InterviewStartedProps) (ts : DateTime) : Reduce unit :=
  if str_is_empty (is_question_id p) then done_
  else modify (fun s => { s with rp_pending_interviews :=
                            <[is_question_id p := pending_interview p ts]> (rp_pending_interviews s) }).

Definition remove_interview (question : string) : Reduce unit :=
  if str_is_empty question then done_
  else modify (fun s => { s with rp_pending_interviews := delete question (rp_pending_interviews s) }).

Definition apply_stage_started (e : RunEvent) (p : StageStartedProps) (seq : Z) (ts : DateTime) : Reduce unit :=
  match ev_stage_id e with
  | None => done_
  | Some id =>
      s ← get_run;
      let is_new := negb (is_some (rp_stages s !! id)) in
      id ← stage_at_stored_stage_id id seq;
      update_stage (fun g =>
        let g := begin_attempt ts (from_handler_type (Some (ss_handler_type p))) g in
        if is_new then { g with sg_graph_visit := ss_graph_visit p;
                                sg_resumed_from_stage_id := ss_resumed_from_stage_id p } else g) id
  end.

(** A reported usage replaces what the messages added up to. *)
Definition set_billing (billing : option BilledModelUsage) (g : StageProjection) : StageProjection :=
  match billing with
  | Some b => { g with sg_usage := replace_with_billed_usage b; sg_model := Some (bu_model b) }
  | None => g
  end.

Definition apply_stage_completed (e : RunEvent) (p : StageCompletedProps) (seq : Z) (ts : DateTime) : Reduce unit :=
  let outcome := stage_outcome_from_props p in
  on_stage (stage_at_completed_visit e (sc_node_visits p) seq) (fun g =>
    let g := { g with sg_response := sc_response p;
                      sg_completion := Some (stage_completion_from_outcome outcome ts) } in
    let g := set_billing (sc_billing p) (set_authoritative_timing (sc_timing p) g) in
    { g with sg_state := StageState_from (status outcome); sg_agent_control := ControlRunning }).

Definition apply_stage_failed (e : RunEvent) (p : StageFailedProps) (seq : Z) (ts : DateTime) : Reduce unit :=
  on_stage (stage_at_stored_or_current_visit e seq) (fun g =>
    let g := { g with sg_completion := Some (mkCompletion (Failed (sfl_will_retry p)) None
                                              (message <$> sfl_failure p) ts) } in
    let g := set_billing (sfl_billing p) (set_authoritative_timing (sfl_timing p) g) in
    { g with sg_state := stage_state_from_failure (sfl_will_retry p) (category <$> sfl_failure p) (sg_termination g);
             sg_agent_control := ControlRunning }).

Definition apply_agent_message (e : RunEvent) (p : AgentMessageProps) (seq : Z) (ts : DateTime) : Reduce unit :=
  t ← stage_at_stored_or_visit e (am_visit p) seq;
  match t with
  | None => done_
  | Some id =>
      update_stage (fun g =>
        let g := { g with sg_usage := add_counts (am_billing p) (sg_usage g); sg_model := Some (am_model p) } in
        match am_context_window p with
        | Some w => { g with sg_context_window := Some { w with cw_event_seq := Some seq } }
        | None => g
        end) id;;
      close_inference_bracket e (am_visit p) seq ts
  end.

Definition apply_round_interrupted (e : RunEvent) (visit seq : Z) (ts : DateTime) : Reduce unit :=
  t ← stage_at_stored_or_visit e visit seq;
  match t with
  | None => done_
  | Some id =>
      update_stage (fun g => { g with sg_agent_control := WaitingForSteer }) id;;
      close_inference_bracket e visit seq ts
  end.

(** Unlike its start, the end of an ACP process is applied to the latest visit of
    the node, whatever stage the event names. *)
Definition apply_acp_ended (e : RunEvent) (p : AgentAcpEndedProps) (t : CommandTermination) (seq : Z) : Reduce unit :=
  on_stage (stage_at_current_visit e seq) (fun g =>
    apply_agent_terminal (acp_ended_value p) (merge_agent_process_output (acp_stdout p) (acp_stderr p)) t
      (close_acp_inference (acp_duration_ms p) g)).

Definition apply_command_completed (e : RunEvent) (p : CommandCompletedProps) (seq : Z) : Reduce unit :=
  on_stage (stage_at_stored_or_current_visit e seq) (fun g =>
    { g with sg_output := Some (cc_output p); sg_output_bytes := Some (cc_output_bytes p);
             sg_live_streaming := Some (cc_live_streaming p); sg_termination := Some (cc_termination p);
             sg_script_timing := Some (command_completed_value p) }).

Definition apply_branch_started (e : RunEvent) (p : ParallelBranchStartedProps) (seq : Z) (ts : DateTime)
    : Reduce unit :=
  s ← get_run;
  let handler := node ← ev_node_id e; n ← graph_nodes (spec_graph (rp_spec s)) !! node;
                 Some (from_handler_type (handler_type n)) in
  let is_new := is_none_or (fun id => negb (is_some (rp_stages s !! id))) (ev_stage_id e) in
  on_stage (stage_at_stored_or_current_visit e seq) (fun g =>
    let g := { g with sg_started_at := or_else (sg_started_at g) (Some ts);
                      sg_handler := or_else (sg_handler g) handler } in
    let g := if is_new then { g with sg_graph_visit := pbs_graph_visit p;
                                     sg_resumed_from_stage_id := pbs_resumed_from_stage_id p;
                                     sg_parallel_branch_id := ev_parallel_branch_id e } else g in
    { g with sg_state := SRunning }).

Definition apply_branch_completed (e : RunEvent) (duration_ms : Z) (st : StageOutcome) (seq : Z) (ts : DateTime)
    : Reduce unit :=
  on_stage (stage_at_stored_or_current_visit e seq) (fun g =>
    { g with sg_completion := Some (mkCompletion st None None ts);
             sg_timing := Some (StageTiming_wall_only duration_ms); sg_state := StageState_from st;
             sg_agent_control := ControlRunning }).

Definition on_todos (e : RunEvent) (k : TodoListKind) (seq : Z) (f : StageProjection -> StageProjection) : Reduce unit :=
  if should_project_root_agent_todo_event e k then on_stage (stage_at_stored_or_current_visit e seq) f else done_.

(** A subagent's tools run inside the root session's call and are not timed. *)
Definition apply_tool_started (e : RunEvent) (tool call : string) (visit seq : Z) (ts : DateTime) : Reduce unit :=
  let root_session := if is_some (ev_parent_session_id e) then None else ev_session_id e in
  on_stage (stage_at_stored_or_visit e visit seq) (fun g =>
    let g := mark_tool_invoked tool g in
    match root_session with
    | Some session => open_tool_call session call ts g
    | None => g
    end).

Definition apply_tool_completed (e : RunEvent) (call : string) (visit seq : Z) (ts : DateTime) : Reduce unit :=
  if is_some (ev_parent_session_id e) then done_
  else match ev_session_id e with
       | None => done_
       | Some session => on_stage (stage_at_stored_or_visit e visit seq) (close_tool_call session call ts)
       end.

(** ** The reducer *)

Definition apply_body (e : RunEvent) (seq : Z) : Reduce unit :=
  let ts := ev_ts e in
  let at_visit visit f := on_stage (stage_at_stored_or_visit e visit seq) f in
  let at_current f := on_stage (stage_at_stored_or_current_visit e seq) f in
  match ev_body e with
  | BRunCreated _ => reject (InvalidEvent "run.created cannot be applied to an initialized projection")
  | BRunStarted p =>
      modify (fun s => { s with rp_start := Some (mkStart ts (rst_run_branch p) (rst_base_sha p)) })
  | BRunSubmitted blob =>
      modify (fun s => { s with rp_spec := let spec := rp_spec s in { spec with spec_definition_blob := blob } })
  | BRunStartRequested resume =>
      if resume : bool then status_change RsSubmitted ts;; modify (fun s => { s with rp_conclusion := None }) else done_
  | BRunPending reason => apply_run_pending reason ts
  | BRunApproved => update_approval ApprovalApproved ts None
  | BRunDenied reason => update_approval ApprovalStateDenied ts reason
  | BRunRunnable => status_change RsRunnable ts
  | BRunStarting => status_change RsStarting ts
  | BRunRunning => status_change RsRunning ts
  | BRunBlocked reason => apply_run_blocked reason ts
  | BRunUnblocked => apply_run_unblocked ts
  | BRunRemoving => status_change RsRemoving ts
  | BRunCancelRequested => modify (fun s => { s with rp_pending_control := Some ControlCancel })
  | BRunPauseRequested => modify (fun s => { s with rp_pending_control := Some ControlPause })
  | BRunUnpauseRequested => modify (fun s => { s with rp_pending_control := Some ControlUnpause })
  | BRunPaused => apply_run_paused ts
  | BRunUnpaused => apply_run_unpaused ts
  | BRunCompleted p => apply_run_completed p ts
  | BRunFailed p => apply_run_failed p ts
  | BRunSupersededBy id => modify (fun s => { s with rp_superseded_by := Some id })
  | BRunParentLinked id => modify (fun s => { s with rp_parent_id := Some id })
  | BRunParentUnlinked => modify (fun s => { s with rp_parent_id := None })
  | BRunArchived => apply_run_archived ts
  | BRunUnarchived => modify (fun s => { s with rp_archived_at := None })
  | BRunTitleUpdated title => modify (fun s => { s with rp_title := title })
  | BCheckpointCompleted p => apply_checkpoint_completed e p seq ts
  | BSandboxInitializing => set_sandbox RunSandbox_initializing
  | BSandboxFailed p => set_sandbox (fun plan => RunSandbox_failed plan p)
  | BSandboxInitialized p =>
      set_sandbox (fun plan => RunSandbox_ready plan
                                 (mkInstance (si_provider p) (si_image p) (si_snapshot p) (si_runtime p)))
  | BPullRequestCreationRequested id model force =>
      modify (fun s => { s with rp_pull_request_creation :=
        Some (mkPrCreation id PrPending model force ts ts None None) })
  | BPullRequestCreated link | BPullRequestLinked link => apply_pull_request_link link ts
  | BPullRequestUnlinked =>
      modify (fun s => { s with rp_pull_request := None; rp_pull_request_creation := None })
  | BPullRequestFailed id error =>
      on_pending_creation (fun c => bool_decide (Some (prc_id c) = id)) (prc_fail error ts)
  | BInterviewStarted p => apply_interview_started p ts
  | BInterviewCompleted q | BInterviewTimeout q | BInterviewInterrupted q => remove_interview q
  | BStageStarted p => apply_stage_started e p seq ts
  | BStageRetrying =>
      at_current (fun g => { g with sg_state := SRetrying; sg_agent_control := ControlRunning })
  | BStagePrompt p =>
      at_visit (sp_visit p) (fun g => { g with sg_prompt := Some (sp_text p); sg_provider_used := from_prompt_props p })
  | BPromptCompleted p =>
      at_current (fun g => set_billing (pc_billing p) { g with sg_response := Some (pc_response p) })
  | BStageCompleted p => apply_stage_completed e p seq ts
  | BStageFailed p => apply_stage_failed e p seq ts
  | BAgentMessage p => apply_agent_message e p seq ts
  | BAgentLlmStarted model visit => open_inference_bracket e model visit seq ts
  | BAgentLlmFirstOutput kind visit =>
      on_matching_bracket e visit seq (fun i =>
        { i with inf_first_output_at := Some ts; inf_first_output_kind := Some kind })
  | BAgentLlmRetry visit =>
      on_matching_bracket e visit seq (fun i =>
        { i with inf_retries := Z.min (inf_retries i + 1) u32_max; inf_first_output_at := None;
                 inf_first_output_kind := None })
  | BAgentError visit => close_inference_bracket e visit seq ts
  | BAgentSessionEnded => close_active_brackets_for_session e ts
  | BAgentSessionActivated p =>
      at_visit (asa_visit p) (fun g => { g with sg_provider_used := Some (from_agent_session_activated p);
                                                sg_permission_level := asa_permission_level p })
  | BAgentRoundInterrupted visit => apply_round_interrupted e visit seq ts
  | BAgentSteeringInjected visit | BAgentSessionDeactivated visit =>
      at_visit visit (fun g => { g with sg_agent_control := ControlRunning })
  | BAgentToolsAvailable tools visit => at_visit visit (fun g => { g with sg_agent_tools := tools })
  | BAgentAcpStarted visit => at_visit visit (open_acp_inference ts)
  | BCommandStarted p => at_current (fun g => { g with sg_script_invocation := Some (command_started_value p) })
  | BCommandCompleted p => apply_command_completed e p seq
  | BAgentAcpCompleted p => apply_acp_ended e p TermExited seq
  | BAgentAcpCancelled p => apply_acp_ended e p TermCancelled seq
  | BAgentAcpTimedOut p => apply_acp_ended e p TermTimedOut seq
  | BParallelCompleted results => at_current (fun g => { g with sg_parallel_results := Some results })
  | BParallelBranchStarted p => apply_branch_started e p seq ts
  | BParallelBranchCompleted duration st => apply_branch_completed e duration st seq ts
  | BTodoCreated p => on_todos e (tcr_list_kind p) seq (apply_todo_created p)
  | BTodoUpdated p => on_todos e (tup_list_kind p) seq (apply_todo_updated p)
  | BTodoDeleted list_id kind todo => on_todos e kind seq (apply_todo_deleted list_id todo)
  | BAgentSubSpawned agent depth task visit =>
      at_visit visit (fun g => { g with sg_subagents := sg_subagents g ++ [mkSubAgent agent depth task SubRunning] })
  | BAgentSubTurnStarted agent visit => set_subagent_status e visit seq agent SubRunning
  | BAgentSubCompleted agent success turns visit =>
      set_subagent_status e visit seq agent (SubCompleted success turns)
  | BAgentSubFailed agent error visit => set_subagent_status e visit seq agent (SubFailed error)
  | BAgentSubClosed agent visit => set_subagent_status e visit seq agent SubClosed
  | BAgentSkillsDiscovered skills visit => at_visit visit (fun g => { g with sg_skills_available := skills })
  | BAgentSkillActivated name source visit =>
      at_visit visit (fun g => { g with sg_skills_activated := sg_skills_activated g ++ [mkActivatedSkill name source] })
  | BAgentMcpReady server count tools visit =>
      at_visit visit (upsert_mcp_server (mkMcpServer server count (McpReady tools) false))
  | BAgentMcpFailed server error visit =>
      at_visit visit (upsert_mcp_server (mkMcpServer server 0 (McpFailed error) false))
  | BAgentToolStarted tool call visit => apply_tool_started e tool call visit seq ts
  | BAgentToolCompleted call visit => apply_tool_completed e call visit seq ts
  | BOther _ => done_
  end.

Definition apply_event (env : EventEnvelope) : Reduce unit :=
  modify (fun s => { s with rp_last_event_at := ev_ts (env_event env) });;
  apply_body (env_event env) (env_seq env).

Definition projection_from_created (env : EventEnvelope) : result RunProjection StoreError :=
  let e := env_event env in
  match ev_body e with
  | BRunCreated p =>
      let title := default (infer_run_title (graph_goal (rc_graph p))) (rc_title p) in
      let spec := {|
        spec_run_id := ev_run_id e; spec_environment := rc_environment p; spec_graph := rc_graph p;
        spec_graph_source := rc_workflow_source p; spec_workflow_slug := rc_workflow_slug p;
        spec_source_directory := rc_source_directory p; spec_labels := rc_labels p;
        spec_manifest_blob := rc_manifest_blob p; spec_definition_blob := None; spec_spec_blob := rc_spec_blob p;
        spec_rest := rc_rest p |} in
      let s := RunProjection_new title spec (ev_ts e) in
      Ok { s with rp_parent_id := rc_parent_id p; rp_retried_from := rc_retried_from p; rp_web_url := rc_web_url p;
                  rp_sandbox := Some (RunSandbox_planned (sandbox_plan (spec_environment spec))) }
  | b => Err (InvalidEvent ("run projection must start with run.created, got " +:+ event_name b))
  end.

(** What replay does before it applies an event: a run written before the runnable
    status may start, or fail, without having become runnable or starting. *)
Definition replay_shim (e : RunEvent) : Reduce unit :=
  let ts := ev_ts e in
  match ev_body e with
  | BRunStarting =>
      s ← get_run; if decide (rp_status s = RsSubmitted) then status_change RsRunnable ts else done_
  | BRunFailed p =>
      s ← get_run;
      if can_transition_to (rp_status s) (RsFailed (rf_reason (rfp_failure p))) then done_
      else
        (match rp_status s with
         | RsSubmitted | RsPending _ => status_change RsRunnable ts
         | _ => done_
         end);;
        s ← get_run;
        match rp_status s with
        | RsRunnable => status_change RsStarting ts
        | _ => done_
        end
  | _ => done_
  end.

Definition replay_event (env : EventEnvelope) : Reduce unit :=
  replay_shim (env_event env);; apply_event env.

(** The first error ends the replay. *)
Definition run_reduce (m : Reduce unit) (s : RunProjection) : result RunProjection Stop :=
  match m s with
  | (Ok _, s) => Ok s
  | (Err e, _) => Err e
  end.

Definition apply_events (log : list EventEnvelope) : result RunProjection Stop :=
  match log with
  | [] => Err (Rejected (InvalidEvent "run projection requires a run.created event"))
  | first :: rest =>
      match projection_from_created first with
      | Err e => Err (Rejected e)
      | Ok s => run_reduce (each replay_event rest) s
      end
  end.
