(* ===== verification/StageFacts.v ===== *)
(** * Facts about stage projections

    The invariant of a stage projection, that every operation on a stage keeps
    it, and the bounds of the live timing estimate. *)

From S2P Require Import Prelude RustStr RustNum GraphTypes Context Outcome Lint.
From S2P Require Import StageIds RunStatus Timing Billing Todos Events Projection Reducer.
From coqutil Require Import Datatypes.RecordSetters.
Import OCamlLikeNotations.
Local Open Scope Z_scope.

(** A todo list is sorted, has one item per id and is dropped when it becomes
    empty; an open tool batch has an outstanding call; there is one entry per
    MCP server; the accumulators are [u64]s. *)
Record stage_ok (g : StageProjection) : Prop := {
  ok_todos : forall l, sg_root_agent_todos g = Some l -> todo_list_ok l /\ tl_items l <> [];
  ok_batch : forall b, sg_tool_batch g = Some b -> tb_open_call_ids b <> ∅;
  ok_mcp : NoDup (mcp_server_name <$> sg_mcp_servers g);
  ok_inference : is_u64 (sg_live_inference_ms g);
  ok_tool : is_u64 (sg_live_tool_ms g)
}.

(** What an operation does to a stage: it keeps its identity and its invariant. *)
Definition stage_step (g g' : StageProjection) : Prop :=
  sg_first_event_seq g' = sg_first_event_seq g /\ (stage_ok g -> stage_ok g').

#[export] Instance stage_step_preorder : PreOrder stage_step.
Proof. split; [done|]. intros a b c [H1 H2] [H3 H4]. split; [congruence|auto]. Qed.

(** The fields the invariant is about. *)
Definition core (g : StageProjection) :=
  (sg_first_event_seq g, sg_root_agent_todos g, sg_tool_batch g, sg_mcp_servers g,
   sg_live_inference_ms g, sg_live_tool_ms g).

Lemma stage_step_core g g' : core g' = core g -> stage_step g g'.
Proof.
  unfold core. intros [= E1 E2 E3 E4 E5 E6]. split; [done|].
  intros []. split; rewrite ?E2, ?E3, ?E4, ?E5, ?E6; done.
Qed.

Lemma StageProjection_new_ok seq : stage_ok (StageProjection_new seq).
Proof. split; try done. apply NoDup_nil_2. Qed.

Lemma saturating_add_elapsed a s e : is_u64 a -> is_u64 (saturating_add_u64 a (elapsed_ms s e)).
Proof. unfold is_u64, saturating_add_u64. pose proof (elapsed_ms_nonneg s e). lia. Qed.

(** ** Steps *)

Lemma begin_attempt_step ts h g : stage_step g (begin_attempt ts h g).
Proof. split; [done|]. intros _. split; try done. apply NoDup_nil_2. Qed.

Lemma close_bracket_step ts g : stage_step g (close_bracket_on_stage ts g).
Proof.
  unfold close_bracket_on_stage. destruct (sg_inference g); [|done]. split; [done|].
  intros []. split; try done. by apply saturating_add_elapsed.
Qed.

Lemma close_acp_step ts g : stage_step g (close_open_acp_inference ts g).
Proof.
  unfold close_open_acp_inference. destruct (sg_acp_started_at g); [|done]. split; [done|].
  intros []. split; try done. by apply saturating_add_elapsed.
Qed.

Lemma open_acp_step ts g : stage_step g (open_acp_inference ts g).
Proof. etrans; [apply (close_acp_step ts)|]. by apply stage_step_core. Qed.

Lemma acp_ended_step d v o t g : is_u64 d -> stage_step g (apply_agent_terminal v o t (close_acp_inference d g)).
Proof.
  intros Hd. split; [done|]. intros []. split; try done. unfold is_u64 in *.
  change (0 <= Z.max (sg_live_inference_ms g) d <= u64_max). lia.
Qed.

Lemma close_batch_step ts g : stage_step g (close_open_tool_batch ts g).
Proof.
  unfold close_open_tool_batch. destruct (sg_tool_batch g); [|done]. split; [done|].
  intros []. split; try done. by apply saturating_add_elapsed.
Qed.

Lemma close_batch_session_step session ts g : stage_step g (close_tool_batch_for_session session ts g).
Proof. unfold close_tool_batch_for_session. destruct (batch_of_session session g); [apply close_batch_step|done]. Qed.

Lemma with_batch_step b g :
  tb_open_call_ids b <> ∅ -> stage_step g { g with sg_tool_batch := Some b }.
Proof. intros Hb. split; [done|]. intros []. split; try done. by intros ? [= <-]. Qed.

Lemma open_tool_call_step session call ts g : stage_step g (open_tool_call session call ts g).
Proof.
  unfold open_tool_call. set (g1 := if is_some_and (fun b => negb (String.eqb (tb_session_id b) session)) (sg_tool_batch g)
            then close_open_tool_batch ts g else g).
  assert (stage_step g g1) as H1 by (unfold g1; destruct (is_some_and _ _); [apply close_batch_step|done]).
  etrans; [exact H1|]. apply with_batch_step.
  change ({[call]} ∪ tb_open_call_ids (default (mkToolBatch session ts ∅) (sg_tool_batch g1)) <> ∅). set_solver.
Qed.

Lemma close_tool_call_step session call ts g : stage_step g (close_tool_call session call ts g).
Proof.
  unfold close_tool_call. destruct (sg_tool_batch g) as [b|] eqn:Hb; [|done].
  destruct (negb (String.eqb _ _)); [done|]. destruct (negb (bool_decide (call ∈ _))); [done|].
  case_bool_decide as He; [|by apply with_batch_step].
  unfold close_open_tool_batch. split; [done|]. intros []. split; try done. by apply saturating_add_elapsed.
Qed.

Lemma close_session_step session ts g : stage_step g (close_session_brackets session ts g).
Proof.
  unfold close_session_brackets. etrans; [|apply close_batch_session_step].
  destruct (inference_of_session session g); [apply close_bracket_step|done].
Qed.

Lemma clear_live_timing_step g : stage_step g (clear_live_timing g).
Proof. split; [done|]. intros []. by split. Qed.

Lemma authoritative_step t g : stage_step g (set_authoritative_timing t g).
Proof. split; [done|]. intros []. by split. Qed.

Lemma set_billing_step b g : stage_step g (set_billing b g).
Proof. destruct b; [by apply stage_step_core|done]. Qed.

Lemma finalize_stage_step terminal ts g : stage_step g (finalize_stage terminal ts g).
Proof.
  unfold finalize_stage. destruct (StageState_is_terminal (sg_state g)); [done|].
  set (g1 := close_open_tool_batch _ _).
  assert (stage_step g g1) as H1.
  { unfold g1. etrans; [apply (close_bracket_step ts)|]. etrans; [apply (close_acp_step ts)|]. apply close_batch_step. }
  etrans; [exact H1|]. clearbody g1. cbn zeta.
  transitivity { g1 with sg_state := terminal }; [by apply stage_step_core|].
  destruct (negb _ && _)%bool; [apply authoritative_step|apply clear_live_timing_step].
Qed.

(** *** Todos *)

Lemma with_todos_step o g :
  (forall l, o = Some l -> stage_ok g -> todo_list_ok l /\ tl_items l <> []) ->
  stage_step g { g with sg_root_agent_todos := o }.
Proof. intros Ho. split; [done|]. intros Hg. pose proof Hg as []. split; try done. intros l Hl. by apply Ho. Qed.

Lemma todo_created_step p g : stage_step g (apply_todo_created p g).
Proof.
  unfold apply_todo_created. apply with_todos_step. intros l [= <-] Hg. split.
  - apply todo_upsert_ok. case_match; [|by apply NoDup_nil_2].
    case_match; [by apply NoDup_nil_2|]. by apply (ok_todos g Hg).
  - apply todo_upsert_nonempty.
Qed.

Lemma todo_updated_step p g : stage_step g (apply_todo_updated p g).
Proof.
  unfold apply_todo_updated. destruct (opt_filter _ _) as [l|] eqn:Hl; [|done]. apply opt_filter_Some in Hl as [Hl _].
  apply with_todos_step. intros l' [= <-] Hg. apply (ok_todos g Hg) in Hl as [H1 H2].
  split; [by apply todo_apply_patch_ok|by apply todo_apply_patch_nonempty].
Qed.

Lemma todo_deleted_step list_id todo g : stage_step g (apply_todo_deleted list_id todo g).
Proof.
  unfold apply_todo_deleted. destruct (opt_filter _ _) as [l|] eqn:Hl; [|done]. apply opt_filter_Some in Hl as [Hl _].
  apply with_todos_step. intros l' Hl' Hg. apply (ok_todos g Hg) in Hl as [H1 _].
  apply (todo_remove_ok todo) in H1. destruct (tl_items (todo_remove todo l)) eqn:Hi; [done|].
  injection Hl' as <-. split; [done|]. by rewrite Hi.
Qed.

(** *** MCP servers *)

Lemma update_first_fmap {A B} (k : A -> B) p f l :
  (forall a, p a = true -> k (f a) = k a) -> k <$> update_first p f l = k <$> l.
Proof.
  intros Hf. induction l as [|a l IH]; [done|]. cbn [update_first]. destruct (p a) eqn:Hp.
  - rewrite !fmap_cons. by rewrite Hf.
  - rewrite !fmap_cons. by rewrite IH.
Qed.

Lemma with_mcp_step servers g :
  (NoDup (mcp_server_name <$> sg_mcp_servers g) -> NoDup (mcp_server_name <$> servers)) ->
  stage_step g { g with sg_mcp_servers := servers }.
Proof. intros Hs. split; [done|]. intros []. split; try done. by apply Hs. Qed.

Lemma upsert_mcp_step server g : stage_step g (upsert_mcp_server server g).
Proof.
  unfold upsert_mcp_server. apply with_mcp_step. intros Hn.
  destruct (existsb _ _) eqn:He.
  - rewrite update_first_fmap; [done|]. intros m Hm. apply String.eqb_eq in Hm. by symmetry.
  - rewrite fmap_app, NoDup_app. split; [done|]. split; [|apply NoDup_singleton].
    intros n (m & -> & Hm)%list_elem_of_fmap Hs. cbn in Hs. rewrite list_elem_of_singleton in Hs.
    enough (existsb (fun m => String.eqb (mcp_server_name m) (mcp_server_name server)) (sg_mcp_servers g) = true) by congruence.
    apply existsb_exists. exists m. split; [by apply list_elem_of_In|by apply String.eqb_eq].
Qed.

Lemma mark_invoked_step tool g : stage_step g (mark_tool_invoked tool g).
Proof.
  unfold mark_tool_invoked. split; [done|]. intros []. split; try done.
  change (NoDup (mcp_server_name <$>
    match mcp_server_from_tool_name tool with
    | Some server => update_first (fun m => mcp_name_eq (mcp_server_name m) server)
                       (fun m => { m with mcp_invoked := true }) (sg_mcp_servers g)
    | None => sg_mcp_servers g
    end)).
  destruct (mcp_server_from_tool_name tool); [|done]. by rewrite update_first_fmap.
Qed.

Create HintDb stage_steps.
#[export] Hint Resolve begin_attempt_step close_bracket_step open_acp_step close_batch_step close_session_step
  authoritative_step finalize_stage_step todo_created_step todo_updated_step todo_deleted_step upsert_mcp_step
  mark_invoked_step close_tool_call_step set_billing_step : stage_steps.
#[export] Hint Extern 5 (stage_step _ _) => apply stage_step_core; reflexivity : stage_steps.

(** ** Live timing *)

(** An instant chrono can represent, in nanoseconds. *)
Definition instant_ok (t : DateTime) : Prop := Z.abs t <= 9223372036854775807 * 1000000.

Lemma elapsed_ms_u64 s e : instant_ok s -> instant_ok e -> is_u64 (elapsed_ms s e).
Proof.
  unfold instant_ok, is_u64, elapsed_ms, u64_max. intros Hs He.
  assert (Z.quot (e - s) 1000000 <= 18446744073709551614) as Hq.
  { etrans; [apply (Z.quot_le_mono _ (18446744073709551614 * 1000000) 1000000); lia|]. by vm_compute. }
  lia.
Qed.

Definition instants_ok (g : StageProjection) (now : DateTime) : Prop :=
  instant_ok now /\ (forall t, sg_started_at g = Some t -> instant_ok t) /\
  (forall t, sg_timing g = Some t -> timing_ok t).

Lemma live_wall_u64 g now : instants_ok g now -> is_u64 (default 0 (live_wall_time_ms g now)).
Proof.
  intros (Hn & Hs & Ht). unfold live_wall_time_ms.
  assert (is_u64 (default 0 ((fun t => elapsed_ms t now) <$> sg_started_at g))) as H1.
  { destruct (sg_started_at g); cbn; [by apply elapsed_ms_u64; auto|done]. }
  assert (is_u64 (default 0 (wall_time_ms <$> sg_timing g))) as H2.
  { destruct (sg_timing g); cbn; [by apply Ht|done]. }
  destruct (sg_state g); done.
Qed.

Lemma open_add_u64 a o now : is_u64 a -> is_u64 (saturating_add_u64 a (open_ms o now)).
Proof.
  intros Ha. destruct o as [t|]; cbn; [by apply saturating_add_elapsed|].
  apply saturating_add_u64_ok; done.
Qed.

Lemma live_active_u64 g wall now :
  stage_ok g -> is_u64 wall -> is_u64 (live_active g wall now).1 /\ is_u64 (live_active g wall now).2.
Proof.
  intros Hg Hw. unfold live_active. destruct (default SHAgent (sg_handler g)); cbn [fst snd]; try done.
  split; apply open_add_u64, Hg.
Qed.

(** What the estimate is before the terminal timing is known. *)
Lemma live_timing_None g now :
  sg_timing g = None ->
  live_timing g now =
    let wall := default 0 (live_wall_time_ms g now) in
    clamped_to_wall (StageTiming_new wall (live_active g wall now).1 (live_active g wall now).2).
Proof. unfold live_timing. intros ->. cbn zeta. by destruct (live_active g _ now). Qed.

Lemma saturating_add_0 a : is_u64 a -> saturating_add_u64 a 0 = a.
Proof. unfold is_u64, saturating_add_u64. lia. Qed.

(** ** Closing the brackets of an unfinished stage *)

Definition close_all (ts : DateTime) (g : StageProjection) : StageProjection :=
  close_open_tool_batch ts (close_open_acp_inference ts (close_bracket_on_stage ts g)).

(** The closed stage, field by field. *)
Lemma close_all_fields ts g :
  let c := close_all ts g in
  sg_state c = sg_state g /\ sg_timing c = sg_timing g /\ sg_started_at c = sg_started_at g /\
  sg_handler c = sg_handler g /\ sg_inference c = None /\ sg_acp_started_at c = None /\ sg_tool_batch c = None.
Proof.
  destruct g. destruct sg_inference, sg_acp_started_at, sg_tool_batch; repeat split.
Qed.

(** The accumulators after closing. *)
Lemma close_all_totals ts g :
  is_u64 (sg_live_inference_ms g) -> is_u64 (sg_live_tool_ms g) ->
  (sg_inference g = None \/ sg_acp_started_at g = None) ->
  sg_live_inference_ms (close_all ts g) =
    saturating_add_u64 (sg_live_inference_ms g)
      (open_ms (or_else (inf_started_at <$> sg_inference g) (sg_acp_started_at g)) ts) /\
  sg_live_tool_ms (close_all ts g) =
    saturating_add_u64 (sg_live_tool_ms g) (open_ms (tb_started_at <$> sg_tool_batch g) ts).
Proof.
  destruct g. destruct sg_inference, sg_acp_started_at, sg_tool_batch; intros Hi Ht Ho; split;
    first [reflexivity | by destruct Ho | symmetry; by apply saturating_add_0].
Qed.

(** Closing at the moment of the estimate does not change it: each open bracket adds
    what it was about to contribute.  (Of two open inference brackets the estimate
    counts only one.) *)
Lemma close_all_active ts g wall :
  stage_ok g -> (sg_inference g = None \/ sg_acp_started_at g = None) ->
  live_active (close_all ts g) wall ts = live_active g wall ts.
Proof.
  intros Hg Ho. destruct (close_all_fields ts g) as (_ & _ & _ & Hh & Hi & Ha & Hb).
  destruct (close_all_totals ts g (ok_inference g Hg) (ok_tool g Hg) Ho) as [H1 H2].
  unfold live_active. rewrite Hh, Hi, Ha, Hb. destruct (default SHAgent (sg_handler g)); try done.
  change (open_ms (or_else (inf_started_at <$> None) None) ts) with 0. change (open_ms (tb_started_at <$> None) ts) with 0.
  rewrite H1, H2, !saturating_add_0 by (apply open_add_u64, Hg). done.
Qed.

Lemma close_all_timing ts g :
  stage_ok g -> (sg_inference g = None \/ sg_acp_started_at g = None) ->
  live_timing (close_all ts g) ts = live_timing g ts.
Proof.
  intros Hg Ho. destruct (close_all_fields ts g) as (Hs & Ht & Hst & _). unfold live_timing. rewrite Ht.
  destruct (sg_timing g) eqn:Hg0; [done|]. unfold live_wall_time_ms. rewrite Hs, Ht, Hst, Hg0.
  by rewrite (close_all_active ts g _ Hg Ho).
Qed.

(** What the end of a failed run does to one stage. *)
Lemma finalize_stage_spec terminal ts g :
  StageState_is_terminal terminal = true ->
  let f := finalize_stage terminal ts g in
  StageState_is_terminal (sg_state f) = true /\
  (StageState_is_terminal (sg_state g) = true -> f = g) /\
  (StageState_is_terminal (sg_state g) = false ->
     sg_state f = terminal /\ sg_inference f = None /\ sg_acp_started_at f = None /\ sg_tool_batch f = None /\
     sg_timing f = (if is_some (sg_timing g) then sg_timing g
                    else if is_some (sg_started_at g) then Some (live_timing (close_all ts g) ts) else None)).
Proof.
  intros Hterm. cbn zeta. unfold finalize_stage. fold (close_all ts g).
  destruct (StageState_is_terminal (sg_state g)) eqn:Hg; [done|].
  destruct (close_all_fields ts g) as (_ & Ht & Hs & _). cbn zeta.
  change (sg_timing { close_all ts g with sg_state := terminal }) with (sg_timing (close_all ts g)).
  change (sg_started_at { close_all ts g with sg_state := terminal }) with (sg_started_at (close_all ts g)).
  rewrite Ht, Hs.
  destruct (sg_timing g), (sg_started_at g); cbn [is_some negb andb]; (split; [done|]); (split; [done|]); intros _;
    repeat split; exact Ht.
Qed.
