(* ===== verification/ReducerFacts.v ===== *)
(** * Reasoning about the reducer

    A specification of a reducer step relates the projection before and after
    it and says what it returns; [err] says from which projections it may stop
    with an error.  The rules below compose specifications along the
    monad, and the [reducer] hints walk through the arms of [apply_body]. *)

From S2P Require Import Prelude RustStr RustNum GraphTypes Context Outcome Lint.
From S2P Require Import StageIds RunStatus Timing Billing Todos Events Projection Reducer StageFacts.
From coqutil Require Import Datatypes.RecordSetters.
Import OCamlLikeNotations.
Local Open Scope Z_scope.

Create HintDb reducer.

Definition spec_at {A} (err : RunProjection -> Prop) (R : relation RunProjection) (Q : A -> Prop) (m : Reduce A)
    (s : RunProjection) : Prop :=
  match m s with
  | (Ok a, s') => R s s' /\ Q a
  | (Err _, _) => err s
  end.

Definition spec {A} (err : RunProjection -> Prop) (R : relation RunProjection) (Q : A -> Prop) (m : Reduce A) : Prop :=
  forall s, spec_at err R Q m s.

Definition any {A} (_ : A) : Prop := True.
Definition no_error (_ : RunProjection) : Prop := False.

(** An error after a step is one its start allows. *)
Class ErrorBack (err : RunProjection -> Prop) (R : relation RunProjection) : Prop :=
  error_back : forall s s', R s s' -> err s' -> err s.

#[export] Instance ErrorBack_any R : ErrorBack any R.
Proof. by intros s s' _ _. Qed.
#[export] Instance ErrorBack_none R : ErrorBack no_error R.
Proof. by intros s s' _ []. Qed.

Section rules.
Context (err : RunProjection -> Prop) (R : relation RunProjection) `{!PreOrder R, !ErrorBack err R}.

Lemma spec_ret {A} (Q : A -> Prop) a : Q a -> spec err R Q (mret a).
Proof. intros Hq s. by split. Qed.

Lemma spec_done Q : Q tt -> spec err R Q done_.
Proof. apply (spec_ret (A := unit)). Qed.

Lemma spec_at_bind {A B} (P : A -> Prop) (Q : B -> Prop) m k s :
  spec_at err R P m s -> (forall a s', m s = (Ok a, s') -> P a -> spec_at err R Q (k a) s') ->
  spec_at err R Q (m ≫= k) s.
Proof.
  unfold spec_at. intros Hm Hk. unfold mbind, Reduce_bind. destruct (m s) as [[a|e] s'] eqn:He; [|done].
  destruct Hm as [Hr Hp]. specialize (Hk a s' eq_refl Hp). destruct (k a s') as [[b|e] s''].
  - destruct Hk. split; [by etrans|done].
  - by eapply error_back.
Qed.

Lemma spec_bind {A B} (P : A -> Prop) (Q : B -> Prop) m k :
  spec err R P m -> (forall a, P a -> spec err R Q (k a)) -> spec err R Q (m ≫= k).
Proof. intros Hm Hk s. apply (spec_at_bind P); [apply Hm|]. intros a s' _ Ha. by apply Hk. Qed.

Lemma spec_get_at {B} (Q : B -> Prop) k : (forall s, spec_at err R Q (k s) s) -> spec err R Q (get_run ≫= k).
Proof. intros Hk s. apply Hk. Qed.

Lemma spec_get {B} (Q : B -> Prop) k : (forall a, spec err R Q (k a)) -> spec err R Q (get_run ≫= k).
Proof. intros Hk. apply spec_get_at. intros s. apply Hk. Qed.

Lemma spec_modify f : (forall s, R s (f s)) -> spec err R any (modify f).
Proof. intros Hf s. by split. Qed.

Lemma spec_reject {A} (Q : A -> Prop) e : (forall s, err s) -> spec err R Q (reject e).
Proof. intros He s. apply He. Qed.

Lemma spec_crash {A} (Q : A -> Prop) e : (forall s, err s) -> spec err R Q (crash e).
Proof. intros He s. apply He. Qed.

Lemma spec_each {A} (f : A -> Reduce unit) l :
  (forall a, a ∈ l -> spec err R any (f a)) -> spec err R any (each f l).
Proof.
  intros Hf. induction l as [|a l IH]; [by apply spec_done|].
  cbn [each]. apply (spec_bind any); [apply Hf; set_solver|]. intros _ _. apply IH. intros b Hb. apply Hf. set_solver.
Qed.

Lemma spec_modify_bind {B} (Q : B -> Prop) f k :
  (forall s, R s (f s)) -> spec err R Q k -> spec err R Q (modify f ;; k).
Proof. intros Hf Hk. apply (spec_bind any); [by apply spec_modify|done]. Qed.
End rules.

(** ** Stage targets *)

(** Where an event's stage operations go: the identifiers satisfy [T]. *)
Record targets (err : RunProjection -> Prop) (R : relation RunProjection) (T : StageId -> Prop) (e : RunEvent) (seq : Z) : Prop := {
  tgt_visit visit : spec err R (fun t => forall id, t = Some id -> T id) (stage_at_stored_or_visit e visit seq);
  tgt_current : spec err R (fun t => forall id, t = Some id -> T id) (stage_at_stored_or_current_visit e seq);
  tgt_completed nv : spec err R (fun t => forall id, t = Some id -> T id) (stage_at_completed_visit e nv seq)
}.

(** A projection with one more stage entry. *)
Definition add_entry (id : StageId) (seq : Z) (s : RunProjection) : RunProjection :=
  if is_some (rp_stages s !! id) then s else { s with rp_stages := <[id := StageProjection_new seq]> (rp_stages s) }.

Definition alter_stage (f : StageProjection -> StageProjection) (id : StageId) (s : RunProjection) : RunProjection :=
  { s with rp_stages := alter f id (rp_stages s) }.

Lemma visits_of_elem node s v :
  v ∈ visits_of node s -> exists id, sid_visit id = v /\ is_Some (rp_stages s !! id).
Proof.
  unfold visits_of. intros (id & -> & [Hid _]%filterb_elem)%list_elem_of_fmap. exists id. split; [done|].
  apply list_elem_of_fmap in Hid as ([id' g] & -> & Hg%elem_of_map_to_list). by exists g.
Qed.

Lemma foldl_max_elem v l : foldl Z.max v l ∈ v :: l.
Proof.
  revert v. induction l as [|w l IH]; intros v; cbn [foldl]; [set_solver|].
  destruct (Z.max_dec v w) as [H|H]; rewrite H; [specialize (IH v)|specialize (IH w)]; set_solver.
Qed.

Lemma current_visit_elem node s v : current_visit_for node s = Some v -> v ∈ visits_of node s.
Proof.
  unfold current_visit_for. destruct (visits_of node s) as [|w l]; [done|]. intros [= <-]. apply foldl_max_elem.
Qed.

Lemma current_visit_nonzero node s v :
  map_Forall (fun id _ => sid_visit id <> 0) (rp_stages s) -> current_visit_for node s = Some v -> v <> 0.
Proof.
  intros Hm (id & <- & [g Hg])%current_visit_elem%visits_of_elem. by apply (Hm id g).
Qed.

Section targets.
Context (err : RunProjection -> Prop) (R : relation RunProjection) `{!PreOrder R, !ErrorBack err R}.
Context (T : StageId -> Prop).

Lemma spec_stage_entry node visit seq s :
  err s \/ (seq <> 0 /\ visit <> 0) ->
  (visit <> 0 -> seq <> 0 -> T (mkStageId node visit)) ->
  (visit <> 0 -> seq <> 0 -> forall s, R s (add_entry (mkStageId node visit) seq s)) ->
  spec_at err R T (stage_entry node visit seq) s.
Proof.
  intros He Ht Hr. unfold stage_entry, try_new_stage_id, spec_at.
  destruct (Z.eqb_spec seq 0); [cbn; tauto|]. destruct (Z.eqb_spec visit 0); [cbn; tauto|].
  split; [by apply Hr|by apply Ht].
Qed.

Lemma spec_entry_Some node visit seq s :
  spec_at err R T (stage_entry node visit seq) s ->
  spec_at err R (fun t => forall id, t = Some id -> T id) (id ← stage_entry node visit seq; mret (Some id)) s.
Proof.
  intros H. apply (spec_at_bind _ _ T); [done|]. intros id s' _ Hid. apply spec_ret; [done|]. by intros ? [= <-].
Qed.

Lemma spec_none : spec err R (fun t : option StageId => forall id, t = Some id -> T id) (mret None).
Proof. by apply spec_ret. Qed.

(** An event that names its stage only ever addresses that stage. *)
Lemma targets_named e seq id :
  ev_stage_id e = Some id -> sid_visit id <> 0 -> seq <> 0 -> T id -> (forall s, R s (add_entry id seq s)) ->
  targets err R T e seq.
Proof.
  intros He Hv Hs Ht Hr.
  assert (spec err R (fun t => forall id, t = Some id -> T id)
            (id ← stage_at_stored_stage_id id seq; mret (Some id))) as H.
  { intros s. apply spec_entry_Some. apply spec_stage_entry; [by right|destruct id; by cbn..]. }
  split; intros; unfold stage_at_stored_or_visit, stage_at_stored_or_current_visit, stage_at_completed_visit;
    by rewrite He.
Qed.

(** In general it may address any stage. *)
Lemma targets_any e seq :
  (forall s, err s \/ (seq <> 0 /\ map_Forall (fun id _ => sid_visit id <> 0) (rp_stages s) /\
                       forall id, ev_stage_id e = Some id -> sid_visit id <> 0)) ->
  (forall id, T id) -> (forall id s, sid_visit id <> 0 -> R s (add_entry id seq s)) -> targets err R T e seq.
Proof.
  intros He Ht Hr.
  assert (forall node visit s, err s \/ (seq <> 0 /\ visit <> 0) ->
    spec_at err R (fun t => forall id, t = Some id -> T id) (id ← stage_entry node visit seq; mret (Some id)) s) as Hn.
  { intros. apply spec_entry_Some, spec_stage_entry; auto. }
  assert (forall id s, ev_stage_id e = Some id ->
    spec_at err R (fun t => forall id, t = Some id -> T id)
      (id ← stage_at_stored_stage_id id seq; mret (Some id)) s) as Hs.
  { intros id s Hid. apply Hn. specialize (He s). naive_solver. }
  assert (forall (node : string) (o : option Z) s,
    (forall v, o = Some v -> v <> 0 \/ current_visit_for node s = Some v) ->
    spec_at err R (fun t => forall id, t = Some id -> T id) (id ← stage_entry node (default 1 o) seq; mret (Some id)) s) as Hc.
  { intros node o s Hv. apply Hn. destruct (He s) as [?|(Hq & Hm & _)]; [by left|]. right. split; [done|].
    destruct o as [v|]; [|done]. destruct (Hv v eq_refl) as [|Hcv]; [done|]. by eapply current_visit_nonzero. }
  split.
  - intros visit s. unfold stage_at_stored_or_visit, stage_at_visit. destruct (ev_stage_id e) eqn:Hid; [by apply Hs|].
    destruct (Z.eqb_spec visit 0); [apply spec_none|]. destruct (ev_node_id e); [|apply spec_none].
    apply Hn. specialize (He s). naive_solver.
  - intros s. unfold stage_at_stored_or_current_visit, stage_at_current_visit.
    destruct (ev_stage_id e) eqn:Hid; [by apply Hs|]. destruct (ev_node_id e); [|apply spec_none].
    apply spec_get_at. intros s'. apply Hc. auto.
  - intros nv s. unfold stage_at_completed_visit. destruct (ev_stage_id e) eqn:Hid; [by apply Hs|].
    destruct (ev_node_id e); [|apply spec_none]. apply spec_get_at. intros s'. apply Hc. intros v Hv.
    unfold stage_visit, or_else in Hv. destruct (opt_filter _ _) as [w|] eqn:Hf; [|by right].
    apply opt_filter_Some in Hf as [_ Hf]. left. injection Hv as ->. lia.
Qed.

Lemma spec_on_stage target f :
  spec err R (fun t => forall id, t = Some id -> T id) target ->
  (forall id s, T id -> R s (alter_stage f id s)) -> spec err R any (on_stage target f).
Proof.
  intros Ht Hf. apply (spec_bind _ _ _ _ _ _ Ht). intros [id|] Hid; [|by apply spec_done].
  apply spec_modify. intros s. by apply Hf, Hid.
Qed.

Lemma spec_matching e visit seq :
  targets err R T e seq -> spec err R (fun t => forall id, t = Some id -> T id) (matching_inference_stage e visit seq).
Proof.
  intros Ht. unfold matching_inference_stage. destruct (is_some (ev_parent_session_id e)); [apply spec_none|].
  destruct (ev_session_id e) as [session|]; [|apply spec_none].
  apply (spec_bind _ _ _ _ _ _ (tgt_visit _ _ _ _ _ Ht visit)). intros t Hid.
  apply spec_get. intros s. apply spec_ret; [done|]. intros id [Ho _]%opt_filter_Some. auto.
Qed.
End targets.

(** ** What the stage events do *)

(** The run-level part of a projection. *)
Definition run_part (s : RunProjection) : RunProjection := { s with rp_stages := ∅ }.

(** How a stage table may change: stages satisfying [T] are created at [seq] or
    updated in a way that keeps their identity and invariant; no other stage
    changes and none disappears. *)
Definition entry_step (T : StageId -> Prop) (seq : Z) (id : StageId) (o o' : option StageProjection) : Prop :=
  match o, o' with
  | None, None => True
  | None, Some g' => T id /\ sid_visit id <> 0 /\ sg_first_event_seq g' = seq /\ stage_ok g'
  | Some g, Some g' => g = g' \/ (T id /\ stage_step g g')
  | Some _, None => False
  end.

Definition stages_step (T : StageId -> Prop) (seq : Z) (m m' : gmap StageId StageProjection) : Prop :=
  forall id, entry_step T seq id (m !! id) (m' !! id).

Definition stages_only (T : StageId -> Prop) (seq : Z) (s s' : RunProjection) : Prop :=
  run_part s' = run_part s /\ stages_step T seq (rp_stages s) (rp_stages s').

#[export] Instance stages_step_preorder T seq : PreOrder (stages_step T seq).
Proof.
  split.
  - intros m id. unfold entry_step. destruct (m !! id); auto.
  - intros m1 m2 m3 H12 H23 id. specialize (H12 id). specialize (H23 id). unfold entry_step in *.
    destruct (m1 !! id), (m2 !! id), (m3 !! id); try done.
    + destruct H12 as [->|[Ht H1]]; [done|]. destruct H23 as [->|[_ H2]]; [by right|]. right. split; [done|by etrans].
    + destruct H12 as (Ht & Hv & Hs & Ho). destruct H23 as [->|[_ [H1 H2]]]; [done|].
      split; [done|]. split; [done|]. split; [congruence|auto].
Qed.

#[export] Instance stages_only_preorder T seq : PreOrder (stages_only T seq).
Proof.
  split; [done|]. intros a b c [H1 H2] [H3 H4]. split; [congruence|by etrans].
Qed.

Lemma add_entry_only (T : StageId -> Prop) seq id s :
  T id -> sid_visit id <> 0 -> stages_only T seq s (add_entry id seq s).
Proof.
  intros Ht Hv. unfold add_entry. destruct (rp_stages s !! id) eqn:Hs; cbn [is_some]; [done|]. split; [done|].
  intros id'. change (entry_step T seq id' (rp_stages s !! id') (<[id:=StageProjection_new seq]> (rp_stages s) !! id')).
  destruct (decide (id = id')) as [<-|Hn].
  - rewrite Hs, lookup_insert_eq. repeat split; try done. apply StageProjection_new_ok.
  - rewrite lookup_insert_ne by done. unfold entry_step. destruct (rp_stages s !! id'); auto.
Qed.

Lemma alter_stage_only (T : StageId -> Prop) seq f id s :
  T id -> (forall g, stage_step g (f g)) -> stages_only T seq s (alter_stage f id s).
Proof.
  intros Ht Hf. split; [done|]. intros id'.
  change (entry_step T seq id' (rp_stages s !! id') (alter f id (rp_stages s) !! id')).
  destruct (decide (id = id')) as [<-|Hn].
  - rewrite lookup_alter_eq. destruct (rp_stages s !! id); cbn; auto.
  - rewrite lookup_alter_ne by done. unfold entry_step. destruct (rp_stages s !! id'); auto.
Qed.

Lemma fmap_stages_only seq f s :
  (forall g, stage_step g (f g)) -> stages_only any seq s { s with rp_stages := f <$> rp_stages s }.
Proof.
  intros Hf. split; [done|]. intros id.
  change (entry_step any seq id (rp_stages s !! id) ((f <$> rp_stages s) !! id)).
  rewrite lookup_fmap. destruct (rp_stages s !! id); cbn; auto. by right.
Qed.

(** The bodies that only touch the stage they are addressed to. *)
Definition stage_body (b : EventBody) : bool :=
  match b with
  | BStageStarted _ | BStageRetrying | BStagePrompt _ | BPromptCompleted _ | BStageCompleted _ | BStageFailed _
  | BAgentMessage _ | BAgentLlmStarted _ _ | BAgentLlmFirstOutput _ _ | BAgentLlmRetry _ | BAgentError _
  | BAgentSessionActivated _ | BAgentRoundInterrupted _ | BAgentSteeringInjected _ | BAgentSessionDeactivated _
  | BAgentToolsAvailable _ _ | BAgentAcpStarted _ | BCommandStarted _ | BCommandCompleted _ | BParallelCompleted _
  | BParallelBranchStarted _ | BParallelBranchCompleted _ _ | BTodoCreated _ | BTodoUpdated _ | BTodoDeleted _ _ _
  | BAgentSubSpawned _ _ _ _ | BAgentSubTurnStarted _ _ | BAgentSubCompleted _ _ _ _ | BAgentSubFailed _ _ _
  | BAgentSubClosed _ _ | BAgentSkillsDiscovered _ _ | BAgentSkillActivated _ _ _ | BAgentMcpReady _ _ _ _
  | BAgentMcpFailed _ _ _ | BAgentToolStarted _ _ _ | BAgentToolCompleted _ _ => true
  | _ => false
  end.

Section stage_arms.
Context (err : RunProjection -> Prop) (T : StageId -> Prop) (e : RunEvent) (seq : Z).
Context `{!ErrorBack err (stages_only T seq)}.
Context (Ht : targets err (stages_only T seq) T e seq).

Lemma arm_on target f :
  spec err (stages_only T seq) (fun t => forall id, t = Some id -> T id) target ->
  (forall g, stage_step g (f g)) -> spec err (stages_only T seq) any (on_stage target f).
Proof. intros Hs Hf. eapply spec_on_stage; [apply _|apply _|exact Hs|]. intros id s Hid. by apply alter_stage_only. Qed.

Lemma arm_visit visit f :
  (forall g, stage_step g (f g)) -> spec err (stages_only T seq) any (on_stage (stage_at_stored_or_visit e visit seq) f).
Proof. intros Hf. by apply arm_on; [apply Ht|]. Qed.

Lemma arm_current f :
  (forall g, stage_step g (f g)) ->
  spec err (stages_only T seq) any (on_stage (stage_at_stored_or_current_visit e seq) f).
Proof. intros Hf. by apply arm_on; [apply Ht|]. Qed.

Lemma arm_matching visit f :
  (forall g, stage_step g (f g)) ->
  spec err (stages_only T seq) any (on_stage (matching_inference_stage e visit seq) f).
Proof. intros Hf. apply arm_on; [|done]. apply spec_matching; [apply _|apply _|done]. Qed.

Lemma arm_close visit ts : spec err (stages_only T seq) any (close_inference_bracket e visit seq ts).
Proof. apply arm_matching. auto with stage_steps. Qed.

(** An update of the addressed stage, then the end of its bracket. *)
Lemma arm_then_close visit f ts :
  (forall g, stage_step g (f g)) ->
  spec err (stages_only T seq) any
    (t ← stage_at_stored_or_visit e visit seq;
     match t with
     | None => done_
     | Some id => update_stage f id;; close_inference_bracket e visit seq ts
     end).
Proof.
  intros Hf. eapply spec_bind; [apply _|apply _|apply Ht|]. intros [id|] Hid; [|by apply spec_done; [apply _|]].
  apply spec_modify_bind; [apply _|apply _| |apply arm_close]. intros s. apply alter_stage_only; [by apply Hid|done].
Qed.

(** The stage an event names, looked up before it is created. *)
Lemma arm_named (k : bool -> StageProjection -> StageProjection) :
  (forall b g, stage_step g (k b g)) ->
  (forall id, ev_stage_id e = Some id ->
     spec err (stages_only T seq) any
       (s ← get_run;
        let is_new := negb (is_some (rp_stages s !! id)) in
        id ← stage_at_stored_stage_id id seq; update_stage (k is_new) id)).
Proof.
  intros Hk id He. pose proof (tgt_current _ _ _ _ _ Ht) as Hc. unfold stage_at_stored_or_current_visit in Hc.
  rewrite He in Hc. apply spec_get. intros s0. cbn zeta. clear Ht.
  intros s. specialize (Hc s). unfold spec_at, mbind, Reduce_bind in *.
  destruct (stage_at_stored_stage_id id seq s) as [[id'|x] s']; [|done]. cbn in Hc. destruct Hc as [Hr Hid].
  split; [|done]. etrans; [exact Hr|]. apply alter_stage_only; [by apply Hid|done].
Qed.
End stage_arms.

(** One step for each change the arm makes to the stage. *)
Ltac stage_steps :=
  intros; cbn beta zeta;
  repeat match goal with
    | |- stage_step _ (match ?x with _ => _ end) => destruct x eqn:?
    end;
  eauto 2 with stage_steps.

Lemma started_step ts h b v r g :
  stage_step g (let g := begin_attempt ts h g in
                if b : bool then { g with sg_graph_visit := v; sg_resumed_from_stage_id := r } else g).
Proof.
  etrans; [apply (begin_attempt_step ts h)|]. cbn zeta. destruct b; [by apply stage_step_core|done].
Qed.

Lemma settled_step (f : StageProjection -> StageProjection) t b g :
  (forall g, core (f g) = core g) -> stage_step g (f (set_billing b (set_authoritative_timing t g))).
Proof.
  intros Hf. etrans; [apply (authoritative_step t)|]. etrans; [apply (set_billing_step b)|]. by apply stage_step_core.
Qed.

Lemma tool_started_step tool session call ts g :
  stage_step g (let g := mark_tool_invoked tool g in
                match session with Some session => open_tool_call session call ts g | None => g end).
Proof.
  etrans; [apply (mark_invoked_step tool)|]. cbn zeta. destruct session; [apply open_tool_call_step|done].
Qed.

Lemma spec_stage_body err T e seq `{!ErrorBack err (stages_only T seq)} :
  targets err (stages_only T seq) T e seq -> stage_body (ev_body e) = true ->
  spec err (stages_only T seq) any (apply_body e seq).
Proof.
  intros Ht Hb. unfold apply_body. destruct (ev_body e) eqn:Hbody; try discriminate; clear Hb; cbn zeta.
  all: try solve [apply arm_visit; [apply _|done|]; stage_steps].
  all: try solve [apply arm_current; [apply _|done|]; stage_steps].
  all: try solve [apply arm_matching; [apply _|done|]; stage_steps].
  all: try solve [apply arm_then_close; [apply _|done|]; stage_steps].
  all: try solve [apply arm_close; [apply _|done]].
  all: try solve [unfold on_todos; destruct (should_project_root_agent_todo_event _ _);
                  [apply arm_current; [apply _|done|]; stage_steps|by apply spec_done; [apply _|]]].
  - unfold apply_stage_started. destruct (ev_stage_id e) as [id|] eqn:He; [|by apply spec_done; [apply _|]].
    eapply (arm_named err T e seq Ht (fun b g => let g := begin_attempt _ _ g in if b then _ else g)); [|exact He].
    intros. apply started_step.
  - apply arm_current; [apply _|done|]. intros g. etrans; [|apply set_billing_step]. by apply stage_step_core.
  - apply arm_on; [apply _|apply Ht|]. intros g. cbn zeta.
    transitivity { g with sg_response := sc_response p;
                          sg_completion := Some (stage_completion_from_outcome (stage_outcome_from_props p) (ev_ts e)) };
      [by apply stage_step_core|]. by apply (settled_step (fun g => { g with sg_state := _; sg_agent_control := _ })).
  - apply arm_current; [apply _|done|]. intros g. cbn zeta.
    transitivity { g with sg_completion := Some (mkCompletion (Failed (sfl_will_retry p)) None
                                              (message <$> sfl_failure p) (ev_ts e)) };
      [by apply stage_step_core|].
    by apply (settled_step (fun g => { g with
      sg_state := stage_state_from_failure (sfl_will_retry p) (category <$> sfl_failure p) (sg_termination g);
      sg_agent_control := _ })).
  - unfold open_inference_bracket. destruct (is_some _); [by apply spec_done; [apply _|]|].
    destruct (ev_session_id e); [|by apply spec_done; [apply _|]]. apply arm_visit; [apply _|done|]. stage_steps.
  - apply spec_get. intros s. cbn zeta. apply arm_current; [apply _|done|]. intros g. cbn zeta.
    destruct (is_none_or _ _); by apply stage_step_core.
  - apply arm_visit; [apply _|done|]. intros g. apply tool_started_step.
  - unfold apply_tool_completed. destruct (is_some _); [by apply spec_done; [apply _|]|].
    destruct (ev_session_id e); [|by apply spec_done; [apply _|]]. apply arm_visit; [apply _|done|]. stage_steps.
Qed.
