(* ===== verification/RunFacts.v ===== *)
(** * Facts about the run-level part of the reducer

    Which events a projection accepts, what they do to the status, the invariant
    of the run-level records, and how replay relates to live application. *)

From S2P Require Import Prelude RustStr RustNum GraphTypes Context Outcome Lint.
From S2P Require Import StageIds RunStatus Timing Billing Todos Events Projection Reducer StageFacts ReducerFacts.
From coqutil Require Import Datatypes.RecordSetters.
Import OCamlLikeNotations.
Local Open Scope Z_scope.

(** ** Which events are accepted *)

(** The status an event asks for. *)
Definition requested_status (cur : RunStatus) (b : EventBody) : option RunStatus :=
  match b with
  | BRunStartRequested true => Some RsSubmitted
  | BRunPending reason => Some (RsPending reason)
  | BRunRunnable => Some RsRunnable
  | BRunStarting => Some RsStarting
  | BRunRunning => Some RsRunning
  | BRunBlocked reason => Some (match cur with RsPaused _ => RsPaused (Some reason) | _ => RsBlocked reason end)
  | BRunUnblocked => Some (match cur with RsPaused _ => RsPaused None | _ => RsRunning end)
  | BRunRemoving => Some RsRemoving
  | BRunPaused => Some (RsPaused (status_blocked_reason cur))
  | BRunUnpaused => Some (match cur with RsPaused (Some reason) => RsBlocked reason | _ => RsRunning end)
  | BRunCompleted p => Some (RsSucceeded (rcp_reason p))
  | BRunFailed p => Some (RsFailed (rf_reason (rfp_failure p)))
  | _ => None
  end.

Definition refused_transition (cur : RunStatus) (b : EventBody) : option StoreError :=
  new ← requested_status cur b;
  if (bool_decide (cur = new) || can_transition_to cur new)%bool then None
  else Some (InvalidTransitionError (mkInvalid cur new)).

(** Why a projection refuses an event. *)
Definition refusal (s : RunProjection) (b : EventBody) : option StoreError :=
  match b with
  | BRunCreated _ => Some (InvalidEvent "run.created cannot be applied to an initialized projection")
  | BRunCompleted p =>
      or_else (refused_transition (rp_status s) b)
        (match StageOutcome_from_str (rcp_status p) with
         | Err err => Some (InvalidEvent ("invalid completed stage status: " +:+ err))
         | Ok _ => None
         end)
  | BRunArchived =>
      if (is_some (rp_archived_at s) || status_is_terminal (rp_status s))%bool then None
      else Some (InvalidTransitionError (mkInvalid (rp_status s) (rp_status s)))
  | _ => refused_transition (rp_status s) b
  end.

(** The events that cannot crash the reducer: they have a sequence number, a stage
    identifier is one the type admits, and a checkpoint without one does not record
    a visit zero for the stages it settles. *)
Definition legacy_nodes (e : RunEvent) (p : CheckpointCompletedProps) : list string :=
  match ev_node_id e, cp_diff p with Some node, Some _ => [node] | _, _ => [] end ++
  (fst <$> filterb (fun entry => bool_decide (status entry.2 = Skipped)) (map_to_list (cp_node_outcomes p))).

Definition event_safe (env : EventEnvelope) : Prop :=
  env_seq env <> 0 /\
  (forall id, ev_stage_id (env_event env) = Some id -> sid_visit id <> 0) /\
  (forall p, ev_body (env_event env) = BCheckpointCompleted p -> ev_stage_id (env_event env) = None ->
     forall node, node ∈ legacy_nodes (env_event env) p -> cp_node_visits p !! node <> Some 0).

Lemma status_change_cases new ts s :
  status_change new ts s =
    if (bool_decide (rp_status s = new) || can_transition_to (rp_status s) new)%bool
    then (Ok (), if decide (rp_status s = new) then s else { s with rp_status := new; rp_status_updated_at := ts })
    else (Err (Rejected (InvalidTransitionError (mkInvalid (rp_status s) new))), s).
Proof.
  unfold status_change, try_apply_status, transition_to. case_bool_decide as Hd; case_decide; try done. cbn [orb].
  by destruct (can_transition_to (rp_status s) new).
Qed.

(** ** Events that reach several stages *)

Definition visits_nonzero (s : RunProjection) : Prop := map_Forall (fun id _ => sid_visit id <> 0) (rp_stages s).
Definition bad_visits (s : RunProjection) : Prop := ~ visits_nonzero s.

Lemma stages_only_visits T seq s s' : stages_only T seq s s' -> visits_nonzero s -> visits_nonzero s'.
Proof.
  intros [_ Hs] Hv id g' Hg'. specialize (Hs id). rewrite Hg' in Hs. unfold entry_step in Hs.
  destruct (rp_stages s !! id) as [g|] eqn:Hg; [by apply (Hv id g)|]. naive_solver.
Qed.

#[export] Instance ErrorBack_visits T seq : ErrorBack bad_visits (stages_only T seq).
Proof. intros s s' Hr Hb Hv. by eapply Hb, stages_only_visits. Qed.

(** Either every error is allowed, or the event is safe and the stages are. *)
Definition guarded (err : RunProjection -> Prop) (P : Prop) : Prop := (forall s, err s) \/ (err = bad_visits /\ P).

Lemma guarded_any P : guarded any P.
Proof. by left. Qed.

Lemma guarded_cases err (P : Prop) : guarded err P -> forall s, err s \/ (P /\ visits_nonzero s).
Proof.
  intros [He|[-> Hp]] s; [auto|]. destruct (decide (visits_nonzero s)); [auto|by left].
Qed.

Lemma add_entry_any seq id s : sid_visit id <> 0 -> stages_only any seq s (add_entry id seq s).
Proof. by apply add_entry_only. Qed.

Lemma targets_all err e seq :
  guarded err (seq <> 0 /\ forall id, ev_stage_id e = Some id -> sid_visit id <> 0) ->
  ErrorBack err (stages_only any seq) -> targets err (stages_only any seq) any e seq.
Proof.
  intros Hg He. apply targets_any; [apply _|done| |done|].
  - intros s. destruct (guarded_cases _ _ Hg s) as [|[[H1 H2] H3]]; auto.
  - intros. by apply add_entry_any.
Qed.

Section several.
Context (err : RunProjection -> Prop) (e : RunEvent) (seq : Z) `{!ErrorBack err (stages_only any seq)}.

Lemma spec_session_ended ts : spec err (stages_only any seq) any (close_active_brackets_for_session e ts).
Proof.
  unfold close_active_brackets_for_session. destruct (is_some _); [by apply spec_done; [apply _|]|].
  destruct (ev_session_id e); [|by apply spec_done; [apply _|]]. apply spec_modify. intros p. apply fmap_stages_only.
  apply close_session_step.
Qed.

Lemma spec_acp_ended p t :
  guarded err (seq <> 0) -> is_u64 (acp_duration_ms p) ->
  spec err (stages_only any seq) any (apply_acp_ended e p t seq).
Proof.
  intros Hg Hd. apply arm_on; [done| |].
  - change (stage_at_current_visit e seq) with (stage_at_stored_or_current_visit { e with ev_stage_id := None } seq).
    apply tgt_current, targets_all; [|done].
    destruct Hg as [|[]]; [by left|by right].
  - intros g. by apply acp_ended_step.
Qed.

(** *** Checkpoints *)

Lemma spec_checkpoint_to_stage id p ck ts :
  guarded err (seq <> 0 /\ forall id, ev_stage_id e = Some id -> sid_visit id <> 0) -> ev_stage_id e = Some id ->
  spec err (stages_only any seq) any (apply_checkpoint_to_stage id p ck seq ts).
Proof.
  intros Hg He. unfold apply_checkpoint_to_stage. set (skipped := fmap _ _).
  destruct (negb _ && _)%bool; [by apply spec_done; [apply _|]|].
  eapply (arm_named err any e seq (targets_all _ _ _ Hg _) (fun is_new g =>
      let g := if is_new then { g with sg_graph_visit := cp_graph_visit p;
                                       sg_resumed_from_stage_id := cp_resumed_from_stage_id p } else g in
      let g := match cp_diff p with Some d => { g with sg_diff := Some d } | None => g end in
      match skipped with
      | Some c => if StageState_is_terminal (sg_state g) then g
                  else { g with sg_completion := Some c; sg_state := SSkipped }
      | None => g
      end)); [|exact He].
  intros b g. cbn zeta. destruct b, (cp_diff p), skipped; try destruct (StageState_is_terminal _);
    by apply stage_step_core.
Qed.

Lemma spec_entry_update node visit f :
  guarded err (seq <> 0 /\ visit <> 0) -> (forall g, stage_step g (f g)) ->
  spec err (stages_only any seq) any (id ← stage_entry node visit seq; update_stage f id).
Proof.
  intros Hg Hf. apply (spec_bind _ _ any).
  - intros s. apply spec_stage_entry; [|done|].
    + destruct (guarded_cases _ _ Hg s) as [|[]]; auto.
    + intros Hv _ s'. by apply add_entry_any.
  - intros id _. apply spec_modify. intros s. by apply alter_stage_only.
Qed.

Lemma checkpoint_visit_nonzero ck node : ck_node_visits ck !! node <> Some 0 -> checkpoint_visit ck node <> 0.
Proof.
  unfold checkpoint_visit, try_u32. intros Hn. destruct (ck_node_visits ck !! node) as [v|]; cbn; [|done].
  destruct (v <=? u32_max); cbn; [|done]. congruence.
Qed.

Lemma spec_legacy p ts :
  guarded err (seq <> 0 /\ forall node, node ∈ legacy_nodes e p -> cp_node_visits p !! node <> Some 0) ->
  spec err (stages_only any seq) any
    (apply_legacy_checkpoint (ev_node_id e) p (checkpoint_from_props p ts) seq ts).
Proof.
  intros Hg.
  assert (forall node, node ∈ legacy_nodes e p ->
            guarded err (seq <> 0 /\ checkpoint_visit (checkpoint_from_props p ts) node <> 0)) as Hv.
  { intros node Hn. destruct Hg as [|[-> [H1 H2]]]; [by left|right]. split; [done|]. split; [done|].
    apply checkpoint_visit_nonzero. by apply H2. }
  unfold apply_legacy_checkpoint. apply (spec_bind _ _ any).
  - unfold apply_legacy_diff. unfold legacy_nodes in Hv.
    destruct (ev_node_id e); [|by apply spec_done; [apply _|]].
    destruct (cp_diff p); [|by apply spec_done; [apply _|]]. apply spec_entry_update; [apply Hv; set_solver|].
    intros g. by apply stage_step_core.
  - intros _ _. apply spec_each; [apply _|apply _|]. intros [node o] Hin. cbn [fst snd]. unfold apply_legacy_skip.
    case_decide as Hs; [|by apply spec_done; [apply _|]].
    assert (node ∈ legacy_nodes e p) as Hn.
    { unfold legacy_nodes. apply elem_of_app. right. apply list_elem_of_fmap. exists (node, o). split; [done|].
      apply filterb_elem. split; [done|]. by apply bool_decide_eq_true. }
    specialize (Hv node Hn). unfold try_new_stage_id. destruct (Z.eqb_spec (checkpoint_visit (checkpoint_from_props p ts) node) 0).
    + destruct Hv as [?|[_ [_ ?]]]; [by apply spec_crash|done].
    + apply spec_get. intros s. destruct (is_some _); [by apply spec_done; [apply _|]|].
      apply spec_entry_update; [done|]. intros g. by apply stage_step_core.
Qed.
End several.

(** The bodies that leave the run-level part alone. *)
Definition stages_body (b : EventBody) : bool :=
  (stage_body b ||
   match b with
   | BAgentSessionEnded | BAgentAcpCompleted _ | BAgentAcpCancelled _ | BAgentAcpTimedOut _ | BOther _ => true
   | _ => false
   end)%bool.

(** The ranges of the payload fields the invariant depends on. *)
Definition payload_ok (b : EventBody) : Prop :=
  match b with
  | BAgentAcpCompleted p | BAgentAcpCancelled p | BAgentAcpTimedOut p => is_u64 (acp_duration_ms p)
  | _ => True
  end.

Lemma spec_stages_body err e seq `{!ErrorBack err (stages_only any seq)} :
  guarded err (seq <> 0 /\ forall id, ev_stage_id e = Some id -> sid_visit id <> 0) -> payload_ok (ev_body e) ->
  stages_body (ev_body e) = true -> spec err (stages_only any seq) any (apply_body e seq).
Proof.
  intros Hg Hp Hb. unfold stages_body in Hb. destruct (stage_body (ev_body e)) eqn:Hs.
  { apply spec_stage_body; [done| |done]. by apply targets_all. }
  assert (guarded err (seq <> 0)) as Hq by (destruct Hg as [|[? []]]; [by left|by right]).
  unfold apply_body. destruct (ev_body e); try discriminate; cbn zeta.
  all: try by apply spec_acp_ended.
  - by apply spec_session_ended.
  - by apply spec_done; [apply _|].
Qed.

(** ** The run-level invariant *)

(** A run has a conclusion exactly when it has ended (a removal keeps the one it
    had), and the conclusion says how; a run waits for approval only with an
    approval record; the sandbox record is one the serializer accepts; pending
    interviews are filed under their question; a pending pull request creation has
    no result yet. *)
Definition conclusion_ok (st : RunStatus) (c : option Conclusion) : Prop :=
  match st with
  | RsSucceeded _ => exists c', c = Some c' /\ con_failure c' = None
  | RsFailed r => exists c' f, c = Some c' /\ con_failure c' = Some f /\ rf_reason f = r
  | RsRemoving | RsDead => True
  | _ => c = None
  end.

Record run_ok (s : RunProjection) : Prop := {
  ok_conclusion : conclusion_ok (rp_status s) (rp_conclusion s);
  ok_approval : forall r, rp_status s = RsPending r -> is_Some (rp_approval s);
  ok_sandbox : exists sb, rp_sandbox s = Some sb /\ RunSandbox_validate sb = true;
  ok_interviews : forall k r, rp_pending_interviews s !! k = Some r -> k <> "" /\ iq_id (pi_question r) = k;
  ok_creation : forall c, rp_pull_request_creation s = Some c -> prc_is_pending c = true ->
    prc_pull_request c = None /\ prc_error c = None
}.

(** The fields the invariant is about. *)
Definition run_core (s : RunProjection) :=
  (rp_status s, rp_conclusion s, rp_approval s, rp_sandbox s, rp_pending_interviews s, rp_pull_request_creation s).

Lemma run_ok_core s s' : run_core s' = run_core s -> run_ok s -> run_ok s'.
Proof.
  unfold run_core. intros [= E1 E2 E3 E4 E5 E6] []. split; rewrite ?E1, ?E2, ?E3, ?E4, ?E5, ?E6; done.
Qed.

(** A change of status keeps the invariant when the conclusion is settled with it. *)
Lemma run_ok_status s st c ap q :
  run_ok s -> conclusion_ok st c -> (forall r, st = RsPending r -> is_Some ap) ->
  (q = rp_pending_interviews s \/ q = ∅) ->
  forall s', (rp_status s', rp_conclusion s', rp_approval s', rp_sandbox s', rp_pending_interviews s',
              rp_pull_request_creation s') = (st, c, ap, rp_sandbox s, q, rp_pull_request_creation s) -> run_ok s'.
Proof.
  intros [] Hc Ha Hq s' [= E1 E2 E3 E4 E5 E6]. split; rewrite ?E1, ?E2, ?E3, ?E4, ?E5, ?E6; try done.
  destruct Hq as [->| ->]; [done|]. intros k r. by rewrite lookup_empty.
Qed.

(** Statuses that are neither terminal nor reached from one carry no conclusion. *)
Lemma conclusion_carried cur new c :
  conclusion_ok cur c -> cur = new \/ can_transition_to cur new = true ->
  match new with RsSucceeded _ | RsFailed _ | RsSubmitted => False | _ => True end -> conclusion_ok new c.
Proof.
  intros Hc [<-|Ht] Hn; [done|]. destruct cur, new; try done; by destruct reason.
Qed.

(** ** The run-level events *)

(** What an accepted run-level event establishes. *)
Definition run_step (seq : Z) (b : EventBody) (s s' : RunProjection) : Prop :=
  rp_status s' = default (rp_status s) (requested_status (rp_status s) b) /\
  stages_step any seq (rp_stages s) (rp_stages s') /\ rp_checkpoints s' = rp_checkpoints s /\
  (run_ok s -> run_ok s').

Definition run_body (b : EventBody) : bool :=
  negb (stages_body b) && match b with BCheckpointCompleted _ => false | _ => true end.

Lemma run_step_core seq b s s' :
  requested_status (rp_status s) b = None -> rp_stages s' = rp_stages s -> rp_checkpoints s' = rp_checkpoints s ->
  run_core s' = run_core s -> run_step seq b s s'.
Proof.
  intros Hr Hs Hc Hk. unfold run_step. rewrite Hr, Hs. split; [unfold run_core in Hk; by simplify_eq|].
  split; [done|]. split; [done|]. by apply run_ok_core.
Qed.

Definition settle (new : RunStatus) (ts : DateTime) (s : RunProjection) : RunProjection :=
  if decide (rp_status s = new) then s else { s with rp_status := new; rp_status_updated_at := ts }.

Lemma settle_fields new ts s :
  rp_status (settle new ts s) = new /\ rp_stages (settle new ts s) = rp_stages s /\
  rp_checkpoints (settle new ts s) = rp_checkpoints s /\ rp_conclusion (settle new ts s) = rp_conclusion s /\
  rp_approval (settle new ts s) = rp_approval s /\ rp_sandbox (settle new ts s) = rp_sandbox s /\
  rp_pending_interviews (settle new ts s) = rp_pending_interviews s /\
  rp_pull_request_creation (settle new ts s) = rp_pull_request_creation s.
Proof. unfold settle. case_decide as Hd; [by rewrite Hd|done]. Qed.

(** A status change followed by an update [k] that cannot fail. *)
Lemma status_then e seq s new k :
  requested_status (rp_status s) (ev_body e) = Some new ->
  refusal s (ev_body e) = refused_transition (rp_status s) (ev_body e) ->
  apply_body e seq s = (status_change new (ev_ts e);; modify k) s ->
  (forall s1, rp_status s1 = new -> rp_status (k s1) = new /\ stages_step any seq (rp_stages s1) (rp_stages (k s1)) /\
     rp_checkpoints (k s1) = rp_checkpoints s1) ->
  (rp_status s = new \/ can_transition_to (rp_status s) new = true ->
   run_ok s -> run_ok (k (settle new (ev_ts e) s))) ->
  match refusal s (ev_body e) with
  | Some err => (apply_body e seq s).1 = Err (Rejected err)
  | None => exists s', apply_body e seq s = (Ok tt, s') /\ run_step seq (ev_body e) s s'
  end.
Proof.
  intros Hr -> -> Hk Hok. unfold refused_transition, run_step. rewrite Hr. cbn [mbind option_bind].
  unfold mbind, Reduce_bind. rewrite status_change_cases.
  destruct (bool_decide (rp_status s = new) || can_transition_to (rp_status s) new)%bool eqn:Hc; [|done].
  fold (settle new (ev_ts e) s). destruct (settle_fields new (ev_ts e) s) as (F1 & F2 & F3 & _).
  destruct (Hk _ F1) as (K1 & K2 & K3). exists (k (settle new (ev_ts e) s)). split; [done|]. cbn [default].
  split; [done|]. split; [by rewrite <- F2|]. split; [congruence|]. apply Hok.
  apply orb_true_iff in Hc as [Hc%bool_decide_eq_true|]; auto.
Qed.

Lemma settled_ok s new ts (k : RunProjection -> RunProjection) :
  (forall s, run_core (k s) = run_core s) ->
  match new with RsSucceeded _ | RsFailed _ | RsSubmitted | RsPending _ => False | _ => True end ->
  rp_status s = new \/ can_transition_to (rp_status s) new = true -> run_ok s -> run_ok (k (settle new ts s)).
Proof.
  intros Hk Hn Ht Hok. eapply run_ok_core; [apply Hk|].
  destruct (settle_fields new ts s) as (F1 & _ & _ & F2 & F3 & F4 & F5 & F6).
  eapply (run_ok_status s new (rp_conclusion s) (rp_approval s)); [done| |intros r Hr; by rewrite Hr in Hn|by left|].
  - eapply conclusion_carried; [apply Hok|exact Ht|by destruct new].
  - by rewrite F1, F2, F3, F4, F5, F6.
Qed.

Lemma pure_step e seq s k :
  requested_status (rp_status s) (ev_body e) = None -> refusal s (ev_body e) = None ->
  apply_body e seq s = modify k s -> rp_status (k s) = rp_status s -> rp_stages (k s) = rp_stages s ->
  rp_checkpoints (k s) = rp_checkpoints s -> (run_ok s -> run_ok (k s)) ->
  match refusal s (ev_body e) with
  | Some err => (apply_body e seq s).1 = Err (Rejected err)
  | None => exists s', apply_body e seq s = (Ok tt, s') /\ run_step seq (ev_body e) s s'
  end.
Proof.
  intros Hr -> -> H1 H2 H3 H4. exists (k s). split; [done|]. unfold run_step. rewrite Hr, H2.
  split; [done|]. split; [reflexivity|]. by split.
Qed.

Lemma status_alone new ts s : status_change new ts s = (status_change new ts;; modify (fun s => s)) s.
Proof. unfold mbind, Reduce_bind. by destruct (status_change new ts s) as [[[]|] ?]. Qed.

(** Updates of one run-level record. *)
Lemma approval_ok s (f : RunApproval -> RunApproval) : run_ok s -> run_ok { s with rp_approval := f <$> rp_approval s }.
Proof. intros []. split; try done. intros r Hr. apply fmap_is_Some. by eapply ok_approval0. Qed.

Lemma sandbox_ok s sb : RunSandbox_validate sb = true -> run_ok s -> run_ok { s with rp_sandbox := Some sb }.
Proof. intros Hsb []. split; try done. by exists sb. Qed.

Lemma creation_ok s o :
  (forall c, o = Some c -> prc_is_pending c = true -> prc_pull_request c = None /\ prc_error c = None) ->
  run_ok s -> forall link, run_ok { s with rp_pull_request := link; rp_pull_request_creation := o }.
Proof. intros Ho [] link. by split. Qed.

(** A pending creation only changes to a settled one. *)
Lemma pending_update_ok s p f c :
  (forall c, prc_is_pending (f c) = false) -> run_ok s ->
  (fun c => if (p c && prc_is_pending c)%bool then f c else c) <$> rp_pull_request_creation s = Some c ->
  prc_is_pending c = true -> prc_pull_request c = None /\ prc_error c = None.
Proof.
  intros Hf Hok (c0 & Hc & ->)%fmap_Some Hp. destruct (p c0 && prc_is_pending c0)%bool; [by rewrite Hf in Hp|].
  by apply (ok_creation s Hok).
Qed.

Lemma interviews_ok s q :
  (forall k r, q !! k = Some r -> rp_pending_interviews s !! k = Some r \/ (k <> "" /\ iq_id (pi_question r) = k)) ->
  run_ok s -> run_ok { s with rp_pending_interviews := q }.
Proof. intros Hq []. split; try done. intros k r Hk. destruct (Hq k r Hk); auto. Qed.

Ltac settled :=
  unfold settle; case_decide; [match goal with H : rp_status _ = _ |- _ => by rewrite <- H end|reflexivity].

(** [run.completed] also needs a readable outcome. *)
Lemma completed_outcome e seq s p :
  ev_body e = BRunCompleted p ->
  match refusal s (ev_body e) with
  | Some err => (apply_body e seq s).1 = Err (Rejected err)
  | None => exists s', apply_body e seq s = (Ok tt, s') /\ run_step seq (ev_body e) s s'
  end.
Proof.
  intros Hb. unfold apply_body. rewrite Hb. cbn zeta. set (new := RsSucceeded (rcp_reason p)).
  unfold apply_run_completed, refusal, refused_transition. cbn [requested_status mbind option_bind].
  fold new. unfold mbind, Reduce_bind. rewrite status_change_cases.
  destruct (bool_decide (rp_status s = new) || can_transition_to (rp_status s) new)%bool eqn:Hc; [|done].
  fold (settle new (ev_ts e) s). cbn [or_else]. unfold conclusion_from_completed.
  destruct (StageOutcome_from_str (rcp_status p)) as [o|err] eqn:Ho; [|done]. eexists. split; [reflexivity|].
  destruct (settle_fields new (ev_ts e) s) as (F1 & F2 & F3 & F4 & F5 & F6 & F7 & F8).
  split; [exact F1|]. split; [change (stages_step any seq (rp_stages s) (rp_stages (settle new (ev_ts e) s))); by rewrite F2|].
  split; [exact F3|]. intros Hok.
  eapply (run_ok_status s new (Some _) (rp_approval s)); [done| |done|by right|settled]. by eexists.
Qed.

Lemma archived_outcome e seq s :
  ev_body e = BRunArchived ->
  match refusal s (ev_body e) with
  | Some err => (apply_body e seq s).1 = Err (Rejected err)
  | None => exists s', apply_body e seq s = (Ok tt, s') /\ run_step seq (ev_body e) s s'
  end.
Proof.
  intros Hb. unfold apply_body, refusal. rewrite Hb. unfold apply_run_archived.
  unfold mbind, Reduce_bind, get_run. destruct (is_some (rp_archived_at s)) eqn:Ha; cbn [orb].
  - exists s. split; [reflexivity|]. by apply run_step_core.
  - destruct (status_is_terminal (rp_status s)); cbn [negb]; [|done].
    eexists. split; [reflexivity|]. by apply run_step_core.
Qed.

(** Interview events with an empty question id are ignored. *)
Lemma interview_outcome e seq s question (f : gmap string PendingInterviewRecord -> gmap string PendingInterviewRecord) :
  requested_status (rp_status s) (ev_body e) = None -> refusal s (ev_body e) = None ->
  apply_body e seq s =
    (if str_is_empty question then done_
     else modify (fun s => { s with rp_pending_interviews := f (rp_pending_interviews s) })) s ->
  (question <> "" -> forall k r, f (rp_pending_interviews s) !! k = Some r ->
     rp_pending_interviews s !! k = Some r \/ (k <> "" /\ iq_id (pi_question r) = k)) ->
  match refusal s (ev_body e) with
  | Some err => (apply_body e seq s).1 = Err (Rejected err)
  | None => exists s', apply_body e seq s = (Ok tt, s') /\ run_step seq (ev_body e) s s'
  end.
Proof.
  intros Hr Hf Ha Hq. destruct (str_is_empty question) eqn:Hs; [by apply (pure_step e seq s (fun s => s))|].
  eapply pure_step; [done..|]. apply interviews_ok. apply Hq. by apply String.eqb_neq.
Qed.

Lemma run_body_outcome e seq s :
  run_body (ev_body e) = true ->
  match refusal s (ev_body e) with
  | Some err => (apply_body e seq s).1 = Err (Rejected err)
  | None => exists s', apply_body e seq s = (Ok tt, s') /\ run_step seq (ev_body e) s s'
  end.
Proof.
  destruct e as [ts run node stage branch session parent b]. cbn [ev_body]. intros Hb.
  set (e := mkEvent ts run node stage branch session parent b). change b with (ev_body e).
  destruct b; try discriminate Hb; clear Hb.
  all: try solve [eapply pure_step; [reflexivity..|]; apply run_ok_core; reflexivity].
  all: try solve [eapply (status_then e seq s _ (fun s => s));
                  [reflexivity|reflexivity|apply status_alone|by intros|]; by apply (settled_ok s _ _ (fun s => s))].
  all: try solve [eapply status_then; [reflexivity..|by intros|]; by apply settled_ok].
  all: try solve [eapply pure_step; [reflexivity..|]; apply approval_ok].
  all: try solve [eapply pure_step; [reflexivity..|]; by apply sandbox_ok].
  - reflexivity.
  - destruct resume; [|eapply pure_step; [reflexivity..|]; apply run_ok_core; reflexivity].
    eapply status_then; [reflexivity..|by intros|]. intros _ Hok.
    eapply (run_ok_status s RsSubmitted None (rp_approval s)); [done..|by left|]. settled.
  - destruct reason. eapply (status_then e seq s (RsPending ApprovalRequired)
      (fun s => { s with rp_approval := Some (mkApproval ApprovalPending ts None None) })); [reflexivity..|by intros|].
    intros Ht Hok. eapply (run_ok_status s (RsPending ApprovalRequired) (rp_conclusion s) (Some _));
      [done| |by eexists|by left|settled].
    eapply conclusion_carried; [apply Hok|exact Ht|done].
  - eapply (status_then e seq s _ (fun s => s)); [reflexivity|reflexivity|apply status_alone|by intros|].
    apply (settled_ok s _ _ (fun s => s)); [done|by destruct (rp_status s)].
  - eapply (status_then e seq s _ (fun s => s)); [reflexivity|reflexivity|apply status_alone|by intros|].
    apply (settled_ok s _ _ (fun s => s)); [done|by destruct (rp_status s)].
  - eapply status_then; [reflexivity..|by intros|].
    apply settled_ok; [done|]. by destruct (rp_status s) as [| | | | | |[]| | | |].
  - by apply (completed_outcome e seq s p).
  - eapply (status_then e seq s (RsFailed (rf_reason (rfp_failure p)))); [reflexivity..| |].
    + intros s1 Hs1. split; [done|]. split; [|done].
      apply (fmap_stages_only seq (finalize_stage _ ts) s1). apply finalize_stage_step.
    + intros _ Hok.
      eapply (run_ok_status s (RsFailed (rf_reason (rfp_failure p))) (Some (conclusion_from_failed p ts)) (rp_approval s));
        [done|by repeat eexists|done|by right|settled].
  - by apply archived_outcome.
  - eapply pure_step; [reflexivity..|]. intros Hok. apply (creation_ok s); [|done]. by intros c [= <-].
  - eapply pure_step; [reflexivity..|]. intros Hok. apply (creation_ok s); [|done].
    intros c Hc. eapply pending_update_ok; [|exact Hok|exact Hc]. done.
  - eapply pure_step; [reflexivity..|]. intros Hok. apply (creation_ok s); [|done].
    intros c Hc. eapply pending_update_ok; [|exact Hok|exact Hc]. done.
  - eapply pure_step; [reflexivity..|]. intros Hok. by apply (creation_ok s).
  - eapply pure_step; [reflexivity..|]. intros Hok. apply (creation_ok s); [|done].
    intros c Hc. eapply pending_update_ok; [|exact Hok|exact Hc]. done.
  - apply (interview_outcome e seq s (is_question_id p) (fun q => <[is_question_id p := pending_interview p ts]> q)); [done..|].
    intros Hq k r Hk. destruct (decide (k = is_question_id p)) as [->|Hn].
    + rewrite lookup_insert_eq in Hk. injection Hk as <-. by right.
    + rewrite lookup_insert_ne in Hk by done. by left.
  - apply (interview_outcome e seq s question_id (delete question_id)); [done..|].
    intros _ k r [_ Hk]%lookup_delete_Some. by left.
  - apply (interview_outcome e seq s question_id (delete question_id)); [done..|].
    intros _ k r [_ Hk]%lookup_delete_Some. by left.
  - apply (interview_outcome e seq s question_id (delete question_id)); [done..|].
    intros _ k r [_ Hk]%lookup_delete_Some. by left.
Qed.

(** ** Every event *)

Definition new_checkpoints (env : EventEnvelope) : list CheckpointRecord :=
  match ev_body (env_event env) with
  | BCheckpointCompleted p =>
      [mkCheckpointRecord (env_seq env) (checkpoint_from_props p (ev_ts (env_event env))) (diff_from_checkpoint_props p)]
  | _ => []
  end.

Definition event_step (env : EventEnvelope) (s s' : RunProjection) : Prop :=
  rp_status s' = default (rp_status s) (requested_status (rp_status s) (ev_body (env_event env))) /\
  stages_step any (env_seq env) (rp_stages s) (rp_stages s') /\
  rp_checkpoints s' = rp_checkpoints s ++ new_checkpoints env /\ (run_ok s -> run_ok s').

Lemma stages_only_core T seq s s' :
  stages_only T seq s s' -> run_core s' = run_core s /\ rp_checkpoints s' = rp_checkpoints s /\
  stages_step T seq (rp_stages s) (rp_stages s').
Proof.
  intros [Hr Hs]. split; [|split; [|done]].
  - change (run_core (run_part s') = run_core (run_part s)). by rewrite Hr.
  - change (rp_checkpoints (run_part s') = rp_checkpoints (run_part s)). by rewrite Hr.
Qed.

(** The part of a checkpoint event that concerns stages. *)
Lemma spec_checkpoint err e seq p ts `{!ErrorBack err (stages_only any seq)} :
  guarded err (seq <> 0 /\ (forall id, ev_stage_id e = Some id -> sid_visit id <> 0) /\
               (ev_stage_id e = None -> forall node, node ∈ legacy_nodes e p -> cp_node_visits p !! node <> Some 0)) ->
  spec err (stages_only any seq) any
    (match ev_stage_id e with
     | Some id => apply_checkpoint_to_stage id p (checkpoint_from_props p ts) seq ts
     | None => apply_legacy_checkpoint (ev_node_id e) p (checkpoint_from_props p ts) seq ts
     end).
Proof.
  intros Hg. destruct (ev_stage_id e) as [id|] eqn:He.
  - apply (spec_checkpoint_to_stage err e); [done| |done]. rewrite He. destruct Hg as [|[? (? & ? & _)]]; [by left|by right].
  - apply spec_legacy; [done|]. destruct Hg as [|[? (? & _ & ?)]]; [by left|right]. auto.
Qed.

(** The verdict on an event and what an accepted one does; without the safety
    conditions it may also crash. *)
Lemma apply_body_outcome err e seq s `{!ErrorBack err (stages_only any seq)} :
  guarded err (event_safe (mkEnvelope seq e)) -> payload_ok (ev_body e) ->
  match apply_body e seq s with
  | (Ok _, s') => refusal s (ev_body e) = None /\ event_step (mkEnvelope seq e) s s'
  | (Err stop, _) => (exists r, stop = Rejected r /\ refusal s (ev_body e) = Some r) \/ err s
  end.
Proof.
  intros Hg Hp. destruct (run_body (ev_body e)) eqn:Hr.
  { pose proof (run_body_outcome e seq s Hr) as Ho. destruct (refusal s (ev_body e)) as [r|].
    - destruct (apply_body e seq s) as [[|stop] s']; [done|]. cbn in Ho. left. exists r. split; [congruence|done].
    - destruct Ho as (s' & -> & H1 & H2 & H3 & H4). split; [done|].
      unfold event_step, new_checkpoints. cbn [env_event env_seq].
      destruct (ev_body e); try discriminate Hr; by rewrite app_nil_r. }
  assert (refusal s (ev_body e) = None /\ requested_status (rp_status s) (ev_body e) = None) as [Hf Hq]
    by (by destruct (ev_body e)).
  assert (guarded err (seq <> 0 /\ forall id, ev_stage_id e = Some id -> sid_visit id <> 0)) as Hg'.
  { destruct Hg as [|(-> & H1 & H2 & _)]; [by left|by right]. }
  destruct (stages_body (ev_body e)) eqn:Hb.
  - pose proof (spec_stages_body err e seq Hg' Hp Hb s) as Hs. unfold spec_at in Hs.
    destruct (apply_body e seq s) as [[|stop] s']; [|by right]. split; [done|]. destruct Hs as [Hs _].
    apply stages_only_core in Hs as (H1 & H2 & H3). unfold event_step, new_checkpoints. cbn [env_event env_seq].
    rewrite Hq, H2. split; [unfold run_core in H1; by simplify_eq|]. split; [done|].
    split; [destruct (ev_body e); try discriminate; by rewrite app_nil_r|]. by apply run_ok_core.
  - assert (exists p, ev_body e = BCheckpointCompleted p) as [p Hbody] by (destruct (ev_body e); try discriminate; eauto).
    unfold apply_body. rewrite Hbody. cbn zeta. unfold apply_checkpoint_completed. cbn zeta.
    unfold mbind, Reduce_bind.
    assert (spec_at err (stages_only any seq) any
      (match ev_stage_id e with
       | Some id => apply_checkpoint_to_stage id p (checkpoint_from_props p (ev_ts e)) seq (ev_ts e)
       | None => apply_legacy_checkpoint (ev_node_id e) p (checkpoint_from_props p (ev_ts e)) seq (ev_ts e)
       end) s) as Hs.
    { apply spec_checkpoint; [done|]. destruct Hg as [|(-> & H1 & H2 & H3)]; [by left|right]. eauto 10. }
    match type of Hs with spec_at _ _ _ ?m _ => set (stage_part := m) in * end.
    unfold spec_at in Hs. destruct (stage_part s) as [[|stop] s']; [|by right].
    split; [done|]. destruct Hs as [(H1 & H2 & H3)%stages_only_core _].
    unfold event_step, new_checkpoints. cbn [env_event env_seq]. rewrite Hbody.
    split; [unfold run_core in H1; by simplify_eq|]. split; [done|]. split; [|by apply run_ok_core].
    change (rp_checkpoints s' ++ [mkCheckpointRecord seq (checkpoint_from_props p (ev_ts e)) (diff_from_checkpoint_props p)]
            = rp_checkpoints s ++ [mkCheckpointRecord seq (checkpoint_from_props p (ev_ts e)) (diff_from_checkpoint_props p)]).
    by rewrite H2.
Qed.
