(* ===== verification/ReducerProps.v ===== *)
(** * Properties of the event reducer

    The verdict on events, the isolation of stages, the end of a failed run, the
    statuses a projection goes through, the invariant of projections, and the
    agreement of replay with live application. *)

From S2P Require Import Prelude RustStr RustNum GraphTypes Context Outcome Lint.
From S2P Require Import StageIds RunStatus Timing Billing Todos Events Projection Reducer StageFacts ReducerFacts RunFacts.
From coqutil Require Import Datatypes.RecordSetters.
Import OCamlLikeNotations.
Local Open Scope Z_scope.

(** Live application of one event, and of a log to a projection. *)
Definition live_event (env : EventEnvelope) (s : RunProjection) : result RunProjection Stop :=
  run_reduce (apply_event env) s.
Definition live_events (log : list EventEnvelope) (s : RunProjection) : result RunProjection Stop :=
  run_reduce (each apply_event log) s.
Definition replay_events (log : list EventEnvelope) (s : RunProjection) : result RunProjection Stop :=
  run_reduce (each replay_event log) s.

Lemma run_reduce_bind m k s :
  run_reduce (m;; k) s = match run_reduce m s with Ok s' => run_reduce k s' | Err e => Err e end.
Proof. unfold run_reduce, mbind, Reduce_bind. by destruct (m s) as [[[]|] ?]. Qed.

Lemma live_cons env log s :
  live_events (env :: log) s = match live_event env s with Ok s' => live_events log s' | Err e => Err e end.
Proof. apply run_reduce_bind. Qed.

Lemma live_app log log' s :
  live_events (log ++ log') s = match live_events log s with Ok s' => live_events log' s' | Err e => Err e end.
Proof.
  revert s. induction log as [|env log IH]; intros s; [done|]. cbn [app]. rewrite !live_cons.
  destruct (live_event env s); [apply IH|done].
Qed.

Lemma replay_cons env log s :
  replay_events (env :: log) s =
  match run_reduce (replay_event env) s with Ok s' => replay_events log s' | Err e => Err e end.
Proof. apply run_reduce_bind. Qed.

Lemma apply_event_body env s :
  apply_event env s =
  apply_body (env_event env) (env_seq env) { s with rp_last_event_at := ev_ts (env_event env) }.
Proof. done. Qed.

(** ** The outcome of one event *)

Lemma live_event_accepted env s s' :
  payload_ok (ev_body (env_event env)) -> live_event env s = Ok s' ->
  refusal s (ev_body (env_event env)) = None /\ event_step env s s'.
Proof.
  intros Hp. unfold live_event, run_reduce. rewrite apply_event_body.
  set (s0 := { s with rp_last_event_at := ev_ts (env_event env) }).
  pose proof (apply_body_outcome any (env_event env) (env_seq env) s0 (guarded_any _) Hp) as Ho.
  destruct (apply_body _ _ s0) as [[|stop] s1]; [|done]. intros [= <-]. destruct Ho as [Hr (H1 & H2 & H3 & H4)].
  split; [exact Hr|]. destruct env as [seq e]. split; [exact H1|]. split; [exact H2|]. split; [exact H3|].
  intros Hok. apply H4. eapply run_ok_core; [|exact Hok]. reflexivity.
Qed.

(** C11: the verdict on an event is decided by its body and the run's status alone.  A
    safe event (it has a sequence number, its stage ids are ones the type admits, and
    a checkpoint without a stage id records no visit zero) never crashes the reducer;
    it is refused exactly when [refusal] gives a reason (a second [run.created], a
    status change that [can_transition_to] does not allow, an unreadable final outcome,
    archiving an unfinished run), with that reason as the error; otherwise it is
    applied, and the run's status becomes the one it asks for. *)
Theorem event_verdict env s :
  event_safe env -> visits_nonzero s -> payload_ok (ev_body (env_event env)) ->
  match refusal s (ev_body (env_event env)) with
  | Some reason => live_event env s = Err (Rejected reason)
  | None => exists s', live_event env s = Ok s' /\
      rp_status s' = default (rp_status s) (requested_status (rp_status s) (ev_body (env_event env)))
  end.
Proof.
  intros Hsafe Hv Hp. unfold live_event, run_reduce. rewrite apply_event_body.
  set (s0 := { s with rp_last_event_at := ev_ts (env_event env) }).
  assert (guarded bad_visits (event_safe (mkEnvelope (env_seq env) (env_event env)))) as Hg.
  { right. split; [done|]. by destruct env. }
  pose proof (apply_body_outcome bad_visits (env_event env) (env_seq env) s0 Hg Hp) as Ho.
  change (refusal s (ev_body (env_event env))) with (refusal s0 (ev_body (env_event env))).
  destruct (apply_body _ _ s0) as [[|stop] s1].
  - destruct Ho as [-> (H1 & _)]. eauto.
  - destruct Ho as [(r & -> & ->)|Hb]; [done|by destruct Hb].
Qed.

(** ** Isolation of stages *)

(** An event addressed to a stage is always accepted and touches nothing else: the
    run-level part of the projection and every other stage stay as they were; the
    stage itself, where the event leaves it there, keeps the sequence number of its first
    event (a new one gets this event's) and keeps its invariant. *)
Theorem stage_event_isolated env id s :
  stage_body (ev_body (env_event env)) = true -> ev_stage_id (env_event env) = Some id ->
  stage_id_ok id -> 1 <= env_seq env ->
  exists s', live_event env s = Ok s' /\
    run_part s' = run_part { s with rp_last_event_at := ev_ts (env_event env) } /\
    (forall id', id' <> id -> rp_stages s' !! id' = rp_stages s !! id') /\
    entry_step (eq id) (env_seq env) id (rp_stages s !! id) (rp_stages s' !! id).
Proof.
  intros Hb He [_ Hv] Hq. unfold live_event, run_reduce. rewrite apply_event_body.
  set (s0 := { s with rp_last_event_at := ev_ts (env_event env) }).
  assert (targets no_error (stages_only (eq id) (env_seq env)) (eq id) (env_event env) (env_seq env)) as Ht.
  { apply (targets_named _ _ _ _ _ id); [apply _..|done|lia|lia|done|]. intros s'. apply add_entry_only; [done|lia]. }
  pose proof (spec_stage_body _ _ _ _ Ht Hb s0) as Ho. unfold spec_at in Ho.
  destruct (apply_body _ _ s0) as [[|stop] s1]; [|done]. destruct Ho as [[H1 H2] _].
  exists s1. split; [done|]. split; [exact H1|]. split; [|apply H2].
  intros id' Hn. specialize (H2 id'). change (rp_stages s0) with (rp_stages s) in H2. unfold entry_step in H2.
  destruct (rp_stages s !! id'), (rp_stages s1 !! id'); naive_solver.
Qed.

(** ** The end of a failed run *)

Definition can_fail (st : RunStatus) : bool :=
  match st with RsStarting | RsRunning | RsBlocked _ | RsPaused _ | RsRemoving => true | _ => false end.

Definition failed_stage_state (p : RunFailedProps) : StageState :=
  if decide (rf_reason (rfp_failure p) = ReasonCancelled) then SCancelled else SFailed.

Lemma failed_event seq e s p :
  ev_body e = BRunFailed p -> can_fail (rp_status s) = true ->
  live_event (mkEnvelope seq e) s =
    Ok (finalize_unfinished_stages_after_run_failed p (ev_ts e)
          { s with rp_status := RsFailed (rf_reason (rfp_failure p)); rp_status_updated_at := ev_ts e;
                   rp_last_event_at := ev_ts e; rp_pending_control := None;
                   rp_conclusion := Some (conclusion_from_failed p (ev_ts e)); rp_pending_interviews := ∅ }).
Proof.
  intros Hb Hc. unfold live_event, run_reduce. rewrite apply_event_body. unfold apply_body. cbn [env_event env_seq].
  rewrite Hb. cbn zeta. unfold apply_run_failed, mbind, Reduce_bind. rewrite status_change_cases.
  change (rp_status { s with rp_last_event_at := ev_ts e }) with (rp_status s).
  assert (can_transition_to (rp_status s) (RsFailed (rf_reason (rfp_failure p))) = true) as -> by (by destruct (rp_status s)).
  rewrite orb_true_r. case_decide as Hd; [|done]. by rewrite Hd in Hc.
Qed.

(** C12: a run that has begun and not ended can always be failed, and failing it leaves
    nothing in progress: the event is accepted; the run has the failure's status and
    conclusion, no pending control request and no pending interview; every stage is in
    a terminal state.  A stage that was finished is untouched; one that was not is
    cancelled or failed with the run, has no open bracket, and if it had started its
    timing is what the stage shows once its open brackets are closed at that moment.  For a
    well-formed stage that has not both an inference and an ACP bracket open this is the
    estimate that was live at that moment; with both open it is not, because the estimate
    counts the inference bracket only and closing counts both. *)
Theorem failed_run_settles seq e s p :
  ev_body e = BRunFailed p -> can_fail (rp_status s) = true ->
  exists s', live_event (mkEnvelope seq e) s = Ok s' /\
    rp_status s' = RsFailed (rf_reason (rfp_failure p)) /\ rp_conclusion s' = Some (conclusion_from_failed p (ev_ts e)) /\
    rp_pending_control s' = None /\ rp_pending_interviews s' = ∅ /\
    (forall id, is_Some (rp_stages s' !! id) <-> is_Some (rp_stages s !! id)) /\
    forall id g g', rp_stages s !! id = Some g -> rp_stages s' !! id = Some g' ->
      StageState_is_terminal (sg_state g') = true /\
      (StageState_is_terminal (sg_state g) = true -> g' = g) /\
      (StageState_is_terminal (sg_state g) = false ->
         sg_state g' = failed_stage_state p /\
         sg_inference g' = None /\ sg_acp_started_at g' = None /\ sg_tool_batch g' = None /\
         (is_Some (sg_started_at g) ->
            sg_timing g' = Some (live_timing (close_all (ev_ts e) g) (ev_ts e)) /\
            (stage_ok g -> (sg_inference g = None \/ sg_acp_started_at g = None) ->
             sg_timing g' = Some (live_timing g (ev_ts e))))).
Proof.
  intros Hb Hc. rewrite (failed_event seq e s p) by done. eexists. split; [reflexivity|].
  split; [done|]. split; [done|]. split; [done|]. split; [done|].
  assert (forall id, rp_stages (finalize_unfinished_stages_after_run_failed p (ev_ts e)
      { s with rp_status := RsFailed (rf_reason (rfp_failure p)); rp_status_updated_at := ev_ts e;
               rp_last_event_at := ev_ts e; rp_pending_control := None;
               rp_conclusion := Some (conclusion_from_failed p (ev_ts e)); rp_pending_interviews := ∅ }) !! id =
    finalize_stage (failed_stage_state p) (ev_ts e) <$> rp_stages s !! id) as Hl
    by (intros id; apply (lookup_fmap (finalize_stage (failed_stage_state p) (ev_ts e)))).
  split; [intros id; rewrite Hl; apply fmap_is_Some|]. intros id g g' Hg. rewrite Hl, Hg. intros [= <-].
  assert (StageState_is_terminal (failed_stage_state p) = true) as Ht by (unfold failed_stage_state; by case_decide).
  destruct (finalize_stage_spec _ (ev_ts e) g Ht) as (H1 & H2 & H3). split; [done|]. split; [done|].
  intros Hn. destruct (H3 Hn) as (K1 & K2 & K3 & K4 & K5). repeat (split; [done|]).
  intros [t Hst]. assert (sg_timing (finalize_stage (failed_stage_state p) (ev_ts e) g) = Some (live_timing (close_all (ev_ts e) g) (ev_ts e))) as Hfin.
  { rewrite K5, Hst. cbn [is_some]. destruct (close_all_fields (ev_ts e) g) as (_ & Ht' & _).
    unfold live_timing. rewrite Ht'. by destruct (sg_timing g). }
  split; [done|]. intros Hok Ho. by rewrite <- (close_all_timing (ev_ts e) g Hok Ho).
Qed.

(** ** Replay and live application *)

(** The events a run of today would have recorded before this one. *)
Definition missing_events (st : RunStatus) (env : EventEnvelope) : list EventEnvelope :=
  let at_ b := let e := env_event env in mkEnvelope (env_seq env) { e with ev_body := b } in
  match ev_body (env_event env) with
  | BRunStarting => if decide (st = RsSubmitted) then [at_ BRunRunnable] else []
  | BRunFailed p =>
      if can_transition_to st (RsFailed (rf_reason (rfp_failure p))) then []
      else match st with
           | RsSubmitted | RsPending _ => [at_ BRunRunnable; at_ BRunStarting]
           | RsRunnable => [at_ BRunStarting]
           | _ => []
           end
  | _ => []
  end.

Lemma live_after env t s : live_event env { s with rp_last_event_at := t } = live_event env s.
Proof. reflexivity. Qed.

(** A change of status that is allowed and not vacuous. *)
Definition to_status (new : RunStatus) (ts : DateTime) (s : RunProjection) : RunProjection :=
  { s with rp_status := new; rp_status_updated_at := ts }.

Lemma status_change_to new ts s :
  can_transition_to (rp_status s) new = true -> rp_status s <> new -> status_change new ts s = (Ok (), to_status new ts s).
Proof.
  intros Hc Hn. rewrite status_change_cases, Hc, orb_true_r. by rewrite decide_False.
Qed.

Lemma live_status_to b new seq e s :
  (forall seq e, ev_body e = b -> apply_body e seq = status_change new (ev_ts e)) ->
  can_transition_to (rp_status s) new = true -> rp_status s <> new ->
  live_event (mkEnvelope seq { e with ev_body := b }) s =
    Ok { to_status new (ev_ts e) s with rp_last_event_at := ev_ts e }.
Proof.
  intros Hb Hc Hn. unfold live_event, run_reduce. rewrite apply_event_body. cbn [env_event env_seq].
  rewrite Hb by done. by rewrite status_change_to.
Qed.

Definition live_runnable := live_status_to BRunRunnable RsRunnable.
Definition live_starting := live_status_to BRunStarting RsStarting.

Lemma shim_body b new :
  b = BRunRunnable /\ new = RsRunnable \/ b = BRunStarting /\ new = RsStarting ->
  forall seq e, ev_body e = b -> apply_body e seq = status_change new (ev_ts e).
Proof. intros [[-> ->]|[-> ->]] seq e He; unfold apply_body; by rewrite He. Qed.

(** Replay of one event is live application of the events it stands for. *)
Lemma replay_event_live env s :
  run_reduce (replay_event env) s = live_events (missing_events (rp_status s) env ++ [env]) s.
Proof.
  assert (forall s, live_events [env] s = live_event env s) as H1.
  { intros s'. rewrite live_cons. by destruct (live_event env s'). }
  pose proof (shim_body BRunRunnable RsRunnable ltac:(auto)) as Hr.
  pose proof (shim_body BRunStarting RsStarting ltac:(auto)) as Hs.
  unfold replay_event. rewrite run_reduce_bind. unfold replay_shim, missing_events. cbn zeta.
  destruct env as [seq e]. cbn [env_event env_seq].
  destruct (ev_body e) eqn:Hb; try (by rewrite H1).
  - unfold mbind, Reduce_bind, get_run, run_reduce at 1. case_decide as Hd; [|by rewrite H1].
    rewrite status_change_to by (by rewrite Hd). cbn [app].
    rewrite live_cons, live_runnable, H1 by (done || by rewrite Hd). reflexivity.
  - unfold mbind, Reduce_bind, get_run, run_reduce at 1.
    destruct (can_transition_to (rp_status s) _); [by rewrite H1|].
    destruct (rp_status s) eqn:Hst; cbn [app];
      try (unfold done_, mret, Reduce_ret; rewrite Hst; cbn [app]; by rewrite H1).
    all: rewrite ?(status_change_to RsRunnable) by (by rewrite Hst).
    all: cbv beta iota; try change (rp_status (to_status RsRunnable (ev_ts e) s)) with RsRunnable.
    1,2: cbv beta iota; rewrite (status_change_to RsStarting) by done; rewrite live_cons, live_runnable by (done || by rewrite Hst);
         rewrite live_cons, live_starting, H1 by done; reflexivity.
    unfold done_, mret, Reduce_ret. rewrite Hst, (status_change_to RsStarting) by (by rewrite Hst).
    rewrite live_cons, live_starting, H1 by (done || by rewrite Hst). reflexivity.
Qed.

(** An event that is accepted live stands for itself alone. *)
Lemma live_accepted_missing env s s' : live_event env s = Ok s' -> missing_events (rp_status s) env = [].
Proof.
  intros Hl. unfold missing_events. destruct env as [seq e]. cbn [env_event env_seq] in *.
  assert (run_body (ev_body e) = true -> refusal s (ev_body e) = None) as Hf.
  { intros Hr. pose proof (run_body_outcome e seq { s with rp_last_event_at := ev_ts e } Hr) as Ho.
    change (refusal { s with rp_last_event_at := ev_ts e } (ev_body e)) with (refusal s (ev_body e)) in Ho.
    destruct (refusal s (ev_body e)) as [r|]; [|done]. unfold live_event, run_reduce in Hl.
    rewrite apply_event_body in Hl. cbn [env_event env_seq] in Hl.
    destruct (apply_body e seq { s with rp_last_event_at := ev_ts e }) as [[u|x] s1]; [|done].
    cbn [fst] in Ho. discriminate. }
  destruct (ev_body e) eqn:Hb; try done; specialize (Hf eq_refl); cbn [refusal] in Hf.
  - destruct (decide (rp_status s = RsSubmitted)) as [Hd|]; [|done]. by rewrite Hd in Hf.
  - unfold refused_transition in Hf. cbn [requested_status mbind option_bind] in Hf.
    destruct (can_transition_to (rp_status s) _) eqn:Hc; [done|]. rewrite orb_false_r in Hf.
    case_bool_decide as Hd; [|done]. by rewrite Hd.
Qed.

Lemma live_replays log s s' : live_events log s = Ok s' -> replay_events log s = Ok s'.
Proof.
  revert s. induction log as [|env log IH]; intros s; [done|].
  rewrite live_cons, replay_cons, replay_event_live. destruct (live_event env s) as [s1|] eqn:Hl; [|done].
  rewrite (live_accepted_missing env s s1) by done. cbn [app]. rewrite live_cons, Hl. apply IH.
Qed.

(** C14: replay agrees with live application.  A log that the running system accepted
    event by event replays to the same projection, so the accommodations for old
    histories never interfere with new ones; and where they do act, replaying an event
    is applying live the events that a run of today would have recorded there
    ([run.runnable], [run.starting]), and then the event. *)
Theorem replay_is_live :
  (forall log s s', live_events log s = Ok s' -> replay_events log s = Ok s') /\
  (forall env s, run_reduce (replay_event env) s = live_events (missing_events (rp_status s) env ++ [env]) s).
Proof.
  split; [exact live_replays|exact replay_event_live].
Qed.

(** ** The statuses of a projection *)

Definition env_body (env : EventEnvelope) : EventBody := ev_body (env_event env).

(** The statuses a projection goes through while events are applied live, latest
    first, up to the first event that is not accepted. *)
Fixpoint status_trace (h : list RunStatus) (s : RunProjection) (log : list EventEnvelope) : list RunStatus :=
  match log with
  | [] => h
  | env :: log =>
      match live_event env s with
      | Ok s' => status_trace (if decide (rp_status s' = rp_status s) then h else rp_status s' :: h) s' log
      | Err _ => h
      end
  end.

Lemma accepted_transition env s s' :
  payload_ok (env_body env) -> live_event env s = Ok s' ->
  rp_status s' = rp_status s \/ transition_to (rp_status s) (rp_status s') = Ok (rp_status s').
Proof.
  intros Hp Hl. destruct (live_event_accepted env s s' Hp Hl) as [Hr (-> & _)]. unfold env_body in *.
  destruct (requested_status (rp_status s) (ev_body (env_event env))) as [new|] eqn:Hq; [|by left].
  change (default (rp_status s) (Some new)) with new.
  assert (refused_transition (rp_status s) (ev_body (env_event env)) = None) as Hn.
  { destruct (ev_body (env_event env)) eqn:Hb; try done. cbn [refusal] in Hr.
    by destruct (refused_transition (rp_status s) (BRunCompleted p)). }
  unfold refused_transition in Hn. rewrite Hq in Hn. cbn [mbind option_bind] in Hn. unfold transition_to.
  case_bool_decide; [by left|]. destruct (can_transition_to (rp_status s) new); [by right|done].
Qed.

(** The statuses a log leads through refine the status machine: each change is one
    of its transitions. *)
Lemma status_trace_history h s log :
  Forall (fun env => payload_ok (env_body env)) log -> history (rp_status s :: h) ->
  history (status_trace (rp_status s :: h) s log) /\
  (forall s', live_events log s = Ok s' -> head (status_trace (rp_status s :: h) s log) = Some (rp_status s')).
Proof.
  intros Hp. revert h s. induction Hp as [|env log Hp _ IH]; intros h s Hh.
  { split; [done|]. by intros s' [= <-]. }
  rewrite live_cons. cbn [status_trace]. destruct (live_event env s) as [s1|] eqn:Hl; [|done].
  destruct (accepted_transition env s s1 Hp Hl) as [He|Ht].
  - rewrite decide_True by done. rewrite <- He. apply IH. by rewrite He.
  - case_decide as He; [rewrite <- He; apply IH; by rewrite He|]. apply IH. by constructor.
Qed.

(** C13: the projection of a run refines the status machine.  Starting from
    [run.created], whatever events are applied (until one is refused), the statuses the
    projection goes through form a history of [RunStatus.history]: it starts
    submitted, every change is one [transition_to] accepts, and the last entry is the
    projection's status. *)
Theorem projection_status_refines first s log :
  projection_from_created first = Ok s -> Forall (fun env => payload_ok (env_body env)) log ->
  history (status_trace [RsSubmitted] s log) /\
  (forall s', live_events log s = Ok s' -> head (status_trace [RsSubmitted] s log) = Some (rp_status s')).
Proof.
  intros Hc Hp. assert (rp_status s = RsSubmitted) as Hs.
  { unfold projection_from_created in Hc. destruct (ev_body (env_event first)); try done. by injection Hc as <-. }
  rewrite <- Hs. apply status_trace_history; [done|]. rewrite Hs. apply history_new.
Qed.

(** ** The invariant of projections *)

Record projection_ok (n : Z) (s : RunProjection) : Prop := {
  ok_run : run_ok s;
  ok_stages : forall id g, rp_stages s !! id = Some g ->
    sid_visit id <> 0 /\ 1 <= sg_first_event_seq g <= n /\ stage_ok g;
  ok_checkpoints : StronglySorted Z.lt (cr_seq <$> rp_checkpoints s) /\ Forall (fun q => q <= n) (cr_seq <$> rp_checkpoints s)
}.

Lemma StronglySorted_snoc n l :
  StronglySorted Z.lt l -> Forall (fun q => q < n) l -> StronglySorted Z.lt (l ++ [n]).
Proof.
  induction 1 as [|q l Hs IH Hq]; cbn; [by constructor; constructor|]. intros [H1 H2]%Forall_cons.
  constructor; [by apply IH|]. apply Forall_app. split; [done|]. by constructor.
Qed.

Lemma event_step_ok n env s s' :
  event_step env s s' -> 0 <= n < env_seq env -> projection_ok n s -> projection_ok (env_seq env) s'.
Proof.
  intros (_ & Hst & Hck & Hrun) Hn [H1 H2 [H3 H4]]. split.
  - by apply Hrun.
  - intros id g' Hg'. specialize (Hst id). rewrite Hg' in Hst. unfold entry_step in Hst.
    destruct (rp_stages s !! id) as [g|] eqn:Hg.
    + destruct (H2 id g Hg) as (K1 & K2 & K3). destruct Hst as [->|[_ [E1 E2]]]; [split; [done|split; [lia|done]]|].
      split; [done|]. split; [lia|auto].
    + destruct Hst as (_ & K1 & K2 & K3). split; [done|]. split; [lia|done].
  - rewrite Hck, fmap_app. unfold new_checkpoints.
    assert (Forall (fun q => q < env_seq env) (cr_seq <$> rp_checkpoints s)) as Hlt
      by (eapply Forall_impl; [exact H4|]; cbn; lia).
    assert (Forall (fun q => q <= env_seq env) (cr_seq <$> rp_checkpoints s)) as Hle
      by (eapply Forall_impl; [exact H4|]; cbn; lia).
    destruct (ev_body (env_event env)); cbn [fmap list_fmap]; try (rewrite app_nil_r; done).
    split; [by apply StronglySorted_snoc|]. apply Forall_app. split; [done|]. by repeat constructor.
Qed.

(** What replay does before an event only concerns the status. *)
Definition quiet (s s' : RunProjection) : Prop :=
  rp_stages s' = rp_stages s /\ rp_checkpoints s' = rp_checkpoints s /\ (run_ok s -> run_ok s').

#[export] Instance quiet_preorder : PreOrder quiet.
Proof.
  split; [done|]. intros a b c (A1 & A2 & A3) (B1 & B2 & B3). split; [congruence|]. split; [congruence|auto].
Qed.

Lemma spec_quiet_status new ts :
  match new with RsSucceeded _ | RsFailed _ | RsSubmitted | RsPending _ => False | _ => True end ->
  spec any quiet any (status_change new ts).
Proof.
  intros Hn s. unfold spec_at. rewrite status_change_cases.
  destruct (bool_decide (rp_status s = new) || can_transition_to (rp_status s) new)%bool eqn:Hc; [|done].
  split; [|done]. fold (settle new ts s). destruct (settle_fields new ts s) as (_ & F2 & F3 & _).
  split; [done|]. split; [done|]. apply (settled_ok s new ts (fun s => s)); [done..|].
  apply orb_true_iff in Hc as [Hc%bool_decide_eq_true|]; auto.
Qed.

Lemma spec_replay_shim e : spec any quiet any (replay_shim e).
Proof.
  unfold replay_shim. destruct (ev_body e); try (by apply spec_done; [apply _|]).
  - apply spec_get. intros s. case_decide; [by apply spec_quiet_status|by apply spec_done; [apply _|]].
  - apply spec_get. intros s. destruct (can_transition_to _ _); [by apply spec_done; [apply _|]|].
    apply (spec_bind _ _ any).
    + destruct (rp_status s); by apply spec_quiet_status || (by apply spec_done; [apply _|]).
    + intros _ _. apply spec_get. intros s1.
      destruct (rp_status s1); by apply spec_quiet_status || (by apply spec_done; [apply _|]).
Qed.

Lemma replay_event_ok n env s s' :
  payload_ok (env_body env) -> 0 <= n < env_seq env -> run_reduce (replay_event env) s = Ok s' ->
  projection_ok n s -> projection_ok (env_seq env) s'.
Proof.
  intros Hp Hn Hr Hok. unfold replay_event in Hr. rewrite run_reduce_bind in Hr.
  pose proof (spec_replay_shim (env_event env) s) as Hq. unfold spec_at in Hq. unfold run_reduce in Hr at 1.
  destruct (replay_shim (env_event env) s) as [[u|x] s1]; [|done]. destruct Hq as [(Q1 & Q2 & Q3) _].
  eapply event_step_ok; [by eapply live_event_accepted|exact Hn|].
  destruct Hok as [H1 H2 H3]. split; [by apply Q3|by rewrite Q1|by rewrite Q2].
Qed.

(** Sequence numbers above [n] that increase. *)
Fixpoint seqs_increase (n : Z) (log : list EventEnvelope) : Prop :=
  match log with
  | [] => True
  | env :: log => n < env_seq env /\ seqs_increase (env_seq env) log
  end.

Definition last_seq (n : Z) (log : list EventEnvelope) : Z := default n (env_seq <$> last log).

Lemma last_seq_cons n env log : last_seq n (env :: log) = last_seq (env_seq env) log.
Proof. unfold last_seq. rewrite last_cons. by destruct (last log). Qed.

Lemma replay_events_ok n log s s' :
  0 <= n -> seqs_increase n log -> Forall (fun env => payload_ok (env_body env)) log -> projection_ok n s ->
  replay_events log s = Ok s' -> projection_ok (last_seq n log) s'.
Proof.
  intros Hn Hi Hp. revert n s Hn Hi. induction Hp as [|env log Hp _ IH]; intros n s Hn Hi Hok.
  { by intros [= <-]. }
  rewrite replay_cons, last_seq_cons. destruct Hi as [Hlt Hi].
  destruct (run_reduce (replay_event env) s) as [s1|] eqn:Hr; [|done]. apply IH; [lia|done|].
  eapply replay_event_ok; [done| |exact Hr|exact Hok]. lia.
Qed.

Lemma created_ok first n s : projection_from_created first = Ok s -> projection_ok n s.
Proof.
  unfold projection_from_created. destruct (ev_body (env_event first)); try done. intros [= <-]. split.
  - split; [done|done|by eexists| |done]. intros k r.
    change ((∅ : gmap string PendingInterviewRecord) !! k = Some r -> k <> "" /\ iq_id (pi_question r) = k). by rewrite lookup_empty.
  - intros id g. change ((∅ : gmap StageId StageProjection) !! id = Some g -> sid_visit id <> 0 /\ 1 <= sg_first_event_seq g <= n /\ stage_ok g).
    by rewrite lookup_empty.
  - split; [apply SSorted_nil|by apply Forall_nil].
Qed.

(** What a log has done to the stages and checkpoints of a projection: the stages that are
    new carry the number of one of its events, the checkpoints are those of its events. *)
Definition grown_by (log : list EventEnvelope) (s s' : RunProjection) : Prop :=
  (forall id g', rp_stages s' !! id = Some g' ->
     (exists g, rp_stages s !! id = Some g /\ sg_first_event_seq g' = sg_first_event_seq g)
     \/ (exists env, env ∈ log /\ env_seq env = sg_first_event_seq g'))
  /\ rp_checkpoints s' = rp_checkpoints s ++ (log ≫= new_checkpoints).

Lemma grown_by_trans l1 l2 a b c : grown_by l1 a b -> grown_by l2 b c -> grown_by (l1 ++ l2) a c.
Proof.
  intros [A1 A2] [B1 B2]. split; [|by rewrite B2, A2, bind_app, (assoc_L (++))].
  intros id g Hg. destruct (B1 id g Hg) as [(g1 & Hg1 & E1)|(env & He & E)]; [|right; exists env; set_solver].
  destruct (A1 id g1 Hg1) as [(g2 & Hg2 & E2)|(env & He & E)]; [left; exists g2; by rewrite E1|right; exists env; rewrite E1; set_solver].
Qed.

Lemma replay_event_grown env s s' :
  payload_ok (env_body env) -> run_reduce (replay_event env) s = Ok s' -> grown_by [env] s s'.
Proof.
  intros Hp Hr. unfold replay_event in Hr. rewrite run_reduce_bind in Hr.
  pose proof (spec_replay_shim (env_event env) s) as Hq. unfold spec_at in Hq. unfold run_reduce in Hr at 1.
  destruct (replay_shim (env_event env) s) as [[u|x] s1]; [|done]. destruct Hq as [(Q1 & Q2 & _) _].
  destruct (live_event_accepted env s1 s' Hp Hr) as [_ (_ & Hst & Hck & _)].
  split; [|by rewrite Hck, Q2; cbn; rewrite app_nil_r].
  intros id g' Hg'. specialize (Hst id). rewrite Hg', Q1 in Hst. unfold entry_step in Hst.
  destruct (rp_stages s !! id) as [g|]; [left; exists g|right; exists env].
  - split; [done|]. by destruct Hst as [->|[_ [E _]]].
  - split; [set_solver|]. by destruct Hst as (_ & _ & -> & _).
Qed.

Lemma replay_events_grown log s s' :
  Forall (fun env => payload_ok (env_body env)) log -> replay_events log s = Ok s' -> grown_by log s s'.
Proof.
  intros Hp. revert s. induction Hp as [|env log Hp _ IH]; intros s.
  { intros [= <-]. split; [by left; eexists|cbn; by rewrite app_nil_r]. }
  rewrite replay_cons. destruct (run_reduce (replay_event env) s) as [s1|] eqn:Hr; [|done]. intros Hs.
  apply (grown_by_trans [env] log s s1 s'); [by apply replay_event_grown|by apply IH].
Qed.

(** C6: the invariant of projections.  Take a log that replays, whose sequence
    numbers increase and whose ACP durations are unsigned 64 bit numbers ([payload_ok]), as
    their type has it.  Then of the run ([run_ok]):
    a run that succeeded has a conclusion without a failure, one that failed a conclusion
    with the failure's reason, one that has not ended none (nothing is said of a run that
    is dead or being removed); a run that waits for approval has an
    approval request; it has a sandbox, and a valid one; a pending interview is stored under
    the id of its question, which is not empty; a pull request that is being created has
    neither a result nor an error.
    Every stage has the sequence number of an event of the log as its first one and a visit
    that is not 0, a sorted duplicate-free todo list that is not empty, an open tool batch
    only with an outstanding call, one record per MCP server and 64 bit timings.
    The checkpoints are those of the checkpoint events of the log, in their order, with
    increasing numbers up to the last event's. *)
Theorem replayed_projection_ok first log s :
  1 <= env_seq first -> seqs_increase (env_seq first) log -> Forall (fun env => payload_ok (env_body env)) log ->
  apply_events (first :: log) = Ok s ->
  projection_ok (last_seq (env_seq first) log) s
  /\ (forall id g, rp_stages s !! id = Some g -> exists env, env ∈ log /\ env_seq env = sg_first_event_seq g)
  /\ rp_checkpoints s = log ≫= new_checkpoints.
Proof.
  intros Hq Hi Hp Ha. unfold apply_events in Ha. destruct (projection_from_created first) as [s0|] eqn:Hc; [|done].
  destruct (replay_events_grown log s0 s Hp Ha) as [G1 G2].
  assert (rp_stages s0 = ∅ /\ rp_checkpoints s0 = []) as [E1 E2].
  { unfold projection_from_created in Hc. destruct (ev_body (env_event first)); try done. by injection Hc as <-. }
  split; [eapply replay_events_ok; [lia|done|done|by eapply created_ok|exact Ha]|].
  split; [|by rewrite G2, E2].
  intros id g Hg. destruct (G1 id g Hg) as [(g0 & Hg0 & _)|He]; [by rewrite E1 in Hg0|exact He].
Qed.

(** ** Live timing *)

(** At every moment the timing shown for a stage with no terminal timing is within
    its wall time: active time is inference plus tool time and never exceeds the wall
    time, even when a bracket was left open; and the wall time shown for a stage in
    progress never goes back. *)
Theorem live_timing_bounded g now :
  stage_ok g -> instants_ok g now -> sg_timing g = None ->
  let t := live_timing g now in
  timing_ok t /\ active_time_ms t = inference_time_ms t + tool_time_ms t /\ active_time_ms t <= wall_time_ms t /\
  wall_time_ms t = default 0 (live_wall_time_ms g now) /\
  (forall later, now <= later -> StageState_is_terminal (sg_state g) = false ->
     wall_time_ms t <= wall_time_ms (live_timing g later)).
Proof.
  intros Hg Hi Ht. cbn zeta. rewrite live_timing_None by done. cbn zeta.
  set (w := default 0 (live_wall_time_ms g now)).
  assert (is_u64 w) as Hw by (by apply live_wall_u64). destruct (live_active_u64 g w now Hg Hw) as [H1 H2].
  destruct (clamped_to_wall_spec _ (StageTiming_new_ok w _ _ Hw H1 H2)) as (C1 & C2 & C3 & C4 & _).
  split; [done|]. split; [done|]. split; [by rewrite C2|]. split; [done|]. intros later Hl Hs.
  rewrite C2, live_timing_None by done. cbn zeta. rewrite clamped_to_wall_wall. cbn [wall_time_ms StageTiming_new].
  unfold w, live_wall_time_ms. destruct (sg_state g); try discriminate Hs;
    destruct (sg_started_at g); cbn; try done; by apply elapsed_ms_mono.
Qed.

(** ** Two properties of logs that the code does not have *)

Definition sample_env (seq : Z) (stage : option StageId) (b : EventBody) : EventEnvelope :=
  mkEnvelope seq (mkEvent (seq * 1000000000) "01JT56VE4Z5NZ814GZN2JZD65A" (sid_node <$> stage) stage None
                    (Some "session") None b).

Definition sample_created : EventEnvelope := sample_env 1 None (BRunCreated {|
  rc_title := None; rc_environment := mkEnvironment EnvDocker (Some "image"); rc_graph := graph_new "g";
  rc_workflow_source := None; rc_labels := ∅; rc_source_directory := None; rc_workflow_slug := None;
  rc_manifest_blob := None; rc_spec_blob := None; rc_retried_from := None; rc_parent_id := None; rc_web_url := None;
  rc_rest := JNull |}).

Definition sample_new : RunProjection :=
  match projection_from_created sample_created with
  | Ok s => s
  | Err _ => RunProjection_new "" (mkSpec "" (mkEnvironment EnvLocal None) (graph_new "") None None None ∅ None None None JNull) 0
  end.

Definition after (log : list EventEnvelope) : RunProjection :=
  match live_events log sample_new with Ok s => s | Err _ => sample_new end.

(** The pull request of a succeeded creation is not always the run's: linking another
    pull request after the creation changes the run's link only. *)
Lemma linked_after_creation :
  let s := after [sample_env 2 None (BPullRequestCreationRequested "c" "m" false);
                  sample_env 3 None (BPullRequestCreated (mkPrLink "o" "r" 1));
                  sample_env 4 None (BPullRequestLinked (mkPrLink "o" "r" 2))] in
  rp_pull_request s = Some (mkPrLink "o" "r" 2) /\
  exists c, rp_pull_request_creation s = Some c /\ prc_status c = PrSucceeded /\
            prc_pull_request c = Some (mkPrLink "o" "r" 1).
Proof. split; [reflexivity|]. eexists. split; [reflexivity|]. split; reflexivity. Qed.

Definition sample_skip_checkpoint (visit : Z) : EventEnvelope := sample_env 2 None (BCheckpointCompleted {|
  cp_current_node := "a"; cp_completed_nodes := []; cp_node_retries := ∅; cp_context_values := ∅;
  cp_node_outcomes := {["a" := mkOutcome Skipped None [] ∅ None None None None [] None]};
  cp_next_node_id := None; cp_git_commit_sha := None; cp_loop_failure_signatures := ∅;
  cp_restart_failure_signatures := ∅; cp_node_visits := {["a" := visit]}; cp_diff := None; cp_diff_summary := None;
  cp_graph_visit := None; cp_resumed_from_stage_id := None |}).

(** A stored checkpoint without a stage id that records visit zero for a skipped node
    crashes every replay of the run. *)
Lemma visit_zero_crashes :
  apply_events [sample_created; sample_skip_checkpoint 0] = Err (Crashed "stage id visit must be greater than zero") /\
  is_ok (apply_events [sample_created; sample_skip_checkpoint 1]) = true.
Proof. split; vm_compute; reflexivity. Qed.

(** The end of an ACP process is recorded on the latest visit of its node, even when the
    event names an earlier one: the bracket of the first visit stays open. *)
Lemma acp_end_goes_to_latest_visit :
  let first := mkStageId "plan" 1 in let second := mkStageId "plan" 2 in
  let s := after [sample_env 2 (Some first) (BAgentAcpStarted 1); sample_env 3 (Some second) (BAgentAcpStarted 2);
                  sample_env 4 (Some first) (BAgentAcpCompleted {| acp_stdout := "done"; acp_stderr := "";
                    acp_stop_reason := None; acp_duration_ms := 5 |})] in
  (exists g, rp_stages s !! first = Some g /\ sg_output g = None /\ is_some (sg_acp_started_at g) = true) /\
  (exists g, rp_stages s !! second = Some g /\ sg_output g = Some "done" /\ sg_acp_started_at g = None).
Proof. split; (eexists; split; [vm_compute; reflexivity|split; vm_compute; reflexivity]). Qed.

(** ** Witnesses *)

Definition sample_stage : StageId := mkStageId "plan" 1.

Definition sample_log : list EventEnvelope :=
  [sample_env 2 None BRunRunnable; sample_env 3 None BRunStarting; sample_env 4 None BRunRunning;
   sample_env 5 (Some sample_stage) (BStageStarted {| ss_handler_type := "agent"; ss_graph_visit := Some 1;
     ss_resumed_from_stage_id := None |});
   sample_env 6 (Some sample_stage) (BAgentLlmStarted (mkModelRef "p" "m" None) 1);
   sample_env 7 (Some sample_stage) (BAgentToolStarted "mcp__s__t" "call" 1)].

Definition sample_failure : RunFailedProps := {|
  rfp_failure := mkRunFailure ReasonCancelled (FailureDetail_new "cancelled" Canceled); rfp_timing := RunTiming_default;
  rfp_final_git_commit_sha := None; rfp_final_patch := None; rfp_diff_summary := None; rfp_billing := None |}.

Definition sample_failed : EventEnvelope := sample_env 9 None (BRunFailed sample_failure).

(** With an inference and an ACP bracket open at once, what a stage shows the moment before
    its run fails is not what is kept. *)
Theorem open_brackets_disagree :
  let log := sample_log ++ [sample_env 8 (Some sample_stage) (BAgentAcpStarted 1)] in
  (fun g => inference_time_ms (live_timing g (ev_ts (env_event sample_failed)))) <$> rp_stages (after log) !! sample_stage = Some 2400
  /\ (rp_stages (after (log ++ [sample_failed])) !! sample_stage ≫= fun g => inference_time_ms <$> sg_timing g) = Some 2666.
Proof. vm_compute. split; reflexivity. Qed.

Lemma event_verdict_witness :
  refusal (after sample_log) (BRunFailed sample_failure) = None /\
  exists s', live_event sample_failed (after sample_log) = Ok s' /\ rp_status s' = RsFailed ReasonCancelled.
Proof.
  split; [reflexivity|].
  assert (event_safe sample_failed) as Hs by (split; [discriminate|]; split; discriminate).
  assert (visits_nonzero (after sample_log)) as Hv by (eapply bool_decide_unpack; vm_compute; exact I).
  exact (event_verdict sample_failed (after sample_log) Hs Hv I).
Defined.

Lemma stage_event_isolated_witness :
  exists s', live_event (sample_env 8 (Some sample_stage) (BAgentToolCompleted "call" 1)) (after sample_log) = Ok s' /\
    rp_status s' = RsRunning.
Proof.
  destruct (stage_event_isolated (sample_env 8 (Some sample_stage) (BAgentToolCompleted "call" 1)) sample_stage
              (after sample_log)) as (s' & Hs & Hr & _).
  - reflexivity.
  - reflexivity.
  - split; [discriminate|]. vm_compute. split; discriminate.
  - vm_compute. discriminate.
  - exists s'. split; [exact Hs|]. change (rp_status (run_part s') = RsRunning). rewrite Hr. vm_compute. reflexivity.
Defined.

Lemma failed_run_settles_witness :
  exists s', live_event sample_failed (after sample_log) = Ok s' /\ rp_pending_interviews s' = ∅ /\
    rp_status s' = RsFailed ReasonCancelled.
Proof.
  destruct (failed_run_settles 9 (env_event sample_failed) (after sample_log) sample_failure) as (s' & H1 & H2 & _ & _ & H5 & _).
  - reflexivity.
  - vm_compute. reflexivity.
  - exists s'. split; [exact H1|]. split; [exact H5|exact H2].
Defined.

Lemma replay_is_live_witness : replay_events (sample_log ++ [sample_failed]) sample_new = Ok (after (sample_log ++ [sample_failed])).
Proof. apply (proj1 replay_is_live). vm_compute. reflexivity. Defined.

Lemma sample_payloads : Forall (fun env => payload_ok (env_body env)) (sample_log ++ [sample_failed]).
Proof. repeat constructor. Qed.

Lemma projection_status_refines_witness :
  history (status_trace [RsSubmitted] sample_new (sample_log ++ [sample_failed])) /\
  status_trace [RsSubmitted] sample_new (sample_log ++ [sample_failed]) =
    [RsFailed ReasonCancelled; RsRunning; RsStarting; RsRunnable; RsSubmitted].
Proof.
  split; [|vm_compute; reflexivity].
  exact (proj1 (projection_status_refines sample_created sample_new _ eq_refl sample_payloads)).
Defined.

Lemma replayed_projection_ok_witness :
  projection_ok 9 (after (sample_log ++ [sample_failed]))
  /\ exists env, env ∈ sample_log ++ [sample_failed]
       /\ Some (env_seq env) = sg_first_event_seq <$> rp_stages (after (sample_log ++ [sample_failed])) !! sample_stage.
Proof.
  destruct (replayed_projection_ok sample_created (sample_log ++ [sample_failed]) (after (sample_log ++ [sample_failed]))) as (H1 & H2 & _).
  - vm_compute. discriminate.
  - vm_compute. tauto.
  - exact sample_payloads.
  - vm_compute. reflexivity.
  - split; [exact H1|].
    destruct (rp_stages (after (sample_log ++ [sample_failed])) !! sample_stage) as [g|] eqn:Hg; [|vm_compute in Hg; discriminate Hg].
    destruct (H2 sample_stage g Hg) as (env & He & Hs). exists env. split; [exact He|exact (f_equal Some Hs)].
Defined.

Definition sample_stage_state : StageProjection :=
  default (StageProjection_new 1) (rp_stages (after sample_log) !! sample_stage).

Lemma sample_stage_ok : stage_ok sample_stage_state.
Proof.
  assert (projection_ok (last_seq 1 sample_log) (after sample_log)) as [_ Hs _].
  { eapply (replay_events_ok 1 sample_log sample_new); [lia|vm_compute; tauto|by repeat constructor| |].
    - by apply (created_ok sample_created).
    - vm_compute. reflexivity. }
  apply (Hs sample_stage). vm_compute. reflexivity.
Qed.

Lemma live_timing_bounded_witness :
  active_time_ms (live_timing sample_stage_state 8000000000) <= wall_time_ms (live_timing sample_stage_state 8000000000) /\
  wall_time_ms (live_timing sample_stage_state 8000000000) = 3000.
Proof.
  split; [|vm_compute; reflexivity].
  destruct (live_timing_bounded sample_stage_state 8000000000) as (_ & _ & H & _).
  - exact sample_stage_ok.
  - split; [vm_compute; discriminate|]. split; intros t Ht; vm_compute in Ht; [|discriminate Ht].
    injection Ht as <-. vm_compute. discriminate.
  - vm_compute. reflexivity.
  - exact H.
Defined.
