(* ===== verification/RunStore.v ===== *)
(** * The run store (fabro-store/src/slate/run_store.rs, types.rs)

    One run's events in the database, with a cached projection, the next
    sequence number and the most recent events in memory.  An append reduces the
    event into a copy of the projection first, then reserves the sequence number,
    writes the event and installs the new projection.  Appends of one run are
    serialized by its [state_lock], so an operation is a step on the state of
    the run.

    Not part of the repository, and parameters here: the database ([SlateDb]),
    the decoding of stored bytes and of payloads ([Codec]), the clock, and
    whether a write succeeds. *)

From S2P Require Import Prelude RustStr RustNum DecText GraphTypes Context Outcome Lint.
From S2P Require Import StageIds RunStatus EventKeys EventScan Timing Billing Todos Events Projection Reducer.
From coqutil Require Import Datatypes.RecordSetters.
Import OCamlLikeNotations.
Local Open Scope fabro_scope.
Local Open Scope Z_scope.

(** A text that JSON writes without escapes. *)
Definition json_plain (s : string) : bool :=
  str_forall (fun c => negb (in_range 0 31 c || Ascii.eqb c ch_quote || Ascii.eqb c ch_backslash)) s.

(** The identity fields of an event, as texts. *)
Record StageIdProbe := mkProbe { probe_stage_id : option string; probe_node_id : option string }.

Definition probe_of (e : RunEvent) : StageIdProbe := mkProbe (stage_id_to_string <$> ev_stage_id e) (ev_node_id e).

Definition probe_plain (p : StageIdProbe) : bool :=
  (is_none_or json_plain (probe_stage_id p) && is_none_or json_plain (probe_node_id p))%bool.

(** What serde does for the store: an event payload is written as bytes and read
    back as the event it denotes, whole or only its identity fields.  The identity fields
    are borrowed from the stored text, which serde refuses for a text with escapes.
    [debug_string] and [debug_run_id] are the [Debug] notations of error messages. *)
Class Codec (Bytes : Type) := {
  event_of_payload : Value -> option RunEvent;
  payload_bytes : Value -> Bytes;
  from_slice : Bytes -> option RunEvent;
  probe_slice : Bytes -> option StageIdProbe;
  debug_string : string -> string;
  debug_run_id : RunId -> string;
  from_slice_payload v e : event_of_payload v = Some e -> from_slice (payload_bytes v) = Some e;
  probe_slice_plain b e : from_slice b = Some e -> probe_plain (probe_of e) = true -> probe_slice b = Some (probe_of e)
}.

Section run_store.
Context {Bytes : Type} `{!SlateDb Bytes, !Codec Bytes}.

Record EventProjectionCache := mkCache { pc_last_seq : Z; pc_state : option RunProjection }.

Record RunDatabase := mkRunDb {
  rd_run_id : RunId;
  rd_db : Db Bytes;
  rd_event_seq : option Z; (* [None] for readers *)
  rd_cache : EventProjectionCache;
  rd_recent : list EventEnvelope
}.

Definition DEFAULT_EVENT_TAIL_LIMIT : nat := 1024.

(** [RunDatabase::build], given the shared cache's projection of the run. *)
Definition build (run_id : RunId) (d : Db Bytes) (read_only : bool) (snapshot : option (RunProjection * Z))
    : RunDatabase := {|
  rd_run_id := run_id; rd_db := d;
  rd_event_seq := if read_only then None
                  else Some (match snapshot with
                             | Some (_, last_seq) => saturating_add_u32 last_seq 1
                             | None => recover_next_seq d run_id
                             end);
  rd_cache := match snapshot with
              | Some (projection, last_seq) => mkCache last_seq (Some projection)
              | None => mkCache 0 None
              end;
  rd_recent := []
|}.

(** ** Listing *)

Definition decode_event (entry : Z * Bytes) : result EventEnvelope StoreError :=
  match from_slice entry.2 with
  | Some e => Ok (mkEnvelope entry.1 e)
  | None => Err SerdeError
  end.

Fixpoint decode_events (l : list (Z * Bytes)) : result (list EventEnvelope) StoreError :=
  match l with
  | [] => Ok []
  | entry :: l => try e := decode_event entry in try es := decode_events l in Ok (e :: es)
  end.

Definition list_events_from (d : Db Bytes) (run_id : RunId) (start : Z) : result (list EventEnvelope) StoreError :=
  decode_events (scan_from d run_id start).

(** A page holds one event more than [limit]. *)
Definition list_page (d : Db Bytes) (run_id : RunId) (start : Z) (limit : nat) : result (list EventEnvelope) StoreError :=
  decode_events (take (S limit) (scan_from d run_id start)).

Definition cached_events_from (rd : RunDatabase) (start : Z) (limit : nat) : option (list EventEnvelope) :=
  match rd_recent rd with
  | [] => None
  | oldest :: _ =>
      if start <? env_seq oldest then None
      else Some (take (S limit) (filterb (fun e => start <=? env_seq e) (rd_recent rd)))
  end.

Definition list_events_from_with_limit (rd : RunDatabase) (start : Z) (limit : nat)
    : result (list EventEnvelope) StoreError :=
  match cached_events_from rd start limit with
  | Some events => Ok events
  | None => list_page (rd_db rd) (rd_run_id rd) start limit
  end.

(** [list_events_in_range_with_limit] with an exclusive end. *)
Definition list_range (d : Db Bytes) (run_id : RunId) (start : Z) (end_ : option Z) (limit : nat)
    : result (list EventEnvelope) StoreError :=
  if is_some_and (fun e => e <=? start) end_ then Ok []
  else decode_events (take (S limit) (match end_ with
                                      | Some e => scan_before d run_id start e
                                      | None => scan_from d run_id start
                                      end)).

Definition get_event (d : Db Bytes) (run_id : RunId) (seq : Z) : result (option EventEnvelope) StoreError :=
  match head (db_scan_prefix (run_event_seq_prefix run_id seq) d) with
  | None => Ok None
  | Some entry =>
      match from_slice entry.2 with
      | Some e => Ok (Some (mkEnvelope seq e))
      | None => Err SerdeError
      end
  end.

Definition latest_event_seq (rd : RunDatabase) (snapshot : option (RunProjection * Z)) : option Z :=
  match snapshot with
  | Some (_, seq) => Some seq
  | None => recover_latest_seq (rd_db rd) (rd_run_id rd)
  end.

(** The page before [before_seq], newest first.  [None] is the search running out of
    fuel. *)
Definition list_events_before_with_limit (rd : RunDatabase) (snapshot : option (RunProjection * Z))
    (before_seq : option Z) (limit : nat) : option (result (list EventEnvelope) StoreError) :=
  newest ← latest_event_seq rd snapshot;
  let end_ := Z.min (Z.min (default u64_max before_seq) (newest + 1)) (MAX_EVENT_SEQ + 1) in
  Some (if end_ <=? 1 then Ok []
        else
          let start := Z.min (Z.max (saturating_sub end_ (Z.of_nat (S limit))) 1) u32_max in
          let end_ := if (end_ <=? u32_max) && (end_ <=? MAX_EVENT_SEQ) then Some end_ else None in
          try events := list_range (rd_db rd) (rd_run_id rd) start end_ limit in Ok (reverse events)).

Definition matches_stage (id : StageId) (p : StageIdProbe) : bool :=
  match probe_stage_id p with
  | Some text => String.eqb text (stage_id_to_string id)
  | None => (sid_visit id =? 1) && is_some_and (String.eqb (sid_node id)) (probe_node_id p)
  end.

(** Events are filtered before the page is cut; only the events of the stage are decoded
    in full. *)
Fixpoint stage_page (n : nat) (id : StageId) (l : list (Z * Bytes)) : result (list EventEnvelope) StoreError :=
  match n, l with
  | O, _ | _, [] => Ok []
  | S n', entry :: l =>
      match probe_slice entry.2 with
      | None => Err SerdeError
      | Some p =>
          if matches_stage id p then try env := decode_event entry in try es := stage_page n' id l in Ok (env :: es)
          else stage_page n id l
      end
  end.

Definition list_events_for_stage_from_with_limit (rd : RunDatabase) (id : StageId) (start : Z) (limit : nat)
    : result (list EventEnvelope) StoreError :=
  stage_page (S limit) id (scan_from (rd_db rd) (rd_run_id rd) start).

(** ** The cached projection *)

Definition apply_cached_projection_event (state : option RunProjection) (env : EventEnvelope)
    : result unit Stop * option RunProjection :=
  match state with
  | Some s => let '(r, s') := apply_event env s in (r, Some s')
  | None => match apply_events [env] with
            | Ok s => (Ok tt, Some s)
            | Err e => (Err e, None)
            end
  end.

Fixpoint catch_up (cache : EventProjectionCache) (events : list EventEnvelope)
    : result unit Stop * EventProjectionCache :=
  match events with
  | [] => (Ok tt, cache)
  | env :: events =>
      match apply_cached_projection_event (pc_state cache) env with
      | (Ok _, state) => catch_up (mkCache (env_seq env) state) events
      | (Err e, state) => (Err e, mkCache (pc_last_seq cache) state)
      end
  end.

Definition projected_state_option (rd : RunDatabase) : result (option RunProjection) Stop * RunDatabase :=
  match list_events_from (rd_db rd) (rd_run_id rd) (saturating_add_u32 (pc_last_seq (rd_cache rd)) 1) with
  | Err e => (Err (Rejected e), rd)
  | Ok events =>
      match catch_up (rd_cache rd) events with
      | (Ok _, cache) => (Ok (pc_state cache), { rd with rd_cache := cache })
      | (Err e, cache) => (Err e, { rd with rd_cache := cache })
      end
  end.

Definition projected_state (rd : RunDatabase) : result RunProjection Stop * RunDatabase :=
  match projected_state_option rd with
  | (Ok (Some s), rd) => (Ok s, rd)
  | (Ok None, rd) =>
      (Err (Rejected (InvalidEvent ("run " +:+ rd_run_id rd +:+ " has no run.created event"))), rd)
  | (Err e, rd) => (Err e, rd)
  end.

(** The replay at startup, with the last sequence number. *)
Definition build_cached_projection (d : Db Bytes) (run_id : RunId) : result (option (RunProjection * Z)) Stop :=
  match list_events_from d run_id 1 with
  | Err e => Err (Rejected e)
  | Ok events =>
      match last events with
      | None => Ok None
      | Some newest =>
          match apply_events events with
          | Ok state => Ok (Some (state, env_seq newest))
          | Err e => Err e
          end
      end
  end.

(** In the steady state the cache already sits just before [seq]. *)
Definition projected_state_for_append (seq : Z) (rd : RunDatabase) : result (option RunProjection) Stop * RunDatabase :=
  if saturating_add_u32 (pc_last_seq (rd_cache rd)) 1 =? seq then (Ok (pc_state (rd_cache rd)), rd)
  else projected_state_option rd.

(** ** Appending *)

Definition next_event_seq (event_seq : Z) : result Z StoreError :=
  if MAX_EVENT_SEQ <? event_seq then Err (EventSequenceExhausted MAX_EVENT_SEQ) else Ok event_seq.

(** [compare_exchange(seq, seq + 1)]. *)
Definition reserve_event_seq (event_seq seq : Z) : result Z StoreError :=
  if event_seq =? seq then Ok (seq + 1) else Err (StoreOther "event sequence changed while append lock was held").

Definition event_rejected (e : Stop) : Stop :=
  match e with
  | Rejected e => Rejected (EventRejected e)
  | Crashed msg => Crashed msg
  end.

Definition push_recent (env : EventEnvelope) (recent : list EventEnvelope) : list EventEnvelope :=
  let recent := recent ++ [env] in
  drop (length recent - DEFAULT_EVENT_TAIL_LIMIT) recent.

Definition install_in_memory_state_after_append (env : EventEnvelope) (s : RunProjection) (rd : RunDatabase) : RunDatabase :=
  { rd with rd_cache := mkCache (env_seq env) (Some s); rd_recent := push_recent env (rd_recent rd) }.

(** [now] is the clock's milliseconds, [put_ok] whether the write succeeds. *)
Definition append_event_envelope_locked (e : RunEvent) (bytes : Bytes) (now : Z) (put_ok : bool) (rd : RunDatabase)
    : result (EventEnvelope * RunProjection) Stop * RunDatabase :=
  match rd_event_seq rd with
  | None => (Err (Rejected StoreReadOnly), rd)
  | Some event_seq =>
      match next_event_seq event_seq with
      | Err err => (Err (Rejected err), rd)
      | Ok seq =>
          let env := mkEnvelope seq e in
          match projected_state_for_append seq rd with
          | (Err err, rd) => (Err err, rd)
          | (Ok state, rd) =>
              match apply_cached_projection_event state env with
              | (Err err, _) => (Err (event_rejected err), rd)
              | (Ok _, None) => (Err (Crashed "apply_cached_projection_event sets the state on success"), rd)
              | (Ok _, Some next) =>
                  match reserve_event_seq event_seq seq with
                  | Err err => (Err (Rejected err), rd)
                  | Ok reserved =>
                      let rd := { rd with rd_event_seq := Some reserved } in
                      if put_ok then
                        let rd := { rd with rd_db := db_put (run_event_key (rd_run_id rd) seq now) bytes (rd_db rd) } in
                        (Ok (env, next), install_in_memory_state_after_append env next rd)
                      else (Err (Rejected SlateError), rd)
                  end
              end
          end
      end
  end.

(** [EventPayload::validate]. *)
Definition required_fields : list string := ["id"; "ts"; "run_id"; "event"].

Definition is_string_field (obj : list (string * Value)) (field : string) : bool :=
  match assoc field obj with Some (JString _) => true | _ => false end.

Definition validate_payload (payload : Value) (run_id : RunId) : result unit StoreError :=
  match payload with
  | JObject obj =>
      match find_first (fun field => negb (is_string_field obj field)) required_fields with
      | Some field => Err (InvalidEvent ("missing or non-string required field: " +:+ field))
      | None =>
          match assoc "run_id" obj with
          | Some (JString id) =>
              if String.eqb id run_id then Ok tt
              else Err (InvalidEvent ("payload run_id " +:+ debug_string id +:+ " does not match store run_id " +:+ debug_run_id run_id))
          | _ => Err (InvalidEvent "missing or non-string required field: run_id")
          end
      end
  | _ => Err (InvalidEvent "event payload must be a JSON object")
  end.

Definition append_event_envelope (read_only : bool) (payload : Value) (now : Z) (put_ok : bool) (rd : RunDatabase)
    : result (EventEnvelope * RunProjection) Stop * RunDatabase :=
  if read_only then (Err (Rejected StoreReadOnly), rd)
  else match validate_payload payload (rd_run_id rd) with
       | Err e => (Err (Rejected e), rd)
       | Ok _ =>
           match event_of_payload payload with
           | None => (Err (Rejected SerdeError), rd)
           | Some e => append_event_envelope_locked e (payload_bytes payload) now put_ok rd
           end
       end.

(** [Ok None] is the predicate refusing. *)
Definition append_event_if (read_only : bool) (payload : Value) (predicate : RunProjection -> bool) (now : Z)
    (put_ok : bool) (rd : RunDatabase) : result (option Z) Stop * RunDatabase :=
  if read_only then (Err (Rejected StoreReadOnly), rd)
  else match validate_payload payload (rd_run_id rd) with
       | Err e => (Err (Rejected e), rd)
       | Ok _ =>
           match projected_state rd with
           | (Err e, rd) => (Err e, rd)
           | (Ok s, rd) =>
               if negb (predicate s) then (Ok None, rd)
               else match event_of_payload payload with
                    | None => (Err (Rejected SerdeError), rd)
                    | Some e =>
                        match append_event_envelope_locked e (payload_bytes payload) now put_ok rd with
                        | (Ok (env, _), rd) => (Ok (Some (env_seq env)), rd)
                        | (Err e, rd) => (Err e, rd)
                        end
                    end
           end
       end.

Definition last_event_seq (rd : RunDatabase) : option Z :=
  if 0 <? pc_last_seq (rd_cache rd) then Some (pc_last_seq (rd_cache rd))
  else opt_filter (fun seq => 0 <? seq) (Some (recover_next_seq (rd_db rd) (rd_run_id rd) - 1)).
End run_store.

Arguments RunDatabase Bytes {_}.
