(* ===== verification/RunStoreProps.v ===== *)
(** * The run store refines an event log

    The abstract store is the log itself and the next sequence number; its state
    is computed from the log.  The concrete store, with its database, projection
    cache, sequence counter and recent events, simulates it: the same results and
    errors for appends and reads, whatever the caches hold. *)

From S2P Require Import Prelude RustStr RustNum DecText GraphTypes Context Outcome Lint.
From S2P Require Import StageIds RunStatus EventKeys EventScan Timing Billing Todos Events Projection Reducer.
From S2P Require Import StageFacts ReducerFacts RunFacts ReducerProps RunStore.
From coqutil Require Import Datatypes.RecordSetters.
Import OCamlLikeNotations.
Local Open Scope fabro_scope.
Local Open Scope Z_scope.

(** ** The abstract store *)

(** The projection of a log whose events were accepted one by one. *)
Definition log_state (log : list EventEnvelope) : result (option RunProjection) Stop :=
  match log with
  | [] => Ok None
  | first :: rest =>
      match projection_from_created first with
      | Err e => Err (Rejected e)
      | Ok s => match live_events rest s with
                | Ok s' => Ok (Some s')
                | Err e => Err e
                end
      end
  end.

Record LogStore := mkLog { ls_log : list EventEnvelope; ls_next : option Z }.

Definition log_append (e : RunEvent) (put_ok : bool) (a : LogStore)
    : result (EventEnvelope * RunProjection) Stop * LogStore :=
  match ls_next a with
  | None => (Err (Rejected StoreReadOnly), a)
  | Some n =>
      if MAX_EVENT_SEQ <? n then (Err (Rejected (EventSequenceExhausted MAX_EVENT_SEQ)), a)
      else
        let env := mkEnvelope n e in
        match log_state (ls_log a ++ [env]) with
        | Err err => (Err (event_rejected err), a)
        | Ok None => (Err (Crashed ""), a)
        | Ok (Some s) =>
            if put_ok then (Ok (env, s), mkLog (ls_log a ++ [env]) (Some (n + 1)))
            else (Err (Rejected SlateError), mkLog (ls_log a) (Some (n + 1)))
        end
  end.

(** *** Logs *)

Lemma live_one env s : live_events [env] s = live_event env s.
Proof. rewrite live_cons. by destruct (live_event env s). Qed.

Lemma apply_events_one env :
  apply_events [env] = match projection_from_created env with Ok s => Ok s | Err e => Err (Rejected e) end.
Proof. unfold apply_events. by destruct (projection_from_created env). Qed.

(** One more event, through the code that applies it to a cached projection. *)
Lemma log_state_snoc log st env :
  log_state log = Ok st ->
  log_state (log ++ [env]) = match apply_cached_projection_event st env with
                             | (Ok _, st') => Ok st'
                             | (Err e, _) => Err e
                             end.
Proof.
  destruct log as [|first rest]; cbn [app log_state].
  - intros [= <-]. cbn [apply_cached_projection_event]. rewrite apply_events_one.
    by destruct (projection_from_created env).
  - destruct (projection_from_created first) as [s|]; [|done]. rewrite live_app.
    destruct (live_events rest s) as [s1|]; [|done]. intros [= <-]. rewrite live_one.
    cbn [apply_cached_projection_event]. unfold live_event, run_reduce. by destruct (apply_event env s1) as [[[]|] s2].
Qed.

Lemma log_state_prefix log log' st : log_state (log ++ log') = Ok st -> exists st', log_state log = Ok st'.
Proof.
  destruct log as [|first rest]; [by eexists|]. cbn [app log_state].
  destruct (projection_from_created first) as [s|]; [|done]. rewrite live_app.
  destruct (live_events rest s) as [s1|]; [|done]. by eexists.
Qed.

Lemma log_state_Some log st : log <> [] -> log_state log = Ok st -> exists s, st = Some s /\ apply_events log = Ok s.
Proof.
  destruct log as [|first rest]; [done|]. intros _. cbn [log_state]. unfold apply_events.
  destruct (projection_from_created first) as [s|]; [|done].
  destruct (live_events rest s) as [s1|] eqn:Hl; [|done]. intros [= <-]. exists s1. split; [done|].
  by apply live_replays.
Qed.

Lemma last_seq_snoc n log env : last_seq n (log ++ [env]) = env_seq env.
Proof. unfold last_seq. by rewrite last_snoc. Qed.

(** The events of a log from a sequence number on. *)
Definition log_from (start : Z) (log : list EventEnvelope) : list EventEnvelope :=
  filterb (fun env => start <=? env_seq env) log.

Definition log_sorted (log : list EventEnvelope) : Prop := StronglySorted (fun a b => env_seq a < env_seq b) log.

Lemma sorted_app_lt pre post a b : log_sorted (pre ++ post) -> a ∈ pre -> b ∈ post -> env_seq a < env_seq b.
Proof.
  unfold log_sorted. induction pre as [|x pre IH]; [set_solver|]. cbn [app].
  intros [Hs Hx]%StronglySorted_inv [->|Ha]%elem_of_cons Hb; [|by apply IH].
  rewrite Forall_forall in Hx. apply Hx. set_solver.
Qed.

Lemma log_sorted_prefix pre post : log_sorted (pre ++ post) -> log_sorted pre.
Proof.
  unfold log_sorted. induction pre as [|x pre IH]; [constructor|]. cbn [app].
  intros [Hs Hx]%StronglySorted_inv. constructor; [by apply IH|]. by apply Forall_app in Hx as [Hx _].
Qed.

Lemma last_seq_elem n log : last_seq n log = n \/ exists env, env ∈ log /\ last_seq n log = env_seq env.
Proof.
  unfold last_seq. destruct (last log) as [env|] eqn:Hl; [|by left]. right. exists env. split; [|done].
  by apply last_Some_elem_of.
Qed.

Lemma last_seq_max log env : log_sorted log -> env ∈ log -> env_seq env <= last_seq 0 log.
Proof.
  intros Hs He. unfold last_seq. destruct (last log) as [z|] eqn:Hl; cbn.
  - apply last_Some in Hl as [pre ->]. apply elem_of_app in He as [He|He%list_elem_of_singleton]; [|subst; lia].
    pose proof (sorted_app_lt pre [z] env z Hs He ltac:(set_solver)). lia.
  - apply last_None in Hl. subst. by apply elem_of_nil in He.
Qed.

Lemma sorted_seq_inj log a b : log_sorted log -> a ∈ log -> b ∈ log -> env_seq a = env_seq b -> a = b.
Proof.
  intros Hs. induction Hs as [|x log Hs IH Hx]; [set_solver|]. rewrite Forall_forall in Hx.
  intros [->|Ha]%elem_of_cons [->|Hb]%elem_of_cons He; [done| | |by apply IH].
  - specialize (Hx _ Hb). lia.
  - specialize (Hx _ Ha). lia.
Qed.

(** What comes after a prefix is what has larger numbers than its last one. *)
Lemma log_from_split pre post :
  log_sorted (pre ++ post) -> (forall env, env ∈ pre ++ post -> 1 <= env_seq env) ->
  log_from (last_seq 0 pre + 1) (pre ++ post) = post.
Proof.
  intros Hs Hpos. unfold log_from. rewrite filterb_app, filterb_none, filterb_all; [done| |].
  - intros b Hb. apply Z.leb_le. destruct (last_seq_elem 0 pre) as [->|(a & Ha & ->)].
    + apply Hpos. set_solver.
    + pose proof (sorted_app_lt pre post a b Hs Ha Hb). lia.
  - intros a Ha. apply Z.leb_gt. pose proof (last_seq_max pre a (log_sorted_prefix pre post Hs) Ha). lia.
Qed.

(** ** The simulation *)

Section refinement.
Context {Bytes : Type} `{!SlateDb Bytes, !Codec Bytes}.
Implicit Types (rd : RunDatabase Bytes) (a : LogStore).

(** The database holds the log. *)
Record holds (d : Db Bytes) (run_id : RunId) (log : list EventEnvelope) : Prop := {
  holds_run : run_id_ok run_id;
  holds_keys : keys_ok d run_id;
  holds_log : list_events_from d run_id 1 = Ok log
}.

(** The cache is empty or the state of the log, the recent events are a suffix of it. *)
Record refines rd a : Prop := {
  rf_holds : holds (rd_db rd) (rd_run_id rd) (ls_log a);
  rf_accepted : exists st, log_state (ls_log a) = Ok st;
  rf_seq : rd_event_seq rd = ls_next a;
  rf_next : forall n, ls_next a = Some n -> 1 <= n /\ forall env, env ∈ ls_log a -> env_seq env < n;
  rf_cache : exists pre post, ls_log a = pre ++ post /\ pc_last_seq (rd_cache rd) = last_seq 0 pre /\
    log_state pre = Ok (pc_state (rd_cache rd)) /\ (pre = [] \/ post = []);
  rf_recent : exists old, ls_log a = old ++ rd_recent rd
}.

(** *** Decoding *)

Lemma decode_events_filter (P : Z -> bool) l log :
  decode_events l = Ok log ->
  decode_events (filterb (fun e => P e.1) l) = Ok (filterb (fun env => P (env_seq env)) log).
Proof.
  revert log. induction l as [|[q v] l IH]; intros log; cbn [decode_events filterb List.filter]; [by intros [= <-]|].
  unfold decode_event. cbn [fst snd]. destruct (from_slice v) as [e|] eqn:He; [|done]. cbn [result_bind].
  destruct (decode_events l) as [es|]; [|done]. cbn [result_bind]. intros [= <-]. specialize (IH es eq_refl).
  cbn [filterb List.filter env_seq]. destruct (P q); cbn [decode_events]; unfold decode_event; cbn [fst snd];
    unfold filterb in IH; [rewrite He; cbn [result_bind]; rewrite IH; done|exact IH].
Qed.

Lemma decode_events_app l k log log' :
  decode_events l = Ok log -> decode_events k = Ok log' -> decode_events (l ++ k) = Ok (log ++ log').
Proof.
  revert log. induction l as [|[q v] l IH]; intros log; cbn [decode_events app]; [by intros [= <-]|].
  unfold decode_event. cbn [fst snd]. destruct (from_slice v) as [e|]; [|done]. cbn [result_bind].
  destruct (decode_events l) as [es|]; [|done]. cbn [result_bind]. intros [= <-] Hk.
  by rewrite (IH es eq_refl Hk).
Qed.

Lemma decode_events_take n l log : decode_events l = Ok log -> decode_events (take n l) = Ok (take n log).
Proof.
  revert n log. induction l as [|[q v] l IH]; intros n log; cbn [decode_events]; [intros [= <-]; by destruct n|].
  unfold decode_event. cbn [fst snd]. destruct (from_slice v) as [e|] eqn:He; [|done]. cbn [result_bind].
  destruct (decode_events l) as [es|]; [|done]. cbn [result_bind]. intros [= <-]. destruct n as [|n]; [done|].
  cbn [take decode_events]. unfold decode_event. cbn [fst snd]. rewrite He. cbn [result_bind].
  by rewrite (IH n es eq_refl).
Qed.

Lemma decode_events_seqs l log : decode_events l = Ok log -> env_seq <$> log = fst <$> l.
Proof.
  revert log. induction l as [|[q v] l IH]; intros log; cbn [decode_events]; [by intros [= <-]|].
  unfold decode_event. cbn [fst snd]. destruct (from_slice v) as [e|]; [|done]. cbn [result_bind].
  destruct (decode_events l) as [es|]; [|done]. cbn [result_bind]. intros [= <-].
  rewrite !fmap_cons, (IH es eq_refl). done.
Qed.

Lemma decode_events_elem l log q v :
  decode_events l = Ok log -> (q, v) ∈ l -> exists env, env ∈ log /\ env_seq env = q /\ from_slice v = Some (env_event env).
Proof.
  revert log. induction l as [|[q' v'] l IH]; intros log; [set_solver|]. cbn [decode_events].
  unfold decode_event. cbn [fst snd]. destruct (from_slice v') as [e|] eqn:He; [|done]. cbn [result_bind].
  destruct (decode_events l) as [es|]; [|done]. cbn [result_bind].
  intros [= <-] [[= -> ->]|Hin]%elem_of_cons; [exists (mkEnvelope q' e); set_solver|].
  destruct (IH es eq_refl Hin) as (env & Hi & Hr). exists env. set_solver.
Qed.

(** *** The log in the database *)

Lemma fmap_sorted (l : list (Z * Bytes)) :
  StronglySorted (fun x y => x.1 < y.1) l -> StronglySorted Z.lt (fst <$> l).
Proof.
  induction 1 as [|x l Hs IH Hx]; cbn; [constructor|]. constructor; [done|].
  rewrite Forall_fmap. exact Hx.
Qed.

Lemma sorted_fmap log : StronglySorted Z.lt (env_seq <$> log) -> log_sorted log.
Proof.
  induction log as [|env log IH]; [constructor|]. rewrite fmap_cons. intros [Hs Hx]%StronglySorted_inv.
  constructor; [by apply IH|]. by rewrite Forall_fmap in Hx.
Qed.

Section held.
Context (d : Db Bytes) (run_id : RunId) (log : list EventEnvelope) (Hh : holds d run_id log).

Lemma held_sorted : log_sorted log.
Proof.
  destruct (scan_from_spec run_id (holds_run _ _ _ Hh) d 1 (holds_keys _ _ _ Hh) ltac:(lia)) as [Hs _].
  apply sorted_fmap. rewrite (decode_events_seqs _ _ (holds_log _ _ _ Hh)). by apply fmap_sorted.
Qed.

Lemma held_stored q : (exists v, stored d run_id q v) <-> exists env, env ∈ log /\ env_seq env = q.
Proof.
  destruct (scan_from_spec run_id (holds_run _ _ _ Hh) d 1 (holds_keys _ _ _ Hh) ltac:(lia)) as [_ He].
  pose proof (decode_events_seqs _ _ (holds_log _ _ _ Hh)) as Hq.
  assert (q ∈ env_seq <$> log <-> exists env, env ∈ log /\ env_seq env = q) as <-
    by (rewrite list_elem_of_fmap; naive_solver).
  rewrite Hq, list_elem_of_fmap. split.
  - intros [v Hv]. exists (q, v). split; [done|]. apply He. split; [done|]. by destruct Hv as [? _]; lia.
  - intros ([q' v] & -> & Hin%He). exists v. apply Hin.
Qed.

Lemma held_range env : env ∈ log -> 1 <= env_seq env <= MAX_EVENT_SEQ.
Proof.
  intros He. destruct (proj2 (held_stored (env_seq env))) as [v [Hv _]]; [by exists env|done].
Qed.

Lemma scan_from_filter start : 0 <= start -> scan_from d run_id start = filterb (fun e => start <=? e.1) (scan_from d run_id 1).
Proof.
  intros Hst. pose proof (holds_run _ _ _ Hh) as Hr. pose proof (holds_keys _ _ _ Hh) as Hk.
  destruct (scan_from_spec run_id Hr d 1 Hk ltac:(lia)) as [Hs1 He1].
  destruct (scan_from_spec run_id Hr d start Hk ltac:(lia)) as [Hs He].
  apply sorted_by_seq_unique; [done|by apply filterb_sorted|]. intros [q v].
  rewrite filterb_elem, He, He1. cbn [fst]. rewrite Z.leb_le. split; [|tauto].
  intros [H1 H2]. pose proof H1 as [Hq _]. split; [split; [done|lia]|done].
Qed.

Lemma list_events_from_log start : 0 <= start -> list_events_from d run_id start = Ok (log_from start log).
Proof.
  intros Hst. unfold list_events_from. rewrite scan_from_filter by done.
  apply (decode_events_filter (Z.leb start)). apply (holds_log _ _ _ Hh).
Qed.

Lemma list_page_log start limit :
  0 <= start -> list_page d run_id start limit = Ok (take (S limit) (log_from start log)).
Proof. intros Hst. apply decode_events_take. by apply list_events_from_log. Qed.

Lemma holds_put n e bytes now :
  1 <= n <= MAX_EVENT_SEQ -> (forall env, env ∈ log -> env_seq env < n) -> from_slice bytes = Some e ->
  holds (db_put (run_event_key run_id n now) bytes d) run_id (log ++ [mkEnvelope n e]).
Proof.
  intros Hn Hlt Hb. pose proof (holds_run _ _ _ Hh) as Hr. pose proof (holds_keys _ _ _ Hh) as Hk.
  assert (forall q w, stored d run_id q w -> q < n) as Hq.
  { intros q w Hw. destruct (proj1 (held_stored q)) as (env & He & <-); [by exists w|]. by apply Hlt. }
  split; [done| |].
  - apply (keys_ok_put run_id Hr); [done..|]. intros q w Hw%Hq. lia.
  - unfold list_events_from. rewrite (scan_from_put run_id Hr) by (done || lia). rewrite (proj2 (Z.leb_le 1 n)) by lia.
    apply decode_events_app; [apply (holds_log _ _ _ Hh)|]. cbn [decode_events]. unfold decode_event. cbn [fst snd].
    by rewrite Hb.
Qed.

(** The events between two numbers. *)
Lemma scan_before_log start end_ :
  0 <= start -> 0 <= end_ ->
  decode_events (scan_before d run_id start end_) =
    Ok (filterb (fun env => (start <=? env_seq env) && (env_seq env <? end_)) log).
Proof.
  intros H0 H1. pose proof (holds_run _ _ _ Hh) as Hr. pose proof (holds_keys _ _ _ Hh) as Hk.
  destruct (scan_from_spec run_id Hr d 1 Hk ltac:(lia)) as [Hs1 He1].
  destruct (scan_before_spec run_id Hr d start end_ Hk H0 H1) as [Hs He].
  replace (scan_before d run_id start end_) with
    (filterb (fun e => (start <=? e.1) && (e.1 <? end_)) (scan_from d run_id 1)).
  - apply (decode_events_filter (fun q => (start <=? q) && (q <? end_))). apply (holds_log _ _ _ Hh).
  - apply sorted_by_seq_unique; [by apply filterb_sorted|done|]. intros [q v].
    rewrite filterb_elem, He, He1, andb_true_iff, Z.leb_le, Z.ltb_lt. cbn [fst]. split; [tauto|].
    intros [Hq Hle]. pose proof Hq as [Hg _]. split; [split; [done|lia]|done].
Qed.

Lemma held_decodes q v : stored d run_id q v -> exists env, env ∈ log /\ env_seq env = q /\ from_slice v = Some (env_event env).
Proof.
  intros Hv. destruct (scan_from_spec run_id (holds_run _ _ _ Hh) d 1 (holds_keys _ _ _ Hh) ltac:(lia)) as [_ He].
  assert ((q, v) ∈ scan_from d run_id 1) as Hin by (apply He; split; [done|destruct Hv as [? _]; lia]).
  by apply (decode_events_elem _ _ q v (holds_log _ _ _ Hh)).
Qed.

Lemma get_event_log seq :
  0 <= seq <= MAX_EVENT_SEQ -> get_event d run_id seq = Ok (find_first (fun env => env_seq env =? seq) log).
Proof.
  intros Hq. pose proof (holds_run _ _ _ Hh) as Hr. pose proof (holds_keys _ _ _ Hh) as Hk.
  pose proof (seq_prefix_spec run_id Hr d seq Hk Hq) as Hsel. unfold get_event.
  destruct (db_scan_prefix (run_event_seq_prefix run_id seq) d) as [|[k v] l] eqn:Hd; cbn [head].
  - destruct (find_first (fun env => env_seq env =? seq) log) as [env|] eqn:Hf; [|done]. exfalso.
    apply find_first_Some_elem in Hf as [Hin Heq%Z.eqb_eq]. destruct (proj2 (held_stored seq)) as [v Hv]; [by exists env|].
    by apply (not_elem_of_nil (seq, v)), (Hsel seq v).
  - assert ((k, v) ∈ db_scan_prefix (run_event_seq_prefix run_id seq) d) as Hin by (rewrite Hd; set_solver).
    rewrite db_scan_prefix_spec in Hin. apply filterb_elem in Hin as [Hm Hst]. cbn [fst] in Hst.
    apply (sorted_entries_spec (db_contents d)) in Hm.
    destruct (keys_form d run_id Hk k v Hm (seq_prefix_in_namespace run_id seq k Hst)) as (q & ms & -> & Hg).
    rewrite key_of_seq in Hst by lia. apply Z.eqb_eq in Hst as <-.
    cbn [snd]. destruct (held_decodes seq v) as (env & Hi & He & ->); [split; [done|by exists ms]|]. f_equal.
    destruct (find_first (fun env => env_seq env =? seq) log) as [env'|] eqn:Hf.
    + apply find_first_Some_elem in Hf as [Hi' He'%Z.eqb_eq]. f_equal.
      rewrite (sorted_seq_inj log env' env held_sorted Hi' Hi) by congruence. by destruct env; cbn in *; subst.
    + exfalso. apply (proj1 (find_first_None _ _)) with (x := env) in Hf; [|done]. by apply Z.eqb_neq in Hf.
Qed.

Lemma held_last : 0 <= last_seq 0 log <= MAX_EVENT_SEQ.
Proof.
  destruct (last_seq_elem 0 log) as [->|(env & He & ->)]; [by vm_compute|]. apply held_range in He. lia.
Qed.

Lemma held_latest m : latest run_id d m -> m = last_seq 0 log.
Proof.
  intros [[-> Hno]|[Hm Hmax]].
  - destruct (last_seq_elem 0 log) as [->|(env & He & _)]; [done|]. exfalso.
    destruct (proj2 (held_stored (env_seq env))) as [v Hv]; [by exists env|]. by apply Hno in Hv.
  - apply held_stored in Hm as (env & He & <-). pose proof (last_seq_max log env held_sorted He).
    pose proof (held_range env He). destruct (last_seq_elem 0 log) as [Hz0|(z & Hz & Hz0)]; [lia|].
    destruct (proj2 (held_stored (env_seq z))) as [v Hv]; [by exists z|]. apply Hmax in Hv. lia.
Qed.

Lemma held_next : recover_next_seq d run_id = last_seq 0 log + 1.
Proof.
  destruct (recover_next_spec run_id (holds_run _ _ _ Hh) d (holds_keys _ _ _ Hh)) as (m & -> & Hm).
  by rewrite (held_latest m Hm).
Qed.

Lemma held_recover : recover_latest_seq d run_id = Some (last_seq 0 log).
Proof.
  destruct (recover_latest_spec run_id (holds_run _ _ _ Hh) d (holds_keys _ _ _ Hh)) as (m & -> & Hm).
  by rewrite (held_latest m Hm).
Qed.
End held.

(** *** The cached projection *)

Lemma catch_up_log pre post st st' :
  log_state pre = Ok st -> log_state (pre ++ post) = Ok st' ->
  catch_up (mkCache (last_seq 0 pre) st) post = (Ok tt, mkCache (last_seq 0 (pre ++ post)) st').
Proof.
  revert pre st. induction post as [|env post IH]; intros pre st Hp Hl.
  - rewrite app_nil_r in Hl |- *. cbn [catch_up]. congruence.
  - assert (pre ++ env :: post = (pre ++ [env]) ++ post) as He by (by rewrite <- app_assoc). rewrite He in *.
    destruct (log_state_prefix _ _ _ Hl) as [st1 H1]. pose proof H1 as H2. rewrite (log_state_snoc pre st env Hp) in H2.
    cbn [catch_up pc_state]. destruct (apply_cached_projection_event st env) as [[u|x] st2]; [|done].
    injection H2 as ->. rewrite <- (last_seq_snoc 0 pre env). by apply IH.
Qed.

Lemma cache_next rd a : refines rd a -> forall pre post, ls_log a = pre ++ post ->
  pc_last_seq (rd_cache rd) = last_seq 0 pre -> saturating_add_u32 (pc_last_seq (rd_cache rd)) 1 = last_seq 0 pre + 1.
Proof.
  intros Hr pre post Hl ->. destruct (rf_holds _ _ Hr) as [Hrun Hk Hlog].
  pose proof (held_last _ _ _ (rf_holds _ _ Hr)) as Hm.
  assert (0 <= last_seq 0 pre <= MAX_EVENT_SEQ) as Hp.
  { destruct (last_seq_elem 0 pre) as [->|(env & He & ->)]; [by vm_compute|].
    pose proof (held_range _ _ _ (rf_holds _ _ Hr) env) as Hg. rewrite Hl in Hg. specialize (Hg ltac:(set_solver)). lia. }
  unfold saturating_add_u32, u32_max, MAX_EVENT_SEQ in *. lia.
Qed.

(** Reading the projection brings the cache up to the end of the log. *)
Lemma projected_option_refines rd a st :
  refines rd a -> log_state (ls_log a) = Ok st ->
  projected_state_option rd = (Ok st, { rd with rd_cache := mkCache (last_seq 0 (ls_log a)) st }).
Proof.
  intros Hr Hst. pose proof (rf_holds _ _ Hr) as Hh. destruct (rf_cache _ _ Hr) as (pre & post & Hl & Hq & Hp & _).
  unfold projected_state_option. rewrite (cache_next _ _ Hr pre post) by done.
  assert (0 <= last_seq 0 pre) as H0.
  { destruct (last_seq_elem 0 pre) as [->|(env & He & ->)]; [done|].
    pose proof (held_range _ _ _ Hh env) as Hg. rewrite Hl in Hg. specialize (Hg ltac:(set_solver)). lia. }
  rewrite (list_events_from_log _ _ _ Hh) by lia. pose proof (held_sorted _ _ _ Hh) as Hs.
  rewrite Hl in Hs |- *. rewrite log_from_split; [|done|].
  2: { intros env He. pose proof (held_range _ _ _ Hh env) as Hg. rewrite Hl in Hg. specialize (Hg He). lia. }
  destruct (rd_cache rd) as [q c] eqn:Hc. cbn [pc_last_seq pc_state] in Hq, Hp. subst q.
  rewrite Hl in Hst. by rewrite (catch_up_log pre post c st).
Qed.

Lemma refines_cache rd a st :
  refines rd a -> log_state (ls_log a) = Ok st -> refines { rd with rd_cache := mkCache (last_seq 0 (ls_log a)) st } a.
Proof.
  intros [H1 H2 H3 H4 H5 H6] Hst. split; try done. exists (ls_log a), []. rewrite app_nil_r. auto.
Qed.

(** What an append is checked against is the state of the whole log: when the scan is
    skipped there is nothing after the cached prefix. *)
Lemma for_append_refines rd a n st :
  refines rd a -> ls_next a = Some n -> log_state (ls_log a) = Ok st ->
  exists rd', projected_state_for_append n rd = (Ok st, rd') /\ refines rd' a /\
    rd_run_id rd' = rd_run_id rd /\ rd_recent rd' = rd_recent rd /\ rd_db rd' = rd_db rd /\ rd_event_seq rd' = rd_event_seq rd.
Proof.
  intros Hr Hn Hst. unfold projected_state_for_append. case_match eqn:Hq.
  - exists rd. split; [|done]. f_equal. f_equal. destruct (rf_cache _ _ Hr) as (pre & post & Hl & Hc & Hp & _).
    rewrite (cache_next _ _ Hr pre post) in Hq by done. apply Z.eqb_eq in Hq.
    assert (post = []) as ->; [|rewrite app_nil_r in Hl; rewrite Hl in Hst; congruence].
    destruct post as [|env post]; [done|]. exfalso.
    destruct (rf_next _ _ Hr n Hn) as [_ Hlt]. specialize (Hlt env). rewrite Hl in Hlt. specialize (Hlt ltac:(set_solver)).
    pose proof (held_sorted _ _ _ (rf_holds _ _ Hr)) as Hs. rewrite Hl in Hs.
    destruct (last_seq_elem 0 pre) as [H0|(b & Hb & H0)]; rewrite H0 in Hq.
    + pose proof (held_range _ _ _ (rf_holds _ _ Hr) env) as Hg. rewrite Hl in Hg. specialize (Hg ltac:(set_solver)). lia.
    + pose proof (sorted_app_lt pre (env :: post) b env Hs Hb ltac:(set_solver)). lia.
  - rewrite (projected_option_refines rd a st) by done. eexists. split; [reflexivity|]. split; [by apply refines_cache|done].
Qed.

Lemma projected_refines rd a st :
  refines rd a -> log_state (ls_log a) = Ok st ->
  exists rd', projected_state rd = (match st with
      | Some s => Ok s
      | None => Err (Rejected (InvalidEvent ("run " +:+ rd_run_id rd +:+ " has no run.created event")))
      end, rd') /\ refines rd' a /\ rd_run_id rd' = rd_run_id rd.
Proof.
  intros Hr Hst. unfold projected_state. rewrite (projected_option_refines rd a st) by done.
  destruct st as [s|]; (eexists; split; [reflexivity|]; split; [by apply refines_cache|done]).
Qed.

(** *** Appending *)

Lemma push_recent_suffix log old recent env :
  log = old ++ recent -> exists old', log ++ [env] = old' ++ push_recent env recent.
Proof.
  intros ->. unfold push_recent. set (k := (length (recent ++ [env]) - DEFAULT_EVENT_TAIL_LIMIT)%nat).
  exists (old ++ take k (recent ++ [env])). by rewrite <- !app_assoc, take_drop.
Qed.

Lemma refines_committed rd a n e bytes now s :
  refines rd a -> ls_next a = Some n -> n <= MAX_EVENT_SEQ -> from_slice bytes = Some e ->
  log_state (ls_log a ++ [mkEnvelope n e]) = Ok (Some s) ->
  refines (install_in_memory_state_after_append (mkEnvelope n e) s
             { rd with rd_event_seq := Some (n + 1); rd_db := db_put (run_event_key (rd_run_id rd) n now) bytes (rd_db rd) })
          (mkLog (ls_log a ++ [mkEnvelope n e]) (Some (n + 1))).
Proof.
  intros Hr Hn Hm Hb Hs. destruct (rf_next _ _ Hr n Hn) as [H1 Hlt]. split.
  - cbn [ls_log]. by apply holds_put; [apply (rf_holds _ _ Hr)|lia| |].
  - by exists (Some s).
  - done.
  - cbn [ls_next ls_log]. intros q [= <-]. split; [lia|].
    intros env [He%Hlt|He%list_elem_of_singleton]%elem_of_app; [lia|subst; cbn; lia].
  - exists (ls_log a ++ [mkEnvelope n e]), []. rewrite app_nil_r, last_seq_snoc. auto.
  - destruct (rf_recent _ _ Hr) as [old Ho]. by apply (push_recent_suffix _ old).
Qed.

Lemma refines_reserved rd a n :
  refines rd a -> ls_next a = Some n ->
  refines { rd with rd_event_seq := Some (n + 1) } (mkLog (ls_log a) (Some (n + 1))).
Proof.
  intros Hr Hn. destruct (rf_next _ _ Hr n Hn) as [H1 Hlt]. destruct Hr as [K1 K2 K3 K4 K5 K6]. split; try done.
  cbn [ls_next ls_log]. intros q [= <-]. split; [lia|]. intros env He%Hlt. lia.
Qed.

Lemma append_locked_refines rd a e bytes now put_ok :
  refines rd a -> from_slice bytes = Some e ->
  exists rd', append_event_envelope_locked e bytes now put_ok rd = ((log_append e put_ok a).1, rd') /\
    refines rd' (log_append e put_ok a).2 /\ rd_run_id rd' = rd_run_id rd.
Proof.
  intros Hr Hb. unfold append_event_envelope_locked, log_append. rewrite (rf_seq _ _ Hr).
  destruct (ls_next a) as [n|] eqn:Hn; [|by exists rd].
  unfold next_event_seq. destruct (Z.ltb_spec MAX_EVENT_SEQ n) as [Hm|Hm]; [by exists rd|].
  destruct (rf_accepted _ _ Hr) as [st Hst].
  destruct (for_append_refines rd a n st Hr Hn Hst) as (rd1 & -> & Hr1 & Hid & _).
  rewrite (log_state_snoc (ls_log a) st) by done.
  pose proof (log_state_snoc (ls_log a) st (mkEnvelope n e) Hst) as Hs.
  destruct (apply_cached_projection_event st (mkEnvelope n e)) as [[u|x] [s|]]; try (by exists rd1).
  - unfold reserve_event_seq. rewrite Z.eqb_refl. destruct put_ok; eexists; (split; [reflexivity|]); cbn [snd].
    + split; [exact (refines_committed rd1 a n e bytes now s Hr1 Hn Hm Hb Hs)|done].
    + split; [by apply refines_reserved|done].
  - exfalso. apply log_state_Some in Hs as (s & [=] & _). by destruct (ls_log a).
Qed.

(** *** Listing *)

(** The page served from the recent events is the page the database would give. *)
Lemma list_refines rd a start limit :
  refines rd a -> 0 <= start ->
  list_events_from_with_limit rd start limit = Ok (take (S limit) (log_from start (ls_log a))).
Proof.
  intros Hr H0. pose proof (rf_holds _ _ Hr) as Hh. unfold list_events_from_with_limit, cached_events_from.
  destruct (rd_recent rd) as [|oldest recent] eqn:Hrec; [by apply list_page_log|].
  destruct (Z.ltb_spec start (env_seq oldest)) as [Hlt|Hge]; [by apply list_page_log|]. do 2 f_equal.
  destruct (rf_recent _ _ Hr) as [old Ho]. rewrite Hrec in Ho. rewrite Ho. unfold log_from. rewrite filterb_app, (filterb_none _ old); [done|]. intros b Hb. apply Z.leb_gt.
  pose proof (held_sorted _ _ _ Hh) as Hs. rewrite Ho in Hs.
  pose proof (sorted_app_lt old (oldest :: recent) b oldest Hs Hb ltac:(set_solver)). lia.
Qed.

(** A page read backwards is a window of sequence numbers. *)
Definition log_before (before : option Z) (limit : nat) (log : list EventEnvelope) : list EventEnvelope :=
  let end_ := Z.min (default u64_max before) (last_seq 0 log + 1) in
  let start := Z.max 1 (end_ - Z.of_nat (S limit)) in
  reverse (filterb (fun env => (start <=? env_seq env) && (env_seq env <? end_)) log).

Lemma window_length lo hi log :
  log_sorted log -> (forall env, env ∈ log -> lo <= env_seq env < hi) -> Z.of_nat (length log) <= Z.max 0 (hi - lo).
Proof.
  intros Hs. revert lo. induction Hs as [|env log Hs IH Hx]; intros lo Hw; cbn [length]; [lia|].
  rewrite Forall_forall in Hx. pose proof (Hw env ltac:(set_solver)).
  assert (Z.of_nat (length log) <= Z.max 0 (hi - (env_seq env + 1))) as Hle; [|lia].
  apply IH. intros b Hb. specialize (Hx b Hb). pose proof (Hw b ltac:(set_solver)). lia.
Qed.

Lemma list_before_refines rd a before limit :
  refines rd a -> (forall q, before = Some q -> 0 <= q) ->
  list_events_before_with_limit rd None before limit = Some (Ok (log_before before limit (ls_log a))).
Proof.
  intros Hr Hb. pose proof (rf_holds _ _ Hr) as Hh. pose proof (held_last _ _ _ Hh) as Hm.
  unfold list_events_before_with_limit, latest_event_seq. rewrite (held_recover _ _ _ Hh). cbn [mbind option_bind].
  unfold log_before. set (b := default u64_max before).
  assert (0 <= b) as Hb0 by (unfold b; destruct before; cbn; [by apply Hb|by vm_compute]).
  assert (Z.min (Z.min b (last_seq 0 (ls_log a) + 1)) (MAX_EVENT_SEQ + 1) = Z.min b (last_seq 0 (ls_log a) + 1)) as -> by lia.
  set (end_ := Z.min b _). assert (0 <= end_ <= MAX_EVENT_SEQ + 1) as He by (unfold end_; lia).
  do 2 f_equal. destruct (Z.leb_spec end_ 1) as [Hle|Hgt].
  { rewrite filterb_none; [done|]. intros env Hi%(held_range _ _ _ Hh). apply andb_false_iff. right. apply Z.ltb_ge. lia. }
  set (k := Z.of_nat (S limit)). assert (1 <= k) by (unfold k; lia).
  assert (Z.min (Z.max (saturating_sub end_ k) 1) u32_max = Z.max 1 (end_ - k)) as ->
    by (unfold saturating_sub, u32_max, MAX_EVENT_SEQ in *; lia).
  set (start := Z.max 1 (end_ - k)). assert (1 <= start < end_) as Hst by (unfold start; lia).
  set (w := filterb _ (ls_log a)).
  assert (take (S limit) w = w) as Hw.
  { apply take_ge. apply Nat2Z.inj_le. fold k.
    pose proof (window_length start end_ w (filterb_sorted _ _ _ (held_sorted _ _ _ Hh))) as Hl.
    etrans; [apply Hl|unfold start; lia]. intros env [_ [?%Z.leb_le ?%Z.ltb_lt]%andb_true_iff]%filterb_elem. lia. }
  unfold list_range, is_some_and. assert (u32_max = 4294967295) as Hu by reflexivity. unfold MAX_EVENT_SEQ in He.
  rewrite (proj2 (Z.leb_le end_ u32_max)) by lia. cbn [andb].
  destruct (Z.leb_spec end_ MAX_EVENT_SEQ) as [Hlt|Hge].
  - rewrite (proj2 (Z.leb_gt end_ start)) by lia.
    rewrite (decode_events_take (S limit) _ w (scan_before_log _ _ _ Hh start end_ ltac:(lia) ltac:(lia))).
    cbn [result_bind]. by rewrite Hw.
  - assert (log_from start (ls_log a) = w) as Hf.
    { unfold log_from, w. apply filterb_ext. intros env Hi%(held_range _ _ _ Hh).
      rewrite (proj2 (Z.ltb_lt (env_seq env) end_)) by (unfold MAX_EVENT_SEQ in *; lia). by rewrite andb_true_r. }
    pose proof (list_page_log _ _ _ Hh start limit ltac:(lia)) as Hp. unfold list_page in Hp.
    rewrite Hp. cbn [result_bind]. by rewrite Hf, Hw.
Qed.

Lemma last_event_refines rd a : refines rd a -> last_event_seq rd = opt_filter (fun q => 0 <? q) (Some (last_seq 0 (ls_log a))).
Proof.
  intros Hr. pose proof (rf_holds _ _ Hr) as Hh. unfold last_event_seq. rewrite (held_next _ _ _ Hh).
  replace (last_seq 0 (ls_log a) + 1 - 1) with (last_seq 0 (ls_log a)) by lia.
  destruct (rf_cache _ _ Hr) as (pre & post & Hl & -> & _ & [-> | ->]); [done|].
  rewrite app_nil_r in Hl. subst pre. cbn [opt_filter]. by destruct (0 <? last_seq 0 (ls_log a)).
Qed.

(** The events of a stage, when the identity fields need no escapes. *)
Definition log_stage (id : StageId) (log : list EventEnvelope) : list EventEnvelope :=
  filterb (fun env => matches_stage id (probe_of (env_event env))) log.

Definition plain_ids (log : list EventEnvelope) : Prop :=
  Forall (fun env => probe_plain (probe_of (env_event env)) = true) log.

Lemma stage_page_spec n id l log :
  decode_events l = Ok log -> plain_ids log -> stage_page n id l = Ok (take n (log_stage id log)).
Proof.
  revert n log. induction l as [|[q v] l IH]; intros n log; cbn [decode_events stage_page].
  { intros [= <-] _. by destruct n. }
  unfold decode_event. cbn [fst snd]. destruct (from_slice v) as [e|] eqn:He; [|done]. cbn [result_bind].
  destruct (decode_events l) as [es|]; [|done]. cbn [result_bind]. intros [= <-] [Hp Hps]%Forall_cons.
  destruct n as [|n]; [done|]. cbn [stage_page]. cbn [snd env_event] in *. rewrite (probe_slice_plain v e He Hp).
  unfold log_stage, filterb. cbn [List.filter env_event]. destruct (matches_stage id (probe_of e)).
  - cbn [result_bind]. by rewrite (IH n es eq_refl Hps).
  - apply (IH (S n) es eq_refl Hps).
Qed.

Lemma list_stage_refines rd a id start limit :
  refines rd a -> 0 <= start -> plain_ids (ls_log a) ->
  list_events_for_stage_from_with_limit rd id start limit = Ok (take (S limit) (log_stage id (log_from start (ls_log a)))).
Proof.
  intros Hr H0 Hp. apply stage_page_spec; [by apply (list_events_from_log _ _ _ (rf_holds _ _ Hr))|].
  unfold plain_ids in *. rewrite Forall_forall in Hp |- *. intros env [He _]%filterb_elem. auto.
Qed.

(** *** Opening *)

(** A store opened over a database that holds an accepted log, with or without the shared
    cache's projection. *)
Lemma build_refines d run_id log read_only snapshot st :
  holds d run_id log -> log_state log = Ok st ->
  (forall s q, snapshot = Some (s, q) -> st = Some s /\ q = last_seq 0 log) ->
  refines (build run_id d read_only snapshot)
          (mkLog log (if read_only then None else Some (last_seq 0 log + 1))).
Proof.
  intros Hh Hst Hsn. pose proof (held_last _ _ _ Hh) as Hm. split; cbn [ls_log ls_next].
  - done.
  - by exists st.
  - unfold build. cbn [rd_event_seq]. destruct read_only; [done|]. f_equal.
    destruct snapshot as [[s q]|]; [|by apply held_next]. destruct (Hsn s q eq_refl) as [_ ->].
    unfold saturating_add_u32, u32_max, MAX_EVENT_SEQ in *. lia.
  - intros n Hn. destruct read_only; [done|]. injection Hn as <-. split; [lia|]. intros env He.
    pose proof (last_seq_max log env (held_sorted _ _ _ Hh) He). lia.
  - destruct snapshot as [[s q]|]; unfold build; cbn [rd_cache pc_last_seq pc_state].
    + destruct (Hsn s q eq_refl) as [-> ->]. exists log, []. rewrite app_nil_r. auto.
    + exists [], log. auto.
  - exists log. unfold build. cbn [rd_recent]. by rewrite app_nil_r.
Qed.

Lemma warm_start d run_id log st :
  holds d run_id log -> log_state log = Ok st ->
  build_cached_projection d run_id = Ok ((fun s => (s, last_seq 0 log)) <$> st).
Proof.
  intros Hh Hst. unfold build_cached_projection. rewrite (holds_log _ _ _ Hh). unfold last_seq.
  destruct log as [|first rest]; [cbn in Hst; by injection Hst as <-|].
  destruct (log_state_Some (first :: rest) st) as (s & -> & ->); [done|done|].
  by destruct (last (first :: rest)) as [z|] eqn:Hl; [|apply last_None in Hl].
Qed.

(** ** Operations *)

(** What a client of the store can do.  [read_only] is the handle's flag, [now] the clock
    and [put_ok] whether the database accepts the write; [OpReopen] is a new process on
    the same database, whose shared cache was warmed or not. *)
Inductive StoreOp :=
| OpAppend (read_only : bool) (payload : Value) (now : Z) (put_ok : bool)
| OpAppendIf (read_only : bool) (payload : Value) (predicate : RunProjection -> bool) (now : Z) (put_ok : bool)
| OpState
| OpList (start : Z) (limit : nat)
| OpListBefore (before : option Z) (limit : nat)
| OpGet (seq : Z)
| OpLast
| OpReopen (warm : bool).

Inductive StoreReply :=
| Appended (r : result (EventEnvelope * RunProjection) Stop)
| AppendedIf (r : result (option Z) Stop)
| StateIs (r : result RunProjection Stop)
| Listed (r : result (list EventEnvelope) StoreError)
| ListedBefore (r : option (result (list EventEnvelope) StoreError))
| Got (r : result (option EventEnvelope) StoreError)
| LastIs (seq : option Z)
| Reopened.

Definition op_ok (op : StoreOp) : Prop :=
  match op with
  | OpList start _ => 0 <= start
  | OpListBefore (Some q) _ => 0 <= q
  | OpGet seq => 0 <= seq <= MAX_EVENT_SEQ
  | _ => True
  end.

Definition reopen (warm : bool) rd : RunDatabase Bytes :=
  let snapshot := if warm then match build_cached_projection (rd_db rd) (rd_run_id rd) with Ok s => s | Err _ => None end
                  else None in
  build (rd_run_id rd) (rd_db rd) false snapshot.

Definition store_op (op : StoreOp) rd : StoreReply * RunDatabase Bytes :=
  match op with
  | OpAppend ro payload now ok => let '(r, rd) := append_event_envelope ro payload now ok rd in (Appended r, rd)
  | OpAppendIf ro payload p now ok => let '(r, rd) := append_event_if ro payload p now ok rd in (AppendedIf r, rd)
  | OpState => let '(r, rd) := projected_state rd in (StateIs r, rd)
  | OpList start limit => (Listed (list_events_from_with_limit rd start limit), rd)
  | OpListBefore before limit => (ListedBefore (list_events_before_with_limit rd None before limit), rd)
  | OpGet seq => (Got (get_event (rd_db rd) (rd_run_id rd) seq), rd)
  | OpLast => (LastIs (last_event_seq rd), rd)
  | OpReopen warm => (Reopened, reopen warm rd)
  end.

(** The same on a log: no cache, no database, no clock. *)
Definition log_current (run_id : RunId) (a : LogStore) : result RunProjection Stop :=
  match log_state (ls_log a) with
  | Ok (Some s) => Ok s
  | Ok None => Err (Rejected (InvalidEvent ("run " +:+ run_id +:+ " has no run.created event")))
  | Err e => Err e
  end.

(** An append through a handle: the payload is checked, then decoded. *)
Definition log_decode (read_only : bool) (payload : Value) (run_id : RunId) : result (option RunEvent) Stop :=
  if read_only then Err (Rejected StoreReadOnly)
  else match validate_payload payload run_id with
       | Err e => Err (Rejected e)
       | Ok _ => Ok (event_of_payload payload)
       end.

Definition log_op (run_id : RunId) (op : StoreOp) (a : LogStore) : StoreReply * LogStore :=
  match op with
  | OpAppend ro payload _ ok =>
      match log_decode ro payload run_id with
      | Err e => (Appended (Err e), a)
      | Ok None => (Appended (Err (Rejected SerdeError)), a)
      | Ok (Some e) => let '(r, a) := log_append e ok a in (Appended r, a)
      end
  | OpAppendIf ro payload p _ ok =>
      match log_decode ro payload run_id, log_current run_id a with
      | Err e, _ => (AppendedIf (Err e), a)
      | Ok _, Err e => (AppendedIf (Err e), a)
      | Ok decoded, Ok s =>
          if negb (p s) then (AppendedIf (Ok None), a)
          else match decoded with
               | None => (AppendedIf (Err (Rejected SerdeError)), a)
               | Some e => match log_append e ok a with
                           | (Ok (env, _), a) => (AppendedIf (Ok (Some (env_seq env))), a)
                           | (Err e, a) => (AppendedIf (Err e), a)
                           end
               end
      end
  | OpState => (StateIs (log_current run_id a), a)
  | OpList start limit => (Listed (Ok (take (S limit) (log_from start (ls_log a)))), a)
  | OpListBefore before limit => (ListedBefore (Some (Ok (log_before before limit (ls_log a)))), a)
  | OpGet seq => (Got (Ok (find_first (fun env => env_seq env =? seq) (ls_log a))), a)
  | OpLast => (LastIs (opt_filter (fun q => 0 <? q) (Some (last_seq 0 (ls_log a)))), a)
  | OpReopen _ => (Reopened, mkLog (ls_log a) (Some (last_seq 0 (ls_log a) + 1)))
  end.

Lemma append_refines rd a ro payload now ok :
  refines rd a -> exists rd', store_op (OpAppend ro payload now ok) rd = ((log_op (rd_run_id rd) (OpAppend ro payload now ok) a).1, rd') /\
    refines rd' (log_op (rd_run_id rd) (OpAppend ro payload now ok) a).2 /\ rd_run_id rd' = rd_run_id rd.
Proof.
  intros Hr. cbn [store_op log_op]. unfold append_event_envelope, log_decode. destruct ro; [by exists rd|].
  destruct (validate_payload payload (rd_run_id rd)); [|by exists rd].
  destruct (event_of_payload payload) as [e|] eqn:He; [|by exists rd].
  destruct (append_locked_refines rd a e (payload_bytes payload) now ok Hr) as (rd' & -> & H1 & H2);
    [by apply from_slice_payload|]. exists rd'. by destruct (log_append e ok a).
Qed.

Lemma append_if_refines rd a ro payload p now ok :
  refines rd a -> exists rd', store_op (OpAppendIf ro payload p now ok) rd = ((log_op (rd_run_id rd) (OpAppendIf ro payload p now ok) a).1, rd') /\
    refines rd' (log_op (rd_run_id rd) (OpAppendIf ro payload p now ok) a).2 /\ rd_run_id rd' = rd_run_id rd.
Proof.
  intros Hr. cbn [store_op log_op]. unfold append_event_if, log_decode, log_current. destruct ro; [by exists rd|].
  destruct (validate_payload payload (rd_run_id rd)); [|by exists rd].
  destruct (rf_accepted _ _ Hr) as [st Hst]. destruct (projected_refines rd a st Hr Hst) as (rd1 & -> & Hr1 & Hid).
  rewrite Hst. destruct st as [s|]; [|by exists rd1]. destruct (negb (p s)); [by exists rd1|].
  destruct (event_of_payload payload) as [e|] eqn:He; [|by exists rd1].
  destruct (append_locked_refines rd1 a e (payload_bytes payload) now ok Hr1) as (rd' & -> & H1 & H2);
    [by apply from_slice_payload|]. exists rd'. rewrite H2, Hid. by destruct (log_append e ok a) as [[[env s']|x] a'].
Qed.

(** One operation. *)
Lemma op_refines rd a op :
  refines rd a -> op_ok op -> exists rd', store_op op rd = ((log_op (rd_run_id rd) op a).1, rd') /\
    refines rd' (log_op (rd_run_id rd) op a).2 /\ rd_run_id rd' = rd_run_id rd.
Proof.
  intros Hr Hok. destruct op as [ro payload now ok|ro payload p now ok| |start limit|before limit|seq| |warm].
  - by apply append_refines.
  - by apply append_if_refines.
  - cbn [store_op log_op]. destruct (rf_accepted _ _ Hr) as [st Hst].
    destruct (projected_refines rd a st Hr Hst) as (rd1 & -> & Hr1 & Hid). exists rd1. unfold log_current. rewrite Hst.
    by destruct st.
  - exists rd. cbn [store_op log_op fst snd]. by rewrite (list_refines rd a).
  - exists rd. cbn [store_op log_op fst snd]. rewrite (list_before_refines rd a); [done|done|]. intros q ->. exact Hok.
  - exists rd. cbn [store_op log_op fst snd]. by rewrite (get_event_log _ _ _ (rf_holds _ _ Hr)).
  - exists rd. cbn [store_op log_op fst snd]. by rewrite (last_event_refines rd a).
  - exists (reopen warm rd). split; [done|]. split; [|done]. destruct (rf_accepted _ _ Hr) as [st Hst].
    apply (build_refines _ _ _ false _ st (rf_holds _ _ Hr) Hst). destruct warm; [|done].
    rewrite (warm_start _ _ _ st (rf_holds _ _ Hr) Hst). intros s q Hs. destruct st; [|done]. by injection Hs as -> ->.
Qed.

Fixpoint store_ops (ops : list StoreOp) rd : list StoreReply * RunDatabase Bytes :=
  match ops with
  | [] => ([], rd)
  | op :: ops => let '(r, rd) := store_op op rd in let '(rs, rd) := store_ops ops rd in (r :: rs, rd)
  end.

Fixpoint log_ops (run_id : RunId) (ops : list StoreOp) (a : LogStore) : list StoreReply * LogStore :=
  match ops with
  | [] => ([], a)
  | op :: ops => let '(r, a) := log_op run_id op a in let '(rs, a) := log_ops run_id ops a in (r :: rs, a)
  end.

Lemma ops_refine ops rd a :
  refines rd a -> Forall op_ok ops ->
  exists rd', store_ops ops rd = ((log_ops (rd_run_id rd) ops a).1, rd') /\ refines rd' (log_ops (rd_run_id rd) ops a).2 /\
    rd_run_id rd' = rd_run_id rd.
Proof.
  intros Hr Hok. revert rd a Hr. induction Hok as [|op ops Ho _ IH]; intros rd a Hr; [by exists rd|].
  cbn [store_ops log_ops]. destruct (op_refines rd a op Hr Ho) as (rd1 & -> & Hr1 & Hid).
  destruct (log_op (rd_run_id rd) op a) as [r a1]. cbn [fst snd] in *. destruct (IH rd1 a1 Hr1) as (rd2 & -> & Hr2 & Hid2).
  rewrite Hid in *. exists rd2. by destruct (log_ops (rd_run_id rd) ops a1).
Qed.

(** The log only grows. *)
Lemma log_op_grows run_id op a : exists new, ls_log (log_op run_id op a).2 = ls_log a ++ new.
Proof.
  assert (forall e ok, exists new, ls_log (log_append e ok a).2 = ls_log a ++ new) as Ha.
  { intros e ok. unfold log_append. repeat (case_match; try (exists []; by rewrite app_nil_r)). cbn. by eexists. }
  destruct op as [ro payload now ok|ro payload p now ok| | | | | |]; cbn [log_op]; try (exists []; by rewrite app_nil_r).
  - destruct (log_decode ro payload run_id) as [[e|]|]; try (exists []; by rewrite app_nil_r).
    destruct (Ha e ok) as [new Hn]. exists new. by destruct (log_append e ok a).
  - destruct (log_decode ro payload run_id) as [d|]; [|exists []; by rewrite app_nil_r].
    destruct (log_current run_id a) as [s|]; [|exists []; by rewrite app_nil_r].
    destruct (negb (p s)); [exists []; by rewrite app_nil_r|]. destruct d as [e|]; [|exists []; by rewrite app_nil_r].
    destruct (Ha e ok) as [new Hn]. exists new. by destruct (log_append e ok a) as [[[env s']|x] a'].
Qed.

Lemma log_ops_grow run_id ops a : exists new, ls_log (log_ops run_id ops a).2 = ls_log a ++ new.
Proof.
  revert a. induction ops as [|op ops IH]; intros a; [exists []; by rewrite app_nil_r|]. cbn [log_ops].
  destruct (log_op_grows run_id op a) as [new Hn]. destruct (log_op run_id op a) as [r a1]. cbn [snd] in Hn.
  destruct (IH a1) as [new' Hn']. destruct (log_ops run_id ops a1) as [rs a2]. cbn [snd] in *.
  exists (new ++ new'). by rewrite Hn', Hn, app_assoc.
Qed.

(** C3: the run store refines an event log.  A client of a store opened on a database
    that holds an accepted log cannot tell it from the log itself with a sequence
    counter: whatever sequence of appends, conditional appends, state reads, page reads
    (forwards and backwards), lookups and restarts it performs, with writes that fail at any point, every reply
    (errors included) is the one computed from the log alone. *)
Theorem store_refines_log d run_id log st ops :
  holds d run_id log -> log_state log = Ok st -> Forall op_ok ops ->
  (store_ops ops (build run_id d false None)).1 = (log_ops run_id ops (mkLog log (Some (last_seq 0 log + 1)))).1.
Proof.
  intros Hh Hst Hok.
  destruct (ops_refine ops (build run_id d false None) (mkLog log (Some (last_seq 0 log + 1)))) as (rd & Ho & _); [|done|].
  - by apply (build_refines d run_id log false None st).
  - by rewrite Ho.
Qed.

(** C5: nothing committed is lost, and every restart can replay.  After any sequence of
    operations the database still holds the log it was opened with, followed by the new
    events; replaying it at startup succeeds, and gives the projection the running store
    reports and the sequence number of its last event. *)
Theorem restart_recovers d run_id log st ops :
  holds d run_id log -> log_state log = Ok st -> Forall op_ok ops ->
  let rd := (store_ops ops (build run_id d false None)).2 in
  exists new st', list_events_from (rd_db rd) run_id 1 = Ok (log ++ new) /\
    build_cached_projection (rd_db rd) run_id = Ok ((fun s => (s, last_seq 0 (log ++ new))) <$> st') /\
    (projected_state_option rd).1 = Ok st' /\ (log ++ new <> [] -> is_Some st').
Proof.
  intros Hh Hst Hok. cbn zeta. set (a := mkLog log (Some (last_seq 0 log + 1))).
  destruct (ops_refine ops (build run_id d false None) a) as (rd & Ho & Hr & Hid); [|done|].
  { by apply (build_refines d run_id log false None st). }
  rewrite Ho. cbn [snd]. change (rd_run_id (build run_id d false None)) with run_id in *.
  destruct (log_ops_grow run_id ops a) as [new Hn]. pose proof (rf_holds _ _ Hr) as Hh'. rewrite Hid, Hn in Hh'. cbn [ls_log a] in Hh'.
  destruct (rf_accepted _ _ Hr) as [st' Hst']. exists new, st'. split; [apply (holds_log _ _ _ Hh')|]. split.
  - apply warm_start; [done|]. by rewrite Hn in Hst'.
  - split; [by rewrite (projected_option_refines rd _ st' Hr Hst')|]. intros Hne. rewrite Hn in Hst'.
    destruct (log_state_Some _ _ Hne Hst') as (s & -> & _). by eexists.
Qed.
End refinement.

(** ** An instance *)

(** Stored payloads are read back as they are; the events of three names. *)
Definition sample_event_of (v : Value) : option RunEvent :=
  match v with
  | JObject obj =>
      match assoc "event" obj with
      | Some (JString "run.created") => Some (env_event sample_created)
      | Some (JString "run.runnable") => Some (env_event (sample_env 2 None BRunRunnable))
      | Some (JString "run.running") => Some (env_event (sample_env 3 None BRunRunning))
      | _ => None
      end
  | _ => None
  end.

#[export, refine] Instance sample_codec : Codec Value := {|
  event_of_payload := sample_event_of; payload_bytes := fun v => v; from_slice := sample_event_of;
  probe_slice := fun v => probe_of <$> sample_event_of v; debug_string := fun s => s; debug_run_id := fun s => s |}.
Proof.
  - done.
  - cbn. by intros b e -> _.
Defined.

Definition sample_run : RunId := "01JT56VE4Z5NZ814GZN2JZD65A".

Definition sample_payload (name : string) : Value :=
  JObject [("id", JString "1"); ("ts", JString "t"); ("run_id", JString sample_run); ("event", JString name)].

Definition empty_db : Db Value := (∅ : gmap string Value).

Lemma empty_holds : holds empty_db sample_run [].
Proof.
  split; [reflexivity| |vm_compute; reflexivity]. split.
  - intros k v H. by apply (lookup_empty_Some k v) in H.
  - intros seq ms ms' _ [v Hv]. by apply (lookup_empty_Some _ v) in Hv.
Qed.

(** A run is created, a write fails and is retried, a refused event and a restart. *)
Definition sample_ops : list StoreOp :=
  [OpAppend false (sample_payload "run.created") 10 true;
   OpAppend false (sample_payload "run.runnable") 20 false;
   OpAppendIf false (sample_payload "run.runnable") (fun s => bool_decide (rp_status s = RsSubmitted)) 30 true;
   OpAppend false (sample_payload "run.running") 40 true;
   OpList 2 10; OpReopen true; OpList 2 10; OpListBefore None 4; OpGet 3; OpLast; OpState].

Lemma sample_ops_ok : Forall op_ok sample_ops.
Proof. repeat (constructor; [vm_compute; first [exact I|discriminate|split; discriminate]|]). constructor. Qed.

Definition reply_kind (r : StoreReply) : string :=
  match r with
  | Appended (Ok (env, _)) => "appended " +:+ Z_to_string (env_seq env)
  | Appended (Err (Rejected SlateError)) => "write failed"
  | Appended (Err (Rejected (EventRejected _))) => "rejected"
  | AppendedIf (Ok (Some n)) => "appended if " +:+ Z_to_string n
  | Listed (Ok l) => "listed " +:+ Z_to_string (Z.of_nat (length l))
  | ListedBefore (Some (Ok l)) => "listed before " +:+ Z_to_string (Z.of_nat (length l))
  | Got (Ok (Some _)) => "got"
  | LastIs (Some 3) => "last"
  | StateIs (Ok s) => "state"
  | Reopened => "reopened"
  | _ => "?"
  end.

Lemma store_refines_log_witness :
  (store_ops sample_ops (build sample_run empty_db false None)).1 = (log_ops sample_run sample_ops (mkLog [] (Some 1))).1 /\
  reply_kind <$> (store_ops sample_ops (build sample_run empty_db false None)).1 =
    ["appended 1"; "write failed"; "appended if 3"; "rejected"; "listed 1"; "reopened"; "listed 1"; "listed before 2";
     "got"; "last"; "state"].
Proof.
  split; [|vm_compute; reflexivity].
  apply (store_refines_log empty_db sample_run [] None sample_ops).
  - exact empty_holds.
  - reflexivity.
  - exact sample_ops_ok.
Defined.

Lemma restart_recovers_witness :
  exists new st', list_events_from (rd_db (store_ops sample_ops (build sample_run empty_db false None)).2) sample_run 1 = Ok new /\
    env_seq <$> new = [1; 3] /\
    build_cached_projection (rd_db (store_ops sample_ops (build sample_run empty_db false None)).2) sample_run =
      Ok ((fun s => (s, 3)) <$> st').
Proof.
  destruct (restart_recovers empty_db sample_run [] None sample_ops) as (new & st' & H1 & H2 & _).
  - exact empty_holds.
  - reflexivity.
  - exact sample_ops_ok.
  - exists new, st'. cbn [app] in H1, H2. split; [exact H1|].
    assert (env_seq <$> new = [1; 3]) as Hs.
    { change (from_option (fun l => env_seq <$> l) [] (Some new) = [1; 3]).
      change (Some new) with (match Ok (E := StoreError) new with Ok l => Some l | Err _ => None end).
      rewrite <- H1. vm_compute. reflexivity. }
    split; [exact Hs|]. rewrite H2. unfold last_seq. rewrite <- fmap_last, Hs. reflexivity.
Defined.

(** A page read backwards is a window of sequence numbers, not of events: after a failed
    write left a gap, the page before the newest event holds one event where two exist
    and two fit, as if there were no older ones. *)
Lemma gap_hides_older_events :
  let rd := (store_ops [OpAppend false (sample_payload "run.created") 10 true;
                        OpAppend false (sample_payload "run.runnable") 20 false;
                        OpAppend false (sample_payload "run.runnable") 30 true]
               (build sample_run empty_db false None)).2 in
  (exists l, list_events_from_with_limit rd 1 1 = Ok l /\ env_seq <$> l = [1; 3]) /\
  exists l, list_events_before_with_limit rd None None 1 = Some (Ok l) /\ env_seq <$> l = [3].
Proof. split; (eexists; split; [vm_compute; reflexivity|vm_compute; reflexivity]). Qed.
