(* ===== verification/Watch.v ===== *)
(** * Watching the events of a run (fabro-store/src/slate/run_store.rs)

    [watch_events_from] subscribes to the broadcast channel of the run, then copies
    the recent events, then forwards what it receives, skipping numbers it has already
    passed on.  It runs concurrently with appends, each of which first pushes the
    event on the recent events and then broadcasts it.  The steps of both sides are
    interleaved here in every order.

    The broadcast channel is tokio's: it keeps its last [CHANNEL_CAPACITY] values
    for a receiver, and a receiver that is slower loses the oldest. *)

From S2P Require Import Prelude RustStr RustNum GraphTypes Context Outcome Lint.
From S2P Require Import StageIds RunStatus EventKeys EventScan Timing Billing Todos Events Projection Reducer.
From S2P Require Import ReducerProps RunStore RunStoreProps.
From coqutil Require Import Datatypes.RecordSetters.
Import OCamlLikeNotations.
Local Open Scope Z_scope.

Local Arguments log_from : simpl never.

(** [broadcast::channel(DEFAULT_EVENT_TAIL_LIMIT.max(16))]. *)
Definition CHANNEL_CAPACITY : nat := Nat.max DEFAULT_EVENT_TAIL_LIMIT 16.

Inductive WatchPhase := WatchIdle | WatchSubscribed | WatchForwarding.

Record WatchState := mkWatch {
  wt_start : Z;
  wt_recent : list EventEnvelope;
  wt_unsent : option EventEnvelope; (* pushed on the recent events, not broadcast yet *)
  wt_phase : WatchPhase;
  wt_queue : list EventEnvelope; (* what the receiver has not read *)
  wt_next_seq : Z;
  wt_sent : list EventEnvelope; (* what was passed on *)
  wt_log : list EventEnvelope; (* every event installed so far *)
  wt_missed : list EventEnvelope; (* asked for, but no longer recent when they were copied *)
  wt_lagged : bool (* the receiver lost a value *)
}.

Definition watch_new (start : Z) (log recent : list EventEnvelope) : WatchState :=
  mkWatch start recent None WatchIdle [] start [] log [] false.

(** One event passed on. *)
Definition forward (env : EventEnvelope) (w : WatchState) : WatchState :=
  { w with wt_next_seq := saturating_add_u32 (env_seq env) 1; wt_sent := wt_sent w ++ [env] }.

Inductive WatchAction :=
| InstallPush (env : EventEnvelope)
| InstallSend
| WatchSubscribe
| WatchCopy
| WatchReceive.

Definition watch_step (act : WatchAction) (w : WatchState) : option WatchState :=
  match act, wt_unsent w, wt_phase w with
  | InstallPush env, None, _ =>
      if (last_seq 0 (wt_log w) <? env_seq env) && (env_seq env <=? MAX_EVENT_SEQ)
      then Some { w with wt_recent := push_recent env (wt_recent w); wt_unsent := Some env; wt_log := wt_log w ++ [env] }
      else None
  | InstallSend, Some env, WatchIdle => Some { w with wt_unsent := None }
  | InstallSend, Some env, _ =>
      let queue := wt_queue w ++ [env] in
      let over := (CHANNEL_CAPACITY <? length queue)%nat in
      Some { w with wt_unsent := None; wt_queue := if over then tail queue else queue; wt_lagged := wt_lagged w || over }
  | WatchSubscribe, _, WatchIdle => Some { w with wt_phase := WatchSubscribed; wt_queue := [] }
  | WatchCopy, _, WatchSubscribed =>
      let cached := filterb (fun env => wt_start w <=? env_seq env) (wt_recent w) in
      let old := take (length (wt_log w) - length (wt_recent w)) (wt_log w) in
      Some (foldl (fun w env => forward env w)
              { w with wt_phase := WatchForwarding; wt_missed := log_from (wt_start w) old } cached)
  | WatchReceive, _, WatchForwarding =>
      match wt_queue w with
      | [] => None
      | env :: queue =>
          let w := { w with wt_queue := queue } in
          Some (if env_seq env <? wt_next_seq w then w else forward env w)
      end
  | _, _, _ => None
  end.

Inductive watched (start : Z) (log recent : list EventEnvelope) : WatchState -> Prop :=
| watched_new : watched start log recent (watch_new start log recent)
| watched_step act w w' : watched start log recent w -> watch_step act w = Some w' -> watched start log recent w'.

Fixpoint watch_run (acts : list WatchAction) (w : WatchState) : option WatchState :=
  match acts with
  | [] => Some w
  | act :: acts => w' ← watch_step act w; watch_run acts w'
  end.

(** ** The invariant *)

Definition pending (w : WatchState) : list EventEnvelope := wt_queue w ++ option_list (wt_unsent w).

Record watch_ok (w : WatchState) : Prop := {
  wo_sorted : log_sorted (wt_log w);
  wo_range : forall env, env ∈ wt_log w -> 1 <= env_seq env <= MAX_EVENT_SEQ;
  wo_recent : exists old, wt_log w = old ++ wt_recent w;
  wo_unsent : forall env, wt_unsent w = Some env -> exists before, wt_log w = before ++ [env];
  wo_queue : forall env, env ∈ wt_queue w -> env ∈ wt_log w;
  wo_sent : forall env, env ∈ wt_sent w -> env ∈ wt_log w /\ wt_start w <= env_seq env < wt_next_seq w;
  wo_sent_sorted : log_sorted (wt_sent w);
  wo_next : wt_start w <= wt_next_seq w /\
            (wt_next_seq w = wt_start w \/ wt_next_seq w <= last_seq 0 (wt_log w) + 1);
  wo_empty : wt_recent w = [] -> pending w = [];
  wo_fresh : wt_phase w <> WatchForwarding -> wt_sent w = [] /\ wt_next_seq w = wt_start w
}.

Lemma log_sorted_snoc log env : log_sorted log -> last_seq 0 log < env_seq env -> log_sorted (log ++ [env]).
Proof.
  intros Hs Hlt. assert (forall a, a ∈ log -> env_seq a < env_seq env) as Ha.
  { intros a Ha. pose proof (last_seq_max log a Hs Ha). lia. }
  clear Hlt. induction Hs as [|x log Hs IH Hx]; [by repeat constructor|]. cbn [app]. constructor; [apply IH; set_solver|].
  apply Forall_app. split; [done|]. constructor; [|constructor]. apply Ha. set_solver.
Qed.

(** Passing an event on. *)
Lemma forward_ok env w :
  watch_ok w -> wt_phase w = WatchForwarding -> env ∈ wt_log w -> wt_next_seq w <= env_seq env -> watch_ok (forward env w).
Proof.
  intros [H1 H2 H3 H4 H5 H6 H7 H8 He H9] Hp Hin Hle. pose proof (H2 env Hin) as Hr.
  assert (saturating_add_u32 (env_seq env) 1 = env_seq env + 1) as Hq
    by (unfold saturating_add_u32, u32_max, MAX_EVENT_SEQ in *; lia).
  pose proof (last_seq_max _ _ H1 Hin) as Hm. unfold forward. set (n := saturating_add_u32 (env_seq env) 1) in *. clearbody n.
  destruct w. cbn in *. unfold constant. split; cbn; try done.
  - intros a [Ha|Ha%list_elem_of_singleton]%elem_of_app; [apply H6 in Ha as [Ha Hb]; split; [done|lia]|subst a; split; [done|lia]].
  - apply log_sorted_snoc; [done|]. destruct (last_seq_elem 0 wt_sent0) as [->|(a & Ha & ->)]; [lia|].
    apply H6 in Ha as [_ Ha]. lia.
  - split; [lia|right; lia].
Qed.

Lemma forward_all w cached :
  foldl (fun w env => forward env w) w cached =
  { w with wt_next_seq := from_option (fun env => saturating_add_u32 (env_seq env) 1) (wt_next_seq w) (last cached);
           wt_sent := wt_sent w ++ cached }.
Proof.
  induction cached as [|env cached IH] using rev_ind; [destruct w; cbn; by rewrite app_nil_r|].
  rewrite foldl_snoc, IH, last_snoc. destruct w. cbn. unfold constant, forward. cbn. unfold constant. by rewrite <- app_assoc.
Qed.

(** The events copied are in order and not passed on yet. *)
Lemma forward_all_ok cached w :
  watch_ok w -> wt_phase w = WatchForwarding -> log_sorted cached ->
  (forall env, env ∈ cached -> env ∈ wt_log w /\ wt_next_seq w <= env_seq env) ->
  watch_ok (foldl (fun w env => forward env w) w cached).
Proof.
  intros Hw Hp Hs. revert w Hw Hp. induction Hs as [|env cached Hs IH Hx]; intros w Hw Hp Hc; [done|]. cbn [foldl].
  destruct (Hc env ltac:(set_solver)) as [Hin Hle]. pose proof (wo_range w Hw env Hin) as Hr.
  apply IH; [by apply forward_ok|by destruct w|]. intros b Hb. destruct (Hc b ltac:(set_solver)) as [Hbi _].
  rewrite Forall_forall in Hx. specialize (Hx b Hb). split; [by destruct w|].
  change (saturating_add_u32 (env_seq env) 1 <= env_seq b). unfold saturating_add_u32. lia.
Qed.

Lemma push_recent_nonempty env recent : push_recent env recent <> [].
Proof.
  unfold push_recent. rewrite length_app. cbn [length]. intros H%(f_equal length). rewrite length_drop, length_app in H.
  cbn [length] in H. unfold DEFAULT_EVENT_TAIL_LIMIT in H. lia.
Qed.

Lemma push_ok env w :
  watch_ok w -> wt_unsent w = None -> last_seq 0 (wt_log w) < env_seq env -> env_seq env <= MAX_EVENT_SEQ ->
  0 <= last_seq 0 (wt_log w) ->
  watch_ok { w with wt_recent := push_recent env (wt_recent w); wt_unsent := Some env; wt_log := wt_log w ++ [env] }.
Proof.
  intros [H1 H2 [old H3] H4 H5 H6 H7 H8 He H9] Hu Hlt Hm H0. pose proof (log_sorted_snoc _ _ H1 Hlt) as Hs.
  pose proof (push_recent_suffix _ old _ env H3) as Hrec. pose proof (push_recent_nonempty env (wt_recent w)) as Hne.
  assert (last_seq 0 (wt_log w) <= last_seq 0 (wt_log w ++ [env])) as Hl by (rewrite last_seq_snoc; lia).
  destruct w. cbn in *. unfold constant. split; cbn; try done.
  - intros a [Ha|Ha%list_elem_of_singleton]%elem_of_app; [by apply H2|subst a; lia].
  - intros a [= <-]. by eexists.
  - intros a Ha%H5. set_solver.
  - intros a Ha%H6. set_solver.
  - split; [lia|]. destruct H8 as [_ [H8|H8]]; [by left|right]. lia.
Qed.

Lemma last_nonneg w : watch_ok w -> 0 <= last_seq 0 (wt_log w).
Proof.
  intros Hw. destruct (last_seq_elem 0 (wt_log w)) as [->|(a & Ha & ->)]; [done|].
  pose proof (wo_range w Hw a Ha). lia.
Qed.

Lemma send_ok env w queue lagged :
  watch_ok w -> wt_unsent w = Some env -> (forall a, a ∈ queue -> a ∈ wt_queue w ++ [env]) ->
  watch_ok { w with wt_unsent := None; wt_queue := queue; wt_lagged := lagged }.
Proof.
  intros [H1 H2 H3 H4 H5 H6 H7 H8 He H9] Hu Hq. destruct (H4 env Hu) as [before Hbf]. assert (env ∈ wt_log w) as H4e by (rewrite Hbf; set_solver).
  assert (forall a, a ∈ queue -> a ∈ wt_log w) as Hin by (intros a [Ha%H5|Ha%list_elem_of_singleton]%Hq%elem_of_app; by subst || done).
  assert (wt_recent w = [] -> queue = []) as Hemp.
  { intros Hr. specialize (He Hr). unfold pending in He. rewrite Hu in He. by destruct (wt_queue w). }
  destruct w. cbn in *. unfold constant. split; cbn; try done. intros Hr. unfold pending. cbn. rewrite Hemp by done. done.
Qed.

Lemma recent_copy_ok w :
  watch_ok w -> wt_phase w = WatchSubscribed -> log_sorted (log_from (wt_start w) (wt_recent w)) /\
  forall env, env ∈ log_from (wt_start w) (wt_recent w) -> env ∈ wt_log w /\ wt_next_seq w <= env_seq env.
Proof.
  intros Hw Hp. destruct (wo_recent w Hw) as [old Hl]. pose proof (wo_sorted w Hw) as Hs. rewrite Hl in Hs.
  destruct (wo_fresh w Hw) as [_ ->]; [by rewrite Hp|]. split.
  - apply filterb_sorted. clear - Hs. induction old as [|x old IH]; [done|]. cbn in Hs. apply StronglySorted_inv in Hs as [Hs _]. auto.
  - intros env [Hin Hle%Z.leb_le]%filterb_elem. split; [rewrite Hl; set_solver|done].
Qed.

Lemma watch_step_ok act w w' : watch_ok w -> watch_step act w = Some w' -> watch_ok w'.
Proof.
  intros Hw. unfold watch_step. destruct act as [env| | | |].
  - destruct (wt_unsent w) eqn:Hu; [done|]. case_match eqn:Hc; [|done]. intros [= <-].
    apply andb_true_iff in Hc as [Hlt%Z.ltb_lt Hm%Z.leb_le]. apply push_ok; [done..|by apply last_nonneg].
  - destruct (wt_unsent w) as [env|] eqn:Hu; [|done]. destruct (wt_phase w) eqn:Hp; intros [= <-].
    + assert (wt_recent w = [] -> wt_queue w = []) as Hemp.
      { intros Hr. pose proof (wo_empty w Hw Hr) as He. unfold pending in He. rewrite Hu in He. by destruct (wt_queue w). }
      destruct Hw as [H1 H2 H3 H4 H5 H6 H7 H8 He H9]. destruct w. cbn in *. unfold constant. split; cbn; try done.
      intros Hr. unfold pending. cbn. by rewrite Hemp.
    + apply (send_ok env); [done..|]. intros a. case_match; [|done]. destruct (wt_queue w); cbn; set_solver.
    + apply (send_ok env); [done..|]. intros a. case_match; [|done]. destruct (wt_queue w); cbn; set_solver.
  - assert (wt_phase w = WatchIdle -> watch_ok { w with wt_phase := WatchSubscribed; wt_queue := [] }) as Hsub.
    { intros Hp. destruct Hw as [H1 H2 H3 H4 H5 H6 H7 H8 He H9]. destruct w. cbn in *. unfold constant. split; cbn; try done.
      - intros a Ha. by apply elem_of_nil in Ha.
      - intros Hr. specialize (He Hr). unfold pending in *. cbn in *. by apply app_nil in He as [_ ->].
      - intros _. apply H9. by rewrite Hp. }
    destruct (wt_phase w) eqn:Hp; [|by destruct (wt_unsent w)..]. destruct (wt_unsent w); intros [= <-]; by apply Hsub.
  - destruct (wt_phase w) eqn:Hp; [by destruct (wt_unsent w)| |by destruct (wt_unsent w)].
    destruct (recent_copy_ok w Hw Hp) as [Hs Hc]. pose proof (wo_fresh w Hw) as Hf. rewrite Hp in Hf. specialize (Hf ltac:(done)).
    destruct (wt_unsent w) eqn:Hu; intros [= <-]; apply forward_all_ok; try done;
      destruct Hw as [H1 H2 H3 H4 H5 H6 H7 H8 He H9]; destruct w; cbn in *; unfold constant; by split.
  - destruct (wt_phase w) eqn:Hp; [by destruct (wt_unsent w)..|]. destruct (wt_queue w) as [|env queue] eqn:Hq; [by destruct (wt_unsent w)|].
    assert (watch_ok { w with wt_queue := queue }) as Hw'.
    { destruct Hw as [H1 H2 H3 H4 H5 H6 H7 H8 He H9]. destruct w. cbn in *. unfold constant. subst. split; cbn; try done.
      - intros a Ha. apply H5. set_solver.
      - intros Hr. specialize (He Hr). unfold pending in He. by cbn in He. }
    destruct (wt_unsent w); intros [= <-]; case_match eqn:Hc; try done; apply forward_ok; try done;
      try (by destruct w); try (apply Z.ltb_ge in Hc; by destruct w).
    all: change (env ∈ wt_log w); apply (wo_queue w Hw); rewrite Hq; set_solver.
Qed.

(** ** Nothing is lost *)

(** While the receiver keeps up, what it has not read is the end of the log, and what
    was asked for is what was missed, passed on, or is still to come. *)
Record watch_complete (w : WatchState) : Prop := {
  wc_pending : wt_phase w <> WatchIdle -> exists before, wt_log w = before ++ pending w;
  wc_sent : wt_phase w = WatchForwarding ->
    log_from (wt_start w) (wt_log w) = wt_missed w ++ wt_sent w ++ log_from (wt_next_seq w) (pending w)
}.

Lemma log_from_app n a b : log_from n (a ++ b) = log_from n a ++ log_from n b.
Proof. apply filterb_app. Qed.

Lemma log_from_later n n' log : (forall env, env ∈ log -> n' <= env_seq env) -> n <= n' -> log_from n log = log.
Proof. intros Hl Hn. apply filterb_all. intros env He%Hl. apply Z.leb_le. lia. Qed.

Lemma pending_sorted w : watch_ok w -> (exists before, wt_log w = before ++ pending w) -> log_sorted (pending w).
Proof.
  intros Hw [before Hl]. pose proof (wo_sorted w Hw) as Hs. rewrite Hl in Hs. clear Hl.
  induction before as [|x before IH]; [done|]. cbn in Hs. apply StronglySorted_inv in Hs as [Hs _]. auto.
Qed.

Lemma push_complete env w :
  watch_ok w -> wt_unsent w = None -> last_seq 0 (wt_log w) < env_seq env -> watch_complete w ->
  watch_complete { w with wt_recent := push_recent env (wt_recent w); wt_unsent := Some env; wt_log := wt_log w ++ [env] }.
Proof.
  intros Hw Hu Hlt [C1 C2]. pose proof (wo_next w Hw) as [Hn1 Hn2].
  assert (log_from (wt_next_seq w) [env] = log_from (wt_start w) [env]) as Hone.
  { unfold log_from, filterb. cbn [List.filter]. destruct Hn2 as [->|Hle]; [done|].
    rewrite (proj2 (Z.leb_le (wt_next_seq w) _)), (proj2 (Z.leb_le (wt_start w) _)) by lia. done. }
  unfold pending in *. rewrite Hu in *. cbn [option_list] in *. rewrite app_nil_r in *.
  destruct w. cbn in *. unfold constant in *. split; cbn.
  - intros Hp. destruct (C1 Hp) as [before ->]. exists before. by rewrite <- app_assoc.
  - intros Hp. unfold pending. cbn. by rewrite !log_from_app, C2, Hone, <- !app_assoc.
Qed.

(** Copying the recent events: what is pending is among them, or older. *)
Lemma copy_complete w :
  watch_ok w -> wt_phase w = WatchSubscribed -> (exists before, wt_log w = before ++ pending w) ->
  forall w', watch_step WatchCopy w = Some w' ->
  wt_phase w' = WatchForwarding /\ wt_lagged w' = wt_lagged w /\ watch_complete w'.
Proof.
  intros Hw Hp Hpend w'. unfold watch_step. rewrite Hp.
  destruct (wo_recent w Hw) as [old Hl]. destruct (wo_fresh w Hw) as [Hs Hn]; [by rewrite Hp|].
  assert (take (length (wt_log w) - length (wt_recent w)) (wt_log w) = old) as Hold.
  { rewrite Hl, length_app. replace (length old + length (wt_recent w) - length (wt_recent w))%nat with (length old) by lia. apply take_app_length. }
  intros Hw'. assert (Some (foldl (fun w env => forward env w)
     { w with wt_phase := WatchForwarding; wt_missed := log_from (wt_start w) old } (log_from (wt_start w) (wt_recent w))) = Some w') as [= <-].
  { rewrite <- Hold. by destruct (wt_unsent w). }
  rewrite forward_all. set (c := log_from (wt_start w) (wt_recent w)).
  assert (log_from (from_option (fun env => saturating_add_u32 (env_seq env) 1) (wt_start w) (last c)) (pending w) = []) as Hnone.
  { apply filterb_none. intros env Hin. apply Z.leb_gt. pose proof (wo_sorted w Hw) as Hsort.
    assert (env ∈ wt_log w) as Henv by (destruct Hpend as [before ->]; set_solver).
    pose proof (wo_range w Hw env Henv) as Hr. rewrite Hl in Henv, Hsort.
    destruct (last c) as [z|] eqn:Hz; cbn [from_option].
    - assert (env_seq env <= env_seq z) as Hle; [|unfold saturating_add_u32, u32_max, MAX_EVENT_SEQ in *; lia].
      assert (z ∈ c) as [Hzr Hzs%Z.leb_le]%filterb_elem by (by apply last_Some_elem_of).
      apply elem_of_app in Henv as [Ho|Hrec]; [pose proof (sorted_app_lt _ _ env z Hsort Ho Hzr); lia|].
      destruct (Z.le_gt_cases (wt_start w) (env_seq env)) as [Hge|]; [|lia].
      destruct (recent_copy_ok w Hw Hp) as [Hcs _]. pose proof (last_seq_max c env Hcs) as Hmax.
      unfold last_seq in Hmax. rewrite Hz in Hmax. apply Hmax. apply filterb_elem. split; [done|]. by apply Z.leb_le.
    - apply last_None in Hz. assert (forall a, a ∈ wt_recent w -> env_seq a < wt_start w) as Hlt.
      { intros a Ha. apply Z.nle_gt. intros Hle. assert (a ∈ c) as Hac by (apply filterb_elem; split; [done|by apply Z.leb_le]).
        rewrite Hz in Hac. by apply elem_of_nil in Hac. }
      apply elem_of_app in Henv as [Ho|Hrec]; [|auto].
      destruct (wt_recent w) as [|r rs] eqn:Hrec; [rewrite (wo_empty w Hw Hrec) in Hin; by apply elem_of_nil in Hin|].
      pose proof (sorted_app_lt old (r :: rs) env r Hsort Ho ltac:(set_solver)). specialize (Hlt r ltac:(set_solver)). lia. }
  unfold pending in *. destruct w. cbn in *. unfold constant in *. split; [done|]. split; [done|]. split; cbn; [done|].
  intros _. unfold pending. cbn. by rewrite Hn, Hs, Hnone, app_nil_r, Hl, log_from_app.
Qed.

Lemma receive_complete w w' :
  watch_ok w -> watch_complete w -> watch_step WatchReceive w = Some w' -> wt_lagged w' = wt_lagged w /\ watch_complete w'.
Proof.
  intros Hw [C1 C2] Hst. assert (wt_phase w = WatchForwarding) as Hp
    by (unfold watch_step in Hst; destruct (wt_phase w); [by destruct (wt_unsent w)..|done]).
  destruct (C1 ltac:(by rewrite Hp)) as [before Hb]. specialize (C2 Hp).
  pose proof (pending_sorted w Hw ltac:(by exists before)) as Hs. unfold watch_step in Hst. rewrite Hp in Hst.
  destruct (wt_queue w) as [|env queue] eqn:Hq; [by destruct (wt_unsent w)|].
  assert (pending w = env :: queue ++ option_list (wt_unsent w)) as Hpd by (unfold pending; by rewrite Hq).
  assert (1 <= env_seq env <= MAX_EVENT_SEQ) as Hr by (apply (wo_range w Hw); rewrite Hb, Hpd; set_solver).
  rewrite Hpd in Hs, C2, Hb. apply StronglySorted_inv in Hs as [_ Hx]. rewrite Forall_forall in Hx.
  set (rest := queue ++ option_list (wt_unsent w)) in *.
  assert (wt_log w = (before ++ [env]) ++ rest) as Hb' by (by rewrite <- app_assoc).
  assert (forall n, log_from n (env :: rest) = if n <=? env_seq env then env :: log_from n rest else log_from n rest) as Hcons by done.
  rewrite Hcons in C2. set (n := saturating_add_u32 (env_seq env) 1) in *.
  assert (n = env_seq env + 1) as Hne by (unfold n, saturating_add_u32, u32_max, MAX_EVENT_SEQ in *; lia).
  assert (Some (if env_seq env <? wt_next_seq w then { w with wt_queue := queue } else forward env { w with wt_queue := queue }) = Some w') as [= <-]
    by (by destruct (wt_unsent w)).
  destruct (Z.ltb_spec (env_seq env) (wt_next_seq w)) as [Hlt|Hge].
  - rewrite (proj2 (Z.leb_gt (wt_next_seq w) (env_seq env))) in C2 by lia. destruct w. cbn in *. unfold constant.
    split; [done|]. split; cbn; unfold pending; cbn; [intros _; by exists (before ++ [env])|done].
  - rewrite (proj2 (Z.leb_le (wt_next_seq w) (env_seq env))) in C2 by lia.
    rewrite (log_from_later _ n rest) in C2; [|intros a Ha%Hx; lia|lia].
    assert (log_from n rest = rest) as Hrest by (apply (log_from_later n n); [intros a Ha%Hx; lia|lia]).
    unfold forward. fold n. clearbody n. unfold rest in *. clear rest. destruct w. cbn in *. unfold constant. split; [done|].
    split; cbn; unfold pending; cbn; [intros _; by exists (before ++ [env])|]. intros _.
    by rewrite Hrest, C2, <- app_assoc.
Qed.

(** A value once lost stays lost. *)
Lemma lagged_stays act w w' : watch_step act w = Some w' -> wt_lagged w' = false -> wt_lagged w = false.
Proof.
  unfold watch_step. intros Hst Hl. repeat case_match; simplify_eq; try done; rewrite ?forward_all in Hl;
    destruct w; cbn in *; unfold constant in *; try done; by apply orb_false_iff in Hl as [-> _].
Qed.

Lemma send_complete env w w' :
  wt_unsent w = Some env -> watch_complete w -> watch_step InstallSend w = Some w' -> wt_lagged w' = false -> watch_complete w'.
Proof.
  intros Hu [C1 C2] Hst Hl. unfold watch_step in Hst. rewrite Hu in Hst.
  destruct (wt_phase w) eqn:Hp; injection Hst as <-.
  { split; destruct w; cbn in *; by rewrite Hp. }
  all: destruct (_ <? _)%nat; [destruct w; cbn in Hl; unfold constant in Hl; by rewrite orb_true_r in Hl|].
  all: unfold pending in *; rewrite Hu in *; destruct w; cbn in *; unfold constant; subst;
    split; cbn; unfold pending; cbn; rewrite ?app_nil_r; done.
Qed.

Lemma subscribe_complete w w' : watch_ok w -> watch_step WatchSubscribe w = Some w' -> watch_complete w'.
Proof.
  intros Hw Hst. assert (wt_phase w = WatchIdle /\ w' = { w with wt_phase := WatchSubscribed; wt_queue := [] }) as [Hp ->].
  { unfold watch_step in Hst. by destruct (wt_unsent w), (wt_phase w); simplify_eq. }
  pose proof (wo_unsent w Hw) as Hu. destruct w. cbn in *. unfold constant. split; cbn; [|done]. intros _.
  unfold pending. cbn. destruct wt_unsent0 as [env|]; [by apply Hu|]. exists wt_log0. by rewrite app_nil_r.
Qed.

Lemma watch_step_complete act w w' :
  watch_ok w -> (wt_lagged w = false -> watch_complete w) -> watch_step act w = Some w' ->
  wt_lagged w' = false -> watch_complete w'.
Proof.
  intros Hw Hc Hst Hl. specialize (Hc (lagged_stays act w w' Hst Hl)). destruct act as [env| | | |].
  - unfold watch_step in Hst. destruct (wt_unsent w) eqn:Hu; [done|]. case_match eqn:Hq; [|done]. injection Hst as <-.
    apply andb_true_iff in Hq as [Hlt%Z.ltb_lt _]. by apply push_complete.
  - destruct (wt_unsent w) as [env|] eqn:Hu; [by apply (send_complete env w w')|].
    unfold watch_step in Hst. by rewrite Hu in Hst.
  - by apply (subscribe_complete w w').
  - assert (wt_phase w = WatchSubscribed) as Hp
      by (unfold watch_step in Hst; by destruct (wt_unsent w), (wt_phase w)).
    apply (copy_complete w Hw Hp) in Hst; [by apply Hst|]. apply (wc_pending w Hc). by rewrite Hp.
  - by apply (receive_complete w w').
Qed.

Lemma watched_ok start log recent w :
  0 <= start -> log_sorted log -> (forall env, env ∈ log -> 1 <= env_seq env <= MAX_EVENT_SEQ) ->
  (exists old, log = old ++ recent) -> watched start log recent w ->
  watch_ok w /\ wt_start w = start /\ (wt_lagged w = false -> watch_complete w).
Proof.
  intros H0 Hs Hr Hold. induction 1 as [|act w w' _ (IH1 & IH2 & IH3) Hst].
  - split; [|by split]. split; try done; cbn; [set_solver| |constructor|split; [lia|by left]].
    intros env He. by apply elem_of_nil in He.
  - split; [by apply (watch_step_ok act w)|]. split; [|by apply (watch_step_complete act w)].
    rewrite <- IH2. clear - Hst. unfold watch_step in Hst.
    repeat case_match; simplify_eq; rewrite ?forward_all; by destruct w.
Qed.

(** C15: watching a run.  However the appends and the watcher interleave, what the
    watcher passes on is strictly increasing in sequence number, starts no earlier than
    asked and only has events of the run.  As long as it has not fallen behind the
    channel's capacity nothing is lost or repeated: the events from the requested number
    on are those that were no longer recent when it started, then what it has passed
    on, then what is still in the channel or about to be broadcast; when nothing is
    pending and the log was recent it has passed on exactly the requested events. *)
Theorem watch_events_exact start log recent w :
  0 <= start -> log_sorted log -> (forall env, env ∈ log -> 1 <= env_seq env <= MAX_EVENT_SEQ) ->
  (exists old, log = old ++ recent) -> watched start log recent w ->
  log_sorted (wt_sent w) /\ (forall env, env ∈ wt_sent w -> env ∈ wt_log w /\ start <= env_seq env) /\
  (wt_phase w = WatchForwarding -> wt_lagged w = false ->
     log_from start (wt_log w) = wt_missed w ++ wt_sent w ++ log_from (wt_next_seq w) (wt_queue w ++ option_list (wt_unsent w)) /\
     (wt_missed w = [] -> wt_queue w = [] -> wt_unsent w = None -> wt_sent w = log_from start (wt_log w))).
Proof.
  intros H0 Hs Hr Hold Hw. destruct (watched_ok start log recent w H0 Hs Hr Hold Hw) as (Hok & <- & Hc).
  split; [apply (wo_sent_sorted w Hok)|]. split.
  { intros env He%(wo_sent w Hok). destruct He as [He Hle]. split; [done|lia]. }
  intros Hp Hl. pose proof (wc_sent w (Hc Hl) Hp) as He. split; [exact He|]. intros Hm Hq Hu. rewrite He, Hm.
  unfold pending. rewrite Hq, Hu. cbn. by rewrite app_nil_r.
Qed.

(** ** A run of the watcher *)

Definition watch_log : list EventEnvelope := [sample_env 1 None BRunRunnable; sample_env 2 None BRunStarting].

(** An event is appended while the watcher starts, another one after. *)
Definition watch_actions : list WatchAction :=
  [InstallPush (sample_env 4 None BRunRunning); WatchSubscribe; InstallSend; WatchCopy; WatchReceive;
   InstallPush (sample_env 5 None BRunPaused); InstallSend; WatchReceive].

Lemma watch_run_watched start log recent acts w w' :
  watched start log recent w -> watch_run acts w = Some w' -> watched start log recent w'.
Proof.
  revert w. induction acts as [|act acts IH]; intros w Hw; cbn [watch_run]; [by intros [= <-]|].
  destruct (watch_step act w) as [w1|] eqn:Hs; [|done]. cbn. apply IH. by eapply watched_step.
Qed.

Lemma watch_events_exact_witness :
  exists w, watch_run watch_actions (watch_new 2 watch_log watch_log) = Some w /\
    wt_sent w = log_from 2 (wt_log w) /\ env_seq <$> wt_sent w = [2; 4; 5].
Proof.
  eexists. split; [vm_compute; reflexivity|]. split; [|vm_compute; reflexivity].
  apply (watch_events_exact 2 watch_log watch_log).
  - vm_compute. discriminate.
  - repeat constructor.
  - intros env [->|[->|H]%elem_of_cons]%elem_of_cons; [vm_compute; split; discriminate..|by apply elem_of_nil in H].
  - exists []. reflexivity.
  - apply (watch_run_watched 2 watch_log watch_log watch_actions (watch_new 2 watch_log watch_log)); [constructor|vm_compute; reflexivity].
  - reflexivity.
  - reflexivity.
  - reflexivity.
  - reflexivity.
  - reflexivity.
Defined.
