(* ===== verification/StageExec.v ===== *)
(** * Stage execution identity (fabro-workflow/src/stage_execution.rs)

    Each time a node's handler becomes observable in a run it gets the next ordinal of
    its node, and the stage [node@ordinal] is the key of its events.  The tracker that
    hands the ordinals out is not in the checkpoint: on resume it is rebuilt from the
    projection of the stored events.  The theorem shows that the stages of a resumed run
    never meet the stages already stored, that each node's are consecutive, and that the
    link to the execution a resumed one replaces is given once.

    The tracker's table is behind one mutex, so an operation is a step; the [Arc] of an
    execution is only read, so an execution is a value. *)

From S2P Require Import Prelude RustStr RustNum DecText GraphTypes Context StageIds EventScan Events Projection.
From coqutil Require Import Datatypes.RecordSetters.
Import OCamlLikeNotations.
Local Open Scope Z_scope.

Record StageExecution := mkExecution {
  ex_stage_id : StageId;
  ex_graph_visit : Z;
  ex_resumed_from : option StageId
}.

Record NodeExecutionState := mkNodeExec {
  nx_high_water : Z;
  nx_resumed_from : option StageId;
  nx_active : option StageExecution
}.

Definition NodeExecutionState_default : NodeExecutionState := mkNodeExec 0 None None.

(** The table of a seed and of a tracker. *)
Notation NodeExecutions := (gmap string NodeExecutionState).

(** The entry of a node, as [entry(node).or_default()] reads it. *)
Definition node_exec (t : NodeExecutions) (node : string) : NodeExecutionState :=
  default NodeExecutionState_default (t !! node).

(** ** The seed of a resumed run *)

(** The body of the loop over the stages of the projection: what it makes of the
    entry of the stage's node. *)
Definition seed_entry (checkpoint_seq : Z) (e : NodeExecutionState) (stage_id : StageId) (stage : StageProjection) : NodeExecutionState :=
  let e := { e with nx_high_water := Z.max (nx_high_water e) (sid_visit stage_id) } in
  if checkpoint_seq <? sg_first_event_seq stage then
    let is_latest := match nx_resumed_from e with
                     | None => true
                     | Some current => sid_visit current <? sid_visit stage_id
                     end in
    if is_latest then { e with nx_resumed_from := Some stage_id } else e
  else e.

Definition seed_stage (checkpoint_seq : Z) (nodes : NodeExecutions) (entry : StageId * StageProjection) : NodeExecutions :=
  let '(stage_id, stage) := entry in
  <[sid_node stage_id := seed_entry checkpoint_seq (node_exec nodes (sid_node stage_id)) stage_id stage]> nodes.

Definition seed_stages (checkpoint_seq : Z) (stages : list (StageId * StageProjection)) : NodeExecutions :=
  foldl (seed_stage checkpoint_seq) ∅ stages.

Definition seed_from_projection (projection : RunProjection) (checkpoint_seq : Z) : NodeExecutions :=
  seed_stages checkpoint_seq (map_to_list (rp_stages projection)).

(** ** The tracker *)

Definition tracker_begin_node (t : NodeExecutions) (node_id : string) : NodeExecutions :=
  match t !! node_id with
  | Some node => <[node_id := { node with nx_active := None }]> t
  | None => t
  end.

Definition tracker_active (t : NodeExecutions) (node_id : string) : option StageExecution :=
  node ← t !! node_id; nx_active node.

Definition reserve_locked (t : NodeExecutions) (node_id : string) (graph_visit : Z) : StageExecution * NodeExecutions :=
  let node := node_exec t node_id in
  let high_water := saturating_add_u32 (nx_high_water node) 1 in
  let execution := mkExecution (mkStageId node_id high_water) graph_visit (nx_resumed_from node) in
  (execution, <[node_id := mkNodeExec high_water None (Some execution)]> t).

Definition tracker_reserve (t : NodeExecutions) (node_id : string) (graph_visit : Z) : StageExecution * NodeExecutions :=
  reserve_locked t node_id graph_visit.

Definition reserve_detached (t : NodeExecutions) (node_id : string) (graph_visit : Z) : StageExecution * NodeExecutions :=
  let node := node_exec t node_id in
  let high_water := saturating_add_u32 (nx_high_water node) 1 in
  (mkExecution (mkStageId node_id high_water) graph_visit None,
   <[node_id := { node with nx_high_water := high_water }]> t).

Definition tracker_ensure (t : NodeExecutions) (node_id : string) (graph_visit : Z) : StageExecution * NodeExecutions :=
  match tracker_active t node_id with
  | Some execution => (execution, t)
  | None => reserve_locked t node_id graph_visit
  end.

(** ** Histories *)

Inductive TrackerOp :=
| TrBegin (node_id : string)
| TrReserve (node_id : string) (graph_visit : Z)
| TrDetached (node_id : string) (graph_visit : Z)
| TrEnsure (node_id : string) (graph_visit : Z).

(** What a step did: which execution it returned, and whether that was new. *)
Inductive TrackerEvent :=
| Cleared (node_id : string)
| Reserved (execution : StageExecution)
| Detached (execution : StageExecution)
| Reused (execution : StageExecution).

Definition tracker_step (t : NodeExecutions) (op : TrackerOp) : TrackerEvent * NodeExecutions :=
  match op with
  | TrBegin n => (Cleared n, tracker_begin_node t n)
  | TrReserve n v => let '(e, t') := tracker_reserve t n v in (Reserved e, t')
  | TrDetached n v => let '(e, t') := reserve_detached t n v in (Detached e, t')
  | TrEnsure n v =>
      let '(e, t') := tracker_ensure t n v in
      ((if tracker_active t n then Reused e else Reserved e), t')
  end.

Fixpoint run_tracker (t : NodeExecutions) (ops : list TrackerOp) : list TrackerEvent * NodeExecutions :=
  match ops with
  | [] => ([], t)
  | op :: ops =>
      let '(ev, t1) := tracker_step t op in
      let '(evs, t2) := run_tracker t1 ops in
      (ev :: evs, t2)
  end.

(** The new executions of a history, and those of the lifecycle among them (a detached
    one belongs to a parallel branch). *)
Definition allocation (ev : TrackerEvent) : option StageExecution :=
  match ev with Reserved e | Detached e => Some e | _ => None end.
Definition attached (ev : TrackerEvent) : option StageExecution :=
  match ev with Reserved e => Some e | _ => None end.

Definition of_node (node : string) (e : StageExecution) : bool := String.eqb (sid_node (ex_stage_id e)) node.

Definition allocations_of (node : string) (evs : list TrackerEvent) : list StageExecution :=
  filterb (of_node node) (omap allocation evs).
Definition attached_of (node : string) (evs : list TrackerEvent) : list StageExecution :=
  filterb (of_node node) (omap attached evs).

(** The node's execution since its last boundary, read off the history. *)
Definition scope_step (node : string) (scope : option StageExecution) (ev : TrackerEvent) : option StageExecution :=
  match ev with
  | Cleared n => if String.eqb n node then None else scope
  | Reserved e => if of_node node e then Some e else scope
  | _ => scope
  end.
Definition scope_after (node : string) (scope : option StageExecution) (evs : list TrackerEvent) : option StageExecution :=
  foldl (scope_step node) scope evs.

(** The link offered to the first of [n] executions, and to no other. *)
Definition offered_once (link : option StageId) (n : nat) : list (option StageId) :=
  match n with O => [] | S k => link :: replicate k None end.

(** ** The seed *)

(** The execution of [node] that a resumed one replaces, among [stages]: the latest of
    those first seen after the checkpoint, or none if there are none. *)
Definition superseded_in (stages : list (StageId * StageProjection)) (checkpoint_seq : Z) (node : string)
    (link : option StageId) : Prop :=
  let eligible id s := (id, s) ∈ stages /\ sid_node id = node /\ checkpoint_seq < sg_first_event_seq s in
  match link with
  | None => forall id s, ~ eligible id s
  | Some id => (exists s, eligible id s) /\ forall id' s, eligible id' s -> sid_visit id' <= sid_visit id
  end.

Definition superseded (p : RunProjection) : Z -> string -> option StageId -> Prop :=
  superseded_in (map_to_list (rp_stages p)).

Definition visits_in (node : string) (stages : list (StageId * StageProjection)) : list Z :=
  sid_visit <$> filterb (fun id => String.eqb (sid_node id) node) (fst <$> stages).

Lemma node_exec_insert t m n e : node_exec (<[m := e]> t) n = if String.eqb m n then e else node_exec t n.
Proof.
  unfold node_exec. destruct (String.eqb_spec m n) as [->|Hn]; [by rewrite lookup_insert_eq|by rewrite lookup_insert_ne].
Qed.

Lemma tracker_active_node t n : tracker_active t n = nx_active (node_exec t n).
Proof. unfold tracker_active, node_exec. by destruct (t !! n). Qed.

Lemma superseded_snoc_skip cs stages node id s link :
  sid_node id <> node \/ sg_first_event_seq s <= cs ->
  superseded_in stages cs node link -> superseded_in (stages ++ [(id, s)]) cs node link.
Proof.
  intros Hskip. unfold superseded_in. destruct link as [l|].
  - intros [[s' (Hin & Hrest)] Hmax]. split; [exists s'; set_solver|].
    intros id' s'' (Hin' & Hn & Hs). apply (Hmax id' s''). set_unfold. naive_solver lia.
  - intros Hnone id' s'' (Hin' & Hn & Hs). apply (Hnone id' s''). set_unfold. naive_solver lia.
Qed.

Lemma superseded_snoc_new cs stages id s link :
  cs < sg_first_event_seq s -> superseded_in stages cs (sid_node id) link ->
  is_some_and (fun l => sid_visit id <=? sid_visit l) link = false ->
  superseded_in (stages ++ [(id, s)]) cs (sid_node id) (Some id).
Proof.
  intros Hs Hsup Hlt. unfold superseded_in in *. split; [exists s; set_solver|].
  intros id' s' (Hin & Hn & Hs'). apply elem_of_app in Hin as [Hin|[= -> ->]%list_elem_of_singleton]; [|lia].
  destruct link as [l|]; cbn in Hlt; [|by destruct (Hsup id' s')].
  apply Z.leb_gt in Hlt. destruct Hsup as [_ Hmax]. enough (sid_visit id' <= sid_visit l) by lia. by apply (Hmax id' s').
Qed.

Lemma superseded_snoc_old cs stages id s l :
  superseded_in stages cs (sid_node id) (Some l) -> sid_visit id <= sid_visit l ->
  superseded_in (stages ++ [(id, s)]) cs (sid_node id) (Some l).
Proof.
  intros [[s' (Hin & Hrest)] Hmax] Hle. split; [exists s'; set_solver|].
  intros id' s'' (Hin' & Hn & Hs). apply elem_of_app in Hin' as [Hin'|[= -> ->]%list_elem_of_singleton]; [|lia].
  by apply (Hmax id' s'').
Qed.

Lemma seed_entry_spec cs stages e id s :
  superseded_in stages cs (sid_node id) (nx_resumed_from e) ->
  let e' := seed_entry cs e id s in
  nx_high_water e' = Z.max (nx_high_water e) (sid_visit id) /\
  superseded_in (stages ++ [(id, s)]) cs (sid_node id) (nx_resumed_from e') /\ nx_active e' = nx_active e.
Proof.
  intros Hlink. destruct e as [hw link act]. cbn in *. unfold seed_entry, constant. cbn.
  destruct (Z.ltb_spec cs (sg_first_event_seq s)) as [Hs|Hs].
  2:{ split; [done|]. split; [|done]. apply superseded_snoc_skip; [lia|done]. }
  destruct link as [l|]; cbn.
  - destruct (Z.ltb_spec (sid_visit l) (sid_visit id)) as [Hlt|Hlt]; cbn; (split; [done|]; split; [|done]).
    + eapply superseded_snoc_new; [done|exact Hlink|]. cbn. lia.
    + by apply superseded_snoc_old.
  - split; [done|]. split; [|done]. by eapply superseded_snoc_new.
Qed.

(** What the loop has computed for a node, whatever the order of the stages. *)
Lemma seed_stages_spec cs stages node :
  let e := node_exec (seed_stages cs stages) node in
  nx_high_water e = foldl Z.max 0 (visits_in node stages) /\
  superseded_in stages cs node (nx_resumed_from e) /\ nx_active e = None.
Proof.
  unfold seed_stages. cbv zeta. induction stages as [|[id s] stages IH] using rev_ind.
  - cbn [foldl]. unfold node_exec. rewrite lookup_empty. split; [done|]. split; [|done].
    intros id s (Hin & _). by apply elem_of_nil in Hin.
  - rewrite foldl_snoc. cbn [seed_stage]. rewrite !node_exec_insert.
    unfold visits_in in *. rewrite fmap_app, filterb_app, fmap_app, foldl_app.
    destruct IH as (Hw & Hlink & Hact). destruct (String.eqb_spec (sid_node id) node) as [<-|Hn].
    + destruct (seed_entry_spec cs stages _ id s Hlink) as (-> & Hlink' & ->).
      cbn. rewrite String.eqb_refl. cbn. by rewrite Hw.
    + cbn. rewrite (proj2 (String.eqb_neq _ _) Hn). cbn.
      split; [done|]. split; [|done]. apply superseded_snoc_skip; [by left|done].
Qed.

(** ** Steps *)

(** The entry of a node after a step, from what the step reports. *)
Definition node_after (n : string) (N : NodeExecutionState) (ev : TrackerEvent) : NodeExecutionState :=
  match ev with
  | Cleared m => if String.eqb m n then { N with nx_active := None } else N
  | Reserved e => if of_node n e then mkNodeExec (saturating_add_u32 (nx_high_water N) 1) None (Some e) else N
  | Detached e => if of_node n e then { N with nx_high_water := saturating_add_u32 (nx_high_water N) 1 } else N
  | Reused _ => N
  end.

(** The executions a step hands out are those the entry of the node announces. *)
Definition event_follows (n : string) (N : NodeExecutionState) (ev : TrackerEvent) : Prop :=
  match ev with
  | Cleared _ => True
  | Reserved e => of_node n e = true ->
      sid_visit (ex_stage_id e) = saturating_add_u32 (nx_high_water N) 1 /\ ex_resumed_from e = nx_resumed_from N
  | Detached e => of_node n e = true ->
      sid_visit (ex_stage_id e) = saturating_add_u32 (nx_high_water N) 1 /\ ex_resumed_from e = None
  | Reused e => of_node n e = true -> nx_active N = Some e
  end.

(** The active execution under a node's key is of that node. *)
Definition tracker_wf (t : NodeExecutions) : Prop :=
  forall n e, tracker_active t n = Some e -> sid_node (ex_stage_id e) = n.

Lemma reserve_locked_after t m v n :
  let '(e, t') := reserve_locked t m v in
  node_exec t' n = node_after n (node_exec t n) (Reserved e) /\ event_follows n (node_exec t n) (Reserved e) /\
  of_node m e = true.
Proof.
  unfold reserve_locked. rewrite node_exec_insert. cbn. unfold of_node. cbn. rewrite String.eqb_refl.
  destruct (String.eqb_spec m n) as [->|]; [|done]. done.
Qed.

Lemma tracker_step_after t op n :
  tracker_wf t ->
  let '(ev, t') := tracker_step t op in
  node_exec t' n = node_after n (node_exec t n) ev /\ event_follows n (node_exec t n) ev.
Proof.
  intros Hwf. destruct op as [m|m v|m v|m v]; cbn [tracker_step].
  - split; [|done]. unfold tracker_begin_node. destruct (t !! m) as [N|] eqn:Hm.
    + rewrite node_exec_insert. cbn. destruct (String.eqb_spec m n) as [->|]; [|done].
      unfold node_exec. by rewrite Hm.
    + cbn. destruct (String.eqb_spec m n) as [->|]; [|done]. unfold node_exec. by rewrite Hm.
  - unfold tracker_reserve. pose proof (reserve_locked_after t m v n) as H.
    destruct (reserve_locked t m v) as [e t']. naive_solver.
  - unfold reserve_detached. cbv zeta. rewrite node_exec_insert. cbn. unfold of_node. cbn.
    by destruct (String.eqb_spec m n) as [->|].
  - unfold tracker_ensure. destruct (tracker_active t m) as [e|] eqn:Ha.
    + split; [done|]. cbn. unfold of_node. intros Hn%String.eqb_eq. rewrite <- Ha, tracker_active_node.
      by rewrite <- Hn, (Hwf _ _ Ha).
    + pose proof (reserve_locked_after t m v n) as H. destruct (reserve_locked t m v) as [e t']. naive_solver.
Qed.

Lemma tracker_step_wf t op : tracker_wf t -> tracker_wf (tracker_step t op).2.
Proof.
  intros Hwf n e. rewrite tracker_active_node. pose proof (tracker_step_after t op n Hwf) as H.
  destruct (tracker_step t op) as [ev t']. cbn. destruct H as [-> _]. intros Ha.
  pose proof (Hwf n) as Hn. rewrite tracker_active_node in Hn.
  destruct ev as [m|e'|e'|e']; cbn in Ha.
  - destruct (String.eqb m n); cbn in Ha; [done|by apply Hn].
  - destruct (of_node n e') eqn:He; [|by apply Hn]. cbn in Ha. injection Ha as ->. by apply String.eqb_eq.
  - destruct (of_node n e'); by apply Hn.
  - by apply Hn.
Qed.

#[local] Hint Resolve tracker_step_wf : core.

(** An [ensure] reuses the active execution, and reserves one only when there is none. *)
Lemma tracker_step_ensure t n v :
  (tracker_step t (TrEnsure n v)).1 =
  match tracker_active t n with Some e => Reused e | None => Reserved (reserve_locked t n v).1 end.
Proof. cbn [tracker_step]. unfold tracker_ensure. destruct (tracker_active t n); [done|]. by destruct (reserve_locked t n v). Qed.

(** ** Histories of one node *)

Lemma run_tracker_cons t op ops :
  run_tracker t (op :: ops) =
  let '(ev, t1) := tracker_step t op in let '(evs, t2) := run_tracker t1 ops in (ev :: evs, t2).
Proof. done. Qed.

Lemma offered_once_none n : offered_once None n = replicate n None.
Proof. by destruct n. Qed.

Section OneNode.
Context (n : string).

(** What the history of a tracker shows of a node whose entry was [N] at its start. *)
Definition history_ok (N N' : NodeExecutionState) (evs : list TrackerEvent) : Prop :=
  sid_visit ∘ ex_stage_id <$> allocations_of n evs = seqZ (nx_high_water N + 1) (Z.of_nat (length (allocations_of n evs))) /\
  ex_resumed_from <$> attached_of n evs = offered_once (nx_resumed_from N) (length (attached_of n evs)) /\
  nx_active N' = scope_after n (nx_active N) evs.

Lemma allocations_of_cons ev evs :
  allocations_of n (ev :: evs) = filterb (of_node n) (option_list (allocation ev)) ++ allocations_of n evs.
Proof. unfold allocations_of. cbn. destruct (allocation ev); [|done]. cbn. by case_match. Qed.

Lemma attached_of_cons ev evs :
  attached_of n (ev :: evs) = filterb (of_node n) (option_list (attached ev)) ++ attached_of n evs.
Proof. unfold attached_of. cbn. destruct (attached ev); [|done]. cbn. by case_match. Qed.

Lemma history_cons N N' ev evs :
  0 <= nx_high_water N < u32_max -> event_follows n N ev ->
  history_ok (node_after n N ev) N' evs -> history_ok N N' (ev :: evs).
Proof.
  intros Hw Hev Hrest. destruct N as [hw link act]. cbn [nx_high_water] in Hw.
  assert (Hsat : saturating_add_u32 hw 1 = hw + 1) by (unfold saturating_add_u32; lia).
  unfold history_ok, scope_after in *. rewrite allocations_of_cons, attached_of_cons.
  destruct Hrest as (Hv & Hl & Ha). destruct ev as [m|e|e|e]; cbn in *.
  - by destruct (String.eqb m n).
  - destruct (of_node n e) eqn:He; [|done]. destruct (Hev eq_refl) as [He1 He2].
    rewrite Hsat in *. cbn in *. rewrite Hv, Hl, He1, He2, offered_once_none.
    split; [|done]. rewrite (seqZ_cons (hw + 1)) by lia. f_equal. f_equal; lia.
  - destruct (of_node n e) eqn:He; [|done]. destruct (Hev eq_refl) as [He1 He2].
    rewrite Hsat in *. cbn in *. rewrite Hv, He1. split; [|done].
    rewrite (seqZ_cons (hw + 1)) by lia. f_equal. f_equal; lia.
  - done.
Qed.

Lemma run_tracker_history ops : forall t,
  tracker_wf t -> 0 <= nx_high_water (node_exec t n) -> nx_high_water (node_exec t n) + Z.of_nat (length ops) <= u32_max ->
  let '(evs, t') := run_tracker t ops in history_ok (node_exec t n) (node_exec t' n) evs.
Proof.
  induction ops as [|op ops IH]; intros t Hwf H0 Hmax; [done|]. rewrite run_tracker_cons.
  pose proof (tracker_step_after t op n Hwf) as Hstep. pose proof (tracker_step_wf t op Hwf) as Hwf'.
  destruct (tracker_step t op) as [ev t1]. destruct Hstep as [Hnode Hev]. specialize (IH t1 Hwf').
  destruct (run_tracker t1 ops) as [evs t2]. cbn [length] in Hmax.
  apply history_cons; [lia|done|]. rewrite <- Hnode. apply IH; rewrite Hnode.
  all: destruct (node_exec t n) as [hw link act]; destruct ev as [m|e|e|e]; cbn [nx_high_water] in *; cbn; unfold saturating_add_u32, constant;
    repeat case_match; cbn; lia.
Qed.
End OneNode.

(** What each operation of a history answers, from the history before it. *)
Lemma run_tracker_ensure ops : forall t i n v,
  tracker_wf t -> ops !! i = Some (TrEnsure n v) ->
  let evs := (run_tracker t ops).1 in
  match scope_after n (tracker_active t n) (take i evs) with
  | Some e => evs !! i = Some (Reused e)
  | None => exists e, evs !! i = Some (Reserved e) /\ sid_node (ex_stage_id e) = n /\ ex_graph_visit e = v
  end.
Proof.
  induction ops as [|op ops IH]; intros t i n v Hwf Hop; [done|]. rewrite run_tracker_cons.
  destruct i as [|i]; cbn in Hop.
  - injection Hop as ->. pose proof (tracker_step_ensure t n v) as He.
    destruct (tracker_step t (TrEnsure n v)) as [ev t1]. destruct (run_tracker t1 ops) as [evs t2]. cbn in *. subst ev.
    destruct (tracker_active t n) as [e|]; [done|]. eexists. split; [done|]. unfold reserve_locked. done.
  - pose proof (tracker_step_after t op n Hwf) as Hstep. pose proof (tracker_step_wf t op Hwf) as Hwf'.
    destruct (tracker_step t op) as [ev t1]. specialize (IH t1 i n v Hwf' Hop). rewrite !tracker_active_node in *.
    destruct (run_tracker t1 ops) as [evs t2]. cbn in *. destruct Hstep as [Hnode _]. rewrite Hnode in IH.
    enough (Heq : scope_step n (nx_active (node_exec t n)) ev = nx_active (node_after n (node_exec t n) ev)).
    { unfold scope_after in *. cbn. by rewrite Heq. }
    destruct ev as [m|e|e|e]; cbn; [| | |done]; repeat case_match; done.
Qed.

Lemma run_tracker_detached ops : forall t e, Detached e ∈ (run_tracker t ops).1 -> ex_resumed_from e = None.
Proof.
  induction ops as [|op ops IH]; intros t e; [by intros H%elem_of_nil|]. rewrite run_tracker_cons.
  destruct (tracker_step t op) as [ev t1] eqn:Hs. specialize (IH t1 e). destruct (run_tracker t1 ops) as [evs t2].
  cbn in *. intros [<-|Hin]%elem_of_cons; [|by apply IH].
  destruct op as [m|m v|m v|m v]; cbn [tracker_step] in Hs; [done| | |].
  - destruct (tracker_reserve t m v). congruence.
  - unfold reserve_detached in Hs. cbv zeta in Hs. by injection Hs as <- _.
  - destruct (tracker_ensure t m v), (tracker_active t m); congruence.
Qed.

(** ** Fresh ordinals *)

(** Identifiers with distinct visits under every node are distinct. *)
Lemma stage_ids_nodup (ids : list StageId) :
  (forall n, NoDup (sid_visit <$> filterb (fun id => String.eqb (sid_node id) n) ids)) -> NoDup ids.
Proof.
  induction ids as [|id ids IH]; intros H; [constructor|]. constructor.
  - specialize (H (sid_node id)). cbn in H. rewrite String.eqb_refl in H. cbn in H. apply NoDup_cons in H as [Hnot _].
    intros Hin. apply Hnot, list_elem_of_fmap. exists id. split; [done|]. apply filterb_elem. split; [done|apply String.eqb_refl].
  - apply IH. intros n. specialize (H n). cbn in H. destruct (String.eqb (sid_node id) n); [|done].
    cbn in H. by apply NoDup_cons in H as [_ H].
Qed.

(** What a node's first ordinal in a resumed run follows: the highest already stored. *)
Definition stored_ordinal (p : RunProjection) (node : string) : Z := foldl Z.max 0 (visits_of node p).

Lemma seed_wf p cs : tracker_wf (seed_from_projection p cs).
Proof.
  intros n e. rewrite tracker_active_node.
  destruct (seed_stages_spec cs (map_to_list (rp_stages p)) n) as (_ & _ & Ha). unfold seed_from_projection.
  by rewrite Ha.
Qed.

Lemma stored_ordinal_ge p id : id ∈ dom (rp_stages p) -> sid_visit id <= stored_ordinal p (sid_node id).
Proof.
  intros [s Hs]%elem_of_dom. apply (foldl_max_spec 0 (visits_of (sid_node id) p)).
  apply list_elem_of_fmap. exists id. split; [done|]. apply filterb_elem. split; [|apply String.eqb_refl].
  apply list_elem_of_fmap. exists (id, s). split; [done|by apply elem_of_map_to_list].
Qed.

Lemma stored_ordinal_le p b node :
  0 <= b -> (forall id, id ∈ dom (rp_stages p) -> sid_visit id <= b) -> 0 <= stored_ordinal p node <= b.
Proof.
  intros Hb Hids. destruct (foldl_max_spec 0 (visits_of node p)) as (H0 & _ & [Heq|Hin]); fold (stored_ordinal p node) in *;
    (split; [done|]); [lia|].
  apply list_elem_of_fmap in Hin as (id & -> & Hin). apply filterb_elem in Hin as [Hin _].
  apply list_elem_of_fmap in Hin as ([id' s] & -> & Hin%elem_of_map_to_list). apply Hids, elem_of_dom. by exists s.
Qed.

Lemma allocation_visits n evs :
  sid_visit <$> filterb (fun id => String.eqb (sid_node id) n) (ex_stage_id <$> omap allocation evs) =
  sid_visit ∘ ex_stage_id <$> allocations_of n evs.
Proof. unfold allocations_of. rewrite filterb_fmap, <- list_fmap_compose. done. Qed.

(** C10: in a run resumed from a checkpoint, whatever calls its lifecycle and its parallel
    branches make on the tracker, no two stages that start have the same identifier and
    none has the identifier of a stage already stored; the ordinals of a node are
    consecutive and follow the highest it has stored.  The first execution of the node
    that the lifecycle reserves names the one it replaces (the latest first seen after the
    checkpoint, if any), the later ones and the executions of branches name none.  An
    attempt is given the execution reserved since the node's boundary, and a new one only
    if there is none; the tracker's active execution is that one. *)
Theorem stage_ordinals_fresh p checkpoint_seq ops :
  (forall id, id ∈ dom (rp_stages p) -> sid_visit id + Z.of_nat (length ops) <= u32_max) ->
  Z.of_nat (length ops) <= u32_max ->
  let '(evs, t) := run_tracker (seed_from_projection p checkpoint_seq) ops in
  let started := ex_stage_id <$> omap allocation evs in
  NoDup started /\
  (forall id, id ∈ started -> id ∉ dom (rp_stages p)) /\
  (forall e, Detached e ∈ evs -> ex_resumed_from e = None) /\
  forall node,
    sid_visit ∘ ex_stage_id <$> allocations_of node evs =
      seqZ (stored_ordinal p node + 1) (Z.of_nat (length (allocations_of node evs))) /\
    (exists link, superseded p checkpoint_seq node link /\
       ex_resumed_from <$> attached_of node evs = offered_once link (length (attached_of node evs))) /\
    tracker_active t node = scope_after node None evs /\
    forall i v, ops !! i = Some (TrEnsure node v) ->
      match scope_after node None (take i evs) with
      | Some e => evs !! i = Some (Reused e)
      | None => exists e, evs !! i = Some (Reserved e) /\ sid_node (ex_stage_id e) = node /\ ex_graph_visit e = v
      end.
Proof.
  intros Hmax Hlen. set (t0 := seed_from_projection p checkpoint_seq).
  pose proof (run_tracker_ensure ops t0) as Hens. pose proof (run_tracker_detached ops t0) as Hdet.
  assert (Hseed : forall n, nx_high_water (node_exec t0 n) = stored_ordinal p n /\
            superseded p checkpoint_seq n (nx_resumed_from (node_exec t0 n)) /\ nx_active (node_exec t0 n) = None).
  { intros n. apply (seed_stages_spec checkpoint_seq (map_to_list (rp_stages p)) n). }
  assert (Hhist : forall n, let '(evs, t) := run_tracker t0 ops in history_ok n (node_exec t0 n) (node_exec t n) evs).
  { intros n. destruct (Hseed n) as (Hw & _ & _).
    destruct (stored_ordinal_le p (u32_max - Z.of_nat (length ops)) n) as [H0 H1]; [lia|intros id Hid; specialize (Hmax id Hid); lia|].
    apply run_tracker_history; [apply seed_wf|lia|lia]. }
  destruct (run_tracker t0 ops) as [evs t]. cbn zeta. cbn [fst] in *.
  assert (Hvis : forall n, sid_visit ∘ ex_stage_id <$> allocations_of n evs =
                   seqZ (stored_ordinal p n + 1) (Z.of_nat (length (allocations_of n evs)))).
  { intros n. destruct (Hhist n) as (Hv & _). destruct (Hseed n) as (Hw & _). by rewrite <- Hw. }
  split; [|split; [|split; [done|]]].
  - apply stage_ids_nodup. intros n. rewrite allocation_visits, Hvis. apply NoDup_seqZ.
  - intros id Hid Hdom. apply stored_ordinal_ge in Hdom.
    assert (Hin : sid_visit id ∈ seqZ (stored_ordinal p (sid_node id) + 1) (Z.of_nat (length (allocations_of (sid_node id) evs)))).
    { rewrite <- Hvis, <- allocation_visits. apply list_elem_of_fmap. exists id. split; [done|].
      apply filterb_elem. split; [done|apply String.eqb_refl]. }
    apply elem_of_seqZ in Hin. lia.
  - intros n. destruct (Hhist n) as (_ & Hl & Ha). destruct (Hseed n) as (_ & Hsup & Hact).
    split; [apply Hvis|]. split; [by eexists|]. rewrite tracker_active_node, Ha, Hact. split; [done|].
    intros i v Hop. specialize (Hens i n v (seed_wf _ _) Hop). by rewrite tracker_active_node, Hact in Hens.
Qed.

(** A run that stopped in the second execution of [work], after the checkpoint at 5. *)
Definition sample_resumed : RunProjection :=
  let p := RunProjection_new "t" (mkSpec "r" (mkEnvironment EnvLocal None) (graph_new "g") None None None ∅ None None None JNull) 0 in
  { p with rp_stages := list_to_map
      [(mkStageId "work" 1, StageProjection_new 3); (mkStageId "work" 2, StageProjection_new 9);
       (mkStageId "check" 1, StageProjection_new 4)] }.

Definition sample_tracker_ops : list TrackerOp :=
  [TrBegin "work"; TrEnsure "work" 2; TrEnsure "work" 2; TrDetached "work" 1; TrBegin "work"; TrReserve "work" 3; TrEnsure "check" 2].

Lemma stage_ordinals_fresh_witness :
  let evs := (run_tracker (seed_from_projection sample_resumed 5) sample_tracker_ops).1 in
  NoDup (ex_stage_id <$> omap allocation evs) /\
  ex_stage_id <$> omap allocation evs = [mkStageId "work" 3; mkStageId "work" 4; mkStageId "work" 5; mkStageId "check" 2] /\
  ex_resumed_from <$> omap attached evs = [Some (mkStageId "work" 2); None; None].
Proof.
  assert (Hids : forall id, id ∈ dom (rp_stages sample_resumed) -> sid_visit id + Z.of_nat (length sample_tracker_ops) <= u32_max).
  { apply (bool_decide_unpack (set_Forall (fun id => sid_visit id + Z.of_nat (length sample_tracker_ops) <= u32_max) _)).
    vm_compute. exact I. }
  pose proof (stage_ordinals_fresh sample_resumed 5 sample_tracker_ops Hids ltac:(vm_compute; discriminate)) as H.
  cbv zeta. split; [destruct (run_tracker (seed_from_projection sample_resumed 5) sample_tracker_ops); exact (proj1 H)|].
  split; vm_compute; reflexivity.
Defined.
