(* ===== verification/EventLife.v ===== *)
(** * The events of a run (fabro-workflow/src/event, lifecycle/event.rs)

    What the engine emits while it runs a graph: the events of the lifecycle, their
    conversion to stored events (event/convert.rs, event/stored_fields.rs), the emitter and
    the callbacks of [EventLifecycle].  The callbacks read the state that the parts of the
    lifecycle share: the stage tracker, the circuit breaker, the result of the git
    checkpoint and the pending loop restart; [LifeState] is that shared state, with the log
    of what was emitted.

    [Event] has the variants that the lifecycle emits; [Emitter::emit] hands an event to the
    listeners, and the listener that matters is the one that stores it, so to emit is to
    append to the log.  An identifier of a stage is built with [StageId::new], which panics
    on visit zero: a visit here comes from the tracker, which counts from one, or from the
    executor's count of visits, which is one when a node is current.  The instant of the
    run's start is kept by the source and never read. *)

From S2P Require Import Prelude RustStr RustNum DecText GraphTypes Context Outcome Core Failure CircuitBreaker Blobs Artifact Fidelity.
From S2P Require Import StageIds RunStatus EventScan Timing Billing Events Projection StageExec.
From coqutil Require Import Datatypes.RecordSetters.
Import OCamlLikeNotations.
Local Open Scope string_scope.
Local Open Scope list_scope.
Local Open Scope Z_scope.

(** The metadata of an outcome is the usage it was billed. *)
Abbreviation Usage := (option BilledModelUsage).
#[export] Instance usage_meta : OutcomeMeta Usage := None.

(** ** Scopes (stage_scope.rs) *)

Record StageScope := mkScope {
  sco_node_id : string;
  sco_visit : Z;
  sco_parallel_group_id : option StageId;
  sco_parallel_branch_id : option ParallelBranchId
}.

Definition INTERNAL_PARALLEL_GROUP_ID : string := "internal.parallel_group_id".
Definition INTERNAL_PARALLEL_BRANCH_ID : string := "internal.parallel_branch_id".

(** An identifier is deserialized from a string. *)
Definition parallel_group_id (c : Context) : option StageId :=
  value ← ctx_get c INTERNAL_PARALLEL_GROUP_ID;
  match value with JString s => result_ok (stage_id_from_str s) | _ => None end.

Definition parallel_branch_id (c : Context) : option ParallelBranchId :=
  value ← ctx_get c INTERNAL_PARALLEL_BRANCH_ID;
  match value with JString s => result_ok (branch_id_from_str s) | _ => None end.

Definition scope_stage_id (s : StageScope) : StageId := mkStageId (sco_node_id s) (sco_visit s).

Definition visit_from_context (c : Context) : Z := Z.max (node_visit_count c) 1.

Definition execution_ordinal_from_context (c : Context) : Z :=
  let ordinal := default (visit_from_context c) (v ← ctx_get c INTERNAL_STAGE_EXECUTION_ORDINAL; value_as_u64 v) in
  default u32_max (in_bounds 0 u32_max ordinal).

Definition scope_from_context (c : Context) (node : string) : StageScope :=
  mkScope node (execution_ordinal_from_context c) (parallel_group_id c) (parallel_branch_id c).

Definition current_stage_scope (c : Context) : option StageScope :=
  node ← ctx_get c CURRENT_NODE ≫= value_as_str; Some (scope_from_context c node).

Definition scope_for_handler (c : Context) (node : string) : StageScope := default (scope_from_context c node) (current_stage_scope c).

Definition scope_for_parallel_branch (target : string) (visit : Z) (group : StageId) (branch : ParallelBranchId) : StageScope :=
  mkScope target visit (Some group) (Some branch).

(** ** The events (event/events.rs) *)

(** Who did something: a part of the system, or a user, worker, agent or service, as JSON. *)
Inductive Principal := PrSystem (kind : SystemActorKind) | PrOther (who : Value).

Record PushResult := mkPush {
  pu_branch : string;
  pu_success : bool;
  pu_exec_output_tail : option ExecOutputTail;
  pu_attempts : Value
}.

Record GitCheckpointResult := mkGitCheckpoint {
  gc_commit_sha : option string;
  gc_push_results : list PushResult;
  gc_diff : option string;
  gc_diff_summary : option DiffSummary
}.

Inductive MetadataSnapshotPhase := MpInit | MpCheckpoint | MpFinalize.
Inductive MetadataSnapshotFailureKind := MfLoadState | MfWrite | MfPush.

Inductive Event :=
| LoopRestart (from_node to_node : string)
| WorkflowRunStarted (name : string) (run_id : RunId) (base_branch base_sha run_branch worktree_dir goal : option string)
| RunRunning
| EvRunPaused
| EvRunUnpaused
| EvRunBlocked (reason : BlockedReason)
| EvRunUnblocked
| ParallelStarted (node_id : string) (visit branch_count : Z)
| ParallelBranchStarted (group : StageId) (branch_id : ParallelBranchId) (branch : string) (index : Z) (item_label : option string)
    (graph_visit : option Z) (resumed_from_stage_id : option StageId)
| ParallelBranchCompleted (group : StageId) (branch_id : ParallelBranchId) (branch : string) (index : Z) (item_label : option string)
    (duration_ms : Z) (status : StageOutcome)
| ParallelCompleted (node_id : string) (visit duration_ms success_count failure_count : Z) (results : Value)
| InterviewStarted (p : InterviewStartedProps)
| InterviewCompleted (actor : option Principal) (question_id question answer : string) (duration_ms : Z)
| InterviewTimeout (actor : option Principal) (question_id question stage : string) (duration_ms : Z)
| InterviewInterrupted (actor : option Principal) (question_id question stage reason : string) (duration_ms : Z)
| EvRunNotice (level code message : string)
| MetadataSnapshotStarted (phase : MetadataSnapshotPhase) (branch : string)
| MetadataSnapshotCompleted (phase : MetadataSnapshotPhase) (branch : string) (duration_ms entry_count bytes : Z) (commit_sha : string)
| MetadataSnapshotFailed (phase : MetadataSnapshotPhase) (branch : string) (duration_ms : Z) (failure_kind : MetadataSnapshotFailureKind)
    (error : string) (causes : list string) (commit_sha : option string) (entry_count bytes : option Z)
| CheckpointFailed (node_id error : string)
| StallWatchdogTimeout (node : string) (idle_seconds : Z)
| StageStarted (node_id name : string) (index : Z) (handler_type : string) (attempt max_attempts : Z) (graph_visit : option Z)
    (resumed_from_stage_id : option StageId)
| StageCompleted (node_id name : string) (index : Z) (timing : StageTiming) (status : string) (preferred_label : option string)
    (suggested_next_ids : list string) (billing : option BilledModelUsage) (failure : option FailureDetail) (notes : option string)
    (files_touched : list string) (context_updates : option (gmap string Value)) (jump_to_node : option string)
    (context_values : option (gmap string Value)) (node_visits : option (gmap string Z))
    (loop_failure_signatures restart_failure_signatures : option (gmap string Z)) (response : option string)
    (attempt max_attempts : Z)
| StageFailed (node_id name : string) (index : Z) (failure : FailureDetail) (will_retry : bool) (timing : StageTiming)
    (billing : option BilledModelUsage) (actor : option SystemActorKind)
| StageRetrying (node_id name : string) (index attempt max_attempts delay_ms : Z)
| EdgeSelected (from_node to_node : string) (label condition : option string) (reason : string) (preferred_label : option string)
    (suggested_next_ids : list string) (stage_status : string) (is_jump : bool)
| CheckpointCompleted (node_id status current_node : string) (completed_nodes : list string) (node_retries : gmap string Z)
    (context_values : gmap string Value) (node_outcomes : gmap string StageResult) (next_node_id git_commit_sha : option string)
    (loop_failure_signatures restart_failure_signatures node_visits : gmap string Z) (diff : option string)
    (diff_summary : option DiffSummary) (graph_visit : option Z) (resumed_from_stage_id : option StageId)
| GitCommit (node_id : option string) (sha : string)
| GitPush (branch : string) (success : bool) (exec_output_tail : option ExecOutputTail) (attempts : Value)
| ArtifactCaptured (node_id : string) (attempt : Z) (node_slug path mime content_md5 content_sha256 : string) (bytes : Z).

(** ** Stored events (event/convert.rs, event/stored_fields.rs) *)

Definition stage_status_from_string (s : string) : StageOutcome :=
  match StageOutcome_from_str s with Ok o => o | Err _ => Failed false end.

(** The body has the fields that are read back; a body that is only listed is its tag. *)
Definition event_body_from_event (e : Event) : EventBody :=
  match e with
  | LoopRestart _ _ => BOther "loop.restart"
  | WorkflowRunStarted _ _ _ base_sha run_branch _ _ => BRunStarted {| rst_base_sha := base_sha; rst_run_branch := run_branch |}
  | RunRunning => BRunRunning
  | EvRunPaused => BRunPaused
  | EvRunUnpaused => BRunUnpaused
  | EvRunBlocked reason => BRunBlocked reason
  | EvRunUnblocked => BRunUnblocked
  | ParallelStarted _ _ _ => BOther "parallel.started"
  | ParallelBranchStarted _ _ _ _ _ graph_visit resumed_from =>
      BParallelBranchStarted {| pbs_graph_visit := graph_visit; pbs_resumed_from_stage_id := resumed_from |}
  | ParallelBranchCompleted _ _ _ _ _ duration_ms status => BParallelBranchCompleted duration_ms status
  | ParallelCompleted _ _ _ _ _ results => BParallelCompleted results
  | InterviewStarted p => BInterviewStarted p
  | InterviewCompleted _ question_id _ _ _ => BInterviewCompleted question_id
  | InterviewTimeout _ question_id _ _ _ => BInterviewTimeout question_id
  | InterviewInterrupted _ question_id _ _ _ _ => BInterviewInterrupted question_id
  | EvRunNotice _ _ _ => BOther "run.notice"
  | MetadataSnapshotStarted _ _ => BOther "metadata.snapshot.started"
  | MetadataSnapshotCompleted _ _ _ _ _ _ => BOther "metadata.snapshot.completed"
  | MetadataSnapshotFailed _ _ _ _ _ _ _ _ _ => BOther "metadata.snapshot.failed"
  | CheckpointFailed _ _ => BOther "checkpoint.failed"
  | StallWatchdogTimeout _ _ => BOther "watchdog.timeout"
  | StageStarted _ _ _ handler_type _ _ graph_visit resumed_from =>
      BStageStarted {| ss_handler_type := handler_type; ss_graph_visit := graph_visit; ss_resumed_from_stage_id := resumed_from |}
  | StageCompleted _ _ _ timing status preferred_label suggested_next_ids billing failure notes files_touched context_updates
      jump_to_node _ node_visits _ _ response _ _ =>
      BStageCompleted {| sc_timing := timing; sc_status := stage_status_from_string status; sc_preferred_label := preferred_label;
        sc_suggested_next_ids := suggested_next_ids; sc_billing := billing; sc_failure := failure; sc_notes := notes;
        sc_files_touched := files_touched; sc_context_updates := context_updates; sc_jump_to_node := jump_to_node;
        sc_node_visits := node_visits; sc_response := response |}
  | StageFailed _ _ _ failure will_retry timing billing _ =>
      BStageFailed {| sfl_failure := Some failure; sfl_will_retry := will_retry; sfl_timing := timing; sfl_billing := billing |}
  | StageRetrying _ _ _ _ _ _ => BStageRetrying
  | EdgeSelected _ _ _ _ _ _ _ _ _ => BOther "edge.selected"
  | CheckpointCompleted _ _ current_node completed_nodes node_retries context_values node_outcomes next_node_id git_commit_sha
      loop_sigs restart_sigs node_visits diff diff_summary graph_visit resumed_from =>
      BCheckpointCompleted {| cp_current_node := current_node; cp_completed_nodes := completed_nodes; cp_node_retries := node_retries;
        cp_context_values := context_values; cp_node_outcomes := node_outcomes; cp_next_node_id := next_node_id;
        cp_git_commit_sha := git_commit_sha; cp_loop_failure_signatures := loop_sigs; cp_restart_failure_signatures := restart_sigs;
        cp_node_visits := node_visits; cp_diff := diff; cp_diff_summary := diff_summary; cp_graph_visit := graph_visit;
        cp_resumed_from_stage_id := resumed_from |}
  | GitCommit _ _ => BOther "git.commit"
  | GitPush _ _ _ _ => BOther "git.push"
  | ArtifactCaptured _ _ _ _ _ _ _ _ => BOther "artifact.captured"
  end.

(** The node of an event that names one. *)
Definition stored_node_id (e : Event) : option string :=
  match e with
  | StageStarted node_id _ _ _ _ _ _ _ | StageCompleted node_id _ _ _ _ _ _ _ _ _ _ _ _ _ _ _ _ _ _ _
  | StageFailed node_id _ _ _ _ _ _ _ | StageRetrying node_id _ _ _ _ _
  | CheckpointFailed node_id _ | StallWatchdogTimeout node_id _ | CheckpointCompleted node_id _ _ _ _ _ _ _ _ _ _ _ _ _ _ _ | ArtifactCaptured node_id _ _ _ _ _ _ _ => Some node_id
  | ParallelStarted node_id _ _ | ParallelCompleted node_id _ _ _ _ _ => Some node_id
  | ParallelBranchStarted _ _ branch _ _ _ _ | ParallelBranchCompleted _ _ branch _ _ _ _ => Some branch
  | InterviewStarted p => Some (is_stage p)
  | InterviewTimeout _ _ _ stage _ | InterviewInterrupted _ _ _ stage _ _ => Some stage
  | GitCommit node_id _ => node_id
  | _ => None
  end.

Definition stored_branch_id (e : Event) : option ParallelBranchId :=
  match e with ParallelBranchStarted _ id _ _ _ _ _ | ParallelBranchCompleted _ id _ _ _ _ _ => Some id | _ => None end.

(** Of the fields, those a stored event here has. *)
Definition to_run_event_at (run_id : RunId) (e : Event) (ts : DateTime) (scope : option StageScope) : RunEvent := {|
  ev_ts := ts;
  ev_run_id := run_id;
  ev_node_id := or_else (stored_node_id e) (sco_node_id <$> scope);
  ev_stage_id := scope_stage_id <$> scope;
  ev_parallel_branch_id := or_else (stored_branch_id e) (scope ≫= sco_parallel_branch_id);
  ev_session_id := None;
  ev_parent_session_id := None;
  ev_body := event_body_from_event e
|}.

(** ** The health of the metadata branch (run_metadata.rs) *)

(** Instants are nanoseconds. *)
Definition METADATA_REPROBE_COOLDOWN : Z := 30 * 1000000000.

Inductive MetadataRuntimeState := MdHealthy | MdTransientDegraded (next_probe_at : Z) | MdPermanentlyDegraded.

(** Whether to warn, and the state after a failure. *)
Definition mark_metadata_degraded (transient : bool) (now : Z) (st : MetadataRuntimeState) : bool * MetadataRuntimeState :=
  (match st with MdHealthy => true | _ => false end,
   match st, transient with
   | MdPermanentlyDegraded, _ | _, false => MdPermanentlyDegraded
   | _, true => MdTransientDegraded (now + METADATA_REPROBE_COOLDOWN)
   end).

Definition clear_metadata_degraded (st : MetadataRuntimeState) : MetadataRuntimeState := MdHealthy.

Definition metadata_suspended (st : MetadataRuntimeState) : bool := match st with MdPermanentlyDegraded => true | _ => false end.

Definition metadata_checkpoint_suspended (now : Z) (st : MetadataRuntimeState) : bool :=
  match st with MdHealthy => false | MdTransientDegraded next_probe_at => now <? next_probe_at | MdPermanentlyDegraded => true end.

(** ** The state that the parts of the lifecycle share *)

Record LifeState (H : Type) := mkLife {
  lf_host : H;
  lf_log : list RunEvent;
  lf_tracker : NodeExecutions;
  lf_breaker : Breaker;
  lf_fidelity : FidelityState;
  lf_restarted_from : option (string * string);
  lf_git_result : option GitCheckpointResult;
  lf_last_git_sha : option string;
  lf_initial_resume : bool;
  lf_ledger : option (list (string * string));
  lf_metadata : MetadataRuntimeState
}.
Arguments mkLife {H}.
Arguments lf_host {H}.
Arguments lf_log {H}.
Arguments lf_tracker {H}.
Arguments lf_breaker {H}.
Arguments lf_fidelity {H}.
Arguments lf_restarted_from {H}.
Arguments lf_git_result {H}.
Arguments lf_last_git_sha {H}.
Arguments lf_initial_resume {H}.
Arguments lf_ledger {H}.
Arguments lf_metadata {H}.

(** [Utc::now], in a host that the emission of an event does not change. *)
Class EventClock (H : Type) := utc_now : H -> DateTime.

Record EventConfig := mkEventConfig {
  cfg_graph_name : string;
  cfg_run_id : RunId;
  cfg_base_branch : option string;
  cfg_base_sha : option string;
  cfg_run_branch : option string;
  cfg_worktree_dir : option string;
  cfg_goal : option string
}.

Section events.
Context {H : Type} `{EventClock H} (cfg : EventConfig).
Implicit Types (s : ExecutionState Usage) (w : LifeState H).

(** ** The emitter (event/emitter.rs) *)

Definition emit_with_scope (e : Event) (scope : option StageScope) w : LifeState H :=
  let stored := to_run_event_at (cfg_run_id cfg) e (utc_now (lf_host w)) scope in
  { w with lf_log := lf_log w ++ [stored] }.

Definition emit (e : Event) w := emit_with_scope e None w.
Definition emit_scoped (e : Event) (scope : StageScope) w := emit_with_scope e (Some scope) w.

Definition notice (code message : string) w := emit (EvRunNotice "warn" code message) w.

(** ** Helpers of the callbacks *)

Definition nonempty_map {A} (m : gmap string A) : option (gmap string A) := if decide (m = ∅) then None else Some m.

Definition snapshot_failure_signatures (b : Breaker) : option (gmap string Z) * option (gmap string Z) :=
  (nonempty_map (loop_failure_signatures b), nonempty_map (restart_failure_signatures b)).

Definition actor_for_stage_failure (f : FailureDetail) : option SystemActorKind := system_actor f.

Definition millis_u64 (d : Duration) : Z := default u64_max (in_bounds 0 u64_max (as_millis d)).

Definition node_result_timing (r : NodeResult Usage) : StageTiming :=
  StageTiming_new (millis_u64 (wall_time r)) (millis_u64 (inference_time r)) (millis_u64 (tool_time r)).

Definition response_from_outcome (node : string) (o : Outcome Usage) : option string :=
  context_updates o !! response_key node ≫= value_as_str.

Definition stage_context_values (c : Context) : option (gmap string Value) := nonempty_map (strip_transient_keys (context_snapshot c)).

Definition stage_visit s (node : string) : Z :=
  default u32_max (in_bounds 0 u32_max (default 1 (node_visits s !! node))).

Definition stage_scope_from_execution (execution : option StageExecution) s (node : string) : StageScope :=
  let id := match execution with Some e => ex_stage_id e | None => mkStageId node (stage_visit s node) end in
  mkScope (sid_node id) (sid_visit id) (parallel_group_id (st_context s)) (parallel_branch_id (st_context s)).

Definition stage_scope_for (t : NodeExecutions) s (node : string) : StageScope := stage_scope_from_execution (tracker_active t node) s node.

(** ** The callbacks *)

Definition put_restarted (r : option (string * string)) w : LifeState H :=
  { w with lf_restarted_from := r }.

Definition put_tracker (t : NodeExecutions) w : LifeState H :=
  { w with lf_tracker := t }.

Definition event_on_run_start : Graph -> callback Usage (LifeState H) unit := fun _ s w =>
  let w := match lf_restarted_from w with
           | Some (from_node, to_node) => emit (LoopRestart from_node to_node) (put_restarted None w)
           | None => w
           end in
  let w := emit (WorkflowRunStarted (cfg_graph_name cfg) (cfg_run_id cfg) (cfg_base_branch cfg) (cfg_base_sha cfg)
                   (cfg_run_branch cfg) (cfg_worktree_dir cfg) (cfg_goal cfg)) w in
  (Ok tt, st_context s, emit RunRunning w).

Definition stage_started (n : Node) s (attempt max_attempts graph_visit : Z) (execution : option StageExecution) : Event :=
  StageStarted (node_id n) (node_label n) (stage_index s) (default "" (handler_type n)) attempt max_attempts (Some graph_visit)
    (execution ≫= ex_resumed_from).

Definition event_on_terminal_reached (n : Node) (goal_gates_passed : bool) : notification Usage (LifeState H) := fun s w =>
  if negb goal_gates_passed then (st_context s, w)
  else
    let '(execution, t) := tracker_reserve (lf_tracker w) (node_id n) (stage_visit s (node_id n)) in
    let w := put_tracker t w in
    let scope := stage_scope_from_execution (Some execution) s (node_id n) in
    let '(loop_sigs, restart_sigs) := snapshot_failure_signatures (lf_breaker w) in
    let w := emit_scoped (stage_started n s 1 1 (ex_graph_visit execution) (Some execution)) scope w in
    let completed :=
      StageCompleted (node_id n) (node_label n) (stage_index s) (StageTiming_wall_only 0) (StageOutcome_to_string Succeeded) None [] None
        None None [] None None None None loop_sigs restart_sigs (ctx_get (st_context s) (response_key (node_id n)) ≫= value_as_str) 1 1 in
    (st_context s, emit_scoped completed scope w).

Definition event_before_attempt (a : AttemptContext Node) : callback Usage (LifeState H) (NodeDecision Usage) := fun s w =>
  let n := ac_node a in
  let execution := tracker_active (lf_tracker w) (node_id n) in
  let scope := stage_scope_from_execution execution s (node_id n) in
  let graph_visit := match execution with Some e => ex_graph_visit e | None => stage_visit s (node_id n) end in
  (Ok NContinue, st_context s, emit_scoped (stage_started n s (ac_attempt a) (ac_max_attempts a) graph_visit execution) scope w).

(** The failure of an attempt, or of a node. *)
Definition stage_failed (n : Node) s (r : NodeResult Usage) (missing : FailureCategory) (will_retry : bool) : Event :=
  let failure := default (FailureDetail_new "handler failed" missing) (failure (outcome r)) in
  StageFailed (node_id n) (node_label n) (stage_index s) failure will_retry (node_result_timing r) (usage (outcome r))
    (actor_for_stage_failure failure).

Definition event_after_attempt (a : AttemptResultContext Node Usage) : callback Usage (LifeState H) unit := fun s w =>
  if arc_will_retry a then
    let n := arc_node a in
    let r := arc_result a in
    let scope := stage_scope_for (lf_tracker w) s (node_id n) in
    let w := emit_scoped (stage_failed n s r TransientInfra true) scope w in
    let retrying := StageRetrying (node_id n) (node_label n) (stage_index s) (arc_attempt a) (max_attempts r)
                      (match arc_backoff_delay a with Some d => millis_u64 d | None => 0 end) in
    (Ok tt, st_context s, emit_scoped retrying scope w)
  else (Ok tt, st_context s, w).

Definition stage_completed (n : Node) s (r : NodeResult Usage) (b : Breaker) : Event :=
  let o := outcome r in
  let '(loop_sigs, restart_sigs) := snapshot_failure_signatures b in
  StageCompleted (node_id n) (node_label n) (stage_index s) (node_result_timing r) (StageOutcome_to_string (status o)) (preferred_label o)
    (suggested_next_ids o) (usage o) (failure o) (notes o) (files_touched o) (nonempty_map (context_updates o)) (jump_to_node o)
    (stage_context_values (st_context s)) (nonempty_map (node_visits s)) loop_sigs restart_sigs (response_from_outcome (node_id n) o)
    (attempts r) (max_attempts r).

Definition event_after_node (n : Node) (r : NodeResult Usage) : callback Usage (LifeState H) (NodeResult Usage) := fun s w =>
  if bool_decide (status (outcome r) = Skipped) then (Ok r, st_context s, w)
  else
    let scope := stage_scope_for (lf_tracker w) s (node_id n) in
    let event := if is_failure (status (outcome r)) then stage_failed n s r Deterministic false
                 else stage_completed n s r (lf_breaker w) in
    (Ok r, st_context s, emit_scoped event scope w).

Definition event_on_edge_selected (x : EdgeContext Edge Usage) : callback Usage (LifeState H) EdgeDecision := fun s w =>
  let o := ec_outcome x in
  let event := EdgeSelected (ec_from x) (ec_to x) (ec_edge x ≫= edge_label) (ec_edge x ≫= edge_condition) (ec_reason x)
                 (preferred_label o) (suggested_next_ids o) (StageOutcome_to_string (status o)) (ec_is_jump x) in
  (Ok EContinue, st_context s, emit event w).

(** The outcomes of a checkpoint: those recorded, with the node's own. *)
Definition checkpoint_outcomes (n : Node) (r : NodeResult Usage) s `{BlobHashes} : gmap string StageResult :=
  normalize_durable_outcomes (<[node_id n := outcome r]> (node_outcomes s)).

Definition checkpoint_event `{BlobHashes} (n : Node) (r : NodeResult Usage) (next_node_id : option string) s w : Event :=
  let git := lf_git_result w in
  let execution := tracker_active (lf_tracker w) (node_id n) in
  let '(loop_sigs, restart_sigs) := snapshot_failure_signatures (lf_breaker w) in
  CheckpointCompleted (node_id n) (StageOutcome_to_string (status (outcome r))) (node_id n) (completed_nodes s) (node_retries s)
    (durable_context_snapshot (st_context s)) (checkpoint_outcomes n r s) next_node_id (git ≫= gc_commit_sha) (default ∅ loop_sigs)
    (default ∅ restart_sigs) (node_visits s) (git ≫= gc_diff) (git ≫= gc_diff_summary)
    (Some match execution with Some e => ex_graph_visit e | None => stage_visit s (node_id n) end) (execution ≫= ex_resumed_from).

Definition emit_git (n : Node) (scope : StageScope) (git : GitCheckpointResult) w : LifeState H :=
  let w := match gc_commit_sha git with Some sha => emit_scoped (GitCommit (Some (node_id n)) sha) scope w | None => w end in
  foldl (fun w p => emit (GitPush (pu_branch p) (pu_success p) (pu_exec_output_tail p) (pu_attempts p)) w) w (gc_push_results git).

Definition event_on_checkpoint `{BlobHashes} (n : Node) (r : NodeResult Usage) (next_node_id : option string)
    : callback Usage (LifeState H) unit := fun s w =>
  let scope := stage_scope_for (lf_tracker w) s (node_id n) in
  let git := lf_git_result w in
  let w := emit_scoped (checkpoint_event n r next_node_id s w) scope w in
  (Ok tt, st_context s, match git with Some git => emit_git n scope git w | None => w end).

Definition EventLifecycle `{BlobHashes} : RunLifecycle Graph Node Edge Usage (LifeState H) :=
  let base : RunLifecycle Graph Node Edge Usage (LifeState H) := NoopLifecycle in
  mkLifecycle event_on_run_start event_on_terminal_reached (before_node base) event_before_attempt event_after_attempt event_after_node
    (after_record base) event_on_edge_selected event_on_checkpoint (on_run_end base).
End events.
