(* ===== verification/Lifecycle.v ===== *)
(** * The lifecycle of a run (fabro-workflow/src/lifecycle)

    The engine's executor calls back at each point of a run; [WorkflowLifecycle] answers by
    calling its parts in a fixed order: the events, the hooks, the fidelity of prompts, the
    circuit breaker, git checkpoints and artifacts.  The file has the artifact part
    (lifecycle/artifact.rs), the git part (lifecycle/git.rs), pauses (run_control.rs) and the
    composition (lifecycle/mod.rs); the other parts are in their own files.

    Parameters, in class [LifeHost], are the sandbox and what is behind it: activation, the
    collection and the upload of artifacts, git commands, the writer of the metadata branch
    with the events it emits, the pause flag and the callback on a node.  [tokio::join!] of
    two git commands is the first and then the second.  The time an upload waits before it
    is tried again is left out. *)

From S2P Require Import Prelude RustStr RustNum DecText GraphTypes Context Outcome Core Failure CircuitBreaker Blobs Artifact Preamble Fidelity Hooks.
From S2P Require Import StageIds RunStatus EventScan Timing Billing Events Projection StageExec EventLife.
From coqutil Require Import Datatypes.RecordSetters.
Import OCamlLikeNotations.
Local Open Scope string_scope.
Local Open Scope list_scope.
Local Open Scope Z_scope.

Record ArtifactUpload := mkUpload { au_path : string; au_mime : string; au_md5 : string; au_sha256 : string; au_bytes : Z }.

Record ArtifactCollectionSummary := mkCollection {
  acs_download_errors : Z;
  acs_hash_errors : Z;
  acs_captured_assets : list ArtifactUpload
}.

Record MetadataSnapshot := mkSnapshot { ms_commit_sha : string; ms_push_error : option string; ms_entry_count : Z; ms_bytes : Z }.

(** An error as it is shown, and its causes. *)
Abbreviation Refusal := (string * list string)%type.

Class LifeHost (H : Type) := {
  sandbox_activate : H -> result unit string * H;
  pause_requested : H -> bool;
  wait_unpaused : H -> H;
  on_node : string -> H -> H;
  capture_dir : H -> result unit string * H;
  collect_artifacts : list string -> H -> result ArtifactCollectionSummary string * H;
  upload_artifacts : StageId -> Z -> list ArtifactUpload -> H -> result unit string * H;
  stored_captures : H -> result (list (string * string)) string * H;
  instant_now : H -> Z;
  run_state : H -> result RunProjection Refusal * H;
  dump_error : RunProjection -> H -> option Refusal;
  write_snapshot : RunProjection -> string -> H -> result MetadataSnapshot Refusal * H;
  push_failure_is_transient : string -> H -> bool;
  git_commit : string -> string -> Z -> option string -> H -> result string string * H;
  git_push : string -> H -> result Value (string * option ExecOutputTail * Value) * H;
  git_diff : string -> H -> result string string * H;
  git_numstat : string -> string -> H -> result DiffSummary string * H
}.

(** [f64]'s [Display]. *)
Class FloatDisplay := f64_to_string : f64 -> string.

Definition to_string_value `{FloatDisplay} (v : AttrValue) : string :=
  match v with
  | AString s => s
  | AInteger n => Z_to_string n
  | AFloat f => f64_to_string f
  | ABoolean b => if b then "true" else "false"
  | ADuration d => Z_to_string (as_millis d) +:+ "ms"
  end.

Record GitRunOptions := mkGitOptions { go_run_branch : option string; go_base_sha : option string; go_meta_branch : option string }.

Record LifeConfig := mkLifeConfig {
  lc_events : EventConfig;
  lc_hooks : HookState;
  lc_graph : Graph;
  lc_read_only : bool;
  lc_run_dir : string;
  lc_work_dir : option string;
  lc_limit : Z;
  lc_run_control : bool;
  lc_artifact_globs : result (list string) string;
  lc_artifact_sink : bool;
  lc_git : option GitRunOptions;
  lc_push : bool;
  lc_start_node : option string;
  lc_metadata_writer : bool
}.

Definition INTERNAL_WORK_DIR : string := "internal.work_dir".
Definition GRAPH_GOAL : string := "graph.goal".

Section lifecycle.
Context `{HashOrder} `{JsonDisplay} `{FixedDisplay} `{FloatDisplay} `{RegexReplace} `{UsageModel Usage} `{BlobHashes} `{JsonCodec} {Host : Type} `{!ArtifactHost Host}.
Context `{!HookExecutor Host} `{!EventClock Host} `{!LifeHost Host} (cfg : LifeConfig).
Implicit Types (s : ExecutionState Usage) (w : LifeState Host).

Definition put_life_host (h : Host) w: LifeState Host := { w with lf_host := h }.

(** ** Artifacts (lifecycle/artifact.rs) *)

Definition artifact_globs : result (list string) CoreError :=
  match lc_artifact_globs cfg with
  | Ok globs => Ok globs
  | Err error => Err (OtherError ("invalid run.artifacts.include pattern: " +:+ error))
  end.

(** The ledger is built once. *)
Definition artifact_on_run_start : Graph -> callback Usage (LifeState Host) unit := fun _ s w =>
  match artifact_globs with
  | Err e => (Err e, st_context s, w)
  | Ok [] => (Ok tt, st_context s, w)
  | Ok _ =>
      match lf_ledger w with
      | Some _ => (Ok tt, st_context s, w)
      | None =>
          match stored_captures (lf_host w) with
          | (Err e, h) => (Err (OtherError ("failed to rebuild captured artifact ledger: " +:+ e)), st_context s, put_life_host h w)
          | (Ok ledger, h) => (Ok tt, st_context s, { put_life_host h w with lf_ledger := Some ledger })
          end
      end
  end.

Definition artifact_identity (a : ArtifactUpload) : string * string := (au_path a, au_sha256 a).

Definition captured_ledger w : list (string * string) := default [] (lf_ledger w).

Definition new_captured_assets (assets : list ArtifactUpload) w : list ArtifactUpload :=
  filterb (fun a => negb (bool_decide (artifact_identity a ∈ captured_ledger w))) assets.

(** An insertion into the set. *)
Definition record_captured_assets (assets : list ArtifactUpload) w : LifeState Host :=
  { w with lf_ledger := Some (foldl (fun ledger a => if bool_decide (artifact_identity a ∈ ledger) then ledger else ledger ++ [artifact_identity a])
                                (captured_ledger w) assets) }.

Definition node_notice (code node text error : string) w : LifeState Host :=
  notice (lc_events cfg) code ("[node: " +:+ node +:+ "] " +:+ text +:+ error) w.

Definition emit_collection_problem_notice (node : string) (c : ArtifactCollectionSummary) w : LifeState Host :=
  if ((acs_download_errors c =? 0) && (acs_hash_errors c =? 0))%bool then w
  else
    let parts := (if 0 <? acs_download_errors c then [Z_to_string (acs_download_errors c) +:+ " download error(s)"] else [])
                 ++ (if 0 <? acs_hash_errors c then [Z_to_string (acs_hash_errors c) +:+ " hash/read error(s)"] else []) in
    node_notice "artifact_collection_failed" node "artifact collection completed with " (str_join ", " parts) w.

(** [0..=3]: four tries. *)
Fixpoint persist_tries (tries : nat) (last_error : string) (id : StageId) (retry : Z) (assets : list ArtifactUpload) (h : Host)
    : result unit string * Host :=
  match tries with
  | O => (Err last_error, h)
  | S tries =>
      match upload_artifacts id retry assets h with
      | (Ok _, h) => (Ok tt, h)
      | (Err e, h) => persist_tries tries e id retry assets h
      end
  end.

Definition persist_artifacts (id : StageId) (retry : Z) (assets : list ArtifactUpload) (h : Host) : result unit string * Host :=
  if lc_artifact_sink cfg then persist_tries 4 "artifact upload failed" id retry assets h
  else (Err "artifact sink is not configured", h).

Definition artifact_after_attempt (a : AttemptResultContext Node Usage) : callback Usage (LifeState Host) unit := fun s w =>
  match artifact_globs with
  | Err e => (Err e, st_context s, w)
  | Ok [] => (Ok tt, st_context s, w)
  | Ok globs =>
      let node := node_id (arc_node a) in
      let scope := stage_scope_for (lf_tracker w) s node in
      let visit := sco_visit scope in
      let node_slug := if visit <=? 1 then node else node +:+ "-visit_" +:+ Z_to_string visit in
      match capture_dir (lf_host w) with
      | (Err e, h) => (Err (OtherError e), st_context s, put_life_host h w)
      | (Ok _, h) =>
          match collect_artifacts globs h with
          | (Err e, h) => (Ok tt, st_context s, node_notice "artifact_collection_failed" node "artifact collection failed: " e (put_life_host h w))
          | (Ok summary, h) =>
              let w := emit_collection_problem_notice node summary (put_life_host h w) in
              match new_captured_assets (acs_captured_assets summary) w with
              | [] => (Ok tt, st_context s, w)
              | assets =>
                  match persist_artifacts (scope_stage_id scope) (arc_attempt a) assets (lf_host w) with
                  | (Err e, h) => (Ok tt, st_context s, node_notice "artifact_upload_failed" node "artifact upload failed: " e (put_life_host h w))
                  | (Ok _, h) =>
                      let w := record_captured_assets assets (put_life_host h w) in
                      (Ok tt, st_context s,
                       foldl (fun w x => emit_scoped (lc_events cfg)
                                (ArtifactCaptured node (arc_attempt a) node_slug (au_path x) (au_mime x) (au_md5 x) (au_sha256 x) (au_bytes x)) scope w)
                         w assets)
                  end
              end
          end
      end
  end.

Definition set_updates (u : gmap string Value) (r : NodeResult Usage) : NodeResult Usage :=
  mkResult (with_context_updates (fun _ => u) (outcome r)) (wall_time r) (inference_time r) (tool_time r) (attempts r) (max_attempts r).

Definition artifact_after_node (n : Node) (r : NodeResult Usage) : callback Usage (LifeState Host) (NodeResult Usage) := fun s w =>
  let '(offloaded, updates, h) := offload_large_values (lc_read_only cfg) (context_updates (outcome r)) (lf_host w) in
  let w := put_life_host h w in
  let w := match offloaded with
           | Ok _ => w
           | Err e => node_notice "artifact_offload_failed" (node_id n) "artifact offload failed: " (artifact_error_to_string e) w
           end in
  let '(synced, updates, h) := sync_artifacts_to_env (normalize_durable_updates updates) (lf_host w) in
  let w := put_life_host h w in
  let w := match synced with
           | Ok _ => w
           | Err e => node_notice "artifact_sync_failed" (node_id n) "artifact sync failed: " (artifact_error_to_string e) w
           end in
  (Ok (set_updates updates r), st_context s, w).
(** ** Git checkpoints (lifecycle/git.rs) *)

(** The checkpoint that goes to the metadata branch. *)
Definition build_checkpoint (n : Node) (r : NodeResult Usage) (next : option string) s (now : DateTime) : Checkpoint := {|
  ck_timestamp := now; ck_current_node := node_id n; ck_completed_nodes := completed_nodes s; ck_node_retries := node_retries s;
  ck_context_values := durable_context_snapshot (st_context s); ck_node_outcomes := checkpoint_outcomes n r s; ck_next_node_id := next;
  ck_git_commit_sha := None; ck_loop_failure_signatures := ∅; ck_restart_failure_signatures := ∅; ck_node_visits := node_visits s
|}.

Definition put_git (g : option GitCheckpointResult) w : LifeState Host := { w with lf_git_result := g }.
Definition put_last_sha (sha : option string) w : LifeState Host := { w with lf_last_git_sha := sha }.

(** The time since an instant (fabro-util time.rs). *)
Definition elapsed_since (started : Z) w : Z := default u64_max (in_bounds 0 u64_max (Z.quot (Z.max 0 (instant_now (lf_host w) - started)) 1000000)).

Definition metadata_branch : option string := lc_git cfg ≫= go_meta_branch.

Definition put_metadata (st : MetadataRuntimeState) w : LifeState Host := { w with lf_metadata := st }.

Definition emit_metadata_warning (code message : string) (transient : bool) w : LifeState Host :=
  let '(warn, st) := mark_metadata_degraded transient (instant_now (lf_host w)) (lf_metadata w) in
  let w := put_metadata st w in
  if warn then notice (lc_events cfg) code message w else w.

Definition emit_metadata_snapshot_failed (phase : MetadataSnapshotPhase) (branch : string) (started : Z) (kind : MetadataSnapshotFailureKind)
    (message : string) (causes : list string) (commit_sha : option string) (entry_count bytes : option Z) (scope : option StageScope) w : LifeState Host :=
  emit_with_scope (lc_events cfg)
    (MetadataSnapshotFailed phase branch (elapsed_since started w) kind message causes commit_sha entry_count bytes) scope w.

(** A failure that is not a push: reported, and for good. *)
Definition metadata_write_failed (phase : MetadataSnapshotPhase) (branch : string) (started : Z) (kind : MetadataSnapshotFailureKind)
    (message : string) (causes : list string) (scope : option StageScope) w : option string * LifeState Host :=
  (None, emit_metadata_warning "checkpoint_metadata_write_failed" message false
           (emit_metadata_snapshot_failed phase branch started kind message causes None None None scope w)).

Definition write_metadata_snapshot (phase : MetadataSnapshotPhase) (branch : string) (started : Z) (dump : RunProjection) (message : string)
    (scope : option StageScope) w : option string * LifeState Host :=
  if (metadata_suspended (lf_metadata w)
      || match phase with MpCheckpoint => metadata_checkpoint_suspended (instant_now (lf_host w)) (lf_metadata w) | _ => false end
      || negb (lc_metadata_writer cfg))%bool
  then (None, w)
  else
    match write_snapshot dump message (lf_host w) with
    | (Err (error, causes), h) =>
        metadata_write_failed phase branch started MfWrite ("failed to write checkpoint metadata: " +:+ error) causes scope (put_life_host h w)
    | (Ok snapshot, h) =>
        let w := put_life_host h w in
        let w :=
          match ms_push_error snapshot with
          | Some detail =>
              let message := "failed to push metadata ref refs/heads/" +:+ branch +:+ ": " +:+ detail in
              emit_metadata_warning "checkpoint_metadata_push_failed" message (push_failure_is_transient detail h)
                (emit_metadata_snapshot_failed phase branch started MfPush message [] (Some (ms_commit_sha snapshot))
                   (Some (ms_entry_count snapshot)) (Some (ms_bytes snapshot)) scope w)
          | None =>
              let w := put_metadata (clear_metadata_degraded (lf_metadata w)) w in
              emit_with_scope (lc_events cfg) (MetadataSnapshotCompleted phase branch (elapsed_since started w) (ms_entry_count snapshot)
                                                 (ms_bytes snapshot) (ms_commit_sha snapshot)) scope w
          end in
        (Some (ms_commit_sha snapshot), w)
    end.

(** The two phases differ in what they dump and in the words they use. *)
Definition phase_text (phase : MetadataSnapshotPhase) : string :=
  match phase with MpInit => "init" | MpCheckpoint => "checkpoint" | MpFinalize => "finalize" end.

Definition snapshot_message (phase : MetadataSnapshotPhase) : string := match phase with MpInit => "init run" | _ => phase_text phase end.

Definition with_checkpoint (checkpoint : option Checkpoint) (p : RunProjection) : RunProjection :=
  match checkpoint with
  | None => p
  | Some ck => { p with rp_checkpoints := rp_checkpoints p ++ [mkCheckpointRecord 0 ck (mkRunDiff None None)] }
  end.

Definition metadata_off (phase : MetadataSnapshotPhase) w : bool :=
  (negb (lc_metadata_writer cfg)
   || match phase with
      | MpCheckpoint => metadata_checkpoint_suspended (instant_now (lf_host w)) (lf_metadata w)
      | _ => metadata_suspended (lf_metadata w)
      end)%bool.

(** The snapshot of the metadata branch, if there is one, and the commit it made. *)
Definition shadow_snapshot (phase : MetadataSnapshotPhase) (scope : option StageScope) (checkpoint : option Checkpoint) w
    : option string * LifeState Host :=
  match metadata_branch with
  | None => (None, w)
  | Some branch =>
      if metadata_off phase w then (None, w)
      else
        let started := instant_now (lf_host w) in
        let w := emit_with_scope (lc_events cfg) (MetadataSnapshotStarted phase branch) scope w in
        match run_state (lf_host w) with
        | (Err (error, causes), h) =>
            metadata_write_failed phase branch started MfLoadState
              ("failed to load run state for metadata " +:+ phase_text phase +:+ ": " +:+ error) causes scope (put_life_host h w)
        | (Ok p, h) =>
            let w := put_life_host h w in
            let p := with_checkpoint checkpoint p in
            match dump_error p h with
            | Some (error, causes) =>
                metadata_write_failed phase branch started MfWrite
                  ("failed to build run dump for metadata " +:+ phase_text phase +:+ ": " +:+ error) causes scope w
            | None => write_metadata_snapshot phase branch started p (snapshot_message phase) scope w
            end
        end
  end.

Definition git_on_run_start : Graph -> callback Usage (LifeState Host) unit := fun _ s w =>
  (Ok tt, st_context s, (shadow_snapshot MpInit None None (put_git None (put_last_sha None w))).2).

(** The push of the run's branch, at most one. *)
Definition push_run_branch w : list PushResult * LifeState Host :=
  match (if lc_push cfg then lc_git cfg ≫= go_run_branch else None) with
  | None => ([], w)
  | Some branch =>
      match git_push branch (lf_host w) with
      | (Ok attempts, h) => ([mkPush branch true None attempts], put_life_host h w)
      | (Err (error, tail, attempts), h) =>
          ([mkPush branch false tail attempts],
           notice (lc_events cfg) "git_push_failed" ("Failed to push run branch " +:+ branch +:+ ": " +:+ error) (put_life_host h w))
      end
  end.

Definition diff_failed (n : Node) (text error : string) w : LifeState Host := node_notice "git_diff_failed" (node_id n) text error w.

(** The patch since the last checkpoint and the statistics since the base. *)
Definition checkpoint_diff (n : Node) (sha : string) w : option string * option DiffSummary * LifeState Host :=
  let base := lc_git cfg ≫= go_base_sha in
  match opt_filter (fun p => negb (String.eqb p sha)) (or_else (lf_last_git_sha w) base) with
  | None => (None, None, w)
  | Some prev =>
      let '(patch, h) := git_diff prev (lf_host w) in
      let '(numstat, h) :=
        match base with
        | Some base => if String.eqb base sha then (None, h) else let '(x, h) := git_numstat base sha h in (Some x, h)
        | None => (None, h)
        end in
      let w := put_life_host h w in
      let '(diff, w) :=
        match patch with
        | Ok patch => (if str_is_empty patch then None else Some patch, w)
        | Err e => (None, diff_failed n "git diff failed: " e w)
        end in
      let '(summary, w) :=
        match numstat with
        | Some (Ok x) => (Some x, w)
        | Some (Err e) => (None, diff_failed n "git diff stats failed: " e w)
        | None => (None, w)
        end in
      (diff, summary, w)
  end.

Definition git_on_checkpoint (n : Node) (r : NodeResult Usage) (next : option string) : callback Usage (LifeState Host) unit := fun s w =>
  if (bool_decide (lc_start_node cfg = Some (node_id n)) || negb (is_some (lc_git cfg)))%bool then
    (Ok tt, st_context s, put_git None w)
  else
    let scope := stage_scope_for (lf_tracker w) s (node_id n) in
    let checkpoint := build_checkpoint n r next s (utc_now (lf_host w)) in
    let '(shadow, w) := shadow_snapshot MpCheckpoint (Some scope) (Some checkpoint) w in
    match git_commit (node_id n) (StageOutcome_to_string (status (outcome r))) (Z.of_nat (length (completed_nodes s))) shadow (lf_host w) with
    | (Err e, h) =>
        let w := emit_scoped (lc_events cfg) (CheckpointFailed (node_id n) e) scope (put_life_host h w) in
        (Err (OtherError ("git checkpoint commit failed for node '" +:+ node_id n +:+ "': " +:+ e)), st_context s, w)
    | (Ok sha, h) =>
        let '(pushes, w) := push_run_branch (put_life_host h w) in
        let '(diff, summary, w) := checkpoint_diff n sha w in
        (Ok tt, st_context s, put_git (Some (mkGitCheckpoint (Some sha) pushes diff summary)) (put_last_sha (Some sha) w))
    end.

(** ** Callbacks in sequence *)

Abbreviation Life := (callback Usage (LifeState Host)).

Definition life_bind {A B} (m : Life A) (k : A -> Life B) : Life B := fun s w =>
  let '(r, c, w) := m s w in
  match r with Ok a => k a (set_context c s) w | Err e => (Err e, c, w) end.

Definition life_set (key : string) (value : Value) : Life unit := fun s w => (Ok tt, ctx_set key value (st_context s), w).
Definition life_update (f : LifeState Host -> LifeState Host) : Life unit := fun s w => (Ok tt, st_context s, f w).

Local Notation "'let*' x ':=' m 'in' k" := (life_bind m (fun x => k)) (at level 200, x pattern, m at level 100, k at level 200).
Local Notation "m '>>>' k" := (life_bind m (fun _ => k)) (at level 100, k at level 200, right associativity).

(** ** The parts *)

Definition event_part : RunLifecycle Graph Node Edge Usage (LifeState Host) := EventLifecycle (lc_events cfg).
Definition hook_part : RunLifecycle Graph Node Edge Usage (LifeState Host) := HookLifecycle (lc_hooks cfg) lf_host put_life_host.
Definition fidelity_part : RunLifecycle Graph Node Edge Usage (LifeState Host) :=
  FidelityLifecycle (lc_graph cfg) (lc_read_only cfg) (lc_run_dir cfg) lf_host put_life_host lf_fidelity
    (fun f w => { w with lf_fidelity := f }).
Definition breaker_part : RunLifecycle Graph Node Edge Usage (LifeState Host) :=
  CircuitBreakerLifecycle (lc_limit cfg) lf_breaker (fun b w => { w with lf_breaker := b }).

(** ** Pauses (run_control.rs) *)

Definition wait_if_paused : Life unit := life_update (fun w =>
  if (lc_run_control cfg && pause_requested (lf_host w))%bool then
    let w := emit (lc_events cfg) EvRunPaused w in
    emit (lc_events cfg) EvRunUnpaused (put_life_host (wait_unpaused (lf_host w)) w)
  else w).

Definition activate (what node : string) : Life unit := fun s w =>
  match sandbox_activate (lf_host w) with
  | (Ok _, h) => (Ok tt, st_context s, put_life_host h w)
  | (Err e, h) => (Err (ContextError ("failed to activate sandbox " +:+ what +:+ " " +:+ node) e), st_context s, put_life_host h w)
  end.

(** ** The composition (lifecycle/mod.rs) *)

(** Graph attributes in the order of the map; the goal first. *)
Definition seed_graph_context (c : Context) : Context :=
  let c := if str_is_empty (graph_goal (lc_graph cfg)) then c else ctx_set GRAPH_GOAL (JString (graph_goal (lc_graph cfg))) c in
  foldl (fun c kv => ctx_set (graph_attr_key kv.1) (JString (to_string_value kv.2)) c) c (hash_iter (graph_attrs (lc_graph cfg))).

Definition seed_context : Life unit := fun s w =>
  let c := if lf_initial_resume w then st_context s else seed_graph_context (st_context s) in
  let c := ctx_set INTERNAL_RUN_ID (JString (cfg_run_id (lc_events cfg))) c in
  let c := match lc_work_dir cfg with Some wd => ctx_set INTERNAL_WORK_DIR (JString wd) c | None => c end in
  (Ok tt, c, { w with lf_initial_resume := false }).

Definition workflow_on_run_start (g : Graph) : Life unit :=
  seed_context >>> on_run_start fidelity_part g >>> artifact_on_run_start g >>> on_run_start event_part g >>>
  on_run_start hook_part g >>> git_on_run_start g.

Definition workflow_before_node (n : Node) : Life (NodeDecision Usage) :=
  wait_if_paused >>> activate "before node" (node_id n) >>>
  life_update (fun w => put_life_host (on_node (node_id n) (lf_host w)) w) >>>
  life_update (fun w => put_tracker (tracker_begin_node (lf_tracker w) (node_id n)) w) >>>
  life_set INTERNAL_STAGE_EXECUTION_ORDINAL JNull >>> before_node fidelity_part n.

(** The stage's ordinal, reserved once, and shown in the context. *)
Definition ensure_execution (node : string) : Life unit := fun s w =>
  let '(execution, t) := tracker_ensure (lf_tracker w) node (stage_visit s node) in
  (Ok tt, ctx_set INTERNAL_STAGE_EXECUTION_ORDINAL (JNum (PosInt (sid_visit (ex_stage_id execution)))) (st_context s), put_tracker t w).

Definition workflow_before_attempt (a : AttemptContext Node) : Life (NodeDecision Usage) :=
  let* d := before_attempt hook_part a in
  match d with
  | NContinue => ensure_execution (node_id (ac_node a)) >>> before_attempt event_part a
  | decision => pass decision
  end.

Definition workflow_after_attempt (a : AttemptResultContext Node Usage) : Life unit :=
  wait_if_paused >>> activate "after node attempt" (node_id (arc_node a)) >>> artifact_after_attempt a >>> after_attempt event_part a.

Definition workflow_after_node (n : Node) (r : NodeResult Usage) : Life (NodeResult Usage) :=
  let* r := after_node breaker_part n r in
  let* r := artifact_after_node n r in
  let* r := after_node event_part n r in
  after_node hook_part n r.

Definition workflow_after_record (n : Node) (r : NodeResult Usage) : Life unit := fun s w =>
  (Ok tt, apply_recorded_outcome_context (node_id n) (outcome r) (default 0 (node_retries s !! node_id n)) (st_context s), w).

(** A loop restart that nothing stopped is announced when the run starts again. *)
Definition mark_restart (x : EdgeContext Edge Usage) : Life unit := life_update (fun w =>
  match ec_edge x with
  | Some edge => if loop_restart edge then put_restarted (Some (ec_from x, ec_to x)) w else w
  | None => w
  end).

Definition workflow_on_edge_selected (x : EdgeContext Edge Usage) : Life EdgeDecision :=
  on_edge_selected fidelity_part x >>> on_edge_selected event_part x >>>
  let* d := on_edge_selected hook_part x in
  match d with
  | EContinue =>
      let* d := on_edge_selected breaker_part x in
      match d with
      | EContinue => mark_restart x >>> pass d
      | _ => pass d
      end
  | decision => pass decision
  end.

Definition workflow_on_checkpoint (n : Node) (r : NodeResult Usage) (next : option string) : Life unit :=
  ensure_execution (node_id n) >>> git_on_checkpoint n r next >>> on_checkpoint event_part n r next >>>
  on_checkpoint hook_part n r next >>> life_update (put_git None).

Definition WorkflowLifecycle : RunLifecycle Graph Node Edge Usage (LifeState Host) :=
  mkLifecycle workflow_on_run_start (on_terminal_reached event_part) workflow_before_node workflow_before_attempt workflow_after_attempt
    workflow_after_node workflow_after_record workflow_on_edge_selected workflow_on_checkpoint (on_run_end hook_part).

Definition restore_circuit_breaker (loop_sigs restart_sigs : gmap string Z) w : LifeState Host := { w with lf_breaker := mkBreaker loop_sigs restart_sigs }.
End lifecycle.
