(* ===== verification/Resume.v ===== *)
(** * Executing and resuming a run (pipeline/execute.rs, pipeline/types.rs, operations/resume.rs)

    A run that was interrupted is resumed from its latest checkpoint: the projection of the
    stored events gives the checkpoint and the stages that exist, and from them come the
    state of the executor, the tables of the circuit breaker, the fidelity flag and the
    stage tracker.  The file has that path and what the execute phase makes of the
    executor's answer.

    The theorems join the parts: what the checkpoint callback of [Lifecycle] emits, stored
    and reduced by [Reducer], is enough to rebuild the state in which the executor went on;
    and the two places where it is not. *)

From S2P Require Import Prelude RustStr RustNum DecText GraphTypes Context Outcome Core Failure CircuitBreaker Blobs Artifact ArtifactFacts Preamble Fidelity Hooks.
From S2P Require Import Lint Executor Condition Routing Workflow StageIds RunStatus EventScan Timing Billing Events Projection Reducer ReducerProps.
From S2P Require Import StageExec EventLife Lifecycle.
From coqutil Require Import Datatypes.RecordSetters.
Import OCamlLikeNotations.
Local Open Scope string_scope.
Local Open Scope list_scope.
Local Open Scope Z_scope.

(** ** The checkpoint of a resumed run *)

Definition normalize_checkpoint_for_resume `{BlobHashes} (ck : Checkpoint) : Checkpoint :=
  { ck with ck_context_values := normalize_durable_updates (strip_transient_keys (ck_context_values ck));
            ck_node_outcomes := normalize_durable_outcomes (ck_node_outcomes ck) }.

Record ResumeState := mkResume { rs_checkpoint : Checkpoint; rs_stage_executions : NodeExecutions }.

Definition ResumeState_from_projection (p : RunProjection) : option ResumeState :=
  record ← last (rp_checkpoints p);
  Some (mkResume (cr_checkpoint record) (seed_from_projection p (cr_seq record))).

Definition archived_rejection_message (run_id : string) : string :=
  "run " +:+ run_id +:+ " is archived; run `fabro unarchive " +:+ run_id +:+ "` to restore it and try again".

(** The checks of [resume]; an error is its text. *)
Definition resume_guard (run_id : string) (p : RunProjection) : result ResumeState string :=
  if is_some (rp_archived_at p) then Err (archived_rejection_message run_id)
  else
    let finished := "run already finished successfully — nothing to resume" in
    match rp_status p with
    | RsSucceeded _ => Err finished
    | _ =>
        if is_some_and (fun c => match con_status c with Succeeded | PartiallySucceeded | Skipped => true | Failed _ => false end) (rp_conclusion p)
        then Err finished
        else match ResumeState_from_projection p with
             | Some rs => Ok rs
             | None => Err "no checkpoint to resume from"
             end
    end.

(** ** The state of the executor *)

(** Visits are missing from the checkpoints of old versions. *)
Definition resumed_visits (ck : Checkpoint) : gmap string Z :=
  if decide (ck_node_visits ck = ∅) then foldl (fun m id => <[id := default 0 (m !! id) + 1]> m) ∅ (ck_completed_nodes ck)
  else ck_node_visits ck.

Definition resumed_current (g : Graph) (ck : Checkpoint) : string :=
  match ck_next_node_id ck with
  | Some next => next
  | None => match outgoing_edges g (ck_current_node ck) with edge :: _ => edge_to edge | [] => ck_current_node ck end
  end.

Definition resumed_state `{HashOrder} (g : Graph) (ck : Checkpoint) : result (ExecutionState Usage) CoreError :=
  match find_start_node g with
  | None => Err NoStartNode
  | Some _ =>
      Ok (mkState (ck_context_values ck) (resumed_current g ck) (ck_completed_nodes ck) (ck_node_outcomes ck) (ck_node_retries ck)
            (resumed_visits ck) (Z.of_nat (length (ck_completed_nodes ck))) None false)
  end.

(** A run that is not resumed may start with a context. *)
Definition fresh_state `{HashOrder} (g : Graph) (seed : option Context) : result (ExecutionState Usage) CoreError :=
  match find_start_node g with
  | None => Err NoStartNode
  | Some start => Ok (set_context (default context_new seed) (state_at (node_id start)))
  end.

(** ** What the lifecycle is given *)

Definition used_full_fidelity (ck : Checkpoint) : bool :=
  match ck_context_values ck !! INTERNAL_FIDELITY with Some (JString f) => String.eqb f (Fidelity_to_string FFull) | _ => false end.

Definition resumed_life {Host} (h : Host) (log : list RunEvent) (rs : ResumeState) (ck : Checkpoint) : LifeState Host :=
  mkLife h log (rs_stage_executions rs) (breaker_restore (ck_loop_failure_signatures ck) (ck_restart_failure_signatures ck))
    (mkFidelity None (used_full_fidelity ck)) None None None true None MdHealthy.

(** ** The answer of the execute phase *)

Inductive ExecuteError := ExCancelled | ExEngine (msg : string) (source : option CoreError).

(** The answer of the executor, the context of the run and a report of a stall.  [initial]
    is the context the run began with, which the run shares: it has what was written to it
    since, up to the first loop restart. *)
Definition executed_outcome {Host} `{!EventClock Host} (cfg : EventConfig) (g : Graph) (initial : Context)
    (answer : result (Outcome Usage * ExecutionState Usage) CoreError) (w : LifeState Host)
    : result (Outcome Usage) ExecuteError * Context * LifeState Host :=
  match answer with
  | Ok (o, final) =>
      (Ok (if is_failure (status o) then o else with_notes (Some "Pipeline completed") outcome_success), st_context final, w)
  | Err (StallTimeout id) =>
      let idle := default 0 (stall_timeout g) / 1000000000 in
      (Err (ExEngine ("stall watchdog: node " +:+ dq +:+ id +:+ dq +:+ " had no activity for " +:+ Z_to_string idle +:+ "s") None),
       initial, emit cfg (StallWatchdogTimeout id idle) w)
  | Err Cancelled => (Err ExCancelled, initial, w)
  | Err (Blocked msg) => (Err (ExEngine msg None), initial, w)
  | Err (ContextError msg source) => (Err (ExEngine "Pipeline lifecycle operation failed" (Some (ContextError msg source))), initial, w)
  | Err e => (Err (ExEngine (CoreError_to_string e) None), initial, w)
  end.

(** ** Durable values stay as they are *)

Section durable.
Context `{BlobHashes}.

Lemma normalize_value_idem v : normalize_durable_value (normalize_durable_value v) = normalize_durable_value v.
Proof.
  induction v as [| | |t|l IH|l IH] using value_nested_ind; try done; cbn [normalize_durable_value].
  - destruct (parse_managed_blob_file_ref t) as [h|] eqn:Ht; cbn [normalize_durable_value]; [|by rewrite Ht]. by rewrite blob_ref_not_managed.
  - f_equal. rewrite <- list_fmap_compose. apply list_fmap_ext. intros i v Hv. by eapply (Forall_lookup_1 _ _ _ _ IH).
  - f_equal. rewrite <- list_fmap_compose. apply list_fmap_ext. intros i [k v] Hv. cbn. f_equal. by apply (Forall_lookup_1 _ _ _ _ IH Hv).
Qed.

Lemma normalize_updates_idem (m : gmap string Value) : normalize_durable_updates (normalize_durable_updates m) = normalize_durable_updates m.
Proof. unfold normalize_durable_updates. rewrite <- map_fmap_compose. apply map_fmap_ext. intros k v _. apply normalize_value_idem. Qed.

Lemma normalize_outcomes_idem {M} (m : gmap string (Outcome M)) : normalize_durable_outcomes (normalize_durable_outcomes m) = normalize_durable_outcomes m.
Proof.
  unfold normalize_durable_outcomes. rewrite <- map_fmap_compose. apply map_fmap_ext. intros k o _. unfold compose, with_context_updates.
  cbn [status preferred_label suggested_next_ids context_updates jump_to_node notes failure usage files_touched timing]. by rewrite normalize_updates_idem.
Qed.

Lemma strip_lookup (m : gmap string Value) k : strip_transient_keys m !! k = if bool_decide (k ∈ TRANSIENT_CONTEXT_KEYS) then None else m !! k.
Proof.
  unfold strip_transient_keys. generalize TRANSIENT_CONTEXT_KEYS as l. intros l. revert m. induction l as [|j l IH]; intros m; cbn; [done|].
  rewrite IH. destruct (decide (k = j)) as [->|Hk].
  - rewrite lookup_delete_eq. rewrite (bool_decide_true (j ∈ j :: l)) by by left. by destruct (bool_decide _).
  - rewrite lookup_delete_ne by done. by rewrite (bool_decide_ext (k ∈ j :: l) (k ∈ l)) by set_solver.
Qed.

Lemma durable_idem (m : gmap string Value) :
  normalize_durable_updates (strip_transient_keys (normalize_durable_updates (strip_transient_keys m))) = normalize_durable_updates (strip_transient_keys m).
Proof.
  rewrite <- (normalize_updates_idem (strip_transient_keys m)) at 2. f_equal. apply map_eq. intros k. rewrite strip_lookup.
  case_bool_decide as Hk; [|done]. unfold normalize_durable_updates. rewrite lookup_fmap, strip_lookup, bool_decide_true by done. done.
Qed.

(** A key that is not kept can be set. *)
Lemma durable_transient k v (c : Context) : k ∈ TRANSIENT_CONTEXT_KEYS -> durable_context_snapshot (ctx_set k v c) = durable_context_snapshot c.
Proof.
  intros Hk. unfold durable_context_snapshot, context_snapshot, ctx_set. f_equal. apply map_eq. intros j. rewrite !strip_lookup.
  case_bool_decide as Hj; [done|]. by rewrite lookup_insert_ne by (intros ->; done).
Qed.
End durable.

(** ** What a callback adds to the log *)

Definition quiet_event (e : RunEvent) : Prop := exists name, ev_body e = BOther name.

Section checkpoint.
Context `{HashOrder} `{JsonDisplay} `{FixedDisplay} `{FloatDisplay} `{RegexReplace} `{UsageModel Usage} `{BlobHashes} `{JsonCodec}.
Context {Host : Type} `{!ArtifactHost Host} `{!HookExecutor Host} `{!EventClock Host} `{!LifeHost Host} (cfg : LifeConfig).
Implicit Types (s : ExecutionState Usage) (w : LifeState Host) (p : RunProjection).

(** Events that the reducer ignores, and the tables of the run as they were. *)
Definition quietly w w' : Prop :=
  (exists l, lf_log w' = lf_log w ++ l /\ Forall quiet_event l) /\ lf_tracker w' = lf_tracker w /\ lf_breaker w' = lf_breaker w.

#[local] Instance quietly_preorder : PreOrder quietly.
Proof.
  split.
  - intros w. split; [|done]. exists []. by rewrite app_nil_r.
  - intros w1 w2 w3 [(l1 & L1 & Q1) [T1 B1]] [(l2 & L2 & Q2) [T2 B2]]. split; [|by rewrite T2, T1, B2, B1].
    exists (l1 ++ l2). rewrite L2, L1, app_assoc. split; [done|]. by apply Forall_app.
Qed.

Lemma emit_quiet e scope w : (exists name, event_body_from_event e = BOther name) -> quietly w (emit_with_scope (lc_events cfg) e scope w).
Proof. intros He. destruct w. split; [|done]. eexists. split; [done|]. by repeat constructor. Qed.

Lemma host_quiet h w : quietly w (put_life_host h w).
Proof. destruct w. split; [|done]. exists []. by rewrite app_nil_r. Qed.
Lemma git_field_quiet g w : quietly w (put_git g w).
Proof. destruct w. split; [|done]. exists []. by rewrite app_nil_r. Qed.
Lemma sha_field_quiet sha w : quietly w (put_last_sha sha w).
Proof. destruct w. split; [|done]. exists []. by rewrite app_nil_r. Qed.

Lemma foldl_quiet {A} (f : LifeState Host -> A -> LifeState Host) l w : (forall w a, quietly w (f w a)) -> quietly w (foldl f w l).
Proof. intros Hf. revert w. induction l as [|a l IH]; intros w; cbn; [done|]. etrans; [apply Hf|apply IH]. Qed.

Lemma notice_quiet code node text error w : quietly w (node_notice cfg code node text error w).
Proof. apply emit_quiet. by eexists. Qed.

Lemma metadata_field_quiet st w : quietly w (put_metadata st w).
Proof. destruct w. split; [|done]. exists []. by rewrite app_nil_r. Qed.

Lemma warning_quiet code message transient w : quietly w (emit_metadata_warning cfg code message transient w).
Proof.
  unfold emit_metadata_warning. destruct (mark_metadata_degraded _ _ _) as [[] st]; [|apply metadata_field_quiet].
  etrans; [apply (metadata_field_quiet st)|]. apply emit_quiet. by eexists.
Qed.

Lemma failed_quiet phase branch started kind message causes sha entries bytes scope w :
  quietly w (emit_metadata_snapshot_failed cfg phase branch started kind message causes sha entries bytes scope w).
Proof. apply emit_quiet. by eexists. Qed.

Lemma write_failed_quiet phase branch started kind message causes scope w :
  quietly w (metadata_write_failed cfg phase branch started kind message causes scope w).2.
Proof. cbn [snd metadata_write_failed]. etrans; [apply failed_quiet|apply warning_quiet]. Qed.

Lemma write_quiet phase branch started p message scope w : quietly w (write_metadata_snapshot cfg phase branch started p message scope w).2.
Proof.
  unfold write_metadata_snapshot. destruct (_ || _)%bool; [done|]. destruct (write_snapshot p message (lf_host w)) as [[x|[error causes]] h].
  2: { etrans; [apply (host_quiet h)|apply write_failed_quiet]. }
  cbv zeta. destruct (ms_push_error x); cbn [snd]; (etrans; [apply (host_quiet h)|]).
  - etrans; [apply failed_quiet|apply warning_quiet].
  - etrans; [apply metadata_field_quiet|]. apply emit_quiet. by eexists.
Qed.

Lemma shadow_quiet phase scope ck w : quietly w (shadow_snapshot cfg phase scope ck w).2.
Proof.
  unfold shadow_snapshot. destruct (metadata_branch cfg) as [branch|]; [|done]. destruct (metadata_off cfg phase w); [done|]. cbv zeta.
  etrans; [apply (emit_quiet (MetadataSnapshotStarted phase branch) scope); by eexists|].
  destruct (run_state _) as [[p|[error causes]] h]; (etrans; [apply (host_quiet h)|]); [|apply write_failed_quiet].
  destruct (dump_error _ h) as [[error causes]|]; [apply write_failed_quiet|apply write_quiet].
Qed.

Lemma push_quiet w : quietly w (push_run_branch cfg w).2.
Proof.
  unfold push_run_branch. destruct (if lc_push cfg then _ else _) as [branch|]; [|done].
  destruct (git_push branch (lf_host w)) as [[attempts|[[error tail] attempts]] h]; cbn [snd]; [apply host_quiet|].
  etrans; [apply (host_quiet h)|]. apply emit_quiet. by eexists.
Qed.

Lemma diff_quiet n sha w : quietly w (checkpoint_diff cfg n sha w).2.
Proof.
  unfold checkpoint_diff. cbv zeta. destruct (opt_filter _ _) as [prev|]; [|done].
  destruct (git_diff prev (lf_host w)) as [patch h].
  destruct (match lc_git cfg ≫= go_base_sha with Some base => _ | None => _ end) as [numstat h'].
  transitivity (put_life_host h' w); [apply host_quiet|].
  destruct patch as [patch|e1], numstat as [[d|e2]|]; cbn [snd]; try done; try apply notice_quiet.
  etrans; [|apply notice_quiet]. apply notice_quiet.
Qed.

(** The git part leaves the context, and reports only what the reducer ignores. *)
Lemma git_quiet n r next s w c w' : git_on_checkpoint cfg n r next s w = (Ok tt, c, w') -> c = st_context s /\ quietly w w'.
Proof.
  unfold git_on_checkpoint. destruct (_ || _)%bool.
  { intros [= <- <-]. split; [done|apply git_field_quiet]. }
  cbv zeta. pose proof (shadow_quiet MpCheckpoint (Some (stage_scope_for (lf_tracker w) s (node_id n))) (Some (build_checkpoint n r next s (utc_now (lf_host w)))) w) as Q1.
  destruct (shadow_snapshot cfg _ _ _ w) as [shadow w1]. cbn [snd] in Q1.
  destruct (git_commit _ _ _ _ _) as [[sha|e] h]; [|done].
  pose proof (push_quiet (put_life_host h w1)) as Q2. destruct (push_run_branch cfg _) as [pushes w2]. cbn [snd] in Q2.
  pose proof (diff_quiet n sha w2) as Q3. destruct (checkpoint_diff cfg n sha w2) as [[d sm] w3]. cbn [snd] in Q3.
  intros [= <- <-]. split; [done|]. etrans; [exact Q1|]. etrans; [apply (host_quiet h)|]. etrans; [exact Q2|]. etrans; [exact Q3|].
  etrans; [apply (sha_field_quiet (Some sha))|apply git_field_quiet].
Qed.

(** The event part stores the checkpoint, and what git did. *)
Lemma event_checkpoint n r next s w :
  exists l,
    event_on_checkpoint (lc_events cfg) n r next s w
    = (Ok tt, st_context s, (event_on_checkpoint (lc_events cfg) n r next s w).2)
    /\ lf_log (event_on_checkpoint (lc_events cfg) n r next s w).2
       = lf_log w ++ to_run_event_at (cfg_run_id (lc_events cfg)) (checkpoint_event n r next s w) (utc_now (lf_host w))
                       (Some (stage_scope_for (lf_tracker w) s (node_id n))) :: l
    /\ Forall quiet_event l
    /\ lf_tracker (event_on_checkpoint (lc_events cfg) n r next s w).2 = lf_tracker w
    /\ lf_breaker (event_on_checkpoint (lc_events cfg) n r next s w).2 = lf_breaker w.
Proof.
  unfold event_on_checkpoint. cbv zeta. cbn [snd].
  set (scope := stage_scope_for (lf_tracker w) s (node_id n)). set (w1 := emit_scoped _ _ scope w).
  assert (lf_log w1 = lf_log w ++ [to_run_event_at (cfg_run_id (lc_events cfg)) (checkpoint_event n r next s w) (utc_now (lf_host w)) (Some scope)]
          /\ lf_tracker w1 = lf_tracker w /\ lf_breaker w1 = lf_breaker w) as (Hl & Ht & Hb) by (destruct w; done).
  assert (quietly w1 match lf_git_result w with Some git => emit_git (lc_events cfg) n scope git w1 | None => w1 end) as [(l & Hl2 & Hq) [Ht2 Hb2]].
  { destruct (lf_git_result w) as [git|]; [|done]. unfold emit_git. cbv zeta. etrans.
    2: { apply foldl_quiet. intros w' q. apply emit_quiet. by eexists. }
    destruct (gc_commit_sha git); [|done]. apply emit_quiet. by eexists. }
  exists l. split; [done|]. rewrite Hl2, Hl, Ht2, Hb2, Ht, Hb, <- app_assoc. done.
Qed.

(** ** The store's side *)

(** The events under consecutive sequence numbers. *)
Fixpoint stored (seq : Z) (l : list RunEvent) : list EventEnvelope :=
  match l with [] => [] | e :: l => mkEnvelope seq e :: stored (seq + 1) l end.

Lemma stored_app seq a b : stored seq (a ++ b) = stored seq a ++ stored (seq + Z.of_nat (length a)) b.
Proof.
  revert seq. induction a as [|e a IH]; intros seq; cbn; [by rewrite Z.add_0_r|]. rewrite IH. do 3 f_equal. lia.
Qed.

Lemma live_ignored seq e p : quiet_event e -> live_event (mkEnvelope seq e) p = Ok { p with rp_last_event_at := ev_ts e }.
Proof. intros [name He]. unfold live_event, run_reduce. rewrite apply_event_body. unfold apply_body. cbn [env_event]. by rewrite He. Qed.

Lemma live_quiet l : forall seq p, Forall quiet_event l ->
  exists p', live_events (stored seq l) p = Ok p' /\ rp_checkpoints p' = rp_checkpoints p /\ rp_stages p' = rp_stages p.
Proof.
  induction l as [|e l IH]; intros seq p; [by eexists|]. intros [He Hl]%Forall_cons. cbn [stored]. rewrite live_cons, live_ignored by done.
  destruct (IH (seq + 1) { p with rp_last_event_at := ev_ts e } Hl) as (p' & Hp & Hc & Hs). exists p'. rewrite Hp, Hc, Hs. by destruct p.
Qed.

Lemma live_checkpoint seq e cp id p :
  ev_body e = BCheckpointCompleted cp -> ev_stage_id e = Some id -> 1 <= seq -> 1 <= sid_visit id ->
  exists p', live_event (mkEnvelope seq e) p = Ok p'
             /\ rp_checkpoints p' = rp_checkpoints p ++ [mkCheckpointRecord seq (checkpoint_from_props cp (ev_ts e)) (diff_from_checkpoint_props cp)].
Proof.
  intros Hb Hid Hseq Hv. unfold live_event, run_reduce. rewrite apply_event_body. unfold apply_body. cbn [env_event env_seq]. rewrite Hb.
  unfold apply_checkpoint_completed. rewrite Hid. unfold apply_checkpoint_to_stage. cbv zeta.
  set (p0 := { p with rp_last_event_at := ev_ts e }). assert (rp_checkpoints p0 = rp_checkpoints p) as Hp0 by (by destruct p).
  destruct (_ && _)%bool.
  { eexists. split; [reflexivity|]. cbn. by destruct p. }
  unfold stage_at_stored_stage_id, stage_entry, try_new_stage_id.
  destruct (Z.eqb_spec seq 0) as [?|_]; [lia|]. destruct (Z.eqb_spec (sid_visit id) 0) as [?|_]; [lia|].
  eexists. split; [reflexivity|]. cbn. destruct (is_some _); by destruct p.
Qed.

(** ** The tracker's ordinals start at one *)

Definition counts_from_one (t : NodeExecutions) : Prop :=
  map_Forall (fun _ nx => 0 <= nx_high_water nx /\ forall e, nx_active nx = Some e -> 1 <= sid_visit (ex_stage_id e)) t.

Lemma node_exec_counts t n : counts_from_one t -> 0 <= nx_high_water (node_exec t n).
Proof. intros Ht. unfold node_exec. destruct (t !! n) as [nx|] eqn:E; cbn; [|lia]. by apply (Ht n nx E). Qed.

Lemma reserve_counts t n v :
  counts_from_one t -> counts_from_one (reserve_locked t n v).2 /\ 1 <= sid_visit (ex_stage_id (reserve_locked t n v).1).
Proof.
  intros Ht. pose proof (node_exec_counts t n Ht) as Hn. unfold reserve_locked. cbn.
  assert (1 <= saturating_add_u32 (nx_high_water (node_exec t n)) 1) as Hs by (unfold saturating_add_u32; unfold u32_max; lia).
  split; [|done]. apply map_Forall_insert_2; [|done]. cbn. split; [lia|]. by intros e [= <-].
Qed.

Lemma ensure_counts t n v :
  counts_from_one t ->
  counts_from_one (tracker_ensure t n v).2 /\ 1 <= sid_visit (ex_stage_id (tracker_ensure t n v).1)
  /\ tracker_active (tracker_ensure t n v).2 n = Some (tracker_ensure t n v).1.
Proof.
  intros Ht. unfold tracker_ensure. destruct (tracker_active t n) as [e|] eqn:He.
  - cbn. split; [done|]. split; [|done]. unfold tracker_active in He. destruct (t !! n) as [nx|] eqn:E; [|done]. by apply (Ht n nx E).
  - destruct (reserve_counts t n v Ht) as [Hc Hv]. split; [done|]. split; [done|]. unfold tracker_active, reserve_locked. cbn. by rewrite lookup_insert_eq.
Qed.

(** ** The checkpoint callback *)

Lemma life_bind_ok {A B} (m : callback Usage (LifeState Host) A) (k : A -> callback Usage (LifeState Host) B) s w b c w' :
  life_bind m k s w = (Ok b, c, w') -> exists a c1 w1, m s w = (Ok a, c1, w1) /\ k a (set_context c1 s) w1 = (Ok b, c, w').
Proof. unfold life_bind. destruct (m s w) as [[[a|e] c1] w1]; [|done]. intros Hk. by exists a, c1, w1. Qed.

Lemma hook_checkpoint_quiet n r next s w c w' :
  on_checkpoint (hook_part cfg) n r next s w = (Ok tt, c, w') -> c = st_context s /\ quietly w w'.
Proof.
  cbn. unfold hook_on_checkpoint, lifecycle_run_hook. destruct (hl_runner (lc_hooks cfg)) as [runner|]; [|by intros [= <- <-]].
  destruct (run_hooks _ _ _ _) as [d h]. intros [= <- <-]. split; [done|apply host_quiet].
Qed.

(** The checkpoint the callback stores, of the state the executor is in. *)
Definition checkpoint_of n (r : NodeResult Usage) next s (cp : CheckpointCompletedProps) : Prop :=
  cp_current_node cp = node_id n /\ cp_completed_nodes cp = completed_nodes s /\ cp_node_retries cp = node_retries s
  /\ cp_context_values cp = durable_context_snapshot (st_context s) /\ cp_node_outcomes cp = checkpoint_outcomes n r s
  /\ cp_next_node_id cp = next /\ cp_node_visits cp = node_visits s.

Lemma signatures_kept b :
  breaker_restore (default ∅ (snapshot_failure_signatures b).1) (default ∅ (snapshot_failure_signatures b).2) = b.
Proof.
  destruct b as [l r]. unfold breaker_restore, snapshot_failure_signatures, nonempty_map. cbn.
  case_decide as Hl; case_decide as Hr; cbn; by rewrite ?Hl, ?Hr.
Qed.

Lemma checkpoint_emitted n r next s w c w' :
  workflow_on_checkpoint cfg n r next s w = (Ok tt, c, w') -> counts_from_one (lf_tracker w) ->
  exists pre e post cp id,
    lf_log w' = lf_log w ++ pre ++ e :: post /\ Forall quiet_event pre /\ Forall quiet_event post
    /\ ev_body e = BCheckpointCompleted cp /\ ev_stage_id e = Some id /\ 1 <= sid_visit id /\ checkpoint_of n r next s cp
    /\ breaker_restore (cp_loop_failure_signatures cp) (cp_restart_failure_signatures cp) = lf_breaker w'
    /\ durable_context_snapshot c = durable_context_snapshot (st_context s).
Proof.
  intros Hcb Hcounts. unfold workflow_on_checkpoint in Hcb.
  apply life_bind_ok in Hcb as ([] & c1 & w1 & K1 & Hcb). apply life_bind_ok in Hcb as ([] & c2 & w2 & K2 & Hcb).
  apply life_bind_ok in Hcb as ([] & c3 & w3 & K3 & Hcb). apply life_bind_ok in Hcb as ([] & c4 & w4 & K4 & Hcb).
  injection Hcb as <- <-.
  unfold ensure_execution in K1. destruct (ensure_counts (lf_tracker w) (node_id n) (stage_visit s (node_id n)) Hcounts) as (_ & Hv & Ha).
  destruct (tracker_ensure _ _ _) as [x t]. injection K1 as <- <-. cbn in Hv, Ha.
  apply git_quiet in K2 as [-> [(pre & L2 & Q2) [T2 B2]]]. cbn [event_part EventLifecycle on_checkpoint] in K3.
  match type of K3 with event_on_checkpoint _ _ _ _ ?s2 _ = _ =>
    destruct (event_checkpoint n r next s2 w2) as (post1 & E3 & L3 & Q3 & T3 & B3) end.
  rewrite K3 in E3, L3, T3, B3. injection E3 as ->. cbn [snd] in L3, T3, B3.
  apply hook_checkpoint_quiet in K4 as [-> [(post2 & L4 & Q4) [T4 B4]]].
  eexists pre, _, (post1 ++ post2), _, (ex_stage_id x). split_and!.
  - change (lf_log (put_git None w4)) with (lf_log w4). rewrite L4, L3, L2. by rewrite <- !app_assoc, <- app_comm_cons.
  - done.
  - by apply Forall_app.
  - reflexivity.
  - unfold to_run_event_at, stage_scope_for, stage_scope_from_execution. cbn [ev_stage_id].
    rewrite T2. change (lf_tracker (put_tracker t w)) with t. rewrite Ha. by destruct (ex_stage_id x).
  - done.
  - unfold checkpoint_of. split_and!; try done. cbn [cp_context_values st_context set_context]. apply durable_transient. set_solver.
  - change (lf_breaker (put_git None w4)) with (lf_breaker w4). rewrite B4, B3. exact (signatures_kept (lf_breaker w2)).
  - cbn [st_context set_context]. apply durable_transient. set_solver.
Qed.

(** A state without what is not kept: transient keys and paths of the host in the values,
    the node before the current one. *)
Definition durable_state s : ExecutionState Usage :=
  mkState (durable_context_snapshot (st_context s)) (st_current s) (completed_nodes s) (normalize_durable_outcomes (node_outcomes s))
    (node_retries s) (node_visits s) (stage_index s) None false.

(** Where a run is resumed that had no next node. *)
Definition resume_fallback (node : string) : string :=
  match outgoing_edges (lc_graph cfg) node with edge :: _ => edge_to edge | [] => node end.

(** The state in which a run goes on that is resumed after [step] had been chosen at [n]. *)
Definition resumed_at (n : Node) (step : NextStep) s : ExecutionState Usage :=
  durable_state (advance (default (resume_fallback (node_id n)) (next_node_id step)) s).

Lemma durable_advance t c s :
  durable_context_snapshot c = durable_context_snapshot (st_context s) ->
  durable_state (advance t (set_context c s)) = durable_state (advance t s).
Proof. intros Hc. unfold durable_state, advance, set_context. cbn -[durable_context_snapshot]. by rewrite Hc. Qed.

(** What the callback's events leave in the store is the state at the next node. *)
Lemma checkpoint_restored n r step s w c w' p seq start :
  workflow_on_checkpoint cfg n r (next_node_id step) s w = (Ok tt, c, w') -> counts_from_one (lf_tracker w) ->
  node_outcomes s !! node_id n = Some (outcome r) -> stage_index s = Z.of_nat (length (completed_nodes s)) -> node_visits s <> ∅ ->
  find_start_node (lc_graph cfg) = Some start -> 1 <= seq ->
  exists new p' rs,
    lf_log w' = lf_log w ++ new /\ live_events (stored seq new) p = Ok p' /\ ResumeState_from_projection p' = Some rs
    /\ let ck := normalize_checkpoint_for_resume (rs_checkpoint rs) in
       resumed_state (lc_graph cfg) ck = Ok (resumed_at n step (set_context c s))
       /\ breaker_restore (ck_loop_failure_signatures ck) (ck_restart_failure_signatures ck) = lf_breaker w'.
Proof.
  intros Hcb Hcounts Hout Hidx Hvis Hstart Hseq.
  destruct (checkpoint_emitted n r _ s w c w' Hcb Hcounts) as (pre & e & post & cp & id & Hlog & Qpre & Qpost & Hb & Hid & Hv & Hcp & Hbr & Hc).
  destruct (live_quiet pre seq p Qpre) as (p1 & Hp1 & Hc1 & _).
  destruct (live_checkpoint (seq + Z.of_nat (length pre)) e cp id p1 Hb Hid) as (p2 & Hp2 & Hc2); [lia|done|].
  destruct (live_quiet post (seq + Z.of_nat (length pre) + 1) p2 Qpost) as (p3 & Hp3 & Hc3 & _).
  exists (pre ++ e :: post), p3.
  assert (last (rp_checkpoints p3) = Some (mkCheckpointRecord (seq + Z.of_nat (length pre)) (checkpoint_from_props cp (ev_ts e)) (diff_from_checkpoint_props cp))) as Hlast
    by (rewrite Hc3, Hc2; apply last_snoc).
  unfold ResumeState_from_projection. rewrite Hlast. eexists. split; [done|]. split.
  { rewrite stored_app, live_app, Hp1. cbn [stored]. by rewrite live_cons, Hp2. }
  split; [reflexivity|].
  destruct Hcp as (E1 & E2 & E3 & E4 & E5 & E6 & E7). cbn [rs_checkpoint]. unfold normalize_checkpoint_for_resume. cbv zeta. split; [|done].
  unfold resumed_at. rewrite durable_advance by exact Hc.
  unfold resumed_state. rewrite Hstart. unfold resumed_visits, resumed_current, durable_state, advance.
  cbn -[durable_context_snapshot normalize_durable_updates normalize_durable_outcomes strip_transient_keys decide next_node_id].
  rewrite E1, E2, E3, E4, E5, E6, E7, Hidx. rewrite decide_False by done.
  unfold durable_context_snapshot, checkpoint_outcomes. rewrite durable_idem, normalize_outcomes_idem.
  rewrite insert_id by done. by destruct (next_node_id step).
Qed.

(** C4: checkpoints restore the run.  Let the executor call the checkpoint callback of the
    lifecycle after a node, the next step being [step], and number the events the callback
    emits and give them to the store: its reducer accepts them, and resuming from the
    projection they leave gives a state of the executor and the tables of the circuit
    breaker.
    When the step is an edge or a jump the resumed state is the durable form of the state
    the executor goes on with once it has taken the step: its values without transient keys
    and paths of the host, the completed nodes, the outcomes, the retries, the visits, the
    stage index and the current node.
    Two steps are not restored.  After a loop restart the executor goes on with an empty
    context and no completed stages, and the resumed state is at the restart's target with
    those of the round before.  Where the run ends, the resumed state is at the target of
    the node's first edge, or at the node itself. *)
Theorem checkpoint_resumes `{!Regex} `{!Dice (LifeState Host)} n r step o m m' p seq start :
  let s := m_state m in
  call (on_checkpoint (WorkflowLifecycle cfg) n r (next_node_id step)) m = (Val tt, m') ->
  counts_from_one (lf_tracker (m_world m)) ->
  node_outcomes s !! node_id n = Some (outcome r) ->
  stage_index s = Z.of_nat (length (completed_nodes s)) ->
  node_visits s <> ∅ ->
  find_start_node (lc_graph cfg) = Some start ->
  1 <= seq ->
  exists new p' rs resumed,
    lf_log (m_world m') = lf_log (m_world m) ++ new
    /\ live_events (stored seq new) p = Ok p'
    /\ ResumeState_from_projection p' = Some rs
    /\ let ck := normalize_checkpoint_for_resume (rs_checkpoint rs) in
       resumed_state (lc_graph cfg) ck = Ok resumed
       /\ breaker_restore (ck_loop_failure_signatures ck) (ck_restart_failure_signatures ck) = lf_breaker (m_world m')
       /\ match step with
          | StepEdge _ | StepJump _ =>
              exists m'', take_step (WorkflowLifecycle cfg) (lc_graph cfg) n o step m' = (Val None, m'') /\ resumed = durable_state (m_state m'')
          | StepLoopRestart t => resumed = durable_state (advance t (m_state m'))
          | StepEnd => resumed = durable_state (advance (resume_fallback (node_id n)) (m_state m'))
          end.
Proof.
  intros s Hcall Hcounts Hout Hidx Hvis Hstart Hseq.
  unfold call in Hcall. cbn [on_checkpoint WorkflowLifecycle] in Hcall.
  destruct (workflow_on_checkpoint cfg n r (next_node_id step) (m_state m) (m_world m)) as [[[[]|e] c] w'] eqn:Hcb; [|done].
  injection Hcall as <-.
  destruct (checkpoint_restored n r step s (m_world m) c w' p seq start) as (new & p' & rs & Hlog & Hlive & Hrs & Hst & Hbr); try done.
  exists new, p', rs, (resumed_at n step (set_context c s)).
  split; [exact Hlog|]. split; [exact Hlive|]. split; [exact Hrs|]. cbv zeta. split; [exact Hst|]. split; [exact Hbr|].
  destruct step as [t|t|t|]; [eexists; split; reflexivity|eexists; split; reflexivity|reflexivity|reflexivity].
Qed.

(** ** A checkpoint whose commit failed *)

Lemma git_failed_quiet n r next s w e c w' : git_on_checkpoint cfg n r next s w = (Err e, c, w') -> c = st_context s /\ quietly w w'.
Proof.
  unfold git_on_checkpoint. destruct (_ || _)%bool; [done|].
  cbv zeta. pose proof (shadow_quiet MpCheckpoint (Some (stage_scope_for (lf_tracker w) s (node_id n))) (Some (build_checkpoint n r next s (utc_now (lf_host w)))) w) as Q1.
  destruct (shadow_snapshot cfg _ _ _ w) as [shadow w1]. cbn [snd] in Q1.
  destruct (git_commit _ _ _ _ _) as [[sha|err] h].
  { destruct (push_run_branch cfg _) as [pushes w2]. by destruct (checkpoint_diff cfg n sha w2) as [[d sm] w3]. }
  intros [= _ <- <-]. split; [done|]. etrans; [exact Q1|]. etrans; [apply (host_quiet h)|]. apply emit_quiet. by eexists.
Qed.

(** A failed commit costs the checkpoint.  When the checkpoint callback fails, nothing
    it emitted changes the projection's checkpoints: the stage that has just completed is
    not in the durable state, and a resumed run goes back to the checkpoint before it.  The
    callback fails whenever the commit to the run's branch does. *)
Theorem failed_commit_loses_checkpoint n r next s w :
  (forall e c w', workflow_on_checkpoint cfg n r next s w = (Err e, c, w') ->
     exists new, lf_log w' = lf_log w ++ new
     /\ forall seq p, exists p', live_events (stored seq new) p = Ok p' /\ rp_checkpoints p' = rp_checkpoints p)
  /\ ((exists g, lc_git cfg = Some g) -> lc_start_node cfg <> Some (node_id n) ->
      (forall node st count shadow h, is_ok (git_commit node st count shadow h).1 = false) ->
      is_ok (workflow_on_checkpoint cfg n r next s w).1.1 = false).
Proof.
  unfold workflow_on_checkpoint. split.
  - intros e c w'. unfold life_bind at 1, ensure_execution. destruct (tracker_ensure _ _ _) as [x t]. unfold life_bind at 1. destruct (git_on_checkpoint cfg n r next _ _) as [[[[]|err] c2] w2] eqn:Hg.
    + unfold life_bind. cbn [event_part EventLifecycle on_checkpoint hook_part HookLifecycle].
      match goal with |- context [event_on_checkpoint _ _ _ _ ?s3 w2] => destruct (event_checkpoint n r next s3 w2) as (post & -> & _) end.
      unfold hook_on_checkpoint. done.
    + intros [= -> -> ->]. apply git_failed_quiet in Hg as [_ [(l & Hl & Hq) _]]. exists l. split; [exact Hl|].
      intros seq p. destruct (live_quiet l seq p Hq) as (p' & Hp & Hc & _). by exists p'.
  - intros [g Hgit] Hstart Hcommit. unfold life_bind at 1, ensure_execution. destruct (tracker_ensure _ _ _) as [x t]. unfold life_bind at 1. unfold git_on_checkpoint.
    rewrite Hgit, bool_decide_false by done. cbn [is_some negb orb]. cbv zeta.
    destruct (shadow_snapshot cfg _ _ _ _) as [shadow w1].
    match goal with |- context [git_commit ?a ?b ?c ?d ?e] => specialize (Hcommit a b c d e); destruct (git_commit a b c d e) as [[sha|err] h]; [done|] end.
    done.
Qed.
End checkpoint.
