(* ===== verification/ResumeProps.v ===== *)
(** * Runs that are resumed

    Concrete runs of the engine, with the whole lifecycle of [Lifecycle] around it, on a
    small host: the witnesses of the theorems of [Resume], and two runs after which a
    resumed run is not where the interrupted one was. *)

From S2P Require Import Prelude RustStr RustNum DecText GraphTypes Context Outcome Core Failure CircuitBreaker Blobs Artifact ArtifactFacts.
From S2P Require Import Preamble Fidelity Hooks Lint Executor Condition Routing Workflow WorkflowProps StageIds RunStatus EventScan Timing Billing.
From S2P Require Import Events Projection Reducer ReducerProps StageExec EventLife Lifecycle Resume.
From coqutil Require Import Datatypes.RecordSetters.
Import OCamlLikeNotations.
Local Open Scope string_scope.
Local Open Scope list_scope.
Local Open Scope Z_scope.

Module ResumeRuns.
Import ArtifactHosts.

#[local] Instance run_display : JsonDisplay := {| number_to_string := fun _ => "0"; compound_to_string := fun _ => "{}" |}.
#[local] Instance run_fixed : FixedDisplay := fun _ => "0.0".
#[local] Instance run_float : FloatDisplay := fun _ => "0".
#[local] Instance run_usage : UsageModel Usage := fun _ => None.
#[local] Instance run_text : RegexReplace := fun _ s _ => s.
#[local] Instance run_matches : Regex := {| re_valid := fun _ => true; re_is_match := fun p s => str_contains p s |}.
#[local] Instance run_clock : EventClock Disk := fun _ => 0.
#[local] Instance run_hooks_off : HookExecutor Disk := fun h _ _ d => (mkHookResult (hd_name h) HProceed 0, d).

(** Nothing to collect; a commit has the given answer. *)
Definition host_with_commit (commit : result string string) : LifeHost Disk := {|
  sandbox_activate := fun d => (Ok tt, d);
  pause_requested := fun _ => false;
  wait_unpaused := fun d => d;
  on_node := fun _ d => d;
  capture_dir := fun d => (Ok tt, d);
  collect_artifacts := fun _ d => (Ok (mkCollection 0 0 []), d);
  upload_artifacts := fun _ _ _ d => (Ok tt, d);
  stored_captures := fun d => (Ok [], d);
  instant_now := fun _ => 0;
  run_state := fun d => (Err ("closed", []), d);
  dump_error := fun _ _ => None;
  write_snapshot := fun _ _ d => (Err ("closed", []), d);
  push_failure_is_transient := fun _ _ => false;
  git_commit := fun _ _ _ _ d => (commit, d);
  git_push := fun _ d => (Ok JNull, d);
  git_diff := fun _ d => (Ok "", d);
  git_numstat := fun _ _ d => (Ok (mkDiffSummary 0 0 0), d)
|}.

Definition events_cfg : EventConfig := mkEventConfig "g" "run" None None None None None.
Definition config (g : Graph) (git : option GitRunOptions) : LifeConfig :=
  mkLifeConfig events_cfg (mkHookState None (mkHookExecution None None) "run" "g") g false "/run" None 3 false (Ok []) false git false (Some "start") false.

Abbreviation World := (LifeState Disk).
Definition world : World := mkLife empty_disk [] ∅ (mkBreaker ∅ ∅) fidelity_new None None None false None MdHealthy.

Definition node_with (id : string) (attrs : list (string * AttrValue)) : Node := mkNode id (list_to_map attrs) [].
Definition edge_with (from to : string) (attrs : list (string * AttrValue)) : Edge := mkEdge from to (list_to_map attrs).
Definition graph_of (nodes : list Node) (edges : list Edge) (attrs : list (string * AttrValue)) : Graph :=
  mkGraph "g" (list_to_map ((fun n => (node_id n, n)) <$> nodes)) edges (list_to_map attrs).

(** ** The engine on this host *)

Section engine.
Context (handler : string -> Outcome Usage).

#[local] Instance run_dice : Dice World := fun _ w => (f64_zero, w).
#[local] Instance run_handlers : Services Usage World := {|
  handler_context := fun c w => (Ok c, w);
  edge_context := fun c w => (Ok c, w);
  durable_form := fun u => u;
  manages_timeout := fun _ => false;
  times_out := fun _ _ _ _ => None;
  dispatch_handler := fun n c _ w => (Finished (Ok (handler (node_id n))), c, w)
|}.
#[local] Instance run_machine : Runtime World := {|
  elapsed := fun _ => 0; sleep := fun _ w => w; is_cancelled := fun _ => false; stall_race := fun _ _ _ => None;
  draw_jitter := fun w => (f64_of_Z 1, w)
|}.

Definition engine_run (g : Graph) (fuel : nat) :=
  workflow_run (WorkflowLifecycle (LifeHost0 := host_with_commit (Ok "sha")) (config g None)) g false fuel
    (mkMach (state_at "start") world []).
End engine.

(** The projection of a run that is starting. *)
Definition starting : RunProjection :=
  let spec := mkSpec "run" (mkEnvironment EnvLocal None) (graph_new "g") None None None ∅ None None None JNull in
  let p := RunProjection_new "t" spec 0 in
  { p with rp_status := RsStarting }.

(** The state a resumed run starts in, from the log of an interrupted one. *)
Definition resumed_from (g : Graph) (w : World) : option (ExecutionState Usage) :=
  match live_events (stored 1 (lf_log w)) starting with
  | Ok p => rs ← ResumeState_from_projection p; result_ok (resumed_state g (normalize_checkpoint_for_resume (rs_checkpoint rs)))
  | Err _ => None
  end.

Definition test_graph : Graph :=
  graph_of [node_with "start" [("shape", AString "Mdiamond")]; node_with "test" [("max_retries", AInteger 0)]; node_with "deploy" []; node_with "exit" [("shape", AString "Msquare")]]
    [edge_with "start" "test" []; edge_with "test" "deploy" [("condition", AString "outcome=succeeded")]; edge_with "deploy" "exit" []] [].

Definition test_fails (id : string) : Outcome Usage := if String.eqb id "test" then outcome_fail "3 tests failed" else outcome_success.

(** A failed run is resumed past its failure.  [test] fails and no edge may be taken from
    it, so the run ends as failed with a checkpoint that has no next node; resumed, it goes
    on at the target of [test]'s first edge, [deploy], whose condition asks that [test]
    succeeded. *)
Theorem failed_run_resumes_past_failure :
  match engine_run test_fails test_graph 20 with
  | Some (Val o, m) =>
      status o = Failed false
      /\ (event_name ∘ ev_body) <$> lf_log (m_world m)
         = ["run.started"; "run.running"; "stage.started"; "stage.completed"; "edge.selected"; "checkpoint.completed";
            "stage.started"; "stage.failed"; "checkpoint.completed"]
      /\ match resumed_from test_graph (m_world m) with
         | Some s => st_current s = "deploy" /\ (status <$> (node_outcomes s !! "test")) = Some (Failed false)
         | None => False
         end
  | _ => False
  end.
Proof. vm_compute. split_and!; reflexivity. Qed.

(** [work] writes a draft and starts over. *)
Definition loop_graph : Graph :=
  graph_of [node_with "start" [("shape", AString "Mdiamond")]; node_with "work" []; node_with "exit" [("shape", AString "Msquare")]]
    [edge_with "start" "work" []; edge_with "work" "work" [("condition", AString "outcome=succeeded"); ("loop_restart", ABoolean true)];
     edge_with "work" "exit" []] [("max_node_visits", AInteger 2)].

Definition writes_draft (id : string) : Outcome Usage :=
  if String.eqb id "work" then with_context_updates (fun _ => {["draft" := JString "v1"]}) outcome_success else outcome_success.

(** A loop restart is not durable.  The engine takes the restart with a fresh context and
    no completed stages (here the visit limit stops it at the third round); the checkpoint
    it had written before has the context and the stages of the round before, and a resumed
    run starts the round with them. *)
Theorem loop_restart_is_not_resumed :
  match engine_run writes_draft loop_graph 20 with
  | Some (Throw e, m) =>
      e = VisitLimitExceeded "work" 2 2 LimitGraph
      /\ completed_nodes (m_state m) = [] /\ st_context (m_state m) !! "draft" = None
      /\ match resumed_from loop_graph (m_world m) with
         | Some s => st_current s = "work" /\ completed_nodes s = ["work"] /\ st_context s !! "draft" = Some (JString "v1")
         | None => False
         end
  | _ => False
  end.
Proof. vm_compute. split_and!; reflexivity. Qed.

(** ** Witnesses *)

#[local] Instance commits : LifeHost Disk := host_with_commit (Ok "sha").

Definition done_result : NodeResult Usage := mkResult (writes_draft "work") 0 0 0 1 1.
Definition at_work : ExecutionState Usage :=
  record_result "work" done_result (mkState context_new "work" ["start"] {["start" := outcome_success]} ∅ (<["work" := 1]> {["start" := 1]}) 1 (Some "start") false).
Definition git_config : LifeConfig := config test_graph (Some (mkGitOptions None (Some "base") None)).
Definition checkpointed := workflow_on_checkpoint git_config (node_with "work" []) done_result (Some "deploy") at_work world.

Lemma checkpoint_resumes_witness :
  exists new p' rs,
    (event_name ∘ ev_body) <$> new = ["checkpoint.completed"; "git.commit"]
    /\ live_events (stored 5 new) starting = Ok p' /\ ResumeState_from_projection p' = Some rs
    /\ resumed_state test_graph (normalize_checkpoint_for_resume (rs_checkpoint rs)) = Ok (durable_state (advance "deploy" (set_context checkpointed.1.2 at_work))).
Proof.
  destruct (checkpoint_resumes git_config (Dice0 := run_dice) (node_with "work" []) done_result (StepEdge "deploy") outcome_success
              (mkMach at_work world []) (mkMach (set_context checkpointed.1.2 at_work) checkpointed.2 []) starting 5
              (node_with "start" [("shape", AString "Mdiamond")])) as (new & p' & rs & resumed & Hlog & Hlive & Hrs & Hst & _ & m'' & Ht & ->);
    [vm_compute; reflexivity|intros k nx Hk; discriminate Hk|vm_compute; reflexivity|vm_compute; reflexivity|discriminate|vm_compute; reflexivity|lia|].
  exists new, p', rs. split; [|split; [exact Hlive|split; [exact Hrs|]]].
  - change (lf_log checkpointed.2 = new) in Hlog. rewrite <- Hlog. vm_compute. reflexivity.
  - injection Ht as <-. exact Hst.
Defined.

Lemma failed_commit_loses_checkpoint_witness :
  let host := host_with_commit (Err "index.lock exists") in
  let answer := workflow_on_checkpoint (LifeHost0 := host) git_config (node_with "work" []) done_result (Some "deploy") at_work world in
  is_ok answer.1.1 = false
  /\ exists new, lf_log answer.2 = new /\ forall seq p, exists p', live_events (stored seq new) p = Ok p' /\ rp_checkpoints p' = rp_checkpoints p.
Proof.
  intros host answer.
  destruct (failed_commit_loses_checkpoint (LifeHost0 := host) git_config (node_with "work" []) done_result (Some "deploy") at_work world) as [Hlost Hfail].
  split.
  - apply Hfail; [eexists; reflexivity|discriminate|reflexivity].
  - destruct (Hlost (OtherError "git checkpoint commit failed for node 'work': index.lock exists") answer.1.2 answer.2) as (new & Hn & Hq); [vm_compute; reflexivity|].
    exists new. split; [exact Hn|exact Hq].
Defined.

End ResumeRuns.
