(* ===== verification/LifecycleProps.v ===== *)
(** * What the lifecycle keeps to

    The identity of a stage over its attempts, and what the selection of an edge leaves
    behind, for the composed callbacks of [Lifecycle]. *)

From S2P Require Import Prelude RustStr RustNum DecText GraphTypes Context Outcome Core Failure CircuitBreaker Blobs Artifact Preamble Fidelity Hooks.
From S2P Require Import StageIds RunStatus EventScan Timing Billing Events Projection StageExec EventLife Lifecycle Resume.
From coqutil Require Import Datatypes.RecordSetters.
Import OCamlLikeNotations.
Local Open Scope string_scope.
Local Open Scope list_scope.
Local Open Scope Z_scope.

Section lifecycle.
Context `{HashOrder} `{JsonDisplay} `{FixedDisplay} `{FloatDisplay} `{RegexReplace} `{UsageModel Usage} `{BlobHashes} `{JsonCodec}.
Context {Host : Type} `{!ArtifactHost Host} `{!HookExecutor Host} `{!EventClock Host} `{!LifeHost Host} (cfg : LifeConfig).
Implicit Types (s : ExecutionState Usage) (w : LifeState Host) (a : AttemptContext Node).

(** A world that differs in its host only. *)
Definition same_run w w' : Prop := w' = put_life_host (lf_host w') w.

Lemma hook_same_run c w : same_run w (lifecycle_run_hook (lc_hooks cfg) lf_host put_life_host c w).2.
Proof.
  unfold same_run, lifecycle_run_hook. destruct (hl_runner _) as [runner|]; [|by destruct w].
  destruct (run_hooks _ _ _ _) as [d h]. by destruct w.
Qed.

Lemma life_bind_eq {A B} (m : callback Usage (LifeState Host) A) (k : A -> callback Usage (LifeState Host) B) s w :
  life_bind m k s w = let '(r, c, w) := m s w in match r with Ok a => k a (set_context c s) w | Err e => (Err e, c, w) end.
Proof. done. Qed.

(** ** Attempts *)

(** The hook's part of the callback. *)
Lemma before_attempt_cases a s w :
  let w1 := (lifecycle_run_hook (lc_hooks cfg) lf_host put_life_host (stage_start_context (lc_hooks cfg) a) w).2 in
  match (lifecycle_run_hook (lc_hooks cfg) lf_host put_life_host (stage_start_context (lc_hooks cfg) a) w).1 with
  | HSkip reason =>
      workflow_before_attempt cfg a s w = (Ok (NSkip (outcome_skipped (default "skipped by StageStart hook" reason))), st_context s, w1)
  | HBlock reason =>
      workflow_before_attempt cfg a s w = (Err (Blocked (default "blocked by StageStart hook" reason)), st_context s, w1)
  | HProceed | HOverride _ =>
      workflow_before_attempt cfg a s w
      = (life_bind (ensure_execution (node_id (ac_node a))) (fun _ => before_attempt (event_part cfg) a)) (set_context (st_context s) s) w1
  end.
Proof.
  destruct (lifecycle_run_hook (lc_hooks cfg) lf_host put_life_host (stage_start_context (lc_hooks cfg) a) w) as [d w1] eqn:E.
  cbv zeta. cbn [fst snd]. unfold workflow_before_attempt.
  destruct d; rewrite (life_bind_eq (before_attempt (hook_part cfg) a)); cbn [hook_part HookLifecycle before_attempt]; unfold hook_before_attempt;
    by rewrite E.
Qed.

(** The stage that an attempt belongs to. *)
Definition attempt_stage a s w : StageExecution := (tracker_ensure (lf_tracker w) (node_id (ac_node a)) (stage_visit s (node_id (ac_node a)))).1.

Lemma ensure_active t n v : tracker_active (tracker_ensure t n v).2 n = Some (tracker_ensure t n v).1.
Proof.
  unfold tracker_ensure. destruct (tracker_active t n) eqn:E; [done|]. unfold tracker_active, reserve_locked. cbn. by rewrite lookup_insert_eq.
Qed.

(** The start of the stage is announced once, under the identifier the context shows and the
    tracker keeps; a later attempt that finds it active is announced under it. *)
Definition announced a s w (c : Context) w' : Prop :=
  exists e, lf_log w' = lf_log w ++ [e]
  /\ ev_body e = BStageStarted {| ss_handler_type := default "" (handler_type (ac_node a));
                                  ss_graph_visit := Some (ex_graph_visit (attempt_stage a s w));
                                  ss_resumed_from_stage_id := ex_resumed_from (attempt_stage a s w) |}
  /\ ev_stage_id e = Some (ex_stage_id (attempt_stage a s w))
  /\ c = ctx_set INTERNAL_STAGE_EXECUTION_ORDINAL (JNum (PosInt (sid_visit (ex_stage_id (attempt_stage a s w))))) (st_context s)
  /\ tracker_active (lf_tracker w') (node_id (ac_node a)) = Some (attempt_stage a s w)
  /\ forall a2 s2 w2, ac_node a2 = ac_node a ->
       tracker_active (lf_tracker w2) (node_id (ac_node a)) = tracker_active (lf_tracker w') (node_id (ac_node a)) ->
       attempt_stage a2 s2 w2 = attempt_stage a s w.

(** What the callback does when the hooks let it. *)
Lemma started_spec a s w h :
  let '(answer, c, w') := life_bind (ensure_execution (node_id (ac_node a))) (fun _ => before_attempt (event_part cfg) a)
                            (set_context (st_context s) s) (put_life_host h w) in
  match answer with
  | Ok NContinue => announced a s w c w'
  | _ => lf_log w' = lf_log w /\ lf_tracker w' = lf_tracker w /\ c = st_context s
  end.
Proof.
  pose proof (ensure_active (lf_tracker w) (node_id (ac_node a)) (stage_visit s (node_id (ac_node a)))) as Ha.
  assert (Hnext : forall a2 s2 w2, ac_node a2 = ac_node a ->
    tracker_active (lf_tracker w2) (node_id (ac_node a)) = Some (attempt_stage a s w) -> attempt_stage a2 s2 w2 = attempt_stage a s w).
  { intros a2 s2 w2 Hn Ht. unfold attempt_stage at 1, tracker_ensure. by rewrite Hn, Ht. }
  unfold announced, attempt_stage in *. rewrite life_bind_eq. unfold ensure_execution.
  change (stage_visit (set_context (st_context s) s)) with (stage_visit s). change (lf_tracker (put_life_host h w)) with (lf_tracker w).
  destruct (tracker_ensure (lf_tracker w) (node_id (ac_node a)) (stage_visit s (node_id (ac_node a)))) as [x t].
  cbn [fst snd] in *. cbn [event_part EventLifecycle before_attempt]. unfold event_before_attempt. cbv zeta.
  change (lf_tracker (put_tracker t (put_life_host h w))) with t. rewrite Ha. eexists. split_and!; [by destruct w|reflexivity| |done| |].
  - unfold to_run_event_at, stage_scope_from_execution, scope_stage_id. cbn [ev_stage_id fmap option_fmap option_map sco_node_id sco_visit].
    by destruct (ex_stage_id x).
  - by destruct w.
  - intros a2 s2 w2 Hn Ht. apply Hnext; [done|]. rewrite Ht. by destruct w.
Qed.

(** One stage for all attempts.  The callback before an attempt either goes on, and then
    it announces the start of exactly one stage, whose identifier it also puts into the
    context and keeps as the node's active one; or a hook skips or blocks the attempt, and
    then it announces nothing and reserves nothing.  The next attempt of the node, as long
    as no other execution of it began in between, is announced under the same identifier. *)
Theorem attempts_share_stage a s w :
  let '(answer, c, w') := workflow_before_attempt cfg a s w in
  match answer with
  | Ok NContinue => announced a s w c w'
  | _ => lf_log w' = lf_log w /\ lf_tracker w' = lf_tracker w /\ c = st_context s
  end.
Proof.
  pose proof (before_attempt_cases a s w) as Hc. cbv zeta in Hc.
  pose proof (hook_same_run (stage_start_context (lc_hooks cfg) a) w) as Hw.
  destruct (lifecycle_run_hook _ _ _ _ _) as [d w1]. cbn [fst snd] in Hc, Hw. unfold same_run in Hw.
  destruct d as [|reason|reason|target]; rewrite Hc; [|by rewrite Hw; destruct w..|]; clear Hc; rewrite Hw;
    apply (started_spec a s w (lf_host w1)).
Qed.

(** ** Edges *)

(** The parts before the breaker: the edge is remembered for the next node's fidelity and
    announced, and the hooks answer. *)
Definition edge_announced (x : EdgeContext Edge Usage) w w' : Prop :=
  (exists e, lf_log w' = lf_log w ++ [e] /\ ev_body e = BOther "edge.selected")
  /\ lf_tracker w' = lf_tracker w
  /\ incoming_edge_data (lf_fidelity w') = (match ec_edge x with Some edge => Some edge | None => incoming_edge_data (lf_fidelity w) end).

Lemma edge_parts x s w :
  exists d w1,
    edge_announced x w w1 /\ lf_breaker w1 = lf_breaker w /\ lf_restarted_from w1 = lf_restarted_from w
    /\ workflow_on_edge_selected cfg x s w
       = match d with
         | HOverride target => (Ok (EOverride target), st_context s, w1)
         | HBlock reason => (Err (Blocked (default "blocked by EdgeSelected hook" reason)), st_context s, w1)
         | HProceed | HSkip _ =>
             let '(decision, b) := breaker_on_edge_selected (lc_limit cfg) x (lf_breaker w1) in
             let w2 := { w1 with lf_breaker := b } in
             match decision, ec_edge x with
             | EContinue, Some edge => (Ok EContinue, st_context s, if loop_restart edge then put_restarted (Some (ec_from x, ec_to x)) w2 else w2)
             | _, _ => (Ok decision, st_context s, w2)
             end
         end.
Proof.
  unfold workflow_on_edge_selected. rewrite life_bind_eq. cbn [fidelity_part FidelityLifecycle on_edge_selected]. unfold fidelity_on_edge_selected.
  cbv zeta. rewrite life_bind_eq. cbn [event_part EventLifecycle on_edge_selected]. unfold event_on_edge_selected. cbv zeta.
  set (wa := emit _ _ _). rewrite life_bind_eq. cbn [hook_part HookLifecycle on_edge_selected]. unfold hook_on_edge_selected.
  pose proof (hook_same_run (edge_selected_context (lc_hooks cfg) x) wa) as Hw. unfold same_run in Hw.
  destruct (lifecycle_run_hook _ _ _ _ wa) as [d w1]. cbn [snd] in Hw.
  exists d, w1. split_and!.
  - rewrite Hw. unfold edge_announced, wa. destruct (ec_edge x), w; cbn; split_and!; eauto.
  - rewrite Hw. unfold wa. destruct (ec_edge x), w; done.
  - rewrite Hw. unfold wa. destruct (ec_edge x), w; done.
  - destruct d; try done; rewrite life_bind_eq; cbn [breaker_part CircuitBreakerLifecycle on_edge_selected];
      destruct (breaker_on_edge_selected _ _ _) as [[|t|m] b]; try done; rewrite life_bind_eq; cbn; destruct (ec_edge x) as [edge|]; try done; by destruct (loop_restart edge).
Qed.

(** The breaker lets an edge pass or blocks it; a restart passes only without a failure or
    after a transient one. *)
Lemma breaker_edge_decision limit (x : EdgeContext Edge Usage) b :
  match (breaker_on_edge_selected limit x b).1 with
  | EContinue => forall edge, ec_edge x = Some edge -> loop_restart edge = true ->
      classified_failure_category (ec_outcome x) = None \/ classified_failure_category (ec_outcome x) = Some TransientInfra
  | EOverride _ => False
  | EBlock _ => True
  end.
Proof.
  unfold breaker_on_edge_selected, breaker_count_restart. destruct (ec_edge x) as [edge|]; [|done]. destruct (loop_restart edge) eqn:Hl; cbn [negb].
  2: { cbn. intros e [= <-]. by rewrite Hl. }
  destruct (classified_failure_category (ec_outcome x)) as [fc|] eqn:Hc.
  - case_bool_decide as Hf; cbn [negb]; [|done]. subst fc.
    destruct (failure (ec_outcome x)) as [f|]; [|by cbn; auto]. destruct (is_signature_tracked _); [|by cbn; auto].
    destruct (count_signature _ _) as [count sigs]. destruct (limit <=? count); cbn; auto.
  - destruct (failure (ec_outcome x)) as [f|]; [|by cbn; auto]. destruct (is_signature_tracked _); [|by cbn; auto].
    destruct (count_signature _ _) as [count sigs]. destruct (limit <=? count); cbn; auto.
Qed.

(** What the selection of an edge leaves.  Whatever the answer, the edge is announced
    and remembered for the fidelity of the next node.  A hook that overrides or blocks it
    leaves the circuit breaker as it was and no restart pending; an edge that is taken and
    restarts the loop leaves exactly its restart pending, and is taken only after an outcome
    that did not fail or failed for a transient reason.  So after an override the next node
    is entered with the fidelity and the thread of an edge that was not taken. *)
Theorem edge_selection_effects x s w :
  let '(answer, c, w') := workflow_on_edge_selected cfg x s w in
  c = st_context s /\ edge_announced x w w'
  /\ match answer with
     | Ok EContinue =>
         lf_restarted_from w' = match ec_edge x with
                                | Some edge => if loop_restart edge then Some (ec_from x, ec_to x) else lf_restarted_from w
                                | None => lf_restarted_from w
                                end
         /\ forall edge, ec_edge x = Some edge -> loop_restart edge = true ->
              classified_failure_category (ec_outcome x) = None \/ classified_failure_category (ec_outcome x) = Some TransientInfra
     | Ok (EBlock _) => lf_restarted_from w' = lf_restarted_from w
     | Ok (EOverride _) | Err _ => lf_breaker w' = lf_breaker w /\ lf_restarted_from w' = lf_restarted_from w
     end.
Proof.
  destruct (edge_parts x s w) as (d & w1 & Ha & Hb & Hr & ->).
  assert (Hkeep : forall b r, edge_announced x w { w1 with lf_breaker := b } /\ edge_announced x w (put_restarted r { w1 with lf_breaker := b })).
  { intros b r. destruct w1. done. }
  destruct d; [|..|done|done];
    (pose proof (breaker_edge_decision (lc_limit cfg) x (lf_breaker w1)) as Hdec;
     destruct (breaker_on_edge_selected _ x (lf_breaker w1)) as [[|t|msg] b]; cbn [fst] in Hdec; [|done|]; cbv zeta;
     [destruct (ec_edge x) as [edge|]; [destruct (loop_restart edge) eqn:Hl|]|]; (split; [done|]; split; [apply Hkeep; exact None|]); rewrite <- ?Hr; try split; try done; by destruct w1).
Qed.
(** ** Metadata snapshots *)

Definition is_healthy (st : MetadataRuntimeState) : bool := match st with MdHealthy => true | _ => false end.

Definition snapshot_names (warn ok : bool) : list string :=
  if ok then ["metadata.snapshot.completed"] else "metadata.snapshot.failed" :: if warn then ["run.notice"] else [].

(** The end of a snapshot: what it adds to the log, and the health it leaves. *)
Definition snapshot_ended w (answer : option string * LifeState Host) (ok : bool) : Prop :=
  (exists l, lf_log answer.2 = lf_log w ++ l /\ (event_name ∘ ev_body) <$> l = snapshot_names (is_healthy (lf_metadata w)) ok)
  /\ is_healthy (lf_metadata answer.2) = ok
  /\ (answer.1 = None -> lf_metadata answer.2 = MdPermanentlyDegraded).

Lemma warning_ends code message transient phase branch started kind causes sha entries bytes scope w answer :
  (answer = None -> transient = false) ->
  snapshot_ended w (answer, emit_metadata_warning cfg code message transient
                              (emit_metadata_snapshot_failed cfg phase branch started kind message causes sha entries bytes scope w)) false.
Proof.
  intros Ht. destruct w as [? ? ? ? ? ? ? ? ? ? [| |]], transient; split_and!; try done; try (intros E; by specialize (Ht E));
    (eexists; split; [cbn; by rewrite <- ?app_assoc|done]).
Qed.

Lemma write_ends phase branch started p message scope w :
  lc_metadata_writer cfg = true -> metadata_suspended (lf_metadata w) = false ->
  (phase = MpCheckpoint -> metadata_checkpoint_suspended (instant_now (lf_host w)) (lf_metadata w) = false) ->
  exists ok, snapshot_ended w (write_metadata_snapshot cfg phase branch started p message scope w) ok.
Proof.
  intros Hw Hs Hp. unfold write_metadata_snapshot. rewrite Hw, Hs. destruct (_ || _)%bool eqn:E.
  { destruct phase; cbn in E; try done. by rewrite Hp in E. }
  destruct (write_snapshot p message (lf_host w)) as [[x|[error causes]] h]; cbv zeta.
  - destruct (ms_push_error x) as [detail|].
    + exists false. by apply (warning_ends _ _ _ _ _ _ _ _ _ _ _ _ (put_life_host h w) (Some _)).
    + exists true. split_and!; [|by destruct w|done]. eexists. split; [by destruct w|done].
  - exists false. by apply (warning_ends _ _ _ _ _ _ _ _ _ _ _ _ (put_life_host h w) None).
Qed.

(** A snapshot is not begun while the branch is suspended; one that is begun is announced
    and ends completed or failed, leaves the branch healthy exactly when it completed, warns
    only when the branch was healthy before, and switches the branch off for good when it
    could not write. *)
Theorem metadata_snapshot_reported phase scope ck w :
  (forall h, instant_now h <= instant_now (run_state h).2) ->
  shadow_snapshot cfg phase scope ck w = (None, w)
  \/ metadata_suspended (lf_metadata w) = false
     /\ exists branch ok h,
          metadata_branch cfg = Some branch
          /\ let w1 := put_life_host h (emit_with_scope (lc_events cfg) (MetadataSnapshotStarted phase branch) scope w) in
             snapshot_ended w1 (shadow_snapshot cfg phase scope ck w) ok.
Proof.
  intros Hclock. unfold shadow_snapshot. destruct (metadata_branch cfg) as [branch|]; [|by left].
  destruct (metadata_off cfg phase w) eqn:Hoff; [by left|]. right. unfold metadata_off in Hoff. apply orb_false_iff in Hoff as [Hw Hoff].
  apply negb_false_iff in Hw.
  assert (Hs : metadata_suspended (lf_metadata w) = false) by (destruct (lf_metadata w), phase; done).
  split; [done|]. cbv zeta. change (lf_host (emit_with_scope _ _ _ w)) with (lf_host w). specialize (Hclock (lf_host w)).
  exists branch. revert Hclock. destruct (run_state (lf_host w)) as [[p|[error causes]] h]; cbn [snd]; intros Hclock.
  2: { exists false, h. split; [done|]. by apply warning_ends. }
  destruct (dump_error _ h) as [[error causes]|].
  { exists false, h. split; [done|]. by apply warning_ends. }
  match goal with |- context [write_metadata_snapshot _ _ _ ?started ?p ?m _ ?w1] => destruct (write_ends phase branch started p m scope w1) as [ok Hok] end;
    [exact Hw|exact Hs| |exists ok, h; split; [done|exact Hok]].
  intros ->. revert Hoff. cbn. destruct w as [? ? ? ? ? ? ? ? ? ? [| |]]; cbn in Hclock |- *; try done.
  cbn. unfold constant. rewrite !Z.ltb_ge. lia.
Qed.
End lifecycle.
