(* ===== verification/Interviews.v ===== *)
(** * Interviews (fabro-interview/src/lib.rs, fabro-workflow/src/interview_runtime.rs)

    Questions to people and their answers, the documents a question may be about
    (fabro-types/src/interview.rs), the count of open interviews that blocks a run, and the
    questions an agent asks through a tool.

    Changing the count and announcing the change is one step under a mutex; a guard resolves
    its interview once, when it is told to or when it is dropped.  The world of this file is
    [Interviews]: the log the emitter appends to, and the count.  What a person answers,
    fresh identifiers and the clock are the parameter [Asking]; the batch of an agent's
    questions can be answered, cancelled or dropped while it waits. *)

From S2P Require Import Prelude RustStr RustNum DecText GraphTypes Context Outcome Core Blobs Artifact.
From S2P Require Import StageIds RunStatus EventScan Timing Billing Events Projection Reducer RunFacts ReducerProps StageExec EventLife Fidelity CircuitBreaker Resume.
From coqutil Require Import Datatypes.RecordSetters.
Import OCamlLikeNotations.
Local Open Scope string_scope.
Local Open Scope list_scope.
Local Open Scope Z_scope.

(** ** Questions and answers *)

Record InterviewOption := mkOption { io_key : string; io_label : string; io_description : option string; io_preview : option string }.

Definition opt_field (key : string) (v : option string) : list (string * Value) :=
  match v with Some s => [(key, JString s)] | None => [] end.

Definition option_value (o : InterviewOption) : Value :=
  JObject ([("key", JString (io_key o)); ("label", JString (io_label o))]
           ++ opt_field "description" (io_description o) ++ opt_field "preview" (io_preview o)).

Definition options_value (l : list InterviewOption) : Value := JArray (option_value <$> l).

Definition QuestionType_to_string (t : QuestionType) : string :=
  match t with
  | QYesNo => "yes_no" | QMultipleChoice => "multiple_choice" | QMultiSelect => "multi_select"
  | QFreeform => "freeform" | QConfirmation => "confirmation"
  end.

Definition QuestionType_from_str (s : string) : option QuestionType :=
  find_first (fun t => String.eqb (QuestionType_to_string t) s) [QYesNo; QMultipleChoice; QMultiSelect; QFreeform; QConfirmation].

Inductive AnswerValue :=
| AvYes | AvNo | AvCancelled | AvInterrupted | AvSkipped | AvTimeout
| AvSelected (key : string) | AvMultiSelected (keys : list string) | AvText (text : string).

#[export] Instance AnswerValue_eq_dec : EqDecision AnswerValue.
Proof. solve_decision. Defined.

Record Answer := mkAnswer { an_value : AnswerValue; an_selected_option : option InterviewOption; an_text : option string }.

Definition answer_timeout : Answer := mkAnswer AvTimeout None None.
Definition answer_of_text (t : string) : Answer := mkAnswer (AvText t) None (Some t).

Record AnswerSubmission := mkSubmission { sb_answer : Answer; sb_actor : Principal }.

(** ** What a question may be about *)

Definition REVIEW_TARGET_LABEL_MAX_CHARS : nat := 200.
Definition REVIEW_TARGET_URL_MAX_CHARS : nat := 2048.

(** A reviewed resource; its kind is always a document. *)
Record ReviewTarget := mkReviewTarget { rt_label : string; rt_url : string }.

Record ParsedUrl := mkUrl { url_scheme : string; url_host : option string; url_username : string; url_password : option string }.

(** The url crate, and the messages of serde for a value that has not the fields of a
    review target. *)
Class ReviewParsers := {
  url_parse : string -> option ParsedUrl;
  wire_error : Value -> string
}.

(** [char::is_control], on UTF-8: the ASCII controls, and U+0080 to U+009F. *)
Fixpoint has_control (s : string) : bool :=
  match s with
  | EmptyString => false
  | String c s =>
      (in_range 0 31 c || in_range 127 127 c
       || (Ascii.eqb c "194" && match s with String d _ => in_range 128 159 d | EmptyString => false end)
       || has_control s)%bool
  end.

Inductive ReviewTargetError :=
| EmptyLabel | LabelTooLong | LabelContainsControl | EmptyUrl | UrlTooLong | UrlContainsUnsafeCharacters | InvalidUrl
| UnsupportedUrlScheme | MissingUrlHost | UrlContainsCredentials.

Definition review_error_to_string (e : ReviewTargetError) : string :=
  match e with
  | EmptyLabel => "review target label must not be empty"
  | LabelTooLong => "review target label must be at most 200 characters"
  | LabelContainsControl => "review target label must not contain control characters"
  | EmptyUrl => "review target URL must not be empty"
  | UrlTooLong => "review target URL must be at most 2048 characters"
  | UrlContainsUnsafeCharacters => "review target URL must not contain control characters or link delimiters"
  | InvalidUrl => "review target URL must be a valid absolute URL"
  | UnsupportedUrlScheme => "review target URL must use http or https"
  | MissingUrlHost => "review target URL must include a host"
  | UrlContainsCredentials => "review target URL must not include username or password credentials"
  end.

Definition validate_review_target_label (label : string) : option ReviewTargetError :=
  if str_is_empty label then Some EmptyLabel
  else if Nat.ltb REVIEW_TARGET_LABEL_MAX_CHARS (count_chars label) then Some LabelTooLong
  else if has_control label then Some LabelContainsControl
  else None.

Definition link_delimiter (c : ascii) : bool := (Ascii.eqb c "<" || Ascii.eqb c ">" || Ascii.eqb c "|")%bool.

Section reviews.
Context `{ReviewParsers}.

Definition validate_review_target_url (url : string) : option ReviewTargetError :=
  if str_is_empty url then Some EmptyUrl
  else if Nat.ltb REVIEW_TARGET_URL_MAX_CHARS (count_chars url) then Some UrlTooLong
  else if (has_control url || str_exists link_delimiter url)%bool then Some UrlContainsUnsafeCharacters
  else
    match url_parse url with
    | None => Some InvalidUrl
    | Some parsed =>
        if negb (String.eqb (url_scheme parsed) "http" || String.eqb (url_scheme parsed) "https") then Some UnsupportedUrlScheme
        else if negb (is_some (url_host parsed)) then Some MissingUrlHost
        else if (negb (str_is_empty (url_username parsed)) || is_some (url_password parsed))%bool then Some UrlContainsCredentials
        else None
    end.

Definition review_target_new (label url : string) : result ReviewTarget ReviewTargetError :=
  let label := trim label in
  let url := trim url in
  match or_else (validate_review_target_label label) (validate_review_target_url url) with
  | Some e => Err e
  | None => Ok (mkReviewTarget label url)
  end.

Definition review_question_text (t : ReviewTarget) : string :=
  "Review the " +:+ rt_label t +:+ " document, then choose the next action.".

Definition review_target_value (t : ReviewTarget) : Value :=
  JObject [("label", JString (rt_label t)); ("url", JString (rt_url t)); ("kind", JString "document")].

(** [serde_json::from_value] with the derived reader of the three fields. *)
Definition review_target_from_value (v : Value) : result ReviewTarget string :=
  match value_get "label" v, value_get "url" v, value_get "kind" v with
  | Some (JString label), Some (JString url), Some (JString kind) =>
      if String.eqb kind "document" then result_map_err review_error_to_string (review_target_new label url) else Err (wire_error v)
  | _, _, _ => Err (wire_error v)
  end.
End reviews.

Record Question := mkAsked {
  q_id : string;
  q_text : string;
  q_type : QuestionType;
  q_options : list InterviewOption;
  q_allow_freeform : bool;
  q_default : option Answer;
  q_timeout_seconds : option f64;
  q_stage : string;
  q_metadata : gmap string Value;
  q_context_display : option string;
  q_review_target : option ReviewTarget
}.

Definition question_new (text : string) (t : QuestionType) : Question := mkAsked "" text t [] false None None "" ∅ None None.

(** ** Asking *)

(** How waiting for a batch of answers ends. *)
Inductive AskEnd := Answered (l : list AnswerSubmission) | TokenCancelled | FutureDropped.

Class Asking (H : Type) := {
  now_instant : H -> Z;
  new_ulid : H -> string * H;
  ask : Question -> H -> AnswerSubmission * H;
  ask_within : Duration -> Question -> H -> option AnswerSubmission * H;
  ask_all : list Question -> H -> AskEnd * H;
  cancel_requested : H -> bool
}.

(** [ask_with_timeout]; [None] is the panic of [Duration::from_secs_f64]. *)
Definition ask_with_timeout {H} `{Asking H} (q : Question) (h : H) : option (AnswerSubmission * H) :=
  match q_timeout_seconds q with
  | None => Some (ask q h)
  | Some secs =>
      duration ← from_secs_f64 secs;
      match ask_within duration q h with
      | (Some s, h) => Some (s, h)
      | (None, h) => Some (mkSubmission (default answer_timeout (q_default q)) (PrSystem ActorTimeout), h)
      end
  end.

(** ** Open interviews *)

Abbreviation InterviewBlockState := (gmap StageId Z).

Definition is_run_blocked (b : InterviewBlockState) : bool := negb (bool_decide (b = ∅)).
Definition is_stage_blocked (b : InterviewBlockState) (id : StageId) : bool := is_some (b !! id).
Definition state_block (id : StageId) (b : InterviewBlockState) : InterviewBlockState := <[id := default 0 (b !! id) + 1]> b.

Definition state_resolve (id : StageId) (b : InterviewBlockState) : InterviewBlockState :=
  match b !! id with
  | None => b
  | Some count => let count := Z.max 0 (count - 1) in if count =? 0 then delete id b else <[id := count]> b
  end.

(** The new count, and the event that announces it. *)
Definition blocked_change (id : StageId) (b : InterviewBlockState) : InterviewBlockState * list Event :=
  (state_block id b, if is_run_blocked b then [] else [EvRunBlocked HumanInputRequired]).

Definition resolved_change (id : StageId) (b : InterviewBlockState) : InterviewBlockState * list Event :=
  let b := state_resolve id b in (b, if is_run_blocked b then [] else [EvRunUnblocked]).

Record RunInterviewGuard := mkGuard { gd_stage : StageId; gd_resolved : bool }.

Record Interviews (H : Type) := mkInterviews { iv_life : LifeState H; iv_blocks : InterviewBlockState }.
Arguments mkInterviews {H}.
Arguments iv_life {H}.
Arguments iv_blocks {H}.

Section interviews.
Context {H : Type} `{!EventClock H} `{!Asking H} (cfg : EventConfig).
Implicit Types (w : Interviews H) (scope : StageScope).

Definition put_blocks (b : InterviewBlockState) w : Interviews H := mkInterviews (iv_life w) b.
Definition iv_emit (e : Event) w : Interviews H := mkInterviews (emit cfg e (iv_life w)) (iv_blocks w).
Definition iv_emit_scoped (e : Event) scope w : Interviews H := mkInterviews (emit_scoped cfg e scope (iv_life w)) (iv_blocks w).
Definition iv_host w : H := lf_host (iv_life w).
Definition put_iv_host (h : H) w : Interviews H := mkInterviews { iv_life w with lf_host := h } (iv_blocks w).

Definition blocker_block (id : StageId) w : RunInterviewGuard * Interviews H :=
  let '(b, events) := blocked_change id (iv_blocks w) in
  (mkGuard id false, foldl (fun w e => iv_emit e w) (put_blocks b w) events).

Definition blocker_resolved (id : StageId) w : Interviews H :=
  let '(b, events) := resolved_change id (iv_blocks w) in foldl (fun w e => iv_emit e w) (put_blocks b w) events.

(** [resolve] and the guard's [Drop]. *)
Definition resolve_in_place (g : RunInterviewGuard) w : RunInterviewGuard * Interviews H :=
  if gd_resolved g then (g, w) else (mkGuard (gd_stage g) true, blocker_resolved (gd_stage g) w).

Definition millis_since (started : Z) w : Z := default u64_max (in_bounds 0 u64_max (Z.quot (Z.max 0 (now_instant (iv_host w) - started)) 1000000)).

Definition started_props (q : Question) (stage : string) (timeout : option f64) : InterviewStartedProps := {|
  is_question_id := q_id q; is_question := q_text q; is_stage := stage; is_question_type := QuestionType_to_string (q_type q);
  is_options := options_value (q_options q); is_allow_freeform := q_allow_freeform q; is_timeout_seconds := timeout;
  is_context_display := q_context_display q; is_review_target := review_target_value <$> q_review_target q |}.

Definition started_event (q : Question) (stage : string) (timeout : option f64) : Event := InterviewStarted (started_props q stage timeout).

(** ** The questions of an agent *)

Record AgentQuestion := mkAgentQuestion {
  aq_original_id : option string;
  aq_original_question : string;
  aq_header : option string;
  aq_text : string;
  aq_type : QuestionType;
  aq_options : list InterviewOption;
  aq_allow_freeform : bool
}.

Inductive AgentQuestionAnswerStatus := SAnswered | SCancelled | SInterrupted | SSkipped | STimeout.

Record AgentQuestionAnswer := mkAgentAnswer {
  aa_original_id : option string;
  aa_original_question : string;
  aa_answers : list string;
  aa_status : AgentQuestionAnswerStatus
}.

Definition label_for_key (options : list InterviewOption) (key : string) : string :=
  match find_first (fun o => String.eqb (io_key o) key) options with Some o => io_label o | None => key end.

Definition answer_labels (options : list InterviewOption) (a : Answer) : list string :=
  match an_value a with
  | AvSelected key => [label_for_key options key]
  | AvMultiSelected keys => label_for_key options <$> keys
  | AvText text => [text]
  | AvYes => ["yes"] | AvNo => ["no"] | AvCancelled => ["cancelled"] | AvInterrupted => ["interrupted"] | AvSkipped => ["skipped"]
  | AvTimeout => ["timeout"]
  end.

Definition answer_from_submission (q : AgentQuestion) (s : AnswerSubmission) : AgentQuestionAnswer :=
  let status := match an_value (sb_answer s) with
                | AvCancelled => SCancelled | AvInterrupted => SInterrupted | AvSkipped => SSkipped | AvTimeout => STimeout | _ => SAnswered
                end in
  mkAgentAnswer (aq_original_id q) (aq_original_question q)
    (match status with SAnswered => answer_labels (aq_options q) (sb_answer s) | _ => [] end) status.

Definition slug_char (c : ascii) : option ascii :=
  if is_ascii_alphanumeric c then Some (to_ascii_lowercase c) else if (Ascii.eqb c "-" || Ascii.eqb c "_")%bool then Some c else None.

Fixpoint slug_chars (s : string) : string :=
  match s with
  | EmptyString => ""
  | String c s => match slug_char c with Some d => String d (slug_chars s) | None => slug_chars s end
  end.

(** What is left is ASCII, so characters are bytes. *)
Definition slug (value : string) : string := let out := str_take 48 (slug_chars value) in if str_is_empty out then "x" else out.

Definition internal_question_id scope (tool_call_id : string) (index : nat) (ulid : string) : string :=
  "agentq-" +:+ slug (sco_node_id scope) +:+ "-v" +:+ Z_to_string (sco_visit scope) +:+ "-" +:+ slug tool_call_id
  +:+ "-" +:+ nat_to_string (index + 1) +:+ "-" +:+ ulid.

Definition prepare_question scope (node tool_call_id : string) (index : nat) (q : AgentQuestion) (ulid : string) : Question :=
  let metadata := <["agent.original_question" := JString (aq_original_question q)]> {["agent.tool_call_id" := JString tool_call_id]} in
  let metadata := match aq_original_id q with Some id => <["agent.original_id" := JString id]> metadata | None => metadata end in
  let metadata := match aq_header q with Some h => <["agent.header" := JString h]> metadata | None => metadata end in
  mkAsked (internal_question_id scope tool_call_id index ulid) (aq_text q) (aq_type q) (aq_options q) (aq_allow_freeform q)
    None None node metadata None None.

Fixpoint prepare_questions scope (node tool_call_id : string) (index : nat) (l : list AgentQuestion) (h : H)
    : list (AgentQuestion * Question) * H :=
  match l with
  | [] => ([], h)
  | q :: l =>
      let '(ulid, h) := new_ulid h in
      let '(rest, h) := prepare_questions scope node tool_call_id (S index) l h in
      ((q, prepare_question scope node tool_call_id index q ulid) :: rest, h)
  end.

Definition emit_interrupted scope (node : string) (q : Question) (actor : option Principal) (reason : string) (ms : Z) w : Interviews H :=
  iv_emit_scoped (InterviewInterrupted actor (q_id q) (q_text q) node reason ms) scope w.

Definition emit_submission_event scope (node : string) (q : Question) (s : AnswerSubmission) (ms : Z) w : Interviews H :=
  match an_value (sb_answer s) with
  | AvTimeout => iv_emit_scoped (InterviewTimeout (Some (PrSystem ActorTimeout)) (q_id q) (q_text q) node ms) scope w
  | AvInterrupted => emit_interrupted scope node q (Some (sb_actor s)) "interrupted" ms w
  | AvCancelled => emit_interrupted scope node q (Some (sb_actor s)) "cancelled" ms w
  | _ => iv_emit_scoped (InterviewCompleted (Some (sb_actor s)) (q_id q) (q_text q) (str_join ", " (answer_labels (q_options q) (sb_answer s))) ms) scope w
  end.

(** The report of one question of a batch, with the time it took. *)
Definition report_interrupted scope (node : string) (started : Z) (pq : AgentQuestion * Question) w : Interviews H :=
  emit_interrupted scope node pq.2 (Some (PrSystem ActorEngine)) "interrupted" (millis_since started w) w.
Definition report_submission scope (node : string) (started : Z) (ps : AgentQuestion * Question * AnswerSubmission) w : Interviews H :=
  emit_submission_event scope node ps.1.2 ps.2 (millis_since started w) w.

Definition emit_all {A} (f : A -> Interviews H -> Interviews H) (l : list A) w : Interviews H := foldl (fun w a => f a w) w l.

(** The answers, or [None] when the waiting call was dropped: the batch's own [Drop] then
    reports every question as interrupted. *)
Definition ask_questions scope (node tool_call_id : string) (questions : list AgentQuestion) w
    : option (list AgentQuestionAnswer) * Interviews H :=
  match questions with
  | [] => (Some [], w)
  | _ =>
      let '(prepared, h) := prepare_questions scope node tool_call_id 0 questions (iv_host w) in
      let w := emit_all (fun pq => iv_emit_scoped (started_event pq.2 node None) scope) prepared (put_iv_host h w) in
      let started := now_instant (iv_host w) in
      let '(guard, w) := blocker_block (scope_stage_id scope) w in
      let '(ending, h) := ask_all prepared.*2 (iv_host w) in
      let w := put_iv_host h w in
      let '(answers, w) :=
        match ending with
        | Answered submissions =>
            (Some (zip_with (fun pq s => answer_from_submission pq.1 s) prepared submissions),
             emit_all (report_submission scope node started) (zip prepared submissions) w)
        | TokenCancelled =>
            (Some ((fun pq => mkAgentAnswer (aq_original_id pq.1) (aq_original_question pq.1) [] SInterrupted) <$> prepared),
             emit_all (report_interrupted scope node started) prepared w)
        | FutureDropped => (None, emit_all (report_interrupted scope node started) prepared w)
        end in
      (answers, (resolve_in_place guard w).2)
  end.
End interviews.

(** ** The count is the number of open guards *)

Inductive BlockerOp := OpBlock (id : StageId) | OpResolve (guard : nat).

(** Opening an interview hands out a guard; a guard is told to resolve, or dropped, any
    number of times and in any order. *)
Definition blocker_op (op : BlockerOp) (b : InterviewBlockState) (guards : list RunInterviewGuard)
    : InterviewBlockState * list RunInterviewGuard * list Event :=
  match op with
  | OpBlock id => let '(b, events) := blocked_change id b in (b, guards ++ [mkGuard id false], events)
  | OpResolve i =>
      match guards !! i with
      | None => (b, guards, [])
      | Some g =>
          if gd_resolved g then (b, guards, [])
          else let '(b, events) := resolved_change (gd_stage g) b in (b, <[i := mkGuard (gd_stage g) true]> guards, events)
      end
  end.

Fixpoint run_blocker (ops : list BlockerOp) (b : InterviewBlockState) (guards : list RunInterviewGuard)
    : InterviewBlockState * list RunInterviewGuard * list Event :=
  match ops with
  | [] => (b, guards, [])
  | op :: ops =>
      let '(b, guards, events) := blocker_op op b guards in
      let '(b, guards, later) := run_blocker ops b guards in (b, guards, events ++ later)
  end.

Definition open_guard (id : StageId) (g : RunInterviewGuard) : bool := (negb (gd_resolved g) && bool_decide (gd_stage g = id))%bool.
Definition open_count (id : StageId) (guards : list RunInterviewGuard) : Z := Z.of_nat (length (filterb (open_guard id) guards)).
Definition any_open (guards : list RunInterviewGuard) : bool := existsb (fun g => negb (gd_resolved g)) guards.

(** Blocked and unblocked in turn; the last one says which it is now. *)
Fixpoint announces (blocked : bool) (l : list Event) : option bool :=
  match l with
  | [] => Some blocked
  | EvRunBlocked _ :: l => if blocked then None else announces true l
  | EvRunUnblocked :: l => if blocked then announces false l else None
  | _ => None
  end.

Definition counted (b : InterviewBlockState) (guards : list RunInterviewGuard) : Prop :=
  forall id, b !! id = if open_count id guards =? 0 then None else Some (open_count id guards).

Lemma open_count_snoc id guards g : open_count id (guards ++ [g]) = open_count id guards + if open_guard id g then 1 else 0.
Proof. unfold open_count. rewrite filterb_app, length_app, filterb_cons. destruct (open_guard id g). all: cbn [length filterb List.filter]; lia. Qed.

Lemma open_count_insert id guards i g g' : guards !! i = Some g ->
  open_count id (<[i := g']> guards) = open_count id guards - (if open_guard id g then 1 else 0) + (if open_guard id g' then 1 else 0).
Proof.
  intros Hi. rewrite insert_take_drop by (by eapply lookup_lt_Some). rewrite <- (take_drop_middle guards i g Hi) at 3. unfold open_count.
  rewrite !filterb_app, !length_app, !filterb_cons. destruct (open_guard id g), (open_guard id g'); cbn [length]; lia.
Qed.

Lemma open_count_nonneg id guards : 0 <= open_count id guards.
Proof. unfold open_count. lia. Qed.

Lemma any_open_count guards : any_open guards = true <-> exists id, 0 < open_count id guards.
Proof.
  unfold any_open, open_count. rewrite existsb_exists. split.
  - intros (g & Hg & Ho). exists (gd_stage g). apply list_elem_of_In in Hg. assert (g ∈ filterb (open_guard (gd_stage g)) guards) as Hf.
    { apply filterb_elem. split; [done|]. unfold open_guard. rewrite Ho. by apply bool_decide_eq_true. }
    destruct (filterb _ _); [by apply not_elem_of_nil in Hf|]. cbn [length]. lia.
  - intros [id Hid]. destruct (filterb (open_guard id) guards) as [|g l] eqn:E; cbn in Hid; [lia|].
    assert (g ∈ filterb (open_guard id) guards) as Hf by (rewrite E; left). apply filterb_elem in Hf as [Hg Ho].
    exists g. split; [by apply list_elem_of_In|]. by apply andb_true_iff in Ho as [Ho _].
Qed.

Lemma counted_blocked b guards : counted b guards -> is_run_blocked b = any_open guards.
Proof.
  intros Hc. unfold is_run_blocked. case_bool_decide as Hb; cbn.
  - symmetry. apply not_true_iff_false. intros [id Hid]%any_open_count. specialize (Hc id). subst b. rewrite lookup_empty in Hc.
    destruct (Z.eqb_spec (open_count id guards) 0); [lia|done].
  - symmetry. apply any_open_count. apply map_choose in Hb as (id & n & Hn). exists id. specialize (Hc id). rewrite Hn in Hc.
    pose proof (open_count_nonneg id guards). destruct (Z.eqb_spec (open_count id guards) 0); [done|lia].
Qed.

Lemma counted_block b guards id : counted b guards -> counted (state_block id b) (guards ++ [mkGuard id false]).
Proof.
  intros Hc j. rewrite open_count_snoc. unfold state_block, open_guard. cbn [gd_resolved gd_stage negb andb].
  pose proof (open_count_nonneg j guards). pose proof (Hc j) as Hj. destruct (decide (id = j)) as [->|Hne].
  - rewrite lookup_insert_eq, bool_decide_true, Hj by done. destruct (Z.eqb_spec (open_count j guards) 0) as [->|?]; cbn; [done|].
    destruct (Z.eqb_spec (open_count j guards + 1) 0); [lia|done].
  - rewrite lookup_insert_ne, bool_decide_false, Z.add_0_r by done. exact Hj.
Qed.

Lemma counted_resolve b guards i g : counted b guards -> guards !! i = Some g -> gd_resolved g = false ->
  counted (state_resolve (gd_stage g) b) (<[i := mkGuard (gd_stage g) true]> guards).
Proof.
  intros Hc Hi Hg j. rewrite (open_count_insert j guards i g _ Hi). unfold open_guard. rewrite Hg. cbn [gd_resolved gd_stage negb andb].
  rewrite Z.add_0_r. pose proof (open_count_nonneg j guards). pose proof (Hc j) as Hj. unfold state_resolve. destruct (decide (gd_stage g = j)) as [<-|Hne].
  - rewrite bool_decide_true by done. assert (0 < open_count (gd_stage g) guards) as Hpos.
    { unfold open_count. assert (g ∈ filterb (open_guard (gd_stage g)) guards) as Hf.
      { apply filterb_elem. split; [by eapply list_elem_of_lookup_2|]. unfold open_guard. rewrite Hg. by apply bool_decide_eq_true. }
      destruct (filterb _ _); [by apply not_elem_of_nil in Hf|]. cbn [length]. lia. }
    rewrite Hj. destruct (Z.eqb_spec (open_count (gd_stage g) guards) 0); [lia|]. cbv zeta. rewrite Z.max_r by lia.
    destruct (_ - 1 =? 0); [by rewrite lookup_delete_eq|by rewrite lookup_insert_eq].
  - rewrite bool_decide_false, Z.sub_0_r by done. destruct (b !! gd_stage g) as [n|]; [|done]. cbv zeta.
    destruct (Z.max 0 (n - 1) =? 0); [by rewrite lookup_delete_ne|by rewrite lookup_insert_ne].
Qed.

Lemma blocker_op_ok op b guards : counted b guards ->
  let '(b', guards', events) := blocker_op op b guards in
  counted b' guards' /\ announces (is_run_blocked b) events = Some (is_run_blocked b').
Proof.
  intros Hc. destruct op as [id|i]; cbn [blocker_op].
  - unfold blocked_change. pose proof (counted_block b guards id Hc) as Hc'. split; [done|].
    assert (is_run_blocked (state_block id b) = true) as ->.
    { unfold is_run_blocked, state_block. by rewrite bool_decide_false by apply insert_non_empty. }
    by destruct (is_run_blocked b).
  - destruct (guards !! i) as [g|] eqn:Hi; [|done]. destruct (gd_resolved g) eqn:Hg; [done|].
    unfold resolved_change. pose proof (counted_resolve b guards i g Hc Hi Hg) as Hc'. split; [done|].
    assert (is_run_blocked b = true) as ->.
    { rewrite (counted_blocked b guards Hc). apply existsb_exists. exists g. rewrite Hg. split; [|done].
      apply list_elem_of_In. by eapply list_elem_of_lookup_2. }
    by destruct (is_run_blocked (state_resolve _ b)) eqn:E; cbn; rewrite ?E.
Qed.

Lemma announces_app blocked a b : announces blocked (a ++ b) = match announces blocked a with Some x => announces x b | None => None end.
Proof. revert blocked. induction a as [|e a IH]; intros blocked; [done|]. destruct e; cbn; try done; destruct blocked; try done; apply IH. Qed.

Lemma run_blocker_ok ops : forall b guards, counted b guards ->
  let '(b', guards', events) := run_blocker ops b guards in
  counted b' guards' /\ announces (is_run_blocked b) events = Some (is_run_blocked b').
Proof.
  induction ops as [|op ops IH]; intros b guards Hc; cbn [run_blocker]; [done|].
  pose proof (blocker_op_ok op b guards Hc) as Ho. destruct (blocker_op op b guards) as [[b1 g1] es].
  destruct Ho as [Hc1 Hes]. specialize (IH b1 g1 Hc1). destruct (run_blocker ops b1 g1) as [[b2 g2] later]. destruct IH as [Hc2 Hl].
  split; [done|]. by rewrite announces_app, Hes.
Qed.

(** ** What the reducer makes of it *)

Definition blocked_status (blocked : bool) : RunStatus := if blocked then RsBlocked HumanInputRequired else RsRunning.

Definition seen_at (ts : DateTime) (p : RunProjection) : RunProjection := { p with rp_last_event_at := ts }.

Lemma live_body_eq seq e p r : apply_body e seq (seen_at (ev_ts e) p) = (Ok (), r) -> live_event (mkEnvelope seq e) p = Ok r.
Proof. intros He. unfold live_event, run_reduce. rewrite apply_event_body. cbn [env_event env_seq]. unfold seen_at in He. by rewrite He. Qed.

Lemma live_status_event seq e p (blocked : bool) :
  ev_body e = event_body_from_event (if blocked then EvRunBlocked HumanInputRequired else EvRunUnblocked) ->
  rp_status p = blocked_status (negb blocked) ->
  exists p', live_event (mkEnvelope seq e) p = Ok p' /\ rp_status p' = blocked_status blocked
             /\ rp_pending_interviews p' = rp_pending_interviews p.
Proof.
  intros Hb Hs. exists (to_status (blocked_status blocked) (ev_ts e) (seen_at (ev_ts e) p)). split; [|by destruct p].
  assert (rp_status (seen_at (ev_ts e) p) = blocked_status (negb blocked)) as Hs' by (by destruct p).
  apply live_body_eq. rewrite <- status_change_to by (rewrite Hs'; by destruct blocked).
  unfold apply_body. rewrite Hb. destruct blocked; cbn [event_body_from_event]; unfold apply_run_blocked, apply_run_unblocked;
    unfold mbind, Reduce_bind, get_run; by rewrite Hs'.
Qed.

Lemma announced_reduces l : forall blocked events seq p after,
  announces blocked events = Some after -> ev_body <$> l = event_body_from_event <$> events -> rp_status p = blocked_status blocked ->
  exists p', live_events (stored seq l) p = Ok p' /\ rp_status p' = blocked_status after /\ rp_pending_interviews p' = rp_pending_interviews p.
Proof.
  induction l as [|e l IH]; intros blocked events seq p after Ha Hl Hs; destruct events as [|x events]; try done.
  { injection Ha as <-. by exists p. }
  cbn [fmap list_fmap] in Hl. injection Hl as Hb Hl.
  assert (exists now : bool, x = (if now then EvRunBlocked HumanInputRequired else EvRunUnblocked) /\ blocked = negb now /\ announces now events = Some after)
    as (now & -> & -> & Ha').
  { destruct x; cbn in Ha; try done; destruct blocked; try done; [destruct reason; by exists true|by exists false]. }
  destruct (live_status_event seq e p now Hb Hs) as (p1 & Hp1 & Hs1 & Hi1).
  destruct (IH now events (seq + 1) p1 after Ha' Hl Hs1) as (p2 & Hp2 & Hs2 & Hi2).
  exists p2. cbn [stored]. rewrite live_cons, Hp1. rewrite Hi2, Hi1. done.
Qed.

(** C16: a run is blocked while it waits for people.  However the interviews of a run open and
    close (guards resolved or dropped in any order, several for one stage, concurrently
    with the mutex deciding the order), the count of a stage is the number of its open
    interviews, the run counts as blocked exactly while one is open, and the events announced
    are accepted by the status machine of a running run and leave it blocked exactly then. *)
Theorem interviews_block_run ops seq l p :
  let '(b, guards, events) := run_blocker ops ∅ [] in
  rp_status p = RsRunning ->
  ev_body <$> l = event_body_from_event <$> events ->
  counted b guards
  /\ is_run_blocked b = any_open guards
  /\ exists p', live_events (stored seq l) p = Ok p' /\ rp_status p' = blocked_status (any_open guards).
Proof.
  assert (counted ∅ []) as H0 by (intros id; by rewrite lookup_empty).
  pose proof (run_blocker_ok ops ∅ [] H0) as Hr. destruct (run_blocker ops ∅ []) as [[b guards] events]. destruct Hr as [Hc Ha].
  intros Hs Hl. rewrite (counted_blocked b guards Hc) in Ha. split; [done|]. split; [by apply counted_blocked|].
  destruct (announced_reduces l false events seq p (any_open guards) Ha Hl Hs) as (p' & Hp & Hs' & _). by exists p'.
Qed.

(** ** The questions of an agent, and what the projection shows of them *)

Section agent_questions.
Context {H : Type} `{!EventClock H} `{!Asking H} (cfg : EventConfig).
Implicit Types (w : Interviews H) (scope : StageScope).

Abbreviation Pending := (gmap string PendingInterviewRecord).

(** The log grows from [w] to [w'], and its new events take a run from one status to another
    and change the interviews it shows as pending. *)
Definition log_steps w w' (from to : RunStatus) (f : Pending -> Pending) : Prop :=
  exists new, lf_log (iv_life w') = lf_log (iv_life w) ++ new /\
    forall seq p, rp_status p = from ->
      exists p', live_events (stored seq new) p = Ok p' /\ rp_status p' = to /\ rp_pending_interviews p' = f (rp_pending_interviews p).

Lemma log_steps_trans w w1 w2 st st1 st2 f g :
  log_steps w w1 st st1 f -> log_steps w1 w2 st1 st2 g -> log_steps w w2 st st2 (fun m => g (f m)).
Proof.
  intros (l1 & E1 & H1) (l2 & E2 & H2). exists (l1 ++ l2). split; [by rewrite E2, E1, app_assoc|]. intros seq p Hp.
  destruct (H1 seq p Hp) as (p1 & Hp1 & Hs1 & Hi1). destruct (H2 (seq + Z.of_nat (length l1)) p1 Hs1) as (p2 & Hp2 & Hs2 & Hi2).
  exists p2. rewrite stored_app, live_app, Hp1. by rewrite Hi2, Hi1.
Qed.

Lemma log_steps_refl w w' st : lf_log (iv_life w') = lf_log (iv_life w) -> log_steps w w' st st (fun m => m).
Proof. intros E. exists []. split; [by rewrite E, app_nil_r|]. intros seq p Hp. by exists p. Qed.

Lemma log_steps_event w w' e st f :
  lf_log (iv_life w') = lf_log (iv_life w) ++ [e] ->
  (forall seq p, exists p', apply_body e seq p = (Ok (), p') /\ rp_status p' = rp_status p /\ rp_pending_interviews p' = f (rp_pending_interviews p)) ->
  log_steps w w' st st f.
Proof.
  intros E Hb. exists [e]. split; [done|]. intros seq p Hp. destruct (Hb seq (seen_at (ev_ts e) p)) as (p' & Hp' & Hs & Hi).
  exists p'. cbn [stored]. rewrite live_cons, (live_body_eq _ _ _ _ Hp'). split; [done|]. rewrite Hs, Hi. by destruct p.
Qed.

(** What the interviews are called: the terminal events of a question take it off the list. *)
Lemma removed_step w w' e q st :
  lf_log (iv_life w') = lf_log (iv_life w) ++ [e] -> q <> "" ->
  (ev_body e = BInterviewCompleted q \/ ev_body e = BInterviewTimeout q \/ ev_body e = BInterviewInterrupted q) ->
  log_steps w w' st st (delete q).
Proof.
  intros E Hq Hb. apply (log_steps_event w w' e); [done|]. intros seq p. exists { p with rp_pending_interviews := delete q (rp_pending_interviews p) }.
  split; [|by destruct p]. unfold apply_body. destruct q as [|c q]; [done|]. by destruct Hb as [-> | [-> | ->]].
Qed.

Lemma submission_step scope node q s ms w st :
  q_id q <> "" -> log_steps w (emit_submission_event cfg scope node q s ms w) st st (delete (q_id q))
                  /\ iv_blocks (emit_submission_event cfg scope node q s ms w) = iv_blocks w.
Proof.
  intros Hq. unfold emit_submission_event, emit_interrupted, iv_emit_scoped, emit_scoped, emit_with_scope.
  destruct (an_value (sb_answer s)); (split; [|done]); (eapply removed_step; [reflexivity|done|cbn; auto]).
Qed.

Lemma interrupted_step scope node q actor reason ms w st :
  q_id q <> "" -> log_steps w (emit_interrupted cfg scope node q actor reason ms w) st st (delete (q_id q))
                  /\ iv_blocks (emit_interrupted cfg scope node q actor reason ms w) = iv_blocks w.
Proof. intros Hq. split; [|done]. eapply removed_step; [reflexivity|done|cbn; auto]. Qed.

Lemma question_started_step scope q node timeout w st :
  q_id q <> "" ->
  log_steps w (iv_emit_scoped cfg (started_event q node timeout) scope w) st st
    (<[q_id q := pending_interview (started_props q node timeout) (utc_now (lf_host (iv_life w)))]>).
Proof.
  intros Hq. eapply log_steps_event; [reflexivity|]. intros seq p.
  exists { p with rp_pending_interviews := <[q_id q := pending_interview (started_props q node timeout) (utc_now (lf_host (iv_life w)))]> (rp_pending_interviews p) }.
  split; [|by destruct p]. unfold apply_body, apply_interview_started. cbn. destruct (q_id q) as [|c id]; [done|]. reflexivity.
Qed.

Lemma emit_all_steps {A} (name : A -> string) (g : A -> Pending -> Pending) (f : A -> Interviews H -> Interviews H) l st :
  Forall (fun a => name a <> "") l ->
  (forall a w, name a <> "" -> log_steps w (f a w) st st (g a) /\ iv_blocks (f a w) = iv_blocks w) ->
  forall w, log_steps w (emit_all f l w) st st (fun m => foldl (fun m a => g a m) m l) /\ iv_blocks (emit_all f l w) = iv_blocks w.
Proof.
  intros Hl Hf. induction Hl as [|a l Ha Hl IH]; intros w; [split; [by apply log_steps_refl|done]|].
  destruct (Hf a w Ha) as [Hs Hb]. destruct (IH (f a w)) as [Hs' Hb']. cbn [emit_all foldl].
  split; [|by unfold emit_all in Hb'; rewrite Hb', Hb]. exact (log_steps_trans _ _ _ _ _ _ _ _ Hs Hs').
Qed.

(** The questions announced: only their own entries change. *)
Lemma started_steps {A} scope node (q : A -> Question) l st : Forall (fun a => q_id (q a) <> "") l ->
  forall w, exists f, let w' := emit_all (fun a => iv_emit_scoped cfg (started_event (q a) node None) scope) l w in
    log_steps w w' st st f /\ iv_blocks w' = iv_blocks w /\ forall m id, id ∉ (fun a => q_id (q a)) <$> l -> f m !! id = m !! id.
Proof.
  induction 1 as [|a l Ha Hl IH]; intros w; [exists (fun m => m); by split; [apply log_steps_refl|]|].
  pose proof (question_started_step scope (q a) node None w st Ha) as Hs. destruct (IH (iv_emit_scoped cfg (started_event (q a) node None) scope w)) as (f & Hs' & Hb & Hf).
  eexists. cbv zeta in *. cbn [emit_all foldl]. split; [exact (log_steps_trans _ _ _ _ _ _ _ _ Hs Hs')|]. split; [exact Hb|].
  intros m id [Hid Hl']%not_elem_of_cons. rewrite Hf by done. by apply lookup_insert_ne.
Qed.

Lemma delete_all_lookup {A V} (name : A -> string) l (m : gmap string V) id :
  foldl (fun m a => delete (name a) m) m l !! id = if bool_decide (id ∈ name <$> l) then None else m !! id.
Proof.
  revert m. induction l as [|a l IH]; intros m; [done|]. cbn [foldl]. rewrite IH, fmap_cons. destruct (decide (id = name a)) as [->|Hne].
  - rewrite lookup_delete_eq, (bool_decide_true (_ ∈ _ :: _)) by left. by case_bool_decide.
  - rewrite lookup_delete_ne by done. rewrite (bool_decide_ext (id ∈ name a :: (name <$> l)) (id ∈ name <$> l)); [done|]. rewrite elem_of_cons. naive_solver.
Qed.

Lemma prepare_ids scope node call l : forall i h, 
  let '(prepared, _) := prepare_questions scope node call i l h in
  Forall (fun pq => q_id pq.2 <> "") prepared /\ prepared.*1 = l.
Proof.
  induction l as [|q l IH]; intros i h; [done|]. cbn [prepare_questions]. destruct (new_ulid h) as [u h1].
  specialize (IH (S i) h1). destruct (prepare_questions scope node call (S i) l h1) as [rest h2]. destruct IH as [Hf Hl].
  split; [by constructor|]. cbn. by rewrite Hl.
Qed.

(** Opening and closing one interview leaves the count as it was. *)
Lemma block_then_resolve id (b : InterviewBlockState) : map_Forall (fun _ n => 1 <= n) b -> state_resolve id (state_block id b) = b.
Proof.
  intros Hb. unfold state_resolve, state_block. rewrite lookup_insert_eq. cbv zeta. destruct (b !! id) as [n|] eqn:E; cbn.
  - assert (1 <= n) by exact (Hb _ _ E). rewrite Z.max_r by lia. destruct (Z.eqb_spec (n + 1 - 1) 0); [lia|].
    rewrite insert_insert_eq. apply insert_id. rewrite E. f_equal. lia.
  - apply delete_insert_id. done.
Qed.

Lemma announce_step w w' e (now : bool) :
  lf_log (iv_life w') = lf_log (iv_life w) ++ [e] ->
  ev_body e = event_body_from_event (if now then EvRunBlocked HumanInputRequired else EvRunUnblocked) ->
  log_steps w w' (blocked_status (negb now)) (blocked_status now) (fun m => m).
Proof.
  intros E Hb. exists [e]. split; [done|]. intros seq p Hp. destruct (live_status_event seq e p now Hb Hp) as (p' & Hp' & Hs & Hi).
  exists p'. cbn [stored]. by rewrite live_cons, Hp'.
Qed.

Lemma blocker_step id w :
  let '(g, w') := blocker_block cfg id w in
  g = mkGuard id false /\ iv_blocks w' = state_block id (iv_blocks w) /\ iv_host w' = iv_host w
  /\ log_steps w w' (blocked_status (is_run_blocked (iv_blocks w))) (blocked_status true) (fun m => m).
Proof.
  unfold blocker_block, blocked_change. destruct (is_run_blocked (iv_blocks w)) eqn:E; cbn [foldl].
  - split_and!; try done. by apply log_steps_refl.
  - split_and!; try done. by eapply (announce_step _ _ _ true).
Qed.

Lemma resolve_step id w b :
  map_Forall (fun _ n => 1 <= n) b -> iv_blocks w = state_block id b ->
  let w' := (resolve_in_place cfg (mkGuard id false) w).2 in
  iv_blocks w' = b /\ log_steps w w' (blocked_status true) (blocked_status (is_run_blocked b)) (fun m => m).
Proof.
  intros Hb Hw. unfold resolve_in_place, blocker_resolved, resolved_change. cbn [gd_resolved gd_stage snd]. rewrite Hw, block_then_resolve by done.
  destruct (is_run_blocked b) eqn:E; cbn [foldl].
  - split; [done|]. by apply log_steps_refl.
  - split; [done|]. by eapply (announce_step _ _ _ false).
Qed.

(** The end of the wait: each question is reported once. *)
Lemma ending_steps scope node started (prepared : list (AgentQuestion * Question)) ending w st :
  Forall (fun pq => q_id pq.2 <> "") prepared -> (forall l, ending = Answered l -> length l = length prepared) ->
  let w' := (match ending with
    | Answered submissions => emit_all (report_submission cfg scope node started) (zip prepared submissions) w
    | _ => emit_all (report_interrupted cfg scope node started) prepared w
    end) in
  iv_blocks w' = iv_blocks w /\ exists f, log_steps w w' st st f
    /\ forall m id, f m !! id = if bool_decide (id ∈ (fun pq => q_id pq.2) <$> prepared) then None else m !! id.
Proof.
  intros Hids Hlen. assert (forall w, let w' := emit_all (report_interrupted cfg scope node started) prepared w in
    iv_blocks w' = iv_blocks w /\ exists f, log_steps w w' st st f
    /\ forall m id, f m !! id = if bool_decide (id ∈ (fun pq => q_id pq.2) <$> prepared) then None else m !! id) as Hint.
  { intros w0. destruct (emit_all_steps (fun pq => q_id pq.2) (fun pq => delete (q_id pq.2)) (report_interrupted cfg scope node started) prepared st Hids
      (fun pq w => interrupted_step scope node pq.2 _ _ _ w st) w0) as [Hs Hb]. split; [exact Hb|]. eexists. split; [exact Hs|].
    intros m id. apply (delete_all_lookup (fun pq => q_id pq.2)). }
  destruct ending as [submissions| |]; [|apply Hint|apply Hint].
  assert ((fun ps => q_id ps.1.2) <$> zip prepared submissions = (fun pq => q_id pq.2) <$> prepared) as Hz.
  { change (fun ps => q_id ps.1.2) with ((fun pq : AgentQuestion * Question => q_id pq.2) ∘ (fst : _ * AnswerSubmission -> _)).
    rewrite list_fmap_compose, fst_zip; [done|]. rewrite (Hlen submissions) by done. lia. }
  destruct (emit_all_steps (fun ps => q_id ps.1.2) (fun ps => delete (q_id ps.1.2)) (report_submission cfg scope node started) (zip prepared submissions) st)
    with (w := w) as [Hs Hb]; [|intros ps w0; apply submission_step|].
  { apply (Forall_fmap (fun ps => q_id ps.1.2) (fun id => id <> "")). by rewrite Hz, Forall_fmap. }
   split; [exact Hb|]. eexists. split; [exact Hs|]. intros m id. rewrite <- Hz.
  apply (delete_all_lookup (fun ps => q_id ps.1.2)).
Qed.

(** C17: the questions an agent asks are settled however waiting for the answers ends: answered,
    cancelled, or dropped with the stage.  The run is blocked in between and afterwards as it
    was before; every event is accepted; none of the questions stays pending, and no other
    pending interview is touched; an agent that gets answers gets one per question, in order. *)
Theorem agent_questions_settle scope node call questions w answers w' seq p :
  (forall l h submissions h', ask_all l h = (Answered submissions, h') -> length submissions = length l) ->
  map_Forall (fun _ n => 1 <= n) (iv_blocks w) ->
  rp_status p = blocked_status (is_run_blocked (iv_blocks w)) ->
  ask_questions cfg scope node call questions w = (answers, w') ->
  let ids := (fun pq => q_id pq.2) <$> (prepare_questions scope node call 0 questions (iv_host w)).1 in
  iv_blocks w' = iv_blocks w
  /\ (exists new p', lf_log (iv_life w') = lf_log (iv_life w) ++ new /\ live_events (stored seq new) p = Ok p'
        /\ rp_status p' = rp_status p
        /\ forall id, rp_pending_interviews p' !! id = if bool_decide (id ∈ ids) then None else rp_pending_interviews p !! id)
  /\ (forall l, answers = Some l -> aa_original_question <$> l = aq_original_question <$> questions).
Proof.
  intros Hall Hb Hp Hask ids. unfold ask_questions in Hask. destruct questions as [|q0 questions].
  { injection Hask as <- <-. split; [done|]. split; [|by intros l [= <-]]. exists [], p. by rewrite app_nil_r. }
  remember (q0 :: questions) as qs eqn:Eqs. clear Eqs q0 questions. pose proof (prepare_ids scope node call qs 0 (iv_host w)) as Hprep.
  subst ids. destruct (prepare_questions scope node call 0 qs (iv_host w)) as [prepared h1]. destruct Hprep as [Hids Hqs]. cbn [fst].
  set (w0 := put_iv_host h1 w) in Hask. destruct (started_steps scope node snd prepared (blocked_status (is_run_blocked (iv_blocks w))) Hids w0)
    as (f1 & Hs1 & Hb1 & Hf1). set (w1 := emit_all _ prepared w0) in *.
  pose proof (blocker_step (scope_stage_id scope) w1) as Hblock. destruct (blocker_block cfg (scope_stage_id scope) w1) as [g w2].
  destruct Hblock as (-> & Hb2 & _ & Hs2). rewrite Hb1 in Hs2, Hb2. destruct (ask_all prepared.*2 (iv_host w2)) as [ending h3] eqn:Eask.
  set (w3 := put_iv_host h3 w2) in Hask.
  destruct (ending_steps scope node (now_instant (iv_host w1)) prepared ending w3 (blocked_status true) Hids) as (Hb4 & f4 & Hs4 & Hf4).
  { intros l ->. rewrite (Hall _ _ _ _ Eask). by rewrite length_fmap. }
  set (w4 := match ending with Answered _ => _ | _ => _ end) in Hb4, Hs4.
  assert (w' = (resolve_in_place cfg (mkGuard (scope_stage_id scope) false) w4).2 /\
    (forall l, answers = Some l -> aa_original_question <$> l = aq_original_question <$> qs)) as [-> Hans].
  { subst w4. destruct ending as [subs| |]; injection Hask as <- <-; (split; [done|]); intros l Hl; try done; injection Hl as <-; rewrite <- Hqs.
    - pose proof (Hall _ _ _ _ Eask) as Hlen. rewrite length_fmap in Hlen. clear -Hlen. revert prepared Hlen.
      induction subs as [|s subs IH]; intros [|pq prepared] Hlen; try done. cbn in *. f_equal. apply IH. lia.
    - by rewrite <- !list_fmap_compose. }
  destruct (resolve_step (scope_stage_id scope) w4 (iv_blocks w) Hb) as [Hb5 Hs5]; [by rewrite Hb4|]. split; [exact Hb5|]. split; [|done].
  assert (log_steps w w0 (blocked_status (is_run_blocked (iv_blocks w))) (blocked_status (is_run_blocked (iv_blocks w))) (fun m => m)) as Hs0 by (by apply log_steps_refl).
  assert (log_steps w2 w3 (blocked_status true) (blocked_status true) (fun m => m)) as Hs3 by (by apply log_steps_refl).
  pose proof (log_steps_trans _ _ _ _ _ _ _ _ Hs0 (log_steps_trans _ _ _ _ _ _ _ _ Hs1 (log_steps_trans _ _ _ _ _ _ _ _ Hs2
    (log_steps_trans _ _ _ _ _ _ _ _ Hs3 (log_steps_trans _ _ _ _ _ _ _ _ Hs4 Hs5))))) as (new & Hlog & Hnew).
  destruct (Hnew seq p Hp) as (p' & Hlive & Hst & Hpend). exists new, p'. rewrite Hst, <- Hp. split_and!; try done.
  intros id. rewrite Hpend, Hf4. case_bool_decide; [done|]. by apply Hf1.
Qed.
End agent_questions.

(** ** Witnesses *)

Definition running_projection : RunProjection := to_status RsRunning 0 sample_new.

Definition two_stages : list BlockerOp := [OpBlock (mkStageId "a" 1); OpBlock (mkStageId "b" 1); OpResolve 0; OpResolve 0; OpResolve 1; OpBlock (mkStageId "a" 1)].

Lemma interviews_block_run_witness :
  let '(b, guards, events) := run_blocker two_stages ∅ [] in
  events = [EvRunBlocked HumanInputRequired; EvRunUnblocked; EvRunBlocked HumanInputRequired] /\ any_open guards = true
  /\ exists p', live_events (stored 7 ((fun e => to_run_event_at "run" e 0 None) <$> events)) running_projection = Ok p' /\ rp_status p' = RsBlocked HumanInputRequired.
Proof.
  assert (Hr := interviews_block_run two_stages 7
    ((fun e => to_run_event_at "run" e 0 None) <$> [EvRunBlocked HumanInputRequired; EvRunUnblocked; EvRunBlocked HumanInputRequired]) running_projection).
  destruct (Hr eq_refl eq_refl) as (_ & _ & p' & Hp & Hs). split; [reflexivity|]. split; [reflexivity|]. exists p'. split; [exact Hp|exact Hs].
Defined.

(** A host whose people answer [yes], or leave. *)
Definition person (leaves : bool) : Asking Z := {|
  now_instant := fun h => h; new_ulid := fun h => ("01J", h + 1);
  ask := fun _ h => (mkSubmission (mkAnswer AvYes None None) (PrSystem ActorEngine), h);
  ask_within := fun _ _ h => (None, h);
  ask_all := fun l h => (if leaves then FutureDropped else Answered ((fun _ => mkSubmission (mkAnswer AvYes None None) (PrSystem ActorEngine)) <$> l), h);
  cancel_requested := fun _ => false |}.

Definition sample_scope : StageScope := mkScope "plan" 1 None None.
Definition sample_question : AgentQuestion := mkAgentQuestion (Some "q1") "Deploy now?" None "Deploy now?" QYesNo [] false.
Definition quiet_world : Interviews Z := mkInterviews (mkLife 0 [] ∅ (mkBreaker ∅ ∅) fidelity_new None None None false None MdHealthy) ∅.
Definition sample_events : EventConfig := mkEventConfig "g" "run" None None None None None.
#[local] Instance still_clock : EventClock Z := fun _ => 0.

Lemma agent_questions_settle_witness :
  let '(answers, w) := ask_questions (Asking0 := person true) sample_events sample_scope "plan" "call" [sample_question] quiet_world in
  answers = None /\ iv_blocks w = ∅
  /\ (event_name ∘ ev_body) <$> lf_log (iv_life w) = ["interview.started"; "run.blocked"; "interview.interrupted"; "run.unblocked"]
  /\ exists p', live_events (stored 7 (lf_log (iv_life w))) running_projection = Ok p' /\ rp_status p' = RsRunning
       /\ rp_pending_interviews p' !! "agentq-plan-v1-call-1-01J" = None.
Proof.
  destruct (ask_questions (Asking0 := person true) sample_events sample_scope "plan" "call" [sample_question] quiet_world) as [answers w] eqn:E.
  destruct (agent_questions_settle (Asking0 := person true) sample_events sample_scope "plan" "call" [sample_question] quiet_world answers w 7 running_projection)
    as (Hb & (new & p' & Hlog & Hp & Hs & Hi) & _);
    [intros l h subs h' Hl; discriminate Hl|by apply map_Forall_empty|reflexivity|exact E|].
  change (lf_log (iv_life w) = new) in Hlog. specialize (Hi "agentq-plan-v1-call-1-01J").
  split; [vm_compute in E; by injection E as <- <-|]. split; [exact Hb|]. split; [vm_compute in E; injection E as <- <-; reflexivity|].
  exists p'. rewrite Hlog. split; [exact Hp|]. split; [exact Hs|]. exact Hi.
Defined.
