(* ===== verification/Human.v ===== *)
(** * Human gates (fabro-workflow/src/handler/human.rs)

    A gate offers its outgoing edges as the options of a question and turns the answer into
    an outcome whose preferred label and suggested target name an edge; edge selection
    (Routing.v) does the rest.  [human_execute] runs in the world of Interviews.v; what the
    gate shows, asks and announces goes through the same log and count.  Which non-ASCII
    characters are alphanumeric is the parameter [UnicodeLetters]. *)

From S2P Require Import Prelude RustStr RustNum Backoff GraphTypes Context Outcome Core Executor ExecutorLogic ExecutorFacts Blobs Artifact Condition CondFacts.
From S2P Require Import StageIds RunStatus EventScan Events Projection Reducer ReducerProps Failure Routing RoutingFacts Workflow.
From S2P Require Import Billing StageExec EventLife Fidelity CircuitBreaker Resume Interviews.
Local Open Scope string_scope.
Local Open Scope list_scope.
Local Open Scope Z_scope.

Definition REVIEW_TARGET : string := "review_target".
Definition HUMAN_GATE_SELECTED : string := "human.gate.selected".
Definition HUMAN_GATE_LABEL : string := "human.gate.label".
Definition HUMAN_GATE_TEXT : string := "human.gate.text".

Definition eq_ignore_ascii_case (a b : string) : bool := String.eqb (str_map to_ascii_lowercase a) (str_map to_ascii_lowercase b).

(** [char::is_alphanumeric] of a character outside ASCII, given by its bytes. *)
Class UnicodeLetters := unicode_alphanumeric : string -> bool.

(** ** The choices of a gate *)

Record Choice := mkChoice { ch_key : string; ch_label : string; ch_to : string }.
Record ChoiceMatch := mkMatch { cm_route : Choice; cm_selected_key : string; cm_selected_label : string }.
Record HumanGateQuestion := mkGate { hg_choices : list Choice; hg_freeform_target : option string; hg_question : Question }.

Section gate.
Context `{!UnicodeLetters}.

Fixpoint all_alphanumeric_go (fuel : nat) (s : string) : bool :=
  match fuel, s with
  | _, EmptyString => true
  | O, _ => false
  | S fuel, String c rest =>
      if in_range 0 127 c then (is_ascii_alphanumeric c && all_alphanumeric_go fuel rest)%bool
      else let ch := take_chars 1 s in (unicode_alphanumeric ch && all_alphanumeric_go fuel (str_drop (String.length ch) s))%bool
  end.

Definition all_alphanumeric (s : string) : bool := all_alphanumeric_go (String.length s) s.

(** The text before [pat], when it is one to three bytes long and alphanumeric. *)
Definition short_key (pat s : string) : option string :=
  match split_once pat s with
  | Some (key, _) => if (Nat.ltb 0 (String.length key) && Nat.leb (String.length key) 3 && all_alphanumeric key)%bool then Some key else None
  | None => None
  end.

Definition bracket_key (s : string) : option string :=
  match split_once "]" s with
  | Some (String c key, _) => if (Ascii.eqb c "[" && negb (str_is_empty key))%bool then Some key else None
  | _ => None
  end.

Definition parse_accelerator_key (label : string) : string :=
  let trimmed := trim label in
  default (take_chars 1 trimmed) (or_else (bracket_key trimmed) (or_else (short_key ")" trimmed) (short_key " - " trimmed))).

Definition choice_label (e : Edge) : string := default (edge_to e) (opt_filter (fun l => negb (str_is_empty l)) (edge_label e)).

Definition choice_of (e : Edge) : Choice := mkChoice (parse_accelerator_key (choice_label e)) (choice_label e) (edge_to e).

Definition choices_of (edges : list Edge) : list Choice := choice_of <$> filterb (fun e => negb (freeform e)) edges.

Definition freeform_target_of (edges : list Edge) : option string := edge_to <$> last (filterb freeform edges).

Definition question_type_for_node (n : Node) (default_freeform : bool) : result QuestionType string :=
  match node_str_attr n "question_type" with
  | Some value =>
      match QuestionType_from_str value with Some t => Ok t | None => Err ("invalid human question_type: " +:+ value) end
  | None => Ok (if default_freeform then QFreeform else QMultipleChoice)
  end.

Definition option_of_choice (c : Choice) : InterviewOption := mkOption (ch_key c) (ch_label c) None None.

Definition shown_response (c : Context) : option string :=
  last_node ← ctx_get c LAST_STAGE ≫= value_as_str;
  response ← ctx_get c (response_key last_node) ≫= value_as_str;
  opt_filter (fun t => negb (str_is_empty t)) (Some (trim response)).

Definition gate_review `{ReviewParsers} (n : Node) (c : Context) : result (option ReviewTarget) string :=
  if review_target n then
    match ctx_get c REVIEW_TARGET with
    | None => Err ("Human gate " +:+ dq +:+ node_id n +:+ dq +:+ " has review_target=true but context.review_target is missing")
    | Some value =>
        match review_target_from_value value with
        | Ok t => Ok (Some t)
        | Err error => Err ("Human gate " +:+ dq +:+ node_id n +:+ dq +:+ " has invalid context.review_target: " +:+ error)
        end
    end
  else Ok None.

Definition build_human_gate_question `{ReviewParsers} (n : Node) (c : Context) (g : Graph) (ulid : string) : result HumanGateQuestion string :=
  let edges := outgoing_edges g (node_id n) in
  let choices := choices_of edges in
  let target := freeform_target_of edges in
  match choices, target with
  | [], None => Err "No outgoing edges for human gate"
  | _, _ =>
      match question_type_for_node n (match choices with [] => true | _ => false end) with
      | Err e => Err e
      | Ok t =>
          match gate_review n c with
          | Err e => Err e
          | Ok review =>
              Ok (mkGate choices target
                (mkAsked ulid (match review with Some r => review_question_text r | None => node_label n end) t (option_of_choice <$> choices)
                   (is_some target) None (as_secs_f64 <$> node_timeout n) (node_id n) ∅ (shown_response c) review))
          end
      end
  end.

(** ** Answers *)

Definition whole_match (c : Choice) : ChoiceMatch := mkMatch c (ch_key c) (ch_label c).

Definition find_yes_no_choice (choices : list Choice) (yes : bool) : option Choice :=
  let expected_keys := if yes then ["Y"; "YES"] else ["N"; "NO"] in
  find_first (fun c => (existsb (fun k => eq_ignore_ascii_case (ch_key c) k) expected_keys
                        || eq_ignore_ascii_case (ch_label c) (if yes then "yes" else "no"))%bool) choices.

Definition choice_by_key (choices : list Choice) (key : string) : option Choice := find_first (fun c => String.eqb (ch_key c) key) choices.

Definition find_choice_match (a : Answer) (choices : list Choice) : option ChoiceMatch :=
  match an_value a with
  | AvSelected key => whole_match <$> choice_by_key choices key
  | AvMultiSelected keys =>
      let selected := omap (choice_by_key choices) keys in
      (fun first => mkMatch first (str_join "," (ch_key <$> selected)) (str_join ", " (ch_label <$> selected))) <$> head selected
  | AvYes => whole_match <$> find_yes_no_choice choices true
  | AvNo => whole_match <$> find_yes_no_choice choices false
  | AvText text =>
      whole_match <$> find_first (fun c => (eq_ignore_ascii_case (ch_key c) text || eq_ignore_ascii_case (ch_label c) text)%bool) choices
  | _ => None
  end.

Definition answer_text (a : Answer) : string :=
  match an_text a with
  | Some text => text
  | None =>
      match an_value a with
      | AvText t => t | AvSelected s => s | AvMultiSelected keys => str_join ", " keys
      | AvYes => "yes" | AvNo => "no" | AvCancelled => "cancelled" | AvInterrupted => "interrupted" | AvSkipped => "skipped" | AvTimeout => "timeout"
      end
  end.

(** ** Outcomes *)

Context {M : Type} `{!OutcomeMeta M} `{!RegexReplace}.

Definition with_updates (updates : list (string * Value)) (o : Outcome M) : Outcome M :=
  mkOutcome (status o) (preferred_label o) (suggested_next_ids o) (foldl (fun m kv => <[kv.1 := kv.2]> m) (context_updates o) updates)
    (jump_to_node o) (notes o) (failure o) (usage o) (files_touched o) (timing o).

Definition with_route (label : option string) (targets : list string) (o : Outcome M) : Outcome M :=
  mkOutcome (status o) label targets (context_updates o) (jump_to_node o) (notes o) (failure o) (usage o) (files_touched o) (timing o).

Definition make_choice_outcome (key label to : string) : Outcome M :=
  with_updates [(HUMAN_GATE_SELECTED, JString key); (HUMAN_GATE_LABEL, JString label)] (with_route (Some label) [to] outcome_success).

Definition unanswered_human_gate (reason : string) : Outcome M := fail_deterministic reason.

Definition add_answer_context (node question answer : string) (selected_label : option string) (o : Outcome M) : Outcome M :=
  let key := "human.gate." +:+ node in
  let o := with_updates [(key +:+ ".question", JString question); (key +:+ ".answer", JString answer)] o in
  match selected_label with Some l => with_updates [(key +:+ ".label", JString l)] o | None => o end.

Definition human_simulate (n : Node) (g : Graph) : Outcome M :=
  let edges := outgoing_edges g (node_id n) in
  match find_first (fun e => negb (freeform e)) edges with
  | Some e =>
      with_updates [(HUMAN_GATE_SELECTED, JString (parse_accelerator_key (choice_label e))); (HUMAN_GATE_LABEL, JString (choice_label e))]
        (with_route (Some (choice_label e)) [edge_to e] (simulated (node_id n)))
  | None =>
      match edges with
      | e :: _ =>
          with_updates [(HUMAN_GATE_SELECTED, JString "freeform"); (HUMAN_GATE_LABEL, JString "[Simulated] auto-selected")]
            (with_route None [edge_to e] (simulated (node_id n)))
      | [] => simulated (node_id n)
      end
  end.

(** What an answer that was given makes of the gate. *)
Definition answered_outcome (n : Node) (q : HumanGateQuestion) (a : Answer) : Outcome M :=
  let with_answer := add_answer_context (node_id n) (q_text (hg_question q)) (answer_text a) in
  match find_choice_match a (hg_choices q) with
  | Some m => with_answer (Some (cm_selected_label m)) (make_choice_outcome (cm_selected_key m) (cm_selected_label m) (ch_to (cm_route m)))
  | None =>
      match hg_freeform_target q with
      | Some to =>
          let text := answer_text a in
          with_answer None
            (with_updates [(HUMAN_GATE_SELECTED, JString "freeform"); (HUMAN_GATE_LABEL, JString text); (HUMAN_GATE_TEXT, JString text)]
               (with_route None [to] outcome_success))
      | None =>
          match hg_choices q with
          | first :: _ => with_answer (Some (ch_label first)) (make_choice_outcome (ch_key first) (ch_label first) (ch_to first))
          | [] => fail_deterministic "No matching choice"
          end
      end
  end.

Definition timeout_outcome (n : Node) (question : string) : Outcome M :=
  match node_str_attr n "human.default_choice" with
  | Some to => add_answer_context (node_id n) question "timeout" (Some to) (make_choice_outcome to to to)
  | None => retry_classify "human gate timeout, no default"
  end.
End gate.

Section handler.
Context {Host : Type} `{!EventClock Host} `{!Asking Host} {M : Type} `{!OutcomeMeta M} `{!UnicodeLetters} `{!ReviewParsers} `{!RegexReplace} (cfg : EventConfig).
Implicit Types (w : Interviews Host).

Definition FROM_SECS_PANIC : string := "cannot convert float seconds to Duration: value is either too big or NaN".

(** A guard that is not resolved is dropped with the call, which resolves it. *)
Definition human_execute (n : Node) (c : Context) (g : Graph) w : Dispatched M * Interviews Host :=
  let '(ulid, h) := new_ulid (iv_host w) in
  match build_human_gate_question n c g ulid with
  | Err reason => (Finished (Ok (fail_deterministic reason)), w)
  | Ok q =>
      let asked := hg_question q in
      let scope := scope_for_handler c (node_id n) in
      let w := iv_emit_scoped cfg (started_event asked (node_id n) (q_timeout_seconds asked)) scope (put_iv_host h w) in
      let '(guard, w) := blocker_block cfg (scope_stage_id scope) w in
      let started := now_instant (iv_host w) in
      let resolved := fun w => (resolve_in_place cfg guard w).2 in
      match ask_with_timeout asked (iv_host w) with
      | None => (HandlerPanicked FROM_SECS_PANIC, resolved w)
      | Some (submission, h) =>
          let w := put_iv_host h w in
          let a := sb_answer submission in
          let completed := iv_emit_scoped cfg
            (InterviewCompleted (Some (sb_actor submission)) (q_id asked) (q_text asked) (answer_text a) (millis_since started w)) scope w in
          match an_value a with
          | AvTimeout =>
              let w := iv_emit_scoped cfg
                (InterviewTimeout (Some (PrSystem ActorTimeout)) (q_id asked) (q_text asked) (node_id n) (millis_since started w)) scope w in
              (Finished (Ok (timeout_outcome n (q_text asked))), resolved w)
          | AvCancelled => (Finished (Err WfCancelled), resolved w)
          | AvInterrupted =>
              if cancel_requested (iv_host w) then (Finished (Err WfCancelled), resolved w)
              else
                let w := emit_interrupted cfg scope (node_id n) asked (Some (PrSystem ActorEngine)) "interrupted" (millis_since started w) w in
                (Finished (Ok (unanswered_human_gate "human interaction interrupted before an answer was provided")), resolved w)
          | AvSkipped => (Finished (Ok (unanswered_human_gate "human skipped interaction")), resolved completed)
          | _ => (Finished (Ok (answered_outcome n q a)), resolved completed)
          end
      end
  end.
End handler.

(** [AutoApproveInterviewer] (fabro-interview/src/auto_approve.rs). *)
Definition auto_approve (q : Question) : Answer :=
  match q_type q with
  | QYesNo | QConfirmation => mkAnswer AvYes None None
  | QMultipleChoice | QMultiSelect =>
      match q_options q with
      | first :: _ => mkAnswer (AvSelected (io_key first)) (Some first) None
      | [] => answer_of_text "auto-approved"
      end
  | QFreeform => answer_of_text "auto-approved"
  end.

(** ** Closed unless answered *)

Section safety.
Context {Host W : Type} `{!EventClock Host} `{!Asking Host} {M : Type} `{!OutcomeMeta M} `{!UnicodeLetters} `{!ReviewParsers} `{!RegexReplace}.
Context `{!JsonDisplay} `{!Regex} `{!Dice W} (cfg : EventConfig).
Implicit Types (w : Interviews Host) (o : Outcome M).

Definition is_given (v : AnswerValue) : bool :=
  match v with AvYes | AvNo | AvSelected _ | AvMultiSelected _ | AvText _ => true | _ => false end.

(** A failed outcome of a gate names no edge. *)
Definition names_no_edge o : Prop :=
  is_failure (status o) = true /\ preferred_label o = None /\ suggested_next_ids o = [] /\ jump_to_node o = None.

Lemma add_answer_route node q a l o :
  preferred_label (add_answer_context node q a l o) = preferred_label o /\
  suggested_next_ids (add_answer_context node q a l o) = suggested_next_ids o /\ status (add_answer_context node q a l o) = status o.
Proof. by destruct l. Qed.

Lemma answered_outcome_cases n q a :
  names_no_edge (answered_outcome (M := M) n q a) \/ status (answered_outcome (M := M) n q a) = Succeeded.
Proof.
  unfold answered_outcome. destruct (find_choice_match a (hg_choices q)); [by right|].
  destruct (hg_freeform_target q); [by right|]. destruct (hg_choices q); [by left|by right].
Qed.

Lemma timeout_outcome_cases n q :
  names_no_edge (timeout_outcome (M := M) n q)
  \/ status (timeout_outcome (M := M) n q) = Succeeded /\ is_some (node_str_attr n "human.default_choice") = true.
Proof. unfold timeout_outcome. destruct (node_str_attr n "human.default_choice"); [by right|by left]. Qed.

(** What the interviewer answered to the question of the gate. *)
Definition gate_answer n c g w w' (v : AnswerValue) : Prop :=
  exists q s, build_human_gate_question n c g (new_ulid (iv_host w)).1 = Ok q
    /\ ask_with_timeout (hg_question q) (new_ulid (iv_host w)).2 = Some (s, iv_host w') /\ an_value (sb_answer s) = v.

Lemma blocker_host stage w : iv_host (blocker_block cfg stage w).2 = iv_host w.
Proof. unfold blocker_block, blocked_change. by destruct (is_run_blocked _). Qed.
Lemma resolve_host guard w : iv_host (resolve_in_place cfg guard w).2 = iv_host w.
Proof.
  unfold resolve_in_place, blocker_resolved, resolved_change. destruct (gd_resolved guard); [done|]. cbn zeta. by destruct (is_run_blocked _).
Qed.

Lemma execute_outcome n c g w o w' :
  human_execute cfg n c g w = (Finished (Ok o), w') ->
  names_no_edge o
  \/ status o = Succeeded /\ exists v, gate_answer n c g w w' v
     /\ (is_given v = true \/ v = AvTimeout /\ is_some (node_str_attr n "human.default_choice") = true).
Proof.
  unfold human_execute, gate_answer. destruct (new_ulid (iv_host w)) as [ulid h]. cbn [fst snd].
  destruct (build_human_gate_question n c g ulid) as [q|reason] eqn:Hq; [|intros [= <- <-]; by left].
  match goal with |- context [blocker_block cfg ?sid ?w0] => pose proof (blocker_host sid w0) as Hw; destruct (blocker_block cfg sid w0) as [guard w1] end.
  change (iv_host w1 = h) in Hw. rewrite Hw. destruct (ask_with_timeout (hg_question q) h) as [[s h1]|] eqn:Ea; [|done].
  intros He.
  assert (names_no_edge o \/ status o = Succeeded /\ iv_host w' = h1
     /\ (is_given (an_value (sb_answer s)) = true \/ an_value (sb_answer s) = AvTimeout /\ is_some (node_str_attr n "human.default_choice") = true)) as [?|(Hs & Hh & Hv)]; [|by left|].
  - destruct (an_value (sb_answer s)) eqn:Ev; try (destruct (cancel_requested _)); try discriminate He; injection He as <- <-; try (by left); rewrite resolve_host.
    all: try (destruct (answered_outcome_cases n q (sb_answer s)) as [Hn|Hs]; [by left|right; by auto]).
    destruct (timeout_outcome_cases n (q_text (hg_question q))) as [Hn|[Hs Hd]]; [by left|right; by auto].
  - right. split; [done|]. exists (an_value (sb_answer s)). split; [|done]. exists q, s. by rewrite Hh.
Qed.

Lemma no_edge_condition_only n o c g selection (d : W) s d' :
  handler_type n = Some "human" -> names_no_edge o -> select_edge n o c g selection d = (Some s, d') ->
  sel_reason s = RCondition.
Proof.
  intros Hh (Hf & Hp & Hn & _) Hs. destruct (select_edge_cases n o c g selection d) as [(s' & d1 & Hs' & Hin & _)|[Hs' _]];
    rewrite Hs' in Hs; [|done]. injection Hs as -> ->. destruct (sel_reason s); try done; cbn in Hin.
  - unfold preferred_edge in Hin. rewrite Hp in Hin. by apply not_elem_of_nil in Hin.
  - unfold suggested_edge in Hin. rewrite Hn in Hin. by apply not_elem_of_nil in Hin.
  - unfold blocks_unconditional_failure_fallthrough in Hin. rewrite Hf, Hp, Hn, bool_decide_true in Hin by done. by apply not_elem_of_nil in Hin.
Qed.

(** An edge whose condition holds. *)
Lemma no_edge_selection n o c g selection (d : W) s d' :
  handler_type n = Some "human" -> names_no_edge o -> select_edge n o c g selection d = (Some s, d') ->
  is_explicit (sel_reason s) = true /\ sel_edge s ∈ outgoing_edges g (node_id n) /\ condition_matches o c (sel_edge s) = true.
Proof.
  intros Hh Hn Hsel. pose proof (no_edge_condition_only n o c g selection d s d' Hh Hn Hsel) as Hr. rewrite Hr. split; [done|].
  destruct (select_edge_cases n o c g selection d) as [(s' & d1 & Hs' & Hin & _)|[Hs' _]]; rewrite Hs' in Hsel; [|done].
  injection Hsel as -> ->. rewrite Hr in Hin. by apply filterb_elem in Hin.
Qed.
End safety.

(** ** Where the run goes from a gate *)

Section routes.
Local Open Scope fabro_scope.
Context {Host W M : Type} `{!EventClock Host} `{!Asking Host} `{!OutcomeMeta M} `{!UnicodeLetters} `{!ReviewParsers} `{!RegexReplace}.
Context `{!JsonDisplay} `{!Regex} `{!Dice W} `{!HashOrder} `{!Services M W} (cfg : EventConfig) (lc : RunLifecycle Graph Node Edge M W).
Implicit Types (o : Outcome M) (n : Node) (g : Graph).

(** The outcome of a node whose last attempt gave [o]. *)
Definition last_attempt n o : Outcome M := if retry_requested (status o) then finalize_retries_exhausted n o else o.

(** What the executor makes of the result of a node when the lifecycle's [after_node] leaves
    the result as it is: the failure policy, then the step, whatever the state is by then. *)
Definition routed g n (r : NodeResult M) : exec M W (Outcome M * NextStep) :=
  let _ := WorkflowNodeHandler (M := M) (W := W) g in
  let! rp := apply_succeed_policy g n r in
  let! step := resolve_next_step lc g n (outcome rp.1) rp.2 in
  ret (outcome rp.1, step).

(** The lifecycle sent the run elsewhere. *)
Definition redirected (step : NextStep) : Prop :=
  exists x s w c w' t, on_edge_selected lc x s w = (Ok (EOverride t), c, w') /\ step = StepEdge t.

(** The step ends the run, goes to the node's retry target, or takes an edge whose condition
    holds of the outcome. *)
Definition closed_step g n o (step : NextStep) : Prop :=
  step = StepEnd
  \/ (exists t, get_retry_target (node_id n) g = Some t /\ step = StepEdge t)
  \/ exists e c, e ∈ outgoing_edges g (node_id n) /\ condition_matches o c e = true
       /\ (step = StepEdge (edge_to e) \/ step = StepLoopRestart (edge_to e) \/ redirected step).

Definition conditional g n o (sel : EdgeSelection Edge) : Prop :=
  is_explicit (sel_reason sel) = true /\ sel_edge sel ∈ outgoing_edges g (node_id n) /\ exists c, condition_matches o c (sel_edge sel) = true.

(** Postconditions of the executor's parts: whatever they return. *)
Abbreviation returns c P m := (wp c (fun r _ => forall a, r = Val a -> P a) m).

Lemma returns_bind {A B} (c : exec M W A) (k : A -> exec M W B) (P : A -> Prop) (Q : B -> Prop) m :
  returns c P m -> (forall a m', P a -> returns (k a) Q m') -> returns (bind c k) Q m.
Proof.
  intros Hc Hk. apply wp_bind. eapply wp_mono; [exact Hc|]. intros [a|e|] m' Hr; cbn [on_val]; [by apply Hk, Hr|done..].
Qed.

Lemma select_returns g n o c m : handler_type n = Some "human" -> names_no_edge o ->
  returns (select g n o c) (fun sel => forall s, sel = Some s -> conditional g n o s) m.
Proof.
  intros Hh Hn. unfold select, wp, step_world. cbn [core_select_edge WorkflowGraph].
  destruct (select_edge n o c g (node_selection n) (m_world m)) as [sel w'] eqn:Hs. cbn. intros sel' [= <-] s ->.
  destruct (no_edge_selection n o c g _ _ _ _ Hh Hn Hs) as (Hx & Hin & Hc). split_and!; [done|done|by exists c].
Qed.

Lemma edge_step_returns g n o sel m : conditional g n o sel -> returns (edge_step lc n o sel) (closed_step g n o) m.
Proof.
  intros (_ & He & c & Hc). unfold edge_step, edge_decision.
  set (x := {| ec_from := _ |}). eapply (returns_bind _ _ (fun d => forall t, d = EOverride t -> redirected (StepEdge t))).
  - apply wp_bind, wp_emit. cbn [on_val]. unfold wp, call. cbn [m_state m_world].
    destruct (on_edge_selected lc x (m_state m) (m_world m)) as [[[d|e] c'] w'] eqn:Hx; cbn; [|done]. intros d' [= <-] t ->. by exists x, (m_state m), (m_world m), c', w', t.
  - intros [|t|msg] m' Hd; [|apply wp_ret; intros a [= <-]|by apply wp_throw].
    + apply wp_ret. intros a [= <-]. right; right. exists (sel_edge sel), c. split_and!; [done..|]. cbn [spec_is_loop_restart spec_target WorkflowEdge_spec].
      destruct (loop_restart (sel_edge sel)); auto.
    + right; right. exists (sel_edge sel), c. split_and!; [done..|]. right; right. by apply Hd.
Qed.

Lemma resolve_returns g n o prepared m : handler_type n = Some "human" -> names_no_edge o ->
  (forall p s, prepared = Some p -> prep_selection p = Some s -> conditional g n o s) ->
  let _ := WorkflowNodeHandler (M := M) (W := W) g in
  returns (resolve_next_step lc g n o prepared) (closed_step g n o) m.
Proof.
  intros Hh Hn Hp HH. unfold resolve_next_step. pose proof Hn as (Hf & _ & _ & Hj). rewrite Hj.
  apply (returns_bind _ _ (fun sel => forall s, sel = Some s -> conditional g n o s)).
  - unfold chosen_edge. destruct prepared as [p|]; [apply wp_ret; intros a [= <-] s Hs; by eapply Hp|].
    apply (returns_bind _ _ (fun _ => True)); [unfold wp; by intros|]. intros s m' _.
    apply (returns_bind _ _ (fun _ => True)); [unfold wp; by intros|]. intros c m'' _. by apply select_returns.
  - intros sel m' Hsel. destruct (opt_filter (selection_allowed g n o) sel) as [s|] eqn:Hfil.
    + apply opt_filter_Some in Hfil as [-> _]. by apply edge_step_returns, Hsel.
    + rewrite Hf. cbn [core_get_retry_target WorkflowGraph spec_id WorkflowNode_spec].
      destruct (get_retry_target (node_id n) g) as [t|] eqn:Ht; apply wp_ret; intros a [= <-]; [right; left; by exists t|by left].
Qed.

Lemma policy_returns g n r m : handler_type n = Some "human" -> names_no_edge (outcome r) ->
  let _ := WorkflowNodeHandler (M := M) (W := W) g in
  returns (apply_succeed_policy g n r)
    (fun rp => (rof_policy (resolve_on_failure g n) = Succeed /\ status (outcome rp.1) = Succeeded)
               \/ rp.1 = r /\ forall p s, rp.2 = Some p -> prep_selection p = Some s -> conditional g n (outcome r) s) m.
Proof.
  intros Hh Hn HH. unfold apply_succeed_policy. pose proof Hn as (Hf & _ & _ & Hj). rewrite Hf, Hj. cbn [negb is_some orb].
  cbn [core_resolve_on_failure WorkflowGraph]. case_bool_decide as Hpol; cbn [negb]; [|apply wp_ret; intros a [= <-]; by right].
  apply (returns_bind _ _ (fun _ => True)); [unfold wp; by intros|]. intros s m1 _.
  apply (returns_bind _ _ (fun _ => True)); [unfold wp; by intros|]. intros c m2 _.
  eapply returns_bind; [by apply select_returns|]. intros sel m3 Hsel.
  destruct (opt_filter _ sel) as [x|] eqn:Hx.
  - apply opt_filter_Some in Hx as [-> _]. apply wp_ret. intros a [= <-]. right. split; [done|]. intros p s' [= <-] [= <-]. by apply Hsel.
  - destruct (apply_on_failure_status (resolve_on_failure g n) (outcome r)) as [Hpro _]. destruct (Hpro (conj Hpol Hf)) as [Hst _].
    destruct (apply_on_failure (resolve_on_failure g n) (outcome r)) as [o' b]. cbn [fst] in Hst.
    apply (returns_bind _ _ (fun _ => True)); [unfold wp; by intros|]. intros sel' m4 _. apply wp_ret. intros a [= <-]. by left.
Qed.

Lemma routed_closed g n r m oc step m' : handler_type n = Some "human" -> names_no_edge (outcome r) ->
  routed g n r m = (Val (oc, step), m') ->
  (rof_policy (resolve_on_failure g n) = Succeed /\ status oc = Succeeded) \/ (oc = outcome r /\ closed_step g n oc step).
Proof.
  intros Hh Hn Hr. set (HH := WorkflowNodeHandler (M := M) (W := W) g).
  assert (returns (routed g n r) (fun x => (rof_policy (resolve_on_failure g n) = Succeed /\ status x.1 = Succeeded) \/ (x.1 = outcome r /\ closed_step g n x.1 x.2)) m) as Hw.
  { unfold routed. eapply returns_bind; [by apply policy_returns|]. intros rp m1 [[Hp Hs]|[E Hp]].
    - apply (returns_bind _ _ (fun _ => True)); [unfold wp; by intros|]. intros st m2 _. apply wp_ret. intros a [= <-]. by left.
    - rewrite E. eapply returns_bind; [by apply resolve_returns|]. intros st m2 Hst. apply wp_ret. intros a [= <-]. right. by split. }
  unfold wp in Hw. rewrite Hr in Hw. cbn [fst] in Hw. exact (Hw _ eq_refl).
Qed.

Lemma last_attempt_closed n o : names_no_edge o ->
  names_no_edge (last_attempt n o) \/ (retry_requested (status o) = true /\ allow_partial n = true).
Proof.
  intros (Hf & Hp & Hs & Hj). unfold last_attempt, finalize_retries_exhausted. destruct (retry_requested (status o)) eqn:Hr; [|by left].
  destruct (allow_partial n); [by right|left]. by split_and!.
Qed.

(** C20: an unanswered gate fails closed.  What the handler of a gate answers is either a
    success, and then the interviewer gave an answer to the gate's question, or the question
    timed out and the gate has a default choice; or it is a failure that names no edge.
    A failure leads on only where the workflow says so.  Let it be the answer of the last
    attempt, and let the executor apply the failure policy to the result and take the next
    step: then the run ends, or goes to the gate's retry target, or takes an edge whose
    condition holds of the failed outcome (or is sent elsewhere by the lifecycle when it
    would take such an edge).  There are two exceptions, both set in the workflow: under
    [on_failure=succeed] the outcome may be promoted to a success, which is routed like any
    other, and under [allow_partial] a failure that asked for another attempt (the timeout)
    becomes a partial success when there is none left. *)
Theorem human_gate_fails_closed n c g (w : Interviews Host) o w' :
  handler_type n = Some "human" ->
  human_execute cfg n c g w = (Finished (Ok o), w') ->
  (status o = Succeeded /\ exists v, gate_answer n c g w w' v
     /\ (is_given v = true \/ v = AvTimeout /\ is_some (node_str_attr n "human.default_choice") = true))
  \/ (is_failure (status o) = true
      /\ forall r m oc step m', outcome r = last_attempt n o -> routed g n r m = (Val (oc, step), m') ->
           (oc = outcome r /\ closed_step g n oc step)
           \/ (rof_policy (resolve_on_failure g n) = Succeed /\ status oc = Succeeded)
           \/ (retry_requested (status o) = true /\ allow_partial n = true)).
Proof.
  intros Hh He. destruct (execute_outcome cfg n c g w o w' He) as [Hn|Hs]; [right|by left]. split; [by destruct Hn|].
  intros r m oc step m' Hr Hrun. destruct (last_attempt_closed n o Hn) as [Hl|Hl]; [|by right; right]. rewrite <- Hr in Hl.
  destruct (routed_closed g n r m oc step m' Hh Hl Hrun); auto.
Qed.
End routes.

Section choices.
Context {Host W : Type} `{!EventClock Host} `{!Asking Host} {M : Type} `{!OutcomeMeta M} `{!UnicodeLetters} `{!ReviewParsers} `{!RegexReplace}.
Context `{!JsonDisplay} `{!Regex} `{!Dice W} (cfg : EventConfig).
Implicit Types (w : Interviews Host) (o : Outcome M).

(** ** The option that was chosen *)

Lemma choice_by_key_unique (edges : list Edge) e :
  NoDup (ch_key <$> choices_of edges) -> e ∈ edges -> freeform e = false ->
  choice_by_key (choices_of edges) (ch_key (choice_of e)) = Some (choice_of e).
Proof.
  intros Hnd He Hf. assert (choice_of e ∈ choices_of edges) as Hin.
  { apply list_elem_of_fmap. exists e. split; [done|]. apply filterb_elem. by rewrite Hf. }
  unfold choice_by_key. destruct (find_first _ _) as [c'|] eqn:Hfind.
  - apply find_first_Some_elem in Hfind as [Hc' Hk%String.eqb_eq]. apply list_elem_of_lookup in Hin as [i Hi], Hc' as [j Hj]. f_equal.
    assert (i = j) as ->; [|congruence]. apply (NoDup_lookup _ i j (ch_key (choice_of e)) Hnd); rewrite list_lookup_fmap; [by rewrite Hi|].
    rewrite Hj. cbn [fmap option_fmap option_map]. by rewrite Hk.
  - rewrite find_first_None in Hfind. specialize (Hfind _ Hin). cbn in Hfind. by rewrite String.eqb_refl in Hfind.
Qed.

(** Where a success that names a label and one target goes. *)
Lemma routed_to_choice n o c g selection (d : W) e :
  matched_edges n o c g = [] -> e ∈ outgoing_edges g (node_id n) -> unconditional e = true ->
  preferred_label o = Some (choice_label e) -> suggested_next_ids o = [edge_to e] ->
  (forall e', e' ∈ outgoing_edges g (node_id n) -> label_matches (choice_label e) e' = true -> edge_to e' = edge_to e) ->
  exists s, select_edge n o c g selection d = (Some s, d) /\ edge_to (sel_edge s) = edge_to e.
Proof.
  intros Hm He Hu Hp Hs Hlab. unfold select_edge. fold (matched_edges n o c g). rewrite Hm.
  destruct (outgoing_edges g (node_id n)) as [|e0 es] eqn:Hout; [by apply not_elem_of_nil in He|]. rewrite <- Hout in *. clear Hout e0 es.
  unfold preferred_edge. rewrite Hp. cbn. destruct (find_first (label_matches _) _) as [e'|] eqn:Hf.
  - eexists. split; [done|]. cbn. apply find_first_Some_elem in Hf as [Hin Hl]. by apply Hlab.
  - unfold suggested_edge. rewrite Hs. cbn [find_map]. destruct (find_first (target_matches _) _) as [e'|] eqn:Ht.
    + eexists. split; [done|]. cbn. apply find_first_Some_elem in Ht as [_ Ht]. apply andb_true_iff in Ht as [_ Ht]. by apply String.eqb_eq.
    + rewrite find_first_None in Ht. specialize (Ht e He). unfold target_matches in Ht. by rewrite Hu, String.eqb_refl in Ht.
Qed.
Lemma gate_key_ne id suffix : suffix ∈ [".question"; ".answer"; ".label"] -> ("human.gate." +:+ id) +:+ suffix <> HUMAN_GATE_SELECTED.
Proof.
  intros Hs Heq. assert (String.length id <= 2)%nat as Hl.
  { apply (f_equal String.length) in Heq. rewrite !length_append in Heq. repeat (apply elem_of_cons in Hs as [->|Hs]; [cbn in Heq; lia|]).
    by apply not_elem_of_nil in Hs. }
  destruct id as [|x [|y [|z id]]]; [| | |cbn in Hl; lia];
    repeat (apply elem_of_cons in Hs as [->|Hs]; [discriminate Heq|]); by apply not_elem_of_nil in Hs.
Qed.

(** The option a person chooses is the edge the run takes.  When the keys of a gate's
    options differ, a person who selects the option of an unconditional edge gets an outcome
    from which edge selection goes to the target of that edge, whatever the context, provided
    no condition of the gate holds and no other label that normalizes to the chosen one leads
    elsewhere. *)
Theorem human_choice_taken n c g w q a actor e :
  build_human_gate_question n c g (new_ulid (iv_host w)).1 = Ok q ->
  (forall h, exists h', ask_with_timeout (hg_question q) h = Some (mkSubmission a actor, h')) ->
  an_value a = AvSelected (parse_accelerator_key (choice_label e)) ->
  e ∈ outgoing_edges g (node_id n) -> freeform e = false -> unconditional e = true ->
  NoDup (ch_key <$> choices_of (outgoing_edges g (node_id n))) ->
  (forall e', e' ∈ outgoing_edges g (node_id n) -> label_matches (choice_label e) e' = true -> edge_to e' = edge_to e) ->
  exists o w', human_execute cfg n c g w = (Finished (Ok o), w') /\ status o = Succeeded
    /\ context_updates o !! HUMAN_GATE_SELECTED = Some (JString (parse_accelerator_key (choice_label e)))
    /\ forall c' selection (d : W), matched_edges n o c' g = [] ->
         exists s, select_edge n o c' g selection d = (Some s, d) /\ edge_to (sel_edge s) = edge_to e.
Proof.
  intros Hbuild Hask Hv He Hf Hu Hnd Hlab. assert (hg_choices q = choices_of (outgoing_edges g (node_id n))) as Hq.
  { unfold build_human_gate_question in Hbuild. destruct (choices_of _) as [|c0 cs], (freeform_target_of _); try done;
      destruct (question_type_for_node n _); try done; destruct (gate_review n c); try done; by injection Hbuild as <-. }
  exists (answered_outcome n q a). unfold human_execute. destruct (new_ulid (iv_host w)) as [ulid h]. cbn [fst] in Hbuild. rewrite Hbuild.
  destruct (blocker_block _ _ _) as [guard w1]. destruct (Hask (iv_host w1)) as [h1 ->]. cbn [sb_answer]. rewrite Hv.
  eexists. split; [reflexivity|]. unfold answered_outcome, find_choice_match. rewrite Hv, Hq.
  change (parse_accelerator_key (choice_label e)) with (ch_key (choice_of e)). rewrite choice_by_key_unique by done. cbn [fmap option_fmap option_map].
  split; [done|]. split; [|intros c' selection d Hm; by apply routed_to_choice].
  cbn [add_answer_context with_updates with_route make_choice_outcome context_updates foldl fst snd whole_match cm_selected_key cm_selected_label].
  rewrite !lookup_insert_ne by (apply gate_key_ne; set_solver). rewrite lookup_insert_ne by done. apply lookup_insert_eq.
Qed.

(** ** A gate leaves nothing behind *)

Lemma gate_steps scope asked node timeout h h2 (f : Interviews Host -> Interviews Host) (rm : gmap string PendingInterviewRecord -> gmap string PendingInterviewRecord) w :
  q_id asked <> "" -> map_Forall (fun _ k => 1 <= k) (iv_blocks w) ->
  (forall w st, log_steps w (f w) st st rm /\ iv_blocks (f w) = iv_blocks w) ->
  let w0 := iv_emit_scoped cfg (started_event asked node timeout) scope (put_iv_host h w) in
  let '(guard, w1) := blocker_block cfg (scope_stage_id scope) w0 in
  let w' := (resolve_in_place cfg guard (f (put_iv_host h2 w1))).2 in
  let st := blocked_status (is_run_blocked (iv_blocks w)) in
  iv_blocks w' = iv_blocks w /\ exists rec, log_steps w w' st st (fun m => rm (<[q_id asked := rec]> m)).
Proof.
  intros Hid Hb Hf w0. set (st := blocked_status (is_run_blocked (iv_blocks w))).
  pose proof (question_started_step cfg scope asked node timeout (put_iv_host h w) st Hid) as Hs0. fold w0 in Hs0.
  pose proof (blocker_step cfg (scope_stage_id scope) w0) as Hblock. destruct (blocker_block cfg (scope_stage_id scope) w0) as [guard w1].
  destruct Hblock as (-> & Hb1 & _ & Hs1). destruct (Hf (put_iv_host h2 w1) (blocked_status true)) as [Hs2 Hb2].
  destruct (resolve_step cfg (scope_stage_id scope) (f (put_iv_host h2 w1)) (iv_blocks w) Hb) as [Hb3 Hs3]; [by rewrite Hb2|].
  split; [exact Hb3|]. eexists.
  assert (log_steps w (put_iv_host h w) st st (fun m => m)) as Ha by (by apply log_steps_refl).
  assert (log_steps w1 (put_iv_host h2 w1) (blocked_status true) (blocked_status true) (fun m => m)) as Hc by (by apply log_steps_refl).
  exact (log_steps_trans _ _ _ _ _ _ _ _ Ha (log_steps_trans _ _ _ _ _ _ _ _ Hs0 (log_steps_trans _ _ _ _ _ _ _ _ Hs1
    (log_steps_trans _ _ _ _ _ _ _ _ Hc (log_steps_trans _ _ _ _ _ _ _ _ Hs2 Hs3))))).
Qed.
(** What a call of a gate leaves behind: the count as it was, and a log from which the run has
    the status it had; whatever the call announced as pending and did not settle is the
    interview [ulid]. *)
Definition gate_settled w w' (ulid : string) (settled : bool) : Prop :=
  let st := blocked_status (is_run_blocked (iv_blocks w)) in
  iv_blocks w' = iv_blocks w /\ exists f, log_steps w w' st st f
    /\ forall m id, f m !! id = (if decide (id = ulid) then if settled then None else f m !! id else m !! id).

Lemma gate_settled_by scope q node timeout h h2 f (settled : bool) w :
  q_id q <> "" -> map_Forall (fun _ k => 1 <= k) (iv_blocks w) ->
  (forall w st, log_steps w (f w) st st (if settled then delete (q_id q) else fun m => m) /\ iv_blocks (f w) = iv_blocks w) ->
  let '(guard, w1) := blocker_block cfg (scope_stage_id scope) (iv_emit_scoped cfg (started_event q node timeout) scope (put_iv_host h w)) in
  gate_settled w (resolve_in_place cfg guard (f (put_iv_host h2 w1))).2 (q_id q) settled.
Proof.
  intros Hid Hb Hf. pose proof (gate_steps scope q node timeout h h2 f _ w Hid Hb Hf) as Hs. cbv zeta in Hs. destruct (blocker_block _ _ _) as [guard w1].
  destruct Hs as [Hb' [rec Hs]]. split; [exact Hb'|]. eexists. split; [exact Hs|]. intros m id. destruct (decide (id = q_id q)) as [->|Hne].
  - destruct settled; [|done]. apply lookup_delete_eq.
  - destruct settled; [rewrite lookup_delete_ne by done|]; by apply lookup_insert_ne.
Qed.

Lemma build_id n c g ulid q : build_human_gate_question n c g ulid = Ok q -> q_id (hg_question q) = ulid.
Proof.
  unfold build_human_gate_question. destruct (choices_of _), (freeform_target_of _); try done;
    destruct (question_type_for_node n _); try done; destruct (gate_review n c); try done; by intros [= <-].
Qed.

Lemma human_execute_settled n c g w d w' :
  (new_ulid (iv_host w)).1 <> "" -> map_Forall (fun _ k => 1 <= k) (iv_blocks w) ->
  human_execute cfg n c g w = (d, w') -> 
  w' = w \/ gate_settled w w' (new_ulid (iv_host w)).1 (match d with Finished (Ok _) => true | _ => false end).
Proof.
  intros Hid Hb. unfold human_execute. destruct (new_ulid (iv_host w)) as [ulid h]. cbn [fst] in *.
  destruct (build_human_gate_question n c g ulid) as [q|reason] eqn:Hq; [|intros [= <- <-]; by left].
  apply build_id in Hq. subst ulid. set (scope := scope_for_handler c (node_id n)).
  pose proof (fun h2 f settled => gate_settled_by scope (hg_question q) (node_id n) (q_timeout_seconds (hg_question q)) h h2 f settled w Hid Hb) as Hs.
  cbv zeta. destruct (blocker_block _ _ _) as [guard w1].
  assert (forall (w : Interviews Host) st, log_steps w w st st (fun m => m) /\ iv_blocks w = iv_blocks w) as Hquiet
    by (intros w0 st; split; [by apply log_steps_refl|done]).
  assert (forall e, event_body_from_event e = BInterviewCompleted (q_id (hg_question q)) \/ event_body_from_event e = BInterviewTimeout (q_id (hg_question q))
            \/ event_body_from_event e = BInterviewInterrupted (q_id (hg_question q)) ->
          forall (w : Interviews Host) st, log_steps w (iv_emit_scoped cfg e scope w) st st (delete (q_id (hg_question q)))
                     /\ iv_blocks (iv_emit_scoped cfg e scope w) = iv_blocks w) as Hterm
    by (intros e He w0 st; split; [eapply removed_step; [reflexivity|done|exact He]|done]).
  destruct (ask_with_timeout (hg_question q) (iv_host w1)) as [[s h1]|].
  - destruct (an_value (sb_answer s)); try (destruct (cancel_requested _)); intros [= <- <-]; right;
      try (apply (Hs h1 (fun w => w) false Hquiet)); (eapply (Hs h1 _ true); apply Hterm; cbn; auto).
  - intros [= <- <-]. right. specialize (Hs (iv_host w1) (fun w => w) false Hquiet).
    replace (put_iv_host (iv_host w1) w1) with w1 in Hs by (by destruct w1 as [[]]). exact Hs.
Qed.

(** A gate leaves nothing behind.  However a call of a gate ends (an outcome, a cancelled
    run, a panic), the count of open interviews is what it was, the events it logged are
    accepted by a run in the status it had, which is the status it has afterwards, and no
    other pending interview is touched; when the call returns an outcome its own question is
    not pending either. *)
Theorem human_gate_settles n c g w d w' seq p :
  (new_ulid (iv_host w)).1 <> "" -> map_Forall (fun _ k => 1 <= k) (iv_blocks w) ->
  rp_status p = blocked_status (is_run_blocked (iv_blocks w)) ->
  rp_pending_interviews p !! (new_ulid (iv_host w)).1 = None ->
  human_execute cfg n c g w = (d, w') ->
  iv_blocks w' = iv_blocks w
  /\ exists new p', lf_log (iv_life w') = lf_log (iv_life w) ++ new /\ live_events (stored seq new) p = Ok p' /\ rp_status p' = rp_status p
     /\ (forall id, id <> (new_ulid (iv_host w)).1 -> rp_pending_interviews p' !! id = rp_pending_interviews p !! id)
     /\ (forall o, d = Finished (Ok o) -> rp_pending_interviews p' = rp_pending_interviews p).
Proof.
  intros Hid Hb Hp Hfresh He. destruct (human_execute_settled n c g w d w' Hid Hb He) as [->|[Hb' (f & (new & Hlog & Hnew) & Hf)]].
  - split; [done|]. exists [], p. rewrite app_nil_r. by split_and!.
  - split; [done|]. destruct (Hnew seq p Hp) as (p' & Hlive & Hst & Hpend). exists new, p'. rewrite Hst, Hp. split_and!; try done.
    + intros id Hne. by rewrite Hpend, Hf, decide_False.
    + intros o ->. apply map_eq. intros id. rewrite Hpend, Hf. case_decide as Hd; [|done]. by rewrite Hd, Hfresh.
Qed.
End choices.

(** ** Gates on concrete graphs *)

Module HumanRuns.

#[local] Instance gate_display : JsonDisplay := {| number_to_string := fun _ => "0"; compound_to_string := fun _ => "{}" |}.
#[local] Instance gate_matches : Regex := {| re_valid := fun _ => true; re_is_match := fun p s => str_contains p s |}.
#[local] Instance gate_text : RegexReplace := fun _ s _ => s.
#[local] Instance gate_dice : Dice Z := fun _ w => (f64_zero, w).
#[local] Instance gate_letters : UnicodeLetters := fun _ => false.
#[local] Instance gate_clock : EventClock Z := fun _ => 0.
#[local] Instance gate_parsers : ReviewParsers := {| url_parse := fun _ => None; wire_error := fun _ => "invalid" |}.

(** A person who always answers the same. *)
Definition answering (v : AnswerValue) : Asking Z := {|
  now_instant := fun h => h; new_ulid := fun h => ("01J", h + 1);
  ask := fun _ h => (mkSubmission (mkAnswer v None None) (PrSystem ActorEngine), h);
  ask_within := fun _ _ h => (Some (mkSubmission (mkAnswer v None None) (PrSystem ActorEngine)), h);
  ask_all := fun _ h => (TokenCancelled, h); cancel_requested := fun _ => false |}.

Definition gate_node (attrs : list (string * AttrValue)) : Node := mkNode "review" (list_to_map (("shape", AString "hexagon") :: attrs)) [].
Definition labelled (to label : string) (attrs : list (string * AttrValue)) : Edge := mkEdge "review" to (list_to_map (("label", AString label) :: attrs)).
Definition gate_graph (n : Node) (edges : list Edge) : Graph := mkGraph "g" {["review" := n]} edges ∅.

(** The node the run goes to after an answer. *)
Definition goes_to (n : Node) (edges : list Edge) (v : AnswerValue) : option string :=
  match (human_execute (M := Usage) (Asking0 := answering v) sample_events n context_new (gate_graph n edges) quiet_world).1 with
  | Finished (Ok o) => edge_to ∘ sel_edge <$> (select_edge n o context_new (gate_graph n edges) "deterministic" 0).1
  | _ => None
  end.

(** The failure route the documentation recommends is offered as an option, and choosing it
    takes another edge. *)
Theorem failure_route_is_an_option :
  let edges := [labelled "ship" "[A] Approve" []; labelled "fix" "[F] Fix" [("condition", AString "outcome=failed")]] in
  ch_key <$> choices_of edges = ["A"; "F"] /\ goes_to (gate_node []) edges (AvSelected "F") = Some "ship"
  /\ goes_to (gate_node []) edges AvInterrupted = Some "fix".
Proof. vm_compute. split_and!; reflexivity. Qed.

(** A no that matches no option is the first option. *)
Theorem unmatched_no_approves :
  let n := gate_node [("question_type", AString "yes_no")] in
  let edges := [labelled "ship" "[A] Approve" []; labelled "stop" "[R] Reject" []] in
  goes_to n edges AvNo = Some "ship" /\ goes_to n edges (AvText "no way") = Some "ship" /\ goes_to n edges AvSkipped = None.
Proof. vm_compute. split_and!; reflexivity. Qed.

(** Two options with one key: the second cannot be selected by its key. *)
Theorem shared_key_selects_first :
  let edges := [labelled "stage" "Release to staging" []; labelled "reject" "Reject" []] in
  ch_key <$> choices_of edges = ["R"; "R"] /\ goes_to (gate_node []) edges (AvSelected "R") = Some "stage".
Proof. vm_compute. split_and!; reflexivity. Qed.

(** ** Witnesses *)

Definition two_options : list Edge := [labelled "ship" "[A] Approve" []; labelled "stop" "[R] Reject" []].
Definition review_node : Node := gate_node [].
Definition review_graph : Graph := gate_graph review_node two_options.
Definition executed (v : AnswerValue) := human_execute (M := Usage) (Asking0 := answering v) sample_events review_node context_new review_graph quiet_world.
Definition executed_outcome_of (v : AnswerValue) : Outcome Usage := match (executed v).1 with Finished (Ok o) => o | _ => outcome_success end.

#[local] Instance gate_order : HashOrder := {| hash_iter := fun A m => map_to_list m; hash_iter_perm := fun A m => reflexivity _ |}.
#[local] Instance gate_services : Services Usage Z := {|
  handler_context := fun c w => (Ok c, w); edge_context := fun c w => (Ok c, w); durable_form := fun u => u;
  manages_timeout := fun _ => false; times_out := fun _ _ _ _ => None;
  dispatch_handler := fun n c _ w => (Finished (Ok outcome_success), c, w)
|}.
Definition at_review : Mach Usage Z := mkMach (mkState context_new "review" [] ∅ ∅ ∅ 0 None false) 0 [].
Definition skipped_result : NodeResult Usage := mkResult (executed_outcome_of AvSkipped) 0 0 0 1 1.

Lemma human_gate_fails_closed_witness :
  is_failure (status (executed_outcome_of AvSkipped)) = true
  /\ exists m', routed NoopLifecycle review_graph review_node skipped_result at_review = (Val (executed_outcome_of AvSkipped, StepEnd), m')
       /\ closed_step (W := Z) NoopLifecycle review_graph review_node (executed_outcome_of AvSkipped) StepEnd.
Proof.
  destruct (human_gate_fails_closed (W := Z) (Asking0 := answering AvSkipped) sample_events NoopLifecycle review_node context_new review_graph quiet_world
    (executed_outcome_of AvSkipped) (executed AvSkipped).2) as [[Hs _]|[Hf Hsel]]; [reflexivity|vm_compute; reflexivity|discriminate Hs|].
  split; [exact Hf|]. eexists. split; [vm_compute; reflexivity|].
  destruct (Hsel skipped_result at_review (executed_outcome_of AvSkipped) StepEnd at_review) as [[_ Hc]|[[Hp _]|[Hr _]]];
    [vm_compute; reflexivity|vm_compute; reflexivity|exact Hc|discriminate Hp|discriminate Hr].
Defined.

Lemma human_choice_taken_witness :
  exists o w', human_execute (M := Usage) (Asking0 := answering (AvSelected "R")) sample_events review_node context_new review_graph quiet_world = (Finished (Ok o), w')
    /\ exists s, select_edge review_node o context_new review_graph "deterministic" 0 = (Some s, 0) /\ edge_to (sel_edge s) = "stop".
Proof.
  destruct (human_choice_taken (M := Usage) (W := Z) (Asking0 := answering (AvSelected "R")) sample_events review_node context_new review_graph quiet_world
    (match build_human_gate_question review_node context_new review_graph "01J" with Ok q => q | Err _ => mkGate [] None (question_new "" QYesNo) end)
    (mkAnswer (AvSelected "R") None None) (PrSystem ActorEngine) (labelled "stop" "[R] Reject" [])) as (o & w' & He & _ & _ & Hsel).
  - vm_compute. reflexivity.
  - intros h. exists h. reflexivity.
  - reflexivity.
  - vm_compute. right. left.
  - reflexivity.
  - reflexivity.
  - vm_compute. apply (bool_decide_eq_true_1 _). reflexivity.
  - intros e' He' Hl. assert (Forall (fun e' => label_matches "[R] Reject" e' = true -> edge_to e' = "stop") two_options) as Hall
      by (repeat constructor; vm_compute; done).
    rewrite Forall_forall in Hall. exact (Hall e' He' Hl).
  - exists o, w'. split; [exact He|]. apply Hsel. vm_compute in He. injection He as <- <-. vm_compute. reflexivity.
Defined.

Lemma human_gate_settles_witness :
  exists p', live_events (stored 7 (lf_log (iv_life (executed AvNo).2))) running_projection = Ok p' /\ rp_status p' = RsRunning
    /\ rp_pending_interviews p' = ∅.
Proof.
  destruct (human_gate_settles (M := Usage) (Asking0 := answering AvNo) sample_events review_node context_new review_graph quiet_world
    (executed AvNo).1 (executed AvNo).2 7 running_projection) as (_ & new & p' & Hlog & Hp & Hs & _ & Hpend);
    [discriminate|by apply map_Forall_empty|reflexivity|reflexivity|apply surjective_pairing|].
  change (lf_log (iv_life (executed AvNo).2) = new) in Hlog. exists p'. rewrite Hlog. split; [exact Hp|]. split; [exact Hs|].
  exact (Hpend (executed_outcome_of AvNo) eq_refl).
Defined.
End HumanRuns.
