(* ===== verification/Stall.v ===== *)
(** * Stalled runs and stage budgets

    Two timers that stand still while people are asked: the watchdog that stops a run which
    no longer does anything (fabro-workflow/src/pipeline/execute.rs, with the activity clock of
    event/emitter.rs) and the time budget of a stage (fabro-workflow/src/node_handler.rs).

    Instants and durations are nanoseconds.  The watchdog is a task of its own: [stall_step]
    interleaves what the run does with polls of the task, which the scheduler may delay;
    one poll runs from one suspension to the next ([monitor_poll]).  The watch channel of
    the interviews is its value with a flag for changes the task has not seen. *)

From S2P Require Import Prelude RustStr RustNum GraphTypes StageIds EventScan Events Projection EventLife Interviews.
From coqutil Require Import Datatypes.RecordSetters.
Import OCamlLikeNotations.
Local Open Scope Z_scope.

Definition NANOS_PER_MILLI : Z := 1000000.

Inductive MonitorEnd := MonitorReturned | MonitorCancelled.

(** The run, the emitter's activity clock, and the watchdog where it waits.  The instants of
    the last activity and of the last change of the interviews are kept for the statements;
    the code has the first in milliseconds, and not the second. *)
Record StallState := mkStall {
  sl_now : Z;
  sl_origin : Z;
  sl_last_activity_ms : Z;
  sl_blocks : InterviewBlockState;
  sl_unseen : bool;
  sl_shutdown : bool;
  sl_deadline : Z;
  sl_seen_blocked : bool;
  sl_end : option MonitorEnd;
  sl_exact_activity : Z;
  sl_changed_at : Z
}.

Section stall.
Context (stall_timeout : Duration).
Implicit Types (s : StallState).

Definition last_activity s : Z := sl_origin s + sl_last_activity_ms s * NANOS_PER_MILLI.

(** [record_activity], of every event and of [touch]. *)
Definition record_activity s : StallState :=
  { s with sl_last_activity_ms := millis_u64 (sl_now s - sl_origin s); sl_exact_activity := sl_now s }.

(** ** The run's side *)

Definition time_passes (dt : Duration) s : StallState := { s with sl_now := sl_now s + dt }.
Definition interviews_change (b : InterviewBlockState) s : StallState := { s with sl_blocks := b; sl_unseen := true; sl_changed_at := sl_now s }.
Definition shut_down s : StallState := { s with sl_shutdown := true }.

(** ** The watchdog's side *)

(** The head of the loop: [borrow_and_update]. *)
Definition monitor_round s : StallState := { s with sl_unseen := false; sl_seen_blocked := is_run_blocked (sl_blocks s) }.

Definition set_deadline (d : Z) s : StallState := { s with sl_deadline := d }.
Definition end_monitor (e : MonitorEnd) s : StallState := { s with sl_end := Some e }.

(** The select, in its order, until nothing is ready.  Nothing is ready after at most three
    rounds: a change is seen once, and a deadline moved to the last activity is not moved
    again by the same activity. *)
Fixpoint monitor_select (fuel : nat) s : StallState :=
  match fuel with
  | O => s
  | S fuel =>
      if sl_shutdown s then end_monitor MonitorReturned s
      else if sl_unseen s then monitor_select fuel (monitor_round (set_deadline (sl_now s + stall_timeout) s))
      else if (negb (sl_seen_blocked s) && (sl_deadline s <=? sl_now s))%bool then
        let extended := last_activity s + stall_timeout in
        if sl_deadline s <? extended then monitor_select fuel (monitor_round (set_deadline extended s))
        else end_monitor MonitorCancelled s
      else s
  end.

Definition MONITOR_ROUNDS : nat := 4.

Definition monitor_poll s : StallState := match sl_end s with Some _ => s | None => monitor_select MONITOR_ROUNDS s end.

(** [StallWatchdog::spawn], up to the first suspension of the task. *)
Definition watchdog_spawn (origin now : Z) (b : InterviewBlockState) : StallState :=
  let s := record_activity (mkStall now origin 0 b false false 0 false None now origin) in
  monitor_poll (monitor_round (set_deadline (last_activity s + stall_timeout) s)).

Inductive StallStep := StTime (dt : Duration) | StActivity | StInterviews (b : InterviewBlockState) | StShutdown | StPoll.

Definition stall_step (e : StallStep) s : StallState :=
  match e with
  | StTime dt => time_passes (Z.max 0 dt) s
  | StActivity => record_activity s
  | StInterviews b => interviews_change b s
  | StShutdown => shut_down s
  | StPoll => monitor_poll s
  end.

Definition stall_run (l : list StallStep) s : StallState := foldl (fun s e => stall_step e s) s l.

(** ** What the watchdog may conclude *)

(** The activity clock is never ahead, and behind by less than a millisecond; the deadline
    leaves a full timeout after the last change of the interviews, and is within one. *)
Record stall_inv s : Prop := {
  si_start : sl_origin s <= sl_exact_activity s <= sl_now s;
  si_clock : last_activity s <= sl_exact_activity s;
  si_exact : sl_exact_activity s - sl_origin s <= u64_max * NANOS_PER_MILLI -> sl_exact_activity s < last_activity s + NANOS_PER_MILLI;
  si_changed : sl_changed_at s <= sl_now s;
  si_seen : sl_unseen s = false -> sl_seen_blocked s = is_run_blocked (sl_blocks s) /\ sl_changed_at s + stall_timeout <= sl_deadline s;
  si_near : sl_deadline s <= sl_now s + stall_timeout
}.

(** What stopping the run says about it. *)
Definition stalled s : Prop :=
  sl_shutdown s = false /\ is_run_blocked (sl_blocks s) = false
  /\ last_activity s + stall_timeout <= sl_now s /\ sl_changed_at s + stall_timeout <= sl_now s.

Definition waiting s : Prop :=
  sl_shutdown s = false /\ sl_unseen s = false /\ (sl_seen_blocked s = true \/ sl_now s < sl_deadline s).

(** The task touches its own part of the state only. *)
Definition same_run s s' : Prop :=
  sl_now s' = sl_now s /\ sl_origin s' = sl_origin s /\ sl_last_activity_ms s' = sl_last_activity_ms s /\ sl_blocks s' = sl_blocks s
  /\ sl_shutdown s' = sl_shutdown s /\ sl_exact_activity s' = sl_exact_activity s /\ sl_changed_at s' = sl_changed_at s.

Lemma millis_bounds d : 0 <= d -> 0 <= millis_u64 d /\ millis_u64 d * NANOS_PER_MILLI <= d
  /\ (d <= u64_max * NANOS_PER_MILLI -> d < millis_u64 d * NANOS_PER_MILLI + NANOS_PER_MILLI).
Proof.
  intros Hd. unfold millis_u64, in_bounds, as_millis. pose proof (Z.div_mod d NANOS_PER_MILLI ltac:(done)) as Hm.
  pose proof (Z.mod_pos_bound d NANOS_PER_MILLI ltac:(done)). pose proof (Z.div_pos d NANOS_PER_MILLI Hd ltac:(done)).
  unfold NANOS_PER_MILLI, u64_max in *. destruct ((0 <=? d / 1000000) && (d / 1000000 <=? 18446744073709551615))%bool eqn:E; cbn.
  - lia.
  - apply andb_false_iff in E. lia.
Qed.
Definition polled s s' : Prop :=
  same_run s s' /\ stall_inv s'
  /\ match sl_end s' with
     | None => waiting s'
     | Some MonitorCancelled => stalled s'
     | Some MonitorReturned => sl_shutdown s' = true
     end.

Lemma stall_inv_end e s : stall_inv s -> stall_inv (end_monitor e s).
Proof. intros []. by split. Qed.

(** The round after a deadline was moved to the last activity. *)
Lemma rearmed s : sl_shutdown s = false -> is_run_blocked (sl_blocks s) = false ->
  let s1 := monitor_round (set_deadline (last_activity s + stall_timeout) s) in
  sl_shutdown s1 = false /\ sl_unseen s1 = false /\ sl_seen_blocked s1 = false
  /\ sl_deadline s1 = last_activity s + stall_timeout /\ sl_now s1 = sl_now s /\ last_activity s1 = last_activity s.
Proof. intros Hd Hb. by destruct s; cbn in *. Qed.

Lemma quiet_round fuel s :
  0 <= stall_timeout -> stall_inv s -> sl_end s = None -> sl_shutdown s = false -> sl_unseen s = false -> polled s (monitor_select (S (S fuel)) s).
Proof.
  intros Ht Hi He Hd Hu. pose proof Hi as [I1 I2 I3 I4 I5 I6]. destruct (I5 Hu) as [Hseen Hchg]. unfold polled.
  remember (S fuel) as k eqn:Hk. cbn [monitor_select]. rewrite Hd, Hu.
  destruct (sl_seen_blocked s) eqn:Hb; cbn [negb andb].
  { rewrite He. split; [done|]. split; [done|]. unfold waiting. auto. }
  destruct (Z.leb_spec (sl_deadline s) (sl_now s)); cbn [andb].
  2: { rewrite He. split; [done|]. split; [done|]. unfold waiting. auto. }
  destruct (Z.ltb_spec (sl_deadline s) (last_activity s + stall_timeout)) as [Hx|Hx].
  - subst k. set (s1 := monitor_round _). destruct (rearmed s Hd (eq_sym Hseen)) as (E1 & E2 & E3 & E4 & E5 & E6). fold s1 in E1, E2, E3, E4, E5, E6.
    assert (stall_inv s1) as Hinv by (destruct s; split; cbn in *; auto; try lia; intros _; split; [done|]; lia).
    cbn [monitor_select]. rewrite E1, E2, E3, E4, E5, E6. cbn [negb andb].
    destruct (Z.leb_spec (last_activity s + stall_timeout) (sl_now s)).
    + rewrite Z.ltb_irrefl. split; [destruct s; unfold same_run; by split_and!|]. split; [by apply stall_inv_end|]. unfold stalled, last_activity in *. destruct s; cbn in *; split_and!; (done || lia).
    + assert (sl_end s1 = None) as -> by (by destruct s). split; [destruct s; unfold same_run; by split_and!|]. split; [done|]. unfold waiting. rewrite E1, E2, E4, E5. auto.
  - split; [destruct s; unfold same_run; by split_and!|]. split; [by apply stall_inv_end|]. unfold stalled, last_activity in *. destruct s; cbn in *; split_and!; (done || lia).
Qed.

Lemma monitor_poll_polled s : 0 <= stall_timeout -> stall_inv s -> sl_end s = None -> polled s (monitor_poll s).
Proof.
  intros Ht Hi He. unfold monitor_poll, MONITOR_ROUNDS. rewrite He. destruct (sl_shutdown s) eqn:Hd.
  { cbn [monitor_select]. rewrite Hd. split; [destruct s; unfold same_run; by split_and!|]. split; [by apply stall_inv_end|by destruct s]. }
  destruct (sl_unseen s) eqn:Hu; [|by apply quiet_round].
  remember 3%nat as k eqn:Hk. cbn [monitor_select]. rewrite Hd, Hu. subst k.
  set (s1 := monitor_round _). assert (stall_inv s1) as Hi1.
  { subst s1. destruct Hi as [I1 I2 I3 I4 I5 I6]. unfold last_activity in *. destruct s; split; unfold last_activity; cbn in *; unfold constant in *; try done; try lia.
    intros _. split; [done|]. lia. }
  destruct (quiet_round 1 s1 Ht Hi1) as (Hsame & H2); [by destruct s..|]. split; [|done]. destruct s. exact Hsame.
Qed.

(** ** Every run *)

Lemma stall_step_inv e s : 0 <= stall_timeout -> stall_inv s -> stall_inv (stall_step e s).
Proof.
  intros Ht Hi. destruct e as [dt| |b| |]; cbn [stall_step].
  - destruct Hi as [I1 I2 I3 I4 I5 I6]. unfold last_activity in *. destruct s; split; unfold last_activity; cbn in *; unfold constant in *; try done; try lia.
  - destruct Hi as [I1 I2 I3 I4 I5 I6]. pose proof (millis_bounds (sl_now s - sl_origin s) ltac:(lia)) as (M1 & M2 & M3).
    destruct s; split; unfold last_activity; cbn in *; unfold constant in *; try done; try lia.
  - destruct Hi as [I1 I2 I3 I4 I5 I6]. destruct s; split; cbn in *; unfold constant in *; try done; try lia.
  - destruct Hi as [I1 I2 I3 I4 I5 I6]. by split.
  - unfold monitor_poll. destruct (sl_end s) eqn:He; [done|]. pose proof (monitor_poll_polled s Ht Hi He) as (_ & Hp & _).
    unfold monitor_poll in Hp. by rewrite He in Hp.
Qed.

Lemma stall_run_inv l s : 0 <= stall_timeout -> stall_inv s -> stall_inv (stall_run l s).
Proof. intros Ht. revert s. induction l as [|e l IH]; intros s Hi; [done|]. apply IH. by apply stall_step_inv. Qed.

Lemma watchdog_spawn_inv origin now b : 0 <= stall_timeout -> origin <= now -> stall_inv (watchdog_spawn origin now b).
Proof.
  intros Ht Hn. unfold watchdog_spawn. apply (stall_step_inv StPoll); [done|].
  pose proof (millis_bounds (now - origin) ltac:(lia)) as (M1 & M2 & M3).
  split; unfold last_activity, monitor_round, set_deadline, record_activity in *; cbn; unfold constant, last_activity; cbn; unfold constant, NANOS_PER_MILLI in *; try lia.
  intros _. split; [done|]. lia.
Qed.

Lemma monitor_select_origin fuel s : sl_origin (monitor_select fuel s) = sl_origin s.
Proof.
  revert s. induction fuel as [|fuel IH]; intros s; [done|]. cbn [monitor_select]. repeat case_match; try rewrite IH; by destruct s.
Qed.

Lemma stall_run_origin origin started b l : sl_origin (stall_run l (watchdog_spawn origin started b)) = origin.
Proof.
  assert (forall l s, sl_origin (stall_run l s) = sl_origin s) as ->.
  { clear. induction l as [|e l IH]; intros s; [done|]. cbn [stall_run foldl] in *. fold (stall_run l (stall_step e s)). rewrite IH. destruct e; try by destruct s.
    cbn. unfold monitor_poll. destruct (sl_end s); [done|]. apply monitor_select_origin. }
  unfold watchdog_spawn, monitor_poll. case_match; [done|]. by rewrite monitor_select_origin.
Qed.

(** C22: a run is stopped as stalled only when it is.  Whatever the run does and however its
    polls are delayed, when a poll of the watchdog cancels the run, then no interview is open
    and none has opened or closed for the whole timeout, the run has not finished, and it has
    emitted nothing for the timeout, less at most a millisecond that the activity clock cuts off. *)
Theorem stall_cancel_sound origin started b l :
  0 <= stall_timeout -> origin <= started ->
  let s := stall_run l (watchdog_spawn origin started b) in
  sl_end s = None -> sl_end (monitor_poll s) = Some MonitorCancelled -> sl_now s - origin <= u64_max * NANOS_PER_MILLI ->
  is_run_blocked (sl_blocks s) = false /\ sl_shutdown s = false
  /\ sl_changed_at s + stall_timeout <= sl_now s /\ stall_timeout - NANOS_PER_MILLI < sl_now s - sl_exact_activity s.
Proof.
  intros Ht Ho s He Hc Hrange. assert (stall_inv s) as Hi by (by apply stall_run_inv, watchdog_spawn_inv).
  destruct (monitor_poll_polled s Ht Hi He) as (Hsame & _ & Hend). rewrite Hc in Hend. destruct Hend as (E1 & E2 & E3 & E4).
  destruct Hsame as (S1 & S2 & S3 & S4 & S5 & S6 & S7). unfold last_activity in E3. rewrite S1, S2, S3 in E3. rewrite S7, S1 in E4.
  rewrite S4 in E2. rewrite S5 in E1. destruct Hi as [I1 I2 I3 _ _ _]. unfold last_activity in *.
  assert (sl_origin s = origin) as Horigin by (apply stall_run_origin). rewrite Horigin in *. unfold NANOS_PER_MILLI in *.
  split_and!; try done. lia.
Qed.

Lemma expired_cancels s :
  sl_end s = None -> sl_shutdown s = false -> sl_unseen s = false -> sl_seen_blocked s = false -> is_run_blocked (sl_blocks s) = false ->
  sl_deadline s <= sl_now s -> last_activity s + stall_timeout <= sl_now s -> sl_end (monitor_poll s) = Some MonitorCancelled.
Proof.
  intros He Hd Hu Hs Hb Hdl Hla. unfold monitor_poll, MONITOR_ROUNDS. rewrite He. remember 3%nat as k eqn:Hk. cbn [monitor_select]. rewrite Hd, Hu, Hs.
  rewrite (proj2 (Z.leb_le _ _) Hdl). cbn [negb andb]. destruct (sl_deadline s <? last_activity s + stall_timeout); [|by destruct s].
  subst k. set (s1 := monitor_round _). destruct (rearmed s Hd Hb) as (E1 & E2 & E3 & E4 & E5 & E6). fold s1 in E1, E2, E3, E4, E5, E6.
  cbn [monitor_select]. rewrite E1, E2, E3, E4, E5, E6, (proj2 (Z.leb_le _ _) Hla), Z.ltb_irrefl. by destruct s.
Qed.

(** A stalled run is stopped.  From any poll after which the watchdog waits, with no
    interview open, if the run then does nothing for the timeout (no event, no interview), the
    first poll from then on cancels it. *)
Theorem stall_detected origin started b l dt :
  0 <= stall_timeout -> origin <= started -> stall_timeout <= dt ->
  let s := monitor_poll (stall_run l (watchdog_spawn origin started b)) in
  sl_end s = None -> is_run_blocked (sl_blocks s) = false ->
  sl_end (monitor_poll (time_passes dt s)) = Some MonitorCancelled.
Proof.
  intros Ht Ho Hdt s He Hb. set (s0 := stall_run l (watchdog_spawn origin started b)) in s.
  assert (stall_inv s0) as Hi0 by (by apply stall_run_inv, watchdog_spawn_inv).
  assert (sl_end s0 = None) as He0 by (subst s; unfold monitor_poll in He; destruct (sl_end s0) eqn:E; [by rewrite E in He|done]).
  destruct (monitor_poll_polled s0 Ht Hi0 He0) as (_ & Hi & Hw). fold s in Hi, Hw. rewrite He in Hw. destruct Hw as (W1 & W2 & _).
  destruct Hi as [I1 I2 _ _ I5 I6]. destruct (I5 W2) as [Hseen _]. rewrite Hb in Hseen. unfold last_activity in *.
  apply expired_cancels; unfold last_activity; clearbody s; destruct s; cbn in *; unfold constant; (done || lia).
Qed.
End stall.

(** ** The budget of a stage (node_handler.rs) *)

(** What ends a stretch of waiting: the interviews change, the handler's future completes, or
    the channel of the interviews is closed. *)
Inductive StretchEnd (A : Type) := Changed (b : InterviewBlockState) | Completed (output : A) | BlockerGone.
Arguments Changed {A}.
Arguments Completed {A}.
Arguments BlockerGone {A}.

Section budget.
Context {A : Type} (stage : StageId).

(** [tokio::time::timeout] of what is left: the output when it comes in time. *)
Fixpoint plain_timeout (remaining : Duration) (l : list (Duration * StretchEnd A)) : option A :=
  match l with
  | [] => None
  | (dt, e) :: l =>
      if remaining <? dt then None
      else match e with Completed a => Some a | _ => plain_timeout (remaining - dt) l end
  end.

(** The stretches of a handler's run, each with its length and end.  The timer is the last
    branch of the select, so a stretch that ends just when the budget does ends first. *)
Fixpoint timeout_excluding_interview_wait (remaining : Duration) (blocks : InterviewBlockState) (l : list (Duration * StretchEnd A)) : option A :=
  match l with
  | [] => None
  | (dt, e) :: l =>
      let blocked := is_stage_blocked blocks stage in
      if (negb blocked && (remaining <? dt))%bool then None
      else
        match e with
        | Completed a => Some a
        | Changed blocks => timeout_excluding_interview_wait (if blocked then remaining else Z.max 0 (remaining - dt)) blocks l
        | BlockerGone => plain_timeout remaining l
        end
  end.

(** The time until the future completes that counts: the stretches in which the stage has no
    open interview.  [None] when it does not complete, or the channel is closed first. *)
Fixpoint counted_time (blocks : InterviewBlockState) (l : list (Duration * StretchEnd A)) : option (Duration * A) :=
  match l with
  | [] => None
  | (dt, e) :: l =>
      let counts := if is_stage_blocked blocks stage then 0 else dt in
      match e with
      | Completed a => Some (counts, a)
      | Changed blocks => '(t, a) ← counted_time blocks l; Some (counts + t, a)
      | BlockerGone => None
      end
  end.

Lemma counted_time_nonneg l : forall blocks t a, Forall (fun x => 0 <= x.1) l -> counted_time blocks l = Some (t, a) -> 0 <= t.
Proof.
  induction l as [|[dt e] l IH]; intros blocks t a Hl; [done|]. apply Forall_cons in Hl as [Hdt Hl]. cbn [counted_time fst] in *.
  destruct e as [b|x|]; [|intros [= <- <-]; destruct (is_stage_blocked blocks stage); lia|done].
  destruct (counted_time b l) as [[t' a']|] eqn:E; cbn; [|done]. intros [= <- <-]. specialize (IH b t' a' Hl E). destruct (is_stage_blocked blocks stage); lia.
Qed.

(** Waiting for people does not use up a stage's time.  The handler's output is returned
    exactly when the time in which the stage had no open interview is within the budget;
    interviews of other stages stop nothing. *)
Theorem budget_counts_unblocked_time duration blocks l t a :
  0 <= duration -> Forall (fun x => 0 <= x.1) l -> counted_time blocks l = Some (t, a) ->
  timeout_excluding_interview_wait duration blocks l = if t <=? duration then Some a else None.
Proof.
  revert duration blocks t. induction l as [|[dt e] l IH]; intros duration blocks t Hd Hl; [done|].
  apply Forall_cons in Hl as [Hdt Hl]. cbn [fst] in Hdt. cbn [counted_time timeout_excluding_interview_wait].
  destruct e as [b|x|]; [|intros [= <- <-]; destruct (is_stage_blocked blocks stage); cbn [negb andb]|done].
  - destruct (counted_time b l) as [[t' a']|] eqn:E; cbn; [|done]. intros [= <- <-].
    pose proof (counted_time_nonneg l b t' a' Hl E) as Ht. destruct (is_stage_blocked blocks stage); cbn [negb andb].
    + rewrite (IH duration b t' Hd Hl E). by rewrite Z.add_0_l.
    + destruct (Z.ltb_spec duration dt).
      * destruct (Z.leb_spec (dt + t') duration); [lia|done].
      * rewrite (IH (Z.max 0 (duration - dt)) b t' ltac:(lia) Hl E).
        destruct (Z.leb_spec t' (Z.max 0 (duration - dt))), (Z.leb_spec (dt + t') duration); (done || lia).
  - destruct (Z.leb_spec 0 duration); [done|lia].
  - destruct (Z.ltb_spec duration dt), (Z.leb_spec dt duration); (done || lia).
Qed.
End budget.

(** ** Witnesses *)

Definition asked_stage : StageId := mkStageId "plan" 1.
Definition minute : Duration := 60 * 1000000000.

(** A run that asks for an hour and then falls silent. *)
Definition silent_run : list StallStep :=
  [StTime minute; StActivity; StInterviews {[asked_stage := 1]}; StPoll; StTime (60 * minute); StPoll; StInterviews ∅; StPoll; StTime (29 * minute); StPoll; StTime minute].

Lemma stall_cancel_sound_witness :
  let s := stall_run (30 * minute) silent_run (watchdog_spawn (30 * minute) 0 0 ∅) in
  sl_end (monitor_poll (30 * minute) s) = Some MonitorCancelled /\ 30 * minute - NANOS_PER_MILLI < sl_now s - sl_exact_activity s.
Proof.
  split; [vm_compute; reflexivity|].
  apply (stall_cancel_sound (30 * minute) 0 0 ∅ silent_run); vm_compute; (discriminate || reflexivity).
Defined.

Lemma stall_detected_witness :
  sl_end (monitor_poll (30 * minute) (time_passes (30 * minute) (monitor_poll (30 * minute) (stall_run (30 * minute) [StTime minute; StActivity] (watchdog_spawn (30 * minute) 0 0 ∅)))))
  = Some MonitorCancelled.
Proof. apply (stall_detected (30 * minute) 0 0 ∅ [StTime minute; StActivity] (30 * minute)); vm_compute; (discriminate || reflexivity). Defined.

Lemma budget_counts_unblocked_time_witness :
  timeout_excluding_interview_wait asked_stage (2 * minute) ∅
    [(minute, Changed {[asked_stage := 1]}); (60 * minute, Changed ∅); (minute, Completed 7)] = Some 7.
Proof.
  apply (budget_counts_unblocked_time asked_stage (2 * minute) ∅ _ (2 * minute) 7); [vm_compute; discriminate| |vm_compute; reflexivity].
  repeat constructor; vm_compute; discriminate.
Defined.
