(* ===== verification/Control.v ===== *)
(** * Interviewers (fabro-interview/src/control.rs, queue.rs, replay.rs)

    Answers that come from outside the run, through the server or the worker's control
    stream.  A question waits on a one-shot channel; its sender is in a table under the
    question's id.  Answers may arrive before the question, after it, twice, or after the
    asking call was dropped, and everything can be resolved at once.

    The table is behind a mutex, the channels are not: a submission takes the sender under
    the lock and sends afterwards.  [control_step] is one locked section or one send, so a list
    of actions is an interleaving of callers.  A call that waits is a number; [ct_calls] has
    the question and the channel of each. *)

From S2P Require Import Prelude RustStr Outcome EventLife Interviews.
From coqutil Require Import Datatypes.RecordSetters.
Import OCamlLikeNotations.
Local Open Scope string_scope.
Local Open Scope list_scope.
Local Open Scope nat_scope.

(** The receiver's end of a one-shot channel. *)
Inductive Channel := Open_ | Received (s : AnswerSubmission) | SenderGone | ReceiverGone.

(** A sender taken from the table, with what it is to send. *)
Record Message := mkMessage { mg_call : nat; mg_submission : AnswerSubmission }.

Record Control := mkControl {
  ct_pending : gmap string nat;
  ct_queued : gmap string AnswerSubmission;
  ct_terminal : option AnswerSubmission;
  ct_calls : list (string * Channel);
  ct_in_flight : list Message;
  ct_accepted : list (string * AnswerSubmission);
  ct_terminals : list AnswerSubmission
}.

Definition control_new : Control := mkControl ∅ ∅ None [] [] [] [].

Inductive SubmitError := AlreadyResolved.

Definition submission_system (v : AnswerValue) : AnswerSubmission := mkSubmission (mkAnswer v None None) (PrSystem ActorEngine).

(** ** Channels *)

Definition on_open (f : Channel) (ch : Channel) : Channel := match ch with Open_ => f | _ => ch end.

Definition set_channel (k : nat) (f : Channel) (c : Control) : Control :=
  { c with ct_calls := alter (fun q => (q.1, on_open f q.2)) k (ct_calls c) }.

(** [Sender::send]: an error when the receiver is gone. *)
Definition send (k : nat) (s : AnswerSubmission) (c : Control) : result unit SubmitError * Control :=
  (match snd <$> ct_calls c !! k with Some Open_ => Ok tt | _ => Err AlreadyResolved end, set_channel k (Received s) c).

(** ** The locked sections *)

Definition new_call (id : string) (ch : Channel) (c : Control) : Control := { c with ct_calls := ct_calls c ++ [(id, ch)] }.

(** Overwriting an entry drops the sender that was there. *)
Definition register (id : string) (c : Control) : Control :=
  match ct_terminal c with
  | Some s => new_call id (Received s) c
  | None =>
      match ct_queued c !! id with
      | Some s => new_call id (Received s) { c with ct_queued := delete id (ct_queued c) }
      | None =>
          let c' := match ct_pending c !! id with Some old => set_channel old SenderGone c | None => c end in
          new_call id Open_ { c' with ct_pending := <[id := length (ct_calls c)]> (ct_pending c') }
      end
  end.

(** The verdict, unless a sender is taken: then it is that of the send. *)
Definition submit (id : string) (s : AnswerSubmission) (c : Control) : option (result unit SubmitError) * Control :=
  if is_some (ct_terminal c) then (Some (Err AlreadyResolved), c)
  else
    match ct_pending c !! id with
    | Some k =>
        (None, { c with ct_pending := delete id (ct_pending c); ct_in_flight := ct_in_flight c ++ [mkMessage k s];
                        ct_accepted := ct_accepted c ++ [(id, s)] })
    | None =>
        if is_some (ct_queued c !! id) then (Some (Err AlreadyResolved), c)
        else (Some (Ok tt), { c with ct_queued := <[id := s]> (ct_queued c); ct_accepted := ct_accepted c ++ [(id, s)] })
    end.

Definition resolve_all (s : AnswerSubmission) (c : Control) : Control :=
  { c with ct_terminal := Some s; ct_pending := ∅; ct_queued := ∅; ct_terminals := ct_terminals c ++ [s];
           ct_in_flight := ct_in_flight c ++ ((fun kv => mkMessage kv.2 s) <$> map_to_list (ct_pending c)) }.

Definition interrupt_all (c : Control) : Control := resolve_all (submission_system AvInterrupted) c.
Definition cancel_all (c : Control) : Control := resolve_all (submission_system AvCancelled) c.

(** What a call of [ask] returns, once it does. *)
Definition ask_result (ch : Channel) : option AnswerSubmission :=
  match ch with Received s => Some s | SenderGone => Some (submission_system AvInterrupted) | Open_ | ReceiverGone => None end.

(** ** Interleavings *)

Inductive ControlAction :=
| ActAsk (id : string) | ActSubmit (id : string) (s : AnswerSubmission) | ActSend (i : nat) | ActResolve (s : AnswerSubmission) | ActDrop (k : nat).

Definition control_step (a : ControlAction) (c : Control) : Control :=
  match a with
  | ActAsk id => register id c
  | ActSubmit id s => (submit id s c).2
  | ActSend i =>
      match ct_in_flight c !! i with
      | Some m => (send (mg_call m) (mg_submission m) { c with ct_in_flight := delete i (ct_in_flight c) }).2
      | None => c
      end
  | ActResolve s => resolve_all s c
  | ActDrop k => set_channel k ReceiverGone c
  end.

Definition control_run (l : list ControlAction) (c : Control) : Control := foldl (fun c a => control_step a c) c l.

(** [QueueInterviewer] and [ReplayInterviewer]. *)
Definition queue_ask (answers : list Answer) (actor : Principal) : AnswerSubmission * list Answer :=
  match answers with a :: rest => (mkSubmission a actor, rest) | [] => (mkSubmission (mkAnswer AvInterrupted None None) actor, []) end.

Definition replay_ask (l : list AnswerSubmission) : AnswerSubmission * list AnswerSubmission :=
  match l with s :: rest => (s, rest) | [] => (submission_system AvInterrupted, []) end.

(** ** The invariant *)

(** What may be delivered to a call for question [id]. *)
Definition legitimate (c : Control) (id : string) (s : AnswerSubmission) : Prop := (id, s) ∈ ct_accepted c \/ s ∈ ct_terminals c.

Definition in_flight_to (c : Control) (k : nat) : Prop := exists m, m ∈ ct_in_flight c /\ mg_call m = k.

Record control_inv (c : Control) : Prop := {
  ci_pending : forall id k, ct_pending c !! id = Some k -> exists ch, ct_calls c !! k = Some (id, ch);
  ci_waiting : forall k id, ct_calls c !! k = Some (id, Open_) -> ct_pending c !! id = Some k \/ in_flight_to c k;
  ci_flight : forall m, m ∈ ct_in_flight c -> exists id ch, ct_calls c !! mg_call m = Some (id, ch) /\ legitimate c id (mg_submission m);
  ci_received : forall k id s, ct_calls c !! k = Some (id, Received s) -> legitimate c id s;
  ci_queued : forall id s, ct_queued c !! id = Some s -> (id, s) ∈ ct_accepted c /\ ct_pending c !! id = None;
  ci_terminal : forall s, ct_terminal c = Some s -> s ∈ ct_terminals c /\ ct_pending c = ∅ /\ ct_queued c = ∅
}.

Lemma control_new_inv : control_inv control_new.
Proof. split; try done. intros m Hm. by apply not_elem_of_nil in Hm. Qed.

Lemma alter_calls k f (l : list (string * Channel)) j id ch :
  alter (fun q => (q.1, on_open f q.2)) k l !! j = Some (id, ch) ->
  l !! j = Some (id, ch) /\ (j = k -> ch <> Open_ \/ f = Open_) \/ l !! j = Some (id, Open_) /\ j = k /\ ch = f.
Proof.
  rewrite list_lookup_alter. case_decide as Hd; [|intros Hj; left; split; [done|]; by intros ->]. subst k. destruct (l !! j) as [[i0 ch0]|]; cbn; [|done]. intros [= <- <-].
  destruct ch0; cbn; [by right|left..]; (split; [done|by left]).
Qed.

Lemma alter_calls_some k f (l : list (string * Channel)) j id ch :
  l !! j = Some (id, ch) -> exists ch', alter (fun q => (q.1, on_open f q.2)) k l !! j = Some (id, ch').
Proof. intros Hj. rewrite list_lookup_alter. case_decide; [subst k|]; rewrite Hj; by eexists. Qed.

Lemma set_channel_inv k f c :
  control_inv c -> f <> Open_ ->
  (forall id s, ct_calls c !! k = Some (id, Open_) -> f = Received s -> legitimate c id s) -> control_inv (set_channel k f c).
Proof.
  intros [I1 I2 I3 I4 I5 I6] Hf Hl. split; try done; cbn [ct_pending ct_calls ct_in_flight set_channel].
  - intros id j Hj. destruct (I1 id j Hj) as [ch Hc]. by eapply alter_calls_some.
  - intros j id [[Hj _]|(_ & _ & <-)]%alter_calls; [by apply I2|done].
  - intros m Hm. destruct (I3 m Hm) as (id & ch & Hc & Hleg). destruct (alter_calls_some k f _ _ _ _ Hc) as [ch' Hc']. by exists id, ch'.
  - intros j id s [[Hj _]|(Hj & -> & <-)]%alter_calls; [by apply (I4 j)|by apply (Hl id s)].
Qed.

(** ** Steps *)

Lemma snoc_lookup {A} (l : list A) x k y : (l ++ [x]) !! k = Some y -> l !! k = Some y \/ k = length l /\ y = x.
Proof. intros [H|[Hk [Hz Hy]%list_lookup_singleton_Some]]%lookup_app_Some; [by left|right]. split; [lia|done]. Qed.

Lemma snoc_lookup_old {A} (l : list A) x k y : l !! k = Some y -> (l ++ [x]) !! k = Some y.
Proof. intros H. by apply lookup_app_l_Some. Qed.

(** A call that is answered as it asks. *)
Lemma new_received_inv id s c : control_inv c -> legitimate c id s -> control_inv (new_call id (Received s) c).
Proof.
  intros [I1 I2 I3 I4 I5 I6] Hl. split; try done; cbn [ct_pending ct_calls ct_in_flight new_call].
  - intros i k Hk. destruct (I1 i k Hk) as [ch Hc]. exists ch. by apply snoc_lookup_old.
  - intros k i [Hk|[_ [=]]]%snoc_lookup. by apply I2.
  - intros m Hm. destruct (I3 m Hm) as (i & ch & Hc & Hleg). exists i, ch. split; [by apply snoc_lookup_old|done].
  - intros k i s' [Hk|[_ [= -> ->]]]%snoc_lookup; [by apply (I4 k)|done].
Qed.

Lemma delete_queued_inv id c : control_inv c -> control_inv { c with ct_queued := delete id (ct_queued c) }.
Proof.
  intros [I1 I2 I3 I4 I5 I6]. split; try done; cbn; unfold constant.
  - intros i s [_ Hi]%lookup_delete_Some. by apply I5.
  - intros s Hs. destruct (I6 s Hs) as (? & ? & Hq). rewrite Hq, delete_empty. by split_and!.
Qed.

(** A call that waits: the sender it replaces is dropped. *)
Lemma new_open_inv id c :
  control_inv c -> ct_terminal c = None -> ct_queued c !! id = None ->
  control_inv (new_call id Open_ { match ct_pending c !! id with Some old => set_channel old SenderGone c | None => c end
                                   with ct_pending := <[id := length (ct_calls c)]> (ct_pending c) }).
Proof.
  intros Hi Ht Hq. set (c' := match ct_pending c !! id with Some old => set_channel old SenderGone c | None => c end).
  assert (control_inv c' /\ ct_pending c' = ct_pending c /\ ct_queued c' = ct_queued c /\ ct_terminal c' = None
    /\ length (ct_calls c') = length (ct_calls c)
    /\ (forall k, ct_calls c' !! k = Some (id, Open_) -> in_flight_to c' k)) as ([I1 I2 I3 I4 I5 I6] & Hp & Hq' & Ht' & Hlen & Hold).
  { subst c'. destruct (ct_pending c !! id) as [old|] eqn:Ho.
    - assert (control_inv (set_channel old SenderGone c)) as Hi' by (by apply set_channel_inv).
      split; [done|]. split; [done|]. split; [done|]. split; [done|]. split; [apply length_alter|].
      intros k Hk. destruct (ci_waiting _ Hi' k id Hk) as [Hpk|Hf]; [|done]. change (ct_pending c !! id = Some k) in Hpk. rewrite Ho in Hpk. injection Hpk as ->.
      apply alter_calls in Hk as [[_ Hk]|(_ & _ & Hk)]; [destruct (Hk eq_refl); done|done].
    - split_and!; try done. intros k Hk. destruct (ci_waiting _ Hi k id Hk) as [Hpk|Hf]; [congruence|done]. }
  clearbody c'. destruct c' as [p' q' t' ca' fl' ac' te']. cbn in *. unfold new_call. split; cbn; unfold constant.
  - intros i k [[<- <-]|[Hne Hk]]%lookup_insert_Some.
    + exists Open_. rewrite <- Hlen. apply list_lookup_middle. done.
    + rewrite <- Hp in Hk. destruct (I1 i k Hk) as [ch Hc]. exists ch. by apply snoc_lookup_old.
  - intros k i [Hk|[-> [= ->]]]%snoc_lookup; [|left; rewrite Hlen; apply lookup_insert_eq].
    destruct (decide (i = id)) as [->|Hne]; [right; by apply Hold|]. destruct (I2 k i Hk) as [Hpk|Hf]; [left|by right].
    rewrite lookup_insert_ne by done. by rewrite <- Hp.
  - intros m Hm. destruct (I3 m Hm) as (i & ch & Hc & Hleg). exists i, ch. split; [by apply snoc_lookup_old|done].
  - intros k i s [Hk|[_ [=]]]%snoc_lookup. by apply (I4 k).
  - intros i s Hi5. destruct (I5 i s Hi5) as [Ha Hn]. split; [done|]. rewrite lookup_insert_ne; [by rewrite <- Hp|]. intros ->. congruence.
  - intros s Hs. congruence.
Qed.

Lemma register_inv id c : control_inv c -> control_inv (register id c).
Proof.
  intros Hi. unfold register. destruct (ct_terminal c) as [s|] eqn:Ht.
  { apply new_received_inv; [done|]. right. by apply (ci_terminal _ Hi). }
  destruct (ct_queued c !! id) as [s|] eqn:Hq.
  { apply new_received_inv; [by apply delete_queued_inv|]. left. by apply (ci_queued _ Hi). }
  pose proof (new_open_inv id c Hi Ht Hq) as Hn. by destruct (ct_pending c !! id).
Qed.

Lemma submit_inv id s c : control_inv c -> control_inv (submit id s c).2.
Proof.
  intros Hi. unfold submit. destruct (ct_terminal c) eqn:Ht; [done|]. cbn [is_some].
  destruct (ct_pending c !! id) as [k|] eqn:Hp; [|destruct (ct_queued c !! id) eqn:Hq; [done|]]; cbn [snd is_some].
  - destruct Hi as [I1 I2 I3 I4 I5 I6]. destruct c as [p q t ca fl ac te]. cbn in *. unfold constant. split; cbn; unfold legitimate, in_flight_to in *; cbn in *.
    + intros i j [_ Hj]%lookup_delete_Some. by apply (I1 i).
    + intros j i Hj. destruct (I2 j i Hj) as [Hpj|(m & Hm & Hmc)].
      * destruct (decide (i = id)) as [->|Hne]; [|left; by rewrite lookup_delete_ne].
        right. exists (mkMessage k s). split; [apply elem_of_app; right; left|]. cbn. congruence.
      * right. exists m. split; [apply elem_of_app; by left|done].
    + intros m [Hm| ->%list_elem_of_singleton]%elem_of_app.
      * destruct (I3 m Hm) as (i & ch & Hc & Hl). exists i, ch. split; [done|]. rewrite elem_of_app. naive_solver.
      * destruct (I1 id k Hp) as [ch Hc]. exists id, ch. split; [done|]. left. rewrite elem_of_app. right. by left.
    + intros j i s' Hj. rewrite elem_of_app. destruct (I4 j i s' Hj); auto.
    + intros i s' Hs. destruct (I5 i s' Hs) as [Ha Hn]. split; [apply elem_of_app; by left|]. destruct (decide (i = id)) as [->|]; [apply lookup_delete_eq|by rewrite lookup_delete_ne].
    + congruence.
  - destruct Hi as [I1 I2 I3 I4 I5 I6]. destruct c as [p q t ca fl ac te]. cbn in *. unfold constant. split; cbn; unfold legitimate, in_flight_to in *; cbn in *; try done.
    + intros m Hm. destruct (I3 m Hm) as (i & ch & Hc & Hl). exists i, ch. split; [done|]. rewrite elem_of_app. naive_solver.
    + intros j i s' Hj. rewrite elem_of_app. destruct (I4 j i s' Hj); auto.
    + intros i s' [[<- <-]|[_ Hs]]%lookup_insert_Some; rewrite elem_of_app; [split; [right; by left|done]|]. destruct (I5 i s' Hs). auto.
    + congruence.
Qed.

Lemma resolve_all_inv s c : control_inv c -> control_inv (resolve_all s c).
Proof.
  intros [I1 I2 I3 I4 I5 I6]. destruct c as [p q t ca fl ac te]. unfold resolve_all. cbn in *. unfold constant.
  split; cbn; unfold legitimate, in_flight_to in *; cbn in *; try done.
  - intros k i Hk. right. destruct (I2 k i Hk) as [Hp|(m & Hm & Hmc)]; [|exists m; split; [apply elem_of_app; by left|done]].
    exists (mkMessage k s). split; [|done]. apply elem_of_app. right. apply list_elem_of_fmap. exists (i, k). split; [done|]. by apply elem_of_map_to_list.
  - intros m [Hm|Hm]%elem_of_app.
    + destruct (I3 m Hm) as (i & ch & Hc & Hl). exists i, ch. split; [done|]. rewrite elem_of_app. naive_solver.
    + apply list_elem_of_fmap in Hm as ([i k] & -> & Hk%elem_of_map_to_list). destruct (I1 i k Hk) as [ch Hc]. exists i, ch. split; [done|].
      right. rewrite elem_of_app. right. by left.
  - intros k i s' Hk. rewrite elem_of_app. destruct (I4 k i s' Hk); auto.
  - intros s' [= <-]. split; [|done]. rewrite elem_of_app. right. by left.
Qed.

(** Taking a message off the wire: its call is no longer waiting afterwards. *)
Lemma deliver_inv i c : control_inv c -> control_inv (control_step (ActSend i) c).
Proof.
  intros Hi. cbn [control_step]. destruct (ct_in_flight c !! i) as [m|] eqn:Hm; [|done]. unfold send. cbn [snd].
  pose proof (list_elem_of_lookup_2 _ _ _ Hm) as Hin. destruct Hi as [I1 I2 I3 I4 I5 I6]. destruct (I3 m Hin) as (mi & mch & Hmc & Hml).
  destruct c as [p q t ca fl ac te]. unfold set_channel. cbn in *. unfold constant. split; cbn; unfold legitimate, in_flight_to in *; cbn in *; try done.
  - intros id k Hk. destruct (I1 id k Hk) as [ch Hc]. by eapply alter_calls_some.
  - intros k id [[Hk Hch]|(_ & _ & Hch)]%alter_calls; [|done]. destruct (I2 k id Hk) as [Hp|(m' & Hm' & Hmk)]; [by left|right].
    exists m'. split; [|done]. apply list_elem_of_lookup in Hm' as [j Hj]. destruct (decide (j = i)) as [->|Hne].
    + rewrite Hm in Hj. injection Hj as <-. destruct (Hch (eq_sym Hmk)); done.
    + destruct (decide (j < i)); [apply (list_elem_of_lookup_2 _ j); by rewrite list_lookup_delete_lt|].
      apply (list_elem_of_lookup_2 _ (pred j)). rewrite list_lookup_delete_ge by lia. by replace (S (pred j)) with j by lia.
  - intros m' Hm'. apply list_elem_of_delete_inv in Hm'. destruct (I3 m' Hm') as (id & ch & Hc & Hl). destruct (alter_calls_some (mg_call m) (Received (mg_submission m)) _ _ _ _ Hc) as [ch' Hc'].
    by exists id, ch'.
  - intros k id s' [[Hk _]|(Hk & -> & [= ->])]%alter_calls; [by apply (I4 k)|]. rewrite Hmc in Hk. by injection Hk as ->.
Qed.

Lemma control_step_inv a c : control_inv c -> control_inv (control_step a c).
Proof.
  destruct a as [id|id s|i|s|k]; intros Hi; [by apply register_inv|by apply submit_inv|by apply deliver_inv|by apply resolve_all_inv|].
  by apply set_channel_inv.
Qed.

Lemma control_run_inv l c : control_inv c -> control_inv (control_run l c).
Proof. revert c. induction l as [|a l IH]; intros c Hi; [done|]. apply IH. by apply control_step_inv. Qed.


(** An answer to a question that was answered is accepted, and kept for a question that is
    not asked again. *)
Theorem second_answer_accepted :
  let yes := submission_system AvYes in
  let no := submission_system AvNo in
  let c := control_run [ActAsk "q"; ActSubmit "q" yes; ActSend 0] control_new in
  ct_calls c = [("q", Received yes)] /\ (submit "q" no c).1 = Some (Ok tt) /\ ct_queued (submit "q" no c).2 = {["q" := no]}.
Proof. vm_compute. split_and!; reflexivity. Qed.
