(* ===== verification/ParallelRuns.v ===== *)
(** * The tasks of a parallel node (fabro-workflow/src/handler/parallel.rs)

    Every branch is a task of its own: it waits for one of [max_parallel] slots, takes an
    execution identity, announces itself, and makes attempts, giving its slot back between
    them.  The node collects the results in the order of its branches.

    [fanout_step] is one step of one task (from one suspension to the next) or of the
    collecting loop, so a list of actions is an interleaving.  What an attempt answers and
    how it leaves the branch's context, the jitter of its backoff, the clock and the moment
    the run is cancelled come with the actions: the theorems hold for every handler and
    scheduler.  A task may also be lost, which the collecting loop handles. *)

From S2P Require Import Prelude RustStr RustNum DecText Backoff GraphTypes Context Outcome Core Blobs Artifact Failure Lint StageIds EventScan Events Retry Workflow.
From S2P Require Import Timing Billing Projection StageExec Fidelity CircuitBreaker Hooks EventLife Lifecycle Interviews Parallel.
From coqutil Require Import Datatypes.RecordSetters.
Import OCamlLikeNotations.
Local Open Scope string_scope.
Local Open Scope list_scope.
Local Open Scope Z_scope.

#[export] Instance ParallelBranchId_eq_dec : EqDecision ParallelBranchId.
Proof. solve_decision. Defined.

(** ** Branches *)

Abbreviation BranchOut := (BranchResult Usage).

(** How a task ended: [BrCancelled] is the engine's error of that name. *)
Inductive TaskEnd := TaskResult (r : BranchOut) | TaskCancelled | TaskError (message : string).

Inductive Phase := PhQueued | PhRunning (attempt : Z) | PhBackoff (attempt : Z) | PhWaiting (attempt : Z) | PhDone (e : TaskEnd).

Record Branch := mkBranch {
  bx_work : BranchWorkItem;
  bx_preamble : option ParallelBranchPreamble;
  bx_phase : Phase;
  bx_scope : option StageScope;
  bx_context : Context
}.

(** The shared state: the log and the tracker of executions in [fo_life], the free slots, and
    the collecting loop's results. *)
Record Fanout (H : Type) := mkFanout {
  fo_life : LifeState H;
  fo_slots : nat;
  fo_cancel_requested : bool;
  fo_branches : list Branch;
  fo_collected : list BranchOut;
  fo_cancelled : bool
}.
Arguments mkFanout {H}.
Arguments fo_life {H}.
Arguments fo_slots {H}.
Arguments fo_cancel_requested {H}.
Arguments fo_branches {H}.
Arguments fo_collected {H}.
Arguments fo_cancelled {H}.

Section tasks.
Context {H : Type} `{!EventClock H} `{!RegexReplace} `{!JsonPretty} `{!FixedDisplay} (cfg : EventConfig).
Context (g : Graph) (group : StageId) (graph_visit : Z) (parent : Context) (draws : nat -> list string).
Implicit Types (b : Branch) (s : Fanout H) (w : LifeState H).

Definition branch_id b : ParallelBranchId := mkBranchId group (default u32_max (in_bounds 0 u32_max (Z.of_nat (bw_index (bx_work b))))).

Definition set_phase (p : Phase) b : Branch := mkBranch (bx_work b) (bx_preamble b) p (bx_scope b) (bx_context b).

Definition failed_branch b (reason : string) : BranchOut := failed_branch_result (bw_target_id (bx_work b)) (bw_index (bx_work b)) (bw_item_label (bx_work b)) reason.

Definition emit_branch_completed b (scope : StageScope) (duration_ms : Z) (st : StageOutcome) w : LifeState H :=
  emit_scoped cfg (ParallelBranchCompleted group (branch_id b) (sco_node_id scope) (Z.of_nat (bw_index (bx_work b))) (bw_item_label (bx_work b)) duration_ms st) scope w.

Definition emit_branch_retrying (scope : StageScope) (n : Node) (attempt max_attempts : Z) (delay : Duration) w : LifeState H :=
  emit_scoped cfg (StageRetrying (node_id n) (node_label n) (sco_visit scope) attempt max_attempts (millis_u64 delay)) scope w.

(** The context of a branch: the parent's, with what tells it apart. *)
Definition branch_context b (ordinal : Z) : Context :=
  let c := ctx_set INTERNAL_PARALLEL_GROUP_ID (JString (stage_id_to_string group)) parent in
  let c := ctx_set INTERNAL_PARALLEL_BRANCH_ID (JString (branch_id_to_string (branch_id b))) c in
  let c := match bx_preamble b with
           | Some p => ctx_set INTERNAL_FIDELITY (JString (Fidelity_to_string (pp_fidelity p))) (ctx_set CURRENT_PREAMBLE (JString (pp_preamble p)) c)
           | None => c
           end in
  ctx_set INTERNAL_STAGE_EXECUTION_ORDINAL (JNum (PosInt ordinal)) (ctx_set CURRENT_NODE (JString (bw_target_id (bx_work b))) c).

(** With its first slot a branch becomes visible. *)
Definition start_branch b w : Branch * LifeState H :=
  let target := bw_target_id (bx_work b) in
  let '(execution, tracker) := reserve_detached (lf_tracker w) target graph_visit in
  let ordinal := sid_visit (ex_stage_id execution) in
  let scope := scope_for_parallel_branch target ordinal group (branch_id b) in
  let w := emit_scoped cfg
    (ParallelBranchStarted group (branch_id b) target (Z.of_nat (bw_index (bx_work b))) (bw_item_label (bx_work b)) (Some (ex_graph_visit execution)) None)
    scope (put_tracker tracker w) in
  (mkBranch (bx_work b) (bx_preamble b) (PhRunning 1) (Some scope) (branch_context b ordinal), w).

(** What an attempt's answer leads to. *)
Inductive Verdict := VFinish (o : Outcome Usage) | VRetry | VCancelled.

Definition attempt_verdict (n : Node) (can_retry : bool) (answer : result (Outcome Usage) CoreError) : Verdict :=
  match answer with
  | Ok o =>
      if retry_requested (status o) then if can_retry then VRetry else VFinish (finalize_retries_exhausted n o) else VFinish o
  | Err Cancelled => VCancelled
  | Err e =>
      if (can_retry && is_retryable e)%bool then VRetry
      else match e with HandlerError _ => VFinish (to_fail_outcome e) | _ => VFinish (fail_classify (CoreError_to_string e)) end
  end.

(** The end of a branch that has an outcome. *)
Definition finish_branch b (n : Node) (o : Outcome Usage) (duration_ms : Z) w : Branch * LifeState H :=
  let o := (apply_on_failure (resolve_on_failure g n) o).1 in
  let r := mkBranchResult (bw_target_id (bx_work b)) (Some (Z.of_nat (bw_index (bx_work b)))) (bw_item_label (bx_work b)) (status o)
             (branch_context_updates parent (bx_context b) (context_updates o)) in
  (set_phase (PhDone (TaskResult (mkBranchOut r o))) b,
   match bx_scope b with Some scope => emit_branch_completed b scope duration_ms (status o) w | None => w end).

(** A panic is caught and is a failed result. *)
Definition panicked_branch b (message : string) (duration_ms : Z) w : Branch * LifeState H :=
  let r := failed_branch b ("handler panicked: " +:+ message) in
  (set_phase (PhDone (TaskResult r)) b,
   match bx_scope b with Some scope => emit_branch_completed b scope duration_ms (status (bo_outcome r)) w | None => w end).

Definition MUL_F64_PANIC : string := "cannot convert float seconds to Duration: value is either too big or NaN".

(** After an attempt, with the slot already given back. *)
Definition after_attempt b (n : Node) (attempt : Z) (answer : result (Outcome Usage) CoreError) (c : Context) (jitter : f64) (duration_ms : Z) w
    : Branch * LifeState H :=
  let b := mkBranch (bx_work b) (bx_preamble b) (bx_phase b) (bx_scope b) c in
  let policy := build_retry_policy n g in
  match attempt_verdict n (attempt <? policy_max_attempts policy) answer with
  | VFinish o => finish_branch b n o duration_ms w
  | VCancelled => (set_phase (PhDone TaskCancelled) b, w)
  | VRetry =>
      match (delay_for_attempt (fun _ => (jitter, tt)) (backoff policy) attempt tt).1 with
      | None => panicked_branch b MUL_F64_PANIC duration_ms w
      | Some delay =>
          (set_phase (PhBackoff attempt) b,
           match bx_scope b with Some scope => emit_branch_retrying scope n attempt (policy_max_attempts policy) delay w | None => w end)
      end
  end.

(** ** Steps *)

Inductive FanoutAction :=
| FaTurn (i : nat)
| FaAttempt (i : nat) (answer : result (Outcome Usage) CoreError) (c : Context) (jitter : f64) (duration_ms : Z)
| FaCancel
| FaLost (i : nat) (message : string)
| FaCollect.

(** The node a branch runs, with its item in the prompt; [None] while no tag for the fence was
    found. *)
Definition target_of b (n : Node) : option Node := target_node_for_item (draws (bw_index (bx_work b))) n (bw_item (bx_work b)).

Definition put_branch (i : nat) b w (slots : nat) s : Fanout H :=
  mkFanout w slots (fo_cancel_requested s) (<[i := b]> (fo_branches s)) (fo_collected s) (fo_cancelled s).

(** A turn of a branch that waits: for a slot, or for the end of its backoff. *)
Definition branch_turn (i : nat) b s : Fanout H :=
  let cancelled := put_branch i (set_phase (PhDone TaskCancelled) b) (fo_life s) (fo_slots s) s in
  match bx_phase b with
  | PhQueued =>
      match graph_nodes g !! bw_target_id (bx_work b) with
      | None =>
          put_branch i (set_phase (PhDone (TaskResult (failed_branch b ("branch target node not found: " +:+ bw_target_id (bx_work b))))) b) (fo_life s) (fo_slots s) s
      | Some n =>
          if negb (is_some (target_of b n)) then s
          else if fo_cancel_requested s then cancelled
          else match fo_slots s with
               | O => s
               | S slots => let '(b, w) := start_branch b (fo_life s) in put_branch i b w slots s
               end
      end
  | PhBackoff attempt => if fo_cancel_requested s then cancelled else put_branch i (set_phase (PhWaiting attempt) b) (fo_life s) (fo_slots s) s
  | PhWaiting attempt =>
      if fo_cancel_requested s then cancelled
      else match fo_slots s with
           | O => s
           | S slots => put_branch i (set_phase (PhRunning (attempt + 1)) b) (fo_life s) slots s
           end
  | PhRunning _ | PhDone _ => s
  end.

(** The loop that awaits the branches in order. *)
Definition collect_branch b (e : TaskEnd) s : Fanout H :=
  let '(r, emits, cancelled) :=
    match e with
    | TaskResult r => (r, false, false)
    | TaskCancelled => (failed_branch b "branch cancelled", true, true)
    | TaskError message => (failed_branch b message, true, false)
    end in
  let w := if (emits : bool)
           then match bx_scope b with Some scope => emit_branch_completed b scope 0 (status (bo_outcome r)) (fo_life s) | None => fo_life s end
           else fo_life s in
  mkFanout w (fo_slots s) (fo_cancel_requested s) (fo_branches s) (fo_collected s ++ [r])
    (fo_cancelled s || cancelled || bool_decide (failure_category (bo_outcome r) = Some Canceled))%bool.

Definition fanout_step (a : FanoutAction) s : Fanout H :=
  match a with
  | FaTurn i => match fo_branches s !! i with Some b => branch_turn i b s | None => s end
  | FaAttempt i answer c jitter duration_ms =>
      match fo_branches s !! i with
      | Some b =>
          match bx_phase b, graph_nodes g !! bw_target_id (bx_work b) ≫= target_of b with
          | PhRunning attempt, Some n =>
              let '(b, w) := after_attempt b n attempt answer c jitter duration_ms (fo_life s) in put_branch i b w (S (fo_slots s)) s
          | _, _ => s
          end
      | None => s
      end
  | FaCancel => mkFanout (fo_life s) (fo_slots s) true (fo_branches s) (fo_collected s) (fo_cancelled s)
  | FaLost i message =>
      match fo_branches s !! i with
      | Some b =>
          match bx_phase b with
          | PhDone _ => s
          | PhRunning _ => put_branch i (set_phase (PhDone (TaskError message)) b) (fo_life s) (S (fo_slots s)) s
          | _ => put_branch i (set_phase (PhDone (TaskError message)) b) (fo_life s) (fo_slots s) s
          end
      | None => s
      end
  | FaCollect =>
      match fo_branches s !! length (fo_collected s) with
      | Some b => match bx_phase b with PhDone e => collect_branch b e s | _ => s end
      | None => s
      end
  end.

Definition fanout_run (l : list FanoutAction) s : Fanout H := foldl (fun s a => fanout_step a s) s l.

Definition max_parallel_slots (n : Node) : nat :=
  let configured := default 4 (node_attrs n !! "max_parallel" ≫= as_i64) in
  Nat.max 1 (if configured <? 0 then 4%nat else Z.to_nat configured).

Definition fanout_start (slots : nat) (work : list BranchWorkItem) (preambles : option (list (option ParallelBranchPreamble))) (cancel : bool) w : Fanout H :=
  mkFanout w slots cancel
    ((fun item => mkBranch item (preambles ≫= (fun l => mjoin (l !! bw_index item))) PhQueued None parent) <$> work) [] false.

(** ** What the log says of a branch *)

Inductive BranchMark := MStarted | MCompleted (st : StageOutcome).

Definition mark (id : ParallelBranchId) (e : RunEvent) : option BranchMark :=
  if bool_decide (ev_parallel_branch_id e = Some id)
  then match ev_body e with BParallelBranchStarted _ => Some MStarted | BParallelBranchCompleted _ st => Some (MCompleted st) | _ => None end
  else None.

Definition marks (id : ParallelBranchId) (log : list RunEvent) : list BranchMark := omap (mark id) log.

(** A branch that became visible has started, and has completed once its task has ended and,
    where the task itself did not say so, once it was collected. *)
Definition expected_marks (collected : nat) (i : nat) b : list BranchMark :=
  match bx_scope b with
  | None => []
  | Some _ =>
      match bx_phase b with
      | PhDone (TaskResult r) => [MStarted; MCompleted (status (bo_outcome r))]
      | PhDone _ => if Nat.ltb i collected then [MStarted; MCompleted (Failed false)] else [MStarted]
      | _ => [MStarted]
      end
  end.

Definition is_running b : bool := match bx_phase b with PhRunning _ => true | _ => false end.
Definition running_count (l : list Branch) : nat := length (filterb is_running l).

(** The attempts of a branch stay within its retry policy. *)
Definition attempts_ok b : Prop :=
  forall n, graph_nodes g !! bw_target_id (bx_work b) ≫= target_of b = Some n ->
  let limit := policy_max_attempts (build_retry_policy n g) in
  match bx_phase b with
  | PhRunning k => 1 <= k /\ k <= Z.max 1 limit
  | PhBackoff k | PhWaiting k => 1 <= k < limit
  | _ => True
  end.

(** A result names its branch, and has the status of the outcome it comes with. *)
Definition result_ok b (r : BranchOut) : Prop :=
  br_id (bo_result r) = bw_target_id (bx_work b) /\ br_index (bo_result r) = Some (Z.of_nat (bw_index (bx_work b)))
  /\ br_item_label (bo_result r) = bw_item_label (bx_work b) /\ br_status (bo_result r) = status (bo_outcome r).

Definition scope_ok b : Prop :=
  match bx_phase b with
  | PhQueued => bx_scope b = None
  | PhDone (TaskResult r) => result_ok b r
  | PhDone _ => True
  | _ => is_Some (bx_scope b)
  end.

(** The result that is collected of a task. *)
Definition collected_result b (r : BranchOut) : Prop :=
  match bx_phase b with
  | PhDone (TaskResult r') => r = r'
  | PhDone _ => status (bo_outcome r) = Failed false /\ result_ok b r
  | _ => False
  end.

Record fanout_inv (base : list RunEvent) (slots : nat) s : Prop := {
  fi_branch : forall i b, fo_branches s !! i = Some b -> bw_index (bx_work b) = i /\ scope_ok b /\ attempts_ok b;
  fi_slots : (running_count (fo_branches s) + fo_slots s)%nat = slots;
  fi_marks : forall i b, fo_branches s !! i = Some b ->
    marks (branch_id b) (lf_log (fo_life s)) = marks (branch_id b) base ++ expected_marks (length (fo_collected s)) i b;
  fi_small : Z.of_nat (length (fo_branches s)) <= u32_max;
  fi_collected : forall j r, fo_collected s !! j = Some r -> exists b, fo_branches s !! j = Some b /\ collected_result b r
}.

(** ** One branch at a time *)

Lemma marks_app id l l' : marks id (l ++ l') = marks id l ++ marks id l'.
Proof. apply omap_app. Qed.

Lemma branch_id_inj i j b b' : bw_index (bx_work b) = i -> bw_index (bx_work b') = j ->
  Z.of_nat i <= u32_max -> Z.of_nat j <= u32_max -> branch_id b = branch_id b' -> i = j.
Proof.
  unfold branch_id, in_bounds. intros -> -> Hi Hj. rewrite (proj2 (Z.leb_le _ _) Hi), (proj2 (Z.leb_le _ _) Hj).
  rewrite !(proj2 (Z.leb_le 0 _)) by lia. cbn. intros [=]. lia.
Qed.

Definition b2n (b : bool) : nat := if b then 1 else 0.

Lemma running_count_insert l i b b' : l !! i = Some b ->
  (running_count (<[i := b']> l) + b2n (is_running b) = running_count l + b2n (is_running b'))%nat.
Proof.
  intros Hi. rewrite insert_take_drop by (by eapply lookup_lt_Some). rewrite <- (take_drop_middle l i b Hi) at 3. unfold running_count.
  rewrite !filterb_app, !length_app, !filterb_cons. destruct (is_running b), (is_running b'); cbn [length b2n]; lia.
Qed.

(** A branch that has not ended takes a step of its own. *)
Lemma put_branch_inv base slots i b b' w' slots' evs added s :
  fanout_inv base slots s -> fo_branches s !! i = Some b -> (forall e, bx_phase b <> PhDone e) ->
  bx_work b' = bx_work b -> scope_ok b' -> attempts_ok b' ->
  (b2n (is_running b') + slots' = b2n (is_running b) + fo_slots s)%nat ->
  lf_log w' = lf_log (fo_life s) ++ evs -> (forall id, id <> branch_id b -> marks id evs = []) -> marks (branch_id b) evs = added ->
  (forall n, (n <= i)%nat -> expected_marks n i b' = expected_marks n i b ++ added) ->
  fanout_inv base slots (put_branch i b' w' slots' s).
Proof.
  intros [I1 I2 I3 I4 I5] Hi Hnd Hw Hsc Hat Hsl Hlog Hother Hown Hexp.
  assert (length (fo_collected s) <= i)%nat as Hlen.
  { destruct (le_lt_dec (length (fo_collected s)) i) as [|Hlt]; [done|]. apply lookup_lt_is_Some_2 in Hlt as [r Hr].
    destruct (I5 i r Hr) as (b0 & Hb0 & Hc). assert (b0 = b) as -> by congruence. unfold collected_result in Hc.
    destruct (bx_phase b) as [| | | |e] eqn:Hp; try done. by destruct (Hnd e). }
  assert (branch_id b' = branch_id b) as Hid by (unfold branch_id; by rewrite Hw). destruct (I1 i b Hi) as (Hix & _ & _).
  split; cbn [put_branch fo_branches fo_slots fo_life fo_collected].
  - intros j bj [(<- & -> & _)|[Hne Hj]]%list_lookup_insert_Some; [rewrite Hw; by split_and!|by apply I1].
  - pose proof (running_count_insert (fo_branches s) i b b' Hi). lia.
  - intros j bj [(<- & -> & _)|[Hne Hj]]%list_lookup_insert_Some.
    + rewrite Hid, Hlog, marks_app, (I3 i b Hi), Hown, Hexp by done. by rewrite app_assoc.
    + rewrite Hlog, marks_app, (I3 j bj Hj), Hother, app_nil_r; [done|]. intros Heq. destruct (I1 j bj Hj) as (Hjx & _ & _).
      apply Hne. symmetry. apply (branch_id_inj j i bj b); try done; apply lookup_lt_Some in Hj, Hi; lia.
  - by rewrite length_insert.
  - intros j r Hr. destruct (I5 j r Hr) as (b0 & Hb0 & Hc). exists b0. split; [|done]. rewrite list_lookup_insert_ne; [done|].
    intros <-. apply lookup_lt_Some in Hr. lia.
Qed.

(** ** Events of the tasks *)

Lemma marks_one id e bid m :
  ev_parallel_branch_id e = Some bid -> (forall id', mark id' e = if bool_decide (Some bid = Some id') then Some m else None) ->
  marks id [e] = if bool_decide (id = bid) then [m] else [].
Proof.
  intros _ Hm. unfold marks. cbn. rewrite Hm. do 2 case_bool_decide; subst; congruence.
Qed.

Lemma completed_log b scope ms st w :
  exists e, lf_log (emit_branch_completed b scope ms st w) = lf_log w ++ [e]
    /\ forall id, marks id [e] = if bool_decide (id = branch_id b) then [MCompleted st] else [].
Proof.
  eexists. split; [reflexivity|]. intros id. apply (marks_one id _ (branch_id b)); [done|]. intros id'. unfold mark. cbn. by case_bool_decide.
Qed.

Lemma retrying_log scope n k m d w :
  exists e, lf_log (emit_branch_retrying scope n k m d w) = lf_log w ++ [e] /\ forall id, marks id [e] = [].
Proof. eexists. split; [reflexivity|]. intros id. unfold marks, mark. cbn. by case_bool_decide. Qed.

Lemma started_log b w :
  let '(b', w') := start_branch b w in
  bx_work b' = bx_work b /\ bx_phase b' = PhRunning 1 /\ is_Some (bx_scope b')
  /\ exists e, lf_log w' = lf_log w ++ [e] /\ forall id, marks id [e] = if bool_decide (id = branch_id b) then [MStarted] else [].
Proof.
  unfold start_branch. destruct (reserve_detached _ _ _) as [ex t]. split_and!; try done. eexists. split; [reflexivity|].
  intros id. apply (marks_one id _ (branch_id b)); [done|]. intros id'. unfold mark. cbn. by case_bool_decide.
Qed.

(** A change of phase that says nothing. *)
Lemma quiet_phase_inv base slots i b p slots' s :
  fanout_inv base slots s -> fo_branches s !! i = Some b -> (forall e, bx_phase b <> PhDone e) ->
  scope_ok (set_phase p b) -> attempts_ok (set_phase p b) ->
  (b2n (is_running (set_phase p b)) + slots' = b2n (is_running b) + fo_slots s)%nat ->
  (bx_scope b = None \/ forall r, p <> PhDone (TaskResult r)) ->
  fanout_inv base slots (put_branch i (set_phase p b) (fo_life s) slots' s).
Proof.
  intros Hi Hb Hnd Hs Ha Hsl Hp. eapply (put_branch_inv base slots i b _ _ _ [] []); try done; [by rewrite app_nil_r|].
  intros n Hn. rewrite app_nil_r. unfold expected_marks. cbn [set_phase bx_scope bx_phase]. destruct (bx_scope b) as [sc|]; [|done]. destruct Hp as [|Hp]; [done|].
  assert (i <? n = false)%nat as Hin by (by apply Nat.ltb_ge).
  destruct p as [| | | |[r| |]]; [..|by destruct (Hp r)| |]; rewrite ?Hin; destruct (bx_phase b) as [| | | |e]; try done; by destruct (Hnd e).
Qed.

Lemma turn_inv base slots i b s : fanout_inv base slots s -> fo_branches s !! i = Some b -> fanout_inv base slots (branch_turn i b s).
Proof.
  intros Hi Hb. destruct (fi_branch _ _ _ Hi i b Hb) as (_ & Hsc & Hat). unfold branch_turn.
  destruct (bx_phase b) as [|k|k|k|e] eqn:Hp; try done.
  - assert (forall e, bx_phase b <> PhDone e) as Hnd by (by rewrite Hp). unfold scope_ok in Hsc. rewrite Hp in Hsc.
    destruct (graph_nodes g !! bw_target_id (bx_work b)) as [n|] eqn:Hn.
    2: { apply quiet_phase_inv; try done; [unfold is_running; rewrite Hp; done|by left]. }
    destruct (target_of b n) as [n'|] eqn:Ht; [cbn [negb is_some]|done].
    destruct (fo_cancel_requested s); [apply quiet_phase_inv; try done; [unfold is_running; rewrite Hp; done|by left]|].
    destruct (fo_slots s) as [|k] eqn:Hk; [done|]. pose proof (started_log b (fo_life s)) as Hstart.
    destruct (start_branch b (fo_life s)) as [b' w']. destruct Hstart as (Hw & Hp' & Hs' & e & Hl & Hm).
    eapply (put_branch_inv base slots i b b' w' k [e] [MStarted]); try done.
    + unfold scope_ok. by rewrite Hp'.
    + intros n0 _. cbv zeta. rewrite Hp'. lia.
    + unfold is_running. rewrite Hp, Hp'. cbn. lia.
    + intros id Hne. rewrite Hm. by rewrite bool_decide_false.
    + rewrite Hm. by rewrite bool_decide_true.
    + intros m Hm0. unfold expected_marks. rewrite Hp', Hsc. by destruct Hs' as [sc ->].
  - assert (forall e, bx_phase b <> PhDone e) as Hnd by (by rewrite Hp). unfold scope_ok in Hsc. rewrite Hp in Hsc.
    destruct (fo_cancel_requested s); apply quiet_phase_inv; try done; try (unfold is_running; rewrite Hp; done); try (by right).
    intros n Hn. specialize (Hat n Hn). cbv zeta in *. by rewrite Hp in Hat.
  - assert (forall e, bx_phase b <> PhDone e) as Hnd by (by rewrite Hp). unfold scope_ok in Hsc. rewrite Hp in Hsc.
    destruct (fo_cancel_requested s); [apply quiet_phase_inv; try done; try (unfold is_running; rewrite Hp; done); by right|].
    destruct (fo_slots s) as [|m] eqn:Hk; [done|]. apply quiet_phase_inv; try done; [|unfold is_running; rewrite Hp, Hk; cbn; lia|by right].
    intros n Hn. specialize (Hat n Hn). cbv zeta in *. rewrite Hp in Hat. cbn. lia.
Qed.

(** A running branch ends with a result and says so. *)
Lemma result_inv base slots i b c r ms st scope s :
  fanout_inv base slots s -> fo_branches s !! i = Some b -> is_running b = true -> bx_scope b = Some scope -> st = status (bo_outcome r) -> result_ok b r ->
  fanout_inv base slots (put_branch i (mkBranch (bx_work b) (bx_preamble b) (PhDone (TaskResult r)) (Some scope) c)
                           (emit_branch_completed b scope ms st (fo_life s)) (S (fo_slots s)) s).
Proof.
  intros Hi Hb Hr Hs -> Hok. destruct (completed_log b scope ms (status (bo_outcome r)) (fo_life s)) as (e & Hl & Hm).
  assert (forall e, bx_phase b <> PhDone e) as Hnd by (intros x Hx; unfold is_running in Hr; by rewrite Hx in Hr).
  eapply (put_branch_inv base slots i b _ _ _ [e] [MCompleted (status (bo_outcome r))]); try done.
  - rewrite Hr. cbn. lia.
  - intros id Hne. rewrite Hm. by rewrite bool_decide_false.
  - rewrite Hm. by rewrite bool_decide_true.
  - intros n Hn. unfold expected_marks. cbn [bx_scope bx_phase]. rewrite Hs. unfold is_running in Hr. by destruct (bx_phase b).
Qed.

Lemma attempt_inv base slots i b n k answer c jitter ms s :
  fanout_inv base slots s -> fo_branches s !! i = Some b -> bx_phase b = PhRunning k ->
  graph_nodes g !! bw_target_id (bx_work b) ≫= target_of b = Some n ->
  let '(b', w') := after_attempt b n k answer c jitter ms (fo_life s) in fanout_inv base slots (put_branch i b' w' (S (fo_slots s)) s).
Proof.
  intros Hi Hb Hp Hn. destruct (fi_branch _ _ _ Hi i b Hb) as (_ & Hsc & Hat). unfold scope_ok in Hsc. rewrite Hp in Hsc. destruct Hsc as [scope Hscope].
  specialize (Hat n Hn). cbv zeta in Hat. rewrite Hp in Hat. assert (is_running b = true) as Hr by (unfold is_running; by rewrite Hp).
  assert (forall e, bx_phase b <> PhDone e) as Hnd by (by rewrite Hp).
  unfold after_attempt. set (policy := build_retry_policy n g) in *. destruct (attempt_verdict n (k <? policy_max_attempts policy) answer) as [o| |] eqn:Hv.
  - unfold finish_branch, set_phase. cbn [bx_work bx_preamble bx_scope bx_context]. rewrite Hscope.
    refine (result_inv base slots i b c _ ms _ scope s Hi Hb Hr Hscope eq_refl _). by split_and!.
  - assert (k < policy_max_attempts policy) as Hk.
    { destruct (Z.ltb_spec k (policy_max_attempts policy)); [done|]. unfold attempt_verdict in Hv. destruct answer as [o|e]; [by destruct (retry_requested (status o))|].
      destruct e; done. }
    destruct (delay_for_attempt _ _ _ _).1 as [delay|].
    + unfold set_phase. cbn [bx_work bx_preamble bx_scope bx_context]. rewrite Hscope.
      destruct (retrying_log scope n k (policy_max_attempts policy) delay (fo_life s)) as (e & Hl & Hm).
      eapply (put_branch_inv base slots i b _ _ _ [e] []); try done.
      * by eexists.
      * intros n0 Hn0. assert (n0 = n) as -> by (cbn in Hn0; unfold target_of in *; cbn in Hn0; congruence). cbn. fold policy. lia.
      * rewrite Hr. cbn. lia.
      * intros m Hm0. unfold expected_marks. cbn [bx_scope bx_phase]. by rewrite Hscope, Hp.
    + unfold panicked_branch, set_phase. cbn [bx_work bx_preamble bx_scope bx_context]. rewrite Hscope.
      refine (result_inv base slots i b c _ ms _ scope s Hi Hb Hr Hscope eq_refl _). by split_and!.
  - unfold set_phase. cbn [bx_work bx_preamble bx_scope bx_context].
    eapply (put_branch_inv base slots i b _ _ _ [] []); try done; [rewrite Hr; cbn; lia|by rewrite app_nil_r|].
    intros m Hm. unfold expected_marks. cbn [bx_scope bx_phase]. rewrite Hscope, Hp, app_nil_r. by rewrite (proj2 (Nat.ltb_ge i m) Hm).
Qed.

Lemma expected_later n i b : i <> n -> expected_marks (S n) i b = expected_marks n i b.
Proof.
  intros Hne. unfold expected_marks. destruct (bx_scope b); [|done]. destruct (bx_phase b) as [| | | |[| |]]; try done.
  all: destruct (Nat.ltb_spec i (S n)), (Nat.ltb_spec i n); (done || lia).
Qed.

(** Collecting a task: it says that the branch completed where the task did not. *)
Lemma collect_inv base slots b e s :
  fanout_inv base slots s -> fo_branches s !! length (fo_collected s) = Some b -> bx_phase b = PhDone e -> fanout_inv base slots (collect_branch b e s).
Proof.
  intros [I1 I2 I3 I4 I5] Hb Hp. set (j := length (fo_collected s)) in *.
  assert (exists r w c, collect_branch b e s = mkFanout w (fo_slots s) (fo_cancel_requested s) (fo_branches s) (fo_collected s ++ [r]) c
    /\ collected_result b r /\ exists evs, lf_log w = lf_log (fo_life s) ++ evs /\ (forall id, id <> branch_id b -> marks id evs = [])
    /\ expected_marks (S j) j b = expected_marks j j b ++ marks (branch_id b) evs) as (r & w & c & -> & Hr & evs & Hl & Hother & Hown).
  { unfold collect_branch, collected_result, expected_marks. rewrite Hp. rewrite (proj2 (Nat.ltb_lt j (S j)) (Nat.lt_succ_diag_r j)), Nat.ltb_irrefl.
    destruct e as [r| |message].
    - eexists r, _, _. split; [reflexivity|]. split; [done|]. exists []. rewrite !app_nil_r. split_and!; try done; by destruct (bx_scope b).
    - eexists _, _, _. split; [reflexivity|]. split; [done|]. destruct (bx_scope b) as [scope|]; [|exists []; rewrite !app_nil_r; by split_and!].
      destruct (completed_log b scope 0 (Failed false) (fo_life s)) as (x & Hl & Hm). exists [x]. split; [exact Hl|].
      split; [intros id Hne; by rewrite Hm, bool_decide_false|]. by rewrite Hm, bool_decide_true.
    - eexists _, _, _. split; [reflexivity|]. split; [done|]. destruct (bx_scope b) as [scope|]; [|exists []; rewrite !app_nil_r; by split_and!].
      destruct (completed_log b scope 0 (Failed false) (fo_life s)) as (x & Hl & Hm). exists [x]. split; [exact Hl|].
      split; [intros id Hne; by rewrite Hm, bool_decide_false|]. by rewrite Hm, bool_decide_true. }
  split; cbn [fo_branches fo_slots fo_life fo_collected]; try done.
  - intros i bi Hi. rewrite Hl, marks_app, (I3 i bi Hi), length_app, Nat.add_1_r. fold j. destruct (decide (i = j)) as [->|Hne].
    + assert (bi = b) as -> by congruence. rewrite Hown. by rewrite app_assoc.
    + rewrite expected_later by done. rewrite Hother, app_nil_r; [done|]. intros Heq. apply Hne.
      destruct (I1 i bi Hi) as (Hix & _ & _), (I1 j b Hb) as (Hjx & _ & _).
      apply (branch_id_inj i j bi b); try done; apply lookup_lt_Some in Hi, Hb; lia.
  - intros i x [Hx|[Hi Hx]]%lookup_app_Some; [by apply I5|]. apply list_lookup_singleton_Some in Hx as [Hz ->].
    exists b. split; [|done]. by replace i with j by lia.
Qed.

Lemma fanout_step_inv base slots a s : fanout_inv base slots s -> fanout_inv base slots (fanout_step a s).
Proof.
  intros Hi. destruct a as [i|i answer c jitter ms| |i message|]; cbn [fanout_step].
  - destruct (fo_branches s !! i) as [b|] eqn:Hb; [by apply turn_inv|done].
  - destruct (fo_branches s !! i) as [b|] eqn:Hb; [|done]. destruct (bx_phase b) as [|k| | |] eqn:Hp; try done.
    destruct (graph_nodes g !! bw_target_id (bx_work b) ≫= target_of b) as [n|] eqn:Hn; [|done].
    pose proof (attempt_inv base slots i b n k answer c jitter ms s Hi Hb Hp Hn) as Ha. by destruct (after_attempt _ _ _ _ _ _ _ _).
  - by destruct Hi.
  - destruct (fo_branches s !! i) as [b|] eqn:Hb; [|done]. destruct (bx_phase b) as [|k|k|k|e] eqn:Hp; try done;
      (apply quiet_phase_inv; try done; [by rewrite Hp|unfold is_running; rewrite Hp; cbn; lia|by right]).
  - destruct (fo_branches s !! length (fo_collected s)) as [b|] eqn:Hb; [|done]. destruct (bx_phase b) eqn:Hp; try done. by apply collect_inv.
Qed.

Lemma fanout_run_inv base slots l s : fanout_inv base slots s -> fanout_inv base slots (fanout_run l s).
Proof. revert s. induction l as [|a l IH]; intros s Hi; [done|]. apply IH. by apply fanout_step_inv. Qed.

Lemma fanout_start_inv slots work preambles cancel w :
  (forall i item, work !! i = Some item -> bw_index item = i) -> Z.of_nat (length work) <= u32_max ->
  fanout_inv (lf_log w) slots (fanout_start slots work preambles cancel w).
Proof.
  intros Hix Hlen. split; cbn [fanout_start fo_branches fo_slots fo_life fo_collected].
  - intros i b Hb. rewrite list_lookup_fmap in Hb. destruct (work !! i) as [item|] eqn:Hi; [|done]. injection Hb as <-. by split_and!; [apply Hix|..].
  - assert (running_count ((fun item => mkBranch item (preambles ≫= (fun l => mjoin (l !! bw_index item))) PhQueued None parent) <$> work) = 0%nat) as ->; [|done].
    clear. induction work as [|item work IH]; [done|]. exact IH.
  - intros i b Hb. rewrite list_lookup_fmap in Hb. destruct (work !! i) as [item|]; [|done]. injection Hb as <-. by rewrite app_nil_r.
  - by rewrite length_fmap.
  - done.
Qed.

(** C19: a fan-out stays within its slots and its retries.  In every interleaving at most
    [max_parallel] branches make an attempt at a time, all slots are free when none does (so a
    branch that waits can go on), and no branch makes more attempts than its retry policy
    allows. *)
Theorem parallel_slots_bounded slots work preambles cancel w l :
  (forall i item, work !! i = Some item -> bw_index item = i) -> Z.of_nat (length work) <= u32_max ->
  let s := fanout_run l (fanout_start slots work preambles cancel w) in
  (running_count (fo_branches s) <= slots)%nat
  /\ (running_count (fo_branches s) = 0%nat -> fo_slots s = slots)
  /\ forall i b n k, fo_branches s !! i = Some b -> bx_phase b = PhRunning k ->
       graph_nodes g !! bw_target_id (bx_work b) ≫= target_of b = Some n ->
       1 <= k <= Z.max 1 (policy_max_attempts (build_retry_policy n g)).
Proof.
  intros Hix Hlen s. assert (fanout_inv (lf_log w) slots s) as [I1 I2 _ _ _] by (by apply fanout_run_inv, fanout_start_inv).
  split; [lia|]. split; [lia|]. intros i b n k Hb Hp Hn. destruct (I1 i b Hb) as (_ & _ & Ha). specialize (Ha n Hn). cbv zeta in Ha. by rewrite Hp in Ha.
Qed.

(** C18: every branch of a fan-out is accounted for.  However the branches run, retry, fail, are
    cancelled or get lost, once the node has collected them the log has, for every branch
    that became visible, one start followed by one completion with the status of its
    result, and nothing for a branch that did not; and the results are in the order of the
    branches, each with its branch's target, index and label. *)
Theorem parallel_branches_paired slots work preambles cancel w l :
  (forall i item, work !! i = Some item -> bw_index item = i) -> Z.of_nat (length work) <= u32_max ->
  let s := fanout_run l (fanout_start slots work preambles cancel w) in
  length (fo_collected s) = length (fo_branches s) ->
  forall i b, fo_branches s !! i = Some b ->
    exists r, fo_collected s !! i = Some r /\ result_ok b r
      /\ marks (branch_id b) (lf_log (fo_life s))
         = marks (branch_id b) (lf_log w) ++ (if bx_scope b then [MStarted; MCompleted (status (bo_outcome r))] else []).
Proof.
  intros Hix Hlen s Hall i b Hb. assert (fanout_inv (lf_log w) slots s) as [I1 _ I3 _ I5] by (by apply fanout_run_inv, fanout_start_inv).
  assert (i < length (fo_collected s))%nat as Hi by (rewrite Hall; by eapply lookup_lt_Some).
  destruct (lookup_lt_is_Some_2 _ _ Hi) as [r Hr]. destruct (I5 i r Hr) as (b' & Hb' & Hc). assert (b' = b) as -> by congruence.
  exists r. split; [done|]. destruct (I1 i b Hb) as (_ & Hs & _). rewrite (I3 i b Hb). unfold expected_marks, collected_result, scope_ok in *.
  destruct (bx_phase b) as [| | | |[r'| |]]; try done; [subst r'|destruct Hc as [-> Hok]..].
  - split; [done|]. by destruct (bx_scope b).
  - split; [done|]. rewrite (proj2 (Nat.ltb_lt _ _) Hi). by destruct (bx_scope b).
  - split; [done|]. rewrite (proj2 (Nat.ltb_lt _ _) Hi). by destruct (bx_scope b).
Qed.
End tasks.

(** The plans number their branches. *)
Lemma static_plan_indexed edges i item : bp_work_items (static_plan edges) !! i = Some item -> bw_index item = i.
Proof. cbn. rewrite list_lookup_imap. destruct (edges !! i); cbn; [|done]. by intros [= <-]. Qed.

Lemma for_each_plan_indexed `{AnsiStrip} target shown items i item : bp_work_items (for_each_plan target shown items) !! i = Some item -> bw_index item = i.
Proof. cbn. rewrite list_lookup_imap. destruct (zip _ _ !! i); cbn; [|done]. by intros [= <-]. Qed.

(** ** The node around its branches *)

Definition PARALLEL_BRANCH_COUNT : string := "parallel.branch_count".

Definition branch_result_value (r : ParallelBranchResult) : Value :=
  JObject ([("id", JString (br_id r))]
           ++ match br_index r with Some i => [("index", JNum (PosInt i))] | None => [] end
           ++ match br_item_label r with Some l => [("item_label", JString l)] | None => [] end
           ++ [("status", JString (StageOutcome_to_string (br_status r))); ("context_updates", JObject (br_context_updates r))]).

Section node.
Context {H : Type} `{!EventClock H} `{!RegexReplace} `{BlobHashes} `{JsonCodec} `{!ArtifactHost H} `{HashOrder} (cfg : EventConfig).
Context (parsed_run_id : Context -> result RunId WorkflowError) (run_parallel_hook : HookEvent -> RunId -> Graph -> Node -> LifeState H -> LifeState H).
Implicit Types (w : LifeState H) (s : Fanout H).

Definition emit_parallel_hook (event : HookEvent) (n : Node) (c : Context) (g : Graph) w : result unit WorkflowError * LifeState H :=
  match parsed_run_id c with
  | Err e => (Err e, w)
  | Ok run_id => (Ok tt, run_parallel_hook event run_id g n w)
  end.

Definition group_of (n : Node) (c : Context) : StageId := mkStageId (node_id n) (sco_visit (scope_for_handler c (node_id n))).

(** Up to the tasks: what is announced, the tasks' parameters and the context they start
    from, without the stash of preambles. *)
Definition begin_branches (n : Node) (c : Context) (g : Graph) (plan : BranchPlan) (cancel : bool) w
    : result (Fanout H) WorkflowError * Context * LifeState H :=
  let scope := scope_for_handler c (node_id n) in
  let count := length (bp_work_items plan) in
  let w := emit_scoped cfg (ParallelStarted (node_id n) (sco_visit scope) (Z.of_nat count)) scope w in
  match emit_parallel_hook EvParallelStart n c g w with
  | (Err e, w) => (Err e, c, w)
  | (Ok _, w) =>
      let preambles := parse_branch_preambles (ctx_get c INTERNAL_PARALLEL_BRANCH_PREAMBLES) count (is_for_each plan) in
      let c := ctx_set INTERNAL_PARALLEL_BRANCH_PREAMBLES JNull c in
      (Ok (fanout_start c (max_parallel_slots n) (bp_work_items plan) preambles cancel w), c, w)
  end.

Definition join_of (plan : BranchPlan) (results : list BranchOut) (g : Graph) : option string :=
  match bp_template_target_id plan with
  | Some target => find_join_node [target] g
  | None => find_join_node ((fun r => br_id (bo_result r)) <$> results) g
  end.

Definition count_where {A} (f : A -> bool) (l : list A) : Z := Z.of_nat (length (filterb f l)).

(** After the last branch is collected. *)
Definition end_branches (n : Node) (c : Context) (g : Graph) (plan : BranchPlan) (simulated read_only : bool) (duration_ms : Z) s
    : result (Outcome Usage) WorkflowError * LifeState H :=
  if fo_cancelled s then (Err WfCancelled, fo_life s)
  else
    let w := fo_life s in
    let results := fo_collected s in
    let success_count := count_where succeeded results in
    let failure_count := count_where branch_failed results in
    let st := aggregate_status results (is_for_each plan) in
    let scope := scope_for_handler c (node_id n) in
    let '(offloaded, typed, host) := offload_parallel_branch_updates read_only (bo_result <$> results) (lf_host w) in
    let w := put_life_host host w in
    let w := match offloaded with
             | Err e => notice cfg "artifact_offload_failed" ("[node: " +:+ node_id n +:+ "] parallel result offload failed: " +:+ artifact_error_to_string e) w
             | Ok _ => w
             end in
    let results_value := JArray (branch_result_value <$> typed) in
    let w := emit_scoped cfg (ParallelCompleted (node_id n) (sco_visit scope) duration_ms success_count failure_count results_value) scope w in
    match emit_parallel_hook EvParallelComplete n c g w with
    | (Err e, w) => (Err e, w)
    | (Ok _, w) =>
        let summary := (if simulated then "[Simulated] " else "") +:+ "Parallel node dispatched " +:+ nat_to_string (length results) +:+ " branches ("
                       +:+ Z_to_string success_count +:+ " succeeded, " +:+ Z_to_string failure_count +:+ " failed)" in
        (Ok (mkOutcome st None [] (<[PARALLEL_BRANCH_COUNT := JNum (PosInt (Z.of_nat (length results)))]> {[PARALLEL_RESULTS := results_value]})
               (if is_failure st then None else join_of plan results g) (Some summary)
               (if is_failure st then Some (FailureDetail_new "All parallel branches failed" Deterministic) else None) None [] None), w)
    end.

Lemma join_along_edge branches g t : find_join_node branches g = Some t -> exists e, e ∈ graph_edges g /\ edge_to e = t.
Proof.
  intros Hj. pose proof (join_node_least branches g) as Hl. rewrite Hj in Hl. destruct Hl as [Hall _].
  destruct branches as [|b branches]; [done|]. specialize (Hall b ltac:(left)). apply has_edge_to_spec, list_elem_of_fmap in Hall as (e & -> & He).
  exists e. split; [|done]. by apply outgoing_edges_elem in He as [He _].
Qed.

(** Where a parallel node jumps to, an edge of the graph leads: the hypothesis on handlers of
    [Navigation.validated_run_stays_inside]. *)
Theorem parallel_jumps_along_edge n c g plan simulated read_only duration_ms s o w t :
  end_branches n c g plan simulated read_only duration_ms s = (Ok o, w) -> jump_to_node o = Some t ->
  exists e, e ∈ graph_edges g /\ edge_to e = t.
Proof.
  unfold end_branches. destruct (fo_cancelled s); [done|]. cbv zeta. destruct (offload_parallel_branch_updates _ _ _) as [[offloaded typed] host].
  destruct (emit_parallel_hook _ _ _ _ _) as [[[]|e] w']; [|done]. intros [= <- _]. cbn [jump_to_node].
  destruct (is_failure _); [done|]. unfold join_of. destruct (bp_template_target_id plan); apply join_along_edge.
Qed.
End node.

(** ** A fan-out of two branches *)

Module FanoutRuns.

#[local] Instance fan_clock : EventClock Z := fun _ => 0.
#[local] Instance fan_text : RegexReplace := fun _ s _ => s.
#[local] Instance fan_pretty : JsonPretty := fun _ => "{}".
#[local] Instance fan_fixed : FixedDisplay := fun _ => "0.0".

Definition fan_graph : Graph :=
  mkGraph "g" (list_to_map [("fork", mkNode "fork" ∅ []); ("a", mkNode "a" ∅ []); ("b", mkNode "b" ∅ [])])
    [mkEdge "fork" "a" ∅; mkEdge "fork" "b" ∅] ∅.
Definition fan_plan : BranchPlan := static_plan (graph_edges fan_graph).
Definition fan_group : StageId := mkStageId "fork" 1.

(** One slot: branch [a] runs and succeeds; [b] starts, and the run is cancelled under it. *)
Definition fan_schedule : list FanoutAction :=
  [FaTurn 0; FaTurn 1; FaAttempt 0 (Ok outcome_success) context_new f64_zero 5; FaTurn 1; FaCancel;
   FaAttempt 1 (Err Cancelled) context_new f64_zero 9; FaCollect; FaCollect].
Definition fan_end : Fanout Z :=
  fanout_run sample_events fan_graph fan_group 1 context_new (fun _ => ["x"]) fan_schedule
    (fanout_start context_new 1 (bp_work_items fan_plan) None false (iv_life quiet_world)).

Lemma fan_end_eq :
  fan_end = fanout_run sample_events fan_graph fan_group 1 context_new (fun _ => ["x"]) fan_schedule
    (fanout_start context_new 1 (bp_work_items fan_plan) None false (iv_life quiet_world)).
Proof. unfold fan_end. reflexivity. Qed.

Lemma parallel_slots_bounded_witness :
  (running_count (fo_branches fan_end) <= 1)%nat /\ fo_slots fan_end = 1%nat.
Proof.
  pose proof (parallel_slots_bounded sample_events fan_graph fan_group 1 context_new (fun _ => ["x"]) 1 (bp_work_items fan_plan) None false
    (iv_life quiet_world) fan_schedule (static_plan_indexed _)) as H. cbv zeta in H. rewrite <- fan_end_eq in H.
  destruct (H ltac:(vm_compute; discriminate)) as (Hr & Hf & _). split; [exact Hr|]. apply Hf. vm_compute. reflexivity.
Defined.

Lemma parallel_branches_paired_witness :
  length (fo_collected fan_end) = 2%nat
  /\ forall i b, fo_branches fan_end !! i = Some b -> exists r, fo_collected fan_end !! i = Some r
       /\ marks (branch_id fan_group b) (lf_log (fo_life fan_end))
          = marks (branch_id fan_group b) [] ++ (if bx_scope b then [MStarted; MCompleted (status (bo_outcome r))] else []).
Proof.
  split; [vm_compute; reflexivity|]. intros i b Hb.
  pose proof (parallel_branches_paired sample_events fan_graph fan_group 1 context_new (fun _ => ["x"]) 1 (bp_work_items fan_plan) None false
    (iv_life quiet_world) fan_schedule (static_plan_indexed _)) as H. cbv zeta in H. rewrite <- fan_end_eq in H.
  destruct (H ltac:(vm_compute; discriminate) ltac:(vm_compute; reflexivity) i b Hb) as (r & Hr & _ & Hm).
  exists r. split; [exact Hr|exact Hm].
Defined.

(** What the log shows of the two branches. *)
Example fan_log :
  (fun i => marks (mkBranchId fan_group i) (lf_log (fo_life fan_end))) <$> [0; 1]
  = [[MStarted; MCompleted Succeeded]; [MStarted; MCompleted (Failed false)]] /\ fo_cancelled fan_end = true.
Proof. vm_compute. split; reflexivity. Qed.
End FanoutRuns.
