(* ===== verification/Patch.v ===== *)
(** * Patches (fabro-agent/src/apply_patch.rs)

    The patch language with which an agent edits files: the parser, the search for the lines
    of a hunk, the replacements, and their application to the files of a sandbox.

    White space at the ends of lines is Unicode's here, since matching depends on it. *)

From S2P Require Import Prelude RustStr.
Local Open Scope string_scope.
Local Open Scope list_scope.

(** ** Characters of a text *)

(** The characters of UTF-8 text, each as its bytes. *)
Fixpoint chars (s : string) : list string :=
  match s with
  | "" => []
  | String c s =>
      match chars s with
      | String d ch :: rest => if is_continuation d then String c (String d ch) :: rest else String c "" :: String d ch :: rest
      | rest => String c "" :: rest
      end
  end.

Definition of_chars (l : list string) : string := foldr String.append "" l.

(** [char::is_whitespace]. *)
Definition is_white (ch : string) : bool :=
  match ch with
  | String c "" => is_whitespace c
  | String a (String b "") => (in_range 194 194 a && (in_range 133 133 b || in_range 160 160 b))%bool
  | String a (String b (String c "")) =>
      ((in_range 225 225 a && in_range 154 154 b && in_range 128 128 c)
       || (in_range 226 226 a
           && ((in_range 128 128 b && (in_range 128 138 c || in_range 168 169 c || in_range 175 175 c)) || (in_range 129 129 b && in_range 159 159 c)))
       || (in_range 227 227 a && in_range 128 128 b && in_range 128 128 c))%bool
  | _ => false
  end.

Fixpoint drop_white (l : list string) : list string :=
  match l with
  | [] => []
  | ch :: l => if is_white ch then drop_white l else ch :: l
  end.

Definition utrim_start (s : string) : string := of_chars (drop_white (chars s)).
Definition utrim_end (s : string) : string := of_chars (rev (drop_white (rev (chars s)))).
Definition utrim (s : string) : string := utrim_end (utrim_start s).

(** [str::lines]: a line ends with a newline or a carriage return and a newline; a last line
    need not end. *)
Definition strip_cr (l : string) : string := default l (strip_suffix (String "013" "") l).
Fixpoint lines_of (parts : list string) : list string :=
  match parts with
  | [] => []
  | [l] => if str_is_empty l then [] else [l]
  | l :: parts => strip_cr l :: lines_of parts
  end.
Definition str_lines (s : string) : list string := lines_of (split_char ch_newline s).

(** ** The data *)

Inductive Change := Remove (l : string) | Add (l : string) | Keep (l : string).

Record Hunk := mkHunk {
  hk_context_line : string;
  hk_changes : list Change;
  hk_end_of_file : bool
}.

Inductive PatchOperation :=
| PatchAdd (path content : string)
| PatchDelete (path : string)
| PatchUpdate (path : string) (new_path : option string) (hunks : list Hunk).

(** ** Parsing *)

Definition is_hunk_start (line : string) : bool := (String.eqb line "@@" || starts_with "@@ " line)%bool.

Definition extract_context_line (line : string) : string :=
  if String.eqb line "@@" then ""
  else let raw := default line (strip_prefix "@@ " line) in utrim (default raw (strip_suffix " @@" raw)).

Definition is_marker (line : string) : bool := starts_with "*** " line.

(** The lines of an added file and what follows them. *)
Fixpoint parse_added (ls : list string) : result (list string * list string) string :=
  match ls with
  | [] => Ok ([], [])
  | l :: rest =>
      if is_marker l then Ok ([], ls)
      else match strip_prefix "+" l with
           | Some text => match parse_added rest with Ok (added, rest) => Ok (text :: added, rest) | Err e => Err e end
           | None => Err ("Expected '+' prefix in Add File block, got: " +:+ l)
           end
  end.

Definition file_of_lines (ls : list string) : string := foldr (fun l s => l +:+ nl +:+ s) "" ls.

(** Stacked context lines: the last one counts. *)
Fixpoint parse_context (context : string) (ls : list string) : string * list string :=
  match ls with
  | l :: rest => if is_hunk_start l then parse_context (extract_context_line l) rest else (context, ls)
  | [] => (context, [])
  end.

Definition parse_change (l : string) : option Change :=
  match strip_prefix "-" l, strip_prefix "+" l, strip_prefix " " l with
  | Some removed, _, _ => Some (Remove removed)
  | None, Some added, _ => Some (Add added)
  | None, None, Some kept => Some (Keep kept)
  | None, None, None => if str_is_empty l then Some (Keep "") else None
  end.

Fixpoint parse_changes (ls : list string) : result (list Change * list string) string :=
  match ls with
  | [] => Ok ([], [])
  | l :: rest =>
      if (is_marker l || is_hunk_start l)%bool then Ok ([], ls)
      else match parse_change l with
           | Some c => match parse_changes rest with Ok (cs, rest) => Ok (c :: cs, rest) | Err e => Err e end
           | None => Err ("Unexpected line in hunk (expected +, -, or space prefix): " +:+ l)
           end
  end.

(** Every step reads a line at least: the number of lines is enough fuel. *)
Fixpoint parse_hunks (fuel : nat) (ls : list string) : result (list Hunk * list string) string :=
  match fuel, ls with
  | O, _ | _, [] => Ok ([], ls)
  | S fuel, l :: rest =>
      if (is_marker l && negb (is_hunk_start l))%bool then Ok ([], ls)
      else if is_hunk_start l then
        let '(context, rest) := parse_context (extract_context_line l) rest in
        match parse_changes rest with
        | Err e => Err e
        | Ok (changes, rest) =>
            let '(end_of_file, rest) :=
              match rest with
              | l :: rest' => if String.eqb (utrim l) "*** End of File" then (true, rest') else (false, rest)
              | [] => (false, [])
              end in
            match parse_hunks fuel rest with
            | Err e => Err e
            | Ok (hunks, rest) => Ok (mkHunk context changes end_of_file :: hunks, rest)
            end
        end
      else Err ("Expected @@ context line, got: " +:+ l)
  end.

Definition parse_move (ls : list string) : option string * list string :=
  match ls with
  | l :: rest => match strip_prefix "*** Move to: " (utrim l) with Some to => (Some to, rest) | None => (None, ls) end
  | [] => (None, [])
  end.

(** One operation from its first line, and what follows it. *)
Definition parse_operation (line : string) (rest : list string) : result (PatchOperation * list string) string :=
  match strip_prefix "*** Add File: " line, strip_prefix "*** Delete File: " line, strip_prefix "*** Update File: " line with
  | Some path, _, _ =>
      match parse_added rest with
      | Err e => Err e
      | Ok ([], _) => Err ("Add file hunk for path '" +:+ path +:+ "' is empty")
      | Ok (added, rest) => Ok (PatchAdd path (file_of_lines added), rest)
      end
  | None, Some path, _ => Ok (PatchDelete path, rest)
  | None, None, Some path =>
      let '(new_path, rest) := parse_move rest in
      match parse_hunks (length rest) rest with
      | Err e => Err e
      | Ok ([], _) => Err ("Update file hunk for path '" +:+ path +:+ "' is empty")
      | Ok (hunks, rest) => Ok (PatchUpdate path new_path hunks, rest)
      end
  | None, None, None => Err ("Unexpected line in patch: " +:+ line)
  end.

Fixpoint parse_operations (fuel : nat) (ls : list string) : result (list PatchOperation) string :=
  match fuel, ls with
  | O, _ | _, [] => Ok []
  | S fuel, l :: rest =>
      let line := utrim l in
      if String.eqb line "*** End Patch" then Ok []
      else match parse_operation line rest with
           | Err e => Err e
           | Ok (op, rest) => match parse_operations fuel rest with Ok ops => Ok (op :: ops) | Err e => Err e end
           end
  end.

Definition check_patch_boundaries_strict (ls : list string) : result unit string :=
  match utrim <$> head ls, utrim <$> last ls with
  | Some f, Some l =>
      if negb (String.eqb f "*** Begin Patch") then Err "The first line of the patch must be '*** Begin Patch'"
      else if String.eqb l "*** End Patch" then Ok tt
      else Err "The last line of the patch must be '*** End Patch'"
  | _, _ => Err "The last line of the patch must be '*** End Patch'"
  end.

(** A patch may arrive inside a here-document. *)
Definition patch_lines_with_valid_boundaries (ls : list string) : result (list string) string :=
  match check_patch_boundaries_strict ls with
  | Ok _ => Ok ls
  | Err original_error =>
      match head ls, last ls with
      | Some first, Some l =>
          if ((String.eqb first "<<EOF" || String.eqb first "<<'EOF'" || String.eqb first ("<<" +:+ dq +:+ "EOF" +:+ dq))
              && ends_with "EOF" l && Nat.leb 4 (length ls))%bool
          then let inner := drop 1 (take (length ls - 1) ls) in
               match check_patch_boundaries_strict inner with Ok _ => Ok inner | Err e => Err e end
          else Err original_error
      | _, _ => Err original_error
      end
  end.

Definition parse_apply_patch (text : string) : result (list PatchOperation) string :=
  match patch_lines_with_valid_boundaries (str_lines (utrim text)) with
  | Ok ls => parse_operations (length ls) (drop 1 ls)
  | Err e => Err e
  end.

(** ** Finding the lines of a hunk *)

Definition normalize_char (ch : string) : string :=
  match ch with
  | String a (String b "") => if (in_range 194 194 a && in_range 160 160 b)%bool then " " else ch
  | String a (String b (String c "")) =>
      if (in_range 226 226 a && in_range 128 128 b && in_range 152 155 c)%bool then "'"
      else if (in_range 226 226 a && in_range 128 128 b && in_range 156 159 c)%bool then dq
      else if ((in_range 226 226 a && in_range 128 128 b && in_range 144 149 c)
               || (in_range 226 226 a && in_range 136 136 b && in_range 146 146 c))%bool then "-"
      else if ((in_range 226 226 a && in_range 128 128 b && (in_range 130 138 c || in_range 175 175 c))
               || (in_range 226 226 a && in_range 129 129 b && in_range 159 159 c)
               || (in_range 227 227 a && in_range 128 128 b && in_range 128 128 c))%bool then " "
      else ch
  | _ => ch
  end.

Definition normalize_unicode (s : string) : string := of_chars (normalize_char <$> chars (utrim s)).

(** The first place from [from] on where the lines look like the pattern through [view]. *)
Definition seek_through (view : string -> string) (ls pattern : list string) (from : nat) : option nat :=
  find_first (fun i => bool_decide (view <$> take (length pattern) (drop i ls) = view <$> pattern))
    (seq from (S (length ls - length pattern) - from)).

Definition seek_sequence (ls pattern : list string) (start : nat) (eof : bool) : option nat :=
  if Nat.eqb (length pattern) 0 then Some start
  else if Nat.ltb (length ls) (length pattern) then None
  else
    let from := if eof then (length ls - length pattern)%nat else start in
    match seek_through id ls pattern from with
    | Some i => Some i
    | None => match seek_through utrim_end ls pattern from with
              | Some i => Some i
              | None => match seek_through utrim ls pattern from with
                        | Some i => Some i
                        | None => seek_through normalize_unicode ls pattern from
                        end
              end
    end.

(** ** Replacements *)

Record Replacement := mkRepl { rp_start : nat; rp_old_len : nat; rp_new : list string }.

Fixpoint old_lines (cs : list Change) : list string :=
  match cs with
  | [] => []
  | (Remove l | Keep l) :: cs => l :: old_lines cs
  | Add _ :: cs => old_lines cs
  end.

Fixpoint new_lines (cs : list Change) : list string :=
  match cs with
  | [] => []
  | (Add l | Keep l) :: cs => l :: new_lines cs
  | Remove _ :: cs => new_lines cs
  end.

Definition ends_empty (ls : list string) : bool := is_some_and str_is_empty (last ls).
Definition but_last (ls : list string) : list string := take (length ls - 1) ls.

(** Where the old lines of a hunk are: when they are not found and the last one is empty, they
    are looked for without it. *)
Definition find_old (ls old new : list string) (from : nat) (eof : bool) : option Replacement :=
  match seek_sequence ls old from eof with
  | Some i => Some (mkRepl i (length old) new)
  | None =>
      if ends_empty old then
        let pattern := but_last old in
        (fun i => mkRepl i (length pattern) (if ends_empty new then but_last new else new)) <$> seek_sequence ls pattern from eof
      else None
  end.

Definition seek_context (ls : list string) (path : string) (h : Hunk) (line_index : nat) : result nat string :=
  if str_is_empty (hk_context_line h) then Ok line_index
  else match seek_sequence ls [hk_context_line h] line_index false with
       | Some i => Ok (S i)
       | None => Err ("Failed to find context '" +:+ hk_context_line h +:+ "' in " +:+ path)
       end.

Fixpoint collect_replacements (ls : list string) (path : string) (hunks : list Hunk) (line_index : nat) : result (list Replacement) string :=
  match hunks with
  | [] => Ok []
  | h :: hunks =>
      match seek_context ls path h line_index with
      | Err e => Err e
      | Ok line_index =>
          let old := old_lines (hk_changes h) in
          let new := new_lines (hk_changes h) in
          let found := if Nat.eqb (length old) 0 then Some (mkRepl (length ls) 0 new, line_index)
                       else (fun r => (r, (rp_start r + rp_old_len r)%nat)) <$> find_old ls old new line_index (hk_end_of_file h) in
          match found with
          | None => Err ("Failed to find expected lines in " +:+ path +:+ ":" +:+ nl +:+ str_join nl old)
          | Some (r, line_index) =>
              match collect_replacements ls path hunks line_index with Ok rs => Ok (r :: rs) | Err e => Err e end
          end
      end
  end.

(** [sort_by_key] is stable. *)
Fixpoint insert_by_start (r : Replacement) (rs : list Replacement) : list Replacement :=
  match rs with
  | [] => [r]
  | r' :: rs' => if Nat.leb (rp_start r) (rp_start r') then r :: rs else r' :: insert_by_start r rs'
  end.
Definition sort_by_start (rs : list Replacement) : list Replacement := foldr insert_by_start [] rs.

Definition compute_replacements (ls : list string) (path : string) (hunks : list Hunk) : result (list Replacement) string :=
  match collect_replacements ls path hunks 0 with Ok rs => Ok (sort_by_start rs) | Err e => Err e end.

(** [Vec::insert] panics beyond the end. *)
Definition vec_insert {A} (i : nat) (x : A) (l : list A) : option (list A) :=
  if Nat.leb i (length l) then Some (take i l ++ x :: drop i l) else None.

Fixpoint remove_times {A} (n i : nat) (l : list A) : list A :=
  match n with
  | O => l
  | S n => remove_times n i (if Nat.ltb i (length l) then delete i l else l)
  end.

Fixpoint insert_all {A} (i : nat) (new : list A) (l : list A) : option (list A) :=
  match new with
  | [] => Some l
  | x :: new => l ← vec_insert i x l; insert_all (S i) new l
  end.

Definition apply_replacement (r : Replacement) (ls : list string) : option (list string) :=
  insert_all (rp_start r) (rp_new r) (remove_times (rp_old_len r) (rp_start r) ls).

Definition apply_replacements (ls : list string) (rs : list Replacement) : option (list string) :=
  foldr (fun r ls => ls ≫= apply_replacement r) (Some ls) rs.

Definition split_lines (content : string) : list string :=
  let ls := split_char ch_newline content in if ends_empty ls then but_last ls else ls.

(** [None] is a panic. *)
Definition apply_hunks (path content : string) (hunks : list Hunk) : option (result string string) :=
  let original := split_lines content in
  match compute_replacements original path hunks with
  | Err e => Some (Err e)
  | Ok rs =>
      new ← apply_replacements original rs;
      Some (Ok (str_join nl (if ends_empty new then new else new ++ [""])))
  end.

(** ** Files *)

(** What the tool uses of a sandbox; an error is its rendered text. *)
Class PatchFiles (W : Type) := {
  write_file : string -> string -> W -> result unit string * W;
  file_exists : string -> W -> result bool string * W;
  delete_file : string -> W -> result unit string * W;
  read_file_text : string -> W -> result string string * W
}.

Definition format_summary (added modified deleted : list string) : string :=
  "Success. Updated the following files:" +:+ nl
  +:+ foldr (fun p s => "A " +:+ p +:+ nl +:+ s) "" added
  +:+ foldr (fun p s => "M " +:+ p +:+ nl +:+ s) "" modified
  +:+ foldr (fun p s => "D " +:+ p +:+ nl +:+ s) "" deleted.

Record Summary := mkSummary { sm_added : list string; sm_modified : list string; sm_deleted : list string }.

Section files.
Context {W : Type} `{!PatchFiles W}.
Implicit Types (w : W).

Definition apply_add (path content : string) w : result unit string * W :=
  match write_file path content w with
  | (Ok _, w) => (Ok tt, w)
  | (Err e, w) => (Err ("Failed to write file " +:+ path +:+ ": " +:+ e), w)
  end.

Definition apply_delete (path : string) w : result unit string * W :=
  let failed e := "Failed to delete file " +:+ path +:+ ": " +:+ e in
  match file_exists path w with
  | (Err e, w) => (Err (failed e), w)
  | (Ok false, w) => (Err (failed "file does not exist"), w)
  | (Ok true, w) => match delete_file path w with (Ok _, w) => (Ok tt, w) | (Err e, w) => (Err (failed e), w) end
  end.

Definition apply_update (path : string) (new_path : option string) (hunks : list Hunk) w : option (result unit string * W) :=
  match read_file_text path w with
  | (Err e, w) => Some (Err ("Failed to read file to update " +:+ path +:+ ": " +:+ e), w)
  | (Ok original, w) =>
      updated ← apply_hunks path original hunks;
      Some match updated with
      | Err e => (Err e, w)
      | Ok updated =>
          let dest := default path new_path in
          match write_file dest updated w with
          | (Err e, w) => (Err ("Failed to write file " +:+ dest +:+ ": " +:+ e), w)
          | (Ok _, w) =>
              if is_some new_path
              then match delete_file path w with
                   | (Ok _, w) => (Ok tt, w)
                   | (Err e, w) => (Err ("Failed to remove original " +:+ path +:+ ": " +:+ e), w)
                   end
              else (Ok tt, w)
          end
      end
  end.

Definition apply_operation (op : PatchOperation) (sm : Summary) w : option (result Summary string * W) :=
  match op with
  | PatchAdd path content =>
      Some match apply_add path content w with
      | (Ok _, w) => (Ok (mkSummary (sm_added sm ++ [path]) (sm_modified sm) (sm_deleted sm)), w)
      | (Err e, w) => (Err e, w)
      end
  | PatchDelete path =>
      Some match apply_delete path w with
      | (Ok _, w) => (Ok (mkSummary (sm_added sm) (sm_modified sm) (sm_deleted sm ++ [path])), w)
      | (Err e, w) => (Err e, w)
      end
  | PatchUpdate path new_path hunks =>
      r ← apply_update path new_path hunks w;
      Some match r with
      | (Ok _, w) => (Ok (mkSummary (sm_added sm) (sm_modified sm ++ [default path new_path]) (sm_deleted sm)), w)
      | (Err e, w) => (Err e, w)
      end
  end.

(** An error stops the patch; what was done before it stays done. *)
Fixpoint apply_operations (ops : list PatchOperation) (sm : Summary) w : option (result Summary string * W) :=
  match ops with
  | [] => Some (Ok sm, w)
  | op :: ops =>
      r ← apply_operation op sm w;
      match r with
      | (Ok sm, w) => apply_operations ops sm w
      | (Err e, w) => Some (Err e, w)
      end
  end.

Definition apply_patch_operations (ops : list PatchOperation) w : option (result string string * W) :=
  match ops with
  | [] => Some (Err "No files were modified.", w)
  | _ =>
      r ← apply_operations ops (mkSummary [] [] []) w;
      Some match r with
      | (Ok sm, w) => (Ok (format_summary (sm_added sm) (sm_modified sm) (sm_deleted sm)), w)
      | (Err e, w) => (Err e, w)
      end
  end.

(** The tool: its argument is the raw text of the patch. *)
Definition apply_patch_tool (patch_text : option string) w : option (result string string * W) :=
  match patch_text with
  | None => Some (Err "apply_patch expects raw patch text", w)
  | Some text =>
      match parse_apply_patch text with
      | Err e => Some (Err e, w)
      | Ok ops => apply_patch_operations ops w
      end
  end.
End files.
