(* ===== verification/PatchFacts.v ===== *)
(** * What patches do (facts on fabro-agent/src/apply_patch.rs)

    Printing a patch and parsing it gives its operations back; the search for the lines of a
    hunk; in-place replacement from the last line to the first equals splicing from the first to the
    last; and the effect of a patch on the files of a sandbox. *)

From S2P Require Import Prelude RustStr Blobs Patch.
Local Open Scope string_scope.
Local Open Scope list_scope.

(** ** Characters and white space *)

Definition valid_start (s : string) : bool := match s with "" => true | String c _ => negb (is_continuation c) end.

Lemma chars_cons c s : exists t rest, chars (String c s) = String c t :: rest.
Proof. cbn. destruct (chars s) as [|[|d ch] rest]; eauto. destruct (is_continuation d); eauto. Qed.

Lemma chars_app a b : valid_start b = true -> chars (a +:+ b) = chars a ++ chars b.
Proof.
  intros Hb. induction a as [|c a IH]; [done|]. rewrite append_cons. cbn [chars]. rewrite IH. destruct a as [|e a].
  - cbn. destruct b as [|d b]; [done|]. destruct (chars_cons d b) as (t & rest & ->). cbn in Hb. apply negb_true_iff in Hb. by rewrite Hb.
  - destruct (chars_cons e a) as (t & rest & ->). cbn. by destruct (is_continuation e).
Qed.

Lemma of_chars_chars s : of_chars (chars s) = s.
Proof.
  induction s as [|c s IH]; [done|]. cbn [chars]. destruct (chars s) as [|[|d ch] rest]; [by rewrite <- IH..|].
  destruct (is_continuation d); cbn in *; by rewrite <- IH.
Qed.

(** Text that begins and ends with a character that is not white space. *)
Definition solid (s : string) : bool :=
  (valid_start s && is_some_and (fun ch => negb (is_white ch)) (head (chars s)) && is_some_and (fun ch => negb (is_white ch)) (last (chars s)))%bool.

Lemma drop_white_head l : is_some_and (fun ch => negb (is_white ch)) (head l) = true -> drop_white l = l.
Proof. destruct l as [|ch l]; [done|]. cbn. intros Hn%negb_true_iff. by rewrite Hn. Qed.

Lemma head_rev {A} (l : list A) : head (rev l) = last l.
Proof. destruct l as [|x l _] using rev_ind; [done|]. by rewrite rev_app_distr, last_snoc. Qed.

Lemma solid_utrim s : solid s = true -> utrim s = s.
Proof.
  intros [[_ Hh]%andb_true_iff Hl]%andb_true_iff. unfold utrim, utrim_start. rewrite (drop_white_head _ Hh), of_chars_chars.
  unfold utrim_end. rewrite drop_white_head by (by rewrite head_rev). by rewrite rev_involutive, of_chars_chars.
Qed.

Lemma solid_app a b : solid a = true -> solid b = true -> solid (a +:+ b) = true.
Proof.
  unfold solid. intros [[Ha1 Ha2]%andb_true_iff _]%andb_true_iff [[Hb1 _]%andb_true_iff Hb3]%andb_true_iff.
  rewrite chars_app by done. apply andb_true_iff. split; [apply andb_true_iff; split|].
  - by destruct a; [|].
  - by destruct (chars a).
  - rewrite last_app. by destruct (last (chars b)).
Qed.

(** A marker ends in a space; what follows it decides. *)
Lemma patch_solid_prefix a b : valid_start a = true -> is_some_and (fun ch => negb (is_white ch)) (head (chars a)) = true -> solid b = true -> solid (a +:+ b) = true.
Proof.
  unfold solid. intros Ha1 Ha2 [[Hb1 _]%andb_true_iff Hb3]%andb_true_iff. rewrite chars_app by done.
  apply andb_true_iff. split; [apply andb_true_iff; split|].
  - by destruct a; [|].
  - by destruct (chars a).
  - rewrite last_app. by destruct (last (chars b)).
Qed.

(** ** Lines *)

Definition one_line (l : string) : bool := (negb (str_contains_char ch_newline l) && negb (ends_with (String "013" "") l))%bool.

Lemma split_char_none c s : str_contains_char c s = false -> split_char c s = [s].
Proof.
  unfold str_contains_char. induction s as [|d s IH]; [done|]. cbn. intros [Hd Hs]%orb_false_iff. rewrite IH by done. by rewrite Hd.
Qed.

Lemma split_join ls : ls <> [] -> Forall (fun l => str_contains_char ch_newline l = false) ls -> split_char ch_newline (str_join nl ls) = ls.
Proof.
  intros Hn Hall. induction Hall as [|l ls Hl Hall IH]; [done|]. destruct ls as [|l' ls]; [by apply split_char_none|].
  change (str_join nl (l :: l' :: ls)) with (l +:+ String ch_newline (str_join nl (l' :: ls))).
  by rewrite split_char_app, (split_char_none _ _ Hl), IH.
Qed.

Lemma strip_cr_none l : one_line l = true -> strip_cr l = l.
Proof. unfold one_line, strip_cr, ends_with. intros [_ Hr]%andb_true_iff. by destruct (strip_suffix _ l). Qed.

Lemma lines_of_ok ls : Forall (fun l => one_line l = true) ls -> is_some_and str_is_empty (last ls) = false -> lines_of ls = ls.
Proof.
  intros Hall. induction Hall as [|l ls Hl Hall IH]; [done|]. destruct ls as [|l' ls].
  - cbn. intros He. by rewrite He.
  - intros He. change (lines_of (l :: l' :: ls)) with (strip_cr l :: lines_of (l' :: ls)). rewrite strip_cr_none by done. by rewrite IH.
Qed.

Lemma one_line_contains l : one_line l = true -> str_contains_char ch_newline l = false.
Proof. unfold one_line. intros [Hn%negb_true_iff _]%andb_true_iff. done. Qed.

Lemma str_lines_join ls : ls <> [] -> Forall (fun l => one_line l = true) ls -> is_some_and str_is_empty (last ls) = false ->
  str_lines (str_join nl ls) = ls.
Proof.
  intros Hn Hall Hl. unfold str_lines. rewrite split_join; [by apply lines_of_ok|done|]. eapply Forall_impl; [exact Hall|]. apply one_line_contains.
Qed.

Lemma strip_suffix_cons p c s : p <> String c s -> strip_suffix p (String c s) = String c <$> strip_suffix p s.
Proof. intros Hp. cbn. destruct (String.eqb_spec p (String c s)); [done|]. reflexivity. Qed.

Lemma one_line_cons c l : Ascii.eqb ch_newline c = false -> Ascii.eqb "013" c = false -> one_line l = true -> one_line (String c l) = true.
Proof.
  unfold one_line, ends_with. intros Hc Hr [Hn Hl]%andb_true_iff. apply andb_true_iff. split.
  - unfold str_contains_char in *. cbn [str_exists]. by rewrite Hc.
  - rewrite strip_suffix_cons; [by destruct (strip_suffix _ l)|]. intros [= <- _]. done.
Qed.

Lemma one_line_app a b : str_forall (fun c => negb (Ascii.eqb ch_newline c) && negb (Ascii.eqb "013" c))%bool a = true -> one_line b = true -> one_line (a +:+ b) = true.
Proof.
  intros Ha Hb. induction a as [|c a IH]; [done|]. rewrite append_cons. cbn in Ha. apply andb_true_iff in Ha as [[H1%negb_true_iff H2%negb_true_iff]%andb_true_iff Ha].
  apply one_line_cons; auto.
Qed.

(** ** Printing patches *)

Definition print_change (c : Change) : string := match c with Remove l => "-" +:+ l | Add l => "+" +:+ l | Keep l => " " +:+ l end.
Definition change_line (c : Change) : string := match c with Remove l | Add l | Keep l => l end.
Definition print_context (context : string) : string := if str_is_empty context then "@@" else "@@ " +:+ context +:+ " @@".
Definition print_hunk (h : Hunk) : list string :=
  print_context (hk_context_line h) :: (print_change <$> hk_changes h) ++ (if hk_end_of_file h then ["*** End of File"] else []).
Definition added_lines (content : string) : list string := but_last (split_char ch_newline content).
Definition print_operation (op : PatchOperation) : list string :=
  match op with
  | PatchAdd path content => ("*** Add File: " +:+ path) :: (String.append "+" <$> added_lines content)
  | PatchDelete path => ["*** Delete File: " +:+ path]
  | PatchUpdate path new_path hunks =>
      ("*** Update File: " +:+ path) :: match new_path with Some to => ["*** Move to: " +:+ to] | None => [] end ++ mjoin (print_hunk <$> hunks)
  end.
Definition print_patch (ops : list PatchOperation) : string :=
  str_join nl ("*** Begin Patch" :: mjoin (print_operation <$> ops) ++ ["*** End Patch"]).

(** What the notation can express. *)
Definition name_ok (p : string) : bool := (solid p && one_line p)%bool.
Definition hunk_ok (h : Hunk) : bool :=
  ((str_is_empty (hk_context_line h) || name_ok (hk_context_line h)) && negb (bool_decide (hk_changes h = []))
   && forallb (fun c => one_line (change_line c)) (hk_changes h))%bool.
Definition operation_ok (op : PatchOperation) : bool :=
  match op with
  | PatchAdd path content =>
      (name_ok path && negb (bool_decide (added_lines content = [])) && String.eqb (file_of_lines (added_lines content)) content
       && forallb one_line (added_lines content))%bool
  | PatchDelete path => name_ok path
  | PatchUpdate path new_path hunks =>
      (name_ok path && match new_path with Some to => name_ok to | None => true end && negb (bool_decide (hunks = [])) && forallb hunk_ok hunks)%bool
  end.

(** ** Parsing what was printed *)

(** A line at which a list of changes or hunks stops. *)
Definition stops (ls : list string) : Prop :=
  exists l rest, ls = l :: rest /\ is_marker l = true /\ utrim l <> "*** End of File".

Lemma parse_added_printed added rest : stops rest -> parse_added ((String.append "+" <$> added) ++ rest) = Ok (added, rest).
Proof.
  intros (l & rest' & -> & Hm & _). induction added as [|a added IH]; cbn [fmap list_fmap app parse_added].
  - by rewrite Hm.
  - change (is_marker ("+" +:+ a)) with false. change (strip_prefix "+" ("+" +:+ a)) with (Some a). by rewrite IH.
Qed.

Lemma parse_print_change c : is_marker (print_change c) = false /\ is_hunk_start (print_change c) = false /\ parse_change (print_change c) = Some c.
Proof. by destruct c. Qed.

Lemma parse_changes_printed cs l rest : (is_marker l || is_hunk_start l)%bool = true -> parse_changes ((print_change <$> cs) ++ l :: rest) = Ok (cs, l :: rest).
Proof.
  intros Hl. induction cs as [|c cs IH]; cbn [fmap list_fmap app parse_changes]; [by rewrite Hl|].
  destruct (parse_print_change c) as (-> & -> & ->). cbn. by rewrite IH.
Qed.

Lemma print_context_start context : is_hunk_start (print_context context) = true.
Proof. unfold print_context. by destruct (str_is_empty context). Qed.

Lemma extract_print context : (str_is_empty context || name_ok context)%bool = true -> extract_context_line (print_context context) = context.
Proof.
  unfold print_context. destruct context as [|c s]; [done|]. cbn [str_is_empty String.eqb orb]. intros [Hs _]%andb_true_iff.
  unfold extract_context_line. change (String.eqb ("@@ " +:+ String c s +:+ " @@") "@@") with false.
  rewrite strip_prefix_append. cbv zeta. cbn [from_option]. unfold id. rewrite strip_suffix_append. cbn [from_option]. by apply solid_utrim.
Qed.

(** Lines of a printed patch begin with a marker or with [@@]. *)
Lemma solid_header context : (str_is_empty context || name_ok context)%bool = true -> solid (print_context context) = true.
Proof.
  unfold print_context. destruct context as [|c s]; [done|]. cbn [str_is_empty String.eqb orb]. intros [Hs _]%andb_true_iff.
  apply patch_solid_prefix; [done..|]. unfold solid in *. apply andb_true_iff in Hs as [[H1 H2]%andb_true_iff _].
  rewrite chars_app by done. destruct (chars_cons c s) as (t & rest & Hc). rewrite Hc in *. cbn [app head] in *. rewrite !andb_true_iff. split_and!; [done..|].
  change (chars " @@") with [" "; "@"; "@"]. replace (String c t :: rest ++ [" "; "@"; "@"]) with ((String c t :: rest ++ [" "; "@"]) ++ ["@"]) by (cbn; by rewrite <- app_assoc).
  by rewrite last_snoc.
Qed.

Lemma utrim_header context : (str_is_empty context || name_ok context)%bool = true -> utrim (print_context context) = print_context context.
Proof. intros Hc. by apply solid_utrim, solid_header. Qed.

Lemma print_hunk_cons h : exists rest, print_hunk h = print_context (hk_context_line h) :: rest.
Proof. eexists. reflexivity. Qed.

(** What follows the changes of a hunk. *)
Definition after_hunks (hunks : list Hunk) (rest : list string) : list string := mjoin (print_hunk <$> hunks) ++ rest.

Lemma after_hunks_cons h hunks rest : after_hunks (h :: hunks) rest = print_hunk h ++ after_hunks hunks rest.
Proof. unfold after_hunks. cbn [fmap list_fmap mjoin list_join]. by rewrite <- app_assoc. Qed.

Lemma after_hunks_stop hunks rest : forallb hunk_ok hunks = true -> stops rest ->
  exists l ls, after_hunks hunks rest = l :: ls /\ (is_marker l || is_hunk_start l)%bool = true /\ utrim l <> "*** End of File".
Proof.
  intros Hok (l & rest' & -> & Hm & He). destruct hunks as [|h hunks].
  - exists l, rest'. by rewrite Hm.
  - cbn in Hok. apply andb_true_iff in Hok as [Hh _]. unfold hunk_ok in Hh. rewrite !andb_true_iff in Hh. destruct Hh as [[Hc _] _].
    destruct (print_hunk_cons h) as [ls Hp]. eexists _, _. split; [rewrite after_hunks_cons, Hp; cbn [app]; reflexivity|].
    rewrite print_context_start, orb_true_r. split; [done|]. rewrite utrim_header by done. unfold print_context. by destruct (str_is_empty _).
Qed.

Lemma parse_hunks_printed hunks rest fuel : forallb hunk_ok hunks = true -> stops rest -> (length hunks < fuel)%nat ->
  parse_hunks fuel (after_hunks hunks rest) = Ok (hunks, rest).
Proof.
  revert fuel. induction hunks as [|h hunks IH]; intros [|fuel] Hok Hr Hf; [lia| |cbn in Hf; lia|].
  - destruct Hr as (l & rest' & -> & Hm & He). change (after_hunks [] (l :: rest')) with (l :: rest'). cbn [parse_hunks]. rewrite Hm. destruct (is_hunk_start l) eqn:Hs; [|done].
    exfalso. destruct l as [|c l]; [done|]. unfold is_marker, starts_with in Hm. cbn in Hm. destruct (Ascii.eqb_spec "*" c) as [<-|]; [done|].
    destruct c as [[] [] [] [] [] [] [] []]; done.
  - cbn [forallb] in Hok. apply andb_true_iff in Hok as [Hh Hok]. destruct (after_hunks_stop hunks rest Hok Hr) as (l & ls & Hl & Hstop & Hnot).
    assert (after_hunks (h :: hunks) rest = print_context (hk_context_line h) :: (print_change <$> hk_changes h)
              ++ (if hk_end_of_file h then ["*** End of File"] else []) ++ after_hunks hunks rest) as ->.
    { rewrite after_hunks_cons. unfold print_hunk. cbn [app]. by rewrite <- !app_assoc. }
    unfold hunk_ok in Hh. rewrite !andb_true_iff in Hh. destruct Hh as [[Hc Hne] _]. apply negb_true_iff, bool_decide_eq_false in Hne.
    cbn [parse_hunks]. rewrite print_context_start, andb_false_r. rewrite extract_print by done.
    set (tail := (if hk_end_of_file h then _ else _) ++ _).
    assert (parse_context (hk_context_line h) ((print_change <$> hk_changes h) ++ tail) = (hk_context_line h, (print_change <$> hk_changes h) ++ tail)) as ->.
    { destruct (hk_changes h) as [|c cs]; [done|]. cbn [fmap list_fmap app parse_context]. by rewrite (proj1 (proj2 (parse_print_change c))). }
    assert (parse_changes ((print_change <$> hk_changes h) ++ tail) = Ok (hk_changes h, tail)) as ->.
    { unfold tail. destruct (hk_end_of_file h); [by apply parse_changes_printed|]. rewrite Hl. by apply parse_changes_printed. }
    unfold tail. destruct h as [context changes eof]. cbn [hk_context_line hk_changes hk_end_of_file] in *. destruct eof; cbn [app].
    + change (String.eqb (utrim "*** End of File") "*** End of File") with true. cbv iota. rewrite IH by (done || (cbn in Hf; lia)). done.
    + rewrite Hl. destruct (String.eqb_spec (utrim l) "*** End of File"); [done|]. rewrite <- Hl. rewrite IH by (done || (cbn in Hf; lia)). done.
Qed.

Lemma solid_marker m p : valid_start m = true -> is_some_and (fun ch => negb (is_white ch)) (head (chars m)) = true -> name_ok p = true -> utrim (m +:+ p) = m +:+ p.
Proof. intros H1 H2 [Hp _]%andb_true_iff. by apply solid_utrim, patch_solid_prefix. Qed.

Lemma after_hunks_length hunks rest : (length hunks + length rest <= length (after_hunks hunks rest))%nat.
Proof.
  induction hunks as [|h hunks IH]; [done|]. rewrite after_hunks_cons. destruct (print_hunk_cons h) as [ls ->]. cbn [app length]. rewrite length_app. lia.
Qed.

(** The first line of an operation, and what its parser makes of the rest. *)
Lemma parse_operation_printed op : operation_ok op = true ->
  exists line body, print_operation op = line :: body /\ utrim line = line /\ is_marker line = true
    /\ String.eqb line "*** End Patch" = false /\ line <> "*** End of File"
    /\ forall rest, stops rest -> parse_operation line (body ++ rest) = Ok (op, rest).
Proof.
  destruct op as [path content|path|path new_path hunks]; cbn [operation_ok print_operation]; intros Hok.
  - rewrite !andb_true_iff in Hok. destruct Hok as [[[Hp Hne] Hc%String.eqb_eq] _]. apply negb_true_iff, bool_decide_eq_false in Hne.
    eexists _, _. split; [reflexivity|]. split; [by apply solid_marker|]. split_and!; [done..|]. intros rest Hr. unfold parse_operation.
    rewrite strip_prefix_append, parse_added_printed by done. destruct (added_lines content) as [|a added] eqn:Ha; [done|]. by rewrite Hc.
  - eexists _, _. split; [reflexivity|]. split; [by apply solid_marker|]. split_and!; [done..|]. intros rest Hr. unfold parse_operation.
    change (strip_prefix "*** Add File: " ("*** Delete File: " +:+ path)) with (@None string). by rewrite strip_prefix_append.
  - rewrite !andb_true_iff in Hok. destruct Hok as [[[Hp Hnp] Hne] Hh]. apply negb_true_iff, bool_decide_eq_false in Hne.
    eexists _, _. split; [reflexivity|]. split; [by apply solid_marker|]. split_and!; [done..|]. intros rest Hr. unfold parse_operation.
    change (strip_prefix "*** Add File: " ("*** Update File: " +:+ path)) with (@None string).
    change (strip_prefix "*** Delete File: " ("*** Update File: " +:+ path)) with (@None string). rewrite strip_prefix_append.
    set (ls := _ ++ rest). assert (parse_move ls = (new_path, after_hunks hunks rest)) as ->.
    { unfold ls. destruct new_path as [to|]; cbn [app parse_move].
      - rewrite solid_marker by done. rewrite strip_prefix_append. done.
      - destruct (after_hunks_stop hunks rest Hh Hr) as (l & ls' & Hl & _ & _). destruct hunks as [|h hunks]; [done|].
        cbn [forallb] in Hh. apply andb_true_iff in Hh as [Hh _]. unfold hunk_ok in Hh. rewrite !andb_true_iff in Hh. destruct Hh as [[Hc _] _].
        unfold after_hunks in *. cbn [fmap list_fmap mjoin list_join] in *. destruct (print_hunk_cons h) as [tl Htl]. rewrite Htl in *. cbn [app parse_move].
        rewrite utrim_header by done. unfold print_context. by destruct (str_is_empty _). }
    rewrite parse_hunks_printed; [by destruct hunks|done|done|]. pose proof (after_hunks_length hunks rest). destruct Hr as (l & rest' & -> & _). cbn in *. lia.
Qed.

Lemma printed_stops ops : forallb operation_ok ops = true -> stops (mjoin (print_operation <$> ops) ++ ["*** End Patch"]).
Proof.
  destruct ops as [|op ops]; [by exists "*** End Patch", []|]. cbn [forallb]. intros [Hop _]%andb_true_iff.
  destruct (parse_operation_printed op Hop) as (line & body & Hp & Ht & Hm & _ & He & _). cbn [fmap list_fmap mjoin list_join]. rewrite Hp.
  exists line. eexists. split; [reflexivity|]. by rewrite Ht.
Qed.

Lemma parse_operations_printed ops fuel : forallb operation_ok ops = true -> (length ops < fuel)%nat ->
  parse_operations fuel (mjoin (print_operation <$> ops) ++ ["*** End Patch"]) = Ok ops.
Proof.
  revert fuel. induction ops as [|op ops IH]; intros [|fuel] Hok Hf; [lia|done|cbn in Hf; lia|].
  pose proof Hok as Hall. cbn [forallb] in Hok. apply andb_true_iff in Hok as [Hop Hok].
  destruct (parse_operation_printed op Hop) as (line & body & Hp & Ht & Hm & Hend & He & Hparse). cbn [fmap list_fmap mjoin list_join]. rewrite Hp.
  cbn [app parse_operations]. rewrite Ht, Hend. rewrite <- app_assoc, Hparse by (by apply printed_stops). rewrite IH; [done|done|cbn in Hf; lia].
Qed.

(** Every printed line is one line. *)
Lemma one_line_marker m p : str_forall (fun c => negb (Ascii.eqb ch_newline c) && negb (Ascii.eqb "013" c))%bool m = true -> name_ok p = true -> one_line (m +:+ p) = true.
Proof. intros Hm [_ Hp]%andb_true_iff. by apply one_line_app. Qed.

Lemma ends_with_append a b p : p <> "" -> ends_with p b = false -> (String.length p <= String.length b)%nat -> ends_with p (a +:+ b) = false.
Proof.
  intros Hp Hb Hl. induction a as [|c a IH]; [done|]. rewrite append_cons. unfold ends_with in *.
  rewrite strip_suffix_cons; [by destruct (strip_suffix p (a +:+ b))|]. intros ->. cbn in Hl. rewrite length_append in Hl. lia.
Qed.

Lemma one_line_context context : (str_is_empty context || name_ok context)%bool = true -> one_line (print_context context) = true.
Proof.
  unfold print_context. destruct (str_is_empty context); [done|]. cbn [orb]. intros [_ [Hn _]%andb_true_iff]%andb_true_iff.
  apply one_line_app; [done|]. unfold one_line. apply andb_true_iff. split.
  - apply negb_true_iff in Hn. apply negb_true_iff. unfold str_contains_char in *. clear -Hn. induction context as [|c s IH]; [done|].
    rewrite append_cons. cbn [str_exists] in *. apply orb_false_iff in Hn as [-> Hs]. by apply IH.
  - apply negb_true_iff. apply ends_with_append; [done|done|cbn; lia].
Qed.

Lemma printed_one_line op : operation_ok op = true -> Forall (fun l => one_line l = true) (print_operation op).
Proof.
  destruct op as [path content|path|path new_path hunks]; cbn [operation_ok print_operation]; intros Hok.
  - rewrite !andb_true_iff in Hok. destruct Hok as [[[Hp _] _] Hl]. constructor; [by apply one_line_marker|].
    apply Forall_fmap, Forall_forall. intros a Ha. rewrite forallb_forall in Hl. by apply one_line_app, Hl, list_elem_of_In.
  - constructor; [by apply one_line_marker|done].
  - rewrite !andb_true_iff in Hok. destruct Hok as [[[Hp Hnp] _] Hh]. constructor; [by apply one_line_marker|]. apply Forall_app. split.
    + destruct new_path; constructor; [by apply one_line_marker|done].
    + rewrite forallb_forall in Hh. apply Forall_forall. intros l (ls & Hl & Hls)%list_elem_of_join. apply list_elem_of_fmap in Hls as (h & -> & Hin).
      specialize (Hh h (proj1 (list_elem_of_In _ _) Hin)). unfold hunk_ok in Hh. rewrite !andb_true_iff in Hh. destruct Hh as [[Hc _] Hcs].
      unfold print_hunk in Hl. apply elem_of_cons in Hl as [->|[Hl|Hl]%elem_of_app]; [by apply one_line_context| |].
      * apply list_elem_of_fmap in Hl as (c & -> & Hin'). rewrite forallb_forall in Hcs. specialize (Hcs c (proj1 (list_elem_of_In _ _) Hin')).
        destruct c; by apply one_line_app.
      * destruct (hk_end_of_file h); [|by apply not_elem_of_nil in Hl]. by apply list_elem_of_singleton in Hl as ->.
Qed.

Lemma str_join_snoc l ls e : exists t, str_join nl (l :: ls ++ [e]) = l +:+ (nl +:+ t) +:+ e.
Proof.
  revert l. induction ls as [|l' ls IH]; intros l; [by exists ""|]. destruct (IH l') as [t Ht].
  exists (l' +:+ nl +:+ t). change (str_join nl (l :: (l' :: ls) ++ [e])) with (l +:+ nl +:+ str_join nl (l' :: ls ++ [e])). rewrite Ht. by rewrite !append_assoc.
Qed.

Lemma solid_patch l ls e : solid l = true -> solid e = true -> solid (str_join nl (l :: ls ++ [e])) = true.
Proof.
  intros Hl He. destruct (str_join_snoc l ls e) as [t ->]. unfold solid in *. rewrite !andb_true_iff in *. destruct Hl as [[Hl1 Hl2] _], He as [[He1 _] He3].
  split_and!.
  - by destruct l.
  - rewrite append_assoc, chars_app by done. by destruct (chars l).
  - rewrite <- append_assoc, chars_app by done. rewrite last_app. by destruct (last (chars e)).
Qed.

Lemma print_patch_lines ops : forallb operation_ok ops = true ->
  str_lines (utrim (print_patch ops)) = "*** Begin Patch" :: mjoin (print_operation <$> ops) ++ ["*** End Patch"].
Proof.
  intros Hok. unfold print_patch. rewrite solid_utrim by (by apply solid_patch). apply str_lines_join; [done| |].
  - constructor; [done|]. apply Forall_app. split; [|by constructor]. apply Forall_forall. intros l (ls & Hl & Hls)%list_elem_of_join.
    apply list_elem_of_fmap in Hls as (op & -> & Hin). rewrite forallb_forall in Hok. specialize (Hok op (proj1 (list_elem_of_In _ _) Hin)).
    pose proof (printed_one_line op Hok) as Hall. rewrite Forall_forall in Hall. by apply Hall.
  - by rewrite app_comm_cons, last_snoc.
Qed.

Lemma operations_lines ops : forallb operation_ok ops = true -> (length ops <= length (mjoin (print_operation <$> ops)))%nat.
Proof.
  induction ops as [|op ops IH]; cbn [forallb]; [cbn; lia|]. intros [Hop Hok]%andb_true_iff. specialize (IH Hok).
  destruct (parse_operation_printed op Hop) as (line & body & Hp & _). change (mjoin (print_operation <$> op :: ops)) with (print_operation op ++ mjoin (print_operation <$> ops)).
  rewrite Hp, length_app. cbn [length]. lia.
Qed.

(** C30: a patch reads back as it was written.  Every list of operations that the notation can
    express (names without surrounding white space, an added file of at least one line,
    hunks with at least one change, no line breaks within lines) parses to itself from its
    printed form. *)
Theorem parse_print_patch ops : forallb operation_ok ops = true -> parse_apply_patch (print_patch ops) = Ok ops.
Proof.
  intros Hok. unfold parse_apply_patch. rewrite print_patch_lines by done. set (body := mjoin _ ++ _).
  assert (patch_lines_with_valid_boundaries ("*** Begin Patch" :: body) = Ok ("*** Begin Patch" :: body)) as ->.
  { unfold patch_lines_with_valid_boundaries, check_patch_boundaries_strict. unfold body. rewrite app_comm_cons, last_snoc. reflexivity. }
  cbn [drop skipn]. apply parse_operations_printed; [done|]. pose proof (operations_lines ops Hok). cbn [length]. unfold body. rewrite length_app. lia.
Qed.

(** ** How patches change files (facts on fabro-agent/src/apply_patch.rs)

    The search for the lines of a hunk, in-place replacement from the last line to the first
    against splicing from the first to the last, and the effect of operations on files. *)

Local Open Scope nat_scope.

(** ** The search *)

(** How lines are compared, the strictest first. *)
Definition views : list (string -> string) := [id; utrim_end; utrim; normalize_unicode].

Definition looks_like (view : string -> string) (ls pattern : list string) (i : nat) : Prop :=
  i + length pattern <= length ls /\ view <$> take (length pattern) (drop i ls) = view <$> pattern.

Lemma find_first_seq f from n i : find_first f (seq from n) = Some i ->
  from <= i < from + n /\ f i = true /\ forall j, from <= j < i -> f j = false.
Proof.
  revert from. induction n as [|n IH]; intros from; cbn; [done|]. destruct (f from) eqn:Hf.
  - intros [= <-]. split; [lia|]. split; [done|lia].
  - intros (Hi & Hfi & Hb)%IH. split; [lia|]. split; [done|]. intros j Hj. destruct (decide (j = from)) as [->|]; [done|]. apply Hb. lia.
Qed.

Lemma seek_through_Some view ls pattern from i : length pattern <= length ls -> seek_through view ls pattern from = Some i ->
  from <= i /\ looks_like view ls pattern i /\ forall j, from <= j < i -> ~ looks_like view ls pattern j.
Proof.
  unfold seek_through. intros Hl (Hi & Hm%bool_decide_eq_true & Hb)%find_first_seq. split; [lia|]. split; [split; [lia|done]|].
  intros j Hj [_ Hmj]. specialize (Hb j Hj). by apply bool_decide_eq_false in Hb.
Qed.

Lemma seek_through_None view ls pattern from : seek_through view ls pattern from = None -> forall j, from <= j -> ~ looks_like view ls pattern j.
Proof.
  unfold seek_through. rewrite find_first_None. intros Hn j Hj [Hl Hm]. assert (j ∈ seq from (S (length ls - length pattern) - from)) as Hin by (apply elem_of_seq; lia).
  specialize (Hn j Hin). by apply bool_decide_eq_false in Hn.
Qed.

(** The search stops at the first place where the lines look like the pattern in the strictest
    way in which they do anywhere; at the end of a file it looks at the last lines only. *)
Lemma seek_sequence_spec ls pattern start (eof : bool) : pattern <> [] ->
  let from := if eof then length ls - length pattern else start in
  match seek_sequence ls pattern start eof with
  | Some i => from <= i /\ exists k view, views !! k = Some view /\ looks_like view ls pattern i
                /\ (forall j, from <= j < i -> ~ looks_like view ls pattern j)
                /\ forall k' view' j, k' < k -> views !! k' = Some view' -> from <= j -> ~ looks_like view' ls pattern j
  | None => forall (view : string -> string) (j : nat), view ∈ views -> from <= j -> ~ looks_like view ls pattern j
  end.
Proof.
  intros Hp from. unfold seek_sequence. rewrite (proj2 (Nat.eqb_neq _ 0)) by (by destruct pattern).
  destruct (Nat.ltb_spec (length ls) (length pattern)) as [Hl|Hl]; [intros view j _ _ [Hlen _]; lia|]. fold from.
  destruct (seek_through id ls pattern from) as [i|] eqn:H0.
  { apply seek_through_Some in H0 as (Hf & Hm & Hb); [|done]. split; [done|]. exists 0, (@id string). split_and!; [done..|]. intros; lia. }
  destruct (seek_through utrim_end ls pattern from) as [i|] eqn:H1.
  { apply seek_through_Some in H1 as (Hf & Hm & Hb); [|done]. split; [done|]. exists 1, utrim_end. split_and!; [done..|].
    intros [|k'] view' j Hk; [|lia]. intros [= <-]. by apply seek_through_None. }
  destruct (seek_through utrim ls pattern from) as [i|] eqn:H2.
  { apply seek_through_Some in H2 as (Hf & Hm & Hb); [|done]. split; [done|]. exists 2, utrim. split_and!; [done..|].
    intros [|[|k']] view' j Hk; [..|lia]; intros [= <-]; by apply seek_through_None. }
  destruct (seek_through normalize_unicode ls pattern from) as [i|] eqn:H3.
  { apply seek_through_Some in H3 as (Hf & Hm & Hb); [|done]. split; [done|]. exists 3, normalize_unicode. split_and!; [done..|].
    intros [|[|[|k']]] view' j Hk; [..|lia]; intros [= <-]; by apply seek_through_None. }
  intros view j Hv. unfold views in Hv. rewrite !elem_of_cons in Hv. destruct Hv as [->|[->|[->|[->|Hv%not_elem_of_nil]]]]; [..|done]; by apply seek_through_None.
Qed.

Lemma seek_sequence_found ls pattern start eof i : seek_sequence ls pattern start eof = Some i ->
  (pattern = [] /\ i = start) \/ ((eof = false -> start <= i) /\ exists view, view ∈ views /\ looks_like view ls pattern i).
Proof.
  intros Hs. destruct (decide (pattern = [])) as [->|Hp]; [left; by injection Hs as <-|]. right.
  pose proof (seek_sequence_spec ls pattern start eof Hp) as Hspec. rewrite Hs in Hspec. destruct Hspec as (Hf & k & view & Hv & Hm & _).
  split; [by intros ->|]. exists view. split; [by eapply list_elem_of_lookup_2|done].
Qed.

(** ** Splicing *)

(** The lines from [pos] on, with the replacements made from left to right. *)
Fixpoint splice (pos : nat) (rs : list Replacement) (ls : list string) : list string :=
  match rs with
  | [] => ls
  | r :: rs => take (rp_start r - pos) ls ++ rp_new r ++ splice (rp_start r + rp_old_len r) rs (drop (rp_start r + rp_old_len r - pos) ls)
  end.

(** Replacements that do not overlap, in order, within a file. *)
Fixpoint separated (pos : nat) (rs : list Replacement) (len : nat) : Prop :=
  match rs with
  | [] => pos <= len
  | r :: rs => pos <= rp_start r /\ separated (rp_start r + rp_old_len r) rs len
  end.

Lemma separated_end pos rs len : separated pos rs len -> pos <= len.
Proof. revert pos. induction rs as [|r rs IH]; intros pos; [done|]. intros [Hp Hs%IH]. lia. Qed.

Lemma remove_times_app {A} (a b c : list A) : remove_times (length b) (length a) (a ++ b ++ c) = a ++ c.
Proof.
  induction b as [|x b IH]; [done|]. cbn [length remove_times]. rewrite !length_app. cbn [length app].
  rewrite (proj2 (Nat.ltb_lt _ _)) by lia. rewrite delete_middle. exact IH.
Qed.

Lemma insert_all_app {A} (a b new : list A) : insert_all (length a) new (a ++ b) = Some (a ++ new ++ b).
Proof.
  revert a. induction new as [|x new IH]; intros a; [done|]. cbn [insert_all]. unfold vec_insert.
  rewrite (proj2 (Nat.leb_le _ _)) by (rewrite length_app; lia). rewrite take_app_length, drop_app_length. cbn [mbind option_bind].
  specialize (IH (a ++ [x])). rewrite length_app, Nat.add_comm in IH. cbn [length Nat.add] in IH. rewrite <- app_assoc in IH. cbn [app] in IH. rewrite IH.
  by rewrite <- app_assoc.
Qed.

Lemma removed_at {A} n i (a b c : list A) : length a = i -> length b = n -> remove_times n i (a ++ b ++ c) = a ++ c.
Proof. intros <- <-. apply remove_times_app. Qed.

Lemma inserted_at {A} i (a b new : list A) : length a = i -> insert_all i new (a ++ b) = Some (a ++ new ++ b).
Proof. intros <-. apply insert_all_app. Qed.

(** Replacing from the last to the first is splicing from the first to the last. *)
Lemma apply_replacements_splice ls pos rs : separated pos rs (length ls) ->
  apply_replacements ls rs = Some (take pos ls ++ splice pos rs (drop pos ls)).
Proof.
  revert pos. induction rs as [|r rs IH]; intros pos; cbn [separated splice].
  - intros Hp. cbn. by rewrite take_drop.
  - intros [Hp Hs]. pose proof (separated_end _ _ _ Hs) as He. unfold apply_replacements in *. cbn [foldr]. rewrite (IH _ Hs). cbn [mbind option_bind].
    unfold apply_replacement. set (s := rp_start r) in *. set (n := rp_old_len r) in *. set (tail := splice (s + n) rs _).
    assert (take (s + n) ls = take s ls ++ take n (drop s ls)) as -> by (by rewrite take_take_drop).
    rewrite <- app_assoc. assert (length (take s ls) = s) as Hls by (rewrite length_take; lia). assert (length (take n (drop s ls)) = n) as Hln by (rewrite length_take, length_drop; lia).
    rewrite (removed_at _ _ _ _ _ Hls Hln), (inserted_at _ _ _ _ Hls). f_equal.
    assert (take pos ls ++ take (s - pos) (drop pos ls) = take s ls) as <- by (rewrite take_take_drop; f_equal; lia).
    rewrite <- !app_assoc. f_equal. f_equal. f_equal. unfold tail. rewrite drop_drop. do 2 f_equal. lia.
Qed.

(** ** Replacements in order *)

Definition rp_end (r : Replacement) : nat := rp_start r + rp_old_len r.
Definition before (a b : Replacement) : Prop := rp_end a <= rp_start b.

(** What the hunks guarantee of two replacements, the earlier hunk's first: an insertion at
    the end of the file may come before a replacement in the middle. *)
Definition apart (a b : Replacement) : Prop := before a b \/ (rp_start b < rp_start a /\ before b a).

Lemma insert_by_start_Permutation r rs : insert_by_start r rs ≡ₚ r :: rs.
Proof. induction rs as [|r' rs IH]; [done|]. cbn. case_match; [done|]. rewrite IH. apply Permutation_swap. Qed.

Lemma sort_by_start_Permutation rs : sort_by_start rs ≡ₚ rs.
Proof. induction rs as [|r rs IH]; [done|]. cbn. by rewrite insert_by_start_Permutation, IH. Qed.

Lemma insert_before r rs : ForallOrdPairs before rs -> Forall (apart r) rs -> ForallOrdPairs before (insert_by_start r rs).
Proof.
  intros Hrs. induction Hrs as [|r' rs Hr' Hrs IH]; intros Ha; [by repeat constructor|]. cbn. apply Forall_cons in Ha as [Ha1 Ha2].
  destruct (Nat.leb_spec (rp_start r) (rp_start r')) as [Hle|Hlt].
  - constructor; [|by constructor]. constructor; [destruct Ha1 as [|[]]; [done|lia]|].
    rewrite !Forall_forall in *. intros y Hy. destruct (Ha2 y Hy) as [|[Hly _]]; [done|]. specialize (Hr' y Hy). unfold before, rp_end in *. lia.
  - constructor; [|by apply IH]. rewrite insert_by_start_Permutation. constructor; [|done].
    destruct Ha1 as [Ha1|[_ Ha1]]; [|done]. unfold before, rp_end in *. lia.
Qed.

Lemma sort_before rs : ForallOrdPairs apart rs -> ForallOrdPairs before (sort_by_start rs).
Proof. intros Hrs. induction Hrs as [|r rs Hr Hrs IH]; [constructor|]. cbn. apply insert_before; [done|]. by rewrite sort_by_start_Permutation. Qed.

Lemma before_separated pos rs len : pos <= len -> ForallOrdPairs before rs -> Forall (fun r => pos <= rp_start r /\ rp_end r <= len) rs -> separated pos rs len.
Proof.
  intros Hp Hrs. revert pos Hp. induction Hrs as [|r rs Hr Hrs IH]; intros pos Hp Hall; [done|]. cbn. apply Forall_cons in Hall as [[H1 H2] Hall].
  split; [done|]. apply IH; [done|]. rewrite !Forall_forall in *. intros y Hy. split; [by apply Hr|by apply Hall].
Qed.

(** ** The replacements of hunks *)

(** What a hunk replaces: nothing at the end of the file when it has no old lines; otherwise
    lines that look like its old lines, the last of which may be left out when it is empty. *)
Definition replaces (ls : list string) (h : Hunk) (r : Replacement) : Prop :=
  let old := old_lines (hk_changes h) in
  let new := new_lines (hk_changes h) in
  rp_end r <= length ls /\
  (old = [] /\ r = mkRepl (length ls) 0 new
   \/ exists pattern, rp_old_len r = length pattern
        /\ (pattern = old /\ rp_new r = new \/ old = pattern ++ [""] /\ (rp_new r = new \/ new = rp_new r ++ [""]))
        /\ (pattern = [] \/ exists view, view ∈ views /\ looks_like view ls pattern (rp_start r))).

Lemma ends_empty_snoc ls : ends_empty ls = true -> ls = but_last ls ++ [""].
Proof.
  unfold ends_empty, but_last. destruct ls as [|l ls _] using rev_ind; [done|]. rewrite last_snoc, length_app. cbn. intros Hl%String.eqb_eq. subst l.
  by rewrite Nat.add_sub, take_app_length.
Qed.

Lemma find_old_replaces ls h from (eof : bool) r : let old := old_lines (hk_changes h) in
  old <> [] -> from <= length ls -> find_old ls old (new_lines (hk_changes h)) from eof = Some r ->
  replaces ls h r /\ (eof = false -> from <= rp_start r).
Proof.
  intros old Hold Hfrom. unfold find_old. destruct (seek_sequence ls old from eof) as [i|] eqn:Hs.
  - intros [= <-]. apply seek_sequence_found in Hs as [[? _]|(Hf & view & Hv & Hm)]; [done|]. split; [|exact Hf].
    split; [unfold rp_end; cbn; apply Hm|]. right. exists old. split; [done|]. split; [by left|]. right. by exists view.
  - destruct (ends_empty old) eqn:He; [|done]. apply ends_empty_snoc in He. destruct (seek_sequence ls (but_last old) from eof) as [i|] eqn:Hs'; [|done].
    intros [= <-]. set (new := new_lines _).
    assert (Hn : (if ends_empty new then but_last new else new) = new \/ new = (if ends_empty new then but_last new else new) ++ [""]).
    { destruct (ends_empty new) eqn:Hen; [right; by apply ends_empty_snoc|by left]. }
    apply seek_sequence_found in Hs' as [[Hp ->]|(Hf & view & Hv & Hm)].
    + split; [|done]. split; [unfold rp_end; cbn [rp_start rp_old_len]; rewrite Hp; cbn; lia|]. right. exists (but_last old). cbn [rp_old_len rp_new rp_start]. auto.
    + split; [|exact Hf]. split; [unfold rp_end; cbn; apply Hm|]. right. exists (but_last old). cbn [rp_old_len rp_new rp_start].
      split; [done|]. split; [by right|]. right. by exists view.
Qed.

Lemma seek_context_bound ls path h from next : from <= length ls -> seek_context ls path h from = Ok next -> from <= next <= length ls.
Proof.
  unfold seek_context. destruct (str_is_empty _); [intros ? [= <-]; lia|]. intros Hf. destruct (seek_sequence _ _ _ _) as [i|] eqn:Hs; [|done].
  intros [= <-]. apply seek_sequence_found in Hs as [[? _]|(Hle & view & _ & [Hb _])]; [done|]. specialize (Hle eq_refl). cbn in Hb. lia.
Qed.

Lemma collect_replacements_ok ls path hunks from rs : Forall (fun h => hk_end_of_file h = false) hunks -> from <= length ls ->
  collect_replacements ls path hunks from = Ok rs ->
  Forall2 (replaces ls) hunks rs /\ Forall (fun r => from <= rp_start r) rs /\ ForallOrdPairs apart rs.
Proof.
  intros Hall. revert from rs. induction Hall as [|h hunks Hh Hall IH]; intros from rs Hfrom; cbn [collect_replacements].
  - intros [= <-]. split_and!; constructor.
  - destruct (seek_context ls path h from) as [next|] eqn:Hc; [|done]. apply seek_context_bound in Hc; [|done].
    destruct (Nat.eqb_spec (length (old_lines (hk_changes h))) 0) as [Ho|Ho].
    + destruct (collect_replacements ls path hunks next) as [rs'|] eqn:Hr; [|done]. intros [= <-]. apply length_zero_iff_nil in Ho.
      apply IH in Hr as (H2 & Hge & Hap); [|lia]. split_and!.
      * constructor; [|done]. split; [unfold rp_end; cbn; lia|]. by left.
      * constructor; [cbn; lia|]. eapply Forall_impl; [exact Hge|]. intros y Hy. cbn in *. lia.
      * constructor; [|done]. rewrite Forall_forall. intros y Hy. apply list_elem_of_lookup in Hy as [k Hy].
        apply Forall2_lookup_r with (y := y) (i := k) in H2 as (hy & _ & [Hend _]); [|done]. unfold apart, before, rp_end in *. cbn.
        destruct (decide (rp_start y = length ls)); [left; lia|right; lia].
    + rewrite Hh. destruct (find_old ls _ _ next false) as [r|] eqn:Hf; [|done]. cbn [fmap option_fmap option_map].
      apply find_old_replaces in Hf as [Hrep Hge]; [|by destruct (old_lines _)|lia]. specialize (Hge eq_refl). pose proof Hrep as [Hend _]. unfold rp_end in Hend.
      destruct (collect_replacements ls path hunks _) as [rs'|] eqn:Hr; [|done]. intros [= <-].
      apply IH in Hr as (H2 & Hge' & Hap); [|lia]. split_and!.
      * by constructor.
      * constructor; [lia|]. eapply Forall_impl; [exact Hge'|]. intros y Hy. cbn in *. lia.
      * constructor; [|done]. eapply Forall_impl; [exact Hge'|]. intros y Hy. left. exact Hy.
Qed.

(** ** What a patch leaves of a file *)

(** The text of a list of lines, as the code writes it. *)
Definition text_of (ls : list string) : string := str_join nl (if ends_empty ls then ls else ls ++ [""]).

Lemma str_join_nil_end ls : str_join nl (ls ++ [""]) = file_of_lines ls.
Proof.
  induction ls as [|l ls IH]; [done|]. cbn [app]. destruct (ls ++ [""]) as [|x xs] eqn:E; [by destruct ls|].
  change (str_join nl (l :: x :: xs)) with (l +:+ nl +:+ str_join nl (x :: xs)). by rewrite IH.
Qed.

Lemma text_of_file ls : ends_empty ls = false -> text_of ls = file_of_lines ls.
Proof. unfold text_of. intros ->. apply str_join_nil_end. Qed.

Lemma split_lines_file ls : Forall (fun l => str_contains_char ch_newline l = false) ls -> split_lines (file_of_lines ls) = ls.
Proof.
  intros Hall. rewrite <- str_join_nil_end. unfold split_lines. rewrite split_join; [|by destruct ls|apply Forall_app; split; [done|by constructor]].
  unfold ends_empty. rewrite last_snoc. cbn. unfold but_last. by rewrite length_app, Nat.add_sub, take_app_length.
Qed.

(** C29: hunks change the lines they match.  When no hunk is anchored to the end of the file
    ([anchored_hunk_overlaps] is what happens otherwise), the hunks either do not apply, with
    the reason of the first that does not, or each is given lines of the file that look like
    its old lines (exactly, or up to white space at their ends, or up to Unicode punctuation);
    the places do not overlap, and the lines of the new file are those of the old one with
    these places spliced from left to right.  [text_of] then writes the lines, without the
    last one when it is empty: apart from that ([blank_last_line_lost]) no line outside the
    places changes.  In particular no index is out of range. *)
Theorem hunks_spliced path content hunks : Forall (fun h => hk_end_of_file h = false) hunks ->
  let ls := split_lines content in
  match collect_replacements ls path hunks 0 with
  | Err e => apply_hunks path content hunks = Some (Err e)
  | Ok rs => Forall2 (replaces ls) hunks rs /\ sort_by_start rs ≡ₚ rs /\ separated 0 (sort_by_start rs) (length ls)
             /\ apply_hunks path content hunks = Some (Ok (text_of (splice 0 (sort_by_start rs) ls)))
  end.
Proof.
  intros Hall ls. unfold apply_hunks, compute_replacements. fold ls. destruct (collect_replacements ls path hunks 0) as [rs|e] eqn:Hc; [|done].
  apply collect_replacements_ok in Hc as (H2 & _ & Hap); [|done|lia].
  assert (separated 0 (sort_by_start rs) (length ls)) as Hsep.
  { apply before_separated; [lia|by apply sort_before|]. rewrite sort_by_start_Permutation. apply Forall_forall. intros r [k Hr]%list_elem_of_lookup.
    split; [lia|]. apply Forall2_lookup_r with (y := r) (i := k) in H2 as (h & _ & [Hend _]); [exact Hend|done]. }
  split_and!; [done|apply sort_by_start_Permutation|done|]. rewrite (apply_replacements_splice _ 0) by done. cbn [mbind option_bind take drop firstn skipn app]. reflexivity.
Qed.

(** *** No index is out of range *)

Lemma remove_times_length {A} n i (l : list A) : i <= length l -> i <= length (remove_times n i l).
Proof.
  revert l. induction n as [|n IH]; intros l Hl; [done|]. cbn [remove_times]. destruct (Nat.ltb_spec i (length l)) as [Hi|Hi]; apply IH; [|done].
  destruct (lookup_lt_is_Some_2 l i Hi) as [x Hx]. rewrite (length_delete l i) by eauto. lia.
Qed.

Lemma insert_all_ok {A} i (new l : list A) : i <= length l -> exists l', insert_all i new l = Some l' /\ i <= length l'.
Proof.
  intros Hi. exists (take i l ++ new ++ drop i l). rewrite <- (take_drop i l) at 1. split; [|rewrite !length_app, length_take, length_drop; lia].
  apply inserted_at. rewrite length_take. lia.
Qed.

Lemma apply_sorted_ok ls rs pos : pos <= length ls -> Sorted (fun a b => rp_start a <= rp_start b) rs -> Forall (fun r => pos <= rp_start r <= length ls) rs ->
  exists ls', apply_replacements ls rs = Some ls' /\ pos <= length ls'.
Proof.
  intros Hp Hs. apply Sorted_StronglySorted in Hs; [|intros a b c; lia]. revert pos Hp. induction Hs as [|r rs Hs IH Hr]; intros pos Hp Hall; [by exists ls|].
  apply Forall_cons in Hall as [Hr1 Hall]. destruct (IH (rp_start r)) as (ls' & Ha & Hl); [lia| |].
  { rewrite !Forall_forall in *. intros y Hy. split; [by apply Hr|by apply Hall]. }
  unfold apply_replacements in *. cbn [foldr]. rewrite Ha. cbn [mbind option_bind]. unfold apply_replacement.
  destruct (insert_all_ok (rp_start r) (rp_new r) (remove_times (rp_old_len r) (rp_start r) ls')) as (l' & -> & Hl'); [by apply remove_times_length|].
  exists l'. split; [done|lia].
Qed.

Lemma sort_by_start_Sorted rs : Sorted (fun a b => rp_start a <= rp_start b) (sort_by_start rs).
Proof.
  induction rs as [|r rs IH]; [constructor|]. cbn. fold (sort_by_start rs). revert IH. generalize (sort_by_start rs) as l. induction l as [|y l IHl]; intros Hs; cbn; [by repeat constructor|].
  destruct (Nat.leb_spec (rp_start r) (rp_start y)) as [Hle|Hlt]; [constructor; [done|by constructor]|].
  apply Sorted_inv in Hs as [Hs Hy]. constructor; [by apply IHl|]. destruct l as [|z l]; cbn; [constructor; lia|].
  apply HdRel_inv in Hy. destruct (Nat.leb_spec (rp_start r) (rp_start z)); constructor; lia.
Qed.

Lemma collect_in_file ls path hunks from rs : from <= length ls -> collect_replacements ls path hunks from = Ok rs -> Forall (fun r => rp_end r <= length ls) rs.
Proof.
  revert from rs. induction hunks as [|h hunks IH]; intros from rs Hfrom; cbn [collect_replacements]; [intros [= <-]; constructor|].
  destruct (seek_context ls path h from) as [next|] eqn:Hc; [|done]. apply seek_context_bound in Hc; [|done].
  destruct (Nat.eqb_spec (length (old_lines (hk_changes h))) 0) as [Ho|Ho].
  - destruct (collect_replacements ls path hunks next) as [rs'|] eqn:Hr; [|done]. intros [= <-]. constructor; [unfold rp_end; cbn; lia|]. apply (IH next); [lia|done].
  - destruct (find_old ls _ _ next _) as [r|] eqn:Hf; [|done]. cbn [fmap option_fmap option_map]. apply find_old_replaces in Hf as [[Hend _] _]; [|by destruct (old_lines _)|lia].
    destruct (collect_replacements ls path hunks _) as [rs'|] eqn:Hr; [|done]. intros [= <-]. constructor; [done|]. eapply IH; [|exact Hr]. exact Hend.
Qed.

(** Applying hunks never panics, hunks anchored to the end of the file included: they give a
    new file or an error. *)
Theorem apply_hunks_total path content hunks : exists r, apply_hunks path content hunks = Some r.
Proof.
  unfold apply_hunks, compute_replacements. destruct (collect_replacements _ path hunks 0) as [rs|e] eqn:Hc; [|by eexists].
  destruct (apply_sorted_ok (split_lines content) (sort_by_start rs) 0) as (ls' & -> & _); [lia|apply sort_by_start_Sorted| |by eexists].
  rewrite sort_by_start_Permutation. apply collect_in_file in Hc; [|lia]. eapply Forall_impl; [exact Hc|]. intros r Hr. unfold rp_end in Hr. lia.
Qed.

(** ** A hunk with the very lines of the file *)

Lemma looks_like_middle view (pre old post : list string) : looks_like view (pre ++ old ++ post) old (length pre).
Proof. split; [rewrite !length_app; lia|]. by rewrite drop_app_length, take_app_length. Qed.

Lemma seek_exact pre old post : old <> [] -> (forall i, i < length pre -> take (length old) (drop i (pre ++ old ++ post)) <> old) ->
  seek_sequence (pre ++ old ++ post) old 0 false = Some (length pre).
Proof.
  intros Hold Hfirst. pose proof (seek_sequence_spec (pre ++ old ++ post) old 0 false Hold) as Hs. cbv zeta iota in Hs.
  destruct (seek_sequence _ _ _ _) as [i|].
  - destruct Hs as (_ & k & view & Hv & Hm & Hb & Hstrict). destruct k as [|k].
    + injection Hv as <-. f_equal. destruct (Nat.lt_trichotomy i (length pre)) as [Hlt|[->|Hgt]]; [|done|].
      * destruct (Hfirst i Hlt). destruct Hm as [_ Hm]. by rewrite !list_fmap_id in Hm.
      * destruct (Hb (length pre)); [lia|]. apply looks_like_middle.
    + destruct (Hstrict 0 id (length pre)); [lia|done|lia|apply looks_like_middle].
  - destruct (Hs id (length pre)); [unfold views; left|lia|apply looks_like_middle].
Qed.

(** A hunk cut from the file applies.  When the old lines of a hunk are lines of the file,
    it replaces their first occurrence by its new lines and nothing else; so any two versions
    of a file are related by a patch.  (A file whose last line is empty is the exception:
    see [blank_last_line_lost].) *)
Theorem exact_hunk_applies path pre cs post :
  let old := old_lines cs in
  let new := new_lines cs in
  old <> [] -> (forall i, i < length pre -> take (length old) (drop i (pre ++ old ++ post)) <> old) ->
  Forall (fun l => str_contains_char ch_newline l = false) (pre ++ old ++ post) -> ends_empty (pre ++ new ++ post) = false ->
  apply_hunks path (file_of_lines (pre ++ old ++ post)) [mkHunk "" cs false] = Some (Ok (file_of_lines (pre ++ new ++ post))).
Proof.
  intros old new Hold Hfirst Hall Hend. unfold apply_hunks, compute_replacements. rewrite split_lines_file by done. cbn [collect_replacements hk_changes hk_end_of_file].
  fold old new. change (seek_context _ _ (mkHunk "" cs false) 0) with (@Ok nat string 0). cbv iota.
  rewrite (proj2 (Nat.eqb_neq _ 0)) by (by destruct old). unfold find_old. rewrite seek_exact by done. cbn [fmap option_fmap option_map sort_by_start foldr insert_by_start].
  rewrite (apply_replacements_splice _ 0).
  - cbn [splice mbind option_bind rp_start rp_old_len rp_new]. rewrite !Nat.sub_0_r, take_0, drop_0, take_app_length. cbn [app].
    assert (drop (length pre + length old) (pre ++ old ++ post) = post) as -> by (by rewrite app_assoc, <- length_app, drop_app_length).
    rewrite Hend. by rewrite str_join_nil_end.
  - cbn. rewrite !length_app. lia.
Qed.

(** ** The files of a sandbox *)

(** The files [fs'] are [fs] but for the one at [k]. *)
Definition same_but (k : string) (fs fs' : gmap string string) : Prop := delete k fs' = delete k fs.

(** What a sandbox promises, on the files it holds: their bytes by resolved path.  [resolve]
    is how the sandbox finds the file of a path ([a] and [./a] are one file); it does not
    change while a patch is applied, and no two resolved paths are links to one file.  A
    write that fails may leave anything in the file it was writing (the local sandbox
    truncates before it writes), a deletion that fails may have deleted.  A path that exists
    may be a directory; what exists and could be deleted was a file. *)
Class PatchFilesLaws (W : Type) `{!PatchFiles W} (files : W -> gmap string string) (resolve : string -> string) := {
  write_file_ok : forall p c w w', write_file p c w = (Ok tt, w') -> files w' = <[resolve p := c]> (files w);
  write_file_err : forall p c e w w', write_file p c w = (Err e, w') -> same_but (resolve p) (files w) (files w');
  file_exists_same : forall p r w w', file_exists p w = (r, w') -> files w' = files w;
  existing_deleted : forall p w w1 w2, file_exists p w = (Ok true, w1) -> delete_file p w1 = (Ok tt, w2) -> is_Some (files w !! resolve p);
  delete_file_ok : forall p w w', delete_file p w = (Ok tt, w') -> files w' = delete (resolve p) (files w);
  delete_file_err : forall p e w w', delete_file p w = (Err e, w') -> files w' = files w \/ files w' = delete (resolve p) (files w);
  read_file_ok : forall p c w w', read_file_text p w = (Ok c, w') -> files w !! resolve p = Some c /\ files w' = files w;
  read_file_err : forall p e w w', read_file_text p w = (Err e, w') -> files w' = files w
}.

Section meaning.
Context (resolve : string -> string).

(** What an operation means for the files. *)
Definition patched (op : PatchOperation) (fs : gmap string string) : option (gmap string string) :=
  match op with
  | PatchAdd path content => Some (<[resolve path := content]> fs)
  | PatchDelete path => if is_some (fs !! resolve path) then Some (delete (resolve path) fs) else None
  | PatchUpdate path new_path hunks =>
      content ← fs !! resolve path;
      match apply_hunks path content hunks with
      | Some (Ok updated) =>
          let fs := <[resolve (default path new_path) := updated]> fs in
          Some (if is_some new_path then delete (resolve path) fs else fs)
      | _ => None
      end
  end.

Fixpoint patched_all (ops : list PatchOperation) (fs : gmap string string) : option (gmap string string) :=
  match ops with
  | [] => Some fs
  | op :: ops => fs ← patched op fs; patched_all ops fs
  end.

(** What an operation that failed may leave: the files as they were but for the one it was
    adding, deleting or writing; or the file at its new place, and perhaps not yet gone from
    the old one. *)
Definition left_behind (op : PatchOperation) (fs fs' : gmap string string) : Prop :=
  match op with
  | PatchAdd path _ | PatchDelete path => same_but (resolve path) fs fs'
  | PatchUpdate path new_path hunks =>
      same_but (resolve (default path new_path)) fs fs'
      \/ exists to content updated, new_path = Some to /\ fs !! resolve path = Some content
           /\ apply_hunks path content hunks = Some (Ok updated) /\ same_but (resolve path) (<[resolve to := updated]> fs) fs'
  end.
End meaning.

(** The paths of a list of operations, as the summary lists them. *)
Definition summary_add (op : PatchOperation) (sm : Summary) : Summary :=
  match op with
  | PatchAdd path _ => mkSummary (sm_added sm ++ [path]) (sm_modified sm) (sm_deleted sm)
  | PatchDelete path => mkSummary (sm_added sm) (sm_modified sm) (sm_deleted sm ++ [path])
  | PatchUpdate path new_path _ => mkSummary (sm_added sm) (sm_modified sm ++ [default path new_path]) (sm_deleted sm)
  end.
Definition summary_of (ops : list PatchOperation) (sm : Summary) : Summary := foldl (fun sm op => summary_add op sm) sm ops.

Section refinement.
Context {W : Type} `{!PatchFiles W} (files : W -> gmap string string) (resolve : string -> string) `{!PatchFilesLaws W files resolve}.
Implicit Types (w : W).

Lemma same_but_refl k fs : same_but k fs fs.
Proof. done. Qed.
Lemma same_but_deleted k fs fs' : fs' = fs \/ fs' = delete k fs -> same_but k fs fs'.
Proof. intros [->| ->]; [done|apply delete_delete_eq]. Qed.

(** A failed operation: one that means nothing for the files has not changed them. *)
Definition op_failed op (fs fs' : gmap string string) : Prop := (patched resolve op fs = None -> fs' = fs) /\ left_behind resolve op fs fs'.

Lemma untouched_failed op fs : op_failed op fs fs.
Proof. split; [done|]. destruct op; [done|done|by left]. Qed.

Lemma add_refines path content w r w' : apply_add path content w = (r, w') ->
  match r with
  | Ok _ => patched resolve (PatchAdd path content) (files w) = Some (files w')
  | Err _ => op_failed (PatchAdd path content) (files w) (files w')
  end.
Proof.
  unfold apply_add. destruct (write_file path content w) as [[[]|e] w1] eqn:Hw; intros [= <- <-].
  - cbn. by rewrite (write_file_ok (files := files) _ _ _ _ Hw).
  - split; [done|]. by apply (write_file_err (files := files) _ _ _ _ _ Hw).
Qed.

Lemma delete_op_refines path w r w' : apply_delete path w = (r, w') ->
  match r with
  | Ok _ => patched resolve (PatchDelete path) (files w) = Some (files w')
  | Err _ => op_failed (PatchDelete path) (files w) (files w')
  end.
Proof.
  unfold apply_delete. destruct (file_exists path w) as [x w1] eqn:Hx. pose proof (file_exists_same (files := files) _ _ _ _ Hx) as Hf.
  destruct x as [[]|e]; [|intros [= <- <-]; rewrite Hf; apply untouched_failed..].
  destruct (delete_file path w1) as [[[]|e] w2] eqn:Hd; intros [= <- <-].
  - cbn. destruct (existing_deleted (files := files) _ _ _ _ Hx Hd) as [c Hc]. by rewrite Hc, (delete_file_ok (files := files) _ _ _ Hd), Hf.
  - pose proof (delete_file_err (files := files) _ _ _ _ Hd) as He. rewrite Hf in He. split; [|by apply same_but_deleted].
    cbn. destruct (files w !! resolve path) as [c|] eqn:Hc; [done|]. intros _. destruct He as [->| ->]; [done|]. by apply delete_id.
Qed.

Lemma update_refines path new_path hunks w r w' : apply_update path new_path hunks w = Some (r, w') ->
  match r with
  | Ok _ => patched resolve (PatchUpdate path new_path hunks) (files w) = Some (files w')
  | Err _ => op_failed (PatchUpdate path new_path hunks) (files w) (files w')
  end.
Proof.
  unfold apply_update. destruct (read_file_text path w) as [[content|e] w1] eqn:Hr; cbn [mbind option_bind].
  2: { intros [= <- <-]. rewrite (read_file_err (files := files) _ _ _ _ Hr). apply untouched_failed. }
  destruct (read_file_ok (files := files) _ _ _ _ Hr) as [Hc Hf]. destruct (apply_hunks path content hunks) as [[updated|e]|] eqn:Ha; cbn [mbind option_bind].
  3: done. 2: intros [= <- <-]; rewrite Hf; apply untouched_failed.
  assert (patched resolve (PatchUpdate path new_path hunks) (files w)
          = Some (let fs := <[resolve (default path new_path) := updated]> (files w) in if is_some new_path then delete (resolve path) fs else fs)) as Hp
    by (cbn; rewrite Hc; cbn; by rewrite Ha).
  destruct (write_file (default path new_path) updated w1) as [[[]|e] w2] eqn:Hw.
  2: { intros [= <- <-]. split; [by rewrite Hp|]. left. rewrite <- Hf. by apply (write_file_err (files := files) _ _ _ _ _ Hw). }
  pose proof (write_file_ok (files := files) _ _ _ _ Hw) as Hw'. rewrite Hf in Hw'. destruct new_path as [to|]; cbn [is_some].
  2: intros [= <- <-]; by rewrite Hp, Hw'.
  destruct (delete_file path w2) as [[[]|e] w3] eqn:Hd; intros [= <- <-].
  - by rewrite Hp, (delete_file_ok (files := files) _ _ _ Hd), Hw'.
  - split; [by rewrite Hp|]. right. exists to, content, updated. split_and!; [done..|]. apply same_but_deleted. cbn in Hw'. rewrite <- Hw'. by apply (delete_file_err (files := files) _ _ _ _ Hd).
Qed.

Lemma apply_operation_refines op sm w r w' : apply_operation op sm w = Some (r, w') ->
  match r with
  | Ok sm' => patched resolve op (files w) = Some (files w') /\ sm' = summary_add op sm
  | Err _ => op_failed op (files w) (files w')
  end.
Proof.
  destruct op as [path content|path|path new_path hunks]; cbn [apply_operation].
  - destruct (apply_add path content w) as [[[]|e] w1] eqn:Ho; intros [= <- <-]; by apply add_refines in Ho.
  - destruct (apply_delete path w) as [[[]|e] w1] eqn:Ho; intros [= <- <-]; by apply delete_op_refines in Ho.
  - destruct (apply_update path new_path hunks w) as [[[[]|e] w1]|] eqn:Ho; cbn [mbind option_bind]; [..|done]; intros [= <- <-]; by apply update_refines in Ho.
Qed.

Lemma apply_operations_refines ops sm w r w' : apply_operations ops sm w = Some (r, w') ->
  match r with
  | Ok sm' => patched_all resolve ops (files w) = Some (files w') /\ sm' = summary_of ops sm
  | Err _ => exists done op rest fs, ops = done ++ op :: rest /\ patched_all resolve done (files w) = Some fs /\ op_failed op fs (files w')
  end.
Proof.
  revert sm w. induction ops as [|op ops IH]; intros sm w; cbn [apply_operations patched_all]; [by intros [= <- <-]|].
  destruct (apply_operation op sm w) as [[[sm1|e] w1]|] eqn:Ho; cbn [mbind option_bind]; [| |done].
  - apply apply_operation_refines in Ho as [Hp ->]. intros Hrest. specialize (IH _ _ Hrest). rewrite Hp. cbn [mbind option_bind]. destruct r as [sm'|e]; [done|].
    destruct IH as (before & op' & rest & fs & -> & Hd & Hw). exists (op :: before), op', rest, fs. split; [done|]. cbn. by rewrite Hp.
  - intros [= <- <-]. apply apply_operation_refines in Ho. by exists [], op, ops, (files w).
Qed.

Lemma apply_operations_total ops sm w : exists x, apply_operations ops sm w = Some x.
Proof using.
  clear files PatchFilesLaws0. revert sm w. induction ops as [|op ops IH]; intros sm w; cbn [apply_operations]; [by eexists|].
  assert (exists x, apply_operation op sm w = Some x) as [[[sm1|e] w1] ->]; cbn [mbind option_bind]; [|apply IH|by eexists].
  destruct op as [path content|path|path new_path hunks]; cbn [apply_operation]; [by eexists..|].
  unfold apply_update. destruct (read_file_text path w) as [[content|e] w1]; cbn [mbind option_bind]; [|by eexists].
  destruct (apply_hunks_total path content hunks) as [r ->]. cbn [mbind option_bind]. by eexists.
Qed.

(** C28: the patch tool always ends with an answer, and does to the files of a sandbox what the
    operations of the patch mean, in order, and reports them.  When an operation fails, the
    ones before it stay done and those after it are not begun.  The failing one has changed
    nothing when it means nothing for the files, because the file to update or delete is not
    there or its hunks do not apply; otherwise a write or a deletion of the sandbox failed,
    and the files are as they were but for the one that was being written or deleted, or,
    when a file was moved, with the new file in place and the old one perhaps not removed.
    The sandbox is any that satisfies [PatchFilesLaws]. *)
Theorem patch_tool_refines text w : exists r w', apply_patch_tool (Some text) w = Some (r, w') /\
  match parse_apply_patch text with
  | Err e => r = Err e /\ w' = w
  | Ok ops =>
      match r with
      | Ok summary => ops <> [] /\ patched_all resolve ops (files w) = Some (files w')
                      /\ let sm := summary_of ops (mkSummary [] [] []) in summary = format_summary (sm_added sm) (sm_modified sm) (sm_deleted sm)
      | Err _ => (ops = [] /\ w' = w)
                 \/ exists done op rest fs, ops = done ++ op :: rest /\ patched_all resolve done (files w) = Some fs
                      /\ (patched resolve op fs = None -> files w' = fs) /\ left_behind resolve op fs (files w')
      end
  end.
Proof.
  cbn [apply_patch_tool]. destruct (parse_apply_patch text) as [ops|e]; [|by eexists _, _]. unfold apply_patch_operations.
  destruct ops as [|op ops]; [eexists _, _; split; [done|]; by left|].
  destruct (apply_operations_total (op :: ops) (mkSummary [] [] []) w) as [[[sm|e] w1] Ha]; rewrite Ha; cbn [mbind option_bind]; eexists _, _; (split; [reflexivity|]).
  - apply apply_operations_refines in Ha as [Hp ->]. split; [done|]. by split.
  - right. by apply apply_operations_refines in Ha.
Qed.
End refinement.

(** ** A sandbox that is a map of files *)

Module PatchRuns.

(** Files by resolved path, the directories, and the files that cannot be written: the local
    sandbox truncates such a file before it fails. *)
Record Folder := mkFolder { fo_files : gmap string string; fo_dirs : gset string; fo_full : gset string }.
Definition put_files (fs : gmap string string) (w : Folder) : Folder := mkFolder fs (fo_dirs w) (fo_full w).
Definition resolved (p : string) : string := default p (strip_prefix "./" p).

#[local] Instance map_files : PatchFiles Folder := {|
  write_file := fun p c w =>
    if decide (resolved p ∈ fo_full w) then (Err "No space left on device", put_files (<[resolved p := ""%string]> (fo_files w)) w)
    else (Ok tt, put_files (<[resolved p := c]> (fo_files w)) w);
  file_exists := fun p w => (Ok (bool_decide (is_Some (fo_files w !! resolved p)) || bool_decide (resolved p ∈ fo_dirs w)), w);
  delete_file := fun p w =>
    if is_some (fo_files w !! resolved p) then (Ok tt, put_files (delete (resolved p) (fo_files w)) w) else (Err "Operation not permitted", w);
  read_file_text := fun p w => match fo_files w !! resolved p with Some c => (Ok c, w) | None => (Err "not found", w) end
|}.

#[local] Instance map_files_laws : PatchFilesLaws Folder fo_files resolved.
Proof.
  split; cbn -[resolved]; intros p.
  - intros c w w'. case_decide; [done|]. by intros [= <-].
  - intros c e w w'. case_decide; [|done]. intros [= _ <-]. apply delete_insert_eq.
  - by intros r w w' [= _ <-].
  - intros w w1 w2 [= _ <-]. destruct (fo_files w !! resolved p); cbn -[resolved]; [intros _; by eexists|done].
  - intros w w'. destruct (is_some _); [by intros [= <-]|done].
  - intros e w w'. destruct (is_some _); [done|]. intros [= _ <-]. by left.
  - intros c w w'. destruct (fo_files w !! resolved p) eqn:Hp; [|done]. by intros [= <- <-].
  - intros e w w'. destruct (fo_files w !! resolved p); [done|by intros [= _ <-]].
Qed.

(** A patch that adds a file, edits and moves another and deletes a third. *)
Definition sample_ops : list PatchOperation :=
  [PatchAdd "new.txt" (file_of_lines ["hello"]);
   PatchUpdate "a.rs" (Some "b.rs") [mkHunk "fn main" [Keep "x"; Remove "y"; Add "z"] false];
   PatchDelete "old.txt"].
Definition folder_of (fs : list (string * string)) : Folder := mkFolder (list_to_map fs) {["src"]} {["full.txt"]}.
Definition sample_files : Folder := folder_of [("a.rs", file_of_lines ["fn main"; "x"; "y"]); ("old.txt", "")].
Definition sample_result : result string string * Folder :=
  default (Err "", sample_files) (apply_patch_tool (Some (print_patch sample_ops)) sample_files).

Lemma parse_print_patch_witness : parse_apply_patch (print_patch sample_ops) = Ok sample_ops.
Proof. apply (parse_print_patch sample_ops). vm_compute. reflexivity. Defined.

Lemma patch_tool_refines_witness : patched_all resolved sample_ops (fo_files sample_files) = Some (fo_files sample_result.2).
Proof.
  destruct (patch_tool_refines fo_files resolved (print_patch sample_ops) sample_files) as (r & w' & Ht & H).
  assert (parse_apply_patch (print_patch sample_ops) = Ok sample_ops) as Hp by (vm_compute; reflexivity). rewrite Hp in H.
  assert (exists s, apply_patch_tool (Some (print_patch sample_ops)) sample_files = Some (Ok s, sample_result.2)) as [s Hs] by (eexists; vm_compute; reflexivity).
  rewrite Hs in Ht. injection Ht as <- <-. apply H.
Defined.

Lemma hunks_spliced_witness :
  apply_hunks "f" (file_of_lines ["a"; "b"; "c"]) [mkHunk "" [Keep "a"; Remove "b"; Add "B"] false]
  = Some (Ok (text_of (splice 0 [mkRepl 0 2 ["a"; "B"]] ["a"; "b"; "c"]))).
Proof.
  assert (Forall (fun h => hk_end_of_file h = false) [mkHunk "" [Keep "a"; Remove "b"; Add "B"] false]) as Hall by (repeat constructor).
  pose proof (hunks_spliced "f" (file_of_lines ["a"; "b"; "c"]) _ Hall) as H.
  change (split_lines (file_of_lines ["a"; "b"; "c"])) with ["a"; "b"; "c"] in H.
  change (collect_replacements _ _ _ 0) with (@Ok (list Replacement) string [mkRepl 0 2 ["a"; "B"]]) in H.
  destruct H as (_ & _ & _ & H). exact H.
Defined.

Lemma exact_hunk_applies_witness :
  apply_hunks "f" (file_of_lines (["a"] ++ ["b"] ++ ["c"])) [mkHunk "" [Remove "b"; Add "B"] false] = Some (Ok (file_of_lines (["a"] ++ ["B"] ++ ["c"]))).
Proof.
  apply (exact_hunk_applies "f" ["a"] [Remove "b"; Add "B"] ["c"]).
  - discriminate.
  - intros i Hi. assert (i = 0) as -> by (cbn in Hi; lia). discriminate.
  - repeat constructor.
  - reflexivity.
Defined.

(** *** Corners *)

(** A file that ends with an empty line loses it, whatever the hunk changes. *)
Theorem blank_last_line_lost :
  apply_hunks "f" (file_of_lines ["a"; ""]) [mkHunk "" [Remove "a"; Add "b"] false] = Some (Ok (file_of_lines ["b"])).
Proof. vm_compute. reflexivity. Qed.

(** Moving a file onto itself deletes it. *)
Theorem move_onto_itself_deletes :
  let ops := [PatchUpdate "a.rs" (Some "a.rs") [mkHunk "" [Remove "y"; Add "z"] false]] in
  (apply_patch_tool (Some (print_patch ops)) (folder_of [("a.rs", file_of_lines ["y"])]))
  = Some (Ok (format_summary [] ["a.rs"] []), folder_of []).
Proof. vm_compute. reflexivity. Qed.

(** A write that fails may have emptied the file, and the answer does not tell. *)
Theorem failed_write_empties :
  let ops := [PatchUpdate "./full.txt" None [mkHunk "" [Remove "y"; Add "z"] false]] in
  apply_patch_tool (Some (print_patch ops)) (folder_of [("full.txt", file_of_lines ["y"])])
  = Some (Err "Failed to write file ./full.txt: No space left on device", folder_of [("full.txt", "")]).
Proof. vm_compute. reflexivity. Qed.

(** A hunk anchored to the end may overlap the hunk before it: the line that the second keeps
    is gone. *)
Theorem anchored_hunk_overlaps :
  apply_hunks "f" (file_of_lines ["a"; "b"; "c"])
    [mkHunk "" [Remove "a"; Remove "b"; Add "X"] false; mkHunk "" [Keep "b"; Remove "c"; Add "Y"] true]
  = Some (Ok (file_of_lines ["X"; "Y"])).
Proof. vm_compute. reflexivity. Qed.

(** A hunk that only adds lines adds them at the end of the file, not below its context line. *)
Theorem insertion_ignores_context :
  apply_hunks "f" (file_of_lines ["fn a"; "fn b"]) [mkHunk "fn a" [Add "x"] false] = Some (Ok (file_of_lines ["fn a"; "fn b"; "x"])).
Proof. vm_compute. reflexivity. Qed.

(** The grammar handed to models lets the first lines of an update stand without a context
    line, and a move without changes; the parser takes neither. *)
Theorem grammar_wider_than_parser :
  parse_apply_patch (file_of_lines ["*** Begin Patch"; "*** Update File: f"; "-a"; "+b"; "*** End Patch"]) = Err "Expected @@ context line, got: -a"
  /\ parse_apply_patch (file_of_lines ["*** Begin Patch"; "*** Update File: f"; "*** Move to: g"; "*** End Patch"])
     = Err "Update file hunk for path 'f' is empty".
Proof. vm_compute. split; reflexivity. Qed.
End PatchRuns.
