(* ===== verification/Steering.v ===== *)
(** * Steering agents (fabro-workflow/src/steering_hub.rs, fabro-agent/src/session.rs)

    Messages from outside reach the agents of a run through a hub.  It knows which session is
    live for which stage, gives every message to all of them, and keeps messages that arrive
    while there is none.  A person can also pair with one session.

    Every function here is what the code does under a lock; the sections that one call goes
    through one after the other ([drain_pending_into], [start_pair]) are steps of their own, so
    that lists of operations are interleavings.  Handles are indices into the list of sessions.
    The events the hub emits are kept as they are emitted; their stored form is not modelled. *)

From S2P Require Import Prelude RustStr GraphTypes Context StageIds Projection EventLife.
Local Open Scope string_scope.
Local Open Scope list_scope.
Local Open Scope Z_scope.

(** ** Sessions *)

Inductive SteeringItem := SiSteering (text : string) (actor : option Principal) | SiUser (text : string) | SiSystem (text : string).

Definition item_actor (i : SteeringItem) : option Principal := match i with SiSteering _ actor => actor | SiUser _ | SiSystem _ => None end.

Record ControlState := mkControlState {
  cs_queue : list SteeringItem;
  cs_waiting_for_steer : bool;
  cs_interrupt_generation : Z;
  cs_settled_interrupt_generation : Z
}.

(** A session as far as its control handle reaches: the messages it has taken into its history
    and the interruptions it has reported. *)
Record Session := mkSession {
  sn_control : ControlState;
  sn_round_cancelled : bool;
  sn_history : list SteeringItem;
  sn_interrupted : list Z
}.

Definition session_new : Session := mkSession (mkControlState [] false 0 0) false [] [].

Section handle.
Implicit Types (s : Session).

Definition set_control (c : ControlState) s : Session := mkSession c (sn_round_cancelled s) (sn_history s) (sn_interrupted s).
Definition cancel_round s : Session := mkSession (sn_control s) true (sn_history s) (sn_interrupted s).
Definition next_generation (g : Z) : Z := Z.min (g + 1) u64_max.

Definition handle_interrupt s : Session :=
  let c := sn_control s in
  cancel_round (set_control (mkControlState (cs_queue c) (if bool_decide (cs_queue c = []) then true else cs_waiting_for_steer c)
                               (next_generation (cs_interrupt_generation c)) (cs_settled_interrupt_generation c)) s).

Definition park_for_steer s : Session :=
  let c := sn_control s in
  set_control (mkControlState (cs_queue c) (if bool_decide (cs_queue c = []) then true else cs_waiting_for_steer c)
                 (cs_interrupt_generation c) (cs_settled_interrupt_generation c)) s.

(** The oldest item makes room. *)
Definition evict (cap : nat) (q : list SteeringItem) : option SteeringItem * list SteeringItem :=
  match q with
  | i :: q' => if Nat.leb cap (length q) then (Some i, q') else (None, q)
  | [] => (None, [])
  end.

Definition push_bounded (i : SteeringItem) (cap : nat) s : option SteeringItem * Session :=
  let c := sn_control s in
  let '(evicted, q) := evict cap (cs_queue c) in
  (evicted, set_control (mkControlState (q ++ [i]) false (cs_interrupt_generation c) (cs_settled_interrupt_generation c)) s).

Definition try_enqueue_bounded (i : SteeringItem) (cap : nat) s : bool * Session :=
  let c := sn_control s in
  if Nat.leb cap (length (cs_queue c)) then (false, s)
  else (true, set_control (mkControlState (cs_queue c ++ [i]) false (cs_interrupt_generation c) (cs_settled_interrupt_generation c)) s).

Definition interrupt_then_enqueue_bounded (i : SteeringItem) (cap : nat) s : option SteeringItem * Session :=
  let c := sn_control s in
  let '(evicted, q) := evict cap (cs_queue c) in
  (evicted, cancel_round (set_control (mkControlState (q ++ [i]) false (next_generation (cs_interrupt_generation c)) (cs_settled_interrupt_generation c)) s)).

Definition has_pending_control_work s : bool := (negb (bool_decide (cs_queue (sn_control s) = [])) || cs_waiting_for_steer (sn_control s))%bool.

(** The generations from [first] to [last]. *)
Definition generations (first last : Z) : list Z := (fun k => first + Z.of_nat k) <$> seq 0 (Z.to_nat (last + 1 - first)).

(** The top of a round: a fresh token, and the interruptions since the last round. *)
Definition begin_round s : Session :=
  if sn_round_cancelled s then
    let c := sn_control s in
    let settled := mkControlState (cs_queue c) (cs_waiting_for_steer c) (cs_interrupt_generation c) (cs_interrupt_generation c) in
    mkSession settled false (sn_history s)
      (sn_interrupted s ++ generations (next_generation (cs_settled_interrupt_generation c)) (cs_interrupt_generation c))
  else s.

Definition drain_steering s : Session :=
  let c := sn_control s in
  mkSession (mkControlState [] (cs_waiting_for_steer c) (cs_interrupt_generation c) (cs_settled_interrupt_generation c))
    (sn_round_cancelled s) (sn_history s ++ cs_queue c) (sn_interrupted s).

Definition should_wait s : bool := (cs_waiting_for_steer (sn_control s) && bool_decide (cs_queue (sn_control s) = []))%bool.
End handle.

(** ** The hub *)

Definition PER_SESSION_QUEUE_CAP : nat := 32.
Definition PER_RUN_PENDING_CAP : nat := 32.

Inductive PairStatus := PairActive | PairEnded | PairFailed.
#[export] Instance PairStatus_eq_dec : EqDecision PairStatus.
Proof. solve_decision. Defined.

Record PairTarget := mkPairTarget { pt_stage_id : StageId; pt_node_label : string }.
Record PairRecord := mkPairRecord {
  pr_pair_id : string;
  pr_run_id : string;
  pr_status : PairStatus;
  pr_started_at : Z;
  pr_ended_at : option Z;
  pr_failure_reason : option string;
  pr_target : PairTarget
}.
Record PairMessageRecord := mkPairMessage {
  pm_message_id : string;
  pm_client_message_id : option string;
  pm_pair_id : string;
  pm_run_id : string;
  pm_stage_id : StageId;
  pm_text : string;
  pm_accepted_at : Z
}.

Inductive PairControlError := AlreadyPaired | PairNotCurrent | PairNotActive | TargetNotActive | MessageNotAccepted.
Inductive RunPairEndedReason := UserRequested | PairRunEnded | SessionEnded.
Inductive AgentSteerDroppedReason := QueueFull | SteerRunEnded.
Inductive PairSystemMessageKind := HumanJoined | HumanLeft.

Inductive HubEvent :=
| HeRunSteer (text : string) (actor : option Principal)
| HeRunInterrupt (actor : option Principal)
| HeSteerDropped (reason : AgentSteerDroppedReason) (count : Z) (actor : option Principal) (stage : option StageId)
| HeSteerBuffered (actor : option Principal)
| HeInterruptInjected (stage : StageId) (session_id : string) (actor : option Principal)
| HePairStarted (pair_id : string) (target : PairTarget) (actor : option Principal)
| HePairEnded (pair_id : string) (reason : RunPairEndedReason) (actor : option Principal)
| HePairSystemMessage (stage : StageId) (session_id pair_id : string) (kind : PairSystemMessageKind) (text : string)
| HePairUserMessage (stage : StageId) (session_id pair_id message_id : string) (client_message_id : option string) (text : string) (actor : option Principal)
| HeSessionActivated (stage : StageId) (session_id : string)
| HeSessionDeactivated (stage : StageId) (session_id : string).

Record ActiveEntry := mkEntry { ae_handle : nat; ae_pair_handle : option nat; ae_session_id : string }.
Record ActivePair := mkActivePair { ap_record : PairRecord; ap_session_id : string }.

(** [hb_draining] and [hb_pairing] are the calls between two sections: items taken out of the
    buffer on their way to a session, and a pairing between looking up its session and
    starting. *)
Record Pairing := mkPairing { pg_run_id : string; pg_pair_id : string; pg_target : PairTarget; pg_actor : option Principal; pg_entry : ActiveEntry; pg_handle : nat }.
Record Draining := mkDraining { dr_stage : StageId; dr_handle : nat; dr_items : list SteeringItem }.

Record Hub := mkHub {
  hb_sessions : list Session;
  hb_active : gmap StageId ActiveEntry;
  hb_pair : option ActivePair;
  hb_pending : list SteeringItem;
  hb_draining : list Draining;
  hb_pairing : list Pairing;
  hb_log : list HubEvent
}.

(** The order in which a [HashMap] is walked. *)
Class ActiveOrder := {
  active_iter : gmap StageId ActiveEntry -> list (StageId * ActiveEntry);
  active_iter_perm : forall m, active_iter m ≡ₚ map_to_list m
}.

Definition human_joined_text : string :=
  "A human has joined this workflow run for live pairing. Wait for their next message before continuing.".
Definition human_left_text : string := "The human has ended live pairing. Continue autonomously with the workflow.".

Section hub.
Context `{ActiveOrder}.
Implicit Types (s : Hub).

Definition hub_emit (e : HubEvent) s : Hub :=
  mkHub (hb_sessions s) (hb_active s) (hb_pair s) (hb_pending s) (hb_draining s) (hb_pairing s) (hb_log s ++ [e]).
Definition set_session (h : nat) (n : Session) s : Hub :=
  mkHub (<[h := n]> (hb_sessions s)) (hb_active s) (hb_pair s) (hb_pending s) (hb_draining s) (hb_pairing s) (hb_log s).
Definition set_active (m : gmap StageId ActiveEntry) s : Hub :=
  mkHub (hb_sessions s) m (hb_pair s) (hb_pending s) (hb_draining s) (hb_pairing s) (hb_log s).
Definition set_pair (p : option ActivePair) s : Hub :=
  mkHub (hb_sessions s) (hb_active s) p (hb_pending s) (hb_draining s) (hb_pairing s) (hb_log s).
Definition set_pending (q : list SteeringItem) s : Hub :=
  mkHub (hb_sessions s) (hb_active s) (hb_pair s) q (hb_draining s) (hb_pairing s) (hb_log s).
Definition set_draining (l : list Draining) s : Hub :=
  mkHub (hb_sessions s) (hb_active s) (hb_pair s) (hb_pending s) l (hb_pairing s) (hb_log s).
Definition set_pairing (l : list Pairing) s : Hub :=
  mkHub (hb_sessions s) (hb_active s) (hb_pair s) (hb_pending s) (hb_draining s) l (hb_log s).
Definition session_at (h : nat) s : Session := default session_new (hb_sessions s !! h).
Definition on_session (h : nat) (f : Session -> Session) s : Hub := set_session h (f (session_at h s)) s.

Definition attach_entry (stage : StageId) (session_id : string) (handle : nat) (pair_handle : option nat) s : bool * Hub :=
  match hb_active s !! stage with
  | Some e =>
      if negb (String.eqb (ae_session_id e) session_id) then (false, s)
      else (true, set_active (<[stage := mkEntry handle (if is_some pair_handle then pair_handle else ae_pair_handle e) (ae_session_id e)]> (hb_active s)) s)
  | None => (true, set_active (<[stage := mkEntry handle pair_handle session_id]> (hb_active s)) s)
  end.
Definition attach_handle (stage : StageId) (session_id : string) (handle : nat) s : bool * Hub := attach_entry stage session_id handle None s.
Definition attach_pairable_handle (stage : StageId) (session_id : string) (handle : nat) s : bool * Hub :=
  attach_entry stage session_id handle (Some handle) s.

Definition enqueue_into_session_queue (handle : nat) (i : SteeringItem) (stage : option StageId) s : Hub :=
  let '(evicted, n) := push_bounded i PER_SESSION_QUEUE_CAP (session_at handle s) in
  let s := set_session handle n s in
  match evicted with
  | Some old => hub_emit (HeSteerDropped QueueFull 1 (item_actor old) stage) s
  | None => s
  end.

(** [drain_pending_into]: the buffer is emptied under its lock, and then its items are pushed
    one by one. *)
Definition take_pending (stage : StageId) (handle : nat) s : Hub :=
  set_draining (hb_draining s ++ [mkDraining stage handle (hb_pending s)]) (set_pending [] s).
Definition push_taken (k : nat) s : Hub :=
  match hb_draining s !! k with
  | Some d =>
      match dr_items d with
      | i :: items => enqueue_into_session_queue (dr_handle d) i (Some (dr_stage d)) (set_draining (<[k := mkDraining (dr_stage d) (dr_handle d) items]> (hb_draining s)) s)
      | [] => s
      end
  | None => s
  end.
Definition drain_pending_into (stage : StageId) (handle : nat) s : Hub :=
  foldl (fun s i => enqueue_into_session_queue handle i (Some stage) s) (set_pending [] s) (hb_pending s).

Definition end_active_pair_for_target (stage : StageId) (session_id : string) (reason : RunPairEndedReason) s : bool * Hub :=
  match hb_pair s with
  | Some p =>
      if (negb (bool_decide (pr_status (ap_record p) = PairActive)) || negb (bool_decide (pt_stage_id (pr_target (ap_record p)) = stage))
          || negb (String.eqb (ap_session_id p) session_id))%bool
      then (false, s)
      else (true, hub_emit (HePairEnded (pr_pair_id (ap_record p)) reason None) (set_pair None s))
  | None => (false, s)
  end.

Definition end_active_pair (reason : RunPairEndedReason) s : bool * Hub :=
  match hb_pair s with
  | Some p =>
      if bool_decide (pr_status (ap_record p) = PairActive)
      then (true, hub_emit (HePairEnded (pr_pair_id (ap_record p)) reason None) (set_pair None s))
      else (false, s)
  | None => (false, s)
  end.

Definition detach (stage : StageId) (session_id : string) s : bool * Hub :=
  match hb_active s !! stage with
  | Some e =>
      if negb (String.eqb (ae_session_id e) session_id) then (false, s)
      else (true, (end_active_pair_for_target stage session_id SessionEnded (set_active (delete stage (hb_active s)) s)).2)
  | None => (false, s)
  end.

Definition detach_if_no_pending_control_work (stage : StageId) (session_id : string) (handle : nat) s : bool * Hub :=
  match hb_active s !! stage with
  | Some e =>
      if (negb (String.eqb (ae_session_id e) session_id) || has_pending_control_work (session_at handle s))%bool then (false, s)
      else (true, (end_active_pair_for_target stage session_id SessionEnded (set_active (delete stage (hb_active s)) s)).2)
  | None => (false, s)
  end.

(** Buffering when no session is live. *)
Definition buffer_steer (text : string) (actor : option Principal) s : Hub :=
  let '(evicted, q) := evict PER_RUN_PENDING_CAP (hb_pending s) in
  let s := set_pending (q ++ [SiSteering text actor]) s in
  let s := match evicted ≫= item_actor with
           | Some dropped_actor => hub_emit (HeSteerDropped QueueFull 1 (Some dropped_actor) None) s
           | None => s
           end in
  hub_emit (HeSteerBuffered actor) s.

Definition deliver_steer (text : string) (actor : option Principal) s : Hub :=
  let s := hub_emit (HeRunSteer text actor) s in
  if bool_decide (hb_active s = ∅) then buffer_steer text actor s
  else foldl (fun s '(stage, e) => enqueue_into_session_queue (ae_handle e) (SiSteering text actor) (Some stage) s) s (active_iter (hb_active s)).

Definition interrupt (actor : option Principal) s : Hub :=
  if bool_decide (hb_active s = ∅) then s
  else foldl (fun s '(stage, e) => hub_emit (HeInterruptInjected stage (ae_session_id e) actor) (on_session (ae_handle e) handle_interrupt s))
         (hub_emit (HeRunInterrupt actor) s) (active_iter (hb_active s)).

Definition interrupt_and_push (text : string) (actor : option Principal) (stage : StageId) (e : ActiveEntry) s : Hub :=
  let '(evicted, n) := interrupt_then_enqueue_bounded (SiSteering text actor) PER_SESSION_QUEUE_CAP (session_at (ae_handle e) s) in
  let s := set_session (ae_handle e) n s in
  let s := match evicted with
           | Some old => hub_emit (HeSteerDropped QueueFull 1 (item_actor old) (Some stage)) s
           | None => s
           end in
  hub_emit (HeInterruptInjected stage (ae_session_id e) actor) s.

Definition interrupt_then_steer (text : string) (actor : option Principal) s : Hub :=
  if bool_decide (hb_active s = ∅) then s
  else foldl (fun s '(stage, e) => interrupt_and_push text actor stage e s)
         (hub_emit (HeRunSteer text actor) (hub_emit (HeRunInterrupt actor) s)) (active_iter (hb_active s)).

Definition drain_pending_at_run_end s : Hub :=
  let count := default u32_max (in_bounds 0 u32_max (Z.of_nat (length (hb_pending s)))) in
  let s := set_pending [] s in
  let s := if 0 <? count then hub_emit (HeSteerDropped SteerRunEnded count None None) s else s in
  (end_active_pair PairRunEnded s).2.

(** ** Pairing *)

(** [start_pair] looks the session up under one lock and starts the pair under another. *)
Definition start_pair_lookup (run_id pair_id : string) (target : PairTarget) (actor : option Principal) s : result unit PairControlError * Hub :=
  match hb_active s !! pt_stage_id target with
  | Some e =>
      match ae_pair_handle e with
      | Some h => (Ok tt, set_pairing (hb_pairing s ++ [mkPairing run_id pair_id target actor e h]) s)
      | None => (Err TargetNotActive, s)
      end
  | None => (Err TargetNotActive, s)
  end.

Definition start_pair_commit (g : Pairing) (now : Z) s : result PairRecord PairControlError * Hub :=
  match hb_pair s with
  | Some _ => (Err AlreadyPaired, s)
  | None =>
      match try_enqueue_bounded (SiSystem human_joined_text) PER_SESSION_QUEUE_CAP (session_at (pg_handle g) s) with
      | (false, _) => (Err MessageNotAccepted, s)
      | (true, n) =>
          let stage := pt_stage_id (pg_target g) in
          let record := mkPairRecord (pg_pair_id g) (pg_run_id g) PairActive now None None (pg_target g) in
          let s := hub_emit (HePairStarted (pg_pair_id g) (pg_target g) (pg_actor g)) (set_session (pg_handle g) n s) in
          let s := on_session (ae_handle (pg_entry g)) handle_interrupt s in
          let s := hub_emit (HePairSystemMessage stage (ae_session_id (pg_entry g)) (pg_pair_id g) HumanJoined human_joined_text) s in
          (Ok record, set_pair (Some (mkActivePair record (ae_session_id (pg_entry g)))) s)
      end
  end.

(** The whole call, when nothing comes between. *)
Definition start_pair (run_id pair_id : string) (target : PairTarget) (actor : option Principal) (now : Z) s : result PairRecord PairControlError * Hub :=
  match hb_active s !! pt_stage_id target with
  | Some e =>
      match ae_pair_handle e with
      | Some h => start_pair_commit (mkPairing run_id pair_id target actor e h) now s
      | None => (Err TargetNotActive, s)
      end
  | None => (Err TargetNotActive, s)
  end.

Definition send_pair_message (pair_id message_id text : string) (client_message_id : option string) (actor : option Principal) (now : Z) s
    : result PairMessageRecord PairControlError * Hub :=
  match hb_pair s with
  | None => (Err PairNotActive, s)
  | Some p =>
      let record := ap_record p in
      let stage := pt_stage_id (pr_target record) in
      if negb (String.eqb (pr_pair_id record) pair_id) then (Err PairNotCurrent, s)
      else if negb (bool_decide (pr_status record = PairActive)) then (Err PairNotActive, s)
      else
        match hb_active s !! stage with
        | None => (Err TargetNotActive, s)
        | Some e =>
            if negb (String.eqb (ae_session_id e) (ap_session_id p)) then (Err TargetNotActive, s)
            else match ae_pair_handle e with
                 | None => (Err TargetNotActive, s)
                 | Some h =>
                     match try_enqueue_bounded (SiUser text) PER_SESSION_QUEUE_CAP (session_at h s) with
                     | (false, _) => (Err MessageNotAccepted, s)
                     | (true, n) =>
                         (Ok (mkPairMessage message_id client_message_id pair_id (pr_run_id record) stage text now),
                          hub_emit (HePairUserMessage stage (ap_session_id p) pair_id message_id client_message_id text actor) (set_session h n s))
                     end
                 end
        end
  end.

(** The farewell to the session, when it is still there. *)
Definition say_left (p : ActivePair) s : result unit PairControlError * Hub :=
  let stage := pt_stage_id (pr_target (ap_record p)) in
  match hb_active s !! stage with
  | Some e =>
      if String.eqb (ae_session_id e) (ap_session_id p) then
        match ae_pair_handle e with
        | None => (Err TargetNotActive, s)
        | Some h =>
            match try_enqueue_bounded (SiSystem human_left_text) PER_SESSION_QUEUE_CAP (session_at h s) with
            | (false, _) => (Err MessageNotAccepted, s)
            | (true, n) =>
                (Ok tt, hub_emit (HePairSystemMessage stage (ap_session_id p) (pr_pair_id (ap_record p)) HumanLeft human_left_text) (set_session h n s))
            end
        end
      else (Ok tt, s)
  | None => (Ok tt, s)
  end.

Definition end_pair (pair_id : string) (actor : option Principal) (now : Z) s : result PairRecord PairControlError * Hub :=
  match hb_pair s with
  | None => (Err PairNotActive, s)
  | Some p =>
      let r := ap_record p in
      if negb (String.eqb (pr_pair_id r) pair_id) then (Err PairNotCurrent, s)
      else if negb (bool_decide (pr_status r = PairActive)) then (Err PairNotActive, s)
      else match say_left p s with
           | (Err e, s) => (Err e, s)
           | (Ok _, s) =>
               (Ok (mkPairRecord (pr_pair_id r) (pr_run_id r) PairEnded (pr_started_at r) (Some now) (pr_failure_reason r) (pr_target r)),
                set_pair None (hub_emit (HePairEnded pair_id UserRequested actor) s))
           end
  end.

Definition pair_is_active_for (stage : StageId) (session_id : string) s : bool :=
  is_some_and (fun p => bool_decide (pr_status (ap_record p) = PairActive) && bool_decide (pt_stage_id (pr_target (ap_record p)) = stage)
                        && String.eqb (ap_session_id p) session_id)%bool (hb_pair s).

(** ** Leases (handler/llm/activation_lease.rs) *)

Record ActivationLease := mkLease { al_stage_id : StageId; al_session_id : string; al_released : bool }.

Definition lease_activate (stage : StageId) (session_id : string) (handle : nat) (pairable : bool) s : result ActivationLease string * Hub :=
  match (if pairable then attach_pairable_handle else attach_handle) stage session_id handle s with
  | (false, s) => (Err ("stage " +:+ stage_id_to_string stage +:+ " already has a different active agent session"), s)
  | (true, s) =>
      (Ok (mkLease stage session_id false), drain_pending_into stage handle (hub_emit (HeSessionActivated stage session_id) s))
  end.

Definition mark_released (l : ActivationLease) s : bool * ActivationLease * Hub :=
  if al_released l then (false, l, s)
  else (true, mkLease (al_stage_id l) (al_session_id l) true, hub_emit (HeSessionDeactivated (al_stage_id l) (al_session_id l)) s).

Definition lease_release (l : ActivationLease) s : ActivationLease * Hub :=
  match mark_released l s with
  | (true, l, s) => (l, (detach (al_stage_id l) (al_session_id l) s).2)
  | (false, l, s) => (l, s)
  end.

Definition release_if_no_pending_control_work (handle : nat) (l : ActivationLease) s : bool * ActivationLease * Hub :=
  if al_released l then (true, l, s)
  else match detach_if_no_pending_control_work (al_stage_id l) (al_session_id l) handle s with
       | (false, s) => (false, l, s)
       | (true, s) => let '(_, l, s) := mark_released l s in (true, l, s)
       end.

Definition is_pair_active (l : ActivationLease) s : bool := (negb (al_released l) && pair_is_active_for (al_stage_id l) (al_session_id l) s)%bool.

(** What the agent loop asks when a turn ends without tool calls: whether to go on
    (handler/llm/api.rs). *)
Definition on_natural_completion (handle : nat) (lease : option ActivationLease) s : bool * option ActivationLease * Hub :=
  match lease with
  | None => (false, None, s)
  | Some l =>
      if is_pair_active l s then (true, lease, on_session handle park_for_steer s)
      else match release_if_no_pending_control_work handle l s with
           | (true, _, s) => (false, None, s)
           | (false, l, s) => (true, Some l, s)
           end
  end.

(** ** Interleavings *)

Inductive HubOp :=
| OpAttach (stage : StageId) (session_id : string) (handle : nat) (pairable : bool)
| OpTakePending (stage : StageId) (handle : nat)
| OpPushTaken (k : nat)
| OpDetach (stage : StageId) (session_id : string)
| OpDetachIdle (stage : StageId) (session_id : string) (handle : nat)
| OpSteer (text : string) (actor : option Principal)
| OpInterrupt (actor : option Principal)
| OpInterruptSteer (text : string) (actor : option Principal)
| OpRunEnd
| OpPairLookup (run_id pair_id : string) (target : PairTarget) (actor : option Principal)
| OpPairCommit (k : nat) (now : Z)
| OpPairMessage (pair_id message_id text : string) (client_message_id : option string) (actor : option Principal) (now : Z)
| OpEndPair (pair_id : string) (actor : option Principal) (now : Z)
| OpPark (handle : nat)
| OpBeginRound (handle : nat)
| OpDrain (handle : nat).

Definition hub_step (op : HubOp) s : Hub :=
  match op with
  | OpAttach stage session_id handle pairable => (attach_entry stage session_id handle (if pairable then Some handle else None) s).2
  | OpTakePending stage handle => take_pending stage handle s
  | OpPushTaken k => push_taken k s
  | OpDetach stage session_id => (detach stage session_id s).2
  | OpDetachIdle stage session_id handle => (detach_if_no_pending_control_work stage session_id handle s).2
  | OpSteer text actor => deliver_steer text actor s
  | OpInterrupt actor => interrupt actor s
  | OpInterruptSteer text actor => interrupt_then_steer text actor s
  | OpRunEnd => drain_pending_at_run_end s
  | OpPairLookup run_id pair_id target actor => (start_pair_lookup run_id pair_id target actor s).2
  | OpPairCommit k now =>
      match hb_pairing s !! k with
      | Some g => (start_pair_commit g now (set_pairing (delete k (hb_pairing s)) s)).2
      | None => s
      end
  | OpPairMessage pair_id message_id text client_message_id actor now => (send_pair_message pair_id message_id text client_message_id actor now s).2
  | OpEndPair pair_id actor now => (end_pair pair_id actor now s).2
  | OpPark handle => on_session handle park_for_steer s
  | OpBeginRound handle => on_session handle begin_round s
  | OpDrain handle => on_session handle drain_steering s
  end.

Definition hub_run (ops : list HubOp) s : Hub := foldl (fun s op => hub_step op s) s ops.

Definition hub_new (sessions : nat) : Hub := mkHub (replicate sessions session_new) ∅ None [] [] [] [].
End hub.
