(* ===== verification/SteeringFacts.v ===== *)
(** * What becomes of messages to agents (facts on steering_hub.rs) *)

From S2P Require Import Prelude RustStr RustNum GraphTypes Context Outcome StageIds Projection EventLife Steering.
Local Open Scope string_scope.
Local Open Scope list_scope.
Local Open Scope Z_scope.

(** ** Counting *)

Fixpoint zsum {A} (f : A -> Z) (l : list A) : Z := match l with [] => 0 | x :: l => f x + zsum f l end.

Lemma zsum_app {A} (f : A -> Z) l l' : zsum f (l ++ l') = zsum f l + zsum f l'.
Proof. induction l as [|x l IH]; cbn; lia. Qed.

Lemma zsum_insert {A} (f : A -> Z) l i x y : l !! i = Some x -> zsum f (<[i := y]> l) = zsum f l - f x + f y.
Proof. revert i. induction l as [|z l IH]; intros [|i]; [done..| |]; cbn [lookup list_lookup]; [intros [= ->]; cbn; lia|]. intros Hi. change (<[S i := y]> (z :: l)) with (z :: <[i := y]> l). cbn [zsum]. rewrite (IH i Hi). lia. Qed.

Lemma zsum_bind {A B} (f : B -> Z) (g : A -> list B) l : zsum f (l ≫= g) = zsum (fun x => zsum f (g x)) l.
Proof. induction l as [|x l IH]; [done|]. cbn. by rewrite zsum_app, IH. Qed.

Lemma zsum_one {A} (l : list A) : zsum (fun _ => 1) l = Z.of_nat (length l).
Proof. induction l as [|x l IH]; cbn [zsum length]; lia. Qed.

Lemma zsum_replicate {A} (f : A -> Z) k x : zsum f (replicate k x) = Z.of_nat k * f x.
Proof. induction k as [|k IH]; cbn [replicate zsum]; lia. Qed.

(** Two lists that weigh the same however their elements are weighed have the same elements. *)
Lemma zsum_permutation `{EqDecision A} (l l' : list A) : (forall f, zsum f l = zsum f l') -> l ≡ₚ l'.
Proof.
  revert l'. induction l as [|x l IH]; intros l' Hf.
  { destruct l' as [|y l']; [done|]. specialize (Hf (fun _ => 1)). rewrite !zsum_one in Hf. cbn [length] in Hf. lia. }
  assert (x ∈ l') as Hx.
  { destruct (decide (x ∈ l')) as [|Hx]; [done|]. specialize (Hf (fun y => if decide (y = x) then 1 else 0)).
    assert (forall k, 0 <= zsum (fun y => if decide (y = x) then 1 else 0) k) as Hpos by (induction k; cbn [zsum]; [lia|case_decide; lia]).
    assert (zsum (fun y => if decide (y = x) then 1 else 0) l' = 0) as H0.
    { clear Hf IH. induction l' as [|y l' IH']; [done|]. apply not_elem_of_cons in Hx as [Hn Hx]. cbn [zsum]. rewrite decide_False by congruence. by rewrite IH'. }
    rewrite H0 in Hf. cbn [zsum] in Hf. rewrite decide_True in Hf by done. specialize (Hpos l). lia. }
  apply elem_of_Permutation in Hx as [l'' Hl]. rewrite Hl. constructor. apply IH. intros f. specialize (Hf f).
  assert (zsum f l' = zsum f (x :: l'')) as He by (clear -Hl; induction Hl; cbn [zsum]; lia). rewrite He in Hf. cbn [zsum] in Hf. lia.
Qed.

#[export] Instance spec_float_eq_dec : EqDecision f64.
Proof. solve_decision. Defined.
#[export] Instance JNumber_eq_dec : EqDecision JNumber.
Proof. solve_decision. Defined.

Fixpoint Value_dec (a b : Value) {struct a} : {a = b} + {a <> b}.
Proof.
  refine (match a, b with
          | JNull, JNull => left eq_refl
          | JBool x, JBool y => if decide (x = y) then left _ else right _
          | JNum x, JNum y => if decide (x = y) then left _ else right _
          | JString x, JString y => if decide (x = y) then left _ else right _
          | JArray x, JArray y => if List.list_eq_dec Value_dec x y then left _ else right _
          | JObject x, JObject y =>
              if List.list_eq_dec (fun p q => match Value_dec p.2 q.2 with
                                              | left E => if decide (p.1 = q.1) then left _ else right _
                                              | right E => right _
                                              end) x y then left _ else right _
          | _, _ => right _
          end); destruct_and?; try congruence; destruct p, q; cbn in *; congruence.
Defined.
#[export] Instance Value_eq_dec : EqDecision Value := Value_dec.

#[export] Instance Principal_eq_dec : EqDecision Principal.
Proof. solve_decision. Defined.
#[export] Instance SteeringItem_eq_dec : EqDecision SteeringItem.
Proof. solve_decision. Defined.

(** The messages a session has taken or holds, and those that are anywhere. *)
Definition session_items (n : Session) : list SteeringItem := sn_history n ++ cs_queue (sn_control n).
Definition held (s : Hub) : list SteeringItem := (hb_sessions s ≫= session_items) ++ hb_pending s ++ (hb_draining s ≫= dr_items).

Definition dropped_by (e : HubEvent) : Z := match e with HeSteerDropped _ count _ _ => count | _ => 0 end.
Definition dropped (s : Hub) : Z := zsum dropped_by (hb_log s).

(** The message of a pair that an event announces. *)
Definition paired_item (e : HubEvent) : list SteeringItem :=
  match e with
  | HePairSystemMessage _ _ _ _ text => [SiSystem text]
  | HePairUserMessage _ _ _ _ _ text _ => [SiUser text]
  | _ => []
  end.

(** The weight of the messages that are somewhere, those of a pair apart. *)
Definition balance (f : SteeringItem -> Z) (s : Hub) : Z := zsum f (held s) - zsum f (hb_log s ≫= paired_item).

(** The copies of a message that an operation brings. *)
Definition copies (op : HubOp) (s : Hub) : list SteeringItem :=
  match op with
  | OpSteer text actor => replicate (if bool_decide (hb_active s = ∅) then 1%nat else size (hb_active s)) (SiSteering text actor)
  | OpInterruptSteer text actor => replicate (size (hb_active s)) (SiSteering text actor)
  | _ => []
  end.

(** ** The invariant *)

Section facts.
Context `{ActiveOrder}.
Implicit Types (s : Hub).

Record hub_inv (n : nat) s : Prop := {
  hi_sessions : length (hb_sessions s) = n;
  hi_active : forall stage e, hb_active s !! stage = Some e -> (ae_handle e < n)%nat /\ forall h, ae_pair_handle e = Some h -> (h < n)%nat;
  hi_draining : Forall (fun d => (dr_handle d < n)%nat /\ (length (dr_items d) <= PER_RUN_PENDING_CAP)%nat) (hb_draining s);
  hi_pairing : Forall (fun g => (pg_handle g < n)%nat) (hb_pairing s);
  hi_pending : Forall (fun i => is_some (item_actor i) = true) (hb_pending s) /\ (length (hb_pending s) <= PER_RUN_PENDING_CAP)%nat;
  hi_queues : Forall (fun x => (length (cs_queue (sn_control x)) <= PER_SESSION_QUEUE_CAP)%nat) (hb_sessions s)
}.

(** What an operation may refer to: live handles, and a message has an author. *)
Definition op_ok (n : nat) (op : HubOp) : Prop :=
  match op with
  | OpAttach _ _ h _ | OpTakePending _ h => (h < n)%nat
  | OpSteer _ actor => is_some actor = true
  | _ => True
  end.

Lemma session_at_lookup n s h : hub_inv n s -> (h < n)%nat -> hb_sessions s !! h = Some (session_at h s).
Proof. intros Hi Hh. unfold session_at. destruct (lookup_lt_is_Some_2 (hb_sessions s) h) as [x Hx]; [by rewrite (hi_sessions _ _ Hi)|]. by rewrite Hx. Qed.

Lemma session_at_queue n s h : hub_inv n s -> (length (cs_queue (sn_control (session_at h s))) <= PER_SESSION_QUEUE_CAP)%nat.
Proof.
  intros Hi. unfold session_at. destruct (hb_sessions s !! h) as [x|] eqn:Hx; [|cbn; lia]. cbn.
  pose proof (hi_queues _ _ Hi) as Hq. rewrite Forall_forall in Hq. by apply Hq, list_elem_of_lookup_2 with h.
Qed.

Lemma emit_inv n e s : hub_inv n s -> hub_inv n (hub_emit e s).
Proof. intros [H1 H2 H3 H4 H5 H6]. by split. Qed.

Lemma set_session_inv n h x s : hub_inv n s -> (length (cs_queue (sn_control x)) <= PER_SESSION_QUEUE_CAP)%nat -> hub_inv n (set_session h x s).
Proof.
  intros [H1 H2 H3 H4 H5 H6] Hx. split; [cbn; by rewrite length_insert|exact H2|exact H3|exact H4|exact H5|]. cbn. by apply Forall_insert.
Qed.

Lemma set_pair_inv n p s : hub_inv n s -> hub_inv n (set_pair p s).
Proof. intros [H1 H2 H3 H4 H5 H6]. by split. Qed.

Lemma delete_active_inv n stage s : hub_inv n s -> hub_inv n (set_active (delete stage (hb_active s)) s).
Proof. intros [H1 H2 H3 H4 H5 H6]. split; try done. cbn. intros st e He. apply lookup_delete_Some in He as [_ He]. by apply H2 with st. Qed.

Lemma dropped_emit e s : dropped (hub_emit e s) = dropped s + dropped_by e.
Proof. unfold dropped. cbn. rewrite zsum_app. cbn. lia. Qed.

Lemma balance_emit f e s : balance f (hub_emit e s) = balance f s - zsum f (paired_item e).
Proof. unfold balance. change (held (hub_emit e s)) with (held s). cbn [hub_emit hb_log]. rewrite bind_app, zsum_app. cbn. rewrite app_nil_r. lia. Qed.

Lemma held_sum f s :
  zsum f (held s) = zsum (fun x => zsum f (session_items x)) (hb_sessions s) + zsum f (hb_pending s) + zsum (fun d => zsum f (dr_items d)) (hb_draining s).
Proof. unfold held. rewrite !zsum_app, !zsum_bind. lia. Qed.

Lemma balance_session n f h x s : hub_inv n s -> (h < n)%nat ->
  balance f (set_session h x s) = balance f s + zsum f (session_items x) - zsum f (session_items (session_at h s)).
Proof.
  intros Hi Hh. unfold balance. rewrite !held_sum. cbn [set_session hb_sessions hb_pending hb_draining hb_log].
  rewrite (zsum_insert _ _ _ _ _ (session_at_lookup _ _ _ Hi Hh)). lia.
Qed.

Lemma balance_same f s s' : hb_sessions s' = hb_sessions s -> hb_pending s' = hb_pending s -> hb_draining s' = hb_draining s -> hb_log s' = hb_log s -> balance f s' = balance f s.
Proof. unfold balance, held. by intros -> -> -> ->. Qed.

(** ** Steps

    A step that brings the messages [l] keeps every one of them and of those that were there,
    but for as many as it reports to have dropped. *)
Definition step_ok (n : nat) s (s' : Hub) (l : list SteeringItem) : Prop :=
  hub_inv n s' /\ exists gone, dropped s' = dropped s + Z.of_nat (length gone) /\ forall f, balance f s' + zsum f gone = balance f s + zsum f l.

Lemma step_ok_quiet n s s' : hub_inv n s' -> dropped s' = dropped s -> (forall f, balance f s' = balance f s) -> step_ok n s s' [].
Proof. intros Hi Hd Hb. split; [done|]. exists []. cbn. split; [lia|]. intros f. by rewrite Hb. Qed.

Lemma step_ok_refl n s : hub_inv n s -> step_ok n s s [].
Proof. intros Hi. by apply step_ok_quiet. Qed.

Lemma step_ok_trans n s s' s'' l l' : step_ok n s s' l -> step_ok n s' s'' l' -> step_ok n s s'' (l ++ l').
Proof.
  intros [_ (g & Hd & Hb)] [Hi' (g' & Hd' & Hb')]. split; [done|]. exists (g ++ g'). split; [rewrite length_app; lia|].
  intros f. specialize (Hb f). specialize (Hb' f). rewrite !zsum_app. lia.
Qed.

Lemma step_ok_weight n s s' l l' : (forall f, zsum f l = zsum f l') -> step_ok n s s' l -> step_ok n s s' l'.
Proof. intros Hl [Hi (g & Hd & Hb)]. split; [done|]. exists g. split; [done|]. intros f. by rewrite <- Hl. Qed.

(** Events that announce no message. *)
Lemma step_ok_emit n s s' l e : dropped_by e = 0 -> paired_item e = [] -> step_ok n s s' l -> step_ok n s (hub_emit e s') l.
Proof.
  intros He Hp [Hi (g & Hd & Hb)]. split; [by apply emit_inv|]. exists g. rewrite dropped_emit, He. split; [lia|]. intros f.
  rewrite balance_emit, Hp. specialize (Hb f). cbn. lia.
Qed.

(** A message of a pair, enqueued and announced. *)
Lemma step_ok_announce n s s' i e : dropped_by e = 0 -> paired_item e = [i] -> step_ok n s s' [i] -> step_ok n s (hub_emit e s') [].
Proof.
  intros He Hp [Hi (g & Hd & Hb)]. split; [by apply emit_inv|]. exists g. rewrite dropped_emit, He. split; [lia|]. intros f.
  rewrite balance_emit, Hp. specialize (Hb f). cbn in *. lia.
Qed.

Lemma step_ok_set_pair n s s' p l : step_ok n s s' l -> step_ok n s (set_pair p s') l.
Proof. intros [Hi Hg]. split; [by apply set_pair_inv|exact Hg]. Qed.

Lemma evict_spec cap q evicted q' : (0 < cap)%nat -> (length q <= cap)%nat -> evict cap q = (evicted, q') ->
  (length q' < cap)%nat /\ q = match evicted with Some i => i :: q' | None => q' end.
Proof.
  intros Hc Hq. unfold evict. destruct q as [|i q]; [intros [= <- <-]; cbn in *; by split; [lia|]|].
  destruct (Nat.leb_spec cap (length (i :: q))); intros [= <- <-]; cbn in *; split; lia || done.
Qed.

(** One item pushed onto the queue of a session, the oldest making room for it. *)
Lemma pushed_ok n h i y evicted q' actor stage s : hub_inv n s -> (h < n)%nat ->
  evict PER_SESSION_QUEUE_CAP (cs_queue (sn_control (session_at h s))) = (evicted, q') ->
  sn_history y = sn_history (session_at h s) -> cs_queue (sn_control y) = q' ++ [i] ->
  step_ok n s match evicted with Some old => hub_emit (HeSteerDropped QueueFull 1 (actor old) stage) (set_session h y s) | None => set_session h y s end [i].
Proof.
  intros Hi Hh He Hhist Hqueue. pose proof (session_at_queue n s h Hi) as Hq. apply evict_spec in He as [Hl Heq]; [|unfold PER_SESSION_QUEUE_CAP; lia|done].
  assert (hub_inv n (set_session h y s)) as Hi'. { apply set_session_inv; [done|]. rewrite Hqueue, length_app. cbn. lia. }
  assert (forall f, zsum f (session_items y) + zsum f (match evicted with Some old => [old] | None => [] end) = zsum f (session_items (session_at h s)) + f i) as Hw.
  { intros f. unfold session_items. rewrite Hhist, Hqueue, Heq, !zsum_app. destruct evicted; cbn [zsum]; lia. }
  destruct evicted as [old|].
  - split; [by apply emit_inv|]. exists [old]. rewrite dropped_emit. split; [done|]. intros f. rewrite balance_emit, (balance_session n) by done. specialize (Hw f). cbn in *. lia.
  - split; [done|]. exists []. split; [cbn; unfold dropped; cbn; lia|]. intros f. rewrite (balance_session n) by done. specialize (Hw f). cbn in *. lia.
Qed.

Lemma enqueue_ok n h i stage s : hub_inv n s -> (h < n)%nat -> step_ok n s (enqueue_into_session_queue h i stage s) [i].
Proof.
  intros Hi Hh. unfold enqueue_into_session_queue, push_bounded.
  destruct (evict PER_SESSION_QUEUE_CAP (cs_queue (sn_control (session_at h s)))) as [evicted q'] eqn:He.
  by apply (pushed_ok n h i _ evicted q' item_actor stage s Hi Hh He).
Qed.

Lemma active_handles n s : hub_inv n s -> Forall (fun '(_, e) => (ae_handle e < n)%nat) (active_iter (hb_active s)).
Proof.
  intros Hi. rewrite active_iter_perm, Forall_forall. intros [stage e] He%elem_of_map_to_list. exact (proj1 (hi_active _ _ Hi stage e He)).
Qed.

Lemma active_length s : length (active_iter (hb_active s)) = size (hb_active s).
Proof. rewrite (Permutation_length (active_iter_perm _)). apply length_map_to_list. Qed.

Lemma fold_entries_ok n (f : StageId -> ActiveEntry -> Hub -> Hub) k l s :
  (forall stage e s, hub_inv n s -> (ae_handle e < n)%nat -> step_ok n s (f stage e s) k) ->
  hub_inv n s -> Forall (fun '(_, e) => (ae_handle e < n)%nat) l -> step_ok n s (foldl (fun s '(stage, e) => f stage e s) s l) (l ≫= fun _ => k).
Proof.
  intros Hf Hi Hl. revert s Hi. induction Hl as [|[stage e] l He Hl IH]; intros s Hi; cbn [foldl]; [by apply step_ok_refl|].
  pose proof (Hf stage e s Hi He) as Hs. change (((stage, e) :: l) ≫= fun _ => k) with (k ++ (l ≫= fun _ => k)).
  eapply step_ok_trans; [exact Hs|]. apply IH, Hs.
Qed.

Lemma brought_once {A} (l : list A) (i : SteeringItem) f : zsum f (l ≫= fun _ => [i]) = zsum f (replicate (length l) i).
Proof. rewrite zsum_bind, zsum_replicate. cbn. induction l as [|x l IH]; cbn [zsum length]; lia. Qed.

Lemma set_active_ok n m s : hub_inv n s -> (forall stage e, m !! stage = Some e -> (ae_handle e < n)%nat /\ forall h, ae_pair_handle e = Some h -> (h < n)%nat) ->
  step_ok n s (set_active m s) [].
Proof. intros [H1 H2 H3 H4 H5 H6] Hm. by apply step_ok_quiet. Qed.

Lemma attach_ok n stage session_id h pair_handle s : hub_inv n s -> (h < n)%nat -> (forall p, pair_handle = Some p -> (p < n)%nat) ->
  step_ok n s (attach_entry stage session_id h pair_handle s).2 [].
Proof.
  intros Hi Hh Hp. unfold attach_entry. pose proof (hi_active _ _ Hi) as H2. destruct (hb_active s !! stage) as [e|] eqn:He.
  - destruct (negb _); [by apply step_ok_refl|]. apply set_active_ok; [done|]. intros st e'.
    destruct (decide (st = stage)) as [->|Hne]; [rewrite lookup_insert_eq; intros [= <-]|rewrite lookup_insert_ne by done; apply H2]. cbn. split; [done|].
    destruct pair_handle as [p|]; cbn; [intros q [= <-]; by apply Hp|by apply (H2 _ _ He)].
  - apply set_active_ok; [done|]. intros st e'.
    destruct (decide (st = stage)) as [->|Hne]; [rewrite lookup_insert_eq; intros [= <-]; by split|rewrite lookup_insert_ne by done; apply H2].
Qed.

Lemma take_pending_ok n stage h s : hub_inv n s -> (h < n)%nat -> step_ok n s (take_pending stage h s) [].
Proof.
  intros [H1 H2 H3 H4 H5 H6] Hh. apply step_ok_quiet; [|done|].
  - split; try done; cbn; [|split; [done|cbn; lia]]. apply Forall_app. split; [done|]. constructor; [|done]. cbn. split; [done|apply H5].
  - intros f. unfold balance. rewrite !held_sum. cbn. rewrite zsum_app. cbn. lia.
Qed.

Lemma push_taken_ok n k s : hub_inv n s -> step_ok n s (push_taken k s) [].
Proof.
  intros Hi. unfold push_taken. destruct (hb_draining s !! k) as [d|] eqn:Hd; [|by apply step_ok_refl]. destruct (dr_items d) as [|i items] eqn:Hit; [by apply step_ok_refl|].
  pose proof Hi as [H1 H2 H3 H4 H5 H6]. assert ((dr_handle d < n)%nat /\ (length (dr_items d) <= PER_RUN_PENDING_CAP)%nat) as [Hh Hlen].
  { rewrite Forall_forall in H3. by apply H3, list_elem_of_lookup_2 with k. }
  set (s1 := set_draining _ s). assert (hub_inv n s1) as Hi1.
  { split; try done. cbn. apply Forall_insert; [done|]. cbn. split; [done|]. rewrite Hit in Hlen. cbn in Hlen. lia. }
  destruct (enqueue_ok n (dr_handle d) i (Some (dr_stage d)) s1 Hi1 Hh) as [Hi' (gone & Hgone & Hb)]. split; [done|]. exists gone. split; [exact Hgone|].
  intros f. rewrite Hb. unfold balance. rewrite !held_sum. unfold s1. cbn [set_draining hb_sessions hb_pending hb_draining hb_log].
  rewrite (zsum_insert _ _ _ _ _ Hd), Hit. cbn [dr_items zsum]. lia.
Qed.

Lemma end_for_target_ok n stage session_id reason s : hub_inv n s -> step_ok n s (end_active_pair_for_target stage session_id reason s).2 [].
Proof.
  intros Hi. unfold end_active_pair_for_target. destruct (hb_pair s) as [p|]; [|by apply step_ok_refl]. case_match; cbn [snd]; [by apply step_ok_refl|].
  apply step_ok_emit; [done|done|]. by apply step_ok_set_pair, step_ok_refl.
Qed.

Lemma detached_ok n stage session_id s : hub_inv n s ->
  step_ok n s (end_active_pair_for_target stage session_id SessionEnded (set_active (delete stage (hb_active s)) s)).2 [].
Proof.
  intros Hi. assert (step_ok n s (set_active (delete stage (hb_active s)) s) []) as Hs.
  { apply step_ok_quiet; [by apply delete_active_inv|done..]. }
  apply (step_ok_trans n s _ _ [] [] Hs), end_for_target_ok, Hs.
Qed.

Lemma buffer_ok n text actor s : hub_inv n s -> is_some actor = true -> step_ok n s (buffer_steer text actor s) [SiSteering text actor].
Proof.
  intros Hi Hac. unfold buffer_steer. pose proof Hi as [H1 H2 H3 H4 [H5 H5'] H6]. destruct (evict PER_RUN_PENDING_CAP (hb_pending s)) as [evicted q] eqn:He.
  apply evict_spec in He as [Hl Heq]; [|unfold PER_RUN_PENDING_CAP; lia|done].
  set (s2 := set_pending (q ++ _) s). assert (hub_inv n s2) as Hi2.
  { split; try done. cbn. split; [|rewrite length_app; cbn; lia]. apply Forall_app. split; [|by constructor]. rewrite Heq in H5. destruct evicted; [by apply Forall_cons in H5 as [_ H5]|done]. }
  assert (forall f, balance f s2 + zsum f (match evicted with Some old => [old] | None => [] end) = balance f s + f (SiSteering text actor)) as Hw.
  { intros f. unfold balance. rewrite !held_sum. unfold s2. cbn [set_pending hb_sessions hb_pending hb_draining hb_log]. rewrite Heq, !zsum_app. destruct evicted; cbn [zsum]; lia. }
  apply step_ok_emit; [done|done|]. destruct evicted as [old|]; cbn [mbind option_bind].
  - rewrite Heq in H5. apply Forall_cons in H5 as [Hold _]. destruct (item_actor old) as [a|]; [|done].
    split; [by apply emit_inv|]. exists [old]. rewrite dropped_emit. split; [done|]. intros f. rewrite balance_emit. specialize (Hw f). cbn in *. lia.
  - split; [done|]. exists []. split; [unfold dropped; cbn; lia|]. intros f. specialize (Hw f). cbn in *. lia.
Qed.

Lemma emit_ok n s e : hub_inv n s -> dropped_by e = 0 -> paired_item e = [] -> step_ok n s (hub_emit e s) [].
Proof. intros Hi He Hp. by apply step_ok_emit, step_ok_refl. Qed.

Lemma steer_ok n text actor s : hub_inv n s -> is_some actor = true -> step_ok n s (deliver_steer text actor s) (copies (OpSteer text actor) s).
Proof.
  intros Hi Hac. unfold deliver_steer. set (s1 := hub_emit _ s). assert (step_ok n s s1 []) as Hs1 by (by apply emit_ok).
  change (hb_active s1) with (hb_active s). cbn [copies]. apply (step_ok_trans n s s1 _ [] _ Hs1).
  destruct (bool_decide (hb_active s = ∅)); [by apply buffer_ok; [apply Hs1|]|].
  eapply step_ok_weight; [|apply (fold_entries_ok n (fun stage e s => enqueue_into_session_queue (ae_handle e) (SiSteering text actor) (Some stage) s) [SiSteering text actor] (active_iter (hb_active s)) s1)].
  - intros f. by rewrite brought_once, active_length.
  - intros stage e s' Hs' He. by apply enqueue_ok.
  - apply Hs1.
  - by apply active_handles.
Qed.

(** Changes that leave the messages of a session alone. *)
Definition keeps_items (f : Session -> Session) : Prop :=
  forall x, session_items (f x) = session_items x /\ (length (cs_queue (sn_control (f x))) <= length (cs_queue (sn_control x)))%nat.

Lemma on_session_ok n h f s : keeps_items f -> hub_inv n s -> step_ok n s (on_session h f s) [].
Proof.
  intros Hf Hi. unfold on_session. destruct (Hf (session_at h s)) as [Hl Hq]. pose proof (session_at_queue n s h Hi) as Hq'. apply step_ok_quiet; [|done|].
  - apply set_session_inv; [done|lia].
  - intros w. destruct (decide (h < n)%nat) as [Hh|Hh].
    + rewrite (balance_session n), Hl by done. lia.
    + apply balance_same; [|done..]. cbn. apply list_insert_ge. rewrite (hi_sessions _ _ Hi). lia.
Qed.

Lemma handle_interrupt_items : keeps_items handle_interrupt.
Proof. by split. Qed.
Lemma park_items : keeps_items park_for_steer.
Proof. by split. Qed.
Lemma begin_round_items : keeps_items begin_round.
Proof. intros x. unfold begin_round. by destruct (sn_round_cancelled x). Qed.
Lemma drain_items : keeps_items drain_steering.
Proof. intros x. unfold session_items. cbn. rewrite app_nil_r. split; [done|lia]. Qed.

Lemma bind_nil {A B} (l : list A) : (l ≫= fun _ => []) = ([] : list B).
Proof. by induction l. Qed.

Lemma interrupt_ok n actor s : hub_inv n s -> step_ok n s (interrupt actor s) [].
Proof.
  intros Hi. unfold interrupt. destruct (bool_decide _); [by apply step_ok_refl|]. set (s1 := hub_emit _ s). assert (step_ok n s s1 []) as Hs1 by (by apply emit_ok).
  apply (step_ok_trans n s s1 _ [] [] Hs1). rewrite <- (bind_nil (active_iter (hb_active s))).
  apply (fold_entries_ok n (fun stage e s => hub_emit (HeInterruptInjected stage (ae_session_id e) actor) (on_session (ae_handle e) handle_interrupt s)) []).
  - intros stage e s' Hs' He. apply step_ok_emit; [done|done|]. by apply on_session_ok; [apply handle_interrupt_items|].
  - apply Hs1.
  - by apply active_handles.
Qed.

Lemma interrupt_push_ok n text actor stage e s : hub_inv n s -> (ae_handle e < n)%nat -> step_ok n s (interrupt_and_push text actor stage e s) [SiSteering text actor].
Proof.
  intros Hi Hh. unfold interrupt_and_push, interrupt_then_enqueue_bounded.
  destruct (evict PER_SESSION_QUEUE_CAP (cs_queue (sn_control (session_at (ae_handle e) s)))) as [evicted q'] eqn:He.
  apply step_ok_emit; [done|done|]. by apply (pushed_ok n _ (SiSteering text actor) _ evicted q' item_actor (Some stage) s Hi Hh He).
Qed.

Lemma interrupt_steer_ok n text actor s : hub_inv n s -> step_ok n s (interrupt_then_steer text actor s) (copies (OpInterruptSteer text actor) s).
Proof.
  intros Hi. unfold interrupt_then_steer. cbn [copies]. destruct (bool_decide_reflect (hb_active s = ∅)) as [->|_]; [rewrite map_size_empty; by apply step_ok_refl|].
  set (s1 := hub_emit _ (hub_emit _ s)). assert (step_ok n s s1 []) as Hs1 by (by apply step_ok_emit, emit_ok).
  apply (step_ok_trans n s s1 _ [] _ Hs1).
  eapply step_ok_weight; [|apply (fold_entries_ok n (fun stage e s => interrupt_and_push text actor stage e s) [SiSteering text actor] (active_iter (hb_active s)) s1)].
  - intros f. by rewrite brought_once, active_length.
  - intros. by apply interrupt_push_ok.
  - apply Hs1.
  - by apply active_handles.
Qed.

Lemma run_end_ok n s : hub_inv n s -> step_ok n s (drain_pending_at_run_end s) [].
Proof.
  intros Hi. pose proof Hi as [H1 H2 H3 H4 [H5 H5'] H6]. unfold drain_pending_at_run_end.
  assert (default u32_max (in_bounds 0 u32_max (Z.of_nat (length (hb_pending s)))) = Z.of_nat (length (hb_pending s))) as ->.
  { unfold in_bounds. rewrite (proj2 (Z.leb_le _ _)) by lia. rewrite (proj2 (Z.leb_le _ _)); [done|]. unfold PER_RUN_PENDING_CAP, u32_max in *. lia. }
  match goal with |- step_ok _ _ (end_active_pair _ ?t).2 _ => set (s1 := t) end. assert (step_ok n s s1 []) as Hs1.
  { assert (hub_inv n (set_pending [] s)) as Hi0 by (split; try done; cbn; split; [done|lia]).
    assert (forall f, balance f (set_pending [] s) + zsum f (hb_pending s) = balance f s) as Hb0 by (intros f; unfold balance; rewrite !held_sum; cbn -[zsum]; cbn [zsum]; lia).
    unfold s1. destruct (Z.ltb_spec 0 (Z.of_nat (length (hb_pending s)))).
    - split; [by apply emit_inv|]. exists (hb_pending s). rewrite dropped_emit. split; [done|]. intros f. rewrite balance_emit, <- (Hb0 f). cbn. lia.
    - split; [done|]. exists []. split; [unfold dropped; cbn; lia|]. intros f. rewrite <- (Hb0 f). destruct (hb_pending s); [cbn; lia|cbn in *; lia]. }
  unfold end_active_pair. destruct (hb_pair s1) as [p|]; [|done]. destruct (bool_decide _); [|done]. cbn [snd].
  apply step_ok_emit; [done|done|]. by apply step_ok_set_pair.
Qed.

(** A message of a pair, accepted. *)
Lemma try_enqueue_ok n h i x s : hub_inv n s -> (h < n)%nat -> try_enqueue_bounded i PER_SESSION_QUEUE_CAP (session_at h s) = (true, x) -> step_ok n s (set_session h x s) [i].
Proof.
  intros Hi Hh. unfold try_enqueue_bounded. destruct (Nat.leb_spec PER_SESSION_QUEUE_CAP (length (cs_queue (sn_control (session_at h s))))) as [|Hlt]; [done|].
  intros [= <-]. split.
  - apply set_session_inv; [done|]. cbn. rewrite length_app. cbn. lia.
  - exists []. split; [unfold dropped; cbn; lia|]. intros f. rewrite (balance_session n) by done. unfold session_items. cbn. rewrite !zsum_app. cbn. lia.
Qed.

Lemma commit_ok n g now s : hub_inv n s -> (pg_handle g < n)%nat -> step_ok n s (start_pair_commit g now s).2 [].
Proof.
  intros Hi Hg. unfold start_pair_commit. destruct (hb_pair s); [by apply step_ok_refl|].
  destruct (try_enqueue_bounded _ _ _) as [[] x] eqn:Ht; [|by apply step_ok_refl]. apply (try_enqueue_ok n) in Ht; [|done|done]. cbn [snd].
  apply step_ok_set_pair. apply (step_ok_announce n s _ (SiSystem human_joined_text)); [done|done|].
  assert (step_ok n s (hub_emit (HePairStarted (pg_pair_id g) (pg_target g) (pg_actor g)) (set_session (pg_handle g) x s)) [SiSystem human_joined_text]) as H1 by (by apply step_ok_emit).
  apply (step_ok_trans n s _ _ [_] [] H1), on_session_ok; [apply handle_interrupt_items|apply H1].
Qed.

Lemma pair_message_ok n pair_id message_id text client actor now s : hub_inv n s -> step_ok n s (send_pair_message pair_id message_id text client actor now s).2 [].
Proof.
  intros Hi. pose proof (step_ok_refl n s Hi) as Hid. unfold send_pair_message. destruct (hb_pair s) as [p|]; [|done].
  destruct (negb _); [done|]. destruct (negb _); [done|]. destruct (hb_active s !! _) as [e|] eqn:He; [|done]. destruct (negb _); [done|].
  destruct (ae_pair_handle e) as [h|] eqn:Hh; [|done]. destruct (try_enqueue_bounded _ _ _) as [[] x] eqn:Ht; [|done].
  apply (try_enqueue_ok n) in Ht; [|done|by apply (proj2 (hi_active _ _ Hi _ _ He))]. by apply (step_ok_announce n s _ (SiUser text)).
Qed.

Lemma say_left_ok n p s : hub_inv n s -> step_ok n s (say_left p s).2 [].
Proof.
  intros Hi. pose proof (step_ok_refl n s Hi) as Hid. unfold say_left. destruct (hb_active s !! _) as [e|] eqn:He; [|done]. destruct (String.eqb _ _); [|done].
  destruct (ae_pair_handle e) as [h|] eqn:Hh; [|done]. destruct (try_enqueue_bounded _ _ _) as [[] x] eqn:Ht; [|done].
  apply (try_enqueue_ok n) in Ht; [|done|by apply (proj2 (hi_active _ _ Hi _ _ He))]. by apply (step_ok_announce n s _ (SiSystem human_left_text)).
Qed.

Lemma end_pair_ok n pair_id actor now s : hub_inv n s -> step_ok n s (end_pair pair_id actor now s).2 [].
Proof.
  intros Hi. pose proof (step_ok_refl n s Hi) as Hid. unfold end_pair. destruct (hb_pair s) as [p|]; [|done].
  destruct (negb _); [done|]. destruct (negb _); [done|]. pose proof (say_left_ok n p s Hi) as Hleft.
  destruct (say_left p s) as [[u|e] s1]; cbn [snd] in *; [|done]. by apply step_ok_set_pair, step_ok_emit.
Qed.

Lemma hub_step_ok n op s : hub_inv n s -> op_ok n op -> step_ok n s (hub_step op s) (copies op s).
Proof.
  intros Hi Hop. pose proof (step_ok_refl n s Hi) as Hid. destruct op; cbn [hub_step copies op_ok] in *.
  - apply attach_ok; [done..|]. destruct pairable; [by intros p [= <-]|done].
  - by apply take_pending_ok.
  - by apply push_taken_ok.
  - unfold detach. destruct (hb_active s !! stage) as [e|]; [|done]. destruct (negb _); [done|]. by apply detached_ok.
  - unfold detach_if_no_pending_control_work. destruct (hb_active s !! stage) as [e|]; [|done]. destruct (_ || _)%bool; [done|]. by apply detached_ok.
  - by apply steer_ok.
  - by apply interrupt_ok.
  - by apply interrupt_steer_ok.
  - by apply run_end_ok.
  - unfold start_pair_lookup. destruct (hb_active s !! _) as [e|] eqn:He; [|done]. destruct (ae_pair_handle e) as [h|] eqn:Hh; [|done]. cbn [snd].
    pose proof Hi as [H1 H2 H3 H4 H5 H6]. apply step_ok_quiet; [|done..]. split; try done. cbn. apply Forall_app. split; [done|constructor; [|done]]. cbn. by apply (proj2 (H2 _ _ He)).
  - destruct (hb_pairing s !! k) as [g|] eqn:Hg; [|done]. pose proof Hi as [H1 H2 H3 H4 H5 H6]. set (s1 := set_pairing _ s).
    assert (step_ok n s s1 []) as Hs1 by (apply step_ok_quiet; [|done..]; split; try done; cbn; by apply Forall_delete).
    apply (step_ok_trans n s s1 _ [] [] Hs1), commit_ok; [apply Hs1|]. rewrite Forall_forall in H4. by apply H4, list_elem_of_lookup_2 with k.
  - by apply pair_message_ok.
  - by apply end_pair_ok.
  - by apply on_session_ok; [apply park_items|].
  - by apply on_session_ok; [apply begin_round_items|].
  - by apply on_session_ok; [apply drain_items|].
Qed.

Lemma hub_new_inv n : hub_inv n (hub_new n).
Proof.
  split; cbn; [by rewrite length_replicate|intros stage e; by rewrite lookup_empty|done|done|split; [done|lia]|]. apply Forall_replicate. cbn. lia.
Qed.

Lemma hub_new_held n : held (hub_new n) = [].
Proof. unfold held. cbn -[replicate]. rewrite app_nil_r. by induction n. Qed.

(** The copies that a sequence of operations brings. *)
Fixpoint copies_along (ops : list HubOp) s : list SteeringItem := match ops with [] => [] | op :: ops => copies op s ++ copies_along ops (hub_step op s) end.

Lemma hub_run_ok n ops s : hub_inv n s -> Forall (op_ok n) ops -> step_ok n s (hub_run ops s) (copies_along ops s).
Proof.
  intros Hi Hall. revert s Hi. induction Hall as [|op ops Hop Hall IH]; intros s Hi; cbn [copies_along]; [by apply step_ok_refl|].
  pose proof (hub_step_ok n op s Hi Hop) as Hs. apply (step_ok_trans n s (hub_step op s) _ _ _ Hs). apply IH, Hs.
Qed.

(** C31: no message to an agent disappears silently.  However messages, interruptions, pairings,
    sessions that come and go and rounds interleave: the copies of messages that were sent (one
    for each live session, or one in the buffer) and the messages of a pair are, one for one,
    those in the histories of the sessions, in their queues, in the buffer or on their way from
    there, and those that are gone; and as many are gone as the events report to have dropped
    (an event gives their number and not their text).  No queue nor the buffer ever holds more
    than its 32.
    Every message has an author: one without an author that makes room in the buffer is gone
    and not reported ([anonymous_message_lost]). *)
Theorem steers_accounted n ops : Forall (op_ok n) ops ->
  let s := hub_run ops (hub_new n) in
  (exists gone, Z.of_nat (length gone) = zsum dropped_by (hb_log s)
     /\ held s ++ gone ≡ₚ copies_along ops (hub_new n) ++ (hb_log s ≫= paired_item))
  /\ (length (hb_pending s) <= PER_RUN_PENDING_CAP)%nat
  /\ Forall (fun x => (length (cs_queue (sn_control x)) <= PER_SESSION_QUEUE_CAP)%nat) (hb_sessions s).
Proof.
  intros Hall s. destruct (hub_run_ok n ops (hub_new n) (hub_new_inv n) Hall) as [Hi (gone & Hd & Hb)]. fold s in Hi, Hd, Hb.
  split; [|split; [apply (hi_pending _ _ Hi)|apply (hi_queues _ _ Hi)]].
  exists gone. split; [unfold dropped in Hd; cbn in Hd; lia|]. apply zsum_permutation. intros f. specialize (Hb f).
  unfold balance in Hb. rewrite hub_new_held in Hb. rewrite !zsum_app. cbn in Hb. lia.
Qed.

(** ** Closing the door *)

(** No message can reach the session any more. *)
Definition unreachable (h : nat) s : Prop :=
  (forall stage e, hb_active s !! stage = Some e -> ae_handle e <> h /\ ae_pair_handle e <> Some h)
  /\ Forall (fun d => dr_items d = [] \/ dr_handle d <> h) (hb_draining s)
  /\ Forall (fun g => pg_handle g <> h /\ ae_handle (pg_entry g) <> h) (hb_pairing s).

Definition reaches (h : nat) (op : HubOp) : Prop := match op with OpAttach _ _ h' _ | OpTakePending _ h' => h' = h | _ => False end.

(** The session has nothing to do, and what it has done. *)
Definition idle (h : nat) (hist : list SteeringItem) s : Prop :=
  cs_queue (sn_control (session_at h s)) = [] /\ sn_history (session_at h s) = hist.

Definition closed (h : nat) (hist : list SteeringItem) s : Prop := unreachable h s /\ idle h hist s.

Lemma session_at_set h h' x s : h' <> h -> session_at h (set_session h' x s) = session_at h s.
Proof. intros Hne. unfold session_at. cbn. by rewrite list_lookup_insert_ne. Qed.

Lemma closed_set h hist h' x s : h' <> h -> closed h hist s -> closed h hist (set_session h' x s).
Proof. intros Hne [Hu [Hq Hh]]. split; [exact Hu|]. unfold idle. by rewrite session_at_set. Qed.

Lemma closed_on h hist h' f s : (forall x, cs_queue (sn_control x) = [] -> cs_queue (sn_control (f x)) = [] /\ sn_history (f x) = sn_history x) ->
  closed h hist s -> closed h hist (on_session h' f s).
Proof.
  intros Hf Hc. destruct (decide (h' = h)) as [->|Hne]; [|by apply closed_set]. destruct Hc as [Hu [Hq Hh]]. split; [exact Hu|]. unfold idle, on_session.
  destruct (Hf _ Hq) as [Hq' Hh']. unfold session_at at 1 3. cbn. destruct (decide (h < length (hb_sessions s))%nat) as [Hl|Hl].
  - rewrite list_lookup_insert_eq by done. cbn. by rewrite Hq', Hh'.
  - rewrite list_insert_ge by lia. by split.
Qed.

Lemma closed_emit h hist e s : closed h hist s -> closed h hist (hub_emit e s).
Proof. done. Qed.

Lemma closed_enqueue h hist h' i stage s : h' <> h -> closed h hist s -> closed h hist (enqueue_into_session_queue h' i stage s).
Proof. intros Hne Hc. unfold enqueue_into_session_queue. destruct (push_bounded _ _ _) as [[old|] x]; [apply closed_emit|]; by apply closed_set. Qed.

(** Walking over the live sessions. *)
Lemma closed_walk h hist (f : StageId -> ActiveEntry -> Hub -> Hub) m s : (forall stage e s, ae_handle e <> h -> closed h hist s -> closed h hist (f stage e s)) ->
  (forall stage e, m !! stage = Some e -> ae_handle e <> h) -> closed h hist s -> closed h hist (foldl (fun s '(stage, e) => f stage e s) s (active_iter m)).
Proof.
  intros Hf Hm Hc. assert (Forall (fun '(_, e) => ae_handle e <> h) (active_iter m)) as Hl.
  { rewrite active_iter_perm, Forall_forall. intros [stage e] He%elem_of_map_to_list. by apply Hm with stage. }
  revert s Hc. induction Hl as [|[stage e] l He Hl IH]; intros s Hc; [done|]. cbn [foldl]. by apply IH, Hf.
Qed.

Lemma closed_detached h hist stage session_id s : closed h hist s ->
  closed h hist (end_active_pair_for_target stage session_id SessionEnded (set_active (delete stage (hb_active s)) s)).2.
Proof.
  intros [(Ha & Hd & Hp) Hi]. assert (closed h hist (set_active (delete stage (hb_active s)) s)) as Hc.
  { split; [|exact Hi]. split; [|by split]. cbn. intros st e He. apply lookup_delete_Some in He as [_ He]. by apply Ha with st. }
  unfold end_active_pair_for_target. destruct (hb_pair _) as [p|]; [|done]. case_match; done.
Qed.

Lemma closed_try h hist h' i x s : h' <> h -> closed h hist s -> try_enqueue_bounded i PER_SESSION_QUEUE_CAP (session_at h' s) = (true, x) -> closed h hist (set_session h' x s).
Proof. intros. by apply closed_set. Qed.

Lemma hub_step_closed h hist op s : closed h hist s -> ~ reaches h op -> closed h hist (hub_step op s).
Proof.
  intros Hc Hop. pose proof Hc as [(Ha & Hd & Hp) Hi]. destruct op; cbn [hub_step reaches] in *.
  - unfold attach_entry. destruct (hb_active s !! stage) as [e|] eqn:He; [destruct (negb _); [done|]|]; (split; [|exact Hi]); (split; [|by split]); cbn; intros st e';
      (destruct (decide (st = stage)) as [->|Hne]; [rewrite lookup_insert_eq; intros [= <-]|rewrite lookup_insert_ne by done; apply Ha]); cbn; (split; [done|]).
    + destruct pairable; cbn; [congruence|by apply (Ha _ _ He)].
    + destruct pairable; [congruence|done].
  - split; [|exact Hi]. split; [exact Ha|]. split; [|exact Hp]. cbn. apply Forall_app. split; [done|]. constructor; [by right|done].
  - unfold push_taken. destruct (hb_draining s !! k) as [d|] eqn:Hk; [|done]. destruct (dr_items d) as [|i items] eqn:Hit; [done|].
    assert (dr_handle d <> h) as Hne by (rewrite Forall_forall in Hd; destruct (Hd d) as [Hn|]; [by apply list_elem_of_lookup_2 with k|congruence|done]).
    apply closed_enqueue; [done|]. split; [|exact Hi]. split; [exact Ha|]. split; [|exact Hp]. cbn. apply Forall_insert; [done|by right].
  - unfold detach. destruct (hb_active s !! stage); [|done]. destruct (negb _); [done|]. by apply closed_detached.
  - unfold detach_if_no_pending_control_work. destruct (hb_active s !! stage); [|done]. destruct (_ || _)%bool; [done|]. by apply closed_detached.
  - unfold deliver_steer. change (hb_active (hub_emit _ s)) with (hb_active s). destruct (bool_decide _).
    + unfold buffer_steer. destruct (evict _ _) as [evicted q]. apply closed_emit. by destruct (evicted ≫= item_actor).
    + apply (closed_walk h hist (fun stage e s => enqueue_into_session_queue (ae_handle e) (SiSteering text actor) (Some stage) s)); [intros; by apply closed_enqueue|intros; by eapply Ha|done].
  - unfold interrupt. destruct (bool_decide _); [done|].
    apply (closed_walk h hist (fun stage e s => hub_emit (HeInterruptInjected stage (ae_session_id e) actor) (on_session (ae_handle e) handle_interrupt s))); [|intros; by eapply Ha|done].
    intros stage e s' He Hs'. apply closed_emit. by apply closed_on.
  - unfold interrupt_then_steer. destruct (bool_decide _); [done|].
    apply (closed_walk h hist (fun stage e s => interrupt_and_push text actor stage e s)); [|intros; by eapply Ha|done].
    intros stage e s' He Hs'. unfold interrupt_and_push. destruct (interrupt_then_enqueue_bounded _ _ _) as [[old|] x]; apply closed_emit; [apply closed_emit|]; by apply closed_set.
  - unfold drain_pending_at_run_end, end_active_pair. match goal with |- closed _ _ (match hb_pair ?t with _ => _ end).2 => set (s1 := t) end.
    assert (closed h hist s1) as Hs1 by (unfold s1; by case_match). destruct (hb_pair s1); [|done]. by destruct (bool_decide _).
  - unfold start_pair_lookup. destruct (hb_active s !! _) as [e|] eqn:He; [|done]. destruct (ae_pair_handle e) as [h'|] eqn:Hh; [|done]. split; [|exact Hi].
    split; [exact Ha|]. split; [exact Hd|]. cbn. apply Forall_app. split; [done|]. constructor; [|done]. cbn. destruct (Ha _ _ He) as [H1 H2]. split; [congruence|done].
  - destruct (hb_pairing s !! k) as [g|] eqn:Hg; [|done]. assert (pg_handle g <> h /\ ae_handle (pg_entry g) <> h) as [Hg1 Hg2] by (rewrite Forall_forall in Hp; by apply Hp, list_elem_of_lookup_2 with k).
    set (s1 := set_pairing _ s). assert (closed h hist s1) as Hs1. { split; [|exact Hi]. split; [exact Ha|]. split; [exact Hd|]. cbn. by apply Forall_delete. }
    unfold start_pair_commit. destruct (hb_pair s1); [done|]. destruct (try_enqueue_bounded _ _ _) as [[] x]; [|done]. cbn [snd].
    assert (closed h hist (on_session (ae_handle (pg_entry g)) handle_interrupt (hub_emit (HePairStarted (pg_pair_id g) (pg_target g) (pg_actor g)) (set_session (pg_handle g) x s1)))) as Hend
      by (apply closed_on; [done|]; apply closed_emit; by apply closed_set). exact Hend.
  - unfold send_pair_message. destruct (hb_pair s) as [p|]; [|done]. destruct (negb _); [done|]. destruct (negb _); [done|]. destruct (hb_active s !! _) as [e|] eqn:He; [|done].
    destruct (negb _); [done|]. destruct (ae_pair_handle e) as [h'|] eqn:Hh; [|done]. destruct (try_enqueue_bounded _ _ _) as [[] x]; [|done].
    apply closed_emit, closed_set; [|done]. destruct (Ha _ _ He). congruence.
  - unfold end_pair. destruct (hb_pair s) as [p|]; [|done]. destruct (negb _); [done|]. destruct (negb _); [done|].
    assert (closed h hist (say_left p s).2) as Hl.
    { unfold say_left. destruct (hb_active s !! _) as [e|] eqn:He; [|done]. destruct (String.eqb _ _); [|done]. destruct (ae_pair_handle e) as [h'|] eqn:Hh; [|done].
      destruct (try_enqueue_bounded _ _ _) as [[] x]; [|done]. apply closed_emit, closed_set; [|done]. destruct (Ha _ _ He). congruence. }
    destruct (say_left p s) as [[u|e] s1]; exact Hl.
  - by apply closed_on.
  - apply closed_on; [|done]. intros x Hx. unfold begin_round. by destruct (sn_round_cancelled x).
  - apply closed_on; [|done]. intros x Hx. cbn. by rewrite Hx, app_nil_r.
Qed.

(** When the agent loop closes the door on its session (no message is queued and the session
    does not wait for one, under the lock that messages are delivered under), no later
    message can slip in: whatever happens afterwards, short of attaching the session again, its
    queue stays empty and its history as it was. *)
Theorem door_stays_closed stage session_id h s ops :
  (forall stage' e, hb_active s !! stage' = Some e -> stage' <> stage -> ae_handle e <> h /\ ae_pair_handle e <> Some h) ->
  Forall (fun d => dr_items d = [] \/ dr_handle d <> h) (hb_draining s) -> Forall (fun g => pg_handle g <> h /\ ae_handle (pg_entry g) <> h) (hb_pairing s) ->
  (detach_if_no_pending_control_work stage session_id h s).1 = true -> Forall (fun op => ~ reaches h op) ops ->
  let s' := hub_run ops (detach_if_no_pending_control_work stage session_id h s).2 in
  cs_queue (sn_control (session_at h s')) = [] /\ sn_history (session_at h s') = sn_history (session_at h s).
Proof.
  intros Ha Hd Hp. unfold detach_if_no_pending_control_work. destruct (hb_active s !! stage) as [e|]; [|done].
  destruct (negb _ || has_pending_control_work _)%bool eqn:Hw; [done|]. intros _ Hops. apply orb_false_iff in Hw as [_ Hw].
  unfold has_pending_control_work in Hw. apply orb_false_iff in Hw as [Hq%negb_false_iff%bool_decide_eq_true _]. cbn [snd].
  assert (closed h (sn_history (session_at h s)) (end_active_pair_for_target stage session_id SessionEnded (set_active (delete stage (hb_active s)) s)).2) as Hc.
  { assert (closed h (sn_history (session_at h s)) (set_active (delete stage (hb_active s)) s)) as Hc.
    { split; [|by split]. split; [|by split]. cbn. intros st e' He. apply lookup_delete_Some in He as [Hne He]. by apply Ha with st. }
    unfold end_active_pair_for_target. destruct (hb_pair _) as [p|]; [|done]. case_match; done. }
  revert Hc. generalize (end_active_pair_for_target stage session_id SessionEnded (set_active (delete stage (hb_active s)) s)).2. clear -Hops.
  induction Hops as [|op ops Hop Hops IH]; intros s1 Hc; [apply Hc|]. apply IH. by apply hub_step_closed.
Qed.
End facts.

(** ** Pairs and leases of sessions (facts on steering_hub.rs and activation_lease.rs) *)


(** ** Pairs *)

(** The pair that a log leaves open; [None] when the log closes or opens a pair out of turn. *)
Definition pair_event (st : option (option string)) (e : HubEvent) : option (option string) :=
  match st, e with
  | Some None, HePairStarted id _ _ => Some (Some id)
  | Some (Some open), HePairEnded id _ _ => if String.eqb open id then Some None else None
  | Some _, HePairStarted _ _ _ | Some _, HePairEnded _ _ _ => None
  | st, _ => st
  end.
Definition open_pair (log : list HubEvent) : option (option string) := foldl pair_event (Some None) log.

Lemma open_pair_snoc log e : open_pair (log ++ [e]) = pair_event (open_pair log) e.
Proof. unfold open_pair. by rewrite foldl_app. Qed.

Definition is_pair_event (e : HubEvent) : bool := match e with HePairStarted _ _ _ | HePairEnded _ _ _ => true | _ => false end.

Lemma open_pair_other log e : is_pair_event e = false -> open_pair (log ++ [e]) = open_pair log.
Proof. rewrite open_pair_snoc. destruct e; cbn; try done; by destruct (open_pair log) as [[]|]. Qed.

Section pairs.
Context `{ActiveOrder}.
Implicit Types (s : Hub).

(** The log agrees with the hub on the open pair, which is active. *)
Definition pair_inv s : Prop :=
  open_pair (hb_log s) = Some ((fun p => pr_pair_id (ap_record p)) <$> hb_pair s) /\ forall p, hb_pair s = Some p -> pr_status (ap_record p) = PairActive.

(** Steps that neither open nor close a pair. *)
Definition pair_quiet s s' : Prop := hb_pair s' = hb_pair s /\ open_pair (hb_log s') = open_pair (hb_log s).

Lemma quiet_inv s s' : pair_quiet s s' -> pair_inv s -> pair_inv s'.
Proof. unfold pair_inv. by intros [-> ->]. Qed.

Lemma quiet_refl s : pair_quiet s s.
Proof. done. Qed.

Lemma quiet_emit s s' e : is_pair_event e = false -> pair_quiet s s' -> pair_quiet s (hub_emit e s').
Proof. intros He [H1 H2]. split; [done|]. cbn. by rewrite open_pair_other. Qed.

Lemma quiet_enqueue h i stage s s' : pair_quiet s s' -> pair_quiet s (enqueue_into_session_queue h i stage s').
Proof. intros Hq. unfold enqueue_into_session_queue. destruct (push_bounded _ _ _) as [[old|] x]; [by apply quiet_emit|done]. Qed.

Lemma quiet_walk (f : StageId -> ActiveEntry -> Hub -> Hub) l s s' : (forall stage e s', pair_quiet s s' -> pair_quiet s (f stage e s')) ->
  pair_quiet s s' -> pair_quiet s (foldl (fun s '(stage, e) => f stage e s) s' l).
Proof. intros Hf. revert s'. induction l as [|[stage e] l IH]; intros s' Hq; [done|]. cbn. by apply IH, Hf. Qed.

Lemma ended_inv s s' p reason actor : pair_inv s -> hb_pair s = Some p -> pair_quiet s s' ->
  pair_inv (hub_emit (HePairEnded (pr_pair_id (ap_record p)) reason actor) (set_pair None s')).
Proof.
  intros [Ho _] Hp [_ Hl]. split; [|done]. cbn. rewrite open_pair_snoc, Hl, Ho, Hp. cbn. by rewrite String.eqb_refl.
Qed.

Lemma end_for_target_inv stage session_id reason s : pair_inv s -> pair_inv (end_active_pair_for_target stage session_id reason s).2.
Proof.
  intros Hi. unfold end_active_pair_for_target. destruct (hb_pair s) as [p|] eqn:Hp; [|done]. case_match; [done|]. by apply (ended_inv s s).
Qed.

Lemma commit_inv g now s : pair_inv s -> pair_inv (start_pair_commit g now s).2.
Proof.
  intros Hi. unfold start_pair_commit. destruct (hb_pair s) as [p|] eqn:Hp; [done|]. destruct (try_enqueue_bounded _ _ _) as [[] x]; [|done].
  destruct Hi as [Ho _]. cbn [snd]. split; [|by intros p [= <-]]. cbn [hb_log hb_pair set_pair hub_emit on_session set_session]. rewrite open_pair_other by done.
  rewrite open_pair_snoc, Ho, Hp. done.
Qed.

Lemma hub_step_pairs op s : pair_inv s -> pair_inv (hub_step op s).
Proof.
  intros Hi. assert (forall s', pair_quiet s s' -> pair_inv s') as Hq by (intros s' Hs'; by apply (quiet_inv s)). destruct op; cbn [hub_step].
  - apply Hq. unfold attach_entry. destruct (hb_active s !! stage); [by destruct (negb _)|done].
  - by apply Hq.
  - apply Hq. unfold push_taken. destruct (hb_draining s !! k) as [d|]; [|done]. destruct (dr_items d); [done|]. by apply quiet_enqueue.
  - unfold detach. destruct (hb_active s !! stage); [|done]. destruct (negb _); [done|]. by apply end_for_target_inv.
  - unfold detach_if_no_pending_control_work. destruct (hb_active s !! stage); [|done]. destruct (_ || _)%bool; [done|]. by apply end_for_target_inv.
  - apply Hq. unfold deliver_steer. destruct (bool_decide _).
    + unfold buffer_steer. destruct (evict _ _) as [evicted q]. apply quiet_emit; [done|]. destruct (evicted ≫= item_actor); repeat (apply quiet_emit; [done|]); done.
    + apply (quiet_walk (fun stage e s => enqueue_into_session_queue (ae_handle e) (SiSteering text actor) (Some stage) s)); [intros; by apply quiet_enqueue|by apply quiet_emit].
  - apply Hq. unfold interrupt. destruct (bool_decide _); [done|].
    apply (quiet_walk (fun stage e s => hub_emit (HeInterruptInjected stage (ae_session_id e) actor) (on_session (ae_handle e) handle_interrupt s))); [|by apply quiet_emit].
    intros stage e s' Hs'. by apply quiet_emit.
  - apply Hq. unfold interrupt_then_steer. destruct (bool_decide _); [done|].
    apply (quiet_walk (fun stage e s => interrupt_and_push text actor stage e s)); [|by do 2 (apply quiet_emit; [done|])].
    intros stage e s' Hs'. unfold interrupt_and_push. destruct (interrupt_then_enqueue_bounded _ _ _) as [[old|] x]; apply quiet_emit; [done|by apply quiet_emit|done|done].
  - unfold drain_pending_at_run_end. match goal with |- pair_inv (end_active_pair _ ?t).2 => set (s1 := t) end.
    assert (pair_quiet s s1) as Hs1 by (unfold s1; case_match; [by apply quiet_emit|done]). unfold end_active_pair. destruct (hb_pair s1) as [p|] eqn:Hp; [|by apply Hq].
    destruct (bool_decide _); [|by apply Hq]. apply (ended_inv s); [done|by rewrite <- (proj1 Hs1)|done].
  - apply Hq. unfold start_pair_lookup. destruct (hb_active s !! _) as [e|]; [|done]. by destruct (ae_pair_handle e).
  - destruct (hb_pairing s !! k) as [g|]; [|done]. apply commit_inv. by apply Hq.
  - apply Hq. unfold send_pair_message. destruct (hb_pair s); [|done]. destruct (negb _); [done|]. destruct (negb _); [done|]. destruct (hb_active s !! _) as [e|]; [|done].
    destruct (negb _); [done|]. destruct (ae_pair_handle e); [|done]. destruct (try_enqueue_bounded _ _ _) as [[] x]; [|done]. by apply quiet_emit.
  - unfold end_pair. destruct (hb_pair s) as [p|] eqn:Hp; [|done]. destruct (String.eqb_spec (pr_pair_id (ap_record p)) pair_id) as [<-|]; cbn [negb]; [|done]. destruct (negb _); [done|].
    assert (pair_quiet s (say_left p s).2) as Hl.
    { unfold say_left. destruct (hb_active s !! _) as [e|]; [|done]. destruct (String.eqb _ _); [|done]. destruct (ae_pair_handle e); [|done].
      destruct (try_enqueue_bounded _ _ _) as [[] x]; [|done]. by apply quiet_emit. }
    destruct (say_left p s) as [[u|e] s1]; cbn [snd] in *; [|by apply Hq]. exact (ended_inv s s1 p UserRequested actor Hi Hp Hl).
  - by apply Hq.
  - by apply Hq.
  - by apply Hq.
Qed.

(** Pairs are opened and closed in turn.  In every interleaving the log starts a pair only when
    none is open and ends the one that is open, the hub has a pair exactly while the log has
    one open, and after the end of the run none is left. *)
Theorem pairs_alternate n ops :
  let s := hub_run ops (hub_new n) in
  open_pair (hb_log s) = Some ((fun p => pr_pair_id (ap_record p)) <$> hb_pair s) /\ hb_pair (drain_pending_at_run_end s) = None.
Proof.
  intros s. assert (pair_inv s) as [Ho Ha].
  { unfold s, hub_run. assert (pair_inv (hub_new n)) as Hn by done. revert Hn. generalize (hub_new n). induction ops as [|op ops IH]; intros s0 Hs0; [done|]. by apply IH, hub_step_pairs. }
  split; [done|]. unfold drain_pending_at_run_end. match goal with |- context [end_active_pair _ ?t] => set (s1 := t) end.
  assert (hb_pair s1 = hb_pair s) as Hs1 by (unfold s1; by case_match). unfold end_active_pair. destruct (hb_pair s1) as [p|] eqn:Hp; [|done].
  rewrite bool_decide_eq_true_2 by (apply Ha; congruence). done.
Qed.

(** ** Leases *)

Inductive LeaseCall := CallRelease | CallReleaseIdle (handle : nat).
Definition lease_call (c : LeaseCall) (x : ActivationLease * Hub) : ActivationLease * Hub :=
  match c with
  | CallRelease => lease_release x.1 x.2
  | CallReleaseIdle h => let '(_, l, s) := release_if_no_pending_control_work h x.1 x.2 in (l, s)
  end.

Definition deactivations (log : list HubEvent) : nat := length (filterb (fun e => match e with HeSessionDeactivated _ _ => true | _ => false end) log).

Lemma detach_lease_log stage session_id s : deactivations (hb_log (detach stage session_id s).2) = deactivations (hb_log s).
Proof.
  unfold detach. destruct (hb_active s !! stage); [|done]. destruct (negb _); [done|]. unfold end_active_pair_for_target. cbn. destruct (hb_pair s); [|done].
  case_match; [done|]. unfold deactivations. cbn. by rewrite filterb_app, app_nil_r.
Qed.

Lemma detach_idle_lease_log stage session_id h s : deactivations (hb_log (detach_if_no_pending_control_work stage session_id h s).2) = deactivations (hb_log s).
Proof.
  unfold detach_if_no_pending_control_work. destruct (hb_active s !! stage); [|done]. destruct (_ || _)%bool; [done|]. unfold end_active_pair_for_target. cbn.
  destruct (hb_pair s); [|done]. case_match; [done|]. unfold deactivations. cbn. by rewrite filterb_app, app_nil_r.
Qed.

(** The announcements of a lease: one when it is released. *)
Lemma lease_call_count c l s l' s' : lease_call c (l, s) = (l', s') ->
  deactivations (hb_log s') = (deactivations (hb_log s) + (if al_released l then 0 else if al_released l' then 1 else 0))%nat
  /\ (al_released l = true -> al_released l' = true) /\ (c = CallRelease -> al_released l' = true).
Proof.
  destruct c as [|h]; cbn [lease_call fst snd].
  - unfold lease_release, mark_released. destruct (al_released l) eqn:Hr; intros [= <- <-]; [rewrite Hr; split_and!; [lia|done..]|]. rewrite detach_lease_log.
    unfold deactivations. cbn. rewrite filterb_app, length_app. cbn. split_and!; [lia|done..].
  - unfold release_if_no_pending_control_work. destruct (al_released l) eqn:Hr; [intros [= <- <-]; rewrite Hr; split_and!; [lia|done..]|].
    pose proof (detach_idle_lease_log (al_stage_id l) (al_session_id l) h s) as Hd. destruct (detach_if_no_pending_control_work _ _ _ s) as [[] s1]; cbn [snd] in Hd.
    + unfold mark_released. rewrite Hr. intros [= <- <-]. unfold deactivations in *. cbn. rewrite filterb_app, length_app. cbn. split_and!; [lia|done..].
    + intros [= <- <-]. rewrite Hr. split_and!; [lia|done..].
Qed.

(** A lease of a session ends once: however often and in whatever order it is released, for
    good or only when there is nothing to do, and finally dropped, its end is announced
    exactly once. *)
Theorem lease_ends_once l calls s : al_released l = false ->
  deactivations (hb_log (foldl (fun x c => lease_call c x) (l, s) (calls ++ [CallRelease])).2) = S (deactivations (hb_log s)).
Proof.
  intros Hr. rewrite foldl_app. cbn [foldl]. assert (forall calls x, let x' := foldl (fun x c => lease_call c x) x calls in
    (deactivations (hb_log x'.2) = deactivations (hb_log x.2) + (if al_released x.1 then 0 else if al_released x'.1 then 1 else 0))%nat /\ (al_released x.1 = true -> al_released x'.1 = true)) as Hrun.
  { clear. induction calls as [|c calls IH]; intros [l s]; cbn [foldl]; [cbn; split; [by destruct (al_released l)|done]|].
    destruct (lease_call c (l, s)) as [l1 s1] eqn:Hc. apply lease_call_count in Hc as (Hn & Hmono & _). specialize (IH (l1, s1)). cbn [fst snd] in *. destruct IH as [IH1 IH2].
    split; [|intros Hl; by apply IH2, Hmono]. rewrite IH1, Hn. destruct (al_released l) eqn:Hl; [rewrite Hmono by done; lia|]. destruct (al_released l1) eqn:Hl1; [rewrite IH2 by done; lia|lia]. }
  destruct (Hrun calls (l, s)) as [H1 _]. destruct (foldl _ (l, s) calls) as [l1 s1]. cbn [fst snd] in *. destruct (lease_call CallRelease (l1, s1)) as [l2 s2] eqn:Hc.
  apply lease_call_count in Hc as (Hn & _ & Hrel). cbn [snd]. rewrite Hn, H1, Hr. rewrite Hrel by done. destruct (al_released l1); lia.
Qed.
End pairs.

(** ** Schedules *)

Module SteeringRuns.

#[local] Instance in_order : ActiveOrder := {| active_iter := fun m => map_to_list m; active_iter_perm := fun m => reflexivity _ |}.

Definition st_a : StageId := mkStageId "code" 1.
Definition someone : option Principal := Some (PrSystem ActorEngine).
Definition talk : list HubOp :=
  [OpSteer "early" someone; OpAttach st_a "s1" 0 true; OpTakePending st_a 0; OpSteer "late" someone; OpPushTaken 0; OpDrain 0; OpDetachIdle st_a "s1" 0].

Lemma steers_accounted_witness :
  let s := hub_run talk (hub_new 1) in
  held s = [SiSteering "late" someone; SiSteering "early" someone]
  /\ exists gone, length gone = 0%nat /\ held s ++ gone ≡ₚ [SiSteering "early" someone; SiSteering "late" someone].
Proof.
  split; [vm_compute; reflexivity|].
  destruct (steers_accounted 1 talk) as [(gone & Hg & Hp) _]; [repeat constructor|].
  exists gone. split; [|exact Hp]. change (zsum dropped_by (hb_log (hub_run talk (hub_new 1)))) with 0 in Hg. apply Nat2Z.inj. exact Hg.
Defined.

Definition door : Hub := hub_run (removelast talk) (hub_new 1).
Lemma door_active : hb_active door = {[st_a := mkEntry 0 (Some 0%nat) "s1"]}.
Proof. vm_compute. reflexivity. Qed.

Lemma door_stays_closed_witness :
  cs_queue (sn_control (session_at 0 (hub_run [OpSteer "too late" someone] (detach_if_no_pending_control_work st_a "s1" 0 door).2))) = [].
Proof.
  assert (Forall (fun d => dr_items d = [] \/ dr_handle d <> 0%nat) (hb_draining door)) as Hd by (vm_compute; constructor; [left; reflexivity|constructor]).
  assert (hb_pairing door = []) as Hp by (vm_compute; reflexivity).
  assert ((detach_if_no_pending_control_work st_a "s1" 0 door).1 = true) as Hidle by (vm_compute; reflexivity).
  pose proof (door_stays_closed st_a "s1" 0 door [OpSteer "too late" someone]) as H. cbv zeta in H. rewrite Hp, door_active in H. apply H; clear H.
  - intros stage' e He Hne. rewrite lookup_singleton_ne in He by done. done.
  - exact Hd.
  - constructor.
  - exact Hidle.
  - constructor; [cbn; tauto|constructor].
Defined.

Lemma lease_ends_once_witness :
  deactivations (hb_log (foldl (fun x c => lease_call c x) (mkLease st_a "s1" false, hub_new 1) ([CallReleaseIdle 0; CallRelease] ++ [CallRelease])).2) = 1%nat.
Proof. apply (lease_ends_once (mkLease st_a "s1" false) [CallReleaseIdle 0; CallRelease] (hub_new 1)). reflexivity. Defined.

(** A message that arrives while the buffer is on its way to a session overtakes it. *)
Theorem buffered_message_overtaken : sn_history (session_at 0 (hub_run talk (hub_new 1))) = [SiSteering "late" someone; SiSteering "early" someone].
Proof. vm_compute. reflexivity. Qed.

(** A message without an author that makes room in the buffer is not reported. *)
Theorem anonymous_message_lost :
  let ops := replicate 33 (OpSteer "x" None) in
  let s := hub_run ops (hub_new 0) in length (copies_along ops (hub_new 0)) = 33%nat /\ length (held s) = 32%nat /\ zsum dropped_by (hb_log s) = 0.
Proof. vm_compute. split_and!; reflexivity. Qed.

(** A session that ends between the two sections of [start_pair] leaves a pair without a
    session; a second pair is refused while it stands. *)
Theorem pair_outlives_session :
  let target := mkPairTarget st_a "Code" in
  let s := hub_run [OpAttach st_a "s1" 0 true; OpPairLookup "r" "p1" target None; OpDetach st_a "s1"; OpPairCommit 0 5] (hub_new 1) in
  hb_active s = ∅ /\ is_some (hb_pair s) = true
  /\ (start_pair "r" "p2" target None 6 (hub_run [OpAttach st_a "s2" 0 true] s)).1 = Err AlreadyPaired.
Proof. vm_compute. split_and!; reflexivity. Qed.

(** A session released with messages in its queue takes them along, unreported. *)
Theorem released_session_keeps_messages :
  let s := hub_run [OpAttach st_a "s1" 0 false; OpSteer "x" someone; OpDetach st_a "s1"; OpRunEnd] (hub_new 1) in
  cs_queue (sn_control (session_at 0 s)) = [SiSteering "x" someone] /\ zsum dropped_by (hb_log s) = 0.
Proof. vm_compute. split_and!; reflexivity. Qed.
End SteeringRuns.
