(* ===== verification/Tools.v ===== *)
(** * Built-in tools and their output (fabro-agent/src)

    The tools an agent has (native_tool.rs), the names they go by and what they may do
    (tool_permissions.rs), and how their output is cut to size (truncation.rs). *)

From S2P Require Import Prelude RustStr DecText EventKeys Artifact Events Patch.
Local Open Scope string_scope.
Local Open Scope list_scope.

(** ** Tools and their names *)

Inductive ToolVocabulary := VocFabro | VocClaude5 | VocKimiCode | VocCodex.

Inductive NativeTool :=
| ReadFile | ReadManyFiles | WriteFile | EditFile | ApplyPatch | ListDir | Grep | Glob | Shell | WebSearch | WebFetch
| SpawnAgent | SendInput | Wait | CloseAgent | BackgroundAgent | AgentOutput | StopAgent | MessageAgent
| UseSkill | UpdatePlan | TaskCreate | TaskUpdate | TaskGet | TaskList | TodoList | AskUserQuestion | RequestUserInput.

#[export] Instance NativeTool_eq_dec : EqDecision NativeTool.
Proof. solve_decision. Defined.

Definition VARIANTS : list NativeTool :=
  [ReadFile; ReadManyFiles; WriteFile; EditFile; ApplyPatch; ListDir; Grep; Glob; Shell; WebSearch; WebFetch;
   SpawnAgent; SendInput; Wait; CloseAgent; BackgroundAgent; AgentOutput; StopAgent; MessageAgent;
   UseSkill; UpdatePlan; TaskCreate; TaskUpdate; TaskGet; TaskList; TodoList; AskUserQuestion; RequestUserInput].

Definition canonical_name (t : NativeTool) : string :=
  match t with
  | ReadFile => "read_file" | ReadManyFiles => "read_many_files" | WriteFile => "write_file" | EditFile => "edit_file"
  | ApplyPatch => "apply_patch" | ListDir => "list_dir" | Grep => "grep" | Glob => "glob" | Shell => "shell"
  | WebSearch => "web_search" | WebFetch => "web_fetch" | SpawnAgent => "spawn_agent" | SendInput => "send_input" | Wait => "wait"
  | CloseAgent => "close_agent" | BackgroundAgent => "background_agent" | AgentOutput => "agent_output" | StopAgent => "stop_agent"
  | MessageAgent => "message_agent" | UseSkill => "use_skill" | UpdatePlan => "update_plan" | TaskCreate => "TaskCreate"
  | TaskUpdate => "TaskUpdate" | TaskGet => "TaskGet" | TaskList => "TaskList" | TodoList => "TodoList"
  | AskUserQuestion => "AskUserQuestion" | RequestUserInput => "request_user_input"
  end.

(** The names besides the canonical one that are read as the tool. *)
Definition aliases (t : NativeTool) : list string :=
  match t with
  | ReadFile => ["Read"] | WriteFile => ["Write"] | EditFile => ["Edit"] | Grep => ["Grep"] | Glob => ["Glob"]
  | Shell => ["Bash"; "shell_command"] | WebSearch => ["WebSearch"] | WebFetch => ["FetchURL"; "WebFetch"]
  | BackgroundAgent => ["Agent"] | AgentOutput => ["TaskOutput"] | StopAgent => ["TaskStop"] | MessageAgent => ["SendMessage"]
  | UseSkill => ["Skill"]
  | _ => []
  end.

Definition from_canonical_name (name : string) : option NativeTool := find_first (fun t => String.eqb (canonical_name t) name) VARIANTS.
Definition from_any_name (name : string) : option NativeTool :=
  find_first (fun t => existsb (String.eqb name) (canonical_name t :: aliases t)) VARIANTS.

(** [NativeTool::name]. *)
Definition tool_name (v : ToolVocabulary) (t : NativeTool) : string :=
  match v, t with
  | (VocClaude5 | VocKimiCode), ReadFile => "Read"
  | (VocClaude5 | VocKimiCode), WriteFile => "Write"
  | (VocClaude5 | VocKimiCode), EditFile => "Edit"
  | (VocClaude5 | VocKimiCode), Shell => "Bash"
  | (VocClaude5 | VocKimiCode), Grep => "Grep"
  | (VocClaude5 | VocKimiCode), Glob => "Glob"
  | (VocClaude5 | VocKimiCode), WebSearch => "WebSearch"
  | (VocClaude5 | VocKimiCode), UseSkill => "Skill"
  | VocClaude5, WebFetch => "WebFetch"
  | VocClaude5, BackgroundAgent => "Agent"
  | VocClaude5, AgentOutput => "TaskOutput"
  | VocClaude5, StopAgent => "TaskStop"
  | VocClaude5, MessageAgent => "SendMessage"
  | VocKimiCode, WebFetch => "FetchURL"
  | VocCodex, Shell => "shell_command"
  | _, t => canonical_name t
  end.

(** ** Permissions *)

Inductive AgentToolCategory := CatRead | CatWrite | CatShell | CatSubagent | CatOther.

#[export] Instance PermissionLevel_eq_dec : EqDecision PermissionLevel.
Proof. solve_decision. Defined.

Definition category (t : NativeTool) : option AgentToolCategory :=
  match t with
  | ReadFile | ReadManyFiles | Grep | Glob | ListDir => Some CatRead
  | WriteFile | EditFile | ApplyPatch => Some CatWrite
  | Shell => Some CatShell
  | SpawnAgent | SendInput | Wait | CloseAgent | BackgroundAgent | AgentOutput | StopAgent | MessageAgent => Some CatSubagent
  | _ => None
  end.

Definition canonical_tool_name (name : string) : string := match from_any_name name with Some t => canonical_name t | None => name end.
Definition known_tool_category (name : string) : option AgentToolCategory := from_any_name name ≫= category.
Definition tool_category (name : string) : AgentToolCategory := default CatShell (known_tool_category name).

Definition is_auto_approved (level : PermissionLevel) (c : AgentToolCategory) : bool :=
  match level, c with
  | _, (CatRead | CatSubagent) => true
  | (PermReadWrite | PermFull), CatWrite => true
  | PermFull, CatShell => true
  | _, _ => false
  end.
Definition is_tool_auto_approved (level : PermissionLevel) (name : string) : bool := is_auto_approved level (tool_category name).

(** ** Cutting output *)

Local Open Scope nat_scope.

(** [str::is_char_boundary]. *)
Definition is_char_boundary (s : string) (i : nat) : bool :=
  (Nat.eqb i 0 || Nat.eqb i (String.length s) || match String.get i s with Some c => negb (is_continuation c) | None => false end)%bool.

Fixpoint floor_boundary_from (s : string) (i : nat) : nat :=
  if is_char_boundary s i then i else match i with O => O | S i => floor_boundary_from s i end.
Definition floor_char_boundary (s : string) (i : nat) : nat := if Nat.leb (String.length s) i then String.length s else floor_boundary_from s i.
Definition ceil_char_boundary (s : string) (i : nat) : nat :=
  default (String.length s) (find_first (is_char_boundary s) (seq i (S (String.length s) - i))).

Definition split_head_tail (output : string) (max_bytes : nat) : option (nat * nat) :=
  if Nat.leb (String.length output) max_bytes then None
  else
    let head_budget := max_bytes / 2 in
    let tail_budget := max_bytes - head_budget in
    Some (floor_char_boundary output head_budget, ceil_char_boundary output (String.length output - tail_budget)).

Record OutputCaptureStats := mkStats { oc_observed_bytes : Z; oc_retained_bytes : Z; oc_omitted_bytes : Z }.

Definition observed (output : string) (previously_omitted : Z) : Z := Z.min (Z.of_nat (String.length output) + previously_omitted) usize_max.

Definition retain_tool_output (output : string) (max_bytes : nat) (previously_omitted : Z) : string * OutputCaptureStats :=
  let seen := observed output previously_omitted in
  match split_head_tail output max_bytes with
  | None => (output, mkStats seen (Z.of_nat (String.length output)) previously_omitted)
  | Some (head_end, tail_start) =>
      let retained := Z.of_nat (head_end + (String.length output - tail_start)) in
      (str_take head_end output +:+ str_drop tail_start output, mkStats seen retained (Z.max 0 (seen - retained)))
  end.

Definition estimate_byte_tokens (bytes : Z) : Z := (bytes + 3) / 4.

Definition render_truncated_segments (head tail : string) (stats : OutputCaptureStats) (lines_omitted : option Z) : string :=
  let original_tokens := Z_to_string (estimate_byte_tokens (oc_observed_bytes stats)) in
  let omitted_tokens := Z_to_string (estimate_byte_tokens (oc_omitted_bytes stats)) in
  let middle_marker :=
    match lines_omitted with
    | None => "... approximately " +:+ omitted_tokens +:+ " tokens truncated ..."
    | Some lines => "... " +:+ Z_to_string lines +:+ " lines omitted (approximately " +:+ omitted_tokens +:+ " tokens truncated) ..."
    end in
  "Warning: truncated output (original token count: " +:+ original_tokens +:+ ")" +:+ nl +:+ "... " +:+ Z_to_string (oc_omitted_bytes stats) +:+ " bytes omitted ..."
  +:+ nl +:+ nl +:+ head +:+ nl +:+ nl +:+ middle_marker +:+ nl +:+ nl +:+ tail.

(** The bytes of a string as JSON: the quotes, and what serde_json escapes. *)
Definition json_cost (c : ascii) : nat :=
  if (Ascii.eqb c ch_quote || Ascii.eqb c ch_backslash || in_range 8 10 c || in_range 12 13 c)%bool then 2
  else if in_range 0 31 c then 6 else 1.
Fixpoint json_costs (s : string) : nat := match s with "" => 0 | String c s => json_cost c + json_costs s end.
Definition serialized_json_bytes (s : string) : nat := 2 + json_costs s.

Definition MAX_RUN_EVENT_BODY_BYTES : Z := 3 * 1024 * 1024.
Definition MAX_SERIALIZED_TOOL_OUTPUT_BYTES : Z := MAX_RUN_EVENT_BODY_BYTES / 2.
Definition MAX_RETAINED_TOOL_OUTPUT_BYTES : Z := 1024 * 1024.

(** What one budget for the content gives. *)
Definition preview_segments (output : string) (content_budget : nat) (previously_omitted : Z) : nat * nat * OutputCaptureStats :=
  let seen := observed output previously_omitted in
  match split_head_tail output content_budget with
  | Some (head_end, tail_start) =>
      let retained := Z.of_nat (head_end + (String.length output - tail_start)) in
      (head_end, tail_start, mkStats seen retained (Z.max 0 (seen - retained)))
  | None =>
      let mid := floor_char_boundary output (String.length output / 2) in
      (mid, mid, mkStats seen (Z.of_nat (String.length output)) previously_omitted)
  end.

Definition preview_rendered (output : string) (content_budget : nat) (previously_omitted : Z) : string * OutputCaptureStats :=
  let '(head_end, tail_start, stats) := preview_segments output content_budget previously_omitted in
  (if (oc_omitted_bytes stats =? 0)%Z then output
   else render_truncated_segments (str_take head_end output) (str_drop tail_start output) stats None, stats).

(** The budget after one that does not fit. *)
Definition next_budget (content_budget max_bytes rendered serialized : nat) : nat :=
  let reduced := content_budget - 1 in
  let reduced := if Nat.ltb max_bytes rendered then Nat.min reduced (content_budget - (rendered - max_bytes)) else reduced in
  if (MAX_SERIALIZED_TOOL_OUTPUT_BYTES <? Z.of_nat serialized)%Z
  then Nat.min reduced (Z.to_nat (Z.of_nat content_budget * MAX_SERIALIZED_TOOL_OUTPUT_BYTES / Z.of_nat serialized)) else reduced.

(** Every budget is smaller than the one before: [S max_bytes] rounds are enough, and [None] is
    not reached. *)
Fixpoint preview_rounds (fuel : nat) (output : string) (max_bytes content_budget : nat) (previously_omitted : Z) : option (string * OutputCaptureStats) :=
  match fuel with
  | O => None
  | S fuel =>
      let '(rendered, stats) := preview_rendered output content_budget previously_omitted in
      let serialized := serialized_json_bytes rendered in
      if (Nat.leb (String.length rendered) max_bytes && (Z.of_nat serialized <=? MAX_SERIALIZED_TOOL_OUTPUT_BYTES)%Z)%bool then Some (rendered, stats)
      else match content_budget with
           | O =>
               Some (match split_head_tail rendered max_bytes with
                     | Some (head_end, tail_start) => str_take head_end rendered +:+ str_drop tail_start rendered
                     | None => rendered
                     end, stats)
           | S _ => preview_rounds fuel output max_bytes (next_budget content_budget max_bytes (String.length rendered) serialized) previously_omitted
           end
  end.

Definition preview_tool_output (output : string) (max_bytes : nat) (previously_omitted : Z) : option (string * OutputCaptureStats) :=
  preview_rounds (S max_bytes) output max_bytes max_bytes previously_omitted.

(** ** Limits per tool *)

Inductive TruncationMode := HeadTail | Tail.

Definition default_char_limit (name : string) : option nat :=
  if String.eqb name "read_file" then Some (50 * 1000)
  else if String.eqb name "shell" then Some (30 * 1000)
  else if (String.eqb name "grep" || String.eqb name "glob" || String.eqb name "spawn_agent")%bool then Some (20 * 1000)
  else if (String.eqb name "edit_file" || String.eqb name "apply_patch")%bool then Some (10 * 1000)
  else if String.eqb name "write_file" then Some 1000
  else None.

Definition default_line_limit (name : string) : option nat :=
  if String.eqb name "shell" then Some 256 else if String.eqb name "grep" then Some 200 else if String.eqb name "glob" then Some 500 else None.

Definition default_truncation_mode (name : string) : TruncationMode :=
  if (String.eqb name "grep" || String.eqb name "glob" || String.eqb name "edit_file" || String.eqb name "apply_patch" || String.eqb name "write_file")%bool
  then Tail else HeadTail.

Definition truncate_output (output : string) (max_chars : nat) (mode : TruncationMode) : string :=
  match split_head_tail output max_chars with
  | None => output
  | Some (head_end, tail_start) =>
      let '(head, tail) :=
        match mode with
        | HeadTail => (str_take head_end output, str_drop tail_start output)
        | Tail => ("", str_drop (ceil_char_boundary output (String.length output - max_chars)) output)
        end in
      let retained := Z.of_nat (String.length head + String.length tail) in
      let len := Z.of_nat (String.length output) in
      render_truncated_segments head tail (mkStats len retained (Z.max 0 (len - retained))) None
  end.

Definition truncate_lines (output : string) (max_lines : nat) : string :=
  let ls := str_lines output in
  if Nat.leb (length ls) max_lines then output
  else
    let head_count := max_lines / 2 in
    let tail_count := max_lines - head_count in
    let head := str_join nl (take head_count ls) in
    let tail := str_join nl (drop (length ls - tail_count) ls) in
    let retained := Z.of_nat (String.length head + String.length tail) in
    let len := Z.of_nat (String.length output) in
    render_truncated_segments head tail (mkStats len retained (Z.max 0 (len - retained))) (Some (Z.of_nat (length ls - max_lines))).

(** The limits a session may set by the name the tool was called with or by its canonical
    name. *)
Definition limit_for (limits : gmap string nat) (by_default : string -> option nat) (name : string) : option nat :=
  match limits !! name with
  | Some l => Some l
  | None => match limits !! canonical_tool_name name with Some l => Some l | None => by_default (canonical_tool_name name) end
  end.

Definition truncate_tool_output (output name : string) (output_limits line_limits : gmap string nat) : string :=
  let after_chars :=
    match limit_for output_limits default_char_limit name with
    | Some limit => truncate_output output limit (default_truncation_mode (canonical_tool_name name))
    | None => output
    end in
  match limit_for line_limits default_line_limit name with
  | Some limit => truncate_lines after_chars limit
  | None => after_chars
  end.

(** ** Asking for permission (cli.rs) *)

(** One call of the approval function: the level it is at, whether somebody can be asked, and
    the line they type ([Err] when it cannot be read). *)
Definition tool_approval (is_interactive : bool) (name : string) (input : result string string) (level : PermissionLevel)
    : result unit string * PermissionLevel :=
  if is_auto_approved level (tool_category name) then (Ok tt, level)
  else if negb is_interactive then (Err (name +:+ " tool denied at current permission level"), level)
  else match input with
       | Err e => (Err ("Failed to read input: " +:+ e), level)
       | Ok line =>
           let answer := to_lowercase (utrim line) in
           if (String.eqb answer "y" || String.eqb answer "yes")%bool then (Ok tt, level)
           else if (String.eqb answer "a" || String.eqb answer "always")%bool
           then (Ok tt, match tool_category name with CatWrite => PermReadWrite | _ => PermFull end)
           else (Err (name +:+ " tool denied by user"), level)
       end.

(** ** What the names, permissions and limits of tools guarantee *)

Local Open Scope string_scope.
Local Open Scope list_scope.

(** ** Names and permissions *)

Lemma variants_complete t : t ∈ VARIANTS.
Proof. destruct t; unfold VARIANTS; repeat (apply list_elem_of_here || apply list_elem_of_further). Qed.

(** Every name of a tool is read as the tool. *)
Lemma from_any_name_name v t : from_any_name (tool_name v t) = Some t.
Proof. by destruct v, t. Qed.

Definition level_rank (l : PermissionLevel) : nat := match l with PermReadOnly => 0 | PermReadWrite => 1 | PermFull => 2 end.

Lemma approved_mono l l' c : level_rank l <= level_rank l' -> is_auto_approved l c = true -> is_auto_approved l' c = true.
Proof. destruct l, l', c; cbn; lia || done. Qed.

(** The permission gate looks at what a tool is, not at what it is called.  Whatever
    vocabulary a tool is named in, it has the same canonical name and the same permissions; a
    name that no built-in tool has is approved without asking only at the highest level; and
    raising the level never withdraws an approval. *)
Theorem permissions_follow_identity l v t :
  canonical_tool_name (tool_name v t) = canonical_name t
  /\ is_tool_auto_approved l (tool_name v t) = is_tool_auto_approved l (canonical_name t)
  /\ (forall name, from_any_name name = None -> is_tool_auto_approved l name = bool_decide (l = PermFull))
  /\ (forall name l', level_rank l <= level_rank l' -> is_tool_auto_approved l name = true -> is_tool_auto_approved l' name = true).
Proof.
  split_and!.
  - unfold canonical_tool_name. by rewrite from_any_name_name.
  - change (canonical_name t) with (tool_name VocFabro t). unfold is_tool_auto_approved, tool_category, known_tool_category. by rewrite !from_any_name_name.
  - intros name Hn. unfold is_tool_auto_approved, tool_category, known_tool_category. rewrite Hn. by destruct l.
  - intros name l'. apply approved_mono.
Qed.

Lemma category_gated name : tool_category name <> CatOther.
Proof. unfold tool_category, known_tool_category. destruct (from_any_name name) as [t|]; [by destruct t|done]. Qed.

(** The approval function keeps its word: it lets a call through only when the level approves the
    tool or the person answered yes or always, never lowers the level, and after an always
    the same tool is not asked about again. *)
Theorem approval_keeps_word interactive name input l r l' : tool_approval interactive name input l = (r, l') ->
  (l' = l \/ is_tool_auto_approved l name = false /\ interactive = true)
  /\ (is_tool_auto_approved l name = true -> r = Ok tt /\ l' = l)
  /\ level_rank l <= level_rank l'
  /\ (l' <> l -> r = Ok tt /\ is_tool_auto_approved l' name = true).
Proof.
  unfold tool_approval, is_tool_auto_approved. destruct (is_auto_approved l (tool_category name)) eqn:Ha; [intros [= <- <-]; split_and!; auto; lia || congruence|].
  destruct interactive; cbn [negb]; [|intros [= <- <-]; split_and!; auto; lia || congruence].
  destruct input as [line|e]; [|intros [= <- <-]; split_and!; auto; lia || congruence].
  destruct (_ || _)%bool; [intros [= <- <-]; split_and!; auto; lia || congruence|].
  destruct (_ || _)%bool; [|intros [= <- <-]; split_and!; auto; lia || congruence]. intros [= <- <-].
  pose proof (category_gated name) as Hg. destruct (tool_category name), l; cbn in Ha |- *; try done; split_and!; auto; lia || congruence.
Qed.

(** ** Boundaries *)

Local Open Scope nat_scope.

Lemma boundary_zero s : is_char_boundary s 0 = true.
Proof. done. Qed.

Lemma boundary_end s : is_char_boundary s (String.length s) = true.
Proof. unfold is_char_boundary. by rewrite Nat.eqb_refl, orb_true_r. Qed.

Lemma floor_boundary_from_spec s i : floor_boundary_from s i <= i /\ is_char_boundary s (floor_boundary_from s i) = true.
Proof.
  induction i as [|i IH]; [done|]. cbn [floor_boundary_from]. destruct (is_char_boundary s (S i)) eqn:Hb; [done|]. destruct IH. split; [lia|done].
Qed.

Lemma floor_char_boundary_spec s i : floor_char_boundary s i <= Nat.min i (String.length s) /\ is_char_boundary s (floor_char_boundary s i) = true.
Proof.
  unfold floor_char_boundary. destruct (Nat.leb_spec (String.length s) i); [split; [lia|apply boundary_end]|].
  destruct (floor_boundary_from_spec s i). split; [lia|done].
Qed.

Lemma ceil_char_boundary_spec s i : i <= String.length s -> i <= ceil_char_boundary s i <= String.length s /\ is_char_boundary s (ceil_char_boundary s i) = true.
Proof.
  intros Hi. unfold ceil_char_boundary. destruct (find_first _ _) as [j|] eqn:Hf.
  - apply find_first_Some_elem in Hf as [Hj Hb]. apply elem_of_seq in Hj. cbn. split; [lia|done].
  - cbn. split; [lia|apply boundary_end].
Qed.

(** The two pieces that are kept: whole characters, within the budget, in order. *)
Lemma split_head_tail_spec s max h t : split_head_tail s max = Some (h, t) ->
  h <= t <= String.length s /\ h + (String.length s - t) <= max /\ is_char_boundary s h = true /\ is_char_boundary s t = true.
Proof.
  unfold split_head_tail. destruct (Nat.leb_spec (String.length s) max) as [|Hl]; [done|].
  assert (max / 2 <= max) as Hhalf by (apply Nat.div_le_upper_bound; lia). revert Hhalf. generalize (max / 2) as half. intros half Hhalf. cbv zeta. intros [= <- <-].
  destruct (floor_char_boundary_spec s half) as [Hh Hhb]. destruct (ceil_char_boundary_spec s (String.length s - (max - half))) as [Ht Htb]; [lia|].
  split_and!; [lia|lia|lia|done|done].
Qed.

Lemma str_take_drop n s : str_take n s +:+ str_drop n s = s.
Proof. revert s. induction n as [|n IH]; intros [|c s]; [done..|]. cbn [str_take str_drop]. by rewrite append_cons, IH. Qed.

Lemma str_take_length n s : String.length (str_take n s) = Nat.min n (String.length s).
Proof. revert s. induction n as [|n IH]; intros [|c s]; [done..|]. cbn. by rewrite IH. Qed.

Lemma str_drop_length n s : String.length (str_drop n s) = String.length s - n.
Proof. revert s. induction n as [|n IH]; intros [|c s]; [done..|]. cbn. by rewrite IH. Qed.

Lemma str_drop_drop a b s : str_drop a (str_drop b s) = str_drop (b + a) s.
Proof. revert s. induction b as [|b IH]; intros [|c s]; [done|done|by destruct a|]. apply IH. Qed.

(** A text with its middle cut out. *)
Definition cut (h t : nat) (s : string) : string := str_take h s +:+ str_drop t s.

Lemma cut_length h t s : h <= t <= String.length s -> String.length (cut h t s) = h + (String.length s - t).
Proof. intros Ht. unfold cut. rewrite length_append, str_take_length, str_drop_length. lia. Qed.

Lemma cut_middle h t s : h <= t -> s = str_take h s +:+ str_take (t - h) (str_drop h s) +:+ str_drop t s.
Proof.
  intros Ht. rewrite <- (str_take_drop h s) at 1. f_equal. rewrite <- (str_take_drop (t - h) (str_drop h s)) at 1. f_equal. rewrite str_drop_drop. f_equal. lia.
Qed.

(** ** JSON *)

Lemma json_costs_app a b : json_costs (a +:+ b) = json_costs a + json_costs b.
Proof. induction a as [|c a IH]; [done|]. rewrite append_cons. cbn. rewrite IH. lia. Qed.

Lemma json_cost_bound c : 1 <= json_cost c <= 6.
Proof. unfold json_cost. destruct (_ || _)%bool; [lia|]. destruct (in_range _ _ _); lia. Qed.

Lemma json_costs_bound s : json_costs s <= 6 * String.length s.
Proof. induction s as [|c s IH]; [done|]. cbn [json_costs String.length]. pose proof (json_cost_bound c). lia. Qed.

Lemma json_costs_cut h t s : h <= t -> json_costs (cut h t s) <= json_costs s.
Proof. intros Ht. rewrite (cut_middle h t s Ht) at 2. unfold cut. rewrite !json_costs_app. lia. Qed.

(** ** The notice *)

Lemma number_costs z : (0 <= z <= usize_max)%Z -> json_costs (Z_to_string z) <= 120.
Proof.
  intros Hz. pose proof (number_length 20 z ltac:(lia)) as Hl. change (10 ^ Z.of_nat 20)%Z with 100000000000000000000%Z in Hl. pose proof (json_costs_bound (Z_to_string z)). unfold usize_max, u64_max in Hz.
  assert (String.length (Z_to_string z) <= 20) by (apply Hl; lia). lia.
Qed.

Lemma tokens_range z : (0 <= z <= usize_max)%Z -> (0 <= estimate_byte_tokens z <= usize_max)%Z.
Proof. intros Hz. unfold estimate_byte_tokens, usize_max, u64_max in *. split; [apply Z.div_pos; lia|]. apply Z.div_le_upper_bound; lia. Qed.

Definition stats_fit (st : OutputCaptureStats) : Prop := (0 <= oc_observed_bytes st <= usize_max)%Z /\ (0 <= oc_omitted_bytes st <= usize_max)%Z.

(** The notice alone is far below the limit of an event. *)
Lemma notice_fits st : stats_fit st -> (Z.of_nat (serialized_json_bytes (render_truncated_segments "" "" st None)) <= MAX_SERIALIZED_TOOL_OUTPUT_BYTES)%Z.
Proof.
  intros [Ho Hm]. assert (json_costs (render_truncated_segments "" "" st None) <= 1000) as Hb.
  { unfold render_truncated_segments. rewrite !json_costs_app. pose proof (number_costs _ (tokens_range _ Ho)). pose proof (number_costs _ (tokens_range _ Hm)). pose proof (number_costs _ Hm).
    change (json_costs "Warning: truncated output (original token count: ") with 49. change (json_costs ")") with 1. change (json_costs nl) with 2. change (json_costs "... ") with 4.
    change (json_costs " bytes omitted ...") with 18. change (json_costs "") with 0. change (json_costs "... approximately ") with 18. change (json_costs " tokens truncated ...") with 21. lia. }
  unfold serialized_json_bytes. change MAX_SERIALIZED_TOOL_OUTPUT_BYTES with 1572864%Z. lia.
Qed.

(** ** Retention and previews *)

(** What is retained of a tool's output is a beginning and an end of it, cut between
    characters and within the budget; the output itself when it fits.  The counts add up. *)
Theorem retained_output output max prev : (0 <= prev)%Z -> (Z.of_nat (String.length output) + prev <= usize_max)%Z ->
  let '(kept, st) := retain_tool_output output max prev in
  String.length kept <= max
  /\ (kept = output \/ exists head middle tail, output = head +:+ middle +:+ tail /\ kept = head +:+ tail
        /\ is_char_boundary output (String.length head) = true /\ is_char_boundary output (String.length head + String.length middle) = true)
  /\ (oc_retained_bytes st = Z.of_nat (String.length kept) /\ oc_observed_bytes st = oc_retained_bytes st + oc_omitted_bytes st)%Z.
Proof.
  intros Hp Hfit. unfold retain_tool_output. assert (observed output prev = Z.of_nat (String.length output) + prev)%Z as -> by (unfold observed; lia).
  destruct (split_head_tail output max) as [[h t]|] eqn:Hs.
  - apply split_head_tail_spec in Hs as (Ht & Hl & Hb1 & Hb2). change (str_take h output +:+ str_drop t output) with (cut h t output). rewrite cut_length by done.
    split; [done|]. split; [|cbn; lia]. right. exists (str_take h output), (str_take (t - h) (str_drop h output)), (str_drop t output).
    split; [apply cut_middle; lia|]. split; [done|]. rewrite !str_take_length, str_drop_length. rewrite !Nat.min_l by lia. replace (h + (t - h)) with t by lia. by split.
  - split; [|split; [by left|cbn; lia]]. unfold split_head_tail in Hs. destruct (Nat.leb_spec (String.length output) max); [done|discriminate].
Qed.

Lemma next_budget_decreases b max r ser : 0 < b -> next_budget b max r ser < b.
Proof. intros Hb. unfold next_budget. destruct (Nat.ltb max r), (_ <? _)%Z; lia. Qed.

Lemma preview_stats output b prev : (0 <= prev <= usize_max)%Z -> (Z.of_nat (String.length output) <= usize_max)%Z -> stats_fit (preview_rendered output b prev).2.
Proof.
  intros Hp Hl. unfold preview_rendered, preview_segments, stats_fit, observed. destruct (split_head_tail output b) as [[h t]|]; cbn; lia.
Qed.

(** With no budget for content only the notice is left. *)
Lemma preview_exhausted output prev : (0 <= prev <= usize_max)%Z -> (Z.of_nat (String.length output) <= usize_max)%Z ->
  (Z.of_nat (serialized_json_bytes (preview_rendered output 0 prev).1) <= MAX_SERIALIZED_TOOL_OUTPUT_BYTES)%Z.
Proof.
  intros Hp Hl. pose proof (preview_stats output 0 prev Hp Hl) as Hst. revert Hst. unfold preview_rendered, preview_segments, split_head_tail.
  destruct output as [|c s].
  - cbn [String.length Nat.leb]. change (floor_char_boundary "" (0 / 2)) with 0. cbn [fst snd str_take str_drop]. intros Hst.
    destruct (_ =? 0)%Z; [done|]. by apply notice_fits.
  - set (output := String c s). change (Nat.leb (String.length output) 0) with false. cbv iota zeta. change (0 / 2) with 0. change (0 - 0) with 0.
    assert (floor_char_boundary output 0 = 0) as -> by done. rewrite Nat.sub_0_r.
    assert (ceil_char_boundary output (String.length output) = String.length output) as -> by (destruct (ceil_char_boundary_spec output (String.length output)); lia).
    cbn [fst snd]. intros Hst. assert ((oc_omitted_bytes (mkStats (observed output prev) (Z.of_nat (0 + (String.length output - String.length output)))
      (Z.max 0 (observed output prev - Z.of_nat (0 + (String.length output - String.length output)))))) =? 0 = false)%Z as ->.
    { apply Z.eqb_neq. cbn [oc_omitted_bytes]. unfold observed. rewrite Nat.sub_diag. cbn [String.length output] in *. lia. }
    assert (str_drop (String.length output) output = "") as ->.
    { pose proof (str_drop_length (String.length output) output) as Hd. destruct (str_drop (String.length output) output); [done|cbn in Hd; lia]. }
    by apply notice_fits.
Qed.

(** What a preview shows when it fits: the output, or the notice around a beginning and an end. *)
Definition previewed (output : string) (prev : Z) (shown : string) (st : OutputCaptureStats) : Prop :=
  (shown = output /\ oc_omitted_bytes st = 0%Z)
  \/ (oc_omitted_bytes st <> 0%Z /\ exists head middle tail, output = head +:+ middle +:+ tail /\ shown = render_truncated_segments head tail st None).

Lemma preview_rendered_shape output b prev : previewed output prev (preview_rendered output b prev).1 (preview_rendered output b prev).2.
Proof.
  unfold preview_rendered. destruct (preview_segments output b prev) as [[h t] st] eqn:Hs. cbn [fst snd]. destruct (Z.eqb_spec (oc_omitted_bytes st) 0) as [Hz|Hz]; [by left|].
  right. split; [done|]. exists (str_take h output), (str_take (t - h) (str_drop h output)), (str_drop t output). split; [|done]. apply cut_middle. unfold preview_segments in Hs.
  destruct (split_head_tail output b) as [[h' t']|] eqn:Hsp; injection Hs as <- <- _; [apply split_head_tail_spec in Hsp as [Ht _]|]; lia.
Qed.

Lemma preview_rounds_ok fuel output max b prev : (0 <= prev <= usize_max)%Z -> (Z.of_nat (String.length output) <= usize_max)%Z -> b < fuel ->
  exists shown st, preview_rounds fuel output max b prev = Some (shown, st) /\ String.length shown <= max
    /\ (Z.of_nat (serialized_json_bytes shown) <= MAX_SERIALIZED_TOOL_OUTPUT_BYTES)%Z
    /\ exists full, previewed output prev full st /\ (shown = full \/ exists h t, h <= t /\ shown = cut h t full).
Proof.
  intros Hp Hl. revert b. induction fuel as [|fuel IH]; intros b Hb; [lia|]. cbn [preview_rounds]. pose proof (preview_rendered_shape output b prev) as Hshape.
  pose proof (preview_exhausted output prev Hp Hl) as Hex. destruct (preview_rendered output b prev) as [rendered st] eqn:Hr. cbn [fst snd] in Hshape.
  destruct (Nat.leb_spec (String.length rendered) max) as [Hlen|Hlen], (Z.leb_spec (Z.of_nat (serialized_json_bytes rendered)) MAX_SERIALIZED_TOOL_OUTPUT_BYTES) as [Hser|Hser]; cbn [andb].
  1: { exists rendered, st. split_and!; [done..|]. exists rendered. split; [done|by left]. }
  all: destruct b as [|b]; [|destruct (IH (next_budget (S b) max (String.length rendered) (serialized_json_bytes rendered))) as (shown & st' & Hs); [pose proof (next_budget_decreases (S b) max (String.length rendered) (serialized_json_bytes rendered) ltac:(lia)); lia|by exists shown, st']].
  all: rewrite Hr in Hex; cbn [fst] in Hex; try lia.
  destruct (split_head_tail rendered max) as [[h t]|] eqn:Hs.
  - apply split_head_tail_spec in Hs as (Ht & Hfit & _). eexists _, st. split; [reflexivity|]. change (str_take h rendered +:+ str_drop t rendered) with (cut h t rendered).
    rewrite cut_length by done. split; [done|]. split; [|exists rendered; split; [done|right; exists h, t; split; [lia|done]]].
    unfold serialized_json_bytes in *. pose proof (json_costs_cut h t rendered ltac:(lia)). lia.
  - unfold split_head_tail in Hs. destruct (Nat.leb_spec (String.length rendered) max); [lia|discriminate].
Qed.

(** C32: the preview of a tool's output fits.  Whatever the output and the budget, looking for a
    preview ends, what is shown is within the budget and its JSON within half of what an event
    may hold; it is the output itself, or a notice around a beginning and an end of it, or
    what is left of that notice when the budget is too small for it. *)
Theorem preview_fits output max prev : (0 <= prev <= usize_max)%Z -> (Z.of_nat (String.length output) <= usize_max)%Z ->
  exists shown st, preview_tool_output output max prev = Some (shown, st) /\ String.length shown <= max
    /\ (Z.of_nat (serialized_json_bytes shown) <= MAX_SERIALIZED_TOOL_OUTPUT_BYTES)%Z
    /\ exists full, previewed output prev full st /\ (shown = full \/ exists h t, h <= t /\ shown = cut h t full).
Proof. intros Hp Hl. unfold preview_tool_output. apply preview_rounds_ok; [done|done|lia]. Qed.

(** ** Witnesses *)

Lemma retained_output_witness : retain_tool_output "héllo world" 4 0 = ("hld", mkStats 12 3 9).
Proof.
  pose proof (retained_output "héllo world" 4 0) as H. destruct (retain_tool_output "héllo world" 4 0) as [kept st] eqn:E.
  destruct (H ltac:(lia) ltac:(vm_compute; discriminate)) as (_ & _ & _ & _). vm_compute in E. injection E as <- <-. reflexivity.
Defined.

Lemma preview_fits_witness : exists shown st, preview_tool_output (str_join nl (replicate 30 "0123456789")) 200 0 = Some (shown, st) /\ String.length shown <= 200.
Proof.
  destruct (preview_fits (str_join nl (replicate 30 "0123456789")) 200 0) as (shown & st & Hs & Hl & _); [vm_compute; split; discriminate|vm_compute; discriminate|].
  exists shown, st. split; [exact Hs|exact Hl].
Defined.
