(* ===== verification/LlmErrors.v ===== *)
(** * Errors of language-model calls, and retrying them

    fabro-llm/src/error.rs (the errors, and the mapping of HTTP and gRPC statuses to
    them), the headers and error bodies of responses (fabro-llm/src/transport.rs,
    codec/mod.rs, codec/gemini_generate/decode.rs, codec/bedrock_converse/decode.rs), the
    retry loop (fabro-llm/src/retry.rs), and the error of the workflow engine
    (fabro-workflow/src/error.rs, fabro-util/src/error.rs) with its conversion to the
    failure of a stage. *)

From S2P Require Import Prelude RustStr RustNum Backoff GraphTypes Context Outcome Failure Interp Lint Artifact RunStatus Events Workflow.
Local Open Scope Z_scope.

(** ** Chains of errors (fabro-util/src/error.rs) *)

(** A [dyn Error] with its sources is the list of their texts.  An error of a command in a
    sandbox, which [default_redacted_output_tail] looks for by its type, carries the tail of
    its output. *)
Record ErrLink := mkLink { el_text : string; el_exec : option (option ExecOutputTail) }.
Abbreviation ErrChain := (list ErrLink).

Definition chain_text (c : ErrChain) : string := default "" (el_text <$> head c).
Definition collect_causes (c : ErrChain) : list string := el_text <$> tail c.
Definition collect_chain (c : ErrChain) : list string := chain_text c :: collect_causes c.

Definition render_with_causes (msg : string) (causes : list string) : string :=
  foldl (fun rendered cause => rendered +:+ nl +:+ "  caused by: " +:+ cause) msg causes.

(** [SharedError]: the text and the sources of the error within; the type of the outermost
    error is hidden by the wrapper. *)
Definition SharedError_new (c : ErrChain) : ErrChain :=
  match c with
  | [] => []
  | l :: sources => mkLink (el_text l) None :: sources
  end.

(** [default_redacted_output_tail] (fabro-sandbox/src/error.rs). *)
Fixpoint default_redacted_output_tail (c : ErrChain) : option ExecOutputTail :=
  match c with
  | [] => None
  | l :: sources => match el_exec l with Some tail => tail | None => default_redacted_output_tail sources end
  end.

(** ** Errors of language-model calls *)

Inductive ProviderErrorKind :=
| PkAuthentication | PkAccessDenied | PkNotFound | PkInvalidRequest | PkRateLimit | PkServer
| PkContentFilter | PkContextLength | PkQuotaExceeded.

#[export] Instance ProviderErrorKind_eq_dec : EqDecision ProviderErrorKind.
Proof. solve_decision. Defined.

Definition ProviderErrorKind_to_string (k : ProviderErrorKind) : string :=
  match k with
  | PkAuthentication => "Authentication error for"
  | PkAccessDenied => "Access denied by"
  | PkNotFound => "Not found on"
  | PkInvalidRequest => "Invalid request to"
  | PkRateLimit => "Rate limited by"
  | PkServer => "Server error from"
  | PkContentFilter => "Content filtered by"
  | PkContextLength => "Context length exceeded for"
  | PkQuotaExceeded => "Quota exceeded for"
  end.

Record ProviderErrorDetail := mkDetail {
  pd_message : string;
  pd_provider : string;
  pd_status_code : option Z;
  pd_error_code : option string;
  pd_retry_after : option f64;
  pd_raw : option Value
}.

Definition ProviderErrorDetail_new (msg provider : string) : ProviderErrorDetail :=
  mkDetail msg provider None None None None.

(** The optional source of an error is a chain, empty when there is none. *)
Inductive LlmError :=
| LeProvider (kind : ProviderErrorKind) (detail : ProviderErrorDetail)
| LeRequestTimeout (message : string) (source : ErrChain)
| LeInterrupt (message : string)
| LeNetwork (message : string) (source : ErrChain)
| LeStream (message : string) (source : ErrChain)
| LeInvalidToolCall (message : string)
| LeNoObjectGenerated (message : string)
| LeInvalidRequest (message : string)
| LeConfiguration (message : string) (source : ErrChain)
| LeUnsupportedToolChoice (message : string).

Definition LlmError_to_string (e : LlmError) : string :=
  match e with
  | LeProvider k d => ProviderErrorKind_to_string k +:+ " " +:+ pd_provider d +:+ ": " +:+ pd_message d
  | LeRequestTimeout m _ => "Request timed out: " +:+ m
  | LeInterrupt m => "Request interrupted: " +:+ m
  | LeNetwork m _ => "Network error: " +:+ m
  | LeStream m _ => "Stream error: " +:+ m
  | LeInvalidToolCall m => "Invalid tool call: " +:+ m
  | LeNoObjectGenerated m => "No object generated: " +:+ m
  | LeInvalidRequest m => "Invalid request: " +:+ m
  | LeConfiguration m _ => "Configuration error: " +:+ m
  | LeUnsupportedToolChoice m => "Unsupported tool choice: " +:+ m
  end.

Definition llm_source (e : LlmError) : ErrChain :=
  match e with
  | LeRequestTimeout _ s | LeNetwork _ s | LeStream _ s | LeConfiguration _ s => s
  | _ => []
  end.

Definition llm_retryable (e : LlmError) : bool :=
  match e with
  | LeProvider k _ =>
      match k with
      | PkAuthentication | PkAccessDenied | PkNotFound | PkInvalidRequest | PkContextLength
      | PkQuotaExceeded | PkContentFilter => false
      | _ => true
      end
  | LeInvalidToolCall _ | LeNoObjectGenerated _ | LeInterrupt _ | LeInvalidRequest _
  | LeConfiguration _ _ | LeUnsupportedToolChoice _ | LeRequestTimeout _ _ => false
  | _ => true
  end.

Definition llm_retry_after (e : LlmError) : option f64 :=
  match e with LeProvider _ d => pd_retry_after d | _ => None end.
Definition llm_status_code (e : LlmError) : option Z :=
  match e with LeProvider _ d => pd_status_code d | _ => None end.
Definition provider_kind (e : LlmError) : option ProviderErrorKind :=
  match e with LeProvider k _ => Some k | _ => None end.
Definition provider_name (e : LlmError) : string :=
  match e with LeProvider _ d => pd_provider d | _ => "unknown" end.

Definition refusal_content_filter (e : LlmError) : bool :=
  match e with
  | LeProvider PkContentFilter d => bool_decide (pd_error_code d = Some "refusal")
  | _ => false
  end.

Definition failover_eligible (e : LlmError) : bool :=
  if llm_retryable e then true
  else (match e with
        | LeProvider (PkAuthentication | PkAccessDenied | PkNotFound | PkQuotaExceeded) _
        | LeRequestTimeout _ _ => true
        | _ => false
        end || refusal_content_filter e)%bool.

Definition provider_signature (k : ProviderErrorKind) : string :=
  match k with
  | PkRateLimit => "rate_limited"
  | PkServer => "server_error"
  | PkContextLength => "context_length"
  | PkQuotaExceeded => "quota_exceeded"
  | PkAuthentication => "authentication"
  | PkAccessDenied => "access_denied"
  | PkNotFound => "not_found"
  | PkInvalidRequest => "invalid_request"
  | PkContentFilter => "content_filter"
  end.

Definition llm_signature_hint (e : LlmError) : string :=
  let provider := provider_name e in
  let hint category detail := category +:+ "|" +:+ provider +:+ "|" +:+ detail in
  match e with
  | LeProvider k _ => hint (if llm_retryable e then "api_transient" else "api_deterministic") (provider_signature k)
  | LeRequestTimeout _ _ => hint "api_transient" "timeout"
  | LeNetwork _ _ => hint "api_transient" "network"
  | LeStream _ _ => hint "api_transient" "stream"
  | LeInterrupt _ => hint "api_canceled" "interrupt"
  | LeConfiguration _ _ => hint "api_deterministic" "configuration"
  | LeInvalidToolCall _ => hint "api_deterministic" "invalid_tool_call"
  | LeNoObjectGenerated _ => hint "api_deterministic" "no_object"
  | LeInvalidRequest _ => hint "api_deterministic" "invalid_request"
  | LeUnsupportedToolChoice _ => hint "api_deterministic" "unsupported_tool_choice"
  end.

Definition one_of (s : string) (l : list string) : bool := existsb (String.eqb s) l.

Definition kind_from_error_code (code : string) : option ProviderErrorKind :=
  if one_of code ["insufficient_quota"; "billing_hard_limit_reached"; "exceeded_current_quota_error"] then Some PkQuotaExceeded
  else if one_of code ["rate_limit_error"; "rate_limit_exceeded"; "too_many_requests"] then Some PkRateLimit
  else if one_of code ["authentication_error"; "invalid_api_key"; "invalid_authentication"] then Some PkAuthentication
  else if one_of code ["access_denied"; "account_deactivated"; "permission_denied"; "permission_error"] then Some PkAccessDenied
  else if one_of code ["content_filter"; "content_policy_violation"] then Some PkContentFilter
  else if one_of code ["context_length_exceeded"; "request_too_large"] then Some PkContextLength
  else if one_of code ["server_error"; "internal_error"; "service_unavailable"; "engine_overloaded"] then Some PkServer
  else if (String.eqb code "not_found_error" || ends_with "_not_found" code)%bool then Some PkNotFound
  else if (starts_with "invalid_" code || starts_with "unsupported_" code || ends_with "_too_large" code || ends_with "_too_long" code)%bool then Some PkInvalidRequest
  else None.

(** The kind of an error whose status and code say nothing, by its message. *)
Definition kind_from_message (msg : string) : ProviderErrorKind :=
  let lower_msg := to_lowercase msg in
  if (str_contains "not found" lower_msg || str_contains "does not exist" lower_msg)%bool then PkNotFound
  else if (str_contains "unauthorized" lower_msg || str_contains "invalid key" lower_msg)%bool then PkAuthentication
  else if (str_contains "context length" lower_msg || str_contains "too many tokens" lower_msg)%bool then PkContextLength
  else if (str_contains "content filter" lower_msg || str_contains "safety" lower_msg)%bool then PkContentFilter
  else PkInvalidRequest.

Definition error_from_status_code (status_code : Z) (msg provider : string) (error_code : option string) (raw : option Value) (retry_after : option f64) : LlmError :=
  let detail := mkDetail msg provider (Some status_code) error_code retry_after raw in
  let code_kind := error_code ≫= kind_from_error_code in
  if status_code =? 408 then LeRequestTimeout msg []
  else
    let kind :=
      if status_code =? 401 then PkAuthentication
      else if ((status_code =? 403) || (status_code =? 412))%bool then PkAccessDenied
      else if status_code =? 404 then PkNotFound
      else if status_code =? 413 then PkContextLength
      else if status_code =? 429 then (if decide (code_kind = Some PkQuotaExceeded) then PkQuotaExceeded else PkRateLimit)
      else if ((500 <=? status_code) && (status_code <=? 599))%bool then PkServer
      else match code_kind with Some k => k | None => kind_from_message msg end in
    LeProvider kind detail.

Definition error_from_grpc_status (grpc_code msg provider : string) (error_code : option string) (raw : option Value) (retry_after : option f64) : LlmError :=
  let detail := mkDetail msg provider None error_code retry_after raw in
  if String.eqb grpc_code "NOT_FOUND" then LeProvider PkNotFound detail
  else if String.eqb grpc_code "INVALID_ARGUMENT" then LeProvider PkInvalidRequest detail
  else if String.eqb grpc_code "UNAUTHENTICATED" then LeProvider PkAuthentication detail
  else if String.eqb grpc_code "PERMISSION_DENIED" then LeProvider PkAccessDenied detail
  else if String.eqb grpc_code "RESOURCE_EXHAUSTED" then LeProvider PkRateLimit detail
  else if String.eqb grpc_code "DEADLINE_EXCEEDED" then LeRequestTimeout msg []
  else LeProvider PkServer detail.

(** ** Responses that are errors *)

(** The headers of a response, names in lower case; [HeaderMap::get] takes the first value.
    [to_str] accepts visible ASCII and tabs. *)
Abbreviation HeaderMap := (list (string * string)).

Definition header_to_str (value : string) : option string :=
  if str_forall (fun c => (in_range 32 126 c || Ascii.eqb c ch_tab)%bool) value then Some value else None.
Definition header_str (headers : HeaderMap) (name : string) : option string := v ← assoc name headers; header_to_str v.
Definition header_i64 (headers : HeaderMap) (name : string) : option Z := s ← header_str headers name; parse_i64 s.

Definition parse_retry_after (headers : HeaderMap) : option f64 := s ← header_str headers "retry-after"; parse_f64 s.

Record RateLimitInfo := mkRateLimit {
  rl_requests_remaining : option Z;
  rl_requests_limit : option Z;
  rl_tokens_remaining : option Z;
  rl_tokens_limit : option Z;
  rl_reset_at : option string
}.

Definition parse_rate_limit_headers (headers : HeaderMap) : option RateLimitInfo :=
  let requests_remaining := header_i64 headers "x-ratelimit-remaining-requests" in
  let requests_limit := header_i64 headers "x-ratelimit-limit-requests" in
  let tokens_remaining := header_i64 headers "x-ratelimit-remaining-tokens" in
  let tokens_limit := header_i64 headers "x-ratelimit-limit-tokens" in
  let reset_at := or_else (header_str headers "x-ratelimit-reset-requests") (header_str headers "x-ratelimit-reset-tokens") in
  if (negb (is_some requests_remaining) && negb (is_some requests_limit) && negb (is_some tokens_remaining)
      && negb (is_some tokens_limit) && negb (is_some reset_at))%bool then None
  else Some (mkRateLimit requests_remaining requests_limit tokens_remaining tokens_limit reset_at).

(** [serde_json::from_str] at [Value]. *)
Class JsonText := json_from_str : string -> result Value string.

Section bodies.
Context `{JsonText}.

Definition parse_error_body (body error_code_field : string) : string * option string * option Value :=
  match json_from_str body with
  | Err _ => (body, None, None)
  | Ok v =>
      let msg := or_else (e ← value_get "error" v; m ← value_get "message" e; value_as_str m)
                         (d ← value_get "detail" v; value_as_str d) in
      let error_code := e ← value_get "error" v; c ← value_get error_code_field e; value_as_str c in
      (default "Unknown error" msg, error_code, Some v)
  end.

(** The [decode_error] of the codecs that do not override it. *)
Definition decode_error (status : Z) (body provider : string) (retry_after : option f64) : LlmError :=
  let '(msg, code, raw) := parse_error_body body "type" in
  error_from_status_code status msg provider code raw retry_after.

Definition gemini_error (status : Z) (msg provider : string) (grpc_status : option string) (raw : option Value) (retry_after : option f64) : LlmError :=
  match grpc_status with
  | Some grpc_code => error_from_grpc_status grpc_code msg provider (Some grpc_code) raw retry_after
  | None => error_from_status_code status msg provider None raw retry_after
  end.

Definition extract_error_message (v : Value) : option string :=
  or_else (m ← value_get "message" v; value_as_str m)
    (or_else (m ← value_get "Message" v; value_as_str m)
       (e ← value_get "error" v; m ← value_get "message" e; value_as_str m)).

Definition bedrock_error (status : Z) (body provider : string) (retry_after : option f64) : LlmError :=
  let raw := result_ok (json_from_str body) in
  let msg := match raw ≫= extract_error_message with
             | Some m => m
             | None => if str_is_empty (trim body) then "Unknown error" else body
             end in
  let code := (fun t => default t (last (split_char "#" t)))
                <$> (v ← raw; c ← or_else (value_get "__type" v) (value_get "code" v); value_as_str c) in
  error_from_status_code status msg provider code raw retry_after.
End bodies.

(** ** Retrying (fabro-llm/src/retry.rs) *)

(** The policy, with the effect of its callback. *)
Record LlmRetryPolicy (W : Type) := mkLlmRetry {
  lr_max_retries : Z;
  lr_backoff : BackoffPolicy;
  lr_on_retry : option (LlmError -> Z -> Duration -> W -> W)
}.
Arguments mkLlmRetry {W}.
Arguments lr_max_retries {W}.
Arguments lr_backoff {W}.
Arguments lr_on_retry {W}.

Definition LlmRetryPolicy_default {W} : LlmRetryPolicy W :=
  mkLlmRetry 2 (mkBackoff (from_secs 1) (f64_of_Z 2) (from_mins 1) true) None.

(** How a retried call ends. *)
Inductive Retried (T : Type) := Returned (r : result T LlmError) | RetryPanicked.
Arguments Returned {T}.
Arguments RetryPanicked {T}.

Section retrying.
Context {W T : Type} (draw : W -> f64 * W) (sleep : Duration -> W -> W) (operation : W -> result T LlmError * W).
Implicit Types (p : LlmRetryPolicy W) (w : W).

(** The outer [None] is a panic: of [Duration::from_secs_f64], of the delay's product, or of
    the addition. *)
Definition retry_delay p (err : LlmError) (attempt : Z) w : option (option Duration) * W :=
  match llm_retry_after err with
  | Some retry_after =>
      (d ← from_secs_f64 retry_after; Some (if max_delay (lr_backoff p) <? d then None else Some d), w)
  | None =>
      if u32_max <? attempt + 1 then (None, w)
      else match delay_for_attempt draw (lr_backoff p) (attempt + 1) w with
           | (Some d, w) => (Some (Some d), w)
           | (None, w) => (None, w)
           end
  end.

Definition notify_retry p (err : LlmError) (attempt : Z) (d : Duration) w : W :=
  match lr_on_retry p with Some f => f err attempt d w | None => w end.

(** One round less than [fuel] is left for each repetition; [None] is not reached. *)
Fixpoint retry_loop (fuel : nat) p (attempt : Z) w : option (Retried T * W) :=
  match fuel with
  | O => None
  | S fuel =>
      match operation w with
      | (Ok t, w) => Some (Returned (Ok t), w)
      | (Err err, w) =>
          if (negb (llm_retryable err) || (lr_max_retries p <=? attempt))%bool then Some (Returned (Err err), w)
          else match retry_delay p err attempt w with
               | (None, w) => Some (RetryPanicked, w)
               | (Some None, w) => Some (Returned (Err err), w)
               | (Some (Some d), w) => retry_loop fuel p (attempt + 1) (sleep d (notify_retry p err attempt d w))
               end
      end
  end.

Definition llm_retry p w : option (Retried T * W) := retry_loop (S (Z.to_nat (lr_max_retries p))) p 0 w.
End retrying.

(** ** The error of the workflow engine (fabro-workflow/src/error.rs) *)

Definition classify_sdk_error (e : LlmError) : FailureCategory :=
  match e with
  | LeProvider k _ =>
      match k with
      | PkRateLimit | PkServer => TransientInfra
      | PkContextLength | PkQuotaExceeded => BudgetExhausted
      | PkAuthentication | PkAccessDenied | PkNotFound | PkInvalidRequest | PkContentFilter => Deterministic
      end
  | LeRequestTimeout _ _ | LeNetwork _ _ | LeStream _ _ => TransientInfra
  | LeInterrupt _ => Canceled
  | LeInvalidToolCall _ | LeNoObjectGenerated _ | LeInvalidRequest _ | LeConfiguration _ _ | LeUnsupportedToolChoice _ => Deterministic
  end.

Inductive ErrorStage := StHandler | StEngine | StPublish.
Definition ErrorStage_to_string (s : ErrorStage) : string :=
  match s with StHandler => "Handler" | StEngine => "Engine" | StPublish => "Publish" end.

(** Errors of model selection and of model references are their texts. *)
Inductive EngineError :=
| WeParse (msg : string)
| WeValidation (msg : string)
| WeValidationFailed (diagnostics : list Diagnostic)
| WeScriptInterpolation (owner fix_ : string) (source : ResolveError)
| WeModelSelection (text : string)
| WeModelReference (text : string)
| WeTemplate (msg : string) (source : ErrChain)
| WeStage (stage : ErrorStage) (msg : string) (failure_class : FailureCategory) (tail : option ExecOutputTail) (extra_causes : list string) (source : ErrChain)
| WeLlm (e : LlmError)
| WeCheckpoint (msg : string)
| WeStylesheet (msg : string)
| WeIo (msg : string)
| WePrecondition (msg : string)
| WeRunNotFound (msg : string)
| WeUnsupported (msg : string)
| WeOutputSchemaValidation (msg : string)
| WeCancelled.

Section errors.
Context `{RegexReplace} `{ErrorText}.

Definition EngineError_to_string (e : EngineError) : string :=
  match e with
  | WeParse m => "Parse error: " +:+ m
  | WeValidation m => "Validation error: " +:+ m
  | WeValidationFailed _ => "Validation failed"
  | WeScriptInterpolation owner fix_ source =>
      "Validation error: script interpolation failed in " +:+ owner +:+ ": " +:+ resolve_error_to_string source +:+ " (" +:+ fix_ +:+ ")"
  | WeModelSelection t => "Model selection failed: " +:+ t
  | WeModelReference t => "Model reference failed: " +:+ t
  | WeTemplate m _ => m
  | WeStage stage m _ _ _ _ => ErrorStage_to_string stage +:+ " error: " +:+ m
  | WeLlm e => "LLM error: " +:+ LlmError_to_string e
  | WeCheckpoint m => "Checkpoint error: " +:+ m
  | WeStylesheet m => "Stylesheet error: " +:+ m
  | WeIo m => "I/O error: " +:+ m
  | WePrecondition m => "Precondition failed: " +:+ m
  | WeRunNotFound m => "Run not found: " +:+ m
  | WeUnsupported m => "Unsupported operation: " +:+ m
  | WeOutputSchemaValidation m => m
  | WeCancelled => "Pipeline cancelled"
  end.

(** ** Constructors *)

Definition error_stage (stage : ErrorStage) (msg : string) (tail : option ExecOutputTail) : EngineError :=
  WeStage stage msg (classify_failure_reason msg) tail [] [].

Definition stage_with_source_details (stage : ErrorStage) (msg : string) (source : ErrChain) (failure_class : option FailureCategory)
    (tail : option ExecOutputTail) (extra_causes : list string) : EngineError :=
  let source := SharedError_new source in
  let failure_class := match failure_class with
                       | Some c => c
                       | None => classify_failure_reason (render_with_causes msg (collect_chain source))
                       end in
  WeStage stage msg failure_class tail extra_causes source.

Definition stage_with_source (stage : ErrorStage) (msg : string) (source : ErrChain) (tail : option ExecOutputTail) : EngineError :=
  stage_with_source_details stage msg source None tail [].

Definition error_handler (msg : string) : EngineError := error_stage StHandler msg None.
Definition handler_with_exec_output_tail (msg : string) (tail : option ExecOutputTail) : EngineError := error_stage StHandler msg tail.
Definition handler_with_source_and_exec_output_tail (msg : string) (source : ErrChain) (tail : option ExecOutputTail) : EngineError :=
  stage_with_source StHandler msg source tail.
Definition handler_with_source (msg : string) (source : ErrChain) : EngineError := handler_with_source_and_exec_output_tail msg source None.
Definition error_engine (msg : string) : EngineError := error_stage StEngine msg None.
Definition error_engine_with_source (msg : string) (source : ErrChain) : EngineError := stage_with_source StEngine msg source None.
Definition error_publish (msg : string) : EngineError := error_stage StPublish msg None.
Definition publish_with_source_and_exec_output_tail (msg : string) (source : ErrChain) (tail : option ExecOutputTail) : EngineError :=
  stage_with_source StPublish msg source tail.
Definition publish_with_source (msg : string) (source : ErrChain) : EngineError := publish_with_source_and_exec_output_tail msg source None.
Definition publish_with_source_and_class (msg : string) (source : ErrChain) (failure_class : FailureCategory)
    (tail : option ExecOutputTail) (extra_causes : list string) : EngineError :=
  stage_with_source_details StPublish msg source (Some failure_class) tail extra_causes.
Definition error_from_template (source : ErrChain) : EngineError :=
  WeTemplate ("template expansion failed: " +:+ str_join ": " (collect_chain source)) source.

(** ** What the engine asks of an error *)

Definition error_causes (e : EngineError) : list string :=
  match e with
  | WeStage _ _ _ _ extra_causes source => (match source with [] => [] | _ => collect_chain source end) ++ extra_causes
  | WeTemplate _ source => collect_chain source
  | WeScriptInterpolation _ _ source => [resolve_error_to_string source]
  | WeLlm err => el_text <$> llm_source err
  | _ => []
  end.

Definition display_with_causes (e : EngineError) : string := render_with_causes (EngineError_to_string e) (error_causes e).

Definition error_is_retryable (e : EngineError) : bool :=
  match e with
  | WeIo _ => true
  | WeStage stage _ _ _ _ _ => match stage with StHandler | StEngine => true | StPublish => false end
  | WeLlm sdk_err => llm_retryable sdk_err
  | _ => false
  end.

Definition error_failure_category (e : EngineError) : FailureCategory :=
  match e with
  | WeCancelled => Canceled
  | WeLlm sdk_err => classify_sdk_error sdk_err
  | WeIo _ => TransientInfra
  | WeParse _ | WeValidation _ | WeValidationFailed _ | WeScriptInterpolation _ _ _ | WeModelSelection _ | WeModelReference _
  | WeTemplate _ _ | WeStylesheet _ | WeCheckpoint _ | WeUnsupported _ | WeOutputSchemaValidation _ => Deterministic
  | WePrecondition _ | WeRunNotFound _ => Structural
  | WeStage _ _ failure_class _ _ _ => failure_class
  end.

Definition error_failure_reason (e : EngineError) : FailureReason :=
  match e with
  | WeCancelled => ReasonCancelled
  | WeStage StPublish _ _ _ _ _ => PublishFailed
  | _ => RunStatus.WorkflowError
  end.

Definition error_signature_hint (e : EngineError) : option string :=
  match e with WeLlm sdk_err => Some (llm_signature_hint sdk_err) | _ => None end.

(** The error as a [dyn Error]: its sources are those of the fields marked so. *)
Definition error_chain (e : EngineError) : ErrChain :=
  mkLink (EngineError_to_string e) None ::
  match e with
  | WeScriptInterpolation _ _ source => [mkLink (resolve_error_to_string source) None]
  | WeModelSelection text | WeModelReference text => [mkLink text None]
  | WeTemplate _ source => SharedError_new source
  | WeStage _ _ _ _ _ source => source
  | _ => []
  end.

Definition error_to_failure_detail (e : EngineError) : FailureDetail :=
  let '(msg, explicit_tail) :=
    match e with
    | WeStage _ m _ tail _ _ => (m, tail)
    | _ => (EngineError_to_string e, None)
    end in
  mkFailure msg (error_causes e) (error_failure_category e) None (error_signature_hint e)
    (or_else explicit_tail (default_redacted_output_tail (error_chain e))).

Definition error_to_fail_outcome {M} `{OutcomeMeta M} (e : EngineError) : Outcome M :=
  with_failure (Failed false) (error_to_failure_detail e).

Definition run_failure_from_error (e : EngineError) (reason : FailureReason) : RunFailure :=
  mkRunFailure reason (error_to_failure_detail e).

(** The error as the node handler sees it. *)
Definition handler_error (e : EngineError) : Workflow.WorkflowError :=
  match e with
  | WeCancelled => WfCancelled
  | _ => Workflow.WfError (error_to_failure_detail e) (error_is_retryable e)
  end.
End errors.

(** ** Retrying is bounded *)

Section retry_facts.
Context {W T : Type} (draw : W -> f64 * W) (sleep : Duration -> W -> W) (operation : W -> result T LlmError * W).
Implicit Types (p : LlmRetryPolicy W) (w : W).

(** The calls that were repeated, from attempt [a] on: each failed in a way worth retrying, and
    the next was made after its delay. *)
Inductive repeated p : Z -> W -> list (LlmError * Duration) -> W -> Prop :=
| repeated_none a w : repeated p a w [] w
| repeated_call a w e w1 d w2 rest w' :
    operation w = (Err e, w1) -> llm_retryable e = true -> retry_delay draw p e a w1 = (Some (Some d), w2) ->
    repeated p (a + 1) (sleep d (notify_retry p e a d w2)) rest w' -> repeated p a w ((e, d) :: rest) w'.

(** The server asks to wait longer than the policy allows. *)
Definition asks_too_long p (e : LlmError) : Prop :=
  exists secs d, llm_retry_after e = Some secs /\ from_secs_f64 secs = Some d /\ max_delay (lr_backoff p) < d.

(** There is no delay to wait: the server's is not a length of time, or the policy's cannot
    be computed. *)
Definition no_delay p (e : LlmError) (a : Z) w1 : Prop :=
  (exists secs, llm_retry_after e = Some secs /\ from_secs_f64 secs = None)
  \/ (llm_retry_after e = None /\ (u32_max < a + 1 \/ (delay_for_attempt draw (lr_backoff p) (a + 1) w1).1 = None)).

Lemma retry_delay_none p e a w w' : retry_delay draw p e a w = (Some None, w') -> w' = w /\ asks_too_long p e.
Proof.
  unfold retry_delay. destruct (llm_retry_after e) as [secs|] eqn:Hs.
  - destruct (from_secs_f64 secs) as [d|] eqn:Hd; [|done]. cbn [mbind option_bind].
    destruct (Z.ltb_spec (max_delay (lr_backoff p)) d); [|done]. intros [= <-]. split; [done|by exists secs, d].
  - destruct (u32_max <? a + 1); [done|]. by destruct (delay_for_attempt _ _ _ _) as [[d|] ?].
Qed.

Lemma retry_delay_panics p e a w w' : retry_delay draw p e a w = (None, w') -> no_delay p e a w.
Proof.
  unfold retry_delay, no_delay. destruct (llm_retry_after e) as [secs|] eqn:Hs.
  - destruct (from_secs_f64 secs) as [d|] eqn:Hd; [done|]. intros _. left. by exists secs.
  - intros Hd. right. split; [done|]. destruct (Z.ltb_spec u32_max (a + 1)); [by left|right].
    by destruct (delay_for_attempt _ _ _ _) as [[d|] ?].
Qed.

(** How the last call, attempt [a] of the loop, ended it. *)
Definition settles p (a : Z) w (r : Retried T) w' : Prop :=
  match r with
  | Returned (Ok t) => operation w = (Ok t, w')
  | Returned (Err e) =>
      (operation w = (Err e, w') /\ (llm_retryable e = false \/ a = lr_max_retries p))
      \/ (operation w = (Err e, w') /\ llm_retryable e = true /\ asks_too_long p e)
  | RetryPanicked => exists e w1, operation w = (Err e, w1) /\ llm_retryable e = true /\ a < lr_max_retries p /\ no_delay p e a w1
  end.

Lemma retry_loop_ok fuel p a w : 0 <= a <= lr_max_retries p -> lr_max_retries p - a < Z.of_nat fuel ->
  exists failed w1 r w', repeated p a w failed w1 /\ a + Z.of_nat (length failed) <= lr_max_retries p
    /\ retry_loop draw sleep operation fuel p a w = Some (r, w') /\ settles p (a + Z.of_nat (length failed)) w1 r w'.
Proof.
  revert a w. induction fuel as [|fuel IH]; intros a w Ha Hf; [lia|]. cbn [retry_loop].
  destruct (operation w) as [[t|e] w1] eqn:Hop.
  { exists [], w, (Returned (Ok t)), w1. split_and!; [constructor|cbn; lia|done|done]. }
  assert (forall r w', settles p a w r w' -> exists failed w2 r' w'', repeated p a w failed w2 /\ a + Z.of_nat (length failed) <= lr_max_retries p
     /\ Some (r, w') = Some (r', w'') /\ settles p (a + Z.of_nat (length failed)) w2 r' w'') as Hend.
  { intros r w' Hs. exists [], w, r, w'. cbn [length]. rewrite Z.add_0_r. split_and!; [constructor|lia|done|done]. }
  destruct (llm_retryable e) eqn:Hr; cbn [negb orb]; [|apply Hend; left; eauto].
  destruct (Z.leb_spec (lr_max_retries p) a); [apply Hend; left; split; [done|right; lia]|].
  destruct (retry_delay draw p e a w1) as [[[d|]|] w2] eqn:Hd.
  - destruct (IH (a + 1) (sleep d (notify_retry p e a d w2))) as (failed & w3 & r & w' & Hrep & Hle & Hl & Hs); [lia..|].
    exists ((e, d) :: failed), w3, r, w'. cbn [length]. rewrite Nat2Z.inj_succ. split_and!; [by econstructor|lia|done|].
    by replace (a + Z.succ (Z.of_nat (length failed))) with (a + 1 + Z.of_nat (length failed)) by lia.
  - apply Hend. right. destruct (retry_delay_none _ _ _ _ _ Hd) as [-> ?]. auto.
  - apply Hend. exists e, w1. split_and!; [done|done|lia|by eapply retry_delay_panics].
Qed.

(** A delay the server asked for is kept, and never longer than the policy allows. *)
Definition delay_respected p (x : LlmError * Duration) : Prop :=
  forall secs, llm_retry_after x.1 = Some secs -> from_secs_f64 secs = Some x.2 /\ x.2 <= max_delay (lr_backoff p).

Lemma repeated_delays p a w failed w' : repeated p a w failed w' -> Forall (delay_respected p) failed.
Proof.
  induction 1 as [|a w e w1 d w2 rest w' _ _ Hd _ IH]; constructor; [|done]. intros secs Hs. cbn [fst snd] in *. unfold retry_delay in Hd. rewrite Hs in Hd.
  destruct (from_secs_f64 secs) as [d'|]; cbn [mbind option_bind] in Hd; [|done]. destruct (Z.ltb_spec (max_delay (lr_backoff p)) d'); simplify_eq. by split.
Qed.

(** C24: retrying a call to a language model ends after at most [max_retries] repetitions: each
    repeated call failed in a way that is worth retrying and was followed by its delay, for
    which a [Retry-After] of the server is taken when the policy allows it.  It ends in one of
    two ways.  Either it returns what the last call did, which succeeded, failed for good, was
    the last one allowed or was answered with a longer [Retry-After] than the policy allows.
    Or it panics, and then the last call failed in a way that is worth retrying, was not the
    last one allowed, and there is no delay to wait: its [Retry-After] is not a length of time
    (negative, not a number or too large), or the delay of the policy cannot be computed. *)
Theorem llm_retry_bounded p w : 0 <= lr_max_retries p ->
  exists failed w1 r w', repeated p 0 w failed w1 /\ Z.of_nat (length failed) <= lr_max_retries p /\ Forall (delay_respected p) failed
    /\ llm_retry draw sleep operation p w = Some (r, w') /\ settles p (Z.of_nat (length failed)) w1 r w'.
Proof.
  intros Hm. destruct (retry_loop_ok (S (Z.to_nat (lr_max_retries p))) p 0 w) as (failed & w1 & r & w' & Hrep & Hle & Hl & Hs); [lia..|].
  exists failed, w1, r, w'. rewrite Z.add_0_l in *. split_and!; [done|done|by eapply repeated_delays|done|done].
Qed.
End retry_facts.

(** ** How errors are classified *)

Definition is_request_timeout (e : LlmError) : bool := match e with LeRequestTimeout _ _ => true | _ => false end.

(** The answers that different parts of the program get from an error of a model call agree:
    what is retried is transient and may fail over; a transient error that is not retried is a
    timeout, which fails over instead; what was interrupted is cancelled and does not fail
    over; and the signature by which failures are counted names the category, except that
    exhausted budgets count as deterministic. *)
Theorem llm_errors_agree e :
  (llm_retryable e = true -> failover_eligible e = true /\ classify_sdk_error e = TransientInfra)
  /\ (classify_sdk_error e = TransientInfra -> llm_retryable e = negb (is_request_timeout e) /\ failover_eligible e = true)
  /\ (classify_sdk_error e = Canceled <-> exists msg, e = LeInterrupt msg)
  /\ (classify_sdk_error e = Canceled -> failover_eligible e = false)
  /\ starts_with (match classify_sdk_error e with
                  | TransientInfra => "api_transient|"
                  | Canceled => "api_canceled|"
                  | _ => "api_deterministic|"
                  end) (llm_signature_hint e) = true.
Proof.
  destruct e as [k d| | | | | | | | |]; [destruct k|..]; cbn; split_and!; intros; split_hyps; simplify_eq; try done; try (split; [intros; simplify_eq; eauto|intros [? ?]; simplify_eq; done]).
  all: try (split; [done|intros [? ?]; simplify_eq]).
Qed.

(** The statuses whose kind does not depend on the code nor on the message. *)
Definition telling_status (status : Z) : bool :=
  (existsb (Z.eqb status) [401; 403; 404; 408; 412; 413; 429] || ((500 <=? status) && (status <=? 599)))%bool.

Lemma kind_from_message_fatal msg d : llm_retryable (LeProvider (kind_from_message msg) d) = false.
Proof. unfold kind_from_message. repeat (case_match; [done|]). done. Qed.

(** A response that is an error is retried exactly when it is a 429 whose code does not say
    that the quota is spent, a server error, or has a status that leaves it open and a code
    for a rate limit or a server error; the message never makes it so. *)
Theorem status_retried status msg provider code raw after :
  let kind := code ≫= kind_from_error_code in
  llm_retryable (error_from_status_code status msg provider code raw after) = true <->
    (status = 429 /\ kind <> Some PkQuotaExceeded) \/ 500 <= status <= 599
    \/ (telling_status status = false /\ (kind = Some PkRateLimit \/ kind = Some PkServer)).
Proof.
  intros kind. unfold error_from_status_code, telling_status. fold kind. cbn [existsb].
  destruct (Z.eqb_spec status 408) as [->|]; [cbn; split; [done|intros [[? ?]|[?|[? ?]]]; [lia|lia|done]]|].
  destruct (Z.eqb_spec status 401) as [->|]; [cbn; split; [done|intros [[? ?]|[?|[? ?]]]; [lia|lia|done]]|].
  destruct (Z.eqb_spec status 403) as [->|]; [cbn; split; [done|intros [[? ?]|[?|[? ?]]]; [lia|lia|done]]|].
  destruct (Z.eqb_spec status 412) as [->|]; [cbn; split; [done|intros [[? ?]|[?|[? ?]]]; [lia|lia|done]]|].
  destruct (Z.eqb_spec status 404) as [->|]; [cbn; split; [done|intros [[? ?]|[?|[? ?]]]; [lia|lia|done]]|].
  destruct (Z.eqb_spec status 413) as [->|]; [cbn; split; [done|intros [[? ?]|[?|[? ?]]]; [lia|lia|done]]|].
  destruct (Z.eqb_spec status 429) as [->|].
  { cbn [orb]. destruct (decide (kind = Some PkQuotaExceeded)) as [Hq|Hq]; cbn; [|split; [by left|done]].
    split; [done|]. intros [[_ ?]|[?|[? ?]]]; [done|lia|done]. }
  cbn [orb]. destruct (Z.leb_spec 500 status), (Z.leb_spec status 599); cbn [andb]; [split; [right; left; lia|done]|..].
  all: destruct kind as [[]|]; [cbn..|rewrite kind_from_message_fatal]; try (split; [done|intros [[? ?]|[?|[? [|]]]]; [lia|lia|done..]]).
  all: try (split; [intros _; right; right; eauto|done]).
Qed.

(** ** What becomes of an error *)

Section detail_facts.
Context `{RegexReplace} `{ErrorText}.

(** The failure of an error that was built from a source has the tail of the first command
    error below the outermost one. *)
Theorem wrapped_error_tail stage msg l sources :
  exec_output_tail (error_to_failure_detail (stage_with_source stage msg (l :: sources) None)) = default_redacted_output_tail sources.
Proof. reflexivity. Qed.

(** The failure a stage reports for an error keeps what was known about it: the message, the
    texts of the whole chain of sources followed by the extra lines, and a class that is the
    one the caller gave or that the message with all its causes has; and publishing alone is
    never retried. *)
Theorem stage_error_reported stage msg c (class : option FailureCategory) tail extra :
  c <> [] ->
  let e := stage_with_source_details stage msg c class tail extra in
  let d := error_to_failure_detail e in
  message d = msg /\ causes d = (el_text <$> c) ++ extra
  /\ category d = match class with Some k => k | None => classify_failure_reason (render_with_causes msg (el_text <$> c)) end
  /\ (forall t, tail = Some t -> exec_output_tail d = Some t)
  /\ (error_is_retryable e = false <-> stage = StPublish)
  /\ (error_failure_reason e = PublishFailed <-> stage = StPublish).
Proof.
  intros Hc. destruct c as [|l c]; [done|]. cbn. split_and!; [done..|by intros t ->|by destruct stage|by destruct stage].
Qed.

Lemma llm_hint_kind k d d' : pd_provider d = pd_provider d' -> llm_signature_hint (LeProvider k d) = llm_signature_hint (LeProvider k d').
Proof. intros Hp. cbn. by rewrite Hp. Qed.

(** Failures of a model are counted together by the circuit breaker whatever the provider
    writes: at one node, errors of the same kind from the same provider have the same
    failure signature. *)
Theorem llm_failures_counted_together id k d d' :
  pd_provider d = pd_provider d' -> nonempty (normalize_failure_reason (llm_signature_hint (LeProvider k d))) = true ->
  let sig d := let f := error_to_failure_detail (WeLlm (LeProvider k d)) in
               FailureSignature_new id (category f) (Outcome.signature f) (Some (message f)) in
  sig d = sig d'.
Proof.
  intros Hp Hn. cbn [error_to_failure_detail error_failure_category error_signature_hint category Outcome.signature message classify_sdk_error].
  unfold FailureSignature_new. cbn [fmap option_fmap option_map]. rewrite <- (llm_hint_kind k d d' Hp). unfold opt_filter. rewrite Hn. reflexivity.
Qed.
End detail_facts.

(** ** Witnesses *)

Module LlmRuns.

#[local] Instance no_replace : RegexReplace := fun _ s _ => s.
#[local] Instance no_json : JsonText := fun _ => Err "expected value".

(** A provider that answers with a list of responses, the last one for ever; the slept time. *)
Record Script := mkScript { sc_answers : list (result Z LlmError); sc_slept : Z; sc_calls : nat }.
Definition answer (w : Script) : result Z LlmError * Script :=
  match sc_answers w with
  | [] => (Ok 0, mkScript [] (sc_slept w) (S (sc_calls w)))
  | r :: rest => (r, mkScript rest (sc_slept w) (S (sc_calls w)))
  end.
Definition nap (d : Duration) (w : Script) : Script := mkScript (sc_answers w) (sc_slept w + d) (sc_calls w).
Definition coin (w : Script) : f64 * Script := (f64_of_Z 1, w).

Definition busy (headers : HeaderMap) : LlmError := decode_error 429 "slow down" "openai" (parse_retry_after headers).
Definition steady : LlmRetryPolicy Script := mkLlmRetry 2 (mkBackoff (from_secs 1) (f64_of_Z 2) (from_mins 1) false) None.

(** A rate limit with a [Retry-After] of two seconds, a dropped connection, then an answer. *)
Definition rough := mkScript [Err (busy [("retry-after", "2")]); Err (LeNetwork "reset" []); Ok 7] 0 0.

Lemma llm_retry_bounded_witness : exists w', llm_retry coin nap answer steady rough = Some (Returned (Ok 7), w') /\ sc_calls w' = 3%nat /\ sc_slept w' = from_secs 4.
Proof.
  destruct (llm_retry_bounded coin nap answer steady rough) as (failed & w1 & r & w' & _ & _ & _ & Hl & _); [cbn; lia|]. rewrite Hl.
  vm_compute in Hl. injection Hl as <- <-. by eexists.
Defined.

(** A [Retry-After] that is not a length of time stops the program instead of the retrying. *)
Theorem retry_after_panics :
  fst <$> llm_retry coin nap answer steady (mkScript [Err (busy [("retry-after", "-1")])] 0 0) = Some RetryPanicked
  /\ fst <$> llm_retry coin nap answer steady (mkScript [Err (busy [("retry-after", "1e30")])] 0 0) = Some RetryPanicked
  /\ fst <$> llm_retry coin nap answer steady (mkScript [Err (busy [("retry-after", "61")])] 0 0) = Some (Returned (Err (busy [("retry-after", "61")]))).
Proof. vm_compute. repeat split. Qed.

Lemma stage_error_reported_witness : let text := @Build_ErrorText (fun s => s) (fun s => s) in
  causes (error_to_failure_detail (handler_with_source "push failed" [mkLink "git" None; mkLink "connection reset" None])) = ["git"; "connection reset"].
Proof.
  intros text. destruct (stage_error_reported StHandler "push failed" [mkLink "git" None; mkLink "connection reset" None] None None []) as (_ & Hc & _); [done|exact Hc].
Defined.

Lemma llm_failures_counted_together_witness : let text := @Build_ErrorText (fun s => s) (fun s => s) in
  let sig d := let f := error_to_failure_detail (WeLlm (LeProvider PkServer d)) in
               FailureSignature_new "ask" (category f) (Outcome.signature f) (Some (message f)) in
  sig (ProviderErrorDetail_new "overloaded" "anthropic") = sig (ProviderErrorDetail_new "internal error" "anthropic").
Proof. intros text. apply (llm_failures_counted_together "ask" PkServer); [done|vm_compute; reflexivity]. Defined.
End LlmRuns.
