(* ===== verification/OutputSchema.v ===== *)
(** * Structured answers of stages (fabro-workflow/src/handler/structured_output.rs)

    A node can ask for an answer of a given shape: the fields that route a run, or a JSON
    Schema.  The objects are found in the text of the answer, the last one that matters is
    checked, and what is wrong with it is written up for a repair.

    The crates [serde_json] and [jsonschema] are the parameters [JsonText], [JsonDisplay] and
    [JsonSchemas]; a byte is an [ascii], and the depth of nested braces is not bounded. *)

From S2P Require Import Prelude RustStr RustNum GraphTypes Context Outcome Artifact ArtifactFacts DecText Patch Tools LlmErrors.
Local Open Scope string_scope.
Local Open Scope list_scope.
Local Open Scope Z_scope.

Definition ROUTING_KEYWORD : string := "routing".
Definition ROUTING_STATUS_FIELDS : list string := ["preferred_next_label"; "outcome"; "failure_reason"; "suggested_next_ids"; "context_updates"].
Definition QUOTED_ROUTING_STATUS_FIELDS : list string := (fun f => dq +:+ f +:+ dq) <$> ROUTING_STATUS_FIELDS.

(** ** The schema crate *)

Inductive ValidationErrorKind := VkRequired (property : Value) | VkAdditionalProperties (unexpected : list string) | VkOther.
Record ValidationError := mkValidationError { ve_kind : ValidationErrorKind; ve_text : string; ve_instance_path : string; ve_schema_path : string }.

(** Compiling a schema, the errors of a value in it, a location with one more key, and the part
    of a value at a JSON pointer. *)
Class JsonSchemas := {
  Validator : Type;
  validator_for : Value -> result Validator string;
  iter_errors : Validator -> Value -> list ValidationError;
  location_join : string -> string -> string;
  json_pointer : Value -> string -> option Value
}.

(** ** Objects in a text *)

Definition ch_open : ascii := "{".
Definition ch_close : ascii := "}".

(** The inner loop: the number of bytes up to the brace that closes the first one. *)
Fixpoint scan_object (s : string) (depth : Z) (in_string escape : bool) : option nat :=
  match s with
  | "" => None
  | String c s =>
      if escape then S <$> scan_object s depth in_string false
      else if (Ascii.eqb c ch_backslash && in_string)%bool then S <$> scan_object s depth in_string true
      else if Ascii.eqb c ch_quote then S <$> scan_object s depth (negb in_string) false
      else if in_string then S <$> scan_object s depth in_string false
      else if Ascii.eqb c ch_open then S <$> scan_object s (depth + 1) in_string false
      else if Ascii.eqb c ch_close then
        if depth - 1 =? 0 then Some 1%nat else S <$> scan_object s (depth - 1) in_string false
      else S <$> scan_object s depth in_string false
  end.

(** The outer loop takes a byte or an object in each round: the length of the text is fuel
    enough. *)
Fixpoint find_objects (fuel : nat) (s : string) : list string :=
  match fuel, s with
  | O, _ | _, "" => []
  | S fuel, String c rest =>
      if Ascii.eqb c ch_open then
        match scan_object s 0 false false with
        | Some n => str_take n s :: find_objects fuel (str_drop n s)
        | None => find_objects fuel rest
        end
      else find_objects fuel rest
  end.
Definition find_json_objects (text : string) : list string := find_objects (String.length text) text.

Definition terminal_json_object (text : string) : option string :=
  let trimmed := trim_end text in
  opt_filter (fun candidate => ends_with candidate trimmed) (last (find_json_objects trimmed)).

Section schemas.
Context {M : Type} `{OutcomeMeta M} `{JsonText} `{JsonDisplay} `{JsonSchemas}.
Implicit Types (o : Outcome M).

Inductive OutputSchemaKind := OsRouting | OsJsonSchema (schema : Value) (validator : Validator).

Definition is_routing (k : OutputSchemaKind) : bool := match k with OsRouting => true | _ => false end.

Definition expectation (k : OutputSchemaKind) : string :=
  match k with
  | OsRouting => "Return a single JSON object with at least one routing field: " +:+ str_join ", " ROUTING_STATUS_FIELDS +:+ "."
  | OsJsonSchema schema _ =>
      "Return a single JSON object that satisfies this JSON Schema:" +:+ nl +:+ "<output_schema>" +:+ nl +:+ value_to_string schema +:+ nl +:+ "</output_schema>"
  end.

Definition agent_prompt (k : OutputSchemaKind) (prompt : string) : string :=
  prompt +:+ nl +:+ nl +:+ "Fabro final-output contract" +:+ nl +:+ nl
  +:+ "The following contract is trusted workflow configuration. It applies only to your final response, not to intermediate tool calls." +:+ nl
  +:+ expectation k +:+ nl
  +:+ "The contract is complete. Do not ask the user to provide or choose the output shape.".

(** ** What is wrong with an answer *)

Inductive StructuredOutputErrorKind := NoJsonObject | NoRelevantJsonObject | InvalidJson | SchemaValidation.

Definition MAX_SCHEMA_FRAGMENT_CHARS : nat := 320.
Definition MAX_UNEXPECTED_PROPERTIES : nat := 10.

Inductive SchemaValidationIssueDetail :=
| IdRequired (property : string)
| IdAdditionalProperties (unexpected : list string) (total : nat)
| IdOther (message : string) (schema_fragment : option string).

Record SchemaValidationIssue := mkIssue { si_instance_path : string; si_schema_path : string; si_detail : SchemaValidationIssueDetail }.

#[export] Instance SchemaValidationIssueDetail_eq_dec : EqDecision SchemaValidationIssueDetail.
Proof. solve_decision. Defined.
#[export] Instance SchemaValidationIssue_eq_dec : EqDecision SchemaValidationIssue.
Proof. solve_decision. Defined.

Inductive StructuredOutputErrorDetails := EdMessage (m : string) | EdSchemaValidation (issues : list SchemaValidationIssue).
Record StructuredOutputError := mkOutputError { so_kind : StructuredOutputErrorKind; so_details : StructuredOutputErrorDetails }.

Definition output_error (k : StructuredOutputErrorKind) (m : string) : StructuredOutputError := mkOutputError k (EdMessage m).
Definition output_validation_error (issues : list SchemaValidationIssue) : StructuredOutputError := mkOutputError SchemaValidation (EdSchemaValidation issues).

(** [char_indices().nth(n)]: something is left after [n] characters. *)
Definition bounded_json (value : Value) : string :=
  let rendered := value_to_string value in
  let kept := take_chars MAX_SCHEMA_FRAGMENT_CHARS rendered in
  if Nat.ltb (String.length kept) (String.length rendered) then kept +:+ "…" else rendered.

Definition issue_from_error (error : ValidationError) (schema : option Value) : SchemaValidationIssue :=
  let detail :=
    match ve_kind error with
    | VkRequired property => IdRequired (match value_as_str property with Some s => s | None => value_to_string property end)
    | VkAdditionalProperties unexpected =>
        IdAdditionalProperties (take MAX_UNEXPECTED_PROPERTIES (merge_sort String.le unexpected)) (length unexpected)
    | VkOther => IdOther (ve_text error) (bounded_json <$> (schema ≫= fun schema => json_pointer schema (ve_schema_path error)))
    end in
  mkIssue (ve_instance_path error) (ve_schema_path error) detail.

Definition pointer_phrase (path : string) : string :=
  if str_is_empty path then "the document root" else "JSON Pointer `" +:+ path +:+ "`".

Fixpoint trim_end_dots (s : string) : string :=
  match s with
  | "" => ""
  | String c s => match trim_end_dots s with
                  | "" => if Ascii.eqb c "." then "" else String c ""
                  | t => String c t
                  end
  end.

Definition render_issue (i : SchemaValidationIssue) : string :=
  let path := si_instance_path i in
  let located p := value_to_string (JString p) +:+ " at `" +:+ location_join path p +:+ "`" in
  let msg :=
    match si_detail i with
    | IdRequired p =>
        "Missing required property " +:+ value_to_string (JString p) +:+ " at JSON Pointer `" +:+ location_join path p
        +:+ "`. Add it to the object at " +:+ pointer_phrase path +:+ "."
    | IdAdditionalProperties unexpected total =>
        let remaining := (total - length unexpected)%nat in
        "Unexpected properties in the object at " +:+ pointer_phrase path +:+ ": " +:+ str_join ", " (located <$> unexpected)
        +:+ (if Nat.ltb 0 remaining then ", and " +:+ nat_to_string remaining +:+ " more" else "") +:+ "."
    | IdOther m _ => "At " +:+ pointer_phrase path +:+ ": " +:+ trim_end_dots m +:+ "."
    end in
  msg +:+ " Schema rule: " +:+ pointer_phrase (si_schema_path i)
  +:+ match si_detail i with IdOther _ (Some fragment) => ": " +:+ fragment | _ => "" end +:+ ".".

Definition error_messages (e : StructuredOutputError) : list string :=
  match so_details e with
  | EdMessage m => [m]
  | EdSchemaValidation issues => render_issue <$> issues
  end.

Definition allows_routing_fallback (e : StructuredOutputError) : bool :=
  match so_kind e with NoJsonObject | NoRelevantJsonObject => true | _ => false end.

Definition shares_schema_issue_with (e other : StructuredOutputError) : bool :=
  match so_details e, so_details other with
  | EdSchemaValidation current, EdSchemaValidation previous => existsb (fun issue => bool_decide (issue ∈ previous)) current
  | _, _ => false
  end.

Definition repair_message (e : StructuredOutputError) (schema : OutputSchemaKind) (previous_error : option StructuredOutputError) : string :=
  let errors := str_join nl ((fun m => "- " +:+ m) <$> error_messages e) in
  str_join (nl +:+ nl)
    (["Your previous response did not satisfy the node's output_schema."]
     ++ (if match previous_error with Some previous => shares_schema_issue_with e previous | None => false end
         then ["At least one validation problem below is unchanged from your previous repair."] else [])
     ++ ["Validation errors:" +:+ nl +:+ errors; expectation schema]
     ++ (match so_kind e with
         | SchemaValidation => ["Apply each correction at the exact JSON Pointer shown and return the complete object."]
         | _ => []
         end)
     ++ ["Do not include Markdown fences or explanatory prose; reply only with the corrected JSON object."]).

(** ** The schema of a node *)

Definition output_key (id : string) : string := "output." +:+ id.

Definition exhausted_failure_reason (repair_attempts : Z) : string :=
  "output schema validation failed after " +:+ Z_to_string repair_attempts +:+ " repair attempt(s)".

Definition exhausted_failure_outcome (repair_attempts : Z) : Outcome M :=
  with_failure (Failed false) (FailureDetail_new (exhausted_failure_reason repair_attempts) Deterministic).

Definition invalid_schema (n : Node) (why : string) : EngineError :=
  WeValidation ("Invalid output_schema for node " +:+ dq +:+ node_id n +:+ dq +:+ ": " +:+ why).

Definition parse_node_output_schema (n : Node) : result (option OutputSchemaKind) EngineError :=
  match output_schema n with
  | None => Ok None
  | Some raw =>
      let value := trim raw in
      if str_is_empty value then Err (invalid_schema n "value must not be empty")
      else if String.eqb value ROUTING_KEYWORD then Ok (Some OsRouting)
      else if starts_with "@" value then Err (invalid_schema n ("unresolved file reference " +:+ value))
      else match json_from_str value with
           | Err err => Err (invalid_schema n ("expected " +:+ dq +:+ "routing" +:+ dq +:+ " or a JSON Schema object: " +:+ err))
           | Ok schema =>
               match validator_for schema with
               | Err err => Err (invalid_schema n err)
               | Ok validator => Ok (Some (OsJsonSchema schema validator))
               end
           end
  end.

(** ** Checking an answer *)

Definition obj_contains_routing_field (obj : list (string * Value)) : bool := existsb (fun field => is_some (assoc field obj)) ROUTING_STATUS_FIELDS.
Definition contains_routing_field (v : Value) : bool := match v with JObject obj => obj_contains_routing_field obj | _ => false end.
Definition raw_mentions_routing_field (candidate : string) : bool := existsb (fun quoted_field => str_contains quoted_field candidate) QUOTED_ROUTING_STATUS_FIELDS.

Definition json_type (t : string) : Value := JObject [("type", JString t)].
Definition routing_schema : Value :=
  JObject [("type", JString "object"); ("additionalProperties", JBool true);
           ("properties", JObject [
              ("preferred_next_label", json_type "string");
              ("outcome", JObject [("type", JString "string");
                                   ("enum", JArray (JString <$> ["succeeded"; "partially_succeeded"; "failed"; "skipped"]))]);
              ("failure_reason", json_type "string");
              ("suggested_next_ids", JObject [("type", JString "array"); ("items", json_type "string")]);
              ("context_updates", json_type "object")]);
           ("anyOf", JArray ((fun field => JObject [("required", JArray [JString field])]) <$> ROUTING_STATUS_FIELDS))].

Definition validate_value_against_validator (v : Validator) (value : Value) (schema : option Value) : result unit StructuredOutputError :=
  match (fun error => issue_from_error error schema) <$> take 5 (iter_errors v value) with
  | [] => Ok tt
  | issues => Err (output_validation_error issues)
  end.

(** Compiling the built-in schema is expected to succeed; [None] is the panic when it does
    not. *)
Definition routing_validator : option Validator := result_ok (validator_for routing_schema).

(** The candidates, the last one first. *)
Fixpoint check_routing_candidates (candidates : list string) : option (result Value StructuredOutputError) :=
  match candidates with
  | [] => Some (Err (output_error NoRelevantJsonObject
                       ("no JSON object contained any recognized routing field (" +:+ str_join ", " ROUTING_STATUS_FIELDS +:+ ")")))
  | candidate :: rest =>
      match json_from_str candidate with
      | Err err =>
          if raw_mentions_routing_field candidate then Some (Err (output_error InvalidJson ("invalid routing JSON object: " +:+ err)))
          else check_routing_candidates rest
      | Ok parsed =>
          if contains_routing_field parsed then
            v ← routing_validator;
            Some match validate_value_against_validator v parsed None with Ok _ => Ok parsed | Err e => Err e end
          else check_routing_candidates rest
      end
  end.

Definition validate_routing_response_text (text : string) : option (result Value StructuredOutputError) :=
  match find_json_objects text with
  | [] => Some (Err (output_error NoJsonObject "no JSON object found in response"))
  | candidates => check_routing_candidates (reverse candidates)
  end.

Fixpoint check_custom_candidates (v : Validator) (schema : Value) (invalid_json : option string) (candidates : list string) : result Value StructuredOutputError :=
  match candidates with
  | [] => Err match invalid_json with
              | Some m => output_error InvalidJson ("invalid JSON object: " +:+ m)
              | None => output_error NoJsonObject "no JSON object found in response"
              end
  | candidate :: rest =>
      match json_from_str candidate with
      | Ok parsed => match validate_value_against_validator v parsed (Some schema) with Ok _ => Ok parsed | Err e => Err e end
      | Err err => check_custom_candidates v schema (or_else invalid_json (Some err)) rest
      end
  end.

Definition validate_custom_response_text (v : Validator) (schema : Value) (text : string) : result Value StructuredOutputError :=
  check_custom_candidates v schema None (reverse (find_json_objects text)).

Definition validate_response_text (k : OutputSchemaKind) (text : string) : option (result Value StructuredOutputError) :=
  match k with
  | OsRouting => validate_routing_response_text text
  | OsJsonSchema schema v => Some (validate_custom_response_text v schema text)
  end.

(** ** Taking an answer over *)

Definition with_preferred_label (l : option string) o : Outcome M :=
  mkOutcome (status o) l (suggested_next_ids o) (context_updates o) (jump_to_node o) (notes o) (failure o) (usage o) (files_touched o) (timing o).
Definition with_suggested_next_ids (ids : list string) o : Outcome M :=
  mkOutcome (status o) (preferred_label o) ids (context_updates o) (jump_to_node o) (notes o) (failure o) (usage o) (files_touched o) (timing o).
Definition with_status_failure (s : StageOutcome) (f : option FailureDetail) o : Outcome M :=
  mkOutcome s (preferred_label o) (suggested_next_ids o) (context_updates o) (jump_to_node o) (notes o) f (usage o) (files_touched o) (timing o).
Definition insert_all (updates : list (string * Value)) (c : gmap string Value) : gmap string Value :=
  foldl (fun c kv => <[kv.1 := kv.2]> c) c updates.

Definition apply_label (obj : Value) o : Outcome M :=
  match value_get "preferred_next_label" obj ≫= value_as_str with Some l => with_preferred_label (Some l) o | None => o end.
Definition apply_suggestions (obj : Value) o : Outcome M :=
  match value_get "suggested_next_ids" obj with
  | Some (JArray ids) => match omap value_as_str ids with [] => o | string_ids => with_suggested_next_ids string_ids o end
  | _ => o
  end.
Definition apply_outcome_field (obj : Value) o : Outcome M :=
  match value_get "outcome" obj ≫= value_as_str with
  | Some s =>
      match StageOutcome_from_str s with
      | Ok st =>
          let f := match value_get "failure_reason" obj ≫= value_as_str with
                   | Some reason => if is_failure st then Some (FailureDetail_new reason Deterministic) else failure o
                   | None => failure o
                   end in
          with_status_failure st f o
      | Err _ => o
      end
  | None => o
  end.
Definition apply_updates_field (obj : Value) o : Outcome M :=
  match value_get "context_updates" obj with
  | Some (JObject updates) => with_context_updates (insert_all updates) o
  | _ => o
  end.

(** A value that is not an object has no fields. *)
Definition apply_routing_fields (v : Value) o : Outcome M :=
  apply_updates_field v (apply_outcome_field v (apply_suggestions v (apply_label v o))).

Definition apply_validated_output (n : Node) (k : OutputSchemaKind) (validated : Value) o : Outcome M :=
  match k with
  | OsRouting => apply_routing_fields validated o
  | OsJsonSchema _ _ => with_context_updates (<[output_key (node_id n) := validated]>) o
  end.

Definition routing_value (candidate : string) : option Value := opt_filter contains_routing_field (result_ok (json_from_str candidate)).

Definition extract_status_fields (text : string) o : bool * Outcome M :=
  match find_map routing_value (reverse (find_json_objects text)) with
  | Some v => (true, apply_routing_fields v o)
  | None => (false, o)
  end.

Inductive ResponseFormat := RfJsonObject | RfJsonSchema (schema : Value) (strict : bool).
Definition prompt_response_format (k : OutputSchemaKind) : ResponseFormat :=
  match k with OsRouting => RfJsonObject | OsJsonSchema schema _ => RfJsonSchema schema true end.
End schemas.

(** ** The objects found are the objects there *)

(** An object alone: its first brace is closed by its last byte. *)
Definition balanced (s : string) : Prop := scan_object s 0 false false = Some (String.length s).

(** A byte either closes the object or leads on to the next. *)
Lemma scan_cons c d i e :
  (exists d' i' e', forall s, scan_object (String c s) d i e = S <$> scan_object s d' i' e')
  \/ (c = ch_close /\ forall s, scan_object (String c s) d i e = Some 1%nat).
Proof.
  cbn [scan_object]. destruct e; [left; eauto|]. destruct (Ascii.eqb c ch_backslash && i)%bool; [left; eauto|].
  destruct (Ascii.eqb c ch_quote); [left; eauto|]. destruct i; [left; eauto|]. destruct (Ascii.eqb c ch_open); [left; eauto|].
  destruct (Ascii.eqb_spec c ch_close) as [->|]; [|left; eauto]. destruct (d - 1 =? 0); [by right|left; eauto].
Qed.

Lemma scan_object_app s t d i e n : scan_object s d i e = Some n -> scan_object (s +:+ t) d i e = Some n.
Proof.
  revert d i e n. induction s as [|c s IH]; intros d i e n; [done|]. rewrite append_cons.
  destruct (scan_cons c d i e) as [(d' & i' & e' & Hs)|[_ Hs]]; rewrite !Hs; [|done]. intros (m & Hm & ->)%fmap_Some. by rewrite (IH _ _ _ _ Hm).
Qed.

Lemma scan_object_take s d i e n : scan_object s d i e = Some n ->
  (1 <= n <= String.length s)%nat /\ scan_object (str_take n s) d i e = Some n /\ exists b, str_take n s = b +:+ "}".
Proof.
  revert d i e n. induction s as [|c s IH]; intros d i e n; [done|].
  destruct (scan_cons c d i e) as [(d' & i' & e' & Hs)|[-> Hs]]; rewrite !Hs; cbn [String.length].
  - intros (m & Hm & ->)%fmap_Some. destruct (IH _ _ _ _ Hm) as (Hl & Ht & b & Hb). cbn [str_take]. split; [lia|]. rewrite Hs, Ht. split; [done|].
    exists (String c b). by rewrite Hb.
  - intros [= <-]. cbn [str_take]. split; [lia|]. rewrite Hs. split; [done|]. by exists "".
Qed.

(** An object within a text is the same text when it stands alone. *)
Lemma scan_object_alone s n : scan_object s 0 false false = Some n -> balanced (str_take n s).
Proof. intros Hs. destruct (scan_object_take _ _ _ _ _ Hs) as (Hl & Ht & _). unfold balanced. rewrite Ht, str_take_length. f_equal. lia. Qed.

(** A text is cut into the objects found and what lies between them; nothing between them
    begins an object. *)
Inductive cut_up : string -> list string -> Prop :=
| cut_end : cut_up "" []
| cut_gap c s l : (forall o t, balanced o -> starts_with "{" o = true -> String c s <> o +:+ t) -> cut_up s l -> cut_up (String c s) l
| cut_object o b s l : balanced o -> o = "{" +:+ b +:+ "}" -> cut_up s l -> cut_up (o +:+ s) (o :: l).

Lemma balanced_closed s n b : scan_object (String ch_open s) 0 false false = Some n -> str_take n (String ch_open s) = b +:+ "}" -> exists b', b = String ch_open b'.
Proof.
  intros Hs Hb. destruct (scan_object_take _ _ _ _ _ Hs) as (Hl & _ & _). destruct n as [|n]; [lia|]. cbn [str_take] in Hb.
  destruct b as [|c b]; [|rewrite append_cons in Hb; injection Hb as <- _; eauto]. rewrite append_nil_l in Hb. discriminate.
Qed.

Lemma find_objects_cut fuel s : (String.length s <= fuel)%nat -> cut_up s (find_objects fuel s).
Proof.
  revert s. induction fuel as [|fuel IH]; intros s Hf; destruct s as [|c s]; cbn [String.length] in Hf; [apply cut_end|lia|apply cut_end|].
  cbn [find_objects]. destruct (Ascii.eqb_spec c ch_open) as [->|Hc].
  2: { apply cut_gap; [|apply IH; lia]. intros o t _ Ho Heq. destruct o as [|a o]; [done|]. rewrite append_cons in Heq. injection Heq as <- _.
       unfold starts_with in Ho. cbn [strip_prefix] in Ho. destruct (Ascii.eqb_spec "{" c) as [<-|]; done. }
  destruct (scan_object (String ch_open s) 0 false false) as [n|] eqn:Hs.
  - destruct (scan_object_take _ _ _ _ _ Hs) as (Hl & Ht & b & Hb). destruct (balanced_closed _ _ _ Hs Hb) as [b' ->].
    rewrite <- (str_take_drop n (String ch_open s)) at 1. apply (cut_object _ b'); [by apply scan_object_alone|by rewrite Hb|].
    apply IH. rewrite str_drop_length. cbn [String.length] in *. lia.
  - apply cut_gap; [|apply IH; lia]. intros o t Ho _ Heq. rewrite Heq, (scan_object_app o t _ _ _ _ Ho) in Hs. discriminate.
Qed.

(** The objects found in an answer are exactly the outermost ones there: the text is cut into
    them and what lies between, each begins with a brace that its last byte closes (braces
    in strings do not count), and nowhere between them does an object begin. *)
Theorem json_objects_cut text : cut_up text (find_json_objects text).
Proof. apply find_objects_cut. done. Qed.

(** ** An object written by a model is found in its prose *)

(** serde_json's compact text of a value. *)
Definition hex_digit (n : N) : ascii := default "0"%char (String.get (N.to_nat n) "0123456789abcdef").
Definition json_escape (c : ascii) : string :=
  if Ascii.eqb c ch_quote then String ch_backslash dq
  else if Ascii.eqb c ch_backslash then String ch_backslash (String ch_backslash "")
  else if Ascii.eqb c "008" then String ch_backslash "b"
  else if Ascii.eqb c "009" then String ch_backslash "t"
  else if Ascii.eqb c "010" then String ch_backslash "n"
  else if Ascii.eqb c "012" then String ch_backslash "f"
  else if Ascii.eqb c "013" then String ch_backslash "r"
  else if in_range 0 31 c then String ch_backslash ("u00" +:+ String (hex_digit (code c / 16)) (String (hex_digit (code c mod 16)) ""))
  else String c "".
Fixpoint json_escapes (s : string) : string := match s with "" => "" | String c s => json_escape c +:+ json_escapes s end.
Definition json_quoted (s : string) : string := dq +:+ json_escapes s +:+ dq.

Fixpoint json_text (number : JNumber -> string) (v : Value) : string :=
  match v with
  | JNull => "null"
  | JBool b => if b then "true" else "false"
  | JNum n => number n
  | JString s => json_quoted s
  | JArray l => "[" +:+ str_join "," (json_text number <$> l) +:+ "]"
  | JObject l => "{" +:+ str_join "," ((fun kv => json_quoted kv.1 +:+ ":" +:+ json_text number kv.2) <$> l) +:+ "}"
  end.

(** Reading [s] leaves the scan of an open object where it was. *)
Definition passes (s : string) : Prop :=
  forall d rest, 1 <= d -> scan_object (s +:+ rest) d false false = Nat.add (String.length s) <$> scan_object rest d false false.

Lemma passes_nil : passes "".
Proof. intros d rest _. rewrite append_nil_l. by destruct (scan_object rest d false false). Qed.

Lemma passes_app a b : passes a -> passes b -> passes (a +:+ b).
Proof.
  intros Ha Hb d rest Hd. rewrite append_assoc, Ha, Hb, length_append by done. rewrite <- option_fmap_compose. destruct (scan_object rest d false false); [|done].
  cbn. f_equal. lia.
Qed.

Definition plain (c : ascii) : bool := negb (Ascii.eqb c ch_quote || Ascii.eqb c ch_open || Ascii.eqb c ch_close).

Lemma passes_plain s : str_forall plain s = true -> passes s.
Proof.
  induction s as [|c s IH]; [intros _; apply passes_nil|]. cbn [str_forall]. intros [Hc Hs]%andb_true_iff d rest Hd. rewrite append_cons. cbn [scan_object].
  unfold plain in Hc. rewrite negb_true_iff, !orb_false_iff in Hc. destruct Hc as [[-> ->] ->]. rewrite andb_false_r, (IH Hs d rest Hd).
  by destruct (scan_object rest d false false).
Qed.

Lemma passes_join sep l : passes sep -> Forall passes l -> passes (str_join sep l).
Proof.
  intros Hsep. induction 1 as [|s l Hs Hl IH]; [apply passes_nil|]. destruct l as [|s' l]; [exact Hs|]. by apply passes_app; [|apply passes_app].
Qed.

Lemma scan_in_string c s d : Ascii.eqb c ch_quote = false -> Ascii.eqb c ch_backslash = false ->
  scan_object (String c s) d true false = S <$> scan_object s d true false.
Proof. intros Hq Hb. cbn [scan_object]. by rewrite Hq, Hb. Qed.

Lemma scan_escaped c s d : scan_object (String ch_backslash (String c s)) d true false = S <$> (S <$> scan_object s d true false).
Proof. reflexivity. Qed.

Lemma hex_digit_plain n : Ascii.eqb (hex_digit n) ch_quote = false /\ Ascii.eqb (hex_digit n) ch_backslash = false.
Proof. unfold hex_digit. destruct (N.to_nat n) as [|[|[|[|[|[|[|[|[|[|[|[|[|[|[|[|k]]]]]]]]]]]]]]]]; done. Qed.

Lemma scan_escape c d rest : scan_object (json_escape c +:+ rest) d true false = Nat.add (String.length (json_escape c)) <$> scan_object rest d true false.
Proof.
  assert (forall o : option nat, S <$> (S <$> o) = Nat.add 2 <$> o) as H2 by (by intros []).
  unfold json_escape. destruct (Ascii.eqb c ch_quote) eqn:Hq; [apply H2|]. destruct (Ascii.eqb c ch_backslash) eqn:Hb; [apply H2|].
  repeat (case_match; [apply H2|]). destruct (in_range 0 31 c).
  - rewrite !append_cons, !append_nil_l, !append_cons, !append_nil_l, scan_escaped, !scan_in_string by (done || apply hex_digit_plain). by destruct (scan_object rest d true false).
  - rewrite append_cons, append_nil_l, scan_in_string by done. by destruct (scan_object rest d true false).
Qed.

Lemma scan_quote s d (i : bool) : scan_object (String ch_quote s) d i false = S <$> scan_object s d (negb i) false.
Proof. by destruct i. Qed.

Lemma scan_escapes s d rest : scan_object (json_escapes s +:+ rest) d true false = Nat.add (String.length (json_escapes s)) <$> scan_object rest d true false.
Proof.
  induction s as [|c s IH]; cbn [json_escapes]; [rewrite append_nil_l; by destruct (scan_object rest d true false)|].
  rewrite append_assoc, scan_escape, IH, length_append. destruct (scan_object rest d true false); [|done]. cbn. f_equal. lia.
Qed.

Lemma passes_quoted s : passes (json_quoted s).
Proof.
  intros d rest Hd. unfold json_quoted, dq. rewrite !append_cons, append_nil_l, append_assoc, append_cons, append_nil_l, scan_quote, scan_escapes, scan_quote.
  cbn [negb String.length]. rewrite length_append. cbn [String.length]. destruct (scan_object rest d false false) as [n|]; [|done]. cbn. f_equal. lia.
Qed.

Lemma braces_append body rest : ("{" +:+ body +:+ "}") +:+ rest = String ch_open (body +:+ String ch_close rest).
Proof. by rewrite !append_cons, !append_nil_l, append_assoc, append_cons, append_nil_l. Qed.
Lemma braces_length body : String.length ("{" +:+ body +:+ "}") = (2 + String.length body)%nat.
Proof. rewrite append_cons, append_nil_l. cbn [String.length]. rewrite length_append. cbn. lia. Qed.

Lemma scan_open s d : scan_object (String ch_open s) d false false = S <$> scan_object s (d + 1) false false.
Proof. reflexivity. Qed.
Lemma scan_close s d : scan_object (String ch_close s) d false false = if d - 1 =? 0 then Some 1%nat else S <$> scan_object s (d - 1) false false.
Proof. reflexivity. Qed.

Lemma passes_object body : passes body -> passes ("{" +:+ body +:+ "}").
Proof.
  intros Hb d rest Hd. rewrite braces_append, braces_length, scan_open, Hb, scan_close by lia. replace (d + 1 - 1) with d by lia. destruct (Z.eqb_spec d 0); [lia|].
  destruct (scan_object rest d false false) as [n'|]; [|done]. cbn. f_equal. lia.
Qed.

Lemma object_balanced body rest : passes body -> scan_object (("{" +:+ body +:+ "}") +:+ rest) 0 false false = Some (String.length ("{" +:+ body +:+ "}")).
Proof. intros Hb. rewrite braces_append, braces_length, scan_open, Hb, scan_close by lia. change (0 + 1 - 1 =? 0) with true. cbn [fmap option_fmap option_map]. f_equal. lia. Qed.

Section found.
Context (number : JNumber -> string) (plain_numbers : forall n, str_forall plain (number n) = true).

Lemma passes_json v : passes (json_text number v).
Proof using plain_numbers.
  induction v as [|b|n|s|l Hl|l Hl] using value_nested_ind; cbn [json_text].
  - by apply passes_plain.
  - by destruct b; apply passes_plain.
  - by apply passes_plain.
  - apply passes_quoted.
  - apply passes_app; [by apply passes_plain|]. apply passes_app; [|by apply passes_plain]. apply passes_join; [by apply passes_plain|]. by apply Forall_fmap.
  - apply passes_object, passes_join; [by apply passes_plain|]. apply Forall_fmap. eapply Forall_impl; [exact Hl|]. intros kv Hv.
    apply passes_app; [apply passes_quoted|]. by apply passes_app; [apply passes_plain|].
Qed.

Definition brace_free (s : string) : bool := str_forall (fun c => negb (Ascii.eqb c ch_open)) s.

Lemma find_objects_gap fuel s t : brace_free s = true -> find_objects (String.length s + fuel) (s +:+ t) = find_objects fuel t.
Proof.
  unfold brace_free. induction s as [|c s IH]; [by rewrite append_nil_l|]. cbn [str_forall]. intros [Hc Hs]%andb_true_iff. rewrite append_cons.
  cbn [String.length Nat.add find_objects]. apply negb_true_iff in Hc. rewrite Hc. by apply IH.
Qed.

Lemma find_objects_free s : brace_free s = true -> find_json_objects s = [].
Proof.
  intros Hs. unfold find_json_objects. pose proof (find_objects_gap 0 s "" Hs) as H0. rewrite append_nil_r, Nat.add_0_r in H0. by rewrite H0.
Qed.

Lemma str_take_append a b : str_take (String.length a) (a +:+ b) = a.
Proof. induction a as [|c a IH]; [by destruct b|]. rewrite append_cons. cbn [String.length str_take]. by rewrite IH. Qed.
Lemma str_drop_append a b : str_drop (String.length a) (a +:+ b) = b.
Proof. induction a as [|c a IH]; [by destruct b|]. rewrite append_cons. cbn [String.length str_drop]. by rewrite IH. Qed.

(** However an answer is dressed up, the object in it is found: a JSON object as it is
    printed, nested objects and braces, quotes and escapes in strings included, is the only
    candidate in a text without other braces, and the last word of a text that ends with
    it. *)
Theorem json_object_found pre post obj : brace_free pre = true -> brace_free post = true ->
  let o := json_text number (JObject obj) in find_json_objects (pre +:+ o +:+ post) = [o].
Proof using plain_numbers.
  intros Hpre Hpost o. unfold find_json_objects. rewrite !length_append, find_objects_gap by done.
  set (body := str_join "," ((fun kv => json_quoted kv.1 +:+ ":" +:+ json_text number kv.2) <$> obj)). assert (o = "{" +:+ body +:+ "}") as Ho by done.
  assert (passes body) as Hb.
  { apply passes_join; [by apply passes_plain|]. apply Forall_fmap, Forall_forall. intros kv _. apply passes_app; [apply passes_quoted|].
    apply passes_app; [by apply passes_plain|apply passes_json]. }
  pose proof (object_balanced body post Hb) as Hscan. rewrite <- Ho in Hscan. clearbody o.
  destruct o as [|c o]; [discriminate|]. assert (c = ch_open) as -> by (rewrite append_cons in Ho; by injection Ho). cbn [String.length Nat.add]. rewrite append_cons in Hscan |- *.
  cbn [find_objects]. change (Ascii.eqb ch_open ch_open) with true. cbn beta iota. rewrite Hscan. rewrite <- append_cons, str_take_append, str_drop_append.
  f_equal. pose proof (find_objects_free post Hpost) as Hf. unfold find_json_objects in Hf.
  clear -Hpost. revert o. induction post as [|c post IH]; intros o; [by destruct (String.length o)|].
  unfold brace_free in *. cbn [str_forall] in Hpost. apply andb_true_iff in Hpost as [Hc Hp]. apply negb_true_iff in Hc. cbn [String.length]. rewrite Nat.add_succ_r.
  cbn [find_objects]. rewrite Hc. by apply IH.
Qed.
End found.

Section answers.
Context {M : Type} `{OutcomeMeta M} `{JsonText} `{JsonDisplay} `{JsonSchemas}.
Context (number : JNumber -> string) (plain_numbers : forall n, str_forall plain (number n) = true).

(** An answer in prose means what its object says.  When the printed object parses back to
    itself, its routing fields are applied to the outcome of a stage without a schema; under a
    schema it is accepted exactly when the validator has no complaint, and refused with
    the first five of them otherwise. *)
Theorem answer_taken_over pre post obj (o : Outcome M) schema v :
  brace_free pre = true -> brace_free post = true -> json_from_str (json_text number (JObject obj)) = Ok (JObject obj) ->
  let text := pre +:+ json_text number (JObject obj) +:+ post in
  extract_status_fields text o = (if obj_contains_routing_field obj then (true, apply_routing_fields (JObject obj) o) else (false, o))
  /\ validate_response_text (OsJsonSchema schema v) text
     = Some match iter_errors v (JObject obj) with
            | [] => Ok (JObject obj)
            | errors => Err (output_validation_error ((fun e => issue_from_error e (Some schema)) <$> take 5 errors))
            end
  /\ (obj_contains_routing_field obj = false -> exists m, validate_response_text OsRouting text = Some (Err (output_error NoRelevantJsonObject m))).
Proof using plain_numbers.
  intros Hpre Hpost Hparse text. pose proof (json_object_found number plain_numbers pre post obj Hpre Hpost) as Hf. cbn zeta in Hf. fold text in Hf.
  set (t := json_text number (JObject obj)) in *. clearbody text t.
  split_and!.
  - unfold extract_status_fields. rewrite Hf. change (reverse [t]) with [t]. cbn [find_map]. unfold routing_value. rewrite Hparse.
    unfold opt_filter. cbn [result_ok contains_routing_field]. by destruct (obj_contains_routing_field obj).
  - cbn [validate_response_text]. unfold validate_custom_response_text. rewrite Hf. cbn. rewrite Hparse. unfold validate_value_against_validator.
    by destruct (iter_errors v (JObject obj)).
  - intros Hr. eexists. cbn [validate_response_text]. unfold validate_routing_response_text. rewrite Hf. change (reverse [t]) with [t]. cbn [check_routing_candidates].
    rewrite Hparse. cbn [contains_routing_field]. rewrite Hr. reflexivity.
Qed.
End answers.

(** ** Witnesses *)

Module AnswerRuns.

Definition sample : list (string * Value) :=
  [("outcome", JString "failed"); ("failure_reason", JString "no } closes {"); ("context_updates", JObject [("n", JNum (PosInt 3))])].
Definition digits (n : JNumber) : string := match n with PosInt z | NegInt z => Z_to_string (Z.abs z) | FloatNum _ => "0.5" end.

Lemma plain_digits n : str_forall plain (digits n) = true.
Proof. destruct n as [z|z|]; [| |reflexivity]; apply (str_forall_impl is_ascii_digit); [by intros [[] [] [] [] [] [] [] []]|apply Z_to_string_digits; lia|by intros [[] [] [] [] [] [] [] []]|apply Z_to_string_digits; lia]. Qed.

#[local] Instance sample_parser : JsonText := fun s => if String.eqb s (json_text digits (JObject sample)) then Ok (JObject sample) else Err "expected value".
#[local] Instance sample_display : JsonDisplay := {| number_to_string := digits; compound_to_string := json_text digits |}.
#[local] Instance no_schemas : JsonSchemas :=
  {| Validator := unit; validator_for := fun _ => Ok tt; iter_errors := fun _ _ => []; location_join := fun p k => p +:+ "/" +:+ k; json_pointer := fun _ _ => None |}.
#[local] Instance no_usage : OutcomeMeta unit := tt.

Definition prose : string := "I am done. " +:+ json_text digits (JObject sample) +:+ " Bye }".

Lemma json_object_found_witness : find_json_objects prose = [json_text digits (JObject sample)].
Proof. apply (json_object_found digits plain_digits "I am done. " " Bye }" sample); reflexivity. Defined.

Lemma answer_taken_over_witness : let o := (extract_status_fields (M := unit) prose outcome_success).2 in
  status o = Failed false /\ failure_reason o = Some "no } closes {" /\ context_updates o !! "n" = Some (JNum (PosInt 3)).
Proof.
  destruct (answer_taken_over (M := unit) digits plain_digits "I am done. " " Bye }" sample outcome_success JNull (tt : @Validator no_schemas)) as (He & _ & _); [vm_compute; reflexivity..|].
  change ("I am done. " +:+ json_text digits (JObject sample) +:+ " Bye }") with prose in He. rewrite He. vm_compute. repeat split.
Defined.
End AnswerRuns.
