(* ===== verification/LlmStages.v ===== *)
(** * Prompt and agent stages

    The stages that ask a language model: the plan of fallback models and single calls that
    fail over and are repaired (fabro-workflow/src/handler/llm/api.rs, routing.rs,
    src/model_fallback.rs, fabro-model/src/reasoning.rs), and the handlers around them
    (handler/prompt.rs, handler/agent.rs).

    The world is [StageWorld]: the host, the log of what is emitted, and the notices given so
    far.  The client, the clock, the files of the sandbox and the loop of an agent belong to
    the host ([LlmHost]); the catalog answers through [ModelCatalog]. *)

From S2P Require Import Prelude RustStr RustNum Backoff GraphTypes Context Outcome Core Failure Interp Lint Artifact Timing Billing Events Patch Tools EventLife LlmErrors OutputSchema.
Local Open Scope string_scope.
Local Open Scope list_scope.
Local Open Scope Z_scope.

(** ** Request controls *)

Inductive ReasoningEffort := EffLow | EffMedium | EffHigh | EffXHigh | EffMax.
#[export] Instance ReasoningEffort_eq_dec : EqDecision ReasoningEffort.
Proof. solve_decision. Defined.

Definition efforts : list ReasoningEffort := [EffLow; EffMedium; EffHigh; EffXHigh; EffMax].
Definition effort_level (e : ReasoningEffort) : Z :=
  match e with EffLow => 0 | EffMedium => 1 | EffHigh => 2 | EffXHigh => 3 | EffMax => 4 end.
Definition effort_to_string (e : ReasoningEffort) : string :=
  match e with EffLow => "low" | EffMedium => "medium" | EffHigh => "high" | EffXHigh => "xhigh" | EffMax => "max" end.
Definition effort_from_str (s : string) : option ReasoningEffort := find_first (fun e => String.eqb (effort_to_string e) s) efforts.

(** [min_by_key] with the distance and then the higher effort; it keeps the first of equals. *)
Definition nearer (self a b : ReasoningEffort) : bool :=
  let da := Z.abs (effort_level self - effort_level a) in
  let db := Z.abs (effort_level self - effort_level b) in
  ((da <? db) || ((da =? db) && (effort_level b <=? effort_level a)))%bool.
Definition closest_supported (self : ReasoningEffort) (supported : list ReasoningEffort) : option ReasoningEffort :=
  match supported with
  | [] => None
  | e :: rest => Some (foldl (fun best e => if nearer self best e then best else e) e rest)
  end.

Definition speed_from_str (s : string) : option Speed := find_first (fun x => String.eqb (Speed_to_string x) s) [SpeedStandard; SpeedFast].

Record RequestControls := mkControls { rc_reasoning_effort : option ReasoningEffort; rc_speed : option Speed }.
Definition RequestControls_default : RequestControls := mkControls None None.

(** The settings of a run, as written. *)
Record RunModelControls := mkRunControls { rmc_reasoning_effort : option string; rmc_speed : option string }.

(** ** Routes and plans *)

Record FallbackTarget := mkTarget { ft_provider : string; ft_model : string }.
#[export] Instance FallbackTarget_eq_dec : EqDecision FallbackTarget.
Proof. solve_decision. Defined.
Definition target_to_string (t : FallbackTarget) : string := ft_provider t +:+ ":" +:+ ft_model t.

Record LlmRoute := mkRoute { lr_target : FallbackTarget; lr_controls : RequestControls }.
Record FallbackPlan := mkPlan { fp_original : LlmRoute; fp_remaining : list LlmRoute; fp_position : nat }.

(** [None] is an index out of range. *)
Definition route_at (p : FallbackPlan) (position : nat) : option LlmRoute :=
  match position with
  | O => Some (fp_original p)
  | S index => fp_remaining p !! index
  end.
Definition plan_current (p : FallbackPlan) : option LlmRoute := route_at p (fp_position p).
Definition plan_previous (p : FallbackPlan) : option LlmRoute := route_at p (fp_position p - 1).
Definition plan_attempt (p : FallbackPlan) : Z := Z.min (Z.of_nat (fp_position p)) u32_max.
Definition plan_has_next (p : FallbackPlan) : bool := Nat.ltb (fp_position p) (length (fp_remaining p)).
Definition plan_advance (p : FallbackPlan) : bool * FallbackPlan :=
  if plan_has_next p then (true, mkPlan (fp_original p) (fp_remaining p) (S (fp_position p))) else (false, p).

(** ** Notices *)

(** The references of settings are their texts. *)
Inductive ModelFallbackNotice :=
| MnProviderUnconfigured (requested_model reference provider : string)
| MnNoConfiguredOffering (requested_model reference : string) (providers : list string)
| MnPrimaryNotInCatalog (requested_model reference : string) (primary : FallbackTarget)
| MnNoCompatibleModel (requested_model reference provider : string)
| MnDuplicate (requested_model reference : string) (target : FallbackTarget)
| MnNoNearbyReasoningLevel (requested_model : string) (target : FallbackTarget) (requested_effort : ReasoningEffort)
| MnChainEmpty (requested_model : string).

Definition notice_code (n : ModelFallbackNotice) : string :=
  match n with MnChainEmpty _ => "model_fallback_chain_empty" | _ => "model_fallback_skipped" end.
Definition notice_level (n : ModelFallbackNotice) : string := match n with MnDuplicate _ _ _ => "info" | _ => "warn" end.

Definition skipped_message (reference requested_model why : string) : string :=
  "Model fallback `" +:+ reference +:+ "` for requested model `" +:+ requested_model +:+ "` was skipped because " +:+ why.
Definition notice_message (n : ModelFallbackNotice) : string :=
  match n with
  | MnProviderUnconfigured m r p => skipped_message r m ("provider `" +:+ p +:+ "` is not configured.")
  | MnNoConfiguredOffering m r ps => skipped_message r m ("none of its providers are configured. It is offered by: " +:+ str_join ", " ps +:+ ".")
  | MnPrimaryNotInCatalog m r primary =>
      skipped_message r m ("`" +:+ target_to_string primary +:+ "` is not in the catalog, so there is no capability profile to match against.")
  | MnNoCompatibleModel m r p => skipped_message r m ("provider `" +:+ p +:+ "` has no compatible model.")
  | MnDuplicate m r t => skipped_message r m ("target `" +:+ target_to_string t +:+ "` already appears in that chain.")
  | MnNoNearbyReasoningLevel m t e => skipped_message (target_to_string t) m ("it has no reasoning level near `" +:+ effort_to_string e +:+ "`.")
  | MnChainEmpty m => "No usable model fallbacks remain for requested model `" +:+ m +:+ "` after filtering its configured candidates."
  end.

(** ** The catalog *)

Inductive ModelSelectionError := SeUnknownSelector | SeOther (text : string).

(** What these stages ask of the catalog: the id of a provider, whether a provider offers a
    model, the reasoning levels an offering has settings for, its output limit, the provider
    chosen for a model, the canonical id of a model, and what a bill depends on. *)
Class ModelCatalog := {
  mc_provider : string -> option string;
  mc_offers : string -> string -> bool;
  mc_efforts : string -> string -> option (list ReasoningEffort);
  mc_max_output : string -> string -> option Z;
  mc_select : string -> result string ModelSelectionError;
  mc_canonical : string -> string -> string;
  mc_billing_facts : ModelRef -> TokenCounts -> option ModelBillingFacts;
  mc_pricing : ModelRef -> option ModelPricing
}.

(** ** Requests *)

Inductive Role := RoleSystem | RoleUser | RoleAssistant.
Record LlmMessage := mkLlmMessage { ms_role : Role; ms_text : string }.
Record LlmRequest := mkRequest {
  rq_model : string;
  rq_messages : list LlmMessage;
  rq_provider : string;
  rq_response_format : option ResponseFormat;
  rq_max_tokens : option Z;
  rq_controls : RequestControls
}.
Record LlmResponse := mkResponse { rs_text : string; rs_usage : TokenCounts; rs_cost_usd : option f64 }.
Record OneShotCompletion := mkCompletion { oc_response : LlmResponse; oc_model : ModelRef }.

(** ** The world of a stage *)

Inductive LlmEvent :=
| LevPrompt (stage text mode : string) (provider model : option string) (controls : RequestControls)
| LevPromptCompleted (node response model provider : string) (billing : option BilledModelUsage)
| LevFailover (stage : string) (original from to : FallbackTarget) (attempt : Z) (requested effective : option ReasoningEffort) (error : string)
| LevNotice (level code message : string)
| LevCommandStarted (node script command language : string) (timeout_ms : option Z)
| LevCommandCompleted (node output : string) (exit_code : option Z) (duration_ms : Z) (termination : CommandTermination) (output_bytes : Z) (live_streaming : bool).

Inductive CodergenResult :=
| CgText (text : string) (usage : option BilledModelUsage) (files_touched : list string) (last_file_touched : option string) (timing : StageTiming)
| CgFull (o : Outcome (option BilledModelUsage)).

(** Creating a client, a call, the clock, looking for project documents ([true] when that was
    cancelled), reading a file of the sandbox, and the loop of an agent. *)
Class LlmHost (H : Type) := {
  lh_client : H -> option ErrChain * H;
  lh_complete : LlmRequest -> H -> result LlmResponse LlmError * H;
  lh_now : H -> Z;
  lh_memory : H -> result (list string) bool * H;
  lh_read_file : string -> H -> option string * H;
  lh_agent_run : Node -> string -> Context -> H -> result CodergenResult EngineError * H
}.

Record StageWorld (H : Type) := mkStageWorld { lw_host : H; lw_log : list LlmEvent; lw_notices : gset string }.
Arguments mkStageWorld {H}.
Arguments lw_host {H}.
Arguments lw_log {H}.
Arguments lw_notices {H}.

Definition on_host {H A} (f : H -> A * H) (w : StageWorld H) : A * StageWorld H :=
  let '(a, h) := f (lw_host w) in (a, mkStageWorld h (lw_log w) (lw_notices w)).
Definition lw_emit {H} (e : LlmEvent) (w : StageWorld H) : StageWorld H := mkStageWorld (lw_host w) (lw_log w ++ [e]) (lw_notices w).

Section stages.
Context {H : Type} `{!LlmHost H} `{!ModelCatalog} `{!JsonText} `{!JsonDisplay} `{!JsonSchemas} `{!RegexReplace} `{!ErrorText}.
Implicit Types (w : StageWorld H) (n : Node) (p : FallbackPlan).

(** ** Resolving what a node asks for *)

Definition strum_error : ErrChain := [mkLink "Matching variant not found" None].
Definition invalid_control (what value : string) n (expected : list string) : EngineError :=
  handler_with_source ("Invalid " +:+ what +:+ " " +:+ dq +:+ value +:+ dq +:+ " for node " +:+ dq +:+ node_id n +:+ dq +:+ "; expected one of: " +:+ str_join ", " expected) strum_error.

Definition control_attr n (key : string) : option string := node_str_attr n key.

Definition parse_control {A} (parse : string -> option A) (what : string) (expected : list string) n (value : option string) : result (option A) EngineError :=
  match value with
  | None => Ok None
  | Some value => match parse value with Some a => Ok (Some a) | None => Err (invalid_control what value n expected) end
  end.

Definition effective_request_controls (run : RunModelControls) n : result RequestControls EngineError :=
  match parse_control effort_from_str "reasoning_effort" (effort_to_string <$> efforts) n
          (or_else (control_attr n "reasoning_effort") (rmc_reasoning_effort run)) with
  | Err e => Err e
  | Ok effort =>
      match parse_control speed_from_str "speed" (Speed_to_string <$> [SpeedStandard; SpeedFast]) n (or_else (control_attr n "speed") (rmc_speed run)) with
      | Err e => Err e
      | Ok speed => Ok (mkControls effort speed)
      end
  end.

Definition not_configured (provider : string) : EngineError := WePrecondition ("Provider " +:+ dq +:+ provider +:+ dq +:+ " is not configured").

Definition resolve_provider_context (default_provider_id model : string) (provider_attr : option string) : result string EngineError :=
  let provider_id :=
    match provider_attr with
    | Some provider => match mc_provider provider with Some id => Ok id | None => Err (not_configured provider) end
    | None =>
        if mc_offers default_provider_id model then Ok default_provider_id
        else match mc_select model with
             | Ok provider => Ok provider
             | Err SeUnknownSelector => Ok default_provider_id
             | Err (SeOther text) => Err (WeModelSelection text)
             end
    end in
  match provider_id with
  | Err e => Err e
  | Ok id => match mc_provider id with Some id => Ok id | None => Err (not_configured id) end
  end.

(** The backend as far as single calls go. *)
Record AgentApiBackend := mkApiBackend {
  ab_model : string;
  ab_provider_id : string;
  ab_fallbacks : gmap string (list FallbackTarget);
  ab_run_controls : RunModelControls
}.

Inductive FallbackControls := FcUsable (c : RequestControls) | FcNoNearbyReasoningLevel (e : ReasoningEffort).

Definition fallback_controls_for_target (t : FallbackTarget) (requested : RequestControls) : FallbackControls :=
  match rc_reasoning_effort requested with
  | None => FcUsable requested
  | Some requested_effort =>
      if mc_offers (ft_provider t) (ft_model t) then
        match mc_efforts (ft_provider t) (ft_model t) ≫= closest_supported requested_effort with
        | Some effort => FcUsable (mkControls (Some effort) (rc_speed requested))
        | None => FcNoNearbyReasoningLevel requested_effort
        end
      else FcUsable requested
  end.

(** The routes after the original one, and why others were left out. *)
Fixpoint fallback_routes (original : FallbackTarget) (requested : RequestControls) (configured : list FallbackTarget) : list LlmRoute * list ModelFallbackNotice :=
  match configured with
  | [] => ([], [])
  | t :: rest =>
      let '(remaining, notices) := fallback_routes original requested rest in
      if decide (t = original) then (remaining, notices)
      else match fallback_controls_for_target t requested with
           | FcUsable controls => (mkRoute t controls :: remaining, notices)
           | FcNoNearbyReasoningLevel effort => (remaining, MnNoNearbyReasoningLevel (ft_model original) t effort :: notices)
           end
  end.

Definition fallback_plan (b : AgentApiBackend) (model provider : string) (requested : RequestControls) : FallbackPlan * list ModelFallbackNotice :=
  let primary_model := mc_canonical provider model in
  let original := mkRoute (mkTarget provider primary_model) requested in
  match ab_fallbacks b !! primary_model with
  | None => (mkPlan original [] 0, [])
  | Some configured =>
      let '(remaining, notices) := fallback_routes (lr_target original) requested configured in
      let notices := match configured, remaining with
                     | _ :: _, [] => notices ++ [MnChainEmpty primary_model]
                     | _, _ => notices
                     end in
      (mkPlan original remaining 0, notices)
  end.

Definition emit_fallback_plan_notice w (notice : ModelFallbackNotice) : StageWorld H :=
  let message := notice_message notice in
  if decide (message ∈ lw_notices w) then w
  else lw_emit (LevNotice (notice_level notice) (notice_code notice) message) (mkStageWorld (lw_host w) (lw_log w) ({[message]} ∪ lw_notices w)).
Definition emit_fallback_plan_notices (notices : list ModelFallbackNotice) w : StageWorld H := foldl emit_fallback_plan_notice w notices.

(** ** A single call *)

Definition emit_failover n p (error : string) w : option (StageWorld H) :=
  from ← plan_previous p; to ← plan_current p;
  Some (lw_emit (LevFailover (node_id n) (lr_target (fp_original p)) (lr_target from) (lr_target to) (plan_attempt p)
                   (rc_reasoning_effort (lr_controls (fp_original p))) (rc_reasoning_effort (lr_controls to)) error) w).

Definition route_max_tokens n (r : LlmRoute) : option Z :=
  or_else (max_tokens n) (mc_max_output (ft_provider (lr_target r)) (ft_model (lr_target r))).

Definition route_request n (r : LlmRoute) (messages : list LlmMessage) (format : option ResponseFormat) : LlmRequest :=
  mkRequest (ft_model (lr_target r)) messages (ft_provider (lr_target r)) format (route_max_tokens n r) (lr_controls r).

Definition completed_by (r : LlmRoute) (response : LlmResponse) : OneShotCompletion :=
  mkCompletion response (mkModelRef (ft_provider (lr_target r)) (ft_model (lr_target r)) (rc_speed (lr_controls r))).

(** Every round but the last moves the plan on: the routes left give the fuel.  [None] is an
    index out of range. *)
Fixpoint complete_rounds (fuel : nat) n (request : LlmRequest) p w : option (result OneShotCompletion EngineError * FallbackPlan * StageWorld H) :=
  match fuel with
  | O => None
  | S fuel =>
      match on_host (lh_complete request) w with
      | (Ok response, w) => route ← plan_current p; Some (Ok (completed_by route response), p, w)
      | (Err error, w) =>
          if (failover_eligible error && plan_has_next p)%bool then
            let p := (plan_advance p).2 in
            w ← emit_failover n p (LlmError_to_string error) w;
            route ← plan_current p;
            complete_rounds fuel n (route_request n route (rq_messages request) (rq_response_format request)) p w
          else Some (Err (WeLlm error), p, w)
      end
  end.
Definition complete_one_shot_request n request p w := complete_rounds (S (length (fp_remaining p) - fp_position p)) n request p w.

Definition billed_model_usage_from_llm (model : ModelRef) (usage : TokenCounts) : result BilledModelUsage EngineError :=
  match mc_billing_facts model usage with
  | None => Err (not_configured (mr_provider model))
  | Some facts => Ok (mkBilledUsage model usage facts (pricing ← mc_pricing model; model_bill pricing model usage facts))
  end.

(** What a loop of repairs carries along. *)
Record Repairing := mkRepairing {
  rg_plan : FallbackPlan;
  rg_messages : list LlmMessage;
  rg_previous : option StructuredOutputError;
  rg_usage : TokenCounts;
  rg_cost : option Z;
  rg_inference : Duration
}.

Definition billed_answer n (g : Repairing) (c : OneShotCompletion) : result CodergenResult EngineError :=
  match billed_model_usage_from_llm (oc_model c) (rg_usage g) with
  | Err e => Err e
  | Ok usage =>
      Ok (CgText (rs_text (oc_response c)) (Some (usage_with_reported_cost (rg_cost g) usage)) [] None
            (StageTiming_active_only (Z.min (as_millis (rg_inference g)) u64_max) 0))
  end.

(** [repairs_left] counts the repairs that are still allowed. *)
Fixpoint repair_rounds (repairs_left : nat) n (schema : option OutputSchemaKind) (g : Repairing) w
    : option (result CodergenResult EngineError * Repairing * StageWorld H) :=
  route ← plan_current (rg_plan g);
  let start := lh_now (lw_host w) in
  done ← complete_one_shot_request n (route_request n route (rg_messages g) (prompt_response_format <$> schema)) (rg_plan g) w;
  let '(completion, p, w) := done in
  let inference := Z.min (rg_inference g + Z.max 0 (lh_now (lw_host w) - start)) duration_max in
  match completion with
  | Err e => Some (Err e, mkRepairing p (rg_messages g) (rg_previous g) (rg_usage g) (rg_cost g) inference, w)
  | Ok c =>
      let response := oc_response c in
      let g := mkRepairing p (rg_messages g) (rg_previous g) (add_tokens (rg_usage g) (rs_usage response))
                 (accumulate_optional_usd_micros (rg_cost g) (from_usd <$> rs_cost_usd response)) inference in
      match schema with
      | None => Some (billed_answer n g c, g, w)
      | Some k =>
          verdict ← validate_response_text k (rs_text response);
          match verdict with
          | Ok _ => Some (billed_answer n g c, g, w)
          | Err error =>
              match repairs_left with
              | O => Some (Err (WeOutputSchemaValidation (exhausted_failure_reason (output_retries n))), g, w)
              | S repairs_left =>
                  let messages := rg_messages g ++ [mkLlmMessage RoleAssistant (rs_text response); mkLlmMessage RoleUser (repair_message error k (rg_previous g))] in
                  repair_rounds repairs_left n schema (mkRepairing (rg_plan g) messages (Some error) (rg_usage g) (rg_cost g) (rg_inference g)) w
              end
          end
      end
  end.

Definition one_shot_messages (prompt : string) (system_prompt : option string) : list LlmMessage :=
  (match system_prompt with Some s => [mkLlmMessage RoleSystem s] | None => [] end) ++ [mkLlmMessage RoleUser prompt].

Definition one_shot (b : AgentApiBackend) n (prompt : string) (system_prompt : option string) w : option (result CodergenResult EngineError * StageWorld H) :=
  match on_host lh_client w with
  | (Some e, w) => Some (Err (handler_with_source "Failed to create LLM client" e), w)
  | (None, w) =>
      let model := default (ab_model b) (node_model n) in
      match resolve_provider_context (ab_provider_id b) model (node_provider n) with
      | Err e => Some (Err e, w)
      | Ok provider =>
          match effective_request_controls (ab_run_controls b) n with
          | Err e => Some (Err e, w)
          | Ok controls =>
              let '(plan, notices) := fallback_plan b model provider controls in
              let w := emit_fallback_plan_notices notices w in
              match parse_node_output_schema n with
              | Err e => Some (Err e, w)
              | Ok schema =>
                  r ← repair_rounds (Z.to_nat (output_retries n)) n schema
                        (mkRepairing plan (one_shot_messages prompt system_prompt) None TokenCounts_default None 0) w;
                  Some (r.1.1, r.2)
              end
          end
      end
  end.

(** ** The handlers *)

(** The trait [CodergenBackend]. *)
Record CodergenBackend := mkBackend {
  cb_run : Node -> string -> Context -> StageWorld H -> option (result CodergenResult EngineError * StageWorld H);
  cb_one_shot : Node -> string -> option string -> StageWorld H -> option (result CodergenResult EngineError * StageWorld H);
  cb_request_controls : Node -> result RequestControls EngineError
}.

Definition one_shot_unsupported : EngineError := WeValidation "one_shot mode not supported by this backend".

Definition api_backend (b : AgentApiBackend) : CodergenBackend :=
  mkBackend (fun n prompt c w => Some (on_host (lh_agent_run n prompt c) w)) (one_shot b) (effective_request_controls (ab_run_controls b)).

(** The defaults of the run. *)
Record RunLlm := mkRunLlm { rl_provider_id : string; rl_model : string }.

Definition emit_stage_prompt (backend : option CodergenBackend) (run : RunLlm) n (prompt mode : string) w : result (StageWorld H) EngineError :=
  match match backend with Some b => cb_request_controls b n | None => Ok RequestControls_default end with
  | Err e => Err e
  | Ok controls =>
      Ok (lw_emit (LevPrompt (node_id n) prompt mode (Some (default (rl_provider_id run) (node_provider n)))
                     (Some (default (rl_model run) (node_model n))) controls) w)
  end.

Definition with_preamble (c : Context) n : string :=
  let preamble := get_string c CURRENT_PREAMBLE "" in
  if str_is_empty preamble then prompt_or_label n else preamble +:+ nl +:+ nl +:+ prompt_or_label n.

(** [truncate]: by bytes, down to the start of a character. *)
Definition truncate (s : string) (max : nat) : string := if Nat.leb (String.length s) max then s else floor_slice max s.

Definition simulated_text n : string := "[Simulated] Response for stage: " +:+ node_id n.

Definition response_updates n (text : string) : gmap string Value :=
  <[response_key (node_id n) := JString text]> (<[LAST_RESPONSE := JString (truncate text 200)]> (<[LAST_STAGE := JString (node_id n)]> ∅)).

Definition simulate_llm_handler n : Outcome (option BilledModelUsage) :=
  mkOutcome Succeeded None [] (response_updates n (simulated_text n)) None (Some ("[Simulated] " +:+ node_id n)) None None [] None.

Definition answered n (text : string) : Outcome (option BilledModelUsage) :=
  mkOutcome Succeeded None [] (response_updates n text) None (Some ("Stage completed: " +:+ node_id n)) None None [] None.

Definition with_work (usage : option BilledModelUsage) (files : list string) (t : StageTiming) (o : Outcome (option BilledModelUsage)) : Outcome (option BilledModelUsage) :=
  mkOutcome (status o) (preferred_label o) (suggested_next_ids o) (context_updates o) (jump_to_node o) (notes o) (failure o) usage files (Some t).

Definition emit_prompt_completed (run : RunLlm) n (text : string) (usage : option BilledModelUsage) w : StageWorld H :=
  lw_emit (LevPromptCompleted (node_id n) text (default "" (or_else ((fun u => mr_model_id (bu_model u)) <$> usage) (node_model n)))
             (default (rl_provider_id run) (node_provider n)) usage) w.

(** What the handlers make of the answer of the backend: the outcome of the stage, an error for
    the executor, or a text to look into. *)
Inductive Asked := AkDone (r : result (Outcome (option BilledModelUsage)) EngineError)
| AkText (text : string) (usage : option BilledModelUsage) (files : list string) (last_file : option string) (t : StageTiming).

Definition asked (r : result CodergenResult EngineError) : Asked :=
  match r with
  | Ok (CgFull o) => AkDone (Ok o)
  | Ok (CgText text usage files last_file t) => AkText text usage files last_file t
  | Err e => AkDone (match e with
                     | WeCancelled => Err WeCancelled
                     | _ => if error_is_retryable e then Err e else Ok (error_to_fail_outcome e)
                     end)
  end.

Definition no_timing : StageTiming := StageTiming_new 0 0 0.

Definition prompt_finish (run : RunLlm) n (a : Asked) w : option (result (Outcome (option BilledModelUsage)) EngineError * StageWorld H) :=
  match a with
  | AkDone r => Some (r, w)
  | AkText text usage files _ t =>
      let w := emit_prompt_completed run n text usage w in
      match parse_node_output_schema n with
      | Err e => Some (Err e, w)
      | Ok None => Some (Ok (with_work usage files t (extract_status_fields text (answered n text)).2), w)
      | Ok (Some k) =>
          verdict ← validate_response_text k text;
          Some (Ok (with_work usage files t match verdict with
                                           | Ok v => apply_validated_output n k v (answered n text)
                                           | Err _ => exhausted_failure_outcome (output_retries n)
                                           end), w)
      end
  end.

(** [PromptHandler::execute].  The inner error of the documents is [true] when the search was
    cancelled. *)
Definition prompt_execute (backend : option CodergenBackend) (run : RunLlm) n (c : Context) w
    : option (result (Outcome (option BilledModelUsage)) EngineError * StageWorld H) :=
  let prompt := with_preamble c n in
  let '(documents, w) :=
    if project_memory n then
      match resolve_provider_context (rl_provider_id run) (default (rl_model run) (node_model n)) (node_provider n) with
      | Err e => (Err e, w)
      | Ok _ => match on_host lh_memory w with
                | (Ok docs, w) => (Ok docs, w)
                | (Err cancelled, w) => (if cancelled then Err WeCancelled else Ok [], w)
                end
      end
    else (Ok [], w) in
  match documents with
  | Err e => Some (Err e, w)
  | Ok docs =>
      let system_prompt := match docs with [] => None | _ => Some (str_join (nl +:+ nl) docs) end in
      match emit_stage_prompt backend run n prompt "prompt" w with
      | Err e => Some (Err e, w)
      | Ok w =>
          match backend with
          | None => prompt_finish run n (AkText (simulated_text n) None [] None no_timing) w
          | Some b => r ← cb_one_shot b n prompt system_prompt w; prompt_finish run n (asked r.1) r.2
          end
      end
  end.

(** ** Agents *)

Definition LAST_FILE_ROUTING_EXTENSIONS : list string := ["json"; "md"].

(** [Path::extension] of a path with forward slashes: what follows the last dot of the file
    name, unless that dot begins it. *)
Definition path_extension (path : string) : option string :=
  let file := default "" (last (filterb (fun s => negb (str_is_empty s || String.eqb s ".")) (split_char "/" path))) in
  match last (split_char "." file), split_char "." file with
  | Some ext, first :: _ :: _ => if (String.eqb file ".." || (str_is_empty first && Nat.eqb (length (split_char "." file)) 2))%bool then None else Some ext
  | _, _ => None
  end.

Definition read_last_file_routing_json (path : string) w : option string * StageWorld H :=
  match path_extension path with
  | Some ext =>
      if existsb (String.eqb (to_lowercase ext)) LAST_FILE_ROUTING_EXTENSIONS then
        match on_host (lh_read_file path) w with
        | (Some contents, w) => (terminal_json_object contents, w)
        | (None, w) => (None, w)
        end
      else (None, w)
  | None => (None, w)
  end.

(** The sources of routing fields after the answer itself: the status file and the file
    written last. *)
Definition validate_last_file (k : OutputSchemaKind) (fallback_error : StructuredOutputError) (last_file : option string) w
    : option (result Value StructuredOutputError * StageWorld H) :=
  match last_file with
  | Some path =>
      match read_last_file_routing_json path w with
      | (Some json, w) => verdict ← validate_response_text k json; Some (verdict, w)
      | (None, w) => Some (Err fallback_error, w)
      end
  | None => Some (Err fallback_error, w)
  end.

Definition validate_agent_output_sources (k : OutputSchemaKind) (text : string) (last_file : option string) w
    : option (result Value StructuredOutputError * StageWorld H) :=
  verdict ← validate_response_text k text;
  match verdict with
  | Ok v => Some (Ok v, w)
  | Err error =>
      if (is_routing k && allows_routing_fallback error)%bool then
        match on_host (lh_read_file "status.json") w with
        | (Some json, w) =>
            verdict ← validate_response_text k json;
            match verdict with
            | Ok v => Some (Ok v, w)
            | Err error => if allows_routing_fallback error then validate_last_file k error last_file w else Some (Err error, w)
            end
        | (None, w) => validate_last_file k error last_file w
        end
      else Some (Err error, w)
  end.

Definition extract_agent_status (text : string) (last_file : option string) (o : Outcome (option BilledModelUsage)) w : Outcome (option BilledModelUsage) * StageWorld H :=
  match extract_status_fields text o with
  | (true, o) => (o, w)
  | (false, o) =>
      let '(status_json, w) := on_host (lh_read_file "status.json") w in
      let '(found, o) := match status_json with Some json => extract_status_fields json o | None => (false, o) end in
      if found then (o, w)
      else match last_file with
           | Some path =>
               match read_last_file_routing_json path w with
               | (Some json, w) => ((extract_status_fields json o).2, w)
               | (None, w) => (o, w)
               end
           | None => (o, w)
           end
  end.

Definition agent_finish (run : RunLlm) n (schema : option OutputSchemaKind) (a : Asked) w : option (result (Outcome (option BilledModelUsage)) EngineError * StageWorld H) :=
  match a with
  | AkDone r => Some (r, w)
  | AkText text usage files last_file t =>
      let w := emit_prompt_completed run n text usage w in
      match schema with
      | Some k =>
          r ← validate_agent_output_sources k text last_file w;
          Some (Ok (with_work usage files t match r.1 with
                                           | Ok v => apply_validated_output n k v (answered n text)
                                           | Err _ => exhausted_failure_outcome (output_retries n)
                                           end), r.2)
      | None => let '(o, w) := extract_agent_status text last_file (answered n text) w in Some (Ok (with_work usage files t o), w)
      end
  end.

(** [AgentHandler::execute]; [run_id_error] is the error of a context without a valid run id. *)
Definition agent_execute (backend : option CodergenBackend) (run : RunLlm) (run_id_error : option EngineError) n (c : Context) w
    : option (result (Outcome (option BilledModelUsage)) EngineError * StageWorld H) :=
  match parse_node_output_schema n with
  | Err e => Some (Err e, w)
  | Ok schema =>
      let prompt := match schema with Some k => agent_prompt k (with_preamble c n) | None => with_preamble c n end in
      match emit_stage_prompt backend run n prompt "agent" w with
      | Err e => Some (Err e, w)
      | Ok w =>
          match run_id_error with
          | Some e => Some (Err e, w)
          | None =>
              match backend with
              | None => agent_finish run n schema (AkText (simulated_text n) None [] None no_timing) w
              | Some b => r ← cb_run b n prompt c w; agent_finish run n schema (asked r.1) r.2
              end
          end
      end
  end.
End stages.

(** ** The nearest effort *)

Lemma nearer_spec self a b : nearer self a b = true <->
  Z.abs (effort_level self - effort_level a) < Z.abs (effort_level self - effort_level b)
  \/ (Z.abs (effort_level self - effort_level a) = Z.abs (effort_level self - effort_level b) /\ effort_level b <= effort_level a).
Proof. unfold nearer. rewrite orb_true_iff, andb_true_iff, Z.ltb_lt, Z.eqb_eq, Z.leb_le. tauto. Qed.

Lemma nearest_of self e rest : let best := foldl (fun best e => if nearer self best e then best else e) e rest in
  best ∈ e :: rest /\ Forall (fun x => nearer self best x = true) (e :: rest).
Proof.
  assert (forall a, nearer self a a = true) as Hrefl by (intros a; apply nearer_spec; lia).
  assert (forall a b c, nearer self a b = true -> nearer self b c = true -> nearer self a c = true) as Htrans by (intros a b c; rewrite !nearer_spec; lia).
  assert (forall a b, nearer self a b = false -> nearer self b a = true) as Hflip.
  { intros a b Hab. apply nearer_spec. destruct (nearer_spec self a b) as [_ H]. rewrite Hab in H.
    destruct (Z.lt_trichotomy (Z.abs (effort_level self - effort_level a)) (Z.abs (effort_level self - effort_level b))) as [|[|]]; [by discriminate H; left| |lia].
    right. split; [lia|]. destruct (Z.le_gt_cases (effort_level b) (effort_level a)); [discriminate H; right; lia|lia]. }
  revert e. induction rest as [|x rest IH]; intros e; cbn zeta; cbn [foldl].
  { split; [by left|]. repeat constructor. apply Hrefl. }
  destruct (nearer self e x) eqn:Hn.
  - destruct (IH e) as [Hin Hall]. apply Forall_cons in Hall as [He Hrest]. split; [set_solver|]. constructor; [done|]. constructor; [by apply (Htrans _ e)|done].
  - destruct (IH x) as [Hin Hall]. apply Forall_cons in Hall as [Hx Hrest]. split; [set_solver|]. constructor; [by apply (Htrans _ x), Hflip|]. by constructor.
Qed.

Lemma closest_supported_None self supported : closest_supported self supported = None <-> supported = [].
Proof. by destruct supported. Qed.

(** A fallback model reasons as hard as it can be asked to: the effort nearest to the
    requested one that the model supports, the higher of two that are as near; only a
    model that supports none has no such effort. *)
Theorem closest_effort self supported :
  match closest_supported self supported with
  | Some e => e ∈ supported /\ forall x, x ∈ supported ->
      Z.abs (effort_level self - effort_level e) < Z.abs (effort_level self - effort_level x)
      \/ (Z.abs (effort_level self - effort_level e) = Z.abs (effort_level self - effort_level x) /\ effort_level x <= effort_level e)
  | None => supported = []
  end.
Proof.
  destruct supported as [|e rest]; [done|]. cbn [closest_supported]. destruct (nearest_of self e rest) as [Hin Hall]. split; [done|].
  intros x Hx. apply nearer_spec. rewrite Forall_forall in Hall. by apply Hall.
Qed.

(** ** Failing over *)

Section failover.
Context {H : Type} `{!LlmHost H} `{!ModelCatalog} `{!JsonText} `{!JsonDisplay} `{!JsonSchemas} `{!RegexReplace} `{!ErrorText}.
Implicit Types (w : StageWorld H) (n : Node) (p : FallbackPlan).

Definition plan_ok p : Prop := (fp_position p <= length (fp_remaining p))%nat.
Definition plan_at p (k : nat) : FallbackPlan := mkPlan (fp_original p) (fp_remaining p) k.

(** The host answered a request to the model of a route. *)
Definition model_said n (route : LlmRoute) (answer : result LlmResponse LlmError) : Prop :=
  exists messages format h h', lh_complete (route_request n route messages format) h = (answer, h').

(** The events of failing over from one position of a plan to another: every route in between,
    each abandoned for an error of its model that allows it. *)
Inductive failed_over n p : nat -> list LlmEvent -> nat -> Prop :=
| failed_over_none k : failed_over n p k [] k
| failed_over_step k e from to events k' :
    failover_eligible e = true -> route_at p k = Some from -> model_said n from (Err e) -> route_at p (S k) = Some to ->
    failed_over n p (S k) events k' ->
    failed_over n p k (LevFailover (node_id n) (lr_target (fp_original p)) (lr_target from) (lr_target to) (Z.min (Z.of_nat (S k)) u32_max)
                         (rc_reasoning_effort (lr_controls (fp_original p))) (rc_reasoning_effort (lr_controls to)) (LlmError_to_string e) :: events) k'.

Lemma failed_over_trans n p a e1 b e2 c : failed_over n p a e1 b -> failed_over n p b e2 c -> failed_over n p a (e1 ++ e2) c.
Proof. induction 1 as [|k e from to events k' He Hf Hsaid Ht _ IH]; [done|]. intros Hc. cbn. by econstructor; [..|apply IH]. Qed.

Lemma failed_over_length n p a events b : failed_over n p a events b -> b = (a + length events)%nat.
Proof. induction 1; cbn; lia. Qed.

Lemma route_at_ok p k : (k <= length (fp_remaining p))%nat -> exists r, route_at p k = Some r.
Proof. destruct k as [|k]; [by eexists|]. intros Hk. cbn. by apply lookup_lt_is_Some_2. Qed.

Lemma plan_current_at p k : plan_current (plan_at p k) = route_at p k.
Proof. reflexivity. Qed.
Lemma plan_previous_at p k : plan_previous (plan_at p (S k)) = route_at p k.
Proof. unfold plan_previous. cbn [plan_at fp_position]. by replace (S k - 1)%nat with k by lia. Qed.
Lemma plan_has_next_at p k : plan_has_next (plan_at p k) = Nat.ltb k (length (fp_remaining p)).
Proof. reflexivity. Qed.
Lemma plan_advance_at p k : (k < length (fp_remaining p))%nat -> plan_advance (plan_at p k) = (true, plan_at p (S k)).
Proof. intros Hk. unfold plan_advance. rewrite plan_has_next_at. by destruct (Nat.ltb_spec k (length (fp_remaining p))); [|lia]. Qed.

Lemma emit_failover_at n p k error from to w : route_at p k = Some from -> route_at p (S k) = Some to ->
  emit_failover n (plan_at p (S k)) error w
  = Some (lw_emit (LevFailover (node_id n) (lr_target (fp_original p)) (lr_target from) (lr_target to) (Z.min (Z.of_nat (S k)) u32_max)
            (rc_reasoning_effort (lr_controls (fp_original p))) (rc_reasoning_effort (lr_controls to)) error) w).
Proof. intros Hf Ht. unfold emit_failover. by rewrite plan_previous_at, plan_current_at, Hf, Ht. Qed.

(** How a call ends: on the route the plan stands at, or with an error after which it cannot go
    on. *)
Definition call_ends n p k (r : result OneShotCompletion EngineError) : Prop :=
  exists route, route_at p k = Some route
    /\ match r with
       | Ok c => exists response, model_said n route (Ok response) /\ c = completed_by route response
       | Err e => exists err, e = WeLlm err /\ model_said n route (Err err) /\ (failover_eligible err = false \/ k = length (fp_remaining p))
       end.

Lemma complete_rounds_ok fuel n messages format p k route w :
  route_at p k = Some route -> (k <= length (fp_remaining p))%nat -> (length (fp_remaining p) - k < fuel)%nat ->
  exists r k' w' events, complete_rounds fuel n (route_request n route messages format) (plan_at p k) w = Some (r, plan_at p k', w')
    /\ failed_over n p k events k' /\ (k' <= length (fp_remaining p))%nat /\ lw_log w' = lw_log w ++ events /\ call_ends n p k' r.
Proof.
  revert route k w. induction fuel as [|fuel IH]; intros route k w Hr Hk Hf; [lia|]. cbn [complete_rounds]. unfold on_host.
  destruct (lh_complete (route_request n route messages format) (lw_host w)) as [answer h] eqn:Hsaid.
  assert (model_said n route answer) as Hm by (eexists _, _, _, _; exact Hsaid). destruct answer as [response|error].
  { rewrite plan_current_at, Hr.
    eexists _, k, _, []. split_and!; [reflexivity|constructor|done|by rewrite app_nil_r|exists route; eauto]. }
  rewrite plan_has_next_at. destruct (failover_eligible error) eqn:He; cbn [andb].
  2: { eexists _, k, _, []. split_and!; [reflexivity|constructor|done|by rewrite app_nil_r|exists route; split; [done|exists error; auto]]. }
  destruct (Nat.ltb_spec k (length (fp_remaining p))) as [Hlt|Hge].
  2: { eexists _, k, _, []. split_and!; [reflexivity|constructor|done|by rewrite app_nil_r|exists route; split; [done|]]. exists error. split_and!; [done..|]. right. lia. }
  destruct (route_at_ok p (S k)) as [to Hto]; [lia|].
  rewrite plan_advance_at by done. cbn [snd]. rewrite (emit_failover_at _ _ _ _ route to) by done. cbn [mbind option_bind]. rewrite plan_current_at, Hto. cbn [mbind option_bind].
  match goal with |- context [complete_rounds fuel n ?rq (plan_at p (S k)) ?w1] => destruct (IH to (S k) w1) as (r & k' & w' & events & Hc & Hfo & Hk' & Hl & Hend); [done|lia|lia|] end.
  cbn [rq_messages rq_response_format route_request]. rewrite Hc. eexists r, k', w', (_ :: events).
  split_and!; [reflexivity|by eapply failed_over_step|done| |done]. rewrite Hl. unfold lw_emit. cbn [lw_log]. by rewrite <- app_assoc.
Qed.

Lemma complete_one_shot_ok n messages format p k route w : route_at p k = Some route -> (k <= length (fp_remaining p))%nat ->
  exists r k' w' events, complete_one_shot_request n (route_request n route messages format) (plan_at p k) w = Some (r, plan_at p k', w')
    /\ failed_over n p k events k' /\ (k' <= length (fp_remaining p))%nat /\ lw_log w' = lw_log w ++ events /\ call_ends n p k' r.
Proof. intros Hr Hk. apply complete_rounds_ok; [done|done|]. cbn. lia. Qed.

(** ** Repairing *)

(** What a loop of repairs may answer, having repaired [j] of [m] times. *)
Definition repair_ends n (schema : option OutputSchemaKind) p k (j m : nat) (r : result CodergenResult EngineError) : Prop :=
  match r with
  | Ok (CgText text (Some usage) files last_file _) =>
      (exists route response, route_at p k = Some route /\ model_said n route (Ok response) /\ text = rs_text response
         /\ mr_provider (bu_model usage) = ft_provider (lr_target route) /\ mr_model_id (bu_model usage) = ft_model (lr_target route))
      /\ (forall kind, schema = Some kind -> exists v, validate_response_text kind text = Some (Ok v)) /\ files = [] /\ last_file = None
  | Ok _ => False
  | Err (WeLlm err) =>
      (exists route, route_at p k = Some route /\ model_said n route (Err err)) /\ (failover_eligible err = false \/ k = length (fp_remaining p))
  | Err (WeOutputSchemaValidation msg) => is_some schema = true /\ j = m /\ msg = exhausted_failure_reason (output_retries n)
  | Err e => exists provider, e = not_configured provider
  end.

Lemma billed_answer_ends n schema p k j m (g : Repairing) route response :
  route_at p k = Some route -> model_said n route (Ok response) ->
  (forall kind, schema = Some kind -> exists v, validate_response_text kind (rs_text response) = Some (Ok v)) ->
  repair_ends n schema p k j m (billed_answer n g (completed_by route response)).
Proof.
  intros Hr Hm Hv. unfold billed_answer, billed_model_usage_from_llm. cbn [completed_by oc_model oc_response].
  destruct (mc_billing_facts _ _) as [facts|]; [|by eexists]. cbn [repair_ends]. split_and!; [|done..].
  exists route, response. split_and!; [done..| |]; unfold usage_with_reported_cost; by destruct (rg_cost g).
Qed.

(** The built-in schema compiles; then no check panics. *)
Lemma validate_total (compiles : is_some routing_validator = true) kind text : exists verdict, validate_response_text kind text = Some verdict.
Proof.
  destruct kind as [|schema v]; cbn [validate_response_text]; [|by eexists]. unfold validate_routing_response_text.
  assert (forall l, exists verdict, check_routing_candidates l = Some verdict) as Hall.
  { induction l as [|candidate l IH]; cbn [check_routing_candidates]; [by eexists|]. destruct (json_from_str candidate) as [v|err].
    - destruct (contains_routing_field v); [|done]. destruct routing_validator as [rv|]; [by eexists|done].
    - destruct (raw_mentions_routing_field candidate); [by eexists|done]. }
  destruct (find_json_objects text); [by eexists|apply Hall].
Qed.

Lemma repair_rounds_unfold m n schema (g : Repairing) w : repair_rounds m n schema g w =
  (route ← plan_current (rg_plan g);
   let start := lh_now (lw_host w) in
   done ← complete_one_shot_request n (route_request n route (rg_messages g) (prompt_response_format <$> schema)) (rg_plan g) w;
   let '(completion, p, w) := done in
   let inference := Z.min (rg_inference g + Z.max 0 (lh_now (lw_host w) - start)) duration_max in
   match completion with
   | Err e => Some (Err e, mkRepairing p (rg_messages g) (rg_previous g) (rg_usage g) (rg_cost g) inference, w)
   | Ok c =>
       let response := oc_response c in
       let g := mkRepairing p (rg_messages g) (rg_previous g) (add_tokens (rg_usage g) (rs_usage response))
                  (accumulate_optional_usd_micros (rg_cost g) (from_usd <$> rs_cost_usd response)) inference in
       match schema with
       | None => Some (billed_answer n g c, g, w)
       | Some k =>
           verdict ← validate_response_text k (rs_text response);
           match verdict with
           | Ok _ => Some (billed_answer n g c, g, w)
           | Err error =>
               match m with
               | O => Some (Err (WeOutputSchemaValidation (exhausted_failure_reason (output_retries n))), g, w)
               | S m =>
                   let messages := rg_messages g ++ [mkLlmMessage RoleAssistant (rs_text response); mkLlmMessage RoleUser (repair_message error k (rg_previous g))] in
                   repair_rounds m n schema (mkRepairing (rg_plan g) messages (Some error) (rg_usage g) (rg_cost g) (rg_inference g)) w
               end
           end
       end
   end).
Proof. by destruct m. Qed.

Lemma repair_ends_more n schema p k j m r : repair_ends n schema p k j m r -> repair_ends n schema p k (S j) (S m) r.
Proof. destruct r as [[text [usage|] files last_file t|o]|[]]; cbn; try done. by intros (? & -> & ?). Qed.

Lemma repair_rounds_ok (compiles : is_some routing_validator = true) m n schema p k (g : Repairing) w :
  rg_plan g = plan_at p k -> (k <= length (fp_remaining p))%nat ->
  exists r g' k' j w' events, repair_rounds m n schema g w = Some (r, g', w') /\ rg_plan g' = plan_at p k' /\ (j <= m)%nat
    /\ length (rg_messages g') = (length (rg_messages g) + 2 * j)%nat
    /\ failed_over n p k events k' /\ (k' <= length (fp_remaining p))%nat /\ lw_log w' = lw_log w ++ events /\ repair_ends n schema p k' j m r.
Proof.
  revert k g w. induction (lt_wf m) as [m _ IH]. intros k g w Hg Hk. rewrite repair_rounds_unfold, Hg, plan_current_at. destruct (route_at_ok p k Hk) as [route Hr].
  rewrite Hr. cbn [mbind option_bind]. cbn zeta.
  destruct (complete_one_shot_ok n (rg_messages g) (prompt_response_format <$> schema) p k route w Hr Hk) as (c & k1 & w1 & ev1 & Hc & Hfo & Hk1 & Hl1 & Hend). rewrite Hc. cbn [mbind option_bind].
  destruct c as [c|e].
  2: { destruct Hend as (route1 & Hr1 & err & -> & Hm1 & Hend). eexists _, _, k1, 0%nat, w1, ev1.
       split_and!; [reflexivity|done|lia|cbn; lia|done|done|done|split; [by exists route1|exact Hend]]. }
  destruct Hend as (route1 & Hr1 & response & Hm1 & ->). destruct schema as [kind|].
  2: { eexists _, _, k1, 0%nat, w1, ev1. split_and!; [reflexivity|done|lia|cbn; lia|done|done|done|by apply billed_answer_ends]. }
  cbn [completed_by oc_response]. destruct (validate_total compiles kind (rs_text response)) as [verdict Hv]. rewrite Hv. cbn [mbind option_bind]. destruct verdict as [v|error].
  { eexists _, _, k1, 0%nat, w1, ev1. split_and!; [reflexivity|done|lia|cbn; lia|done|done|done|]. apply billed_answer_ends; [done|done|]. intros ? [= <-]. by exists v. }
  destruct m as [|m].
  { eexists _, _, k1, 0%nat, w1, ev1. split_and!; [reflexivity|done|lia|cbn; lia|done|done|done|]. by cbn. }
  set (g1 := mkRepairing _ _ (Some error) _ _ _).
  destruct (IH m ltac:(lia) k1 g1 w1) as (r & g' & k2 & j & w2 & ev2 & Hrun & Hp & Hj & Hm & Hfo2 & Hk2 & Hl2 & Hend2); [done|done|].
  rewrite Hrun. exists r, g', k2, (S j), w2, (ev1 ++ ev2).
  split_and!; [reflexivity|done|lia| |by eapply failed_over_trans|done|by rewrite Hl2, Hl1, app_assoc|by apply repair_ends_more].
  rewrite Hm. unfold g1. cbn [rg_messages]. rewrite length_app. cbn [length]. lia.
Qed.

(** ** Whole calls *)

Definition is_notice (e : LlmEvent) : bool := match e with LevNotice _ _ _ => true | _ => false end.

Lemma emit_notices_log notices w : exists l, lw_log (emit_fallback_plan_notices notices w) = lw_log w ++ l /\ Forall (fun e => is_notice e = true) l.
Proof.
  unfold emit_fallback_plan_notices. revert w. induction notices as [|x notices IH]; intros w; cbn [foldl]; [exists []; by rewrite app_nil_r|].
  destruct (IH (emit_fallback_plan_notice w x)) as (l & -> & Hl). unfold emit_fallback_plan_notice. case_decide; [by exists l|].
  cbn [lw_emit lw_log]. rewrite <- app_assoc. eexists. split; [reflexivity|]. by constructor.
Qed.

Lemma fallback_plan_start b model provider controls : let p := (fallback_plan b model provider controls).1 in p = plan_at p 0.
Proof. unfold fallback_plan. destruct (ab_fallbacks b !! _); [|done]. by destruct (fallback_routes _ _ _). Qed.

(** The errors before a model is asked: there is no client, or the node's provider, controls
    or schema are not valid. *)
Definition one_shot_refused (b : AgentApiBackend) n w (e : EngineError) : Prop :=
  (exists err, (lh_client (lw_host w)).1 = Some err /\ e = handler_with_source "Failed to create LLM client" err)
  \/ resolve_provider_context (ab_provider_id b) (default (ab_model b) (node_model n)) (node_provider n) = Err e
  \/ effective_request_controls (ab_run_controls b) n = Err e
  \/ parse_node_output_schema n = Err e.

(** The plan a call goes by, and how it ended on it. *)
Definition one_shot_on (b : AgentApiBackend) n (events : list LlmEvent) (r : result CodergenResult EngineError) : Prop :=
  exists provider controls schema k j,
    let model := default (ab_model b) (node_model n) in
    let p := (fallback_plan b model provider controls).1 in
    resolve_provider_context (ab_provider_id b) model (node_provider n) = Ok provider
    /\ effective_request_controls (ab_run_controls b) n = Ok controls
    /\ parse_node_output_schema n = Ok schema /\ failed_over n p 0 events k /\ (k <= length (fp_remaining p))%nat
    /\ Z.of_nat j <= output_retries n /\ repair_ends n schema p k j (Z.to_nat (output_retries n)) r.

Lemma one_shot_ok (compiles : is_some routing_validator = true) b n prompt system_prompt w :
  exists r w' notices events, one_shot b n prompt system_prompt w = Some (r, w')
    /\ lw_log w' = lw_log w ++ notices ++ events /\ Forall (fun e => is_notice e = true) notices
    /\ ((events = [] /\ exists e, r = Err e /\ one_shot_refused b n w e) \/ one_shot_on b n events r).
Proof.
  unfold one_shot, on_host. destruct (lh_client (lw_host w)) as [answer h] eqn:Hclient.
  assert (forall e, one_shot_refused b n w e -> exists r w' notices events, Some (Err e : result CodergenResult EngineError, mkStageWorld h (lw_log w) (lw_notices w)) = Some (r, w')
    /\ lw_log w' = lw_log w ++ notices ++ events /\ Forall (fun e => is_notice e = true) notices
    /\ ((events = [] /\ exists e, r = Err e /\ one_shot_refused b n w e) \/ one_shot_on b n events r)) as Hearly.
  { intros e He. eexists _, _, [], []. split_and!; [reflexivity|by rewrite !app_nil_r|done|left; split; [done|by eexists]]. }
  destruct answer as [e|]; [apply Hearly; left; rewrite Hclient; by eexists|].
  destruct (resolve_provider_context _ _ _) as [provider|e] eqn:Hp; [|by apply Hearly; right; left].
  destruct (effective_request_controls _ n) as [controls|e] eqn:Hc; [|by apply Hearly; right; right; left].
  pose proof (fallback_plan_start b (default (ab_model b) (node_model n)) provider controls) as Hstart.
  destruct (fallback_plan b _ provider controls) as [plan notices] eqn:Hplan. cbn [fst] in Hstart.
  destruct (emit_notices_log notices (mkStageWorld h (lw_log w) (lw_notices w))) as (l & Hl & Hnl). cbn [lw_log] in Hl.
  destruct (parse_node_output_schema n) as [schema|e] eqn:Hs.
  2: { eexists _, _, l, []. split_and!; [reflexivity|by rewrite app_nil_r|done|left; split; [done|]]. eexists. split; [done|]. by right; right; right. }
  set (g := mkRepairing plan _ None _ None 0). set (w1 := emit_fallback_plan_notices _ _) in *.
  destruct (repair_rounds_ok compiles (Z.to_nat (output_retries n)) n schema plan 0 g w1) as (r & g' & k & j & w' & events & Hrun & _ & Hj & _ & Hfo & Hk & Hlog & Hend); [exact Hstart|lia|].
  rewrite Hrun. cbn [mbind option_bind fst snd]. exists r, w', l, events. split_and!; [done|by rewrite Hlog, Hl, app_assoc|done|]. right.
  exists provider, controls, schema, k, j. cbv zeta. rewrite Hplan. cbn [fst]. split_and!; [done..| |done]. assert (0 <= output_retries n) by (unfold output_retries; lia). lia.
Qed.

Lemma fallback_routes_in_order original requested configured : let '(remaining, _) := fallback_routes original requested configured in
  (lr_target <$> remaining) `sublist_of` configured /\ original ∉ (lr_target <$> remaining).
Proof.
  induction configured as [|t configured IH]; cbn [fallback_routes]; [split; [done|by apply not_elem_of_nil]|].
  destruct (fallback_routes original requested configured) as [remaining notices]. destruct IH as [Hs Hn]. case_decide as Ht; [split; [by constructor|done]|].
  destruct (fallback_controls_for_target t requested); [|split; [by constructor|done]]. rewrite fmap_cons. cbn [lr_target]. split; [by constructor|].
  apply not_elem_of_cons. split; [by intros ->|done].
Qed.

Lemma fallback_plan_in_order b model provider controls : let p := (fallback_plan b model provider controls).1 in
  lr_target (fp_original p) = mkTarget provider (mc_canonical provider model)
  /\ (lr_target <$> fp_remaining p) `sublist_of` default [] (ab_fallbacks b !! mc_canonical provider model)
  /\ lr_target (fp_original p) ∉ (lr_target <$> fp_remaining p).
Proof.
  unfold fallback_plan. set (original := mkRoute _ _). destruct (ab_fallbacks b !! mc_canonical provider model) as [configured|].
  - pose proof (fallback_routes_in_order (lr_target original) controls configured) as Hr. destruct (fallback_routes _ _ _) as [remaining notices].
    cbn [fst fp_original fp_remaining]. split; [done|exact Hr].
  - cbn [fst fp_original fp_remaining fmap list_fmap]. split_and!; [done|apply sublist_nil_l|apply not_elem_of_nil].
Qed.


(** A prompt stage settles on what the model said.  It ends; an outcome is the failure of an
    error that is not worth a retry, or the answer of the model with its routing fields, or,
    under a schema, an answer that satisfies it, taken over: the check of the handler
    repeats the one of the backend and cannot fail after it. *)
Theorem prompt_stage_settles (compiles : is_some routing_validator = true) b run n c w :
  exists r w', prompt_execute (Some (api_backend b)) run n c w = Some (r, w') /\
  match r with
  | Err e => True
  | Ok o => (exists e, error_is_retryable e = false /\ o = error_to_fail_outcome e)
            \/ exists text usage t,
                 match parse_node_output_schema n with
                 | Err _ => False
                 | Ok None => o = with_work usage [] t (extract_status_fields text (answered n text)).2
                 | Ok (Some k) => exists v, validate_response_text k text = Some (Ok v) /\ o = with_work usage [] t (apply_validated_output n k v (answered n text))
                 end
  end.
Proof.
  unfold prompt_execute. destruct (if project_memory n then _ else _) as [[docs|e] w1]; [|by eexists _, _].
  destruct (emit_stage_prompt _ run n _ "prompt" w1) as [w2|e]; [|by eexists _, _]. cbn [api_backend cb_one_shot].
  destruct (one_shot_ok compiles b n (with_preamble c n) (match docs with [] => None | _ => Some (str_join (nl +:+ nl) docs) end) w2)
    as (r & w3 & notices & events & Hr & _ & _ & Hend). rewrite Hr. cbn [mbind option_bind fst snd].
  destruct r as [res|e].
  2: { cbn [asked prompt_finish]. eexists _, _. split; [reflexivity|]. destruct (error_is_retryable e) eqn:He; destruct e; try done; left; eexists; by split. }
  destruct Hend as [(_ & e & He & _)|(provider & controls & schema & k & j & _ & _ & Hs & _ & _ & _ & Hend)]; [done|].
  destruct res as [text [usage|] files last_file t|o]; cbn [repair_ends] in Hend; [|done..]. destruct Hend as (_ & Hv & -> & ->).
  cbn [asked prompt_finish]. rewrite Hs. destruct schema as [kind|].
  - destruct (Hv kind eq_refl) as [v Hval]. rewrite Hval. cbn [mbind option_bind]. eexists _, _. split; [reflexivity|]. right. exists text, (Some usage), t, v. done.
  - eexists _, _. split; [reflexivity|]. right. by exists text, (Some usage), t.
Qed.

(** ** Errors of the backend *)

(** What becomes of an error of the model: a cancelled run stays cancelled, an error worth a
    retry goes to the executor, which can repeat the attempt, and any other is the outcome of
    the stage, failed without a retry, with the category and the signature of the error. *)
Theorem model_error_settled e :
  match asked (Err (WeLlm e)) with
  | AkDone (Err e') => e' = WeLlm e /\ llm_retryable e = true /\ classify_sdk_error e = TransientInfra
  | AkDone (Ok o) => llm_retryable e = false /\ status o = Failed false /\ failure_category o = Some (classify_sdk_error e)
                     /\ (failure o ≫= Outcome.signature) = Some (llm_signature_hint e)
  | AkText _ _ _ _ _ => False
  end.
Proof.
  cbn [asked error_is_retryable]. destruct (llm_retryable e) eqn:Hr; [|done]. split_and!; [done..|].
  destruct e as [k d| | | | | | | | |]; [destruct k|..]; done.
Qed.

(** No model is left out because its levels are too far away: it has none. *)
Theorem level_missing_means_none t requested e : fallback_controls_for_target t requested = FcNoNearbyReasoningLevel e ->
  rc_reasoning_effort requested = Some e /\ mc_offers (ft_provider t) (ft_model t) = true
  /\ (mc_efforts (ft_provider t) (ft_model t) = None \/ mc_efforts (ft_provider t) (ft_model t) = Some []).
Proof.
  unfold fallback_controls_for_target. destruct (rc_reasoning_effort requested) as [e'|]; [|done]. destruct (mc_offers _ _); [|done].
  destruct (mc_efforts _ _) as [levels|]; cbn [mbind option_bind]; [|intros [= ->]; eauto].
  destruct (closest_supported e' levels) eqn:Hc; [done|]. intros [= ->]. apply closest_supported_None in Hc as ->. eauto.
Qed.

(** ** Where an agent may leave its answer *)

Definition routing_in (text : string) : option Value := find_map routing_value (reverse (find_json_objects text)).

Lemma extract_routing_in text (o : Outcome Usage) :
  extract_status_fields text o = match routing_in text with Some v => (true, apply_routing_fields v o) | None => (false, o) end.
Proof. reflexivity. Qed.

(** The object that ends the file written last. *)
Definition last_object (last_file : option string) w : option string :=
  match last_file with Some path => (read_last_file_routing_json path w).1 | None => None end.

(** The routing of an agent without a schema is taken from the first place that has any: its
    answer, then the status file, then the object that ends the file it wrote last; when no
    place has, the outcome stays as it was. *)
Theorem agent_routing_first_found text last_file (o : Outcome Usage) w :
  let '(status_file, w1) := on_host (lh_read_file "status.json") w in
  (extract_agent_status text last_file o w).1
  = match find_map routing_in (text :: option_list status_file ++ option_list (last_object last_file w1)) with
    | Some v => apply_routing_fields v o
    | None => o
    end.
Proof.
  unfold extract_agent_status. rewrite !extract_routing_in. destruct (on_host (lh_read_file "status.json") w) as [status_file w1].
  cbn [find_map]. destruct (routing_in text) as [v|]; [done|].
  assert (forall o' : Outcome Usage, (match last_file with
      | Some path => match read_last_file_routing_json path w1 with
                     | (Some json, w2) => ((extract_status_fields json o').2, w2)
                     | (None, w2) => (o', w2)
                     end
      | None => (o', w1)
      end).1 = match find_map routing_in (option_list (last_object last_file w1)) with Some v => apply_routing_fields v o' | None => o' end) as Hlast.
  { intros o'. destruct last_file as [path|]; [|done]. cbn [last_object]. destruct (read_last_file_routing_json path w1) as [[json|] w2]; [|done].
    rewrite extract_routing_in. change (option_list (fst (Some json, w2))) with [json]. cbn [find_map]. by destruct (routing_in json). }
  destruct status_file as [json|]; [|apply Hlast]. rewrite extract_routing_in. change (option_list (Some json)) with [json]. cbn [app find_map]. destruct (routing_in json) as [v|]; [done|apply Hlast].
Qed.
End failover.

(** ** Witnesses *)

Module LlmStageRuns.

Definition verdict_json : Value := JObject [("outcome", JString "succeeded")].
Definition verdict_text : string := json_text AnswerRuns.digits verdict_json.

#[local] Instance run_parser : JsonText := fun s => if String.eqb s verdict_text then Ok verdict_json else Err "expected value".
#[local] Instance run_display : JsonDisplay := {| number_to_string := AnswerRuns.digits; compound_to_string := json_text AnswerRuns.digits |}.
#[local] Instance run_schemas : JsonSchemas :=
  {| Validator := unit; validator_for := fun _ => Ok tt; iter_errors := fun _ _ => []; location_join := fun p k => p +:+ "/" +:+ k; json_pointer := fun _ _ => None |}.
#[local] Instance run_replace : RegexReplace := fun _ s _ => s.
#[local] Instance run_text : ErrorText := {| debug_str := fun s => s; regex_error := fun s => s |}.
#[local] Instance run_catalog : ModelCatalog := {|
  mc_provider := fun p => if str_mem p ["anthropic"; "openai"] then Some p else None;
  mc_offers := fun _ _ => true;
  mc_efforts := fun _ m => if String.eqb m "mute" then Some [] else Some [EffLow; EffHigh];
  mc_max_output := fun _ _ => Some 4096;
  mc_select := fun _ => Err SeUnknownSelector;
  mc_canonical := fun _ m => m;
  mc_billing_facts := fun _ _ => Some OpenAiFacts;
  mc_pricing := fun _ => None
|}.

(** A client with a list of answers. *)
#[local] Instance run_host : LlmHost (list (result LlmResponse LlmError)) := {|
  lh_client := fun h => (None, h);
  lh_complete := fun _ h => match h with [] => (Err (LeNetwork "gone" []), []) | r :: h => (r, h) end;
  lh_now := fun h => - Z.of_nat (length h);
  lh_memory := fun h => (Ok [], h);
  lh_read_file := fun _ h => (None, h);
  lh_agent_run := fun _ _ _ h => (Err WeCancelled, h)
|}.

Definition backend : AgentApiBackend :=
  mkApiBackend "opus" "anthropic" {[ "opus" := [mkTarget "anthropic" "opus"; mkTarget "openai" "mute"; mkTarget "openai" "sol"] ]} (mkRunControls (Some "medium") None).
Definition ask : Node := mkNode "ask" {[ "output_schema" := AString "routing" ]} [].

(** The model answers without an object, is overloaded when asked to repair it, and the fallback
    answers. *)
Definition overloaded : LlmError := LeProvider PkServer (ProviderErrorDetail_new "overloaded" "anthropic").
Definition answers : list (result LlmResponse LlmError) :=
  [Ok (mkResponse "Done." (mkTokens 100 10 0 0 0) None); Err overloaded; Ok (mkResponse verdict_text (mkTokens 200 20 0 0 0) None)].
Definition start : StageWorld (list (result LlmResponse LlmError)) := mkStageWorld answers [] ∅.

Definition shot := one_shot backend ask "Is it done?" None start.

Lemma routing_compiles : is_some (@routing_validator run_schemas) = true.
Proof. vm_compute. reflexivity. Defined.


Lemma prompt_stage_settles_witness : exists o w', prompt_execute (Some (api_backend backend)) (mkRunLlm "anthropic" "opus") ask ∅ start = Some (Ok o, w') /\ status o = Succeeded.
Proof.
  destruct (prompt_stage_settles (H := list (result LlmResponse LlmError)) routing_compiles backend (mkRunLlm "anthropic" "opus") ask ∅ start) as (r & w' & Hr & _).
  rewrite Hr. vm_compute in Hr. injection Hr as <- <-. by eexists _, _.
Defined.

(** The tokens of the first answer, which the requested model gave, are billed to the fallback
    that repaired it; and the event of the answer names the model of the one and the
    provider of the other. *)
Theorem repair_bills_last_route :
  match prompt_execute (Some (api_backend backend)) (mkRunLlm "anthropic" "opus") ask ∅ start with
  | Some (Ok o, w) =>
      (fun u => (bu_model u, bu_tokens u)) <$> usage o = Some (mkModelRef "openai" "sol" None, mkTokens 300 30 0 0 0)
      /\ exists u, last (lw_log w) = Some (LevPromptCompleted "ask" verdict_text "sol" "anthropic" (Some u))
  | _ => False
  end.
Proof. vm_compute. split; [reflexivity|]. by eexists. Qed.

Lemma level_missing_means_none_witness : mc_efforts "openai" "mute" = Some [].
Proof.
  destruct (level_missing_means_none (mkTarget "openai" "mute") (mkControls (Some EffHigh) None) EffHigh) as (_ & _ & [?|?]); [reflexivity|discriminate|done].
Defined.
End LlmStageRuns.
