(* ===== verification/Handlers.v ===== *)
(** * The registry of handlers, and the handlers of commands, joins, pauses and child workflows

    fabro-workflow/src/handler/mod.rs (the trait, the registry and the built-in handlers),
    start.rs, exit.rs, conditional.rs, wait.rs, fan_in.rs, command.rs with
    src/command_log.rs, and manager_loop.rs.  Prompt and agent stages are those of LlmStages.v;
    human gates and parallel nodes, modelled in Human.v and ParallelRuns.v on the world of the
    lifecycle, enter the built-in registry as given handlers.

    A handler works on a [StageWorld] and leaves the context it is given alone: what it
    changes is in the [context_updates] of its outcome.  [None] is the end of the fuel of the
    resolution of references. *)

From S2P Require Import Prelude RustStr RustNum DecText GraphTypes Context Outcome Condition CondFacts Failure Workflow Lint LintNode ValidateFacts EventKeys Blobs Artifact ArtifactFacts.
From S2P Require Import StageIds Timing Billing Events Tools CircuitBreaker Preamble Fidelity EventLife Interviews Parallel ParallelRuns LlmErrors OutputSchema LlmStages.
Local Open Scope string_scope.
Local Open Scope list_scope.
Local Open Scope Z_scope.

(** ** The registry *)

Inductive NodeTimeoutPolicy := ExecutorEnforced | HandlerManaged.

Record HandlerRegistry (A : Type) := mkRegistry { hr_handlers : gmap string A; hr_default : A }.
Arguments mkRegistry {A}.
Arguments hr_handlers {A}.
Arguments hr_default {A}.

Definition registry_new {A} (default_handler : A) : HandlerRegistry A := mkRegistry ∅ default_handler.
Definition registry_register {A} (type_string : string) (handler : A) (r : HandlerRegistry A) : HandlerRegistry A :=
  mkRegistry (<[type_string := handler]> (hr_handlers r)) (hr_default r).

Definition resolve {A} (r : HandlerRegistry A) (n : Node) : A :=
  match t ← node_type n; hr_handlers r !! t with
  | Some handler => handler
  | None =>
      match t ← shape_to_handler_type (node_shape n); hr_handlers r !! t with
      | Some handler => handler
      | None => hr_default r
      end
  end.

(** The payload of a panic: a [&str] or a [String], or something else. *)
Definition format_panic_message (payload : option string) : string :=
  match payload with
  | Some s => "handler panicked: " +:+ s
  | None => "handler panicked"
  end.

(** ** The host *)

(** What a sandbox is asked to run, and its answer.  [xs_exit_code] is an [i32]. *)
Record ExecRequest := mkExec { xr_command : string; xr_timeout_ms : option Z; xr_env : option (gmap string string); xr_stdin : option string }.
Record ExecStreaming := mkStreaming { xs_exit_code : option Z; xs_termination : CommandTermination; xs_duration_ms : Z; xs_live_streaming : bool }.

(** A workflow of the bundle that a run was started with. *)
Inductive WorkflowInput (B : Type) := WiDotSource (source : string) | WiBundled (w : B) | WiPath (path : string).
Arguments WiDotSource {B}.
Arguments WiBundled {B}.
Arguments WiPath {B}.

(** How a child engine ended: with its outcome and final context, with an error, or in a
    panic of its task. *)
Inductive ChildEnd := CeDone (o : Outcome Usage) (final_context : Context) | CeError (e : EngineError) | CePanicked (text : string).

(** The environment of a stage; the log file of a command, whose writes go to its end;
    running a command, whose output is handed to the callback; the clock; quoting for the
    shell ([shlex]); the percent-encoding of a path segment; what serde says of a value that is
    not a list of results; and the engine of a child, of
    which [ch_select] is the race of its end against sleeping. *)
Class HandlerHost (H : Type) := {
  #[global] hh_artifacts :: ArtifactHost H;
  ch_env : H -> result (gmap string string) ErrChain * H;
  ch_write_all : string -> string -> H -> result unit string * H;
  ch_flush : string -> H -> result unit string * H;
  ch_read : string -> H -> result string string * H;
  ch_remove : string -> H -> result unit (option string) * H;
  ch_exec : ExecRequest -> (string -> H -> result unit string * H) -> H -> result ExecStreaming ErrChain * H;
  ch_sleep : Duration -> H -> H;
  ch_try_quote : string -> option string;
  ch_encode_segment : string -> string;
  ch_serde_error : Value -> string;
  Bundled : Type;
  bundled_path : Bundled -> string;
  ch_bundle : option (string -> string -> option Bundled);
  ch_workflow_path : option string;
  ch_static_reference : string -> option string;
  ch_validate_child : WorkflowInput Bundled -> result Graph EngineError;
  ch_create_dir : string -> H -> H;
  ch_spawn : Graph -> option string -> string -> Context -> H -> H;
  ch_select : Duration -> H -> option ChildEnd * H;
  ch_cancel_child : H -> H;
  ch_await_child : Duration -> H -> H
}.

Definition insert_update {M} (key : string) (v : Value) (o : Outcome M) : Outcome M := with_context_updates (fun m => <[key := v]> m) o.
Definition with_timing {M} (t : StageTiming) (o : Outcome M) : Outcome M :=
  mkOutcome (status o) (preferred_label o) (suggested_next_ids o) (context_updates o) (jump_to_node o) (notes o) (failure o) (usage o) (files_touched o) (Some t).

Section handlers.
Context {H : Type} `{!LlmHost H} `{!HandlerHost H} `{!ModelCatalog} `{!JsonText} `{!JsonDisplay} `{!JsonSchemas} `{!RegexReplace} `{!Regex} `{!ErrorText} `{BlobHashes} `{JsonCodec}.
Context (read_only : bool) (run_dir : string) (fuel : nat).
Implicit Types (w : StageWorld H) (n : Node) (c : Context).

Abbreviation Answer := (result (Outcome Usage) EngineError).

Definition on_state (f : H -> H) w : StageWorld H := mkStageWorld (f (lw_host w)) (lw_log w) (lw_notices w).

(** The trait [Handler]. *)
Record Handler := mkHandler {
  hd_execute : Node -> Context -> StageWorld H -> option (Answer * StageWorld H);
  hd_simulate : Node -> Context -> StageWorld H -> option (Answer * StageWorld H);
  hd_timeout_policy : Node -> NodeTimeoutPolicy
}.

(** Its provided methods. *)
Definition default_simulate n c w : option (Answer * StageWorld H) := Some (Ok (simulated (node_id n)), w).
Definition default_should_retry (e : EngineError) : bool := error_is_retryable e.
Definition default_timeout_policy n : NodeTimeoutPolicy := ExecutorEnforced.

Definition dispatch_to (dry_run : bool) (h : Handler) n c w : option (Answer * StageWorld H) :=
  if dry_run then hd_simulate h n c w else hd_execute h n c w.

(** ** Start, exit, conditional and wait nodes *)

Definition start_execute n c w : option (Answer * StageWorld H) := Some (Ok outcome_success, w).
Definition exit_execute n c w : option (Answer * StageWorld H) := Some (Ok outcome_success, w).
Definition conditional_execute n c w : option (Answer * StageWorld H) :=
  Some (Ok (with_notes (Some ("Conditional node evaluated: " +:+ node_id n)) outcome_success), w).

Definition wait_execute n c w : option (Answer * StageWorld H) :=
  match attr_duration (node_attrs n) "duration" with
  | None => Some (Err (WeValidation ("wait node " +:+ debug_str (node_id n) +:+ " is missing a valid `duration` attribute")), w)
  | Some duration => Some (Ok outcome_success, on_state (ch_sleep duration) w)
  end.

(** ** Fan-in *)

(** [serde_json::from_value] of one result: an object, whose unknown fields are ignored, or the
    list of the fields in their order. *)
Definition BRANCH_FIELDS : list string := ["id"; "index"; "item_label"; "status"; "context_updates"].
Definition branch_fields (v : Value) : option (list (string * Value)) :=
  match v with
  | JObject fields => Some fields
  | JArray l => if Nat.leb (length l) (length BRANCH_FIELDS) then Some (zip BRANCH_FIELDS l) else None
  | _ => None
  end.

(** An [Option] field: missing and null are [None]. *)
Definition optional_field {A} (read : Value -> option A) (key : string) (fields : list (string * Value)) : option (option A) :=
  match assoc key fields with
  | None | Some JNull => Some None
  | Some v => Some <$> read v
  end.

Definition branch_result_from_value (v : Value) : option ParallelBranchResult :=
  fields ← branch_fields v;
  id ← assoc "id" fields ≫= value_as_str;
  index ← optional_field value_as_u64 "index" fields;
  label ← optional_field value_as_str "item_label" fields;
  text ← assoc "status" fields ≫= value_as_str;
  st ← Prelude.result_ok (StageOutcome_from_str text);
  match assoc "context_updates" fields with
  | None => Some (mkBranchResult id index label st [])
  | Some (JObject updates) => Some (mkBranchResult id index label st updates)
  | Some _ => None
  end.

Definition branch_results_from_value (v : Value) : option (list ParallelBranchResult) :=
  match v with JArray l => mapM branch_result_from_value l | _ => None end.

Definition validated_branch_count c : result Z EngineError :=
  match ctx_get c PARALLEL_RESULTS with
  | None => Err (error_handler "No parallel results to join")
  | Some value =>
      match branch_results_from_value value with
      | None => Err (handler_with_source "Invalid parallel results" [mkLink (ch_serde_error value) None])
      | Some results => Ok (Z.of_nat (length results))
      end
  end.

Definition joined_outcome (branch_count : Z) (simulated : bool) : Outcome Usage :=
  with_notes (Some ((if simulated then "[Simulated] " else "") +:+ "Joined " +:+ Z_to_string branch_count +:+ " parallel "
                    +:+ (if branch_count =? 1 then "branch" else "branches"))) outcome_success.

Definition run_join (backend : option (CodergenBackend (H := H))) (run : RunLlm) (simulated : bool) n c w : option (Answer * StageWorld H) :=
  match validated_branch_count c with
  | Err e => Some (Err e, w)
  | Ok branch_count =>
      if is_some_and (fun prompt => negb (str_is_empty (trim prompt))) (node_prompt n)
      then if simulated then Some (Ok (simulate_llm_handler n), w) else prompt_execute backend run n c w
      else Some (Ok (joined_outcome branch_count simulated), w)
  end.

(** ** Commands *)

Definition timeout_ms n : option Z := millis_u64 <$> node_timeout n.
Definition non_blank_script n : option string := opt_filter (fun script => negb (str_is_empty (trim script))) (node_script n).
Definition MAX_STDIN_BYTES : Z := 30 * 1024 * 1024.

Definition validated_stdin_source n : result (option string) string :=
  match context_key_attr n "stdin_source" with
  | KeyAbsent => Ok None
  | KeyInvalid => Err ("Node '" +:+ node_id n +:+ "' requires 'stdin_source' to be a non-empty string")
  | KeyPresent source => Ok (Some source)
  end.

Definition encode_stdin_value (v : Value) : result string string :=
  match v with JString text => Ok text | v => json_to_vec v end.

(** The error is the outcome of the stage. *)
Definition resolve_stdin n c w : option (result (option string) (Outcome Usage) * StageWorld H) :=
  match validated_stdin_source n with
  | Err reason => Some (Err (fail_deterministic reason), w)
  | Ok None => Some (Ok None, w)
  | Ok (Some source) =>
      r ← resolve_flat_context_value fuel c source (lw_host w);
      let w := on_state (fun _ => r.2) w in
      let failed reason := Some (Err (fail_deterministic ("stdin_source '" +:+ source +:+ "' " +:+ reason)), w) in
      match r.1 with
      | Ok None => failed "was not found in workflow context"
      | Err e => failed ("could not be resolved: " +:+ artifact_error_to_string e)
      | Ok (Some value) =>
          match encode_stdin_value value with
          | Err e => failed ("could not be serialized: " +:+ e)
          | Ok stdin =>
              if MAX_STDIN_BYTES <? str_len stdin
              then failed ("resolved to " +:+ Z_to_string (str_len stdin) +:+ " bytes, above the limit of " +:+ Z_to_string MAX_STDIN_BYTES
                           +:+ ". Reduce the value in the node that produces it, or pass it through a file instead.")
              else Some (Ok (Some stdin), w)
          end
      end
  end.

Definition tail_bytes (text : string) (max_bytes : nat) : string :=
  if Nat.leb (String.length text) max_bytes then text
  else str_drop (ceil_char_boundary text (String.length text - max_bytes)) text.

Definition append_output_tail (reason output : string) : string :=
  let output_tail := tail_bytes output 4096 in
  if str_is_empty (trim output_tail) then reason else reason +:+ nl +:+ nl +:+ "## output" +:+ nl +:+ output_tail.

Definition schema_validation_failure_reason (script : string) (error : StructuredOutputError) (output_text : string) : string :=
  append_output_tail
    (foldl (fun reason message => reason +:+ nl +:+ "- " +:+ message) ("Script output failed output_schema validation: " +:+ script) (error_messages error))
    output_text.

Definition shell_quote (s : string) : string :=
  match ch_try_quote s with
  | Some quoted => quoted
  | None => "'" +:+ str_join "'\''" (split_char "'" s) +:+ "'"
  end.

(** *** The log of a command *)

Definition pad4 (z : Z) : string := zeros (4 - String.length (Z_to_string z)) +:+ Z_to_string z.
Definition stage_storage_segment (id : StageId) : string := ch_encode_segment (sid_node id) +:+ "@" +:+ pad4 (sid_visit id).

Definition command_log_dir (id : StageId) : string := path_join (path_join (runtime_dir run_dir) "stages") (stage_storage_segment id).
Definition command_log_path (id : StageId) : string := path_join (command_log_dir id) "output.log".

Definition recorder_create (id : StageId) (h : H) : result unit EngineError * H :=
  match fs_create_dir_all (command_log_dir id) h with
  | (Err e, h) => (Err (WeIo ("creating command log directory " +:+ command_log_dir id +:+ ": " +:+ e)), h)
  | (Ok _, h) =>
      match fs_open_truncate (command_log_path id) h with
      | (Err e, h) => (Err (WeIo ("opening command log " +:+ command_log_path id +:+ ": " +:+ e)), h)
      | (Ok _, h) => (Ok tt, h)
      end
  end.

(** [append], with its error as the callback of the sandbox reports it. *)
Definition recorder_append (id : StageId) (bytes : string) (h : H) : result unit string * H :=
  if str_is_empty bytes then (Ok tt, h)
  else match ch_write_all (command_log_path id) bytes h with
       | (Ok _, h) => (Ok tt, h)
       | (Err e, h) => (Err (EngineError_to_string (WeIo ("writing command output log failed: " +:+ e))), h)
       end.

Definition flush_all (id : StageId) (h : H) : result unit EngineError * H :=
  match ch_flush (command_log_path id) h with
  | (Ok _, h) => (Ok tt, h)
  | (Err e, h) => (Err (WeIo ("flushing command output log failed: " +:+ e)), h)
  end.

Definition recorder_discard (id : StageId) (h : H) : result unit EngineError * H :=
  match flush_all id h with
  | (Err e, h) => (Err e, h)
  | (Ok _, h) =>
      match ch_remove (command_log_path id) h with
      | (Ok _, h) | (Err None, h) => (Ok tt, h)
      | (Err (Some e), h) => (Err (WeIo ("removing command log " +:+ command_log_path id +:+ ": " +:+ e)), h)
      end
  end.

Definition write_json_string_blob (text : string) (h : H) : result string EngineError * H :=
  match json_to_vec (JString text) with
  | Err e => (Err (error_engine_with_source "command log JSON serialization failed" [mkLink e None]), h)
  | Ok bytes =>
      match run_write_blob read_only bytes h with
      | (Err e, h) => (Err (error_engine_with_source "command log blob write failed" [mkLink (blob_error_to_string e) None]), h)
      | (Ok blob_hash, h) => (Ok (format_blob_ref blob_hash), h)
      end
  end.

Definition read_json_string_blob (blob_ref : string) (h : H) : result (option string) EngineError * H :=
  match parse_blob_ref blob_ref with
  | None => (Ok None, h)
  | Some blob_hash =>
      match run_read_blob blob_hash h with
      | (Err e, h) => (Err (error_engine_with_source "command log blob read failed" [mkLink (blob_error_to_string e) None]), h)
      | (Ok None, h) => (Err (error_engine ("command log blob missing: " +:+ hash_to_string blob_hash)), h)
      | (Ok (Some bytes), h) =>
          match json_string_from_slice bytes with
          | Ok text => (Ok (Some text), h)
          | Err e => (Err (error_engine_with_source "command log blob was not a JSON string" [mkLink e None]), h)
          end
      end
  end.

Record FinalizedCommandLogs := mkFinalized { fl_output_ref : string; fl_output_bytes : Z; fl_output_text : string }.

Definition recorder_finalize (id : StageId) (h : H) : result FinalizedCommandLogs EngineError * H :=
  match flush_all id h with
  | (Err e, h) => (Err e, h)
  | (Ok _, h) =>
      match ch_read (command_log_path id) h with
      | (Err e, h) => (Err (WeIo ("reading command log " +:+ command_log_path id +:+ ": " +:+ e)), h)
      | (Ok bytes, h) =>
          let text := from_utf8_lossy bytes in
          match write_json_string_blob text h with
          | (Err e, h) => (Err e, h)
          | (Ok output_ref, h) => (Ok (mkFinalized output_ref (str_len bytes) text), h)
          end
      end
  end.

(** *** The handler *)

Definition command_simulate n c w : option (Answer * StageWorld H) :=
  match validated_stdin_source n with
  | Err reason => Some (Ok (fail_deterministic reason), w)
  | Ok _ =>
      match non_blank_script n with
      | None => Some (Ok (fail_classify "No script specified"), w)
      | Some script =>
          Some (Ok (insert_update COMMAND_OUTPUT (JString "") (with_notes (Some ("[Simulated] Command skipped: " +:+ script)) (simulated (node_id n)))), w)
      end
  end.

Definition command_language n : string := default "shell" (node_str_attr n "language").

(** The answer, once the command has ended and its output is stored. *)
Definition command_answer n (script : string) (schema : option OutputSchemaKind) (timeout : Z) (x : ExecStreaming) (logs : FinalizedCommandLogs) : option Answer :=
  let text := fl_output_text logs in
  let finished o := with_timing (StageTiming_active_only 0 (xs_duration_ms x)) (insert_update COMMAND_OUTPUT (JString (fl_output_ref logs)) o) in
  match xs_termination x with
  | TermTimedOut => Some (Err (error_handler (append_output_tail ("Script timed out after " +:+ Z_to_string timeout +:+ "ms: " +:+ script) text)))
  | TermCancelled => Some (Err (error_handler (append_output_tail ("Script cancelled: " +:+ script) text)))
  | TermExited =>
      if bool_decide (xs_exit_code x = Some 0) then
        let completed := with_notes (Some ("Script completed: " +:+ script)) outcome_success in
        match schema with
        | None => Some (Ok (finished completed))
        | Some k =>
            verdict ← validate_response_text k text;
            match verdict with
            | Err error => Some (Ok (finished (fail_deterministic (schema_validation_failure_reason script error text))))
            | Ok v => Some (Ok (apply_validated_output n k v (finished completed)))
            end
        end
      else
        Some (Ok (finished (fail_classify (append_output_tail ("Script failed with exit code: " +:+ Z_to_string (default (-1) (xs_exit_code x))) text))))
  end.

(** Everything after the checks. *)
Definition command_run n c (script language : string) (stdin : option string) (schema : option OutputSchemaKind) w : option (Answer * StageWorld H) :=
  let command := "exec 2>&1" +:+ nl +:+ (if String.eqb language "python" then "python3 -c " +:+ shell_quote script else script) in
  let id := scope_stage_id (scope_for_handler c (node_id n)) in
  let w := lw_emit (LevCommandStarted (node_id n) script command language (timeout_ms n)) w in
  let timeout := default 600000 (timeout_ms n) in
  match on_host ch_env w with
  | (Err e, w) => Some (Err (handler_with_source "Failed to resolve stage env" e), w)
  | (Ok env, w) =>
      match on_host (recorder_create id) w with
      | (Err e, w) => Some (Err e, w)
      | (Ok _, w) =>
          let request := mkExec command (Some timeout) (if bool_decide (env = ∅) then None else Some env) stdin in
          match on_host (ch_exec request (recorder_append id)) w with
          | (Err e, w) =>
              match on_host (recorder_discard id) w with
              | (Err e, w) => Some (Err e, w)
              | (Ok _, w) => Some (Err (handler_with_source "Failed to spawn script" e), w)
              end
          | (Ok x, w) =>
              match on_host (recorder_finalize id) w with
              | (Err e, w) => Some (Err e, w)
              | (Ok logs, w) =>
                  let w := lw_emit (LevCommandCompleted (node_id n) (fl_output_ref logs) (xs_exit_code x) (xs_duration_ms x) (xs_termination x)
                                      (fl_output_bytes logs) (xs_live_streaming x)) w in
                  answer ← command_answer n script schema timeout x logs;
                  Some (answer, w)
              end
          end
      end
  end.

Definition command_execute n c w : option (Answer * StageWorld H) :=
  match non_blank_script n with
  | None => Some (Ok (fail_classify "No script specified"), w)
  | Some script =>
      let language := command_language n in
      if (negb (String.eqb language "shell") && negb (String.eqb language "python"))%bool
      then Some (Ok (fail_classify ("Invalid language: " +:+ debug_str language +:+ " (expected " +:+ dq +:+ "shell" +:+ dq +:+ " or " +:+ dq +:+ "python" +:+ dq +:+ ")")), w)
      else
        r ← resolve_stdin n c w;
        match r.1 with
        | Err o => Some (Ok o, r.2)
        | Ok stdin =>
            match parse_node_output_schema n with
            | Err e => Some (Err e, r.2)
            | Ok schema => command_run n c script language stdin schema r.2
            end
        end
  end.

(** ** Child workflows *)

Definition manager_parse_duration_str (s : string) : Duration :=
  let s := trim s in
  let seconds :=
    match strip_suffix "s" s with
    | Some secs =>
        match strip_suffix "m" secs with
        | Some ms => from_millis <$> parse_u64 ms
        | None => from_secs <$> parse_u64 secs
        end
    | None => None
    end in
  let minutes := mins ← strip_suffix "m" s; val ← parse_u64 mins; Some (from_secs ((val * 60) mod 2 ^ 64)) in
  default (from_secs 45) (or_else seconds minutes).

Record ParsedChildWorkflow := mkParsed { pc_graph : Graph; pc_workflow_path : option string }.

Definition parse_child_graph n : result ParsedChildWorkflow EngineError :=
  match node_str_attr n "stack.child_dot_source" with
  | Some dot =>
      match ch_validate_child (WiDotSource dot) with
      | Err e => Err e
      | Ok graph => Ok (mkParsed graph None)
      end
  | None =>
      match node_str_attr n "stack.child_workflow" with
      | None => Err (error_handler "No child workflow source")
      | Some path =>
          match ch_static_reference path with
          | Some error => Err (WeValidation error)
          | None =>
              match match ch_bundle, ch_workflow_path with
                    | Some resolve_child, Some current =>
                        match resolve_child current path with
                        | Some workflow => Ok (WiBundled workflow)
                        | None => Err (error_handler ("child workflow is not present in the persisted bundle: " +:+ path))
                        end
                    | Some _, None => Err (error_engine "workflow bundle is missing the current workflow path")
                    | None, _ => Ok (WiPath path)
                    end with
              | Err e => Err e
              | Ok workflow =>
                  let workflow_path := match workflow with WiBundled workflow => Some (bundled_path workflow) | WiPath _ | WiDotSource _ => None end in
                  match ch_validate_child workflow with
                  | Err e => Err e
                  | Ok graph => Ok (mkParsed graph workflow_path)
                  end
              end
          end
      end
  end.

Definition poll_interval n : Duration :=
  match attr_duration (node_attrs n) "manager.poll_interval" with
  | Some d => d
  | None => manager_parse_duration_str (default "45s" (node_str_attr n "manager.poll_interval"))
  end.

Definition max_cycles n : Z := Z.max 1 (default 1000 (in_bounds 0 u64_max (default 1000 (node_int_attr n "manager.max_cycles")))).
Definition stop_condition n : string := default "" (node_str_attr n "manager.stop_condition").

Definition child_context c : Context :=
  let parent_preamble := get_string c CURRENT_PREAMBLE "" in
  if str_is_empty parent_preamble then context_fork c else ctx_set INTERNAL_PARENT_PREAMBLE (JString parent_preamble) (context_fork c).

Definition child_outcome c (cycle : Z) (e : ChildEnd) : Outcome Usage :=
  match e with
  | CeError e => fail_classify ("Child engine error: " +:+ EngineError_to_string e)
  | CePanicked e => fail_classify ("Child task panicked: " +:+ e)
  | CeDone o final_context =>
      let diff := context_diff_public (context_snapshot c) (context_snapshot final_context) in
      mkOutcome (status o) None [] diff None (Some ("Child completed at cycle " +:+ Z_to_string cycle))
        (if is_failure (status o) then failure o else None) None [] None
  end.

(** [CHILD_WIND_DOWN] is the moment the child is given. *)
Definition CHILD_WIND_DOWN : Duration := from_millis 100.
Definition stop_child w : StageWorld H := on_state (fun h => ch_await_child CHILD_WIND_DOWN (ch_cancel_child h)) w.

Definition stop_requested n c : bool :=
  (negb (str_is_empty (stop_condition n)) && evaluate_condition (stop_condition n) (outcome_success (M := Usage)) c)%bool.

(** [for cycle in 1..=max_cycles], with the cycles left as [remaining]. *)
Fixpoint poll_child n c (remaining : nat) (cycle : Z) w : Outcome Usage * StageWorld H :=
  match remaining with
  | O => (fail_classify ("Max cycles (" +:+ Z_to_string (max_cycles n) +:+ ") exceeded for manager loop node: " +:+ node_id n), stop_child w)
  | S remaining =>
      match on_host (ch_select (poll_interval n)) w with
      | (Some e, w) => (child_outcome c cycle e, w)
      | (None, w) =>
          if stop_requested n c
          then (with_notes (Some ("Stop condition satisfied at cycle " +:+ Z_to_string cycle)) outcome_success, stop_child w)
          else poll_child n c remaining (cycle + 1) w
      end
  end.

Definition child_logs n c : string :=
  path_join run_dir ("stages/" +:+ node_id n +:+ "@" +:+ Z_to_string (execution_ordinal_from_context c) +:+ "/child").

Definition start_child n c (p : ParsedChildWorkflow) w : StageWorld H :=
  on_state (fun h => ch_spawn (pc_graph p) (pc_workflow_path p) (child_logs n c) (child_context c) (ch_create_dir (child_logs n c) h)) w.

Definition subworkflow_execute n c w : option (Answer * StageWorld H) :=
  match parse_child_graph n with
  | Err e => Some (Ok (fail_classify ("Failed to parse child pipeline: " +:+ EngineError_to_string e)), w)
  | Ok p =>
      let '(o, w) := poll_child n c (Z.to_nat (max_cycles n)) 1 (start_child n c p w) in
      Some (Ok o, w)
  end.

(** ** The built-in handlers *)

Context (backend : option (CodergenBackend (H := H))) (backend_policy : Node -> NodeTimeoutPolicy) (run : RunLlm) (run_id_error : Context -> option EngineError).

Definition simulate_llm n c w : option (Answer * StageWorld H) := Some (Ok (simulate_llm_handler n), w).

Definition agent_handler : Handler :=
  mkHandler (fun n c w => agent_execute backend run (run_id_error c) n c w) simulate_llm
    (fun n => match backend with Some _ => backend_policy n | None => ExecutorEnforced end).
Definition prompt_handler : Handler := mkHandler (prompt_execute backend run) simulate_llm default_timeout_policy.
Definition start_handler : Handler := mkHandler start_execute default_simulate default_timeout_policy.
Definition exit_handler : Handler := mkHandler exit_execute default_simulate default_timeout_policy.
Definition conditional_handler : Handler := mkHandler conditional_execute default_simulate default_timeout_policy.
Definition wait_handler : Handler := mkHandler wait_execute default_simulate default_timeout_policy.
Definition command_handler : Handler := mkHandler command_execute command_simulate (fun _ => HandlerManaged).
Definition fan_in_handler : Handler := mkHandler (run_join backend run false) (run_join backend run true) default_timeout_policy.
Definition subworkflow_handler : Handler := mkHandler subworkflow_execute default_simulate default_timeout_policy.

Definition default_registry (human_handler parallel_handler : Handler) : HandlerRegistry Handler :=
  foldl (fun r '(type_string, handler) => registry_register type_string handler r) (registry_new agent_handler)
    [("start", start_handler); ("exit", exit_handler); ("agent", agent_handler); ("prompt", prompt_handler);
     ("conditional", conditional_handler); ("human", human_handler); ("command", command_handler); ("tool", command_handler);
     ("parallel", parallel_handler); ("parallel.fan_in", fan_in_handler); ("stack.manager_loop", subworkflow_handler); ("wait", wait_handler)].
End handlers.

(** ** Choosing a handler *)

Lemma register_all {A} (entries : list (string * A)) (r : HandlerRegistry A) t :
  hr_handlers (foldl (fun r '(type_string, handler) => registry_register type_string handler r) r entries) !! t
  = match assoc t (rev entries) with Some h => Some h | None => hr_handlers r !! t end.
Proof.
  revert r. induction entries as [|[k h] entries IH] using rev_ind; intros r; [done|].
  rewrite foldl_app, rev_app_distr. cbn [foldl rev app assoc]. cbn [hr_handlers registry_register].
  destruct (String.eqb_spec t k) as [->|Hk]; [by rewrite lookup_insert_eq|]. rewrite lookup_insert_ne by done. apply IH.
Qed.

Lemma resolve_typed {A} (r : HandlerRegistry A) n t h : node_type n = Some t -> hr_handlers r !! t = Some h -> resolve r n = h.
Proof. intros Ht Hh. unfold resolve. rewrite Ht. cbn. by rewrite Hh. Qed.

Lemma resolve_shaped {A} (r : HandlerRegistry A) n t h : (t ← node_type n; hr_handlers r !! t) = None ->
  shape_to_handler_type (node_shape n) = Some t -> hr_handlers r !! t = Some h -> resolve r n = h.
Proof. intros Hn Ht Hh. unfold resolve. rewrite Hn, Ht. cbn. by rewrite Hh. Qed.

Lemma shapes_known shape t : shape_to_handler_type shape = Some t -> is_known_handler_type t = true.
Proof. unfold shape_to_handler_type. repeat case_match; by intros [= <-]. Qed.

Section facts.
Context {H : Type} `{!LlmHost H} `{!HandlerHost H} `{!ModelCatalog} `{!JsonText} `{!JsonDisplay} `{!JsonSchemas} `{!RegexReplace} `{!Regex} `{!ErrorText} `{BlobHashes} `{JsonCodec}.
Context (read_only : bool) (run_dir : string) (fuel : nat).
Context (backend : option (CodergenBackend (H := H))) (backend_policy : Node -> NodeTimeoutPolicy) (run : RunLlm) (run_id_error : Context -> option EngineError).
Implicit Types (w : StageWorld H) (n : Node) (c : Context).

Notation registry := (default_registry read_only run_dir fuel backend backend_policy run run_id_error).

Lemma registered human parallel t : is_Some (hr_handlers (registry human parallel) !! t) <-> is_known_handler_type t = true.
Proof.
  unfold default_registry. rewrite register_all. cbn [rev app assoc registry_new hr_handlers]. rewrite lookup_empty.
  unfold is_known_handler_type, str_mem, KNOWN_HANDLER_TYPES. cbn [existsb].
  repeat (match goal with |- context [String.eqb t ?k] => destruct (String.eqb_spec t k); [subst; by split; [|eexists]|] end).
  split; [by intros [? ?]|done].
Qed.

(** Every node gets the handler its author asked for: the registered types are exactly the
    types that validation knows; a node whose type is known gets the handler of that type, any
    other the handler of its shape, and only a node without either an agent; when the rule on
    types has nothing to report, no explicit type of the graph is passed over. *)
Theorem builtin_handler_chosen `{HashOrder} human parallel (g : Graph) :
  let r := registry human parallel in
  (forall t, is_Some (hr_handlers r !! t) <-> is_known_handler_type t = true) /\
  (forall n t, node_type n = Some t -> is_known_handler_type t = true -> hr_handlers r !! t = Some (resolve r n)) /\
  (forall n t, opt_filter is_known_handler_type (node_type n) = None -> shape_to_handler_type (node_shape n) = Some t -> hr_handlers r !! t = Some (resolve r n)) /\
  (forall n, opt_filter is_known_handler_type (node_type n) = None -> shape_to_handler_type (node_shape n) = None ->
     resolve r n = agent_handler backend backend_policy run run_id_error) /\
  (lint_apply type_known_rule g = [] -> forall id n t, graph_nodes g !! id = Some n -> node_type n = Some t -> hr_handlers r !! t = Some (resolve r n)).
Proof.
  cbn zeta. assert (forall n t, node_type n = Some t -> is_known_handler_type t = true ->
    hr_handlers (registry human parallel) !! t = Some (resolve (registry human parallel) n)) as Htyped.
  { intros n t Ht Hk. apply (registered human parallel) in Hk as [h Hh]. by rewrite (resolve_typed _ n t h). }
  assert (forall n, opt_filter is_known_handler_type (node_type n) = None ->
    (t ← node_type n; hr_handlers (registry human parallel) !! t) = None) as Hno.
  { intros n. destruct (node_type n) as [t|]; [|done]. cbn [opt_filter mbind option_bind]. destruct (is_known_handler_type t) eqn:Hk; [done|]. intros _.
    apply eq_None_not_Some. rewrite registered. by rewrite Hk. }
  split; [intros t; apply registered|]. split; [done|]. split; [|split].
  - intros n t Hn Ht. pose proof (shapes_known _ _ Ht) as Hk. apply (registered human parallel) in Hk as [h Hh].
    by rewrite (resolve_shaped _ n t h (Hno n Hn) Ht Hh).
  - intros n Hn Ht. unfold resolve. rewrite (Hno n Hn), Ht. done.
  - intros Hlint id n t Hn Ht. apply Htyped; [done|]. destruct (is_known_handler_type t) eqn:Hk; [done|]. exfalso.
    eapply (not_elem_of_nil _). rewrite <- Hlint. apply each_node_elem. exists id, n. split; [done|].
    unfold report_opt, report. rewrite Ht, Hk. by left.
Qed.

(** ** Joining *)

Lemma mut_list_length {S A} (f : Mut S A) l s : length (mut_list f l s).1.2 = length l.
Proof.
  revert s. induction l as [|a l IH]; intros s; [done|]. cbn. destruct (f a s) as [[[[]|e] a'] s1]; cbn; [|done].
  specialize (IH s1). destruct (mut_list f l s1) as [[r l'] s2]. cbn in *. by rewrite IH.
Qed.

(** What a parallel node stores is read back, the retry request of a failed branch apart. *)
Lemma branch_result_read r : branch_result_from_value (branch_result_value r)
  = Some (mkBranchResult (br_id r) (br_index r) (br_item_label r) (match br_status r with Failed _ => Failed false | s => s end) (br_context_updates r)).
Proof. by destruct r as [id [i|] [l|] [| |[]|] u]. Qed.

Lemma branch_results_read l : length <$> branch_results_from_value (JArray (branch_result_value <$> l)) = Some (length l).
Proof.
  cbn [branch_results_from_value]. rewrite (ArtifactHosts.mapM_back _ _ _ l (fun r _ => branch_result_read r)). cbn. by rewrite length_fmap.
Qed.

(** C27: a fan-in joins what the parallel node left: however the branches ended, and whatever
    of their results was moved to the blob store or could not be, a fan-in without a prompt
    that runs on the updates of the parallel node succeeds, and joins as many branches as
    were collected, in a dry run as well. *)
Theorem fan_in_joins_branches `{!EventClock H} `{HashOrder} cfg parsed_run_id hook n c g plan dry ro ms (s : Fanout H) o life m c0 w :
  end_branches cfg parsed_run_id hook n c g plan dry ro ms s = (Ok o, life) ->
  is_some_and (fun prompt => negb (str_is_empty (trim prompt))) (node_prompt m) = false ->
  forall dry_run, dispatch_to dry_run (fan_in_handler backend run) m (apply_updates (context_updates o) c0) w
    = Some (Ok (joined_outcome (Z.of_nat (length (fo_collected s))) dry_run), w).
Proof.
  unfold end_branches. destruct (fo_cancelled s); [done|].
  destruct (offload_parallel_branch_updates ro _ _) as [[offloaded typed] host] eqn:Ho.
  assert (length typed = length (fo_collected s)) as Hlen.
  { unfold offload_parallel_branch_updates in Ho. apply (f_equal (fun x => length x.1.2)) in Ho. by rewrite mut_list_length, length_fmap in Ho. }
  destruct (emit_parallel_hook _ _ _ _ _ _ _) as [[[]|e] w1]; [|done]. intros [= <- _] Hprompt dry_run.
  assert (validated_branch_count (apply_updates (<[PARALLEL_BRANCH_COUNT := JNum (PosInt (Z.of_nat (length (fo_collected s))))]>
    {[PARALLEL_RESULTS := JArray (branch_result_value <$> typed)]}) c0) = Ok (Z.of_nat (length (fo_collected s)))) as Hcount.
  { unfold validated_branch_count, apply_updates, ctx_get. rewrite (lookup_union_Some_l _ _ _ (JArray (branch_result_value <$> typed))) by done.
    pose proof (branch_results_read typed) as Hr. destruct (branch_results_from_value _); [|done]. injection Hr as ->. by rewrite Hlen. }
  destruct dry_run; cbn [dispatch_to hd_execute hd_simulate fan_in_handler context_updates]; unfold run_join; rewrite Hcount, Hprompt; done.
Qed.

(** ** Child workflows *)

(** [k] polls that found the child still running. *)
Inductive still_running (d : Duration) : nat -> StageWorld H -> StageWorld H -> Prop :=
| sr_none w : still_running d 0 w w
| sr_more k w w1 w2 : on_host (ch_select d) w = (None, w1) -> still_running d k w1 w2 -> still_running d (S k) w w2.

Definition child_ended n c (remaining k : nat) (cycle : Z) wk (o : Outcome Usage) w' : Prop :=
  ((k = 0%nat \/ stop_requested n c = false) /\ (k < remaining)%nat /\
     exists e, on_host (ch_select (poll_interval n)) wk = (Some e, w') /\ o = child_outcome c (cycle + Z.of_nat k) e)
  \/ (stop_requested n c = true /\ k = 1%nat /\ w' = stop_child wk /\
      o = with_notes (Some ("Stop condition satisfied at cycle " +:+ Z_to_string cycle)) outcome_success)
  \/ (stop_requested n c = false /\ k = remaining /\ w' = stop_child wk /\
      o = fail_classify ("Max cycles (" +:+ Z_to_string (max_cycles n) +:+ ") exceeded for manager loop node: " +:+ node_id n)).

Lemma poll_child_spec n c remaining cycle w : (0 < remaining)%nat \/ stop_requested n c = false ->
  exists k wk, (k <= remaining)%nat /\ still_running (poll_interval n) k w wk /\
    child_ended n c remaining k cycle wk (poll_child n c remaining cycle w).1 (poll_child n c remaining cycle w).2.
Proof.
  revert cycle w. induction remaining as [|remaining IH]; intros cycle w Hr.
  - destruct Hr as [Hr|Hr]; [lia|]. exists 0%nat, w. split; [lia|]. split; [constructor|]. by right; right.
  - cbn [poll_child]. destruct (on_host (ch_select (poll_interval n)) w) as [[e|] w1] eqn:Hsel.
    + exists 0%nat, w. split; [lia|]. split; [constructor|]. left. split; [by left|]. split; [lia|].
      exists e. split; [done|]. by rewrite Z.add_0_r.
    + destruct (stop_requested n c) eqn:Hstop.
      * exists 1%nat, w1. split; [lia|]. split; [by eapply sr_more; [|constructor]|]. right; left. by rewrite Hstop.
      * destruct (IH (cycle + 1) w1 (or_intror eq_refl)) as (k & wk & Hk & Hrun & Hend).
        exists (S k), wk. split; [lia|]. split; [by eapply sr_more|].
        destruct Hend as [(_ & Hlt & e & He & Ho)|[(Hs & _)|(Hs & -> & Hw & Ho)]].
        -- left. split; [by right|]. split; [lia|]. exists e. split; [done|]. rewrite Ho. f_equal. lia.
        -- congruence.
        -- right; right. done.
Qed.

(** A child workflow always settles its node, with a value and never an error: a source that
    does not parse starts no child; otherwise the node polls at most [max_cycles] times and ends
    with what the child ended with, or cancels the child, successfully when the stop condition
    holds and else because the cycles are used up.  The stop condition is one of the context the
    node started with: it stops the child at the first poll or never. *)
Theorem child_workflow_settles n c w :
  match parse_child_graph n with
  | Err e => subworkflow_execute run_dir n c w = Some (Ok (fail_classify ("Failed to parse child pipeline: " +:+ EngineError_to_string e)), w)
  | Ok p => exists k wk o w', subworkflow_execute run_dir n c w = Some (Ok o, w') /\ Z.of_nat k <= max_cycles n /\
      still_running (poll_interval n) k (start_child run_dir n c p w) wk /\
      child_ended n c (Z.to_nat (max_cycles n)) k 1 wk o w'
  end.
Proof.
  unfold subworkflow_execute. destruct (parse_child_graph n) as [p|e]; [|done].
  assert (1 <= max_cycles n) as Hmax by (unfold max_cycles; lia).
  destruct (poll_child_spec n c (Z.to_nat (max_cycles n)) 1 (start_child run_dir n c p w)) as (k & wk & Hk & Hrun & Hend); [lia|].
  destruct (poll_child _ _ _ _ _) as [o w'] eqn:E. exists k, wk, o, w'. repeat split; [lia|done|done].
Qed.

(** A child hands its results to the parent and no bookkeeping: when the child ends, the
    status of the node is the child's, with its failure when it failed; merged into the context of
    the parent, its updates leave every key of the engine as it was, and every other key is as in
    the child's final context, up to the order of the keys of objects, or as before when the
    child does not have it. *)
Theorem child_results_merged c cycle (o : Outcome Usage) final :
  let node := child_outcome c cycle (CeDone o final) in
  status node = status o /\
  failure node = (if is_failure (status o) then failure o else None) /\
  forall key,
    let merged := apply_updates (context_updates node) c !! key in
    if is_engine_internal_key key then merged = c !! key
    else match final !! key with
         | None => merged = c !! key
         | Some v => exists v', merged = Some v' /\ (v' = v \/ (c !! key = Some v' /\ value_eqb v' v = true))
         end.
Proof.
  cbn zeta. split; [done|]. split; [done|]. intros key. cbn [child_outcome context_updates]. unfold apply_updates, context_diff_public, context_diff, context_snapshot.
  rewrite lookup_union, !map_lookup_filter. cbn [fst snd]. destruct (final !! key) as [v|]; cbn [mbind option_bind]; [|by case_match; destruct (c !! key)].
  destruct (c !! key) as [b|] eqn:Hc; [destruct (value_eqb b v) eqn:Hv|]; cbn; repeat case_guard; cbn; destruct (is_engine_internal_key key); try done; eauto 6.
Qed.

(** ** Commands *)

Lemma append_nonempty_log w e : lw_log (lw_emit e w) = lw_log w ++ [e].
Proof. done. Qed.

Lemma on_host_log {A} (f : H -> A * H) w : lw_log (on_host f w).2 = lw_log w.
Proof. unfold on_host. by destruct (f (lw_host w)). Qed.

Lemma resolve_stdin_log n c w r w' : resolve_stdin fuel n c w = Some (r, w') ->
  lw_log w' = lw_log w /\ match r with Err o => status o = Failed false | Ok _ => True end.
Proof.
  unfold resolve_stdin. destruct (validated_stdin_source n) as [[source|]|reason]; [|by intros [= <- <-]..].
  destruct (resolve_flat_context_value fuel c source (lw_host w)) as [[v h]|]; [|done]. cbn.
  destruct v as [[v|]|e]; [|by intros [= <- <-]..]. destruct (encode_stdin_value v) as [stdin|e]; [|by intros [= <- <-]].
  case_match; by intros [= <- <-].
Qed.

Lemma resolve_stdin_total n c w :
  (forall source, validated_stdin_source n = Ok (Some source) -> is_Some (resolve_flat_context_value fuel c source (lw_host w))) ->
  is_Some (resolve_stdin fuel n c w).
Proof.
  intros Hres. unfold resolve_stdin. destruct (validated_stdin_source n) as [[source|]|reason]; [|done..].
  destruct (Hres source eq_refl) as [[v h] ->]. cbn. destruct v as [[v|]|e]; [|done..].
  destruct (encode_stdin_value v) as [stdin|e]; [|done]. by case_match.
Qed.

(** What a stage answers when its command has ended in a given way. *)
Definition command_verdict n (script text ref : string) (x : ExecStreaming) (r : result (Outcome Usage) EngineError) : Prop :=
  match xs_termination x with
  | TermExited =>
      exists o, r = Ok o /\
      if bool_decide (xs_exit_code x = Some 0) then
        match parse_node_output_schema n with
        | Err _ => False
        | Ok None => status o = Succeeded /\ context_updates o = {[COMMAND_OUTPUT := JString ref]}
        | Ok (Some k) =>
            match validate_response_text k text with
            | None => False
            | Some (Ok v) => exists o0, o = apply_validated_output n k v o0 /\ status o0 = Succeeded /\ context_updates o0 = {[COMMAND_OUTPUT := JString ref]}
            | Some (Err _) => status o = Failed false /\ failure_category o = Some Deterministic /\ context_updates o = {[COMMAND_OUTPUT := JString ref]}
            end
        end
      else status o = Failed false /\ context_updates o = {[COMMAND_OUTPUT := JString ref]}
  | TermTimedOut | TermCancelled => exists e, r = Err e /\ error_is_retryable e = true
  end.

Lemma command_answer_verdict (compiles : is_some routing_validator = true) n script schema timeout x logs : parse_node_output_schema n = Ok schema ->
  exists r, command_answer n script schema timeout x logs = Some r /\ command_verdict n script (fl_output_text logs) (fl_output_ref logs) x r.
Proof.
  intros Hs. unfold command_answer, command_verdict. destruct (xs_termination x); [|by eexists; split; [|eexists]..].
  destruct (bool_decide (xs_exit_code x = Some 0)); [|by eexists; split; [|eexists]]. rewrite Hs.
  destruct schema as [k|]; [|by eexists; split; [|eexists]].
  destruct (validate_total compiles k (fl_output_text logs)) as [[v|e] ->]; cbn [mbind option_bind]; eexists; (split; [reflexivity|]); eexists; (split; [reflexivity|]).
  - eexists. split; [reflexivity|]. done.
  - done.
Qed.

(** The events of a stage and its answer. *)
Definition command_history n (new : list LlmEvent) (r : result (Outcome Usage) EngineError) : Prop :=
  (new = [] /\ match r with Ok o => status o = Failed false | Err e => parse_node_output_schema n = Err e end)
  \/ exists script command, non_blank_script n = Some script /\
     let started := LevCommandStarted (node_id n) script command (command_language n) (timeout_ms n) in
     ((new = [started] /\ exists e, r = Err e)
      \/ exists x logs, new = [started; LevCommandCompleted (node_id n) (fl_output_ref logs) (xs_exit_code x) (xs_duration_ms x) (xs_termination x)
                                         (fl_output_bytes logs) (xs_live_streaming x)]
         /\ command_verdict n script (fl_output_text logs) (fl_output_ref logs) x r).


(** *** The output is kept *)

(** What the log of a command relies on: a file that was opened is empty, writes go to its
    end, it is read as it is; and a sandbox that answers has handed the output over in chunks,
    each taken by the callback, between steps of its own that leave the log alone. *)
Inductive handed (log_of : string -> H -> string) (p : string) (callback : string -> H -> result unit string * H) : list string -> H -> H -> Prop :=
| handed_end h : handed log_of p callback [] h h
| handed_own l h h1 h2 : log_of p h1 = log_of p h -> handed log_of p callback l h1 h2 -> handed log_of p callback l h h2
| handed_chunk b l h h1 h2 : callback b h = (Ok tt, h1) -> handed log_of p callback l h1 h2 -> handed log_of p callback (b :: l) h h2.

Record LogLaws (log_of : string -> H -> string) : Prop := {
  law_open : forall p h h', fs_open_truncate p h = (Ok tt, h') -> log_of p h' = "";
  law_write : forall p b h h', ch_write_all p b h = (Ok tt, h') -> log_of p h' = log_of p h +:+ b;
  law_flush : forall p h h', ch_flush p h = (Ok tt, h') -> log_of p h' = log_of p h;
  law_read : forall p b h h', ch_read p h = (Ok b, h') -> b = log_of p h;
  law_exec : forall request callback p h x h', ch_exec request callback h = (Ok x, h') -> exists chunks, handed log_of p callback chunks h h'
}.

Section log.
Context (log_of : string -> H -> string) (laws : LogLaws log_of) (reads : forall k h, is_ok (sql_select k h).1 = true).

Lemma handed_log id chunks h h' : handed log_of (command_log_path run_dir id) (recorder_append run_dir id) chunks h h' ->
  log_of (command_log_path run_dir id) h' = log_of (command_log_path run_dir id) h +:+ str_join "" chunks.
Proof using laws.
  assert (forall b l, str_join "" (b :: l) = b +:+ str_join "" l) as Hjoin by (intros b [|b' l]; [by rewrite append_nil_r|done]).
  induction 1 as [h|l h h1 h2 Hq _ IH|b l h h1 h2 Hb _ IH]; [by rewrite append_nil_r|by rewrite IH, Hq|].
  rewrite IH, Hjoin. unfold recorder_append in Hb. destruct b as [|a b]; [by injection Hb as <-|]. cbn [str_is_empty] in Hb.
  destruct (ch_write_all _ _ h) as [[[]|e] h3] eqn:Hw; [|done]. injection Hb as <-. rewrite (law_write _ laws _ _ _ _ Hw). by rewrite append_assoc.
Qed.

Lemma finalize_spec id h logs h' : recorder_finalize read_only run_dir id h = (Ok logs, h') ->
  let bytes := log_of (command_log_path run_dir id) h in
  let text := from_utf8_lossy bytes in
  fl_output_text logs = text /\ fl_output_bytes logs = str_len bytes /\
  exists b, json_to_vec (JString text) = Ok b /\ fl_output_ref logs = format_blob_ref (sha256 b) /\ holds h' (sha256 b) b.
Proof using laws.
  unfold recorder_finalize, flush_all. destruct (ch_flush _ h) as [[[]|e] h1] eqn:Hf; [|done]. rewrite <- (law_flush _ laws _ _ _ Hf).
  destruct (ch_read _ h1) as [[bytes|e] h2] eqn:Hr; [|done]. apply (law_read _ laws) in Hr as <-. unfold write_json_string_blob.
  destruct (json_to_vec _) as [b|e] eqn:Hj; [|done]. unfold run_write_blob. destruct read_only; [done|].
  destruct (blob_write b h2) as [[hash|e] h3] eqn:Hw; [|done]. apply blob_write_spec in Hw as [_ [-> Hh]]. intros [= <- <-]. cbn.
  split; [done|]. split; [done|]. exists b. by split.
Qed.

Lemma read_back text b h : json_to_vec (JString text) = Ok b -> holds h (sha256 b) b ->
  (exists h', read_json_string_blob (format_blob_ref (sha256 b)) h = (Ok (Some text), h')) /\
  (is_ref text = false -> resolves 3 h (JString (format_blob_ref (sha256 b))) (JString text)).
Proof using reads.
  intros Hj Hh. destruct (json_roundtrip (JString text) eq_refl) as (b' & Hb' & Hread). rewrite Hj in Hb'. injection Hb' as <-. split.
  - unfold read_json_string_blob, run_read_blob. rewrite blob_ref_parsed. destruct (blob_read_held (sha256 b) b h Hh eq_refl (reads _ _)) as (h' & -> & _).
    exists h'. by rewrite (proj2 (json_string_value b text) Hread).
  - intros Href. apply (stands_resolves reads); [|cbn; lia]. eapply stands_blob; [done|done|done|]. cbn. by rewrite Href.
Qed.

Lemma on_host_pair {A} (f : H -> A * H) w a w' : on_host f w = (a, w') -> f (lw_host w) = (a, lw_host w') /\ lw_log w' = lw_log w.
Proof. unfold on_host. destruct (f (lw_host w)) as [a' h]. by intros [= <- <-]. Qed.

(** A command that was started and has not ended adds one event. *)
Lemma command_run_ends n c script language stdin schema w r w' :
  command_run read_only run_dir n c script language stdin schema w = Some (r, w') ->
  let id := scope_stage_id (scope_for_handler c (node_id n)) in
  exists start, lw_log w' = lw_log w ++ [start] \/
  exists request h0 h1 x logs, log_of (command_log_path run_dir id) h0 = "" /\
    ch_exec request (recorder_append run_dir id) h0 = (Ok x, h1) /\ recorder_finalize read_only run_dir id h1 = (Ok logs, lw_host w') /\
    lw_log w' = lw_log w ++ [start; LevCommandCompleted (node_id n) (fl_output_ref logs) (xs_exit_code x) (xs_duration_ms x) (xs_termination x)
                                      (fl_output_bytes logs) (xs_live_streaming x)].
Proof using laws.
  unfold command_run. set (id := scope_stage_id _). set (start := LevCommandStarted _ _ _ _ _). cbn zeta. intros Hrun. exists start.
  destruct (on_host ch_env _) as [[env|e] w2] eqn:H1'; apply on_host_pair in H1' as [_ Hl1]; rewrite append_nonempty_log in Hl1; [|left; by injection Hrun as <- <-].
  destruct (on_host _ w2) as [[[]|e] w3] eqn:H2'; apply on_host_pair in H2' as [Hc Hl2]; [|left; injection Hrun as <- <-; congruence].
  destruct (on_host _ w3) as [[x|e] w4] eqn:H3'; apply on_host_pair in H3' as [Hx Hl3].
  2: { left. destruct (on_host _ w4) as [[[]|e'] w5] eqn:H4'; apply on_host_pair in H4' as [_ Hl4]; injection Hrun as <- <-; congruence. }
  destruct (on_host _ w4) as [[logs|e] w5] eqn:H4'; apply on_host_pair in H4' as [Hf Hl4]; [|left; injection Hrun as <- <-; congruence].
  right. destruct (command_answer _ _ _ _ _ _) as [answer|]; [|done]. injection Hrun as <- <-. eexists _, _, _, x, logs. split_and!; [|exact Hx|exact Hf|].
  - unfold recorder_create in Hc. destruct (fs_create_dir_all _ _) as [[[]|e] h]; [|done]. destruct (fs_open_truncate _ h) as [[[]|e] h'] eqn:Ho; [|done].
    injection Hc as <-. by eapply law_open.
  - rewrite append_nonempty_log. rewrite Hl4, Hl3, Hl2, Hl1, <- app_assoc. reflexivity.
Qed.

(** C26: the output of a command is kept whole: whenever a command ends, what its stage stores
    is the text of the bytes that the sandbox handed over, in their order; the event has their
    number and a reference from which readers get exactly that text, and which resolves to it
    where a stage uses it, unless the text is itself such a reference. *)
Theorem command_output_kept n c w r w' started ref exit ms term bytes live :
  command_execute read_only run_dir fuel n c w = Some (r, w') ->
  lw_log w' = lw_log w ++ [started; LevCommandCompleted (node_id n) ref exit ms term bytes live] ->
  exists request h0 h1 x chunks,
    let id := scope_stage_id (scope_for_handler c (node_id n)) in
    let text := from_utf8_lossy (str_join "" chunks) in
    ch_exec request (recorder_append run_dir id) h0 = (Ok x, h1) /\
    handed log_of (command_log_path run_dir id) (recorder_append run_dir id) chunks h0 h1 /\
    bytes = str_len (str_join "" chunks) /\
    (exists h', read_json_string_blob ref (lw_host w') = (Ok (Some text), h')) /\
    (is_ref text = false -> resolves 3 (lw_host w') (JString ref) (JString text)).
Proof using laws reads.
  unfold command_execute. intros Hrun Hlog.
  assert (lw_log w' <> lw_log w) as Hnew by (rewrite Hlog; intros Heq%(f_equal length); rewrite length_app in Heq; cbn in Heq; lia).
  destruct (non_blank_script n) as [script|]; [|by injection Hrun as <- <-]. case_match; [by injection Hrun as <- <-|].
  destruct (resolve_stdin fuel n c w) as [[stdin w1]|] eqn:Hstdin; [|done]. cbn [mbind option_bind fst snd] in Hrun.
  apply resolve_stdin_log in Hstdin as [Hl0 _]. destruct stdin as [stdin|o]; [|injection Hrun as <- <-; congruence].
  destruct (parse_node_output_schema n) as [schema|e]; [|injection Hrun as <- <-; congruence].
  apply command_run_ends in Hrun as (start & [Hone|(request & h0 & h1 & x & logs & Hopen & Hx & Hf & Htwo)]).
  { rewrite Hlog, Hl0 in Hone. by apply app_inv_head in Hone. }
  rewrite Hlog, Hl0 in Htwo. apply app_inv_head in Htwo as [= _ -> _ _ _ -> _].
  destruct (law_exec _ laws _ _ (command_log_path run_dir (scope_stage_id (scope_for_handler c (node_id n)))) _ _ _ Hx) as [chunks Hchunks].
  apply finalize_spec in Hf as (_ & Hbytes & b & Hj & Href & Hh). pose proof (handed_log _ _ _ _ Hchunks) as Hcontent. rewrite Hopen in Hcontent.
  rewrite Hcontent in Hbytes, Hj. destruct (read_back _ _ _ Hj Hh) as [Hread Hres]. rewrite <- Href in Hread, Hres.
  exists request, h0, h1, x, chunks. by split_and!.
Qed.
End log.
End facts.

(** ** A machine with a shell *)

Module HandlerRuns.
Import ArtifactHosts.

#[local] Instance shell_parser : JsonText := fun _ => Err "expected value".
#[local] Instance shell_display : JsonDisplay := {| number_to_string := AnswerRuns.digits; compound_to_string := json_text AnswerRuns.digits |}.
#[local] Instance shell_schemas : JsonSchemas :=
  {| Validator := unit; validator_for := fun _ => Ok tt; iter_errors := fun _ _ => []; location_join := fun p k => p +:+ "/" +:+ k; json_pointer := fun _ _ => None |}.
#[local] Instance shell_replace : RegexReplace := fun _ s _ => s.
#[local] Instance shell_text : ErrorText := {| debug_str := fun s => s; regex_error := fun s => s |}.
#[local] Instance shell_clock : EventClock Disk := fun _ => 0.

Definition log_file (p : string) (d : Disk) : string := default "" (dk_files d !! p).

(** Every command prints these chunks; one that contains [false] exits with code 1. *)
Definition chunks : list string := ["all "; ""; "good"].
Fixpoint hand_over (l : list string) (callback : string -> Disk -> result unit string * Disk) (d : Disk) : result unit string * Disk :=
  match l with
  | [] => (Ok tt, d)
  | b :: l => match callback b d with (Ok _, d) => hand_over l callback d | (Err e, d) => (Err e, d) end
  end.
Definition shell_exec (request : ExecRequest) (callback : string -> Disk -> result unit string * Disk) (d : Disk) : result ExecStreaming ErrChain * Disk :=
  match hand_over chunks callback d with
  | (Err e, d) => (Err [mkLink e None], d)
  | (Ok _, d) => (Ok (mkStreaming (Some (if str_contains "false" (xr_command request) then 1 else 0)) TermExited 7 true), d)
  end.

#[local] Instance shell_host : HandlerHost Disk := {|
  ch_env := fun d => (Ok ∅, d);
  ch_write_all := fun p b d => (Ok tt, put_file p (log_file p d +:+ b) d);
  ch_flush := fun _ d => (Ok tt, d);
  ch_read := fun p d => (Ok (log_file p d), d);
  ch_remove := fun p d => (Ok tt, mkDisk (dk_blobs d) (delete p (dk_files d)) (dk_room d));
  ch_exec := shell_exec;
  ch_sleep := fun _ d => d;
  ch_try_quote := fun _ => None;
  ch_encode_segment := fun s => s;
  ch_serde_error := fun _ => "invalid type";
  Bundled := unit;
  bundled_path := fun _ => "child.fabro";
  ch_bundle := None;
  ch_workflow_path := None;
  ch_static_reference := fun _ => None;
  ch_validate_child := fun _ => Ok (mkGraph "child" ∅ [] ∅);
  ch_create_dir := fun _ d => d;
  ch_spawn := fun _ _ _ _ d => d;
  ch_select := fun _ d => (None, d);
  ch_cancel_child := fun d => d;
  ch_await_child := fun _ d => d
|}.

Lemma hand_over_handed l callback p d d' : hand_over l callback d = (Ok tt, d') -> handed log_file p callback l d d'.
Proof.
  revert d. induction l as [|b l IH]; intros d; cbn; [intros [= <-]; constructor|].
  destruct (callback b d) as [[[]|e] d1] eqn:Hb; [|done]. intros Hl. eapply handed_chunk; [exact Hb|by apply IH].
Qed.

Lemma shell_laws : LogLaws log_file.
Proof.
  split.
  - intros p h h' [= <-]. unfold log_file, put_file. cbn. by rewrite lookup_insert_eq.
  - intros p b h h' [= <-]. unfold log_file, put_file. cbn. by rewrite lookup_insert_eq.
  - by intros p h h' [= <-].
  - by intros p b h h' [= <- <-].
  - intros request callback p h x h' He. exists chunks. apply hand_over_handed. cbn in He. unfold shell_exec in He.
    by destruct (hand_over chunks callback h) as [[[]|e] d]; [injection He as _ <-|].
Qed.

Definition build_step : Node := mkNode "build" {[ "script" := AString "make" ]} [].
Definition bench : StageWorld Disk := mkStageWorld empty_disk [] ∅.
Definition built := command_execute false "/run" 3 build_step ∅ bench.

Lemma shell_compiles : is_some (@routing_validator shell_schemas) = true.
Proof. vm_compute. reflexivity. Defined.


Lemma command_output_kept_witness : exists r w' start ref exit ms term bytes live h',
  built = Some (r, w') /\ lw_log w' = [start; LevCommandCompleted "build" ref exit ms term bytes live] /\
  read_json_string_blob ref (lw_host w') = (Ok (Some "all good"), h').
Proof.
  destruct built as [[r w']|] eqn:Hb; [|by vm_compute in Hb].
  assert (exists start ref exit ms term bytes live, lw_log w' = [start; LevCommandCompleted "build" ref exit ms term bytes live]) as (start & ref & exit & ms & term & bytes & live & Hlog)
    by (vm_compute in Hb; injection Hb as _ <-; by eexists _, _, _, _, _, _, _).
  destruct (command_output_kept false "/run" 3 log_file shell_laws (fun _ _ => eq_refl) build_step ∅ bench r w' start ref exit ms term bytes live Hb Hlog)
    as (request & h0 & h1 & x & l & _ & _ & _ & [h' Hread] & _).
  exists r, w', start, ref, exit, ms, term, bytes, live, h'. split; [done|]. split; [done|]. vm_compute in Hb. injection Hb as <- <-.
  injection Hlog as <- <- <- <- <- <- <-. rewrite Hread. vm_compute in Hread. injection Hread as -> _. reflexivity.
Defined.

(** *** A join, and a child that is never done *)

#[local] Instance shell_llm : LlmHost Disk := {|
  lh_client := fun d => (None, d);
  lh_complete := fun _ d => (Err (LeNetwork "gone" []), d);
  lh_now := fun _ => 0;
  lh_memory := fun d => (Ok [], d);
  lh_read_file := fun _ d => (None, d);
  lh_agent_run := fun _ _ _ d => (Err WeCancelled, d)
|}.
#[local] Instance shell_catalog : ModelCatalog := {|
  mc_provider := fun _ => None; mc_offers := fun _ _ => true; mc_efforts := fun _ _ => None; mc_max_output := fun _ _ => None;
  mc_select := fun _ => Err SeUnknownSelector; mc_canonical := fun _ m => m; mc_billing_facts := fun _ _ => None; mc_pricing := fun _ => None
|}.
#[local] Instance shell_regex : Regex := {| re_valid := fun _ => true; re_is_match := fun _ _ => false |}.

Definition branch_end (id : string) (st : StageOutcome) : BranchOut :=
  mkBranchOut (mkBranchResult id (Some 0) None st [("note", JString id)]) (with_status st outcome_success).
Definition two_ended : Fanout Disk :=
  mkFanout (mkLife empty_disk [] ∅ (mkBreaker ∅ ∅) fidelity_new None None None false None MdHealthy) 1 false []
    [branch_end "a" Succeeded; branch_end "b" (Failed true)] false.
Definition fork_node : Node := mkNode "fork" ∅ [].
Definition fork_graph : Graph := mkGraph "g" ∅ [] ∅.
Definition forked := end_branches sample_events (fun _ => Ok "run") (fun _ _ _ _ w => w) fork_node ∅ fork_graph (static_plan []) false false 5 two_ended.

Lemma fan_in_joins_branches_witness : exists o life, forked = (Ok o, life) /\
  dispatch_to false (fan_in_handler None (mkRunLlm "anthropic" "opus")) fork_node (apply_updates (context_updates o) ∅) bench
    = Some (Ok (joined_outcome 2 false), bench).
Proof.
  destruct forked as [[o|e] life] eqn:Hf; [|by vm_compute in Hf]. exists o, life. split; [done|].
  exact (fan_in_joins_branches None (mkRunLlm "anthropic" "opus") sample_events (fun _ => Ok "run") (fun _ _ _ _ w => w) fork_node ∅ fork_graph (static_plan [])
    false false 5 two_ended o life fork_node ∅ bench Hf eq_refl false).
Defined.

(** A stop condition that does not hold when the node starts is never satisfied: the child
    runs until the cycles are used up. *)
Definition manager : Node :=
  mkNode "sup" {[ "stack.child_workflow" := AString "child.fabro"; "manager.stop_condition" := AString "context.deploy_ready=true"; "manager.max_cycles" := AInteger 3 ]} [].
Example supervisor_ends :
  (fun r => (fun o => notes o) <$> Prelude.result_ok r.1) <$> subworkflow_execute "/run" manager {[ "deploy_ready" := JString "true" ]} bench
  = Some (Some (Some "Stop condition satisfied at cycle 1")) /\
  (fun r => (fun o => message <$> failure o) <$> Prelude.result_ok r.1) <$> subworkflow_execute "/run" manager ∅ bench
  = Some (Some (Some "Max cycles (3) exceeded for manager loop node: sup")).
Proof. split; vm_compute; reflexivity. Qed.
End HandlerRuns.
