(* ===== verification/Rollup.v ===== *)
(** * Bills and summaries of a run

    What is computed from a projection for display: the billing rollup by stage and by
    model (fabro-workflow/src/billing_rollup.rs) and the summary of a run
    (fabro-store/src/run_state.rs, fabro-types/src/run_summary.rs).  The theorem shows
    that the three views of a bill agree with each other and with the summary. *)

From S2P Require Import Prelude RustStr RustNum DecText GraphTypes Context Outcome Lint Retry.
From S2P Require Import StageIds RunStatus Timing Billing Todos Events Projection Reducer ReducerProps.
From coqutil Require Import Datatypes.RecordSetters.
Import OCamlLikeNotations.
Local Open Scope Z_scope.

(** ** The rollup *)

Record ProjectionBillingStage := mkBillingStage {
  bs_node_id : string;
  bs_billing : BilledTokenCounts;
  bs_timing : StageTiming;
  bs_model : option ModelRef
}.

Record ProjectionBillingByModel := mkByModel {
  bm_model : ModelRef;
  bm_stages : Z;
  bm_billing : BilledTokenCounts
}.

Record ProjectionBillingRollup := mkRollup {
  ru_stages : list ProjectionBillingStage;
  ru_totals : BilledTokenCounts;
  ru_by_model : list ProjectionBillingByModel;
  ru_timing : RunTiming;
  ru_billed_visit_count : Z
}.

Definition rollup_new : ProjectionBillingRollup := mkRollup [] BilledTokenCounts_default [] RunTiming_default 0.

(** [entry(k).or_insert_with(fresh)] and a change of what it gives. *)
Definition upsert {A} (same : A -> bool) (f : A -> A) (fresh : A) (rows : list A) : list A :=
  if existsb same rows then update_first same f rows else rows ++ [f fresh].

(** The row of a node, created at its first stage. *)
Definition with_row (node : string) (f : ProjectionBillingStage -> ProjectionBillingStage)
    : list ProjectionBillingStage -> list ProjectionBillingStage :=
  upsert (fun r => bool_decide (bs_node_id r = node)) f (mkBillingStage node BilledTokenCounts_default (StageTiming_new 0 0 0) None).

Definition with_model (m : ModelRef) (f : ProjectionBillingByModel -> ProjectionBillingByModel)
    : list ProjectionBillingByModel -> list ProjectionBillingByModel :=
  upsert (fun r => bool_decide (bm_model r = m)) f (mkByModel m 0 BilledTokenCounts_default).

Definition rollup_stage (price : option (ModelRef -> TokenCounts -> option Z)) (s : RunProjection)
    (r : ProjectionBillingRollup) (entry : StageId * StageProjection) : ProjectionBillingRollup :=
  let '(id, g) := entry in
  if is_boundary_stage (sid_node id) s then r
  else
    let usage := billed_usage price g in
    if (negb (is_some (sg_completion g)) && negb (is_some (sg_timing g)) && billed_is_zero usage)%bool then r
    else
      let r := { r with ru_stages := with_row (sid_node id) (fun row => row) (ru_stages r) } in
      let r := match sg_timing g with
               | Some t => { r with ru_stages := with_row (sid_node id) (fun row =>
                                      { row with bs_timing := StageTiming_saturating_add (bs_timing row) t }) (ru_stages r);
                                    ru_timing := RunTiming_saturating_add (ru_timing r) (RunTiming_from t) }
               | None => r
               end in
      if billed_is_zero usage then r
      else
        let r := { r with ru_billed_visit_count := ru_billed_visit_count r + 1;
                          ru_stages := with_row (sid_node id) (fun row =>
                            { row with bs_billing := add_counts usage (bs_billing row) }) (ru_stages r);
                          ru_totals := add_counts usage (ru_totals r) } in
        match sg_model g with
        | Some m => { r with ru_stages := with_row (sid_node id) (fun row => { row with bs_model := Some m }) (ru_stages r);
                             ru_by_model := with_model m (fun e =>
                               { e with bm_stages := add_i64 (bm_stages e) 1; bm_billing := add_counts usage (bm_billing e) })
                               (ru_by_model r) }
        | None => r
        end.

(** The models are in a [HashMap]; they end up ordered by provider, model and speed. *)
Definition speed_text (m : ModelRef) : option string := Speed_to_string <$> mr_speed m.

Definition opt_text_le (a b : option string) : Prop :=
  match a, b with
  | None, _ => True
  | Some _, None => False
  | Some a, Some b => String.le a b
  end.

Definition by_model_le (a b : ProjectionBillingByModel) : Prop :=
  let m := bm_model a in let n := bm_model b in
  if decide (mr_provider m = mr_provider n) then
    if decide (mr_model_id m = mr_model_id n) then opt_text_le (speed_text m) (speed_text n)
    else String.le (mr_model_id m) (mr_model_id n)
  else String.le (mr_provider m) (mr_provider n).

#[export] Instance by_model_le_dec : RelDecision by_model_le.
Proof.
  intros a b. unfold by_model_le, opt_text_le.
  destruct (decide (mr_provider _ = _)); [destruct (decide (mr_model_id _ = _));
    [destruct (speed_text (bm_model a)), (speed_text (bm_model b))|]|]; apply _.
Defined.

Definition billing_rollup_from_projection (price : option (ModelRef -> TokenCounts -> option Z)) (s : RunProjection)
    : ProjectionBillingRollup :=
  let r := foldl (rollup_stage price s) rollup_new (iter_stages s) in
  { r with ru_by_model := merge_sort by_model_le (ru_by_model r) }.

Definition billing_if_present (r : ProjectionBillingRollup) : option BilledTokenCounts :=
  if 0 <? ru_billed_visit_count r then Some (ru_totals r) else None.

(** ** The summary *)

Definition projected_billing (s : RunProjection) : BilledTokenCounts :=
  match c ← rp_conclusion s; con_billing c with
  | Some billing => billing
  | None =>
      foldl (fun acc entry => if is_boundary_stage (sid_node entry.1) s then acc else add_counts (sg_usage entry.2) acc)
        BilledTokenCounts_default (iter_stages s)
  end.

Record RunModel := mkRunModel { rm_provider : string; rm_name : string }.

#[export] Instance RunModel_eq_dec : EqDecision RunModel.
Proof. solve_decision. Defined.

Definition run_model_le (a b : RunModel) : Prop :=
  if decide (rm_provider a = rm_provider b) then String.le (rm_name a) (rm_name b) else String.le (rm_provider a) (rm_provider b).

#[export] Instance run_model_le_dec : RelDecision run_model_le.
Proof. intros a b. unfold run_model_le. destruct (decide _); apply _. Defined.

(** [Vec::dedup_by]: only neighbours are compared. *)
Fixpoint dedup {A} `{!EqDecision A} (l : list A) : list A :=
  match l with
  | [] => []
  | a :: l => match l with
              | b :: _ => if decide (a = b) then dedup l else a :: dedup l
              | [] => [a]
              end
  end.

Definition run_models (s : RunProjection) : list RunModel :=
  dedup (merge_sort run_model_le
    ((fun m => mkRunModel (mr_provider m) (mr_model_id m)) <$> omap (fun entry => sg_model entry.2) (iter_stages s))).

Inductive RunSize := SizeXs | SizeS | SizeM | SizeL | SizeXl.

Definition BUCKET_MAX_USD_MICROS : list (RunSize * Z) :=
  [(SizeXs, 20000000); (SizeS, 50000000); (SizeM, 100000000); (SizeL, 200000000)].

Definition from_total_usd_micros (total : option Z) : RunSize :=
  match find_first (fun b => default 0 total <=? b.2) BUCKET_MAX_USD_MICROS with
  | Some (size, _) => size
  | None => SizeXl
  end.

(** The question asked first, ties broken by its id. *)
Definition earlier_question (a b : string * PendingInterviewRecord) : string * PendingInterviewRecord :=
  if (pi_started_at b.2 <? pi_started_at a.2) || ((pi_started_at b.2 =? pi_started_at a.2) && str_ltb b.1 a.1) then b else a.

Definition current_question (s : RunProjection) : option InterviewQuestionRecord :=
  match map_to_list (rp_pending_interviews s) with
  | [] => None
  | q :: qs => Some (pi_question (foldl earlier_question q qs).2)
  end.

Definition summary_diff (s : RunProjection) : option DiffSummary :=
  or_else (c ← rp_conclusion s; rd_summary (con_diff c)) (find_map (fun c => rd_summary (cr_diff c)) (reverse (rp_checkpoints s))).

(** [Run]; what is copied from parts of the specification that the projection keeps as
    JSON, and the constant fields, are left out.  [created_at] is the time in the run
    id. *)
Record Run := mkSummary {
  sum_id : RunId;
  sum_parent_id : option RunId;
  sum_children_count : Z;
  sum_title : string;
  sum_goal : string;
  sum_workflow_slug : option string;
  sum_graph_name : option string;
  sum_node_count : Z;
  sum_edge_count : Z;
  sum_labels : gmap string string;
  sum_status : RunStatus;
  sum_approval : option RunApproval;
  sum_pending_control : option RunControlAction;
  sum_archived : bool;
  sum_archived_at : option DateTime;
  sum_sandbox : option RunSandbox;
  sum_models : list RunModel;
  sum_source_directory : option string;
  sum_created_at : DateTime;
  sum_started_at : option DateTime;
  sum_last_event_at : option DateTime;
  sum_completed_at : option DateTime;
  sum_timing : option RunTiming;
  sum_billing : option Z;
  sum_size : RunSize;
  sum_diff : option DiffSummary;
  sum_pull_request : option PullRequestLink;
  sum_current_question : option InterviewQuestionRecord;
  sum_superseded_by : option RunId;
  sum_retried_from : option RunId;
  sum_web : option string
}.

Definition build_summary (created_at : RunId -> DateTime) (s : RunProjection) (run_id : RunId) : Run :=
  let total := bt_total_usd_micros (projected_billing s) in {|
  sum_id := run_id; sum_parent_id := rp_parent_id s; sum_children_count := 0; sum_title := projection_title s;
  sum_goal := graph_goal (spec_graph (rp_spec s)); sum_workflow_slug := spec_workflow_slug (rp_spec s);
  sum_graph_name := if str_is_empty (graph_name (spec_graph (rp_spec s))) then None else Some (graph_name (spec_graph (rp_spec s)));
  sum_node_count := Z.of_nat (size (graph_nodes (spec_graph (rp_spec s))));
  sum_edge_count := Z.of_nat (length (graph_edges (spec_graph (rp_spec s)))); sum_labels := spec_labels (rp_spec s);
  sum_status := rp_status s; sum_approval := rp_approval s; sum_pending_control := rp_pending_control s;
  sum_archived := is_some (rp_archived_at s); sum_archived_at := rp_archived_at s; sum_sandbox := rp_sandbox s;
  sum_models := run_models s; sum_source_directory := spec_source_directory (rp_spec s);
  sum_created_at := created_at run_id; sum_started_at := start_time <$> rp_start s;
  sum_last_event_at := Some (rp_last_event_at s); sum_completed_at := con_timestamp <$> rp_conclusion s;
  sum_timing := con_timing <$> rp_conclusion s; sum_billing := total; sum_size := from_total_usd_micros total;
  sum_diff := summary_diff s; sum_pull_request := rp_pull_request s; sum_current_question := current_question s;
  sum_superseded_by := rp_superseded_by s; sum_retried_from := rp_retried_from s; sum_web := rp_web_url s
|}.

(** ** Keyed rows *)

Section keyed.
Context {K A : Type} `{!EqDecision K} (key : A -> K).

Definition row_of (k : K) (rows : list A) : option A := find_first (fun a => bool_decide (key a = k)) rows.

Lemma row_of_elem rows a : NoDup (key <$> rows) -> a ∈ rows -> row_of (key a) rows = Some a.
Proof.
  unfold row_of. induction rows as [|b rows IH]; [set_solver|]. rewrite fmap_cons. intros [Hn Hd]%NoDup_cons Ha. cbn [find_first].
  apply elem_of_cons in Ha as [->|Ha]; [by rewrite bool_decide_true|]. rewrite bool_decide_false; [by apply IH|].
  intros He. apply Hn, list_elem_of_fmap. eauto.
Qed.

Lemma row_of_Some k rows a : row_of k rows = Some a -> a ∈ rows /\ key a = k.
Proof. intros [Ha Hk%bool_decide_eq_true]%find_first_Some_elem. done. Qed.

Context (k : K) (f : A -> A) (fresh : A) (Hf : forall a, key a = k -> key (f a) = k) (Hk : key fresh = k).

Lemma update_first_rows rows k' :
  row_of k' (update_first (fun a => bool_decide (key a = k)) f rows) =
  if decide (k' = k) then f <$> row_of k rows else row_of k' rows.
Proof.
  unfold row_of. induction rows as [|b rows IH]; cbn [update_first find_first]; [by destruct (decide _)|].
  destruct (decide (key b = k)) as [Hb|Hb].
  - rewrite (bool_decide_true (key b = k)) by done. cbn [find_first]. destruct (decide (k' = k)) as [->|Hn].
    + rewrite bool_decide_true by auto. done.
    + rewrite !bool_decide_false; [done|congruence|]. rewrite Hf by done. congruence.
  - rewrite (bool_decide_false (key b = k)) by done. cbn [find_first]. rewrite IH. destruct (decide (k' = k)) as [->|Hn]; [|done].
    by rewrite bool_decide_false.
Qed.

Lemma update_first_keys rows : key <$> update_first (fun a => bool_decide (key a = k)) f rows = key <$> rows.
Proof.
  induction rows as [|b rows IH]; [done|]. cbn [update_first]. case_bool_decide as Hb; cbn [fmap list_fmap]; [|by rewrite IH].
  by rewrite Hf, Hb.
Qed.

Lemma row_of_snoc k' rows a : row_of k' (rows ++ [a]) = or_else (row_of k' rows) (if decide (key a = k') then Some a else None).
Proof.
  unfold row_of. induction rows as [|b rows IH]; cbn [app find_first].
  - destruct (decide _); [by rewrite bool_decide_true|by rewrite bool_decide_false].
  - case_bool_decide; [done|apply IH].
Qed.

Lemma existsb_row rows : existsb (fun a => bool_decide (key a = k)) rows = is_some (row_of k rows).
Proof.
  unfold row_of. induction rows as [|b rows IH]; [done|]. cbn [existsb find_first]. case_bool_decide; [done|]. exact IH.
Qed.

(** What an update leaves under each key. *)
Lemma upsert_rows rows k' :
  row_of k' (upsert (fun a => bool_decide (key a = k)) f fresh rows) =
  if decide (k' = k) then Some (f (default fresh (row_of k rows))) else row_of k' rows.
Proof.
  unfold upsert. rewrite existsb_row. destruct (row_of k rows) as [a|] eqn:Hr; cbn [is_some].
  - rewrite update_first_rows, Hr. done.
  - rewrite row_of_snoc, Hf by done. destruct (decide (k' = k)) as [->|Hn].
    + rewrite Hr, decide_True by done. done.
    + rewrite decide_False by done. by destruct (row_of k' rows).
Qed.

Lemma upsert_keys rows : NoDup (key <$> rows) -> NoDup (key <$> upsert (fun a => bool_decide (key a = k)) f fresh rows).
Proof.
  intros Hd. unfold upsert. rewrite existsb_row. destruct (row_of k rows) as [a|] eqn:Hr; cbn [is_some].
  - by rewrite update_first_keys.
  - rewrite fmap_app. apply NoDup_app. split; [done|]. split; [|apply NoDup_singleton].
    intros x (a & -> & Ha)%list_elem_of_fmap. cbn. rewrite Hf by done. intros He%list_elem_of_singleton.
    pose proof (row_of_elem rows a Hd Ha) as Hra. congruence.
Qed.

Lemma key_elem k' rows : k' ∈ key <$> rows <-> is_some (row_of k' rows) = true.
Proof.
  split; [|destruct (row_of k' rows) as [a|] eqn:Hr; [|done]; apply row_of_Some in Hr as [Ha <-]; intros _; by apply list_elem_of_fmap_2].
  unfold row_of. induction rows as [|b rows IH]; [set_solver|]. rewrite fmap_cons. cbn [find_first].
  case_bool_decide as Hb; [done|]. intros [->|?]%elem_of_cons; [done|auto].
Qed.

Lemma upsert_elem rows k' : k' ∈ key <$> upsert (fun a => bool_decide (key a = k)) f fresh rows <-> k' = k \/ k' ∈ key <$> rows.
Proof. rewrite !key_elem, upsert_rows. destruct (decide (k' = k)); naive_solver. Qed.

Lemma row_of_Permutation rows rows' k' : NoDup (key <$> rows) -> rows ≡ₚ rows' -> row_of k' rows = row_of k' rows'.
Proof.
  intros Hd Hp. assert (NoDup (key <$> rows')) as Hd' by by rewrite <- Hp.
  destruct (row_of k' rows') as [a|] eqn:Hr'.
  - apply row_of_Some in Hr' as [Ha <-]. apply row_of_elem; [done|]. by rewrite Hp.
  - destruct (row_of k' rows) as [a|] eqn:Hr; [|done]. apply row_of_Some in Hr as [Ha <-]. rewrite Hp in Ha.
    rewrite (row_of_elem rows' a) in Hr' by done. done.
Qed.
End keyed.

(** ** What the rollup adds up *)

Definition billing_of (node : string) (rows : list ProjectionBillingStage) : BilledTokenCounts :=
  from_option bs_billing BilledTokenCounts_default (row_of bs_node_id node rows).

Definition model_bill_of (m : ModelRef) (rows : list ProjectionBillingByModel) : Z * BilledTokenCounts :=
  from_option (fun e => (bm_stages e, bm_billing e)) (0, BilledTokenCounts_default) (row_of bm_model m rows).

Section rollup.
Context (price : option (ModelRef -> TokenCounts -> option Z)) (s : RunProjection).
Implicit Types (r : ProjectionBillingRollup) (e : StageId * StageProjection).

(** A visit that costs something and is not a boundary of the workflow. *)
Definition billed e : bool :=
  (negb (is_boundary_stage (sid_node e.1) s) && negb (billed_is_zero (billed_usage price e.2)))%bool.

Definition sum_usage (l : list (StageId * StageProjection)) : BilledTokenCounts :=
  foldl (fun acc e => add_counts (billed_usage price e.2) acc) BilledTokenCounts_default l.

Definition at_node (node : string) e : bool := bool_decide (sid_node e.1 = node).
Definition of_model (m : ModelRef) e : bool := bool_decide (sg_model e.2 = Some m).

Lemma with_row_billing node node' f g rows :
  (forall row, bs_node_id (f row) = bs_node_id row /\ bs_billing (f row) = g (bs_billing row)) ->
  billing_of node' (with_row node f rows) = if decide (node' = node) then g (billing_of node rows) else billing_of node' rows.
Proof.
  intros Hf. unfold billing_of, with_row. rewrite upsert_rows; [|intros a <-; apply Hf|done].
  destruct (decide (node' = node)) as [->|]; [|done]. cbn [from_option]. rewrite (proj2 (Hf _)).
  by destruct (row_of bs_node_id node rows).
Qed.

Lemma with_row_keys node f rows :
  (forall row, bs_node_id (f row) = bs_node_id row) -> NoDup (bs_node_id <$> rows) -> NoDup (bs_node_id <$> with_row node f rows).
Proof. intros Hf. apply upsert_keys; [intros a <-; apply Hf|done]. Qed.

(** One stage. *)
Definition rolled r e r' : Prop :=
  let u := billed_usage price e.2 in
  ru_totals r' = (if billed e then add_counts u (ru_totals r) else ru_totals r) /\
  ru_billed_visit_count r' = ru_billed_visit_count r + (if billed e then 1 else 0) /\
  (forall node, billing_of node (ru_stages r') =
     if (billed e && at_node node e)%bool then add_counts u (billing_of node (ru_stages r)) else billing_of node (ru_stages r)) /\
  (forall m, model_bill_of m (ru_by_model r') =
     if (billed e && of_model m e)%bool
     then (add_i64 (model_bill_of m (ru_by_model r)).1 1, add_counts u (model_bill_of m (ru_by_model r)).2)
     else model_bill_of m (ru_by_model r)) /\
  (NoDup (bs_node_id <$> ru_stages r) -> NoDup (bs_node_id <$> ru_stages r')) /\
  (NoDup (bm_model <$> ru_by_model r) -> NoDup (bm_model <$> ru_by_model r')).

Lemma row_kept node node' f rows :
  (forall row, bs_node_id (f row) = bs_node_id row /\ bs_billing (f row) = bs_billing row) ->
  billing_of node' (with_row node f rows) = billing_of node' rows.
Proof. intros Hf. rewrite (with_row_billing _ _ _ (fun b => b)) by done. by destruct (decide (node' = node)) as [->|]. Qed.

Lemma with_model_bill m m' f rows (g : Z * BilledTokenCounts -> Z * BilledTokenCounts) :
  (forall row, bm_model (f row) = bm_model row /\ (bm_stages (f row), bm_billing (f row)) = g (bm_stages row, bm_billing row)) ->
  model_bill_of m' (with_model m f rows) =
  if decide (m' = m) then g (model_bill_of m rows) else model_bill_of m' rows.
Proof.
  intros Hf. unfold model_bill_of, with_model. rewrite upsert_rows; [|intros a <-; apply Hf|done].
  destruct (decide (m' = m)) as [->|]; [|done]. cbn [from_option]. rewrite (proj2 (Hf _)).
  by destruct (row_of bm_model m rows).
Qed.

Lemma rolled_skip r e : billed e = false -> rolled r e r.
Proof. intros Hb. unfold rolled. rewrite Hb. cbn [andb]. rewrite Z.add_0_r. done. Qed.

(** The row and the timing a visit leaves before its usage is looked at. *)
Definition shown r e : ProjectionBillingRollup :=
  let r := { r with ru_stages := with_row (sid_node e.1) (fun row => row) (ru_stages r) } in
  match sg_timing e.2 with
  | Some t => { r with ru_stages := with_row (sid_node e.1) (fun row =>
                         { row with bs_timing := StageTiming_saturating_add (bs_timing row) t }) (ru_stages r);
                       ru_timing := RunTiming_saturating_add (ru_timing r) (RunTiming_from t) }
  | None => r
  end.

Lemma shown_bills r e :
  ru_totals (shown r e) = ru_totals r /\ ru_billed_visit_count (shown r e) = ru_billed_visit_count r /\
  (forall node, billing_of node (ru_stages (shown r e)) = billing_of node (ru_stages r)) /\
  ru_by_model (shown r e) = ru_by_model r /\
  (NoDup (bs_node_id <$> ru_stages r) -> NoDup (bs_node_id <$> ru_stages (shown r e))).
Proof.
  unfold shown. destruct r as [rows tot bym tim cnt]. destruct (sg_timing e.2) as [t|]; cbn -[with_row billing_of]; unfold constant;
    (split_and!; [done|done| |done|]); intros; rewrite ?row_kept by (by intros []); repeat apply with_row_keys; done || by intros [].
Qed.

(** The usage of a visit, once it has its row. *)
Definition charge r e : ProjectionBillingRollup :=
  let usage := billed_usage price e.2 in
  let r := { r with ru_billed_visit_count := ru_billed_visit_count r + 1;
                    ru_stages := with_row (sid_node e.1) (fun row =>
                      { row with bs_billing := add_counts usage (bs_billing row) }) (ru_stages r);
                    ru_totals := add_counts usage (ru_totals r) } in
  match sg_model e.2 with
  | Some m => { r with ru_stages := with_row (sid_node e.1) (fun row => { row with bs_model := Some m }) (ru_stages r);
                       ru_by_model := with_model m (fun row =>
                         { row with bm_stages := add_i64 (bm_stages row) 1; bm_billing := add_counts usage (bm_billing row) })
                         (ru_by_model r) }
  | None => r
  end.

Lemma rollup_stage_steps r e :
  rollup_stage price s r e = (if billed e then charge (shown r e) e else r) \/
  billed e = false /\ rollup_stage price s r e = shown r e.
Proof.
  destruct e as [id g]. unfold rollup_stage, billed. cbn [fst snd]. destruct (is_boundary_stage (sid_node id) s); [by left|].
  destruct (billed_is_zero (billed_usage price g)); cbn [negb andb].
  - destruct (_ && _ && _)%bool; [by left|]. right. done.
  - rewrite andb_false_r. by left.
Qed.

Lemma charge_rolled r e : billed e = true -> rolled r e (charge r e).
Proof.
  intros Hb. unfold rolled. rewrite Hb. unfold charge, at_node, of_model. cbn [andb]. destruct r as [rows tot bym tim cnt].
  destruct (sg_model e.2) as [m|]; cbn -[with_row with_model billing_of model_bill_of]; unfold constant; split_and!; try done.
  - intros node. rewrite row_kept by (by intros []). rewrite (with_row_billing _ _ _ (add_counts (billed_usage price e.2))) by (by intros []).
    destruct (decide (node = sid_node e.1)) as [->|]; [by rewrite bool_decide_true|by rewrite bool_decide_false].
  - intros m'. rewrite (with_model_bill _ _ _ _ (fun p => (add_i64 p.1 1, add_counts (billed_usage price e.2) p.2))) by (by intros []).
    destruct (decide (m' = m)) as [->|]; [by rewrite bool_decide_true|]. rewrite bool_decide_false; congruence.
  - intros. repeat (apply with_row_keys; [by intros []|]). done.
  - apply upsert_keys; [by intros []|done].
  - intros node. rewrite (with_row_billing _ _ _ (add_counts (billed_usage price e.2))) by (by intros []).
    destruct (decide (node = sid_node e.1)) as [->|]; [by rewrite bool_decide_true|by rewrite bool_decide_false].
  - intros. apply with_row_keys; [by intros []|done].
Qed.

Lemma rollup_stage_rolled r e : rolled r e (rollup_stage price s r e).
Proof.
  destruct (shown_bills r e) as (H1 & H2 & H3 & H4 & H5). destruct (rollup_stage_steps r e) as [->|[Hb ->]].
  - destruct (billed e) eqn:Hb; [|by apply rolled_skip]. pose proof (charge_rolled (shown r e) e Hb) as Hc. unfold rolled in *.
    rewrite H1, H2, H4 in Hc. destruct Hc as (-> & -> & Hn & Hm & Hk & Hd). split_and!; try done; [|by auto]. intros node. by rewrite Hn, H3.
  - unfold rolled. rewrite Hb, H1, H2, H4, Z.add_0_r. cbn [andb]. done.
Qed.

(** *** The whole fold *)

Lemma sum_usage_snoc l e : sum_usage (l ++ [e]) = add_counts (billed_usage price e.2) (sum_usage l).
Proof. unfold sum_usage. by rewrite foldl_app. Qed.

Definition billed_visits (l : list (StageId * StageProjection)) : list (StageId * StageProjection) := filterb billed l.

Lemma billed_visits_snoc l e : billed_visits (l ++ [e]) = billed_visits l ++ (if billed e then [e] else []).
Proof. unfold billed_visits. rewrite filterb_app. by cbn; destruct (billed e). Qed.

Definition rolled_up r (l : list (StageId * StageProjection)) : Prop :=
  ru_totals r = sum_usage (billed_visits l) /\
  ru_billed_visit_count r = Z.of_nat (length (billed_visits l)) /\
  (forall node, billing_of node (ru_stages r) = sum_usage (filterb (at_node node) (billed_visits l))) /\
  (forall m, model_bill_of m (ru_by_model r) =
     (wrap_i64 (Z.of_nat (length (filterb (of_model m) (billed_visits l)))), sum_usage (filterb (of_model m) (billed_visits l)))) /\
  NoDup (bs_node_id <$> ru_stages r) /\ NoDup (bm_model <$> ru_by_model r).

Lemma filterb_snoc {A} (f : A -> bool) l a : filterb f (l ++ [a]) = filterb f l ++ (if f a then [a] else []).
Proof. rewrite filterb_app. by cbn; destruct (f a). Qed.

Lemma rolled_up_step r l e r' : rolled_up r l -> rolled r e r' -> rolled_up r' (l ++ [e]).
Proof.
  intros (Ht & Hc & Hn & Hm & Hk & Hd) (Ht' & Hc' & Hn' & Hm' & Hk' & Hd'). unfold rolled_up. rewrite billed_visits_snoc.
  rewrite Ht', Hc'. destruct (billed e) eqn:Hb; cbn [andb] in *.
  - rewrite sum_usage_snoc, Ht, Hc, length_app. cbn [length]. split_and!; [done|lia| | |auto|auto].
    + intros node. rewrite Hn', Hn, filterb_snoc. destruct (at_node node e); [by rewrite sum_usage_snoc|by rewrite app_nil_r].
    + intros m. rewrite Hm', Hm, filterb_snoc. destruct (of_model m e); [|by rewrite app_nil_r].
      rewrite sum_usage_snoc, length_app. cbn [fst snd length]. unfold add_i64. rewrite wrap_i64_wrap. do 2 f_equal. lia.
  - rewrite app_nil_r, Z.add_0_r, Ht, Hc. split_and!; auto; [intros node; by rewrite Hn', Hn|intros m; by rewrite Hm', Hm].
Qed.

Lemma rollup_rolled l : rolled_up (foldl (rollup_stage price s) rollup_new l) l.
Proof.
  induction l as [|e l IH] using rev_ind; [split_and!; try done; constructor|].
  rewrite foldl_app. eapply rolled_up_step; [exact IH|apply rollup_stage_rolled].
Qed.
End rollup.

(** *** Bills that differ at most in an explicit zero cost *)

Definition same_bill (a b : BilledTokenCounts) : Prop :=
  token_counts a = token_counts b /\ bt_total a = bt_total b /\
  default 0 (bt_total_usd_micros a) = default 0 (bt_total_usd_micros b).

#[export] Instance same_bill_equivalence : Equivalence same_bill.
Proof.
  unfold same_bill. split; [done|intros a b (-> & -> & ->); done|]. intros a b c (-> & -> & ->) (-> & -> & ->). done.
Qed.

Lemma billed_usage_unpriced g : billed_usage None g = sg_usage g.
Proof. unfold billed_usage. by destruct (_ || _)%bool. Qed.


#[export] Instance add_counts_proper u : Proper (same_bill ==> same_bill) (add_counts u).
Proof.
  intros a b (Ht & He & Hc). injection Ht as H1 H2 H3 H4 H5. unfold same_bill, add_counts, token_counts. cbn.
  rewrite H1, H2, H3, H4, H5, He. split; [done|]. split; [done|]. destruct (bt_total_usd_micros u); cbn; by rewrite Hc.
Qed.

Definition i64 (z : Z) : Prop := i64_min <= z <= i64_max.

(** Every count of a bill is a machine integer. *)
Definition bill_fits (b : BilledTokenCounts) : Prop :=
  i64 (bt_input b) /\ i64 (bt_output b) /\ i64 (bt_total b) /\ i64 (bt_reasoning b) /\ i64 (bt_cache_read b) /\
  i64 (bt_cache_write b) /\ i64 (default 0 (bt_total_usd_micros b)).

Lemma wrap_i64_fits z : i64 (wrap_i64 z).
Proof. unfold i64, wrap_i64, i64_min, i64_max. pose proof (Z.mod_pos_bound (z + 2 ^ 63) (2 ^ 64)). lia. Qed.

Lemma wrap_i64_id z : i64 z -> wrap_i64 z = z.
Proof. unfold i64, wrap_i64, i64_min, i64_max. intros. rewrite Z.mod_small; lia. Qed.

Lemma add_counts_fits u b : bill_fits b -> bill_fits (add_counts u b).
Proof.
  intros (_ & _ & _ & _ & _ & _ & Hc). unfold bill_fits, add_counts. cbn. split_and!; try apply wrap_i64_fits.
  destruct (bt_total_usd_micros u); [|done]. cbn. unfold i64, saturating_add_i64, i64_min, i64_max. lia.
Qed.

Lemma bill_fits_default : bill_fits BilledTokenCounts_default.
Proof. unfold bill_fits, i64, i64_min, i64_max. cbn. lia. Qed.

Lemma add_counts_zero u b : bill_fits b -> billed_is_zero u = true -> same_bill (add_counts u b) b.
Proof.
  intros (H1 & H2 & H3 & H4 & H5 & H6 & H7). unfold billed_is_zero. rewrite !andb_true_iff, !Z.eqb_eq.
  intros ((((((Hi & Ho) & Ht) & Hr) & Hcr) & Hcw) & Hc). unfold same_bill, add_counts, token_counts, add_i64. cbn.
  rewrite Hi, Ho, Ht, Hr, Hcr, Hcw, !Z.add_0_r, !wrap_i64_id by done. split; [done|]. split; [done|].
  destruct (bt_total_usd_micros u) as [c|]; [|done]. cbn in Hc |- *. subst c. unfold saturating_add_i64, i64 in *. lia.
Qed.

(** The live total of a summary is the total of the rollup. *)
Lemma live_total (s : RunProjection) l :
  let add acc e := if is_boundary_stage (sid_node e.1) s then acc else add_counts (sg_usage e.2) acc in
  same_bill (foldl add BilledTokenCounts_default l) (sum_usage None (billed_visits None s l)) /\ bill_fits (foldl add BilledTokenCounts_default l).
Proof.
  intros add. induction l as [|e l [IH Hf]] using rev_ind; [split; [done|exact bill_fits_default]|].
  rewrite foldl_app, billed_visits_snoc. cbn [foldl]. unfold billed, add at 1 3. destruct (is_boundary_stage _ _); cbn [negb andb].
  { by rewrite app_nil_r. }
  split; [|by apply add_counts_fits]. rewrite billed_usage_unpriced. destruct (billed_is_zero (sg_usage e.2)) eqn:Hz; cbn [negb].
  - rewrite app_nil_r. etransitivity; [by apply add_counts_zero|done].
  - rewrite sum_usage_snoc, billed_usage_unpriced. by rewrite IH.
Qed.

(** *** The rows add up *)

(** A count of a bill that adding bills adds. *)
Definition additive (w : BilledTokenCounts -> Z) : Prop :=
  w BilledTokenCounts_default = 0 /\ forall u b, w (add_counts u b) = add_i64 (w b) (w u).

Definition column (w : BilledTokenCounts -> Z) (rows : list ProjectionBillingStage) : Z :=
  foldr (fun row acc => w (bs_billing row) + acc) 0 rows.

Lemma column_cons w row rows : column w (row :: rows) = w (bs_billing row) + column w rows.
Proof. done. Qed.

Lemma with_row_column w node f x rows :
  w BilledTokenCounts_default = 0 -> (forall row, wrap_i64 (w (bs_billing (f row))) = wrap_i64 (w (bs_billing row) + x)) ->
  wrap_i64 (column w (with_row node f rows)) = wrap_i64 (column w rows + x).
Proof.
  intros Hw Hf. unfold with_row, upsert. destruct (existsb _ rows) eqn:He.
  - induction rows as [|row rows IH]; [done|]. cbn [existsb update_first] in *. destruct (bool_decide (bs_node_id row = node)).
    + rewrite !column_cons, <- wrap_i64_wrap, Hf, wrap_i64_wrap. f_equal. lia.
    + rewrite !column_cons, <- wrap_i64_wrap_r, IH by done. rewrite wrap_i64_wrap_r. f_equal. lia.
  - clear He. induction rows as [|row rows IH]; cbn [app].
    + cbn. rewrite Z.add_0_r, Hf. cbn. by rewrite Hw.
    + rewrite !column_cons, <- wrap_i64_wrap_r, IH, wrap_i64_wrap_r. f_equal. lia.
Qed.

Lemma with_row_column_kept w node f rows :
  w BilledTokenCounts_default = 0 -> (forall row, bs_billing (f row) = bs_billing row) ->
  wrap_i64 (column w (with_row node f rows)) = wrap_i64 (column w rows).
Proof. intros Hw Hf. rewrite (with_row_column _ _ _ 0), Z.add_0_r; [done|done|]. intros row. by rewrite Hf, Z.add_0_r. Qed.

Section columns.
Context (price : option (ModelRef -> TokenCounts -> option Z)) (s : RunProjection) (w : BilledTokenCounts -> Z) (Hw : additive w).

Lemma shown_column r e : wrap_i64 (column w (ru_stages (shown r e))) = wrap_i64 (column w (ru_stages r)).
Proof.
  destruct Hw as [Hz _]. unfold shown. destruct r, (sg_timing e.2); cbn -[with_row column]; unfold constant;
    by rewrite !with_row_column_kept by (done || by intros []).
Qed.

Lemma charge_column r e :
  wrap_i64 (column w (ru_stages (charge price r e))) = wrap_i64 (column w (ru_stages r) + w (billed_usage price e.2)) /\
  ru_totals (charge price r e) = add_counts (billed_usage price e.2) (ru_totals r).
Proof.
  destruct Hw as [Hz Ha]. unfold charge. destruct r, (sg_model e.2); cbn -[with_row column]; unfold constant; (split; [|done]).
  1: rewrite with_row_column_kept by (done || by intros []).
  all: apply with_row_column; [done|]; intros []; cbn; rewrite Ha; apply wrap_i64_id, wrap_i64_fits.
Qed.

Lemma rollup_column l :
  let r := foldl (rollup_stage price s) rollup_new l in wrap_i64 (column w (ru_stages r)) = w (ru_totals r).
Proof.
  cbn zeta. induction l as [|e l IH] using rev_ind; [cbn; by rewrite (proj1 Hw)|].
  rewrite foldl_app. cbn [foldl]. set (r := foldl (rollup_stage price s) rollup_new l) in *.
  pose proof (shown_column r e) as Hs. destruct (shown_bills r e) as (Ht & _).
  destruct (rollup_stage_steps price s r e) as [->|[_ ->]]; [|congruence]. destruct (billed price s e); [|done].
  destruct (charge_column (shown r e) e) as [-> ->]. rewrite (proj2 Hw), Ht, <- IH, <- wrap_i64_wrap, Hs. done.
Qed.
End columns.

(** The counts of tokens. *)
Definition token_columns : list (BilledTokenCounts -> Z) := [bt_input; bt_output; bt_total; bt_reasoning; bt_cache_read; bt_cache_write].

Lemma token_columns_additive w : w ∈ token_columns -> additive w.
Proof. unfold token_columns. set_unfold. intros Hw. repeat destruct Hw as [->|Hw]; by split. Qed.

(** *** The costs add up, as far as a cost goes *)

Definition cost_of (b : BilledTokenCounts) : Z := default 0 (bt_total_usd_micros b).
Definition cost_fits (b : BilledTokenCounts) : Prop := 0 <= cost_of b <= i64_max.

Lemma cost_added u b : 0 <= cost_of u -> cost_fits b -> cost_of (add_counts u b) = Z.min i64_max (cost_of b + cost_of u).
Proof.
  unfold cost_fits, cost_of, add_counts. cbn. unfold accumulate_optional_usd_micros, saturating_add_i64, i64_min, i64_max.
  destruct (bt_total_usd_micros u); cbn; lia.
Qed.

Lemma cost_fits_added u b : 0 <= cost_of u -> cost_fits b -> cost_fits (add_counts u b).
Proof. intros Hu Hb. unfold cost_fits in *. rewrite (cost_added u b) by done. lia. Qed.

Lemma column_cost_pos rows : Forall (cost_fits ∘ bs_billing) rows -> 0 <= column cost_of rows.
Proof. induction 1 as [|row rows [Hr _] _ IH]; [done|]. rewrite column_cons. lia. Qed.

Lemma with_row_cost node f x rows :
  0 <= x -> (forall row, cost_fits (bs_billing row) -> cost_of (bs_billing (f row)) = Z.min i64_max (cost_of (bs_billing row) + x)) ->
  Forall (cost_fits ∘ bs_billing) rows ->
  Forall (cost_fits ∘ bs_billing) (with_row node f rows) /\ Z.min i64_max (column cost_of (with_row node f rows)) = Z.min i64_max (column cost_of rows + x).
Proof.
  intros Hx Hf Hall. assert (forall row, cost_fits (bs_billing row) -> cost_fits (bs_billing (f row))) as Hfit.
  { intros row Hr. pose proof (Hf row Hr). unfold cost_fits in *. lia. }
  assert (0 <= i64_max) as Hmax by (unfold i64_max; lia).
  unfold with_row, upsert. destruct (existsb _ rows) eqn:He.
  - induction Hall as [|row rows Hr Hrows IH]; [done|]. pose proof (column_cost_pos rows Hrows) as Hpos. cbn [existsb update_first] in *.
    destruct (bool_decide (bs_node_id row = node)); rewrite !column_cons.
    + split; [constructor; [by apply Hfit|done]|]. rewrite (Hf row Hr). lia.
    + destruct IH as [IH1 IH2]; [done|]. split; [by constructor|]. pose proof (column_cost_pos _ IH1). destruct Hr as [Hr _]. cbn in Hr. lia.
  - clear He. split.
    + apply Forall_app. split; [done|]. constructor; [|done]. apply Hfit. split; cbn; lia.
    + induction Hall as [|row rows Hr Hrows IH]; cbn [app].
      * rewrite column_cons. cbn [column foldr]. rewrite Hf by (split; cbn; lia). cbn. lia.
      * rewrite !column_cons. destruct Hr as [Hr _]. cbn in Hr. pose proof (column_cost_pos rows Hrows). lia.
Qed.

Section costs.
Context (price : option (ModelRef -> TokenCounts -> option Z)) (s : RunProjection).

(** The cost of the total is what its rows cost together. *)
Definition costs_agree (r : ProjectionBillingRollup) : Prop :=
  Forall (cost_fits ∘ bs_billing) (ru_stages r) /\ cost_of (ru_totals r) = Z.min i64_max (column cost_of (ru_stages r)).

Lemma with_row_cost_kept node f rows : (forall row, bs_billing (f row) = bs_billing row) -> Forall (cost_fits ∘ bs_billing) rows ->
  Forall (cost_fits ∘ bs_billing) (with_row node f rows) /\ Z.min i64_max (column cost_of (with_row node f rows)) = Z.min i64_max (column cost_of rows).
Proof.
  intros Hf Hall. rewrite <- (Z.add_0_r (column cost_of rows)). apply with_row_cost; [lia| |done]. intros row [Hr Hr']. rewrite Hf. lia.
Qed.

Lemma shown_costs r e : costs_agree r -> costs_agree (shown r e).
Proof.
  intros [Hall Hc]. unfold costs_agree, shown. destruct r as [rows tot bym tim cnt]. cbn [ru_stages ru_totals] in Hall, Hc.
  destruct (with_row_cost_kept (sid_node e.1) (fun row => row) rows) as [A1 A2]; [done|done|].
  destruct (sg_timing e.2) as [t|]; cbn -[with_row column]; unfold constant; [|by rewrite A2].
  match goal with |- context [with_row _ ?f (with_row _ _ rows)] => destruct (with_row_cost_kept (sid_node e.1) f _ ltac:(by intros []) A1) as [B1 B2] end.
  by rewrite B2, A2.
Qed.

Lemma charge_costs r e : 0 <= cost_of (billed_usage price e.2) -> costs_agree r -> costs_agree (charge price r e).
Proof.
  intros Hu [Hall Hc]. unfold costs_agree, charge. destruct r as [rows tot bym tim cnt]. cbn [ru_stages ru_totals] in Hall, Hc.
  assert (cost_fits tot) as Htot by (pose proof (column_cost_pos rows Hall); unfold cost_fits; rewrite Hc; unfold i64_max; lia).
  destruct (with_row_cost (sid_node e.1) (fun row => { row with bs_billing := add_counts (billed_usage price e.2) (bs_billing row) }) (cost_of (billed_usage price e.2)) rows) as [A1 A2];
    [done|intros [] Hr; cbn in *; by apply cost_added|done|].
  assert (cost_of (add_counts (billed_usage price e.2) tot) = Z.min i64_max (column cost_of rows + cost_of (billed_usage price e.2))) as Hn.
  { rewrite cost_added, Hc by done. lia. }
  destruct (sg_model e.2) as [m|]; cbn -[with_row column cost_of add_counts with_model]; unfold constant; [|split; [exact A1|etrans; [exact Hn|symmetry; exact A2]]].
  match goal with |- context [with_row _ ?f (with_row _ _ rows)] => destruct (with_row_cost_kept (sid_node e.1) f _ ltac:(by intros []) A1) as [B1 B2] end.
  split; [exact B1|]. etrans; [exact Hn|]. symmetry. etrans; [exact B2|exact A2].
Qed.

Lemma rollup_costs l : (forall v, v ∈ billed_visits price s l -> 0 <= cost_of (billed_usage price v.2)) -> costs_agree (foldl (rollup_stage price s) rollup_new l).
Proof.
  induction l as [|e l IH] using rev_ind; intros Hall; [split; [done|reflexivity]|].
  rewrite foldl_app. cbn [foldl]. rewrite billed_visits_snoc in Hall. set (r := foldl (rollup_stage price s) rollup_new l) in *.
  assert (costs_agree r) as Hr by (apply IH; set_solver).
  destruct (rollup_stage_steps price s r e) as [->|[_ ->]]; [|by apply shown_costs]. destruct (billed price s e); [|done].
  apply charge_costs; [apply Hall; set_solver|by apply shown_costs].
Qed.
End costs.

(** *** The rows there are *)

Lemma with_row_elem node f rows node' :
  (forall row, bs_node_id (f row) = bs_node_id row) ->
  node' ∈ bs_node_id <$> with_row node f rows <-> node' = node \/ node' ∈ bs_node_id <$> rows.
Proof. intros Hf. apply upsert_elem; [intros a <-; apply Hf|done]. Qed.

Lemma with_model_elem m f rows m' :
  (forall row, bm_model (f row) = bm_model row) ->
  m' ∈ bm_model <$> with_model m f rows <-> m' = m \/ m' ∈ bm_model <$> rows.
Proof. intros Hf. apply upsert_elem; [intros a <-; apply Hf|done]. Qed.

Section present.
Context (price : option (ModelRef -> TokenCounts -> option Z)) (s : RunProjection).

Lemma shown_nodes r e node :
  node ∈ bs_node_id <$> ru_stages (shown r e) <-> node = sid_node e.1 \/ node ∈ bs_node_id <$> ru_stages r.
Proof.
  unfold shown. destruct r, (sg_timing e.2); cbn -[with_row]; unfold constant; rewrite !with_row_elem by (by intros []); tauto.
Qed.

Lemma charge_nodes r e node :
  node ∈ bs_node_id <$> ru_stages (charge price r e) <-> node = sid_node e.1 \/ node ∈ bs_node_id <$> ru_stages r.
Proof.
  unfold charge. destruct r, (sg_model e.2); cbn -[with_row]; unfold constant; rewrite !with_row_elem by (by intros []); tauto.
Qed.

Lemma charge_models r e m :
  m ∈ bm_model <$> ru_by_model (charge price r e) <-> sg_model e.2 = Some m \/ m ∈ bm_model <$> ru_by_model r.
Proof.
  unfold charge. destruct r, (sg_model e.2); cbn -[with_model]; unfold constant; rewrite ?with_model_elem by (by intros []); naive_solver.
Qed.

Lemma billed_visits_elem_snoc l e v : v ∈ billed_visits price s (l ++ [e]) <-> v ∈ billed_visits price s l \/ billed price s e = true /\ v = e.
Proof. rewrite billed_visits_snoc, elem_of_app. destruct (billed price s e); set_solver. Qed.

Lemma rollup_present l :
  let r := foldl (rollup_stage price s) rollup_new l in
  (forall v, v ∈ billed_visits price s l -> sid_node v.1 ∈ bs_node_id <$> ru_stages r) /\
  (forall m, m ∈ bm_model <$> ru_by_model r <-> exists v, v ∈ billed_visits price s l /\ sg_model v.2 = Some m).
Proof.
  cbn zeta. induction l as [|e l [IHn IHm]] using rev_ind; [split; [set_solver|]; cbn; set_solver|].
  rewrite foldl_app. cbn [foldl]. set (r := foldl (rollup_stage price s) rollup_new l) in *.
  destruct (shown_bills r e) as (_ & _ & _ & Hm & _).
  assert (billed price s e = true \/ billed price s e = false) as [Hb|Hb] by (destruct (billed _ _ _); auto);
    destruct (rollup_stage_steps price s r e) as [->|[Hb' ->]]; try congruence; rewrite ?Hb.
  all: split; [intros v [Hv|[? ->]]%billed_visits_elem_snoc|intros m]; rewrite ?charge_nodes, ?shown_nodes, ?charge_models, ?Hm; auto; try congruence.
  all: setoid_rewrite billed_visits_elem_snoc; rewrite IHm.
  - split; [intros [?|(v & ? & ?)]; eauto 6|]. intros (v & [?|[_ ->]] & ?); eauto.
  - split; [intros (v & ? & ?); eauto|]. intros (v & [?|[? _]] & ?); [eauto|congruence].
  - split; [intros (v & ? & ?); eauto|]. intros (v & [?|[? _]] & ?); [eauto|congruence].
Qed.
End present.

(** ** The views of a bill agree *)

#[local] Instance opt_text_le_total : Total opt_text_le.
Proof. intros [a|] [b|]; cbn; auto. apply (total String.le). Qed.

#[export] Instance by_model_le_total : Total by_model_le.
Proof.
  intros a b. unfold by_model_le. pose proof (total String.le). pose proof (total opt_text_le).
  repeat destruct (decide _); try congruence; auto.
Qed.

(** The summary's bill of a run that has no final one, and the size it is given. *)
Lemma live_bill_is_rollup (s : RunProjection) :
  (c ← rp_conclusion s; con_billing c) = None ->
  let total := ru_totals (billing_rollup_from_projection None s) in
  same_bill (projected_billing s) total /\
  forall created_at run_id, sum_size (build_summary created_at s run_id) = from_total_usd_micros (bt_total_usd_micros total).
Proof.
  intros Hc. cbn zeta. assert (same_bill (projected_billing s) (ru_totals (billing_rollup_from_projection None s))) as Hs.
  { unfold projected_billing. rewrite Hc. destruct (rollup_rolled None s (iter_stages s)) as (Ht & _).
    unfold billing_rollup_from_projection. destruct (foldl (rollup_stage None s) _ _). cbn -[billed_visits sum_usage] in *. unfold constant.
    rewrite Ht. apply live_total. }
  split; [done|]. intros created_at run_id. cbn. unfold from_total_usd_micros. destruct Hs as (_ & _ & ->). done.
Qed.

(** C33: the bill of a run adds up however it is looked at, with or without prices for what
    reported no cost.  The total is the sum of the usage of the visits that are billed (those
    outside the boundary of the workflow that used something), each counted once; the row of
    a node has the sum over the visits of that node, every billed node has exactly one row;
    each of the six counts of tokens in the total is the sum of that column over the rows
    (the code adds with wrap-around), and the cost of the total is the sum of the costs of
    the rows, cut off at the largest cost there is, when no cost is negative; the entry of a
    model has the number of its visits and their sum, exactly the models used have one, in
    order; nothing is reported when no visit is billed.
    A summary made before the run has its final bill shows the total of the rollup without
    prices and the size of that total; the bill that a server makes with the prices of its
    catalog has the same tokens and can have a greater cost. *)
Theorem rollup_exact (price : option (ModelRef -> TokenCounts -> option Z)) (s : RunProjection) :
  let r := billing_rollup_from_projection price s in
  let vs := filterb (billed price s) (iter_stages s) in
  ru_totals r = sum_usage price vs /\
  billing_if_present r = match vs with [] => None | _ => Some (sum_usage price vs) end /\
  (forall row, row ∈ ru_stages r -> bs_billing row = sum_usage price (filterb (at_node (bs_node_id row)) vs)) /\
  (forall v, v ∈ vs -> sid_node v.1 ∈ bs_node_id <$> ru_stages r) /\
  (forall w, w ∈ token_columns -> w (ru_totals r) = wrap_i64 (column w (ru_stages r))) /\
  ((forall v, v ∈ vs -> 0 <= cost_of (billed_usage price v.2)) -> cost_of (ru_totals r) = Z.min i64_max (column cost_of (ru_stages r))) /\
  (forall row, row ∈ ru_by_model r -> let own := filterb (of_model (bm_model row)) vs in
     bm_stages row = wrap_i64 (Z.of_nat (length own)) /\ bm_billing row = sum_usage price own) /\
  (forall m, m ∈ bm_model <$> ru_by_model r <-> exists v, v ∈ vs /\ sg_model v.2 = Some m) /\
  NoDup (bs_node_id <$> ru_stages r) /\ NoDup (bm_model <$> ru_by_model r) /\ Sorted by_model_le (ru_by_model r) /\
  ((c ← rp_conclusion s; con_billing c) = None ->
   let total := ru_totals (billing_rollup_from_projection None s) in
   same_bill (projected_billing s) total /\
   forall created_at run_id, sum_size (build_summary created_at s run_id) = from_total_usd_micros (bt_total_usd_micros total)).
Proof.
  cbn zeta. pose proof (live_bill_is_rollup s) as Hlive. revert Hlive. generalize (billing_rollup_from_projection None s). intros live Hlive.
  unfold billing_if_present, billing_rollup_from_projection. set (r := foldl _ _ _).
  destruct (rollup_rolled price s (iter_stages s)) as (Ht & Hc & Hn & Hm & Hk & Hd).
  destruct (rollup_present price s (iter_stages s)) as [Hpn Hpm]. fold r in Ht, Hc, Hn, Hm, Hk, Hd, Hpn, Hpm.
  pose proof (fun w Hw => rollup_column price s w Hw (iter_stages s)) as Hw. cbn zeta in Hw. fold r in Hw.
  pose proof (rollup_costs price s (iter_stages s)) as Hcost. unfold costs_agree in Hcost. fold r in Hcost.
  change (filterb (billed price s) (iter_stages s)) with (billed_visits price s (iter_stages s)).
  destruct r as [rows tot bym tim cnt]. cbn -[merge_sort billed_visits sum_usage wrap_i64 column cost_of billing_of model_bill_of filterb token_columns] in *. unfold constant.
  split_and!; try done.
  - rewrite Hc, Ht. by destruct (billed_visits price s (iter_stages s)).
  - intros row Hr. rewrite <- Hn. unfold billing_of. by rewrite row_of_elem.
  - intros w Hlin%token_columns_additive. by rewrite Hw.
  - intros Hpos. apply Hcost, Hpos.
  - intros row Hr. rewrite merge_sort_Permutation in Hr. specialize (Hm (bm_model row)). unfold model_bill_of in Hm.
    rewrite row_of_elem in Hm by done. by injection Hm.
  - intros m. by rewrite merge_sort_Permutation.
  - by rewrite merge_sort_Permutation.
  - apply Sorted_merge_sort, _.
Qed.

(** Two visits of one node and one of another, on two models. *)
Definition sample_message (seq : Z) (node : string) (visit : Z) (model : string) (input cost : Z) : EventEnvelope :=
  sample_env seq (Some (mkStageId node visit)) (BAgentMessage {| am_model := mkModelRef "p" model None;
    am_billing := mkBilled input 0 input 0 0 0 (Some cost); am_visit := visit; am_context_window := None |}).

Definition sample_billed : RunProjection :=
  after [sample_message 2 "plan" 1 "z" 10 5; sample_message 3 "code" 1 "a" 20 7; sample_message 4 "plan" 2 "z" 30 9].

Example sample_rollup :
  let r := billing_rollup_from_projection None sample_billed in
  ((fun row => (bs_node_id row, bt_input (bs_billing row))) <$> ru_stages r) = [("plan", 40); ("code", 20)] /\
  ((fun row => (mr_model_id (bm_model row), bm_stages row)) <$> ru_by_model r) = [("a", 1); ("z", 2)] /\
  ru_totals r = mkBilled 60 0 60 0 0 0 (Some 21) /\ projected_billing sample_billed = ru_totals r.
Proof. vm_compute. done. Qed.

Lemma rollup_exact_witness :
  cost_of (ru_totals (billing_rollup_from_projection None sample_billed)) = 21
  /\ column cost_of (ru_stages (billing_rollup_from_projection None sample_billed)) = 21
  /\ same_bill (projected_billing sample_billed) (ru_totals (billing_rollup_from_projection None sample_billed)).
Proof.
  destruct (rollup_exact None sample_billed) as (_ & _ & _ & _ & _ & Hcost & _ & _ & _ & _ & _ & Hlive).
  assert (Forall (fun v => 0 <= cost_of (billed_usage None v.2)) (filterb (billed None sample_billed) (iter_stages sample_billed))) as Hpos
    by (vm_compute; repeat constructor; discriminate).
  split; [rewrite Hcost; [vm_compute; reflexivity|exact (proj1 (Forall_forall _ _) Hpos)]|].
  split; [vm_compute; reflexivity|]. exact (proj1 (Hlive eq_refl)).
Defined.
