(* ===== verification/ProjectionCache.v ===== *)
(** * The projection cache (fabro-store/src/slate/projection_cache.rs)

    All runs of a store in memory, with their summaries, and an index from a run to the
    runs it is the parent of.  The theorem shows that the index is invisible: every
    operation answers as it would on the entries alone, searched from end to end.

    A run id is its text, and ULIDs are ordered as their texts are.  The time in a run id
    is read by the ulid crate, and is a parameter.  The cache is behind one mutex, so an
    operation is a step. *)

From S2P Require Import Prelude RustStr RustNum DecText GraphTypes Context Outcome Lint Retry.
From S2P Require Import StageIds RunStatus Timing Billing Todos Events Projection Reducer ReducerProps Rollup.
From coqutil Require Import Datatypes.RecordSetters.
Import OCamlLikeNotations.
Local Open Scope Z_scope.

Record ListRunsQuery := mkQuery {
  lq_start : option DateTime;
  lq_end : option DateTime;
  lq_parent_id : option RunId
}.

Record CachedRunProjection := mkCached {
  ce_run_id : RunId;
  ce_summary : Run;
  ce_projection : RunProjection;
  ce_last_seq : Z
}.

Record RunProjectionCacheState := mkCacheState {
  cs_entries : gmap RunId CachedRunProjection;
  cs_children_by_parent : gmap RunId (gset RunId)
}.

Definition cache_new : RunProjectionCacheState := mkCacheState ∅ ∅.

(** ** The state under the lock *)

Definition remove_parent_link (parent_id run_id : RunId) (c : RunProjectionCacheState) : RunProjectionCacheState :=
  match cs_children_by_parent c !! parent_id with
  | None => c
  | Some children =>
      let children := children ∖ {[run_id]} in
      { c with cs_children_by_parent :=
          if decide (children = ∅) then delete parent_id (cs_children_by_parent c)
          else <[parent_id := children]> (cs_children_by_parent c) }
  end.

Definition remove_parent_index (entry : CachedRunProjection) (c : RunProjectionCacheState) : RunProjectionCacheState :=
  match sum_parent_id (ce_summary entry) with
  | None => c
  | Some parent_id => remove_parent_link parent_id (ce_run_id entry) c
  end.

Definition cache_insert (c : RunProjectionCacheState) (entry : CachedRunProjection) : RunProjectionCacheState :=
  let run_id := ce_run_id entry in
  let previous := cs_entries c !! run_id in
  let c := { c with cs_entries := <[run_id := entry]> (cs_entries c) } in
  let c := match previous with Some previous => remove_parent_index previous c | None => c end in
  match sum_parent_id (ce_summary entry) with
  | Some parent_id =>
      { c with cs_children_by_parent :=
          <[parent_id := {[run_id]} ∪ default ∅ (cs_children_by_parent c !! parent_id)]> (cs_children_by_parent c) }
  | None => c
  end.

Definition cache_remove (run_id : RunId) (c : RunProjectionCacheState) : RunProjectionCacheState :=
  match cs_entries c !! run_id with
  | Some entry => remove_parent_index entry { c with cs_entries := delete run_id (cs_entries c) }
  | None => c
  end.

Definition cache_replace_all (entries : list CachedRunProjection) (c : RunProjectionCacheState) : RunProjectionCacheState :=
  foldl cache_insert cache_new entries.

Definition count_children (c : RunProjectionCacheState) (run_id : RunId) : Z :=
  match cs_children_by_parent c !! run_id with
  | Some children => Z.of_nat (size children)
  | None => 0
  end.

Definition set_children_count (n : Z) (entry : CachedRunProjection) : CachedRunProjection :=
  let summary := ce_summary entry in
  { entry with ce_summary := { summary with sum_children_count := n } }.

Definition with_children_count (c : RunProjectionCacheState) (entry : CachedRunProjection) : CachedRunProjection :=
  set_children_count (count_children c (ce_run_id entry)) entry.

(** A terminal summary has its timing; a live one gets the best estimate. *)
Definition apply_read_overlays (now : DateTime) (entry : CachedRunProjection) : CachedRunProjection :=
  match sum_timing (ce_summary entry) with
  | Some _ => entry
  | None => let summary := ce_summary entry in
            { entry with ce_summary := { summary with sum_timing := live_run_timing (ce_projection entry) now } }
  end.

Section cache.
Context (created_at : RunId -> DateTime).

Definition from_projection (run_id : RunId) (projection : RunProjection) (last_seq : Z) : CachedRunProjection :=
  mkCached run_id (build_summary created_at projection run_id) projection last_seq.

(** ** The operations of the cache *)

Definition in_dates (q : ListRunsQuery) (entry : CachedRunProjection) : bool :=
  let at_ := created_at (ce_run_id entry) in
  (negb (from_option (fun start => at_ <? start) false (lq_start q)) &&
   negb (from_option (fun end_ => end_ <? at_) false (lq_end q)))%bool.

(** Newest first; the ids break ties. *)
Definition newer (a b : CachedRunProjection) : Prop :=
  let ta := created_at (ce_run_id a) in let tb := created_at (ce_run_id b) in
  tb < ta \/ tb = ta /\ String.le (ce_run_id b) (ce_run_id a).

#[export] Instance newer_dec : RelDecision newer.
Proof. intros a b. unfold newer. apply _. Defined.

(** The children of a run are in a [BTreeSet]; the entries in a [HashMap]. *)
Definition cache_list (q : ListRunsQuery) (now : DateTime) (c : RunProjectionCacheState) : list CachedRunProjection :=
  let raw := match lq_parent_id q with
             | Some parent_id =>
                 omap (fun run_id => cs_entries c !! run_id)
                   (merge_sort String.le (elements (default ∅ (cs_children_by_parent c !! parent_id))))
             | None => snd <$> map_to_list (cs_entries c)
             end in
  merge_sort newer (apply_read_overlays now <$> filterb (in_dates q) (with_children_count c <$> raw)).

Definition cache_get (run_id : RunId) (c : RunProjectionCacheState) : option CachedRunProjection :=
  with_children_count c <$> cs_entries c !! run_id.

Definition projection_snapshot (run_id : RunId) (c : RunProjectionCacheState) : option (RunProjection * Z) :=
  (fun entry => (ce_projection entry, ce_last_seq entry)) <$> cs_entries c !! run_id.

Definition older_request (a b : DateTime * RunId) : Prop := a.1 < b.1 \/ a.1 = b.1 /\ String.le a.2 b.2.

#[export] Instance older_request_dec : RelDecision older_request.
Proof. intros a b. unfold older_request. apply _. Defined.

Definition pending_pull_request_creations (c : RunProjectionCacheState) : list RunId :=
  snd <$> merge_sort older_request
    (omap (fun entry =>
       creation ← rp_pull_request_creation (ce_projection entry);
       if prc_is_pending creation then Some (prc_requested_at creation, ce_run_id entry) else None)
     (snd <$> map_to_list (cs_entries c))).

Definition get_summary (run_id : RunId) (now : DateTime) (c : RunProjectionCacheState) : option Run :=
  (fun entry => ce_summary (apply_read_overlays now (with_children_count c entry))) <$> cs_entries c !! run_id.
End cache.

(** ** The index *)

Definition parent_of (e : CachedRunProjection) : option RunId := sum_parent_id (ce_summary e).

Definition indexed (c : RunProjectionCacheState) (p : RunId) : gset RunId := default ∅ (cs_children_by_parent c !! p).

(** Entries are under their own id, and the index has under each run exactly the runs it
    is the parent of, with nothing under a run that has none. *)
Record cache_ok (c : RunProjectionCacheState) : Prop := {
  co_keys : forall k e, cs_entries c !! k = Some e -> ce_run_id e = k;
  co_index : forall p k, k ∈ indexed c p <-> exists e, cs_entries c !! k = Some e /\ parent_of e = Some p;
  co_nonempty : forall p children, cs_children_by_parent c !! p = Some children -> children <> ∅
}.

Lemma cache_new_ok : cache_ok cache_new.
Proof. split; [done| |done]. intros p k. cbn. split; [set_solver|]. intros (e & He & _). done. Qed.

Lemma unlink_entries p k c : cs_entries (remove_parent_link p k c) = cs_entries c.
Proof. destruct c as [es idx]. unfold remove_parent_link. cbn. by destruct (idx !! p). Qed.

Lemma unlink_indexed p k c q :
  indexed (remove_parent_link p k c) q = if decide (q = p) then indexed c p ∖ {[k]} else indexed c q.
Proof.
  destruct c as [es idx]. unfold remove_parent_link, indexed. cbn. destruct (idx !! p) as [kids|] eqn:Hp; cbn; unfold constant.
  - destruct (decide (q = p)) as [->|Hn]; destruct (decide (kids ∖ {[k]} = ∅)) as [He|He]; simplify_map_eq; done.
  - destruct (decide (q = p)) as [->|Hn]; [rewrite Hp; cbn; set_solver|done].
Qed.

Lemma unlink_nonempty p k c :
  (forall q kids, cs_children_by_parent c !! q = Some kids -> kids <> ∅) ->
  forall q kids, cs_children_by_parent (remove_parent_link p k c) !! q = Some kids -> kids <> ∅.
Proof.
  destruct c as [es idx]. unfold remove_parent_link. cbn. intros Hne q kids. destruct (idx !! p) as [kp|] eqn:Hp; cbn; [|eauto].
  unfold constant. destruct (decide (kp ∖ {[k]} = ∅)); [intros [_ ?]%lookup_delete_Some; eauto|].
  intros [[_ <-]|[_ ?]]%lookup_insert_Some; eauto.
Qed.

(** What forgetting the parent of a run leaves. *)
Lemma unindex_spec e c :
  let c' := remove_parent_index e c in
  cs_entries c' = cs_entries c /\
  (forall p k, k ∈ indexed c' p <-> k ∈ indexed c p /\ ~ (parent_of e = Some p /\ k = ce_run_id e)) /\
  ((forall q kids, cs_children_by_parent c !! q = Some kids -> kids <> ∅) ->
   forall q kids, cs_children_by_parent c' !! q = Some kids -> kids <> ∅).
Proof.
  unfold remove_parent_index, parent_of. destruct (sum_parent_id (ce_summary e)) as [parent|]; cbn zeta.
  - split; [apply unlink_entries|]. split; [|apply unlink_nonempty]. intros p k. rewrite unlink_indexed.
    destruct (decide (p = parent)) as [->|]; [set_solver|]. naive_solver.
  - split; [done|]. split; [|done]. naive_solver.
Qed.

(** An entry is put in place of the previous one, which is forgotten. *)
Lemma forget_spec c k : cache_ok c ->
  forall es, let c1 := mkCacheState es (cs_children_by_parent c) in
  let c2 := match cs_entries c !! k with Some previous => remove_parent_index previous c1 | None => c1 end in
  cs_entries c2 = es /\
  (forall p k', k' ∈ indexed c2 p <-> k' ∈ indexed c p /\ k' <> k) /\
  (forall q kids, cs_children_by_parent c2 !! q = Some kids -> kids <> ∅).
Proof.
  intros Hok es. cbn zeta. destruct (cs_entries c !! k) as [prev|] eqn:Hk.
  - destruct (unindex_spec prev (mkCacheState es (cs_children_by_parent c))) as (He & Hi & Hn).
    split; [done|]. split; [|exact (Hn (co_nonempty _ Hok))]. intros p k'. rewrite Hi, (co_keys _ Hok k prev Hk).
    change (indexed (mkCacheState _ _) p) with (indexed c p). rewrite (co_index _ Hok). split; intros ((e & He' & Hp) & Hd); split; eauto.
    + intros ->. rewrite Hk in He'. simplify_eq. naive_solver.
    + naive_solver.
  - split; [done|]. split; [|exact (co_nonempty _ Hok)]. intros p k'. change (indexed (mkCacheState _ _) p) with (indexed c p).
    split; [|naive_solver]. intros Hin. split; [done|]. intros ->. apply (co_index _ Hok) in Hin as (e & He & _). congruence.
Qed.

Lemma cache_insert_entries c e : cache_ok c -> cs_entries (cache_insert c e) = <[ce_run_id e := e]> (cs_entries c).
Proof.
  intros Hok. destruct (forget_spec c (ce_run_id e) Hok (<[ce_run_id e := e]> (cs_entries c))) as (He & _).
  destruct c as [es idx]. unfold cache_insert. cbn in *. unfold constant.
  destruct (match es !! ce_run_id e with Some _ => _ | None => _ end) as [es2 idx2]. by destruct (sum_parent_id (ce_summary e)).
Qed.

Lemma cache_insert_index c e : cache_ok c ->
  (forall p k, k ∈ indexed (cache_insert c e) p <-> parent_of e = Some p /\ k = ce_run_id e \/ k ∈ indexed c p /\ k <> ce_run_id e) /\
  (forall q kids, cs_children_by_parent (cache_insert c e) !! q = Some kids -> kids <> ∅).
Proof.
  intros Hok. destruct (forget_spec c (ce_run_id e) Hok (<[ce_run_id e := e]> (cs_entries c))) as (_ & Hi & Hn).
  unfold cache_insert, parent_of. destruct c as [es idx]. cbn -[indexed] in *. unfold constant.
  destruct (match es !! ce_run_id e with Some _ => _ | None => _ end) as [es2 idx2]. unfold constant in *.
  destruct (sum_parent_id (ce_summary e)) as [parent|]; cbn -[indexed] in *; unfold constant.
  - split; [intros p k|intros q kids [[_ <-]|[_ ?]]%lookup_insert_Some; [set_solver|eauto]]. rewrite <- Hi. unfold indexed. cbn.
    destruct (decide (p = parent)) as [->|Hd]; simplify_map_eq; [|naive_solver]. rewrite elem_of_union, elem_of_singleton. naive_solver.
  - split; [|done]. intros p k. rewrite Hi. naive_solver.
Qed.

Lemma cache_insert_ok c e : cache_ok c -> cache_ok (cache_insert c e).
Proof.
  intros Hok. pose proof (cache_insert_entries c e Hok) as Hes. destruct (cache_insert_index c e Hok) as [Hi Hn].
  split; [|intros p k; rewrite Hi|done]; rewrite Hes.
  - intros k e' [[<- <-]|[_ Hk]]%lookup_insert_Some; [done|by apply (co_keys _ Hok)].
  - rewrite (co_index _ Hok). setoid_rewrite lookup_insert_Some. naive_solver.
Qed.

Lemma cache_remove_entries k c : cache_ok c -> cs_entries (cache_remove k c) = delete k (cs_entries c).
Proof.
  intros Hok. destruct (forget_spec c k Hok (delete k (cs_entries c))) as (He & _). destruct c as [es idx].
  unfold cache_remove. cbn in *. unfold constant. destruct (es !! k) eqn:Hk; [done|]. by rewrite delete_id.
Qed.

Lemma cache_remove_ok k c : cache_ok c -> cache_ok (cache_remove k c).
Proof.
  intros Hok. pose proof (cache_remove_entries k c Hok) as Hes. destruct (forget_spec c k Hok (delete k (cs_entries c))) as (He & Hi & Hn).
  unfold cache_remove in *. destruct (cs_entries c !! k) as [prev|] eqn:Hk; [|done].
  destruct c as [es idx]. change (remove_parent_index prev _) with (remove_parent_index prev (mkCacheState (delete k es) idx)).
  cbn [cs_entries cs_children_by_parent] in He, Hi, Hn.
  split; [|intros p k'; rewrite Hi, (co_index _ Hok)|done]; rewrite He.
  - intros k' e [_ Hk']%lookup_delete_Some. by apply (co_keys _ Hok).
  - setoid_rewrite lookup_delete_Some. naive_solver.
Qed.

Lemma cache_replace_all_ok es c : cache_ok (cache_replace_all es c).
Proof.
  unfold cache_replace_all. pose proof cache_new_ok as Hok. revert Hok. generalize cache_new.
  induction es as [|e es IH]; intros c' Hok; [done|]. apply IH. by apply cache_insert_ok.
Qed.

Lemma cache_replace_all_entries es c : cs_entries (cache_replace_all es c) = foldl (fun m e => <[ce_run_id e := e]> m) ∅ es.
Proof.
  unfold cache_replace_all. pose proof cache_new_ok as Hok. change ∅ with (cs_entries cache_new) at 1. revert Hok. generalize cache_new.
  induction es as [|e es IH]; intros c' Hok; [done|]. cbn [foldl]. rewrite IH by by apply cache_insert_ok. by rewrite cache_insert_entries.
Qed.

(** ** The same cache without an index *)

Notation Entries := (gmap RunId CachedRunProjection).

Definition has_parent (p : RunId) (e : CachedRunProjection) : bool := bool_decide (parent_of e = Some p).

(** The number of runs that name this one as their parent. *)
Definition ref_children (es : Entries) (p : RunId) : Z := Z.of_nat (length (filterb (has_parent p) (snd <$> map_to_list es))).

Definition ref_with_count (es : Entries) (e : CachedRunProjection) : CachedRunProjection :=
  set_children_count (ref_children es (ce_run_id e)) e.

(** The entries of a cache in any order. *)
Definition all_entries (es : Entries) : list CachedRunProjection := snd <$> map_to_list es.

Section entries.
Context (es : Entries) (Hkeys : forall k e, es !! k = Some e -> ce_run_id e = k).

Lemma all_entries_elem e : e ∈ all_entries es <-> es !! ce_run_id e = Some e.
Proof.
  unfold all_entries. rewrite list_elem_of_fmap. split.
  - intros ([k e'] & -> & Hk%elem_of_map_to_list). cbn in *. by rewrite (Hkeys k e' Hk).
  - intros He. exists (ce_run_id e, e). split; [done|]. by apply elem_of_map_to_list.
Qed.

Lemma all_entries_NoDup : NoDup (ce_run_id <$> all_entries es).
Proof.
  unfold all_entries. rewrite <- list_fmap_compose. rewrite (list_fmap_ext _ fst); [apply NoDup_fst_map_to_list|].
  intros i [k e] Hl. cbn. apply Hkeys, elem_of_map_to_list. by eapply list_elem_of_lookup_2.
Qed.

Lemma filtered_NoDup f : NoDup (ce_run_id <$> filterb f (all_entries es)).
Proof.
  generalize all_entries_NoDup. generalize (all_entries es). intros l. induction l as [|e l IH]; [done|].
  rewrite fmap_cons. intros [Hn Hd]%NoDup_cons. cbn. destruct (f e); [|by apply IH]. rewrite fmap_cons. apply NoDup_cons.
  split; [|by apply IH]. rewrite list_elem_of_fmap in *. intros (e' & He & [Hin _]%filterb_elem). eauto.
Qed.
End entries.

Lemma indexed_elements c p :
  cache_ok c -> elements (indexed c p) ≡ₚ ce_run_id <$> filterb (has_parent p) (all_entries (cs_entries c)).
Proof.
  intros Hok. apply NoDup_Permutation; [apply NoDup_elements|apply filtered_NoDup, Hok|].
  intros k. rewrite elem_of_elements, (co_index _ Hok), list_elem_of_fmap. setoid_rewrite filterb_elem.
  setoid_rewrite (all_entries_elem _ (co_keys _ Hok)). unfold has_parent. setoid_rewrite bool_decide_eq_true. split.
  - intros (e & He & Hp). exists e. rewrite (co_keys _ Hok k e He). auto.
  - intros (e & -> & He & Hp). eauto.
Qed.

Lemma count_children_ref c p : cache_ok c -> count_children c p = ref_children (cs_entries c) p.
Proof.
  intros Hok. unfold ref_children. rewrite <- (length_fmap ce_run_id), <- (indexed_elements c p Hok).
  unfold count_children, indexed. destruct (cs_children_by_parent c !! p) as [kids|]; cbn; [done|]. by rewrite elements_empty.
Qed.

Lemma with_count_ref c e : cache_ok c -> with_children_count c e = ref_with_count (cs_entries c) e.
Proof. intros Hok. unfold with_children_count, ref_with_count. by rewrite count_children_ref. Qed.

(** The children found through the index are the entries with that parent. *)
Lemma children_found c p :
  cache_ok c ->
  omap (fun run_id => cs_entries c !! run_id) (merge_sort String.le (elements (indexed c p))) ≡ₚ
  filterb (has_parent p) (all_entries (cs_entries c)).
Proof.
  intros Hok. rewrite merge_sort_Permutation, (indexed_elements c p Hok).
  assert (forall l : list CachedRunProjection, (forall e, e ∈ l -> e ∈ all_entries (cs_entries c)) ->
          omap (fun run_id => cs_entries c !! run_id) (ce_run_id <$> l) = l) as Hl.
  { intros l. induction l as [|e l IH]; intros He; [done|]. cbn. rewrite (proj1 (all_entries_elem _ (co_keys _ Hok) e)) by set_solver.
    f_equal. apply IH. set_solver. }
  rewrite Hl; [done|]. intros e [He _]%filterb_elem. done.
Qed.

Section reference.
Context (created_at : RunId -> DateTime).

Definition wanted (q : ListRunsQuery) (e : CachedRunProjection) : bool :=
  (in_dates created_at q e && is_none_or (fun p => has_parent p e) (lq_parent_id q))%bool.

Definition ref_list (q : ListRunsQuery) (now : DateTime) (es : Entries) : list CachedRunProjection :=
  merge_sort (newer created_at) ((fun e => apply_read_overlays now (ref_with_count es e)) <$> filterb (wanted q) (all_entries es)).

#[local] Instance newer_trans : Transitive (newer created_at).
Proof.
  intros a b c. unfold newer. intros [?|[Hab ?]] [?|[Hbc ?]]; try (left; lia). right. split; [lia|]. by etrans.
Qed.

#[local] Instance newer_total : Total (newer created_at).
Proof.
  intros a b. unfold newer. destruct (Z.lt_trichotomy (created_at (ce_run_id a)) (created_at (ce_run_id b))) as [?|[He|?]]; auto.
  destruct (total String.le (ce_run_id a) (ce_run_id b)); rewrite He; auto.
Qed.

(** Entries with different ids have one order. *)
Lemma newest_first_unique l l' :
  NoDup (ce_run_id <$> l) -> l ≡ₚ l' -> merge_sort (newer created_at) l = merge_sort (newer created_at) l'.
Proof.
  intros Hd Hp. apply StronglySorted_unique_strong with (R := newer created_at); try (apply StronglySorted_merge_sort; apply _).
  - intros a b Ha Hb Hab Hba. rewrite merge_sort_Permutation in Ha, Hb. rewrite <- Hp in Hb.
    assert (ce_run_id a = ce_run_id b) as He.
    { unfold newer in *. destruct Hab as [?|[? ?]], Hba as [?|[? ?]]; try lia. by apply (anti_symm String.le). }
    pose proof (row_of_elem ce_run_id l a Hd Ha) as Ea. pose proof (row_of_elem ce_run_id l b Hd Hb) as Eb. congruence.
  - by rewrite !merge_sort_Permutation.
Qed.

Lemma overlay_id now n e : ce_run_id (apply_read_overlays now (set_children_count n e)) = ce_run_id e.
Proof. unfold apply_read_overlays, set_children_count. destruct e as [id [] pr q]. cbn. by case_match. Qed.

Lemma in_dates_count q n e : in_dates created_at q (set_children_count n e) = in_dates created_at q e.
Proof. by destruct e. Qed.

Lemma filterb_filterb {A} (f g : A -> bool) l : filterb f (filterb g l) = filterb (fun a => (f a && g a)%bool) l.
Proof.
  unfold filterb. induction l as [|a l IH]; [done|]. cbn [List.filter]. destruct (g a); cbn [List.filter].
  - rewrite IH, andb_true_r. done.
  - by rewrite IH, andb_false_r.
Qed.

Lemma filterb_Permutation {A} (f : A -> bool) l l' : l ≡ₚ l' -> filterb f l ≡ₚ filterb f l'.
Proof. unfold filterb. induction 1; cbn [List.filter]; repeat case_match; eauto using Permutation. Qed.

Lemma cache_list_ref q now c : cache_ok c -> cache_list created_at q now c = ref_list q now (cs_entries c).
Proof.
  intros Hok. set (raw := match lq_parent_id q with Some p => filterb (has_parent p) (all_entries (cs_entries c)) | None => all_entries (cs_entries c) end).
  assert (filterb (wanted q) (all_entries (cs_entries c)) = filterb (in_dates created_at q) raw) as Hw.
  { unfold raw, wanted. destruct (lq_parent_id q) as [p|]; cbn [is_none_or]; [by rewrite filterb_filterb|].
    apply filterb_ext. intros. by rewrite andb_true_r. }
  unfold cache_list, ref_list. symmetry. apply newest_first_unique.
  - rewrite <- list_fmap_compose. rewrite (list_fmap_ext _ ce_run_id); [by apply filtered_NoDup, Hok|].
    intros i e _. cbn. apply overlay_id.
  - rewrite Hw, filterb_fmap, <- list_fmap_compose.
    rewrite (list_fmap_ext (apply_read_overlays now ∘ with_children_count c) (fun e => apply_read_overlays now (ref_with_count (cs_entries c) e)))
      by (intros; unfold compose; by rewrite with_count_ref).
    apply fmap_Permutation, filterb_Permutation. unfold raw. destruct (lq_parent_id q) as [p|]; [|done]. symmetry. by apply children_found.
Qed.

(** ** Sequences of operations *)

Inductive CacheOp :=
| CacheReplaceAll (entries : list CachedRunProjection)
| CacheReplace (entry : CachedRunProjection)
| CacheRemove (run_id : RunId)
| CacheList (q : ListRunsQuery) (now : DateTime)
| CacheGet (run_id : RunId)
| CacheSnapshot (run_id : RunId)
| CachePending
| CacheSummary (run_id : RunId) (now : DateTime).

Inductive CacheReply :=
| ReplyUnit
| ReplyList (l : list CachedRunProjection)
| ReplyEntry (e : option CachedRunProjection)
| ReplySnapshot (s : option (RunProjection * Z))
| ReplyIds (l : list RunId)
| ReplySummary (s : option Run).

Definition cache_op (op : CacheOp) (c : RunProjectionCacheState) : CacheReply * RunProjectionCacheState :=
  match op with
  | CacheReplaceAll entries => (ReplyUnit, cache_replace_all entries c)
  | CacheReplace entry => (ReplyUnit, cache_insert c entry)
  | CacheRemove run_id => (ReplyUnit, cache_remove run_id c)
  | CacheList q now => (ReplyList (cache_list created_at q now c), c)
  | CacheGet run_id => (ReplyEntry (cache_get run_id c), c)
  | CacheSnapshot run_id => (ReplySnapshot (projection_snapshot run_id c), c)
  | CachePending => (ReplyIds (pending_pull_request_creations c), c)
  | CacheSummary run_id now => (ReplySummary (get_summary run_id now c), c)
  end.

(** The pending creations of a set of entries, oldest request first. *)
Definition ref_pending (es : Entries) : list RunId := pending_pull_request_creations (mkCacheState es ∅).

Definition ref_op (op : CacheOp) (es : Entries) : CacheReply * Entries :=
  match op with
  | CacheReplaceAll entries => (ReplyUnit, foldl (fun m e => <[ce_run_id e := e]> m) ∅ entries)
  | CacheReplace entry => (ReplyUnit, <[ce_run_id entry := entry]> es)
  | CacheRemove run_id => (ReplyUnit, delete run_id es)
  | CacheList q now => (ReplyList (ref_list q now es), es)
  | CacheGet run_id => (ReplyEntry (ref_with_count es <$> es !! run_id), es)
  | CacheSnapshot run_id => (ReplySnapshot ((fun e => (ce_projection e, ce_last_seq e)) <$> es !! run_id), es)
  | CachePending => (ReplyIds (ref_pending es), es)
  | CacheSummary run_id now =>
      (ReplySummary ((fun e => ce_summary (apply_read_overlays now (ref_with_count es e))) <$> es !! run_id), es)
  end.

Lemma cache_op_refines op c :
  cache_ok c ->
  cache_ok (cache_op op c).2 /\ (cache_op op c).1 = (ref_op op (cs_entries c)).1 /\ cs_entries (cache_op op c).2 = (ref_op op (cs_entries c)).2.
Proof.
  intros Hok. destruct op; cbn [cache_op ref_op fst snd].
  - auto using cache_replace_all_ok, cache_replace_all_entries.
  - auto using cache_insert_ok, cache_insert_entries.
  - auto using cache_remove_ok, cache_remove_entries.
  - by rewrite cache_list_ref.
  - unfold cache_get. destruct (cs_entries c !! run_id); cbn [fmap option_fmap option_map]; [by rewrite with_count_ref|done].
  - done.
  - done.
  - unfold get_summary. destruct (cs_entries c !! run_id); cbn [fmap option_fmap option_map]; [by rewrite with_count_ref|done].
Qed.

Fixpoint run_ops {Op Reply S} (step : Op -> S -> Reply * S) (ops : list Op) (s : S) : list Reply * S :=
  match ops with
  | [] => ([], s)
  | op :: ops => let '(r, s) := step op s in let '(rs, s) := run_ops step ops s in (r :: rs, s)
  end.

Lemma run_ops_refine ops c :
  cache_ok c ->
  let '(rs, c') := run_ops cache_op ops c in cache_ok c' /\ run_ops ref_op ops (cs_entries c) = (rs, cs_entries c').
Proof.
  revert c. induction ops as [|op ops IH]; intros c Hok; [done|]. cbn [run_ops].
  destruct (cache_op_refines op c Hok) as (Hok' & Hr & He). destruct (cache_op op c) as [r c1], (ref_op op (cs_entries c)) as [r' es1].
  cbn [fst snd] in *. subst r' es1. specialize (IH c1 Hok'). destruct (run_ops cache_op ops c1) as [rs c2]. destruct IH as [Hok2 ->]. done.
Qed.

(** A listing has the runs asked for, once each and newest first. *)
Lemma ref_list_exact q now es :
  (forall k e, es !! k = Some e -> ce_run_id e = k) ->
  let l := ref_list q now es in
  StronglySorted (newer created_at) l /\ NoDup (ce_run_id <$> l) /\
  (forall e', e' ∈ l <-> exists e, es !! ce_run_id e = Some e /\ wanted q e = true /\ e' = apply_read_overlays now (ref_with_count es e)).
Proof.
  intros Hk. cbn zeta. unfold ref_list. split; [apply StronglySorted_merge_sort; apply _|]. split.
  - rewrite merge_sort_Permutation, <- list_fmap_compose. rewrite (list_fmap_ext _ ce_run_id); [by apply filtered_NoDup|].
    intros i e _. cbn. apply overlay_id.
  - intros e'. rewrite merge_sort_Permutation, list_elem_of_fmap. setoid_rewrite filterb_elem. setoid_rewrite (all_entries_elem _ Hk).
    naive_solver.
Qed.

(** The pending creations are those of the entries that have one, each once. *)
Definition pending_creation (e : CachedRunProjection) : bool :=
  from_option prc_is_pending false (rp_pull_request_creation (ce_projection e)).

Lemma pending_exact c :
  cache_ok c ->
  NoDup (pending_pull_request_creations c) /\
  forall k, k ∈ pending_pull_request_creations c <-> exists e, cs_entries c !! k = Some e /\ pending_creation e = true.
Proof.
  intros Hok. unfold pending_pull_request_creations. fold (all_entries (cs_entries c)).
  assert (forall l : list CachedRunProjection, snd <$> omap (fun e => cr ← rp_pull_request_creation (ce_projection e);
            if prc_is_pending cr then Some (prc_requested_at cr, ce_run_id e) else None) l =
          ce_run_id <$> filterb pending_creation l) as Hl.
  { intros l. unfold filterb, pending_creation. induction l as [|e l IH]; [done|]. cbn [omap list_omap List.filter].
    destruct (rp_pull_request_creation (ce_projection e)) as [cr|]; cbn; [destruct (prc_is_pending cr); cbn; [by f_equal|done]|done]. }
  set (pending := snd <$> merge_sort _ _).
  assert (pending ≡ₚ ce_run_id <$> filterb pending_creation (all_entries (cs_entries c))) as Hp
    by (unfold pending; by rewrite merge_sort_Permutation, Hl).
  split; [rewrite Hp; apply filtered_NoDup, Hok|]. intros k. rewrite Hp, list_elem_of_fmap. setoid_rewrite filterb_elem. setoid_rewrite (all_entries_elem _ (co_keys _ Hok)). split.
  - intros (e & -> & He & Hc). eauto.
  - intros (e & He & Hc). exists e. rewrite (co_keys _ Hok k e He). auto.
Qed.
End reference.

(** The index of the projection cache is invisible.  From an empty cache, through any
    sequence of operations, every answer and the entries kept are those of a cache that
    has the entries alone and searches all of them: children counts, listings by parent
    and by date, summaries and snapshots.  The index then holds, under each run, exactly
    the runs it is the parent of, and no empty sets; and a listing has the runs asked for,
    once each and newest first. *)
Theorem cache_refines_entries (created_at : RunId -> DateTime) ops :
  let '(rs, c) := run_ops (cache_op created_at) ops cache_new in
  run_ops (ref_op created_at) ops ∅ = (rs, cs_entries c) /\ cache_ok c /\
  (forall q now, let l := cache_list created_at q now c in
     StronglySorted (newer created_at) l /\ NoDup (ce_run_id <$> l) /\
     (forall e', e' ∈ l <-> exists e, cs_entries c !! ce_run_id e = Some e /\ wanted created_at q e = true /\
                                      e' = apply_read_overlays now (ref_with_count (cs_entries c) e))) /\
  NoDup (pending_pull_request_creations c) /\
  (forall k, k ∈ pending_pull_request_creations c <-> exists e, cs_entries c !! k = Some e /\ pending_creation e = true).
Proof.
  pose proof (run_ops_refine created_at ops cache_new cache_new_ok) as H.
  destruct (run_ops (cache_op created_at) ops cache_new) as [rs c]. destruct H as [Hok Hr]. split; [exact Hr|]. split; [done|].
  split; [|by apply pending_exact]. intros q now. cbn zeta. rewrite cache_list_ref by done. apply ref_list_exact, Hok.
Qed.

(** A child moves to another parent, and the listing of its old parent is empty again. *)
Definition sample_child (id : RunId) (parent : option RunId) : CachedRunProjection :=
  let s := sample_new in from_projection (fun _ => 0) id { s with rp_parent_id := parent } 1.

Example cache_moves_children :
  let ops := [CacheReplace (sample_child "a" None); CacheReplace (sample_child "b" (Some "a")); CacheReplace (sample_child "c" (Some "a"));
              CacheReplace (sample_child "b" (Some "c")); CacheRemove "c"] in
  let c := (run_ops (cache_op (fun _ => 0)) ops cache_new).2 in
  (ce_run_id <$> cache_list (fun _ => 0) (mkQuery None None (Some "c")) 0 c) = ["b"] /\
  count_children c "a" = 0 /\ cs_children_by_parent c !! "a" = None.
Proof. vm_compute. done. Qed.
