(* ===== verification/Database.v ===== *)
(** * The store of all runs (fabro-store/src/slate/mod.rs, run_catalog_index.rs)

    One database holds the events of every run, a catalog of the runs and an index of
    sessions, each under its own prefix of keys.  In memory are the handles of the runs
    that are open for writing and the projection cache, which is filled from the database
    at first use and updated by every append.

    The theorem refines the whole store by a map from run ids to logs: what is listed,
    summarised or read at any time, through appends, deletions and restarts, is what a
    replay of the logs gives.

    Not part of the repository, and parameters here: the database, the ulid crate (the
    time and the text of a run id), the JSON of a session's entry, and the SQLite copy of
    the summaries, of which only success is modelled. *)

From S2P Require Import Prelude RustStr RustNum DecText GraphTypes Context Outcome Lint Retry.
From S2P Require Import StageIds RunStatus EventKeys EventScan Timing Billing Todos Events Projection Reducer ReducerProps.
From S2P Require Import RunStore RunStoreProps Rollup ProjectionCache.
From coqutil Require Import Datatypes.RecordSetters.
Import OCamlLikeNotations.
Local Open Scope fabro_scope.
Local Open Scope Z_scope.

(** What the ulid crate and chrono do: the canonical text of a run id is 26 characters
    without a NUL and parses back, and a date is written without a NUL. *)
Class RunIds := {
  run_created_at : RunId -> DateTime;
  run_day : RunId -> string;
  run_text : string -> bool;
  run_parse : string -> result RunId string;
  run_day_plain r : no_char SEP (run_day r);
  run_text_plain r : run_text r = true -> no_char SEP r;
  run_text_length r : run_text r = true -> String.length r = 26%nat;
  run_parse_text r : run_text r = true -> run_parse r = Ok r
}.

Class SessionCodec (Bytes : Type) := {
  marker : Bytes;
  session_bytes : RunId -> Bytes;
  session_of_bytes : Bytes -> option RunId;
  session_roundtrip r : session_of_bytes (session_bytes r) = Some r
}.

Definition run_data_prefix (run_id : RunId) : string := key_with run_id "runs" +:+ String SEP "".
Definition sessions_by_id_prefix : string := key_with "by-id" "sessions" +:+ String SEP "".
Definition session_by_id_key (session_id : string) : string := key_with session_id (key_with "by-id" "sessions").

(** ** Typed records (record/repository.rs, record/record_id.rs) *)

Definition validate_key_segment (segment : string) : result unit StoreError :=
  if str_forall (fun c => negb (Ascii.eqb SEP c)) segment then Ok tt else Err (InvalidKeySegment segment).

Fixpoint append_segments (key : string) (segments : list string) : result string StoreError :=
  match segments with
  | [] => Ok key
  | segment :: segments => try _ := validate_key_segment segment in append_segments (key_with segment key) segments
  end.

Definition key_from_segments (segments : list string) : result string StoreError :=
  match segments with
  | [] => Err (StoreOther "record key assembly requires at least one segment")
  | first :: segments => try _ := validate_key_segment first in append_segments first segments
  end.

Definition CATALOG_PREFIX : string := "runs/_index/by-start".

Section records.
Context {Bytes : Type} `{!SlateDb Bytes, !Codec Bytes, !RunIds, !SessionCodec Bytes}.

(** [RecordId for RunId]. *)
Definition key_segments (r : RunId) : list string := [run_day r; r].

Definition from_key_segments (segs : list string) : result RunId StoreError :=
  match segs with
  | [_; text] =>
      match run_parse text with
      | Ok r => Ok r
      | Err err => Err (KeyParse ("invalid RunId segment " +:+ debug_string text +:+ ": " +:+ err))
      end
  | _ => Err (KeyParse ("expected 2 segments for RunId, got " +:+ Z_to_string (Z.of_nat (length segs))))
  end.

Definition key_for_id (r : RunId) : result string StoreError :=
  key_from_segments (split_char "/" CATALOG_PREFIX ++ key_segments r).

Definition prefix_key : result string StoreError :=
  try key := key_from_segments (split_char "/" CATALOG_PREFIX) in Ok (key +:+ String SEP "").

Definition parse_entry_id (raw_key : string) : result RunId StoreError :=
  let segments := split_char SEP raw_key in
  let prefix := split_char "/" CATALOG_PREFIX in
  if (length segments <? length prefix)%nat
  then Err (KeyParse ("key " +:+ debug_string raw_key +:+ " had " +:+ Z_to_string (Z.of_nat (length segments)) +:+
                      " segments, expected at least " +:+ Z_to_string (Z.of_nat (length prefix)) +:+ " for prefix " +:+ CATALOG_PREFIX))
  else if negb (bool_decide (take (length prefix) segments = prefix))
  then Err (KeyParse ("key " +:+ debug_string raw_key +:+ " did not match expected prefix " +:+ CATALOG_PREFIX))
  else from_key_segments (drop (length prefix) segments).

Fixpoint parse_entry_ids (keys : list string) : result (list RunId) StoreError :=
  match keys with
  | [] => Ok []
  | k :: keys => try r := parse_entry_id k in try rs := parse_entry_ids keys in Ok (r :: rs)
  end.

Definition scan_ids (d : Db Bytes) : result (list RunId) StoreError :=
  try prefix := prefix_key in parse_entry_ids (fst <$> db_scan_prefix prefix d).

(** ** The catalog *)

Definition catalog_add (r : RunId) (d : Db Bytes) : result (Db Bytes) StoreError :=
  try key := key_for_id r in Ok (db_put key marker d).

(** Deletions happen one by one; [budget] is how many of them succeed before one fails, [None]
    when none fails. *)
Fixpoint delete_keys (budget : option nat) (keys : list string) (d : Db Bytes) : result (option nat) StoreError * Db Bytes :=
  match keys, budget with
  | [], _ => (Ok budget, d)
  | _ :: _, Some O => (Err SlateError, d)
  | key :: keys, Some (S b) => delete_keys (Some b) keys (db_delete key d)
  | key :: keys, None => delete_keys None keys (db_delete key d)
  end.

Definition catalog_remove (budget : option nat) (r : RunId) (d : Db Bytes) : result (option nat) StoreError * Db Bytes :=
  match key_for_id r with
  | Err e => (Err e, d)
  | Ok key => delete_keys budget [key] d
  end.

(** Ordered by the minute a run was created in, then by id. *)
Definition minute_ns : Z := 60 * 1000000000.

Definition catalog_le (a b : RunId) : Prop :=
  let ma := run_created_at a / minute_ns in let mb := run_created_at b / minute_ns in
  ma < mb \/ ma = mb /\ String.le a b.

#[export] Instance catalog_le_dec : RelDecision catalog_le.
Proof. intros a b. unfold catalog_le. apply _. Defined.

Definition catalog_list (q : ListRunsQuery) (d : Db Bytes) : result (list RunId) StoreError :=
  try ids := scan_ids d in
  Ok (merge_sort catalog_le
        (filterb (fun r => negb (from_option (fun start => run_created_at r <? start) false (lq_start q)) &&
                           negb (from_option (fun end_ => end_ <? run_created_at r) false (lq_end q)))%bool ids)).
End records.

(** ** The database *)

Section database.
Context {Bytes : Type} `{!SlateDb Bytes, !Codec Bytes, !RunIds, !SessionCodec Bytes}.

Notation cached_of := (from_projection run_created_at).

Record Database := mkDatabase {
  ds_db : Db Bytes;
  ds_active_runs : gmap RunId (RunDatabase Bytes);
  ds_cache : RunProjectionCacheState;
  ds_warmed : bool
}.

(** A process that starts on a database. *)
Definition database_new (d : Db Bytes) : Database := mkDatabase d ∅ cache_new false.

Definition has_any_events (d : Db Bytes) (r : RunId) : bool :=
  match db_scan_prefix (run_events_prefix r) d with [] => false | _ => true end.

(** Runs that cannot be replayed are skipped. *)
Fixpoint warm_entries (d : Db Bytes) (ids : list RunId) : result (list CachedRunProjection) Stop :=
  match ids with
  | [] => Ok []
  | r :: ids =>
      match build_cached_projection d r with
      | Ok (Some (s, q)) => try entries := warm_entries d ids in Ok (cached_of r s q :: entries)
      | Ok None | Err (Rejected _) => warm_entries d ids
      | Err (Crashed msg) => Err (Crashed msg)
      end
  end.

(** [sql_ok] is whether the summaries are reconciled. *)
Definition warm_projection_cache (sql_ok : bool) (D : Database) : result unit Stop * Database :=
  if ds_warmed D then (Ok tt, D)
  else match catalog_list (mkQuery None None None) (ds_db D) with
       | Err e => (Err (Rejected e), D)
       | Ok ids =>
           match warm_entries (ds_db D) ids with
           | Err e => (Err e, D)
           | Ok entries =>
               if sql_ok then (Ok tt, { D with ds_cache := cache_replace_all entries (ds_cache D); ds_warmed := true })
               else (Err (Rejected SqliteError), D)
           end
       end.

Definition open_run_database (r : RunId) (read_only : bool) (D : Database) : RunDatabase Bytes :=
  build r (ds_db D) read_only (projection_snapshot r (ds_cache D)).

Definition cache_active_run (rd : RunDatabase Bytes) (D : Database) : Database :=
  { D with ds_active_runs := <[rd_run_id rd := rd]> (ds_active_runs D) }.

Definition create_run (sql_ok put_ok : bool) (r : RunId) (D : Database) : result unit Stop * Database :=
  match warm_projection_cache sql_ok D with
  | (Err e, D) => (Err e, D)
  | (Ok _, D) =>
      match catalog_add r (ds_db D) with
      | Err e => (Err (Rejected e), D)
      | Ok d =>
          if put_ok then
            let D := { D with ds_db := d } in
            (Ok tt, cache_active_run (open_run_database r false D) D)
          else (Err (Rejected SlateError), D)
      end
  end.

Definition mismatch (r : RunId) : Stop := Rejected (StoreOther ("active run cache mismatch for run_id " +:+ debug_run_id r)).

Definition open_run (sql_ok : bool) (r : RunId) (D : Database) : result unit Stop * Database :=
  match warm_projection_cache sql_ok D with
  | (Err e, D) => (Err e, D)
  | (Ok _, D) =>
      match ds_active_runs D !! r with
      | Some active => (if decide (rd_run_id active = r) then Ok tt else Err (mismatch r), D)
      | None =>
          if has_any_events (ds_db D) r then (Ok tt, cache_active_run (open_run_database r false D) D)
          else (Err (Rejected (RunNotFound r)), D)
      end
  end.

(** A reader shares the state of an open run, and has its own otherwise. *)
Definition open_run_reader (r : RunId) (D : Database) : result (RunDatabase Bytes) Stop :=
  match ds_active_runs D !! r with
  | Some active => if decide (rd_run_id active = r) then Ok { active with rd_db := ds_db D } else Err (mismatch r)
  | None => if has_any_events (ds_db D) r then Ok (open_run_database r true D) else Err (Rejected (RunNotFound r))
  end.

(** ** Reading all runs *)

Definition warmed {A} (sql_ok : bool) (f : Database -> A) (D : Database) : result A Stop * Database :=
  match warm_projection_cache sql_ok D with
  | (Err e, D) => (Err e, D)
  | (Ok _, D) => (Ok (f D), D)
  end.

Definition list_cached_runs (sql_ok : bool) (q : ListRunsQuery) (now : DateTime) : Database -> result (list CachedRunProjection) Stop * Database :=
  warmed sql_ok (fun D => cache_list run_created_at q now (ds_cache D)).

Definition list_runs (sql_ok : bool) (q : ListRunsQuery) (now : DateTime) (D : Database) : result (list Run) Stop * Database :=
  let '(entries, D) := list_cached_runs sql_ok q now D in
  (try entries := entries in Ok (ce_summary <$> entries), D).

Definition list_runs_with_projection (sql_ok : bool) (q : ListRunsQuery) (now : DateTime) (D : Database)
    : result (list (Run * RunProjection)) Stop * Database :=
  let '(entries, D) := list_cached_runs sql_ok q now D in
  (try entries := entries in Ok ((fun e => (ce_summary e, ce_projection e)) <$> entries), D).

Definition get_cached_run (sql_ok : bool) (r : RunId) : Database -> result (option CachedRunProjection) Stop * Database :=
  warmed sql_ok (fun D => cache_get r (ds_cache D)).

Definition get_cached_projection (sql_ok : bool) (r : RunId) : Database -> result (option RunProjection) Stop * Database :=
  warmed sql_ok (fun D => fst <$> projection_snapshot r (ds_cache D)).

Definition get_cached_summary (sql_ok : bool) (r : RunId) (now : DateTime) : Database -> result (option Run) Stop * Database :=
  warmed sql_ok (fun D => get_summary r now (ds_cache D)).

Definition pending_pull_request_creation_run_ids (sql_ok : bool) : Database -> result (list RunId) Stop * Database :=
  warmed sql_ok (fun D => pending_pull_request_creations (ds_cache D)).

(** ** Sessions *)

Definition put_session_run_index (put_ok : bool) (session_id : string) (r : RunId) (D : Database) : result unit Stop * Database :=
  if put_ok then (Ok tt, { D with ds_db := db_put (session_by_id_key session_id) (session_bytes r) (ds_db D) })
  else (Err (Rejected SlateError), D).

Definition get_session_run_id (session_id : string) (D : Database) : result (option RunId) StoreError :=
  match db_get (session_by_id_key session_id) (ds_db D) with
  | Some bytes => match session_of_bytes bytes with Some r => Ok (Some r) | None => Err SerdeError end
  | None => Ok None
  end.

Fixpoint session_keys_of (r : RunId) (entries : list (string * Bytes)) : result (list string) StoreError :=
  match entries with
  | [] => Ok []
  | (k, v) :: entries =>
      match session_of_bytes v with
      | None => Err SerdeError
      | Some r' => try keys := session_keys_of r entries in Ok (if decide (r' = r) then k :: keys else keys)
      end
  end.

Definition delete_session_indexes_for_run (budget : option nat) (r : RunId) (d : Db Bytes) : result (option nat) StoreError * Db Bytes :=
  match session_keys_of r (db_scan_prefix sessions_by_id_prefix d) with
  | Err e => (Err e, d)
  | Ok keys => delete_keys budget keys d
  end.

(** ** Deleting a run *)

Definition delete_run (sql_ok : bool) (budget : option nat) (r : RunId) (D : Database) : result unit Stop * Database :=
  let D := { D with ds_active_runs := delete r (ds_active_runs D) } in
  let failed e d := (Err (Rejected e), { D with ds_db := d }) in
  match delete_keys budget (fst <$> db_scan_prefix (run_data_prefix r) (ds_db D)) (ds_db D) with
  | (Err e, d) => failed e d
  | (Ok budget, d) =>
      match delete_session_indexes_for_run budget r d with
      | (Err e, d) => failed e d
      | (Ok budget, d) =>
          match catalog_remove budget r d with
          | (Err e, d) => failed e d
          | (Ok _, d) => (if sql_ok then Ok tt else Err (Rejected SqliteError), { D with ds_db := d; ds_cache := cache_remove r (ds_cache D) })
          end
      end
  end.

(** ** An operation on the handle of an open run *)

Definition committed (reply : StoreReply) : bool :=
  match reply with
  | Appended (Ok _) | AppendedIf (Ok (Some _)) => true
  | _ => false
  end.

(** A committed append puts the projection it keeps also in the shared cache. *)
Definition publish (rd : RunDatabase Bytes) (c : RunProjectionCacheState) : RunProjectionCacheState :=
  match pc_state (rd_cache rd) with
  | Some s => cache_insert c (cached_of (rd_run_id rd) s (pc_last_seq (rd_cache rd)))
  | None => c
  end.

(** An operation on a handle, which sees the database and the shared cache as they are. *)
Definition handle_step (r : RunId) (op : StoreOp) (rd : RunDatabase Bytes) (D : Database) : StoreReply * RunDatabase Bytes :=
  match op with
  | OpListBefore before limit =>
      (ListedBefore (list_events_before_with_limit rd (projection_snapshot r (ds_cache D)) before limit), rd)
  | _ => store_op op rd
  end.

Definition handle_op (r : RunId) (op : StoreOp) (D : Database) : option StoreReply * Database :=
  match ds_active_runs D !! r with
  | None => (None, D)
  | Some active =>
      let '(reply, rd) := handle_step r op { active with rd_db := ds_db D } D in
      (Some reply, { D with ds_db := rd_db rd; ds_active_runs := <[r := rd]> (ds_active_runs D);
                            ds_cache := if committed reply then publish rd (ds_cache D) else ds_cache D })
  end.

(** An operation on a reader opened for it. *)
Definition reader_op (r : RunId) (op : StoreOp) (D : Database) : result StoreReply Stop * Database :=
  match open_run_reader r D with
  | Err e => (Err e, D)
  | Ok rd =>
      let '(reply, rd) := handle_step r op rd D in
      (Ok reply, match ds_active_runs D !! r with
                 | Some _ => { D with ds_active_runs := <[r := rd]> (ds_active_runs D) }
                 | None => D
                 end)
  end.
End database.

Arguments Database Bytes {_}.

(** ** The same store as a map of logs *)

Section spec.
Context {Bytes : Type} `{!Codec Bytes, !RunIds}.

(** The logs of the runs in the catalog, the next sequence number of the runs that are
    open, the runs of sessions, and whether the store has been read since it started. *)
Record Logs := mkLogs {
  lg_logs : gmap RunId (list EventEnvelope);
  lg_next : gmap RunId Z;
  lg_sessions : gmap string RunId;
  lg_warm : bool
}.

Definition log_of (A : Logs) (r : RunId) : list EventEnvelope := default [] (lg_logs A !! r).

(** What a replay of the logs shows of the runs. *)
Definition entry_of (r : RunId) (log : list EventEnvelope) : option CachedRunProjection :=
  match log_state log with
  | Ok (Some s) => Some (from_projection run_created_at r s (last_seq 0 log))
  | _ => None
  end.

Definition replayed (A : Logs) : gmap RunId CachedRunProjection := map_imap entry_of (lg_logs A).

Inductive DbOp :=
| DbCreate (put_ok : bool) (r : RunId)
| DbOpen (r : RunId)
| DbHandle (r : RunId) (op : StoreOp)
| DbReader (r : RunId) (op : StoreOp)
| DbListRuns (q : ListRunsQuery) (now : DateTime)
| DbListProjections (q : ListRunsQuery) (now : DateTime)
| DbCached (r : RunId)
| DbProjection (r : RunId)
| DbSummary (r : RunId) (now : DateTime)
| DbPending
| DbPutSession (put_ok : bool) (session_id : string) (r : RunId)
| DbGetSession (session_id : string)
| DbDelete (budget : option nat) (r : RunId)
| DbRestart.

Inductive DbReply :=
| DoneIs (r : result unit Stop)
| HandleIs (r : option StoreReply)
| ReaderIs (r : result StoreReply Stop)
| RunsAre (r : result (list Run) Stop)
| ProjectionsAre (r : result (list (Run * RunProjection)) Stop)
| CachedIs (r : result (option CachedRunProjection) Stop)
| ProjectionIs (r : result (option RunProjection) Stop)
| SummaryIs (r : result (option Run) Stop)
| PendingAre (r : result (list RunId) Stop)
| SessionIs (r : result (option RunId) StoreError).

(** The first use of a store fails when the summaries cannot be reconciled. *)
Definition log_query {B} (sql_ok : bool) (wrap : result B Stop -> DbReply) (f : gmap RunId CachedRunProjection -> B) (A : Logs) : DbReply * Logs :=
  if (lg_warm A || sql_ok)%bool then let A := { A with lg_warm := true } in (wrap (Ok (f (replayed A))), A)
  else (wrap (Err (Rejected SqliteError)), A).

Definition log_open (r : RunId) (A : Logs) : Logs := { A with lg_next := <[r := last_seq 0 (log_of A r) + 1]> (lg_next A) }.

Definition log_store (r : RunId) (n : option Z) (op : StoreOp) (A : Logs) : StoreReply * LogStore := log_op r op (mkLog (log_of A r) n).

Definition log_db_op (sql_ok : bool) (op : DbOp) (A : Logs) : DbReply * Logs :=
  match op with
  | DbCreate put_ok r =>
      if negb (lg_warm A || sql_ok) then (DoneIs (Err (Rejected SqliteError)), A)
      else let A := { A with lg_warm := true } in
           if put_ok then (DoneIs (Ok tt), log_open r { A with lg_logs := <[r := log_of A r]> (lg_logs A) })
           else (DoneIs (Err (Rejected SlateError)), A)
  | DbOpen r =>
      if negb (lg_warm A || sql_ok) then (DoneIs (Err (Rejected SqliteError)), A)
      else let A := { A with lg_warm := true } in
           if is_some (lg_next A !! r) then (DoneIs (Ok tt), A)
           else match log_of A r with
                | [] => (DoneIs (Err (Rejected (RunNotFound r))), A)
                | _ => (DoneIs (Ok tt), log_open r A)
                end
  | DbHandle r op =>
      match lg_next A !! r with
      | None => (HandleIs None, A)
      | Some n => let '(reply, a) := log_store r (Some n) op A in
                  (HandleIs (Some reply), { A with lg_logs := <[r := ls_log a]> (lg_logs A);
                                                   lg_next := <[r := default n (ls_next a)]> (lg_next A) })
      end
  | DbReader r op =>
      if (is_some (lg_next A !! r) || negb (bool_decide (log_of A r = [])))%bool
      then (ReaderIs (Ok (log_store r None op A).1), A)
      else (ReaderIs (Err (Rejected (RunNotFound r))), A)
  | DbListRuns q now => log_query sql_ok RunsAre (fun es => ce_summary <$> ref_list run_created_at q now es) A
  | DbListProjections q now =>
      log_query sql_ok ProjectionsAre (fun es => (fun e => (ce_summary e, ce_projection e)) <$> ref_list run_created_at q now es) A
  | DbCached r => log_query sql_ok CachedIs (fun es => ref_with_count es <$> es !! r) A
  | DbProjection r => log_query sql_ok ProjectionIs (fun es => ce_projection <$> es !! r) A
  | DbSummary r now =>
      log_query sql_ok SummaryIs (fun es => (fun e => ce_summary (apply_read_overlays now (ref_with_count es e))) <$> es !! r) A
  | DbPending => log_query sql_ok PendingAre ref_pending A
  | DbPutSession put_ok session_id r =>
      if put_ok then (DoneIs (Ok tt), { A with lg_sessions := <[session_id := r]> (lg_sessions A) }) else (DoneIs (Err (Rejected SlateError)), A)
  | DbGetSession session_id => (SessionIs (Ok (lg_sessions A !! session_id)), A)
  | DbDelete _ r =>
      (DoneIs (if sql_ok then Ok tt else Err (Rejected SqliteError)),
       { A with lg_logs := delete r (lg_logs A); lg_next := delete r (lg_next A);
                lg_sessions := map_imap (fun _ r' => if decide (r' = r) then None else Some r') (lg_sessions A) })
  | DbRestart => (DoneIs (Ok tt), { A with lg_next := ∅; lg_warm := false })
  end.
End spec.

(** One operation of the store itself; [sql_ok] is whether SQLite works. *)
Definition db_op {Bytes} `{!SlateDb Bytes, !Codec Bytes, !RunIds, !SessionCodec Bytes} (sql_ok : bool) (op : DbOp) (D : Database Bytes)
    : DbReply * Database Bytes :=
  match op with
  | DbCreate put_ok r => let '(x, D) := create_run sql_ok put_ok r D in (DoneIs x, D)
  | DbOpen r => let '(x, D) := open_run sql_ok r D in (DoneIs x, D)
  | DbHandle r op => let '(x, D) := handle_op r op D in (HandleIs x, D)
  | DbReader r op => let '(x, D) := reader_op r op D in (ReaderIs x, D)
  | DbListRuns q now => let '(x, D) := list_runs sql_ok q now D in (RunsAre x, D)
  | DbListProjections q now => let '(x, D) := list_runs_with_projection sql_ok q now D in (ProjectionsAre x, D)
  | DbCached r => let '(x, D) := get_cached_run sql_ok r D in (CachedIs x, D)
  | DbProjection r => let '(x, D) := get_cached_projection sql_ok r D in (ProjectionIs x, D)
  | DbSummary r now => let '(x, D) := get_cached_summary sql_ok r now D in (SummaryIs x, D)
  | DbPending => let '(x, D) := pending_pull_request_creation_run_ids sql_ok D in (PendingAre x, D)
  | DbPutSession put_ok session_id r => let '(x, D) := put_session_run_index put_ok session_id r D in (DoneIs x, D)
  | DbGetSession session_id => (SessionIs (get_session_run_id session_id D), D)
  | DbDelete budget r => let '(x, D) := delete_run sql_ok budget r D in (DoneIs x, D)
  | DbRestart => (DoneIs (Ok tt), database_new (ds_db D))
  end.

(** ** Keys *)

Ltac flatten_keys := repeat (rewrite append_assoc || rewrite append_cons || rewrite append_nil_l).

Lemma segments_runs a rest : no_char SEP a -> split_char SEP ("runs" +:+ String SEP (a +:+ String SEP rest)) = "runs" :: a :: split_char SEP rest.
Proof. intros Ha. rewrite split_char_append by done. by rewrite split_char_append. Qed.

Lemma data_segments r k : no_char SEP r -> starts_with (run_data_prefix r) k = true -> exists rest, split_char SEP k = "runs" :: r :: rest.
Proof.
  intros Hr [rest ->]%starts_with_spec. unfold run_data_prefix, key_with. exists (split_char SEP rest).
  rewrite <- segments_runs by done. f_equal; by flatten_keys.
Qed.

Lemma events_data_prefix r k : starts_with (run_events_prefix r) k = true -> starts_with (run_data_prefix r) k = true.
Proof.
  intros [rest ->]%starts_with_spec. apply starts_with_spec. exists ("events" +:+ String SEP rest).
  unfold run_events_prefix, events_key, run_data_prefix, key_with. by flatten_keys.
Qed.

Lemma event_key_data r seq ms : starts_with (run_data_prefix r) (run_event_key r seq ms) = true.
Proof. apply events_data_prefix, event_key_prefix. Qed.

Definition catalog_prefix : string := "runs" +:+ String SEP ("_index" +:+ String SEP ("by-start" +:+ String SEP "")).

Section facts.
Context {Bytes : Type} `{!SlateDb Bytes, !Codec Bytes, !RunIds, !SessionCodec Bytes}.
Implicit Types (d : Db Bytes) (r : RunId) (k : string).

Definition catalog_key r : string := catalog_prefix +:+ (run_day r +:+ String SEP r).

Lemma prefix_key_eq : prefix_key = Ok catalog_prefix.
Proof. reflexivity. Qed.

Lemma key_for_id_eq r : no_char SEP r -> key_for_id r = Ok (catalog_key r).
Proof.
  intros Hr. pose proof (run_day_plain r) as Hd. unfold key_for_id, key_segments.
  change (split_char "/" CATALOG_PREFIX) with ["runs"; "_index"; "by-start"]. cbn [app key_from_segments append_segments].
  unfold validate_key_segment. unfold no_char in *. rewrite Hr, Hd. done.
Qed.

Lemma catalog_segments r : no_char SEP r -> split_char SEP (catalog_key r) = ["runs"; "_index"; "by-start"; run_day r; r].
Proof.
  intros Hr. pose proof (run_day_plain r) as Hd. change (split_char SEP (catalog_key r)) with (split_char SEP
    ("runs" +:+ String SEP ("_index" +:+ String SEP ("by-start" +:+ String SEP (run_day r +:+ String SEP r))))).
  rewrite !split_char_append by done. by rewrite split_char_absent.
Qed.

Lemma parse_catalog_key r : run_text r = true -> parse_entry_id (catalog_key r) = Ok r.
Proof.
  intros Hr. unfold parse_entry_id. rewrite catalog_segments by by apply run_text_plain.
  change (split_char "/" CATALOG_PREFIX) with ["runs"; "_index"; "by-start"]. cbn [length Nat.ltb Nat.leb take drop].
  rewrite bool_decide_true by done. cbn [negb from_key_segments]. by rewrite run_parse_text.
Qed.

Lemma catalog_key_prefix r : starts_with catalog_prefix (catalog_key r) = true.
Proof. apply starts_with_append. Qed.

Lemma catalog_prefix_segments k : starts_with catalog_prefix k = true -> exists rest, split_char SEP k = "runs" :: "_index" :: rest.
Proof.
  intros [rest ->]%starts_with_spec. unfold catalog_prefix. exists (split_char SEP ("by-start" +:+ String SEP rest)).
  rewrite <- segments_runs by done. f_equal; by flatten_keys.
Qed.

Lemma session_prefix_segments k : starts_with sessions_by_id_prefix k = true -> exists rest, split_char SEP k = "sessions" :: rest.
Proof.
  intros [rest ->]%starts_with_spec. unfold sessions_by_id_prefix, key_with. exists (split_char SEP ("by-id" +:+ String SEP rest)).
  rewrite <- split_char_append by done. f_equal; by flatten_keys.
Qed.

Lemma session_key_prefix sid : starts_with sessions_by_id_prefix (session_by_id_key sid) = true.
Proof.
  apply starts_with_spec. exists sid. unfold session_by_id_key, sessions_by_id_prefix, key_with. by flatten_keys.
Qed.

Lemma not_index r : run_text r = true -> r <> "_index".
Proof. intros Hr%run_text_length ->. done. Qed.

(** No key is in two of the namespaces. *)
Lemma namespaces_apart r k :
  run_text r = true -> starts_with (run_data_prefix r) k = true ->
  starts_with catalog_prefix k = false /\ starts_with sessions_by_id_prefix k = false /\
  forall r', run_text r' = true -> r' <> r -> starts_with (run_data_prefix r') k = false.
Proof.
  intros Hr Hk. destruct (data_segments r k (run_text_plain r Hr) Hk) as [rest Hs]. pose proof (not_index r Hr) as Hi.
  split_and!; [| |intros r' Hr' Hd]; apply not_true_iff_false.
  - intros [rest' Hs']%catalog_prefix_segments. congruence.
  - intros [rest' Hs']%session_prefix_segments. congruence.
  - intros Hk'. destruct (data_segments r' k (run_text_plain r' Hr') Hk') as [rest' Hs']. congruence.
Qed.

Lemma catalog_sessions_apart k : starts_with catalog_prefix k = true -> starts_with sessions_by_id_prefix k = false.
Proof.
  intros [rest Hs]%catalog_prefix_segments. apply not_true_iff_false. intros [rest' Hs']%session_prefix_segments. congruence.
Qed.

(** ** Databases that agree on a namespace *)

Definition agree (p : string) d d' : Prop := forall k, starts_with p k = true -> db_contents d' !! k = db_contents d !! k.

Lemma selection_agree (f : string -> bool) (m m' : gmap string Bytes) :
  (forall k, f k = true -> m' !! k = m !! k) ->
  filterb (fun e => f e.1) (sorted_entries m') = filterb (fun e => f e.1) (sorted_entries m).
Proof.
  intros Hm. destruct (sorted_entries_spec m) as (Hs & Hn & He), (sorted_entries_spec m') as (Hs' & Hn' & He').
  assert (forall k v, (k, v) ∈ filterb (fun e => f e.1) (sorted_entries m') <-> (k, v) ∈ filterb (fun e => f e.1) (sorted_entries m)) as Hel.
  { intros k v. rewrite !filterb_elem, He, He'. cbn [fst]. split; intros [Hk Hf]; (split; [|done]); by rewrite Hm in *. }
  apply StronglySorted_unique_strong with (R := key_le); [|by apply filterb_sorted|by apply filterb_sorted|].
  - intros [k v] [k' v'] H1%Hel%filterb_elem H2%filterb_elem Hle Hle'. unfold key_le in *. cbn [fst] in *.
    assert (k = k') as <- by by apply (anti_symm String.le). destruct H1 as [H1%He _], H2 as [H2%He _]. congruence.
  - apply NoDup_Permutation; [eapply NoDup_fmap_1; by apply filterb_NoDup|eapply NoDup_fmap_1; by apply filterb_NoDup|].
    intros [k v]. apply Hel.
Qed.

Lemma scan_prefix_agree p d d' : agree p d d' -> db_scan_prefix p d' = db_scan_prefix p d.
Proof. intros Ha. rewrite !db_scan_prefix_spec. by apply (selection_agree (starts_with p)). Qed.

Lemma agree_events r d d' : agree (run_data_prefix r) d d' -> agree (run_events_prefix r) d d'.
Proof. intros Ha k Hk. by apply Ha, events_data_prefix. Qed.

Lemma scan_from_agree r start d d' : agree (run_data_prefix r) d d' -> scan_from d' r start = scan_from d r start.
Proof.
  intros Ha%agree_events. unfold scan_from. case_match; [done|]. f_equal. rewrite !db_scan_spec.
  apply (selection_agree (in_key_range (run_events_range r start).1 (run_events_range r start).2)).
  intros k Hk. by eapply Ha, in_range_prefix.
Qed.

Lemma holds_agree r log d d' : agree (run_data_prefix r) d d' -> holds d r log -> holds d' r log.
Proof.
  intros Ha [Hr Hk Hl]. pose proof (agree_events r d d' Ha) as He. split; [done| |].
  - split.
    + intros k v Hv Hp. rewrite He in Hv by done. by eapply keys_form.
    + intros seq ms ms' Hs H1 H2. rewrite He in H1, H2 by apply event_key_prefix. by eapply keys_unique.
  - unfold list_events_from in *. by rewrite (scan_from_agree r 1 d d').
Qed.

Lemma refines_agree rd a d' :
  agree (run_data_prefix (rd_run_id rd)) (rd_db rd) d' -> refines rd a -> refines { rd with rd_db := d' } a.
Proof. intros Ha [H1 H2 H3 H4 H5 H6]. destruct rd. split; [by eapply holds_agree|done..]. Qed.

(** ** What an operation on a handle changes *)

Definition outside r d d' : Prop := forall k, starts_with (run_data_prefix r) k = false -> db_contents d' !! k = db_contents d !! k.

Definition stays (rd rd' : RunDatabase Bytes) : Prop :=
  rd_run_id rd' = rd_run_id rd /\ outside (rd_run_id rd) (rd_db rd) (rd_db rd').

#[local] Instance stays_preorder : PreOrder stays.
Proof.
  split; [by intros rd; split|]. intros a b c [H1 H2] [H3 H4]. split; [congruence|]. intros k Hk. rewrite H1 in H4. by rewrite H4, H2.
Qed.

Lemma put_outside r n now v d : outside r d (db_put (run_event_key r n now) v d).
Proof.
  intros k Hk. rewrite db_put_contents, lookup_insert_ne; [done|]. intros <-. by rewrite event_key_data in Hk.
Qed.

Lemma state_option_stays rd : stays rd (projected_state_option rd).2.
Proof.
  unfold projected_state_option. destruct (list_events_from _ _ _); [|done]. destruct (catch_up _ _) as [[]]; by destruct rd.
Qed.

Lemma state_stays rd : stays rd (projected_state rd).2.
Proof.
  pose proof (state_option_stays rd) as Hst. unfold projected_state. by destruct (projected_state_option rd) as [[[]|] rd'].
Qed.

Lemma append_locked_stays e bytes now ok rd :
  let '(reply, rd') := append_event_envelope_locked e bytes now ok rd in
  stays rd rd' /\ (is_ok reply = true -> is_some (pc_state (rd_cache rd')) = true).
Proof.
  unfold append_event_envelope_locked. destruct (rd_event_seq rd) as [n|]; [|done]. destruct (next_event_seq n) as [seq|]; [|done].
  assert (stays rd (projected_state_for_append seq rd).2) as Hst.
  { unfold projected_state_for_append. case_match; [done|apply state_option_stays]. }
  destruct (projected_state_for_append seq rd) as [[st|] rd1]; [|done].
  destruct (apply_cached_projection_event st _) as [[] [next|]]; try done.
  destruct (reserve_event_seq n seq); [|done]. destruct ok; (split; [|done]); (etrans; [exact Hst|]); destruct rd1; [|done].
  split; [done|]. apply put_outside.
Qed.

Lemma store_op_stays op rd :
  stays rd (store_op op rd).2 /\ (committed (store_op op rd).1 = true -> is_some (pc_state (rd_cache (store_op op rd).2)) = true).
Proof.
  destruct op as [ro payload now ok|ro payload p now ok| | | | | |warm]; cbn [store_op]; try done.
  - unfold append_event_envelope. destruct ro; [done|]. destruct (validate_payload _ _); [|done].
    destruct (event_of_payload payload) as [e|]; [|done]. pose proof (append_locked_stays e (payload_bytes payload) now ok rd) as Hst.
    destruct (append_event_envelope_locked _ _ _ _ _) as [[[]|] rd']; [|by destruct Hst]. cbn in *. split; [apply Hst|]. intros _. by apply Hst.
  - unfold append_event_if. destruct ro; [done|]. destruct (validate_payload _ _); [|done].
    pose proof (state_stays rd) as Hs. destruct (projected_state rd) as [[s|] rd1]; [|done]. destruct (negb (p s)); [done|].
    destruct (event_of_payload payload) as [e|]; [|done]. pose proof (append_locked_stays e (payload_bytes payload) now ok rd1) as Hst.
    destruct (append_event_envelope_locked _ _ _ _ _) as [[[]|] rd']; destruct Hst as [H1 H2]; (split; [by etrans|]); [|done].
    intros _. by apply H2.
  - pose proof (state_stays rd) as Hs. by destruct (projected_state rd) as [r rd1].
Qed.

(** ** The catalog and the sessions *)

(** All of the deletions. *)
Definition delete_all (ks : list string) d : Db Bytes := foldl (fun d k => db_delete k d) d ks.

(** Deleting succeeds with all of the keys gone, and always does when no write fails; else the
    first of them are gone. *)
Lemma delete_keys_spec budget ks d :
  match delete_keys budget ks d with
  | (Ok _, d') => d' = delete_all ks d
  | (Err e, d') => e = SlateError /\ exists ks1 k ks2, ks = ks1 ++ k :: ks2 /\ d' = delete_all ks1 d
  end.
Proof.
  revert budget d. induction ks as [|k ks IH]; intros budget d; [done|]. cbn [delete_keys].
  assert (forall budget, match delete_keys budget ks (db_delete k d) with
    | (Ok _, d') => d' = delete_all (k :: ks) d
    | (Err e, d') => e = SlateError /\ exists ks1 k' ks2, k :: ks = ks1 ++ k' :: ks2 /\ d' = delete_all ks1 d
    end) as Hnext.
  { intros b. specialize (IH b (db_delete k d)). destruct (delete_keys b ks _) as [[]]; [done|].
    destruct IH as (He & ks1 & k' & ks2 & -> & ->). split; [done|]. by exists (k :: ks1), k', ks2. }
  destruct budget as [[|b]|]; [split; [done|]; by exists [], k, ks|apply Hnext..].
Qed.

Lemma delete_keys_all ks d : delete_keys None ks d = (Ok None, delete_all ks d).
Proof. revert d. induction ks as [|k ks IH]; intros d; [done|]. cbn [delete_keys]. apply IH. Qed.

Lemma delete_all_contents ks d k : db_contents (delete_all ks d) !! k = if decide (k ∈ ks) then None else db_contents d !! k.
Proof.
  unfold delete_all. revert d. induction ks as [|k' ks IH]; intros d; [by rewrite decide_False by apply not_elem_of_nil|]. cbn [foldl].
  rewrite IH, db_delete_contents. destruct (decide (k ∈ ks)); [by rewrite decide_True by set_solver|].
  destruct (decide (k = k')) as [->|]; [rewrite lookup_delete_eq, decide_True by set_solver; done|].
  rewrite lookup_delete_ne, decide_False by set_solver. done.
Qed.

(** The keys under a prefix are those of the entries of a map. *)
Definition namespace {A V} `{!EqDecision A, !Countable A} (p : string) (key : A -> string) (enc : V -> Bytes) d (m : gmap A V) : Prop :=
  forall k v, db_contents d !! k = Some v /\ starts_with p k = true <-> exists a x, m !! a = Some x /\ k = key a /\ v = enc x.

Section namespace.
Context {A V : Type} `{!EqDecision A, !Countable A} (p : string) (key : A -> string) (enc : V -> Bytes).
Context (Hkey : forall a, starts_with p (key a) = true) `{!Inj (=) (=) key}.
Implicit Types (m : gmap A V).

Lemma namespace_agree d d' m : agree p d d' -> namespace p key enc d m -> namespace p key enc d' m.
Proof. unfold namespace. intros Ha Hn k v. rewrite <- Hn. split; intros [Hk Hp]; (split; [|done]); by rewrite Ha in *. Qed.

Lemma namespace_put a x d m : namespace p key enc d m -> namespace p key enc (db_put (key a) (enc x) d) (<[a := x]> m).
Proof.
  unfold namespace. intros Hn k v. rewrite db_put_contents. destruct (decide (k = key a)) as [->|Hk].
  - rewrite lookup_insert_eq. split.
    + intros [[=<-] _]. exists a, x. by rewrite lookup_insert_eq.
    + intros (b & y & Hb & He%(inj key) & ->). subst b. rewrite lookup_insert_eq in Hb. by simplify_eq.
  - rewrite lookup_insert_ne by congruence. rewrite Hn. split; intros (b & y & Hb & -> & ->); exists b, y; (split; [|done]).
    + rewrite lookup_insert_ne by congruence. done.
    + rewrite lookup_insert_ne in Hb by congruence. done.
Qed.

Lemma namespace_delete (P : A -> V -> bool) ks d m :
  (forall a x, m !! a = Some x -> key a ∈ ks <-> P a x = true) ->
  namespace p key enc d m -> namespace p key enc (delete_all ks d) (map_imap (fun a x => if P a x then None else Some x) m).
Proof.
  unfold namespace. intros Hks Hn k v. rewrite delete_all_contents. setoid_rewrite map_lookup_imap. split.
  - destruct (decide (k ∈ ks)) as [|Hk]; [by intros [? _]|]. intros (a & x & Ha & -> & ->)%Hn. exists a, x. rewrite Ha. cbn.
    destruct (P a x) eqn:HP; [|done]. exfalso. by apply Hk, (Hks a x).
  - intros (a & y & Ha & -> & ->). destruct (m !! a) as [x|] eqn:Hm; [|done]. cbn in Ha. destruct (P a x) eqn:HP; [done|]. simplify_eq.
    rewrite decide_False; [|intros Hk; apply (Hks a y Hm) in Hk; congruence]. apply Hn. eauto.
Qed.

(** What a scan of the namespace finds. *)
Lemma namespace_scan d m k v :
  namespace p key enc d m -> (k, v) ∈ db_scan_prefix p d <-> exists a x, m !! a = Some x /\ k = key a /\ v = enc x.
Proof.
  intros Hn. rewrite db_scan_prefix_spec, filterb_elem. cbn [fst]. destruct (sorted_entries_spec (db_contents d)) as (_ & _ & He).
  rewrite He. apply Hn.
Qed.
End namespace.

#[local] Instance session_key_inj : Inj (=) (=) session_by_id_key.
Proof. intros a b. unfold session_by_id_key, key_with. intros He. by injection He. Qed.

Lemma append_sep_inj x y a b : no_char SEP x -> no_char SEP y -> x +:+ String SEP a = y +:+ String SEP b -> a = b.
Proof.
  unfold no_char. revert y. induction x as [|c x IH]; intros [|c' y]; cbn; intros Hx Hy He; injection He; intros; subst; try done.
  apply andb_prop in Hx as [_ Hx], Hy as [_ Hy]. eauto.
Qed.

#[local] Instance catalog_key_inj : Inj (=) (=) catalog_key.
Proof.
  intros a b. unfold catalog_key, catalog_prefix. intros He. injection He as He. by eapply append_sep_inj; [apply run_day_plain..|].
Qed.

Notation catalog_holds := (namespace catalog_prefix catalog_key (fun _ : list EventEnvelope => marker)).
Notation sessions_hold := (namespace sessions_by_id_prefix session_by_id_key session_bytes).

Lemma scan_ids_catalog d (logs : gmap RunId (list EventEnvelope)) :
  (forall r, r ∈ dom logs -> run_text r = true) -> catalog_holds d logs ->
  exists ids, scan_ids d = Ok ids /\ forall r, r ∈ ids <-> r ∈ dom logs.
Proof.
  intros Ht Hc. unfold scan_ids. rewrite prefix_key_eq. pose proof (fun k v => namespace_scan _ _ _ d logs k v Hc) as Hs.
  assert (forall l : list (string * Bytes), (forall k v, (k, v) ∈ l -> exists r, r ∈ dom logs /\ k = catalog_key r) ->
    exists ids, parse_entry_ids (fst <$> l) = Ok ids /\ catalog_key <$> ids = fst <$> l) as Hl.
  { intros l. induction l as [|[k v] l IH]; intros Hin; [by exists []|]. destruct IH as (ids & Hi & Hk); [set_solver|].
    destruct (Hin k v) as (r & Hr & ->); [set_solver|]. exists (r :: ids). cbn [fmap list_fmap fst parse_entry_ids].
    rewrite parse_catalog_key by auto. rewrite Hi. cbn. by rewrite Hk. }
  destruct (Hl (db_scan_prefix catalog_prefix d)) as (ids & Hi & Hk).
  { intros k v (r & log & Hr & -> & _)%Hs. exists r. split; [by eapply elem_of_dom_2|done]. }
  exists ids. split; [exact Hi|]. intros r. rewrite elem_of_dom. split.
  - intros Hr%(list_elem_of_fmap_2 catalog_key). rewrite Hk in Hr. apply list_elem_of_fmap in Hr as ([k v] & He & Hin).
    apply Hs in Hin as (r' & log & Hr' & -> & _). cbn in He. apply (inj catalog_key) in He as ->. eauto.
  - intros [log Hlog]. assert (catalog_key r ∈ catalog_key <$> ids) as (r' & He & Hr')%list_elem_of_fmap.
    { rewrite Hk. apply list_elem_of_fmap. exists (catalog_key r, marker). split; [done|]. apply Hs. eauto. }
    by apply (inj catalog_key) in He as ->.
Qed.

Lemma catalog_list_all d (logs : gmap RunId (list EventEnvelope)) :
  (forall r, r ∈ dom logs -> run_text r = true) -> catalog_holds d logs ->
  exists ids, catalog_list (mkQuery None None None) d = Ok ids /\ forall r, r ∈ ids <-> r ∈ dom logs.
Proof.
  intros Ht Hc. destruct (scan_ids_catalog d logs Ht Hc) as (ids & Hi & He). unfold catalog_list. rewrite Hi. cbn -[merge_sort filterb].
  eexists. split; [reflexivity|]. intros r. rewrite merge_sort_Permutation, filterb_elem, He. tauto.
Qed.

Lemma session_keys_spec r l :
  (forall k v, (k, v) ∈ l -> is_Some (session_of_bytes v)) ->
  exists ks, session_keys_of r l = Ok ks /\ forall k, k ∈ ks <-> exists v, (k, v) ∈ l /\ session_of_bytes v = Some r.
Proof.
  induction l as [|[k v] l IH]; intros Hl; [exists []; split; [done|set_solver]|].
  destruct IH as (ks & Hk & He); [set_solver|]. destruct (Hl k v) as [r' Hv]; [set_solver|]. cbn [session_keys_of]. rewrite Hv, Hk. cbn.
  eexists. split; [reflexivity|]. intros k'. destruct (decide (r' = r)) as [->|Hd].
  - rewrite elem_of_cons, He. setoid_rewrite elem_of_cons. naive_solver.
  - rewrite He. setoid_rewrite elem_of_cons. naive_solver.
Qed.

(** ** The invariant *)

Record db_holds d (A : Logs) : Prop := {
  dh_text : forall r, r ∈ dom (lg_logs A) -> run_text r = true;
  dh_logs : forall r, run_text r = true -> holds d r (log_of A r);
  dh_accepted : forall r, exists st, log_state (log_of A r) = Ok st;
  dh_catalog : catalog_holds d (lg_logs A);
  dh_sessions : sessions_hold d (lg_sessions A)
}.

(** The handle of a run refines its log, over the current database. *)
Definition handle_holds d (A : Logs) r (rd : RunDatabase Bytes) (n : Z) : Prop :=
  lg_warm A = true /\ r ∈ dom (lg_logs A) /\ rd_run_id rd = r /\
  refines { rd with rd_db := d } (mkLog (log_of A r) (Some n)).

Definition handles_hold d (A : Logs) (active : gmap RunId (RunDatabase Bytes)) : Prop :=
  forall r, match active !! r, lg_next A !! r with
            | Some rd, Some n => handle_holds d A r rd n
            | None, None => True
            | _, _ => False
            end.

Record represents (D : Database Bytes) (A : Logs) : Prop := {
  dr_db : db_holds (ds_db D) A;
  dr_warm : ds_warmed D = lg_warm A;
  dr_cache_ok : cache_ok (ds_cache D);
  dr_cache : cs_entries (ds_cache D) = if lg_warm A then replayed A else ∅;
  dr_active : handles_hold (ds_db D) A (ds_active_runs D)
}.

(** *** Warming the cache *)

Lemma warm_entries_log d A ids :
  db_holds d A -> (forall r, r ∈ ids -> run_text r = true) ->
  warm_entries d ids = Ok (omap (fun r => entry_of r (log_of A r)) ids).
Proof.
  intros Hd. induction ids as [|r ids IH]; intros Ht; [done|]. cbn [warm_entries omap list_omap].
  destruct (dh_accepted _ _ Hd r) as [st Hst]. unfold entry_of at 1. rewrite (warm_start d r (log_of A r) st), Hst;
    [|apply (dh_logs _ _ Hd); set_solver|done]. destruct st as [s|]; cbn; rewrite IH by set_solver; done.
Qed.

Lemma fold_entries (g : RunId -> option CachedRunProjection) ids (m : gmap RunId CachedRunProjection) r :
  (forall r e, g r = Some e -> ce_run_id e = r) ->
  foldl (fun m e => <[ce_run_id e := e]> m) m (omap g ids) !! r =
  if decide (r ∈ ids) then or_else (g r) (m !! r) else m !! r.
Proof.
  intros Hg. revert m. induction ids as [|r' ids IH]; intros m; [by rewrite decide_False by apply not_elem_of_nil|].
  cbn [omap list_omap]. destruct (g r') as [e|] eqn:He.
  - cbn [foldl]. rewrite IH, (Hg _ _ He). destruct (decide (r = r')) as [->|Hn].
    + rewrite lookup_insert_eq, (decide_True (P := r' ∈ r' :: ids)) by set_solver. rewrite He. by destruct (decide _).
    + rewrite lookup_insert_ne by done. destruct (decide (r ∈ ids)); [rewrite decide_True by set_solver|rewrite decide_False by set_solver]; done.
  - rewrite IH. destruct (decide (r = r')) as [->|Hn].
    + rewrite (decide_True (P := r' ∈ r' :: ids)) by set_solver. rewrite He. by destruct (decide _).
    + destruct (decide (r ∈ ids)); [rewrite decide_True by set_solver|rewrite decide_False by set_solver]; done.
Qed.

Lemma entry_of_id r log e : entry_of r log = Some e -> ce_run_id e = r.
Proof. unfold entry_of. intros He. by destruct (log_state log) as [[s|]|]; simplify_eq. Qed.

Lemma replayed_lookup A r : replayed A !! r = entry_of r (log_of A r).
Proof. unfold replayed, log_of. rewrite map_lookup_imap. by destruct (lg_logs A !! r). Qed.

Lemma warm_refines sql_ok D A :
  represents D A ->
  exists D', warm_projection_cache sql_ok D = (if (lg_warm A || sql_ok)%bool then Ok tt else Err (Rejected SqliteError), D') /\
    represents D' (if (lg_warm A || sql_ok)%bool then { A with lg_warm := true } else A).
Proof.
  intros [Hd Hw Hc He Ha]. unfold warm_projection_cache. rewrite Hw. destruct (lg_warm A) eqn:HA.
  - exists D. split; [done|]. destruct A; cbn in *; subst. by split.
  - destruct (catalog_list_all (ds_db D) (lg_logs A) (dh_text _ _ Hd) (dh_catalog _ _ Hd)) as (ids & -> & Hids).
    rewrite (warm_entries_log (ds_db D) A ids Hd) by (intros r Hr; apply (dh_text _ _ Hd), Hids, Hr). cbn [orb].
    destruct sql_ok; cycle 1.
    { exists D. split; [done|]. split; by rewrite ?HA. }
    eexists. split; [reflexivity|]. destruct D as [d act cache wd]. cbn -[cache_replace_all] in *. unfold constant.
    split; cbn -[cache_replace_all]; unfold constant; [by destruct A, Hd|by destruct A|apply cache_replace_all_ok| |].
    + rewrite cache_replace_all_entries. destruct A as [logs nxt ses wm]. cbn in Hids |- *. apply map_eq. intros r.
      rewrite fold_entries by (intros; by eapply entry_of_id). rewrite lookup_empty. unfold replayed. cbn. rewrite map_lookup_imap.
      destruct (decide (r ∈ ids)) as [Hr|Hr].
      * unfold log_of. cbn. apply Hids, elem_of_dom in Hr as [log ->]. cbn. by destruct (entry_of r log).
      * rewrite Hids in Hr. by rewrite (not_elem_of_dom_1 _ _ Hr).
    + intros r. specialize (Ha r). destruct A as [logs nxt ses wm]. cbn in *. destruct (act !! r), (nxt !! r); try done.
      destruct Ha as [Hx _]. cbn in Hx. congruence.
Qed.

Lemma db_holds_ext d A A' : lg_logs A' = lg_logs A -> lg_sessions A' = lg_sessions A -> db_holds d A -> db_holds d A'.
Proof.
  unfold log_of. intros Hl Hs [H1 H2 H3 H4 H5]. split; unfold log_of in *; rewrite ?Hl, ?Hs; done.
Qed.

Lemma replayed_ext A A' : lg_logs A' = lg_logs A -> replayed A' = replayed A.
Proof. unfold replayed. by intros ->. Qed.

Lemma snapshot_log D A r st :
  represents D A -> lg_warm A = true -> log_state (log_of A r) = Ok st ->
  projection_snapshot r (ds_cache D) = (fun s => (s, last_seq 0 (log_of A r))) <$> st.
Proof.
  intros Hr Hw Hst. unfold projection_snapshot. rewrite (dr_cache _ _ Hr), Hw, replayed_lookup. unfold entry_of. rewrite Hst. by destruct st.
Qed.

Lemma open_handle D A r :
  represents D A -> lg_warm A = true -> r ∈ dom (lg_logs A) ->
  represents (cache_active_run (open_run_database r false D) D) (log_open r A).
Proof.
  intros Hr Hw Hdom. destruct (dh_accepted _ _ (dr_db _ _ Hr) r) as [st Hst].
  assert (refines (open_run_database r false D) (mkLog (log_of A r) (Some (last_seq 0 (log_of A r) + 1)))) as Hb.
  { apply (build_refines _ _ _ false _ st); [apply (dh_logs _ _ (dr_db _ _ Hr)), (dh_text _ _ (dr_db _ _ Hr)), Hdom|done|].
    rewrite (snapshot_log D A r st Hr Hw Hst). intros s q Hs. destruct st; cbn in Hs; by simplify_eq. }
  destruct Hr as [Hd Hwd Hc He Ha], D as [d act cache wd], A as [logs nxt ses wm]. cbn in *. unfold constant.
  split; cbn; unfold constant; [by eapply db_holds_ext; [..|exact Hd]|done|done|exact He|]. intros r'. specialize (Ha r'). cbn in *.
  destruct (decide (r' = r)) as [->|Hn].
  - rewrite !lookup_insert_eq. by split_and!.
  - rewrite !lookup_insert_ne by done. exact Ha.
Qed.

Lemma has_events_log d r log : holds d r log -> has_any_events d r = negb (bool_decide (log = [])).
Proof.
  intros Hh. unfold has_any_events. pose proof (holds_run _ _ _ Hh) as Hr. pose proof (holds_keys _ _ _ Hh) as Hk.
  destruct (scan_from_spec r Hr d 1 Hk ltac:(lia)) as [_ Hs]. pose proof (decode_events_seqs _ _ (holds_log _ _ _ Hh)) as Hq.
  rewrite db_scan_prefix_spec. destruct (sorted_entries_spec (db_contents d)) as (_ & _ & Hel).
  destruct (filterb _ _) as [|[k v] l] eqn:Hf.
  - rewrite bool_decide_true; [done|]. destruct log as [|env log]; [done|]. exfalso.
    destruct (proj2 (held_stored _ _ _ Hh (env_seq env))) as (v & _ & ms & Hv); [exists env; set_solver|].
    assert ((run_event_key r (env_seq env) ms, v) ∈ (@nil (string * Bytes))) as Hin%not_elem_of_nil; [|done].
    rewrite <- Hf. apply filterb_elem. rewrite Hel. cbn [fst]. split; [done|apply event_key_prefix].
  - rewrite bool_decide_false; [done|]. intros ->. assert ((k, v) ∈ (k, v) :: l) as Hin by set_solver. rewrite <- Hf in Hin.
    apply filterb_elem in Hin as [Hin Hp]. apply Hel in Hin. destruct (keys_form d r Hk k v Hin Hp) as (seq & ms & -> & Hseq).
    destruct (proj1 (held_stored _ _ _ Hh seq)) as (env & He & _); [|by apply not_elem_of_nil in He]. exists v. split; [done|]. eauto.
Qed.

(** *** Changes of the database elsewhere *)

Lemma handles_agree d d' A active :
  (forall r, run_text r = true -> agree (run_data_prefix r) d d') -> (forall r, r ∈ dom (lg_logs A) -> run_text r = true) ->
  handles_hold d A active -> handles_hold d' A active.
Proof.
  intros Hag Ht Ha r. specialize (Ha r). destruct (active !! r) as [rd|], (lg_next A !! r) as [n|]; try done.
  destruct Ha as (Hw & Hdom & Hid & Hrf). split_and!; [done..|].
  pose proof (refines_agree { rd with rd_db := d } (mkLog (log_of A r) (Some n)) d') as Hx. destruct rd. cbn in *. unfold constant in *.
  apply Hx; [|done]. subst. by apply Hag, Ht.
Qed.

Lemma put_elsewhere p k v d : starts_with p k = false -> agree p d (db_put k v d).
Proof. intros Hk k' Hk'. rewrite db_put_contents, lookup_insert_ne; [done|]. intros ->. congruence. Qed.

Lemma catalog_not_data r k : run_text r = true -> starts_with catalog_prefix k = true -> starts_with (run_data_prefix r) k = false.
Proof. intros Hr Hk. apply not_true_iff_false. intros Hd. destruct (namespaces_apart r k Hr Hd) as (? & _). congruence. Qed.

Lemma session_not_data r k : run_text r = true -> starts_with sessions_by_id_prefix k = true -> starts_with (run_data_prefix r) k = false.
Proof. intros Hr Hk. apply not_true_iff_false. intros Hd. destruct (namespaces_apart r k Hr Hd) as (_ & ? & _). congruence. Qed.

Lemma session_not_catalog k : starts_with sessions_by_id_prefix k = true -> starts_with catalog_prefix k = false.
Proof. intros Hk. apply not_true_iff_false. intros Hc%catalog_sessions_apart. congruence. Qed.

(** *** Each operation *)

Lemma warmed_is_warm A : lg_warm { A with lg_warm := true } = true.
Proof. by destruct A. Qed.

Lemma query_refines {B} (wrap : result B Stop -> DbReply) (f : Database Bytes -> B) (g : gmap RunId CachedRunProjection -> B) sql_ok D A :
  (forall D, cache_ok (ds_cache D) -> f D = g (cs_entries (ds_cache D))) -> represents D A ->
  exists D', (let '(x, D) := warmed sql_ok f D in (wrap x, D)) = ((log_query sql_ok wrap g A).1, D') /\
    represents D' (log_query sql_ok wrap g A).2.
Proof.
  intros Hf Hr. unfold warmed, log_query. destruct (warm_refines sql_ok D A Hr) as (D' & -> & Hr').
  exists D'. destruct (lg_warm A || sql_ok)%bool; (split; [|done]); [|done]. cbn [fst].
  rewrite (Hf D' (dr_cache_ok _ _ Hr')), (dr_cache _ _ Hr'). by destruct A.
Qed.

Lemma list_refines_runs {B} (wrap : result B Stop -> DbReply) (h : list CachedRunProjection -> B) sql_ok q now D A :
  represents D A ->
  exists D', (let '(x, D) := list_cached_runs sql_ok q now D in (wrap (try entries := x in Ok (h entries)), D)) =
             ((log_query sql_ok wrap (fun es => h (ref_list run_created_at q now es)) A).1, D') /\
    represents D' (log_query sql_ok wrap (fun es => h (ref_list run_created_at q now es)) A).2.
Proof.
  intros Hr. destruct (query_refines wrap (fun D => h (cache_list run_created_at q now (ds_cache D)))
    (fun es => h (ref_list run_created_at q now es)) sql_ok D A) as (D' & He & Hr'); [|done|].
  - intros D' Hok. by rewrite cache_list_ref.
  - exists D'. split; [|done]. rewrite <- He. unfold list_cached_runs, warmed. by destruct (warm_projection_cache sql_ok D) as [[]].
Qed.

Lemma restart_refines D A : represents D A -> represents (database_new (ds_db D)) { A with lg_next := ∅; lg_warm := false }.
Proof.
  intros [Hd _ _ _ _]. destruct A. split; cbn; [by eapply db_holds_ext; [..|exact Hd]|done|exact cache_new_ok|done|].
  intros r. cbn. by rewrite !lookup_empty.
Qed.

Lemma open_refines sql_ok r D A :
  represents D A -> run_text r = true ->
  exists D', (let '(x, D) := open_run sql_ok r D in (DoneIs x, D)) = ((log_db_op sql_ok (DbOpen r) A).1, D') /\
    represents D' (log_db_op sql_ok (DbOpen r) A).2.
Proof.
  intros Hr Ht. unfold open_run, log_db_op. destruct (warm_refines sql_ok D A Hr) as (D1 & -> & Hr1).
  destruct (lg_warm A || sql_ok)%bool; cbn [negb]; [|by exists D1]. pose proof (warmed_is_warm A) as Hw.
  set (A1 := { A with lg_warm := true }) in *. pose proof (dr_active _ _ Hr1 r) as Ha.
  destruct (ds_active_runs D1 !! r) as [rd|], (lg_next A1 !! r) as [n|]; try done; cbn [is_some].
  - destruct Ha as (_ & _ & Hid & _). rewrite decide_True by done. by exists D1.
  - rewrite (has_events_log _ r (log_of A1 r)) by by apply (dh_logs _ _ (dr_db _ _ Hr1)).
    destruct (log_of A1 r) as [|env log] eqn:Hl; [rewrite bool_decide_true by done; by exists D1|].
    rewrite bool_decide_false by done. eexists. split; [reflexivity|]. apply open_handle; [done|done|].
    unfold log_of in Hl. apply elem_of_dom. by destruct (lg_logs A1 !! r).
Qed.

Lemma log_of_insert A r log r' :
  log_of { A with lg_logs := <[r := log]> (lg_logs A) } r' = if decide (r' = r) then log else log_of A r'.
Proof.
  destruct A as [logs nxt ses wm]. unfold log_of. cbn. unfold constant. destruct (decide (r' = r)) as [->|Hn].
  - by rewrite lookup_insert_eq.
  - by rewrite lookup_insert_ne.
Qed.

(** The same logs under other representations. *)
Lemma represents_same D D' A A' :
  db_holds (ds_db D') A' -> (forall r, log_of A' r = log_of A r) -> lg_next A' = lg_next A -> lg_warm A' = lg_warm A ->
  (forall r, r ∈ dom (lg_logs A) -> r ∈ dom (lg_logs A')) ->
  ds_active_runs D' = ds_active_runs D -> ds_cache D' = ds_cache D -> ds_warmed D' = ds_warmed D ->
  (forall r, run_text r = true -> agree (run_data_prefix r) (ds_db D) (ds_db D')) ->
  represents D A -> represents D' A'.
Proof.
  intros Hd Hl Hn Hw Hdom Ha Hc Hwd Hag Hr. split; [done|by rewrite Hwd, Hw; apply Hr|rewrite Hc; apply Hr| |].
  - rewrite Hc, Hw, (dr_cache _ _ Hr). destruct (lg_warm A); [|done]. apply map_eq. intros r. by rewrite !replayed_lookup, Hl.
  - rewrite Ha. pose proof (handles_agree _ (ds_db D') A (ds_active_runs D) Hag (dh_text _ _ (dr_db _ _ Hr)) (dr_active _ _ Hr)) as Hh.
    intros r. specialize (Hh r). rewrite Hn. destruct (ds_active_runs D !! r), (lg_next A !! r); try done.
    unfold handle_holds in *. rewrite Hw, Hl. naive_solver.
Qed.

Lemma create_catalog D A r :
  represents D A -> run_text r = true ->
  represents { D with ds_db := db_put (catalog_key r) marker (ds_db D) } { A with lg_logs := <[r := log_of A r]> (lg_logs A) }.
Proof.
  intros Hr Ht. pose proof (dr_db _ _ Hr) as [H1 H2 H3 H4 H5].
  assert (forall r', log_of { A with lg_logs := <[r := log_of A r]> (lg_logs A) } r' = log_of A r') as Hl.
  { intros r'. rewrite log_of_insert. by destruct (decide (r' = r)) as [->|]. }
  assert (forall r', run_text r' = true -> agree (run_data_prefix r') (ds_db D) (db_put (catalog_key r) marker (ds_db D))) as Hag.
  { intros r' Hr'. apply put_elsewhere, catalog_not_data; [done|apply catalog_key_prefix]. }
  apply (represents_same D _ A); [|exact Hl|by destruct A|by destruct A| |by destruct D|by destruct D|by destruct D|destruct D; exact Hag|done].
  - destruct D as [d act cache wd]. cbn in *. unfold constant. split.
    + intros r'. destruct A. cbn. rewrite dom_insert. set_solver.
    + intros r' Hr'. rewrite Hl. by eapply holds_agree; [apply Hag|apply H2].
    + intros r'. rewrite Hl. apply H3.
    + pose proof (namespace_put catalog_prefix catalog_key (fun _ : list EventEnvelope => marker) catalog_key_prefix r (log_of A r) d _ H4) as Hn. by destruct A.
    + destruct A. cbn in *. eapply namespace_agree; [|exact H5]. apply put_elsewhere.
      by apply catalog_sessions_apart, catalog_key_prefix.
  - intros r'. destruct A. cbn. unfold constant. rewrite dom_insert. set_solver.
Qed.

Lemma create_refines sql_ok put_ok r D A :
  represents D A -> run_text r = true ->
  exists D', (let '(x, D) := create_run sql_ok put_ok r D in (DoneIs x, D)) = ((log_db_op sql_ok (DbCreate put_ok r) A).1, D') /\
    represents D' (log_db_op sql_ok (DbCreate put_ok r) A).2.
Proof.
  intros Hr Ht. unfold create_run, log_db_op. destruct (warm_refines sql_ok D A Hr) as (D1 & -> & Hr1).
  destruct (lg_warm A || sql_ok)%bool; cbn [negb]; [|by exists D1]. pose proof (warmed_is_warm A) as Hw.
  set (A1 := { A with lg_warm := true }) in *. unfold catalog_add. rewrite key_for_id_eq by by apply run_text_plain.
  destruct put_ok; [|by exists D1]. eexists. split; [reflexivity|]. cbn [snd]. apply open_handle; [by apply create_catalog|by destruct A|].
  destruct A1. cbn. unfold constant. rewrite dom_insert. set_solver.
Qed.

(** *** Sessions *)

Lemma put_session_refines sid r D A :
  represents D A -> represents (put_session_run_index true sid r D).2 { A with lg_sessions := <[sid := r]> (lg_sessions A) }.
Proof.
  intros Hr. pose proof (dr_db _ _ Hr) as [H1 H2 H3 H4 H5]. unfold put_session_run_index. cbn [snd].
  assert (forall r', run_text r' = true -> agree (run_data_prefix r') (ds_db D) (db_put (session_by_id_key sid) (session_bytes r) (ds_db D))) as Hag.
  { intros r' Hr'. apply put_elsewhere, session_not_data; [done|apply session_key_prefix]. }
  apply (represents_same D _ A); [|by destruct A|by destruct A|by destruct A|by destruct A|by destruct D|by destruct D|by destruct D|destruct D; exact Hag|done].
  destruct D as [d act cache wd], A as [logs nxt ses wm]. cbn in *. unfold constant. split; [done| |done| |].
  - intros r' Hr'. by eapply holds_agree; [apply Hag|apply H2].
  - eapply namespace_agree; [|exact H4]. apply put_elsewhere, session_not_catalog, session_key_prefix.
  - by apply (namespace_put sessions_by_id_prefix session_by_id_key session_bytes session_key_prefix).
Qed.

Lemma get_session_refines sid D A : represents D A -> get_session_run_id sid D = Ok (lg_sessions A !! sid).
Proof.
  intros Hr. pose proof (dh_sessions _ _ (dr_db _ _ Hr)) as Hs. unfold get_session_run_id. rewrite db_get_spec.
  destruct (db_contents (ds_db D) !! session_by_id_key sid) as [v|] eqn:Hv.
  - destruct (proj1 (Hs (session_by_id_key sid) v)) as (a & x & Ha & He%(inj session_by_id_key) & ->); [split; [done|apply session_key_prefix]|].
    subst a. by rewrite session_roundtrip, Ha.
  - destruct (lg_sessions A !! sid) as [r|] eqn:Hr'; [|done].
    destruct (proj2 (Hs (session_by_id_key sid) (session_bytes r))) as [Hv' _]; [eauto|]. congruence.
Qed.

(** *** Handles *)

Definition handle_ok (op : StoreOp) : Prop := op_ok op /\ match op with OpReopen _ => False | _ => True end.

Definition reader_ok (op : StoreOp) : Prop :=
  handle_ok op /\ match op with OpAppend ro _ _ _ | OpAppendIf ro _ _ _ _ => ro = true | _ => True end.

Lemma log_append_cases e ok a :
  (is_ok (log_append e ok a).1 = false -> ls_log (log_append e ok a).2 = ls_log a) /\
  (is_some (ls_next a) = true -> is_some (ls_next (log_append e ok a).2) = true).
Proof.
  unfold log_append. destruct (ls_next a) as [n|] eqn:Hn; [|done]. destruct (MAX_EVENT_SEQ <? n); [by cbn; rewrite Hn|].
  destruct (log_state _) as [[s|]|]; [by destruct ok|by cbn; rewrite Hn..].
Qed.

(** Only a committed append changes the log, and a writer stays one. *)
Lemma log_op_quiet r op a :
  (committed (log_op r op a).1 = false -> ls_log (log_op r op a).2 = ls_log a) /\
  (is_some (ls_next a) = true -> is_some (ls_next (log_op r op a).2) = true).
Proof.
  destruct op as [ro payload now ok|ro payload p now ok| | | | | |]; try done; cbn [log_op].
  - destruct (log_decode ro payload r) as [[e|]|]; [|done..]. pose proof (log_append_cases e ok a) as Hc.
    by destruct (log_append e ok a) as [[]].
  - destruct (log_decode ro payload r) as [dec|]; [|done]. destruct (log_current r a) as [st|]; [|done]. destruct (negb (p st)); [done|].
    destruct dec as [e|]; [|done]. pose proof (log_append_cases e ok a) as Hc. by destruct (log_append e ok a) as [[[]|]].
Qed.

Lemma handle_step_refines r op rd D A a :
  represents D A -> refines rd a -> rd_run_id rd = r -> ls_log a = log_of A r -> handle_ok op ->
  exists rd', handle_step r op rd D = ((log_op r op a).1, rd') /\ refines rd' (log_op r op a).2 /\ stays rd rd' /\
    (committed (log_op r op a).1 = true -> is_some (pc_state (rd_cache rd')) = true).
Proof.
  intros Hr Hrf Hid Hlog [Hok Hre]. destruct (op_refines rd a op Hrf Hok) as (rd' & Hop & Hrf' & Hid').
  pose proof (store_op_stays op rd) as Hst. rewrite Hop, Hid in Hst. rewrite Hid in Hop, Hrf'. exists rd'. split; [|split; [done|exact Hst]].
  destruct op as [| | | |before limit| | |]; try exact Hop. rewrite <- Hop. cbn [handle_step store_op].
  assert (latest_event_seq rd (projection_snapshot r (ds_cache D)) = latest_event_seq rd None) as Hl;
    [|unfold list_events_before_with_limit; by rewrite Hl].
  unfold latest_event_seq. destruct (projection_snapshot r (ds_cache D)) as [[s q]|] eqn:Hs; [|done].
  rewrite (held_recover _ _ _ (rf_holds _ _ Hrf)), Hlog. f_equal.
  unfold projection_snapshot in Hs. rewrite (dr_cache _ _ Hr) in Hs. destruct (lg_warm A); [|by rewrite lookup_empty in Hs].
  rewrite replayed_lookup in Hs. unfold entry_of in Hs. destruct (log_state (log_of A r)) as [[s'|]|]; try done. cbn in Hs. by simplify_eq.
Qed.

(** A handle that refines its log and has a projection has the one of the whole log. *)
Lemma cached_entry rd a s r :
  refines rd a -> rd_run_id rd = r -> pc_state (rd_cache rd) = Some s ->
  entry_of r (ls_log a) = Some (from_projection run_created_at r s (pc_last_seq (rd_cache rd))).
Proof.
  intros Hrf Hid Hs. destruct (rf_cache _ _ Hrf) as (pre & post & He & Hq & Hst & [->| ->]).
  - cbn in Hst. rewrite Hs in Hst. done.
  - rewrite app_nil_r in He. subst pre. unfold entry_of. by rewrite Hst, Hs, Hq.
Qed.

Lemma replayed_insert A r log : replayed { A with lg_logs := <[r := log]> (lg_logs A) } =
  match entry_of r log with Some e => <[r := e]> (replayed A) | None => delete r (replayed A) end.
Proof.
  apply map_eq. intros r'. rewrite replayed_lookup, log_of_insert. destruct (decide (r' = r)) as [->|Hn].
  - destruct (entry_of r log); by simplify_map_eq.
  - destruct (entry_of r log); rewrite ?lookup_insert_ne, ?lookup_delete_ne, replayed_lookup by done; done.
Qed.

Lemma outside_other r r' d d' : run_text r = true -> run_text r' = true -> r' <> r -> outside r d d' -> agree (run_data_prefix r') d d'.
Proof. intros Hr Hr' Hn Ho k Hk. apply Ho. by apply (namespaces_apart r' k Hr' Hk). Qed.

Lemma outside_catalog r d d' : run_text r = true -> outside r d d' -> agree catalog_prefix d d'.
Proof. intros Hr Ho k Hk. by apply Ho, catalog_not_data. Qed.

Lemma outside_sessions r d d' : run_text r = true -> outside r d d' -> agree sessions_by_id_prefix d d'.
Proof. intros Hr Ho k Hk. by apply Ho, session_not_data. Qed.

Lemma catalog_same_keys d (logs logs' : gmap RunId (list EventEnvelope)) :
  dom logs' = dom logs -> catalog_holds d logs -> catalog_holds d logs'.
Proof.
  intros Hdom Hc k v. rewrite (Hc k v). split; intros (r & log & Hr & -> & ->); exists r.
  - destruct (logs' !! r) as [log'|] eqn:He; [by exists log'|]. apply not_elem_of_dom in He. rewrite Hdom in He. by apply elem_of_dom_2 in Hr.
  - destruct (logs !! r) as [log'|] eqn:He; [by exists log'|]. apply not_elem_of_dom in He. rewrite <- Hdom in He. by apply elem_of_dom_2 in Hr.
Qed.

(** A step of one handle, over the rest of the store. *)
Definition log_step r (a : LogStore) (n : Z) (A : Logs) : Logs :=
  { A with lg_logs := <[r := ls_log a]> (lg_logs A); lg_next := <[r := n]> (lg_next A) }.

Lemma log_of_step r a n A r' : log_of (log_step r a n A) r' = if decide (r' = r) then ls_log a else log_of A r'.
Proof. rewrite <- log_of_insert. by destruct A. Qed.

Lemma step_db_holds r d d' a n A :
  db_holds d A -> r ∈ dom (lg_logs A) -> outside r d d' -> holds d' r (ls_log a) -> (exists st, log_state (ls_log a) = Ok st) ->
  db_holds d' (log_step r a n A).
Proof.
  intros [H1 H2 H3 H4 H5] Hdom Ho Hh Hst. pose proof (H1 r Hdom) as Ht. split.
  - intros r'. unfold log_step. destruct A. cbn in *. unfold constant. rewrite dom_insert. set_solver.
  - intros r' Hr'. rewrite log_of_step. destruct (decide (r' = r)) as [->|Hn]; [done|].
    apply (holds_agree r' _ d); [by apply (outside_other r)|by apply H2].
  - intros r'. rewrite log_of_step. by destruct (decide (r' = r)).
  - apply (namespace_agree _ _ _ d); [by eapply outside_catalog|]. eapply catalog_same_keys; [|exact H4].
    unfold log_step. destruct A. cbn in *. unfold constant. rewrite dom_insert_L. set_solver.
  - apply (namespace_agree _ _ _ d); [by eapply outside_sessions|]. by destruct A.
Qed.

Lemma step_handles r d rd' a n A active :
  handles_hold d A active -> (forall r, r ∈ dom (lg_logs A) -> run_text r = true) -> r ∈ dom (lg_logs A) -> lg_warm A = true ->
  rd_run_id rd' = r -> outside r d (rd_db rd') -> refines rd' (mkLog (ls_log a) (Some n)) ->
  handles_hold (rd_db rd') (log_step r a n A) (<[r := rd']> active).
Proof.
  intros Ha Htext Hdom Hw Hid Ho Hrf r'. specialize (Ha r'). destruct (decide (r' = r)) as [->|Hn].
  - assert (lg_next (log_step r a n A) !! r = Some n) as Hnx by (destruct A; cbn; unfold constant; by rewrite lookup_insert_eq).
    rewrite lookup_insert_eq, Hnx. split_and!; [by destruct A| |done|].
    + destruct A. cbn in *. unfold constant. rewrite dom_insert. set_solver.
    + rewrite log_of_step, decide_True by done. by destruct rd'.
  - assert (lg_next (log_step r a n A) !! r' = lg_next A !! r') as Hnx by (destruct A; cbn; unfold constant; by rewrite lookup_insert_ne).
    rewrite lookup_insert_ne, Hnx by done. destruct (active !! r') as [rd|], (lg_next A !! r') as [n'|]; try done.
    destruct Ha as (_ & Hdom' & Hid' & Hrf'). split_and!; [by destruct A| |done|].
    + destruct A. cbn in *. unfold constant. rewrite dom_insert. set_solver.
    + rewrite log_of_step, decide_False by done.
      pose proof (refines_agree { rd with rd_db := d } (mkLog (log_of A r') (Some n')) (rd_db rd')) as Hx. destruct rd. cbn in *. unfold constant in *.
      apply Hx; [|done]. subst. eapply outside_other; [by apply Htext|by apply Htext|done|done].
Qed.

Lemma step_cache r rd' a n A reply c :
  cache_ok c -> cs_entries c = replayed A -> refines rd' a -> rd_run_id rd' = r ->
  (committed reply = false -> ls_log a = log_of A r) -> (committed reply = true -> is_some (pc_state (rd_cache rd')) = true) ->
  let c' := if committed reply then publish rd' c else c in cache_ok c' /\ cs_entries c' = replayed (log_step r a n A).
Proof.
  intros Hok He Hrf Hid Hq Hs. cbn zeta. assert (replayed (log_step r a n A) = replayed { A with lg_logs := <[r := ls_log a]> (lg_logs A) }) as -> by by destruct A.
  rewrite replayed_insert. destruct (committed reply).
  - unfold publish. destruct (pc_state (rd_cache rd')) as [s|] eqn:Hp; [|by specialize (Hs eq_refl)].
    split; [by apply cache_insert_ok|]. rewrite cache_insert_entries by done. rewrite (cached_entry rd' a s r), He by done. cbn. by rewrite Hid.
  - split; [done|]. rewrite Hq, He by done. rewrite <- replayed_lookup. destruct (replayed A !! r) eqn:Hx.
    + by rewrite insert_id.
    + by rewrite delete_id.
Qed.

Lemma handle_refines r op D A :
  represents D A -> handle_ok op ->
  exists D', (let '(x, D) := handle_op r op D in (HandleIs x, D)) = ((log_db_op true (DbHandle r op) A).1, D') /\
    represents D' (log_db_op true (DbHandle r op) A).2.
Proof.
  intros Hr Hop. unfold handle_op. cbn [log_db_op]. pose proof (dr_active _ _ Hr r) as Ha.
  destruct (ds_active_runs D !! r) as [rd|] eqn:Hact, (lg_next A !! r) as [n|] eqn:Hnx; try done; [|by exists D].
  destruct Ha as (Hw & Hdom & Hid & Hrf). pose proof (dr_db _ _ Hr) as Hd.
  destruct (handle_step_refines r op { rd with rd_db := ds_db D } D A _ Hr Hrf) as (rd' & Hst & Hrf' & [Hid' Ho] & Hc); [by destruct rd|done|done|].
  rewrite Hst. unfold log_store. destruct (log_op_quiet r op (mkLog (log_of A r) (Some n))) as [Hq Hn].
  destruct (log_op r op (mkLog (log_of A r) (Some n))) as [reply a]. cbn [fst snd] in *. eexists. split; [reflexivity|].
  destruct a as [log nx]. cbn [ls_log ls_next] in *. destruct nx as [n'|]; [|by specialize (Hn eq_refl)]. cbn [default].
  assert (rd_run_id rd' = r) as Hidr by (destruct rd; cbn in *; congruence).
  assert (outside r (ds_db D) (rd_db rd')) as Hor by (destruct rd; cbn in *; subst; exact Ho).
  change (represents _ _) with (represents { D with ds_db := rd_db rd'; ds_active_runs := <[r := rd']> (ds_active_runs D);
    ds_cache := if committed reply then publish rd' (ds_cache D) else ds_cache D } (log_step r (mkLog log (Some n')) n' A)).
  destruct (step_cache r rd' (mkLog log (Some n')) n' A reply (ds_cache D)) as [Hok Hes]; [apply Hr|by rewrite (dr_cache _ _ Hr), Hw|done..|].
  pose proof (step_handles r (ds_db D) rd' (mkLog log (Some n')) n' A _ (dr_active _ _ Hr) (dh_text _ _ Hd) Hdom Hw Hidr Hor Hrf') as Hha.
  pose proof (rf_holds _ _ Hrf') as Hh. rewrite Hidr in Hh.
  pose proof (step_db_holds r (ds_db D) (rd_db rd') (mkLog log (Some n')) n' A Hd Hdom Hor Hh (rf_accepted _ _ Hrf')) as Hdb.
  pose proof (dr_warm _ _ Hr) as Hwd. destruct D. cbn in *. unfold constant in *. split; cbn; unfold constant; try done; try (by destruct A).
  rewrite Hes. destruct A. cbn in *. by rewrite Hw.
Qed.

(** *** Readers *)

Lemma reader_db r op rd D : reader_ok op -> rd_db (handle_step r op rd D).2 = rd_db rd.
Proof.
  intros [[_ Hre] Hro]. destruct op as [ro payload now ok|ro payload p now ok| | | | | |]; try done; cbn [handle_step store_op].
  - by subst ro.
  - by subst ro.
  - unfold projected_state, projected_state_option. destruct (list_events_from _ _ _); [|done]. destruct (catch_up _ _) as [[] [q [s|]]]; by destruct rd.
Qed.

Lemma reader_log r op log n : reader_ok op -> log_op r op (mkLog log n) = ((log_op r op (mkLog log None)).1, mkLog log n).
Proof. intros [[_ Hre] Hro]. destruct op as [ro payload now ok|ro payload p now ok| | | | | |]; try done; cbn [log_op]; by subst ro. Qed.

Lemma reader_refines r op D A :
  represents D A -> run_text r = true -> reader_ok op ->
  exists D', (let '(x, D) := reader_op r op D in (ReaderIs x, D)) = ((log_db_op true (DbReader r op) A).1, D') /\
    represents D' (log_db_op true (DbReader r op) A).2.
Proof.
  intros Hr Ht Hop. unfold reader_op, open_run_reader. cbn [log_db_op]. pose proof (dr_active _ _ Hr r) as Ha. pose proof (dr_db _ _ Hr) as Hd.
  unfold log_store. destruct (ds_active_runs D !! r) as [rd|] eqn:Hact, (lg_next A !! r) as [n|] eqn:Hnx; try done; cbn [is_some orb].
  - destruct Ha as (Hw & Hdom & Hid & Hrf). rewrite decide_True by done.
    destruct (handle_step_refines r op { rd with rd_db := ds_db D } D A _ Hr Hrf) as (rd' & Hst & Hrf' & [Hid' _] & _); [by destruct rd|done|apply Hop|].
    pose proof (reader_db r op { rd with rd_db := ds_db D } D Hop) as Hdb. rewrite Hst in Hdb |- *. rewrite (reader_log r op _ _ Hop) in Hrf' |- *.
    cbn [fst snd] in *. eexists. split; [reflexivity|]. destruct D as [d act cache wd], rd. cbn in *. unfold constant in *.
    destruct Hr as [? Hw' ? ? Hact']. cbn in *. split; cbn; unfold constant; try done. intros r'. specialize (Hact' r').
    destruct (decide (r' = r)) as [->|Hn]; [|by rewrite lookup_insert_ne]. rewrite lookup_insert_eq, Hnx. split_and!; [done|done|congruence|].
    destruct rd'. cbn in *. unfold constant. by subst.
  - rewrite (has_events_log _ r (log_of A r)) by by apply (dh_logs _ _ Hd). destruct (negb _); [|by exists D]. exists D. split; [|done].
    destruct (dh_accepted _ _ Hd r) as [st Hst0].
    assert (refines (open_run_database r true D) (mkLog (log_of A r) None)) as Hb.
    { apply (build_refines _ _ _ true _ st); [by apply (dh_logs _ _ Hd)|done|]. unfold projection_snapshot. rewrite (dr_cache _ _ Hr).
      destruct (lg_warm A); [|by rewrite lookup_empty]. rewrite replayed_lookup. unfold entry_of. rewrite Hst0. intros s q Hs.
      destruct st; cbn in Hs; by simplify_eq. }
    destruct (handle_step_refines r op (open_run_database r true D) D A _ Hr Hb) as (rd' & -> & _); [done|done|apply Hop|]. done.
Qed.

(** *** Deletion *)

Lemma delete_outside r d : run_text r = true -> outside r d (delete_all (fst <$> db_scan_prefix (run_data_prefix r) d) d).
Proof.
  intros Hr k Hk. rewrite delete_all_contents, decide_False; [done|]. rewrite list_elem_of_fmap. intros ([k' v] & -> & Hin).
  rewrite db_scan_prefix_spec in Hin. apply filterb_elem in Hin as [_ Hin]. cbn in *. congruence.
Qed.

Lemma deleted_empty r d : run_text r = true -> holds (delete_all (fst <$> db_scan_prefix (run_data_prefix r) d) d) r [].
Proof.
  intros Hr. set (d' := delete_all _ d).
  assert (forall k, starts_with (run_data_prefix r) k = true -> db_contents d' !! k = None) as Hnone.
  { intros k Hk. unfold d'. rewrite delete_all_contents. destruct (decide _) as [|Hn]; [done|].
    destruct (db_contents d !! k) as [v|] eqn:Hv; [|done]. exfalso. apply Hn, list_elem_of_fmap. exists (k, v). split; [done|].
    rewrite db_scan_prefix_spec. apply filterb_elem. split; [|done]. by apply sorted_entries_spec. }
  split; [by apply run_text_plain| |].
  - split.
    + intros k v Hk Hp%events_data_prefix. rewrite Hnone in Hk by done. done.
    + intros seq ms ms' _ [v Hk]. rewrite Hnone in Hk by apply event_key_data. done.
  - unfold list_events_from, scan_from. change (MAX_EVENT_SEQ <? 1) with false. cbn match. rewrite db_scan_spec, filterb_none; [done|].
    intros [k v] Hin%sorted_entries_spec. cbn [fst]. apply not_true_iff_false. intros Hp%in_range_prefix%events_data_prefix.
    rewrite Hnone in Hin by done. done.
Qed.

Lemma delete_all_agree p ks d : (forall k, k ∈ ks -> starts_with p k = false) -> agree p d (delete_all ks d).
Proof. intros Hks k Hk. rewrite delete_all_contents, decide_False; [done|]. intros Hin%Hks. congruence. Qed.

Lemma agree_trans p d d' d'' : agree p d d' -> agree p d' d'' -> agree p d d''.
Proof. intros H1 H2 k Hk. by rewrite H2, H1. Qed.

(** What is left of sessions without those of a run. *)
Definition sessions_without r (ses : gmap string RunId) : gmap string RunId :=
  map_imap (fun _ r' => if decide (r' = r) then None else Some r') ses.

(** The sessions of a run are found, and all of them are. *)
Lemma sessions_found r d (ses : gmap string RunId) :
  sessions_hold d ses ->
  exists ks, session_keys_of r (db_scan_prefix sessions_by_id_prefix d) = Ok ks /\
    (forall k, k ∈ ks -> starts_with sessions_by_id_prefix k = true) /\
    forall a x, ses !! a = Some x -> session_by_id_key a ∈ ks <-> x = r.
Proof.
  intros Hs. pose proof (fun k v => namespace_scan _ _ _ d _ k v Hs) as Hscan.
  destruct (session_keys_spec r (db_scan_prefix sessions_by_id_prefix d)) as (ks & Hks & Hke).
  { intros k v (a & x & _ & _ & ->)%Hscan. rewrite session_roundtrip. eauto. }
  exists ks. split_and!; [done| |].
  - intros k (v & (a & x & _ & -> & _)%Hscan & _)%Hke. apply session_key_prefix.
  - intros a x Ha. rewrite Hke. split.
    + intros (v & (b & y & Hb & Heq%(inj session_by_id_key) & ->)%Hscan & Hv). subst b. rewrite session_roundtrip in Hv. congruence.
    + intros ->. exists (session_bytes r). rewrite session_roundtrip. split; [|done]. apply Hscan. eauto.
Qed.

(** The three deletions from the database. *)
Lemma delete_steps r d logs ses :
  run_text r = true -> catalog_holds d logs -> sessions_hold d ses ->
  let d1 := delete_all (fst <$> db_scan_prefix (run_data_prefix r) d) d in
  exists d2, delete_session_indexes_for_run None r d1 = (Ok None, d2) /\
    let d3 := db_delete (catalog_key r) d2 in
    holds d3 r [] /\ (forall r', run_text r' = true -> r' <> r -> agree (run_data_prefix r') d d3) /\
    catalog_holds d3 (delete r logs) /\ sessions_hold d3 (sessions_without r ses).
Proof.
  intros Hr Hc Hs d1. pose proof (delete_outside r d Hr) as Ho. pose proof (deleted_empty r d Hr) as He. fold d1 in Ho, He.
  apply (namespace_agree _ _ _ d d1) in Hs; [|by eapply outside_sessions]. apply (namespace_agree _ _ _ d d1) in Hc; [|by eapply outside_catalog].
  destruct (sessions_found r d1 ses Hs) as (ks & Hks & Hkp & Hke).
  exists (delete_all ks d1). unfold delete_session_indexes_for_run. rewrite Hks, delete_keys_all. split; [done|]. cbn zeta.
  change (db_delete (catalog_key r) (delete_all ks d1)) with (delete_all [catalog_key r] (delete_all ks d1)).
  assert (forall r', run_text r' = true -> agree (run_data_prefix r') d1 (delete_all [catalog_key r] (delete_all ks d1))) as Hdata.
  { intros r' Hr'. eapply agree_trans; apply delete_all_agree; [intros k Hk; by apply session_not_data, Hkp|].
    intros k ->%list_elem_of_singleton. apply catalog_not_data; [done|apply catalog_key_prefix]. }
  split_and!.
  - eapply holds_agree; [by apply Hdata|exact He].
  - intros r' Hr' Hn. eapply agree_trans; [by apply (outside_other r)|by apply Hdata].
  - assert (delete r logs = map_imap (fun a x => if bool_decide (a = r) then None else Some x) logs) as ->.
    { apply map_eq. intros r'. rewrite map_lookup_imap. destruct (decide (r' = r)) as [->|Hn].
      - rewrite lookup_delete_eq, bool_decide_true by done. by destruct (logs !! r).
      - rewrite lookup_delete_ne, bool_decide_false by done. by destruct (logs !! r'). }
    apply (namespace_delete _ _ _ (fun a _ => bool_decide (a = r))).
    + intros a x _. rewrite list_elem_of_singleton, bool_decide_eq_true. split; [apply (inj catalog_key)|by intros ->].
    + eapply namespace_agree; [|exact Hc]. apply delete_all_agree. intros k Hk. by apply session_not_catalog, Hkp.
  - eapply namespace_agree.
    { apply delete_all_agree. intros k ->%list_elem_of_singleton. apply catalog_sessions_apart, catalog_key_prefix. }
    pose proof (namespace_delete sessions_by_id_prefix session_by_id_key session_bytes (fun _ x => bool_decide (x = r)) ks d1 ses) as Hn.
    unfold sessions_without. rewrite (map_imap_ext _ (fun _ x => if bool_decide (x = r) then None else Some x) _ ses); [apply Hn; [|done]|].
    + intros a x Ha. by rewrite bool_decide_eq_true, Hke.
    + intros a. destruct (ses !! a) as [x|]; cbn; [|done]. f_equal. destruct (decide (x = r)); [by rewrite bool_decide_true|by rewrite bool_decide_false].
Qed.

Definition log_delete r (A : Logs) : Logs :=
  { A with lg_logs := delete r (lg_logs A); lg_next := delete r (lg_next A); lg_sessions := sessions_without r (lg_sessions A) }.

Lemma log_of_delete r A r' : log_of (log_delete r A) r' = if decide (r' = r) then [] else log_of A r'.
Proof.
  destruct A as [logs nxt ses wm]. unfold log_of. cbn. unfold constant. destruct (decide (r' = r)) as [->|Hn].
  - by rewrite lookup_delete_eq.
  - by rewrite lookup_delete_ne.
Qed.

Lemma replayed_delete r A : replayed (log_delete r A) = delete r (replayed A).
Proof.
  apply map_eq. intros r'. rewrite replayed_lookup, log_of_delete. destruct (decide (r' = r)) as [->|Hn].
  - by rewrite lookup_delete_eq.
  - by rewrite lookup_delete_ne, replayed_lookup.
Qed.

Lemma deleted_represents r D A d3 :
  represents D A -> run_text r = true -> holds d3 r [] ->
  (forall r', run_text r' = true -> r' <> r -> agree (run_data_prefix r') (ds_db D) d3) ->
  catalog_holds d3 (lg_logs (log_delete r A)) -> sessions_hold d3 (lg_sessions (log_delete r A)) ->
  represents (mkDatabase d3 (delete r (ds_active_runs D)) (cache_remove r (ds_cache D)) (ds_warmed D)) (log_delete r A).
Proof.
  intros [[H1 H2 H3 _ _] Hw Hok He Ha] Ht Hh Hag Hc Hs.
  assert (lg_warm (log_delete r A) = lg_warm A) as Hwm by by destruct A.
  assert (forall r', r' ∈ dom (lg_logs (log_delete r A)) <-> r' ∈ dom (lg_logs A) /\ r' <> r) as Hdom.
  { intros r'. destruct A. cbn. unfold constant. rewrite dom_delete. set_solver. }
  split; cbn [ds_db ds_active_runs ds_cache ds_warmed].
  - split; [| | |done|done].
    + intros r' [Hr' _]%Hdom. by apply H1.
    + intros r' Hr'. rewrite log_of_delete. destruct (decide (r' = r)) as [->|Hn]; [done|]. apply (holds_agree r' _ (ds_db D)); [by apply Hag|by apply H2].
    + intros r'. rewrite log_of_delete. destruct (decide (r' = r)); [by exists None|apply H3].
  - congruence.
  - by apply cache_remove_ok.
  - rewrite Hwm, cache_remove_entries, He, replayed_delete by done. destruct (lg_warm A); [done|]. by rewrite delete_empty.
  - intros r'. specialize (Ha r'). destruct (decide (r' = r)) as [->|Hn].
    + assert (lg_next (log_delete r A) !! r = None) as -> by (destruct A; cbn; unfold constant; by rewrite lookup_delete_eq). by rewrite lookup_delete_eq.
    + assert (lg_next (log_delete r A) !! r' = lg_next A !! r') as -> by (destruct A; cbn; unfold constant; by rewrite lookup_delete_ne).
      rewrite lookup_delete_ne by done. destruct (ds_active_runs D !! r') as [rd|], (lg_next A !! r') as [n|]; try done.
      destruct Ha as (Hw' & Hd & Hid & Hrf). split_and!; [congruence|by apply Hdom|done|]. rewrite log_of_delete, decide_False by done.
      pose proof (refines_agree { rd with rd_db := ds_db D } (mkLog (log_of A r') (Some n)) d3) as Hx. destruct rd. cbn in *. unfold constant in *.
      apply Hx; [|done]. subst. by apply Hag; [apply H1|].
Qed.

Lemma delete_complete sql_ok r (D D0 : Database Bytes) A ses :
  represents D0 A -> run_text r = true -> catalog_holds (ds_db D) (lg_logs A) -> sessions_hold (ds_db D) ses ->
  sessions_without r ses = sessions_without r (lg_sessions A) ->
  (forall r', run_text r' = true -> r' <> r -> agree (run_data_prefix r') (ds_db D0) (ds_db D)) ->
  delete r (ds_active_runs D) = delete r (ds_active_runs D0) -> ds_cache D = ds_cache D0 -> ds_warmed D = ds_warmed D0 ->
  exists D', delete_run sql_ok None r D = (if sql_ok then Ok tt else Err (Rejected SqliteError), D') /\ represents D' (log_delete r A).
Proof.
  intros Hr Ht Hc Hs Hses Hag0 Hact Hcache Hwarm. destruct (delete_steps r (ds_db D) (lg_logs A) ses Ht Hc Hs) as (d2 & Hd2 & Hh & Hag & Hc3 & Hs3).
  rewrite Hses in Hs3. pose proof (deleted_represents r D0 A _ Hr Ht Hh) as Hrep. unfold delete_run. destruct D as [d act cache wd].
  cbn -[delete_session_indexes_for_run catalog_remove cache_remove db_scan_prefix delete_keys] in *.
  unfold constant in *. rewrite delete_keys_all, Hd2. unfold catalog_remove. rewrite key_for_id_eq by by apply run_text_plain. cbn [delete_keys].
  eexists. split; [reflexivity|]. subst cache wd. rewrite Hact. apply Hrep; [|by destruct A..]. intros r' Hr' Hn. eapply agree_trans; [by apply Hag0|by apply Hag].
Qed.

Lemma delete_refines sql_ok r D A :
  represents D A -> run_text r = true ->
  exists D', (let '(x, D) := delete_run sql_ok None r D in (DoneIs x, D)) = ((log_db_op sql_ok (DbDelete None r) A).1, D') /\
    represents D' (log_db_op sql_ok (DbDelete None r) A).2.
Proof.
  intros Hr Ht. pose proof (dr_db _ _ Hr) as Hd.
  destruct (delete_complete sql_ok r D D A (lg_sessions A) Hr Ht (dh_catalog _ _ Hd) (dh_sessions _ _ Hd)) as (D' & -> & HD'); [done..|].
  exists D'. done.
Qed.

(** A deletion that is broken off has removed only data and sessions of its run, and can be
    repeated. *)
Lemma broken_deletion sql_ok budget r D A e D1 :
  represents D A -> run_text r = true -> delete_run sql_ok budget r D = (Err (Rejected e), D1) -> e <> SqliteError ->
  e = SlateError /\ ds_cache D1 = ds_cache D /\ ds_warmed D1 = ds_warmed D /\ ds_active_runs D1 = delete r (ds_active_runs D) /\
  (forall r', run_text r' = true -> r' <> r -> agree (run_data_prefix r') (ds_db D) (ds_db D1)) /\
  catalog_holds (ds_db D1) (lg_logs A) /\
  exists ses, sessions_hold (ds_db D1) ses /\ sessions_without r ses = sessions_without r (lg_sessions A).
Proof.
  intros Hr Ht Hdel He. pose proof (dr_db _ _ Hr) as [_ _ _ Hc Hs]. unfold delete_run in Hdel. destruct D as [d act cache wd].
  cbn -[delete_session_indexes_for_run catalog_remove cache_remove db_scan_prefix delete_keys] in *. unfold constant in *.
  assert (forall ks1 ks2, fst <$> db_scan_prefix (run_data_prefix r) d = ks1 ++ ks2 -> outside r d (delete_all ks1 d)) as Hpart.
  { intros ks1 ks2 Hks k Hk. rewrite delete_all_contents, decide_False; [done|]. intros Hin.
    assert (k ∈ fst <$> db_scan_prefix (run_data_prefix r) d) as ([k' v] & -> & Hin')%list_elem_of_fmap by (rewrite Hks; set_solver).
    rewrite db_scan_prefix_spec in Hin'. apply filterb_elem in Hin' as [_ Hin']. cbn in *. congruence. }
  assert (forall d1, outside r d d1 -> catalog_holds d1 (lg_logs A) /\ sessions_hold d1 (lg_sessions A) /\
    forall r', run_text r' = true -> r' <> r -> agree (run_data_prefix r') d d1) as Hkeep.
  { intros d1 Ho. split_and!; [eapply namespace_agree; [by eapply outside_catalog|done]|eapply namespace_agree; [by eapply outside_sessions|done]|].
    intros r' Hr' Hn. by apply (outside_other r). }
  pose proof (delete_keys_spec budget (fst <$> db_scan_prefix (run_data_prefix r) d) d) as Hspec.
  destruct (delete_keys budget _ d) as [[b1|e1] d1].
  2: { injection Hdel as <- <-. destruct Hspec as (-> & ks1 & k & ks2 & Hks & ->). destruct (Hkeep _ (Hpart _ _ Hks)) as (H1 & H2 & H3).
       split_and!; [done..|]. by exists (lg_sessions A). }
  subst d1. destruct (Hkeep _ (Hpart _ [] ltac:(by rewrite app_nil_r))) as (Hc1 & Hs1 & Hag1). set (d1 := delete_all _ d) in *.
  destruct (sessions_found r d1 _ Hs1) as (ks & Hks & Hkp & Hke). unfold delete_session_indexes_for_run in Hdel. rewrite Hks in Hdel.
  assert (forall ks1 ks2, ks = ks1 ++ ks2 -> (forall r', run_text r' = true -> r' <> r -> agree (run_data_prefix r') d (delete_all ks1 d1)) /\
    catalog_holds (delete_all ks1 d1) (lg_logs A) /\
    exists ses, sessions_hold (delete_all ks1 d1) ses /\ sessions_without r ses = sessions_without r (lg_sessions A)) as Hsome.
  { intros ks1 ks2 ->. assert (forall k, k ∈ ks1 -> starts_with sessions_by_id_prefix k = true) as Hk1 by (intros k Hk; apply Hkp; set_solver).
    split_and!; [|eapply namespace_agree; [|exact Hc1]; apply delete_all_agree; intros k Hk; by apply session_not_catalog, Hk1|].
    { intros r' Hr' Hn. eapply agree_trans; [by apply Hag1|]. apply delete_all_agree. intros k Hk. by apply session_not_data, Hk1. }
    eexists. split.
    { apply (namespace_delete _ session_by_id_key session_bytes (fun a _ => bool_decide (session_by_id_key a ∈ ks1)) ks1 d1 (lg_sessions A)); [|exact Hs1].
      intros a x _. by rewrite bool_decide_eq_true. }
    apply map_eq. intros a. unfold sessions_without. rewrite !map_lookup_imap. destruct (lg_sessions A !! a) as [x|] eqn:Ha; cbn; [|done].
    destruct (bool_decide_reflect (session_by_id_key a ∈ ks1)) as [Hin|]; cbn; [|done]. rewrite decide_True; [done|]. apply (Hke a x Ha). set_solver. }
  pose proof (delete_keys_spec b1 ks d1) as Hspec2. destruct (delete_keys b1 ks d1) as [[b2|e2] d2].
  2: { injection Hdel as <- <-. destruct Hspec2 as (-> & ks1 & k & ks2 & Hk12 & ->). destruct (Hsome _ _ Hk12) as (? & ? & ?). by split_and!. }
  subst d2. unfold catalog_remove in Hdel. rewrite key_for_id_eq in Hdel by by apply run_text_plain.
  pose proof (delete_keys_spec b2 [catalog_key r] (delete_all ks d1)) as Hspec3. destruct (delete_keys b2 [catalog_key r] _) as [[b3|e3] d3].
  { by destruct sql_ok; [|injection Hdel as <-]. }
  injection Hdel as <- <-. destruct Hspec3 as (-> & [|k1 ks1] & k & ks2 & Hk12 & ->); [|injection Hk12 as _ Hk12; by destruct ks1].
  destruct (Hsome ks []) as (? & ? & ?); [by rewrite app_nil_r|]. by split_and!.
Qed.

(** ** Sequences of operations *)

Definition db_op_ok (op : DbOp) : Prop :=
  match op with
  | DbCreate _ r | DbOpen r => run_text r = true
  | DbDelete budget r => run_text r = true /\ budget = None
  | DbHandle _ op => handle_ok op
  | DbReader r op => run_text r = true /\ reader_ok op
  | _ => True
  end.

Lemma db_op_refines sql_ok op D A :
  represents D A -> db_op_ok op ->
  exists D', db_op sql_ok op D = ((log_db_op sql_ok op A).1, D') /\ represents D' (log_db_op sql_ok op A).2.
Proof.
  intros Hr Hop. destruct op as [put_ok r|r|r op|r op|q now|q now|r|r|r now| |put_ok sid r|sid|budget r|]; cbn [db_op db_op_ok] in *.
  - by apply create_refines.
  - by apply open_refines.
  - exact (handle_refines r op D A Hr Hop).
  - destruct Hop as [Ht Hop]. exact (reader_refines r op D A Hr Ht Hop).
  - destruct (list_refines_runs RunsAre (fmap ce_summary) sql_ok q now D A Hr) as (D' & He & Hr').
    exists D'. split; [|exact Hr']. etrans; [|exact He]. unfold list_runs. by destruct (list_cached_runs sql_ok q now D).
  - destruct (list_refines_runs ProjectionsAre (fmap (fun e => (ce_summary e, ce_projection e))) sql_ok q now D A Hr) as (D' & He & Hr').
    exists D'. split; [|exact Hr']. etrans; [|exact He]. unfold list_runs_with_projection. by destruct (list_cached_runs sql_ok q now D).
  - apply (query_refines CachedIs); [|done]. intros D' Hok. unfold cache_get. destruct (cs_entries (ds_cache D') !! r); cbn [fmap option_fmap option_map]; [by rewrite with_count_ref|done].
  - apply (query_refines ProjectionIs); [|done]. intros D' Hok. unfold projection_snapshot. by destruct (cs_entries (ds_cache D') !! r).
  - apply (query_refines SummaryIs); [|done]. intros D' Hok. unfold get_summary.
    destruct (cs_entries (ds_cache D') !! r); cbn [fmap option_fmap option_map]; [by rewrite with_count_ref|done].
  - by apply (query_refines PendingAre).
  - destruct put_ok; eexists; (split; [reflexivity|]); [by apply put_session_refines|done].
  - exists D. rewrite (get_session_refines sid D A Hr). done.
  - destruct Hop as [Ht ->]. by apply delete_refines.
  - eexists. split; [reflexivity|]. by apply restart_refines.
Qed.

Lemma db_ops_refine ops D A :
  represents D A -> Forall (fun p => db_op_ok p.2) ops ->
  exists D', run_ops (fun p => db_op p.1 p.2) ops D = ((run_ops (fun p => log_db_op p.1 p.2) ops A).1, D') /\
    represents D' (run_ops (fun p => log_db_op p.1 p.2) ops A).2.
Proof.
  intros Hr Hops. revert D A Hr. induction Hops as [|[sql_ok op] ops Hop _ IH]; intros D A Hr; [by exists D|].
  cbn [run_ops fst snd]. destruct (db_op_refines sql_ok op D A Hr Hop) as (D1 & -> & Hr1).
  destruct (log_db_op sql_ok op A) as [reply A1]. cbn [fst snd] in *. destruct (IH D1 A1 Hr1) as (D2 & -> & Hr2).
  exists D2. by destruct (run_ops (fun p => log_db_op p.1 p.2) ops A1).
Qed.

(** A database with nothing in it. *)
Lemma empty_represents d : db_contents d = ∅ -> represents (database_new d) (mkLogs ∅ ∅ ∅ false).
Proof.
  intros Hd. assert (sorted_entries (db_contents d) = []) as Hse.
  { rewrite Hd. reflexivity. }
  split; cbn; [|done|exact cache_new_ok|done|intros r; cbn; by rewrite !lookup_empty]. split.
  - intros r. cbn. rewrite dom_empty_L. set_solver.
  - intros r Hr. split; [by apply run_text_plain|split; intros *; rewrite Hd, lookup_empty; [done|by intros _ [? ?]]|].
    unfold list_events_from, scan_from. change (MAX_EVENT_SEQ <? 1) with false. cbn match. by rewrite db_scan_spec, Hse.
  - by exists None.
  - intros k v. rewrite Hd, lookup_empty. split; [by intros [? _]|]. intros (r & log & Hr & _). exfalso. exact (lookup_empty_Some r log Hr).
  - intros k v. rewrite Hd, lookup_empty. split; [by intros [? _]|]. intros (r & log & Hr & _). exfalso. exact (lookup_empty_Some r log Hr).
Qed.
End facts.

(** A deletion that the database breaks off at any point returns the error and harms no other
    run: their logs and what is cached of all runs stay, and repeating the deletion completes
    it. *)
Definition deletion_contained {Bytes} `{!SlateDb Bytes, !Codec Bytes, !RunIds, !SessionCodec Bytes} (D : Database Bytes) (A : Logs) : Prop :=
  forall budget sql_ok r e D1, run_text r = true -> delete_run sql_ok budget r D = (Err (Rejected e), D1) -> e <> SqliteError ->
    e = SlateError /\ ds_cache D1 = ds_cache D /\
    (forall r', run_text r' = true -> r' <> r -> list_events_from (ds_db D1) r' 1 = Ok (log_of A r')) /\
    exists D2, delete_run true None r D1 = (Ok tt, D2) /\
      (ds_warmed D2 = true -> cs_entries (ds_cache D2) = replayed (log_delete r A)) /\
      forall r', run_text r' = true -> list_events_from (ds_db D2) r' 1 = Ok (log_of (log_delete r A) r').

Lemma represents_contains {Bytes} `{!SlateDb Bytes, !Codec Bytes, !RunIds, !SessionCodec Bytes} (D : Database Bytes) A :
  represents D A -> deletion_contained D A.
Proof.
  intros Hr budget sql_ok r e D1 Ht Hdel He.
  destruct (broken_deletion sql_ok budget r D A e D1 Hr Ht Hdel He) as (-> & Hcache & Hw & Hact & Hag & Hc & ses & Hs & Hses). split_and!; [done..| |].
  - intros r' Hr' Hn. apply (holds_agree r' _ (ds_db D)); [by apply Hag|]. by apply (dh_logs _ _ (dr_db _ _ Hr)).
  - destruct (delete_complete true r D1 D A ses Hr Ht Hc Hs Hses Hag) as (D2 & HD2 & Hr2); [by rewrite Hact, delete_delete_eq|done|done|].
    exists D2. split; [done|]. split.
    + intros Hw2. rewrite (dr_cache _ _ Hr2), <- (dr_warm _ _ Hr2). by rewrite Hw2.
    + intros r' Hr'. apply (dh_logs _ _ (dr_db _ _ Hr2) r' Hr').
Qed.

(** C2: the store of all runs is a map of logs.  From an empty database, through any
    sequence of operations on any runs (creating, opening, appending to and reading open
    runs, listing and summarising, indexing sessions, deleting, restarting the process,
    with failing writes of events, runs and sessions and a failing SQLite, and deletions
    that the database does not break off), every answer is that of a map from run ids
    to logs, in which listings and summaries replay the logs.  Once read, the cache holds
    exactly what a replay of every log gives; the events stored of every run are its log,
    which replays.  A deletion that the database breaks off thereafter leaves the other runs
    and the cache as they were, and completes when it is repeated. *)
Theorem database_refines_logs {Bytes} `{!SlateDb Bytes, !Codec Bytes, !RunIds, !SessionCodec Bytes} (d : Db Bytes) ops :
  db_contents d = ∅ -> Forall (fun p => db_op_ok p.2) ops ->
  let '(replies, D) := run_ops (fun p => db_op p.1 p.2) ops (database_new d) in
  exists A, run_ops (fun p => log_db_op p.1 p.2) ops (mkLogs ∅ ∅ ∅ false) = (replies, A) /\
    (ds_warmed D = true -> cs_entries (ds_cache D) = replayed A) /\
    (forall r, run_text r = true -> list_events_from (ds_db D) r 1 = Ok (log_of A r) /\ is_ok (log_state (log_of A r)) = true) /\
    deletion_contained D A.
Proof.
  intros Hd Hops. destruct (db_ops_refine ops _ _ (empty_represents d Hd) Hops) as (D & -> & Hr).
  destruct (run_ops _ ops (mkLogs ∅ ∅ ∅ false)) as [replies A]. cbn [fst snd] in *. exists A. split; [done|]. split; [|split].
  - intros Hw. rewrite (dr_cache _ _ Hr), <- (dr_warm _ _ Hr). by rewrite Hw.
  - intros r Hr'. split; [apply (dh_logs _ _ (dr_db _ _ Hr) r Hr')|]. by destruct (dh_accepted _ _ (dr_db _ _ Hr) r) as [st ->].
  - by apply represents_contains.
Qed.

(** ** An instance *)

#[export, refine] Instance sample_run_ids : RunIds := {|
  run_created_at := fun _ => 0; run_day := fun _ => "2026-03-27";
  run_text := fun r => ((String.length r =? 26)%nat && str_forall (fun c => negb (Ascii.eqb SEP c)) r)%bool;
  run_parse := fun s => if ((String.length s =? 26)%nat && str_forall (fun c => negb (Ascii.eqb SEP c)) s)%bool then Ok s else Err "invalid" |}.
Proof.
  - reflexivity.
  - by intros r [_ Hr]%andb_prop.
  - intros r [Hr _]%andb_prop. by apply Nat.eqb_eq.
  - by intros r ->.
Defined.

#[export, refine] Instance sample_sessions : SessionCodec Value := {|
  marker := JNull; session_bytes := JString; session_of_bytes := fun v => match v with JString r => Some r | _ => None end |}.
Proof. done. Defined.

Definition other_run : RunId := "01JT56VE4Z5NZ814GZN2JZD65B".

Definition payload_for (r : RunId) (name : string) : Value :=
  JObject [("id", JString "1"); ("ts", JString "t"); ("run_id", JString r); ("event", JString name)].

(** Two runs; a write fails; one run is deleted; the process restarts. *)
Definition sample_db_ops : list (bool * DbOp) :=
  [(false, DbListRuns (mkQuery None None None) 0);
   (true, DbCreate true sample_run); (true, DbHandle sample_run (OpAppend false (payload_for sample_run "run.created") 10 true));
   (true, DbCreate true other_run); (true, DbHandle other_run (OpAppend false (payload_for other_run "run.created") 20 true));
   (true, DbHandle sample_run (OpAppend false (payload_for sample_run "run.runnable") 30 false));
   (true, DbPutSession false "t" other_run); (true, DbPutSession true "s" other_run); (true, DbListRuns (mkQuery None None None) 40); (true, DbDelete None other_run);
   (true, DbGetSession "s"); (true, DbOpen other_run); (true, DbRestart); (true, DbListRuns (mkQuery None None None) 50);
   (true, DbReader sample_run (OpList 1 10))].

Definition db_reply_kind (r : DbReply) : string :=
  match r with
  | DoneIs (Ok _) => "done"
  | DoneIs (Err (Rejected (RunNotFound _))) => "not found"
  | DoneIs (Err (Rejected SlateError)) => "no write"
  | HandleIs (Some r) => reply_kind r
  | ReaderIs (Ok r) => reply_kind r
  | RunsAre (Ok l) => "runs " +:+ Z_to_string (Z.of_nat (length l))
  | RunsAre (Err (Rejected SqliteError)) => "no sqlite"
  | SessionIs (Ok None) => "no session"
  | _ => "?"
  end.

Lemma database_refines_logs_witness :
  (run_ops (fun p => db_op p.1 p.2) sample_db_ops (database_new empty_db)).1 =
    (run_ops (fun p => log_db_op p.1 p.2) sample_db_ops (mkLogs ∅ ∅ ∅ false)).1 /\
  db_reply_kind <$> (run_ops (fun p => log_db_op p.1 p.2) sample_db_ops (mkLogs ∅ ∅ ∅ false)).1 =
    ["no sqlite"; "done"; "appended 1"; "done"; "appended 1"; "write failed"; "no write"; "done"; "runs 2"; "done"; "no session";
     "not found"; "done"; "runs 1"; "listed 1"].
Proof.
  split; [|vm_compute; reflexivity].
  pose proof (database_refines_logs empty_db sample_db_ops) as Hdb.
  destruct (run_ops (fun p => db_op p.1 p.2) sample_db_ops (database_new empty_db)) as [replies D].
  destruct Hdb as (A & HA & _).
  - reflexivity.
  - unfold sample_db_ops. repeat (apply Forall_cons; split; [cbn; repeat split; discriminate|]).
    apply Forall_nil. exact I.
  - rewrite HA. reflexivity.
Defined.

(** The deletion of a run of two events, of which the database deletes one and then fails. *)
Definition half_deleted :=
  delete_run true (Some 1%nat) sample_run
    (run_ops (fun p => db_op p.1 p.2)
       [(true, DbListRuns (mkQuery None None None) 0); (true, DbCreate true sample_run);
        (true, DbHandle sample_run (OpAppend false (payload_for sample_run "run.created") 10 true));
        (true, DbHandle sample_run (OpAppend false (payload_for sample_run "run.runnable") 30 true))] (database_new empty_db)).2.

(** A deletion that is broken off leaves the run in the listing, with a part of its log gone. *)
Theorem half_deleted_still_listed :
  half_deleted.1 = Err (Rejected SlateError)
  /\ length <$> result_ok (list_events_from (ds_db half_deleted.2) sample_run 1) = Some 1%nat
  /\ db_reply_kind (db_op true (DbListRuns (mkQuery None None None) 40) half_deleted.2).1 = "runs 1".
Proof. vm_compute. split_and!; reflexivity. Qed.
